(* ===== verification/_CoqProject ===== *)
-Q . S2P
Prelude.v
Bytes.v
GoStrings.v
Hashes.v
Types.v
OsFile.v
Needle.v
NeedleCodec.v
SuperBlock.v
Fs.v
NeedleMap.v
Volume.v
VolumeSpec.v
VolumeCompact.v
VolumeHistory.v
VolumeLocks.v
DiskStore.v
StoreSpec.v
Raft.v
RaftLog.v
RaftNet.v
RaftRuns.v
Sequence.v
MasterSeq.v
LogBuffer.v
Lru.v
LockManager.v
TopoNode.v
VolumeLayout.v
Topology.v
TopologySpec.v
VolumeGrowth.v
GrowthSpec.v
TopologySafe.v
GoPath.v
FilerStore.v
Http.v
GoText.v
StoreView.v
MemoryStore.v
LevelDbStore.v
RedisStore.v
SqlStore.v
CassandraStore.v
Filer.v
FilerSpec.v
FilerServer.v
PathSpec.v
ChunkUpload.v
FilerHttp.v
FilerSafe.v
AsyncReplicator.v
WebDav.v
WebDavTree.v
Quota.v
Dedup.v
Registry.v
Throttle.v
VolumeServer.v
VolumeServerSpec.v
Replication.v
VolumeGrpc.v
VolumeCopySpec.v
ErasureCoding.v
MasterServer.v
MasterSpec.v
Cluster.v
NetIp.v
Security.v
Shell.v
ShellSpec.v
S3Store.v
S3Refine.v
Iam.v
S3Auth.v
Lifecycle.v
S3Server.v
S3Objects.v
