(* ===== verification/Prelude.v ===== *)
(** * GoBlob: a distributed blob store

    GoBlob is written in Go.  A master hands out file ids and places volumes; volume servers
    keep needles, the stored blobs, in append-only volume files; a filer adds names on top;
    an S3 gateway, a WebDAV server and a replicator are clients of the filer, and a shell and
    a client library those of the servers.  This development models these parts as executable
    definitions and proves what they promise.

    ** Files

    Foundations:
    - [Prelude]: machine integers with their wrap-around, the outcome of a Go call
      (value, error, panic), the monad [GoM] of stateful calls that can fail or panic,
      and a logic for the absence of panics.
    - [Bytes], [GoStrings], [GoPath], [GoText], [Http], [NetIp]: big-endian integers, slice
      expressions and CRC-32; the parts of [strconv], [strings], [path], [net/url], [net/http]
      and [net] the code uses, with [DirAndName] of [entry.go] and [isNotFound] of the quota
      and deduplication code.
    - [Hashes]: MD5, SHA-256 and its keyed form.
    - [OsFile], [Fs]: a file with a position on a device of limited size, whose writes can
      be torn; a file system of such files with open, create, remove and rename.  A path
      is a directory, a volume id and an extension, which is how the code forms names.

    Storage ([src/goblob/core/types], [src/goblob/storage]):
    - [Types]: [types.go], file ids, replica placements, times to live, addresses.
    - [Needle]: [needle.go], [needle_write.go], [needle_read.go], [crc32.go];
      [NeedleCodec] proves the codec correct.
    - [SuperBlock]: [superblock.go].
    - [NeedleMap]: [needle_map.go], the index of a volume in memory and on disk.
    - [Volume]: [volume.go] and [compact.go].  [VolumeSpec] relates a volume to a finite
      map of needles, [VolumeCompact] does so for compaction, [VolumeHistory] has the
      theorems about histories of calls, [VolumeLocks] about concurrent ones.
    - [DiskStore]: [disk_location.go] and [store.go]; [StoreSpec] relates a store to a map of
      maps of needles.
    - [Dedup]: [storage/dedup/dedup.go].
    - [ErasureCoding]: [storage/erasure_coding] and [command/volume_ec_encode.go].

    Consensus ([src/goblob/consensus/native], [src/goblob/raft], [src/goblob/sequence]):
    - [Raft]: [engine.go], one function per critical section of the engine's mutex.
    - [RaftLog]: the log under [handleAppendEntries].
    - [RaftNet]: clusters of engines over a network that drops, repeats, delays and
      reorders messages, with nodes that restart from their durable state, as a step
      relation with its inductive invariant.
    - [RaftRuns]: an executable scheduler for that relation, election safety, and runs.
    - [Sequence]: [sequencer.go], [file_sequencer.go], [snowflake_sequencer.go]; the
      interface is a type class whose laws the implementations prove.
    - [MasterSeq]: the state machine of the masters ([fsm.go]) and the sequencer
      replicated with it ([raft_sequencer.go]).

    Topology ([src/goblob/topology]), the master's view of the cluster:
    - [TopoNode]: [node.go], [data_node.go], [rack.go], [data_center.go].  The tree of
      nodes, which is shared by pointers in the code, is a heap of objects.
    - [VolumeLayout]: [volume_layout.go], the replicas of the volumes of one kind.
    - [Topology]: [topology.go].  [TopologySpec] has the invariant of the whole state, that
      every operation keeps it, and the theorem about sequences of heartbeats;
      [TopologySafe] has those about panics, volume ids and dead nodes.
    - [VolumeGrowth]: [volume_growth.go], new volumes, with what the choice of data nodes
      gives; [GrowthSpec] is about reservations and allocations.

    Servers ([src/goblob/server], [src/goblob/replication], [src/goblob/cluster]):
    - [VolumeServer]: [volume_server.go] and the synchronous replicator.  [VolumeServerSpec]
      relates a server to a map of blobs; [Replication] is about what a replica stores.
    - [VolumeGrpc]: [volume_grpc_server.go]; [VolumeCopySpec] is about copies of volumes.
    - [MasterServer]: [master_server.go], [master_server_handlers.go] and
      [master_grpc_server.go], over any sequencer; [MasterSpec] is about what it hands out.
    - [Registry]: [cluster/registry.go].  [Throttle]: the limits on concurrent transfers, as
      a step relation.  [Lru]: [cache/lru.go].
    - [Security]: the guards, tokens, middlewares and limits of [src/goblob/security]; the
      token library is a class with laws.

    Filer ([src/goblob/filer], [src/goblob/server], [src/goblob/operation]), names for
    files over a store of entries:
    - [FilerStore]: [entry.go] and [filer_store.go].  The interface of a store is a type
      class and its laws a second one; the clients are proved against the laws.
    - [MemoryStore], [LevelDbStore], [RedisStore], [SqlStore] (MySQL and PostgreSQL) and
      [CassandraStore]: the implementations with their proofs of the laws, each over a class
      for what it uses of its database; [StoreView] has what they share.  [CassandraStore]
      also has the choice of a store by [storeloader].
    - [Filer]: [filer.go] and [filer_conf.go]; [FilerSpec] has its specification.
    - [FilerServer]: [filer_grpc_server.go].  [FilerHttp]: the handlers for files of
      [filer_server.go].  [FilerSafe] has the theorems about both and the postconditions of
      the calls, over the rules and the facts on paths of [PathSpec].
    - [ChunkUpload]: [operation/client.go], the upload of a stream by three workers, as a
      step relation of the caller, the workers and the two channels between them.
    - [LogBuffer]: [log_buffer.go], the ring of metadata events.
    - [LockManager]: [filer/lock_manager.go].
    - [Quota]: [quota/quota.go] and its use in [s3api/object_handlers.go].

    Clients:
    - [Cluster]: the calls of [operation] and [wdclient], and clients, a master and volume
      servers together.
    - [AsyncReplicator]: [replication/async/replicator.go] between two filers.
    - [WebDav]: [webdav], with sessions on one file; [WebDavTree] is about trees of files.
    - [Shell]: the commands on volumes of [shell]; [ShellSpec] is about moves.
    - [S3Store]: [s3api/filer_client.go]; [S3Refine] relates it to buckets and objects.
    - [Iam]: [s3api/iam] and [server/iam_grpc_server.go].  [S3Auth]: [s3api/auth].
    - [Lifecycle]: [s3api/lifecycle] and [command/lifecycle_process.go].
    - [S3Server]: the handlers of [s3api]; [S3Objects] has the theorem about sequences of
      requests.

    ** What the theorems show

    A volume behaves as a map from ids to needles over any history of writes, deletes
    and restarts, also when the disk is full at any point, and compaction keeps exactly
    the live needles that have not expired; a volume server is a map of blobs, a copied or
    moved volume has the blobs of its source, and the shards of a volume give its blobs back.
    The formats round-trip.  The index file reloads to the map it was written from.

    In a cluster of native engines there is one leader per term, logs merge as the Raft paper
    says, and restarts lose nothing that was durable.  The ids of the sequencers, of masters
    that take turns and of the answers of a master do not repeat.  After any heartbeats the
    master's layouts list exactly the volumes that the data nodes reported last; growing
    volumes gives back every slot it reserved and keeps within the limits of the disks; no
    sequence of operations makes the topology panic.  Together, clients, a master and volume
    servers keep what was stored until it is deleted ([Cluster.cluster_keeps]).  A volume
    server with a guard serves whom its configuration names.

    Every store of the filer has the laws of a store, given those of its database.  Over a
    store with these laws, uploads keep every entry below existing directories, a file that
    was uploaded is what is downloaded, and a directory read page by page is listed
    completely.  A stream of at most nine chunks is uploaded in order by every schedule, and
    throttled uploads end.  The gateway is a map of objects, from its store up to signed
    requests with quotas, and lifecycle runs compute on that map; no request reaches the store
    without a signature, and identities survive in it.  A session with a file over WebDAV is
    one with an array of bytes, removing a tree removes what is below it, and the target of
    the replicator follows its source.

    Where a promise does not hold in general, the theorem states the condition under
    which it does, and a second theorem shows a run without the condition: among them
    elections that hear a stale refusal, a follower whose log is longer than the leader's,
    requests for compacted entries, writes during a compaction, torn index entries, record
    sizes that wrap around in 32 bits, a watermark that cannot be written, a clock that goes
    back, streams of more than nine chunks, a rename to the same path or of a directory, a
    cached blob that was overwritten, a move to a server that has the volume, keys of a
    multi-object delete that leave their bucket, a white list that cannot be read.

    ** Conventions

    Stateful Go methods are functions of the monad [GoM] or explicit state passing; [Fail]
    carries the error, [Panic] is a run-time panic.  Maps are [gmap]s; where the code
    ranges over a map the order is a function argument.  Clocks, random tokens, outcomes of
    calls to code that is not part of the repository, and failures of devices are
    arguments; databases, the Reed-Solomon code, the token library, the texts of JSON, XML
    and protocol buffers and the hash of a deduplicated blob are parameters, with laws where a
    theorem needs them and instances in the witnesses.

    Loops with a bound that is not structural take fuel: [load_fuel] is one more than the
    number of whole entries of an index file, the scan of a data file takes any fuel above the
    number of its records, [parse_frames] the length of its buffer, [evict] the number of
    cached elements, [read_jobs] the length of the stream, [path_Match] the lengths of its
    texts, [v6_groups] the eight groups of an address; the walks over the topology take
    [tree_depth], the four levels the tree has, and those over directories ([walkObjects],
    [deleteTree], [removeAllPath]) the depth of the tree.  The theorems show that these are
    enough, and [RebuildIndex_diverges] that no fuel is where the loop does not end.

    The ratio of garbage, the progress of a copy and the loads of volume.balance, [float64] in
    the code, are rational numbers; the tokens of the rate limiter are 64-bit floats.  The
    threshold for growing volumes is compared as integers.  Counters of type [int] of the
    topology, which count objects in memory, are unbounded.  Text is ASCII where case or
    spaces matter.

    ** Not modelled

    Generated protocol buffers, transports and dialling, timers and tickers, the file store
    and the TCP transport of the native engine and the adapter to another Raft library,
    which are input and output; TLS, the audit log and fixed headers; tiering, whose scanner
    nothing starts; the drivers of the databases; routes, metrics, configuration files, the
    other commands of the shell and the command line. *)

From Stdlib Require Export ZArith Lia Ascii.
From Stdlib Require String.
From stdpp Require Export base tactics option numbers gmap sets strings list.

#[global] Open Scope Z_scope.

(** ** Machine integers

    Go's fixed-width integers are modelled as [Z] with the wrap-around written
    out at each conversion and at each operation that can leave the range. *)

Definition wrap (w x : Z) : Z := x mod 2 ^ w.
Abbreviation u8 := (wrap 8).
Abbreviation u16 := (wrap 16).
Abbreviation u32 := (wrap 32).
Abbreviation u64 := (wrap 64).

(** Signed 64-bit conversion: the representative of [x] modulo [2^64] that lies
    in [-2^63, 2^63). *)
Definition i64 (x : Z) : Z := (x + 2 ^ 63) mod 2 ^ 64 - 2 ^ 63.

(** [in_u w x]: [x] is a value of the unsigned type of [w] bits. *)
Definition in_u (w x : Z) : Prop := 0 <= x < 2 ^ w.

#[global] Instance in_u_dec w x : Decision (in_u w x).
Proof. unfold in_u. apply _. Defined.

(** Linear arithmetic with the ranges of the machine integers. *)
Ltac u_lia := unfold in_u in *; lia.

Lemma wrap_small w x : in_u w x -> wrap w x = x.
Proof. intros H. unfold wrap. apply Z.mod_small, H. Qed.

Lemma wrap_range w x : 0 <= w -> in_u w (wrap w x).
Proof. intros H. unfold wrap, in_u. apply Z.mod_pos_bound. lia. Qed.

Lemma i64_small x : - 2 ^ 63 <= x < 2 ^ 63 -> i64 x = x.
Proof. intros H. unfold i64. rewrite Z.mod_small by lia. lia. Qed.

(** Linear arithmetic with division and remainder by constants. *)
Ltac zlia := Z.to_euclidean_division_equations; lia.

(** ** Lists as Go slices *)

Abbreviation bytes := (list Z).
Abbreviation zlen l := (Z.of_nat (length l)).

Abbreviation is_byte := (in_u 8).

(** ** Outcomes of a Go call

    A call returns a value, returns an error, or panics. *)

Inductive outcome (E A : Type) : Type :=
| Ret (a : A)
| Fail (e : E)
| Panic.
Arguments Ret {E A} a.
Arguments Fail {E A} e.
Arguments Panic {E A}.

(** The value of a call that succeeds. *)
Definition ok {E A} (r : outcome E A) : option A := match r with Ret a => Some a | _ => None end.

(** A method with a receiver of type [S]: the receiver's state after the call is
    kept on the error and panic exits too, as Go keeps it. *)
Definition GoM (S E A : Type) : Type := S -> outcome E A * S.

#[export] Instance GoM_ret {S E} : MRet (GoM S E) := fun A a s => (Ret a, s).
#[export] Instance GoM_bind {S E} : MBind (GoM S E) := fun A B k m s =>
  match m s with
  | (Ret a, s') => k a s'
  | (Fail e, s') => (Fail e, s')
  | (Panic, s') => (Panic, s')
  end.

Section GoM_ops.
Context {S E : Type}.

Definition get : GoM S E S := fun s => (Ret s, s).
Definition put (s : S) : GoM S E unit := fun _ => (Ret tt, s).
Definition modify (f : S -> S) : GoM S E unit := fun s => (Ret tt, f s).
Definition gets {A} (f : S -> A) : GoM S E A := fun s => (Ret (f s), s).
Definition fail {A} (e : E) : GoM S E A := fun s => (Fail e, s).
Definition panic {A} : GoM S E A := fun s => (Panic, s).

(** [if c { return err }] *)
Definition fail_if (c : bool) (e : E) : GoM S E unit :=
  if c then fail e else mret tt.

(** An access that panics when it is out of range. *)
Definition or_panic {A} (o : option A) : GoM S E A :=
  match o with Some a => mret a | None => panic end.

Definition when (c : bool) (m : GoM S E unit) : GoM S E unit :=
  if c then m else mret tt.
End GoM_ops.

Section GoM_laws.
Context {S E A B : Type}.

Lemma bind_ret (a : A) (k : A -> GoM S E B) s : (mret a ≫= k) s = k a s.
Proof. reflexivity. Qed.

Lemma bind_run (m : GoM S E A) (k : A -> GoM S E B) s a s' :
  m s = (Ret a, s') -> (m ≫= k) s = k a s'.
Proof. intros H. unfold mbind, GoM_bind. by rewrite H. Qed.

Lemma bind_fail (m : GoM S E A) (k : A -> GoM S E B) s e s' :
  m s = (Fail e, s') -> (m ≫= k) s = (Fail e, s').
Proof. intros H. unfold mbind, GoM_bind. by rewrite H. Qed.

Lemma bind_ret_inv (m : GoM S E A) (k : A -> GoM S E B) s b s' :
  (m ≫= k) s = (Ret b, s') ->
  exists a s1, m s = (Ret a, s1) /\ k a s1 = (Ret b, s').
Proof.
  unfold mbind, GoM_bind. destruct (m s) as [[a|e|] s1] eqn:Hm; intros H; try done.
  by exists a, s1.
Qed.

Lemma bind_get (k : S -> GoM S E B) s : (get ≫= k) s = k s s.
Proof. reflexivity. Qed.

Lemma bind_modify (f : S -> S) (k : unit -> GoM S E B) s : (modify f ≫= k) s = k tt (f s).
Proof. reflexivity. Qed.

Lemma bind_or_panic (o : option A) (k : A -> GoM S E B) a s :
  o = Some a -> (or_panic o ≫= k) s = k a s.
Proof. by intros ->. Qed.

Lemma bind_fail_if_false (P : Prop) `{Decision P} (e : E) (k : unit -> GoM S E B) s :
  ~ P -> (fail_if (bool_decide P) e ≫= k) s = k tt s.
Proof. intros HP. unfold fail_if. by rewrite bool_decide_eq_false_2. Qed.

Lemma bind_fail_if_true (P : Prop) `{Decision P} (e : E) (k : unit -> GoM S E B) s :
  P -> (fail_if (bool_decide P) e ≫= k) s = (Fail e, s).
Proof. intros HP. unfold fail_if. by rewrite bool_decide_eq_true_2. Qed.
End GoM_laws.

(** Inversion of a successful run, one bind at a time. *)
Lemma fail_if_ret_inv {S E} (P : Prop) `{Decision P} (e : E) (s s' : S) u :
  fail_if (bool_decide P) e s = (Ret u, s') -> ~ P /\ s' = s.
Proof. unfold fail_if. case_bool_decide; [done|]. by intros [= _ ->]. Qed.

Lemma or_panic_ret_inv {S E A} (o : option A) (s s' : S) a :
  or_panic (E:=E) o s = (Ret a, s') -> o = Some a /\ s' = s.
Proof. destruct o; simpl; [|done]. by intros [= -> ->]. Qed.

Ltac run_inv H :=
  let a := fresh "a" in let s := fresh "st" in let H1 := fresh "Hr" in let H2 := fresh "Hr" in
  apply bind_ret_inv in H as (a & s & H1 & H2);
  first
    [ apply fail_if_ret_inv in H1 as [H1 ->]; rename H2 into H
    | apply or_panic_ret_inv in H1 as [H1 ->]; rename H2 into H
    | unfold get in H1; injection H1 as <- <-; rename H2 into H
    | unfold modify in H1; injection H1 as <- <-; rename H2 into H
    | rename H2 into H ].

(** ** Absence of panics

    [safe Q m]: no run of [m] panics, and the results satisfy [Q]. *)
Definition safe {S E A} (Q : A -> Prop) (m : GoM S E A) : Prop :=
  forall s, match fst (m s) with Ret a => Q a | Fail _ => True | Panic => False end.

Section safe.
Context {S E A B : Type}.

Lemma safe_bind (P : A -> Prop) (Q : B -> Prop) (m : GoM S E A) (k : A -> GoM S E B) :
  safe P m -> (forall a, P a -> safe Q (k a)) -> safe Q (m ≫= k).
Proof.
  intros Hm Hk s. specialize (Hm s). unfold mbind, GoM_bind.
  destruct (m s) as [[a|e|] s']; simpl in *; [by apply Hk|done|done].
Qed.

Lemma safe_ret (Q : A -> Prop) a : Q a -> safe Q (mret a : GoM S E A).
Proof. by intros H s. Qed.

Lemma safe_fail_if (P : Prop) `{Decision P} (e : E) :
  safe (S:=S) (fun _ => ~ P) (fail_if (bool_decide P) e).
Proof. intros s. unfold fail_if. by case_bool_decide. Qed.

Lemma safe_or_panic (Q : A -> Prop) (o : option A) :
  (exists a, o = Some a /\ Q a) -> safe Q (or_panic o : GoM S E A).
Proof. intros (a & -> & H) s. done. Qed.

Lemma safe_get : safe (fun _ => True) (get : GoM S E S).
Proof. by intros s. Qed.

Lemma safe_modify (f : S -> S) : safe (fun _ => True) (modify f : GoM S E unit).
Proof. by intros s. Qed.

Lemma safe_weaken (P Q : A -> Prop) (m : GoM S E A) :
  safe P m -> (forall a, P a -> Q a) -> safe Q m.
Proof. intros Hm HPQ s. specialize (Hm s). destruct (fst (m s)); auto. Qed.
End safe.

(** ** Wrapped arithmetic *)

Lemma wrap_add_l w x y : 0 <= w -> wrap w (wrap w x + y) = wrap w (x + y).
Proof. intros H. unfold wrap. apply Zplus_mod_idemp_l. Qed.

Lemma wrap_sub_l w x y : 0 <= w -> wrap w (wrap w x - y) = wrap w (x - y).
Proof. intros H. unfold wrap. apply Zminus_mod_idemp_l. Qed.

Lemma i64_add_l x y : i64 (i64 x + y) = i64 (x + y).
Proof.
  unfold i64. f_equal.
  replace ((x + 2 ^ 63) mod 2 ^ 64 - 2 ^ 63 + y + 2 ^ 63) with ((x + 2 ^ 63) mod 2 ^ 64 + y) by lia.
  rewrite Zplus_mod_idemp_l. f_equal. lia.
Qed.

Lemma i64_sub_l x y : i64 (i64 x - y) = i64 (x - y).
Proof. rewrite <- !Z.add_opp_r. apply i64_add_l. Qed.

(** ** Sums over finite maps *)

Definition msum {K V} `{Countable K} (f : V -> Z) (m : gmap K V) : Z :=
  map_fold (fun _ v a => f v + a) 0 m.

Section msum.
Context {K V : Type} `{Countable K} (f : V -> Z).

Lemma msum_empty : msum f (∅ : gmap K V) = 0.
Proof. apply map_fold_empty. Qed.

Lemma msum_insert_new (m : gmap K V) k v :
  m !! k = None -> msum f (<[k := v]> m) = f v + msum f m.
Proof. intros Hk. unfold msum. by rewrite map_fold_insert_L by (intros; lia || done). Qed.

Lemma msum_delete (m : gmap K V) k v :
  m !! k = Some v -> msum f (delete k m) = msum f m - f v.
Proof.
  intros Hk. rewrite <- (insert_delete_id m k v Hk) at 2.
  rewrite msum_insert_new by apply lookup_delete_eq. lia.
Qed.

Lemma msum_insert (m : gmap K V) k v :
  msum f (<[k := v]> m) = msum f m - default 0 (f <$> m !! k) + f v.
Proof.
  destruct (m !! k) as [v0|] eqn:E; simpl.
  - rewrite <- insert_delete_eq, msum_insert_new, (msum_delete _ _ v0) by
      (done || apply lookup_delete_eq). lia.
  - rewrite msum_insert_new by done. lia.
Qed.

Lemma msum_zero (m : gmap K V) : (forall k v, m !! k = Some v -> f v = 0) -> msum f m = 0.
Proof.
  induction m as [|k v m Hk IH] using map_ind; intros Hz; [apply msum_empty|].
  rewrite msum_insert_new by done. rewrite (Hz k v) by apply lookup_insert_eq.
  rewrite IH; [done|]. intros k' v' Hk'. apply (Hz k').
  rewrite lookup_insert_ne; [done|]. congruence.
Qed.
End msum.

(** ** Lists *)

Lemma filter_all {A} (P : A -> Prop) `{forall x, Decision (P x)} l : Forall P l -> filter P l = l.
Proof. induction 1 as [|x l Hx Hl IH]; [done|]. rewrite filter_cons, decide_True by done. by rewrite IH. Qed.
