(* ===== verification/Bytes.v ===== *)
(** * Bytes: big-endian integers, slices, CRC-32 and files

    What the sources use of Go's standard library on byte slices:
    [encoding/binary.BigEndian], slice expressions with their run-time bound
    checks, [hash/crc32] with the IEEE polynomial, and the calls on [*os.File]
    that the storage engine makes. *)

From S2P Require Import Prelude.

(** ** encoding/binary.BigEndian *)

(** [be_put n x]: the [n] bytes that [PutUint16/32/64] store for [x], most
    significant first; bits above [8*n] are dropped, as the conversion does. *)
Fixpoint be_put (n : nat) (x : Z) : bytes :=
  match n with
  | O => []
  | S n' => be_put n' (x / 256) ++ [x mod 256]
  end.

(** [be_get l]: the integer that [Uint16/32/64] read from [l]. *)
Definition be_get (l : bytes) : Z := fold_left (fun acc b => acc * 256 + b) l 0.

Lemma length_be_put n x : length (be_put n x) = n.
Proof. revert x; induction n as [|n IH]; intros x; simpl; [done|]. rewrite length_app, IH. simpl. lia. Qed.

Lemma be_put_bytes n x : Forall is_byte (be_put n x).
Proof.
  revert x; induction n as [|n IH]; intros x; simpl; [constructor|].
  apply Forall_app; split; [apply IH|]. constructor; [|constructor].
  unfold in_u. change (2 ^ 8) with 256. zlia.
Qed.

Lemma be_get_snoc l b : be_get (l ++ [b]) = be_get l * 256 + b.
Proof. unfold be_get. by rewrite fold_left_app. Qed.

Lemma be_get_put n x : be_get (be_put n x) = x mod 256 ^ Z.of_nat n.
Proof.
  revert x; induction n as [|n IH]; intros x; simpl be_put.
  { change (256 ^ Z.of_nat 0) with 1. by rewrite Z.mod_1_r. }
  rewrite be_get_snoc, IH, Nat2Z.inj_succ, Z.pow_succ_r by lia.
  rewrite (Z.rem_mul_r x 256 (256 ^ Z.of_nat n)) by lia. lia.
Qed.

Lemma be_get_bound l : Forall is_byte l -> 0 <= be_get l < 256 ^ zlen l.
Proof.
  induction l as [|b l IH] using rev_ind; intros Hb; [by cbn|].
  apply Forall_app in Hb as [Hl Hb]. apply Forall_inv in Hb.
  unfold in_u in Hb. change (2 ^ 8) with 256 in Hb. specialize (IH Hl).
  rewrite be_get_snoc, length_app, Nat2Z.inj_add. simpl (length [b]).
  rewrite Z.pow_add_r by lia. change (256 ^ Z.of_nat 1) with 256.
  generalize dependent (256 ^ zlen l). intros q Hq. lia.
Qed.

Lemma be_put_get l : Forall is_byte l -> be_put (length l) (be_get l) = l.
Proof.
  induction l as [|b l IH] using rev_ind; intros Hb; [done|].
  apply Forall_app in Hb as [Hl Hb]. apply Forall_inv in Hb.
  unfold in_u in Hb. change (2 ^ 8) with 256 in Hb.
  rewrite be_get_snoc, length_app. simpl (length [b]). rewrite Nat.add_comm. simpl.
  rewrite Z.div_add_l, (Z.div_small b) by lia. rewrite Z.add_0_r, (IH Hl).
  f_equal. f_equal. zlia.
Qed.

Lemma be_put_get' n l : length l = n -> Forall is_byte l -> be_put n (be_get l) = l.
Proof. intros <-. apply be_put_get. Qed.

Lemma be_get_in_u w n l : length l = n -> 256 ^ Z.of_nat n = 2 ^ w -> Forall is_byte l -> in_u w (be_get l).
Proof. intros <- E Hl. unfold in_u. rewrite <- E. by apply be_get_bound. Qed.

Lemma be_get_put_small n x :
  0 <= x < 256 ^ Z.of_nat n -> be_get (be_put n x) = x.
Proof. intros H. rewrite be_get_put. by apply Z.mod_small. Qed.

Lemma be_put_inj n x y :
  0 <= x < 256 ^ Z.of_nat n -> 0 <= y < 256 ^ Z.of_nat n ->
  be_put n x = be_put n y -> x = y.
Proof.
  intros Hx Hy H%(f_equal be_get). by rewrite !be_get_put_small in H by done.
Qed.

(** ** Packing bytes with shifts and [|] *)
Lemma lor_shift_add a b k : 0 <= k -> 0 <= b < 2 ^ k ->
  Z.lor (Z.shiftl a k) b = a * 2 ^ k + b.
Proof.
  intros Hk Hb. rewrite <- Z.shiftl_mul_pow2 by done. symmetry. apply Z.add_nocarry_lor.
  apply Z.bits_inj'. intros i Hi. rewrite Z.land_spec, Z.bits_0.
  destruct (decide (i < k)); [by rewrite Z.shiftl_spec_low by lia|].
  destruct (decide (b = 0)) as [->|]; [by rewrite Z.bits_0, andb_false_r|].
  rewrite (Z.bits_above_log2 b i), andb_false_r; [done|lia|].
  assert (Z.log2 b < k) by (apply Z.log2_lt_pow2; lia). lia.
Qed.

(** [a << (k+8) | b << k] for a byte [b]. *)
Lemma lor_pack a b k k' : k' = k + 8 -> 0 <= k -> 0 <= b < 256 ->
  Z.lor (Z.shiftl a k') (Z.shiftl b k) = Z.shiftl (a * 256 + b) k.
Proof.
  intros -> Hk Hb. rewrite Z.add_comm, <- Z.shiftl_shiftl, <- Z.shiftl_lor by lia.
  by rewrite lor_shift_add by lia.
Qed.

(** ** Slice expressions [l[lo:hi]]

    The bounds are Go [int]s; an expression out of range panics ([None]). *)
Definition slice {A} (lo hi : Z) (l : list A) : option (list A) :=
  if decide (0 <= lo <= hi /\ hi <= zlen l)
  then Some (take (Z.to_nat (hi - lo)) (drop (Z.to_nat lo) l))
  else None.

(** [l[i]] *)
Definition index {A} (i : Z) (l : list A) : option A :=
  if decide (0 <= i) then l !! Z.to_nat i else None.

Section slices.
Context {A : Type}.
Implicit Types l p m s : list A.

(** The slice that starts after a known prefix. *)
Lemma slice_middle p m s lo hi :
  lo = zlen p -> hi = zlen p + zlen m -> slice lo hi (p ++ m ++ s) = Some m.
Proof.
  intros -> ->. unfold slice. rewrite decide_True
    by (rewrite !length_app; lia).
  rewrite Nat2Z.id, drop_app_length.
  replace (Z.to_nat _) with (length m) by lia. by rewrite take_app_length.
Qed.

Lemma slice_length lo hi l r : slice lo hi l = Some r -> zlen r = hi - lo.
Proof.
  unfold slice. case_decide as H; [|done]. intros [= <-].
  rewrite length_take, length_drop. lia.
Qed.

Lemma index_middle p x s i : i = zlen p -> index i (p ++ x :: s) = Some x.
Proof.
  intros ->. unfold index. rewrite decide_True by lia.
  rewrite Nat2Z.id. by apply list_lookup_middle.
Qed.

Lemma index_lt i l : 0 <= i < zlen l -> is_Some (index i l).
Proof.
  intros H. unfold index. rewrite decide_True by lia. apply lookup_lt_is_Some. lia.
Qed.

Lemma slice_ok lo hi l : 0 <= lo <= hi -> hi <= zlen l -> is_Some (slice lo hi l).
Proof. intros H1 H2. unfold slice. rewrite decide_True by lia. eauto. Qed.

Lemma slice_Forall (P : A -> Prop) lo hi l r :
  Forall P l -> slice lo hi l = Some r -> Forall P r.
Proof.
  unfold slice. case_decide; [|done]. intros HP [= <-].
  by apply Forall_take, Forall_drop.
Qed.
End slices.

(** ** hash/crc32, IEEE polynomial (reflected, 0xEDB88320) *)
Definition crc_bit (c : Z) : Z :=
  if Z.testbit c 0 then Z.lxor (Z.shiftr c 1) 0xEDB88320 else Z.shiftr c 1.

Definition crc_byte (c b : Z) : Z := Nat.iter 8 crc_bit (Z.lxor c b).

(** [h := crc32.NewIEEE(); h.Write(l); h.Sum32()]; writing in several calls is
    writing the concatenation. *)
Definition crc32_ieee (l : bytes) : Z :=
  Z.lxor (fold_left crc_byte l 0xFFFFFFFF) 0xFFFFFFFF.

Example crc32_check_value :
  crc32_ieee [0x31;0x32;0x33;0x34;0x35;0x36;0x37;0x38;0x39] = 0xCBF43926.
Proof. vm_compute. reflexivity. Qed.

(** *** The checksum fits in 32 bits *)
Lemma lxor_range w x y : 0 <= w -> in_u w x -> in_u w y -> in_u w (Z.lxor x y).
Proof.
  unfold in_u. intros Hw Hx Hy.
  assert (0 <= Z.lxor x y) by (apply Z.lxor_nonneg; lia).
  split; [done|].
  destruct (decide (Z.lxor x y = 0)) as [->|Hne]; [lia|].
  apply Z.log2_lt_pow2; [lia|].
  pose proof (Z.log2_lxor x y ltac:(lia) ltac:(lia)) as Hl.
  destruct (decide (w = 0)) as [->|]; [change (2 ^ 0) with 1 in *; assert (x = 0) as -> by lia;
    assert (y = 0) as -> by lia; done|].
  assert (forall z, 0 <= z < 2 ^ w -> Z.log2 z < w) as Hlog.
  { intros z Hz. destruct (decide (z = 0)) as [->|]; [simpl; lia|].
    apply Z.log2_lt_pow2; lia. }
  pose proof (Hlog x Hx). pose proof (Hlog y Hy). lia.
Qed.

Lemma crc_bit_range c : in_u 32 c -> in_u 32 (crc_bit c).
Proof.
  intros Hc. assert (in_u 32 (Z.shiftr c 1)) as Hs.
  { unfold in_u in *. rewrite Z.shiftr_div_pow2 by lia. zlia. }
  unfold crc_bit. destruct (Z.testbit c 0); [|done].
  apply lxor_range; [lia|done|]. by vm_compute.
Qed.

Lemma crc_byte_range c b : in_u 32 c -> is_byte b -> in_u 32 (crc_byte c b).
Proof.
  intros Hc Hb. unfold crc_byte. apply Nat.iter_invariant; [intros; by apply crc_bit_range|].
  apply lxor_range; [lia|done|]. unfold in_u in *. lia.
Qed.

Lemma crc32_range l : Forall is_byte l -> in_u 32 (crc32_ieee l).
Proof.
  intros Hl. unfold crc32_ieee. apply lxor_range; [lia| |by vm_compute].
  assert (in_u 32 0xFFFFFFFF) as Hi by by vm_compute. revert Hi.
  generalize 0xFFFFFFFF. induction Hl as [|b l Hb _ IH]; intros c Hc; simpl; [done|].
  apply IH. by apply crc_byte_range.
Qed.
