(* ===== verification/GoStrings.v ===== *)
(** * GoStrings: what the sources use of [strings], [strconv] and [fmt]

    A Go string is a byte sequence, modelled by [string]; the library calls are
    defined on its characters. *)

From S2P Require Import Prelude.
Open Scope Z_scope.

Abbreviation chars := String.list_ascii_of_string.
Abbreviation str := String.string_of_list_ascii.

Definition code (c : ascii) : Z := Z.of_N (N_of_ascii c).
Definition char (z : Z) : ascii := ascii_of_N (Z.to_N z).

Lemma chars_str l : chars (str l) = l.
Proof. apply String.list_ascii_of_string_of_list_ascii. Qed.

Lemma str_chars s : str (chars s) = s.
Proof. apply String.string_of_list_ascii_of_string. Qed.

Lemma chars_inj s t : chars s = chars t -> s = t.
Proof. intros H%(f_equal str). by rewrite !str_chars in H. Qed.

Lemma str_inj s t : str s = str t -> s = t.
Proof. intros H%(f_equal chars). by rewrite !chars_str in H. Qed.

(** [[]byte(s)] and [string(b)]. *)
Definition to_bytes (s : string) : bytes := code <$> chars s.
Definition of_bytes (b : bytes) : string := str (char <$> b).

Lemma chars_append s t : chars (String.append s t) = chars s ++ chars t.
Proof. induction s as [|c s IH]; simpl; [done|]. by rewrite IH. Qed.

Lemma length_chars s : length (chars s) = String.length s.
Proof. induction s; simpl; auto. Qed.

Lemma code_range c : 0 <= code c < 256.
Proof. unfold code. pose proof (N_ascii_bounded c). lia. Qed.

Lemma char_code c : char (code c) = c.
Proof. unfold char, code. rewrite N2Z.id. apply ascii_N_embedding. Qed.

Lemma code_char z : 0 <= z < 256 -> code (char z) = z.
Proof. intros H. unfold code, char. rewrite N_ascii_embedding; lia. Qed.

(** ** strconv.ParseUint *)

(** The value of a digit in bases up to 36. *)
Definition digit_val (c : ascii) : option Z :=
  let z := code c in
  if decide (48 <= z <= 57) then Some (z - 48)
  else if decide (97 <= z <= 122) then Some (z - 97 + 10)
  else if decide (65 <= z <= 90) then Some (z - 65 + 10)
  else None.

Fixpoint parse_digits (base : Z) (l : list ascii) (acc : Z) : option Z :=
  match l with
  | [] => Some acc
  | c :: l' =>
      d ← digit_val c;
      if decide (d < base) then parse_digits base l' (acc * base + d) else None
  end.

(** [strconv.ParseUint(s, base, bits)] for an explicit base: an error ([None])
    for the empty string, a character that is not a digit of the base, or a
    value that does not fit. *)
Definition ParseUint (l : list ascii) (base bits : Z) : option Z :=
  match l with
  | [] => None
  | _ => n ← parse_digits base l 0;
         if decide (n < 2 ^ bits) then Some n else None
  end.

(** ** strconv.FormatUint and the [%d], [%x] verbs *)

Fixpoint udigits (fuel : nat) (base x : Z) : list Z :=
  match fuel with
  | O => []
  | S f => if decide (x < base) then [x] else udigits f base (x / base) ++ [x mod base]
  end.

Definition digit_char (d : Z) : ascii :=
  if decide (d < 10) then char (48 + d) else char (97 + d - 10).

(** The shortest numeral: a value below [2^n] has at most [n] digits. *)
Definition FormatUint (x base : Z) : list ascii :=
  digit_char <$> udigits (S (Z.to_nat (Z.log2 x))) base x.

(** [%0<w>x]: left-padded with zeros to at least [w] characters. *)
Definition zero_pad (w : nat) (l : list ascii) : list ascii :=
  replicate (w - length l) (char 48) ++ l.

(** ** strings.Index, strings.LastIndex with a one-byte separator, strings.Split *)

Fixpoint index_byte (c : ascii) (l : list ascii) : option nat :=
  match l with
  | [] => None
  | x :: l' => if decide (x = c) then Some O else S <$> index_byte c l'
  end.

Fixpoint last_index_byte (c : ascii) (l : list ascii) : option nat :=
  match l with
  | [] => None
  | x :: l' =>
      match last_index_byte c l' with
      | Some i => Some (S i)
      | None => if decide (x = c) then Some O else None
      end
  end.

Fixpoint split_byte (c : ascii) (l : list ascii) : list (list ascii) :=
  match l with
  | [] => [[]]
  | x :: l' =>
      if decide (x = c) then [] :: split_byte c l'
      else match split_byte c l' with
           | [] => [[x]]
           | p :: ps => (x :: p) :: ps
           end
  end.

(** ** Properties *)

Lemma digit_char_val d : 0 <= d < 16 -> digit_val (digit_char d) = Some d.
Proof.
  intros H.
  assert (d = 0 \/ d = 1 \/ d = 2 \/ d = 3 \/ d = 4 \/ d = 5 \/ d = 6 \/ d = 7 \/
          d = 8 \/ d = 9 \/ d = 10 \/ d = 11 \/ d = 12 \/ d = 13 \/ d = 14 \/ d = 15) by lia.
  repeat (destruct H0 as [->|H0]; [by vm_compute|]). subst. by vm_compute.
Qed.

(** The characters the formatter emits are never separators. *)
Lemma digit_char_code d : 0 <= d < 16 ->
  48 <= code (digit_char d) <= 57 \/ 97 <= code (digit_char d) <= 102.
Proof.
  intros H. unfold digit_char. case_decide; rewrite code_char by lia; lia.
Qed.

Lemma parse_digits_app base l1 l2 acc :
  parse_digits base (l1 ++ l2) acc = parse_digits base l1 acc ≫= parse_digits base l2.
Proof.
  revert acc; induction l1 as [|c l1 IH]; intros acc; simpl; [done|].
  destruct (digit_val c) as [d|]; simpl; [|done]. case_decide; [apply IH|done].
Qed.

Section format.
Context (base : Z) (Hbase : 2 <= base <= 16).

Lemma udigits_range fuel x :
  0 <= x -> Forall (fun d => 0 <= d < base) (udigits fuel base x).
Proof using Hbase.
  revert x; induction fuel as [|f IH]; intros x Hx; simpl; [constructor|].
  case_decide; [by repeat constructor|].
  apply Forall_app; split; [apply IH, Z.div_pos; lia|].
  constructor; [|constructor]. apply Z.mod_pos_bound. lia.
Qed.

Lemma parse_udigits fuel x :
  (0 < fuel)%nat -> 0 <= x < 2 ^ Z.of_nat fuel ->
  parse_digits base (digit_char <$> udigits fuel base x) 0 = Some x.
Proof using Hbase.
  revert x; induction fuel as [|f IH]; intros x Hf Hx; [lia|]. simpl.
  case_decide as Hlt.
  { simpl. rewrite digit_char_val by lia. simpl. rewrite decide_True by lia. f_equal; lia. }
  rewrite fmap_app, parse_digits_app.
  rewrite Nat2Z.inj_succ, Z.pow_succ_r in Hx by lia.
  assert (0 <= x / base < 2 ^ Z.of_nat f) as Hq.
  { split; [apply Z.div_pos; lia|]. apply Z.div_lt_upper_bound; [lia|]. nia. }
  assert (0 < f)%nat.
  { destruct f; [|lia]. change (2 ^ Z.of_nat 0) with 1 in Hx. lia. }
  rewrite IH by done. simpl.
  pose proof (Z.mod_pos_bound x base ltac:(lia)).
  rewrite digit_char_val by lia. simpl. rewrite decide_True by lia.
  f_equal. rewrite (Z.div_mod x base) at 3 by lia. lia.
Qed.

Lemma format_parse x : 0 <= x -> parse_digits base (FormatUint x base) 0 = Some x.
Proof using Hbase.
  intros Hx. unfold FormatUint. apply parse_udigits; [lia|].
  destruct (decide (x = 0)) as [->|]; [by cbn|].
  pose proof (Z.log2_spec x ltac:(lia)) as Hl.
  pose proof (Z.log2_nonneg x).
  rewrite Nat2Z.inj_succ, Z2Nat.id by lia. lia.
Qed.

Lemma FormatUint_nonempty x : FormatUint x base <> [].
Proof using Hbase.
  unfold FormatUint. simpl. case_decide; simpl; [done|]. by destruct (_ <$> _ ++ _) eqn:E;
    [apply (f_equal length) in E; rewrite length_fmap, length_app in E; simpl in E; lia|].
Qed.

Lemma parse_zeros n l :
  parse_digits base (replicate n (char 48) ++ l) 0 = parse_digits base l 0.
Proof using Hbase.
  induction n as [|n IH]; simpl; [done|].
  change (code (char 48) - 48) with 0. rewrite decide_True by lia. apply IH.
Qed.

Lemma length_udigits_le n fuel x :
  (0 < n)%nat -> 0 <= x < base ^ Z.of_nat n -> (length (udigits fuel base x) <= n)%nat.
Proof using Hbase.
  revert n x; induction fuel as [|f IH]; intros n x Hn Hx; simpl; [lia|].
  case_decide as Hlt; [simpl; lia|].
  rewrite length_app. simpl. destruct n as [|[|n]]; [lia| |].
  { change (Z.of_nat 1) with 1 in Hx. rewrite Z.pow_1_r in Hx. lia. }
  rewrite Nat2Z.inj_succ, Z.pow_succ_r in Hx by lia.
  assert (0 <= x / base < base ^ Z.of_nat (S n)) as Hq.
  { split; [apply Z.div_pos; lia|]. apply Z.div_lt_upper_bound; lia. }
  specialize (IH (S n) (x / base) ltac:(lia) Hq). lia.
Qed.

(** Parsing a zero-padded numeral gives the value back. *)
Lemma ParseUint_padded w x bits :
  0 <= x < 2 ^ bits -> ParseUint (zero_pad w (FormatUint x base)) base bits = Some x.
Proof using Hbase.
  intros Hx. unfold ParseUint, zero_pad.
  assert (parse_digits base (replicate (w - length (FormatUint x base)) (char 48)
    ++ FormatUint x base) 0 = Some x) as Hp by (rewrite parse_zeros; apply format_parse; lia).
  destruct (replicate _ _ ++ _) as [|c l] eqn:E.
  { apply app_eq_nil in E as [_ E]. by apply FormatUint_nonempty in E. }
  rewrite Hp. simpl. by rewrite decide_True by lia.
Qed.

Lemma ParseUint_format x bits :
  0 <= x < 2 ^ bits -> ParseUint (FormatUint x base) base bits = Some x.
Proof using Hbase.
  intros Hx. by rewrite <- (ParseUint_padded 0 x bits Hx).
Qed.

(** A value below [base^n] padded to [n] characters has exactly [n]. *)
Lemma length_padded n x :
  (0 < n)%nat -> 0 <= x < base ^ Z.of_nat n ->
  length (zero_pad n (FormatUint x base)) = n.
Proof using Hbase.
  intros Hn Hx. unfold zero_pad, FormatUint. rewrite length_app, length_replicate, length_fmap.
  pose proof (length_udigits_le n (S (Z.to_nat (Z.log2 x))) x Hn Hx). lia.
Qed.

(** No separator occurs in a numeral. *)
Lemma FormatUint_no_byte c x :
  0 <= x -> code c < 48 \/ 57 < code c < 97 -> c ∉ FormatUint x base.
Proof using Hbase.
  intros Hx Hc Hin. unfold FormatUint in Hin.
  apply list_elem_of_fmap in Hin as (d & -> & Hd).
  pose proof (udigits_range (S (Z.to_nat (Z.log2 x))) x Hx) as Hr.
  rewrite list.Forall_forall in Hr. specialize (Hr d Hd).
  destruct (digit_char_code d ltac:(lia)); lia.
Qed.
End format.

Lemma parse_digits_lower base l acc n :
  2 <= base -> 0 <= acc -> parse_digits base l acc = Some n -> acc <= n.
Proof.
  intros Hb. revert acc; induction l as [|c l IH]; simpl; intros acc Hacc H.
  { injection H as ->. lia. }
  destruct (digit_val c) as [d|] eqn:Ed; simpl in H; [|done]. case_decide; [|done].
  assert (0 <= d).
  { unfold digit_val in Ed. repeat case_decide; simplify_eq; lia. }
  apply IH in H; nia.
Qed.

Lemma ParseUint_range l base bits n :
  2 <= base -> ParseUint l base bits = Some n -> in_u bits n.
Proof.
  unfold ParseUint, in_u. destruct l as [|c l]; [done|]. intros Hb H.
  apply bind_Some in H as (m & Hm & H). case_decide; [|done]. injection H as ->.
  apply parse_digits_lower in Hm; lia.
Qed.

Lemma index_byte_app c l1 l2 :
  c ∉ l1 -> index_byte c (l1 ++ c :: l2) = Some (length l1).
Proof.
  induction l1 as [|x l1 IH]; intros Hn; simpl; [by rewrite decide_True|].
  rewrite decide_False by set_solver. rewrite IH by set_solver. done.
Qed.

Lemma index_byte_None c l : c ∉ l -> index_byte c l = None.
Proof.
  induction l as [|x l IH]; intros Hn; simpl; [done|].
  rewrite decide_False by set_solver. rewrite IH by set_solver. done.
Qed.

Lemma last_index_byte_app c l1 l2 :
  c ∉ l2 -> last_index_byte c (l1 ++ c :: l2) = Some (length l1).
Proof.
  intros Hn. assert (last_index_byte c l2 = None) as H2.
  { induction l2 as [|x l2 IH]; simpl; [done|].
    rewrite IH by set_solver. by rewrite decide_False by set_solver. }
  induction l1 as [|x l1 IH]; simpl; [by rewrite H2, decide_True|]. by rewrite IH.
Qed.

Lemma split_byte_nosep c l : c ∉ l -> split_byte c l = [l].
Proof.
  induction l as [|x l IH]; intros Hn; simpl; [done|].
  rewrite decide_False by set_solver. by rewrite IH by set_solver.
Qed.

Lemma split_byte_app c l1 l2 :
  c ∉ l1 -> split_byte c (l1 ++ c :: l2) = l1 :: split_byte c l2.
Proof.
  induction l1 as [|x l1 IH]; intros Hn; simpl; [by rewrite decide_True|].
  rewrite decide_False by set_solver. by rewrite IH by set_solver.
Qed.
