(* ===== verification/Hashes.v ===== *)
(** * Hashes: MD5 and SHA-256

    What the servers use of Go's [crypto/md5], the tag of a stored blob, and of
    [crypto/sha256] and [crypto/hmac], the signatures of requests.  The words of the
    algorithms are 32-bit integers.  First [md5.Sum] and its rendering with ["%x"]. *)

From S2P Require Import Prelude Bytes GoStrings.

Definition md5_shifts : list Z :=
  concat (replicate 4 [7; 12; 17; 22] ++ replicate 4 [5; 9; 14; 20] ++ replicate 4 [4; 11; 16; 23] ++
          replicate 4 [6; 10; 15; 21]).

(** The integer parts of [2^32 * |sin i|] for [i] from 1 to 64. *)
Definition md5_sines : list Z :=
  [3614090360; 3905402710; 606105819; 3250441966; 4118548399; 1200080426; 2821735955; 4249261313;
   1770035416; 2336552879; 4294925233; 2304563134; 1804603682; 4254626195; 2792965006; 1236535329;
   4129170786; 3225465664; 643717713; 3921069994; 3593408605; 38016083; 3634488961; 3889429448;
   568446438; 3275163606; 4107603335; 1163531501; 2850285829; 4243563512; 1735328473; 2368359562;
   4294588738; 2272392833; 1839030562; 4259657740; 2763975236; 1272893353; 4139469664; 3200236656;
   681279174; 3936430074; 3572445317; 76029189; 3654602809; 3873151461; 530742520; 3299628645;
   4096336452; 1126891415; 2878612391; 4237533241; 1700485571; 2399980690; 4293915773; 2240044497;
   1873313359; 4264355552; 2734768916; 1309151649; 4149444226; 3174756917; 718787259; 3951481745].

Record md5_state := mkMd5 { md5_a : Z; md5_b : Z; md5_c : Z; md5_d : Z }.

Definition md5_init : md5_state := mkMd5 0x67452301 0xefcdab89 0x98badcfe 0x10325476.

Definition not32 (x : Z) : Z := Z.lxor x (2 ^ 32 - 1).
Definition rotl32 (x k : Z) : Z := Z.lor (u32 (Z.shiftl x k)) (Z.shiftr x (32 - k)).

(** The little-endian bytes of [x], and the integer of little-endian bytes. *)
Definition le_put (n : nat) (x : Z) : bytes := reverse (be_put n x).
Definition le_get (l : bytes) : Z := be_get (reverse l).

(** Round [i] on the words [m] of the block, with its shift and its constant. *)
Definition md5_round (m : list Z) (i s k : Z) (st : md5_state) : md5_state :=
  let '(mkMd5 a b c d) := st in
  let '(f, g) :=
    if decide (i < 16) then (Z.lor (Z.land b c) (Z.land (not32 b) d), i)
    else if decide (i < 32) then (Z.lor (Z.land d b) (Z.land (not32 d) c), (5 * i + 1) mod 16)
    else if decide (i < 48) then (Z.lxor (Z.lxor b c) d, (3 * i + 5) mod 16)
    else (Z.lxor c (Z.lor b (not32 d)), (7 * i) mod 16) in
  let f := u32 (f + a + k + default 0 (m !! Z.to_nat g)) in
  mkMd5 d (u32 (b + rotl32 f s)) b c.

Fixpoint md5_rounds (m : list Z) (i : Z) (ss ks : list Z) (st : md5_state) : md5_state :=
  match ss, ks with
  | s :: ss, k :: ks => md5_rounds m (i + 1) ss ks (md5_round m i s k st)
  | _, _ => st
  end.

(** [n] groups of [k] bytes. *)
Fixpoint groups (n k : nat) (l : bytes) : list bytes :=
  match n with O => [] | S n => take k l :: groups n k (drop k l) end.

Definition md5_block (st : md5_state) (block : bytes) : md5_state :=
  let r := md5_rounds (le_get <$> groups 16 4 block) 0 md5_shifts md5_sines st in
  mkMd5 (u32 (md5_a st + md5_a r)) (u32 (md5_b st + md5_b r)) (u32 (md5_c st + md5_c r)) (u32 (md5_d st + md5_d r)).

Definition md5_pad (data : bytes) : bytes :=
  data ++ [0x80] ++ replicate (Z.to_nat ((55 - zlen data) mod 64)) 0 ++ le_put 8 (8 * zlen data).

Definition md5_Sum (data : bytes) : bytes :=
  let p := md5_pad data in
  let st := fold_left md5_block (groups (length p / 64) 64 p) md5_init in
  le_put 4 (md5_a st) ++ le_put 4 (md5_b st) ++ le_put 4 (md5_c st) ++ le_put 4 (md5_d st).

(** [fmt.Sprintf("%x", b)] *)
Definition hex_bytes (b : bytes) : string :=
  str (concat ((fun x => [digit_char (x / 16); digit_char (x mod 16)]) <$> b)).

Definition md5_hex (data : bytes) : string := hex_bytes (md5_Sum data).

Example md5_empty : md5_hex [] = "d41d8cd98f00b204e9800998ecf8427e"%string.
Proof. vm_compute. reflexivity. Qed.

Example md5_digits :
  md5_hex (code <$> chars "12345678901234567890123456789012345678901234567890123456789012345678901234567890"%string) =
    "57edf4a22be3c955ac49da2e2107b67a"%string.
Proof. vm_compute. reflexivity. Qed.

(** * The hash of the request signatures

    What the S3 gateway uses of Go's [crypto/sha256] and [crypto/hmac]: [sha256.Sum256],
    and the keyed hash built on it. *)

(** ** The constants *)

(** The first [n] primes from [p] on, among [fuel] candidates. *)
Fixpoint primes_from (fuel n : nat) (p : Z) : list Z :=
  match fuel, n with
  | S fuel, S n' =>
      if forallb (fun d => negb (p mod d =? 0)) (seqZ 2 (p - 2)) then p :: primes_from fuel n' (p + 1)
      else primes_from fuel n (p + 1)
  | _, _ => []
  end.

(** The integer part of the cube root of [x], which is below [lo + 2 ^ bits], by bisection. *)
Fixpoint cube_root (bits : nat) (x lo : Z) : Z :=
  match bits with
  | O => lo
  | S b => let mid := lo + 2 ^ Z.of_nat b in cube_root b x (if mid ^ 3 <=? x then mid else lo)
  end.

(** The fractional parts of the cube roots of the first 64 primes, in 32 bits. *)
Definition sha_constants : list Z :=
  Eval vm_compute in (fun p => cube_root 36 (p * 2 ^ 96) 0 mod 2 ^ 32) <$> primes_from 400 64 2.

Record sha_state := mkSha { sh_a : Z; sh_b : Z; sh_c : Z; sh_d : Z; sh_e : Z; sh_f : Z; sh_g : Z; sh_h : Z }.

(** Those of the square roots of the first eight primes. *)
Definition sha_init : sha_state := Eval vm_compute in
  match (fun p => Z.sqrt (p * 2 ^ 64) mod 2 ^ 32) <$> primes_from 400 8 2 with
  | [a; b; c; d; e; f; g; h] => mkSha a b c d e f g h
  | _ => mkSha 0 0 0 0 0 0 0 0
  end.

Definition rotr32 (x k : Z) : Z := rotl32 x (32 - k).
Definition xor3 (x y z : Z) : Z := Z.lxor (Z.lxor x y) z.

(** [n] more words of the schedule; the words so far, the last one first. *)
Fixpoint sha_extend (n : nat) (w : list Z) : list Z :=
  match n with
  | O => w
  | S n =>
      let at_ i := default 0 (w !! i) in
      let s0 := xor3 (rotr32 (at_ 14%nat) 7) (rotr32 (at_ 14%nat) 18) (Z.shiftr (at_ 14%nat) 3) in
      let s1 := xor3 (rotr32 (at_ 1%nat) 17) (rotr32 (at_ 1%nat) 19) (Z.shiftr (at_ 1%nat) 10) in
      sha_extend n (u32 (at_ 15%nat + s0 + at_ 6%nat + s1) :: w)
  end.

Definition sha_schedule (block : bytes) : list Z := reverse (sha_extend 48 (reverse (be_get <$> groups 16 4 block))).

Definition sha_round (st : sha_state) (kw : Z * Z) : sha_state :=
  let '(mkSha a b c d e f g h) := st in
  let s1 := xor3 (rotr32 e 6) (rotr32 e 11) (rotr32 e 25) in
  let ch := Z.lxor (Z.land e f) (Z.land (not32 e) g) in
  let t1 := u32 (h + s1 + ch + fst kw + snd kw) in
  let s0 := xor3 (rotr32 a 2) (rotr32 a 13) (rotr32 a 22) in
  let maj := xor3 (Z.land a b) (Z.land a c) (Z.land b c) in
  mkSha (u32 (t1 + u32 (s0 + maj))) a b c (u32 (d + t1)) e f g.

Definition sha_block (st : sha_state) (block : bytes) : sha_state :=
  let r := fold_left sha_round (zip sha_constants (sha_schedule block)) st in
  mkSha (u32 (sh_a st + sh_a r)) (u32 (sh_b st + sh_b r)) (u32 (sh_c st + sh_c r)) (u32 (sh_d st + sh_d r))
        (u32 (sh_e st + sh_e r)) (u32 (sh_f st + sh_f r)) (u32 (sh_g st + sh_g r)) (u32 (sh_h st + sh_h r)).

Definition sha_pad (data : bytes) : bytes :=
  data ++ [0x80] ++ replicate (Z.to_nat ((55 - zlen data) mod 64)) 0 ++ be_put 8 (8 * zlen data).

Definition sha256 (data : bytes) : bytes :=
  let p := sha_pad data in
  let st := fold_left sha_block (groups (length p / 64) 64 p) sha_init in
  concat (be_put 4 <$> [sh_a st; sh_b st; sh_c st; sh_d st; sh_e st; sh_f st; sh_g st; sh_h st]).

(** [hmac.New(sha256.New, key)], then [Write] and [Sum(nil)]. *)
Definition hmac_sha256 (key data : bytes) : bytes :=
  let key := if decide (64 < zlen key) then sha256 key else key in
  let key := key ++ replicate (64 - length key) 0 in
  sha256 ((Z.lxor 0x5c <$> key) ++ sha256 ((Z.lxor 0x36 <$> key) ++ data)).

Example sha256_empty : hex_bytes (sha256 []) = "e3b0c44298fc1c149afbf4c8996fb92427ae41e4649b934ca495991b7852b855"%string.
Proof. vm_compute. reflexivity. Qed.

Example sha256_two_blocks :
  hex_bytes (sha256 (to_bytes "abcdbcdecdefdefgefghfghighijhijkijkljklmklmnlmnomnopnopq"%string)) =
    "248d6a61d20638b8e5c026930c3e6039a33ce45964ff2167f6ecedd419db06c1"%string.
Proof. vm_compute. reflexivity. Qed.

Example hmac_sha256_jefe :
  hex_bytes (hmac_sha256 (to_bytes "Jefe"%string) (to_bytes "what do ya want for nothing?"%string)) =
    "5bdcc146bf60754e6a042426089575c75a003f089d2739839dec58b964ec3843"%string.
Proof. vm_compute. reflexivity. Qed.
