(* ===== verification/Types.v ===== *)
(** * Types: the identifiers and encodings of [core/types/types.go]

    File identifiers and their textual form, replica placements and their byte,
    TTLs, needle offsets, and server addresses. *)

From S2P Require Import Prelude GoStrings.

(** ** Constants *)
Definition NeedleAlignmentSize : Z := 8.
Definition TombstoneFileSize : Z := 0.
Definition NeedleIndexSize : Z := 16.
Definition MaxVolumeSize : Z := 8 * 1024 * 1024 * 1024.
Definition NeedleVersionV1 : Z := 1.
Definition NeedleVersionV2 : Z := 2.
Definition NeedleVersionV3 : Z := 3.
Definition CurrentNeedleVersion : Z := NeedleVersionV3.
Definition GRPCPortOffset : Z := 10000.

Inductive types_err :=
| ErrNoComma | ErrHexTooShort | ErrVolumeId | ErrCookie | ErrNeedleId
| ErrTtlTooShort | ErrTtlCount | ErrTtlUnit
| ErrAddressFormat.

(** ** Offsets: [Offset] is a [uint32] holding the byte offset divided by 8 *)
Definition ToActualOffset (o : Z) : Z := i64 (o * NeedleAlignmentSize).
Definition ToEncoded (actualOffset : Z) : Z := u32 (Z.quot actualOffset NeedleAlignmentSize).

(** ** FileId: ["<VolumeId>,<NeedleId><Cookie>"] *)
Record FileId := mkFileId {
  fid_VolumeId : Z;
  fid_NeedleId : Z;
  fid_Cookie : Z;
}.

Definition FileId_wf (f : FileId) : Prop :=
  in_u 32 (fid_VolumeId f) /\ in_u 64 (fid_NeedleId f) /\ in_u 32 (fid_Cookie f).

Definition comma : ascii := char 44.

(** [fmt.Sprintf("%d,%016x%08x", ...)] *)
Definition FileId_chars (f : FileId) : list ascii :=
  FormatUint (fid_VolumeId f) 10 ++ comma ::
  zero_pad 16 (FormatUint (fid_NeedleId f) 16) ++
  zero_pad 8 (FormatUint (fid_Cookie f) 16).

Definition FileId_String (f : FileId) : string := str (FileId_chars f).

Definition ParseFileId (s0 : string) : outcome types_err FileId :=
  let s := chars s0 in
  match index_byte comma s with
  | None => Fail ErrNoComma
  | Some commaIdx =>
      let volumeIdStr := take commaIdx s in
      let rest := drop (S commaIdx) s in
      if decide (length rest < 9)%nat then Fail ErrHexTooShort else
      match ParseUint volumeIdStr 10 32 with
      | None => Fail ErrVolumeId
      | Some volumeId =>
          let cookieStr := drop (length rest - 8) rest in
          match ParseUint cookieStr 16 32 with
          | None => Fail ErrCookie
          | Some cookie =>
              let needleIdStr := take (length rest - 8) rest in
              match ParseUint needleIdStr 16 64 with
              | None => Fail ErrNeedleId
              | Some needleId => Ret (mkFileId volumeId needleId cookie)
              end
          end
      end
  end.

(** ** ReplicaPlacement: three counters packed in a byte *)
Record ReplicaPlacement := mkReplicaPlacement {
  DifferentDataCenterCount : Z;
  DifferentRackCount : Z;
  SameRackCount : Z;
}.

Definition rp_Byte (rp : ReplicaPlacement) : Z :=
  Z.lor (Z.lor (u8 (Z.shiftl (Z.land (DifferentDataCenterCount rp) 0x07) 5))
               (u8 (Z.shiftl (Z.land (DifferentRackCount rp) 0x07) 2)))
        (Z.land (SameRackCount rp) 0x03).

Definition ParseReplicaPlacement (b : Z) : ReplicaPlacement :=
  mkReplicaPlacement (Z.land (Z.shiftr b 5) 0x07)
                     (Z.land (Z.shiftr b 2) 0x07)
                     (Z.land b 0x03).

Definition TotalCopies (rp : ReplicaPlacement) : Z :=
  1 + DifferentDataCenterCount rp + DifferentRackCount rp + SameRackCount rp.

(** [fmt.Sprintf("%d%d%d", ...)] *)
Definition rp_String (rp : ReplicaPlacement) : string :=
  str (FormatUint (DifferentDataCenterCount rp) 10 ++
       FormatUint (DifferentRackCount rp) 10 ++
       FormatUint (SameRackCount rp) 10).

(** The digit at position [i], or 0 when the character is not a digit. *)
Definition rp_digit (c : ascii) : Z :=
  if decide (48 <= code c <= 57) then u8 (code c - 48) else 0.

Definition ParseReplicaPlacementString (s : string) : ReplicaPlacement :=
  match chars s with
  | c0 :: c1 :: c2 :: _ => mkReplicaPlacement (rp_digit c0) (rp_digit c1) (rp_digit c2)
  | _ => mkReplicaPlacement 0 0 0
  end.

(** ** TTL: a count and a unit character *)
Record TTL := mkTTL { ttl_Count : Z; ttl_Unit : Z }.

Definition TTLUnitMinute : Z := 109. (* 'm' *)
Definition TTLUnitHour : Z := 104.   (* 'h' *)
Definition TTLUnitDay : Z := 100.    (* 'd' *)
Definition TTLUnitWeek : Z := 119.   (* 'w' *)
Definition TTLUnitMonth : Z := 77.   (* 'M' *)
Definition TTLUnitYear : Z := 121.   (* 'y' *)

Definition TTLUnits : list Z :=
  [TTLUnitMinute; TTLUnitHour; TTLUnitDay; TTLUnitWeek; TTLUnitMonth; TTLUnitYear].

Definition TTL_zero : TTL := mkTTL 0 0.
Definition IsNeverExpire (t : TTL) : bool := bool_decide (ttl_Count t = 0).
Definition TTL_Bytes (t : TTL) : bytes := [ttl_Count t; ttl_Unit t].

Definition ParseTTL (s0 : string) : outcome types_err TTL :=
  let s := chars s0 in
  if decide (s = []) then Ret TTL_zero else
  if decide (length s < 2)%nat then Fail ErrTtlTooShort else
  let countStr := take (length s - 1) s in
  match last s with
  | None => Fail ErrTtlTooShort
  | Some unitChar =>
      match ParseUint countStr 10 8 with
      | None => Fail ErrTtlCount
      | Some count =>
          if decide (code unitChar ∈ TTLUnits) then Ret (mkTTL (u8 count) (code unitChar))
          else Fail ErrTtlUnit
      end
  end.

(** [%c] of a unit, all of which are ASCII. *)
Definition TTL_String (t : TTL) : string :=
  if decide (ttl_Count t = 0) then ""%string
  else str (FormatUint (ttl_Count t) 10 ++ [char (ttl_Unit t)]).

(** ** ServerAddress *)
Definition colon : ascii := char 58.
Definition dot : ascii := char 46.

Definition splitHostPort (s : list ascii) : outcome types_err (list ascii * list ascii) :=
  match split_byte colon s with
  | [host; port] => Ret (host, port)
  | _ => Fail ErrAddressFormat
  end.

(** The position of the dot that starts an explicit gRPC port, when the text
    after the last dot is a decimal port. *)
Definition explicit_grpc (s : list ascii) : option nat :=
  idx ← last_index_byte dot s;
  _ ← ParseUint (drop (S idx) s) 10 32;
  Some idx.

Definition ToGrpcAddress (sa : string) : string :=
  let s := chars sa in
  match explicit_grpc s with
  | Some _ => sa
  | None =>
      match splitHostPort s with
      | Ret (host, portStr) =>
          match ParseUint portStr 10 32 with
          | None => sa
          | Some port => str (host ++ colon :: FormatUint (u64 (port + GRPCPortOffset)) 10)
          end
      | _ => sa
      end
  end.

Definition ToHttpAddress (sa : string) : string :=
  let s := chars sa in
  match explicit_grpc s with
  | Some idx => str (take idx s)
  | None => sa
  end.

Definition Host (sa : string) : string :=
  match splitHostPort (chars sa) with
  | Ret (host, _) => str host
  | _ => sa
  end.

Example FileId_String_ex :
  FileId_String (mkFileId 3 0x01637037 0xd6) = "3,0000000001637037000000d6"%string.
Proof. vm_compute. reflexivity. Qed.

Example ToGrpcAddress_ex :
  ToGrpcAddress "127.0.0.1:9333" = "127.0.0.1:19333"%string /\
  ToGrpcAddress "h:9333.19999" = "h:9333.19999"%string /\
  ToHttpAddress "h:9333.19999" = "h:9333"%string.
Proof. vm_compute. done. Qed.

(** ** Properties of file identifiers *)

Lemma length_hex16 x : in_u 64 x -> length (zero_pad 16 (FormatUint x 16)) = 16%nat.
Proof. intros H. apply length_padded; [lia|lia|]. exact H. Qed.

Lemma length_hex8 x : in_u 32 x -> length (zero_pad 8 (FormatUint x 16)) = 8%nat.
Proof. intros H. apply length_padded; [lia|lia|]. exact H. Qed.

Lemma FileId_chars_comma f :
  FileId_wf f -> index_byte comma (FileId_chars f) = Some (length (FormatUint (fid_VolumeId f) 10)).
Proof.
  intros (Hv & _ & _). unfold FileId_chars. apply index_byte_app.
  apply FormatUint_no_byte; [lia|unfold in_u in Hv; lia|].
  left. by vm_compute.
Qed.

(** Printing a file identifier and parsing the text gives the identifier
    back, for every volume id, needle id and cookie of their widths. *)
Theorem FileId_roundtrip (f : FileId) :
  FileId_wf f -> ParseFileId (FileId_String f) = Ret f.
Proof.
  intros Hwf. pose proof (FileId_chars_comma f Hwf) as Hidx. destruct Hwf as (Hv & Hn & Hc).
  unfold ParseFileId, FileId_String. rewrite chars_str, Hidx. unfold FileId_chars.
  rewrite take_app_length, drop_app_ge by lia.
  replace (S (length _) - length _)%nat with 1%nat by lia. simpl (drop 1 _). rewrite drop_0.
  rewrite length_app, length_hex16, length_hex8 by done. simpl (16 + 8)%nat.
  rewrite decide_False by lia. rewrite ParseUint_format by (unfold in_u in *; lia).
  rewrite drop_app_length' by (rewrite length_hex16 by done; lia).
  rewrite take_app_length' by (rewrite length_hex16 by done; lia).
  rewrite !ParseUint_padded by (unfold in_u in *; lia). by destruct f.
Qed.

Lemma FileId_roundtrip_witness :
  FileId_wf (mkFileId 3 0x01637037 0xd6) /\
  ParseFileId (FileId_String (mkFileId 3 0x01637037 0xd6)) = Ret (mkFileId 3 0x01637037 0xd6).
Proof.
  assert (FileId_wf (mkFileId 3 0x01637037 0xd6)) as H by (repeat split; by vm_compute).
  split; [exact H|]. exact (FileId_roundtrip _ H).
Defined.

(** Whatever the parser accepts is in range, so printing it is lossless. *)
Lemma ParseFileId_wf s f : ParseFileId s = Ret f -> FileId_wf f.
Proof.
  unfold ParseFileId. intros H. repeat case_match; simplify_eq.
  refine (conj _ (conj _ _)); simpl; (eapply ParseUint_range; [|eassumption]; lia).
Qed.

(** ** Properties of replica placements *)

Definition rp_fits (rp : ReplicaPlacement) : Prop :=
  0 <= DifferentDataCenterCount rp < 8 /\ 0 <= DifferentRackCount rp < 8 /\
  0 <= SameRackCount rp < 4.

Lemma rp_Byte_value rp :
  rp_Byte rp = (DifferentDataCenterCount rp mod 8) * 32 +
               (DifferentRackCount rp mod 8) * 4 + SameRackCount rp mod 4.
Proof.
  unfold rp_Byte.
  change 0x03 with (Z.ones 2). change 0x07 with (Z.ones 3).
  rewrite !Z.land_ones by lia. change (2 ^ 3) with 8. change (2 ^ 2) with 4.
  pose proof (Z.mod_pos_bound (DifferentDataCenterCount rp) 8 ltac:(lia)) as Hd.
  pose proof (Z.mod_pos_bound (DifferentRackCount rp) 8 ltac:(lia)) as Hr.
  pose proof (Z.mod_pos_bound (SameRackCount rp) 4 ltac:(lia)) as Hs.
  revert Hd Hr Hs. generalize (DifferentDataCenterCount rp mod 8) (DifferentRackCount rp mod 8)
    (SameRackCount rp mod 4). intros d r s Hd Hr Hs.
  assert (Forall (fun d => Forall (fun r => Forall (fun s =>
    Z.lor (Z.lor (u8 (Z.shiftl d 5)) (u8 (Z.shiftl r 2))) s = d * 32 + r * 4 + s)
      (seqZ 0 4)) (seqZ 0 8)) (seqZ 0 8)) as H
    by (apply (bool_decide_unpack _); vm_compute; exact I).
  rewrite list.Forall_forall in H. specialize (H d ltac:(apply elem_of_seqZ; lia)).
  cbv beta in H.
  rewrite list.Forall_forall in H. specialize (H r ltac:(apply elem_of_seqZ; lia)).
  cbv beta in H.
  rewrite list.Forall_forall in H. exact (H s ltac:(apply elem_of_seqZ; lia)).
Qed.

Lemma ParseReplicaPlacement_value b :
  ParseReplicaPlacement b = mkReplicaPlacement (b / 32 mod 8) (b / 4 mod 8) (b mod 4).
Proof.
  unfold ParseReplicaPlacement. rewrite !Z.shiftr_div_pow2 by lia.
  change 0x03 with (Z.ones 2). change 0x07 with (Z.ones 3).
  by rewrite !Z.land_ones by lia.
Qed.

Lemma rp_parse_byte (rp : ReplicaPlacement) :
  ParseReplicaPlacement (rp_Byte rp) = rp <-> rp_fits rp.
Proof.
  rewrite ParseReplicaPlacement_value, rp_Byte_value. destruct rp as [d r s].
  unfold rp_fits. simpl. split.
  - intros [= H1 H2 H3]. rewrite <- H1, <- H2, <- H3. zlia.
  - intros H. f_equal; zlia.
Qed.

Lemma rp_Byte_range (rp : ReplicaPlacement) : is_byte (rp_Byte rp).
Proof. rewrite rp_Byte_value. unfold in_u. change (2 ^ 8) with 256. zlia. Qed.

(** Decoding the byte of a replica placement keeps its counts modulo the
    width of each field, so the encoding is lossless exactly for the placements
    whose counts fit, and every byte is the encoding of what it decodes to. *)
Theorem ReplicaPlacement_roundtrip (rp : ReplicaPlacement) (b : Z) :
  (ParseReplicaPlacement (rp_Byte rp) = rp <-> rp_fits rp) /\
  (is_byte b -> rp_Byte (ParseReplicaPlacement b) = b).
Proof.
  split; [apply rp_parse_byte|].
  - intros Hb. unfold in_u in Hb. change (2 ^ 8) with 256 in Hb.
    rewrite ParseReplicaPlacement_value, rp_Byte_value. simpl. zlia.
Qed.

Lemma ReplicaPlacement_roundtrip_witness :
  rp_Byte (ParseReplicaPlacement 0xAB) = 0xAB.
Proof. apply (ReplicaPlacement_roundtrip (mkReplicaPlacement 0 0 0) 0xAB). by vm_compute. Defined.

(** ** Properties of offsets *)

(** An 8-byte aligned offset below 32 GiB survives the trip through the
    [uint32] index field. *)
Lemma Offset_roundtrip (off : Z) :
  0 <= off < 8 * 2 ^ 32 -> off mod NeedleAlignmentSize = 0 ->
  ToActualOffset (ToEncoded off) = off /\ in_u 32 (ToEncoded off).
Proof.
  unfold ToEncoded, ToActualOffset, NeedleAlignmentSize. intros H1 H2.
  rewrite Z.quot_div_nonneg by lia.
  assert (in_u 32 (off / 8)) as Hr by (unfold in_u; zlia).
  rewrite wrap_small by done. split; [|done]. unfold in_u in Hr.
  rewrite i64_small by lia. zlia.
Qed.

(** ** Properties of TTLs *)

Definition TTL_wf (t : TTL) : Prop := 0 < ttl_Count t < 256 /\ ttl_Unit t ∈ TTLUnits.

(** A TTL with a positive count and a known unit survives printing and
    parsing; the TTL that never expires is printed as the empty string and
    parsed back as the zero TTL. *)
Theorem TTL_roundtrip (t : TTL) :
  TTL_wf t \/ ttl_Count t = 0 ->
  ParseTTL (TTL_String t) = Ret (if IsNeverExpire t then TTL_zero else t).
Proof.
  intros [[Hc Hu]|Hz]; unfold ParseTTL, TTL_String, IsNeverExpire.
  2: { rewrite bool_decide_eq_true_2 by done. by destruct (decide (ttl_Count t = 0)). }
  rewrite bool_decide_eq_false_2 by lia.
  destruct (decide (ttl_Count t = 0)) as [|_]; [lia|]. rewrite chars_str.
  pose proof (FormatUint_nonempty 10 ltac:(lia) (ttl_Count t)) as Hne.
  assert (0 < length (FormatUint (ttl_Count t) 10))%nat as Hlen.
  { destruct (FormatUint (ttl_Count t) 10); [done|simpl; lia]. }
  rewrite decide_False by (intros E%(f_equal length); rewrite length_app in E; simpl in E; lia).
  rewrite length_app. simpl (length [_]). rewrite decide_False by lia.
  rewrite last_snoc, take_app_length' by lia.
  rewrite ParseUint_format by lia.
  assert (0 <= ttl_Unit t < 256) as Hub.
  { unfold TTLUnits in Hu. repeat (apply elem_of_cons in Hu as [->|Hu]; [by vm_compute|]).
    by apply elem_of_nil in Hu. }
  rewrite code_char by done. rewrite decide_True by done.
  rewrite wrap_small by u_lia. by destruct t.
Qed.

Lemma TTL_roundtrip_witness :
  (TTL_wf (mkTTL 3 TTLUnitDay) \/ ttl_Count (mkTTL 3 TTLUnitDay) = 0) /\
  ParseTTL (TTL_String (mkTTL 3 TTLUnitDay)) = Ret (mkTTL 3 TTLUnitDay).
Proof.
  assert (TTL_wf (mkTTL 3 TTLUnitDay) \/ ttl_Count (mkTTL 3 TTLUnitDay) = 0) as H.
  { left. split; [simpl; lia|]. unfold TTLUnits; simpl. set_solver. }
  split; [exact H|]. exact (TTL_roundtrip _ H).
Defined.

(** ** Properties of server addresses *)

Lemma ParseUint_bad_char c l base bits :
  c ∈ l -> digit_val c = None -> ParseUint l base bits = None.
Proof.
  intros Hin Hd. assert (forall acc, parse_digits base l acc = None) as Hp.
  { induction l as [|x l IH]; [by apply elem_of_nil in Hin|]. intros acc. simpl.
    apply elem_of_cons in Hin as [<-|Hin]; [by rewrite Hd|].
    destruct (digit_val x); simpl; [|done]. case_decide; [by apply IH|done]. }
  unfold ParseUint. destruct l; [done|]. by rewrite Hp.
Qed.

(** The text after the last dot of ["host:port"] holds the colon when the dot is
    in the host, so it is not read as an explicit port. *)
Lemma explicit_grpc_none host port :
  dot ∉ port -> explicit_grpc (host ++ colon :: port) = None.
Proof.
  intros Hp. unfold explicit_grpc.
  assert (forall i, last_index_byte dot (host ++ colon :: port) = Some i -> (i < length host)%nat) as Hi.
  { assert (last_index_byte dot (colon :: port) = None) as Hn.
    { simpl. assert (last_index_byte dot port = None) as ->; [|done].
      clear -Hp. induction port as [|x p IH]; simpl; [done|].
      rewrite IH by set_solver. by rewrite decide_False by set_solver. }
    revert Hn. generalize (colon :: port). intros l Hn.
    induction host as [|x h IH]; simpl; intros i H; [congruence|].
    destruct (last_index_byte dot (h ++ l)) as [k|] eqn:Ek.
    - injection H as <-. specialize (IH k eq_refl). lia.
    - case_decide; [injection H as <-; lia|done]. }
  destruct (last_index_byte dot _) as [i|] eqn:Ei; [|done]. simpl.
  rewrite (ParseUint_bad_char colon); [done| |by vm_compute].
  rewrite drop_app_le by (specialize (Hi i eq_refl); lia). set_solver.
Qed.

(** The gRPC address of ["host:port"] is the same host with the port moved
    up by the fixed offset, for every host without a colon (dotted or not) and
    every 32-bit port; the host part is what [Host] returns for both. *)
Theorem ToGrpcAddress_spec (host : string) (port : Z) :
  colon ∉ chars host -> in_u 32 port ->
  let addr := str (chars host ++ colon :: FormatUint port 10) in
  let grpc := str (chars host ++ colon :: FormatUint (port + GRPCPortOffset) 10) in
  ToGrpcAddress addr = grpc /\ Host addr = host /\ Host grpc = host /\ ToHttpAddress addr = addr.
Proof.
  intros Hc Hp addr grpc. unfold in_u in Hp.
  assert (forall p, 0 <= p -> splitHostPort (chars host ++ colon :: FormatUint p 10)
            = Ret (chars host, FormatUint p 10)) as Hs.
  { intros p Hp0. unfold splitHostPort. rewrite split_byte_app by done.
    rewrite split_byte_nosep; [done|]. apply FormatUint_no_byte; [lia|done|].
    right. by vm_compute. }
  assert (explicit_grpc (chars host ++ colon :: FormatUint port 10) = None) as He.
  { apply explicit_grpc_none. apply FormatUint_no_byte; [lia|lia|]. left. by vm_compute. }
  unfold ToGrpcAddress, ToHttpAddress, Host, addr, grpc. rewrite !chars_str, He.
  rewrite !Hs by (unfold GRPCPortOffset; lia). rewrite ParseUint_format by lia.
  rewrite wrap_small by (unfold in_u, GRPCPortOffset; lia). by rewrite str_chars.
Qed.

Lemma ToGrpcAddress_spec_witness :
  ToGrpcAddress "10.0.0.7:8080" = "10.0.0.7:18080"%string.
Proof.
  assert (colon ∉ chars "10.0.0.7"%string) as H1 by (apply (bool_decide_unpack _); vm_compute; exact I).
  assert (in_u 32 8080) as H2 by by vm_compute.
  exact (proj1 (ToGrpcAddress_spec "10.0.0.7" 8080 H1 H2)).
Defined.
