(* ===== verification/OsFile.v ===== *)
(** * OsFile: the calls the storage engine makes on an open [*os.File]

    An open file is its contents, the cursor, and the size the device lets it
    grow to: a write past that size stores the bytes that fit and returns an
    error, which is how a full disk shows up in the code. *)

From S2P Require Import Prelude Bytes.

Record file := mkFile {
  f_data : bytes;
  f_pos : Z;
  f_limit : Z;
}.

Inductive io_err := ENOSPC | EOF | ErrUnexpectedEOF | ENOENT | ErrInvalid.

(** Overwriting [d] from offset [off] on; a gap is filled with zeros. *)
Definition splice (d : bytes) (off : nat) (b : bytes) : bytes :=
  if decide (b = []) then d
  else take off d ++ replicate (off - length d) 0 ++ b ++ drop (off + length b) d.

(** [f.Write(b)] *)
Definition f_Write (b : bytes) : GoM file io_err unit := fun f =>
  let n := Z.min (zlen b) (Z.max 0 (f_limit f - f_pos f)) in
  let f' := mkFile (splice (f_data f) (Z.to_nat (f_pos f)) (take (Z.to_nat n) b))
                   (f_pos f + n) (f_limit f) in
  (if decide (n = zlen b) then Ret tt else Fail ENOSPC, f').

(** [f.WriteAt(b, off)]: the cursor does not move. *)
Definition f_WriteAt (b : bytes) (off : Z) : GoM file io_err unit := fun f =>
  let n := Z.min (zlen b) (Z.max 0 (f_limit f - off)) in
  let f' := mkFile (splice (f_data f) (Z.to_nat off) (take (Z.to_nat n) b))
                   (f_pos f) (f_limit f) in
  (if decide (n = zlen b) then Ret tt else Fail ENOSPC, f').

(** [f.Seek(0, io.SeekEnd)] and [f.Seek(off, io.SeekStart)] *)
Definition f_SeekEnd : GoM file io_err Z := fun f =>
  (Ret (zlen (f_data f)), mkFile (f_data f) (zlen (f_data f)) (f_limit f)).
Definition f_SeekStart (off : Z) : GoM file io_err unit := fun f =>
  (Ret tt, mkFile (f_data f) off (f_limit f)).

(** [f.ReadAt(buf, off)] with [len(buf) = n]: an error unless all [n] bytes are
    there. *)
Definition f_ReadAt (n off : Z) (f : file) : outcome io_err bytes :=
  if decide (n = 0) then Ret []
  else if decide (0 <= off /\ off + n <= zlen (f_data f))
  then Ret (take (Z.to_nat n) (drop (Z.to_nat off) (f_data f)))
  else Fail EOF.

(** [io.ReadFull(f, buf)] with [len(buf) = n > 0], from the cursor. *)
Definition f_ReadFull (n : Z) : GoM file io_err bytes := fun f =>
  let rest := drop (Z.to_nat (f_pos f)) (f_data f) in
  if decide (rest = []) then (Fail EOF, f)
  else if decide (zlen rest < n)
  then (Fail ErrUnexpectedEOF, mkFile (f_data f) (zlen (f_data f)) (f_limit f))
  else (Ret (take (Z.to_nat n) rest), mkFile (f_data f) (f_pos f + n) (f_limit f)).

(** ** io.Writer

    The interface the needle serializer is written against, and what an
    appending writer with enough room promises. *)
Class Writer (W : Type) := io_Write : bytes -> GoM W io_err unit.

#[export] Instance file_Writer : Writer file := f_Write.

(** *** Files written at their end *)

Definition at_end (f : file) : Prop := f_pos f = zlen (f_data f).

Definition extend (f : file) (b : bytes) : file :=
  mkFile (f_data f ++ b) (zlen (f_data f ++ b)) (f_limit f).

Lemma splice_end d b : splice d (length d) b = d ++ b.
Proof.
  unfold splice. case_decide as H; [subst; by rewrite app_nil_r|].
  rewrite take_ge, drop_ge, Nat.sub_diag by lia. simpl. by rewrite app_nil_r.
Qed.

Lemma at_end_extend f b : at_end (extend f b).
Proof. done. Qed.

Lemma f_SeekEnd_run f :
  f_SeekEnd f = (Ret (zlen (f_data f)), extend f []).
Proof. unfold f_SeekEnd, extend. by rewrite app_nil_r. Qed.

Lemma extend_extend f a b : extend (extend f a) b = extend f (a ++ b).
Proof. unfold extend. simpl. by rewrite app_assoc. Qed.

(** Whatever happens, a write at the end of the file appends a prefix of what
    was asked for: what was in the file stays where it was. *)
Lemma f_Write_cases f b :
  at_end f ->
  f_Write b f = (Ret tt, extend f b) /\ zlen (f_data f ++ b) <= Z.max (zlen (f_data f)) (f_limit f) \/
  f_limit f < zlen (f_data f ++ b) /\
  exists k, f_Write b f = (Fail ENOSPC, extend f (take k b)) /\
    zlen (f_data f ++ take k b) <= Z.max (zlen (f_data f)) (f_limit f).
Proof.
  unfold at_end. intros Hpos. unfold f_Write.
  set (n := Z.min _ _). assert (0 <= n <= zlen b) by lia.
  assert (mkFile (splice (f_data f) (Z.to_nat (f_pos f)) (take (Z.to_nat n) b)) (f_pos f + n) (f_limit f)
    = extend f (take (Z.to_nat n) b)) as ->.
  { unfold extend. rewrite Hpos, Nat2Z.id, splice_end. f_equal.
    rewrite length_app, length_take. lia. }
  rewrite length_app. case_decide as Hn; [left|right].
  - rewrite take_ge by lia. split; [done|lia].
  - split; [lia|]. exists (Z.to_nat n). rewrite length_app, length_take. split; [done|lia].
Qed.

(** A write that fails leaves no room. *)
Lemma f_Write_full f b e f' :
  at_end f -> f_Write b f = (Fail e, f') -> f_limit f <= zlen (f_data f').
Proof.
  unfold at_end, f_Write. intros Hpos. case_decide as Hn; [done|]. intros [= _ <-]. cbn [f_data].
  rewrite Hpos, Nat2Z.id, splice_end, length_app, length_take. lia.
Qed.

(** Reading a range back from a file that holds it. *)
Lemma f_ReadAt_middle p m s off f :
  f_data f = p ++ m ++ s -> off = zlen p -> f_ReadAt (zlen m) off f = Ret m.
Proof.
  intros Hd ->. unfold f_ReadAt. rewrite Hd. case_decide as Hm.
  { destruct m; [done|simpl in Hm; lia]. }
  rewrite decide_True by (rewrite !length_app; lia).
  by rewrite !Nat2Z.id, drop_app_length, take_app_length.
Qed.

(** Appending to a file does not change what can be read from it. *)
Lemma f_ReadAt_extend n off f b r :
  0 <= n -> f_ReadAt n off f = Ret r -> f_ReadAt n off (extend f b) = Ret r.
Proof.
  intros Hn0. unfold f_ReadAt, extend. case_decide as Hn; [done|]. simpl.
  case_decide as Hr; [|done]. intros [= <-].
  rewrite decide_True by (rewrite length_app; lia).
  rewrite drop_app_le by lia. rewrite take_app_le by (rewrite length_drop; lia). done.
Qed.
