(* ===== verification/Needle.v ===== *)
(** * Needle: the on-disk blob record of [storage/needle]

    The needle, its flags and size computation ([needle.go], [crc32.go]), the
    serializer ([needle_write.go]) and the parser ([needle_read.go]). *)

From S2P Require Import Prelude Bytes Types OsFile.

(** ** The record *)
Record Needle := mkNeedle {
  n_Cookie : Z;        (* uint32 *)
  n_Id : Z;            (* uint64 *)
  n_Size : Z;          (* uint32: total on-disk size *)
  n_DataSize : Z;      (* uint32 *)
  n_Data : bytes;
  n_Flags : Z;         (* uint8 *)
  n_Name : bytes;
  n_Mime : bytes;
  n_Pairs : bytes;
  n_LastModified : Z;  (* uint64, stored as 5 bytes *)
  n_Ttl : TTL;
  n_Checksum : Z;      (* uint32 *)
  n_AppendAtNs : Z;    (* uint64 *)
}.

Definition zero_needle : Needle := mkNeedle 0 0 0 0 [] 0 [] [] [] 0 TTL_zero 0 0.

Definition FlagHasName : Z := 0x01.
Definition FlagHasMime : Z := 0x02.
Definition FlagHasLastModified : Z := 0x04.
Definition FlagHasTtl : Z := 0x08.
Definition FlagHasPairs : Z := 0x10.
Definition FlagIsCompressed : Z := 0x20.

Definition MaxNeedleNameSize : Z := 255.
Definition MaxNeedleMimeSize : Z := 255.
Definition MaxNeedlePairsSize : Z := 65535.

Inductive needle_err :=
| ErrShortHeader | ErrShortBody | ErrBodyTooSmall | ErrDataSize | ErrAtFlags
| ErrNameSize | ErrNameData | ErrMimeSize | ErrMimeData | ErrPairsSize | ErrPairsData
| ErrLastModified | ErrAtTtl | ErrFooter
| ErrChecksumMismatch | ErrCookieMismatch
| ErrWriteHeader (e : io_err) | ErrWriteBody (e : io_err) | ErrWriteFooter (e : io_err)
| ErrWritePadding (e : io_err) | ErrReadData (e : io_err).

Definition has_flag (flag : Z) (n : Needle) : bool := bool_decide (Z.land (n_Flags n) flag <> 0).
Definition IsCompressed := has_flag FlagIsCompressed.
Definition HasName := has_flag FlagHasName.
Definition HasMime := has_flag FlagHasMime.
Definition HasLastModified := has_flag FlagHasLastModified.
Definition HasTtl := has_flag FlagHasTtl.
Definition HasPairs := has_flag FlagHasPairs.

(** Field updates *)
Definition set_Cookie v n := mkNeedle v (n_Id n) (n_Size n) (n_DataSize n) (n_Data n) (n_Flags n)
  (n_Name n) (n_Mime n) (n_Pairs n) (n_LastModified n) (n_Ttl n) (n_Checksum n) (n_AppendAtNs n).
Definition set_Id v n := mkNeedle (n_Cookie n) v (n_Size n) (n_DataSize n) (n_Data n) (n_Flags n)
  (n_Name n) (n_Mime n) (n_Pairs n) (n_LastModified n) (n_Ttl n) (n_Checksum n) (n_AppendAtNs n).
Definition set_Size v n := mkNeedle (n_Cookie n) (n_Id n) v (n_DataSize n) (n_Data n) (n_Flags n)
  (n_Name n) (n_Mime n) (n_Pairs n) (n_LastModified n) (n_Ttl n) (n_Checksum n) (n_AppendAtNs n).
Definition set_DataSize v n := mkNeedle (n_Cookie n) (n_Id n) (n_Size n) v (n_Data n) (n_Flags n)
  (n_Name n) (n_Mime n) (n_Pairs n) (n_LastModified n) (n_Ttl n) (n_Checksum n) (n_AppendAtNs n).
Definition set_Data v n := mkNeedle (n_Cookie n) (n_Id n) (n_Size n) (n_DataSize n) v (n_Flags n)
  (n_Name n) (n_Mime n) (n_Pairs n) (n_LastModified n) (n_Ttl n) (n_Checksum n) (n_AppendAtNs n).
Definition set_Flags v n := mkNeedle (n_Cookie n) (n_Id n) (n_Size n) (n_DataSize n) (n_Data n) v
  (n_Name n) (n_Mime n) (n_Pairs n) (n_LastModified n) (n_Ttl n) (n_Checksum n) (n_AppendAtNs n).
Definition set_Name v n := mkNeedle (n_Cookie n) (n_Id n) (n_Size n) (n_DataSize n) (n_Data n)
  (n_Flags n) v (n_Mime n) (n_Pairs n) (n_LastModified n) (n_Ttl n) (n_Checksum n) (n_AppendAtNs n).
Definition set_Mime v n := mkNeedle (n_Cookie n) (n_Id n) (n_Size n) (n_DataSize n) (n_Data n)
  (n_Flags n) (n_Name n) v (n_Pairs n) (n_LastModified n) (n_Ttl n) (n_Checksum n) (n_AppendAtNs n).
Definition set_Pairs v n := mkNeedle (n_Cookie n) (n_Id n) (n_Size n) (n_DataSize n) (n_Data n)
  (n_Flags n) (n_Name n) (n_Mime n) v (n_LastModified n) (n_Ttl n) (n_Checksum n) (n_AppendAtNs n).
Definition set_LastModified v n := mkNeedle (n_Cookie n) (n_Id n) (n_Size n) (n_DataSize n) (n_Data n)
  (n_Flags n) (n_Name n) (n_Mime n) (n_Pairs n) v (n_Ttl n) (n_Checksum n) (n_AppendAtNs n).
Definition set_Ttl v n := mkNeedle (n_Cookie n) (n_Id n) (n_Size n) (n_DataSize n) (n_Data n)
  (n_Flags n) (n_Name n) (n_Mime n) (n_Pairs n) (n_LastModified n) v (n_Checksum n) (n_AppendAtNs n).
Definition set_Checksum v n := mkNeedle (n_Cookie n) (n_Id n) (n_Size n) (n_DataSize n) (n_Data n)
  (n_Flags n) (n_Name n) (n_Mime n) (n_Pairs n) (n_LastModified n) (n_Ttl n) v (n_AppendAtNs n).
Definition set_AppendAtNs v n := mkNeedle (n_Cookie n) (n_Id n) (n_Size n) (n_DataSize n) (n_Data n)
  (n_Flags n) (n_Name n) (n_Mime n) (n_Pairs n) (n_LastModified n) (n_Ttl n) (n_Checksum n) v.

(** ** The setters of [needle.go] *)
Definition add_flag (flag : Z) (n : Needle) : Needle := set_Flags (Z.lor (n_Flags n) flag) n.

Definition SetCompressed (n : Needle) : Needle := add_flag FlagIsCompressed n.
Definition SetName (name : bytes) (n : Needle) : Needle :=
  add_flag FlagHasName (set_Name (take (Z.to_nat MaxNeedleNameSize) name) n).
Definition SetMime (mime : bytes) (n : Needle) : Needle :=
  add_flag FlagHasMime (set_Mime (take (Z.to_nat MaxNeedleMimeSize) mime) n).
Definition SetLastModified (ts : Z) (n : Needle) : Needle :=
  add_flag FlagHasLastModified (set_LastModified ts n).
Definition SetTtl (t : TTL) (n : Needle) : Needle := add_flag FlagHasTtl (set_Ttl t n).
Definition SetPairs (pairs : bytes) (n : Needle) : Needle :=
  add_flag FlagHasPairs (set_Pairs (take (Z.to_nat MaxNeedlePairsSize) pairs) n).

Definition GetLastModified (n : Needle) : Z := if HasLastModified n then n_LastModified n else 0.
Definition GetMime (n : Needle) : bytes := if HasMime n then n_Mime n else [].
Definition GetName (n : Needle) : bytes := if HasName n then n_Name n else [].
Definition GetPairs (n : Needle) : bytes := if HasPairs n then n_Pairs n else [].
Definition IsDeleted (n : Needle) : bool := bool_decide (n_DataSize n = 0).

(** [BodySize]: all additions are in [uint32]. *)
Definition add32 (a b : Z) : Z := u32 (a + b).
Definition BodySize (n : Needle) : Z :=
  let size := add32 (add32 4 (n_DataSize n)) 1 in
  let size := if HasName n then add32 size (add32 1 (u32 (zlen (n_Name n)))) else size in
  let size := if HasMime n then add32 size (add32 1 (u32 (zlen (n_Mime n)))) else size in
  let size := if HasPairs n then add32 size (add32 2 (u32 (zlen (n_Pairs n)))) else size in
  let size := if HasLastModified n then add32 size 5 else size in
  if HasTtl n then add32 size 2 else size.

(** ** Checksum: CRC-32 over cookie, id and body *)
Definition NewCRC32 (cookie id : Z) (body : bytes) : Z :=
  crc32_ieee (be_put 4 cookie ++ be_put 8 id ++ body).

(** ** 40-bit integers *)
Definition writeUint40BigEndian (v : Z) : bytes :=
  [Z.land (Z.shiftr v 32) 0xFF; Z.land (Z.shiftr v 24) 0xFF; Z.land (Z.shiftr v 16) 0xFF;
   Z.land (Z.shiftr v 8) 0xFF; Z.land v 0xFF].

Definition readUint40BigEndian (buf : bytes) : option Z :=
  match buf with
  | b0 :: b1 :: b2 :: b3 :: b4 :: _ =>
      Some (Z.lor (Z.lor (Z.lor (Z.lor (Z.shiftl b0 32) (Z.shiftl b1 24)) (Z.shiftl b2 16))
                         (Z.shiftl b3 8)) b4)
  | _ => None
  end.

(** ** Alignment padding *)
Definition NeedleAlignPadding (n : Z) : Z :=
  let rem := Z.rem n NeedleAlignmentSize in
  if decide (rem = 0) then 0 else NeedleAlignmentSize - rem.

(** ** [bodyBytes]: the body by appending, used to verify the checksum *)
Definition enc_name (n : Needle) : bytes :=
  if HasName n then u8 (zlen (n_Name n)) :: n_Name n else [].
Definition enc_mime (n : Needle) : bytes :=
  if HasMime n then u8 (zlen (n_Mime n)) :: n_Mime n else [].
Definition enc_pairs (n : Needle) : bytes :=
  if HasPairs n then be_put 2 (u16 (zlen (n_Pairs n))) ++ n_Pairs n else [].
Definition enc_lastmod (n : Needle) : bytes :=
  if HasLastModified n then writeUint40BigEndian (n_LastModified n) else [].
Definition enc_ttl (n : Needle) : bytes :=
  if HasTtl n then TTL_Bytes (n_Ttl n) else [].

Definition bodyBytes (n : Needle) : bytes :=
  be_put 4 (n_DataSize n) ++ n_Data n ++ [n_Flags n] ++
  enc_name n ++ enc_mime n ++ enc_pairs n ++ enc_lastmod n ++ enc_ttl n.

(** ** [buildBodyBytes]: the body in a buffer of the computed size

    The buffer is the state; a slice expression or an index out of range
    panics. *)

(** [copy(body[lo:hi], src)] *)
Definition copy_into {E} (lo hi : Z) (src : bytes) : GoM bytes E unit := fun body =>
  if decide (0 <= lo <= hi /\ hi <= zlen body)
  then let src' := take (Z.to_nat (hi - lo)) src in
       (Ret tt, take (Z.to_nat lo) body ++ src' ++ drop (Z.to_nat lo + length src') body)
  else (Panic, body).

(** [body[i] = v] *)
Definition set_index {E} (i v : Z) : GoM bytes E unit := fun body =>
  if decide (0 <= i < zlen body) then (Ret tt, <[Z.to_nat i := v]> body) else (Panic, body).

(** The fields after the flags, each returning the new offset. *)
Definition build_name (n : Needle) (offset : Z) : GoM bytes needle_err Z :=
  if HasName n then
    set_index offset (u8 (zlen (n_Name n)));;
    copy_into (offset + 1) (offset + 1 + zlen (n_Name n)) (n_Name n);;
    mret (offset + 1 + zlen (n_Name n))
  else mret offset.

Definition build_mime (n : Needle) (offset : Z) : GoM bytes needle_err Z :=
  if HasMime n then
    set_index offset (u8 (zlen (n_Mime n)));;
    copy_into (offset + 1) (offset + 1 + zlen (n_Mime n)) (n_Mime n);;
    mret (offset + 1 + zlen (n_Mime n))
  else mret offset.

Definition build_pairs (n : Needle) (offset : Z) : GoM bytes needle_err Z :=
  if HasPairs n then
    copy_into offset (offset + 2) (be_put 2 (u16 (zlen (n_Pairs n))));;
    copy_into (offset + 2) (offset + 2 + zlen (n_Pairs n)) (n_Pairs n);;
    mret (offset + 2 + zlen (n_Pairs n))
  else mret offset.

Definition build_lastmod (n : Needle) (offset : Z) : GoM bytes needle_err Z :=
  if HasLastModified n then
    copy_into offset (offset + 5) (writeUint40BigEndian (n_LastModified n));;
    mret (offset + 5)
  else mret offset.

Definition build_ttl (n : Needle) (offset : Z) : GoM bytes needle_err unit :=
  if HasTtl n then copy_into offset (offset + 2) (TTL_Bytes (n_Ttl n)) else mret tt.

Definition build_fields (n : Needle) : GoM bytes needle_err unit :=
  copy_into 0 4 (be_put 4 (n_DataSize n));;
  copy_into 4 (4 + n_DataSize n) (n_Data n);;
  set_index (4 + n_DataSize n) (n_Flags n);;
  offset ← build_name n (4 + n_DataSize n + 1);
  offset ← build_mime n offset;
  offset ← build_pairs n offset;
  offset ← build_lastmod n offset;
  build_ttl n offset.

Definition buildBodyBytes (n : Needle) : outcome needle_err bytes :=
  match build_fields n (replicate (Z.to_nat (BodySize n)) 0) with
  | (Ret _, body) => Ret body
  | (Fail e, _) => Fail e
  | (Panic, _) => Panic
  end.

(** ** Footer *)
Definition buildFooterBytes (n : Needle) (version : Z) : bytes :=
  be_put 4 (n_Checksum n) ++
  (if decide (version >= NeedleVersionV3) then be_put 8 (n_AppendAtNs n) else []).

(** ** [WriteTo] *)
Section WriteTo.
Context {W : Type} `{Writer W}.

(** One [w.Write] with the error it is wrapped in. *)
Definition write_part (wrap_err : io_err -> needle_err) (b : bytes)
  : GoM (Needle * W) needle_err unit := fun '(n, w) =>
  match io_Write b w with
  | (Ret _, w') => (Ret tt, (n, w'))
  | (Fail e, w') => (Fail (wrap_err e), (n, w'))
  | (Panic, w') => (Panic, (n, w'))
  end.

Definition on_needle (f : Needle -> Needle) : GoM (Needle * W) needle_err unit :=
  modify (fun '(n, w) => (f n, w)).

Definition WriteTo (version : Z) : GoM (Needle * W) needle_err Z :=
  n ← gets fst;
  body ← (fun s => (buildBodyBytes n, s));
  let checksum := NewCRC32 (n_Cookie n) (n_Id n) body in
  on_needle (set_Checksum checksum);;
  let footer := buildFooterBytes (set_Checksum checksum n) version in
  let bodySize := u32 (zlen body + zlen footer) in
  let header := be_put 4 (n_Cookie n) ++ be_put 8 (n_Id n) ++ be_put 4 bodySize in
  write_part ErrWriteHeader header;;
  write_part ErrWriteBody body;;
  write_part ErrWriteFooter footer;;
  let totalSize := zlen header + zlen body + zlen footer in
  let padding := NeedleAlignPadding totalSize in
  when (bool_decide (padding > 0))
    (write_part ErrWritePadding (replicate (Z.to_nat padding) 0));;
  let totalSize := totalSize + padding in
  on_needle (set_Size (u32 totalSize));;
  mret totalSize.
End WriteTo.

(** ** [VerifyChecksum] *)
Definition VerifyChecksum (n : Needle) : outcome needle_err unit :=
  let computed := NewCRC32 (n_Cookie n) (n_Id n) (bodyBytes n) in
  if decide (computed <> n_Checksum n) then Fail ErrChecksumMismatch else Ret tt.

(** ** [ReadFrom]

    The receiver is the state: the fields parsed before an error stay set. *)
Abbreviation reader := (GoM Needle needle_err).

Definition read_name (body : bytes) (pos : Z) : reader Z :=
  n ← get;
  if HasName n then
    fail_if (bool_decide (pos >= zlen body)) ErrNameSize;;
    nameSize ← or_panic (index pos body);
    let pos := pos + 1 in
    fail_if (bool_decide (pos + nameSize > zlen body)) ErrNameData;;
    name ← or_panic (slice pos (pos + nameSize) body);
    modify (set_Name name);;
    mret (pos + nameSize)
  else mret pos.

Definition read_mime (body : bytes) (pos : Z) : reader Z :=
  n ← get;
  if HasMime n then
    fail_if (bool_decide (pos >= zlen body)) ErrMimeSize;;
    mimeSize ← or_panic (index pos body);
    let pos := pos + 1 in
    fail_if (bool_decide (pos + mimeSize > zlen body)) ErrMimeData;;
    mime ← or_panic (slice pos (pos + mimeSize) body);
    modify (set_Mime mime);;
    mret (pos + mimeSize)
  else mret pos.

Definition read_pairs (body : bytes) (pos : Z) : reader Z :=
  n ← get;
  if HasPairs n then
    fail_if (bool_decide (pos + 2 > zlen body)) ErrPairsSize;;
    sz ← or_panic (slice pos (pos + 2) body);
    let pairsSize := be_get sz in
    let pos := pos + 2 in
    fail_if (bool_decide (pos + pairsSize > zlen body)) ErrPairsData;;
    pairs ← or_panic (slice pos (pos + pairsSize) body);
    modify (set_Pairs pairs);;
    mret (pos + pairsSize)
  else mret pos.

Definition read_lastmod (body : bytes) (pos : Z) : reader Z :=
  n ← get;
  if HasLastModified n then
    fail_if (bool_decide (pos + 5 > zlen body)) ErrLastModified;;
    buf ← or_panic (slice pos (pos + 5) body);
    v ← or_panic (readUint40BigEndian buf);
    modify (set_LastModified v);;
    mret (pos + 5)
  else mret pos.

Definition read_ttl (body : bytes) (pos : Z) : reader Z :=
  n ← get;
  if HasTtl n then
    fail_if (bool_decide (pos + 2 > zlen body)) ErrAtTtl;;
    count ← or_panic (index pos body);
    unit_ ← or_panic (index (pos + 1) body);
    modify (set_Ttl (mkTTL count unit_));;
    mret (pos + 2)
  else mret pos.

Definition read_footer (body : bytes) (footerStart version : Z) : reader unit :=
  let footerSize := if decide (version >= NeedleVersionV3) then 12 else 4 in
  let footerEnd := footerStart + footerSize in
  fail_if (bool_decide (footerEnd > zlen body)) ErrFooter;;
  footer ← or_panic (slice footerStart footerEnd body);
  c ← or_panic (slice 0 4 footer);
  modify (set_Checksum (be_get c));;
  when (bool_decide (version >= NeedleVersionV3))
    (a ← or_panic (slice 4 12 footer); modify (set_AppendAtNs (be_get a))).

(** The data and the flags. *)
Definition read_data (body : bytes) : reader Z :=
  ds ← or_panic (slice 0 4 body);
  let dataSize := be_get ds in
  modify (set_DataSize dataSize);;
  fail_if (bool_decide (dataSize > zlen body - 4)) ErrDataSize;;
  data ← or_panic (slice 4 (4 + dataSize) body);
  modify (set_Data data);;
  let pos := 4 + dataSize in
  fail_if (bool_decide (pos >= zlen body)) ErrAtFlags;;
  flags ← or_panic (index pos body);
  modify (set_Flags flags);;
  mret (pos + 1).

Definition read_body (body : bytes) (version : Z) : reader unit :=
  pos ← read_data body;
  pos ← read_name body pos;
  pos ← read_mime body pos;
  pos ← read_pairs body pos;
  pos ← read_lastmod body pos;
  pos ← read_ttl body pos;
  read_footer body pos version.

(** [offset] and [size] are not used by the code. *)
Definition ReadFrom (data : bytes) (offset size version : Z) : reader unit :=
  if decide (zlen data = 0) then mret tt else
  fail_if (bool_decide (zlen data < 16)) ErrShortHeader;;
  buf ← or_panic (slice 0 16 data);
  c ← or_panic (slice 0 4 buf);
  modify (set_Cookie (be_get c));;
  i ← or_panic (slice 4 12 buf);
  modify (set_Id (be_get i));;
  b ← or_panic (slice 12 16 buf);
  let bodySize := be_get b in
  if decide (bodySize = 0) then modify (fun n => set_Size 16 (set_DataSize 0 n)) else
  fail_if (bool_decide (u32 (zlen data) < u32 (16 + bodySize))) ErrShortBody;;
  fail_if (bool_decide (bodySize < 5)) ErrBodyTooSmall;;
  body ← or_panic (slice 16 (16 + bodySize) data);
  read_body body version;;
  n ← get;
  (fun s => (VerifyChecksum n, s));;
  let totalSize := 16 + bodySize in
  modify (set_Size (u32 (totalSize + NeedleAlignPadding totalSize))).

(** ** [ReadNeedleFromFile] *)
Definition ReadNeedleFromFile (f : file) (offset size version : Z) : outcome needle_err Needle :=
  match f_ReadAt size offset f with
  | Ret data =>
      match ReadFrom data offset size version zero_needle with
      | (Ret _, n) => Ret n
      | (Fail e, _) => Fail e
      | (Panic, _) => Panic
      end
  | Fail e => Fail (ErrReadData e)
  | Panic => Panic
  end.

(** [ReadFromReader]: the same from a stream. *)
Definition ReadFromReader (offset size version : Z) : GoM file needle_err Needle := fun r =>
  match (if decide (size = 0) then (Ret [], r) else f_ReadFull size r) with
  | (Ret data, r') =>
      (match ReadFrom data offset size version zero_needle with
       | (Ret _, n) => Ret n
       | (Fail e, _) => Fail e
       | (Panic, _) => Panic
       end, r')
  | (Fail e, r') => (Fail (ErrReadData e), r')
  | (Panic, r') => (Panic, r')
  end.

(** ** Expiry *)
Definition secondsPerUnit (u : Z) : option Z :=
  if decide (u = TTLUnitMinute) then Some 60
  else if decide (u = TTLUnitHour) then Some 3600
  else if decide (u = TTLUnitDay) then Some 86400
  else if decide (u = TTLUnitWeek) then Some 604800
  else if decide (u = TTLUnitMonth) then Some 2592000
  else if decide (u = TTLUnitYear) then Some 31536000
  else None.

(** [now] is [time.Now().Unix()]. *)
Definition IsExpired (n : Needle) (writeTimeUnixSec now : Z) : bool :=
  if negb (HasTtl n) || bool_decide (ttl_Count (n_Ttl n) = 0) then false else
  match secondsPerUnit (ttl_Unit (n_Ttl n)) with
  | None => false
  | Some unitSeconds =>
      let expireAt := u64 (writeTimeUnixSec + u64 (ttl_Count (n_Ttl n) * unitSeconds)) in
      bool_decide (u64 now > expireAt)
  end.

Definition demo_needle : Needle :=
  SetTtl (mkTTL 3 TTLUnitDay) (SetPairs [1; 2] (SetLastModified 1700000000 (SetMime [116; 47] (SetName [97; 98]
    (mkNeedle 0xdeadbeef 42 0 3 [10; 20; 30] 0 [] [] [] 0 TTL_zero 0 123456789))))).

Example demo_roundtrip :
  match WriteTo 3 (demo_needle, mkFile [] 0 1000) with
  | (Ret sz, (n', f')) =>
      sz = 56 /\ zlen (f_data f') = 56 /\ ReadNeedleFromFile f' 0 56 3 = Ret n'
  | _ => False
  end.
Proof. vm_compute. done. Qed.

(** ** Well-formed needles

    What the writers of the repository establish: the data size field is the
    length of the data, the variable fields fit their length prefixes, and the
    record fits the 32-bit size field. *)
Record needle_wf (n : Needle) : Prop := {
  wf_cookie : in_u 32 (n_Cookie n);
  wf_id : in_u 64 (n_Id n);
  wf_datasize : n_DataSize n = zlen (n_Data n);
  wf_data : Forall is_byte (n_Data n);
  wf_flags : is_byte (n_Flags n);
  wf_name : HasName n = true -> zlen (n_Name n) <= MaxNeedleNameSize /\ Forall is_byte (n_Name n);
  wf_mime : HasMime n = true -> zlen (n_Mime n) <= MaxNeedleMimeSize /\ Forall is_byte (n_Mime n);
  wf_pairs : HasPairs n = true -> zlen (n_Pairs n) <= MaxNeedlePairsSize /\ Forall is_byte (n_Pairs n);
  wf_lastmod : HasLastModified n = true -> in_u 40 (n_LastModified n);
  wf_ttl : HasTtl n = true -> is_byte (ttl_Count (n_Ttl n)) /\ is_byte (ttl_Unit (n_Ttl n));
  wf_append : in_u 64 (n_AppendAtNs n);
  wf_total : zlen (bodyBytes n) + 40 < 2 ^ 32;
}.
