(* ===== verification/NeedleCodec.v ===== *)
(** * NeedleCodec: the needle serializer and parser are inverse

    The buffer-filling [buildBodyBytes] computes the appending [bodyBytes];
    [WriteTo] appends one aligned record; [ReadFrom] recovers the needle from it;
    and the parser's outcome on arbitrary bytes. *)

From S2P Require Import Prelude Bytes Types OsFile Needle.

(** *** 40-bit integers *)
Lemma writeUint40_be v : 0 <= v -> writeUint40BigEndian v = be_put 5 v.
Proof.
  intros Hv. unfold writeUint40BigEndian. change 0xFF with (Z.ones 8).
  rewrite !Z.land_ones, !Z.shiftr_div_pow2 by lia. cbn [be_put app].
  rewrite !Z.div_div by lia. reflexivity.
Qed.

Lemma readUint40_be b0 b1 b2 b3 b4 l :
  Forall is_byte [b0; b1; b2; b3; b4] ->
  readUint40BigEndian (b0 :: b1 :: b2 :: b3 :: b4 :: l) = Some (be_get [b0; b1; b2; b3; b4]).
Proof.
  intros Hb. do 5 (apply Forall_cons in Hb as [? Hb]). unfold in_u in *.
  unfold readUint40BigEndian, be_get. cbn [fold_left]. f_equal.
  rewrite (lor_pack b0 b1 24 32) by lia. rewrite (lor_pack _ b2 16 24) by lia.
  rewrite (lor_pack _ b3 8 16) by lia. rewrite <- (Z.shiftl_0_r b4) at 1.
  rewrite (lor_pack _ b4 0 8) by lia. rewrite Z.shiftl_0_r. lia.
Qed.

Lemma readUint40_write v :
  in_u 40 v -> readUint40BigEndian (writeUint40BigEndian v) = Some v.
Proof.
  intros Hv. unfold in_u in Hv. pose proof (be_put_bytes 5 v) as Hb.
  rewrite <- writeUint40_be in Hb by lia. unfold writeUint40BigEndian in *.
  rewrite readUint40_be by done. f_equal.
  rewrite <- (be_get_put_small 5 v) at 6 by (change (256 ^ Z.of_nat 5) with (2 ^ 40); lia).
  rewrite <- writeUint40_be by lia. reflexivity.
Qed.

(** ** The serializer *)

Lemma copy_into_fill {E} p k src lo hi :
  lo = zlen p -> hi = zlen p + zlen src -> (length src <= k)%nat ->
  copy_into (E:=E) lo hi src (p ++ replicate k 0) =
    (Ret tt, (p ++ src) ++ replicate (k - length src) 0).
Proof.
  intros -> -> Hk. unfold copy_into.
  rewrite decide_True by (rewrite length_app, length_replicate; lia).
  rewrite (take_ge src), Nat2Z.id, take_app_length by lia.
  rewrite drop_app_add, drop_replicate. by rewrite app_assoc.
Qed.

Lemma set_index_fill {E} p k v i :
  i = zlen p -> (0 < k)%nat ->
  set_index (E:=E) i v (p ++ replicate k 0) = (Ret tt, (p ++ [v]) ++ replicate (k - 1) 0).
Proof.
  intros -> Hk. unfold set_index.
  rewrite decide_True by (rewrite length_app, length_replicate; lia).
  rewrite Nat2Z.id, insert_app_r_alt by lia. rewrite Nat.sub_diag.
  destruct k as [|k]; [lia|]. simpl. rewrite Nat.sub_0_r. by rewrite <- app_assoc.
Qed.

(** One optional field appended to what has been written so far. *)
Definition appends (m : Z -> GoM bytes needle_err Z) (field : bytes) : Prop :=
  forall p k, (length field <= k)%nat ->
    m (zlen p) (p ++ replicate k 0) =
      (Ret (zlen (p ++ field)), (p ++ field) ++ replicate (k - length field) 0).

Lemma appends_nil : appends mret [].
Proof. intros p k _. rewrite app_nil_r, Nat.sub_0_r. reflexivity. Qed.

Lemma build_name_appends n : appends (build_name n) (enc_name n).
Proof.
  unfold build_name, enc_name. destruct (HasName n); [|apply appends_nil].
  intros p k Hk. simpl in Hk.
  rewrite (bind_run _ _ _ tt _ (set_index_fill p k _ _ eq_refl ltac:(lia))).
  erewrite bind_run by (apply copy_into_fill; rewrite ?length_app; simpl; lia).
  unfold mret, GoM_ret. rewrite <- !app_assoc. simpl. f_equal; [f_equal; rewrite !length_app; simpl; lia|].
  do 4 f_equal. lia.
Qed.

Lemma build_mime_appends n : appends (build_mime n) (enc_mime n).
Proof.
  unfold build_mime, enc_mime. destruct (HasMime n); [|apply appends_nil].
  intros p k Hk. simpl in Hk.
  rewrite (bind_run _ _ _ tt _ (set_index_fill p k _ _ eq_refl ltac:(lia))).
  erewrite bind_run by (apply copy_into_fill; rewrite ?length_app; simpl; lia).
  unfold mret, GoM_ret. rewrite <- !app_assoc. simpl. f_equal; [f_equal; rewrite !length_app; simpl; lia|].
  do 4 f_equal. lia.
Qed.

Lemma build_pairs_appends n : appends (build_pairs n) (enc_pairs n).
Proof.
  unfold build_pairs, enc_pairs. destruct (HasPairs n); [|apply appends_nil].
  intros p k Hk. rewrite length_app, length_be_put in Hk.
  erewrite bind_run by (apply copy_into_fill; rewrite ?length_be_put; lia).
  erewrite bind_run by (apply copy_into_fill; rewrite ?length_app, ?length_be_put; lia).
  unfold mret, GoM_ret. rewrite <- !app_assoc, !length_app, !length_be_put.
  f_equal; [f_equal; lia|]. do 3 f_equal. f_equal. lia.
Qed.

Lemma build_lastmod_appends n : appends (build_lastmod n) (enc_lastmod n).
Proof.
  unfold build_lastmod, enc_lastmod. destruct (HasLastModified n); [|apply appends_nil].
  intros p k Hk. erewrite bind_run by (apply copy_into_fill; simpl in *; lia).
  unfold mret, GoM_ret. f_equal. f_equal. rewrite length_app. simpl. lia.
Qed.

Lemma build_ttl_appends n p k :
  (length (enc_ttl n) <= k)%nat ->
  build_ttl n (zlen p) (p ++ replicate k 0) =
    (Ret tt, (p ++ enc_ttl n) ++ replicate (k - length (enc_ttl n)) 0).
Proof.
  unfold build_ttl, enc_ttl. destruct (HasTtl n); intros Hk.
  - apply copy_into_fill; simpl in *; lia.
  - by rewrite app_nil_r, Nat.sub_0_r.
Qed.

Lemma length_bodyBytes n :
  zlen (bodyBytes n) = 4 + zlen (n_Data n) + 1 + zlen (enc_name n) + zlen (enc_mime n) +
    zlen (enc_pairs n) + zlen (enc_lastmod n) + zlen (enc_ttl n).
Proof. unfold bodyBytes. rewrite !length_app, length_be_put. simpl (length [_]). lia. Qed.

Lemma add32_small a b : 0 <= a + b < 2 ^ 32 -> add32 a b = a + b.
Proof. intros H. apply wrap_small, H. Qed.

Lemma u32_small x : 0 <= x < 2 ^ 32 -> u32 x = x.
Proof. intros H. apply wrap_small, H. Qed.

(** Removes the [uint32] additions innermost first. *)
Ltac add32_exact :=
  repeat match goal with
  | |- context [add32 ?a ?b] =>
      lazymatch a with context [add32] => fail | _ => idtac end;
      lazymatch b with context [add32] => fail | _ => idtac end;
      rewrite (add32_small a b) by lia
  end.

Lemma BodySize_length n : needle_wf n -> BodySize n = zlen (bodyBytes n).
Proof.
  intros Hwf. pose proof (wf_total n Hwf) as Ht. rewrite length_bodyBytes in *.
  unfold BodySize. rewrite (wf_datasize n Hwf).
  unfold enc_name, enc_mime, enc_pairs, enc_lastmod, enc_ttl in *.
  destruct (HasName n), (HasMime n), (HasPairs n), (HasLastModified n), (HasTtl n);
    rewrite ?length_app, ?length_be_put in *; simpl length in *;
    rewrite ?u32_small by lia; add32_exact; lia.
Qed.

Lemma BodySize_in_u32 n : in_u 32 (BodySize n).
Proof. unfold BodySize, add32. destruct (HasTtl n), (HasLastModified n), (HasPairs n), (HasMime n), (HasName n); by apply wrap_range. Qed.

Lemma build_fields_run n k :
  needle_wf n -> k = length (bodyBytes n) ->
  build_fields n (replicate k 0) = (Ret tt, bodyBytes n).
Proof.
  intros Hwf ->. pose proof (length_bodyBytes n) as Hl.
  assert (length (bodyBytes n) = 4 + length (n_Data n) + 1 + length (enc_name n) +
    length (enc_mime n) + length (enc_pairs n) + length (enc_lastmod n) + length (enc_ttl n))%nat
    as -> by lia.
  clear Hl. unfold build_fields. rewrite (wf_datasize n Hwf).
  erewrite bind_run by (apply (copy_into_fill []); rewrite ?length_be_put; simpl; lia).
  rewrite app_nil_l.
  erewrite bind_run by (apply copy_into_fill; rewrite ?length_be_put; lia).
  erewrite bind_run by (apply set_index_fill; rewrite ?length_app, ?length_be_put; lia).
  rewrite length_be_put.
  replace (4 + zlen (n_Data n) + 1)
    with (zlen ((be_put 4 (zlen (n_Data n)) ++ n_Data n) ++ [n_Flags n]))
    by (rewrite !length_app, length_be_put; simpl; lia).
  erewrite bind_run by (apply build_name_appends; lia).
  erewrite bind_run by (apply build_mime_appends; lia).
  erewrite bind_run by (apply build_pairs_appends; lia).
  erewrite bind_run by (apply build_lastmod_appends; lia).
  rewrite build_ttl_appends by lia.
  replace (_ - _)%nat with 0%nat by lia. simpl (replicate 0 _). rewrite app_nil_r.
  f_equal. unfold bodyBytes. by rewrite (wf_datasize n Hwf), <- !app_assoc.
Qed.

Lemma buildBodyBytes_run n : needle_wf n -> buildBodyBytes n = Ret (bodyBytes n).
Proof.
  intros Hwf. unfold buildBodyBytes.
  rewrite build_fields_run; [done|done|]. rewrite BodySize_length by done. lia.
Qed.

Lemma bodyBytes_bytes n : needle_wf n -> Forall is_byte (bodyBytes n).
Proof.
  intros Hwf. unfold bodyBytes, enc_name, enc_mime, enc_pairs, enc_lastmod, enc_ttl.
  rewrite !Forall_app. split_and!; [apply be_put_bytes|by apply wf_data|..].
  - constructor; [apply (wf_flags n Hwf)|constructor].
  - destruct (HasName n) eqn:E; constructor; [apply wrap_range; lia|by apply (wf_name n)].
  - destruct (HasMime n) eqn:E; constructor; [apply wrap_range; lia|by apply (wf_mime n)].
  - destruct (HasPairs n) eqn:E; [|constructor].
    apply Forall_app; split; [apply be_put_bytes|by apply (wf_pairs n)].
  - destruct (HasLastModified n) eqn:E; [|constructor].
    rewrite writeUint40_be by (pose proof (wf_lastmod n Hwf E) as H; unfold in_u in H; lia).
    apply be_put_bytes.
  - destruct (HasTtl n) eqn:E; [|constructor].
    destruct (wf_ttl n Hwf E). unfold TTL_Bytes. by rewrite !Forall_cons, Forall_nil.
Qed.

(** A byte string that can be the body of a needle's record: its length is the size
    the header announces, which fits its four-byte field. *)
Record body_image (n : Needle) (b : bytes) : Prop := {
  bi_size : BodySize n = zlen b;
  bi_width : in_u 32 (zlen b);
  bi_bytes : Forall is_byte b;
}.

(** The serializer's buffer-filling routine, with its 32-bit size
    computation, its slice bounds and its copies, computes the body that the
    appending routine used by the checksum verification computes: it does not
    panic, the computed size is the length and fits 32 bits, and every element is a
    byte. *)
Theorem buildBodyBytes_bodyBytes (n : Needle) :
  needle_wf n -> buildBodyBytes n = Ret (bodyBytes n) /\ body_image n (bodyBytes n).
Proof.
  intros Hwf. split; [auto using buildBodyBytes_run|].
  split; [auto using BodySize_length| |auto using bodyBytes_bytes].
  rewrite <- BodySize_length by done. apply BodySize_in_u32.
Qed.

(** ** The record on disk *)

Definition needle_crc (n : Needle) : Z := NewCRC32 (n_Cookie n) (n_Id n) (bodyBytes n).
Definition needle_footer (n : Needle) (version : Z) : bytes :=
  buildFooterBytes (set_Checksum (needle_crc n) n) version.
Definition needle_bodysize (n : Needle) (version : Z) : Z :=
  zlen (bodyBytes n) + zlen (needle_footer n version).
Definition needle_header (n : Needle) (version : Z) : bytes :=
  be_put 4 (n_Cookie n) ++ be_put 8 (n_Id n) ++ be_put 4 (needle_bodysize n version).
Definition needle_padding (n : Needle) (version : Z) : bytes :=
  replicate (Z.to_nat (NeedleAlignPadding (16 + needle_bodysize n version))) 0.
Definition needle_image (n : Needle) (version : Z) : bytes :=
  needle_header n version ++ bodyBytes n ++ needle_footer n version ++ needle_padding n version.

(** The needle with the checksum and size that writing it records. *)
Definition needle_written (n : Needle) (version : Z) : Needle :=
  set_Size (zlen (needle_image n version)) (set_Checksum (needle_crc n) n).

Lemma length_footer n v : zlen (needle_footer n v) = if decide (v >= NeedleVersionV3) then 12 else 4.
Proof.
  unfold needle_footer, buildFooterBytes. rewrite length_app, length_be_put.
  case_decide; rewrite ?length_be_put; simpl; lia.
Qed.

Lemma length_header n v : zlen (needle_header n v) = 16.
Proof. unfold needle_header. by rewrite !length_app, !length_be_put. Qed.

Lemma bodysize_bounds n v : needle_wf n -> 9 <= needle_bodysize n v < 2 ^ 32 - 28.
Proof.
  intros Hwf. pose proof (wf_total n Hwf). unfold needle_bodysize. rewrite length_footer.
  rewrite length_bodyBytes in *. case_decide; lia.
Qed.

Lemma NeedleAlignPadding_bound x : 0 <= x -> 0 <= NeedleAlignPadding x < 8.
Proof.
  intros Hx. unfold NeedleAlignPadding, NeedleAlignmentSize.
  rewrite Z.rem_mod_nonneg by lia. case_decide; zlia.
Qed.

Lemma NeedleAlignPadding_aligned x : 0 <= x -> (x + NeedleAlignPadding x) mod 8 = 0.
Proof.
  intros Hx. unfold NeedleAlignPadding, NeedleAlignmentSize.
  rewrite Z.rem_mod_nonneg by lia. case_decide; zlia.
Qed.

Lemma length_image n v :
  zlen (needle_image n v) =
    16 + needle_bodysize n v + NeedleAlignPadding (16 + needle_bodysize n v).
Proof.
  unfold needle_image, needle_padding. rewrite !length_app, length_replicate.
  pose proof (length_header n v). unfold needle_bodysize in *.
  pose proof (NeedleAlignPadding_bound (16 + (zlen (bodyBytes n) + zlen (needle_footer n v))) ltac:(lia)).
  lia.
Qed.

Lemma image_aligned n v : zlen (needle_image n v) mod 8 = 0.
Proof.
  rewrite length_image. apply NeedleAlignPadding_aligned. unfold needle_bodysize. lia.
Qed.

Lemma image_bounds n v : needle_wf n -> 24 < zlen (needle_image n v) < 2 ^ 32.
Proof.
  intros Hwf. rewrite length_image. pose proof (bodysize_bounds n v Hwf).
  pose proof (NeedleAlignPadding_bound (16 + needle_bodysize n v) ltac:(lia)). lia.
Qed.

Lemma replicate_0 {A} (x : A) : replicate 0 x = [].
Proof. done. Qed.

Lemma write_part_cases err b n f :
  at_end f ->
  write_part err b (n, f) = (Ret tt, (n, extend f b)) /\
    zlen (f_data f ++ b) <= Z.max (zlen (f_data f)) (f_limit f) \/
  f_limit f < zlen (f_data f ++ b) /\
  exists k, write_part err b (n, f) = (Fail (err ENOSPC), (n, extend f (take k b))) /\
    zlen (f_data f ++ take k b) <= Z.max (zlen (f_data f)) (f_limit f).
Proof.
  intros Hend. unfold write_part, io_Write, file_Writer.
  destruct (f_Write_cases f b Hend) as [[-> ?]|(? & k & -> & ?)]; eauto 6.
Qed.

(** Appending [b] to [f] does not take it past the limit. *)
Definition fits (f : file) (b : bytes) : Prop :=
  zlen (f_data f ++ b) <= Z.max (zlen (f_data f)) (f_limit f).

(** The outcome of appending [img] to [f]: everything, or, when the device has no
    room for it, an error and a prefix. *)
Definition append_outcome (f : file) (img : bytes) (sz : Z) (nw : Needle)
    (r : outcome needle_err Z * (Needle * file)) : Prop :=
  r = (Ret sz, (nw, extend f img)) /\ fits f img \/
  f_limit f < zlen (f_data f ++ img) /\
  exists e n' k, r = (Fail e, (n', extend f (take k img))) /\ fits f (take k img).

(** One write of a part [b] of [img], after the parts [p] before it. *)
Lemma append_part err b n f img sz nw p s (rest : GoM (Needle * file) needle_err Z) :
  fits f p -> img = p ++ b ++ s ->
  (fits f (p ++ b) -> append_outcome f img sz nw (rest (n, extend f (p ++ b)))) ->
  append_outcome f img sz nw ((write_part err b;; rest) (n, extend f p)).
Proof.
  unfold fits. intros Hfit -> Hrest.
  destruct (write_part_cases err b n (extend f p) (at_end_extend f p)) as [[H Hf]|(Hroom & k & H & Hf)].
  - erewrite bind_run by exact H. rewrite extend_extend. apply Hrest.
    cbn [f_limit f_data extend] in Hf. rewrite !length_app in *. lia.
  - right. cbn [f_limit f_data extend] in Hroom, Hf. split; [rewrite !length_app in *; lia|].
    erewrite bind_fail by exact H. rewrite extend_extend.
    exists (err ENOSPC), n, (length p + k `min` length b)%nat.
    rewrite take_app_add, take_app_le by lia.
    rewrite <- take_take, (take_ge b (length b)) by lia. split; [done|].
    unfold fits. rewrite !length_app in *. lia.
Qed.

Lemma extend_nil f : at_end f -> extend f [] = f.
Proof. intros Hend. unfold extend. rewrite app_nil_r. rewrite <- Hend. by destruct f. Qed.

(** With no assumption on the room left, a write either appends the whole image
    or fails having appended a prefix of it. *)
Lemma WriteTo_cases n v f :
  needle_wf n -> at_end f ->
  append_outcome f (needle_image n v) (zlen (needle_image n v)) (needle_written n v)
    (WriteTo v (n, f)).
Proof.
  intros Hwf Hend. pose proof (bodysize_bounds n v Hwf) as Hbs.
  pose proof (length_header n v) as Hh. pose proof (image_bounds n v Hwf) as Hib.
  unfold WriteTo. erewrite bind_run by reflexivity. simpl fst.
  erewrite bind_run by (rewrite buildBodyBytes_run by done; reflexivity).
  erewrite bind_run by reflexivity. cbv zeta.
  fold (needle_crc n) (needle_footer n v).
  rewrite (u32_small (_ + _)) by (unfold needle_bodysize in Hbs; lia).
  fold (needle_bodysize n v) (needle_header n v).
  replace (zlen (needle_header n v) + zlen (bodyBytes n) + zlen (needle_footer n v))
    with (16 + needle_bodysize n v) by (unfold needle_bodysize; lia).
  fold (needle_padding n v). rewrite <- length_image, u32_small by lia.
  rewrite <- (extend_nil f Hend) at 2.
  apply (append_part _ _ _ _ _ _ _ [] (bodyBytes n ++ needle_footer n v ++ needle_padding n v));
    [unfold fits; rewrite app_nil_r; lia|done|intros Hf1].
  apply (append_part _ _ _ _ _ _ _ _ (needle_footer n v ++ needle_padding n v)); [done..|intros Hf2].
  eapply append_part; [done|unfold needle_image; by rewrite <- !app_assoc|intros Hf3].
  unfold when. case_bool_decide as Hp.
  - eapply (append_part _ _ _ _ _ _ _ _ []);
      [done|unfold needle_image; by rewrite app_nil_r, <- !app_assoc|intros Hf4].
    left. unfold needle_image in *. rewrite <- !app_assoc in *. split; [reflexivity|exact Hf4].
  - left. pose proof (NeedleAlignPadding_bound (16 + needle_bodysize n v) ltac:(lia)).
    assert (((([] ++ needle_header n v) ++ bodyBytes n) ++ needle_footer n v)
      = needle_image n v) as E; [|rewrite E in *; split; [reflexivity|exact Hf3]].
    unfold needle_image, needle_padding. replace (NeedleAlignPadding _) with 0 by lia.
    simpl (Z.to_nat 0). by rewrite replicate_0, app_nil_r, <- !app_assoc.
Qed.

Lemma WriteTo_run n v f :
  needle_wf n -> at_end f -> zlen (f_data f) + zlen (needle_image n v) <= f_limit f ->
  WriteTo v (n, f) =
    (Ret (zlen (needle_image n v)), (needle_written n v, extend f (needle_image n v))).
Proof.
  intros Hwf Hend Hroom. destruct (WriteTo_cases n v f Hwf Hend) as [[H _]|[H _]]; [done|].
  rewrite length_app in H. lia.
Qed.

(** ** The parser on a record *)

Lemma has_flag_eq flag n m : n_Flags m = n_Flags n -> has_flag flag m = has_flag flag n.
Proof. unfold has_flag. by intros ->. Qed.

(** Reading one optional field that starts after [p]. *)
Ltac read_field :=
  rewrite ?length_app, ?length_be_put in *; simpl length in *.

Lemma read_name_run n m p s :
  needle_wf n -> n_Flags m = n_Flags n ->
  read_name (p ++ enc_name n ++ s) (zlen p) m =
    (Ret (zlen (p ++ enc_name n)), if HasName n then set_Name (n_Name n) m else m).
Proof.
  intros Hwf Hf. unfold read_name, enc_name. rewrite bind_get.
  assert (HasName m = HasName n) as -> by by apply has_flag_eq.
  destruct (HasName n) eqn:E; [|by rewrite app_nil_r].
  destruct (wf_name n Hwf E) as [Hlen _]. unfold MaxNeedleNameSize in Hlen.
  rewrite wrap_small by u_lia.
  rewrite bind_fail_if_false by (read_field; lia).
  erewrite bind_or_panic by (by apply index_middle). cbv zeta.
  rewrite bind_fail_if_false by (read_field; lia).
  erewrite bind_or_panic.
  2: { rewrite <- app_comm_cons, cons_middle, app_assoc. apply slice_middle; read_field; lia. }
  rewrite bind_modify. unfold mret, GoM_ret. f_equal. f_equal. read_field. lia.
Qed.

Lemma read_mime_run n m p s :
  needle_wf n -> n_Flags m = n_Flags n ->
  read_mime (p ++ enc_mime n ++ s) (zlen p) m =
    (Ret (zlen (p ++ enc_mime n)), if HasMime n then set_Mime (n_Mime n) m else m).
Proof.
  intros Hwf Hf. unfold read_mime, enc_mime. rewrite bind_get.
  assert (HasMime m = HasMime n) as -> by by apply has_flag_eq.
  destruct (HasMime n) eqn:E; [|by rewrite app_nil_r].
  destruct (wf_mime n Hwf E) as [Hlen _]. unfold MaxNeedleMimeSize in Hlen.
  rewrite wrap_small by u_lia.
  rewrite bind_fail_if_false by (read_field; lia).
  erewrite bind_or_panic by (by apply index_middle). cbv zeta.
  rewrite bind_fail_if_false by (read_field; lia).
  erewrite bind_or_panic.
  2: { rewrite <- app_comm_cons, cons_middle, app_assoc. apply slice_middle; read_field; lia. }
  rewrite bind_modify. unfold mret, GoM_ret. f_equal. f_equal. read_field. lia.
Qed.

Lemma read_pairs_run n m p s :
  needle_wf n -> n_Flags m = n_Flags n ->
  read_pairs (p ++ enc_pairs n ++ s) (zlen p) m =
    (Ret (zlen (p ++ enc_pairs n)), if HasPairs n then set_Pairs (n_Pairs n) m else m).
Proof.
  intros Hwf Hf. unfold read_pairs, enc_pairs. rewrite bind_get.
  assert (HasPairs m = HasPairs n) as -> by by apply has_flag_eq.
  destruct (HasPairs n) eqn:E; [|by rewrite app_nil_r].
  destruct (wf_pairs n Hwf E) as [Hlen _]. unfold MaxNeedlePairsSize in Hlen.
  rewrite wrap_small by u_lia.
  rewrite bind_fail_if_false by (read_field; lia).
  erewrite bind_or_panic.
  2: { rewrite <- app_assoc. apply slice_middle; read_field; lia. }
  rewrite be_get_put_small by (change (256 ^ Z.of_nat 2) with 65536; lia). cbv zeta.
  rewrite bind_fail_if_false by (read_field; lia).
  erewrite bind_or_panic.
  2: { rewrite <- app_assoc, app_assoc. apply slice_middle; read_field; lia. }
  rewrite bind_modify. unfold mret, GoM_ret. f_equal. f_equal. read_field. lia.
Qed.

Lemma read_lastmod_run n m p s :
  needle_wf n -> n_Flags m = n_Flags n ->
  read_lastmod (p ++ enc_lastmod n ++ s) (zlen p) m =
    (Ret (zlen (p ++ enc_lastmod n)),
     if HasLastModified n then set_LastModified (n_LastModified n) m else m).
Proof.
  intros Hwf Hf. unfold read_lastmod, enc_lastmod. rewrite bind_get.
  assert (HasLastModified m = HasLastModified n) as -> by by apply has_flag_eq.
  destruct (HasLastModified n) eqn:E; [|by rewrite app_nil_r].
  rewrite bind_fail_if_false by (read_field; lia).
  erewrite bind_or_panic by (apply slice_middle; read_field; lia).
  erewrite bind_or_panic by (apply readUint40_write, (wf_lastmod n Hwf E)).
  rewrite bind_modify. unfold mret, GoM_ret. f_equal. f_equal. read_field. lia.
Qed.

Lemma read_ttl_run n m p s :
  n_Flags m = n_Flags n ->
  read_ttl (p ++ enc_ttl n ++ s) (zlen p) m =
    (Ret (zlen (p ++ enc_ttl n)), if HasTtl n then set_Ttl (n_Ttl n) m else m).
Proof.
  intros Hf. unfold read_ttl, enc_ttl. rewrite bind_get.
  assert (HasTtl m = HasTtl n) as -> by by apply has_flag_eq.
  destruct (HasTtl n) eqn:E; [|by rewrite app_nil_r].
  unfold TTL_Bytes. rewrite bind_fail_if_false by (read_field; lia).
  erewrite bind_or_panic by (by apply index_middle).
  erewrite bind_or_panic.
  2: { rewrite <- app_comm_cons, cons_middle, app_assoc. apply index_middle. read_field. lia. }
  rewrite bind_modify. unfold mret, GoM_ret. f_equal; [f_equal; read_field; lia|].
  by destruct (n_Ttl n).
Qed.

Lemma read_data_run n m s :
  needle_wf n ->
  read_data ((be_put 4 (n_DataSize n) ++ n_Data n ++ [n_Flags n]) ++ s) m =
    (Ret (zlen (be_put 4 (n_DataSize n) ++ n_Data n ++ [n_Flags n])),
     set_Flags (n_Flags n) (set_Data (n_Data n) (set_DataSize (n_DataSize n) m))).
Proof.
  intros Hwf. pose proof (wf_total n Hwf) as Ht. rewrite length_bodyBytes in Ht.
  rewrite (wf_datasize n Hwf). unfold read_data. rewrite <- !app_assoc.
  erewrite bind_or_panic by (apply (slice_middle []); read_field; lia).
  rewrite be_get_put_small by (change (256 ^ Z.of_nat 4) with (2 ^ 32); lia). cbv zeta.
  rewrite bind_modify. rewrite bind_fail_if_false by (read_field; lia).
  erewrite bind_or_panic by (apply slice_middle; read_field; lia).
  rewrite bind_modify. rewrite bind_fail_if_false by (read_field; lia).
  erewrite bind_or_panic.
  2: { rewrite app_assoc. apply index_middle. read_field. lia. }
  rewrite bind_modify. unfold mret, GoM_ret. f_equal. f_equal. read_field. lia.
Qed.

Lemma crc_range n : needle_wf n -> in_u 32 (needle_crc n).
Proof.
  intros Hwf. apply crc32_range. rewrite !Forall_app.
  split_and!; [apply be_put_bytes..|by apply bodyBytes_bytes].
Qed.

Lemma read_footer_run n v m p :
  needle_wf n ->
  read_footer (p ++ needle_footer n v) (zlen p) v m =
    (Ret tt, if decide (v >= NeedleVersionV3)
             then set_AppendAtNs (n_AppendAtNs n) (set_Checksum (needle_crc n) m)
             else set_Checksum (needle_crc n) m).
Proof.
  intros Hwf. pose proof (crc_range n Hwf) as Hc. pose proof (wf_append n Hwf) as Ha.
  unfold in_u in *. unfold read_footer, needle_footer, buildFooterBytes.
  cbn [n_Checksum n_AppendAtNs set_Checksum].
  case_decide as Hv.
  - rewrite bind_fail_if_false by (read_field; lia).
    erewrite bind_or_panic by (rewrite <- (app_nil_r (_ ++ be_put 8 _)); apply slice_middle; read_field; lia).
    erewrite bind_or_panic by (apply (slice_middle []); read_field; lia).
    rewrite be_get_put_small by (change (256 ^ Z.of_nat 4) with (2 ^ 32); lia).
    rewrite bind_modify. unfold when. rewrite bool_decide_eq_true_2 by done.
    erewrite bind_or_panic by (rewrite <- (app_nil_r (be_put 8 _)); apply slice_middle; read_field; lia).
    by rewrite be_get_put_small by (change (256 ^ Z.of_nat 8) with (2 ^ 64); lia).
  - rewrite app_nil_r, bind_fail_if_false by (read_field; lia).
    erewrite bind_or_panic by (rewrite <- (app_nil_r (be_put 4 _)); apply slice_middle; read_field; lia).
    erewrite bind_or_panic by (rewrite <- (app_nil_r (be_put 4 _)); apply (slice_middle []); read_field; lia).
    rewrite be_get_put_small by (change (256 ^ Z.of_nat 4) with (2 ^ 32); lia).
    rewrite bind_modify. unfold when. by rewrite bool_decide_eq_false_2 by done.
Qed.

(** What reading a record of [n] back yields: the fields the flags announce, the
    checksum, the size, and the timestamp for version 3. *)
Definition needle_read (n : Needle) (version : Z) : Needle :=
  mkNeedle (n_Cookie n) (n_Id n) (zlen (needle_image n version)) (n_DataSize n) (n_Data n) (n_Flags n)
    (if HasName n then n_Name n else []) (if HasMime n then n_Mime n else [])
    (if HasPairs n then n_Pairs n else [])
    (if HasLastModified n then n_LastModified n else 0)
    (if HasTtl n then n_Ttl n else TTL_zero)
    (needle_crc n) (if decide (version >= NeedleVersionV3) then n_AppendAtNs n else 0).

Lemma read_body_run n v :
  needle_wf n ->
  read_body (bodyBytes n ++ needle_footer n v) v
    (set_Id (n_Id n) (set_Cookie (n_Cookie n) zero_needle)) =
  (Ret tt, set_Size 0 (needle_read n v)).
Proof.
  intros Hwf. unfold read_body, bodyBytes.
  replace ((be_put 4 (n_DataSize n) ++ n_Data n ++ [n_Flags n] ++ enc_name n ++ enc_mime n ++
     enc_pairs n ++ enc_lastmod n ++ enc_ttl n) ++ needle_footer n v)
    with ((be_put 4 (n_DataSize n) ++ n_Data n ++ [n_Flags n]) ++ enc_name n ++ enc_mime n ++
     enc_pairs n ++ enc_lastmod n ++ enc_ttl n ++ needle_footer n v) by by rewrite <- !app_assoc.
  erewrite bind_run by by apply read_data_run.
  erewrite bind_run by (apply read_name_run; [done|reflexivity]). rewrite app_assoc.
  erewrite bind_run by (apply read_mime_run; [done|by case_match]). rewrite app_assoc.
  erewrite bind_run by (apply read_pairs_run; [done|by repeat case_match]). rewrite app_assoc.
  erewrite bind_run by (apply read_lastmod_run; [done|by repeat case_match]). rewrite app_assoc.
  erewrite bind_run by (apply read_ttl_run; by repeat case_match). rewrite app_assoc.
  rewrite read_footer_run by done. f_equal. unfold needle_read.
  destruct (HasName n), (HasMime n), (HasPairs n), (HasLastModified n), (HasTtl n);
    case_decide; reflexivity.
Qed.

Lemma bodyBytes_read n v : bodyBytes (needle_read n v) = bodyBytes n.
Proof.
  assert (forall flag, has_flag flag (needle_read n v) = has_flag flag n) as Hf
    by (intros; by apply has_flag_eq).
  unfold bodyBytes, enc_name, enc_mime, enc_pairs, enc_lastmod, enc_ttl,
    HasName, HasMime, HasPairs, HasLastModified, HasTtl. rewrite !Hf. simpl.
  unfold HasName, HasMime, HasPairs, HasLastModified, HasTtl.
  repeat (case_match; simplify_eq); reflexivity.
Qed.

(** The parser recovers the needle from its record, whatever follows it. *)
Lemma ReadFrom_image n v off sz rest :
  needle_wf n -> zlen (needle_image n v ++ rest) < 2 ^ 32 ->
  ReadFrom (needle_image n v ++ rest) off sz v zero_needle = (Ret tt, needle_read n v).
Proof.
  intros Hwf Hlen. pose proof (bodysize_bounds n v Hwf) as Hbs.
  pose proof (image_bounds n v Hwf) as Hib. pose proof (length_image n v) as Hli.
  pose proof (NeedleAlignPadding_bound (16 + needle_bodysize n v) ltac:(lia)) as Hpad.
  assert (zlen (needle_image n v) <= zlen (needle_image n v ++ rest)) as Hge
    by (rewrite length_app; lia).
  assert (needle_image n v ++ rest =
    needle_header n v ++ (bodyBytes n ++ needle_footer n v) ++ needle_padding n v ++ rest) as Hd
    by (unfold needle_image; by rewrite <- !app_assoc).
  revert Hlen Hge Hd. generalize (needle_image n v ++ rest). intros data Hlen Hge Hd.
  unfold ReadFrom. rewrite decide_False by lia. rewrite bind_fail_if_false by lia.
  erewrite bind_or_panic by (rewrite Hd; apply (slice_middle []); rewrite ?length_header; done).
  destruct (wf_cookie n Hwf), (wf_id n Hwf).
  erewrite bind_or_panic by (apply (slice_middle []); read_field; lia).
  rewrite bind_modify, be_get_put_small by (change (256 ^ Z.of_nat 4) with (2 ^ 32); lia).
  erewrite bind_or_panic by (apply slice_middle; read_field; lia).
  rewrite bind_modify, be_get_put_small by (change (256 ^ Z.of_nat 8) with (2 ^ 64); lia).
  erewrite bind_or_panic.
  2: { unfold needle_header. rewrite app_assoc, <- (app_nil_r (be_put 4 (needle_bodysize _ _))).
       apply slice_middle; read_field; lia. }
  rewrite be_get_put_small by (change (256 ^ Z.of_nat 4) with (2 ^ 32); lia). cbv zeta.
  rewrite decide_False by lia. rewrite bind_fail_if_false by (rewrite !u32_small; lia).
  rewrite bind_fail_if_false by lia.
  erewrite bind_or_panic.
  2: { rewrite Hd. apply slice_middle; rewrite ?length_header; [done|].
       rewrite length_app. unfold needle_bodysize. lia. }
  erewrite bind_run by by apply read_body_run.
  rewrite bind_get. erewrite bind_run.
  2: { unfold VerifyChecksum. simpl n_Cookie. simpl n_Id.
       replace (bodyBytes (set_Size 0 (needle_read n v))) with (bodyBytes (needle_read n v)) by done.
       rewrite bodyBytes_read. fold (needle_crc n).
       rewrite decide_False by (intros Hx; by apply Hx). reflexivity. }
  unfold modify. f_equal. rewrite <- Hli, u32_small by lia. reflexivity.
Qed.

(** The optional fields the flags do not announce are empty, as they are in a
    needle built with the setters or read from disk. *)
Definition needle_canonical (n : Needle) (version : Z) : Prop :=
  (HasName n = false -> n_Name n = []) /\ (HasMime n = false -> n_Mime n = []) /\
  (HasPairs n = false -> n_Pairs n = []) /\
  (HasLastModified n = false -> n_LastModified n = 0) /\
  (HasTtl n = false -> n_Ttl n = TTL_zero) /\
  (~ version >= NeedleVersionV3 -> n_AppendAtNs n = 0).

Lemma needle_read_written n v : needle_canonical n v -> needle_read n v = needle_written n v.
Proof.
  intros (Hn & Hm & Hp & Hl & Ht & Ha). unfold needle_read, needle_written, set_Size, set_Checksum.
  simpl.
  f_equal; [case_match; [done|symmetry; auto]..|case_decide; [done|symmetry; auto]].
Qed.

Lemma ReadNeedle_image f p n v rest :
  f_data f = p ++ needle_image n v ++ rest -> needle_wf n ->
  ReadNeedleFromFile f (zlen p) (zlen (needle_image n v)) v = Ret (needle_read n v).
Proof.
  intros Hf Hwf. unfold ReadNeedleFromFile. erewrite f_ReadAt_middle by eauto.
  rewrite <- (app_nil_r (needle_image n v)) at 1.
  rewrite ReadFrom_image; [done..|]. rewrite app_nil_r. apply image_bounds, Hwf.
Qed.

(** C4: writing a well-formed needle at the end of a file with room for it
    succeeds and appends a record whose size is a multiple of the alignment; and
    reading that many bytes at the old end of the file, then or after any further
    appends, returns exactly the needle the writer left in memory (checksum and
    size included), with no checksum error. *)
Theorem needle_roundtrip (n : Needle) (v : Z) (f : file) :
  needle_wf n -> needle_canonical n v -> at_end f ->
  zlen (f_data f) + zlen (needle_image n v) <= f_limit f ->
  exists sz n' f', WriteTo v (n, f) = (Ret sz, (n', f')) /\
    sz mod NeedleAlignmentSize = 0 /\ zlen (f_data f') = zlen (f_data f) + sz /\
    forall later, ReadNeedleFromFile (extend f' later) (zlen (f_data f)) sz v = Ret n'.
Proof.
  intros Hwf Hcan Hend Hroom. exists (zlen (needle_image n v)), (needle_written n v),
    (extend f (needle_image n v)).
  split_and!; [by apply WriteTo_run|apply image_aligned| |].
  - cbn [f_data extend]. rewrite length_app. lia.
  - intros later. rewrite extend_extend.
    erewrite ReadNeedle_image; [by rewrite needle_read_written|reflexivity|done].
Qed.

(** A needle with a name, a mime type, pairs, a modification time and a TTL. *)
Definition sample_needle : Needle :=
  SetTtl (mkTTL 3 TTLUnitDay) (SetPairs [123; 125] (SetLastModified 1700000000
    (SetMime [116; 47] (SetName [97; 98]
      (mkNeedle 0xdeadbeef 42 0 3 [10; 20; 30] 0 [] [] [] 0 TTL_zero 0 123456789))))).

Lemma sample_needle_wf : needle_wf sample_needle.
Proof.
  split; try (intros _; split); try (apply (bool_decide_unpack _); by vm_compute).
Qed.

Lemma buildBodyBytes_bodyBytes_witness :
  buildBodyBytes sample_needle = Ret (bodyBytes sample_needle) /\
  body_image sample_needle (bodyBytes sample_needle).
Proof. apply (buildBodyBytes_bodyBytes sample_needle), sample_needle_wf. Defined.

Lemma needle_roundtrip_witness :
  exists sz n' f', WriteTo 3 (sample_needle, mkFile [1; 2; 3; 4; 5; 6; 7; 8] 8 4096) = (Ret sz, (n', f')) /\
    sz = 56 /\ ReadNeedleFromFile f' 8 sz 3 = Ret n'.
Proof.
  destruct (needle_roundtrip sample_needle 3 (mkFile [1; 2; 3; 4; 5; 6; 7; 8] 8 4096))
    as (sz & n' & f' & Hw & Ha & Hl & Hr).
  - apply sample_needle_wf.
  - repeat split; intros H; first [by vm_compute in H | exfalso; apply H; by vm_compute].
  - reflexivity.
  - by vm_compute.
  - exists sz, n', f'. split; [exact Hw|].
    assert (sz = 56) as -> by (vm_compute in Hw; by injection Hw as <-).
    split; [reflexivity|]. specialize (Hr []).
    assert (extend f' [] = f') as E by (vm_compute in Hw; injection Hw as _ <-; reflexivity).
    by rewrite E in Hr.
Defined.

(** ** The parser on arbitrary bytes: when it can panic *)

Lemma index_byte_ok i (body : bytes) :
  Forall is_byte body -> 0 <= i < zlen body -> exists b, index i body = Some b /\ 0 <= b.
Proof.
  intros Hb Hi. destruct (index_lt i body Hi) as [b E]. exists b. split; [done|].
  unfold index in E. rewrite decide_True in E by lia.
  apply (Forall_lookup_1 _ _ _ _ Hb) in E. unfold in_u in E. lia.
Qed.

Lemma slice_any lo hi (l : bytes) :
  0 <= lo <= hi -> hi <= zlen l -> exists r, slice lo hi l = Some r /\ True.
Proof. intros H1 H2. destruct (slice_ok lo hi l H1 H2) as [r ->]. eauto. Qed.

Lemma slice_byte_ok lo hi (l : bytes) :
  Forall is_byte l -> 0 <= lo <= hi -> hi <= zlen l ->
  exists r, slice lo hi l = Some r /\ (Forall is_byte r /\ zlen r = hi - lo).
Proof.
  intros Hb H1 H2. destruct (slice_ok lo hi l H1 H2) as [r E]. exists r.
  eauto using slice_Forall, slice_length.
Qed.

(** One step of a panic-freedom proof: the postcondition of the first command is
    the one its rule gives. *)
Ltac safe_step :=
  first
    [ apply safe_ret
    | apply safe_modify
    | eapply safe_bind;
      [ first [ apply safe_fail_if | apply safe_get | apply safe_modify
              | apply safe_or_panic; first [ apply index_byte_ok; [assumption|lia]
                                           | apply slice_byte_ok; [assumption|lia|lia] ] ]
      | intros ? ?; cbv zeta beta in * ] ].

Ltac slice_facts :=
  repeat match goal with
  | H : Forall is_byte ?r /\ _ |- _ =>
      let H1 := fresh "Hb" in let H2 := fresh "Hl" in
      destruct H as [H1 H2]; pose proof (be_get_bound r H1)
  end.

Section safe_reads.
Context (body : bytes) (Hbody : Forall is_byte body).

Lemma read_name_safe pos : 0 <= pos -> safe (fun p => 0 <= p) (read_name body pos).
Proof using Hbody.
  intros Hp. unfold read_name. safe_step. case_match; [|by apply safe_ret].
  repeat safe_step. lia.
Qed.

Lemma read_mime_safe pos : 0 <= pos -> safe (fun p => 0 <= p) (read_mime body pos).
Proof using Hbody.
  intros Hp. unfold read_mime. safe_step. case_match; [|by apply safe_ret].
  repeat safe_step. lia.
Qed.

Lemma read_pairs_safe pos : 0 <= pos -> safe (fun p => 0 <= p) (read_pairs body pos).
Proof using Hbody.
  intros Hp. unfold read_pairs. safe_step. case_match; [|by apply safe_ret].
  do 2 safe_step. slice_facts.
  repeat safe_step. lia.
Qed.

Lemma read_lastmod_safe pos : 0 <= pos -> safe (fun p => 0 <= p) (read_lastmod body pos).
Proof using Hbody.
  intros Hp. unfold read_lastmod. safe_step. case_match; [|by apply safe_ret].
  safe_step. safe_step. slice_facts.
  match goal with Hl : zlen ?r = _ |- _ =>
    do 5 (destruct r as [|? r]; [simpl in Hl; lia|]) end.
  apply (safe_bind (fun _ => True)); [apply safe_or_panic; eexists; split; [reflexivity|exact I]|].
  intros. repeat safe_step. lia.
Qed.

Lemma read_ttl_safe pos : 0 <= pos -> safe (fun p => 0 <= p) (read_ttl body pos).
Proof using Hbody.
  intros Hp. unfold read_ttl. safe_step. case_match; [|by apply safe_ret].
  repeat safe_step. lia.
Qed.

Lemma read_footer_safe pos v : 0 <= pos -> safe (fun _ => True) (read_footer body pos v).
Proof using Hbody.
  intros Hp. unfold read_footer. case_decide.
  - do 2 safe_step. slice_facts. do 2 safe_step. unfold when.
    rewrite bool_decide_eq_true_2 by done. by repeat safe_step.
  - do 2 safe_step. slice_facts. do 2 safe_step. unfold when.
    rewrite bool_decide_eq_false_2 by done. by repeat safe_step.
Qed.

Lemma read_data_safe : 4 <= zlen body -> safe (fun p => 0 <= p) (read_data body).
Proof using Hbody.
  intros Hl. unfold read_data. safe_step. slice_facts. repeat safe_step. lia.
Qed.

Lemma read_body_safe v : 4 <= zlen body -> safe (fun _ => True) (read_body body v).
Proof using Hbody.
  intros Hl. unfold read_body.
  eapply safe_bind; [by apply read_data_safe|intros ? ?].
  eapply safe_bind; [by apply read_name_safe|intros ? ?].
  eapply safe_bind; [by apply read_mime_safe|intros ? ?].
  eapply safe_bind; [by apply read_pairs_safe|intros ? ?].
  eapply safe_bind; [by apply read_lastmod_safe|intros ? ?].
  eapply safe_bind; [by apply read_ttl_safe|intros ? ?].
  by apply read_footer_safe.
Qed.
End safe_reads.

(** The size field of the header. *)
Definition header_bodysize (data : bytes) : Z := be_get (take 4 (drop 12 data)).

Lemma read_header (data : bytes) :
  16 <= zlen data ->
  exists buf, slice 0 16 data = Some buf /\ slice 0 4 buf = Some (take 4 data) /\
    slice 4 12 buf = Some (take 8 (drop 4 data)) /\ slice 12 16 buf = Some (take 4 (drop 12 data)).
Proof.
  intros Hl. exists (take 16 data). unfold slice.
  assert (length (take 16 data) = 16%nat) as Ht by (rewrite length_take; lia).
  rewrite Ht, !decide_True by lia. split_and!; f_equal.
  - simpl (Z.to_nat 0). rewrite drop_0. change (Z.to_nat (4 - 0)) with 4%nat. by rewrite take_take.
  - change (Z.to_nat 4) with 4%nat. change (Z.to_nat (12 - 4)) with 8%nat.
    by rewrite !take_drop_commute, take_take.
  - change (Z.to_nat 12) with 12%nat. change (Z.to_nat (16 - 12)) with 4%nat.
    by rewrite !take_drop_commute, take_take.
Qed.

(** On any input below 4 GiB with a complete header, the parser panics
    exactly when the header announces a body of at least [2^32 - 16] bytes: there
    the 32-bit sum of the bounds check wraps, and the slice that follows is out of
    range; on every other input it returns a needle or an error. *)
Theorem ReadFrom_panic_iff (data : bytes) (off sz v : Z) (n : Needle) :
  Forall is_byte data -> 16 <= zlen data < 2 ^ 32 ->
  fst (ReadFrom data off sz v n) = Panic <-> 2 ^ 32 - 16 <= header_bodysize data.
Proof.
  intros Hb Hl. destruct (read_header data ltac:(lia)) as (buf & E1 & E2 & E3 & E4).
  assert (0 <= header_bodysize data < 2 ^ 32) as Hr.
  { unfold header_bodysize. pose proof (be_get_bound (take 4 (drop 12 data))
      ltac:(by apply Forall_take, Forall_drop)) as H.
    assert (length (take 4 (drop 12 data)) = 4%nat) as E by (rewrite length_take, length_drop; lia).
    rewrite E in H. exact H. }
  unfold ReadFrom. rewrite decide_False by lia. rewrite bind_fail_if_false by lia.
  erewrite bind_or_panic by exact E1. erewrite bind_or_panic by exact E2. rewrite bind_modify.
  erewrite bind_or_panic by exact E3. rewrite bind_modify. erewrite bind_or_panic by exact E4.
  fold (header_bodysize data). cbv zeta. case_decide as Hz; [simpl; split; [done|lia]|].
  rewrite (u32_small (zlen data)) by lia.
  destruct (decide (2 ^ 32 - 16 <= header_bodysize data)) as [Hbig|Hsmall].
  - split; [done|intros _].
    assert (u32 (16 + header_bodysize data) = 16 + header_bodysize data - 2 ^ 32) as ->
      by (unfold wrap; zlia).
    rewrite bind_fail_if_false by lia. rewrite bind_fail_if_false by lia.
    assert (slice 16 (16 + header_bodysize data) data = None) as ->
      by (unfold slice; rewrite decide_False by lia; done).
    reflexivity.
  - split; [|done]. rewrite (u32_small (16 + header_bodysize data)) by lia. intros Hp. exfalso. revert Hp.
    match goal with |- fst (?m ?s) = Panic -> _ =>
      enough (safe (fun _ => True) m) as Hsafe
        by (specialize (Hsafe s); intros Hp; by rewrite Hp in Hsafe) end.
    do 3 safe_step. slice_facts.
    eapply safe_bind; [apply read_body_safe; [done|lia]|intros ? _]. safe_step.
    apply (safe_bind (fun _ => True)); [|intros ? _; apply safe_modify].
    intros s. simpl. unfold VerifyChecksum. by case_decide.
Qed.

Lemma ReadFrom_panic_iff_witness :
  fst (ReadFrom (replicate 12 0 ++ [255; 255; 255; 240]) 0 16 3 zero_needle) = Panic.
Proof.
  apply (ReadFrom_panic_iff (replicate 12 0 ++ [255; 255; 255; 240]) 0 16 3 zero_needle).
  - apply (bool_decide_unpack _); by vm_compute.
  - by vm_compute.
  - by vm_compute.
Defined.
