(* ===== verification/SuperBlock.v ===== *)
(** * SuperBlock: the 8-byte header of a volume's data file

    Models [goblob/storage/volume/superblock.go]. *)

From S2P Require Import Prelude Bytes Types OsFile.

Definition SuperBlockSize : Z := 8.

Record SuperBlock := mkSuperBlock {
  sb_Version : Z;
  sb_ReplicaPlacement : ReplicaPlacement;
  sb_Ttl : TTL;
  sb_CompactionRevision : Z;
}.

Inductive sb_err := ErrSbShort | ErrSbEOF | ErrSbRead (e : io_err).

Definition sb_Bytes (sb : SuperBlock) : bytes :=
  [u8 (sb_Version sb); rp_Byte (sb_ReplicaPlacement sb)] ++ TTL_Bytes (sb_Ttl sb) ++
  be_put 2 (sb_CompactionRevision sb) ++ be_put 2 0.

Definition ParseSuperBlock (data : bytes) : outcome sb_err SuperBlock :=
  if decide (zlen data < SuperBlockSize) then Fail ErrSbShort else
  match data with
  | b0 :: b1 :: b2 :: b3 :: b4 :: b5 :: _ =>
      Ret (mkSuperBlock b0 (ParseReplicaPlacement b1) (mkTTL b2 b3) (be_get [b4; b5]))
  | _ => Panic
  end.

Definition ReadSuperBlock : GoM file sb_err SuperBlock := fun f =>
  match f_ReadFull SuperBlockSize f with
  | (Ret buf, f') => (ParseSuperBlock buf, f')
  | (Fail EOF, f') => (Fail ErrSbEOF, f')
  | (Fail e, f') => (Fail (ErrSbRead e), f')
  | (Panic, f') => (Panic, f')
  end.

Definition WriteSuperBlock (sb : SuperBlock) : GoM file io_err unit :=
  f_WriteAt (sb_Bytes sb) 0.

Definition IsCompatible (sb : SuperBlock) : bool :=
  bool_decide (sb_Version sb >= NeedleVersionV1) && bool_decide (sb_Version sb <= CurrentNeedleVersion).

(** ** The round trip *)

Definition sb_wf (sb : SuperBlock) : Prop :=
  is_byte (sb_Version sb) /\ rp_fits (sb_ReplicaPlacement sb) /\
  is_byte (ttl_Count (sb_Ttl sb)) /\ is_byte (ttl_Unit (sb_Ttl sb)) /\
  in_u 16 (sb_CompactionRevision sb).

Lemma sb_Bytes_length sb : length (sb_Bytes sb) = 8%nat.
Proof. reflexivity. Qed.

Lemma ParseSuperBlock_Bytes sb : sb_wf sb -> ParseSuperBlock (sb_Bytes sb) = Ret sb.
Proof.
  intros (Hv & Hrp & Hc & Hu & Hr). unfold ParseSuperBlock.
  rewrite decide_False by (rewrite sb_Bytes_length; unfold SuperBlockSize; lia).
  assert (be_get (be_put 2 (sb_CompactionRevision sb)) = sb_CompactionRevision sb) as Hrev
    by (apply be_get_put_small; exact Hr).
  destruct sb as [v rp [c u] r]. simpl in *.
  rewrite (wrap_small 8 v) by done. rewrite (proj2 (rp_parse_byte rp)) by done.
  by rewrite Hrev.
Qed.

(** A superblock at the start of a file is read back from there. *)
Lemma ReadSuperBlock_run f sb rest :
  sb_wf sb -> f_pos f = 0 -> f_data f = sb_Bytes sb ++ rest ->
  ReadSuperBlock f = (Ret sb, mkFile (f_data f) 8 (f_limit f)).
Proof.
  intros Hwf Hp Hd. unfold ReadSuperBlock, f_ReadFull. rewrite Hp. change (Z.to_nat 0) with 0%nat. rewrite drop_0.
  rewrite decide_False by (by rewrite Hd).
  rewrite decide_False by (rewrite Hd, length_app, sb_Bytes_length; unfold SuperBlockSize; lia).
  simpl (Z.to_nat SuperBlockSize). rewrite Hd at 1.
  rewrite take_app_length' by by rewrite sb_Bytes_length.
  by rewrite ParseSuperBlock_Bytes.
Qed.

Lemma WriteSuperBlock_run f sb :
  8 <= f_limit f ->
  WriteSuperBlock sb f = (Ret tt, mkFile (sb_Bytes sb ++ drop 8 (f_data f)) (f_pos f) (f_limit f)).
Proof.
  intros Hl. unfold WriteSuperBlock, f_WriteAt. rewrite sb_Bytes_length.
  replace (Z.min _ _) with 8 by lia. rewrite decide_True by done.
  simpl (Z.to_nat 8). rewrite take_ge by by rewrite sb_Bytes_length.
  do 2 f_equal.
Qed.

Lemma WriteSuperBlock_fail f sb :
  f_limit f < 8 -> exists f', WriteSuperBlock sb f = (Fail ENOSPC, f').
Proof.
  intros Hl. unfold WriteSuperBlock, f_WriteAt. rewrite sb_Bytes_length, decide_False by lia. by eexists.
Qed.

(** A superblock written to a data file is read back field for field, and
    nothing after it changes; with less than eight bytes of room the write reports
    an error. *)
Theorem SuperBlock_roundtrip (sb : SuperBlock) (f : file) :
  sb_wf sb -> f_pos f = 0 -> 0 <= f_limit f ->
  match WriteSuperBlock sb f with
  | (Ret _, f') => fst (ReadSuperBlock f') = Ret sb /\ drop 8 (f_data f') = drop 8 (f_data f)
  | (Fail _, _) => f_limit f < 8
  | (Panic, _) => False
  end.
Proof.
  intros Hwf Hp Hlim. destruct (decide (8 <= f_limit f)) as [Hl|Hl].
  - rewrite WriteSuperBlock_run by done.
    erewrite ReadSuperBlock_run by (done || reflexivity).
    split; [done|reflexivity].
  - unfold WriteSuperBlock, f_WriteAt. rewrite sb_Bytes_length.
    rewrite decide_False by lia. lia.
Qed.

Lemma SuperBlock_roundtrip_witness :
  let sb := mkSuperBlock 3 (mkReplicaPlacement 0 1 2) (mkTTL 7 TTLUnitDay) 513 in
  fst (ReadSuperBlock (snd (WriteSuperBlock sb (mkFile [] 0 4096)))) = Ret sb.
Proof.
  pose proof (SuperBlock_roundtrip (mkSuperBlock 3 (mkReplicaPlacement 0 1 2) (mkTTL 7 TTLUnitDay) 513)
    (mkFile [] 0 4096)) as H.
  apply H; [|done|done]. apply (bool_decide_unpack _); by vm_compute.
Defined.
