(* ===== verification/Fs.v ===== *)
(** * Fs: the directory entries and open files of the storage engine

    A volume has four file names, its data file, its index, and the two temporary
    files of a compaction; a name is the directory, the volume id and the
    extension.  An open file is the name it was opened under, the cursor and the
    [O_APPEND] flag: the code renames and removes a file only after closing it, so
    that the name identifies the file for as long as it is open.  The files share the
    [fs_space] bytes of their device, and [fs_limit] is the size a single file can reach:
    a write stores what fits and fails when that is not all of it, so that the append to
    an index can fail after the append to the data file has succeeded. *)

From S2P Require Import Prelude Bytes OsFile.

Inductive ext := Dat | Idx | Cpd | Cpx.

#[export] Instance ext_eq_dec : EqDecision ext.
Proof. solve_decision. Defined.

#[export] Instance ext_countable : Countable ext.
Proof.
  refine (inj_countable'
    (fun e => match e with Dat => 0 | Idx => 1 | Cpd => 2 | Cpx => 3 end)
    (fun n => if decide (n = 0) then Dat else if decide (n = 1) then Idx
              else if decide (n = 2) then Cpd else Cpx) _).
  by intros [].
Defined.

(** Directory, volume id, extension. *)
Abbreviation path := (string * Z * ext)%type.

Record fsys := mkFs {
  fs_files : gmap path bytes;
  fs_limit : Z;
  fs_space : Z;
}.

(** The size the file [p] can grow to: what the other files leave of the device. *)
Definition fs_room (p : path) (fs : fsys) : Z :=
  Z.min (fs_limit fs) (fs_space fs - msum (fun b => zlen b) (delete p (fs_files fs))).

Record handle := mkHandle {
  h_path : path;
  h_pos : Z;
  h_append : bool;
}.

Definition fs_set (p : path) (b : bytes) (fs : fsys) : fsys :=
  mkFs (<[p := b]> (fs_files fs)) (fs_limit fs) (fs_space fs).

(** The open file behind a handle. *)
Definition h_file (h : handle) (fs : fsys) : file :=
  mkFile (default [] (fs_files fs !! h_path h)) (h_pos h) (fs_room (h_path h) fs).

(** A call on an open file, seen from the file system. *)
Definition on_handle {A} (m : GoM file io_err A) : GoM (handle * fsys) io_err A := fun '(h, fs) =>
  let '(r, f') := m (h_file h fs) in
  (r, (mkHandle (h_path h) (f_pos f') (h_append h), fs_set (h_path h) (f_data f') fs)).

(** [f.Write(b)]: with [O_APPEND] every write goes to the end of the file. *)
Definition h_Write (b : bytes) : GoM (handle * fsys) io_err unit := fun '(h, fs) =>
  if h_append h then on_handle (f_SeekEnd;; f_Write b) (h, fs)
  else on_handle (f_Write b) (h, fs).

(** [os.Stat] followed by [os.IsNotExist] *)
Definition fs_exists (p : path) (fs : fsys) : bool := bool_decide (is_Some (fs_files fs !! p)).

(** [os.OpenFile]: with [O_CREATE] a missing file is created empty. *)
Definition fs_Open (p : path) (create append : bool) : GoM fsys io_err handle := fun fs =>
  match fs_files fs !! p with
  | Some _ => (Ret (mkHandle p 0 append), fs)
  | None => if create then (Ret (mkHandle p 0 append), fs_set p [] fs) else (Fail ENOENT, fs)
  end.

(** [os.Create]: an existing file is truncated. *)
Definition fs_Create (p : path) : GoM fsys io_err handle := fun fs =>
  (Ret (mkHandle p 0 false), fs_set p [] fs).

(** [os.Remove] *)
Definition fs_Remove (p : path) : GoM fsys io_err unit := fun fs =>
  match fs_files fs !! p with
  | Some _ => (Ret tt, mkFs (delete p (fs_files fs)) (fs_limit fs) (fs_space fs))
  | None => (Fail ENOENT, fs)
  end.

(** [os.Rename]: the target is replaced. *)
Definition fs_Rename (p q : path) : GoM fsys io_err unit := fun fs =>
  match fs_files fs !! p with
  | Some b => (Ret tt, mkFs (<[q := b]> (delete p (fs_files fs))) (fs_limit fs) (fs_space fs))
  | None => (Fail ENOENT, fs)
  end.

(** ** Laws *)

Lemma fs_set_same p b fs : fs_files (fs_set p b fs) !! p = Some b.
Proof. apply lookup_insert_eq. Qed.

Lemma fs_set_other p q b fs : p <> q -> fs_files (fs_set p b fs) !! q = fs_files fs !! q.
Proof. apply lookup_insert_ne. Qed.

Lemma fs_set_set p b b' fs : fs_set p b (fs_set p b' fs) = fs_set p b fs.
Proof. unfold fs_set. simpl. by rewrite insert_insert_eq. Qed.

Lemma fs_set_id p b fs : fs_files fs !! p = Some b -> fs_set p b fs = fs.
Proof. intros H. unfold fs_set. rewrite insert_id by done. by destruct fs. Qed.

(** What a file can grow to does not depend on its own size. *)
Lemma fs_room_set p b fs : fs_room p (fs_set p b fs) = fs_room p fs.
Proof. unfold fs_room, fs_set. cbn [fs_files fs_limit fs_space]. by rewrite delete_insert_eq. Qed.

Lemma fs_room_Remove p fs : fs_room p (snd (fs_Remove p fs)) = fs_room p fs.
Proof.
  unfold fs_Remove. destruct (fs_files fs !! p); [|done]. unfold fs_room. cbn [snd fs_files fs_limit fs_space].
  by rewrite delete_delete_eq.
Qed.

Lemma fs_room_limit p fs : fs_room p fs <= fs_limit fs.
Proof. unfold fs_room. lia. Qed.

(** A handle whose next write goes to the end of the file: opened with
    [O_APPEND], or with the cursor at the end. *)
Definition h_appends (h : handle) (fs : fsys) : Prop :=
  h_append h = true \/ h_pos h = zlen (f_data (h_file h fs)).

(** A write through such a handle appends a prefix of its argument, all of it when
    there is room; and the handle still appends. *)
Lemma h_Write_cases h fs b :
  h_appends h fs ->
  exists r h' k, let d := f_data (h_file h fs) ++ take k b in
    h_Write b (h, fs) = (r, (h', fs_set (h_path h) d fs)) /\
    zlen d <= Z.max (zlen (f_data (h_file h fs))) (fs_room (h_path h) fs) /\
    h_path h' = h_path h /\ h_append h' = h_append h /\ h_appends h' (fs_set (h_path h) d fs) /\
    (r = Ret tt /\ take k b = b \/
     r = Fail ENOSPC /\ fs_room (h_path h) fs < zlen (f_data (h_file h fs) ++ b) /\ fs_room (h_path h) fs <= zlen d).
Proof.
  intros Hap. unfold h_Write.
  assert (forall f, at_end f -> f_data f = f_data (h_file h fs) -> f_limit f = fs_room (h_path h) fs ->
    exists r h' k, let d := f_data (h_file h fs) ++ take k b in
    (let '(r, f') := f_Write b f in
     (r, (mkHandle (h_path h) (f_pos f') (h_append h), fs_set (h_path h) (f_data f') fs))) =
      (r, (h', fs_set (h_path h) d fs)) /\
    zlen d <= Z.max (zlen (f_data (h_file h fs))) (fs_room (h_path h) fs) /\
    h_path h' = h_path h /\ h_append h' = h_append h /\ h_appends h' (fs_set (h_path h) d fs) /\
    (r = Ret tt /\ take k b = b \/
     r = Fail ENOSPC /\ fs_room (h_path h) fs < zlen (f_data (h_file h fs) ++ b) /\ fs_room (h_path h) fs <= zlen d)) as Hgen.
  { intros f Hend Hd Hl.
    assert (forall c, h_appends (mkHandle (h_path h) (zlen (f_data f ++ c)) (h_append h))
      (fs_set (h_path h) (f_data f ++ c) fs)) as Hap'
      by (intros c; right; unfold h_file; simpl; by rewrite lookup_insert_eq).
    pose proof (f_Write_full f b) as Hfull.
    destruct (f_Write_cases f b Hend) as [[-> Hle]|(Hroom & k & Hw & Hle)]; rewrite <- ?Hd, <- ?Hl.
    - eexists _, _, (length b). simpl. rewrite take_ge by lia.
      split_and!; [reflexivity|exact Hle| | |apply Hap'|by left]; done.
    - specialize (Hfull _ _ Hend Hw). rewrite Hw. eexists _, _, k. simpl.
      split_and!; [reflexivity|exact Hle| | |apply Hap'|by right]; done. }
  destruct (h_append h) eqn:Ha.
  - unfold on_handle. erewrite bind_run by apply f_SeekEnd_run. rewrite Ha.
    apply Hgen; [apply at_end_extend|cbn [extend f_data]; apply app_nil_r|done].
  - destruct Hap as [?|Hpos]; [congruence|]. unfold on_handle. rewrite Ha. apply Hgen; done.
Qed.

Lemma h_Write_run h fs b :
  h_appends h fs -> zlen (f_data (h_file h fs)) + zlen b <= fs_room (h_path h) fs ->
  exists h', let fs' := fs_set (h_path h) (f_data (h_file h fs) ++ b) fs in
    h_Write b (h, fs) = (Ret tt, (h', fs')) /\
    h_path h' = h_path h /\ h_append h' = h_append h /\ h_appends h' fs'.
Proof.
  intros Hap Hroom. destruct (h_Write_cases h fs b Hap) as (r & h' & k & H).
  cbv zeta in H. destruct H as (Hw & _ & Hp & Ha & Hap' & [[-> Hk]|(-> & Hl & _)]);
    [|rewrite length_app in Hl; lia].
  exists h'. simpl. rewrite Hk in *. done.
Qed.
