(* ===== verification/NeedleMap.v ===== *)
(** * NeedleMap: the in-memory index of a volume and its [.idx] file

    Models [MemDb] and the index tools of [goblob/storage/volume/needle_map.go].
    A method of [*MemDb] is a command on the map and the file system; its mutex
    makes it atomic. *)

From S2P Require Import Prelude Bytes Types OsFile SuperBlock Fs.

Record needleValue := mkNV { nv_offset : Z; nv_size : Z }.

Definition isDeleted (nv : needleValue) : bool := bool_decide (nv_size nv = TombstoneFileSize).

Record MemDb := mkMemDb {
  db_m : gmap Z needleValue;
  db_file : option handle;
  db_contentSize : Z;
  db_deletedSize : Z;
  db_fileCount : Z;
  db_deletedCount : Z;
}.

Definition NewMemDb : MemDb := mkMemDb ∅ None 0 0 0 0.

Inductive nm_err := ErrNotFound | ErrDeleted | ErrIndexIO (e : io_err).

Abbreviation nm := (GoM (MemDb * fsys) nm_err).

(** ** Lookups *)

Definition Get (id : Z) (db : MemDb) : outcome nm_err (Z * Z) :=
  match db_m db !! id with
  | None => Fail ErrNotFound
  | Some v => if isDeleted v then Fail ErrDeleted else Ret (nv_offset v, nv_size v)
  end.

(** ** Statistics

    The counters of the entry a key is about to lose. *)
Definition uncount (old : option needleValue) (db : MemDb) : MemDb :=
  match old with
  | None => db
  | Some v =>
      if isDeleted v
      then mkMemDb (db_m db) (db_file db) (db_contentSize db) (u64 (db_deletedSize db - nv_size v))
                   (db_fileCount db) (i64 (db_deletedCount db - 1))
      else mkMemDb (db_m db) (db_file db) (u64 (db_contentSize db - nv_size v)) (db_deletedSize db)
                   (i64 (db_fileCount db - 1)) (db_deletedCount db)
  end.

(** The counters of the entry it gets. *)
Definition count (size : Z) (db : MemDb) : MemDb :=
  if decide (size = TombstoneFileSize)
  then mkMemDb (db_m db) (db_file db) (db_contentSize db) (db_deletedSize db)
               (db_fileCount db) (i64 (db_deletedCount db + 1))
  else mkMemDb (db_m db) (db_file db) (u64 (db_contentSize db + size)) (db_deletedSize db)
               (i64 (db_fileCount db + 1)) (db_deletedCount db).

Definition set_entry (key : Z) (v : needleValue) (db : MemDb) : MemDb :=
  mkMemDb (<[key := v]> (db_m db)) (db_file db) (db_contentSize db) (db_deletedSize db)
          (db_fileCount db) (db_deletedCount db).

Definition set_file (h : option handle) (db : MemDb) : MemDb :=
  mkMemDb (db_m db) h (db_contentSize db) (db_deletedSize db) (db_fileCount db) (db_deletedCount db).

(** ** Index records *)

Definition index_entry (key offset size : Z) : bytes :=
  be_put 8 key ++ be_put 4 offset ++ be_put 4 size.

Definition appendEntry (key offset size : Z) : nm unit := fun '(db, fs) =>
  match db_file db with
  | None => (Fail (ErrIndexIO ErrInvalid), (db, fs))
  | Some h =>
      let '(r, (h', fs')) := h_Write (index_entry key offset size) (h, fs) in
      (match r with Ret _ => Ret tt | Fail e => Fail (ErrIndexIO e) | Panic => Panic end,
       (set_file (Some h') db, fs'))
  end.

(** The tail shared by [Put] and [Delete]: append to the [.idx] file if open. *)
Definition persist (key offset size : Z) : nm unit :=
  s ← get;
  match db_file (fst s) with
  | Some _ => appendEntry key offset size
  | None => mret tt
  end.

Definition on_db (f : MemDb -> MemDb) : nm unit := modify (fun '(db, fs) => (f db, fs)).

Definition Put (key offset size : Z) : nm unit :=
  s ← get;
  let old := db_m (fst s) !! key in
  on_db (uncount old);;
  on_db (count size);;
  on_db (set_entry key (mkNV offset size));;
  persist key offset size.

Definition Delete (key : Z) : nm unit :=
  s ← get;
  match db_m (fst s) !! key with
  | None => fail ErrNotFound
  | Some old =>
      if isDeleted old then mret tt else
      on_db (fun db => mkMemDb (db_m db) (db_file db)
        (u64 (db_contentSize db - nv_size old)) (u64 (db_deletedSize db + nv_size old))
        (i64 (db_fileCount db - 1)) (i64 (db_deletedCount db + 1)));;
      on_db (set_entry key (mkNV (nv_offset old) TombstoneFileSize));;
      persist key (nv_offset old) TombstoneFileSize
  end.

Definition db_Close : nm unit := on_db (set_file None).

(** ** Replaying an index file *)

(** One 16-byte record; the caller's buffer always has 16 bytes. *)
Definition decode_entry (buf : bytes) : Z * needleValue :=
  (be_get (take 8 buf), mkNV (be_get (take 4 (drop 8 buf))) (be_get (take 4 (drop 12 buf)))).

Definition load_entry (db : MemDb) (e : Z * needleValue) : MemDb :=
  let '(key, v) := e in
  count (nv_size v) (set_entry key v (uncount (db_m db !! key) db)).

(** The read loop; [fuel] bounds the iterations, one per 16 bytes of the file and
    one for the end. *)
Fixpoint load_loop (fuel : nat) (f : file) (db : MemDb) : outcome nm_err unit * MemDb :=
  match fuel with
  | O => (Panic, db)
  | S fuel =>
      match f_ReadFull NeedleIndexSize f with
      | (Ret buf, f') => load_loop fuel f' (load_entry db (decode_entry buf))
      | (Fail EOF, _) | (Fail ErrUnexpectedEOF, _) => (Ret tt, db)
      | (Fail e, _) => (Fail (ErrIndexIO e), db)
      | (Panic, _) => (Panic, db)
      end
  end.

Definition load_fuel (data : bytes) : nat := S (length data / 16).

Definition Load (p : path) : nm unit := fun '(db, fs) =>
  match fs_files fs !! p with
  | None => (Ret tt, (db, fs))
  | Some data =>
      let '(r, db') := load_loop (load_fuel data) (mkFile data 0 (fs_limit fs)) db in
      (r, (db', fs))
  end.

Definition OpenIndexFile (p : path) : nm unit := fun '(db, fs) =>
  match fs_Open p true true fs with
  | (Ret h, fs') => (Ret tt, (set_file (Some h) db, fs'))
  | (Fail e, fs') => (Fail (ErrIndexIO e), (db, fs'))
  | (Panic, fs') => (Panic, (db, fs'))
  end.

Definition LoadNeedleMap (p : path) : GoM fsys nm_err MemDb := fun fs =>
  match (Load p;; OpenIndexFile p) (NewMemDb, fs) with
  | (Ret _, (db, fs')) => (Ret db, fs')
  | (Fail e, (_, fs')) => (Fail e, fs')
  | (Panic, (_, fs')) => (Panic, fs')
  end.

(** ** [Iterate] and the index tools

    Go leaves the order of a map iteration open: the commands that iterate take
    the order as an argument, a permutation of [map_to_list]. *)

(** The writes of [CompactIndex], in the iteration order [order]. *)
Fixpoint write_live (order : list (Z * needleValue)) : GoM (handle * fsys) nm_err unit :=
  match order with
  | [] => mret tt
  | (id, v) :: rest =>
      if isDeleted v then write_live rest else
      (fun s => match h_Write (index_entry id (nv_offset v) (nv_size v)) s with
                | (Ret _, s') => write_live rest s'
                | (Fail e, s') => (Fail (ErrIndexIO e), s')
                | (Panic, s') => (Panic, s')
                end)
  end.

Definition CompactIndex (order : gmap Z needleValue -> list (Z * needleValue)) (input output : path)
  : GoM fsys nm_err unit := fun fs =>
  match Load input (NewMemDb, fs) with
  | (Ret _, (src, _)) =>
      match fs_Create output fs with
      | (Ret dst, fs1) =>
          let '(r, (_, fs2)) := write_live (order (db_m src)) (dst, fs1) in (r, fs2)
      | (Fail e, fs1) => (Fail (ErrIndexIO e), fs1)
      | (Panic, fs1) => (Panic, fs1)
      end
  | (Fail e, _) => (Fail e, fs)
  | (Panic, _) => (Panic, fs)
  end.

(** The size of the record behind a header, as [CreateVolumeIndex] computes it:
    the sum is taken in [uint32] before it is widened. *)
Definition record_size (bodySize : Z) : Z :=
  let unpadded := u32 (16 + bodySize) in
  let rem := Z.rem unpadded 8 in
  if decide (rem <> 0) then unpadded + (8 - rem) else unpadded.

(** The scan; [None] when [fuel] iterations are not enough. *)
Fixpoint scan_loop (fuel : nat) (dat : file) (offset : Z)
  : handle * fsys -> option (outcome nm_err unit * (handle * fsys)) := fun s =>
  match fuel with
  | O => None
  | S fuel =>
      match f_ReadAt 16 offset dat with
      | Ret header =>
          let needleId := be_get (take 8 (drop 4 header)) in
          let totalSize := record_size (be_get (take 4 (drop 12 header))) in
          match h_Write (index_entry needleId (ToEncoded offset) totalSize) s with
          | (Ret _, s') => scan_loop fuel dat (offset + totalSize) s'
          | (Fail e, s') => Some (Fail (ErrIndexIO e), s')
          | (Panic, s') => Some (Panic, s')
          end
      | _ => Some (Ret tt, s)
      end
  end.

Definition CreateVolumeIndex (fuel : nat) (dataFile indexFile : path) (fs : fsys)
  : option (outcome nm_err unit * fsys) :=
  match fs_files fs !! dataFile with
  | None => Some (Fail (ErrIndexIO ENOENT), fs)
  | Some data =>
      match fs_Create indexFile fs with
      | (Ret h, fs1) =>
          match scan_loop fuel (mkFile data 0 (fs_limit fs)) SuperBlockSize (h, fs1) with
          | Some (r, (_, fs2)) => Some (r, fs2)
          | None => None
          end
      | (Fail e, fs1) => Some (Fail (ErrIndexIO e), fs1)
      | (Panic, fs1) => Some (Panic, fs1)
      end
  end.

(** [os.Remove] is called for its effect; its error is dropped. *)
Definition RebuildIndex (fuel : nat) (dataFile indexFile : path) (fs : fsys)
  : option (outcome nm_err unit * fsys) :=
  CreateVolumeIndex fuel dataFile indexFile (snd (fs_Remove indexFile fs)).

(** ** The index file as a list of records *)

Abbreviation entry := (Z * needleValue)%type.

Definition entry_wf (e : entry) : Prop :=
  in_u 64 (e.1) /\ in_u 32 (nv_offset e.2) /\ in_u 32 (nv_size e.2).

Definition encode_entry (e : entry) : bytes := index_entry e.1 (nv_offset e.2) (nv_size e.2).
Definition encode_entries (es : list entry) : bytes := es ≫= encode_entry.

(** The map an index file stands for: the last record of a key wins. *)
Definition replay (es : list entry) (m : gmap Z needleValue) : gmap Z needleValue :=
  foldl (fun m e => <[e.1 := e.2]> m) m es.

Lemma length_encode_entry e : length (encode_entry e) = 16%nat.
Proof. unfold encode_entry, index_entry. by rewrite !length_app, !length_be_put. Qed.

Lemma length_encode_entries es : length (encode_entries es) = (16 * length es)%nat.
Proof.
  unfold encode_entries. induction es as [|e es IH]; [done|].
  cbn [mbind list_bind length]. rewrite length_app, length_encode_entry, IH. lia.
Qed.

Lemma encode_entries_snoc es e : encode_entries (es ++ [e]) = encode_entries es ++ encode_entry e.
Proof. unfold encode_entries. rewrite bind_app. cbn [mbind list_bind]. by rewrite app_nil_r. Qed.

Lemma decode_encode_entry e : entry_wf e -> decode_entry (encode_entry e) = e.
Proof.
  destruct e as [k [o s]]. intros (Hk & Ho & Hs). simpl in *.
  unfold decode_entry, encode_entry, index_entry. cbn [fst snd nv_offset nv_size].
  rewrite take_app_length' by by rewrite length_be_put.
  rewrite (drop_app_length' _ _ 8) by by rewrite length_be_put.
  rewrite take_app_length' by by rewrite length_be_put.
  rewrite app_assoc, (drop_app_length' _ _ 12) by by rewrite length_app, !length_be_put.
  rewrite take_ge by by rewrite length_be_put.
  by rewrite !be_get_put_small.
Qed.

Lemma db_m_load_entry db e : db_m (load_entry db e) = <[e.1 := e.2]> (db_m db).
Proof.
  destruct e as [k v]. unfold load_entry, count, uncount. simpl.
  case_decide; case_match; try case_match; done.
Qed.

Lemma db_file_load_entry db e : db_file (load_entry db e) = db_file db.
Proof.
  destruct e as [k v]. unfold load_entry, count, uncount. simpl.
  case_decide; case_match; try case_match; done.
Qed.

Lemma db_m_load_entries es db : db_m (foldl load_entry db es) = replay es (db_m db).
Proof.
  revert db. induction es as [|e es IH]; intros db; [done|]. simpl.
  rewrite IH. f_equal. apply db_m_load_entry.
Qed.

Lemma db_file_load_entries es db : db_file (foldl load_entry db es) = db_file db.
Proof.
  revert db. induction es as [|e es IH]; intros db; [done|]. simpl.
  rewrite IH. apply db_file_load_entry.
Qed.

Lemma load_loop_run es pre tail lim fuel db :
  Forall entry_wf es -> zlen tail < 16 -> (length es < fuel)%nat ->
  load_loop fuel (mkFile (pre ++ encode_entries es ++ tail) (zlen pre) lim) db =
    (Ret tt, foldl load_entry db es).
Proof.
  intros Hwf Ht. revert pre fuel db. induction Hwf as [|e es He Hes IH]; intros pre fuel db Hf;
    (destruct fuel as [|fuel]; [simpl in Hf; lia|]); cbn [load_loop]; unfold f_ReadFull;
    cbn [f_data f_pos f_limit]; rewrite Nat2Z.id, drop_app_length.
  - simpl (encode_entries [] ++ tail). case_decide; [done|].
    rewrite decide_True by (unfold NeedleIndexSize; lia). done.
  - unfold encode_entries. cbn [mbind list_bind]. fold (encode_entries es).
    pose proof (length_encode_entry e) as Hl.
    rewrite decide_False by (intros E; apply (f_equal length) in E; rewrite !length_app, Hl in E; simpl in E; lia).
    rewrite decide_False by (rewrite !length_app, Hl; unfold NeedleIndexSize; lia).
    change (Z.to_nat NeedleIndexSize) with 16%nat. rewrite <- !app_assoc.
    rewrite take_app_length' by done. rewrite decode_encode_entry by done.
    specialize (IH (pre ++ encode_entry e) fuel (load_entry db e)).
    rewrite <- app_assoc, length_app, Hl in IH. unfold NeedleIndexSize.
    rewrite Nat2Z.inj_add in IH. apply IH. simpl in Hf. lia.
Qed.

(** Loading an index replays its complete records and ignores a torn last one. *)
Lemma Load_run p db fs es tail :
  fs_files fs !! p = Some (encode_entries es ++ tail) -> Forall entry_wf es -> zlen tail < 16 ->
  Load p (db, fs) = (Ret tt, (foldl load_entry db es, fs)).
Proof.
  intros Hp Hwf Ht. unfold Load. rewrite Hp.
  pose proof (load_loop_run es [] tail (fs_limit fs)
    (load_fuel (encode_entries es ++ tail)) db Hwf Ht) as H.
  simpl app in H. change (zlen []) with 0 in H. rewrite H; [done|].
  unfold load_fuel. rewrite length_app, length_encode_entries.
  apply Nat.lt_succ_r, Nat.div_le_lower_bound; lia.
Qed.

(** ** Statistics *)

Definition live_one (v : needleValue) : Z := if isDeleted v then 0 else 1.
Definition dead_one (v : needleValue) : Z := if isDeleted v then 1 else 0.

(** The counters agree with the map: live bytes, live and deleted entries. *)
Definition stats_ok (db : MemDb) : Prop :=
  db_contentSize db = u64 (msum nv_size (db_m db)) /\
  db_fileCount db = i64 (msum live_one (db_m db)) /\
  db_deletedCount db = i64 (msum dead_one (db_m db)).

Lemma stats_ok_new : stats_ok NewMemDb.
Proof. unfold stats_ok, NewMemDb. cbn [db_m]. by rewrite !msum_empty. Qed.

Lemma isDeleted_size v : isDeleted v = true -> nv_size v = 0.
Proof. unfold isDeleted. by intros H%bool_decide_eq_true_1. Qed.

Lemma stats_ok_load_entry db e : stats_ok db -> stats_ok (load_entry db e).
Proof.
  destruct e as [k [o s]]. intros (Hc & Hf & Hd). unfold stats_ok. rewrite db_m_load_entry.
  rewrite !msum_insert. cbn [fst snd]. revert Hc Hf Hd.
  generalize (msum nv_size (db_m db)) (msum live_one (db_m db)) (msum dead_one (db_m db)).
  intros C L D Hc Hf Hd. unfold load_entry, uncount, count, live_one, dead_one. cbn [nv_size].
  destruct (db_m db !! k) as [old|]; simpl.
  - destruct (isDeleted old) eqn:Eo; simpl; [apply isDeleted_size in Eo as ->|];
      (destruct (decide (s = TombstoneFileSize)) as [Hs|Hs];
        [|]; unfold isDeleted; simpl;
        [rewrite bool_decide_eq_true_2 by done|rewrite bool_decide_eq_false_2 by done]);
      simpl; rewrite ?Hc, ?Hf, ?Hd, ?wrap_sub_l, ?wrap_add_l, ?i64_sub_l, ?i64_add_l by lia;
      rewrite ?Hs; unfold TombstoneFileSize; split_and!; f_equal; lia.
  - unfold isDeleted; simpl. case_decide as Hs;
      [rewrite bool_decide_eq_true_2 by done|rewrite bool_decide_eq_false_2 by done];
      simpl; rewrite ?Hc, ?Hf, ?Hd, ?wrap_sub_l, ?wrap_add_l, ?i64_sub_l, ?i64_add_l by lia;
      rewrite ?Hs; unfold TombstoneFileSize; split_and!; f_equal; lia.
Qed.

Lemma stats_ok_load_entries es db : stats_ok db -> stats_ok (foldl load_entry db es).
Proof. revert db. induction es; simpl; auto using stats_ok_load_entry. Qed.

(** ** Runs of the operations on an open index *)

(** [db] appends its records to the file [p], which holds the records [es]. *)
Definition idx_open (p : path) (es : list entry) (db : MemDb) (fs : fsys) : Prop :=
  fs_files fs !! p = Some (encode_entries es) /\
  exists h, db_file db = Some h /\ h_path h = p /\ h_appends h fs.

Definition add_deleted (size : Z) (db : MemDb) : MemDb :=
  mkMemDb (db_m db) (db_file db) (db_contentSize db) (u64 (db_deletedSize db + size))
          (db_fileCount db) (db_deletedCount db).

(** The append of a record: all of it, or an error, a torn record and no room left. *)
Lemma persist_cases p key offset size db fs h :
  db_file db = Some h -> h_path h = p -> h_appends h fs ->
  let d := default [] (fs_files fs !! p) in
  exists r h' d', persist key offset size (db, fs) = (r, (set_file (Some h') db, fs_set p d' fs)) /\
    h_path h' = p /\ h_append h' = h_append h /\ h_appends h' (fs_set p d' fs) /\
    zlen d' <= Z.max (zlen d) (fs_room p fs) /\
    (r = Ret tt /\ d' = d ++ index_entry key offset size \/
     (exists e, r = Fail (ErrIndexIO e)) /\ fs_room p fs < zlen d + 16 /\
     exists tail, d' = d ++ tail /\ zlen tail < 16 /\ fs_room p fs <= zlen d').
Proof.
  intros Hh <- Hap d.
  pose proof (length_encode_entry (key, mkNV offset size)) as Hl.
  change (encode_entry (key, mkNV offset size)) with (index_entry key offset size) in Hl.
  destruct (h_Write_cases h fs (index_entry key offset size) Hap) as (r & h' & k & H). cbv zeta in H.
  change (f_data (h_file h fs)) with d in H. rewrite !length_app, Hl, length_take, Hl in H.
  destruct H as (Hw & Hle & Hp & Ha & Hap' & Hc).
  exists (match r with Ret _ => Ret tt | Fail e => Fail (ErrIndexIO e) | Panic => Panic end), h', (d ++ take k (index_entry key offset size)).
  split; [unfold persist; rewrite bind_get; cbn [fst]; rewrite Hh; unfold appendEntry; by rewrite Hh, Hw|].
  split; [done|]. split; [done|]. split; [done|]. split; [rewrite length_app, length_take, Hl; lia|].
  destruct Hc as [[-> ->]|(-> & Hr1 & Hr2)]; [by left|right].
  split; [by eexists|]. split; [lia|]. eexists. split; [done|]. rewrite length_app, length_take, Hl. lia.
Qed.

Lemma Put_db db key v : set_entry key v (count (nv_size v) (uncount (db_m db !! key) db)) = load_entry db (key, v).
Proof. unfold load_entry, count, uncount. repeat case_match; reflexivity. Qed.

Lemma Put_persist key offset size db fs :
  Put key offset size (db, fs) = persist key offset size (load_entry db (key, mkNV offset size), fs).
Proof. rewrite <- Put_db. reflexivity. Qed.

Lemma Delete_live key v db fs :
  db_m db !! key = Some v -> isDeleted v = false ->
  Delete key (db, fs) = persist key (nv_offset v) 0
    (add_deleted (nv_size v) (load_entry db (key, mkNV (nv_offset v) 0)), fs).
Proof.
  intros Hk Hl. unfold Delete. rewrite bind_get. cbn [fst]. rewrite Hk, Hl.
  unfold load_entry, uncount, count. rewrite Hk, Hl. cbn [nv_size nv_offset].
  rewrite decide_True by done. reflexivity.
Qed.

(** ** Reloading *)

(** The map is what its index file replays to. *)
Definition in_sync (p : path) (es : list entry) (db : MemDb) (fs : fsys) : Prop :=
  idx_open p es db fs /\ Forall entry_wf es /\ db_m db = replay es ∅ /\ stats_ok db.

Lemma replay_snoc es e m : replay (es ++ [e]) m = <[e.1 := e.2]> (replay es m).
Proof. unfold replay. by rewrite foldl_app. Qed.

Lemma replay_wf es m k v :
  Forall entry_wf es -> replay es m !! k = Some v -> m !! k = Some v \/ entry_wf (k, v).
Proof.
  induction es as [|e es IH] using rev_ind; [by left|].
  rewrite replay_snoc, Forall_app. intros [Hes He%Forall_inv].
  destruct e as [k' v']. simpl. destruct (decide (k' = k)) as [->|Hne].
  - rewrite lookup_insert_eq. intros [= <-]. by right.
  - rewrite lookup_insert_ne by done. auto.
Qed.

Lemma Put_sync_cases p es db fs key offset size :
  in_sync p es db fs -> entry_wf (key, mkNV offset size) ->
  exists r db' d', Put key offset size (db, fs) = (r, (db', fs_set p d' fs)) /\
    (r = Ret tt /\ in_sync p (es ++ [(key, mkNV offset size)]) db' (fs_set p d' fs) /\
       db_m db' = <[key := mkNV offset size]> (db_m db) \/
     (exists e, r = Fail e) /\ fs_room p fs < zlen (encode_entries es) + 16).
Proof.
  intros ((Hf & h & Hh & Hp & Hap) & Hwf & Hm & Hst) He. rewrite Put_persist.
  set (e := (key, mkNV offset size)). rewrite <- (db_file_load_entry db e) in Hh.
  destruct (persist_cases p key offset size (load_entry db e) fs h Hh Hp Hap) as (r & h' & d' & Hr & Hp' & _ & Hap' & _ & Hc).
  rewrite Hf in Hc. cbn [from_option id] in Hc. eexists _, _, _. split; [exact Hr|].
  destruct Hc as [[-> ->]|[[x ->] [Hroom _]]]; [left|right; by eauto].
  split; [done|]. split; [|apply db_m_load_entry].
  split; [split; [rewrite encode_entries_snoc; apply fs_set_same|by exists h']|].
  split; [by apply Forall_app_2; [|constructor]|]. split.
  - rewrite replay_snoc. cbn [db_m set_file]. by rewrite db_m_load_entry, Hm.
  - apply (stats_ok_load_entry db e Hst).
Qed.

(** A map whose index file is open for appending, whatever the file holds. *)
Definition idx_handle (p : path) (db : MemDb) : Prop :=
  exists h, db_file db = Some h /\ h_path h = p /\ h_append h = true.

(** The append for a map [db] that already has the record [e]: with an error or not, the
    map keeps it; without one, the file follows. *)
Lemma persist_live p e db0 db fs :
  idx_handle p db0 -> db_file db = db_file db0 -> db_m db = <[e.1 := e.2]> (db_m db0) -> (stats_ok db0 -> stats_ok db) ->
  exists r db' d', persist e.1 (nv_offset e.2) (nv_size e.2) (db, fs) = (r, (db', fs_set p d' fs)) /\
    idx_handle p db' /\ db_m db' = <[e.1 := e.2]> (db_m db0) /\
    (r = Ret tt /\ (forall es, in_sync p es db0 fs -> entry_wf e -> in_sync p (es ++ [e]) db' (fs_set p d' fs)) \/
     exists x, r = Fail (ErrIndexIO x)).
Proof.
  intros (h & Hh & Hp & Ha) Hfile Hm Hst. rewrite <- Hfile in Hh.
  destruct (persist_cases p e.1 (nv_offset e.2) (nv_size e.2) db fs h Hh Hp (or_introl Ha))
    as (r & h' & d' & Hr & Hp' & Ha' & Hap' & _ & Hc).
  exists r, (set_file (Some h') db), d'. split; [done|]. split; [exists h'; by rewrite Ha'|]. split; [done|].
  destruct Hc as [[-> ->]|[[x ->] _]]; [left|right; by eauto]. split; [done|].
  intros es ((Hf & _) & Hes & Hm0 & Hst0) He. rewrite Hf in *. split; [split|].
  - rewrite encode_entries_snoc. apply fs_set_same.
  - by exists h'.
  - split; [by apply Forall_app_2; [|constructor]|]. split; [|by apply Hst].
    rewrite replay_snoc. cbn [db_m set_file]. by rewrite Hm, Hm0.
Qed.

Lemma Put_live_run p key offset size db fs :
  idx_handle p db ->
  exists r db' d', Put key offset size (db, fs) = (r, (db', fs_set p d' fs)) /\
    idx_handle p db' /\ db_m db' = <[key := mkNV offset size]> (db_m db) /\
    (r = Ret tt /\ (forall es, in_sync p es db fs -> entry_wf (key, mkNV offset size) ->
       in_sync p (es ++ [(key, mkNV offset size)]) db' (fs_set p d' fs)) \/
     exists x, r = Fail (ErrIndexIO x)).
Proof.
  intros Hh. rewrite Put_persist. apply (persist_live p (key, mkNV offset size)); [done|apply db_file_load_entry|
    apply db_m_load_entry|apply stats_ok_load_entry].
Qed.

Lemma Delete_live_run p key v db fs :
  db_m db !! key = Some v -> isDeleted v = false -> idx_handle p db ->
  exists r db' d', Delete key (db, fs) = (r, (db', fs_set p d' fs)) /\
    idx_handle p db' /\ db_m db' = <[key := mkNV (nv_offset v) 0]> (db_m db) /\
    (r = Ret tt /\ (forall es, in_sync p es db fs -> entry_wf (key, mkNV (nv_offset v) 0) ->
       in_sync p (es ++ [(key, mkNV (nv_offset v) 0)]) db' (fs_set p d' fs)) \/
     exists x, r = Fail (ErrIndexIO x)).
Proof.
  intros Hk Hl Hh. rewrite (Delete_live _ v) by done.
  apply (persist_live p (key, mkNV (nv_offset v) 0)); [done|apply (db_file_load_entry db (key, mkNV (nv_offset v) 0))|
    apply (db_m_load_entry db (key, mkNV (nv_offset v) 0))|apply (stats_ok_load_entry db (key, mkNV (nv_offset v) 0))].
Qed.

(** The map a restart builds from an index file with the records [es]. *)
Definition loaded (p : path) (es : list entry) : MemDb :=
  set_file (Some (mkHandle p 0 true)) (foldl load_entry NewMemDb es).

Lemma LoadNeedleMap_run p es tail fs :
  fs_files fs !! p = Some (encode_entries es ++ tail) -> Forall entry_wf es -> zlen tail < 16 ->
  LoadNeedleMap p fs = (Ret (loaded p es), fs).
Proof.
  intros Hp Hwf Ht. unfold LoadNeedleMap. erewrite bind_run by by eapply Load_run.
  unfold OpenIndexFile, fs_Open. by rewrite Hp.
Qed.

Lemma loaded_in_sync p es fs :
  fs_files fs !! p = Some (encode_entries es) -> Forall entry_wf es -> in_sync p es (loaded p es) fs.
Proof.
  intros Hp Hwf. split; [|split; [done|split]].
  - split; [done|]. exists (mkHandle p 0 true). split_and!; [done..|by left].
  - unfold loaded. cbn [db_m set_file]. by rewrite db_m_load_entries.
  - apply (stats_ok_load_entries es NewMemDb stats_ok_new).
Qed.

Lemma load_entry_deletedSize db e :
  db_deletedSize db = 0 -> db_deletedSize (load_entry db e) = 0.
Proof.
  destruct e as [k v]. unfold load_entry, count, uncount. intros H.
  case_decide; (case_match; [case_match|]); cbn [db_deletedSize set_entry]; try done;
    rewrite H, isDeleted_size by done; reflexivity.
Qed.

Lemma loaded_deletedSize p es : db_deletedSize (loaded p es) = 0.
Proof.
  unfold loaded. cbn [db_deletedSize set_file].
  induction es as [|e es IH] using rev_ind; [done|]. rewrite foldl_app.
  by apply load_entry_deletedSize.
Qed.

(** *** Sequences of operations *)

Inductive nm_op := OpPut (key offset size : Z) | OpDelete (key : Z).

Definition nm_op_wf (op : nm_op) : Prop :=
  match op with OpPut key offset size => entry_wf (key, mkNV offset size) | OpDelete _ => True end.

Definition run_op (op : nm_op) : nm unit :=
  match op with OpPut key offset size => Put key offset size | OpDelete key => Delete key end.

(** The answers to a sequence of calls and the state after it. *)
Fixpoint run_ops (ops : list nm_op) (s : MemDb * fsys) : list (outcome nm_err unit) * (MemDb * fsys) :=
  match ops with
  | [] => ([], s)
  | op :: ops =>
      let '(r, s1) := run_op op s in
      let '(rs, s2) := run_ops ops s1 in
      (r :: rs, s2)
  end.

(** The number of calls before the first whose append failed. *)
Fixpoint appended (rs : list (outcome nm_err unit)) : nat :=
  match rs with
  | [] => 0
  | Fail (ErrIndexIO _) :: _ => 0
  | _ :: rs => S (appended rs)
  end.

(** A call, by what it does: nothing, or one record for the map and the index. *)
Lemma run_op_cases op db fs :
  nm_op_wf op -> (forall k v, db_m db !! k = Some v -> entry_wf (k, v)) ->
  (exists r, run_op op (db, fs) = (r, (db, fs)) /\ (r = Ret tt \/ r = Fail ErrNotFound)) \/
  exists e db', run_op op (db, fs) = persist e.1 (nv_offset e.2) (nv_size e.2) (db', fs) /\ entry_wf e /\
    db_m db' = <[e.1 := e.2]> (db_m db) /\ db_file db' = db_file db /\ (stats_ok db -> stats_ok db').
Proof.
  intros Hwf Hm. destruct op as [key offset size|key]; cbn [run_op nm_op_wf] in *.
  - right. exists (key, mkNV offset size), (load_entry db (key, mkNV offset size)).
    split; [apply Put_persist|]. split; [done|]. split; [apply db_m_load_entry|].
    split; [apply db_file_load_entry|apply stats_ok_load_entry].
  - destruct (db_m db !! key) as [v|] eqn:Ek; [destruct (isDeleted v) eqn:Ev|].
    + left. exists (Ret tt). split; [|by left]. unfold Delete. rewrite bind_get. cbn [fst]. by rewrite Ek, Ev.
    + right. exists (key, mkNV (nv_offset v) 0), (add_deleted (nv_size v) (load_entry db (key, mkNV (nv_offset v) 0))).
      destruct (Hm key v Ek) as (H1 & H2 & H3).
      split; [exact (Delete_live key v db fs Ek Ev)|]. split; [by split_and!|]. split; [apply db_m_load_entry|].
      split; [apply (db_file_load_entry db (key, mkNV (nv_offset v) 0))|].
      apply (stats_ok_load_entry db (key, mkNV (nv_offset v) 0)).
    + left. exists (Fail ErrNotFound). split; [|by right]. unfold Delete. rewrite bind_get. cbn [fst]. by rewrite Ek.
Qed.

Definition map_wf (db : MemDb) : Prop := forall k v, db_m db !! k = Some v -> entry_wf (k, v).

Lemma map_wf_insert db db' e :
  map_wf db -> entry_wf e -> db_m db' = <[e.1 := e.2]> (db_m db) -> map_wf db'.
Proof.
  intros Hm He E k v. rewrite E. destruct e as [k' v']. cbn [fst snd]. destruct (decide (k' = k)) as [->|Hne].
  - rewrite lookup_insert_eq. by intros [= <-].
  - rewrite lookup_insert_ne by done. apply Hm.
Qed.

Lemma in_sync_wf p es db fs : in_sync p es db fs -> map_wf db.
Proof. intros (_ & Hwf & Hm & _) k v. rewrite Hm. intros Hk. by destruct (replay_wf es ∅ k v Hwf Hk) as [[=]|?]. Qed.

(** After the first append that fails the device is full: the file keeps the records it
    had, and part of the one that did not fit. *)
Definition idx_full (p : path) (es : list entry) (db : MemDb) (fs : fsys) : Prop :=
  exists tail h, fs_files fs !! p = Some (encode_entries es ++ tail) /\ zlen tail < 16 /\
    fs_room p fs <= zlen (encode_entries es ++ tail) /\ Forall entry_wf es /\ map_wf db /\ stats_ok db /\
    db_file db = Some h /\ h_path h = p /\ h_appends h fs.

Lemma persist_full p es db db' fs e :
  idx_full p es db fs -> entry_wf e -> map_wf db' -> stats_ok db' -> db_file db' = db_file db ->
  exists r db2 fs2, persist e.1 (nv_offset e.2) (nv_size e.2) (db', fs) = (r, (db2, fs2)) /\ idx_full p es db2 fs2.
Proof.
  intros (tail & h & Hf & Ht & Hfull & Hes & _ & _ & Hh & Hp & Hap) He Hm' Hst' Hfile. rewrite <- Hfile in Hh.
  destruct (persist_cases p e.1 (nv_offset e.2) (nv_size e.2) db' fs h Hh Hp Hap) as (r & h' & d' & Hr & Hp' & _ & Hap' & Hle & Hc).
  rewrite Hf in Hle, Hc. cbn [from_option id] in *. eexists _, _, _. split; [exact Hr|].
  assert (d' = encode_entries es ++ tail) as ->.
  { destruct Hc as [[-> ->]|(_ & _ & t & -> & _)].
    - rewrite (length_app _ (index_entry _ _ _)) in Hle. pose proof (length_encode_entry e) as Hl.
      unfold encode_entry in Hl. lia.
    - rewrite (length_app _ t) in Hle. destruct t; [apply app_nil_r|cbn [length] in Hle; lia]. }
  exists tail, h'. split; [apply fs_set_same|]. rewrite fs_room_set. by split_and!.
Qed.

(** A call when no append has failed yet, and when one has. *)
Lemma run_op_in_sync p es db fs op :
  in_sync p es db fs -> nm_op_wf op ->
  exists r db' fs', run_op op (db, fs) = (r, (db', fs')) /\
    ((forall e, r <> Fail (ErrIndexIO e)) /\ (exists es', in_sync p es' db' fs') \/
     (exists e, r = Fail (ErrIndexIO e)) /\ idx_full p es db' fs').
Proof.
  intros Hs Hwf. pose proof (in_sync_wf _ _ _ _ Hs) as Hmw.
  destruct (run_op_cases op db fs Hwf Hmw) as [(r & -> & Hr)|(e & db' & -> & He & Hm' & Hfile & Hst')].
  { exists r, db, fs. split; [done|]. left. split; [by destruct Hr as [-> | ->]|by exists es]. }
  destruct Hs as ((Hf & h & Hh & Hp & Hap) & Hes & Hm & Hst). rewrite <- Hfile in Hh.
  destruct (persist_cases p e.1 (nv_offset e.2) (nv_size e.2) db' fs h Hh Hp Hap)
    as (r & h' & d' & -> & Hp' & _ & Hap' & _ & Hc). rewrite Hf in Hc. cbn [from_option id] in Hc.
  do 3 eexists. split; [done|]. destruct Hc as [[-> ->]|(Hr & _ & tail & -> & Ht & Hfull)]; [left|right].
  - split; [done|]. exists (es ++ [e]). split; [split|].
    + rewrite encode_entries_snoc. apply fs_set_same.
    + by exists h'.
    + split; [by apply Forall_app_2; [|constructor]|]. split; [|by apply Hst'].
      rewrite replay_snoc. cbn [db_m set_file]. by rewrite Hm', Hm.
  - split; [done|]. exists tail, h'. split; [apply fs_set_same|]. rewrite fs_room_set.
    split_and!; try done; [|by apply Hst']. by eapply map_wf_insert.
Qed.

Lemma run_op_full p es db fs op :
  idx_full p es db fs -> nm_op_wf op ->
  exists r db' fs', run_op op (db, fs) = (r, (db', fs')) /\ idx_full p es db' fs'.
Proof.
  intros Hfull Hwf. pose proof Hfull as (tail & h & _ & _ & _ & _ & Hmw & Hst & _).
  destruct (run_op_cases op db fs Hwf Hmw) as [(r & -> & _)|(e & db' & -> & He & Hm' & Hfile & Hst')]; [by eauto|].
  eapply persist_full; [done|done|by eapply map_wf_insert|by apply Hst'|done].
Qed.

Lemma run_ops_full p es ops : forall db fs,
  idx_full p es db fs -> Forall nm_op_wf ops ->
  exists rs db' fs', run_ops ops (db, fs) = (rs, (db', fs')) /\ idx_full p es db' fs'.
Proof.
  induction ops as [|op ops IH]; intros db fs Hf Hwf; cbn [run_ops]; [by eauto|].
  apply Forall_cons in Hwf as [Hop Hops]. destruct (run_op_full p es db fs op Hf Hop) as (r & db1 & fs1 & -> & H1).
  destruct (IH db1 fs1 H1 Hops) as (rs & db' & fs' & -> & H2). eauto.
Qed.

(** The state after a sequence of calls, and after those before the first failure. *)
Lemma run_ops_in_sync p ops : forall es db fs,
  in_sync p es db fs -> Forall nm_op_wf ops ->
  exists rs db' fs' es' dbn fsn,
    run_ops ops (db, fs) = (rs, (db', fs')) /\
    snd (run_ops (take (appended rs) ops) (db, fs)) = (dbn, fsn) /\ in_sync p es' dbn fsn /\
    (appended rs = length ops /\ dbn = db' /\ fsn = fs' \/ idx_full p es' db' fs').
Proof.
  induction ops as [|op ops IH]; intros es db fs Hs Hwf; cbn [run_ops].
  { exists [], db, fs, es, db, fs. split_and!; try done. by left. }
  apply Forall_cons in Hwf as [Hop Hops].
  destruct (run_op_in_sync p es db fs op Hs Hop) as (r & db1 & fs1 & E & [[Hr [es1 Hs1]]|[[e ->] Hf]]); rewrite E.
  - destruct (IH es1 db1 fs1 Hs1 Hops) as (rs & db' & fs' & es' & dbn & fsn & -> & E2 & Hsn & Hor).
    exists (r :: rs), db', fs', es', dbn, fsn.
    assert (appended (r :: rs) = S (appended rs)) as -> by (destruct r as [|[]|]; try done; by edestruct Hr).
    cbn [take run_ops]. rewrite E. destruct (run_ops (take (appended rs) ops) (db1, fs1)) as [rs' s'].
    simpl in E2. subst s'. split_and!; try done. simpl length. destruct Hor as [(-> & ? & ?)|?]; [left|right]; done.
  - destruct (run_ops_full p es ops db1 fs1 Hf Hops) as (rs & db' & fs' & -> & H2).
    exists (Fail (ErrIndexIO e) :: rs), db', fs', es, db, fs. split_and!; try done. by right.
Qed.



(** ** A torn index *)

(** Any sixteen bytes are the record they decode to. *)
Lemma encode_decode_entry r :
  length r = 16%nat -> Forall is_byte r ->
  encode_entry (decode_entry r) = r /\ entry_wf (decode_entry r).
Proof.
  intros Hr Hb. unfold encode_entry, entry_wf, decode_entry, index_entry.
  cbn [fst snd nv_offset nv_size]. split.
  - rewrite <- (take_drop 8 r) at 4. rewrite <- (take_drop 4 (drop 8 r)) at 2.
    rewrite drop_drop. simpl (8 + 4)%nat. rewrite (take_ge (drop 12 r)) by (rewrite length_drop; lia).
    repeat f_equal; (apply be_put_get'; [rewrite ?length_take, ?length_drop, ?Hr; done|]);
      auto using Forall_take, Forall_drop.
  - split_and!; (eapply be_get_in_u; [by rewrite length_take, ?length_drop, ?Hr|done|]);
      auto using Forall_take, Forall_drop.
Qed.

(** When a crash has left part of a record at the end of the index, the
    next start ignores it, but appends after it: the put that follows is
    acknowledged and visible, yet what a later start reads in its place is a record
    made of the torn bytes and the beginning of the new one. *)
Theorem torn_index_misaligned (p : path) (es : list entry) (tail : bytes) (fs : fsys) (key offset size : Z) :
  fs_files fs !! p = Some (encode_entries es ++ tail) -> Forall entry_wf es ->
  Forall is_byte tail -> 0 < zlen tail < 16 -> size <> 0 ->
  zlen (encode_entries es) + 32 <= fs_room p fs ->
  match LoadNeedleMap p fs with
  | (Ret db0, fs0) =>
      match Put key offset size (db0, fs0) with
      | (Ret _, (db1, fs1)) =>
          Get key db1 = Ret (offset, size) /\
          match LoadNeedleMap p fs1 with
          | (Ret db2, _) =>
              db_m db2 = replay (es ++ [decode_entry (take 16 (tail ++ index_entry key offset size))]) ∅
          | _ => False
          end
      | _ => False
      end
  | _ => False
  end.
Proof.
  intros Hp Hwf Hb Ht Hs Hroom. rewrite (LoadNeedleMap_run p es tail) by (done || lia).
  rewrite Put_persist. unfold persist. rewrite bind_get. cbn [fst]. rewrite db_file_load_entry.
  unfold loaded at 1. cbn [db_file set_file]. unfold appendEntry. rewrite db_file_load_entry.
  unfold loaded at 1. cbn [db_file set_file].
  set (e := index_entry key offset size). assert (length e = 16%nat) as He
    by (apply (length_encode_entry (key, mkNV offset size))).
  assert (f_data (h_file (mkHandle p 0 true) fs) = encode_entries es ++ tail) as Hf
    by (unfold h_file; simpl; by rewrite Hp).
  destruct (h_Write_run (mkHandle p 0 true) fs e) as (h' & -> & _).
  { by left. }
  { rewrite Hf, length_app, He. cbn [h_path]. lia. }
  rewrite Hf. split.
  - unfold Get. cbn [db_m set_file]. rewrite db_m_load_entry. cbn [fst snd].
    rewrite lookup_insert_eq. unfold isDeleted. simpl. by rewrite bool_decide_eq_false_2.
  - set (r := take 16 (tail ++ e)). set (rest := drop 16 (tail ++ e)).
    assert (length r = 16%nat) as Hr by (unfold r; rewrite length_take, length_app; lia).
    assert (Forall is_byte (tail ++ e)) as Hte by
      (unfold e, index_entry; rewrite !Forall_app; split_and!; auto using be_put_bytes).
    destruct (encode_decode_entry r Hr ltac:(by apply Forall_take)) as [Hdec Hdw].
    rewrite (LoadNeedleMap_run p (es ++ [decode_entry r]) rest).
    + cbn [loaded db_m set_file]. by rewrite db_m_load_entries.
    + rewrite fs_set_same, encode_entries_snoc, Hdec. unfold r, rest.
      by rewrite <- !app_assoc, take_drop.
    + by apply Forall_app_2; [|constructor; [|constructor]].
    + unfold rest. rewrite length_drop, length_app. lia.
Qed.

Lemma torn_index_misaligned_witness :
  let p := ("data"%string, 7, Idx) in
  let fs := mkFs {[ p := encode_entries [(1, mkNV 1 64)] ++ [0; 0; 0] ]} 4096 4096 in
  match LoadNeedleMap p fs with
  | (Ret db0, fs0) =>
      match Put 2 9 32 (db0, fs0) with
      | (Ret _, (db1, fs1)) =>
          Get 2 db1 = Ret (9, 32) /\
          match LoadNeedleMap p fs1 with
          | (Ret db2, _) => db_m db2 !! 2 = None
          | _ => False
          end
      | _ => False
      end
  | _ => False
  end.
Proof.
  pose proof (torn_index_misaligned ("data"%string, 7, Idx) [(1, mkNV 1 64)] [0; 0; 0]
    (mkFs {[ ("data"%string, 7, Idx) := encode_entries [(1, mkNV 1 64)] ++ [0; 0; 0] ]} 4096 4096) 2 9 32
    ltac:(apply lookup_singleton_eq)
    ltac:(repeat constructor; by vm_compute) ltac:(repeat constructor; by vm_compute)
    ltac:(by vm_compute) ltac:(done) ltac:(by vm_compute)) as H.
  cbv zeta. destruct (LoadNeedleMap _ _) as [[db0| |] fs0]; try done.
  destruct (Put _ _ _ _) as [[?| |] [db1 fs1]]; try done. destruct H as [H1 H2].
  split; [exact H1|]. destruct (LoadNeedleMap _ _) as [[db2| |] fs2]; try done.
  rewrite H2. by vm_compute.
Defined.

(** ** Rebuilding the index from the data file *)

(** A record of the data file, as far as the scan looks at it: the size its header
    announces is the space it takes. *)
Definition record_ok (r : bytes) : Prop :=
  16 <= zlen r < 2 ^ 32 /\ record_size (be_get (take 4 (drop 12 r))) = zlen r.

Definition record_id (r : bytes) : Z := be_get (take 8 (drop 4 r)).

(** One index record per record of the data file, in order. *)
Fixpoint scan_entries (off : Z) (rs : list bytes) : list entry :=
  match rs with
  | [] => []
  | r :: rs => (record_id r, mkNV (ToEncoded off) (zlen r)) :: scan_entries (off + zlen r) rs
  end.

Lemma length_scan_entries off rs : length (scan_entries off rs) = length rs.
Proof. revert off. induction rs; intros; simpl; auto. Qed.

Lemma take_drop_app {A} (k n : nat) (l l' : list A) :
  (k + n <= length l)%nat -> take n (drop k (l ++ l')) = take n (drop k l).
Proof. intros H. rewrite drop_app_le by lia. rewrite take_app_le; [done|]. rewrite length_drop. lia. Qed.

Lemma take_drop_header (k n : nat) (r : bytes) :
  (k + n <= 16)%nat -> (16 <= length r)%nat -> take n (drop k (take 16 r)) = take n (drop k r).
Proof.
  intros Hkn Hr. rewrite <- (take_drop 16 r) at 2. rewrite take_drop_app; [done|].
  rewrite length_take. lia.
Qed.

Lemma read_record pre r rest lim :
  16 <= zlen r -> f_ReadAt 16 (zlen pre) (mkFile (pre ++ r ++ rest) 0 lim) = Ret (take 16 r).
Proof.
  intros Hr. unfold f_ReadAt. rewrite decide_False by done. cbn [f_data].
  rewrite decide_True by (rewrite !length_app; lia). change (Z.to_nat 16) with 16%nat.
  by rewrite Nat2Z.id, drop_app_length, take_app_le by lia.
Qed.

Lemma scan_loop_run rs : forall pre tail lim fuel h fs es,
  Forall record_ok rs -> zlen tail < 16 -> (length rs < fuel)%nat ->
  h_appends h fs -> fs_files fs !! h_path h = Some (encode_entries es) ->
  zlen (encode_entries es) + 16 * zlen rs <= fs_room (h_path h) fs ->
  exists h', scan_loop fuel (mkFile (pre ++ concat rs ++ tail) 0 lim) (zlen pre) (h, fs) =
    Some (Ret tt, (h', fs_set (h_path h) (encode_entries (es ++ scan_entries (zlen pre) rs)) fs)).
Proof.
  induction rs as [|r rs IH]; intros pre tail lim fuel h fs es Hwf Ht Hf Hap Hd Hroom;
    (destruct fuel as [|fuel]; [simpl in Hf; lia|]); cbn [scan_loop].
  - exists h. unfold f_ReadAt. rewrite decide_False by done.
    rewrite decide_False by (cbn [f_data concat app]; rewrite length_app; lia).
    simpl scan_entries. by rewrite app_nil_r, fs_set_id.
  - apply Forall_cons in Hwf as [[Hr Hsz] Hrs].
    cbn [concat]. rewrite <- app_assoc, read_record by lia.
    rewrite !take_drop_header by lia. rewrite Hsz. fold (record_id r).
    assert (f_data (h_file h fs) = encode_entries es) as Hfd by (unfold h_file; by rewrite Hd).
    pose proof (length_encode_entry (record_id r, mkNV (ToEncoded (zlen pre)) (zlen r))) as Hel.
    unfold encode_entry in Hel. cbn [fst snd nv_offset nv_size] in Hel.
    destruct (h_Write_run h fs (index_entry (record_id r) (ToEncoded (zlen pre)) (zlen r)) Hap)
      as (h' & Hw & Hp' & Ha' & Hap').
    { rewrite Hfd, Hel. simpl length in Hroom. lia. }
    rewrite Hfd in Hw, Hap'. cbv zeta in *. rewrite Hw.
    set (e := (record_id r, mkNV (ToEncoded (zlen pre)) (zlen r))).
    change (index_entry _ _ _) with (encode_entry e) in *. rewrite <- encode_entries_snoc in *.
    destruct (IH (pre ++ r) tail lim fuel h' (fs_set (h_path h) (encode_entries (es ++ [e])) fs) (es ++ [e]))
      as (h2 & Hs); try done.
    + simpl in Hf. lia.
    + rewrite Hp'. apply fs_set_same.
    + rewrite encode_entries_snoc, length_app, length_encode_entry. simpl length in Hroom. rewrite Hp', fs_room_set. lia.
    + exists h2. rewrite length_app, Nat2Z.inj_add, <- !app_assoc in Hs.
      rewrite Hs, Hp', fs_set_set. done.
Qed.

Lemma CreateVolumeIndex_run dat idx fs sb rs tail fuel :
  dat <> idx -> fs_files fs !! dat = Some (sb ++ concat rs ++ tail) -> zlen sb = SuperBlockSize ->
  Forall record_ok rs -> zlen tail < 16 -> (length rs < fuel)%nat -> 16 * zlen rs <= fs_room idx fs ->
  CreateVolumeIndex fuel dat idx fs =
    Some (Ret tt, fs_set idx (encode_entries (scan_entries SuperBlockSize rs)) fs).
Proof.
  intros Hne Hd Hsb Hrs Ht Hf Hroom. unfold CreateVolumeIndex. rewrite Hd. unfold fs_Create.
  rewrite <- Hsb.
  destruct (scan_loop_run rs sb tail (fs_limit fs) fuel (mkHandle idx 0 false) (fs_set idx [] fs) [])
    as (h' & ->); try done.
  - right. unfold h_file. simpl. by rewrite lookup_insert_eq.
  - apply fs_set_same.
  - cbn [h_path]. rewrite fs_room_set. simpl length. lia.
  - cbn [h_path]. by rewrite fs_set_set.
Qed.

Lemma scan_entries_wf off rs :
  Forall record_ok rs -> Forall (Forall is_byte) rs ->
  Forall (fun e => entry_wf e /\ nv_size e.2 <> 0) (scan_entries off rs).
Proof.
  revert off. induction rs as [|r rs IH]; intros off Hrs Hb; [constructor|].
  apply Forall_cons in Hrs as [[Hr1 Hr2] Hrs], Hb as [Hb1 Hb2]. constructor; [|by apply IH].
  unfold entry_wf. cbn [fst snd nv_offset nv_size]. split_and!; [| |unfold in_u; lia|lia].
  - apply (be_get_in_u 64 8); [|done|by apply Forall_take, Forall_drop].
    rewrite length_take, length_drop. lia.
  - apply wrap_range. lia.
Qed.

Lemma replay_Forall (P : needleValue -> Prop) es k v :
  Forall (fun e => P e.2) es -> replay es ∅ !! k = Some v -> P v.
Proof.
  induction es as [|[k' v'] es IH] using rev_ind; [done|].
  rewrite replay_snoc, Forall_app. intros [Hes He%Forall_inv]. simpl in *.
  destruct (decide (k' = k)) as [->|Hne].
  - rewrite lookup_insert_eq. by intros [= <-].
  - rewrite lookup_insert_ne by done. auto.
Qed.

Lemma live_entries_deletedCount p es :
  Forall (fun e => nv_size e.2 <> 0) es -> db_deletedCount (loaded p es) = 0.
Proof.
  intros Hes. destruct (stats_ok_load_entries es NewMemDb stats_ok_new) as (_ & _ & Hd).
  unfold loaded. cbn [db_deletedCount set_file]. rewrite Hd, db_m_load_entries, msum_zero; [done|].
  intros k v Hk. apply (replay_Forall (fun v => nv_size v <> 0)) in Hk; [|done].
  unfold dead_one, isDeleted. by rewrite bool_decide_eq_false_2.
Qed.

(** Rebuilding an index from a data file that holds a superblock, complete
    records and a torn end terminates, and loading the result maps each needle id to
    its last record; a record that a deletion left behind is one of them, so the
    rebuilt index has no deleted entry: a deleted needle is live again. *)
Theorem RebuildIndex_spec (dat idx : path) (fs : fsys) (sb : bytes) (rs : list bytes) (tail : bytes) (fuel : nat) :
  dat <> idx -> fs_files fs !! dat = Some (sb ++ concat rs ++ tail) -> zlen sb = SuperBlockSize ->
  Forall record_ok rs -> Forall (Forall is_byte) rs -> zlen tail < 16 ->
  (length rs < fuel)%nat -> 16 * zlen rs <= fs_room idx fs ->
  match RebuildIndex fuel dat idx fs with
  | Some (Ret _, fs') =>
      match LoadNeedleMap idx fs' with
      | (Ret db, _) => db_m db = replay (scan_entries SuperBlockSize rs) ∅ /\ db_deletedCount db = 0
      | _ => False
      end
  | _ => False
  end.
Proof.
  intros Hne Hd Hsb Hrs Hb Ht Hf Hroom. unfold RebuildIndex.
  set (fs0 := snd (fs_Remove idx fs)).
  assert (fs_files fs0 !! dat = fs_files fs !! dat /\ fs_room idx fs0 = fs_room idx fs) as [Hd0 Hl0].
  { unfold fs0. split; [|apply fs_room_Remove]. unfold fs_Remove. case_match; simpl; [by rewrite lookup_delete_ne|done]. }
  rewrite <- Hd0 in Hd. rewrite <- Hl0 in Hroom.
  rewrite (CreateVolumeIndex_run dat idx fs0 sb rs tail fuel) by done.
  apply (scan_entries_wf SuperBlockSize) in Hrs as Hwf; [|done].
  rewrite (LoadNeedleMap_run idx (scan_entries SuperBlockSize rs) []).
  - split; [|apply live_entries_deletedCount; eapply Forall_impl; [done|by intros ? []]].
    unfold loaded. cbn [db_m set_file]. by rewrite db_m_load_entries.
  - rewrite app_nil_r. apply fs_set_same.
  - eapply Forall_impl; [done|by intros ? []].
  - done.
Qed.

Lemma RebuildIndex_spec_witness :
  let dat := ("data"%string, 7, Dat) in let idx := ("data"%string, 7, Idx) in
  let r := replicate 4 0 ++ be_put 8 5 ++ be_put 4 16 ++ replicate 16 0 in
  match RebuildIndex 3 dat idx (mkFs {[ dat := replicate 8 0 ++ concat [r; r] ++ [1] ]} 4096 4096) with
  | Some (Ret _, fs') =>
      match LoadNeedleMap idx fs' with
      | (Ret db, _) => db_m db !! 5 = Some (mkNV 5 32)
      | _ => False
      end
  | _ => False
  end.
Proof.
  pose (r := replicate 4 0 ++ be_put 8 5 ++ be_put 4 16 ++ replicate 16 0).
  pose proof (RebuildIndex_spec ("data"%string, 7, Dat) ("data"%string, 7, Idx)
    (mkFs {[ ("data"%string, 7, Dat) := replicate 8 0 ++ concat [r; r] ++ [1] ]} 4096 4096)
    (replicate 8 0) [r; r] [1] 3 ltac:(done) ltac:(apply lookup_singleton_eq) ltac:(done)
    ltac:(repeat constructor; by vm_compute) ltac:(repeat constructor; by vm_compute)
    ltac:(done) ltac:(by vm_compute; repeat constructor) ltac:(by vm_compute)) as H.
  cbv zeta. fold r. destruct (RebuildIndex _ _ _ _) as [[[?| |] fs']|]; try done.
  destruct (LoadNeedleMap _ _) as [[db2| |] fs2]; try done. destruct H as [-> _]. by vm_compute.
Defined.

(** A header that announces [2^32 - 16] bytes makes the 32-bit sum zero, and the
    scan stays where it is. *)
Lemma scan_loop_stuck data off lim fuel : forall h fs es,
  f_ReadAt 16 off (mkFile data 0 lim) = Ret (take 16 (drop (Z.to_nat off) data)) ->
  be_get (take 4 (drop 12 (take 16 (drop (Z.to_nat off) data)))) = 2 ^ 32 - 16 ->
  h_appends h fs -> fs_files fs !! h_path h = Some (encode_entries es) ->
  zlen (encode_entries es) + 16 * Z.of_nat fuel <= fs_room (h_path h) fs ->
  scan_loop fuel (mkFile data 0 lim) off (h, fs) = None.
Proof.
  induction fuel as [|fuel IH]; intros h fs es Hr Hb Hap Hd Hroom; [done|].
  cbn [scan_loop]. rewrite Hr, Hb. change (record_size (2 ^ 32 - 16)) with 0. rewrite Z.add_0_r.
  set (id := be_get (take 8 _)).
  assert (f_data (h_file h fs) = encode_entries es) as Hfd by (unfold h_file; by rewrite Hd).
  set (e := (id, mkNV (ToEncoded off) 0)). change (index_entry _ _ _) with (encode_entry e).
  destruct (h_Write_run h fs (encode_entry e) Hap) as (h' & Hw & Hp' & Ha' & Hap').
  { rewrite Hfd, length_encode_entry. lia. }
  rewrite Hfd in Hw, Hap'. cbv zeta in *. rewrite Hw. rewrite <- encode_entries_snoc in *.
  apply (IH _ _ (es ++ [e])); [done..|rewrite Hp'; apply fs_set_same|].
  rewrite encode_entries_snoc, length_app, length_encode_entry, Hp', fs_room_set. lia.
Qed.

(** Rebuilding the index of a data file whose first record announces a body
    of [2^32 - 16] bytes does not terminate by itself: no number of iterations
    reaches the end of the file, and the index grows by a record each time until
    the device is full. *)
Theorem RebuildIndex_diverges (dat idx : path) (fs : fsys) (sb header rest : bytes) (fuel : nat) :
  dat <> idx -> fs_files fs !! dat = Some (sb ++ header ++ rest) ->
  zlen sb = SuperBlockSize -> zlen header = 16 -> be_get (drop 12 header) = 2 ^ 32 - 16 ->
  16 * Z.of_nat fuel <= fs_room idx fs ->
  RebuildIndex fuel dat idx fs = None.
Proof.
  intros Hne Hd Hsb Hh Hb Hroom. unfold RebuildIndex, CreateVolumeIndex.
  assert (fs_files (snd (fs_Remove idx fs)) !! dat = Some (sb ++ header ++ rest) /\
    fs_room idx (snd (fs_Remove idx fs)) = fs_room idx fs) as [-> Hl].
  { split; [|apply fs_room_Remove]. unfold fs_Remove. case_match; simpl; [by rewrite lookup_delete_ne|done]. }
  unfold fs_Create. rewrite <- Hsb, (scan_loop_stuck _ _ _ _ _ _ []); [done|..].
  - rewrite read_record by lia. rewrite Nat2Z.id, drop_app_length. by rewrite take_app_le by lia.
  - rewrite Nat2Z.id, drop_app_length, take_app_length' by lia.
    rewrite take_ge; [done|]. rewrite length_drop. lia.
  - right. unfold h_file. simpl. by rewrite lookup_insert_eq.
  - apply fs_set_same.
  - cbn [h_path]. rewrite fs_room_set, Hl. simpl length. lia.
Qed.

Lemma RebuildIndex_diverges_witness :
  let dat := ("data"%string, 7, Dat) in let idx := ("data"%string, 7, Idx) in
  RebuildIndex 256 dat idx
    (mkFs {[ dat := replicate 8 0 ++ (replicate 12 0 ++ [255; 255; 255; 240]) ++ [] ]} 4096 8192) = None.
Proof.
  apply (RebuildIndex_diverges ("data"%string, 7, Dat) ("data"%string, 7, Idx) _ (replicate 8 0)
    (replicate 12 0 ++ [255; 255; 255; 240]) [] 256); [done|done|done|done|done|by vm_compute].
Defined.
