(* ===== verification/Volume.v ===== *)
(** * Volume: a data file with its index, and compaction

    Models [goblob/storage/volume/volume.go] and [compact.go].  A method is a
    command on the volume and the file system; [dataFileAccessLock] makes each one
    atomic, except for a compaction, which is two commands, [Compact] and
    [CommitCompact], with other calls possible in between. *)

From Stdlib Require Import QArith.QArith_base.
From stdpp Require Import sorting.
From S2P Require Import Prelude Bytes Types OsFile Needle NeedleCodec SuperBlock Fs NeedleMap.

#[local] Open Scope Z_scope.

Record Volume := mkVolume {
  v_id : Z;
  v_dir : string;
  v_collection : string;
  v_dataFile : option handle;
  v_nm : option MemDb;
  v_SuperBlock : SuperBlock;
  v_ReadOnly : bool;
  v_noWriteOrDelete : bool;
}.

Inductive vol_err :=
| ErrReadOnly | ErrFrozen
| ErrSeek (e : io_err) | ErrPadding (e : io_err) | ErrWriteNeedle (e : needle_err)
| ErrUpdateIndex (e : nm_err) | ErrLookup (e : nm_err) | ErrReadNeedle (e : needle_err)
| ErrCookie
| ErrOpen (e : io_err) | ErrWriteSB (e : io_err) | ErrReadSB (e : sb_err) | ErrLoadIndex (e : nm_err)
| ErrRemove (e : io_err) | ErrRename (e : io_err)
| ErrBelowThreshold | ErrCreate (e : io_err).

Definition set_dataFile (h : option handle) (v : Volume) : Volume :=
  mkVolume (v_id v) (v_dir v) (v_collection v) h (v_nm v) (v_SuperBlock v) (v_ReadOnly v) (v_noWriteOrDelete v).
Definition set_nm (db : option MemDb) (v : Volume) : Volume :=
  mkVolume (v_id v) (v_dir v) (v_collection v) (v_dataFile v) db (v_SuperBlock v) (v_ReadOnly v) (v_noWriteOrDelete v).
Definition set_SuperBlock (sb : SuperBlock) (v : Volume) : Volume :=
  mkVolume (v_id v) (v_dir v) (v_collection v) (v_dataFile v) (v_nm v) sb (v_ReadOnly v) (v_noWriteOrDelete v).
Definition set_noWriteOrDelete (b : bool) (v : Volume) : Volume :=
  mkVolume (v_id v) (v_dir v) (v_collection v) (v_dataFile v) (v_nm v) (v_SuperBlock v) (v_ReadOnly v) b.

Definition DataFileName (v : Volume) : path := (v_dir v, v_id v, Dat).
Definition IndexFileName (v : Volume) : path := (v_dir v, v_id v, Idx).

Abbreviation vol := (GoM (Volume * fsys) vol_err).

Definition map_err {E E' A} (f : E -> E') (r : outcome E A) : outcome E' A :=
  match r with Ret a => Ret a | Fail e => Fail (f e) | Panic => Panic end.

(** A call on the data file: on a nil [*os.File] it returns [os.ErrInvalid]. *)
Definition on_data {A} (wrap_err : io_err -> vol_err) (m : GoM file io_err A) : vol A := fun '(v, fs) =>
  match v_dataFile v with
  | None => (Fail (wrap_err ErrInvalid), (v, fs))
  | Some h =>
      let '(r, (h', fs')) := on_handle m (h, fs) in
      (map_err wrap_err r, (set_dataFile (Some h') v, fs'))
  end.

(** A call on the index: on a nil interface it panics. *)
Definition on_nm {A} (wrap_err : nm_err -> vol_err) (m : nm A) : vol A := fun '(v, fs) =>
  match v_nm v with
  | None => (Panic, (v, fs))
  | Some db =>
      let '(r, (db', fs')) := m (db, fs) in
      (map_err wrap_err r, (set_nm (Some db') v, fs'))
  end.

(** ** Opening and closing *)

Definition NewVolume (dir collection : string) (id version : Z) : GoM fsys vol_err Volume := fun fs =>
  let v := mkVolume id dir collection None None (mkSuperBlock 0 (mkReplicaPlacement 0 0 0) TTL_zero 0) false false in
  let isNew := negb (fs_exists (DataFileName v) fs) in
  match fs_Open (DataFileName v) true false fs with
  | (Ret h, fs1) =>
      let '(rsb, (h2, fs2)) :=
        if isNew then
          let sb := mkSuperBlock version (mkReplicaPlacement 0 0 0) TTL_zero 0 in
          let '(r, s) := on_handle (WriteSuperBlock sb) (h, fs1) in
          (match r with Ret _ => Ret sb | Fail e => Fail (ErrWriteSB e) | Panic => Panic end, s)
        else
          let '(r, f') := ReadSuperBlock (h_file h fs1) in
          (map_err ErrReadSB r, (mkHandle (h_path h) (f_pos f') (h_append h), fs1)) in
      match rsb with
      | Ret sb =>
          match (Load (IndexFileName v);; OpenIndexFile (IndexFileName v)) (NewMemDb, fs2) with
          | (Ret _, (db, fs3)) =>
              (Ret (mkVolume id dir collection (Some h2) (Some db) sb false false), fs3)
          | (Fail e, (_, fs3)) => (Fail (ErrLoadIndex e), fs3)
          | (Panic, (_, fs3)) => (Panic, fs3)
          end
      | Fail e => (Fail e, fs2)
      | Panic => (Panic, fs2)
      end
  | (Fail e, fs1) => (Fail (ErrOpen e), fs1)
  | (Panic, fs1) => (Panic, fs1)
  end.

Definition v_Close : vol unit :=
  modify (fun '(v, fs) => (set_dataFile None (set_nm None v), fs)).

(** [os.Remove], where a missing file is not an error. *)
Definition remove_if_exists (p : path) : vol unit := fun '(v, fs) =>
  match fs_Remove p fs with
  | (Ret _, fs') => (Ret tt, (v, fs'))
  | (Fail ENOENT, fs') => (Ret tt, (v, fs'))
  | (Fail e, fs') => (Fail (ErrRemove e), (v, fs'))
  | (Panic, fs') => (Panic, (v, fs'))
  end.

Definition Destroy : vol unit :=
  v_Close;;
  s ← get;
  remove_if_exists (DataFileName (fst s));;
  remove_if_exists (IndexFileName (fst s)).

(** ** Writing

    The needle is passed by pointer: its checksum and size are set by the write. *)

Abbreviation nvol := (GoM (Needle * (Volume * fsys)) vol_err).

Definition on_vol {A} (m : vol A) : nvol A := fun '(n, s) => let '(r, s') := m s in (r, (n, s')).

(** [n.WriteTo(v.dataFile, v.SuperBlock.Version)] *)
Definition data_WriteTo : nvol Z := fun '(n, (v, fs)) =>
  match v_dataFile v with
  | None => (Fail (ErrWriteNeedle (ErrWriteHeader ErrInvalid)), (n, (v, fs)))
  | Some h =>
      let '(r, (n', f')) := WriteTo (sb_Version (v_SuperBlock v)) (n, h_file h fs) in
      (map_err ErrWriteNeedle r,
       (n', (set_dataFile (Some (mkHandle (h_path h) (f_pos f') (h_append h))) v,
             fs_set (h_path h) (f_data f') fs)))
  end.

(** [if rem := currentOffset % 8; rem != 0 { ... }]: write zeros up to the alignment. *)
Definition pad_data (currentOffset : Z) : nvol Z :=
  let rem := Z.rem currentOffset NeedleAlignmentSize in
  if decide (rem <> 0) then
    let pad := NeedleAlignmentSize - rem in
    on_vol (on_data ErrPadding (f_Write (replicate (Z.to_nat pad) 0)));;
    mret (currentOffset + pad)
  else mret currentOffset.

(** The statements [WriteNeedle] and [writeNeedleUnlocked] share: seek to the end,
    align, and append the needle; the results are the encoded offset and the
    number of bytes. *)
Definition writeNeedleUnlocked : nvol (Z * Z) :=
  currentOffset ← on_vol (on_data ErrSeek f_SeekEnd);
  currentOffset ← pad_data currentOffset;
  let encodedOffset := ToEncoded currentOffset in
  written ← data_WriteTo;
  mret (encodedOffset, written).

Definition check_writable : vol unit :=
  s ← get;
  fail_if (v_ReadOnly (fst s)) ErrReadOnly;;
  fail_if (v_noWriteOrDelete (fst s)) ErrFrozen.

Definition WriteNeedle : nvol (Z * Z) :=
  on_vol check_writable;;
  r ← writeNeedleUnlocked;
  let '(encodedOffset, written) := r in
  n ← gets fst;
  on_vol (on_nm ErrUpdateIndex (Put (n_Id n) encodedOffset (u32 written)));;
  mret (encodedOffset, u32 written).

(** ** Reading *)

Definition lookup_needle (id : Z) (v : Volume) (fs : fsys) : outcome vol_err Needle :=
  match v_nm v with
  | None => Panic
  | Some db =>
      match Get id db with
      | Ret (encodedOffset, size) =>
          match v_dataFile v with
          | None => Fail (ErrReadNeedle (ErrReadData ErrInvalid))
          | Some h =>
              map_err ErrReadNeedle
                (ReadNeedleFromFile (h_file h fs) (ToActualOffset encodedOffset) size
                   (sb_Version (v_SuperBlock v)))
          end
      | Fail e => Fail (ErrLookup e)
      | Panic => Panic
      end
  end.

Definition GetNeedle (id : Z) (s : Volume * fsys) : outcome vol_err Needle :=
  lookup_needle id (fst s) (snd s).

Definition ReadNeedleByFileId (fid : FileId) (s : Volume * fsys) : outcome vol_err Needle :=
  match lookup_needle (fid_NeedleId fid) (fst s) (snd s) with
  | Ret n => if decide (n_Cookie n <> fid_Cookie fid) then Fail ErrCookie else Ret n
  | r => r
  end.

(** ** Deleting *)

Definition tombstone (id : Z) : Needle := set_Id id zero_needle.

Definition DeleteNeedle (id : Z) : vol unit :=
  check_writable;;
  on_nm ErrLookup (fun '(db, fs) => (Get id db, (db, fs)));;
  (fun s => let '(r, (_, s')) := writeNeedleUnlocked (tombstone id, s) in (r, s'));;
  on_nm ErrUpdateIndex (Delete id).

(** ** Figures *)

(** [GarbageLevel] is a quotient of two counters; it is taken in the rationals,
    where the code rounds it to a [float64]. *)
Definition GarbageLevel (v : Volume) : option Q :=
  match v_nm v with
  | None => None
  | Some db =>
      let total := u64 (db_contentSize db + db_deletedSize db) in
      Some (if decide (total = 0) then 0%Q else (db_deletedSize db # Z.to_pos total)%Q)
  end.

Definition NeedCompact (threshold : Q) (v : Volume) : option bool :=
  (fun g => Qle_bool threshold g) <$> GarbageLevel v.

Definition UsedSize (s : Volume * fsys) : Z :=
  match v_dataFile (fst s) with
  | None => 0
  | Some h => zlen (f_data (h_file h (snd s)))
  end.

Definition IsEmpty (s : Volume * fsys) : bool := bool_decide (UsedSize s <= SuperBlockSize).

Definition entry_le (a b : Z * needleValue) : Prop :=
  ToActualOffset (nv_offset a.2) <= ToActualOffset (nv_offset b.2).

#[global] Instance entry_le_dec a b : Decision (entry_le a b).
Proof. unfold entry_le. apply _. Defined.

(** The live entries by increasing offset; [order] is the iteration order of the map. *)
Definition SnapshotLiveNeedleEntries (order : gmap Z needleValue -> list (Z * needleValue)) (v : Volume)
  : list (Z * needleValue) :=
  match v_nm v with
  | None => []
  | Some db => merge_sort entry_le (filter (fun e => isDeleted e.2 = false) (order (db_m db)))
  end.

(** ** Compaction *)

Record CompactionResult := mkResult {
  r_OriginalSize : Z;
  r_CompactedSize : Z;
  r_NeedlesRead : Z;
  r_NeedlesWritten : Z;
  r_NeedlesDeleted : Z;
  r_NeedlesExpired : Z;
  r_TempDataFile : path;
  r_TempIndexFile : path;
}.

(** The variables of the running compaction. *)
Record compaction := mkCompaction {
  c_cpd : handle;
  c_cpxDB : MemDb;
  c_offset : Z;
  c_read : Z;
  c_written : Z;
  c_deleted : Z;
  c_expired : Z;
  c_fs : fsys;
}.

(** The body of the iteration over the index, for one entry; [dat] is the volume's
    data file, [version] its version and [now] the time in seconds. *)
Definition compact_entry (dat : fsys -> file) (version now : Z) (e : Z * needleValue)
  : GoM compaction vol_err unit := fun c =>
  let '(id, nv) := e in
  let c := mkCompaction (c_cpd c) (c_cpxDB c) (c_offset c) (u64 (c_read c + 1)) (c_written c)
             (c_deleted c) (c_expired c) (c_fs c) in
  if isDeleted nv then
    (Ret tt, mkCompaction (c_cpd c) (c_cpxDB c) (c_offset c) (c_read c) (c_written c)
               (u64 (c_deleted c + 1)) (c_expired c) (c_fs c))
  else
  match ReadNeedleFromFile (dat (c_fs c)) (ToActualOffset (nv_offset nv)) (nv_size nv) version with
  | Fail err => (Fail (ErrReadNeedle err), c)
  | Panic => (Panic, c)
  | Ret n =>
      if IsExpired n (n_AppendAtNs n / 10 ^ 9) now then
        (Ret tt, mkCompaction (c_cpd c) (c_cpxDB c) (c_offset c) (c_read c) (c_written c)
                   (c_deleted c) (u64 (c_expired c + 1)) (c_fs c))
      else
      let '(rw, (_, f')) := WriteTo version (n, h_file (c_cpd c) (c_fs c)) in
      let cpd' := mkHandle (h_path (c_cpd c)) (f_pos f') (h_append (c_cpd c)) in
      let fs1 := fs_set (h_path (c_cpd c)) (f_data f') (c_fs c) in
      match rw with
      | Fail err =>
          (Fail (ErrWriteNeedle err),
           mkCompaction cpd' (c_cpxDB c) (c_offset c) (c_read c) (c_written c) (c_deleted c) (c_expired c) fs1)
      | Panic => (Panic, c)
      | Ret written =>
          let '(rp, (db', fs2)) := Put id (ToEncoded (c_offset c)) (u32 written) (c_cpxDB c, fs1) in
          match rp with
          | Fail err =>
              (Fail (ErrUpdateIndex err),
               mkCompaction cpd' db' (c_offset c) (c_read c) (c_written c) (c_deleted c) (c_expired c) fs2)
          | Panic => (Panic, c)
          | Ret _ =>
              (Ret tt, mkCompaction cpd' db' (c_offset c + written) (c_read c) (u64 (c_written c + 1))
                         (c_deleted c) (c_expired c) fs2)
          end
      end
  end.

Fixpoint compact_loop (dat : fsys -> file) (version now : Z) (order : list (Z * needleValue))
  : GoM compaction vol_err unit :=
  match order with
  | [] => mret tt
  | e :: rest => compact_entry dat version now e;; compact_loop dat version now rest
  end.

Definition incr_revision (sb : SuperBlock) : SuperBlock :=
  mkSuperBlock (sb_Version sb) (sb_ReplicaPlacement sb) (sb_Ttl sb) (u16 (sb_CompactionRevision sb + 1)).

(** [os.Remove] called for its effect. *)
Definition removed (p : path) (fs : fsys) : fsys := snd (fs_Remove p fs).

(** The start of a compaction: stale temporary files are removed, [.cpd] gets the
    superblock with the next revision, [.cpx] an empty index; both are removed
    again when one of the steps fails. *)
Definition open_temp (v : Volume) : GoM fsys vol_err compaction := fun fs =>
  let cpdPath := (v_dir v, v_id v, Cpd) in
  let cpxPath := (v_dir v, v_id v, Cpx) in
  match fs_Create cpdPath (removed cpxPath (removed cpdPath fs)) with
  | (Ret cpd, fs1) =>
      match on_handle (WriteSuperBlock (incr_revision (v_SuperBlock v));; f_SeekStart SuperBlockSize) (cpd, fs1) with
      | (Ret _, (cpd', fs2)) =>
          match fs_Create cpxPath fs2 with
          | (Ret cpx, fs3) =>
              (Ret (mkCompaction cpd' (set_file (Some cpx) NewMemDb) SuperBlockSize 0 0 0 0 fs3), fs3)
          | (Fail e, fs3) => (Fail (ErrCreate e), removed cpxPath (removed cpdPath fs3))
          | (Panic, fs3) => (Panic, fs3)
          end
      | (Fail e, (_, fs2)) => (Fail (ErrWriteSB e), removed cpxPath (removed cpdPath fs2))
      | (Panic, (_, fs2)) => (Panic, fs2)
      end
  | (Fail e, fs1) => (Fail (ErrCreate e), fs1)
  | (Panic, fs1) => (Panic, fs1)
  end.

(** The file behind [v.dataFile]; every read of a nil file fails. *)
Definition data_file (v : Volume) (fs : fsys) : file :=
  match v_dataFile v with
  | Some h => h_file h fs
  | None => mkFile [] 0 0
  end.

Definition Compact (order : gmap Z needleValue -> list (Z * needleValue)) (now : Z) (threshold : Q)
  : vol CompactionResult := fun '(v, fs) =>
  match GarbageLevel v, v_nm v with
  | Some g, Some db =>
      if negb (Qle_bool threshold g) then (Fail ErrBelowThreshold, (v, fs)) else
      let original := UsedSize (v, fs) in
      match open_temp v fs with
      | (Ret c0, _) =>
          match compact_loop (data_file v) (sb_Version (v_SuperBlock v)) now (order (db_m db)) c0 with
          | (Ret _, c) =>
              (Ret (mkResult original (c_offset c) (c_read c) (c_written c) (c_deleted c) (c_expired c)
                      (v_dir v, v_id v, Cpd) (v_dir v, v_id v, Cpx)), (v, c_fs c))
          | (Fail e, c) => (Fail e, (v, c_fs c))
          | (Panic, c) => (Panic, (v, c_fs c))
          end
      | (Fail e, fs') => (Fail e, (v, fs'))
      | (Panic, fs') => (Panic, (v, fs'))
      end
  | _, _ => (Panic, (v, fs))
  end.

(** [CommitCompact] sets [noWriteOrDelete] for its duration, under the lock, and
    clears it on every exit. *)
Definition CommitCompact (result : CompactionResult) : vol unit := fun '(v, fs) =>
  let v := set_noWriteOrDelete false (set_dataFile None (set_nm None v)) in
  match fs_Rename (r_TempDataFile result) (DataFileName v) fs with
  | (Ret _, fs1) =>
      match fs_Rename (r_TempIndexFile result) (IndexFileName v) fs1 with
      | (Ret _, fs2) =>
          match fs_Open (DataFileName v) false false fs2 with
          | (Ret h, fs3) =>
              let '(r, f') := ReadSuperBlock (h_file h fs3) in
              let v := set_dataFile (Some (mkHandle (h_path h) (f_pos f') (h_append h))) v in
              match r with
              | Ret sb =>
                  let v := set_SuperBlock sb v in
                  match (Load (IndexFileName v);; OpenIndexFile (IndexFileName v)) (NewMemDb, fs3) with
                  | (Ret _, (db, fs4)) => (Ret tt, (set_nm (Some db) v, fs4))
                  | (Fail e, (_, fs4)) => (Fail (ErrLoadIndex e), (v, fs4))
                  | (Panic, (_, fs4)) => (Panic, (v, fs4))
                  end
              | Fail e => (Fail (ErrReadSB e), (v, fs3))
              | Panic => (Panic, (v, fs3))
              end
          | (Fail e, fs3) => (Fail (ErrOpen e), (v, fs3))
          | (Panic, fs3) => (Panic, (v, fs3))
          end
      | (Fail e, fs2) => (Fail (ErrRename e), (v, snd (fs_Rename (DataFileName v) (r_TempDataFile result) fs2)))
      | (Panic, fs2) => (Panic, (v, fs2))
      end
  | (Fail e, fs1) => (Fail (ErrRename e), (v, fs1))
  | (Panic, fs1) => (Panic, (v, fs1))
  end.

Definition CompactVolume (order : gmap Z needleValue -> list (Z * needleValue)) (now : Z) (threshold : Q)
  : vol CompactionResult :=
  result ← Compact order now threshold;
  CommitCompact result;;
  mret result.
