(* ===== verification/VolumeSpec.v ===== *)
(** * VolumeSpec: a volume implements a map from needle ids to needles

    The refinement invariant of a volume, its preservation by the operations of
    [Volume], torn writes and restarts included, and the correctness of
    compaction. *)

From Stdlib Require Import QArith.QArith_base.
From S2P Require Import Prelude Bytes Types OsFile Needle NeedleCodec SuperBlock Fs NeedleMap Volume.

#[local] Open Scope Z_scope.

(** A write or delete takes effect when it is acknowledged, and also when all that failed
    is the append to the index file: the map has been changed by then. *)
Definition index_error (e : vol_err) : bool := match e with ErrUpdateIndex _ => true | _ => false end.

Definition takes_effect {A} (r : outcome vol_err A) : bool :=
  match r with Ret _ => true | Fail e => index_error e | Panic => false end.

Definition index_failed {A} (r : outcome vol_err A) : bool :=
  match r with Fail e => index_error e | _ => false end.

(** ** The data file of a volume

    [on_file v fs a f] is the state of [v] and [fs] with the open data file [f]. *)
Definition on_file (v : Volume) (fs : fsys) (a : bool) (f : file) : Volume * fsys :=
  (set_dataFile (Some (mkHandle (DataFileName v) (f_pos f) a)) v, fs_set (DataFileName v) (f_data f) fs).

Lemma h_file_set p pos a d fs : h_file (mkHandle p pos a) (fs_set p d fs) = mkFile d pos (fs_room p fs).
Proof. unfold h_file. cbn [h_path h_pos]. by rewrite fs_set_same, fs_room_set. Qed.

Lemma on_file_id v fs h d :
  v_dataFile v = Some h -> h_path h = DataFileName v -> fs_files fs !! DataFileName v = Some d ->
  on_file v fs (h_append h) (h_file h fs) = (v, fs) /\ f_data (h_file h fs) = d.
Proof.
  intros Hv Hp Hd. unfold on_file, h_file. simpl. rewrite Hp, Hd. simpl.
  rewrite fs_set_id by done. split; [|done]. rewrite <- Hp. destruct v, h; simpl in *. by subst.
Qed.

Lemma on_data_file {A} w (m : GoM file io_err A) v fs a f r f' :
  f_limit f = fs_room (DataFileName v) fs -> m f = (r, f') ->
  on_data w m (on_file v fs a f) = (map_err w r, on_file v fs a f').
Proof.
  intros Hl Hm. unfold on_data, on_file. simpl v_dataFile. unfold on_handle.
  change (DataFileName (set_dataFile _ v)) with (DataFileName v).
  rewrite h_file_set. destruct f as [d p l]; simpl in *. subst l. rewrite Hm. simpl.
  by rewrite fs_set_set.
Qed.

Lemma data_WriteTo_file v fs a f n r n' f' :
  f_limit f = fs_room (DataFileName v) fs -> WriteTo (sb_Version (v_SuperBlock v)) (n, f) = (r, (n', f')) ->
  data_WriteTo (n, on_file v fs a f) = (map_err ErrWriteNeedle r, (n', on_file v fs a f')).
Proof.
  intros Hl Hm. unfold data_WriteTo, on_file. cbn [v_dataFile set_dataFile].
  rewrite h_file_set. destruct f as [d p l]; cbn [f_data f_pos f_limit] in *. subst l.
  cbn [v_SuperBlock set_dataFile]. rewrite Hm. cbn [h_path h_append].
  by rewrite fs_set_set.
Qed.

(** The zeros that bring the end of a file to the alignment. *)
Definition align_pad (d : bytes) : bytes := replicate (Z.to_nat (- zlen d mod 8)) 0.

Lemma align_pad_length d : zlen (align_pad d) = - zlen d mod 8.
Proof. unfold align_pad. rewrite length_replicate. zlia. Qed.

Lemma align_pad_aligned d : zlen (d ++ align_pad d) mod 8 = 0.
Proof. rewrite length_app, Nat2Z.inj_add, align_pad_length. zlia. Qed.

Lemma pad_data_cases v fs a f n :
  f_limit f = fs_room (DataFileName v) fs ->
  let pre := f_data f ++ align_pad (f_data f) in
  pad_data (zlen (f_data f)) (n, on_file v fs a (extend f [])) =
    (Ret (zlen pre), (n, on_file v fs a (extend f (align_pad (f_data f))))) /\
    fits f (align_pad (f_data f)) \/
  fs_room (DataFileName v) fs < zlen pre /\ exists j,
    pad_data (zlen (f_data f)) (n, on_file v fs a (extend f [])) =
    (Fail (ErrPadding ENOSPC), (n, on_file v fs a (extend f j))) /\ fits f j.
Proof.
  intros Hl pre. unfold pad_data. set (rem := Z.rem _ _). set (pad := align_pad (f_data f)).
  assert (rem = zlen (f_data f) mod 8) as Hrem
    by (unfold rem, NeedleAlignmentSize; by rewrite Z.rem_mod_nonneg by lia).
  pose proof (align_pad_length (f_data f)) as Hpl. fold pad in Hpl.
  unfold fits, pre. fold pad. rewrite length_app, Nat2Z.inj_add, Hpl.
  destruct (decide (rem <> 0)) as [Hr|Hr].
  - assert (replicate (Z.to_nat (NeedleAlignmentSize - rem)) 0 = pad) as ->.
    { unfold pad, align_pad, NeedleAlignmentSize. f_equal. zlia. }
    destruct (f_Write_cases (extend f []) pad (at_end_extend f [])) as [[Hw Hf]|(Hroom & j & Hw & Hf)];
      rewrite extend_extend in Hw.
    + left. split.
      * erewrite bind_run.
        2: { unfold on_vol. erewrite on_data_file by (done || exact Hw). reflexivity. }
        unfold NeedleAlignmentSize. simpl app. unfold mret, GoM_ret. do 2 f_equal. zlia.
      * cbn [extend f_data f_limit] in Hf. rewrite app_nil_r, length_app in Hf. lia.
    + right. cbn [extend f_data f_limit] in Hroom. rewrite app_nil_r, length_app in Hroom.
      cbn [extend f_data f_limit] in Hf. rewrite app_nil_r in Hf.
      split; [lia|]. exists ([] ++ take j pad). split; [|exact Hf]. erewrite bind_fail; [reflexivity|].
      unfold on_vol. erewrite on_data_file by (done || exact Hw). reflexivity.
  - left. assert (pad = []) as -> by (unfold pad, align_pad; by replace (- _ mod 8) with 0 by zlia).
    unfold mret, GoM_ret. split; [do 2 f_equal; zlia|zlia].
Qed.

(** An append to the data file: the whole record at an aligned offset, or an error
    and some bytes after the existing ones. *)
Lemma writeNeedleUnlocked_cases v fs a f n :
  f_limit f = fs_room (DataFileName v) fs -> needle_wf n ->
  let ver := sb_Version (v_SuperBlock v) in
  let pre := f_data f ++ align_pad (f_data f) in
  writeNeedleUnlocked (n, on_file v fs a f) =
    (Ret (ToEncoded (zlen pre), zlen (needle_image n ver)),
     (needle_written n ver, on_file v fs a (extend f (align_pad (f_data f) ++ needle_image n ver)))) /\
  zlen (pre ++ needle_image n ver) <= Z.max (zlen (f_data f)) (fs_room (DataFileName v) fs) \/
  fs_room (DataFileName v) fs < zlen (pre ++ needle_image n ver) /\
  exists e n' junk, writeNeedleUnlocked (n, on_file v fs a f) =
    (Fail e, (n', on_file v fs a (extend f junk))) /\ index_error e = false /\ fits f junk.
Proof.
  intros Hl Hwf ver pre. unfold writeNeedleUnlocked.
  erewrite bind_run.
  2: { unfold on_vol. erewrite on_data_file by (exact Hl || apply f_SeekEnd_run). reflexivity. }
  set (pad := align_pad (f_data f)).
  destruct (pad_data_cases v fs a f n Hl) as [[Hp Hfit]|(Hroom & j & Hp & Hfit)].
  2: { right. rewrite length_app. split; [unfold pre; lia|]. do 3 eexists. erewrite bind_fail by exact Hp. by split_and!. }
  erewrite bind_run by exact Hp. cbv zeta.
  destruct (WriteTo_cases n ver (extend f pad) Hwf (at_end_extend f pad))
    as [[Hw Hf]|(Hroom & e & n' & j & Hw & Hf)]; rewrite extend_extend in Hw.
  - left. split.
    + erewrite bind_run; [reflexivity|]. by erewrite data_WriteTo_file by (done || exact Hw).
    + unfold fits in *. cbn [extend f_data f_limit] in Hf. fold pad in Hfit. unfold pre. fold pad. lia.
  - right. cbn [extend f_data f_limit] in Hroom. split; [unfold pre; fold pad; lia|].
    do 3 eexists. split.
    + erewrite bind_fail; [reflexivity|]. by erewrite data_WriteTo_file by (done || exact Hw).
    + split; [done|]. unfold fits in *. cbn [extend f_data f_limit] in Hf. fold pad in Hfit. rewrite <- app_assoc in Hf. lia.
Qed.

(** ** The refinement invariant *)

(** The index entry [nv] of [id] locates the record of [n] in the data file. *)
Definition holds (data : bytes) (ver id : Z) (nv : needleValue) (n : Needle) : Prop :=
  needle_wf n /\ n_Id n = id /\ nv_size nv = zlen (needle_image n ver) /\
  exists pre post, data = pre ++ needle_image n ver ++ post /\ ToActualOffset (nv_offset nv) = zlen pre.

(** The index and the data file represent the map [spec]: its needles are the live
    ones of the index, and what a read returns for them. *)
Definition index_agrees (spec : gmap Z Needle) (m : gmap Z needleValue) (data : bytes) (ver : Z) : Prop :=
  forall id,
    match m !! id with
    | None => spec !! id = None
    | Some nv =>
        if isDeleted nv then spec !! id = None
        else exists n, spec !! id = Some (needle_read n ver) /\ holds data ver id nv n
    end.

Definition v_version (v : Volume) : Z := sb_Version (v_SuperBlock v).

(** An open volume that represents [spec]; its index file is open, but need not be
    complete. *)
Definition vol_live (spec : gmap Z Needle) (v : Volume) (fs : fsys) : Prop :=
  exists h body db,
    v_dataFile v = Some h /\ h_path h = DataFileName v /\
    fs_files fs !! DataFileName v = Some (sb_Bytes (v_SuperBlock v) ++ body) /\
    sb_wf (v_SuperBlock v) /\ zlen (sb_Bytes (v_SuperBlock v) ++ body) <= fs_limit fs /\
    v_nm v = Some db /\ idx_handle (IndexFileName v) db /\
    index_agrees spec (db_m db) (sb_Bytes (v_SuperBlock v) ++ body) (v_version v).

(** The index file has the record of every entry: a restart finds the same map. *)
Definition synced (v : Volume) (fs : fsys) : Prop :=
  exists es db, v_nm v = Some db /\ in_sync (IndexFileName v) es db fs.

Lemma holds_extend data junk ver id nv n : holds data ver id nv n -> holds (data ++ junk) ver id nv n.
Proof.
  intros (Hwf & Hid & Hsz & pre & post & -> & Hoff). split_and!; [done..|].
  exists pre, (post ++ junk). by rewrite <- !app_assoc.
Qed.

Lemma index_agrees_extend spec m data junk ver :
  index_agrees spec m data ver -> index_agrees spec m (data ++ junk) ver.
Proof.
  intros H id. specialize (H id). destruct (m !! id) as [nv|]; [|done].
  destruct (isDeleted nv); [done|]. destruct H as (n & Hn & Hh). exists n. auto using holds_extend.
Qed.

Lemma holds_live data ver id nv n : holds data ver id nv n -> isDeleted nv = false.
Proof.
  intros (Hwf & _ & Hsz & _). unfold isDeleted. apply bool_decide_eq_false_2.
  pose proof (image_bounds n ver Hwf). unfold TombstoneFileSize. lia.
Qed.

Lemma index_agrees_put spec m data ver id nv n :
  index_agrees spec m data ver -> holds data ver id nv n ->
  index_agrees (<[id := needle_read n ver]> spec) (<[id := nv]> m) data ver.
Proof.
  intros H Hh id'. specialize (H id'). destruct (decide (id = id')) as [<-|Hne].
  - rewrite !lookup_insert_eq. rewrite (holds_live _ _ _ _ _ Hh). by exists n.
  - by rewrite !lookup_insert_ne.
Qed.

Lemma index_agrees_delete spec m data ver id off :
  index_agrees spec m data ver ->
  index_agrees (delete id spec) (<[id := mkNV off 0]> m) data ver.
Proof.
  intros H id'. specialize (H id'). destruct (decide (id = id')) as [<-|Hne].
  - rewrite lookup_insert_eq, lookup_delete_eq. done.
  - by rewrite lookup_insert_ne, lookup_delete_ne.
Qed.

Lemma in_sync_other p q d es db fs : p <> q -> in_sync p es db fs -> in_sync p es db (fs_set q d fs).
Proof.
  intros Hne ((Hf & h & Hh & Hp & Hap) & Hwf & Hm & Hst). split; [|done]. split.
  - by rewrite fs_set_other by congruence.
  - exists h. split_and!; [done..|]. destruct Hap as [Ha|Hpos]; [by left|right].
    unfold h_file in *. simpl in *. by rewrite lookup_insert_ne by congruence.
Qed.

(** What the operations leave alone. *)
Definition same_frame (v v' : Volume) (fs fs' : fsys) : Prop :=
  v_dir v' = v_dir v /\ v_id v' = v_id v /\ v_collection v' = v_collection v /\
  v_SuperBlock v' = v_SuperBlock v /\
  v_ReadOnly v' = v_ReadOnly v /\ v_noWriteOrDelete v' = v_noWriteOrDelete v /\ fs_limit fs' = fs_limit fs /\
  forall p, p <> DataFileName v -> p <> IndexFileName v -> fs_files fs' !! p = fs_files fs !! p.

Lemma vol_live_frame spec v fs fs' :
  vol_live spec v fs -> fs_limit fs' = fs_limit fs ->
  fs_files fs' !! DataFileName v = fs_files fs !! DataFileName v -> vol_live spec v fs'.
Proof.
  intros (h & body & db & Hh & Hp & Hd & Hsb & Hlim & Hnm & Hs & Hag) Hl Ed.
  exists h, body, db. rewrite Hl, Ed. by split_and!.
Qed.

Lemma synced_frame v fs fs' :
  synced v fs -> fs_files fs' !! IndexFileName v = fs_files fs !! IndexFileName v -> synced v fs'.
Proof.
  intros (es & db & Hdb & (Hf & g & Hg & Hgp & Hap) & Hwf & Hm & Hst) Ei. exists es, db. split; [done|].
  split; [|done]. split; [by rewrite Ei|]. exists g. split_and!; [done..|].
  destruct Hap as [Ha|Hpos]; [by left|right]. unfold h_file in *. simpl in *. rewrite Hgp in *. by rewrite Ei.
Qed.

(** The data file with more bytes at its end. *)
Lemma vol_live_junk spec v fs a f body junk :
  vol_live spec v fs -> fs_files fs !! DataFileName v = Some (sb_Bytes (v_SuperBlock v) ++ body) ->
  f_data f = sb_Bytes (v_SuperBlock v) ++ body ->
  zlen (f_data f ++ junk) <= fs_limit fs ->
  let '(v', fs') := on_file v fs a (extend f junk) in
  vol_live spec v' fs' /\ same_frame v v' fs fs' /\ (synced v fs -> synced v' fs').
Proof.
  intros (h & body' & db & Hh & Hp & Hd & Hsb & Hlim & Hnm & Hs & Hag) Hd' Hf Hroom.
  assert (body' = body) as -> by (rewrite Hd in Hd'; by injection Hd').
  split; [|split; [split_and!; try done; intros p H1 H2; by rewrite fs_set_other by congruence|]].
  - eexists _, (body ++ junk), db. cbn [extend f_data].
    rewrite Hf, <- app_assoc in *. rewrite fs_set_same.
    split_and!; try done. rewrite app_assoc. by apply index_agrees_extend.
  - intros (es & db' & Hdb' & Hsy). exists es, db'. split; [done|]. by apply in_sync_other.
Qed.

(** ** The operations on a represented map *)

Lemma GetNeedle_rep spec v fs id :
  vol_live spec v fs ->
  match spec !! id with
  | Some n => GetNeedle id (v, fs) = Ret n
  | None => exists e, GetNeedle id (v, fs) = Fail (ErrLookup e)
  end.
Proof.
  intros (h & body & db & Hh & Hp & Hd & Hsb & Hlim & Hnm & Hs & Hag). specialize (Hag id).
  unfold GetNeedle, lookup_needle. cbn [fst snd]. rewrite Hnm. unfold Get.
  destruct (db_m db !! id) as [nv|]; [destruct (isDeleted nv)|]; [by rewrite Hag; eauto| |by rewrite Hag; eauto].
  destruct Hag as (n & -> & Hwf & Hid & Hsz & pre & post & Hdata & Hoff).
  rewrite Hh, Hoff, Hsz. fold (v_version v).
  erewrite ReadNeedle_image; [done| |done]. unfold h_file. rewrite Hp, Hd. exact Hdata.
Qed.

(** The needle just appended is where the index is about to say. *)
Lemma holds_appended data ver n :
  needle_wf n -> zlen (data ++ align_pad data) < 8 * 2 ^ 32 ->
  holds (data ++ align_pad data ++ needle_image n ver) ver (n_Id n)
    (mkNV (ToEncoded (zlen (data ++ align_pad data))) (zlen (needle_image n ver))) n.
Proof.
  intros Hwf Hlim. split_and!; [done..|].
  exists (data ++ align_pad data), []. rewrite app_nil_r, <- app_assoc. split; [done|].
  apply Offset_roundtrip; [lia|apply align_pad_aligned].
Qed.

Lemma check_writable_run v fs :
  v_ReadOnly v = false -> v_noWriteOrDelete v = false -> check_writable (v, fs) = (Ret tt, (v, fs)).
Proof. intros H1 H2. unfold check_writable. rewrite bind_get. cbn [fst]. by rewrite H1, H2. Qed.

Lemma on_nm_run {A} w (m : nm A) v fs db r db' fs' :
  v_nm v = Some db -> m (db, fs) = (r, (db', fs')) ->
  on_nm w m (v, fs) = (map_err w r, (set_nm (Some db') v, fs')).
Proof. intros Hv Hm. unfold on_nm. by rewrite Hv, Hm. Qed.

(** The index update [m] after a record has been appended: the map it makes is the one the
    volume represents, whether its append to the index file failed or not. *)
Lemma indexed_run spec' v fs a f body extra (m : nm unit) db r db' d' :
  let fs1 := fs_set (DataFileName v) (f_data f ++ extra) fs in
  let fs2 := fs_set (IndexFileName v) d' fs1 in
  f_data f = sb_Bytes (v_SuperBlock v) ++ body -> sb_wf (v_SuperBlock v) -> zlen (f_data f ++ extra) <= fs_limit fs ->
  v_nm v = Some db -> m (db, fs1) = (r, (db', fs2)) -> idx_handle (IndexFileName v) db' ->
  index_agrees spec' (db_m db') (f_data f ++ extra) (v_version v) ->
  exists v', on_nm ErrUpdateIndex m (on_file v fs a (extend f extra)) = (map_err ErrUpdateIndex r, (v', fs2)) /\
    same_frame v v' fs fs2 /\ vol_live spec' v' fs2 /\
    ((forall es, in_sync (IndexFileName v) es db fs1 -> exists es', in_sync (IndexFileName v) es' db' fs2) ->
     synced v fs -> synced v' fs2).
Proof.
  intros fs1 fs2 Hf Hsb Hroom Hnm Hm Hh Hag. eexists. split_and!.
  - unfold on_file. cbn [extend f_data]. apply on_nm_run with db; done.
  - split_and!; try done. intros p H1 H2. unfold fs2, fs1. by rewrite !fs_set_other by congruence.
  - eexists _, (body ++ extra), db'. rewrite Hf, <- app_assoc in *. split_and!; try done.
    unfold fs2, fs1. rewrite fs_set_other, Hf, <- app_assoc by done. apply fs_set_same.
  - intros Hsync (es & db0 & Hdb0 & Hes). rewrite Hnm in Hdb0. injection Hdb0 as <-.
    destruct (Hsync es) as [es' Hes']; [by apply in_sync_other|]. by exists es', db'.
Qed.

Lemma tombstone_wf id : in_u 64 id -> needle_wf (tombstone id).
Proof.
  intros Hid. split; try (intros H; by vm_compute in H); try done; try (apply (bool_decide_unpack _); by vm_compute).
Qed.

Section write.
Context (spec : gmap Z Needle) (v : Volume) (fs : fsys).
Hypothesis Hrep : vol_live spec v fs.
Hypothesis Hro : v_ReadOnly v = false.
Hypothesis Hfr : v_noWriteOrDelete v = false.
Hypothesis Hlim : fs_limit fs <= 8 * 2 ^ 32.

Lemma WriteNeedle_rep n :
  needle_wf n ->
  exists r n' v' fs', WriteNeedle (n, (v, fs)) = (r, (n', (v', fs'))) /\ same_frame v v' fs fs' /\
    r <> Panic /\ (forall o, r = Ret o -> n' = needle_written n (v_version v)) /\
    vol_live (if takes_effect r then <[n_Id n := needle_read n (v_version v)]> spec else spec) v' fs' /\
    (index_failed r = false -> synced v fs -> synced v' fs').
Proof using All.
  intros Hwf. pose proof Hrep as (h & body & db & Hh & Hp & Hd & Hsb & Hroom & Hnm & Hs & Hag).
  destruct (on_file_id v fs h _ Hh Hp Hd) as [Hst Hdata].
  set (f := h_file h fs) in *. set (a := h_append h) in *.
  assert (f_limit f = fs_room (DataFileName v) fs) as Hfl by (unfold f; simpl; by rewrite Hp).
  pose proof (fs_room_limit (DataFileName v) fs) as Hrl.
  unfold WriteNeedle. erewrite bind_run by (unfold on_vol; by rewrite check_writable_run).
  rewrite <- Hst. pose proof (writeNeedleUnlocked_cases v fs a f n Hfl Hwf) as Hc.
  cbv zeta in Hc. fold (v_version v) in Hc. set (pad := align_pad (f_data f)) in *.
  rewrite <- Hdata in Hroom.
  destruct Hc as [[Hw Hfit]|(Hno & e & n' & junk & Hw & Hne & Hfit)].
  - erewrite bind_run by exact Hw. cbv iota beta. erewrite bind_run by reflexivity. cbn [fst].
    pose proof (image_bounds n (v_version v) Hwf) as Hib. rewrite u32_small by lia.
    change (n_Id (needle_written n (v_version v))) with (n_Id n).
    rewrite !length_app in Hfit.
    assert (zlen (f_data f ++ pad) < 8 * 2 ^ 32) as Hoff by (rewrite length_app; lia).
    pose proof (holds_appended (f_data f) (v_version v) n Hwf Hoff) as Hhold. fold pad in Hhold.
    set (off := ToEncoded (zlen (f_data f ++ pad))) in *. set (sz := zlen (needle_image n _)) in *.
    set (fs1 := fs_set (DataFileName v) (f_data f ++ pad ++ needle_image n (v_version v)) fs).
    assert (entry_wf (n_Id n, mkNV off sz)) as Hew
      by (split_and!; [apply (wf_id n Hwf)|apply wrap_range; lia|unfold in_u; simpl; lia]).
    destruct (Put_live_run (IndexFileName v) (n_Id n) off sz db fs1 Hs) as (r & db' & d' & Hput & Hh' & Hm' & Hc).
    destruct (indexed_run (<[n_Id n := needle_read n (v_version v)]> spec) v fs a f body
      (pad ++ needle_image n (v_version v)) (Put (n_Id n) off sz) db r db' d' Hdata Hsb) as (v' & Hrun & Hframe & Hrep' & Hsy); try done.
    { rewrite !length_app. lia. }
    { rewrite Hm', Hdata. apply index_agrees_put; [by apply index_agrees_extend|by rewrite <- Hdata]. }
    exists (match r with Ret _ => Ret (off, sz) | Fail x => Fail (ErrUpdateIndex x) | Panic => Panic end).
    do 3 eexists. split.
    { destruct Hc as [[-> _]|[x ->]]; [erewrite bind_run|erewrite bind_fail]; try reflexivity;
        unfold on_vol; by rewrite Hrun. }
    destruct Hc as [[-> Hsync]|[x ->]]; (split_and!; try done). intros _. apply Hsy. eauto.
  - unfold fits in Hfit. pose proof (vol_live_junk spec v fs a f body junk Hrep Hd Hdata ltac:(lia)) as Hj.
    destruct (on_file v fs a (extend f junk)) as [v' fs'] eqn:E. destruct Hj as (Hr' & Hfrm & Hsy).
    do 4 eexists. split; [by erewrite bind_fail by exact Hw|]. split; [done|]. cbn [takes_effect]. rewrite Hne.
    by split_and!.
Qed.

Lemma DeleteNeedle_rep id :
  in_u 64 id ->
  exists r v' fs', DeleteNeedle id (v, fs) = (r, (v', fs')) /\ same_frame v v' fs fs' /\
    r <> Panic /\ (takes_effect r = true -> is_Some (spec !! id)) /\
    vol_live (if takes_effect r then delete id spec else spec) v' fs' /\
    (index_failed r = false -> synced v fs -> synced v' fs').
Proof using All.
  intros Hid. pose proof Hrep as (h & body & db & Hh & Hp & Hd & Hsb & Hroom & Hnm & Hs & Hag).
  destruct (on_file_id v fs h _ Hh Hp Hd) as [Hst Hdata].
  set (f := h_file h fs) in *. set (a := h_append h) in *.
  assert (f_limit f = fs_room (DataFileName v) fs) as Hfl by (unfold f; simpl; by rewrite Hp).
  pose proof (fs_room_limit (DataFileName v) fs) as Hrl.
  assert (set_nm (Some db) v = v) as Hnmv by (destruct v; simpl in *; by subst).
  unfold DeleteNeedle. erewrite bind_run by by rewrite check_writable_run.
  pose proof (Hag id) as Hl.
  assert (on_nm ErrLookup (fun '(db, fs) => (Get id db, (db, fs))) (v, fs) =
    (map_err ErrLookup (Get id db), (v, fs))) as Hget by (unfold on_nm; by rewrite Hnm, Hnmv).
  destruct (Get id db) as [o|e|] eqn:Eg.
  2: { do 3 eexists. split; [by erewrite bind_fail by exact Hget|]. by split_and!. }
  2: { unfold Get in Eg. repeat case_match; done. }
  erewrite bind_run by exact Hget.
  assert (exists nv, db_m db !! id = Some nv /\ isDeleted nv = false) as (nv & Hnv & Hlive).
  { unfold Get in Eg. destruct (db_m db !! id) as [nv|]; [|done]. exists nv. by destruct (isDeleted nv). }
  rewrite Hnv, Hlive in Hl. destruct Hl as (n0 & Hn0 & _).
  pose proof (writeNeedleUnlocked_cases v fs a f (tombstone id) Hfl (tombstone_wf id Hid)) as Hc.
  cbv zeta in Hc. fold (v_version v) in Hc. set (pad := align_pad (f_data f)) in *.
  set (img := needle_image (tombstone id) (v_version v)) in *.
  rewrite <- Hdata in Hroom. rewrite Hst in Hc.
  destruct Hc as [[Hw Hfit]|(Hno & e & n' & junk & Hw & Hne & Hfit)].
  - rewrite <- app_assoc in Hfit. set (fs1 := fs_set (DataFileName v) (f_data f ++ pad ++ img) fs).
    destruct (Delete_live_run (IndexFileName v) id nv db fs1 Hnv Hlive Hs) as (r & db' & d' & Hdel & Hh' & Hm' & Hc).
    destruct (indexed_run (delete id spec) v fs a f body (pad ++ img) (Delete id) db r db' d' Hdata Hsb)
      as (v' & Hrun & Hframe & Hrep' & Hsy); try done.
    { lia. }
    { rewrite Hm', Hdata. apply index_agrees_delete. by apply index_agrees_extend. }
    exists (map_err ErrUpdateIndex r). do 2 eexists. split; [erewrite bind_run by (rewrite Hw; reflexivity); exact Hrun|].
    destruct Hc as [[-> Hsync]|[x ->]]; (split_and!; try done). intros _. apply Hsy. intros es Hes.
    eexists. apply Hsync; [done|]. destruct (in_sync_wf _ _ _ _ Hes id nv Hnv) as (? & ? & ?). by split_and!.
  - unfold fits in Hfit. pose proof (vol_live_junk spec v fs a f body junk Hrep Hd Hdata ltac:(lia)) as Hj.
    destruct (on_file v fs a (extend f junk)) as [v' fs'] eqn:E. destruct Hj as (Hr' & Hfrm & Hsy).
    do 3 eexists. split; [by erewrite bind_fail by (rewrite Hw; reflexivity)|]. split; [done|].
    cbn [takes_effect]. rewrite Hne. by split_and!.
Qed.
End write.

(** ** Creating and reopening *)

Lemma NewVolume_fresh dir c id ver fs :
  fs_files fs !! (dir, id, Dat) = None -> fs_files fs !! (dir, id, Idx) = None ->
  8 <= fs_room (dir, id, Dat) fs -> is_byte ver ->
  exists v fs', NewVolume dir c id ver fs = (Ret v, fs') /\ vol_live ∅ v fs' /\ synced v fs' /\
    v_dir v = dir /\ v_id v = id /\ v_collection v = c /\ v_version v = ver /\
    v_ReadOnly v = false /\ v_noWriteOrDelete v = false /\ fs_limit fs' = fs_limit fs.
Proof.
  intros Hd Hi Hl Hver. unfold NewVolume, DataFileName, IndexFileName in *. cbv zeta. cbn [v_dir v_id].
  unfold fs_exists. rewrite bool_decide_eq_false_2 by (rewrite Hd; apply is_Some_None).
  unfold fs_Open. rewrite Hd. cbn [negb]. set (sb := mkSuperBlock ver _ _ _).
  unfold on_handle. rewrite h_file_set, WriteSuperBlock_run by done. cbn [f_data f_pos h_path h_append].
  rewrite fs_set_set. set (d := sb_Bytes sb ++ drop 8 []).
  erewrite bind_run by (unfold Load; rewrite fs_set_other, Hi by done; reflexivity).
  unfold OpenIndexFile, fs_Open. rewrite fs_set_other, Hi by done.
  pose proof (fs_room_limit (dir, id, Dat) fs) as Hrl.
  do 2 eexists. split; [reflexivity|]. split; [|split; [|done]].
  - eexists _, (drop 8 []), _. split_and!; try done.
    + rewrite fs_set_other by done. apply fs_set_same.
    + cbn [fs_limit fs_set]. rewrite length_app, sb_Bytes_length. cbn [drop length]. lia.
    + by eexists.
  - exists [], (loaded (dir, id, Idx) []). split; [done|].
    apply loaded_in_sync; [apply fs_set_same|constructor].
Qed.

Lemma NewVolume_reopen spec v fs c ver :
  vol_live spec v fs -> synced v fs ->
  exists v', NewVolume (v_dir v) c (v_id v) ver fs = (Ret v', fs) /\ vol_live spec v' fs /\ synced v' fs /\
    v_dir v' = v_dir v /\ v_id v' = v_id v /\ v_collection v' = c /\ v_SuperBlock v' = v_SuperBlock v /\
    v_ReadOnly v' = false /\ v_noWriteOrDelete v' = false.
Proof.
  intros (h & body & db & Hh & Hp & Hd & Hsb & Hlim & Hnm & _ & Hag) (es & db0 & Hdb & (Hfile & Hopen) & Hwf & Hm & Hst).
  rewrite Hnm in Hdb. injection Hdb as <-.
  unfold NewVolume, DataFileName, IndexFileName in *. cbv zeta. cbn [v_dir v_id]. unfold DataFileName in Hd.
  unfold fs_exists. rewrite bool_decide_eq_true_2 by (rewrite Hd; eauto).
  unfold fs_Open. rewrite Hd. cbn [negb].
  erewrite ReadSuperBlock_run; [|exact Hsb|done|unfold h_file; simpl; by rewrite Hd].
  cbn [map_err f_pos h_path h_append].
  pose proof (LoadNeedleMap_run (v_dir v, v_id v, Idx) es [] fs) as Hload.
  rewrite app_nil_r in Hload. specialize (Hload Hfile Hwf ltac:(done)).
  unfold LoadNeedleMap in Hload.
  destruct ((Load _;; OpenIndexFile _) (NewMemDb, fs)) as [[[]|e|] [db' fs']]; try done.
  injection Hload as -> ->. eexists. split; [reflexivity|]. split; [|split; [|done]].
  - eexists _, body, _. split_and!; try done; [by eexists|].
    unfold loaded. cbn [db_m set_file]. rewrite db_m_load_entries.
    change (db_m NewMemDb) with (∅ : gmap Z needleValue). by rewrite <- Hm.
  - exists es, (loaded (v_dir v, v_id v, Idx) es). split; [done|]. by apply loaded_in_sync.
Qed.
