(* ===== verification/VolumeCompact.v ===== *)
(** * VolumeCompact: compaction keeps the live needles

    The two halves of a compaction, [Compact] and [CommitCompact], on a volume
    that represents a map of needles ([VolumeSpec]). *)

From Stdlib Require Import QArith.QArith_base.
From S2P Require Import Prelude Bytes Types OsFile Needle NeedleCodec SuperBlock Fs NeedleMap Volume VolumeSpec.

#[local] Open Scope Z_scope.

(** ** Rewriting a needle that was read *)

Lemma needle_read_flag flag n ver : has_flag flag (needle_read n ver) = has_flag flag n.
Proof. by apply has_flag_eq. Qed.

Lemma needle_read_wf n ver : needle_wf n -> needle_wf (needle_read n ver).
Proof.
  intros Hwf. unfold HasName, HasMime, HasPairs, HasLastModified, HasTtl in *.
  split; unfold HasName, HasMime, HasPairs, HasLastModified, HasTtl; rewrite ?needle_read_flag; cbn [needle_read];
    unfold HasName, HasMime, HasPairs, HasLastModified, HasTtl.
  - apply (wf_cookie n Hwf).
  - apply (wf_id n Hwf).
  - apply (wf_datasize n Hwf).
  - apply (wf_data n Hwf).
  - apply (wf_flags n Hwf).
  - intros E. pose proof (wf_name n Hwf E). cbn. unfold HasName. by rewrite E.
  - intros E. pose proof (wf_mime n Hwf E). cbn. unfold HasMime. by rewrite E.
  - intros E. pose proof (wf_pairs n Hwf E). cbn. unfold HasPairs. by rewrite E.
  - intros E. pose proof (wf_lastmod n Hwf E). cbn. unfold HasLastModified. by rewrite E.
  - intros E. pose proof (wf_ttl n Hwf E). cbn. unfold HasTtl. by rewrite E.
  - pose proof (wf_append n Hwf). cbn [needle_read n_AppendAtNs]. case_decide; [done|].
    apply (bool_decide_unpack _). by vm_compute.
  - rewrite bodyBytes_read. apply (wf_total n Hwf).
Qed.

Lemma needle_image_read n ver : needle_image (needle_read n ver) ver = needle_image n ver.
Proof.
  assert (needle_crc (needle_read n ver) = needle_crc n) as Hcrc
    by (unfold needle_crc; by rewrite bodyBytes_read).
  assert (needle_footer (needle_read n ver) ver = needle_footer n ver) as Hf.
  { unfold needle_footer, buildFooterBytes. rewrite Hcrc. cbn [n_Checksum set_Checksum n_AppendAtNs].
    case_decide; [|done]. cbn [needle_read n_AppendAtNs]. by rewrite decide_True. }
  unfold needle_image, needle_header, needle_padding, needle_bodysize. by rewrite bodyBytes_read, Hf.
Qed.

(** The bytes of the records of a list of index entries. *)
Definition entries_size (l : list entry) : Z := foldr (fun e a => nv_size e.2 + a) 0 l.

Lemma entries_size_perm l l' : l ≡ₚ l' -> entries_size l = entries_size l'.
Proof. unfold entries_size. induction 1; simpl; lia. Qed.

Lemma entries_size_nonneg l : Forall (fun e => 0 <= nv_size e.2) l -> 0 <= entries_size l.
Proof. unfold entries_size. induction 1; simpl; lia. Qed.

Lemma entries_size_msum (m : gmap Z needleValue) : entries_size (map_to_list m) = msum nv_size m.
Proof.
  unfold msum, entries_size. rewrite map_fold_foldr.
  induction (map_to_list m) as [|[k nv] l IH]; simpl; [done|]. by rewrite IH.
Qed.

(** ** The loop *)

Section compact.
Context (spec : gmap Z Needle) (v : Volume) (data : bytes) (orig : gmap path bytes) (limit space now : Z).

Abbreviation ver := (v_version v).
Abbreviation cpdPath := ((v_dir v, v_id v, Cpd) : path).
Abbreviation cpxPath := ((v_dir v, v_id v, Cpx) : path).

Definition expired (n : Needle) : bool := IsExpired n (n_AppendAtNs n / 10 ^ 9) now.

(** The needle of [id] that a compaction keeps. *)
Definition kept (id : Z) : option Needle :=
  n ← spec !! id; if expired n then None else Some n.

Definition keep (acc : gmap Z Needle) (e : entry) : gmap Z Needle :=
  match kept e.1 with Some n => <[e.1 := n]> acc | None => acc end.

(** Only the two temporary files differ from [orig]. *)
Definition only_temp (fs : fsys) : Prop :=
  fs_limit fs = limit /\ fs_space fs = space /\
  forall p, p <> cpdPath -> p <> cpxPath -> fs_files fs !! p = orig !! p.

(** The bytes of the files that are not temporary. *)
Definition other_bytes : Z := msum (fun b => zlen b) (delete cpxPath (delete cpdPath orig)).

(** Whether [used] bytes of data and [k] index records fit the device. *)
Definition compact_fits (used : Z) (k : nat) : Prop :=
  used <= limit /\ 16 * Z.of_nat k <= limit /\ other_bytes + used + 16 * Z.of_nat k <= space.

Lemma only_temp_room fs :
  only_temp fs ->
  fs_room cpdPath fs = Z.min limit (space - (other_bytes + zlen (default [] (fs_files fs !! cpxPath)))) /\
  fs_room cpxPath fs = Z.min limit (space - (other_bytes + zlen (default [] (fs_files fs !! cpdPath)))).
Proof using.
  intros (Hl & Hs & Ho). unfold fs_room. rewrite Hl, Hs.
  assert (delete cpxPath (delete cpdPath (fs_files fs)) = delete cpxPath (delete cpdPath orig)) as E.
  { apply map_eq. intros p. destruct (decide (p = cpxPath)) as [->|H1]; [by rewrite !lookup_delete_eq|].
    rewrite !(lookup_delete_ne _ cpxPath) by done.
    destruct (decide (p = cpdPath)) as [->|H2]; [by rewrite !lookup_delete_eq|].
    rewrite !lookup_delete_ne by done. by apply Ho. }
  assert (forall (m : gmap path bytes) p,
    msum (fun b => zlen b) m = msum (fun b => zlen b) (delete p m) + zlen (default [] (m !! p))) as Hd.
  { intros m p. destruct (m !! p) as [b|] eqn:Eb; simpl.
    - rewrite (msum_delete _ m p b) by done. lia.
    - rewrite delete_id by done. lia. }
  unfold other_bytes. rewrite <- E. split; do 2 f_equal.
  - rewrite (Hd (delete cpdPath (fs_files fs)) cpxPath). by rewrite lookup_delete_ne by done.
  - rewrite (Hd (delete cpxPath (fs_files fs)) cpdPath), lookup_delete_ne by done. by rewrite delete_delete.
Qed.

Lemma only_temp_set fs p b : only_temp fs -> p = cpdPath \/ p = cpxPath -> only_temp (fs_set p b fs).
Proof using.
  intros (Hl & Hs & Ho) Hp. split_and!; [done..|]. intros q H1 H2. rewrite fs_set_other; [by apply Ho|].
  by destruct Hp as [-> | ->]; congruence.
Qed.

(** The compacted files represent [acc], with at most [k] index records and at most
    [used] bytes of data. *)
Definition comp_inv (acc : gmap Z Needle) (k : nat) (used : Z) (c : compaction) : Prop :=
  exists body es,
    let d := sb_Bytes (incr_revision (v_SuperBlock v)) ++ body in
    h_path (c_cpd c) = cpdPath /\ h_pos (c_cpd c) = zlen d /\
    fs_files (c_fs c) !! cpdPath = Some d /\ zlen d <= Z.min used limit /\
    c_offset c = zlen d /\ zlen d mod 8 = 0 /\
    in_sync cpxPath es (c_cpxDB c) (c_fs c) /\ (length es <= k)%nat /\
    index_agrees acc (db_m (c_cpxDB c)) d ver /\ only_temp (c_fs c).

Lemma comp_inv_only_temp acc k used c : comp_inv acc k used c -> only_temp (c_fs c).
Proof using. intros (body & es & H). cbv zeta in H. tauto. Qed.

(** What the source index says about an entry. *)
Definition entry_good (e : entry) : Prop :=
  if isDeleted e.2 then spec !! e.1 = None
  else exists n, spec !! e.1 = Some (needle_read n ver) /\ holds data ver e.1 e.2 n.

Context (dat : fsys -> file).
Hypothesis Hdat : forall fs, only_temp fs -> f_data (dat fs) = data.
Hypothesis Hlimit : limit <= 8 * 2 ^ 32.

(** The tail of an iteration: the needle goes to the end of [.cpd], and its
    location to [.cpx], or there is no room for that. *)
Lemma comp_inv_append acc k used c n id :
  comp_inv acc k used c -> needle_wf n -> n_Id n = id ->
  let d := default [] (fs_files (c_fs c) !! cpdPath) ++ needle_image n ver in
  zlen d <= limit ->
  let fs1 := fs_set cpdPath d (c_fs c) in
  exists r db' fs2,
    Put id (ToEncoded (c_offset c)) (zlen (needle_image n ver)) (c_cpxDB c, fs1) = (r, (db', fs2)) /\
    only_temp fs2 /\
    (r = Ret tt /\ (forall a x1 x2 x3 x4,
      comp_inv (<[id := needle_read n ver]> acc) (S k) (used + zlen (needle_image n ver))
        (mkCompaction (mkHandle cpdPath (zlen d) a) db' (c_offset c + zlen (needle_image n ver)) x1 x2 x3 x4 fs2)) \/
     (exists e, r = Fail e) /\ ~ compact_fits (used + zlen (needle_image n ver)) (S k)).
Proof using Hlimit.
  intros (body & es & Hp & Hpos & Hf & Hused & Hoff & Hal & Hs & Hk & Hag & Hot) Hwf Hid.
  set (d := sb_Bytes _ ++ body) in *. rewrite Hf. cbn [from_option Datatypes.id]. cbv zeta. intros Hroom.
  pose proof (image_bounds n ver Hwf) as Hib. rewrite Hoff, <- Hid.
  set (fs1 := fs_set cpdPath (d ++ needle_image n ver) (c_fs c)).
  assert (only_temp fs1) as Hot1 by (apply only_temp_set; auto).
  destruct (Put_sync_cases cpxPath es (c_cpxDB c) fs1 (n_Id n) (ToEncoded (zlen d)) (zlen (needle_image n ver)))
    as (r & db' & d' & -> & Hc); [by apply in_sync_other| |].
  { split_and!; [apply (wf_id n Hwf)|apply wrap_range; lia|unfold in_u; cbn [fst snd nv_size]; lia]. }
  assert (only_temp (fs_set cpxPath d' fs1)) as Hot2 by (apply only_temp_set; auto).
  eexists _, _, _. split; [done|]. split; [done|]. destruct Hc as [(-> & Hs' & Hm')|[Hr Hx]]; [left|right].
  - split; [done|]. intros a x1 x2 x3 x4.
    exists (body ++ needle_image n ver), (es ++ [(n_Id n, mkNV (ToEncoded (zlen d)) (zlen (needle_image n ver)))]).
    cbn [c_cpd c_cpxDB c_offset c_fs h_path h_pos]. rewrite app_assoc. fold d. unfold fs1 in *.
    rewrite !fs_set_other by done. rewrite fs_set_same, !length_app, !Nat2Z.inj_add in *. simpl (length [_]).
    pose proof (image_aligned n ver) as Hia.
    split_and!; try done; try lia; [zlia|].
    rewrite Hm'. apply index_agrees_put; [by apply index_agrees_extend|].
    split_and!; try done. exists d, []. rewrite app_nil_r. split; [done|].
    apply Offset_roundtrip; [lia|done].
  - split; [done|]. intros (H1 & H2 & H3).
    destruct (only_temp_room fs1 Hot1) as [_ Hroomx]. unfold fs1 in Hroomx at 2. rewrite fs_set_same in Hroomx.
    cbn [from_option Datatypes.id] in Hroomx. rewrite length_app in Hroomx. rewrite length_encode_entries in Hx. lia.
Qed.

(** One iteration: the entry is handled, or there is no room for its record. *)
Lemma compact_entry_cases acc k used c e :
  comp_inv acc k used c -> entry_good e -> 0 <= nv_size e.2 ->
  exists r c', compact_entry dat ver now e c = (r, c') /\ only_temp (c_fs c') /\
    (r = Ret tt /\ comp_inv (keep acc e) (S k) (used + nv_size e.2) c' \/
     (exists err, r = Fail err) /\ ~ compact_fits (used + nv_size e.2) (S k)).
Proof using Hdat Hlimit.
  destruct e as [id nv]. unfold entry_good, keep, kept. cbn [fst snd]. intros Hinv Hgood Hnn.
  pose proof Hinv as (body & es & Hp & Hpos & Hf & Hused & Hoff & Hal & Hs & Hk & Hag & Hot).
  assert (forall x1 x2 x3 x4, comp_inv acc (S k) (used + nv_size nv)
    (mkCompaction (c_cpd c) (c_cpxDB c) (c_offset c) x1 x2 x3 x4 (c_fs c))) as Hskip.
  { intros. exists body, es. cbn [c_cpd c_cpxDB c_offset c_fs]. split_and!; try done; lia. }
  unfold compact_entry. cbv zeta. cbn [c_cpd c_cpxDB c_offset c_read c_written c_deleted c_expired c_fs].
  destruct (isDeleted nv) eqn:Edel.
  { do 2 eexists. split; [reflexivity|]. split; [done|]. left. rewrite Hgood. simpl. auto. }
  destruct Hgood as (n & Hn & Hwf & Hid & Hsz & pre & post & Hd & Ho).
  rewrite Hn. cbn [mbind option_bind]. rewrite Ho, Hsz in *.
  rewrite (ReadNeedle_image _ pre n ver post) by (rewrite ?Hdat; done).
  fold (expired (needle_read n ver)). destruct (expired (needle_read n ver)) eqn:Eexp.
  { do 2 eexists. split; [reflexivity|]. split; [done|]. left. split; [done|]. apply Hskip. }
  set (d := sb_Bytes (incr_revision (v_SuperBlock v)) ++ body) in *.
  destruct (only_temp_room (c_fs c) Hot) as [Hroom _]. pose proof Hs as ((Hfx & _) & _).
  rewrite Hfx in Hroom. cbn [from_option Datatypes.id] in Hroom.
  assert (h_file (c_cpd c) (c_fs c) = mkFile d (zlen d) (fs_room cpdPath (c_fs c))) as ->
    by (unfold h_file; by rewrite Hp, Hf, Hpos).
  pose proof (needle_image_read n ver) as Himg. pose proof (image_bounds n ver Hwf) as Hib.
  destruct (WriteTo_cases (needle_read n ver) ver (mkFile d (zlen d) (fs_room cpdPath (c_fs c)))) as [[-> Hfit]|(Hno & err & n' & j & -> & Hfit)];
    [by apply needle_read_wf|done| |]; rewrite Himg in *; unfold fits in *; cbn [extend f_pos f_data f_limit] in *;
    rewrite Hp.
  - rewrite u32_small by lia.
    pose proof (comp_inv_append acc k used c n id Hinv Hwf Hid) as Happ. rewrite Hf in Happ.
    change (default [] (Some d)) with d in Happ.
    destruct Happ as (r & db' & fs2 & Hput & Hot2 & Hc); [lia|]. rewrite Hput.
    destruct Hc as [[-> Hnew]|[[err ->] Hno]]; do 2 eexists; (split; [reflexivity|]); (split; [done|]); [left|right; eauto].
    split; [done|apply Hnew].
  - do 2 eexists. split; [reflexivity|]. cbn [c_fs]. split.
    + apply only_temp_set; auto.
    + right. split; [eauto|]. intros (H1 & H2 & H3). rewrite length_app in Hno. rewrite length_encode_entries in Hroom. lia.
Qed.

Lemma compact_fits_mono used used' k k' :
  used <= used' -> (k <= k')%nat -> compact_fits used' k' -> compact_fits used k.
Proof using. intros Hu Hk (H1 & H2 & H3). unfold compact_fits. lia. Qed.

Lemma compact_loop_cases l : forall acc k used c,
  comp_inv acc k used c -> Forall entry_good l -> Forall (fun e => 0 <= nv_size e.2) l ->
  exists r c', compact_loop dat ver now l c = (r, c') /\ only_temp (c_fs c') /\
    (r = Ret tt /\ (exists used', comp_inv (foldl keep acc l) (k + length l) used' c') \/
     (exists err, r = Fail err) /\ ~ compact_fits (used + entries_size l) (k + length l)).
Proof using Hdat Hlimit.
  induction l as [|e l IH]; intros acc k used c Hinv Hgood Hnn.
  { do 2 eexists. split; [reflexivity|]. split; [|left; rewrite Nat.add_0_r; eauto].
    by eapply comp_inv_only_temp. }
  apply Forall_cons in Hgood as [He Hgood], Hnn as [Hne Hnn].
  pose proof (entries_size_nonneg l Hnn). cbn [compact_loop entries_size foldr]. fold (entries_size l).
  destruct (compact_entry_cases acc k used c e Hinv He Hne)
    as (r & c1 & Hc1 & Hot & [[-> Hinv1]|[[err ->] Hno]]).
  - destruct (IH _ _ _ c1 Hinv1 Hgood Hnn) as (r & c' & Hc' & Hot' & Hres).
    exists r, c'. split; [by erewrite bind_run by exact Hc1|]. split; [done|].
    simpl length. rewrite Nat.add_succ_r. destruct Hres as [?|[? Hno]]; [by left|right; split; [done|]].
    by rewrite Z.add_assoc.
  - do 2 eexists. split; [by erewrite bind_fail by exact Hc1|]. split; [done|].
    right. split; [eauto|]. intros Hf. apply Hno. eapply compact_fits_mono; [| |exact Hf]; simpl; lia.
Qed.

Lemma foldl_keep l acc id :
  foldl keep acc l !! id =
    match kept id with Some n => if decide (id ∈ l.*1) then Some n else acc !! id | None => acc !! id end.
Proof using.
  revert acc. induction l as [|e l IH]; intros acc.
  - simpl. by destruct (kept id).
  - cbn [foldl]. rewrite IH, fmap_cons. unfold keep. destruct (decide (id = e.1)) as [->|Hne].
    + destruct (kept e.1) as [n|] eqn:E; [|done].
      rewrite (decide_True (P := e.1 ∈ e.1 :: l.*1)) by (rewrite elem_of_cons; by left).
      case_decide; [done|]. apply lookup_insert_eq.
    + replace (match kept e.1 with Some n => <[e.1:=n]> acc | None => acc end !! id) with (acc !! id)
        by (destruct (kept e.1); by rewrite ?lookup_insert_ne by done).
      destruct (kept id) as [n|]; [|done].
      destruct (decide (id ∈ l.*1)) as [H|H];
        [rewrite decide_True by (rewrite elem_of_cons; by right)
        |rewrite decide_False by (rewrite elem_of_cons; by intros [?|?])]; done.
Qed.
End compact.

(** ** [Compact] *)

(** The needles a compaction at time [now] keeps. *)
Definition unexpired (now : Z) (spec : gmap Z Needle) : gmap Z Needle :=
  filter (fun p => expired now p.2 = false) spec.

Lemma kept_unexpired spec now id : kept spec now id = unexpired now spec !! id.
Proof.
  unfold kept, unexpired. destruct (spec !! id) as [n|] eqn:Es; simpl.
  - destruct (expired now n) eqn:E; symmetry.
    + apply map_lookup_filter_None. right. intros n' Hn'. simplify_eq. simpl. by rewrite E.
    + by apply map_lookup_filter_Some.
  - symmetry. apply map_lookup_filter_None. by left.
Qed.

Lemma removed_spec p fs :
  fs_limit (removed p fs) = fs_limit fs /\ fs_space (removed p fs) = fs_space fs /\
  fs_files (removed p fs) !! p = None /\
  forall q, q <> p -> fs_files (removed p fs) !! q = fs_files fs !! q.
Proof.
  unfold removed, fs_Remove. case_match; simpl; [|done]. split_and!; [done|done|apply lookup_delete_eq|].
  intros q Hq. by rewrite lookup_delete_ne.
Qed.

(** The temporary files hold a volume that represents [acc]. *)
Definition compacted (acc : gmap Z Needle) (v : Volume) (fs : fsys) : Prop :=
  exists body es,
    let d := sb_Bytes (incr_revision (v_SuperBlock v)) ++ body in
    fs_files fs !! (v_dir v, v_id v, Cpd) = Some d /\ zlen d <= fs_limit fs /\
    fs_files fs !! (v_dir v, v_id v, Cpx) = Some (encode_entries es) /\ Forall entry_wf es /\
    index_agrees acc (replay es ∅) d (v_version v).

Definition map_order (order : gmap Z needleValue -> list entry) : Prop :=
  forall m, order m ≡ₚ map_to_list m.

Lemma entries_good spec m data v l :
  index_agrees spec m data (v_version v) -> l ≡ₚ map_to_list m ->
  Forall (entry_good spec v data) l /\ Forall (fun e => 0 <= nv_size e.2) l.
Proof.
  intros Hag Hl. rewrite !list.Forall_forall. split; intros [k nv]; rewrite Hl, elem_of_map_to_list; intros Hk;
    specialize (Hag k); rewrite Hk in Hag; unfold entry_good; cbn [fst snd]; destruct (isDeleted nv) eqn:E; try done.
  - by rewrite isDeleted_size.
  - destruct Hag as (n & _ & _ & _ & -> & _). lia.
Qed.

Lemma only_temp_removed v orig limit space fs p :
  only_temp v orig limit space fs -> p = (v_dir v, v_id v, Cpd) \/ p = (v_dir v, v_id v, Cpx) ->
  only_temp v orig limit space (removed p fs).
Proof.
  intros (Hl & Hs & Ho) Hp. destruct (removed_spec p fs) as (El & Es & _ & Ef). split; [congruence|]. split; [congruence|].
  intros q H1 H2. rewrite Ef; [by apply Ho|]. by destruct Hp as [-> | ->]; congruence.
Qed.

Lemma open_temp_cases v fs :
  exists r fs', open_temp v fs = (r, fs') /\ only_temp v (fs_files fs) (fs_limit fs) (fs_space fs) fs' /\
    ((exists c0, r = Ret c0 /\ comp_inv v (fs_files fs) (fs_limit fs) (fs_space fs) ∅ 0 8 c0) \/
     (exists e, r = Fail e) /\ ~ compact_fits v (fs_files fs) (fs_limit fs) (fs_space fs) 8 0).
Proof.
  unfold open_temp. cbv zeta.
  set (cpd := (v_dir v, v_id v, Cpd)). set (cpx := (v_dir v, v_id v, Cpx)).
  assert (only_temp v (fs_files fs) (fs_limit fs) (fs_space fs) (removed cpx (removed cpd fs))) as Hot
    by (do 2 (apply only_temp_removed; [|by auto]); done).
  destruct (removed_spec cpx (removed cpd fs)) as (_ & _ & Ex & _).
  set (fs1 := removed cpx (removed cpd fs)) in *. unfold fs_Create at 1.
  destruct (only_temp_room _ _ _ _ _ Hot) as [Hroom _]. fold cpd cpx in Hroom. rewrite Ex in Hroom.
  cbn [from_option Datatypes.id length] in Hroom.
  unfold on_handle. rewrite h_file_set. set (sb := incr_revision (v_SuperBlock v)).
  destruct (decide (8 <= fs_room cpd fs1)) as [Hl|Hl].
  - erewrite bind_run by (apply WriteSuperBlock_run; done).
    unfold f_SeekStart. cbn [f_data f_pos f_limit h_path h_append]. rewrite fs_set_set. unfold fs_Create.
    change (sb_Bytes sb ++ drop 8 []) with (sb_Bytes sb).
    assert (only_temp v (fs_files fs) (fs_limit fs) (fs_space fs) (fs_set cpx [] (fs_set cpd (sb_Bytes sb) fs1))) as Hot2
      by (do 2 (apply only_temp_set; [|by auto]); done).
    do 2 eexists. split; [reflexivity|]. split; [done|]. left. eexists. split; [done|].
    exists [], []. rewrite app_nil_r. fold sb.
    cbn [c_cpd c_cpxDB c_offset c_fs h_path h_pos].
    split_and!; try done; try (rewrite sb_Bytes_length; lia).
    + rewrite fs_set_other by done. apply fs_set_same.
    + split; [|split; [constructor|split; [done|apply stats_ok_new]]].
      split; [apply fs_set_same|]. exists (mkHandle cpx 0 false). split_and!; [done..|].
      right. by rewrite h_file_set.
  - destruct (WriteSuperBlock_fail (mkFile [] 0 (fs_room cpd fs1)) sb) as [f' Hw]; [simpl; lia|].
    erewrite bind_fail by exact Hw. cbn [h_path h_append]. rewrite fs_set_set.
    do 2 eexists. split; [reflexivity|]. split.
    + do 2 (apply only_temp_removed; [|by auto]). apply only_temp_set; by auto.
    + right. split; [by eauto|]. intros (H1 & H2 & H3). lia.
Qed.

(** The map that the loop builds is the map without its expired needles. *)
Lemma foldl_keep_unexpired spec now m data ver l :
  index_agrees spec m data ver -> l ≡ₚ map_to_list m -> foldl (keep spec now) ∅ l = unexpired now spec.
Proof.
  intros Hag Hl. apply map_eq. intros id.
  rewrite foldl_keep, kept_unexpired. destruct (unexpired now spec !! id) as [n|] eqn:E; [|done].
  rewrite decide_True; [done|]. specialize (Hag id).
  apply map_lookup_filter_Some in E as [E _]. destruct (m !! id) as [nv|] eqn:Em; [|congruence].
  rewrite Hl. apply list_elem_of_fmap. exists (id, nv). split; [done|]. by apply elem_of_map_to_list.
Qed.

(** What a compaction needs: room for the superblock, the live records and their index
    entries beside the files that are there. *)
Definition compaction_fits (v : Volume) (db : MemDb) (fs : fsys) : Prop :=
  compact_fits v (fs_files fs) (fs_limit fs) (fs_space fs) (8 + msum nv_size (db_m db)) (size (db_m db)).

Lemma Compact_cases spec v fs order now thr :
  vol_live spec v fs -> map_order order -> fs_limit fs <= 8 * 2 ^ 32 ->
  exists r fs', Compact order now thr (v, fs) = (r, (v, fs')) /\
    only_temp v (fs_files fs) (fs_limit fs) (fs_space fs) fs' /\
    ((exists res, r = Ret res /\ r_TempDataFile res = (v_dir v, v_id v, Cpd) /\
        r_TempIndexFile res = (v_dir v, v_id v, Cpx) /\ compacted (unexpired now spec) v fs') \/
     (exists e db, r = Fail e /\ v_nm v = Some db /\
        (NeedCompact thr v = Some false \/ ~ compaction_fits v db fs))).
Proof.
  intros (h & body & db & Hh & Hp & Hd & Hsb & Hlim & Hnm & Hs & Hag) Hord Hl1.
  unfold Compact. rewrite Hnm. unfold NeedCompact.
  destruct (GarbageLevel v) as [g|] eqn:Eg; [|unfold GarbageLevel in Eg; by rewrite Hnm in Eg].
  destruct (Qle_bool thr g) eqn:Eq; cbn [negb].
  2: { do 2 eexists. split; [reflexivity|]. split; [done|]. right. do 2 eexists. split_and!; [done..|].
       left. simpl. by rewrite Eq. }
  cbv zeta.
  destruct (entries_good spec (db_m db) _ v (order (db_m db)) Hag (Hord _)) as [Hgood Hnn].
  pose proof (entries_size_nonneg _ Hnn) as Hnn'. rewrite (entries_size_perm _ _ (Hord _)), entries_size_msum in Hnn'.
  destruct (open_temp_cases v fs) as (r & fs0 & -> & Hot0 & [(c0 & -> & Hinv)|[[e ->] Hno]]).
  2: { do 2 eexists. split; [reflexivity|]. split; [done|]. right. do 2 eexists. split_and!; [done..|].
       right. intros Hf. apply Hno. eapply compact_fits_mono; [| |exact Hf]; lia. }
  destruct (compact_loop_cases spec v (sb_Bytes (v_SuperBlock v) ++ body) (fs_files fs) (fs_limit fs) (fs_space fs) now (data_file v))
    with (l := order (db_m db)) (acc := ∅ : gmap Z Needle) (k := 0%nat) (used := 8) (c := c0)
    as (r & c' & Hloop & Hot & Hres); try done.
  { intros fs' (_ & _ & Hoth). unfold data_file. rewrite Hh. unfold h_file. simpl. rewrite Hp, Hoth, Hd by done. done. }
  unfold v_version in Hloop. rewrite Hloop. destruct Hres as [[-> (used' & Hinv')]|[[e ->] Hno]].
  - do 2 eexists. split; [reflexivity|]. split; [done|]. left. eexists. split_and!; [done..|].
    destruct Hinv' as (body' & es' & _ & _ & Hf' & Hu & _ & _ & ([Hx _] & Hwf' & Hm' & _) & Hk' & Hag' & Hl' & _).
    exists body', es'. split_and!; [exact Hf'|rewrite Hl'; lia|exact Hx|exact Hwf'|].
    rewrite <- Hm'. by erewrite <- foldl_keep_unexpired.
  - do 2 eexists. split; [reflexivity|]. split; [done|]. right. do 2 eexists. split_and!; [done..|].
    right. rewrite (entries_size_perm _ _ (Hord _)), entries_size_msum, (Permutation_length (Hord _)), length_map_to_list in Hno.
    exact Hno.
Qed.

(** ** [CommitCompact] *)

Lemma incr_revision_wf sb : sb_wf sb -> sb_wf (incr_revision sb).
Proof.
  intros (Hv & Hrp & Hc & Hu & _). refine (conj Hv (conj Hrp (conj Hc (conj Hu _)))).
  apply wrap_range. lia.
Qed.

Lemma CommitCompact_run acc v0 v fs res :
  compacted acc v0 fs -> sb_wf (v_SuperBlock v0) -> v_dir v = v_dir v0 -> v_id v = v_id v0 ->
  r_TempDataFile res = (v_dir v0, v_id v0, Cpd) -> r_TempIndexFile res = (v_dir v0, v_id v0, Cpx) ->
  exists v' fs', CommitCompact res (v, fs) = (Ret tt, (v', fs')) /\
    vol_live acc v' fs' /\ synced v' fs' /\
    v_dir v' = v_dir v /\ v_id v' = v_id v /\ v_collection v' = v_collection v /\
    v_SuperBlock v' = incr_revision (v_SuperBlock v0) /\ v_ReadOnly v' = v_ReadOnly v /\
    v_noWriteOrDelete v' = false /\ fs_limit fs' = fs_limit fs.
Proof.
  intros (body & es & Hd & Hlim & Hx & Hwf & Hag) Hsb Hdir Hid Hr1 Hr2.
  unfold CommitCompact. rewrite Hr1, Hr2. unfold DataFileName, IndexFileName in *.
  cbn [v_dir v_id set_noWriteOrDelete set_dataFile set_nm]. rewrite Hdir, Hid.
  set (sb := incr_revision (v_SuperBlock v0)) in *. set (d := sb_Bytes sb ++ body) in *.
  unfold fs_Rename at 1. rewrite Hd. unfold fs_Rename. cbn [fs_files fs_limit fs_space].
  rewrite lookup_insert_ne, lookup_delete_ne, Hx by done.
  set (files := <[_ := encode_entries es]> _).
  assert (files !! (v_dir v0, v_id v0, Dat) = Some d) as Hfd.
  { unfold files. rewrite lookup_insert_ne, lookup_delete_ne by done. apply lookup_insert_eq. }
  assert (files !! (v_dir v0, v_id v0, Idx) = Some (encode_entries es)) as Hfx by apply lookup_insert_eq.
  unfold fs_Open at 1. cbn [fs_files]. rewrite Hfd.
  erewrite ReadSuperBlock_run; [|apply incr_revision_wf, Hsb|done|unfold h_file; simpl; by rewrite Hfd].
  cbn [f_pos h_path h_append v_dir v_id set_SuperBlock set_dataFile].
  pose proof (LoadNeedleMap_run (v_dir v0, v_id v0, Idx) es [] (mkFs files (fs_limit fs) (fs_space fs))) as Hload.
  rewrite app_nil_r in Hload. specialize (Hload Hfx Hwf ltac:(done)). unfold LoadNeedleMap in Hload.
  cbn [v_dir v_id set_noWriteOrDelete set_dataFile set_nm]. rewrite Hdir, Hid.
  destruct ((Load _;; OpenIndexFile _) (NewMemDb, mkFs files (fs_limit fs) (fs_space fs))) as [[[]|e|] [db' fs']]; try done.
  injection Hload as -> ->. eexists _, _. split; [reflexivity|]. split; [|split; [|done]].
  - eexists _, body, (loaded (v_dir v0, v_id v0, Idx) es). unfold DataFileName, IndexFileName, v_version.
    cbn [v_dir v_id v_SuperBlock v_nm v_dataFile set_nm set_SuperBlock set_dataFile set_noWriteOrDelete
         fs_files fs_limit h_path]. rewrite Hdir, Hid. fold sb d.
    split_and!; try done; [by apply incr_revision_wf|by eexists|].
    unfold loaded. cbn [db_m set_file]. by rewrite db_m_load_entries.
  - exists es, (loaded (v_dir v0, v_id v0, Idx) es). split; [done|]. unfold IndexFileName.
    cbn [v_dir v_id set_nm set_SuperBlock set_dataFile set_noWriteOrDelete]. rewrite Hdir, Hid. by apply loaded_in_sync.
Qed.

Lemma CompactVolume_cases spec v fs order now thr :
  vol_live spec v fs -> map_order order -> fs_limit fs <= 8 * 2 ^ 32 ->
  exists r v' fs', CompactVolume order now thr (v, fs) = (r, (v', fs')) /\
    v_ReadOnly v' = v_ReadOnly v /\ (v_noWriteOrDelete v = false -> v_noWriteOrDelete v' = false) /\
    v_version v' = v_version v /\ fs_limit fs' = fs_limit fs /\
    ((exists res, r = Ret res /\ vol_live (unexpired now spec) v' fs' /\ synced v' fs') \/
     (exists e, r = Fail e /\ vol_live spec v' fs' /\ (synced v fs -> synced v' fs') /\
        exists db, v_nm v = Some db /\ (NeedCompact thr v = Some false \/ ~ compaction_fits v db fs))).
Proof.
  intros Hrep Hord Hl1. pose proof Hrep as (h & body & db & _ & _ & _ & Hsb & _).
  destruct (Compact_cases spec v fs order now thr Hrep Hord Hl1)
    as (r & fs1 & Hc & Hot & [(res & -> & Hr1 & Hr2 & Hcomp)|(e & db' & -> & Hdb & Hwhy)]).
  - destruct (CommitCompact_run _ v v fs1 res Hcomp Hsb eq_refl eq_refl Hr1 Hr2)
      as (v' & fs' & Hcc & Hrep' & Hsy & _ & _ & _ & Esb & Ero & Efr & El).
    exists (Ret res), v', fs'. unfold CompactVolume. erewrite bind_run by exact Hc.
    erewrite bind_run by exact Hcc. split_and!; try done.
    + unfold v_version. by rewrite Esb.
    + rewrite El. apply Hot.
    + left. eauto 6.
  - exists (Fail e), v, fs1. unfold CompactVolume. erewrite bind_fail by exact Hc. destruct Hot as (El & _ & Ho).
    split_and!; try done. right. exists e. split_and!; [done| | |eauto].
    + by eapply vol_live_frame; [done..|apply Ho].
    + intros Hsy. eapply synced_frame; [done|by apply Ho].
Qed.
