(* ===== verification/VolumeHistory.v ===== *)
(** * VolumeHistory: what a volume promises over any history of calls

    The refinement of the volume to a map of needles over sequences of writes,
    deletes, restarts and compactions ([VolumeSpec], [VolumeCompact]), and what the
    two-step compaction does not promise. *)

From Stdlib Require Import QArith.QArith_base.
From S2P Require Import Prelude Bytes Types OsFile Needle NeedleCodec SuperBlock Fs NeedleMap Volume.
From S2P Require Import VolumeSpec VolumeCompact.

#[local] Open Scope Z_scope.

(** ** Any history of calls *)

Inductive vol_op :=
| VWrite (n : Needle)
| VDelete (id : Z)
| VReopen
| VCompact (order : gmap Z needleValue -> list entry) (now : Z) (threshold : Q).

(** Runs one call; [VReopen] closes the volume and opens it again, as a restart
    does. *)
Definition exec_op (op : vol_op) (s : Volume * fsys) : outcome vol_err unit * (Volume * fsys) :=
  match op with
  | VWrite n =>
      let '(r, (_, s')) := WriteNeedle (n, s) in
      (match r with Ret _ => Ret tt | Fail e => Fail e | Panic => Panic end, s')
  | VDelete id => DeleteNeedle id s
  | VReopen =>
      let '(_, (v, fs)) := v_Close s in
      match NewVolume (v_dir v) (v_collection v) (v_id v) CurrentNeedleVersion fs with
      | (Ret v', fs') => (Ret tt, (v', fs'))
      | (Fail e, fs') => (Fail e, (v, fs'))
      | (Panic, fs') => (Panic, (v, fs'))
      end
  | VCompact order now threshold =>
      let '(r, s') := CompactVolume order now threshold s in
      (match r with Ret _ => Ret tt | Fail e => Fail e | Panic => Panic end, s')
  end.

(** The abstract state: the map of needles, and whether the index file has every change
    of it.  The map changes with the calls that take effect and with nothing else: the
    acknowledged ones, and those of which only the append to the index file failed, after
    which the file is behind.  A compaction drops the needles whose TTL has passed and
    writes the index anew.  A restart reads the index file: the map is the same when the
    file has every change, and not known ([None]) when it is behind. *)
Definition spec_op (ver : Z) (op : vol_op) (r : outcome vol_err unit) (st : gmap Z Needle * bool)
  : option (gmap Z Needle * bool) :=
  let '(spec, sync) := st in
  match op with
  | VWrite n => Some (if takes_effect r then <[n_Id n := needle_written n ver]> spec else spec, sync && negb (index_failed r))
  | VDelete id => Some (if takes_effect r then delete id spec else spec, sync && negb (index_failed r))
  | VReopen => if sync then Some (spec, true) else None
  | VCompact _ now _ => Some (match r with Ret _ => (unexpired now spec, true) | _ => (spec, sync) end)
  end.

Fixpoint exec_ops (ver : Z) (ops : list vol_op) (st : option (gmap Z Needle * bool)) (s : Volume * fsys)
  : list (outcome vol_err unit) * option (gmap Z Needle * bool) * (Volume * fsys) :=
  match ops with
  | [] => ([], st, s)
  | op :: ops =>
      let '(r, s') := exec_op op s in
      let '(rs, st', s'') := exec_ops ver ops (st ≫= spec_op ver op r) s' in
      (r :: rs, st', s'')
  end.

Definition vol_op_wf (ver : Z) (op : vol_op) : Prop :=
  match op with
  | VWrite n => needle_wf n /\ needle_canonical n ver
  | VDelete id => in_u 64 id
  | VReopen => True
  | VCompact order _ _ => map_order order
  end.

(** The abstract state is represented, and the volume accepts writes. *)
Definition vol_inv (ver : Z) (st : gmap Z Needle * bool) (s : Volume * fsys) : Prop :=
  vol_live (fst st) (fst s) (snd s) /\ (snd st = true -> synced (fst s) (snd s)) /\
  v_ReadOnly (fst s) = false /\ v_noWriteOrDelete (fst s) = false /\ v_version (fst s) = ver /\
  fs_limit (snd s) <= 8 * 2 ^ 32.

Lemma exec_op_inv ver st s op st' :
  vol_inv ver st s -> vol_op_wf ver op -> spec_op ver op (fst (exec_op op s)) st = Some st' ->
  vol_inv ver st' (snd (exec_op op s)) /\ fst (exec_op op s) <> Panic.
Proof.
  destruct s as [v fs], st as [spec sync]. intros (Hrep & Hsy & Hro & Hfr & Hver & Hlim) Hwf. cbn [fst snd] in *.
  assert (forall v' fs', same_frame v v' fs fs' -> v_ReadOnly v' = false /\ v_noWriteOrDelete v' = false /\
    v_version v' = ver /\ fs_limit fs' <= 8 * 2 ^ 32) as Hframe.
  { intros v' fs' (_ & _ & _ & Esb & Ero & Efr & El & _). unfold v_version in *. rewrite Esb, Ero, Efr, El. by split_and!. }
  destruct op as [n|id| |order now threshold]; cbn [exec_op vol_op_wf spec_op] in *.
  - destruct Hwf as [Hwf Hcan].
    destruct (WriteNeedle_rep spec v fs Hrep Hro Hfr Hlim n Hwf) as (r & n' & v' & fs' & -> & Hf & Hp & _ & Hrep' & Hsy').
    rewrite Hver, needle_read_written in Hrep' by done. cbn [fst snd]. intros [= <-]. split; [|by destruct r].
    split; [by destruct r|]. split; [|by apply Hframe]. cbn [fst snd].
    intros [-> E]%andb_true_iff. apply Hsy'; [|by apply Hsy]. destruct r; try done. by apply negb_true_iff in E.
  - destruct (DeleteNeedle_rep spec v fs Hrep Hro Hfr Hlim id Hwf) as (r & v' & fs' & -> & Hf & Hp & _ & Hrep' & Hsy').
    cbn [fst snd]. intros [= <-]. split; [|done]. split; [done|]. split; [|by apply Hframe]. cbn [fst snd].
    intros [-> E%negb_true_iff]%andb_true_iff. by apply Hsy'; [|by apply Hsy].
  - destruct sync; [|done]. intros [= <-]. simpl.
    destruct (NewVolume_reopen spec v fs (v_collection v) CurrentNeedleVersion Hrep (Hsy eq_refl))
      as (v' & -> & Hrep' & Hsy' & _ & _ & _ & Esb & Ero & Efr). split; [|done]. unfold vol_inv, v_version in *. cbn [fst snd].
    rewrite Esb. by split_and!.
  - destruct (CompactVolume_cases spec v fs order now threshold Hrep Hwf Hlim)
      as (r & v' & fs' & -> & Ero & Efr & Ever & El & [(res & -> & Hrep' & Hsy')|(e & -> & Hrep' & Hsy' & _)]);
      specialize (Efr Hfr); cbn [fst snd]; intros [= <-]; (split; [|done]); unfold vol_inv; cbn [fst snd];
      rewrite Ero, Efr, Ever, El; split_and!; auto.
Qed.

Lemma exec_ops_None ver ops : forall s, snd (fst (exec_ops ver ops None s)) = None.
Proof.
  induction ops as [|op ops IH]; intros s; [done|]. cbn [exec_ops]. destruct (exec_op op s) as [r s'].
  specialize (IH s'). cbn [mbind option_bind]. by destruct (exec_ops ver ops None s') as [[rs st'] s''].
Qed.

Lemma exec_ops_inv ver ops : forall st s,
  vol_inv ver st s -> Forall (vol_op_wf ver) ops ->
  let '(rs, st', s') := exec_ops ver ops (Some st) s in
  forall st2, st' = Some st2 -> vol_inv ver st2 s' /\ Forall (fun r => r <> Panic) rs.
Proof.
  induction ops as [|op ops IH]; intros st s Hinv Hwf; cbn [exec_ops]; [by intros ? [= <-]|].
  apply Forall_cons in Hwf as [Hop Hops]. pose proof (exec_op_inv ver st s op) as H.
  destruct (exec_op op s) as [r s1]. cbn [fst snd mbind option_bind] in *.
  destruct (spec_op ver op r st) as [st1|].
  - destruct (H st1 Hinv Hop eq_refl) as [Hinv' Hp]. specialize (IH st1 s1 Hinv' Hops).
    destruct (exec_ops ver ops (Some st1) s1) as [[rs st'] s']. intros st2 E. destruct (IH st2 E). auto.
  - pose proof (exec_ops_None ver ops s1) as Hn. destruct (exec_ops ver ops None s1) as [[rs st'] s'].
    simpl in Hn. by subst.
Qed.

(** A new volume after a history of calls. *)
Lemma history_inv dir c id fs ops :
  let ver := CurrentNeedleVersion in
  fs_files fs !! (dir, id, Dat) = None -> fs_files fs !! (dir, id, Idx) = None ->
  8 <= fs_room (dir, id, Dat) fs -> fs_limit fs <= 8 * 2 ^ 32 -> Forall (vol_op_wf ver) ops ->
  exists v fs', NewVolume dir c id ver fs = (Ret v, fs') /\
    let '(rs, st, s) := exec_ops ver ops (Some (∅, true)) (v, fs') in
    forall st2, st = Some st2 -> vol_inv ver st2 s /\ Forall (fun r => r <> Panic) rs.
Proof.
  intros ver Hd Hi Hroom Hlim Hwf.
  destruct (NewVolume_fresh dir c id ver fs Hd Hi Hroom ltac:(by vm_compute))
    as (v & fs' & Hnew & Hrep & Hsy & _ & _ & _ & Hver & Hro & Hfr & Hl).
  exists v, fs'. split; [done|]. apply exec_ops_inv; [|done]. unfold vol_inv. cbn [fst snd]. rewrite Hl. by split_and!.
Qed.


(** *** A sample history *)

Definition sample_ops : list vol_op :=
  [VWrite sample_needle; VReopen; VWrite (set_Id 43 sample_needle); VDelete 43; VDelete 44;
   VCompact map_to_list 1000 0%Q; VWrite sample_needle].

Lemma sample_canonical id : needle_canonical (set_Id id sample_needle) CurrentNeedleVersion.
Proof. repeat split; intros H; first [by vm_compute in H | exfalso; apply H; by vm_compute]. Qed.

Lemma sample_wf id : in_u 64 id -> needle_wf (set_Id id sample_needle).
Proof.
  intros Hid. split; try exact Hid; try (intros _; split); try (apply (bool_decide_unpack _); by vm_compute).
Qed.

Lemma sample_ops_wf : Forall (vol_op_wf CurrentNeedleVersion) sample_ops.
Proof.
  assert (in_u 64 42 /\ in_u 64 43 /\ in_u 64 44) as (H42 & H43 & H44) by by vm_compute.
  assert (map_order map_to_list) as Hmo by by intros m.
  repeat apply Forall_cons_2; try apply Forall_nil_2; try exact I; try exact Hmo;
    try (split; [first [exact (sample_wf 42 H42) | exact (sample_wf 43 H43)]|
                 first [exact (sample_canonical 42) | exact (sample_canonical 43)]]).
  - exact H43.
  - exact H44.
Qed.


(** ** Compaction after a history *)

(** C6: after any history, a compaction whose threshold is reached and whose live
    records and index entries fit the device beside the volume succeeds, whatever order the
    index is iterated in, and afterwards every needle reads as before, except those whose
    TTL has passed, which are gone. *)
Theorem CompactVolume_keeps (dir c : string) (id : Z) (fs : fsys) (ops : list vol_op)
    (order : gmap Z needleValue -> list entry) (now : Z) (thr : Q) :
  let ver := CurrentNeedleVersion in
  fs_files fs !! (dir, id, Dat) = None -> fs_files fs !! (dir, id, Idx) = None ->
  8 <= fs_room (dir, id, Dat) fs -> fs_limit fs <= 8 * 2 ^ 32 -> Forall (vol_op_wf ver) ops ->
  map_order order ->
  match NewVolume dir c id ver fs with
  | (Ret v, fs') =>
      match exec_ops ver ops (Some (∅, true)) (v, fs') with
      | (_, Some (spec, _), s) =>
          NeedCompact thr (fst s) = Some true ->
          (forall db, v_nm (fst s) = Some db -> compaction_fits (fst s) db (snd s)) ->
          match CompactVolume order now thr s with
          | (Ret _, s') =>
              forall nid,
                match spec !! nid with
                | Some n =>
                    if expired now n then exists e, GetNeedle nid s' = Fail (ErrLookup e)
                    else GetNeedle nid s' = GetNeedle nid s
                | None => exists e, GetNeedle nid s' = Fail (ErrLookup e)
                end
          | _ => False
          end
      | (_, None, _) => True
      end
  | _ => False
  end.
Proof.
  intros ver. subst ver. intros Hd Hi Hroom Hlim Hwf Hord.
  destruct (history_inv dir c id fs ops Hd Hi Hroom Hlim Hwf) as (v & fs' & -> & H).
  destruct (exec_ops _ ops _ (v, fs')) as [[rs [[spec sync]|]] [v2 fs2]]; [|done]. cbn [fst snd] in *.
  destruct (H _ eq_refl) as ((Hrep & _ & _ & _ & _ & Hl) & _). cbn [fst snd] in *. intros Hneed Hfit.
  destruct (CompactVolume_cases spec v2 fs2 order now thr Hrep Hord Hl)
    as (r & v' & fs'' & -> & _ & _ & _ & _ & [(res & -> & Hrep' & _)|(e & -> & _ & _ & db & Hdb & [?|Hno])]).
  - intros nid. pose proof (GetNeedle_rep _ _ _ nid Hrep') as Hafter.
    pose proof (GetNeedle_rep _ _ _ nid Hrep) as Hbefore.
    rewrite <- kept_unexpired in Hafter. unfold kept in Hafter.
    destruct (spec !! nid) as [n|]; simpl in Hafter; [|done].
    destruct (expired now n); [done|]. by rewrite Hafter, Hbefore.
  - congruence.
  - by destruct (Hno (Hfit db Hdb)).
Qed.

Lemma CompactVolume_keeps_witness :
  match NewVolume "d"%string ""%string 7 CurrentNeedleVersion (mkFs ∅ 1024 2048) with
  | (Ret v, fs') =>
      match exec_ops CurrentNeedleVersion sample_ops (Some (∅, true)) (v, fs') with
      | (_, Some _, s) =>
          match CompactVolume map_to_list 1000 0%Q s with
          | (Ret _, s') => GetNeedle 42 s' = GetNeedle 42 s
          | _ => False
          end
      | _ => False
      end
  | _ => False
  end.
Proof.
  assert (8 <= fs_room ("d"%string, 7, Dat) (mkFs ∅ 1024 2048) /\ 1024 <= 8 * 2 ^ 32) as [Hr Hl] by by vm_compute.
  assert (map_order map_to_list) as Hmo by by intros m.
  assert (match NewVolume "d"%string ""%string 7 CurrentNeedleVersion (mkFs ∅ 1024 2048) with
    | (Ret v, fs') =>
        match exec_ops CurrentNeedleVersion sample_ops (Some (∅, true)) (v, fs') with
        | (_, Some (spec, _), s) =>
            NeedCompact 0%Q (fst s) = Some true /\
            match v_nm (fst s) with Some db => compaction_fits (fst s) db (snd s) | None => True end /\
            match spec !! 42 with Some n => expired 1000 n = false | None => False end
        | _ => False
        end
    | _ => False end) as Hs by (vm_compute; split; [reflexivity|split; [by split_and!|reflexivity]]).
  pose proof (CompactVolume_keeps "d"%string ""%string 7 (mkFs ∅ 1024 2048) sample_ops map_to_list 1000 0%Q
    (lookup_empty _) (lookup_empty _) Hr Hl sample_ops_wf Hmo) as H.
  destruct (NewVolume _ _ _ _ _) as [[v| |] fs']; [|exact Hs..].
  destruct (exec_ops _ _ _ _) as [[rs [[spec sync]|]] s]; [|exact Hs]. destruct Hs as (Hn & Hfit & Hexp).
  assert (forall db, v_nm s.1 = Some db -> compaction_fits s.1 db s.2) as Hfit'.
  { intros db Hdb. rewrite Hdb in Hfit. exact Hfit. }
  specialize (H Hn Hfit'). destruct (CompactVolume _ _ _ s) as [[r| |] s']; [|exact H..].
  specialize (H 42). destruct (spec !! 42) as [n|]; [|destruct Hexp]. rewrite Hexp in H. exact H.
Defined.

(** A write that succeeds between the two halves of a compaction is lost: after
    [CommitCompact] the volume holds exactly what it held when [Compact] ran (less
    the expired needles), whatever was written in between. *)
Theorem write_during_compaction_lost (dir c : string) (id : Z) (fs : fsys) (ops : list vol_op)
    (order : gmap Z needleValue -> list entry) (now : Z) (thr : Q) (n : Needle) :
  let ver := CurrentNeedleVersion in
  fs_files fs !! (dir, id, Dat) = None -> fs_files fs !! (dir, id, Idx) = None ->
  8 <= fs_room (dir, id, Dat) fs -> fs_limit fs <= 8 * 2 ^ 32 -> Forall (vol_op_wf ver) ops ->
  map_order order -> needle_wf n ->
  match NewVolume dir c id ver fs with
  | (Ret v, fs') =>
      match exec_ops ver ops (Some (∅, true)) (v, fs') with
      | (_, Some (spec, _), s) =>
          match Compact order now thr s with
          | (Ret res, s1) =>
              let '(_, (_, s2)) := WriteNeedle (n, s1) in
              match CommitCompact res s2 with
              | (Ret _, s3) =>
                  forall nid,
                    match unexpired now spec !! nid with
                    | Some m => GetNeedle nid s3 = Ret m
                    | None => exists e, GetNeedle nid s3 = Fail (ErrLookup e)
                    end
              | _ => False
              end
          | (Fail _, _) => True
          | (Panic, _) => False
          end
      | (_, None, _) => True
      end
  | _ => False
  end.
Proof.
  intros ver. subst ver. intros Hd Hi Hroom Hlim Hwf Hord Hn.
  destruct (history_inv dir c id fs ops Hd Hi Hroom Hlim Hwf) as (v & fs' & -> & H).
  destruct (exec_ops _ ops _ (v, fs')) as [[rs [[spec sync]|]] [v2 fs2]]; [|done]. cbn [fst snd] in *.
  destruct (H _ eq_refl) as ((Hrep & _ & Hro & Hfr & _ & Hl) & _). cbn [fst snd] in *.
  destruct (Compact_cases spec v2 fs2 order now thr Hrep Hord Hl)
    as (r & fs3 & -> & Hot & [(res & -> & Hr1 & Hr2 & body & es1 & Hcpd & Hcl & Hcpx & Hcw & Hcag)
                             |(e & db & -> & _)]); [|done].
  destruct Hot as (El3 & _ & Hoth).
  pose proof (vol_live_frame _ _ _ fs3 Hrep El3 ltac:(by apply Hoth)) as Hrep3.
  destruct (WriteNeedle_rep spec v2 fs3 Hrep3 Hro Hfr ltac:(lia) n Hn)
    as (r & n' & v4 & fs4 & -> & (Edir & Eid & _ & _ & _ & _ & El4 & Hoth4) & _).
  pose proof Hrep as (h & body0 & db0 & _ & _ & _ & Hsb & _).
  destruct (CommitCompact_run (unexpired now spec) v2 v4 fs4 res)
    as (v5 & fs5 & -> & Hrep5 & _); try done.
  - exists body, es1. by rewrite !Hoth4, El4 by done.
  - intros nid. by eapply GetNeedle_rep.
Qed.

Lemma write_during_compaction_lost_witness :
  match NewVolume "d"%string ""%string 7 CurrentNeedleVersion (mkFs ∅ 1024 2048) with
  | (Ret v, fs') =>
      match exec_ops CurrentNeedleVersion sample_ops (Some (∅, true)) (v, fs') with
      | (_, Some _, s) =>
          match Compact map_to_list 1000 0%Q s with
          | (Ret res, s1) =>
              let '(r, (_, s2)) := WriteNeedle (set_Id 99 sample_needle, s1) in
              match CommitCompact res s2 with
              | (Ret _, s3) =>
                  (exists o, r = Ret o) /\ is_Some (match GetNeedle 99 s2 with Ret n => Some n | _ => None end) /\
                  exists e, GetNeedle 99 s3 = Fail (ErrLookup e)
              | _ => False
              end
          | _ => False
          end
      | _ => False
      end
  | _ => False
  end.
Proof.
  assert (8 <= fs_room ("d"%string, 7, Dat) (mkFs ∅ 1024 2048) /\ 1024 <= 8 * 2 ^ 32) as [Hr Hl] by by vm_compute.
  assert (in_u 64 99) as H99 by by vm_compute. assert (map_order map_to_list) as Hmo by by intros m.
  assert (match NewVolume "d"%string ""%string 7 CurrentNeedleVersion (mkFs ∅ 1024 2048) with
    | (Ret v, fs') =>
        match exec_ops CurrentNeedleVersion sample_ops (Some (∅, true)) (v, fs') with
        | (_, Some (spec, _), s) =>
            match Compact map_to_list 1000 0%Q s with
            | (Ret res, s1) =>
                let '(r, (_, s2)) := WriteNeedle (set_Id 99 sample_needle, s1) in
                match GetNeedle 99 s2 with Ret _ => True | _ => False end /\
                match r with Ret _ => True | _ => False end /\ unexpired 1000 spec !! 99 = None
            | _ => False
            end
        | _ => False
        end
    | _ => False end) as Hs by (vm_compute; split; [exact I|split; [exact I|reflexivity]]).
  pose proof (write_during_compaction_lost "d"%string ""%string 7 (mkFs ∅ 1024 2048) sample_ops map_to_list 1000 0%Q
    (set_Id 99 sample_needle) (lookup_empty _) (lookup_empty _) Hr Hl sample_ops_wf Hmo (sample_wf 99 H99)) as H.
  destruct (NewVolume _ _ _ _ _) as [[v| |] fs']; [|exact Hs..].
  destruct (exec_ops _ _ _ _) as [[rs [[spec sync]|]] s]; [|exact Hs].
  destruct (Compact _ _ _ s) as [[res| |] s1]; [|exact Hs..].
  destruct (WriteNeedle _) as [r0 [n' s2]]. destruct Hs as (Hg & Hr0 & Hnone).
  destruct (CommitCompact res s2) as [[u| |] s3]; [|exact H..]. split; [|split].
  - destruct r0 as [o| |]; [exists o; reflexivity|destruct Hr0..].
  - destruct (GetNeedle 99 s2) as [m| |]; [exists m; reflexivity|destruct Hg..].
  - specialize (H 99). rewrite Hnone in H. exact H.
Defined.

(** A volume after a failed commit: no data file under its name, no index, and every
    read of it panics. *)
Definition volume_lost (s : Volume * fsys) : Prop :=
  fs_files (snd s) !! DataFileName (fst s) = None /\ v_nm (fst s) = None /\ v_dataFile (fst s) = None /\
  forall nid, GetNeedle nid s = Panic.

(** When the second rename of [CommitCompact] fails, its recovery moves the new
    data file away after it has replaced the old one: the volume is left without a
    data file, and with no index in memory. *)
Theorem CommitCompact_recovery_loses_data (v : Volume) (fs : fsys) (res : CompactionResult) (d : bytes) :
  r_TempDataFile res = (v_dir v, v_id v, Cpd) -> r_TempIndexFile res = (v_dir v, v_id v, Cpx) ->
  fs_files fs !! (v_dir v, v_id v, Cpd) = Some d -> fs_files fs !! (v_dir v, v_id v, Cpx) = None ->
  exists e s', CommitCompact res (v, fs) = (Fail e, s') /\ volume_lost s'.
Proof.
  intros Hr1 Hr2 Hd Hx. unfold CommitCompact. rewrite Hr1, Hr2. unfold DataFileName, IndexFileName.
  cbn [v_dir v_id set_noWriteOrDelete set_dataFile set_nm]. unfold fs_Rename. rewrite Hd. cbn [fs_files fs_limit].
  rewrite lookup_insert_ne, lookup_delete_ne, Hx by done. cbn [fs_files]. rewrite lookup_insert_eq.
  do 2 eexists. split; [reflexivity|]. unfold volume_lost, DataFileName. cbn [fst snd fs_files v_dir v_id]. split; [|done].
  rewrite lookup_insert_ne by done. apply lookup_delete_eq.
Qed.

Lemma CommitCompact_recovery_loses_data_witness :
  let v := mkVolume 7 "d"%string ""%string None None (mkSuperBlock 3 (mkReplicaPlacement 0 0 0) TTL_zero 0) false false in
  let res := mkResult 0 0 0 0 0 0 ("d"%string, 7, Cpd) ("d"%string, 7, Cpx) in
  let fs := mkFs {[ ("d"%string, 7, Dat) := [1]; ("d"%string, 7, Cpd) := [2] ]} 100 100 in
  volume_lost (snd (CommitCompact res (v, fs))).
Proof.
  intros v res fs.
  destruct (CommitCompact_recovery_loses_data v fs res [2]) as (e & s' & -> & Hd);
    [reflexivity..|exact Hd].
Defined.
