(* ===== verification/VolumeLocks.v ===== *)
(** * VolumeLocks: the two reader-writer locks of a volume

    The order in which the methods of [goblob/storage/volume/volume.go],
    [needle_map.go] and [compact.go] take [Volume.dataFileAccessLock] and
    [MemDb.mu].  A method is the list of its lock operations; threads interleave
    them.  Go lets a waiting writer hold up new readers: [strict] availability is a
    reader that yields to every waiting writer, plain availability one that yields
    to none; the runtime is in between. *)

From S2P Require Import Prelude.

Inductive rwlock := dataFileAccessLock | mu.
Inductive mode := Read | Write.
Inductive action := Acquire (l : rwlock) (m : mode) | Release (l : rwlock).

#[export] Instance rwlock_eq_dec : EqDecision rwlock.
Proof. intros [] []; first [by left | by right]. Defined.
#[export] Instance mode_eq_dec : EqDecision mode.
Proof. intros [] []; first [by left | by right]. Defined.

(** ** The methods *)

Definition with_lock (l : rwlock) (m : mode) (body : list action) : list action :=
  [Acquire l m] ++ body ++ [Release l].

(** [Put], [Delete] and [Close] of [*MemDb]; [Get] and the statistics. *)
Definition nm_update : list action := with_lock mu Write [].
Definition nm_read : list action := with_lock mu Read [].

Definition WriteNeedle_locks : list action := with_lock dataFileAccessLock Write nm_update.
Definition GetNeedle_locks : list action := with_lock dataFileAccessLock Read nm_read.
Definition DeleteNeedle_locks : list action := with_lock dataFileAccessLock Write (nm_read ++ nm_update).
Definition GarbageLevel_locks : list action := nm_read ++ nm_read ++ nm_read.
Definition UsedSize_locks : list action := with_lock dataFileAccessLock Read [].
Definition CommitCompact_locks : list action := with_lock dataFileAccessLock Write nm_update.

(** The iteration of [Compact] over [k] live entries: the callback takes
    [dataFileAccessLock] for each while [Iterate] holds [mu]. *)
Definition Iterate_locks (k : nat) : list action :=
  with_lock mu Read (concat (replicate k (with_lock dataFileAccessLock Read []))).
Definition Compact_locks (k : nat) : list action :=
  GarbageLevel_locks ++ UsedSize_locks ++ with_lock dataFileAccessLock Read [] ++ Iterate_locks k.

(** ** Threads *)

Record thread := mkThread { t_held : list (rwlock * mode); t_todo : list action }.

Definition start (script : list action) : thread := mkThread [] script.

Definition holds_lock (l : rwlock) (t : thread) : bool :=
  existsb (fun h => bool_decide (h.1 = l)) (t_held t).
Definition holds_write (l : rwlock) (t : thread) : bool :=
  existsb (fun h => bool_decide (h = (l, Write))) (t_held t).
Definition waits_write (l : rwlock) (t : thread) : bool :=
  match t_todo t with Acquire l' Write :: _ => bool_decide (l' = l) | _ => false end.

(** Can the next operation of a thread proceed? *)
Definition available (strict : bool) (ts : list thread) (a : action) : bool :=
  match a with
  | Release _ => true
  | Acquire l Write => forallb (fun t => negb (holds_lock l t)) ts
  | Acquire l Read =>
      forallb (fun t => negb (holds_write l t)) ts &&
      (negb strict || forallb (fun t => negb (waits_write l t)) ts)
  end.

Definition drop_lock (l : rwlock) (held : list (rwlock * mode)) : list (rwlock * mode) :=
  List.filter (fun h => negb (bool_decide (h.1 = l))) held.

Definition advance (t : thread) : thread :=
  match t_todo t with
  | [] => t
  | Acquire l m :: rest => mkThread ((l, m) :: t_held t) rest
  | Release l :: rest => mkThread (drop_lock l (t_held t)) rest
  end.

Definition enabled (strict : bool) (ts : list thread) (t : thread) : bool :=
  match t_todo t with [] => false | a :: _ => available strict ts a end.

Inductive lstep (strict : bool) : list thread -> list thread -> Prop :=
| lstep_thread ts i t :
    ts !! i = Some t -> enabled strict ts t = true -> lstep strict ts (<[i := advance t]> ts).

Lemma lstep_at strict pre t post :
  enabled strict (pre ++ t :: post) t = true -> lstep strict (pre ++ t :: post) (pre ++ advance t :: post).
Proof.
  intros He.
  pose proof (lstep_thread strict (pre ++ t :: post) (length pre) t) as H.
  rewrite list_lookup_middle in H by done. specialize (H eq_refl He).
  rewrite insert_app_r_alt, Nat.sub_diag in H by done. exact H.
Qed.

Definition finished (t : thread) : bool := bool_decide (t_todo t = []).

(** No thread can proceed, and some are not done. *)
Definition deadlocked (strict : bool) (ts : list thread) : Prop :=
  forallb finished ts = false /\ forallb (fun t => negb (enabled strict ts t)) ts = true.

(** ** The lock order

    A script respects the order when it takes [dataFileAccessLock] only with
    nothing held, [mu] only with [mu] not held, and gives everything back. *)
Fixpoint ordered (held : list (rwlock * mode)) (todo : list action) : bool :=
  match todo with
  | [] => bool_decide (held = [])
  | Acquire dataFileAccessLock m :: rest =>
      bool_decide (held = []) && ordered [(dataFileAccessLock, m)] rest
  | Acquire mu m :: rest =>
      negb (existsb (fun h => bool_decide (h.1 = mu)) held) && ordered ((mu, m) :: held) rest
  | Release l :: rest => ordered (drop_lock l held) rest
  end.

Definition t_ordered (t : thread) : Prop := ordered (t_held t) (t_todo t) = true.

Lemma ordered_advance t : t_ordered t -> t_ordered (advance t).
Proof.
  unfold t_ordered, advance. destruct t as [held [|[[] m|l] rest]]; simpl; try done.
  - intros [Hh H]%andb_prop. by apply bool_decide_eq_true_1 in Hh as ->.
  - by intros [_ H]%andb_prop.
Qed.

Lemma lstep_ordered strict ts ts' : Forall t_ordered ts -> lstep strict ts ts' -> Forall t_ordered ts'.
Proof.
  intros Hts Hs. inversion Hs as [ts0 i t Hi _]; subst. apply Forall_insert; [done|].
  apply ordered_advance. by eapply Forall_lookup_1.
Qed.

Lemma reach_ordered strict ts ts' : Forall t_ordered ts -> rtc (lstep strict) ts ts' -> Forall t_ordered ts'.
Proof. intros Hts. induction 1; eauto using lstep_ordered. Qed.

(** A thread that holds [mu] is about to release a lock. *)
Lemma holder_releases t :
  t_ordered t -> holds_lock mu t = true -> exists l rest, t_todo t = Release l :: rest.
Proof.
  unfold t_ordered, holds_lock. destruct t as [held [|[[] m|l] rest]]; simpl; eauto; intros Ho Hh.
  - apply bool_decide_eq_true_1 in Ho as ->. done.
  - apply andb_prop in Ho as [Ho _]. apply bool_decide_eq_true_1 in Ho as ->. done.
  - apply andb_prop in Ho as [Ho _]. by rewrite Hh in Ho.
Qed.

(** A thread that holds only [dataFileAccessLock] releases, or takes [mu]. *)
Lemma data_holder_next t :
  t_ordered t -> t_held t <> [] ->
  exists a rest, t_todo t = a :: rest /\ (a = Acquire mu Read \/ a = Acquire mu Write \/ exists l, a = Release l).
Proof.
  unfold t_ordered. destruct t as [held [|[[] m|l] rest]]; simpl; intros Ho Hne.
  - by apply bool_decide_eq_true_1 in Ho.
  - apply andb_prop in Ho as [Ho _]. by apply bool_decide_eq_true_1 in Ho.
  - exists (Acquire mu m), rest. split; [done|]. destruct m; [by left|by right; left].
  - exists (Release l), rest. split; [done|]. right. right. by exists l.
Qed.

Lemma holds_write_lock l t : holds_lock l t = false -> holds_write l t = false.
Proof.
  unfold holds_lock, holds_write. induction (t_held t) as [|h hs IH]; simpl; [done|].
  intros [H1 H2]%orb_false_elim. rewrite IH by done. apply bool_decide_eq_false_1 in H1.
  rewrite bool_decide_eq_false_2; [done|]. by intros ->.
Qed.

Lemma forallb_Forall {A} (f : A -> bool) l : forallb f l = true <-> Forall (fun x => f x = true) l.
Proof. rewrite forallb_forall, list.Forall_forall. by setoid_rewrite list_elem_of_In. Qed.

Lemma forallb_false_elem {A} (f : A -> bool) l : forallb f l = false -> exists x, x ∈ l /\ f x = false.
Proof.
  induction l as [|x l IH]; simpl; [done|]. destruct (f x) eqn:E; simpl.
  - intros (y & Hy & Hf)%IH. exists y. split; [by apply list_elem_of_further|done].
  - exists x. split; [apply list_elem_of_here|done].
Qed.

(** When nobody holds [l] and somebody wants it, somebody gets it. *)
Lemma free_lock_progress l m ts t rest :
  (forall t', t' ∈ ts -> holds_lock l t' = false) -> t ∈ ts -> t_todo t = Acquire l m :: rest ->
  exists t', t' ∈ ts /\ enabled true ts t' = true.
Proof.
  intros Hfree Ht Htodo.
  assert (forallb (fun t => negb (holds_lock l t)) ts = true) as Hw.
  { apply forallb_Forall, list.Forall_forall. intros t' Ht'. by rewrite Hfree. }
  destruct (forallb (fun t => negb (waits_write l t)) ts) eqn:Ewait.
  - exists t. split; [done|]. unfold enabled. rewrite Htodo. destruct m; simpl; [|done].
    rewrite Ewait, andb_true_r. apply forallb_Forall, list.Forall_forall. intros t' Ht'.
    by rewrite holds_write_lock by auto.
  - apply forallb_false_elem in Ewait as (t' & Ht' & Hwait). exists t'. split; [done|].
    unfold enabled, waits_write in *. destruct (t_todo t') as [|[l' []|] ?]; try done.
    apply negb_false_iff, bool_decide_eq_true_1 in Hwait as ->. exact Hw.
Qed.

(** Whatever number of threads read, write and delete needles, commit
    compactions and ask for the statistics of a volume, in every state they can
    reach, until all are done, some thread can proceed, even if every reader yields
    to every waiting writer: these methods cannot deadlock. *)
Theorem volume_methods_no_deadlock (scripts : list (list action)) (ts : list thread) :
  Forall (fun s => s ∈ [WriteNeedle_locks; GetNeedle_locks; DeleteNeedle_locks;
                        GarbageLevel_locks; UsedSize_locks; CommitCompact_locks]) scripts ->
  rtc (lstep false) (start <$> scripts) ts -> ~ deadlocked true ts.
Proof.
  intros Hs Hreach [Hfin Hstuck].
  assert (Forall t_ordered ts) as Hord.
  { eapply reach_ordered; [|done]. apply Forall_fmap. eapply Forall_impl; [done|].
    intros s Hin. unfold compose, t_ordered, start. simpl.
    repeat (apply elem_of_cons in Hin as [->|Hin]; [done|]). by apply not_elem_of_nil in Hin. }
  rewrite list.Forall_forall in Hord. rewrite forallb_Forall, list.Forall_forall in Hstuck.
  assert (~ exists t, t ∈ ts /\ enabled true ts t = true) as Hno.
  { intros (t & Ht & He). specialize (Hstuck t Ht). by rewrite He in Hstuck. }
  assert (forall t, t ∈ ts -> holds_lock mu t = false) as Hmu.
  { intros t Ht. destruct (holds_lock mu t) eqn:E; [|done]. exfalso. apply Hno. exists t. split; [done|].
    destruct (holder_releases t (Hord t Ht) E) as (l & rest & Htodo). unfold enabled. by rewrite Htodo. }
  assert (forall t, t ∈ ts -> t_held t = []) as Hheld.
  { intros t Ht. destruct (decide (t_held t = [])) as [|Hne]; [done|]. exfalso. apply Hno.
    destruct (data_holder_next t (Hord t Ht) Hne) as (a & rest & Htodo & [->|[->|[l ->]]]).
    - by eapply free_lock_progress.
    - by eapply free_lock_progress.
    - exists t. split; [done|]. unfold enabled. by rewrite Htodo. }
  apply forallb_false_elem in Hfin as (t & Ht & Hf). apply bool_decide_eq_false_1 in Hf.
  destruct (t_todo t) as [|[l m|l] rest] eqn:Htodo; [done| |].
  - apply Hno. eapply (free_lock_progress l m ts t rest); [|done..].
    intros t' Ht'. unfold holds_lock. by rewrite Hheld.
  - apply Hno. exists t. split; [done|]. unfold enabled. by rewrite Htodo.
Qed.

Lemma volume_methods_no_deadlock_witness :
  ~ deadlocked true [advance (start WriteNeedle_locks); start GetNeedle_locks].
Proof.
  apply (volume_methods_no_deadlock [WriteNeedle_locks; GetNeedle_locks]).
  - repeat constructor.
  - apply rtc_once. apply (lstep_at false []). reflexivity.
Defined.

(** A compaction and a write can deadlock: the compaction holds [mu] for its
    iteration and asks for [dataFileAccessLock] in the callback, the write holds
    [dataFileAccessLock] and asks for [mu]; whatever the runtime prefers, neither
    can go on, for any number of live entries. *)
Theorem Compact_deadlocks_with_WriteNeedle (k : nat) :
  (0 < k)%nat ->
  exists ts, rtc (lstep false) [start (Compact_locks k); start WriteNeedle_locks] ts /\ deadlocked false ts.
Proof.
  intros Hk. destruct k as [|k]; [lia|].
  set (rest := with_lock dataFileAccessLock Read [] ++ concat (replicate k (with_lock dataFileAccessLock Read [])) ++ [Release mu]).
  exists [mkThread [(mu, Read)] rest; mkThread [(dataFileAccessLock, Write)] [Acquire mu Write; Release mu; Release dataFileAccessLock]].
  split; [|done].
  assert (Compact_locks (S k) = (GarbageLevel_locks ++ UsedSize_locks ++ UsedSize_locks) ++ Acquire mu Read :: rest) as ->.
  { unfold Compact_locks, Iterate_locks, rest, with_lock. simpl. by rewrite <- ?app_assoc. }
  do 11 (eapply rtc_l; [apply (lstep_at false []); reflexivity|]; cbn).
  eapply rtc_l; [apply (lstep_at false [mkThread [(mu, Read)] rest] _ []); reflexivity|]. apply rtc_refl.
Qed.

Lemma Compact_deadlocks_with_WriteNeedle_witness :
  exists ts, rtc (lstep false) [start (Compact_locks 2); start WriteNeedle_locks] ts /\ deadlocked false ts.
Proof. apply (Compact_deadlocks_with_WriteNeedle 2). lia. Defined.
