(* ===== verification/DiskStore.v ===== *)
(** * DiskStore: disk locations and the store of a volume server

    Models [goblob/storage/volume/disk_location.go] and [goblob/storage/store.go].
    A [*Volume] in the map of a location is the current state of that volume; the
    size of the disk and the listing of a directory, which the code asks the
    operating system for, are arguments. *)

From stdpp Require Import sorting.
From S2P Require Import Prelude Bytes GoStrings Types OsFile Needle NeedleCodec SuperBlock Fs NeedleMap Volume.
From S2P Require Import VolumeSpec.

Record DiskLocation := mkDiskLocation {
  dl_directory : string;
  dl_maxVolumeCount : Z;
  dl_volumes : gmap Z Volume;
  dl_usedSize : Z;
  dl_maxSize : Z;
  dl_isReadOnly : bool;
}.

Definition set_volumes (m : gmap Z Volume) (dl : DiskLocation) : DiskLocation :=
  mkDiskLocation (dl_directory dl) (dl_maxVolumeCount dl) m (dl_usedSize dl) (dl_maxSize dl) (dl_isReadOnly dl).
Definition set_usedSize (u : Z) (dl : DiskLocation) : DiskLocation :=
  mkDiskLocation (dl_directory dl) (dl_maxVolumeCount dl) (dl_volumes dl) u (dl_maxSize dl) (dl_isReadOnly dl).
Definition SetReadOnly (b : bool) (dl : DiskLocation) : DiskLocation :=
  mkDiskLocation (dl_directory dl) (dl_maxVolumeCount dl) (dl_volumes dl) (dl_usedSize dl) (dl_maxSize dl) b.

Inductive loc_err :=
| ErrLocReadOnly | ErrLocRemove (e : io_err) | ErrLoadVolume (id : Z) (e : vol_err)
| ErrNoSpace | ErrCreateVolume (e : vol_err) | ErrVolumeNotFound | ErrVolume (e : vol_err).

(** ** Sizes *)

Definition file_size (fs : fsys) (p : path) : Z := zlen (default [] (fs_files fs !! p)).

(** [calculateUsedSizeUnlocked]: the sizes of the [.dat] and [.idx] files of the
    directory, summed in [int64]. *)
Definition calculateUsedSize (fs : fsys) (dl : DiskLocation) : DiskLocation :=
  let total := map_fold (fun (p : path) (b : bytes) (t : Z) =>
    let '(d, _, x) := p in
    if decide (d = dl_directory dl /\ (x = Dat \/ x = Idx)) then i64 (t + zlen b) else t) 0 (fs_files fs) in
  set_usedSize (u64 total) dl.

Definition NewDiskLocation (directory : string) (maxVolumeCount maxSize : Z) (fs : fsys) : DiskLocation :=
  calculateUsedSize fs (mkDiskLocation directory maxVolumeCount ∅ 0 maxSize false).

Definition VolumeCount (dl : DiskLocation) : Z := Z.of_nat (size (dl_volumes dl)).
Definition AvailableVolumeCount (dl : DiskLocation) : Z := dl_maxVolumeCount dl - VolumeCount dl.

Definition minFreeSpace : Z := 1024 * 1024 * 1024.

Definition HasSpace (dl : DiskLocation) : bool :=
  if bool_decide (dl_maxVolumeCount dl > 0) && bool_decide (VolumeCount dl >= dl_maxVolumeCount dl) then false
  else if decide (dl_maxSize dl = 0) then true
  else bool_decide (i64 (i64 (dl_maxSize dl) - i64 (dl_usedSize dl)) >= minFreeSpace).

Definition FreeSpace (dl : DiskLocation) : Z :=
  if decide (dl_maxSize dl = 0) then 100 * 1024 * 1024 * 1024
  else if decide (dl_maxSize dl <= dl_usedSize dl) then 0
  else dl_maxSize dl - dl_usedSize dl.

(** ** Volumes of a location *)

Definition dl_GetVolume (id : Z) (dl : DiskLocation) : option Volume := dl_volumes dl !! id.

Definition AddVolumeObject (v : Volume) (dl : DiskLocation) : DiskLocation :=
  set_volumes (<[v_id v := v]> (dl_volumes dl)) dl.

Definition GetVolumePath (id : Z) (dl : DiskLocation) : path := (dl_directory dl, id, Dat).
Definition GetIndexPath (id : Z) (dl : DiskLocation) : path := (dl_directory dl, id, Idx).
Definition VolumeExists (id : Z) (dl : DiskLocation) (fs : fsys) : bool := fs_exists (GetVolumePath id dl) fs.

(** The name of a [.dat] file to its volume id. *)
Definition volume_id_of_name (name : string) : option Z :=
  let n := chars name in
  let suffix := chars ".dat"%string in
  if decide (suffix `suffix_of` n) then
    ParseUint (take (length n - length suffix) n) 10 32
  else None.

(** [LoadExistingVolumes]; [entries] is the listing of the directory, a name and
    whether it is a directory. *)
Fixpoint LoadExistingVolumes (collection : string) (version : Z) (entries : list (string * bool))
  : GoM (DiskLocation * fsys) loc_err unit :=
  match entries with
  | [] => mret tt
  | (name, isDir) :: rest =>
      if isDir then LoadExistingVolumes collection version rest else
      match volume_id_of_name name with
      | None => LoadExistingVolumes collection version rest
      | Some id => fun '(dl, fs) =>
          match dl_volumes dl !! id with
          | Some _ => LoadExistingVolumes collection version rest (dl, fs)
          | None =>
              match NewVolume (dl_directory dl) collection id version fs with
              | (Ret v, fs') =>
                  LoadExistingVolumes collection version rest (set_volumes (<[id := v]> (dl_volumes dl)) dl, fs')
              | (Fail e, fs') => (Fail (ErrLoadVolume id e), (dl, fs'))
              | (Panic, fs') => (Panic, (dl, fs'))
              end
          end
      end
  end.

(** [os.Remove], where a missing file is not an error. *)
Definition loc_remove (p : path) : GoM (DiskLocation * fsys) loc_err unit := fun '(dl, fs) =>
  match fs_Remove p fs with
  | (Ret _, fs') => (Ret tt, (dl, fs'))
  | (Fail ENOENT, fs') => (Ret tt, (dl, fs'))
  | (Fail e, fs') => (Fail (ErrLocRemove e), (dl, fs'))
  | (Panic, fs') => (Panic, (dl, fs'))
  end.

Definition DeleteVolume (id : Z) : GoM (DiskLocation * fsys) loc_err unit :=
  s ← get;
  fail_if (dl_isReadOnly (fst s)) ErrLocReadOnly;;
  modify (fun '(dl, fs) => (set_volumes (delete id (dl_volumes dl)) dl, fs));;
  loc_remove (GetVolumePath id (fst s));;
  loc_remove (GetIndexPath id (fst s));;
  modify (fun '(dl, fs) => (calculateUsedSize fs dl, fs)).

Definition dl_Close (dl : DiskLocation) : DiskLocation := set_volumes ∅ dl.

(** [GetVolumes] sorts with two nested loops: [pass x l] is the inner loop for the
    element [x] against the later ones, each greater element moving to the place
    of the smaller one. *)
Fixpoint pass (x : Z) (l : list Z) : Z * list Z :=
  match l with
  | [] => (x, [])
  | y :: l =>
      if decide (x > y) then let '(m, l') := pass y l in (m, x :: l')
      else let '(m, l') := pass x l in (m, y :: l')
  end.

Fixpoint exchange_sort (fuel : nat) (l : list Z) : list Z :=
  match fuel, l with
  | S fuel, x :: l => let '(m, l') := pass x l in m :: exchange_sort fuel l'
  | _, _ => []
  end.

(** [order] is the iteration order of the map. *)
Definition GetVolumes (order : gmap Z Volume -> list (Z * Volume)) (dl : DiskLocation) : list Z :=
  let ids := (order (dl_volumes dl)).*1 in exchange_sort (length ids) ids.

(** ** The store *)

Record Store := mkStore {
  s_Locations : list DiskLocation;
  s_fs : fsys;
}.

(** The index of the first location that has the volume. *)
Fixpoint locate (id : Z) (locs : list DiskLocation) : option (nat * Volume) :=
  match locs with
  | [] => None
  | dl :: rest =>
      match dl_GetVolume id dl with
      | Some v => Some (O, v)
      | None => (fun '(i, v) => (S i, v)) <$> locate id rest
      end
  end.

Definition s_GetVolume (id : Z) (s : Store) : option Volume := snd <$> locate id (s_Locations s).

(** A call on the volume found for [id]. *)
Definition on_volume {A} (id : Z) (m : GoM (Volume * fsys) vol_err A) : GoM Store loc_err A := fun s =>
  match locate id (s_Locations s) with
  | None => (Fail ErrVolumeNotFound, s)
  | Some (i, v) =>
      let '(r, (v', fs')) := m (v, s_fs s) in
      (map_err ErrVolume r,
       mkStore (alter (fun dl => set_volumes (<[id := v']> (dl_volumes dl)) dl) i (s_Locations s)) fs')
  end.

Definition WriteVolumeNeedle (vid : Z) (n : Needle) : GoM Store loc_err (Z * Z * Needle) :=
  on_volume vid (fun s => let '(r, (n', s')) := WriteNeedle (n, s) in
    (match r with Ret (o, sz) => Ret (o, sz, n') | Fail e => Fail e | Panic => Panic end, s')).

Definition ReadVolumeNeedle (vid : Z) (fid : FileId) (s : Store) : outcome loc_err Needle :=
  match locate vid (s_Locations s) with
  | None => Fail ErrVolumeNotFound
  | Some (_, v) => map_err ErrVolume (ReadNeedleByFileId fid (v, s_fs s))
  end.

Definition DeleteVolumeNeedle (vid nid : Z) : GoM Store loc_err unit := on_volume vid (DeleteNeedle nid).

(** The scan of [AllocateVolume] for the location with the most capacity. *)
Fixpoint best_location (i : nat) (best : option (nat * DiskLocation)) (locs : list DiskLocation)
  : option (nat * DiskLocation) :=
  match locs with
  | [] => best
  | dl :: rest =>
      if HasSpace dl then
        match best with
        | None => best_location (S i) (Some (i, dl)) rest
        | Some (_, b) =>
            if decide (AvailableVolumeCount dl > AvailableVolumeCount b)
            then best_location (S i) (Some (i, dl)) rest
            else best_location (S i) best rest
        end
      else best_location (S i) best rest
  end.

Definition AllocateVolume (id : Z) (collection : string) (ver : Z) : GoM Store loc_err unit := fun s =>
  match best_location 0 None (s_Locations s) with
  | None => (Fail ErrNoSpace, s)
  | Some (i, dl) =>
      match NewVolume (dl_directory dl) collection id ver (s_fs s) with
      | (Ret v, fs') => (Ret tt, mkStore (alter (AddVolumeObject v) i (s_Locations s)) fs')
      | (Fail e, fs') => (Fail (ErrCreateVolume e), mkStore (s_Locations s) fs')
      | (Panic, fs') => (Panic, mkStore (s_Locations s) fs')
      end
  end.

Definition s_Close (s : Store) : Store := mkStore (dl_Close <$> s_Locations s) (s_fs s).

(** A directory of the configuration: its name, its volume count, and what the
    operating system says about it: the size of its disk and its listing. *)
Record dir_config := mkDirConfig {
  dc_Directory : string;
  dc_MaxVolumeCount : Z;
  dc_diskSize : Z;
  dc_listing : list (string * bool);
}.

Fixpoint NewStore (dirs : list dir_config) : GoM Store loc_err unit :=
  match dirs with
  | [] => mret tt
  | d :: rest => fun s =>
      let maxVol := if decide (dc_MaxVolumeCount d <= 0) then 8 else dc_MaxVolumeCount d in
      let dl := NewDiskLocation (dc_Directory d) maxVol (dc_diskSize d) (s_fs s) in
      match LoadExistingVolumes ""%string CurrentNeedleVersion (dc_listing d) (dl, s_fs s) with
      | (Ret _, (dl', fs')) => NewStore rest (mkStore (s_Locations s ++ [dl']) fs')
      | (Fail e, (_, fs')) => (Fail e, mkStore (s_Locations s) fs')
      | (Panic, (_, fs')) => (Panic, mkStore (s_Locations s) fs')
      end
  end.

Fixpoint ReloadExistingVolumes (collection : string) (version : Z) (listings : list (list (string * bool)))
    (locs : list DiskLocation) (fs : fsys) : outcome loc_err unit * (list DiskLocation * fsys) :=
  match locs, listings with
  | dl :: locs', names :: listings' =>
      match LoadExistingVolumes collection version names (dl, fs) with
      | (Ret _, (dl', fs')) =>
          let '(r, (locs'', fs'')) := ReloadExistingVolumes collection version listings' locs' fs' in
          (r, (dl' :: locs'', fs''))
      | (Fail e, (dl', fs')) => (Fail e, (dl' :: locs', fs'))
      | (Panic, (dl', fs')) => (Panic, (dl' :: locs', fs'))
      end
  | _, _ => (Ret tt, (locs, fs))
  end.

(** ** [GetVolumes] *)

Lemma pass_perm x l : pass x l = (fst (pass x l), snd (pass x l)) /\ fst (pass x l) :: snd (pass x l) ≡ₚ x :: l.
Proof.
  split; [by destruct (pass x l)|]. revert x. induction l as [|y l IH]; intros x; simpl; [done|].
  case_decide.
  - specialize (IH y). destruct (pass y l) as [m l']. simpl in *.
    etrans; [apply Permutation_swap|]. by rewrite IH.
  - specialize (IH x). destruct (pass x l) as [m l']. simpl in *.
    etrans; [apply Permutation_swap|]. rewrite IH. apply Permutation_swap.
Qed.

Lemma pass_min x l : Forall (Z.le (fst (pass x l))) (x :: l).
Proof.
  revert x. induction l as [|y l IH]; intros x; simpl; [by constructor|].
  case_decide.
  - specialize (IH y). destruct (pass y l) as [m l']. simpl in *.
    apply Forall_cons in IH as [Hy Hl]. repeat constructor; [lia|done|done].
  - specialize (IH x). destruct (pass x l) as [m l']. simpl in *.
    apply Forall_cons in IH as [Hx Hl]. repeat constructor; [done|lia|done].
Qed.

Lemma exchange_sort_spec fuel l :
  (length l <= fuel)%nat -> exchange_sort fuel l ≡ₚ l /\ StronglySorted Z.le (exchange_sort fuel l).
Proof.
  revert l. induction fuel as [|fuel IH]; intros [|x l] Hl; simpl in *; try lia; [by repeat constructor..|].
  pose proof (pass_min x l) as Hmin. destruct (pass_perm x l) as [_ Hp].
  destruct (pass x l) as [m l']. cbn [fst snd] in *.
  destruct (IH l') as [Hp' Hs']; [apply Permutation_length in Hp; simpl in Hp; lia|]. split.
  - by rewrite Hp'.
  - constructor; [done|]. rewrite Hp'. rewrite <- Hp in Hmin. by apply Forall_cons in Hmin as [_ ?].
Qed.

(** The hand-written sort of the volume listing is correct: whatever order the
    map is iterated in, the listing is increasing, without duplicates, and holds
    exactly the loaded volumes. *)
Theorem GetVolumes_sorted (order : gmap Z Volume -> list (Z * Volume)) (dl : DiskLocation) :
  (forall m, order m ≡ₚ map_to_list m) ->
  StronglySorted Z.lt (GetVolumes order dl) /\
  forall id, id ∈ GetVolumes order dl <-> is_Some (dl_GetVolume id dl).
Proof.
  intros Ho. unfold GetVolumes.
  destruct (exchange_sort_spec (length (order (dl_volumes dl)).*1) (order (dl_volumes dl)).*1) as [Hp Hs]; [done|].
  assert ((order (dl_volumes dl)).*1 ≡ₚ (map_to_list (dl_volumes dl)).*1) as Hkeys by by rewrite Ho.
  split.
  - assert (NoDup (exchange_sort (length (order (dl_volumes dl)).*1) (order (dl_volumes dl)).*1)) as Hnd
      by (rewrite Hp, Hkeys; apply NoDup_fst_map_to_list).
    revert Hs Hnd. generalize (exchange_sort (length (order (dl_volumes dl)).*1) (order (dl_volumes dl)).*1).
    induction 1 as [|x l Hs IH Hx]; intros Hnd; [constructor|].
    apply NoDup_cons in Hnd as [Hni Hnd]. constructor; [auto|].
    rewrite list.Forall_forall in *. intros y Hy. specialize (Hx y Hy).
    destruct (decide (x = y)) as [->|]; [done|lia].
  - intros id. rewrite Hp, Hkeys, list_elem_of_fmap. unfold dl_GetVolume, is_Some. split.
    + intros ([k v] & -> & Hk). exists v. by apply elem_of_map_to_list.
    + intros [v Hv]. exists (id, v). split; [done|]. by apply elem_of_map_to_list.
Qed.

Lemma GetVolumes_sorted_witness :
  let v := mkVolume 1 ""%string ""%string None None (mkSuperBlock 3 (mkReplicaPlacement 0 0 0) TTL_zero 0) false false in
  let dl := mkDiskLocation "d"%string 8 {[ 5 := v; 3 := v; 9 := v ]} 0 0 false in
  StronglySorted Z.lt (GetVolumes map_to_list dl) /\ 9 ∈ GetVolumes map_to_list dl.
Proof.
  intros v dl. destruct (GetVolumes_sorted map_to_list dl) as [H1 H2]; [by intros m|].
  split; [exact H1|]. apply H2. by exists v.
Defined.

(** ** [AllocateVolume] *)

Lemma best_location_spec locs : forall i best,
  match best_location i best locs with
  | None => best = None /\ Forall (fun dl => HasSpace dl = false) locs
  | Some (j, dl) =>
      (best = Some (j, dl) \/ (exists k, j = (i + k)%nat /\ locs !! k = Some dl /\ HasSpace dl = true)) /\
      (forall b, best = Some b -> AvailableVolumeCount (snd b) <= AvailableVolumeCount dl) /\
      Forall (fun dl' => HasSpace dl' = true -> AvailableVolumeCount dl' <= AvailableVolumeCount dl) locs
  end.
Proof.
  induction locs as [|l locs IH]; intros i best; simpl.
  { destruct best as [[j dl]|]; [|done]. split_and!; [by left| |constructor]. by intros b [= <-]. }
  assert (forall best', (best' = best \/ best' = Some (i, l) /\ HasSpace l = true) ->
    (forall b, best = Some b -> exists b', best' = Some b' /\ AvailableVolumeCount (snd b) <= AvailableVolumeCount (snd b')) ->
    (HasSpace l = true -> exists b', best' = Some b' /\ AvailableVolumeCount l <= AvailableVolumeCount (snd b')) ->
    match best_location (S i) best' locs with
    | None => best = None /\ Forall (fun dl => HasSpace dl = false) (l :: locs)
    | Some (j, dl) =>
      (best = Some (j, dl) \/ (exists k, j = (i + k)%nat /\ (l :: locs) !! k = Some dl /\ HasSpace dl = true)) /\
      (forall b, best = Some b -> AvailableVolumeCount (snd b) <= AvailableVolumeCount dl) /\
      Forall (fun dl' => HasSpace dl' = true -> AvailableVolumeCount dl' <= AvailableVolumeCount dl) (l :: locs)
    end) as Hgen.
  { intros best' Hb Hbest Hl. specialize (IH (S i) best').
    destruct (best_location (S i) best' locs) as [[j dl]|].
    - destruct IH as (Hj & Hmax & Hall). split_and!.
      + destruct Hj as [->|(k & -> & Hk & Hs)].
        * destruct Hb as [<-|[[= -> ->] Hs]]; [by left|right]. exists 0%nat. split_and!; [lia|done|done].
        * right. exists (S k). split_and!; [lia|done|done].
      + intros b Eb. destruct (Hbest b Eb) as (b' & Eb' & Hle). specialize (Hmax b' Eb'). lia.
      + constructor; [|done]. intros Hs. destruct (Hl Hs) as (b' & Eb' & Hle). specialize (Hmax b' Eb'). lia.
    - destruct IH as [-> Hall]. split.
      + destruct best as [b|]; [|done]. destruct (Hbest b eq_refl) as (? & ? & _). done.
      + constructor; [|done]. destruct (HasSpace l) eqn:E; [|done]. destruct (Hl eq_refl) as (? & ? & _). done. }
  destruct (HasSpace l) eqn:Es.
  - destruct best as [[j0 b0]|].
    + case_decide as Hgt; apply Hgen.
      * by right.
      * intros b [= <-]. exists (i, l). simpl. split; [done|lia].
      * intros _. exists (i, l). simpl. split; [done|lia].
      * by left.
      * intros b [= <-]. exists (j0, b0). split; [done|lia].
      * intros _. exists (j0, b0). simpl. split; [done|lia].
    + apply Hgen; [by right|done|]. intros _. exists (i, l). simpl. split; [done|lia].
  - apply Hgen; [by left| |done]. intros b ->. exists b. split; [done|lia].
Qed.

(** A new volume goes to a location with space that has the largest number of
    free volume slots among those with space, and the request fails with "no space"
    exactly when no location has space. *)
Theorem AllocateVolume_best (id ver : Z) (collection : string) (s : Store) :
  match AllocateVolume id collection ver s with
  | (Fail ErrNoSpace, s') => s' = s /\ Forall (fun dl => HasSpace dl = false) (s_Locations s)
  | (r, s') =>
      exists i dl, s_Locations s !! i = Some dl /\ HasSpace dl = true /\
        Forall (fun dl' => HasSpace dl' = true -> AvailableVolumeCount dl' <= AvailableVolumeCount dl) (s_Locations s) /\
        (r = Ret tt -> exists v, s_Locations s' = alter (AddVolumeObject v) i (s_Locations s) /\
           v_id v = id /\ v_dir v = dl_directory dl /\ v_collection v = collection)
  end.
Proof.
  unfold AllocateVolume. pose proof (best_location_spec (s_Locations s) 0 None) as H.
  destruct (best_location 0 None (s_Locations s)) as [[i dl]|].
  - destruct H as ([[=]|(k & -> & Hk & Hs)] & _ & Hall).
    destruct (NewVolume (dl_directory dl) collection id ver (s_fs s)) as [[v|e|] fs'] eqn:En;
      exists k, dl; split_and!; try done; intros _; exists v; split; [done|].
    unfold NewVolume in En. repeat case_match; simplify_eq; done.
  - by destruct H.
Qed.

(** ** Reads and writes through the store *)

Lemma locate_Some id locs i v :
  locate id locs = Some (i, v) -> exists dl, locs !! i = Some dl /\ dl_volumes dl !! id = Some v.
Proof.
  revert i. induction locs as [|dl locs IH]; intros i; simpl; [done|].
  unfold dl_GetVolume. destruct (dl_volumes dl !! id) as [v'|] eqn:E.
  - intros [= <- <-]. by exists dl.
  - destruct (locate id locs) as [[j v']|]; simpl; [|done]. intros [= <- <-]. by apply IH.
Qed.

(** After the volume [vid], found at [i], is replaced by [v']: other volumes are
    found as before, [vid] is found to be [v']. *)
Lemma locate_alter vid id locs i v v' :
  locate vid locs = Some (i, v) ->
  locate id (alter (fun dl => set_volumes (<[vid := v']> (dl_volumes dl)) dl) i locs) =
    if decide (id = vid) then Some (i, v') else locate id locs.
Proof.
  revert i. induction locs as [|dl locs IH]; intros i; simpl; [done|].
  destruct (dl_GetVolume vid dl) as [w|] eqn:Ew.
  - intros [= <- <-]. cbn. unfold dl_GetVolume. cbn. case_decide as Hd.
    + subst. by rewrite lookup_insert_eq.
    + by rewrite lookup_insert_ne by done.
  - destruct (locate vid locs) as [[j w]|] eqn:El; simpl; [|done]. intros [= <- <-]. cbn.
    rewrite (IH j eq_refl). case_decide as Hd; [subst; by rewrite Ew|done].
Qed.

Lemma ReadNeedleByFileId_Get fid s :
  ReadNeedleByFileId fid s =
    match GetNeedle (fid_NeedleId fid) s with
    | Ret n => if decide (n_Cookie n <> fid_Cookie fid) then Fail ErrCookie else Ret n
    | r => r
    end.
Proof. reflexivity. Qed.

(** What a map of needles answers to a file id. *)
Definition spec_read (spec : gmap Z Needle) (fid : FileId) : option Needle :=
  n ← spec !! fid_NeedleId fid; if decide (n_Cookie n <> fid_Cookie fid) then None else Some n.

Lemma ReadNeedleByFileId_rep spec v fs fid :
  vol_live spec v fs -> ok (map_err ErrVolume (ReadNeedleByFileId fid (v, fs))) = spec_read spec fid.
Proof.
  intros Hrep. pose proof (GetNeedle_rep _ _ _ (fid_NeedleId fid) Hrep) as H.
  rewrite ReadNeedleByFileId_Get. unfold spec_read. destruct (spec !! fid_NeedleId fid) as [n|]; simpl.
  - rewrite H. by case_decide.
  - by destruct H as [e ->].
Qed.
