(* ===== verification/StoreSpec.v ===== *)
(** * StoreSpec: a store of volumes represents maps of needles

    The store of [DiskStore] seen as a map from volume ids to the maps of needles of
    [VolumeSpec]: what a read answers, and what a write and a delete change, at every
    volume of the store and over any number of calls. *)

From S2P Require Import Prelude Bytes GoStrings Types OsFile Needle NeedleCodec SuperBlock Fs NeedleMap Volume.
From S2P Require Import VolumeSpec DiskStore.

Abbreviation needle_maps := (gmap Z (gmap Z Needle)).

(** A volume that accepts writes represents [m]. *)
Definition vol_holds (id : Z) (m : gmap Z Needle) (v : Volume) (fs : fsys) : Prop :=
  v_id v = id /\ v_ReadOnly v = false /\ v_noWriteOrDelete v = false /\ v_version v = CurrentNeedleVersion /\
  vol_live m v fs.

Definition store_rep (spec : needle_maps) (s : Store) : Prop :=
  fs_limit (s_fs s) <= 8 * 2 ^ 32 /\
  forall id, match s_GetVolume id s with
             | None => spec !! id = None
             | Some v => exists m, spec !! id = Some m /\ vol_holds id m v (s_fs s)
             end.

Lemma vol_holds_frame id m v fs w w' fs' :
  vol_holds id m v fs -> v_id w <> id -> same_frame w w' fs fs' -> vol_holds id m v fs'.
Proof.
  intros (Hid & Hro & Hfr & Hver & Hrep) Hne (_ & _ & _ & _ & _ & _ & El & Ef).
  split_and!; [done..|]. eapply vol_live_frame; [exact Hrep|done|apply Ef]; unfold DataFileName, IndexFileName; congruence.
Qed.

(** The effect of a method on a volume that represents [m]: its answer satisfies [Q], and
    when it takes effect the volume represents [upd m] afterwards. *)
Definition vol_spec {A} (run : GoM (Volume * fsys) vol_err A) (Q : outcome vol_err A -> gmap Z Needle -> Prop)
    (upd : gmap Z Needle -> gmap Z Needle) : Prop :=
  forall m v fs, vol_live m v fs -> v_ReadOnly v = false -> v_noWriteOrDelete v = false ->
    v_version v = CurrentNeedleVersion -> fs_limit fs <= 8 * 2 ^ 32 ->
    exists r v' fs', run (v, fs) = (r, (v', fs')) /\ same_frame v v' fs fs' /\ Q r m /\
      vol_live (if takes_effect r then upd m else m) v' fs'.

(** The same for the answer of a store: see [takes_effect]. *)
Definition stored {A} (r : outcome loc_err A) : bool :=
  match r with Ret _ => true | Fail (ErrVolume e) => index_error e | _ => false end.

Lemma stored_map_err {A} (r : outcome vol_err A) : stored (map_err ErrVolume r) = takes_effect r.
Proof. by destruct r. Qed.

Lemma on_volume_rep {A} (vid : Z) (run : GoM (Volume * fsys) vol_err A) Q upd spec s :
  vol_spec run Q upd -> store_rep spec s ->
  let '(r, s') := on_volume vid run s in
  store_rep (if stored r then alter upd vid spec else spec) s' /\ fs_limit (s_fs s') = fs_limit (s_fs s) /\
  match spec !! vid with
  | None => r = Fail ErrVolumeNotFound
  | Some m => exists r0, r = map_err ErrVolume r0 /\ Q r0 m
  end.
Proof.
  intros Hrun [Hlim Hrep]. unfold on_volume. pose proof (Hrep vid) as Hv. unfold s_GetVolume in *.
  destruct (locate vid (s_Locations s)) as [[i v]|] eqn:El; simpl in Hv; [|by rewrite Hv; split_and!].
  destruct Hv as (m & Hm & Hid & Hro & Hfr & Hver & Hvr). rewrite Hm.
  destruct (Hrun m v (s_fs s) Hvr Hro Hfr Hver Hlim) as (r & v' & fs' & -> & Hframe & HQ & Hvr').
  pose proof Hframe as (Edir & Eid & _ & Esb & Ero & Efr & Elim & _). cbn [s_Locations s_fs].
  split; [|split; [done|by exists r]]. split; [cbn [s_fs]; lia|]. intros id. unfold s_GetVolume. cbn [s_Locations s_fs].
  rewrite (locate_alter vid id _ _ _ v' El), stored_map_err. destruct (decide (id = vid)) as [->|Hne]; simpl.
  - exists (if takes_effect r then upd m else m). split.
    + destruct (takes_effect r); [by rewrite lookup_alter_eq, Hm|done].
    + unfold vol_holds, v_version in *. by split_and!; [congruence..|].
  - replace ((if takes_effect r then alter upd vid spec else spec) !! id) with (spec !! id)
      by (destruct (takes_effect r); by rewrite ?lookup_alter_ne).
    specialize (Hrep id). destruct (locate id (s_Locations s)) as [[j w]|]; simpl in *; [|done].
    destruct Hrep as (m0 & Hm0 & Hh). exists m0. split; [done|].
    eapply vol_holds_frame; [exact Hh| |exact Hframe]. congruence.
Qed.

(** ** Writes *)

Definition write_spec (n : Needle) (m : gmap Z Needle) : gmap Z Needle :=
  <[n_Id n := needle_written n CurrentNeedleVersion]> m.

Lemma WriteVolumeNeedle_rep vid n spec s :
  needle_wf n -> needle_canonical n CurrentNeedleVersion -> store_rep spec s ->
  let '(r, s') := WriteVolumeNeedle vid n s in
  store_rep (if stored r then alter (write_spec n) vid spec else spec) s' /\ fs_limit (s_fs s') = fs_limit (s_fs s) /\
  r <> Panic /\ (stored r = true -> is_Some (spec !! vid)) /\
  (forall o sz n', r = Ret (o, sz, n') -> n' = needle_written n CurrentNeedleVersion).
Proof.
  intros Hwf Hcan Hrep.
  pose proof (on_volume_rep vid (fun s => let '(r, (n', s')) := WriteNeedle (n, s) in
    (match r with Ret (o, sz) => Ret (o, sz, n') | Fail e => Fail e | Panic => Panic end, s'))
    (fun r _ => r <> Panic /\ forall o sz n', r = Ret (o, sz, n') -> n' = needle_written n CurrentNeedleVersion)
    (write_spec n) spec s) as H. unfold WriteVolumeNeedle.
  destruct (on_volume vid _ s) as [r s']. destruct H as (H1 & H2 & H3); [|done..|].
  - intros m v fs Hv Hro Hfr Hver Hlim.
    destruct (WriteNeedle_rep m v fs Hv Hro Hfr Hlim n Hwf) as (r0 & n' & v' & fs' & -> & Hframe & Hp & Hn' & Hv' & _).
    rewrite Hver in Hn', Hv'. rewrite needle_read_written in Hv' by done.
    eexists _, v', fs'. split; [done|]. split; [done|].
    split; [|by destruct r0 as [[o sz]| |]].
    destruct r0 as [[o sz]| |]; try done. split; [done|]. intros ? ? ? [= <- <- <-]. by eapply Hn'.
  - split_and!; [done..| | |]; destruct (spec !! vid) as [m|]; try (by rewrite H3).
    + destruct H3 as (r0 & -> & Hp & _). by destruct r0.
    + done.
    + destruct H3 as (r0 & -> & _ & Hn). intros o sz n' Hr. apply (Hn o sz). by destruct r0; inversion Hr; subst.
Qed.

(** ** Deletes *)

Lemma DeleteVolumeNeedle_rep vid nid spec s :
  in_u 64 nid -> store_rep spec s ->
  let '(r, s') := DeleteVolumeNeedle vid nid s in
  store_rep (if stored r then alter (delete nid) vid spec else spec) s' /\ fs_limit (s_fs s') = fs_limit (s_fs s) /\
  r <> Panic /\ (stored r = true -> exists m, spec !! vid = Some m /\ is_Some (m !! nid)).
Proof.
  intros Hid Hrep.
  pose proof (on_volume_rep vid (DeleteNeedle nid)
    (fun r m => r <> Panic /\ (takes_effect r = true -> is_Some (m !! nid))) (delete nid) spec s) as H.
  unfold DeleteVolumeNeedle. destruct (on_volume vid _ s) as [r s']. destruct H as (H1 & H2 & H3); [|done..|].
  - intros m v fs Hv Hro Hfr Hver Hlim.
    destruct (DeleteNeedle_rep m v fs Hv Hro Hfr Hlim nid Hid) as (r0 & v' & fs' & -> & Hframe & Hp & Hs & Hv' & _).
    eexists _, v', fs'. by split_and!.
  - split_and!; [done..| |]; destruct (spec !! vid) as [m|]; try (by rewrite H3).
    + destruct H3 as (r0 & -> & Hp & _). by destruct r0.
    + destruct H3 as (r0 & -> & _ & Hs). rewrite stored_map_err. intros Hr. eauto.
Qed.

(** ** Reads *)

Lemma ReadVolumeNeedle_rep vid fid spec s :
  store_rep spec s ->
  ReadVolumeNeedle vid fid s <> Panic /\
  ok (ReadVolumeNeedle vid fid s) = spec !! vid ≫= (fun m => spec_read m fid).
Proof.
  intros [_ Hrep]. specialize (Hrep vid). unfold ReadVolumeNeedle, s_GetVolume in *.
  destruct (locate vid (s_Locations s)) as [[i v]|]; simpl in *; [|by rewrite Hrep].
  destruct Hrep as (m & -> & _ & _ & _ & _ & Hv). simpl.
  rewrite (ReadNeedleByFileId_rep m v (s_fs s) fid Hv). split; [|done].
  pose proof (GetNeedle_rep _ _ _ (fid_NeedleId fid) Hv) as Hg. rewrite ReadNeedleByFileId_Get.
  destruct (m !! fid_NeedleId fid) as [n|]; [rewrite Hg; by case_decide|by destruct Hg as [e ->]].
Qed.

(** The store with a new volume. *)
Lemma store_rep_fresh dir c vid limit space :
  limit <= 8 * 2 ^ 32 -> 8 <= Z.min limit space ->
  exists v fs, NewVolume dir c vid CurrentNeedleVersion (mkFs ∅ limit space) = (Ret v, fs) /\
    store_rep {[ vid := ∅ ]} (mkStore [mkDiskLocation dir 8 {[ vid := v ]} 0 0 false] fs).
Proof.
  intros Hl Hr. destruct (NewVolume_fresh dir c vid CurrentNeedleVersion (mkFs ∅ limit space)
    (lookup_empty _) (lookup_empty _)) as (v & fs & -> & Hrep & _ & Hdir & Hid & _ & Hver & Hro & Hfr & Hlim);
    [unfold fs_room; cbn [fs_files fs_limit fs_space]; rewrite delete_empty, msum_empty; lia|by vm_compute|].
  exists v, fs. split; [done|]. split; [cbn; rewrite Hlim; simpl; lia|]. intros id.
  unfold s_GetVolume. cbn. unfold dl_GetVolume. cbn [dl_volumes]. destruct (decide (id = vid)) as [->|Hne].
  - rewrite lookup_singleton_eq. simpl. exists ∅. rewrite lookup_singleton_eq. by split.
  - rewrite lookup_singleton_ne by done. simpl. by rewrite lookup_singleton_ne.
Qed.

(** ** New volumes *)

(** Whether there is room for it or not, a new volume touches no file but its own two, and
    represents the empty map if it is made. *)
Lemma NewVolume_cases dir c id ver fs :
  fs_files fs !! (dir, id, Dat) = None -> fs_files fs !! (dir, id, Idx) = None -> is_byte ver ->
  let '(r, fs') := NewVolume dir c id ver fs in
  r <> Panic /\ fs_limit fs' = fs_limit fs /\
  (forall p, p <> (dir, id, Dat) -> p <> (dir, id, Idx) -> fs_files fs' !! p = fs_files fs !! p) /\
  (forall v, r = Ret v -> vol_live ∅ v fs' /\ v_id v = id /\ v_version v = ver /\
     v_ReadOnly v = false /\ v_noWriteOrDelete v = false).
Proof.
  intros Hd Hi Hver. destruct (decide (8 <= fs_room (dir, id, Dat) fs)) as [Hl|Hl].
  - destruct (NewVolume_fresh dir c id ver fs Hd Hi Hl Hver) as (v & fs' & Hn & Hrep & _ & _ & Hid & _ & Hv & Hro & Hfr & Hlim).
    pose proof Hn as Hn'. rewrite Hn. split; [done|]. split; [done|]. split; [|by intros w [= <-]].
    intros p H1 H2. revert Hn'. unfold NewVolume, DataFileName, IndexFileName. cbv zeta. cbn [v_dir v_id].
    unfold fs_exists. rewrite bool_decide_eq_false_2 by (rewrite Hd; apply is_Some_None).
    unfold fs_Open. rewrite Hd. cbn [negb]. set (sb := mkSuperBlock ver _ _ _).
    unfold on_handle. rewrite h_file_set, WriteSuperBlock_run by done. cbn [f_data f_pos h_path h_append].
    rewrite fs_set_set. erewrite bind_run by (unfold Load; rewrite fs_set_other, Hi by done; reflexivity).
    unfold OpenIndexFile, fs_Open. rewrite fs_set_other, Hi by done. intros [= _ <-].
    by rewrite !fs_set_other by congruence.
  - unfold NewVolume, DataFileName, IndexFileName. cbv zeta. cbn [v_dir v_id].
    unfold fs_exists. rewrite bool_decide_eq_false_2 by (rewrite Hd; apply is_Some_None).
    unfold fs_Open. rewrite Hd. cbn [negb]. set (sb := mkSuperBlock ver _ _ _).
    unfold on_handle. rewrite h_file_set.
    destruct (WriteSuperBlock_fail (mkFile [] 0 (fs_room (dir, id, Dat) fs)) sb) as [f' ->]; [simpl; lia|].
    cbn [h_path h_append]. rewrite fs_set_set. split_and!; try done. intros p H1 H2. by rewrite fs_set_other by congruence.
Qed.

Lemma locate_add vid id locs i dl v :
  locate vid locs = None -> locs !! i = Some dl -> v_id v = vid ->
  snd <$> locate id (alter (AddVolumeObject v) i locs) = if decide (id = vid) then Some v else snd <$> locate id locs.
Proof.
  intros Hn Hi Hv. revert i Hi Hn. induction locs as [|x locs IH]; intros [|i] Hi Hn; [done..| |]; cbn [locate] in Hn;
    destruct (dl_GetVolume vid x) eqn:Ex; try done; destruct (locate vid locs) as [[j w]|] eqn:El; try done.
  - change (alter (AddVolumeObject v) 0%nat (x :: locs)) with (AddVolumeObject v x :: locs). cbn [locate].
    unfold dl_GetVolume, AddVolumeObject in *. cbn [dl_volumes set_volumes]. rewrite Hv. case_decide as Hid.
    + subst id. by rewrite lookup_insert_eq.
    + by rewrite lookup_insert_ne by congruence.
  - change (alter (AddVolumeObject v) (S i) (x :: locs)) with (x :: alter (AddVolumeObject v) i locs). cbn [locate].
    specialize (IH i Hi eq_refl). case_decide as Hid.
    + subst id. rewrite Ex. destruct (locate vid (alter _ i locs)) as [[j w]|]; exact IH.
    + destruct (dl_GetVolume id x); [done|].
      destruct (locate id (alter _ i locs)) as [[j w]|], (locate id locs) as [[j' w']|]; exact IH.
Qed.

(** No location has files of the volume. *)
Definition no_files (vid : Z) (s : Store) : Prop :=
  forall dl, dl ∈ s_Locations s ->
    fs_files (s_fs s) !! (dl_directory dl, vid, Dat) = None /\ fs_files (s_fs s) !! (dl_directory dl, vid, Idx) = None.

Lemma AllocateVolume_rep vid c spec s :
  store_rep spec s -> s_GetVolume vid s = None -> no_files vid s ->
  let '(r, s') := AllocateVolume vid c CurrentNeedleVersion s in
  fs_limit (s_fs s') = fs_limit (s_fs s) /\ r <> Panic /\
  store_rep (match r with Ret _ => <[vid := ∅]> spec | _ => spec end) s'.
Proof.
  intros [Hlim Hrep] Hnone Hfiles. unfold AllocateVolume.
  pose proof (best_location_spec (s_Locations s) 0 None) as Hb.
  destruct (best_location 0 None (s_Locations s)) as [[i dl]|]; [|done].
  destruct Hb as ([[=]|(j & -> & Hj & _)] & _). cbn [Nat.add].
  destruct (Hfiles dl) as [Hd Hx]; [by eapply list_elem_of_lookup_2|].
  pose proof (NewVolume_cases (dl_directory dl) c vid CurrentNeedleVersion (s_fs s) Hd Hx ltac:(by vm_compute)) as H.
  destruct (NewVolume (dl_directory dl) c vid CurrentNeedleVersion (s_fs s)) as [r fs']. destruct H as (Hp & El & Hframe & Hok).
  assert (locate vid (s_Locations s) = None) as Hloc
    by (unfold s_GetVolume in Hnone; by destruct (locate vid (s_Locations s))).
  assert (forall id w m, id <> vid -> vol_holds id m w (s_fs s) -> vol_holds id m w fs') as Hkeep.
  { intros id w m Hne (Hwid & ? & ? & ? & Hwr). split_and!; [done..|].
    eapply vol_live_frame; [exact Hwr|done|apply Hframe]; unfold DataFileName; congruence. }
  destruct r as [v|e|]; [| |done]; (split; [done|]); (split; [done|]); (split; [cbn; lia|]); intros id;
    unfold s_GetVolume in *; cbn [s_Locations s_fs]; specialize (Hrep id).
  - destruct (Hok v eq_refl) as (Hvr & Hid & Hver & Hro & Hfr).
    rewrite (locate_add vid id _ _ dl v Hloc Hj Hid). case_decide as E.
    + subst id. exists ∅. rewrite lookup_insert_eq. by split.
    + rewrite lookup_insert_ne by congruence.
      destruct (locate id (s_Locations s)) as [[q w]|]; cbn [fmap option_fmap option_map snd] in *; [|done].
      destruct Hrep as (m & Hm & Hh). exists m. split; [done|]. by apply Hkeep.
  - destruct (locate id (s_Locations s)) as [[q w]|] eqn:Eq; cbn [fmap option_fmap option_map snd] in *; [|done].
    destruct Hrep as (m & Hm & Hh). exists m. split; [done|]. apply Hkeep; [congruence|done].
Qed.
