(* ===== verification/Raft.v ===== *)
(** * Raft: the native consensus engine

    Models [goblob/consensus/native/engine.go], [store.go] and the request and
    response types of [network.go].  A critical section of [Engine.mu] is a
    function on the engine's state; [startElection], [replicateTo] and [Apply],
    which release the lock around their remote calls, are one function per critical
    section.  The state machine is a parameter with the operations the engine calls, and
    so is the store, with two instances: the [MemoryStore] of the tests, and the
    [FileStore] of the masters, whose saves can fail.  The timers only decide when a step
    happens and have no counterpart. *)

From S2P Require Import Prelude.

Inductive rstate := StateFollower | StateCandidate | StateLeader.

#[export] Instance rstate_eq_dec : EqDecision rstate.
Proof. intros [] []; first [by left | by right]. Defined.

(** A command that is nil is [None]. *)
Record LogEntry (C : Type) := mkEntry { le_Index : Z; le_Term : Z; le_Command : option C }.
Arguments mkEntry {C}. Arguments le_Index {C}. Arguments le_Term {C}. Arguments le_Command {C}.

Record SnapshotRecord := mkSnapshot { sn_Index : Z; sn_Term : Z; sn_Data : bytes }.

Record persistedState (C : Type) := mkPersisted {
  ps_CurrentTerm : Z;
  ps_VotedFor : string;
  ps_Log : list (LogEntry C);
  ps_CommitIndex : Z;
  ps_Snapshot : SnapshotRecord;
}.
Arguments mkPersisted {C}. Arguments ps_CurrentTerm {C}. Arguments ps_VotedFor {C}.
Arguments ps_Log {C}. Arguments ps_CommitIndex {C}. Arguments ps_Snapshot {C}.

(** ** Stores *)

(** [Store]: [st_save] tells whether it returned no error; [None] is an error of
    [st_load]. *)
Class Store (C St : Type) := {
  st_load : St -> option (persistedState C);
  st_save : persistedState C -> St -> bool * St;
}.

(** A store that is healthy saves what it is given, up to [st_kept]. *)
Class StoreLaws (C St : Type) `{Store C St} := {
  st_healthy : St -> Prop;
  st_kept : persistedState C -> persistedState C;
  st_kept_role ps : ps_CurrentTerm (st_kept ps) = ps_CurrentTerm ps /\ ps_VotedFor (st_kept ps) = ps_VotedFor ps;
  st_kept_all ps : Forall (fun x => is_Some (le_Command x)) (ps_Log ps) -> st_kept ps = ps;
  st_save_law s ps : st_healthy s ->
    exists s', st_save ps s = (true, s') /\ st_healthy s' /\ st_load s' = Some (st_kept ps);
}.

Arguments st_kept {C} St {_ _}. Arguments st_kept_role {C} St {_ _}. Arguments st_kept_all {C} St {_ _}.

Definition no_state {C} : persistedState C := mkPersisted 0 ""%string [] 0 (mkSnapshot 0 0 []).

(** *** [MemoryStore] *)

#[export] Instance MemoryStore {C} : Store C (persistedState C) := {|
  st_load := Some;
  st_save ps _ := (true, ps);
|}.

#[export, refine] Instance MemoryStore_laws {C} : StoreLaws C (persistedState C) := {| st_healthy _ := True; st_kept := id |}.
Proof. - done. - done. - intros s ps _. by exists ps. Defined.

(** *** [FileStore] *)

(** [consensus.Command] and a [CommandDecoder]; [P] is a payload as JSON. *)
Class Codec (C P : Type) := {
  cmd_Type : C -> string;
  cmd_Encode : C -> option P;
  cmd_decoder : string -> P -> option C;
}.

Class CodecLaws (C P : Type) `{Codec C P} : Prop := {
  codec_law c : exists p, cmd_Encode c = Some p /\ cmd_decoder (cmd_Type c) p = Some c;
}.

Record diskEntry (P : Type) := mkDiskEntry { de_Index : Z; de_Term : Z; de_Type : string; de_Payload : P }.
Arguments mkDiskEntry {P}. Arguments de_Index {P}. Arguments de_Term {P}. Arguments de_Type {P}. Arguments de_Payload {P}.

Record diskState (P : Type) := mkDiskState {
  di_CurrentTerm : Z;
  di_VotedFor : string;
  di_Log : list (diskEntry P);
  di_CommitIndex : Z;
  di_Snapshot : SnapshotRecord;
}.
Arguments mkDiskState {P}. Arguments di_CurrentTerm {P}. Arguments di_VotedFor {P}. Arguments di_Log {P}.
Arguments di_CommitIndex {P}. Arguments di_Snapshot {P}.

(** The file at the path, and for each write to come whether it fails: the state goes to a
    temporary file that is then renamed, so a failure leaves the file as it is. *)
Record FileStore (P : Type) := mkFileStore { fl_file : option (diskState P); fl_faults : list bool }.
Arguments mkFileStore {P}. Arguments fl_file {P}. Arguments fl_faults {P}.

Section file_store.
Context {C P : Type} `{Codec C P}.

(** The loop of [save]: entries without a command are left out. *)
Fixpoint disk_entries (l : list (LogEntry C)) : option (list (diskEntry P)) :=
  match l with
  | [] => Some []
  | mkEntry _ _ None :: l => disk_entries l
  | mkEntry index term (Some c) :: l =>
      p ← cmd_Encode c; rest ← disk_entries l; Some (mkDiskEntry index term (cmd_Type c) p :: rest)
  end.

Definition file_save (ps : persistedState C) (s : FileStore P) : bool * FileStore P :=
  match disk_entries (ps_Log ps) with
  | None => (false, s)
  | Some l =>
      let disk := mkDiskState (ps_CurrentTerm ps) (ps_VotedFor ps) l (ps_CommitIndex ps) (ps_Snapshot ps) in
      match fl_faults s with
      | true :: faults => (false, mkFileStore (fl_file s) faults)
      | faults => (true, mkFileStore (Some disk) (tail faults))
      end
  end.

(** The loop of [load]. *)
Fixpoint log_entries (l : list (diskEntry P)) : option (list (LogEntry C)) :=
  match l with
  | [] => Some []
  | de :: l =>
      c ← cmd_decoder (de_Type de) (de_Payload de); rest ← log_entries l;
      Some (mkEntry (de_Index de) (de_Term de) (Some c) :: rest)
  end.

Definition file_load (s : FileStore P) : option (persistedState C) :=
  match fl_file s with
  | None => Some no_state
  | Some d => l ← log_entries (di_Log d);
      Some (mkPersisted (di_CurrentTerm d) (di_VotedFor d) l (di_CommitIndex d) (di_Snapshot d))
  end.

#[export] Instance FileStore_store : Store C (FileStore P) := {| st_load := file_load; st_save := file_save |}.

(** The entries with a command. *)
Definition with_command (l : list (LogEntry C)) : list (LogEntry C) := filter (fun x => is_Some (le_Command x)) l.

Lemma disk_roundtrip `{!CodecLaws C P} l : exists d, disk_entries l = Some d /\ log_entries d = Some (with_command l).
Proof.
  induction l as [|[i t [c|]] l (d & E1 & E2)]; [by exists []| |].
  - destruct (codec_law c) as (p & Ep & Ed). cbn [disk_entries]. rewrite Ep, E1. eexists. split; [done|].
    cbn [log_entries de_Type de_Payload]. rewrite Ed, E2. unfold with_command. by rewrite filter_cons_True by (by eexists).
  - exists d. split; [done|]. unfold with_command. by rewrite filter_cons_False by (by intros [? ?]).
Qed.

Lemma with_command_all l : Forall (fun x => is_Some (le_Command x)) l -> with_command l = l.
Proof. induction 1 as [|x l Hx Hl IH]; [done|]. unfold with_command in *. by rewrite filter_cons_True, IH. Qed.

#[export, refine] Instance FileStore_laws `{!CodecLaws C P} : StoreLaws C (FileStore P) := {|
  st_healthy s := fl_faults s = [];
  st_kept ps := mkPersisted (ps_CurrentTerm ps) (ps_VotedFor ps) (with_command (ps_Log ps)) (ps_CommitIndex ps) (ps_Snapshot ps);
|}.
Proof.
  - done.
  - intros [] Hl. cbn in *. f_equal. by apply with_command_all.
  - intros s ps Hs. cbn [st_save FileStore_store]. unfold file_save. destruct (disk_roundtrip (ps_Log ps)) as (d & -> & Ed). rewrite Hs.
    eexists. split; [done|]. split; [done|]. cbn. unfold file_load. cbn. by rewrite Ed.
Defined.
End file_store.

(** The state machine: [Apply], and [Snapshot] and [Restore] when it has them. *)
Record StateMachine (C FS : Type) := mkFSM {
  fsm_Apply : C -> FS -> FS;
  fsm_Snapshot : option ((FS -> option bytes) * (bytes -> FS -> option FS));
}.
Arguments mkFSM {C FS}. Arguments fsm_Apply {C FS}. Arguments fsm_Snapshot {C FS}.

Record Engine (C FS St : Type) := mkEngine {
  e_id : string;
  e_peers : list string;
  e_state : rstate;
  e_currentTerm : Z;
  e_votedFor : string;
  e_log : list (LogEntry C);
  e_commitIndex : Z;
  e_lastApplied : Z;
  e_snapshot : SnapshotRecord;
  e_leaderID : string;
  e_nextIndex : gmap string Z;
  e_matchIndex : gmap string Z;
  e_snapshotThreshold : Z;
  e_closed : bool;
  e_store : St;
  e_fsm : FS;
  e_events : list bool;
}.
Arguments mkEngine {C FS St}.
Arguments e_id {C FS St}. Arguments e_peers {C FS St}. Arguments e_state {C FS St}. Arguments e_currentTerm {C FS St}.
Arguments e_votedFor {C FS St}. Arguments e_log {C FS St}. Arguments e_commitIndex {C FS St}.
Arguments e_lastApplied {C FS St}. Arguments e_snapshot {C FS St}. Arguments e_leaderID {C FS St}.
Arguments e_nextIndex {C FS St}. Arguments e_matchIndex {C FS St}. Arguments e_snapshotThreshold {C FS St}.
Arguments e_closed {C FS St}. Arguments e_store {C FS St}. Arguments e_fsm {C FS St}. Arguments e_events {C FS St}.

Record requestVoteRequest := mkRVReq {
  rv_Term : Z; rv_CandidateID : string; rv_LastLogIndex : Z; rv_LastLogTerm : Z }.
Record requestVoteResponse := mkRVResp { rvr_Term : Z; rvr_VoteGranted : bool }.
Record appendEntriesRequest (C : Type) := mkAEReq {
  ae_Term : Z; ae_LeaderID : string; ae_PrevLogIndex : Z; ae_PrevLogTerm : Z;
  ae_Entries : list (LogEntry C); ae_LeaderCommit : Z }.
Arguments mkAEReq {C}. Arguments ae_Term {C}. Arguments ae_LeaderID {C}. Arguments ae_PrevLogIndex {C}.
Arguments ae_PrevLogTerm {C}. Arguments ae_Entries {C}. Arguments ae_LeaderCommit {C}.
Record appendEntriesResponse := mkAEResp { aer_Term : Z; aer_Success : bool; aer_MatchIndex : Z }.
Record installSnapshotRequest := mkISReq {
  is_Term : Z; is_LeaderID : string; is_LastIncludedIndex : Z; is_LastIncludedTerm : Z; is_Data : bytes }.
Record installSnapshotResponse := mkISResp { isr_Term : Z; isr_Success : bool }.

Section engine.
Context {C FS St : Type} `{Hstore : !Store C St} (fsm : StateMachine C FS).
Implicit Type e : Engine C FS St.

(** ** Field updates *)

Definition with_role (st : rstate) (term : Z) (voted leader : string) e : Engine C FS St :=
  mkEngine (e_id e) (e_peers e) st term voted (e_log e) (e_commitIndex e) (e_lastApplied e) (e_snapshot e)
    leader (e_nextIndex e) (e_matchIndex e) (e_snapshotThreshold e) (e_closed e) (e_store e) (e_fsm e) (e_events e).
Definition with_log (l : list (LogEntry C)) e : Engine C FS St :=
  mkEngine (e_id e) (e_peers e) (e_state e) (e_currentTerm e) (e_votedFor e) l (e_commitIndex e) (e_lastApplied e)
    (e_snapshot e) (e_leaderID e) (e_nextIndex e) (e_matchIndex e) (e_snapshotThreshold e) (e_closed e)
    (e_store e) (e_fsm e) (e_events e).
Definition with_commit (commit applied : Z) e : Engine C FS St :=
  mkEngine (e_id e) (e_peers e) (e_state e) (e_currentTerm e) (e_votedFor e) (e_log e) commit applied
    (e_snapshot e) (e_leaderID e) (e_nextIndex e) (e_matchIndex e) (e_snapshotThreshold e) (e_closed e)
    (e_store e) (e_fsm e) (e_events e).
Definition with_snapshot (s : SnapshotRecord) e : Engine C FS St :=
  mkEngine (e_id e) (e_peers e) (e_state e) (e_currentTerm e) (e_votedFor e) (e_log e) (e_commitIndex e)
    (e_lastApplied e) s (e_leaderID e) (e_nextIndex e) (e_matchIndex e) (e_snapshotThreshold e) (e_closed e)
    (e_store e) (e_fsm e) (e_events e).
Definition with_progress (next mtch : gmap string Z) e : Engine C FS St :=
  mkEngine (e_id e) (e_peers e) (e_state e) (e_currentTerm e) (e_votedFor e) (e_log e) (e_commitIndex e)
    (e_lastApplied e) (e_snapshot e) (e_leaderID e) next mtch (e_snapshotThreshold e) (e_closed e)
    (e_store e) (e_fsm e) (e_events e).
Definition with_store (s : St) e : Engine C FS St :=
  mkEngine (e_id e) (e_peers e) (e_state e) (e_currentTerm e) (e_votedFor e) (e_log e) (e_commitIndex e)
    (e_lastApplied e) (e_snapshot e) (e_leaderID e) (e_nextIndex e) (e_matchIndex e) (e_snapshotThreshold e)
    (e_closed e) s (e_fsm e) (e_events e).
Definition with_fsm (f : FS) e : Engine C FS St :=
  mkEngine (e_id e) (e_peers e) (e_state e) (e_currentTerm e) (e_votedFor e) (e_log e) (e_commitIndex e)
    (e_lastApplied e) (e_snapshot e) (e_leaderID e) (e_nextIndex e) (e_matchIndex e) (e_snapshotThreshold e)
    (e_closed e) (e_store e) f (e_events e).
Definition publish (isLeader : bool) e : Engine C FS St :=
  mkEngine (e_id e) (e_peers e) (e_state e) (e_currentTerm e) (e_votedFor e) (e_log e) (e_commitIndex e)
    (e_lastApplied e) (e_snapshot e) (e_leaderID e) (e_nextIndex e) (e_matchIndex e) (e_snapshotThreshold e)
    (e_closed e) (e_store e) (e_fsm e) (e_events e ++ [isLeader]).
Definition with_peers (ps : list string) e : Engine C FS St :=
  mkEngine (e_id e) ps (e_state e) (e_currentTerm e) (e_votedFor e) (e_log e) (e_commitIndex e)
    (e_lastApplied e) (e_snapshot e) (e_leaderID e) (e_nextIndex e) (e_matchIndex e) (e_snapshotThreshold e)
    (e_closed e) (e_store e) (e_fsm e) (e_events e).
Definition with_closed (b : bool) e : Engine C FS St :=
  mkEngine (e_id e) (e_peers e) (e_state e) (e_currentTerm e) (e_votedFor e) (e_log e) (e_commitIndex e)
    (e_lastApplied e) (e_snapshot e) (e_leaderID e) (e_nextIndex e) (e_matchIndex e) (e_snapshotThreshold e)
    b (e_store e) (e_fsm e) (e_events e).
Definition with_leader (leader : string) e : Engine C FS St :=
  with_role (e_state e) (e_currentTerm e) (e_votedFor e) leader e.

(** ** The log *)

Definition lastIndexLocked e : Z :=
  match last (e_log e) with None => sn_Index (e_snapshot e) | Some x => le_Index x end.

Definition entryAtLocked (index : Z) e : option (LogEntry C) :=
  snd <$> list_find (fun x => le_Index x = index) (e_log e).

Definition termAtLocked (index : Z) e : Z :=
  if decide (index = 0) then 0
  else if decide (index = sn_Index (e_snapshot e)) then sn_Term (e_snapshot e)
  else match entryAtLocked index e with Some x => le_Term x | None => 0 end.

Definition entriesFromLocked (index : Z) e : list (LogEntry C) :=
  let index := if decide (index = 0) then 1 else index in
  filter (fun x => le_Index x >= index) (e_log e).

Definition truncateAfterLocked (index : Z) e : Engine C FS St :=
  let index := Z.max index (sn_Index (e_snapshot e)) in
  with_commit (Z.min (e_commitIndex e) index) (Z.min (e_lastApplied e) index)
    (with_log (filter (fun x => le_Index x <= index) (e_log e)) e).

Definition compactThroughLocked (index : Z) e : Engine C FS St :=
  with_log (filter (fun x => le_Index x > index) (e_log e)) e.

(** ** Durable state *)

Definition persisted e : persistedState C :=
  mkPersisted (e_currentTerm e) (e_votedFor e) (e_log e) (e_commitIndex e) (e_snapshot e).

(** Whether the save returned no error; every caller but [maybeSnapshotLocked] drops it. *)
Definition persistLocked e : bool * Engine C FS St :=
  (fst (st_save (persisted e) (e_store e)), with_store (snd (st_save (persisted e) (e_store e))) e).

Definition persist e : Engine C FS St := snd (persistLocked e).

(** ** Committing and applying *)

Definition quorumLocked e : Z := Z.of_nat (length (e_peers e)) / 2 + 1.

Definition matches (index : Z) e (peer : string) : bool :=
  if decide (peer = e_id e) then bool_decide (lastIndexLocked e >= index)
  else bool_decide (default 0 (e_matchIndex e !! peer) >= index).

Definition matchCountLocked (index : Z) e : Z :=
  Z.of_nat (length (filter (fun p => matches index e p = true) (e_peers e))).

(** [for e.lastApplied < e.commitIndex]: [n] iterations. *)
Fixpoint apply_loop (n : nat) e : Engine C FS St :=
  match n with
  | O => e
  | S n =>
      let index := e_lastApplied e + 1 in
      let e := with_commit (e_commitIndex e) index e in
      apply_loop n
        match entryAtLocked index e with
        | Some (mkEntry _ _ (Some c)) => with_fsm (fsm_Apply fsm c (e_fsm e)) e
        | _ => e
        end
  end.

Definition applyCommittedLocked e : Engine C FS St :=
  apply_loop (Z.to_nat (e_commitIndex e - e_lastApplied e)) e.

(** Whether it returned no error: the state machine can fail to take a snapshot, and the
    store to save it. *)
Definition maybeSnapshotLocked e : bool * Engine C FS St :=
  if decide (e_snapshotThreshold e = 0 \/ e_commitIndex e = 0) then (true, e)
  else if decide (u64 (e_commitIndex e - sn_Index (e_snapshot e)) < e_snapshotThreshold e) then (true, e)
  else match fsm_Snapshot fsm with
       | None => (true, e)
       | Some (snapshot, _) =>
           match snapshot (e_fsm e) with
           | None => (false, e)
           | Some data =>
               let s := mkSnapshot (e_commitIndex e) (termAtLocked (e_commitIndex e) e) data in
               persistLocked (compactThroughLocked (sn_Index s) (with_snapshot s e))
           end
       end.

(** [commitIndex = idx; persist; apply; maybeSnapshot], where the error of the
    snapshot is dropped. *)
Definition commit_to (idx : Z) e : Engine C FS St :=
  snd (maybeSnapshotLocked (applyCommittedLocked (persist (with_commit idx (e_lastApplied e) e)))).

(** The loop from the last index down to the commit index, [n] iterations. *)
Fixpoint advance_loop (n : nat) (idx : Z) e : Engine C FS St :=
  match n with
  | O => e
  | S n =>
      if decide (idx > e_commitIndex e) then
        if decide (termAtLocked idx e = e_currentTerm e /\ matchCountLocked idx e >= quorumLocked e)
        then commit_to idx e
        else advance_loop n (idx - 1) e
      else e
  end.

Definition advanceCommitLocked e : Engine C FS St :=
  advance_loop (Z.to_nat (lastIndexLocked e - e_commitIndex e)) (lastIndexLocked e) e.

(** ** Roles *)

Definition stepDownLocked (term : Z) (leader : string) e : Engine C FS St :=
  let wasLeader := bool_decide (e_state e = StateLeader) in
  let e := persist (with_role StateFollower term ""%string leader e) in
  if wasLeader then publish false e else e.

Definition becomeLeaderLocked e : Engine C FS St :=
  let next := u64 (lastIndexLocked e + 1) in
  let nextIndex := foldl (fun m p => <[p := next]> m) (e_nextIndex e) (e_peers e) in
  let matchIndex := foldl (fun m p => <[p := 0]> m) (e_matchIndex e) (e_peers e) in
  publish true
    (with_progress nextIndex (<[e_id e := lastIndexLocked e]> matchIndex)
      (with_role StateLeader (e_currentTerm e) (e_votedFor e) (e_id e) e)).

(** ** Elections *)

(** The first critical section of [startElection]: the request it sends. *)
Definition election_begin e : Engine C FS St * option requestVoteRequest :=
  if e_closed e || bool_decide (e_state e = StateLeader) then (e, None) else
  let term := u64 (e_currentTerm e + 1) in
  let e := persist (with_role StateCandidate term (e_id e) ""%string e) in
  let lastIndex := lastIndexLocked e in
  (e, Some (mkRVReq term (e_id e) lastIndex (termAtLocked lastIndex e))).

(** A response of a newer term: the critical section in the loop over the peers. *)
Definition election_newer_term (resp : requestVoteResponse) e : Engine C FS St :=
  stepDownLocked (rvr_Term resp) ""%string e.

(** The last critical section, with [votes] votes for the election of [term]. *)
Definition election_finish (term votes : Z) e : Engine C FS St :=
  if e_closed e || bool_decide (e_state e <> StateCandidate) || bool_decide (e_currentTerm e <> term) then e
  else if decide (votes >= quorumLocked e) then becomeLeaderLocked e else e.

Definition upToDate (req : requestVoteRequest) e : bool :=
  let lastTerm := termAtLocked (lastIndexLocked e) e in
  bool_decide (rv_LastLogTerm req > lastTerm) ||
  (bool_decide (rv_LastLogTerm req = lastTerm) && bool_decide (rv_LastLogIndex req >= lastIndexLocked e)).

Definition handleRequestVote (req : requestVoteRequest) e : requestVoteResponse * Engine C FS St :=
  if decide (rv_Term req < e_currentTerm e) then (mkRVResp (e_currentTerm e) false, e) else
  let e := if decide (rv_Term req > e_currentTerm e) then stepDownLocked (rv_Term req) ""%string e else e in
  if (bool_decide (e_votedFor e = ""%string) || bool_decide (e_votedFor e = rv_CandidateID req)) && upToDate req e
  then (mkRVResp (e_currentTerm e) true,
        persist (with_role (e_state e) (e_currentTerm e) (rv_CandidateID req) (e_leaderID e) e))
  else (mkRVResp (e_currentTerm e) false, e).

(** ** Replication *)

(** The loop of [handleAppendEntries] over the entries of the request. *)
Definition append_entry e (x : LogEntry C) : Engine C FS St :=
  if decide (le_Index x <= lastIndexLocked e) then
    if decide (termAtLocked (le_Index x) e <> le_Term x)
    then let e := truncateAfterLocked (u64 (le_Index x - 1)) e in with_log (e_log e ++ [x]) e
    else e
  else with_log (e_log e ++ [x]) e.

(** [stepDown] on a newer term or when not a follower, shared by the two handlers
    of a leader's messages. *)
Definition follow (term : Z) (leader : string) e : Engine C FS St :=
  let e := if decide (term > e_currentTerm e \/ e_state e <> StateFollower)
           then stepDownLocked term leader e else e in
  with_leader leader e.

Definition handleAppendEntries (req : appendEntriesRequest C) e : appendEntriesResponse * Engine C FS St :=
  if decide (ae_Term req < e_currentTerm e) then (mkAEResp (e_currentTerm e) false (lastIndexLocked e), e) else
  let e := follow (ae_Term req) (ae_LeaderID req) e in
  if decide (ae_PrevLogIndex req > lastIndexLocked e)
  then (mkAEResp (e_currentTerm e) false (lastIndexLocked e), e) else
  if decide (ae_PrevLogIndex req > 0 /\ termAtLocked (ae_PrevLogIndex req) e <> ae_PrevLogTerm req)
  then let e := persist (truncateAfterLocked (ae_PrevLogIndex req - 1) e) in
       (mkAEResp (e_currentTerm e) false (lastIndexLocked e), e)
  else
  let e := foldl append_entry e (ae_Entries req) in
  let e := if decide (ae_LeaderCommit req > e_commitIndex e)
           then with_commit (Z.min (ae_LeaderCommit req) (lastIndexLocked e)) (e_lastApplied e) e else e in
  let e := applyCommittedLocked (persist e) in
  (mkAEResp (e_currentTerm e) true (lastIndexLocked e), e).

Definition handleInstallSnapshot (req : installSnapshotRequest) e : installSnapshotResponse * Engine C FS St :=
  if decide (is_Term req < e_currentTerm e) then (mkISResp (e_currentTerm e) false, e) else
  let e := follow (is_Term req) (is_LeaderID req) e in
  match fsm_Snapshot fsm with
  | None => (mkISResp (e_currentTerm e) false, e)
  | Some (_, restore) =>
      match restore (is_Data req) (e_fsm e) with
      | None => (mkISResp (e_currentTerm e) false, e)
      | Some f =>
          let s := mkSnapshot (is_LastIncludedIndex req) (is_LastIncludedTerm req) (is_Data req) in
          let e := compactThroughLocked (is_LastIncludedIndex req) (with_snapshot s (with_fsm f e)) in
          let e := with_commit (Z.max (e_commitIndex e) (is_LastIncludedIndex req))
                               (Z.max (e_lastApplied e) (is_LastIncludedIndex req)) e in
          let e := persist e in
          (mkISResp (e_currentTerm e) true, e)
      end
  end.

(** The first critical section of [replicateTo]: the request for [peer]. *)
Definition replicate_request (peer : string) e : option (appendEntriesRequest C + installSnapshotRequest) :=
  if e_closed e || bool_decide (e_state e <> StateLeader) then None else
  let next := default 0 (e_nextIndex e !! peer) in
  let next := if decide (next = 0) then u64 (lastIndexLocked e + 1) else next in
  if decide (next <= sn_Index (e_snapshot e) /\ sn_Data (e_snapshot e) <> []) then
    Some (inr (mkISReq (e_currentTerm e) (e_id e) (sn_Index (e_snapshot e)) (sn_Term (e_snapshot e))
                 (sn_Data (e_snapshot e))))
  else
    let prev := u64 (next - 1) in
    Some (inl (mkAEReq (e_currentTerm e) (e_id e) prev (termAtLocked prev e) (entriesFromLocked next e)
                 (e_commitIndex e))).

(** The second one: the answer to a request sent in [term]. *)
Definition replicate_response (peer : string) (term : Z) (resp : appendEntriesResponse) e : Engine C FS St :=
  if e_closed e || bool_decide (e_currentTerm e <> term) || bool_decide (e_state e <> StateLeader) then e
  else if decide (aer_Term resp > e_currentTerm e) then stepDownLocked (aer_Term resp) ""%string e
  else if aer_Success resp then
    advanceCommitLocked
      (with_progress (<[peer := u64 (aer_MatchIndex resp + 1)]> (e_nextIndex e))
                     (<[peer := aer_MatchIndex resp]> (e_matchIndex e)) e)
  else if decide (default 0 (e_nextIndex e !! peer) > 1)
  then with_progress (<[peer := default 0 (e_nextIndex e !! peer) - 1]> (e_nextIndex e)) (e_matchIndex e) e
  else e.

Definition snapshot_response (peer : string) (term index : Z) (resp : installSnapshotResponse) e : Engine C FS St :=
  if e_closed e || bool_decide (e_currentTerm e <> term) || bool_decide (e_state e <> StateLeader) then e
  else if decide (isr_Term resp > e_currentTerm e) then stepDownLocked (isr_Term resp) ""%string e
  else if isr_Success resp then
    with_progress (<[peer := u64 (index + 1)]> (e_nextIndex e)) (<[peer := index]> (e_matchIndex e)) e
  else e.

(** ** Client calls *)

Inductive apply_err := ErrNilCommand | ErrClosed | ErrNotLeader (leader : string) | ErrTimeout | ErrSnapshot.

(** The first critical section of [Apply]: the command is appended at the index
    returned. *)
Definition apply_append (cmd : option C) e : outcome apply_err Z * Engine C FS St :=
  match cmd with
  | None => (Fail ErrNilCommand, e)
  | Some c =>
      if e_closed e then (Fail ErrClosed, e)
      else if decide (e_state e <> StateLeader) then (Fail (ErrNotLeader (e_leaderID e)), e)
      else
        let index := u64 (lastIndexLocked e + 1) in
        let e := with_log (e_log e ++ [mkEntry index (e_currentTerm e) (Some c)]) e in
        let e := with_progress (e_nextIndex e) (<[e_id e := index]> (e_matchIndex e)) e in
        (Ret index, persist e)
  end.

(** One turn of its waiting loop after [replicateAll]: [None] is another turn. *)
Definition apply_check (index : Z) e : option (outcome apply_err unit) * Engine C FS St :=
  if e_closed e then (Some (Fail ErrClosed), e)
  else if decide (e_state e <> StateLeader) then (Some (Fail (ErrNotLeader (e_leaderID e))), e)
  else if decide (matchCountLocked index e >= quorumLocked e) then
    if decide (index > e_commitIndex e) then
      let e := applyCommittedLocked (persist (with_commit index (e_lastApplied e) e)) in
      let '(ok, e) := maybeSnapshotLocked e in
      (Some (if ok then Ret tt else Fail ErrSnapshot), e)
    else (Some (Ret tt), e)
  else (None, e).

(** One look of [Barrier]. *)
Definition barrier_check e : option (outcome apply_err unit) :=
  if e_closed e then Some (Fail ErrClosed)
  else if decide (e_lastApplied e >= e_commitIndex e) then Some (Ret tt) else None.

Definition AddPeer (addr : string) e : Engine C FS St :=
  if decide (addr ∈ e_peers e) then e else with_peers (e_peers e ++ [addr]) e.

Definition RemovePeer (addr : string) e : Engine C FS St :=
  with_progress (delete addr (e_nextIndex e)) (delete addr (e_matchIndex e))
    (with_peers (filter (fun p => p <> addr) (e_peers e)) e).

Definition IsLeader e : bool := negb (e_closed e) && bool_decide (e_state e = StateLeader).
Definition Shutdown e : Engine C FS St := with_closed true e.

(** [NewEngine] on a store: [None] when the id or the peers are missing, the store cannot
    be loaded or a snapshot cannot be restored. *)
Definition NewEngine (id : string) (peers : list string) (threshold : Z) (st : St) (f0 : FS)
  : option (Engine C FS St) :=
  if decide (id = ""%string \/ peers = []) then None else
  ps ← st_load st;
  let e := mkEngine id peers StateFollower (ps_CurrentTerm ps) (ps_VotedFor ps) (ps_Log ps) (ps_CommitIndex ps)
             (sn_Index (ps_Snapshot ps)) (ps_Snapshot ps) ""%string ∅ ∅ threshold false st f0 [] in
  match sn_Data (e_snapshot e) with
  | [] => Some (applyCommittedLocked e)
  | _ =>
      match fsm_Snapshot fsm with
      | None => None
      | Some (_, restore) => (fun f => applyCommittedLocked (with_fsm f e)) <$> restore (sn_Data (e_snapshot e)) f0
      end
  end.

(** ** What the operations leave alone *)

Context `{!StoreLaws C St}.

(** The identity and the role of an engine. *)
Definition ident e : string * list string := (e_id e, e_peers e).
Definition role e : rstate * Z * string := (e_state e, e_currentTerm e, e_votedFor e).

(** The store works and has the state. *)
Definition synced e : Prop := st_healthy (e_store e) /\ st_load (e_store e) = Some (st_kept St (persisted e)).

(** The fields that survive a restart, together with the store. *)
Definition durable e : persistedState C * St := (persisted e, e_store e).

Lemma persist_synced e : st_healthy (e_store e) -> synced (persist e).
Proof.
  intros Hs. destruct (st_save_law (e_store e) (persisted e) Hs) as (s' & E & Hh & Hl).
  unfold synced, persist, persistLocked. cbn [snd with_store e_store]. rewrite E. by split.
Qed.

Lemma apply_loop_frame n e :
  ident (apply_loop n e) = ident e /\ role (apply_loop n e) = role e /\ durable (apply_loop n e) = durable e.
Proof using.
  revert e. induction n as [|n IH]; intros e; [done|]. cbn [apply_loop]. cbv zeta.
  destruct (IH match entryAtLocked (e_lastApplied e + 1) (with_commit (e_commitIndex e) (e_lastApplied e + 1) e) with
    | Some (mkEntry _ _ (Some c)) =>
        with_fsm (fsm_Apply fsm c (e_fsm (with_commit (e_commitIndex e) (e_lastApplied e + 1) e)))
          (with_commit (e_commitIndex e) (e_lastApplied e + 1) e)
    | _ => with_commit (e_commitIndex e) (e_lastApplied e + 1) e end) as (-> & -> & ->).
  destruct (entryAtLocked _ _) as [[? ? []]|]; done.
Qed.

Lemma applyCommitted_frame e :
  ident (applyCommittedLocked e) = ident e /\ role (applyCommittedLocked e) = role e /\
  durable (applyCommittedLocked e) = durable e.
Proof using. apply apply_loop_frame. Qed.

Lemma synced_durable e e' : durable e' = durable e -> synced e -> synced e'.
Proof. unfold durable, synced. intros [= H1 H2 H3 H4 H5 H6] [Hh Hs]. rewrite H6. split; [done|]. rewrite Hs. unfold persisted in *. congruence. Qed.

Lemma maybeSnapshot_frame e :
  synced e -> let e' := snd (maybeSnapshotLocked e) in ident e' = ident e /\ role e' = role e /\ synced e'.
Proof.
  intros Hs. unfold maybeSnapshotLocked. do 2 (case_decide; [done|]). destruct (fsm_Snapshot fsm) as [[sn ?]|]; [|done].
  destruct (sn (e_fsm e)) as [d|]; [|done]. split; [done|]. split; [done|]. apply persist_synced, Hs.
Qed.

Lemma commit_to_frame idx e :
  synced e -> ident (commit_to idx e) = ident e /\ role (commit_to idx e) = role e /\ synced (commit_to idx e).
Proof.
  intros Hs0. unfold commit_to. set (e1 := persist _). destruct (applyCommitted_frame e1) as (Hi & Hr & Hd).
  assert (synced (applyCommittedLocked e1)) as Hs by (eapply synced_durable; [done|]; apply persist_synced, Hs0).
  destruct (maybeSnapshot_frame _ Hs) as (-> & -> & ?). rewrite Hi, Hr. done.
Qed.

Lemma advance_loop_frame n idx e :
  synced e ->
  ident (advance_loop n idx e) = ident e /\ role (advance_loop n idx e) = role e /\ synced (advance_loop n idx e).
Proof.
  intros Hs. revert idx. induction n as [|n IH]; intros idx; [done|]. cbn [advance_loop].
  case_decide; [|done]. case_decide; [by apply commit_to_frame|apply IH].
Qed.

Lemma append_entries_frame l e :
  ident (foldl append_entry e l) = ident e /\ role (foldl append_entry e l) = role e /\ e_store (foldl append_entry e l) = e_store e.
Proof using.
  revert e. induction l as [|x l IH]; intros e; [done|]. cbn [foldl].
  destruct (IH (append_entry e x)) as (-> & -> & ->). unfold append_entry. repeat case_decide; done.
Qed.

Lemma stepDown_role term leader e : role (stepDownLocked term leader e) = (StateFollower, term, ""%string).
Proof using. unfold stepDownLocked. by case_bool_decide. Qed.

Lemma stepDown_frame term leader e :
  synced e -> ident (stepDownLocked term leader e) = ident e /\ synced (stepDownLocked term leader e).
Proof. intros [Hh _]. unfold stepDownLocked. case_bool_decide; (split; [done|]); by apply (persist_synced (with_role _ _ _ _ _)). Qed.

(** The role after a message of a leader of [term]. *)
Definition followed (term : Z) e : rstate * Z * string :=
  if decide (term > e_currentTerm e \/ e_state e <> StateFollower) then (StateFollower, term, ""%string)
  else role e.

Lemma follow_frame term leader e :
  synced e -> ident (follow term leader e) = ident e /\ role (follow term leader e) = followed term e /\
    synced (follow term leader e).
Proof.
  intros Hs. unfold follow, followed. cbv zeta. case_decide; [|done].
  destruct (stepDown_frame term leader e Hs) as [Hi Hd]. pose proof (stepDown_role term leader e) as Hr.
  set (e1 := stepDownLocked term leader e) in *. by rewrite <- Hi, <- Hr.
Qed.

Lemma handleAppendEntries_frame req e :
  synced e ->
  let e' := snd (handleAppendEntries req e) in
  ident e' = ident e /\ synced e' /\
  role e' = if decide (ae_Term req < e_currentTerm e) then role e else followed (ae_Term req) e.
Proof.
  intros Hs. unfold handleAppendEntries. case_decide; [done|].
  destruct (follow_frame (ae_Term req) (ae_LeaderID req) e Hs) as (Hi & Hr & Hd). cbv zeta.
  set (e1 := follow _ _ e) in *. case_decide; [done|]. case_decide; cbn [snd].
  - rewrite <- Hi, <- Hr. split_and!; [done|apply persist_synced, Hd|done].
  - destruct (append_entries_frame (ae_Entries req) e1) as (Hi2 & Hr2 & Hst2). set (e2 := foldl append_entry e1 _) in *.
    set (e3 := if decide (ae_LeaderCommit req > e_commitIndex e2) then _ else e2).
    assert (ident e3 = ident e2 /\ role e3 = role e2 /\ e_store e3 = e_store e2) as (Hi3 & Hr3 & Hst3) by (unfold e3; by case_decide).
    destruct (applyCommitted_frame (persist e3)) as (Hi4 & Hr4 & Hd4).
    rewrite Hi4, Hr4. split_and!.
    + change (ident e3 = ident e). congruence.
    + eapply synced_durable; [done|]. apply persist_synced. rewrite Hst3, Hst2. apply Hd.
    + change (role e3 = followed (ae_Term req) e). congruence.
Qed.

Lemma handleInstallSnapshot_frame req e :
  synced e ->
  let e' := snd (handleInstallSnapshot req e) in
  ident e' = ident e /\ synced e' /\
  role e' = if decide (is_Term req < e_currentTerm e) then role e else followed (is_Term req) e.
Proof.
  intros Hs. unfold handleInstallSnapshot. case_decide; [done|].
  destruct (follow_frame (is_Term req) (is_LeaderID req) e Hs) as (Hi & Hr & Hd). cbv zeta.
  set (e1 := follow _ _ e) in *. rewrite <- Hi, <- Hr.
  destruct (fsm_Snapshot fsm) as [[? restore]|]; [|done]. destruct (restore _ _); [|done].
  split; [done|]. split; [|done]. apply persist_synced, Hd.
Qed.

Lemma replicate_response_frame peer term resp e :
  synced e ->
  let e' := replicate_response peer term resp e in
  ident e' = ident e /\ synced e' /\
  (role e' = role e \/ aer_Term resp > e_currentTerm e /\ role e' = (StateFollower, aer_Term resp, ""%string)).
Proof.
  intros Hs. cbv zeta. unfold replicate_response. destruct (e_closed e || _ || _); [by auto|]. case_decide.
  { destruct (stepDown_frame (aer_Term resp) ""%string e Hs) as [-> ?]. rewrite stepDown_role. auto. }
  destruct (aer_Success resp).
  - set (e1 := with_progress _ _ e). unfold advanceCommitLocked.
    destruct (advance_loop_frame (Z.to_nat (lastIndexLocked e1 - e_commitIndex e1)) (lastIndexLocked e1) e1 Hs)
      as (-> & -> & ?). auto.
  - case_decide; auto.
Qed.

Lemma snapshot_response_frame peer term index resp e :
  synced e ->
  let e' := snapshot_response peer term index resp e in
  ident e' = ident e /\ synced e' /\
  (role e' = role e \/ isr_Term resp > e_currentTerm e /\ role e' = (StateFollower, isr_Term resp, ""%string)).
Proof.
  intros Hs. cbv zeta. unfold snapshot_response. destruct (e_closed e || _ || _); [by auto|]. case_decide.
  { destruct (stepDown_frame (isr_Term resp) ""%string e Hs) as [-> ?]. rewrite stepDown_role. auto. }
  destruct (isr_Success resp); auto.
Qed.

Lemma apply_append_frame cmd e :
  synced e -> let e' := snd (apply_append cmd e) in ident e' = ident e /\ role e' = role e /\ synced e'.
Proof.
  intros Hs. unfold apply_append. destruct cmd as [c|]; [|done]. destruct (e_closed e); [done|]. case_decide; [done|].
  split; [done|]. split; [done|]. apply persist_synced, Hs.
Qed.

Lemma apply_check_frame index e :
  synced e -> let e' := snd (apply_check index e) in ident e' = ident e /\ role e' = role e /\ synced e'.
Proof.
  intros Hs. unfold apply_check. case_match; [done|]. case_decide; [done|]. case_decide; [|done].
  case_decide; [|done]. cbv zeta. set (e1 := persist _).
  destruct (applyCommitted_frame e1) as (Hi & Hr & Hd).
  assert (synced (applyCommittedLocked e1)) as Hs' by (eapply synced_durable; [done|]; apply persist_synced, Hs).
  pose proof (maybeSnapshot_frame _ Hs') as Hm.
  destruct (maybeSnapshotLocked (applyCommittedLocked e1)) as [ok e2]. cbn [snd] in *. destruct Hm as (-> & -> & ?). rewrite Hi, Hr. done.
Qed.

(** ** Where the entries of a log come from *)

Lemma durable_log e e' : durable e' = durable e -> e_log e' = e_log e.
Proof using. intros Hd. exact (f_equal (fun d => ps_Log d.1) Hd). Qed.

Lemma Forall_kept (Q R : LogEntry C -> Prop) `{!forall x, Decision (R x)} l : Forall Q l -> Forall Q (filter R l).
Proof using. rewrite !list.Forall_forall. intros HQ x [_ Hx]%list_elem_of_filter. auto. Qed.

Section entries.
Context (Q : LogEntry C -> Prop).

Lemma append_entries_from l e : Forall Q (e_log e) -> Forall Q l -> Forall Q (e_log (foldl append_entry e l)).
Proof using.
  intros He Hl. revert e He. induction Hl as [|x l Hx Hl IH]; intros e He; [done|]. cbn [foldl]. apply IH. unfold append_entry.
  case_decide; [case_decide; [|done]|]; (apply Forall_app_2; [|by apply Forall_singleton]); [|done]. by apply (Forall_kept Q).
Qed.

Lemma maybeSnapshot_from e : Forall Q (e_log e) -> Forall Q (e_log (snd (maybeSnapshotLocked e))).
Proof using.
  intros He. unfold maybeSnapshotLocked. do 2 (case_decide; [done|]). destruct (fsm_Snapshot fsm) as [[sn ?]|]; [|done].
  destruct (sn (e_fsm e)); [|done]. by apply Forall_kept.
Qed.

Lemma applyCommitted_from e : Forall Q (e_log e) -> Forall Q (e_log (applyCommittedLocked e)).
Proof using. destruct (applyCommitted_frame e) as (_ & _ & Hd). by rewrite (durable_log _ _ Hd). Qed.

Lemma stepDown_log term leader e : e_log (stepDownLocked term leader e) = e_log e.
Proof using. unfold stepDownLocked. by case_bool_decide. Qed.

Lemma follow_log term leader e : e_log (follow term leader e) = e_log e.
Proof using. unfold follow. case_decide; [apply stepDown_log|done]. Qed.

Lemma handleRequestVote_log req e : e_log (snd (handleRequestVote req e)) = e_log e.
Proof using.
  unfold handleRequestVote. case_decide; [done|]. cbv zeta. case_decide; case_match; cbn; auto using stepDown_log.
Qed.

Lemma handleAppendEntries_from req e :
  Forall Q (e_log e) -> Forall Q (ae_Entries req) -> Forall Q (e_log (snd (handleAppendEntries req e))).
Proof using.
  intros He Hr. unfold handleAppendEntries. case_decide; [done|]. cbv zeta. pose proof (follow_log (ae_Term req) (ae_LeaderID req) e) as Hf.
  set (e1 := follow _ _ e) in *. case_decide; [cbn [snd]; by rewrite Hf|]. case_decide; cbn [snd].
  - apply (Forall_kept Q). by rewrite Hf.
  - apply applyCommitted_from. change (e_log (persist ?e)) with (e_log e). rewrite <- Hf in He.
    pose proof (append_entries_from _ _ He Hr). by case_decide.
Qed.

Lemma handleInstallSnapshot_from req e : Forall Q (e_log e) -> Forall Q (e_log (snd (handleInstallSnapshot req e))).
Proof using.
  intros He. unfold handleInstallSnapshot. case_decide; [done|]. cbv zeta. pose proof (follow_log (is_Term req) (is_LeaderID req) e) as Hf.
  set (e1 := follow _ _ e) in *. destruct (fsm_Snapshot fsm) as [[? restore]|]; [|cbn [snd]; by rewrite Hf].
  destruct (restore _ _); [|cbn [snd]; by rewrite Hf]. apply (Forall_kept Q). change (Forall Q (e_log e1)). by rewrite Hf.
Qed.

Lemma advance_loop_from n idx e : Forall Q (e_log e) -> Forall Q (e_log (advance_loop n idx e)).
Proof using.
  intros He. revert idx. induction n as [|n IH]; intros idx; [done|]. cbn [advance_loop]. case_decide; [|done]. case_decide; [|apply IH].
  by apply maybeSnapshot_from, applyCommitted_from.
Qed.

Lemma replicate_response_from peer term resp e : Forall Q (e_log e) -> Forall Q (e_log (replicate_response peer term resp e)).
Proof using.
  intros He. unfold replicate_response. destruct (e_closed e || _ || _); [done|]. case_decide; [by rewrite stepDown_log|].
  destruct (aer_Success resp); [by apply advance_loop_from|]. by case_decide.
Qed.

Lemma snapshot_response_log peer term index resp e : e_log (snapshot_response peer term index resp e) = e_log e.
Proof using.
  unfold snapshot_response. destruct (e_closed e || _ || _); [done|]. case_decide; [apply stepDown_log|]. by destruct (isr_Success resp).
Qed.

Lemma apply_append_from cmd e :
  Forall Q (e_log e) -> (forall index c, cmd = Some c -> Q (mkEntry index (e_currentTerm e) cmd)) ->
  Forall Q (e_log (snd (apply_append cmd e))).
Proof using.
  intros He Hc. unfold apply_append. destruct cmd as [c|]; [|done]. destruct (e_closed e); [done|]. case_decide; [done|].
  apply Forall_app_2; [done|]. apply Forall_singleton. by eapply Hc.
Qed.

Lemma apply_check_from index e : Forall Q (e_log e) -> Forall Q (e_log (snd (apply_check index e))).
Proof using.
  intros He. unfold apply_check. case_match; [done|]. case_decide; [done|]. case_decide; [|done]. case_decide; [|done]. cbv zeta.
  pose proof (maybeSnapshot_from (applyCommittedLocked (persist (with_commit index (e_lastApplied e) e)))) as Hm.
  destruct (maybeSnapshotLocked _) as [ok e2]. by apply Hm, applyCommitted_from.
Qed.

Lemma replicate_request_from peer e req :
  Forall Q (e_log e) -> replicate_request peer e = Some (inl req) -> Forall Q (ae_Entries req).
Proof using.
  intros He. unfold replicate_request. destruct (e_closed e || _); [done|]. cbv zeta.
  destruct (decide (_ <= sn_Index _ /\ _)); intros [= <-]. by apply Forall_kept.
Qed.
End entries.
End engine.
