(* ===== verification/RaftLog.v ===== *)
(** * RaftLog: the log of the native engine

    A log is contiguous: its entries carry the indices after the snapshot, one after
    the other.  On such logs [handleAppendEntries] is the merge of the Raft paper:
    the entries of the request replace the log from the first conflict of terms. *)

From S2P Require Import Prelude Raft.

Section log.
Context {C FS St : Type} `{Hstore : !Store C St} (fsm : StateMachine C FS).
Implicit Types (e : Engine C FS St) (l es : list (LogEntry C)).

Definition contiguous (base : Z) l : Prop :=
  forall k x, l !! k = Some x -> le_Index x = base + 1 + Z.of_nat k.

(** The reference: entries that agree in their term are kept, the first one that does
    not and everything after it is replaced. *)
Fixpoint merge_log l es : list (LogEntry C) :=
  match l, es with
  | x :: l, y :: es => if decide (le_Term x = le_Term y) then x :: merge_log l es else y :: es
  | [], _ => es
  | _, [] => l
  end.

Definition base e : Z := sn_Index (e_snapshot e).

(** The invariant of a log. *)
Definition log_ok e : Prop := 0 <= base e /\ contiguous (base e) (e_log e).

Lemma contiguous_app b l1 l2 :
  contiguous b l1 -> contiguous (b + Z.of_nat (length l1)) l2 -> contiguous b (l1 ++ l2).
Proof.
  intros H1 H2 k x Hx. apply lookup_app_Some in Hx as [Hx|[Hk Hx]]; [auto|]. rewrite (H2 _ _ Hx). lia.
Qed.

Lemma contiguous_take b l n : contiguous b l -> contiguous b (take n l).
Proof. intros H k x Hx. apply lookup_take_Some in Hx as [Hx _]. auto. Qed.

Lemma contiguous_cons b x l : contiguous b (x :: l) -> le_Index x = b + 1 /\ contiguous (b + 1) l.
Proof.
  intros H. split; [rewrite (H 0%nat x eq_refl); lia|]. intros k y Hy. rewrite (H (S k) y Hy). lia.
Qed.

Lemma contiguous_drop b l n : contiguous b l -> contiguous (b + Z.of_nat n) (drop n l).
Proof. intros H k x Hx. rewrite lookup_drop in Hx. rewrite (H _ _ Hx). lia. Qed.

Lemma merge_log_contiguous b l es : contiguous b l -> contiguous b es -> contiguous b (merge_log l es).
Proof.
  revert b es. induction l as [|x l IH]; intros b [|y es] Hl Hes; cbn [merge_log]; try done.
  destruct (decide (le_Term x = le_Term y)); [|done].
  apply contiguous_cons in Hl as [Hx Hl]. apply contiguous_cons in Hes as [_ Hes].
  intros [|k] z Hz; [injection Hz as <-; lia|]. rewrite (IH _ _ Hl Hes k z Hz). lia.
Qed.

Lemma lastIndex_ok e : log_ok e -> lastIndexLocked e = base e + Z.of_nat (length (e_log e)).
Proof.
  intros [_ H]. unfold lastIndexLocked. rewrite last_lookup.
  destruct (e_log e !! _) as [x|] eqn:E; rewrite ?E.
  - rewrite (H _ _ E). apply lookup_lt_Some in E. lia.
  - apply lookup_ge_None in E. unfold base. lia.
Qed.

Lemma entryAt_ok e k x : log_ok e -> e_log e !! k = Some x -> entryAtLocked (base e + 1 + Z.of_nat k) e = Some x.
Proof.
  intros [_ H] Hk. unfold entryAtLocked.
  assert (list_find (fun y => le_Index y = base e + 1 + Z.of_nat k) (e_log e) = Some (k, x)) as ->; [|done].
  apply list_find_Some. split_and!; [done|by apply H|]. intros j y Hy Hj. rewrite (H _ _ Hy). lia.
Qed.

Lemma termAt_ok e k x : log_ok e -> e_log e !! k = Some x -> termAtLocked (base e + 1 + Z.of_nat k) e = le_Term x.
Proof.
  intros Hok Hk. pose proof Hok as [? _]. unfold termAtLocked. rewrite (entryAt_ok e k x Hok Hk). unfold base in *.
  rewrite !decide_False by lia. done.
Qed.

Lemma filter_le b l i : contiguous b l -> filter (fun x => le_Index x <= i) l = take (Z.to_nat (i - b)) l.
Proof.
  revert b. induction l as [|x l IH]; intros b H; [by rewrite take_nil|]. apply contiguous_cons in H as [Hx H].
  destruct (decide (le_Index x <= i)).
  - rewrite filter_cons_True, (IH _ H) by lia. replace (Z.to_nat (i - b)) with (S (Z.to_nat (i - (b + 1)))) by lia.
    done.
  - rewrite filter_cons_False, (IH _ H) by lia. by replace (Z.to_nat (i - b)) with 0%nat by lia;
      replace (Z.to_nat (i - (b + 1))) with 0%nat by lia.
Qed.

(** ** Truncating and appending *)

Lemma truncate_log i e :
  log_ok e -> base e <= i -> e_log (truncateAfterLocked i e) = take (Z.to_nat (i - base e)) (e_log e).
Proof.
  intros [_ H] Hi. unfold truncateAfterLocked. cbn [with_commit with_log e_log].
  rewrite Z.max_l by done. by apply filter_le.
Qed.

(** One entry of a request, at the position [k] of the log. *)
Lemma append_entry_log e k y :
  log_ok e -> (k <= length (e_log e))%nat -> le_Index y = base e + 1 + Z.of_nat k -> le_Index y < 2 ^ 64 ->
  base (append_entry e y) = base e /\
  e_log (append_entry e y) =
    match e_log e !! k with
    | Some x => if decide (le_Term x = le_Term y) then e_log e else take k (e_log e) ++ [y]
    | None => e_log e ++ [y]
    end.
Proof.
  intros Hok Hk Hy Hw. unfold append_entry. rewrite (lastIndex_ok e Hok). destruct (e_log e !! k) as [x|] eqn:E.
  - pose proof (lookup_lt_Some _ _ _ E). rewrite decide_True by lia.
    rewrite Hy, (termAt_ok e k x Hok E). destruct (decide (le_Term x <> le_Term y)) as [Hne|He].
    + rewrite decide_False by done. split; [done|]. cbn [with_log e_log]. pose proof Hok as [? _].
      rewrite wrap_small by u_lia. rewrite truncate_log by (done || lia). do 2 f_equal. lia.
    + rewrite decide_True by (by apply dec_stable). done.
  - apply lookup_ge_None in E. rewrite decide_False by lia. done.
Qed.

Lemma append_entries_log es e k :
  log_ok e -> (k <= length (e_log e))%nat -> contiguous (base e + Z.of_nat k) es ->
  base e + Z.of_nat k + Z.of_nat (length es) < 2 ^ 64 ->
  base (foldl append_entry e es) = base e /\
  e_log (foldl append_entry e es) = take k (e_log e) ++ merge_log (drop k (e_log e)) es.
Proof.
  revert e k. induction es as [|y es IH]; intros e k Hok Hk Hes Hw; cbn [foldl].
  { split; [done|]. rewrite <- (take_drop k (e_log e)) at 1. f_equal. by destruct (drop k (e_log e)). }
  apply contiguous_cons in Hes as [Hy Hes]. cbn [length] in Hw.
  destruct (append_entry_log e k y Hok Hk) as [Hb Hl]; [lia..|].
  assert (contiguous (base e) (e_log (append_entry e y)) /\ (S k <= length (e_log (append_entry e y)))%nat /\
    take (S k) (e_log (append_entry e y)) ++ merge_log (drop (S k) (e_log (append_entry e y))) es =
    take k (e_log e) ++ merge_log (drop k (e_log e)) (y :: es)) as (Hok' & Hk' & Heq).
  { pose proof Hok as [? Hc]. rewrite Hl. destruct (e_log e !! k) as [x|] eqn:E.
    - pose proof (lookup_lt_Some _ _ _ E). rewrite (drop_S _ _ _ E). cbn [merge_log].
      destruct (decide (le_Term x = le_Term y)).
      + split_and!; [done|lia|]. rewrite (take_S_r _ _ _ E). by rewrite <- app_assoc.
      + assert (length (take k (e_log e) ++ [y]) = S k) as Hlen
          by (rewrite length_app, length_take; cbn [length]; lia).
        split_and!; [|lia|].
        * apply contiguous_app; [by apply contiguous_take|]. rewrite length_take, Nat.min_l by lia.
          intros [|?] z Hz; [injection Hz as <-; lia|done].
        * rewrite take_ge, drop_ge by lia. cbn [merge_log]. by rewrite <- app_assoc.
    - apply lookup_ge_None in E. assert (k = length (e_log e)) as -> by lia.
      split_and!; [|rewrite length_app; cbn [length]; lia|].
      + apply contiguous_app; [done|]. intros [|?] z Hz; [injection Hz as <-; lia|done].
      + rewrite (take_ge (e_log e ++ [y])), (drop_ge (e_log e ++ [y])) by (rewrite length_app; cbn [length]; lia).
        rewrite take_ge, drop_ge by lia. cbn [merge_log]. by rewrite <- app_assoc. }
  destruct (IH (append_entry e y) (S k)) as [Hb2 Hl2].
  - split; rewrite Hb; [apply Hok|done].
  - done.
  - rewrite Hb. by replace (base e + Z.of_nat (S k)) with (base e + Z.of_nat k + 1) by lia.
  - rewrite Hb. lia.
  - split; [congruence|]. by rewrite Hl2.
Qed.
(** ** A request of the leader *)

(** The log and the snapshot. *)
Definition stored e : list (LogEntry C) * SnapshotRecord := (e_log e, e_snapshot e).

Lemma stored_log e e' : stored e' = stored e -> e_log e' = e_log e /\ base e' = base e.
Proof. unfold base. by intros [= -> ->]. Qed.

Lemma follow_stored term leader e : stored (follow term leader e) = stored e.
Proof. unfold follow, stepDownLocked. by case_decide; [case_bool_decide|]. Qed.

Lemma follow_term term leader e : e_currentTerm e <= term -> e_currentTerm (follow term leader e) = term.
Proof. intros H. unfold follow, stepDownLocked. case_decide as Hd; [by case_bool_decide|]. simpl. lia. Qed.

Lemma applyCommitted_stored e :
  stored (applyCommittedLocked fsm e) = stored e /\ e_currentTerm (applyCommittedLocked fsm e) = e_currentTerm e.
Proof. destruct (applyCommitted_frame fsm e) as (_ & _ & [= H1 H2 H3 H4 H5 _]). unfold stored. by rewrite H1, H3, H5. Qed.

Lemma stored_lastIndex e e' : stored e' = stored e -> lastIndexLocked e' = lastIndexLocked e.
Proof. unfold lastIndexLocked. by intros [= -> ->]. Qed.

Lemma stored_termAt i e e' : stored e' = stored e -> termAtLocked i e' = termAtLocked i e.
Proof. unfold termAtLocked, entryAtLocked. by intros [= -> ->]. Qed.

Lemma stored_ok e e' : stored e' = stored e -> log_ok e -> log_ok e'.
Proof. unfold log_ok, base. by intros [= -> ->]. Qed.

(** Whether the log has the entry before those of the request. *)
Definition accepts (req : appendEntriesRequest C) e : bool :=
  bool_decide (ae_PrevLogIndex req <= lastIndexLocked e) &&
  (bool_decide (ae_PrevLogIndex req = 0) || bool_decide (termAtLocked (ae_PrevLogIndex req) e = ae_PrevLogTerm req)).

(** What becomes of the log. *)
Definition merged (req : appendEntriesRequest C) e : list (LogEntry C) :=
  let k := ae_PrevLogIndex req - base e in
  if accepts req e then take (Z.to_nat k) (e_log e) ++ merge_log (drop (Z.to_nat k) (e_log e)) (ae_Entries req)
  else if bool_decide (ae_PrevLogIndex req > lastIndexLocked e) then e_log e
  else take (Z.to_nat (k - 1)) (e_log e).

Lemma merged_contiguous req e :
  log_ok e -> base e <= ae_PrevLogIndex req -> contiguous (ae_PrevLogIndex req) (ae_Entries req) ->
  contiguous (base e) (merged req e).
Proof.
  intros Hok Hb He. pose proof Hok as [H0 Hc]. unfold merged. destruct (accepts req e) eqn:Ea.
  - apply andb_prop in Ea as [Hp _]. apply bool_decide_eq_true_1 in Hp. rewrite (lastIndex_ok e Hok) in Hp.
    apply contiguous_app; [by apply contiguous_take|]. rewrite length_take, Nat.min_l by lia.
    apply merge_log_contiguous; [by apply contiguous_drop|].
    by replace (base e + Z.of_nat (Z.to_nat (ae_PrevLogIndex req - base e))) with (ae_PrevLogIndex req) by lia.
  - case_bool_decide; [done|by apply contiguous_take].
Qed.

Lemma append_entries_term es e : e_currentTerm (foldl append_entry e es) = e_currentTerm e.
Proof.
  destruct (append_entries_frame es e) as (_ & Hr & _).
  change ((role (foldl append_entry e es)).1.2 = (role e).1.2). by rewrite Hr.
Qed.

(** The part of the handler after the check of the previous entry. *)
Lemma append_log req e :
  log_ok e -> base e <= ae_PrevLogIndex req <= lastIndexLocked e ->
  contiguous (ae_PrevLogIndex req) (ae_Entries req) ->
  ae_PrevLogIndex req + Z.of_nat (length (ae_Entries req)) < 2 ^ 64 ->
  let e2 := foldl append_entry e (ae_Entries req) in
  let e3 := if decide (ae_LeaderCommit req > e_commitIndex e2)
            then with_commit (Z.min (ae_LeaderCommit req) (lastIndexLocked e2)) (e_lastApplied e2) e2 else e2 in
  let e4 := applyCommittedLocked fsm (persist e3) in
  let k := Z.to_nat (ae_PrevLogIndex req - base e) in
  e_currentTerm e4 = e_currentTerm e /\ base e4 = base e /\
  e_log e4 = take k (e_log e) ++ merge_log (drop k (e_log e)) (ae_Entries req).
Proof.
  intros Hok [Hb Hp] Hes Hw e2 e3 e4 k. rewrite (lastIndex_ok e Hok) in Hp.
  destruct (append_entries_log (ae_Entries req) e k) as [Hb2 Hl2]; [done|lia| |lia|].
  { by replace (base e + Z.of_nat k) with (ae_PrevLogIndex req) by lia. }
  pose proof (append_entries_term (ae_Entries req) e) as Ht2. fold e2 in Hb2, Hl2, Ht2.
  assert (stored (persist e3) = stored e2 /\ e_currentTerm (persist e3) = e_currentTerm e2) as [Hs3 Ht3]
    by (unfold e3; destruct (decide (_ > _)); done).
  destruct (applyCommitted_stored (persist e3)) as [Hs4 Ht4]. fold e4 in Hs4, Ht4.
  rewrite Hs3 in Hs4. apply stored_log in Hs4 as [Hl4 Hb4]. split_and!; congruence.
Qed.

(** The part that refuses a previous entry of another term. *)
Lemma refuse_log i e :
  log_ok e -> base (persist (truncateAfterLocked (i - 1) e)) = base e /\
  e_log (persist (truncateAfterLocked (i - 1) e)) = take (Z.to_nat (i - base e - 1)) (e_log e).
Proof.
  intros Hok. split; [done|]. cbn [persist persistLocked snd with_store e_log truncateAfterLocked with_commit with_log].
  rewrite (filter_le (base e)) by apply Hok. f_equal. unfold base. lia.
Qed.

(** A request of the current term or a newer one, for the part of the log after the
    snapshot. *)
Lemma append_merges req e resp e' :
  log_ok e -> e_currentTerm e <= ae_Term req -> base e <= ae_PrevLogIndex req ->
  contiguous (ae_PrevLogIndex req) (ae_Entries req) ->
  ae_PrevLogIndex req + Z.of_nat (length (ae_Entries req)) < 2 ^ 64 ->
  handleAppendEntries fsm req e = (resp, e') ->
  aer_Success resp = accepts req e /\ aer_Term resp = ae_Term req /\ aer_MatchIndex resp = lastIndexLocked e' /\
  e_log e' = merged req e /\ base e' = base e /\ log_ok e'.
Proof.
  intros Hok Ht Hb Hes Hw. pose proof (merged_contiguous req e Hok Hb Hes) as Hm. pose proof Hok as [H0 _].
  assert (forall e2, base e2 = base e -> e_log e2 = merged req e -> log_ok e2) as Hend
    by (intros e2 Hb2 Hl2; split; by rewrite Hb2, ?Hl2).
  pose proof (follow_stored (ae_Term req) (ae_LeaderID req) e) as Hf.
  pose proof (follow_term (ae_Term req) (ae_LeaderID req) e Ht) as Hft.
  unfold handleAppendEntries. rewrite decide_False by lia. cbv zeta. set (e1 := follow _ _ e) in *.
  pose proof (stored_lastIndex _ _ Hf) as Hlast. pose proof (stored_termAt (ae_PrevLogIndex req) _ _ Hf) as Hterm.
  pose proof (stored_ok _ _ Hf Hok) as Hok1. apply stored_log in Hf as [Hlog Hbase].
  unfold merged, accepts in *. rewrite <- Hlast, <- Hterm, <- Hlog, <- Hbase in *.
  destruct (decide (ae_PrevLogIndex req > lastIndexLocked e1)) as [Hg|Hg].
  { rewrite !(bool_decide_eq_false_2 (_ <= _)) in * by lia. rewrite !(bool_decide_eq_true_2 (_ > _)) in * by lia.
    intros [= <- <-]. cbn [aer_Success aer_Term aer_MatchIndex andb] in *. split_and!; auto. }
  rewrite !(bool_decide_eq_true_2 (_ <= _)) in * by lia. rewrite !(bool_decide_eq_false_2 (_ > _)) in * by lia.
  cbn [andb] in *. destruct (decide (_ > 0 /\ _)) as [[Hp Hq]|Hq].
  - rewrite !(bool_decide_eq_false_2 (ae_PrevLogIndex req = 0)) in * by lia.
    rewrite !(bool_decide_eq_false_2 _ Hq) in *. intros [= <- <-].
    destruct (refuse_log (ae_PrevLogIndex req) e1 Hok1) as [Hb2 Hl2]. cbn [aer_Success aer_Term aer_MatchIndex orb] in *.
    auto 10.
  - assert (bool_decide (ae_PrevLogIndex req = 0) ||
            bool_decide (termAtLocked (ae_PrevLogIndex req) e1 = ae_PrevLogTerm req) = true) as Ha.
    { destruct (decide (ae_PrevLogIndex req = 0)) as [E|E]; [by rewrite (bool_decide_eq_true_2 _ E)|].
      destruct (decide (termAtLocked (ae_PrevLogIndex req) e1 = ae_PrevLogTerm req)) as [E'|E'].
      - rewrite (bool_decide_eq_true_2 _ E'). apply orb_true_r.
      - destruct Hq. split; [lia|done]. }
    rewrite Ha in *. destruct (append_log req e1 Hok1 ltac:(lia) Hes Hw) as (Ht4 & Hb4 & Hl4).
    intros [= <- <-]. cbn [aer_Success aer_Term aer_MatchIndex].
    split_and!; [done|congruence|done|done|done|by apply Hend].
Qed.

(** The log has no entry of the snapshot. *)
Lemma termAt_compacted i e : log_ok e -> 0 < i < base e -> termAtLocked i e = 0.
Proof.
  intros [_ Hc] Hi. unfold termAtLocked, entryAtLocked. rewrite !decide_False by (unfold base in *; lia).
  destruct (list_find _ _) as [[k x]|] eqn:E; [|done]. apply list_find_Some in E as (Hk & Hx & _). rewrite (Hc _ _ Hk) in Hx. lia.
Qed.

(** A request whose previous entry the follower has compacted. *)
Lemma append_compacted req e resp e' :
  log_ok e -> e_currentTerm e <= ae_Term req -> 0 < ae_PrevLogIndex req < base e -> ae_PrevLogTerm req <> 0 ->
  handleAppendEntries fsm req e = (resp, e') ->
  aer_Success resp = false /\ e_log e' = [] /\ base e' = base e.
Proof.
  intros Hok Ht Hp Hpt. pose proof (follow_stored (ae_Term req) (ae_LeaderID req) e) as Hf.
  unfold handleAppendEntries. rewrite decide_False by lia. cbv zeta. set (e1 := follow _ _ e) in *.
  pose proof (stored_ok _ _ Hf Hok) as Hok1. apply stored_log in Hf as [Hlog Hbase].
  rewrite (decide_False (P := ae_PrevLogIndex req > lastIndexLocked e1)) by (rewrite (lastIndex_ok e1 Hok1); lia).
  rewrite decide_True by (split; [lia|rewrite termAt_compacted by (done || lia); congruence]).
  intros [= <- <-]. destruct (refuse_log (ae_PrevLogIndex req) e1 Hok1) as [Hb Hl]. split; [done|]. split; [|congruence].
  rewrite Hl. by replace (Z.to_nat (ae_PrevLogIndex req - base e1 - 1)) with 0%nat by lia.
Qed.

End log.

(** A follower with three entries of term 1 that gets, after the first, one it has and
    two of term 2. *)
Definition sample_log (terms : list Z) (from : Z) : list (LogEntry Z) :=
  imap (fun k t => mkEntry (from + 1 + Z.of_nat k) t (Some t)) terms.

Definition sample_follower : Engine Z (list Z) (persistedState Z) :=
  mkEngine "b" ["a"; "b"; "c"]%string StateFollower 1 ""%string (sample_log [1; 1; 1] 0) 1 1 (mkSnapshot 0 0 []) "a"
    ∅ ∅ 0 false no_state [1] [].

Definition sample_request : appendEntriesRequest Z := mkAEReq 2 "c" 1 1 (sample_log [1; 2; 2] 1) 3.

Lemma sample_log_contiguous terms from : contiguous from (sample_log terms from).
Proof. intros k x Hx. apply list_lookup_imap_Some in Hx as (t & _ & ->). done. Qed.

