(* ===== verification/RaftNet.v ===== *)
(** * RaftNet: a cluster of native engines

    The critical sections of [Raft], interleaved over a network that delays, drops
    and duplicates messages: the state of a cluster, its step relation, and the
    property elections are for, one leader per term.  The goroutine of
    [electionLoop] runs one [startElection] at a time and calls the peers one after
    the other; other calls interleave with it freely.  The engines keep their state in a
    [FileStore], nodes crash between two critical sections, and peers are added and
    removed on each node on its own, as the handlers of the masters do. *)

From S2P Require Import Prelude Raft.

(** An election in progress: its request, the votes so far and the peers still to
    be called, the first of them being called now. *)
Record election := mkElection {
  el_req : requestVoteRequest;
  el_votes : Z;
  el_todo : list string;
}.

(** What a run is free of: a refused election that ends after its node has reached the
    term of the refusal (and terms that wrap around); failed saves; peers removed until the
    quorum of the node is no majority of all nodes. *)
Record regime := mkRegime { rg_timely : bool; rg_saves : bool; rg_majority : bool }.

Definition careful : regime := mkRegime true true true.

(** The quorum of a node with the peers [ps] is a majority of [nodes]. *)
Definition majority (nodes ps : list string) : Prop := Z.of_nat (length nodes) < 2 * (Z.of_nat (length ps) / 2 + 1).

#[export] Instance majority_dec nodes ps : Decision (majority nodes ps).
Proof. unfold majority. apply _. Defined.

Section cluster.
Context {C FS P : Type} `{Hcodec : !Codec C P} (fsm : StateMachine C FS).
(** All nodes, and the peers that each of them is configured with. *)
Context (nodes : list string) (conf : string -> list string) (threshold : Z) (f0 : FS).
Abbreviation node := (Engine C FS (FileStore P)).

Record cluster := mkCluster {
  cl_nodes : gmap string node;
  cl_elections : gmap string election;
  (** messages: receiver and request; caller, callee, term of the request and response *)
  cl_rv : list (string * requestVoteRequest);
  cl_rvr : list (string * string * Z * requestVoteResponse);
  cl_ae : list (string * appendEntriesRequest C);
  cl_aer : list (string * string * Z * appendEntriesResponse);
  cl_is : list (string * installSnapshotRequest);
  cl_isr : list (string * string * Z * Z * installSnapshotResponse);
  (** history: votes (term, voter, candidate) and elections won (term, leader) *)
  cl_grants : list (Z * string * string);
  cl_won : list (Z * string);
}.

Definition set_node (i : string) (e : node) (c : cluster) : cluster :=
  mkCluster (<[i := e]> (cl_nodes c)) (cl_elections c) (cl_rv c) (cl_rvr c) (cl_ae c) (cl_aer c) (cl_is c) (cl_isr c)
    (cl_grants c) (cl_won c).
Definition set_elections (m : gmap string election) (c : cluster) : cluster :=
  mkCluster (cl_nodes c) m (cl_rv c) (cl_rvr c) (cl_ae c) (cl_aer c) (cl_is c) (cl_isr c) (cl_grants c) (cl_won c).
Definition send_rv (p : string) (r : requestVoteRequest) (c : cluster) : cluster :=
  mkCluster (cl_nodes c) (cl_elections c) ((p, r) :: cl_rv c) (cl_rvr c) (cl_ae c) (cl_aer c) (cl_is c) (cl_isr c)
    (cl_grants c) (cl_won c).
Definition send_rvr (i p : string) (t : Z) (r : requestVoteResponse) (c : cluster) : cluster :=
  mkCluster (cl_nodes c) (cl_elections c) (cl_rv c) ((i, p, t, r) :: cl_rvr c) (cl_ae c) (cl_aer c) (cl_is c) (cl_isr c)
    (cl_grants c) (cl_won c).
Definition send_ae (p : string) (r : appendEntriesRequest C) (c : cluster) : cluster :=
  mkCluster (cl_nodes c) (cl_elections c) (cl_rv c) (cl_rvr c) ((p, r) :: cl_ae c) (cl_aer c) (cl_is c) (cl_isr c)
    (cl_grants c) (cl_won c).
Definition send_aer (i p : string) (t : Z) (r : appendEntriesResponse) (c : cluster) : cluster :=
  mkCluster (cl_nodes c) (cl_elections c) (cl_rv c) (cl_rvr c) (cl_ae c) ((i, p, t, r) :: cl_aer c) (cl_is c) (cl_isr c)
    (cl_grants c) (cl_won c).
Definition send_is (p : string) (r : installSnapshotRequest) (c : cluster) : cluster :=
  mkCluster (cl_nodes c) (cl_elections c) (cl_rv c) (cl_rvr c) (cl_ae c) (cl_aer c) ((p, r) :: cl_is c) (cl_isr c)
    (cl_grants c) (cl_won c).
Definition send_isr (i p : string) (t x : Z) (r : installSnapshotResponse) (c : cluster) : cluster :=
  mkCluster (cl_nodes c) (cl_elections c) (cl_rv c) (cl_rvr c) (cl_ae c) (cl_aer c) (cl_is c) ((i, p, t, x, r) :: cl_isr c)
    (cl_grants c) (cl_won c).
Definition grant (t : Z) (voter cand : string) (c : cluster) : cluster :=
  mkCluster (cl_nodes c) (cl_elections c) (cl_rv c) (cl_rvr c) (cl_ae c) (cl_aer c) (cl_is c) (cl_isr c)
    ((t, voter, cand) :: cl_grants c) (cl_won c).
Definition win (t : Z) (i : string) (c : cluster) : cluster :=
  mkCluster (cl_nodes c) (cl_elections c) (cl_rv c) (cl_rvr c) (cl_ae c) (cl_aer c) (cl_is c) (cl_isr c)
    (cl_grants c) ((t, i) :: cl_won c).

(** The response of a vote: the count goes up, or the election is given up for the
    newer term of the response. *)
Definition election_reply (i : string) (el : election) (rest : list string) (resp : requestVoteResponse)
    (e : node) (c : cluster) : cluster :=
  if decide (rvr_Term resp > rv_Term (el_req el))
  then set_elections (delete i (cl_elections c)) (set_node i (election_newer_term resp e) c)
  else set_elections (<[i := mkElection (el_req el)
         (if rvr_VoteGranted resp then el_votes el + 1 else el_votes el) rest]> (cl_elections c)) c.

Inductive rstep (r : regime) (c : cluster) : cluster -> Prop :=
| StepBegin i e e' req :
    cl_nodes c !! i = Some e -> cl_elections c !! i = None -> election_begin e = (e', Some req) ->
    (rg_timely r = true -> e_currentTerm e + 1 < 2 ^ 64) ->
    rstep r c (grant (rv_Term req) i i (set_elections
      (<[i := mkElection req 1 (filter (fun p => p <> i) (e_peers e))]> (cl_elections c)) (set_node i e' c)))
| StepSendRV i el p rest :
    cl_elections c !! i = Some el -> el_todo el = p :: rest ->
    rstep r c (send_rv p (el_req el) c)
| StepDeliverRV p req e resp e' :
    (p, req) ∈ cl_rv c -> cl_nodes c !! p = Some e -> handleRequestVote req e = (resp, e') ->
    rstep r c (send_rvr (rv_CandidateID req) p (rv_Term req) resp
      ((if rvr_VoteGranted resp then grant (rv_Term req) p (rv_CandidateID req) else id) (set_node p e' c)))
| StepSkip i el p rest :
    cl_elections c !! i = Some el -> el_todo el = p :: rest ->
    rstep r c (set_elections (<[i := mkElection (el_req el) (el_votes el) rest]> (cl_elections c)) c)
| StepReply i el p rest resp e :
    cl_elections c !! i = Some el -> el_todo el = p :: rest -> cl_nodes c !! i = Some e ->
    (i, p, rv_Term (el_req el), resp) ∈ cl_rvr c ->
    (rg_timely r = true -> rvr_Term resp > rv_Term (el_req el) -> e_currentTerm e < rvr_Term resp) ->
    rstep r c (election_reply i el rest resp e c)
| StepFinish i el e :
    cl_elections c !! i = Some el -> el_todo el = [] -> cl_nodes c !! i = Some e ->
    let e' := election_finish (rv_Term (el_req el)) (el_votes el) e in
    rstep r c (set_elections (delete i (cl_elections c))
      ((if bool_decide (e_state e = StateCandidate) && bool_decide (e_state e' = StateLeader)
        then win (rv_Term (el_req el)) i else id) (set_node i e' c)))
| StepSendAE i p e req :
    cl_nodes c !! i = Some e -> p ∈ e_peers e -> p <> i -> replicate_request p e = Some (inl req) ->
    rstep r c (send_ae p req c)
| StepDeliverAE p req e resp e' :
    (p, req) ∈ cl_ae c -> cl_nodes c !! p = Some e -> handleAppendEntries fsm req e = (resp, e') ->
    rstep r c (send_aer (ae_LeaderID req) p (ae_Term req) resp (set_node p e' c))
| StepReplyAE i p t resp e :
    (i, p, t, resp) ∈ cl_aer c -> cl_nodes c !! i = Some e ->
    rstep r c (set_node i (replicate_response fsm p t resp e) c)
| StepSendIS i p e req :
    cl_nodes c !! i = Some e -> p ∈ e_peers e -> p <> i -> replicate_request p e = Some (inr req) ->
    rstep r c (send_is p req c)
| StepDeliverIS p req e resp e' :
    (p, req) ∈ cl_is c -> cl_nodes c !! p = Some e -> handleInstallSnapshot fsm req e = (resp, e') ->
    rstep r c (send_isr (is_LeaderID req) p (is_Term req) (is_LastIncludedIndex req) resp (set_node p e' c))
| StepReplyIS i p t x resp e :
    (i, p, t, x, resp) ∈ cl_isr c -> cl_nodes c !! i = Some e ->
    rstep r c (set_node i (snapshot_response p t x resp e) c)
| StepApply i cmd e :
    cl_nodes c !! i = Some e -> rstep r c (set_node i (snd (apply_append cmd e)) c)
| StepApplyCheck i index e :
    cl_nodes c !! i = Some e -> rstep r c (set_node i (snd (apply_check fsm index e)) c)
| StepRestart i e e' :
    cl_nodes c !! i = Some e -> NewEngine fsm i (conf i) threshold (e_store e) f0 = Some e' ->
    rstep r c (set_elections (delete i (cl_elections c)) (set_node i e' c))
| StepShutdown i e :
    cl_nodes c !! i = Some e -> rstep r c (set_node i (Shutdown e) c)
| StepAddPeer i addr e :
    cl_nodes c !! i = Some e -> rstep r c (set_node i (AddPeer addr e) c)
| StepRemovePeer i addr e :
    cl_nodes c !! i = Some e -> (rg_majority r = true -> majority nodes (e_peers (RemovePeer addr e))) ->
    rstep r c (set_node i (RemovePeer addr e) c)
| StepFaults i faults e :
    cl_nodes c !! i = Some e -> rg_saves r = false ->
    rstep r c (set_node i (with_store (mkFileStore (fl_file (e_store e)) faults) e) c).

(** A cluster that starts from nothing. *)
Definition new_node (i : string) : node :=
  mkEngine i (conf i) StateFollower 0 ""%string [] 0 0 (mkSnapshot 0 0 []) ""%string ∅ ∅ threshold false
    (mkFileStore None []) f0 [].

Definition init : cluster :=
  mkCluster (list_to_map ((fun i => (i, new_node i)) <$> nodes)) ∅ [] [] [] [] [] [] [] [].

(** ** The invariant *)

Context `{Hlaws : !CodecLaws C P}.

(** Distinct peers, whose quorum is a majority of all nodes. *)
Definition quorate (ps : list string) : Prop := NoDup ps /\ majority nodes ps.

Hypothesis Hnames : ""%string ∉ nodes.
Hypothesis Hconf : forall i, i ∈ nodes -> quorate (conf i).

Abbreviation grants := (list (Z * string * string)).
Abbreviation wins := (list (Z * string)).

(** [voters] are distinct nodes that voted for [i] in [t]. *)
Definition voted_by (g : grants) (t : Z) (i : string) (voters : list string) : Prop :=
  NoDup voters /\ voters ⊆ nodes /\ forall z, z ∈ voters -> (t, z, i) ∈ g.

Record node_inv (g : grants) (w : wins) (i : string) (e : node) : Prop := {
  ni_peer : i ∈ nodes;
  ni_id : e_id e = i;
  ni_quorate : quorate (e_peers e);
  ni_synced : synced e;
  ni_nonneg : 0 <= e_currentTerm e;
  ni_self : e_state e <> StateFollower -> e_votedFor e = i;
  ni_term : forall t cand, (t, i, cand) ∈ g -> t <= e_currentTerm e;
  ni_vote : forall t cand, (t, i, cand) ∈ g -> t = e_currentTerm e -> cand <> i -> e_votedFor e = cand;
  ni_won_term : forall t, (t, i) ∈ w -> t <= e_currentTerm e;
  ni_won : (e_currentTerm e, i) ∈ w -> e_votedFor e = i;
  ni_leader : e_state e = StateLeader -> (e_currentTerm e, i) ∈ w;
}.

Record election_inv (g : grants) (i : string) (el : election) : Prop := {
  ei_peer : i ∈ nodes;
  ei_cand : rv_CandidateID (el_req el) = i;
  ei_nodup : NoDup (el_todo el);
  ei_todo : i ∉ el_todo el;
  ei_votes : exists voters, voted_by g (rv_Term (el_req el)) i voters /\
    Z.of_nat (length voters) = el_votes el /\ forall z, z ∈ voters -> z ∉ el_todo el;
}.

Record cluster_inv (c : cluster) : Prop := {
  ci_nodes : forall i e, cl_nodes c !! i = Some e -> node_inv (cl_grants c) (cl_won c) i e;
  ci_elections : forall i el, cl_elections c !! i = Some el -> election_inv (cl_grants c) i el;
  ci_rv : forall p req, (p, req) ∈ cl_rv c -> rv_CandidateID req <> p /\ rv_CandidateID req ∈ nodes;
  ci_rvr : forall i p t resp, (i, p, t, resp) ∈ cl_rvr c -> rvr_VoteGranted resp = true -> (t, p, i) ∈ cl_grants c;
  ci_ae : forall p req, (p, req) ∈ cl_ae c -> ae_LeaderID req <> p /\ (ae_Term req, ae_LeaderID req) ∈ cl_won c;
  ci_is : forall p req, (p, req) ∈ cl_is c -> is_LeaderID req <> p /\ (is_Term req, is_LeaderID req) ∈ cl_won c;
  ci_cand : forall t z a, (t, z, a) ∈ cl_grants c -> z ∈ nodes /\ a ∈ nodes;
  ci_once : forall t z a b, (t, z, a) ∈ cl_grants c -> (t, z, b) ∈ cl_grants c -> a <> z -> b <> z -> a = b;
  ci_quorum : forall t i, (t, i) ∈ cl_won c -> exists voters,
    voted_by (cl_grants c) t i voters /\ Z.of_nat (length nodes) < 2 * Z.of_nat (length voters);
  ci_loyal : forall t i cand, (t, i) ∈ cl_won c -> (t, i, cand) ∈ cl_grants c -> cand = i;
  ci_unique : forall t a b, (t, a) ∈ cl_won c -> (t, b) ∈ cl_won c -> a = b;
}.

(** Two majorities share a node. *)
Lemma quorums_meet (q1 q2 : list string) :
  NoDup q1 -> NoDup q2 -> q1 ⊆ nodes -> q2 ⊆ nodes ->
  Z.of_nat (length nodes) < 2 * Z.of_nat (length q1) -> Z.of_nat (length nodes) < 2 * Z.of_nat (length q2) ->
  exists z, z ∈ q1 /\ z ∈ q2.
Proof using.
  intros H1 H2 S1 S2 L1 L2. destruct (decide (Exists (fun z => z ∈ q2) q1)) as [He|He].
  { apply Exists_exists in He as (z & ? & ?). eauto. }
  exfalso. assert (NoDup (q1 ++ q2)) as Hnd.
  { apply NoDup_app. split_and!; [done| |done]. intros z Hz Hz2. apply He, Exists_exists. eauto. }
  assert (length (q1 ++ q2) <= length nodes)%nat as Hl.
  { apply submseteq_length, NoDup_submseteq; [done|]. intros z Hz. apply elem_of_app in Hz as [|]; auto. }
  rewrite length_app in Hl. lia.
Qed.

(** ** Changes of one node *)

Lemma node_inv_role g w i e e' :
  node_inv g w i e -> ident e' = ident e -> synced e' -> role e' = role e -> node_inv g w i e'.
Proof using.
  intros [] [= Hid Hps] Hs [= Hst Ht Hv]. split; rewrite ?Hst, ?Ht, ?Hv, ?Hps; auto. congruence.
Qed.

Lemma node_inv_newer g w i e e' t :
  node_inv g w i e -> ident e' = ident e -> synced e' ->
  role e' = (StateFollower, t, ""%string) -> t > e_currentTerm e -> node_inv g w i e'.
Proof using.
  intros [] [= Hid Hps] Hs [= Hst Ht Hv] Hgt. split; rewrite ?Hst, ?Ht, ?Hv, ?Hps; auto; try done; try congruence; try lia.
  - intros t' cand H. specialize (ni_term0 _ _ H). lia.
  - intros t' cand H. specialize (ni_term0 _ _ H). lia.
  - intros t' H. specialize (ni_won_term0 _ H). lia.
  - intros H. specialize (ni_won_term0 _ H). lia.
Qed.

(** A candidate that follows a leader of its own term forgets its vote, which was
    for itself. *)
Lemma node_inv_cleared g w i e e' :
  node_inv g w i e -> ident e' = ident e -> synced e' ->
  role e' = (StateFollower, e_currentTerm e, ""%string) -> e_state e <> StateFollower ->
  (e_currentTerm e, i) ∉ w -> node_inv g w i e'.
Proof using.
  intros [] [= Hid Hps] Hs [= Hst Ht Hv] Hnf Hnw. split; rewrite ?Hst, ?Ht, ?Hv, ?Hps; auto; try done; try congruence.
  intros t cand H E Hne. specialize (ni_vote0 _ _ H E Hne). specialize (ni_self0 Hnf). congruence.
Qed.

(** Votes of others and wins of others do not matter to a node. *)
Lemma node_inv_other g g' w w' i e :
  (forall t cand, (t, i, cand) ∈ g' -> (t, i, cand) ∈ g) ->
  (forall t, (t, i) ∈ w' <-> (t, i) ∈ w) -> node_inv g w i e -> node_inv g' w' i e.
Proof using.
  intros Hg Hw []. split; auto; intros; rewrite ?Hw in *; eauto.
Qed.

Lemma inv_set_node c i e e' :
  cluster_inv c -> cl_nodes c !! i = Some e -> node_inv (cl_grants c) (cl_won c) i e' ->
  cluster_inv (set_node i e' c).
Proof using.
  intros [] Hi Hn. split; try done. intros j f Hj. cbn [set_node cl_nodes] in Hj.
  apply lookup_insert_Some in Hj as [[<- <-]|[_ Hj]]; auto.
Qed.

Lemma inv_del_election c i :
  cluster_inv c -> cluster_inv (set_elections (delete i (cl_elections c)) c).
Proof using.
  intros []. split; try done. intros j el Hj. cbn [set_elections cl_elections] in Hj.
  apply lookup_delete_Some in Hj as [_ Hj]. by apply ci_elections0.
Qed.

Lemma inv_set_election c i el :
  cluster_inv c -> election_inv (cl_grants c) i el ->
  cluster_inv (set_elections (<[i := el]> (cl_elections c)) c).
Proof using.
  intros [] He. split; try done. intros j el' Hj. cbn [set_elections cl_elections] in Hj.
  apply lookup_insert_Some in Hj as [[<- <-]|[_ Hj]]; auto.
Qed.

Lemma inv_send_rv c p r :
  cluster_inv c -> rv_CandidateID r <> p -> rv_CandidateID r ∈ nodes -> cluster_inv (send_rv p r c).
Proof using.
  intros [] H1 H2. split; try done. intros q r' Hq. apply elem_of_cons in Hq as [[= -> ->]|Hq]; auto.
Qed.

Lemma inv_send_rvr c i p t r :
  cluster_inv c -> (rvr_VoteGranted r = true -> (t, p, i) ∈ cl_grants c) -> cluster_inv (send_rvr i p t r c).
Proof using.
  intros [] H1. split; try done. intros j q t' r' Hq. apply elem_of_cons in Hq as [[= -> -> -> ->]|Hq]; eauto.
Qed.

Lemma inv_send_ae c p r :
  cluster_inv c -> ae_LeaderID r <> p -> (ae_Term r, ae_LeaderID r) ∈ cl_won c -> cluster_inv (send_ae p r c).
Proof using.
  intros [] H1 H2. split; try done. intros q r' Hq. apply elem_of_cons in Hq as [[= -> ->]|Hq]; auto.
Qed.

Lemma inv_send_is c p r :
  cluster_inv c -> is_LeaderID r <> p -> (is_Term r, is_LeaderID r) ∈ cl_won c -> cluster_inv (send_is p r c).
Proof using.
  intros [] H1 H2. split; try done. intros q r' Hq. apply elem_of_cons in Hq as [[= -> ->]|Hq]; auto.
Qed.

Lemma inv_send_aer c i p t r : cluster_inv c -> cluster_inv (send_aer i p t r c).
Proof using. intros []. by split. Qed.
Lemma inv_send_isr c i p t x r : cluster_inv c -> cluster_inv (send_isr i p t x r c).
Proof using. intros []. by split. Qed.

(** ** Votes *)

Lemma voted_by_mono g t z cand t' i voters : voted_by g t' i voters -> voted_by ((t, z, cand) :: g) t' i voters.
Proof using. intros (H1 & H2 & H3). split_and!; auto. intros v Hv. apply list_elem_of_further. auto. Qed.

Lemma election_inv_mono g t z cand i el : election_inv g i el -> election_inv ((t, z, cand) :: g) i el.
Proof using. intros []. split; auto. destruct ei_votes0 as (vs & ? & ? & ?). eauto using voted_by_mono. Qed.

(** Recording the vote of [z] for [cand] in its current term [t]. *)
Lemma inv_grant c z e t cand e' :
  cluster_inv c -> cl_nodes c !! z = Some e ->
  node_inv ((t, z, cand) :: cl_grants c) (cl_won c) z e' -> cand ∈ nodes ->
  (cand <> z -> forall b, (t, z, b) ∈ cl_grants c -> b <> z -> b = cand) ->
  (cand <> z -> (t, z) ∉ cl_won c) ->
  cluster_inv (grant t z cand (set_node z e' c)).
Proof using.
  intros [] Hz Hn Hcand Honce Hloyal. split; cbn [grant set_node cl_nodes cl_elections cl_rv cl_rvr cl_ae cl_is cl_grants cl_won];
    try done; eauto using election_inv_mono.
  - intros j f Hj. apply lookup_insert_Some in Hj as [[<- <-]|[Hne Hj]]; [done|].
    eapply node_inv_other; [| |by apply ci_nodes0]; [|done].
    intros t' b Hb. apply elem_of_cons in Hb as [[= -> -> ->]|Hb]; [by destruct Hne|done].
  - intros j p t' resp Hr Hg. apply list_elem_of_further. eauto.
  - intros t' y a Ha. apply elem_of_cons in Ha as [[= -> -> ->]|Ha]; [|eauto]. split; [|done]. apply Hn.
  - intros t' y a b Ha Hb Hay Hby.
    apply elem_of_cons in Ha as [Ha|Ha], Hb as [Hb|Hb]; simplify_eq; eauto.
    by rewrite (Honce Hay b Hb Hby).
  - intros t' j Hj. destruct (ci_quorum0 t' j Hj) as (vs & ? & ?). eauto using voted_by_mono.
  - intros t' j b Hj Hb. apply elem_of_cons in Hb as [[= -> -> ->]|Hb]; [|eauto].
    destruct (decide (cand = z)); [done|]. by destruct (Hloyal n).
Qed.

(** What a vote request does to the role of its receiver. *)
Lemma handleRequestVote_frame req (e : node) resp e' :
  synced e -> handleRequestVote req e = (resp, e') ->
  ident e' = ident e /\ synced e' /\
  (rvr_VoteGranted resp = false /\
     (role e' = role e \/ rv_Term req > e_currentTerm e /\ role e' = (StateFollower, rv_Term req, ""%string)) \/
   rvr_VoteGranted resp = true /\ e_currentTerm e' = rv_Term req /\ e_votedFor e' = rv_CandidateID req /\
     (rv_Term req > e_currentTerm e /\ e_state e' = StateFollower \/
      rv_Term req = e_currentTerm e /\ e_state e' = e_state e /\
        (e_votedFor e = ""%string \/ e_votedFor e = rv_CandidateID req))).
Proof using.
  intros Hs. unfold handleRequestVote. case_decide as Hlt.
  { intros [= <- <-]. split_and!; [done..|]. left. auto. }
  cbv zeta.
  case_decide as Hgt.
  - destruct (stepDown_frame (rv_Term req) ""%string e Hs) as [Hi Hd].
    pose proof (stepDown_role (rv_Term req) ""%string e) as Hr.
    set (e1 := stepDownLocked _ _ e) in *.
    destruct ((_ || _) && _) eqn:Ev; intros [= <- <-]; rewrite <- Hi.
    + split_and!; [done|apply persist_synced, Hd|]. right. injection Hr as H1 H2 H3. simpl. split_and!; try done. left. done.
    + split_and!; [done..|]. left. auto.
  - destruct ((_ || _) && _) eqn:Ev; intros [= <- <-].
    + split_and!; [done|apply persist_synced, Hs|]. right. simpl. split_and!; [done|lia|done|]. right. split_and!; [lia|done|].
      apply andb_prop in Ev as [Ev _]. apply orb_prop in Ev as [Ev|Ev]; apply bool_decide_eq_true_1 in Ev; auto.
    + split_and!; [done..|]. left. auto.
Qed.

Lemma inv_deliver_rv c p req e resp e' :
  cluster_inv c -> (p, req) ∈ cl_rv c -> cl_nodes c !! p = Some e -> handleRequestVote req e = (resp, e') ->
  cluster_inv (send_rvr (rv_CandidateID req) p (rv_Term req) resp
    ((if rvr_VoteGranted resp then grant (rv_Term req) p (rv_CandidateID req) else id) (set_node p e' c))).
Proof using Hnames.
  intros Hc Hreq Hp Hh. destruct (ci_rv c Hc p req Hreq) as [Hne Hcand].
  pose proof (ci_nodes c Hc p e Hp) as Hn. pose proof Hn as [].
  destruct (handleRequestVote_frame _ _ _ _ ni_synced0 Hh)
    as (Hi & Hs & [[Hg Hr]|(Hg & Ht & Hv & Hr)]); pose proof Hi as [= Hid Hps]; rewrite Hg; apply inv_send_rvr; try done.
  - eapply inv_set_node; [done..|]. destruct Hr as [Hr|[Hgt Hr]].
    + by eapply node_inv_role.
    + by eapply node_inv_newer.
  - by rewrite Hg.
  - destruct Hr as [[Hgt Hst]|(Heq & Hst & Hold)].
    + assert (forall b, (rv_Term req, p, b) ∉ cl_grants c) as Hnone
        by (intros b Hb; specialize (ni_term0 _ _ Hb); lia).
      assert ((rv_Term req, p) ∉ cl_won c) as Hnw by (intros Hw; specialize (ni_won_term0 _ Hw); lia).
      eapply inv_grant; [done..| |done| |done]; [|by intros _ b Hb%Hnone].
      split; rewrite ?Ht, ?Hv, ?Hst, ?Hps; try done; try congruence; try lia.
      * intros t b Hb. apply elem_of_cons in Hb as [[= -> ->]|Hb]; [lia|]. specialize (ni_term0 _ _ Hb). lia.
      * intros t b Hb -> Hbp. apply elem_of_cons in Hb as [[= ->]|Hb]; [done|]. by apply Hnone in Hb.
      * intros t Hw. specialize (ni_won_term0 _ Hw). lia.
    + assert (p <> ""%string) as Hp0 by (intros ->; done).
      assert (rv_CandidateID req <> ""%string) as Hc0 by (intros E; by rewrite E in Hcand).
      assert (e_votedFor e <> p) as Hnp by (destruct Hold as [->| ->]; auto).
      assert (e_state e = StateFollower) as Hfol by (destruct (e_state e); [done|by destruct Hnp; auto..]).
      assert (forall b, (rv_Term req, p, b) ∈ cl_grants c -> b <> p -> b = rv_CandidateID req) as Honce.
      { intros b Hb Hbp. pose proof (ni_vote0 _ _ Hb Heq Hbp) as E. destruct Hold as [E'|E']; [|congruence].
        destruct (ci_cand c Hc _ _ _ Hb) as [_ Hbpeer]. exfalso. apply Hnames. congruence. }
      assert ((rv_Term req, p) ∉ cl_won c) as Hnw by (rewrite Heq; auto).
      eapply inv_grant; [done..| |done|by auto|done].
      split; rewrite ?Ht, ?Hv, ?Hst, ?Hps; try done; try congruence; try lia.
      * intros t b Hb. apply elem_of_cons in Hb as [[= -> ->]|Hb]; [lia|]. specialize (ni_term0 _ _ Hb). lia.
      * intros t b Hb -> Hbp. apply elem_of_cons in Hb as [[= ->]|Hb]; [done|]. symmetry. auto.
      * intros t Hw. specialize (ni_won_term0 _ Hw). lia.
  - intros _. apply list_elem_of_here.
Qed.

(** ** Elections *)

Lemma inv_begin c i e e' req :
  cluster_inv c -> cl_nodes c !! i = Some e -> election_begin e = (e', Some req) -> e_currentTerm e + 1 < 2 ^ 64 ->
  cluster_inv (grant (rv_Term req) i i (set_elections
    (<[i := mkElection req 1 (filter (fun p => p <> i) (e_peers e))]> (cl_elections c)) (set_node i e' c))).
Proof using.
  intros Hc Hi Hb Hwrap. pose proof (ci_nodes c Hc i e Hi) as []. unfold election_begin in Hb.
  destruct (e_closed e || _); [done|]. injection Hb as <- <-. cbn [rv_Term].
  rewrite wrap_small by u_lia. set (t := e_currentTerm e + 1).
  set (el := mkElection _ _ _). set (e1 := persist _).
  apply (inv_set_election (grant t i i (set_node i e1 c)) i el).
  - eapply inv_grant; [done..| |done|done|done].
    assert (synced e1) as Hs1 by (apply persist_synced, ni_synced0).
    split; cbn; try done; try congruence; try lia.
    + intros t' b Hb. apply elem_of_cons in Hb as [[= -> ->]|Hb]; [lia|]. specialize (ni_term0 _ _ Hb). lia.
    + intros t' b Hb -> Hbi. apply elem_of_cons in Hb as [[= ->]|Hb]; [done|]. specialize (ni_term0 _ _ Hb). lia.
    + intros t' Hw. specialize (ni_won_term0 _ Hw). lia.
  - split; cbn; try done.
    + apply NoDup_filter, ni_quorate0.
    + rewrite list_elem_of_filter. tauto.
    + exists [i]. unfold voted_by. split_and!; [apply NoDup_singleton| | |done|].
      * intros z Hz. by apply list_elem_of_singleton in Hz as ->.
      * intros z Hz. apply list_elem_of_singleton in Hz as ->. apply list_elem_of_here.
      * intros z Hz. apply list_elem_of_singleton in Hz as ->. rewrite list_elem_of_filter. tauto.
Qed.

(** The election won: nobody else has won this term. *)
Lemma inv_win c i e el e' :
  cluster_inv c -> cl_nodes c !! i = Some e -> election_inv (cl_grants c) i el ->
  e_state e = StateCandidate -> e_currentTerm e = rv_Term (el_req el) -> Z.of_nat (length nodes) < 2 * el_votes el ->
  ident e' = ident e -> synced e' -> role e' = (StateLeader, e_currentTerm e, e_votedFor e) ->
  cluster_inv (win (rv_Term (el_req el)) i (set_node i e' c)).
Proof using.
  intros Hc Hi Hel Hst Ht Hv [= Hid Hps] Hs [= Hr1 Hr2 Hr3]. pose proof (ci_nodes c Hc i e Hi) as [].
  assert (e_votedFor e = i) as Hvi by (apply ni_self0; by rewrite Hst).
  assert (forall b, (e_currentTerm e, i, b) ∈ cl_grants c -> b = i) as Hloyal.
  { intros b Hb. destruct (decide (b = i)); [done|]. specialize (ni_vote0 _ _ Hb eq_refl n). congruence. }
  destruct (ei_votes _ _ _ Hel) as (voters & Hvoters & Hlen & _). rewrite <- Ht in *.
  assert (forall a, (e_currentTerm e, a) ∈ cl_won c -> a = i) as Huniq.
  { intros a Ha. destruct (ci_quorum c Hc _ _ Ha) as (voters' & (N2 & S2 & G2) & L2).
    destruct Hvoters as (N1 & S1 & G1).
    destruct (quorums_meet voters voters') as (z & Hz1 & Hz2); try done; [lia|].
    apply G1 in Hz1. apply G2 in Hz2.
    destruct (decide (z = i)) as [->|]; [by apply Hloyal|]. destruct (decide (z = a)) as [->|].
    - symmetry. by apply (ci_loyal c Hc _ _ _ Ha).
    - by eapply (ci_once c Hc). }
  destruct Hc. split; cbn [win set_node cl_nodes cl_elections cl_rv cl_rvr cl_ae cl_is cl_grants cl_won]; try done.
  - intros j f Hj. apply lookup_insert_Some in Hj as [[<- <-]|[Hne Hj]].
    + split; rewrite ?Hr1, ?Hr2, ?Hr3, ?Hps; try done; try congruence.
      * intros t Hw. apply elem_of_cons in Hw as [[= ->]|Hw]; [lia|auto].
      * intros _. apply list_elem_of_here.
    + eapply node_inv_other; [| |by apply ci_nodes0]; [done|].
      intros t. rewrite elem_of_cons. split; [intros [[= -> ->]|]; [by destruct Hne|done]|auto].
  - intros p req Hp. destruct (ci_ae0 p req Hp). split; [done|]. by apply list_elem_of_further.
  - intros p req Hp. destruct (ci_is0 p req Hp). split; [done|]. by apply list_elem_of_further.
  - intros t j Hj. apply elem_of_cons in Hj as [[= -> ->]|Hj]; [|auto]. exists voters. split; [done|lia].
  - intros t j b Hj Hb. apply elem_of_cons in Hj as [[= -> ->]|Hj]; [auto|eauto].
  - intros t a b Ha Hb. apply elem_of_cons in Ha as [Ha|Ha], Hb as [Hb|Hb]; simplify_eq; eauto.
    symmetry. eauto.
Qed.

Lemma election_finish_cases term votes (e : node) :
  election_finish term votes e = e \/
  e_state e = StateCandidate /\ e_currentTerm e = term /\ votes >= quorumLocked e /\
    election_finish term votes e = becomeLeaderLocked e.
Proof using.
  unfold election_finish. destruct (e_closed e); cbn [orb]; [auto|].
  destruct (decide (e_state e = StateCandidate)) as [Hs|Hs].
  2: { rewrite (bool_decide_eq_true_2 _ Hs). auto. }
  destruct (decide (e_currentTerm e = term)) as [Ht|Ht].
  2: { rewrite (bool_decide_eq_true_2 _ Ht), orb_true_r. auto. }
  rewrite !bool_decide_eq_false_2 by tauto. cbn [orb]. destruct (decide (votes >= _)); auto.
Qed.

Lemma inv_finish c i el e :
  cluster_inv c -> cl_elections c !! i = Some el -> cl_nodes c !! i = Some e ->
  let e' := election_finish (rv_Term (el_req el)) (el_votes el) e in
  cluster_inv (set_elections (delete i (cl_elections c))
    ((if bool_decide (e_state e = StateCandidate) && bool_decide (e_state e' = StateLeader)
      then win (rv_Term (el_req el)) i else id) (set_node i e' c))).
Proof using.
  intros Hc Hel Hi e'. subst e'. pose proof (ci_nodes c Hc i e Hi) as Hn.
  destruct (election_finish_cases (rv_Term (el_req el)) (el_votes el) e) as [->|(Hst & Ht & Hv & ->)].
  - replace (bool_decide (e_state e = StateCandidate) && bool_decide (e_state e = StateLeader)) with false
      by (by destruct (e_state e)).
    apply (inv_del_election (set_node i e c)). by eapply inv_set_node.
  - rewrite (bool_decide_eq_true_2 _ Hst). cbn [andb]. rewrite bool_decide_eq_true_2 by done.
    apply (inv_del_election (win (rv_Term (el_req el)) i (set_node i (becomeLeaderLocked e) c))).
    eapply (inv_win c i e el); try done.
    + by apply (ci_elections c Hc).
    + destruct (ni_quorate _ _ _ _ Hn) as [_ Hq]. unfold majority in Hq. unfold quorumLocked in Hv. lia.
    + apply Hn.
Qed.

Lemma inv_next_peer c i el p rest votes :
  cluster_inv c -> cl_elections c !! i = Some el -> el_todo el = p :: rest ->
  (exists voters, voted_by (cl_grants c) (rv_Term (el_req el)) i voters /\
     Z.of_nat (length voters) = votes /\ forall z, z ∈ voters -> z ∉ rest) ->
  cluster_inv (set_elections (<[i := mkElection (el_req el) votes rest]> (cl_elections c)) c).
Proof using.
  intros Hc Hi Htodo Hv. destruct (ci_elections c Hc i el Hi). rewrite Htodo in *.
  apply inv_set_election; [done|]. apply NoDup_cons in ei_nodup0 as [_ ?]. split; try done.
  intros Hz. apply ei_todo0. by apply list_elem_of_further.
Qed.

Lemma inv_skip c i el p rest :
  cluster_inv c -> cl_elections c !! i = Some el -> el_todo el = p :: rest ->
  cluster_inv (set_elections (<[i := mkElection (el_req el) (el_votes el) rest]> (cl_elections c)) c).
Proof using.
  intros Hc Hi Htodo. eapply inv_next_peer; [done..|].
  destruct (ei_votes _ _ _ (ci_elections c Hc i el Hi)) as (vs & Hvs & Hl & Hd). exists vs. split_and!; [done..|].
  intros z Hz Hr. apply (Hd z Hz). rewrite Htodo. by apply list_elem_of_further.
Qed.

Lemma inv_reply c i el p rest resp e :
  cluster_inv c -> cl_elections c !! i = Some el -> el_todo el = p :: rest -> cl_nodes c !! i = Some e ->
  (i, p, rv_Term (el_req el), resp) ∈ cl_rvr c ->
  (rvr_Term resp > rv_Term (el_req el) -> e_currentTerm e < rvr_Term resp) ->
  cluster_inv (election_reply i el rest resp e c).
Proof using.
  intros Hc Hi Htodo He Hr Ht. unfold election_reply. case_decide as Hgt.
  - apply (inv_del_election (set_node i (election_newer_term resp e) c)). eapply inv_set_node; [done..|].
    pose proof (ci_nodes c Hc i e He) as Hn. destruct (stepDown_frame (rvr_Term resp) ""%string e (ni_synced _ _ _ _ Hn)) as [Hid Hs].
    eapply node_inv_newer; [done..|apply stepDown_role|]. specialize (Ht Hgt). lia.
  - pose proof (inv_skip c i el p rest Hc Hi Htodo) as Hskip. destruct (rvr_VoteGranted resp) eqn:Eg; [|done].
    eapply inv_next_peer; [done..|]. destruct (ci_elections c Hc i el Hi). rewrite Htodo in *.
    destruct ei_votes0 as (vs & (N & S & G) & Hl & Hd). apply NoDup_cons in ei_nodup0 as [Hp _].
    exists (p :: vs). split; [|split].
    + split_and!.
      * apply NoDup_cons. split; [|done]. intros Hin. apply (Hd p Hin), list_elem_of_here.
      * intros z Hz. apply elem_of_cons in Hz as [->|Hz]; [|auto]. by apply (ci_cand c Hc (rv_Term (el_req el)) p i), (ci_rvr c Hc i p _ resp).
      * intros z Hz. apply elem_of_cons in Hz as [->|Hz]; [|auto]. by eapply (ci_rvr c Hc).
    + cbn [length]. lia.
    + intros z Hz Hin. apply elem_of_cons in Hz as [->|Hz]; [done|]. apply (Hd z Hz). by apply list_elem_of_further.
Qed.

(** ** Messages of leaders *)

(** A node follows a leader that has won the term: nothing is lost, because the node
    itself has not won it. *)
Lemma node_inv_followed c p e e' t leader :
  cluster_inv c -> cl_nodes c !! p = Some e -> (t, leader) ∈ cl_won c -> leader <> p ->
  ident e' = ident e -> synced e' ->
  role e' = (if decide (t < e_currentTerm e) then role e else followed t e) ->
  node_inv (cl_grants c) (cl_won c) p e'.
Proof using.
  intros Hc Hp Hw Hne Hi Hs Hr. pose proof (ci_nodes c Hc p e Hp) as Hn. unfold followed in Hr.
  destruct (decide (t < _)); [by eapply node_inv_role|].
  destruct (decide (_ \/ _)) as [Hcase|]; [|by eapply node_inv_role].
  destruct (decide (t > e_currentTerm e)); [by eapply node_inv_newer|].
  assert (t = e_currentTerm e) as -> by lia. eapply node_inv_cleared; try done.
  - by destruct Hcase.
  - intros Hw'. apply Hne. by eapply (ci_unique c Hc).
Qed.

Lemma node_inv_reply g w i e e' t :
  node_inv g w i e -> ident e' = ident e -> synced e' ->
  (role e' = role e \/ t > e_currentTerm e /\ role e' = (StateFollower, t, ""%string)) -> node_inv g w i e'.
Proof using. intros Hn Hi Hs [Hr|[Ht Hr]]; [by eapply node_inv_role|by eapply node_inv_newer]. Qed.

Lemma replicate_request_leader p (e : node) r :
  replicate_request p e = Some r ->
  e_state e = StateLeader /\
  match r with
  | inl q => ae_Term q = e_currentTerm e /\ ae_LeaderID q = e_id e
  | inr q => is_Term q = e_currentTerm e /\ is_LeaderID q = e_id e
  end.
Proof using.
  unfold replicate_request. destruct (e_closed e); [done|]. cbn [orb].
  case_bool_decide as Hl; [done|]. cbv zeta.
  destruct (decide (_ <= _ /\ _)); intros [= <-]; done.
Qed.

(** A restart keeps the term and the vote. *)
Lemma NewEngine_role i ps thr store (e' : node) :
  NewEngine fsm i ps thr store f0 = Some e' ->
  exists st, st_load store = Some st /\ ident e' = (i, ps) /\
    role e' = (StateFollower, ps_CurrentTerm st, ps_VotedFor st) /\ durable e' = (st, store).
Proof using.
  intros H. unfold NewEngine in H. case_decide; [done|]. apply bind_Some in H as (st & Hl & H). exists st. split; [done|].
  cbv zeta in H.
  assert (forall e1 : node, applyCommittedLocked fsm e1 = e' -> ident e1 = (i, ps) ->
    role e1 = (StateFollower, ps_CurrentTerm st, ps_VotedFor st) -> durable e1 = (st, store) ->
    ident e' = (i, ps) /\ role e' = (StateFollower, ps_CurrentTerm st, ps_VotedFor st) /\ durable e' = (st, store)) as Hgo.
  { intros e1 <- H1 H2 H3. destruct (applyCommitted_frame fsm e1) as (-> & -> & ->). done. }
  destruct (sn_Data _) eqn:Ed; [injection H as H|].
  - by apply (Hgo _ H); destruct st.
  - destruct (fsm_Snapshot fsm) as [[sn restore]|]; [|done].
    destruct (restore _ _) as [f|]; [|done]. injection H as H. by apply (Hgo _ H); destruct st.
Qed.

Lemma restart_synced i ps thr (e e' : node) :
  synced e -> Forall (fun x => is_Some (le_Command x)) (e_log e) -> NewEngine fsm i ps thr (e_store e) f0 = Some e' ->
  ident e' = (i, ps) /\ e_state e' = StateFollower /\ persisted e' = persisted e /\ synced e'.
Proof using.
  intros [Hh Hl] Hc H. destruct (NewEngine_role _ _ _ _ _ H) as (st & Hst & Hi & [= Hr _ _] & Hd).
  pose proof (st_kept_all (FileStore P) (persisted e) Hc) as Hk. rewrite Hl, Hk in Hst. assert (st = persisted e) as -> by congruence.
  pose proof (f_equal fst Hd) as Hp. pose proof (f_equal snd Hd) as Hs. cbn [fst snd durable] in Hp, Hs.
  split_and!; [done|done|done|]. split; [by rewrite Hs|]. by rewrite Hs, Hp.
Qed.

Lemma node_inv_restart g w i e e' :
  node_inv g w i e -> Forall (fun x => is_Some (le_Command x)) (e_log e) ->
  NewEngine fsm i (conf i) threshold (e_store e) f0 = Some e' -> node_inv g w i e'.
Proof using Hconf.
  intros [] Hc H. destruct (restart_synced _ _ _ _ _ ni_synced0 Hc H) as ([= Hi Hps] & Hst & Hp & Hs).
  unfold persisted in Hp. injection Hp as Ht Hv _ _ _. split; rewrite ?Hst, ?Ht, ?Hv, ?Hps; auto; done.
Qed.

(** ** What the stores have *)

Abbreviation commands l := (Forall (fun x => is_Some (le_Command x)) l).

(** Every store has the state of its node, and every entry a command. *)
Record kept_inv (c : cluster) : Prop := {
  ki_node : forall i e, cl_nodes c !! i = Some e -> synced e /\ commands (e_log e);
  ki_ae : forall p req, (p, req) ∈ cl_ae c -> commands (ae_Entries req);
}.

Lemma kept_same c c' : cl_nodes c' = cl_nodes c -> cl_ae c' = cl_ae c -> kept_inv c -> kept_inv c'.
Proof using. intros Hn Ha []. by split; rewrite ?Hn, ?Ha. Qed.

Lemma kept_set_node c c' i e' :
  cl_nodes c' = <[i := e']> (cl_nodes c) -> cl_ae c' = cl_ae c -> synced e' /\ commands (e_log e') -> kept_inv c -> kept_inv c'.
Proof using.
  intros Hn Ha He' []. split; [|by rewrite Ha]. intros j e. rewrite Hn. intros [[_ <-]|[_ Hj]]%lookup_insert_Some; [done|by eapply ki_node0].
Qed.

Lemma rstep_kept r c c' : rg_saves r = true -> kept_inv c -> rstep r c c' -> kept_inv c'.
Proof using.
  intros Hsaves Hk Hstep. pose proof (ki_node c Hk) as Hn.
  inversion Hstep; subst; clear Hstep; try (apply (kept_same c); [done..|exact Hk]);
    try (match goal with Hi : cl_nodes c !! ?i = Some ?e |- _ => destruct (Hn i e Hi) as [Hs Hl] end).
  - eapply (kept_set_node c _ i e'); [done..| |done]. match goal with H : election_begin _ = _ |- _ => unfold election_begin in H; rename H into Hb end.
    destruct (e_closed e || _); [done|]. injection Hb as <- <-. split; [apply persist_synced, Hs|done].
  - match goal with H : handleRequestVote _ _ = _ |- _ => rename H into Hh end.
    destruct (handleRequestVote_frame _ _ _ _ Hs Hh) as (_ & Hs' & _). pose proof (handleRequestVote_log req e) as Hl'. rewrite Hh in Hl'.
    eapply (kept_set_node c _ p e'); [by destruct (rvr_VoteGranted resp)..| |done]. split; [done|]. cbn [snd] in Hl'. by rewrite Hl'.
  - unfold election_reply. case_decide; [|by apply (kept_same c)]. eapply (kept_set_node c _ i); [done..| |done].
    destruct (stepDown_frame (rvr_Term resp) ""%string e Hs). split; [done|]. unfold election_newer_term; by rewrite stepDown_log.
  - eapply (kept_set_node c _ i (election_finish (rv_Term (el_req el)) (el_votes el) e)); [by destruct (_ && _)..| |done]. by destruct (election_finish_cases (rv_Term (el_req el)) (el_votes el) e) as [->|(_ & _ & _ & ->)].
  - split; [done|]. intros q r' Hq. apply elem_of_cons in Hq as [[= -> ->]|Hq]; [by eapply replicate_request_from|by eapply (ki_ae c Hk)].
  - match goal with H : handleAppendEntries _ _ _ = _ |- _ => rename H into Hh end.
    destruct (handleAppendEntries_frame fsm req e Hs) as (_ & Hs' & _).
    pose proof (handleAppendEntries_from fsm _ req e Hl (ki_ae c Hk _ _ ltac:(done))) as Hl'. rewrite Hh in Hs', Hl'.
    eapply (kept_set_node c _ p e'); [done..| |done]. by split.
  - destruct (replicate_response_frame fsm p t resp e Hs) as (_ & Hs' & _).
    eapply (kept_set_node c _ i); [done..| |done]. split; [done|by apply replicate_response_from].
  - match goal with H : handleInstallSnapshot _ _ _ = _ |- _ => rename H into Hh end.
    destruct (handleInstallSnapshot_frame fsm req e Hs) as (_ & Hs' & _).
    pose proof (handleInstallSnapshot_from fsm _ req e Hl) as Hl'. rewrite Hh in Hs', Hl'.
    eapply (kept_set_node c _ p e'); [done..| |done]. by split.
  - destruct (snapshot_response_frame p t x resp e Hs) as (_ & Hs' & _).
    eapply (kept_set_node c _ i); [done..| |done]. split; [done|by rewrite snapshot_response_log].
  - destruct (apply_append_frame cmd e Hs) as (_ & _ & Hs').
    eapply (kept_set_node c _ i); [done..| |done]. split; [done|]. apply apply_append_from; [done|]. intros index c0 ->. by eexists.
  - destruct (apply_check_frame fsm index e Hs) as (_ & _ & Hs').
    eapply (kept_set_node c _ i); [done..| |done]. split; [done|by apply apply_check_from].
  - match goal with H : NewEngine _ _ _ _ _ _ = _ |- _ => destruct (restart_synced _ _ _ _ _ Hs Hl H) as (_ & _ & Hp & Hs') end.
    eapply (kept_set_node c _ i e'); [done..| |done]. split; [done|]. by rewrite (f_equal ps_Log Hp : e_log e' = e_log e).
  - eapply (kept_set_node c _ i); [done..| |done]. by split.
  - eapply (kept_set_node c _ i); [done..| |done]. unfold AddPeer. case_decide; by split.
  - eapply (kept_set_node c _ i); [done..| |done]. by split.
  - congruence.
Qed.

(** ** Every step preserves the invariant *)

Lemma node_inv_add g w i addr e : node_inv g w i e -> node_inv g w i (AddPeer addr e).
Proof using.
  intros Hn. unfold AddPeer. case_decide as Hin; [done|]. destruct Hn. split; try done. destruct ni_quorate0 as [Hnd Hm]. split; cbn.
  - apply NoDup_app. split_and!; [done| |apply NoDup_singleton]. intros x Hx ->%list_elem_of_singleton. done.
  - unfold majority in *. rewrite length_app. cbn [length]. zlia.
Qed.

Lemma node_inv_remove g w i addr e :
  node_inv g w i e -> majority nodes (e_peers (RemovePeer addr e)) -> node_inv g w i (RemovePeer addr e).
Proof using. intros [] Hm. split; try done. split; [|done]. apply NoDup_filter, ni_quorate0. Qed.

Lemma rstep_inv c c' : cluster_inv c -> kept_inv c -> rstep careful c c' -> cluster_inv c'.
Proof using Hnames Hconf.
  intros Hc Hk Hstep. inversion Hstep; subst; clear Hstep.
  - eapply inv_begin; eauto.
  - destruct (ci_elections c Hc i el ltac:(done)). apply inv_send_rv; [done| |congruence].
    rewrite ei_cand0. intros ->. apply ei_todo0.
    match goal with H : el_todo el = _ |- _ => rewrite H end. apply list_elem_of_here.
  - by eapply inv_deliver_rv.
  - by eapply inv_skip.
  - eapply inv_reply; eauto.
  - by apply inv_finish.
  - match goal with H : replicate_request _ _ = _ |- _ => apply replicate_request_leader in H as (Hl & Ht & Hid) end.
    pose proof (ci_nodes c Hc i e ltac:(done)) as [].
    apply inv_send_ae; [done|congruence|]. rewrite Ht, Hid, ni_id0. auto.
  - match goal with H : _ ∈ cl_ae c |- _ => destruct (ci_ae c Hc _ _ H) as [Hne Hw] end.
    match goal with Hp : cl_nodes c !! p = Some e |- _ =>
      pose proof (ni_synced _ _ _ _ (ci_nodes c Hc p e Hp)) as Hs;
      destruct (handleAppendEntries_frame fsm req e Hs) as (Hi & Hs' & Hr) end.
    match goal with H : handleAppendEntries _ _ _ = _ |- _ => rewrite H in Hi, Hs', Hr end.
    apply inv_send_aer. eapply inv_set_node; [done..|]. by eapply node_inv_followed.
  - pose proof (ci_nodes c Hc i e ltac:(done)) as Hn.
    destruct (replicate_response_frame fsm p t resp e (ni_synced _ _ _ _ Hn)) as (Hi & Hs & Hr).
    eapply inv_set_node; [done..|]. by eapply node_inv_reply.
  - match goal with H : replicate_request _ _ = _ |- _ => apply replicate_request_leader in H as (Hl & Ht & Hid) end.
    pose proof (ci_nodes c Hc i e ltac:(done)) as [].
    apply inv_send_is; [done|congruence|]. rewrite Ht, Hid, ni_id0. auto.
  - match goal with H : _ ∈ cl_is c |- _ => destruct (ci_is c Hc _ _ H) as [Hne Hw] end.
    match goal with Hp : cl_nodes c !! p = Some e |- _ =>
      pose proof (ni_synced _ _ _ _ (ci_nodes c Hc p e Hp)) as Hs;
      destruct (handleInstallSnapshot_frame fsm req e Hs) as (Hi & Hs' & Hr) end.
    match goal with H : handleInstallSnapshot _ _ _ = _ |- _ => rewrite H in Hi, Hs', Hr end.
    apply inv_send_isr. eapply inv_set_node; [done..|]. by eapply node_inv_followed.
  - pose proof (ci_nodes c Hc i e ltac:(done)) as Hn.
    destruct (snapshot_response_frame p t x resp e (ni_synced _ _ _ _ Hn)) as (Hi & Hs & Hr).
    eapply inv_set_node; [done..|]. by eapply node_inv_reply.
  - pose proof (ci_nodes c Hc i e ltac:(done)) as Hn.
    destruct (apply_append_frame cmd e (ni_synced _ _ _ _ Hn)) as (Hi & Hr & Hs).
    eapply inv_set_node; [done..|]. by eapply node_inv_role.
  - pose proof (ci_nodes c Hc i e ltac:(done)) as Hn.
    destruct (apply_check_frame fsm index e (ni_synced _ _ _ _ Hn)) as (Hi & Hr & Hs).
    eapply inv_set_node; [done..|]. by eapply node_inv_role.
  - apply (inv_del_election (set_node i e' c)). eapply inv_set_node; [done..|].
    eapply node_inv_restart; [by apply (ci_nodes c Hc)|by eapply (ki_node c Hk)|done].
  - eapply inv_set_node; [done..|]. eapply node_inv_role; [by apply (ci_nodes c Hc)|done| |done]. exact (proj1 (ki_node c Hk i e ltac:(done))).
  - eapply inv_set_node; [done..|]. by apply node_inv_add, (ci_nodes c Hc).
  - eapply inv_set_node; [done..|]. apply node_inv_remove; [by apply (ci_nodes c Hc)|auto].
  - done.
Qed.

Lemma init_nodes i e : cl_nodes init !! i = Some e -> i ∈ nodes /\ e = new_node i.
Proof using.
  intros Hi. apply elem_of_list_to_map_2, list_elem_of_fmap in Hi as (j & [= -> ->] & Hj). done.
Qed.

Lemma init_kept : kept_inv init.
Proof using.
  split; [|intros * H; by apply not_elem_of_nil in H]. intros i e [_ ->]%init_nodes. split; [done|constructor].
Qed.

Lemma init_inv : cluster_inv init.
Proof using Hconf.
  split; try done; try (cbn [init cl_grants cl_won cl_rv cl_rvr cl_ae cl_is]; intros * H; by apply not_elem_of_nil in H).
  intros i e Hi. apply init_nodes in Hi as [Hp ->].
  split; try done; try (cbn [init cl_grants cl_won]; intros * H; by apply not_elem_of_nil in H). by apply Hconf.
Qed.

Lemma reachable_kept r c : rg_saves r = true -> rtc (rstep r) init c -> kept_inv c.
Proof using.
  intros Hr H. assert (forall c0, kept_inv c0 -> rtc (rstep r) c0 c -> kept_inv c) as Hgo.
  { intros c0 H0 Hs. induction Hs; eauto using rstep_kept. }
  apply (Hgo _ init_kept H).
Qed.

Lemma reachable_inv c : rtc (rstep careful) init c -> cluster_inv c.
Proof using Hnames Hconf.
  intros H. assert (forall c0, cluster_inv c0 -> kept_inv c0 -> rtc (rstep careful) c0 c -> cluster_inv c) as Hgo.
  { intros c0 H0 H1 Hr. induction Hr as [|c1 c2 c3 Hs Hr IH]; [done|]. apply IH; [done|by eapply rstep_inv|by apply (rstep_kept careful c1)]. }
  apply (Hgo _ init_inv init_kept H).
Qed.

End cluster.
