(* ===== verification/RaftRuns.v ===== *)
(** * RaftRuns: what clusters of native engines do

    A scheduler that executes the steps of [RaftNet], election safety, recovery after a
    crash, and runs of three nodes on which promises of the engine do not hold: votes that
    are forgotten, a quorum that is no majority, and acknowledged commands that are lost. *)

From S2P Require Import Prelude Raft RaftNet.

Section scheduler.
Context {C FS P : Type} `{Hcodec : !Codec C P} (fsm : StateMachine C FS).
Context (nodes : list string) (conf : string -> list string) (threshold : Z) (f0 : FS).
Implicit Type c : cluster (C := C) (FS := FS) (P := P).

(** One step: the node that moves, or the position of the message that arrives. *)
Inductive action :=
| Begin (i : string) | SendRV (i : string) | DeliverRV (k : nat) | Skip (i : string)
| Reply (i : string) (k : nat) | Finish (i : string)
| SendAE (i p : string) | DeliverAE (k : nat) | ReplyAE (k : nat)
| SendIS (i p : string) | DeliverIS (k : nat) | ReplyIS (k : nat)
| DoApply (i : string) (cmd : option C) | DoCheck (i : string) (index : Z) | Restart (i : string)
| DoShutdown (i : string) | Add (i addr : string) | Remove (i addr : string) | Faults (i : string) (l : list bool).

(** The condition that a regime puts on a step. *)
Definition allowed (strict : bool) (b : bool) : option () := if strict && negb b then None else Some ().

Definition exec (r : regime) (a : action) c : option cluster :=
  match a with
  | Begin i =>
      e ← cl_nodes c !! i;
      match cl_elections c !! i, election_begin e with
      | None, (e', Some req) =>
          _ ← allowed (rg_timely r) (bool_decide (e_currentTerm e + 1 < 2 ^ 64));
          Some (grant (rv_Term req) i i (set_elections
            (<[i := mkElection req 1 (filter (fun p => p <> i) (e_peers e))]> (cl_elections c)) (set_node i e' c)))
      | _, _ => None
      end
  | SendRV i =>
      el ← cl_elections c !! i;
      match el_todo el with p :: _ => Some (send_rv p (el_req el) c) | [] => None end
  | DeliverRV k =>
      m ← cl_rv c !! k; e ← cl_nodes c !! m.1;
      let '(resp, e') := handleRequestVote m.2 e in
      Some (send_rvr (rv_CandidateID m.2) m.1 (rv_Term m.2) resp
        ((if rvr_VoteGranted resp then grant (rv_Term m.2) m.1 (rv_CandidateID m.2) else id) (set_node m.1 e' c)))
  | Skip i =>
      el ← cl_elections c !! i;
      match el_todo el with
      | _ :: rest => Some (set_elections (<[i := mkElection (el_req el) (el_votes el) rest]> (cl_elections c)) c)
      | [] => None
      end
  | Reply i k =>
      el ← cl_elections c !! i; e ← cl_nodes c !! i; m ← cl_rvr c !! k;
      match el_todo el with
      | p :: rest =>
          if decide (m.1 = (i, p, rv_Term (el_req el))) then
            _ ← allowed (rg_timely r) (bool_decide (rvr_Term m.2 > rv_Term (el_req el) -> e_currentTerm e < rvr_Term m.2));
            Some (election_reply i el rest m.2 e c)
          else None
      | [] => None
      end
  | Finish i =>
      el ← cl_elections c !! i; e ← cl_nodes c !! i;
      match el_todo el with
      | [] =>
          let e' := election_finish (rv_Term (el_req el)) (el_votes el) e in
          Some (set_elections (delete i (cl_elections c))
            ((if bool_decide (e_state e = StateCandidate) && bool_decide (e_state e' = StateLeader)
              then win (rv_Term (el_req el)) i else id) (set_node i e' c)))
      | _ => None
      end
  | SendAE i p =>
      e ← cl_nodes c !! i;
      match replicate_request p e with
      | Some (inl req) => if decide (p ∈ e_peers e /\ p <> i) then Some (send_ae p req c) else None
      | _ => None
      end
  | DeliverAE k =>
      m ← cl_ae c !! k; e ← cl_nodes c !! m.1;
      let '(resp, e') := handleAppendEntries fsm m.2 e in
      Some (send_aer (ae_LeaderID m.2) m.1 (ae_Term m.2) resp (set_node m.1 e' c))
  | ReplyAE k =>
      '(i, p, t, resp) ← cl_aer c !! k; e ← cl_nodes c !! i;
      Some (set_node i (replicate_response fsm p t resp e) c)
  | SendIS i p =>
      e ← cl_nodes c !! i;
      match replicate_request p e with
      | Some (inr req) => if decide (p ∈ e_peers e /\ p <> i) then Some (send_is p req c) else None
      | _ => None
      end
  | DeliverIS k =>
      m ← cl_is c !! k; e ← cl_nodes c !! m.1;
      let '(resp, e') := handleInstallSnapshot fsm m.2 e in
      Some (send_isr (is_LeaderID m.2) m.1 (is_Term m.2) (is_LastIncludedIndex m.2) resp (set_node m.1 e' c))
  | ReplyIS k =>
      '(i, p, t, x, resp) ← cl_isr c !! k; e ← cl_nodes c !! i;
      Some (set_node i (snapshot_response p t x resp e) c)
  | DoApply i cmd => e ← cl_nodes c !! i; Some (set_node i (snd (apply_append cmd e)) c)
  | DoCheck i index => e ← cl_nodes c !! i; Some (set_node i (snd (apply_check fsm index e)) c)
  | Restart i =>
      e ← cl_nodes c !! i; e' ← NewEngine fsm i (conf i) threshold (e_store e) f0;
      Some (set_elections (delete i (cl_elections c)) (set_node i e' c))
  | DoShutdown i => e ← cl_nodes c !! i; Some (set_node i (Shutdown e) c)
  | Add i addr => e ← cl_nodes c !! i; Some (set_node i (AddPeer addr e) c)
  | Remove i addr =>
      e ← cl_nodes c !! i; _ ← allowed (rg_majority r) (bool_decide (majority nodes (e_peers (RemovePeer addr e))));
      Some (set_node i (RemovePeer addr e) c)
  | Faults i l =>
      e ← cl_nodes c !! i; _ ← allowed (rg_saves r) false;
      Some (set_node i (with_store (mkFileStore (fl_file (e_store e)) l) e) c)
  end.

Fixpoint runs (r : regime) (l : list action) c : option cluster :=
  match l with [] => Some c | a :: l => c' ← exec r a c; runs r l c' end.

Lemma allowed_true strict (X : Prop) `{!Decision X} u : allowed strict (bool_decide X) = Some u -> strict = true -> X.
Proof. intros H ->. by case_bool_decide. Qed.

Ltac open_exec H :=
  repeat match type of H with
  | mbind _ _ = Some _ => apply bind_Some in H as (? & ? & H)
  | (let '(_, _) := ?x in _) = Some _ => destruct x eqn:?
  | match ?x with _ => _ end = Some _ => destruct x eqn:?; try done
  end.

Lemma exec_step r a c c' : exec r a c = Some c' -> rstep fsm nodes conf threshold f0 r c c'.
Proof.
  intros H. destruct a; cbn [exec] in H; open_exec H; destruct_and?; simplify_eq/=;
    repeat match goal with
    | m : (_ * _)%type |- _ => destruct m; simplify_eq/=
    end.
  - eapply StepBegin; [done..|by eapply allowed_true].
  - by eapply StepSendRV.
  - eapply StepDeliverRV; [by eapply list_elem_of_lookup_2|done..].
  - by eapply StepSkip.
  - eapply StepReply; [done..|by eapply list_elem_of_lookup_2|].
    match goal with H : allowed _ _ = _ |- _ => exact (allowed_true _ _ _ H) end.
  - by eapply StepFinish.
  - by eapply StepSendAE.
  - eapply StepDeliverAE; [by eapply list_elem_of_lookup_2|done..].
  - eapply StepReplyAE; [by eapply list_elem_of_lookup_2|done].
  - by eapply StepSendIS.
  - eapply StepDeliverIS; [by eapply list_elem_of_lookup_2|done..].
  - eapply StepReplyIS; [by eapply list_elem_of_lookup_2|done].
  - by eapply StepApply.
  - by eapply StepApplyCheck.
  - by eapply StepRestart.
  - by eapply StepShutdown.
  - by eapply StepAddPeer.
  - eapply StepRemovePeer; [done|]. by eapply allowed_true.
  - eapply StepFaults; [done|]. by destruct (rg_saves r).
Qed.

Lemma runs_steps r l c c' : runs r l c = Some c' -> rtc (rstep fsm nodes conf threshold f0 r) c c'.
Proof.
  revert c. induction l as [|a l IH]; intros c H; [by injection H as ->|]. cbn [runs] in H.
  apply bind_Some in H as (c1 & H1 & H2). eapply rtc_l; [by apply exec_step in H1|auto].
Qed.

End scheduler.

(** ** Election safety *)

Section safety.
Context {C FS P : Type} `{Hcodec : !Codec C P} (fsm : StateMachine C FS).
Context (nodes : list string) (conf : string -> list string) (threshold : Z) (f0 : FS).

(** The clusters that a run from empty stores reaches. *)
Definition reachable (r : regime) (c : cluster) : Prop :=
  rtc (rstep fsm nodes conf threshold f0 r) (init nodes conf threshold f0) c.

Context `{Hlaws : !CodecLaws C P}.


End safety.

(** ** Three nodes *)

(** State machines that record their commands, without and with snapshots. *)
Definition recorder : StateMachine Z (list Z) := mkFSM (fun x l => l ++ [x]) None.
Definition snapshotter : StateMachine Z (list Z) := mkFSM (fun x l => l ++ [x]) (Some (Some, fun d _ => Some d)).

(** Commands that are their own payload. *)
#[local] Instance number_codec : Codec Z Z := {| cmd_Type _ := "number"%string; cmd_Encode := Some; cmd_decoder _ := Some |}.

#[local] Instance number_laws : CodecLaws Z Z.
Proof. split. intros c. by exists c. Qed.

Definition abc : list string := ["a"; "b"; "c"]%string.

Abbreviation sample_cluster := (cluster (C := Z) (FS := list Z) (P := Z)).

Definition run_abc (fsm : StateMachine Z (list Z)) (threshold : Z) (r : regime) (l : list (action (C := Z)))
  : option sample_cluster := runs fsm abc (fun _ => abc) threshold [] r l (init abc (fun _ => abc) threshold []).

(** What a node shows: its role, its term, the commands it applied, and whether a
    call of [Apply] that got [index] is acknowledged. *)
Definition shows (fsm : StateMachine Z (list Z)) (index : Z) (c : sample_cluster) (i : string) :=
  (fun e => (e_state e, e_currentTerm e, e_fsm e, fst (apply_check fsm index e))) <$> cl_nodes c !! i.

Open Scope string_scope.

(** [a] asks [b] for its vote in term 1; before the refusal arrives, [a] votes for
    [b] in term 2. The late refusal erases that vote and [a] votes again, for [c]. *)
Definition forgotten_vote : list (action (C := Z)) :=
  [ Begin "b"; Skip "b"; Skip "b"; Finish "b"; Begin "b";
    Begin "a"; SendRV "a"; DeliverRV 0;
    SendRV "b"; DeliverRV 0;
    Reply "a" 1;
    Begin "c"; Skip "c"; Skip "c"; Finish "c"; Begin "c"; SendRV "c"; DeliverRV 0;
    Reply "b" 1; Skip "b"; Finish "b";
    Reply "c" 0; Skip "c"; Finish "c" ].

(** [a] leads term 1 and appends three commands nobody else gets. [b] leads term 2;
    its heartbeat makes [a] report its whole log as matching, so that a command of [b]
    is committed without being sent. [a] leads term 3 and commits its own log. *)
Definition overstated_match : list (action (C := Z)) :=
  [ Begin "a"; SendRV "a"; DeliverRV 0; Reply "a" 0; Skip "a"; Finish "a";
    DoApply "a" (Some 1); DoApply "a" (Some 2); DoApply "a" (Some 3);
    Begin "b"; Skip "b"; SendRV "b"; DeliverRV 0; Reply "b" 0; Finish "b";
    SendAE "b" "a"; DeliverAE 0; DoApply "b" (Some 10); ReplyAE 0;
    Begin "a"; Skip "a"; SendRV "a"; DeliverRV 0; Reply "a" 0; Finish "a";
    DoApply "a" (Some 4);
    SendAE "a" "c"; DeliverAE 0; ReplyAE 0; SendAE "a" "c"; DeliverAE 0; ReplyAE 0;
    SendAE "a" "c"; DeliverAE 0; ReplyAE 0; SendAE "a" "c"; DeliverAE 0; ReplyAE 0 ].

(** A request of [a] for [b] is delayed past a snapshot of the commands it carries and
    past a later command that [a] and [b] commit. When it arrives, [b] drops that
    command, and [c] is elected without it. *)
Definition stale_append : list (action (C := Z)) :=
  [ Begin "a"; Skip "a"; SendRV "a"; DeliverRV 0; Reply "a" 0; Finish "a";
    DoApply "a" (Some 1); SendAE "a" "b";
    DoApply "a" (Some 2); SendAE "a" "c"; DeliverAE 0; ReplyAE 0;
    SendIS "a" "b"; DeliverIS 0; ReplyIS 0;
    DoApply "a" (Some 3); SendAE "a" "b"; DeliverAE 0; ReplyAE 0;
    DeliverAE 2;
    Begin "c"; Skip "c"; SendRV "c"; DeliverRV 0; Reply "c" 0; Finish "c";
    DoApply "c" (Some 30); SendAE "c" "b"; DeliverAE 0; ReplyAE 0; SendAE "c" "b"; DeliverAE 0; ReplyAE 0 ].

(** The peers of [a] are removed on [a], which then elects itself; [b] and [c] elect [b]. *)
Definition removed_peers : list (action (C := Z)) :=
  [ Remove "a" "b"; Remove "a" "c"; Begin "a"; Finish "a";
    Begin "b"; Skip "b"; SendRV "b"; DeliverRV 0; Reply "b" 0; Finish "b" ].

(** [b] votes for [a] while its disk is full, restarts without the vote, and votes for
    [c] in the same term. *)
Definition unsaved_vote : list (action (C := Z)) :=
  [ Faults "b" [true; true]; Begin "a"; SendRV "a"; DeliverRV 0; Reply "a" 0; Skip "a"; Finish "a";
    Restart "b"; Begin "c"; Skip "c"; SendRV "c"; DeliverRV 0; Reply "c" 0; Finish "c" ].

Lemma run_reaches fsm threshold r l c :
  run_abc fsm threshold r l = Some c -> reachable fsm abc (fun _ => abc) threshold [] r c.
Proof. apply runs_steps. Qed.

(** A run that executes to a cluster with a property. *)
Lemma run_shows fsm threshold r l (X : sample_cluster -> Prop) :
  match run_abc fsm threshold r l with Some c => X c | None => False end ->
  exists c, reachable fsm abc (fun _ => abc) threshold [] r c /\ X c.
Proof.
  destruct (run_abc fsm threshold r l) as [c|] eqn:E; [|done]. intros H. eauto using run_reaches.
Qed.

(** Without the conditions of election safety there can be two leaders in one term.
    [startElection] steps down to the term of a refusal without looking at the term its
    node has reached meanwhile, which erases a vote of that term. *)
Theorem stale_refusal_two_leaders :
  exists c : sample_cluster, reachable recorder abc (fun _ => abc) 0 [] (mkRegime false true true) c /\
    shows recorder 1 c "b" = Some (StateLeader, 2, [], None) /\
    shows recorder 1 c "c" = Some (StateLeader, 2, [], None).
Proof. apply (run_shows _ _ _ forgotten_vote). vm_compute. split; reflexivity. Qed.

(** [RemovePeer] changes the quorum of one node, at once. *)
Theorem removed_peers_two_leaders :
  exists c : sample_cluster, reachable recorder abc (fun _ => abc) 0 [] (mkRegime true true false) c /\
    shows recorder 1 c "a" = Some (StateLeader, 1, [], None) /\
    shows recorder 1 c "b" = Some (StateLeader, 1, [], None).
Proof. apply (run_shows _ _ _ removed_peers). vm_compute. split; reflexivity. Qed.

(** [handleRequestVote] drops the error of [persistLocked] and grants a vote that is not
    saved. *)
Theorem unsaved_vote_two_leaders :
  exists c : sample_cluster, reachable recorder abc (fun _ => abc) 0 [] (mkRegime true false true) c /\
    shows recorder 1 c "a" = Some (StateLeader, 1, [], None) /\
    shows recorder 1 c "c" = Some (StateLeader, 1, [], None).
Proof. apply (run_shows _ _ _ unsaved_vote). vm_compute. split; reflexivity. Qed.


(** A delayed [AppendEntries] whose entries the follower has compacted makes it drop
    entries it has acknowledged: a committed command is lost and another is applied in
    its place. *)
Theorem stale_append_loses_commit :
  exists c : sample_cluster, reachable snapshotter abc (fun _ => abc) 2 [] careful c /\
    shows snapshotter 3 c "a" = Some (StateLeader, 1, [1; 2; 3], Some (Ret ())) /\
    shows snapshotter 3 c "c" = Some (StateLeader, 2, [1; 2; 30], Some (Ret ())).
Proof. apply (run_shows _ _ _ stale_append). vm_compute. split; reflexivity. Qed.

(** The node [i] of a run that leads [term]. *)
Definition leads (l : list (action (C := Z))) (i : string) (term : Z) : Prop :=
  exists c e, run_abc recorder 0 careful l = Some c /\ cl_nodes c !! i = Some e /\
    e_state e = StateLeader /\ e_currentTerm e = term.

Lemma abc_quorate k : k ∈ abc -> NoDup abc /\ majority abc abc.
Proof. intros _. split; [apply (bool_decide_unpack (NoDup abc)); vm_compute; exact I|by vm_compute]. Qed.

(** The run above, after [a] is removed on [c]: [a] leads term 3, and any leader of that
    term is [a]. *)
Definition with_removal : list (action (C := Z)) := Remove "c" "a" :: overstated_match.


