(* ===== verification/Sequence.v ===== *)
(** * Sequence: generators of needle ids

    Models [goblob/sequence]: the interface [Sequencer], the [FileSequencer] with its
    watermark file and the [SnowflakeSequencer].  A write of the watermark can fail at
    any of its stages; the readings of the clock are an explicit list. *)

From Stdlib Require Import Sorting.Sorted.
From S2P Require Import Prelude Bytes GoStrings.

(** ** The interface *)

(** [Env] is what an operation meets in its environment. *)
Class Sequencer (S Env : Type) := {
  NextFileId : Env -> Z -> S -> Z * S;
  SetMax : Env -> Z -> S -> S;
  GetMax : S -> Z;
}.

(** A call for [count] ids gets at least one. *)
Definition batch (count : Z) : Z := if decide (count = 0) then 1 else count.

(** What the interface promises as long as the 64-bit ids last. *)
Class SequencerLaws (S Env : Type) `{Sequencer S Env} := {
  next_start env count s : in_u 64 count -> 0 <= GetMax s -> GetMax s + batch count < 2 ^ 64 ->
    fst (NextFileId env count s) = GetMax s + 1;
  next_max env count s : in_u 64 count -> 0 <= GetMax s -> GetMax s + batch count < 2 ^ 64 ->
    GetMax (snd (NextFileId env count s)) = GetMax s + batch count;
  set_max env m s : GetMax (SetMax env m s) = Z.max (GetMax s) m;
}.

Inductive call := CNext (count : Z) | CSetMax (m : Z).

(** The batches [(start, length)] a sequence of calls hands out. *)
Fixpoint batches {S Env} `{Sequencer S Env} (calls : list (Env * call)) (s : S) : list (Z * Z) :=
  match calls with
  | [] => []
  | (env, CNext count) :: calls =>
      let '(start, s) := NextFileId env count s in (start, batch count) :: batches calls s
  | (env, CSetMax m) :: calls => batches calls (SetMax env m s)
  end.

(** One batch ends before the other starts. *)
Definition before (a b : Z * Z) : Prop := fst a + snd a <= fst b.

Definition call_ok (c : call) : Prop := match c with CNext count => in_u 64 count | CSetMax m => 0 <= m end.

(** The highest id the calls can reach. *)
Definition reach {Env} (max : Z) (calls : list (Env * call)) : Z :=
  foldl (fun b ec => match snd ec with CNext count => b + batch count | CSetMax m => Z.max b m end) max calls.

(** ** The watermark file *)

Inductive save_fault := FaultCreate | FaultWrite (n : nat) | FaultSync | FaultClose | FaultRename.

Inductive seq_err := ErrSave | ErrParse | ErrEmptyDir | ErrNodeId.

(** The contents of [max_needle_id] and of its temporary file. *)
Record seq_disk := mkSeqDisk { sd_file : option (list ascii); sd_tmp : option (list ascii) }.

Definition newline : ascii := char 10.

Definition saveMaxFileId (fault : option save_fault) (maxId : Z) (d : seq_disk) : outcome seq_err unit * seq_disk :=
  let data := FormatUint maxId 10 ++ [newline] in
  match fault with
  | Some FaultCreate => (Fail ErrSave, d)
  | Some (FaultWrite n) => (Fail ErrSave, mkSeqDisk (sd_file d) (Some (take n data)))
  | Some _ => (Fail ErrSave, mkSeqDisk (sd_file d) (Some data))
  | None => (Ret tt, mkSeqDisk (Some data) None)
  end.

(** [unicode.IsSpace] on ASCII text. *)
Definition is_space (c : ascii) : bool := bool_decide (9 <= code c <= 13) || bool_decide (code c = 32).

Fixpoint trim_left (l : list ascii) : list ascii :=
  match l with [] => [] | c :: l' => if is_space c then trim_left l' else l end.

Definition TrimSpace (l : list ascii) : list ascii := reverse (trim_left (reverse (trim_left l))).

Definition loadMaxFileId (d : seq_disk) : outcome seq_err Z :=
  match sd_file d with
  | None => Ret 0
  | Some data =>
      match TrimSpace data with
      | [] => Ret 0
      | str => match ParseUint str 10 64 with Some v => Ret v | None => Fail ErrParse end
      end
  end.

(** ** FileSequencer *)

Record FileSequencer := mkFileSeq { fq_step : Z; fq_current : Z; fq_saved : Z }.

Definition NewFileSequencer (dataDir : string) (stepSize : Z) (d : seq_disk) : outcome seq_err FileSequencer :=
  if decide (dataDir = ""%string) then Fail ErrEmptyDir else
  let step := if decide (stepSize = 0) then 10000 else stepSize in
  match loadMaxFileId d with
  | Ret saved => Ret (mkFileSeq step saved saved)
  | Fail e => Fail e
  | Panic => Panic
  end.

(** [saved = newSaved] when the write succeeds. *)
Definition persist_ceiling (fault : option save_fault) (newSaved : Z) (s : FileSequencer * seq_disk)
  : FileSequencer * seq_disk :=
  let '(f, d) := s in
  match saveMaxFileId fault newSaved d with
  | (Ret _, d) => (mkFileSeq (fq_step f) (fq_current f) newSaved, d)
  | (_, d) => (f, d)
  end.

Definition fs_NextFileId (fault : option save_fault) (count : Z) (s : FileSequencer * seq_disk)
  : Z * (FileSequencer * seq_disk) :=
  let count := batch count in
  let s := if decide (u64 (fq_current (fst s) + count) > fq_saved (fst s))
           then persist_ceiling fault (u64 (fq_current (fst s) + fq_step (fst s) + count)) s else s in
  let '(f, d) := s in
  let start := u64 (fq_current f + 1) in
  (start, (mkFileSeq (fq_step f) (u64 (fq_current f + count)) (fq_saved f), d)).

Definition fs_SetMax (fault : option save_fault) (maxId : Z) (s : FileSequencer * seq_disk)
  : FileSequencer * seq_disk :=
  let '(f, d) := s in
  if decide (maxId <= fq_current f) then s
  else persist_ceiling fault (u64 (maxId + fq_step f)) (mkFileSeq (fq_step f) maxId (fq_saved f), d).

Definition fs_GetMax (s : FileSequencer * seq_disk) : Z := fq_current (fst s).

Definition fs_Close (fault : option save_fault) (s : FileSequencer * seq_disk) : outcome seq_err unit * seq_disk :=
  saveMaxFileId fault (fq_current (fst s)) (snd s).

#[export] Instance FileSequencer_Sequencer : Sequencer (FileSequencer * seq_disk) (option save_fault) :=
  {| NextFileId := fs_NextFileId; SetMax := fs_SetMax; GetMax := fs_GetMax |}.

(** ** SnowflakeSequencer *)

Record SnowflakeSequencer := mkSnow { sf_nodeId : Z; sf_lastTime : Z; sf_sequence : Z }.

Definition maxSequenceValue : Z := 4095.
Definition nodeIdShiftBits : Z := 12.
Definition timeShiftBits : Z := 22.

Definition NewSnowflakeSequencer (nodeId : Z) : outcome seq_err SnowflakeSequencer :=
  if decide (nodeId > 1023) then Fail ErrNodeId else Ret (mkSnow nodeId 0 0).

Definition snow_id (now nodeId sequence : Z) : Z :=
  Z.lor (Z.lor (u64 (Z.shiftl now timeShiftBits)) (u64 (Z.shiftl nodeId nodeIdShiftBits))) sequence.

(** The clock is read until [stop]; [None] when the readings run out. *)
Fixpoint spin (stop : Z -> bool) (clock : list Z) : option (Z * list Z) :=
  match clock with
  | [] => None
  | now :: clock => if stop now then Some (now, clock) else spin stop clock
  end.

(** The id, with the readings left. [count] is not used. *)
Definition snow_NextFileId (count : Z) (s : SnowflakeSequencer) (clock : list Z)
  : option (Z * SnowflakeSequencer * list Z) :=
  '(now, clock) ← spin (fun _ => true) clock;
  let last := sf_lastTime s in
  '(now, sequence, clock) ←
    (if decide (now = last) then
       let sequence := u64 (sf_sequence s + 1) in
       if decide (sequence > maxSequenceValue)
       then '(now, clock) ← spin (fun t => bool_decide (t > last)) clock; Some (now, 0, clock)
       else Some (now, sequence, clock)
     else if decide (now > last) then Some (now, 0, clock)
     else '(now, clock) ← spin (fun t => bool_decide (t >= last)) clock; Some (now, 0, clock));
  Some (snow_id now (sf_nodeId s) sequence, mkSnow (sf_nodeId s) now sequence, clock).

Definition snow_SetMax (m : Z) (s : SnowflakeSequencer) : SnowflakeSequencer := s.
Definition snow_GetMax (s : SnowflakeSequencer) : Z := snow_id (sf_lastTime s) (sf_nodeId s) (sf_sequence s).

(** [n] calls. *)
Fixpoint snow_ids (n : nat) (s : SnowflakeSequencer) (clock : list Z) : option (list Z) :=
  match n with
  | O => Some []
  | S n => '(id, s, clock) ← snow_NextFileId 1 s clock; (fun ids => id :: ids) <$> snow_ids n s clock
  end.

(** ** Histories of a FileSequencer *)

(** Calls, crashes, and orderly restarts with [Close]. *)
Inductive seq_op := ONext (count : Z) | OSetMax (m : Z) | OCrash | OReopen.

(** The batches handed out; [None] when a restart does not find a watermark it can read. *)
Fixpoint file_run (dir : string) (step : Z) (ops : list (option save_fault * seq_op)) (s : FileSequencer * seq_disk)
  : option (list (Z * Z)) :=
  match ops with
  | [] => Some []
  | (fault, ONext count) :: ops =>
      let '(start, s) := fs_NextFileId fault count s in
      (fun bs => (start, batch count) :: bs) <$> file_run dir step ops s
  | (fault, OSetMax m) :: ops => file_run dir step ops (fs_SetMax fault m s)
  | (fault, OCrash) :: ops =>
      match NewFileSequencer dir step (snd s) with Ret f => file_run dir step ops (f, snd s) | _ => None end
  | (fault, OReopen) :: ops =>
      let d := snd (fs_Close fault s) in
      match NewFileSequencer dir step d with Ret f => file_run dir step ops (f, d) | _ => None end
  end.

Definition seq_op_ok (op : seq_op) : Prop :=
  match op with ONext count => in_u 64 count | OSetMax m => 0 <= m | _ => True end.

(** The highest watermark the operations can write. *)
Definition ceiling (step b : Z) (ops : list (option save_fault * seq_op)) : Z :=
  foldl (fun b op => match snd op with
    | ONext count => b + step + batch count
    | OSetMax m => Z.max b (m + step)
    | _ => b
    end) b ops.

(** ** Clients of the interface *)

Lemma batch_pos count : in_u 64 count -> 0 < batch count < 2 ^ 64.
Proof. unfold batch, in_u. intros H. case_decide; lia. Qed.

Lemma reach_ge {Env} b (calls : list (Env * call)) :
  Forall (fun ec => call_ok (snd ec)) calls -> b <= reach b calls.
Proof.
  revert b. induction calls as [|[env c] calls IH]; intros b H; [done|]. apply Forall_cons in H as [Hc H].
  unfold reach. cbn [foldl snd]. etransitivity; [|by apply IH].
  destruct c as [count|m]; cbn [call_ok snd] in Hc; [|lia]. pose proof (batch_pos count Hc). lia.
Qed.

Lemma batches_increase {S Env} `{SequencerLaws S Env} (calls : list (Env * call)) (s : S) :
  Forall (fun ec => call_ok (snd ec)) calls -> 0 <= GetMax s -> reach (GetMax s) calls < 2 ^ 64 ->
  Forall (fun b => GetMax s < fst b) (batches calls s) /\ StronglySorted before (batches calls s).
Proof.
  revert s. induction calls as [|[env c] calls IH]; intros s Hok Hpos Hr; [repeat constructor|].
  apply Forall_cons in Hok as [Hc Hok]. unfold reach in Hr. cbn [foldl snd] in Hr, Hc.
  destruct c as [count|m]; cbn [batches].
  - pose proof (batch_pos count Hc) as Hb. pose proof (reach_ge (GetMax s + batch count) calls Hok) as Hge.
    unfold reach in Hge. pose proof (next_start env count s Hc Hpos ltac:(lia)) as Hs.
    pose proof (next_max env count s Hc Hpos ltac:(lia)) as Hm.
    destruct (NextFileId env count s) as [start s'] eqn:E. cbn [fst snd] in *. subst start.
    destruct (IH s' Hok) as [IH1 IH2]; [lia|unfold reach; by rewrite Hm|]. rewrite Hm in IH1. split.
    + constructor; [cbn [fst]; lia|]. eapply Forall_impl; [exact IH1|]. intros x. cbn beta. lia.
    + constructor; [done|]. eapply Forall_impl; [exact IH1|]. intros x Hx. unfold before. cbn beta in Hx. cbn [fst snd]. lia.
  - destruct (IH (SetMax env m s) Hok) as [IH1 IH2]; rewrite ?set_max; [lia|done|].
    split; [|done]. rewrite set_max in IH1. eapply Forall_impl; [exact IH1|]. intros x. cbn beta. lia.
Qed.

(** ** The watermark file *)

Lemma trim_left_id l : (forall c, head l = Some c -> is_space c = false) -> trim_left l = l.
Proof. destruct l as [|c l]; intros H; [done|]. cbn [trim_left]. by rewrite (H c eq_refl). Qed.

Lemma format_no_space x c : 0 <= x -> c ∈ FormatUint x 10 -> is_space c = false.
Proof.
  intros Hx Hc. destruct (is_space c) eqn:E; [|done]. exfalso. revert Hc. apply FormatUint_no_byte; [lia..|].
  unfold is_space in E. apply orb_prop in E as [E|E]; apply bool_decide_eq_true_1 in E; lia.
Qed.

Lemma trim_numeral x : 0 <= x -> TrimSpace (FormatUint x 10 ++ [newline]) = FormatUint x 10.
Proof.
  intros Hx. unfold TrimSpace. rewrite (trim_left_id (FormatUint x 10 ++ [newline])).
  - rewrite reverse_snoc. cbn [trim_left]. change (is_space newline) with true. cbv iota.
    rewrite trim_left_id; [by rewrite reverse_involutive|].
    intros c Hc. apply (format_no_space x); [done|]. apply elem_of_reverse.
    destruct (reverse _) as [|y l]; [done|]. injection Hc as ->. apply list_elem_of_here.
  - intros c Hc. apply (format_no_space x); [done|]. pose proof (FormatUint_nonempty 10 ltac:(lia) x) as Hne.
    destruct (FormatUint x 10) as [|y l]; [done|]. injection Hc as ->. apply list_elem_of_here.
Qed.

Lemma save_load maxId d :
  in_u 64 maxId -> loadMaxFileId (snd (saveMaxFileId None maxId d)) = Ret maxId.
Proof.
  intros H. cbn [saveMaxFileId snd loadMaxFileId sd_file]. rewrite trim_numeral by apply H.
  pose proof (ParseUint_format 10 ltac:(lia) maxId 64) as Hp.
  destruct (FormatUint maxId 10) eqn:E; [by apply FormatUint_nonempty in E; [|lia]|]. by rewrite Hp by apply H.
Qed.

(** ** FileSequencer *)

Lemma persist_ceiling_current fault v s :
  fq_current (fst (persist_ceiling fault v s)) = fq_current (fst s) /\
  fq_step (fst (persist_ceiling fault v s)) = fq_step (fst s).
Proof. destruct s as [f d]. unfold persist_ceiling. by destruct fault as [[]|]. Qed.

Lemma fs_next_current fault count s :
  in_u 64 count -> 0 <= fq_current (fst s) -> fq_current (fst s) + batch count < 2 ^ 64 ->
  fst (fs_NextFileId fault count s) = fq_current (fst s) + 1 /\
  fq_current (fst (snd (fs_NextFileId fault count s))) = fq_current (fst s) + batch count.
Proof.
  intros Hc H0 Hw. pose proof (batch_pos count Hc). unfold fs_NextFileId. cbv zeta.
  set (s1 := if decide _ then _ else s).
  assert (fq_current (fst s1) = fq_current (fst s)) as E.
  { unfold s1. destruct (decide _); [|done]. apply persist_ceiling_current. }
  destruct s1 as [f d]. cbn [fst snd fq_current] in *. rewrite E, !wrap_small by u_lia. done.
Qed.

#[export] Instance FileSequencer_laws : SequencerLaws (FileSequencer * seq_disk) (option save_fault).
Proof.
  split.
  - intros. by apply fs_next_current.
  - intros. by apply fs_next_current.
  - intros fault m [f d]. change (fs_GetMax (fs_SetMax fault m (f, d)) = Z.max (fs_GetMax (f, d)) m).
    unfold fs_GetMax, fs_SetMax. case_decide; [cbn [fst]; lia|].
    destruct (persist_ceiling_current fault (u64 (m + fq_step f)) (mkFileSeq (fq_step f) m (fq_saved f), d)) as [-> _].
    cbn [fst fq_current]. lia.
Qed.

Section file_history.
Context (dir : string) (step : Z) (Hdir : dir <> ""%string) (Hstep : 0 < step).

(** The watermark on disk covers every id handed out. *)
Definition file_inv (b : Z) (s : FileSequencer * seq_disk) : Prop :=
  fq_step (fst s) = step /\ 0 <= fq_current (fst s) <= fq_saved (fst s) /\ fq_saved (fst s) <= b /\
  loadMaxFileId (snd s) = Ret (fq_saved (fst s)).

Lemma ceiling_ge b ops : Forall (fun op => seq_op_ok (snd op)) ops -> b <= ceiling step b ops.
Proof using Hstep.
  revert b. induction ops as [|[fault op] ops IH]; intros b H; [done|]. apply Forall_cons in H as [Ho H].
  unfold ceiling. cbn [foldl snd] in *. etransitivity; [|by apply IH].
  destruct op; cbn [seq_op_ok] in Ho; try lia. pose proof (batch_pos count Ho). lia.
Qed.

Lemma fs_next_inv b count s :
  file_inv b s -> in_u 64 count -> b + step + batch count < 2 ^ 64 ->
  file_inv (b + step + batch count) (snd (fs_NextFileId None count s)).
Proof using Hstep.
  destruct s as [f d]. intros (Hs & Hc & Hb & Hl) Hcount Hw. pose proof (batch_pos count Hcount). cbn [fst snd] in *.
  unfold fs_NextFileId. cbn [fst snd]. rewrite Hs. rewrite (wrap_small 64 (fq_current f + batch count)) by u_lia.
  case_decide.
  - unfold persist_ceiling. pose proof (save_load (u64 (fq_current f + step + batch count)) d) as Hsl.
    rewrite wrap_small in Hsl |- * by u_lia. cbn [saveMaxFileId snd fst fq_current fq_step] in *.
    unfold file_inv. cbn [fst snd fq_step fq_current fq_saved]. rewrite wrap_small by u_lia.
    split_and!; [done|lia..|]. apply Hsl. unfold in_u. lia.
  - unfold file_inv. cbn [fst snd fq_step fq_current fq_saved]. rewrite wrap_small by u_lia.
    split_and!; [done|lia..|done].
Qed.

Lemma fs_set_inv b m s :
  file_inv b s -> 0 <= m -> Z.max b (m + step) < 2 ^ 64 -> file_inv (Z.max b (m + step)) (fs_SetMax None m s).
Proof using Hstep.
  destruct s as [f d]. intros (Hs & Hc & Hb & Hl) Hm Hw. cbn [fst snd] in *. unfold fs_SetMax. case_decide.
  - unfold file_inv. cbn [fst snd]. split_and!; [done|lia..|done].
  - unfold persist_ceiling. pose proof (save_load (u64 (m + fq_step f)) d) as Hsl. rewrite Hs in *.
    rewrite wrap_small in Hsl |- * by u_lia. cbn [saveMaxFileId snd fst fq_current fq_step] in *.
    unfold file_inv. cbn [fst snd fq_step fq_current fq_saved]. split_and!; [done|lia..|]. apply Hsl. unfold in_u. lia.
Qed.

Lemma reopen_inv b d v :
  loadMaxFileId d = Ret v -> 0 <= v <= b ->
  exists f, NewFileSequencer dir step d = Ret f /\ fq_current f = v /\ file_inv b (f, d).
Proof using Hdir Hstep.
  intros Hl Hv. exists (mkFileSeq step v v). unfold NewFileSequencer. rewrite decide_False, Hl by done. cbv zeta.
  rewrite decide_False by lia. split_and!; [done..|]. unfold file_inv. cbn. split_and!; [done|lia..|done].
Qed.

Lemma file_run_increases ops b s :
  file_inv b s -> Forall (fun op => fst op = None /\ seq_op_ok (snd op)) ops -> ceiling step b ops < 2 ^ 64 ->
  exists bs, file_run dir step ops s = Some bs /\ Forall (fun x => fq_current (fst s) < fst x) bs /\
    StronglySorted before bs.
Proof using Hdir Hstep.
  revert b s. induction ops as [|[fault op] ops IH]; intros b s Hi Hok Hw; [by exists []; repeat constructor|].
  apply Forall_cons in Hok as [[Hf Ho] Hok]. cbn [fst snd] in Hf, Ho. subst fault.
  assert (Forall (fun op => seq_op_ok (snd op)) ops) as Hok'
    by (eapply Forall_impl; [exact Hok|]; by intros ? [_ ?]).
  unfold ceiling in Hw. cbn [foldl snd] in Hw. pose proof Hi as (Hs & Hc & Hb & Hl).
  destruct op as [count|m| |]; cbn [file_run seq_op_ok] in *.
  - pose proof (ceiling_ge (b + step + batch count) ops Hok') as Hge. unfold ceiling in Hge.
    destruct (fs_next_current None count s Ho) as [E1 E2]; [lia..|].
    pose proof (fs_next_inv b count s Hi Ho ltac:(lia)) as Hi'.
    destruct (fs_NextFileId None count s) as [start s']. cbn [fst snd] in *. subst start.
    destruct (IH _ _ Hi' Hok Hw) as (bs & -> & F & S). rewrite E2 in F. pose proof (batch_pos count Ho).
    exists ((fq_current (fst s) + 1, batch count) :: bs). split_and!; [done|..]; constructor; try done.
    + cbn [fst]. lia.
    + eapply Forall_impl; [exact F|]. intros x. cbn beta. lia.
    + eapply Forall_impl; [exact F|]. intros x Hx. cbn beta in Hx. unfold before. cbn [fst snd]. lia.
  - pose proof (ceiling_ge (Z.max b (m + step)) ops Hok') as Hge. unfold ceiling in Hge.
    pose proof (fs_set_inv b m s Hi Ho ltac:(lia)) as Hi'. destruct (IH _ _ Hi' Hok Hw) as (bs & -> & F & S).
    exists bs. split_and!; [done| |done]. pose proof (set_max None m s) as Hm.
    change (fq_current (fst (fs_SetMax None m s)) = Z.max (fq_current (fst s)) m) in Hm. rewrite Hm in F. eapply Forall_impl; [exact F|]. intros x. cbn beta. lia.
  - destruct (reopen_inv b (snd s) _ Hl ltac:(lia)) as (f & -> & Hcur & Hi').
    destruct (IH _ _ Hi' Hok Hw) as (bs & -> & F & S). exists bs. split_and!; [done| |done].
    cbn [fst] in F. rewrite Hcur in F. eapply Forall_impl; [exact F|]. intros x. cbn beta. lia.
  - pose proof (ceiling_ge b ops Hok') as Hge. unfold ceiling in Hge.
    pose proof (save_load (fq_current (fst s)) (snd s) ltac:(u_lia)) as Hl'.
    change (saveMaxFileId None (fq_current (fst s)) (snd s)) with (fs_Close None s) in Hl'.
    destruct (reopen_inv b _ _ Hl' ltac:(lia)) as (f & -> & Hcur & Hi').
    destruct (IH _ _ Hi' Hok Hw) as (bs & -> & F & S). exists bs. split_and!; [done| |done].
    cbn [fst] in F. by rewrite Hcur in F.
Qed.
End file_history.

Lemma load_range d v : loadMaxFileId d = Ret v -> 0 <= v.
Proof.
  unfold loadMaxFileId. destruct (sd_file d) as [data|]; [|by intros [= <-]].
  destruct (TrimSpace data) as [|c l]; [by intros [= <-]|].
  destruct (ParseUint (c :: l) 10 64) as [n|] eqn:E; [|done]. intros [= <-].
  apply ParseUint_range in E; [apply E|lia].
Qed.

(** C12: a [FileSequencer] never hands out an id twice. Over any history of calls,
    crashes and orderly restarts in which the watermark can be written, every batch
    starts after all the ids handed out before it and after the watermark found at the
    start, until the 64-bit ids are exhausted. *)
Theorem FileSequencer_never_reuses dir step ops d v :
  dir <> ""%string -> 0 < step -> loadMaxFileId d = Ret v ->
  Forall (fun op => fst op = None /\ seq_op_ok (snd op)) ops -> ceiling step v ops < 2 ^ 64 ->
  exists f bs, NewFileSequencer dir step d = Ret f /\ file_run dir step ops (f, d) = Some bs /\
    StronglySorted before bs /\ Forall (fun b => v < fst b) bs.
Proof.
  intros Hdir Hstep Hl Hok Hw. pose proof (load_range d v Hl).
  destruct (reopen_inv dir step Hdir Hstep v d v Hl ltac:(lia)) as (f & Hf & Hc & Hi).
  destruct (file_run_increases dir step Hdir Hstep ops v (f, d) Hi Hok Hw) as (bs & Hr & F & S).
  cbn [fst] in F. rewrite Hc in F. eauto 10.
Qed.

Lemma FileSequencer_never_reuses_witness :
  let ops := [(None, ONext 3); (None, OCrash); (None, ONext 1); (None, OReopen); (None, OSetMax 50000); (None, ONext 0)] in
  exists bs, file_run "d" 100 ops (mkFileSeq 100 7 7, mkSeqDisk (Some (FormatUint 7 10)) None) = Some bs /\
    bs = [(8, 3); (111, 1); (50001, 1)] /\ StronglySorted before bs.
Proof.
  intros ops. destruct (FileSequencer_never_reuses "d" 100 ops (mkSeqDisk (Some (FormatUint 7 10)) None) 7)
    as (f & bs & Hf & Hr & Hs & _).
  - discriminate.
  - reflexivity.
  - vm_compute. reflexivity.
  - repeat constructor; unfold seq_op_ok, in_u; cbn [snd]; lia.
  - vm_compute. reflexivity.
  - exists bs. vm_compute in Hf. injection Hf as <-. split; [exact Hr|]. split; [|exact Hs].
    vm_compute in Hr. injection Hr as <-. reflexivity.
Defined.

(** When the watermark cannot be written, [NextFileId] hands the ids out all the
    same, and after a crash they are handed out again. *)
Theorem persist_failure_reuses_ids fault step :
  file_run "d" step [(Some fault, ONext 1); (None, OCrash); (None, ONext 1)]
    (mkFileSeq step 0 0, mkSeqDisk None None) = Some [(1, 1); (1, 1)].
Proof.
  destruct fault; cbn [file_run fs_NextFileId]; cbn; unfold NewFileSequencer, loadMaxFileId; cbn; by case_decide.
Qed.

(** ** SnowflakeSequencer *)

Definition snow_ok (now nodeId sequence : Z) : Prop :=
  0 <= now < 2 ^ 42 /\ 0 <= nodeId <= 1023 /\ 0 <= sequence <= maxSequenceValue.

Lemma snow_id_val now nodeId sequence :
  snow_ok now nodeId sequence -> snow_id now nodeId sequence = now * 2 ^ 22 + nodeId * 2 ^ 12 + sequence.
Proof.
  unfold snow_ok, snow_id, maxSequenceValue, timeShiftBits, nodeIdShiftBits. intros (Ht & Hn & Hs).
  rewrite !wrap_small by (unfold in_u; rewrite Z.shiftl_mul_pow2 by lia; lia).
  rewrite <- Z.lor_assoc, (lor_shift_add nodeId) by lia. rewrite lor_shift_add by lia. lia.
Qed.

Lemma spin_Some stop clock now rest :
  spin stop clock = Some (now, rest) -> stop now = true /\ exists pre, clock = pre ++ now :: rest.
Proof.
  revert now rest. induction clock as [|x clock IH]; intros now rest; cbn [spin]; [done|].
  destruct (stop x) eqn:E; [intros [= <- <-]; split; [done|by exists []]|].
  intros (? & pre & ->)%IH. split; [done|]. by exists (x :: pre).
Qed.

Lemma sorted_suffix (R : Z -> Z -> Prop) x pre y l :
  StronglySorted R (x :: pre ++ y :: l) -> R x y /\ StronglySorted R (y :: l).
Proof.
  intros H. inversion_clear H as [|? ? Hs Hf]. rewrite Forall_app, Forall_cons in Hf. split; [tauto|].
  clear Hf. induction pre as [|z pre IH]; [done|]. inversion_clear Hs. by apply IH.
Qed.

(** A clock that does not go back. *)
Definition steady (last : Z) (clock : list Z) : Prop :=
  StronglySorted Z.le (last :: clock) /\ Forall (fun t => t < 2 ^ 42) clock.

Lemma steady_spin stop last clock now rest :
  steady last clock -> spin stop clock = Some (now, rest) -> stop now = true /\ last <= now < 2 ^ 42 /\ steady now rest.
Proof.
  intros [Hs Hf] H. apply spin_Some in H as (Hstop & pre & ->). apply sorted_suffix in Hs as [Hle Hs].
  rewrite Forall_app, Forall_cons in Hf. unfold steady. tauto.
Qed.

(** One call: a later time, or the next number of the same millisecond. *)
Lemma snow_next_cases count s clock id s' rest :
  snow_ok (sf_lastTime s) (sf_nodeId s) (sf_sequence s) -> steady (sf_lastTime s) clock ->
  snow_NextFileId count s clock = Some (id, s', rest) ->
  id = snow_GetMax s' /\ sf_nodeId s' = sf_nodeId s /\ steady (sf_lastTime s') rest /\
  snow_ok (sf_lastTime s') (sf_nodeId s') (sf_sequence s') /\
  (sf_lastTime s < sf_lastTime s' \/ sf_lastTime s = sf_lastTime s' /\ sf_sequence s < sf_sequence s').
Proof.
  intros (Ht & Hn & Hq) Hst H. unfold snow_NextFileId in H.
  apply bind_Some in H as ([now c1] & H1 & H). apply bind_Some in H as ([[now' q] c2] & H2 & [= <- <- <-]).
  destruct (steady_spin _ _ _ _ _ Hst H1) as (_ & Hle & Hst1). unfold snow_GetMax, snow_ok. cbn [sf_nodeId sf_lastTime sf_sequence].
  unfold maxSequenceValue in *. destruct (decide (now = sf_lastTime s)) as [->|Hne].
  - rewrite wrap_small in H2 by u_lia. case_decide.
    + apply bind_Some in H2 as ([now2 c3] & H3 & [= <- <- <-]).
      destruct (steady_spin _ _ _ _ _ Hst1 H3) as (Hgt%bool_decide_eq_true_1 & Hle2 & Hst2). split_and!; try done; lia.
    + injection H2 as <- <- <-. split_and!; try done; lia.
  - rewrite decide_True in H2 by lia. injection H2 as <- <- <-. split_and!; try done; lia.
Qed.

Lemma snow_max_lt s s' :
  snow_ok (sf_lastTime s) (sf_nodeId s) (sf_sequence s) -> snow_ok (sf_lastTime s') (sf_nodeId s') (sf_sequence s') ->
  sf_nodeId s' = sf_nodeId s ->
  sf_lastTime s < sf_lastTime s' \/ sf_lastTime s = sf_lastTime s' /\ sf_sequence s < sf_sequence s' ->
  snow_GetMax s < snow_GetMax s'.
Proof.
  intros H1 H2 Hn Hc. unfold snow_GetMax. rewrite !snow_id_val by done. rewrite Hn.
  unfold snow_ok, maxSequenceValue in *. destruct Hc as [Hc|[-> Hc]]; lia.
Qed.

(** With a clock that does not go back, the ids of one [SnowflakeSequencer] strictly
    increase, whatever the number of calls per millisecond; a sequencer whose clock
    advances always answers. *)
Theorem snowflake_increases n s clock :
  snow_ok (sf_lastTime s) (sf_nodeId s) (sf_sequence s) -> steady (sf_lastTime s) clock ->
  (forall ids, snow_ids n s clock = Some ids -> StronglySorted Z.lt (snow_GetMax s :: ids)) /\
  (StronglySorted Z.lt (sf_lastTime s :: clock) -> (n <= length clock)%nat -> is_Some (snow_ids n s clock)).
Proof.
  revert s clock. induction n as [|n IH]; intros s clock Hok Hst.
  { split; [intros ids [= <-]; repeat constructor|by eauto]. }
  cbn [snow_ids]. split.
  - intros ids H. apply bind_Some in H as ([[id s'] rest] & H1 & (ids' & H2 & ->)%fmap_Some).
    destruct (snow_next_cases _ _ _ _ _ _ Hok Hst H1) as (-> & Hn & Hst' & Hok' & Hc).
    destruct (IH s' rest Hok' Hst') as [Hs _]. specialize (Hs _ H2).
    pose proof (snow_max_lt s s' Hok Hok' Hn Hc) as Hlt. constructor; [done|].
    inversion_clear Hs as [|? ? _ Hf]. constructor; [done|].
    eapply Forall_impl; [exact Hf|]. intros x Hx. cbn beta in Hx. lia.
  - intros Hlt Hlen. destruct clock as [|t clock]; [cbn in Hlen; lia|].
    pose proof Hlt as [Hlt1 Hlt2]%(sorted_suffix Z.lt _ [] t clock).
    assert (snow_NextFileId 1 s (t :: clock) = Some (snow_id t (sf_nodeId s) 0, mkSnow (sf_nodeId s) t 0, clock)) as E.
    { unfold snow_NextFileId. cbn [spin mbind option_bind]. rewrite decide_False, decide_True by lia. done. }
    destruct (snow_next_cases _ _ _ _ _ _ Hok Hst E) as (_ & _ & Hst' & Hok' & _).
    destruct (IH _ _ Hok' Hst') as [_ Hs]. rewrite E. cbn [mbind option_bind].
    destruct (Hs Hlt2 ltac:(cbn in Hlen; lia)) as [ids ->]. by eexists.
Qed.

Lemma snowflake_increases_witness :
  exists ids, snow_ids 4 (mkSnow 5 0 0) [7; 7; 7; 9] = Some ids /\ StronglySorted Z.lt ids.
Proof.
  destruct (snowflake_increases 4 (mkSnow 5 0 0) [7; 7; 7; 9]) as [H _].
  - unfold snow_ok, maxSequenceValue; cbn; lia.
  - split; repeat first [apply SSorted_nil | apply SSorted_cons | apply List.Forall_nil | apply List.Forall_cons | cbn; lia].
  - eexists. split; [vm_compute; reflexivity|]. specialize (H _ ltac:(vm_compute; reflexivity)).
    inversion H; assumption.
Defined.

(** The [SnowflakeSequencer] does not keep two promises of its interface. A call for
    two ids is followed, in the same millisecond, by a call that gets the second of them;
    and a clock that goes back and catches up makes it repeat an id. *)
Theorem snowflake_breaks_contract nodeId t :
  0 <= nodeId <= 1023 -> 0 < t < 2 ^ 42 ->
  (exists id s1 s2, snow_NextFileId 2 (mkSnow nodeId 0 0) [t; t] = Some (id, s1, [t]) /\
     snow_NextFileId 2 s1 [t] = Some (id + 1, s2, [])) /\
  (exists id, snow_ids 2 (mkSnow nodeId 0 0) [t; t - 1; t] = Some [id; id]).
Proof.
  intros Hn Ht. assert (snow_id t nodeId 1 = snow_id t nodeId 0 + 1) as E
    by (rewrite !snow_id_val by (unfold snow_ok, maxSequenceValue; lia); lia).
  split.
  - exists (snow_id t nodeId 0), (mkSnow nodeId t 0), (mkSnow nodeId t 1). unfold snow_NextFileId.
    cbn [spin mbind option_bind sf_lastTime sf_nodeId sf_sequence]. rewrite decide_False, decide_True by lia. split; [done|].
    rewrite decide_True by done. by rewrite <- E.
  - exists (snow_id t nodeId 0). cbn [snow_ids]. unfold snow_NextFileId.
    cbn [spin mbind option_bind sf_lastTime sf_nodeId sf_sequence].
    rewrite (decide_False (P := t = 0)), (decide_True (P := t > 0)) by lia.
    cbn [spin mbind option_bind sf_lastTime sf_nodeId sf_sequence].
    rewrite (decide_False (P := t - 1 = t)), (decide_False (P := t - 1 > t)) by lia.
    cbn [spin]. rewrite bool_decide_eq_true_2 by lia. done.
Qed.

Lemma snowflake_breaks_contract_witness :
  exists id, snow_ids 2 (mkSnow 1 0 0) [1000; 999; 1000] = Some [id; id].
Proof.
  destruct (snowflake_breaks_contract 1 1000) as [_ H]; [lia|lia|]. exact H.
Defined.
