(* ===== verification/MasterSeq.v ===== *)
(** * MasterSeq: needle ids of a replicated master

    Models [goblob/raft/fsm.go], the commands and the state machine replicated between
    masters, [goblob/sequence/raft_sequencer.go], and the reaction of
    [goblob/server/master_server.go] to the events of the state machine.  Entries of
    the log are decoded: a payload that is not valid JSON is [None].  [Raft.Apply] is
    an external call: it tells whether the command was committed. *)

From Stdlib Require Import Sorting.Sorted.
From S2P Require Import Prelude Sequence.

(** ** The state machine *)

Inductive Command :=
| MaxFileIdCommand (max : Z) | MaxVolumeIdCommand (max : Z) | TopologyIdCommand (id : string).

Inductive raft_entry :=
| EntryMaxFileId (payload : option Z) | EntryMaxVolumeId (payload : option Z)
| EntryTopologyId (payload : option string) | EntryUnknown (type : string).

Inductive StateEvent :=
| EventMaxFileId (max : Z) | EventMaxVolumeId (max : Z) | EventTopologyId (id : string)
| EventRestored (maxFileId maxVolumeId : Z) (topologyId : string).

Record MasterFSM := mkMasterFSM { m_maxFileId : Z; m_maxVolumeId : Z; m_topologyId : string }.

Inductive fsm_err := ErrUnmarshal | ErrUnknownType (type : string).

Definition NewMasterFSM : MasterFSM := mkMasterFSM 0 0 ""%string.

(** The error or the event published, and the new state. *)
Definition applyEntry (entry : raft_entry) (m : MasterFSM) : outcome fsm_err (option StateEvent) * MasterFSM :=
  match entry with
  | EntryMaxFileId None | EntryMaxVolumeId None | EntryTopologyId None => (Fail ErrUnmarshal, m)
  | EntryMaxFileId (Some v) =>
      if decide (v > m_maxFileId m)
      then (Ret (Some (EventMaxFileId v)), mkMasterFSM v (m_maxVolumeId m) (m_topologyId m)) else (Ret None, m)
  | EntryMaxVolumeId (Some v) =>
      if decide (v > m_maxVolumeId m)
      then (Ret (Some (EventMaxVolumeId v)), mkMasterFSM (m_maxFileId m) v (m_topologyId m)) else (Ret None, m)
  | EntryTopologyId (Some t) =>
      (Ret (Some (EventTopologyId t)), mkMasterFSM (m_maxFileId m) (m_maxVolumeId m) t)
  | EntryUnknown type => (Fail (ErrUnknownType type), m)
  end.

Definition entry_of (cmd : Command) : raft_entry :=
  match cmd with
  | MaxFileIdCommand v => EntryMaxFileId (Some v)
  | MaxVolumeIdCommand v => EntryMaxVolumeId (Some v)
  | TopologyIdCommand t => EntryTopologyId (Some t)
  end.

Definition ApplyCommand (cmd : Command) (m : MasterFSM) : outcome fsm_err (option StateEvent) * MasterFSM :=
  applyEntry (entry_of cmd) m.

(** [RestoreBytes] of a snapshot, [None] when it does not decode. *)
Definition RestoreBytes (state : option MasterFSM) (m : MasterFSM) : outcome fsm_err StateEvent * MasterFSM :=
  match state with
  | None => (Fail ErrUnmarshal, m)
  | Some s => (Ret (EventRestored (m_maxFileId s) (m_maxVolumeId s) (m_topologyId s)), s)
  end.

(** ** RaftSequencer *)

Record RaftSequencer := mkRaftSeq { rq_wrapped : FileSequencer * seq_disk; rq_lastSyncedId : Z }.

Definition NewRaftSequencer (dataDir : string) (stepSize : Z) (d : seq_disk) : outcome seq_err RaftSequencer :=
  match NewFileSequencer dataDir stepSize d with
  | Ret f => Ret (mkRaftSeq (f, d) (fs_GetMax (f, d)))
  | Fail e => Fail e
  | Panic => Panic
  end.

Definition rs_SetMax (fault : option save_fault) (maxId : Z) (s : RaftSequencer) : RaftSequencer :=
  mkRaftSeq (fs_SetMax fault maxId (rq_wrapped s)) (Z.max maxId (rq_lastSyncedId s)).

Definition rs_GetMax (s : RaftSequencer) : Z := fs_GetMax (rq_wrapped s).

Definition rs_Close (fault : option save_fault) (s : RaftSequencer) : outcome seq_err unit * seq_disk :=
  fs_Close fault (rq_wrapped s).

(** The first critical section: the high-water mark and whether it is submitted. *)
Definition rs_begin (count : Z) (s : RaftSequencer) : Z * bool :=
  let newMax := u64 (fq_current (fst (rq_wrapped s)) + batch count) in
  (newMax, bool_decide (newMax > rq_lastSyncedId s)).

(** The second one, after a successful [Apply]. *)
Definition rs_synced (newMax : Z) (s : RaftSequencer) : RaftSequencer :=
  mkRaftSeq (rq_wrapped s) (if decide (newMax > rq_lastSyncedId s) then newMax else rq_lastSyncedId s).

(** The last one. *)
Definition rs_alloc (fault : option save_fault) (count : Z) (s : RaftSequencer) : Z * RaftSequencer :=
  let '(start, w) := fs_NextFileId fault (batch count) (rq_wrapped s) in (start, mkRaftSeq w (rq_lastSyncedId s)).

(** [NextFileId]: [applied] is the answer of [Apply], [window] the calls of [SetMax]
    other goroutines make while the lock is free. The command submitted, the start of
    the batch and the new state. *)
Definition rs_NextFileId (applied : bool) (window : list Z) (fault : option save_fault) (count : Z) (s : RaftSequencer)
  : option Command * Z * RaftSequencer :=
  let '(newMax, needSync) := rs_begin count s in
  let s := if needSync && applied then rs_synced newMax s else s in
  let s := foldl (fun s m => rs_SetMax fault m s) s window in
  let '(start, s) := rs_alloc fault count s in
  ((if needSync then Some (MaxFileIdCommand newMax) else None), start, s).

Definition SyncToRaft (applied : bool) (s : RaftSequencer) : option Command * outcome seq_err unit * RaftSequencer :=
  let maxId := rs_GetMax s in
  if decide (maxId = 0) then (None, Ret tt, s)
  else (Some (MaxFileIdCommand maxId), if applied then Ret tt else Fail ErrSave,
        if applied then mkRaftSeq (rq_wrapped s) maxId else s).

(** [handleFSMEvents], the part that concerns the sequencer. *)
Definition handle_event (evt : StateEvent) (s : RaftSequencer) : RaftSequencer :=
  match evt with
  | EventMaxFileId m => rs_SetMax None m s
  | EventRestored m _ _ => if decide (m > 0) then rs_SetMax None m s else s
  | _ => s
  end.

(** The sequencer of one process, under the interface. *)
#[export] Instance RaftSequencer_Sequencer : Sequencer RaftSequencer (bool * option save_fault) :=
  {| NextFileId env count s := let '(_, start, s) := rs_NextFileId (fst env) [] (snd env) count s in (start, s);
     SetMax env m s := rs_SetMax (snd env) m s;
     GetMax := rs_GetMax |}.

(** ** Masters that take turns *)

(** The replicas' sequencers and the state machine they agree on. *)
Record masters := mkMasters { ms_seq : list RaftSequencer; ms_fsm : MasterFSM }.

(** Master [k] becomes leader, which waits for its state machine to catch up and its
    events to be handled, and serves a call. *)
Definition serve (k : nat) (count : Z) (ms : masters) : option (Z * masters) :=
  s ← ms_seq ms !! k;
  let s := rs_SetMax None (m_maxFileId (ms_fsm ms)) s in
  let '(cmd, start, s) := rs_NextFileId true [] None count s in
  let fsm := match cmd with Some c => snd (ApplyCommand c (ms_fsm ms)) | None => ms_fsm ms end in
  Some (start, mkMasters (<[k := s]> (ms_seq ms)) fsm).

Fixpoint serve_all (calls : list (nat * Z)) (ms : masters) : option (list (Z * Z)) :=
  match calls with
  | [] => Some []
  | (k, count) :: calls =>
      '(start, ms) ← serve k count ms; (fun bs => (start, batch count) :: bs) <$> serve_all calls ms
  end.

(** ** One process *)

Lemma batch_idem count : batch (batch count) = batch count.
Proof. unfold batch. by repeat case_decide. Qed.

Lemma rs_set_max fault m s : rs_GetMax (rs_SetMax fault m s) = Z.max (rs_GetMax s) m.
Proof. exact (set_max fault m (rq_wrapped s)). Qed.

(** The batch follows the ids handed out and the marks set meanwhile. *)
Lemma rs_alloc_next fault count s :
  in_u 64 count -> 0 <= rs_GetMax s -> rs_GetMax s + batch count < 2 ^ 64 ->
  exists s', rs_alloc fault count s = (rs_GetMax s + 1, s') /\ rs_GetMax s' = rs_GetMax s + batch count /\
    rq_lastSyncedId s' = rq_lastSyncedId s.
Proof.
  intros Hc H0 Hw. pose proof (batch_pos count Hc). unfold rs_alloc.
  destruct (fs_next_current fault (batch count) (rq_wrapped s)) as [H1 H2]; rewrite ?batch_idem; [unfold in_u; lia|done..|].
  rewrite batch_idem in H2. destruct (fs_NextFileId fault (batch count) (rq_wrapped s)) as [start w].
  cbn [fst snd] in *. eexists. split; [by rewrite H1|]. done.
Qed.

Lemma rs_next_quiet applied fault count s :
  in_u 64 count -> 0 <= rs_GetMax s -> rs_GetMax s + batch count < 2 ^ 64 ->
  exists s', rs_NextFileId applied [] fault count s =
      ((if decide (rs_GetMax s + batch count > rq_lastSyncedId s)
        then Some (MaxFileIdCommand (rs_GetMax s + batch count)) else None), rs_GetMax s + 1, s') /\
    rs_GetMax s' = rs_GetMax s + batch count /\
    rq_lastSyncedId s' = if applied then Z.max (rs_GetMax s + batch count) (rq_lastSyncedId s) else rq_lastSyncedId s.
Proof.
  intros Hc H0 Hw. pose proof (batch_pos count Hc). unfold rs_NextFileId, rs_begin. cbn [foldl].
  change (fq_current (fst (rq_wrapped s))) with (rs_GetMax s). rewrite wrap_small by u_lia.
  set (newMax := rs_GetMax s + batch count) in *. set (s1 := if _ && _ then _ else s).
  assert (rs_GetMax s1 = rs_GetMax s) as E1 by (unfold s1; by destruct (_ && _)).
  assert (rq_lastSyncedId s1 = if applied then Z.max newMax (rq_lastSyncedId s) else rq_lastSyncedId s) as E2.
  { unfold s1, rs_synced. case_bool_decide; destruct applied; cbn [andb rq_lastSyncedId]; try done; [|lia].
    rewrite decide_True by done. lia. }
  destruct (rs_alloc_next fault count s1 Hc) as (s' & -> & H1 & H2); rewrite ?E1 in *; [lia..|].
  exists s'. split; [|split; [exact H1|by rewrite H2, E2]]. do 2 f_equal. case_bool_decide; by rewrite ?decide_True, ?decide_False by done.
Qed.

#[export] Instance RaftSequencer_laws : SequencerLaws RaftSequencer (bool * option save_fault).
Proof.
  split.
  - intros [ok fault] count s Hc H0 Hw. cbn [NextFileId RaftSequencer_Sequencer fst snd].
    destruct (rs_next_quiet ok fault count s Hc H0 Hw) as (s' & -> & _). done.
  - intros [ok fault] count s Hc H0 Hw. cbn [NextFileId RaftSequencer_Sequencer fst snd].
    destruct (rs_next_quiet ok fault count s Hc H0 Hw) as (s' & -> & H & _). done.
  - intros [ok fault] m s. apply rs_set_max.
Qed.

(** Within one process the sequencer of a master keeps the promise of the interface:
    whatever the answers of Raft and the failures of the disk, and whatever marks are set
    in between, each batch starts after all the ids handed out before it. *)
Theorem RaftSequencer_batches_increase (calls : list (bool * option save_fault * call)) (s : RaftSequencer) :
  Forall (fun ec => call_ok (snd ec)) calls -> 0 <= rs_GetMax s -> reach (rs_GetMax s) calls < 2 ^ 64 ->
  StronglySorted before (batches calls s) /\ Forall (fun b => rs_GetMax s < fst b) (batches calls s).
Proof. intros H1 H2 H3. pose proof (batches_increase calls s) as H. destruct (H H1 H2 H3). done. Qed.

Lemma RaftSequencer_batches_increase_witness :
  let s := mkRaftSeq (mkFileSeq 10 0 0, mkSeqDisk None None) 0 in
  let calls := [(false, Some FaultSync, CNext 2); (true, None, CSetMax 40); (true, None, CNext 3)] in
  batches calls s = [(1, 2); (41, 3)] /\ StronglySorted before (batches calls s).
Proof.
  intros s calls. split; [vm_compute; reflexivity|].
  apply (RaftSequencer_batches_increase calls s).
  - repeat constructor; unfold call_ok, in_u; cbn [snd]; lia.
  - vm_compute. discriminate.
  - vm_compute. reflexivity.
Defined.

(** ** Masters that take turns *)

(** The agreed mark covers every id handed out. *)
Definition masters_inv (ms : masters) : Prop :=
  Forall (fun s => 0 <= rs_GetMax s <= m_maxFileId (ms_fsm ms) /\ rq_lastSyncedId s <= m_maxFileId (ms_fsm ms)) (ms_seq ms).

Lemma serve_next k count ms :
  masters_inv ms -> (k < length (ms_seq ms))%nat -> in_u 64 count ->
  m_maxFileId (ms_fsm ms) + batch count < 2 ^ 64 ->
  exists ms', serve k count ms = Some (m_maxFileId (ms_fsm ms) + 1, ms') /\
    m_maxFileId (ms_fsm ms') = m_maxFileId (ms_fsm ms) + batch count /\
    length (ms_seq ms') = length (ms_seq ms) /\ masters_inv ms'.
Proof.
  intros Hi Hk Hc Hw. pose proof (batch_pos count Hc). destruct (lookup_lt_is_Some_2 _ _ Hk) as [s Hs].
  pose proof (Forall_lookup_1 _ _ _ _ Hi Hs) as [Hg Hl]. cbn beta in Hg, Hl. unfold serve. rewrite Hs. cbn [mbind option_bind].
  set (w := m_maxFileId (ms_fsm ms)) in *. set (s1 := rs_SetMax None w s).
  assert (rs_GetMax s1 = w) as E1 by (unfold s1; rewrite rs_set_max; lia).
  assert (rq_lastSyncedId s1 = w) as E2 by (unfold s1, rs_SetMax; cbn [rq_lastSyncedId]; lia).
  destruct (rs_next_quiet true None count s1 Hc) as (s' & -> & H1 & H2); [lia..|]. rewrite E1, E2 in *.
  rewrite decide_True by lia. cbn [ApplyCommand entry_of applyEntry]. unfold ApplyCommand. cbn [entry_of applyEntry].
  fold w. rewrite decide_True by lia. cbn [snd]. eexists. split; [reflexivity|]. cbn [ms_fsm ms_seq m_maxFileId].
  split; [done|]. split; [apply length_insert|]. unfold masters_inv. cbn [ms_fsm ms_seq m_maxFileId].
  apply Forall_insert; [|cbn beta; lia]. eapply Forall_impl; [exact Hi|]. intros x Hx. cbn beta in *. fold w in Hx. lia.
Qed.

(** C13: masters that take turns never hand out an id twice, as long as a leader has
    caught up with the committed high-water mark before it serves, its commands are
    committed, and no other call or event gets between the commit and the allocation. *)
Theorem masters_never_reuse calls ms :
  masters_inv ms -> Forall (fun kc => (fst kc < length (ms_seq ms))%nat /\ in_u 64 (snd kc)) calls ->
  foldl (fun b kc => b + batch (snd kc)) (m_maxFileId (ms_fsm ms)) calls < 2 ^ 64 ->
  exists bs, serve_all calls ms = Some bs /\ StronglySorted before bs /\
    Forall (fun b => m_maxFileId (ms_fsm ms) < fst b) bs.
Proof.
  revert ms. induction calls as [|[k count] calls IH]; intros ms Hi Hok Hw; [by exists []; repeat constructor|].
  apply Forall_cons in Hok as [[Hk Hc] Hok]. cbn [fst snd foldl] in *. pose proof (batch_pos count Hc).
  assert (m_maxFileId (ms_fsm ms) + batch count < 2 ^ 64) as Hw1.
  { eapply Z.le_lt_trans; [|exact Hw]. clear Hw IH. generalize (m_maxFileId (ms_fsm ms) + batch count). revert Hok.
    induction calls as [|[k' c'] calls IH]; intros Hok z; [done|]. apply Forall_cons in Hok as [[_ Hc'] Hok].
    cbn [foldl snd] in *. pose proof (batch_pos c' Hc'). specialize (IH Hok (z + batch c')). lia. }
  destruct (serve_next k count ms Hi Hk Hc Hw1) as (ms' & E & Hm & Hlen & Hi').
  cbn [serve_all]. rewrite E. cbn [mbind option_bind].
  destruct (IH ms' Hi') as (bs & -> & S & F); [by rewrite Hlen|by rewrite Hm|]. rewrite Hm in F.
  eexists. split; [reflexivity|]. split; constructor; try done.
  - eapply Forall_impl; [exact F|]. intros x Hx. cbn beta in Hx. unfold before. cbn [fst snd]. lia.
  - cbn [fst]. lia.
  - eapply Forall_impl; [exact F|]. intros x Hx. cbn beta in *. lia.
Qed.

Definition fresh_sequencer (step : Z) : RaftSequencer := mkRaftSeq (mkFileSeq step 0 0, mkSeqDisk None None) 0.

Lemma masters_never_reuse_witness :
  let ms := mkMasters [fresh_sequencer 100; fresh_sequencer 100] NewMasterFSM in
  serve_all [(0%nat, 2); (1%nat, 1); (0%nat, 5)] ms = Some [(1, 2); (3, 1); (4, 5)] /\
  exists bs, serve_all [(0%nat, 2); (1%nat, 1); (0%nat, 5)] ms = Some bs /\ StronglySorted before bs.
Proof.
  intros ms. split; [vm_compute; reflexivity|].
  destruct (masters_never_reuse [(0%nat, 2); (1%nat, 1); (0%nat, 5)] ms) as (bs & H1 & H2 & _).
  - repeat constructor; vm_compute; discriminate.
  - repeat constructor; unfold in_u; cbn [fst snd]; cbn [length ms_seq ms]; lia.
  - vm_compute. reflexivity.
  - exists bs. split; [exact H1|exact H2].
Defined.

(** A failover can hand ids out twice. The event of the very command a call has
    committed, handled before the call allocates, moves the allocation past the committed
    mark; the next leader, which knows only that mark, starts at the same id. *)
Theorem failover_reuses_ids step count :
  0 < step < 2 ^ 62 -> 0 < count < 2 ^ 62 ->
  exists cmd fsm leader,
    rs_NextFileId true [count] None count (fresh_sequencer step) = (Some cmd, count + 1, leader) /\
    ApplyCommand cmd NewMasterFSM = (Ret (Some (EventMaxFileId count)), fsm) /\ m_maxFileId fsm = count /\
    let next := handle_event (EventMaxFileId count) (fresh_sequencer step) in
    snd (fst (rs_NextFileId true [] None count next)) = count + 1.
Proof.
  intros Hs Hc. assert (batch count = count) as Eb by (unfold batch; rewrite decide_False; lia).
  assert (in_u 64 count) as Hu by u_lia.
  exists (MaxFileIdCommand count), (mkMasterFSM count 0 ""%string).
  set (s1 := rs_SetMax None count (rs_synced count (fresh_sequencer step))).
  assert (rs_GetMax s1 = count) as E1.
  { unfold s1. rewrite rs_set_max. change (rs_GetMax (rs_synced count (fresh_sequencer step))) with 0. lia. }
  destruct (rs_alloc_next None count s1 Hu) as (a & Ha & _ & _); rewrite ?E1, ?Eb in *; [lia..|].
  exists a. split_and!; [|by unfold ApplyCommand; cbn; rewrite decide_True by lia|done|].
  - unfold rs_NextFileId, rs_begin. change (fq_current (fst (rq_wrapped (fresh_sequencer step)))) with 0.
    rewrite Eb, Z.add_0_l, wrap_small by done. rewrite bool_decide_eq_true_2 by (cbn; lia). cbn [andb foldl].
    fold s1. by rewrite Ha.
  - cbn [handle_event]. set (s2 := rs_SetMax None count (fresh_sequencer step)).
    assert (rs_GetMax s2 = count) as E2
      by (unfold s2; rewrite rs_set_max; change (rs_GetMax (fresh_sequencer step)) with 0; lia).
    destruct (rs_next_quiet true None count s2 Hu) as (s' & E & _); [lia..|].
    rewrite E. cbn [fst snd]. by rewrite E2.
Qed.

Lemma failover_reuses_ids_witness :
  exists cmd fsm leader, rs_NextFileId true [1] None 1 (fresh_sequencer 10000) = (Some cmd, 2, leader) /\
    snd (ApplyCommand cmd NewMasterFSM) = fsm /\ m_maxFileId fsm = 1.
Proof.
  destruct (failover_reuses_ids 10000 1) as (cmd & fsm & a & H1 & H2 & H3 & _); [lia|lia|].
  exists cmd, fsm, a. split; [exact H1|]. split; [rewrite H2; reflexivity|exact H3].
Defined.
