(* ===== verification/LogBuffer.v ===== *)
(** * LogBuffer: the ring of metadata events

    Models [goblob/log_buffer/log_buffer.go].  The clock's reading is an argument of
    [AppendEntry].  Calls of [flushFn] are recorded in the state; their outcome is an
    argument of the periodic flush, and ignored by the asynchronous one, as in the code. *)

From S2P Require Import Prelude Bytes.

Record LogSegment := mkSeg { sg_buf : bytes; sg_startTsNs : Z; sg_stopTsNs : Z; sg_isFlushed : bool }.

Definition empty_seg : LogSegment := mkSeg [] 0 0 false.

(** [lb_flushFn] tells whether there is a flush function; [lb_calls] are the buffers it
    was called with. *)
Record LogBuffer := mkLogBuffer {
  lb_segments : list LogSegment;
  lb_lastSegmentIdx : nat;
  lb_maxSegmentBytes : Z;
  lb_flushFn : bool;
  lb_calls : list (Z * Z * bytes);
}.

Definition lb_maxSegmentCount (lb : LogBuffer) : nat := length (lb_segments lb).

Definition NewLogBuffer (maxSegmentCount maxSegmentBytes : Z) (flushFn : bool) : LogBuffer :=
  let maxSegmentCount := if decide (maxSegmentCount <= 0) then 3 else maxSegmentCount in
  let maxSegmentBytes := if decide (maxSegmentBytes <= 0) then 2 * 1024 * 1024 else maxSegmentBytes in
  mkLogBuffer (replicate (Z.to_nat maxSegmentCount) empty_seg) 0 maxSegmentBytes flushFn [].

(** The length-prefixed frame of an entry. *)
Definition frame (data : bytes) : bytes := be_put 4 (u32 (Z.of_nat (length data))) ++ data.

Definition segment (lb : LogBuffer) (i : nat) : LogSegment := default empty_seg (lb_segments lb !! i).

(** The flush of the evicted segment, when it is due. *)
Definition flush_call (s : LogSegment) : Z * Z * bytes := (sg_startTsNs s, sg_stopTsNs s, sg_buf s).

Definition lb_rotate (lb : LogBuffer) : LogBuffer :=
  let last := Nat.modulo (lb_lastSegmentIdx lb + 1) (lb_maxSegmentCount lb) in
  let old := segment lb last in
  let due := negb (sg_isFlushed old) && lb_flushFn lb && bool_decide (0 < Z.of_nat (length (sg_buf old))) in
  mkLogBuffer (<[last := empty_seg]> (lb_segments lb)) last (lb_maxSegmentBytes lb) (lb_flushFn lb)
    (lb_calls lb ++ if due then [flush_call old] else []).

Definition seg_append (now : Z) (f : bytes) (s : LogSegment) : LogSegment :=
  mkSeg (sg_buf s ++ f) (if decide (sg_startTsNs s = 0) then now else sg_startTsNs s) now (sg_isFlushed s).

Definition AppendEntry (now : Z) (data : bytes) (lb : LogBuffer) : LogBuffer :=
  let f := frame data in
  let full := bool_decide (Z.of_nat (length (sg_buf (segment lb (lb_lastSegmentIdx lb)))) + Z.of_nat (length f)
                           > lb_maxSegmentBytes lb) in
  let lb := if full then lb_rotate lb else lb in
  let last := lb_lastSegmentIdx lb in
  mkLogBuffer (<[last := seg_append now f (segment lb last)]> (lb_segments lb)) last (lb_maxSegmentBytes lb)
    (lb_flushFn lb) (lb_calls lb).

(** The frames of a buffer, with fuel for its length; [None] is a panic. *)
Fixpoint parse_frames (fuel : nat) (buf : bytes) : option (list bytes) :=
  match fuel with
  | O => Some []
  | S fuel =>
      if decide (Z.of_nat (length buf) < 4) then Some [] else
      let size := be_get (take 4 buf) in
      if decide (size > Z.of_nat (length buf) - 4) then Some [] else
      data ← slice 4 (u32 (4 + size)) buf;
      rest ← slice (u32 (4 + size)) (Z.of_nat (length buf)) buf;
      events ← parse_frames fuel rest;
      Some (data :: events)
  end.

(** The segments from the oldest to the current one. *)
Definition ring (lb : LogBuffer) : list LogSegment :=
  (fun i => segment lb (Nat.modulo (lb_lastSegmentIdx lb + 1 + i) (lb_maxSegmentCount lb)))
    <$> seq 0 (lb_maxSegmentCount lb).

Fixpoint read_segments (sinceNs : Z) (segs : list LogSegment) (events : list bytes) (nextTs : Z)
  : option (list bytes * Z) :=
  match segs with
  | [] => Some (events, nextTs)
  | s :: segs =>
      if bool_decide (sg_buf s = []) || bool_decide (sg_stopTsNs s <= sinceNs)
      then read_segments sinceNs segs events nextTs
      else frames ← parse_frames (length (sg_buf s)) (sg_buf s);
           read_segments sinceNs segs (events ++ frames) (sg_stopTsNs s + 1)
  end.

Definition ReadFromBuffer (sinceNs : Z) (lb : LogBuffer) : option (list bytes * Z) :=
  read_segments sinceNs (ring lb) [] 0.

Definition IsInBuffer (sinceNs : Z) (lb : LogBuffer) : bool :=
  match filter (fun s => sg_buf s <> []) (ring lb) with
  | [] => false
  | s :: _ => bool_decide (sinceNs >= sg_startTsNs s)
  end.

(** Whether the periodic flush takes segment [i]. *)
Definition to_flush (lb : LogBuffer) (i : nat) : bool :=
  bool_decide (i <> lb_lastSegmentIdx lb) && negb (sg_isFlushed (segment lb i)) &&
  bool_decide (sg_buf (segment lb i) <> []).

Definition set_flushed (b : bool) (s : LogSegment) : LogSegment :=
  mkSeg (sg_buf s) (sg_startTsNs s) (sg_stopTsNs s) b.

(** [flushOldSegments], run without interruption: [ok i] is the outcome of the call for
    segment [i], which is marked as flushed when the call succeeds. *)
Definition flushOldSegments (ok : nat -> bool) (lb : LogBuffer) : LogBuffer :=
  if lb_flushFn lb then
    let taken := filter (fun i => to_flush lb i = true) (seq 0 (lb_maxSegmentCount lb)) in
    mkLogBuffer (imap (fun i s => if to_flush lb i then set_flushed (ok i) s else s) (lb_segments lb))
      (lb_lastSegmentIdx lb) (lb_maxSegmentBytes lb) true
      (lb_calls lb ++ ((fun i => flush_call (segment lb i)) <$> taken))
  else lb.

(** ** Frames *)

Definition encode (es : list bytes) : bytes := concat (frame <$> es).

(** Entries short enough for their 32-bit length. *)
Definition entry_fits (d : bytes) : Prop := Z.of_nat (length d) < 2 ^ 32 - 4.

Lemma length_frame d : length (frame d) = (4 + length d)%nat.
Proof. unfold frame. by rewrite length_app, length_be_put. Qed.

Lemma parse_encode es fuel :
  Forall entry_fits es -> (length (encode es) <= fuel)%nat -> parse_frames fuel (encode es) = Some es.
Proof.
  revert fuel. induction es as [|d es IH]; intros fuel He Hf.
  { by destruct fuel. }
  apply Forall_cons in He as [Hd He]. unfold entry_fits in Hd. change (encode (d :: es)) with (frame d ++ encode es) in *.
  rewrite length_app, length_frame in Hf. destruct fuel as [|fuel]; [lia|]. cbn [parse_frames].
  rewrite decide_False by (rewrite length_app, length_frame; lia).
  assert (be_get (take 4 (frame d ++ encode es)) = Z.of_nat (length d)) as ->.
  { unfold frame. rewrite <- app_assoc, take_app_length' by (by rewrite length_be_put).
    rewrite wrap_small by u_lia. apply be_get_put_small. change (256 ^ Z.of_nat 4) with (2 ^ 32). lia. }
  rewrite decide_False by (rewrite length_app, length_frame; lia).
  rewrite wrap_small by u_lia.
  assert (slice 4 (4 + zlen d) (frame d ++ encode es) = Some d) as ->.
  { unfold frame. rewrite <- app_assoc. apply slice_middle; rewrite length_be_put; lia. }
  assert (slice (4 + zlen d) (zlen (frame d ++ encode es)) (frame d ++ encode es) = Some (encode es)) as ->.
  { rewrite <- (app_nil_r (encode es)) at 2. apply slice_middle; rewrite ?length_app, ?length_frame; lia. }
  cbn [mbind option_bind].
  rewrite IH by (done || lia). done.
Qed.

(** ** The ring *)

Definition lb_ok (lb : LogBuffer) : Prop := (lb_lastSegmentIdx lb < lb_maxSegmentCount lb)%nat.

Lemma ring_eq lb :
  lb_ok lb -> ring lb = drop (lb_lastSegmentIdx lb + 1) (lb_segments lb) ++ take (lb_lastSegmentIdx lb + 1) (lb_segments lb).
Proof.
  unfold lb_ok, ring, segment, lb_maxSegmentCount. set (n := length (lb_segments lb)). set (k := lb_lastSegmentIdx lb).
  intros Hk. apply list_eq_same_length with n; [rewrite length_app, length_drop, length_take; lia|
    by rewrite length_fmap, length_seq|].
  intros i x y Hi Hx Hy. rewrite list_lookup_fmap, lookup_seq_lt in Hx by done. cbn in Hx. injection Hx as <-.
  destruct (decide (k + 1 + i < n)%nat).
  - rewrite lookup_app_l, lookup_drop in Hy by (rewrite length_drop; lia).
    rewrite Nat.mod_small by lia. by rewrite Hy.
  - rewrite lookup_app_r in Hy by (rewrite length_drop; lia). rewrite length_drop, lookup_take_lt in Hy by lia.
    replace (k + 1 + i)%nat with (k + 1 + i - n + 1 * n)%nat by lia. rewrite Nat.Div0.mod_add, Nat.mod_small by lia.
    fold n in Hy. by replace (k + 1 + i - n)%nat with (i - (n - (k + 1)))%nat by lia; rewrite Hy.
Qed.

(** The current segment is the last of the ring. *)
Lemma ring_current lb s :
  lb_ok lb -> exists pre, ring lb = pre ++ [segment lb (lb_lastSegmentIdx lb)] /\
    ring (mkLogBuffer (<[lb_lastSegmentIdx lb := s]> (lb_segments lb)) (lb_lastSegmentIdx lb) (lb_maxSegmentBytes lb)
      (lb_flushFn lb) (lb_calls lb)) = pre ++ [s].
Proof.
  intros Hok. unfold lb_ok, lb_maxSegmentCount in Hok. set (k := lb_lastSegmentIdx lb) in *.
  destruct (lookup_lt_is_Some_2 _ _ Hok) as [c Hc].
  exists (drop (k + 1) (lb_segments lb) ++ take k (lb_segments lb)). split.
  - rewrite ring_eq by done. fold k. replace (k + 1)%nat with (S k) by lia. unfold segment. rewrite Hc.
    by rewrite (take_S_r _ _ _ Hc), app_assoc.
  - rewrite ring_eq by (unfold lb_ok, lb_maxSegmentCount; cbn; by rewrite length_insert).
    cbn [lb_segments lb_lastSegmentIdx]. replace (k + 1)%nat with (S k) by lia.
    rewrite drop_insert_lt by lia. rewrite (take_S_r _ k s) by (by apply list_lookup_insert_eq).
    by rewrite take_insert_ge, app_assoc by lia.
Qed.

(** Rotating drops the oldest segment and adds an empty one. *)
Lemma ring_rotate lb :
  lb_ok lb -> lb_ok (lb_rotate lb) /\
  exists rest, ring lb = segment lb (Nat.modulo (lb_lastSegmentIdx lb + 1) (lb_maxSegmentCount lb)) :: rest /\
    ring (lb_rotate lb) = rest ++ [empty_seg].
Proof.
  intros Hok. pose proof Hok as Hk. unfold lb_ok, lb_maxSegmentCount in Hk.
  set (k := lb_lastSegmentIdx lb) in *. set (segs := lb_segments lb) in *.
  assert (lb_ok (lb_rotate lb)) as Hok'.
  { unfold lb_ok, lb_maxSegmentCount, lb_rotate. cbn [lb_segments lb_lastSegmentIdx]. rewrite length_insert.
    apply Nat.mod_upper_bound. unfold lb_maxSegmentCount. fold segs. lia. }
  split; [done|]. rewrite !ring_eq by done. unfold lb_rotate. cbn [lb_segments lb_lastSegmentIdx].
  unfold lb_maxSegmentCount. fold k segs. destruct (decide (k + 1 < length segs)%nat) as [Hlt|Hge].
  - rewrite Nat.mod_small by done. destruct (lookup_lt_is_Some_2 _ _ Hlt) as [c Hc].
    exists (drop (k + 2) segs ++ take (k + 1) segs). unfold segment. fold segs. rewrite Hc. cbn [default].
    split; [rewrite (drop_S _ _ _ Hc); by replace (S (k + 1)) with (k + 2)%nat by lia|].
    rewrite drop_insert_lt by lia. replace (k + 1 + 1)%nat with (S (k + 1)) by lia.
    rewrite (take_S_r _ (k + 1) empty_seg) by (by apply list_lookup_insert_eq).
    rewrite take_insert_ge by lia. rewrite app_assoc. by replace (S (k + 1)) with (k + 2)%nat by lia.
  - assert (k + 1 = length segs)%nat as -> by lia. rewrite Nat.Div0.mod_same. rewrite drop_all, take_ge by done.
    unfold segment. fold segs. destruct segs as [|c segs']; [cbn in Hk; lia|]. exists segs'. cbn. by rewrite take_0.
Qed.

(** ** Histories *)

Inductive lb_op := LAppend (now : Z) (data : bytes) | LFlush (ok : nat -> bool).

Definition lb_exec (lb : LogBuffer) (op : lb_op) : LogBuffer :=
  match op with LAppend now data => AppendEntry now data lb | LFlush ok => flushOldSegments ok lb end.

Definition appended (ops : list lb_op) : list bytes :=
  omap (fun op => match op with LAppend _ d => Some d | LFlush _ => None end) ops.

Definition lb_op_ok (op : lb_op) : Prop :=
  match op with LAppend now d => 0 < now /\ entry_fits d | LFlush _ => True end.

(** A segment holds the entries [c]. *)
Definition seg_holds (s : LogSegment) (c : list bytes) : Prop :=
  sg_buf s = encode c /\ Forall entry_fits c /\ (c <> [] -> 0 < sg_stopTsNs s).

Definition handed_over (calls : list (Z * Z * bytes)) (b : bytes) : Prop :=
  exists start stop, (start, stop, b) ∈ calls.

(** The entries appended are those of the evicted segments followed by those of the
    ring, and what is evicted or marked as flushed has been handed to [flushFn]. *)
Record lb_inv (hist : list bytes) (lb : LogBuffer) (evicted chunks : list (list bytes)) : Prop := {
  li_ok : lb_ok lb;
  li_fn : lb_flushFn lb = true;
  li_ring : Forall2 seg_holds (ring lb) chunks;
  li_hist : concat evicted ++ concat chunks = hist;
  li_flushed : Forall (fun s => sg_isFlushed s = true -> handed_over (lb_calls lb) (sg_buf s)) (ring lb);
  li_current : sg_isFlushed (segment lb (lb_lastSegmentIdx lb)) = false;
  li_evicted : Forall (fun c => c = [] \/ handed_over (lb_calls lb) (encode c)) evicted;
}.

Lemma handed_over_app calls l b : handed_over calls b -> handed_over (calls ++ l) b.
Proof. intros (t1 & t2 & H). exists t1, t2. apply elem_of_app. auto. Qed.

Lemma encode_nil c : encode c = [] -> c = [].
Proof.
  destruct c as [|d c]; [done|]. intros H%(f_equal length). change (encode (d :: c)) with (frame d ++ encode c) in H.
  rewrite length_app, length_frame in H. cbn in H. lia.
Qed.

Lemma segment_current_rotate lb : segment (lb_rotate lb) (lb_lastSegmentIdx (lb_rotate lb)) = empty_seg.
Proof.
  unfold segment, lb_rotate. cbn [lb_segments lb_lastSegmentIdx].
  destruct (decide (Nat.modulo (lb_lastSegmentIdx lb + 1) (lb_maxSegmentCount lb) < length (lb_segments lb))%nat).
  - by rewrite list_lookup_insert_eq.
  - by rewrite list_insert_ge, lookup_ge_None_2 by lia.
Qed.

Lemma rotate_inv hist lb evicted chunks :
  lb_inv hist lb evicted chunks -> exists evicted' chunks', lb_inv hist (lb_rotate lb) evicted' chunks'.
Proof.
  intros []. destruct (ring_rotate lb li_ok0) as (Hok & rest & Hr & Hr'). rewrite Hr in li_ring0, li_flushed0.
  set (old := segment lb _) in *. apply Forall2_cons_inv_l in li_ring0 as (c & cs & (Hb & Hf & Hs) & Hrest & ->).
  apply Forall_cons in li_flushed0 as [Hold Hfl].
  assert (exists l, lb_calls (lb_rotate lb) = lb_calls lb ++ l) as [l Hl] by (by eexists).
  assert (c = [] \/ handed_over (lb_calls (lb_rotate lb)) (encode c)) as Hev.
  { destruct (sg_isFlushed old) eqn:Ef; [right; rewrite Hl, <- Hb; apply handed_over_app; auto|].
    destruct c as [|d c]; [by left|]. right. exists (sg_startTsNs old), (sg_stopTsNs old).
    unfold lb_rotate. cbn [lb_calls]. fold old. rewrite Ef, li_fn0. cbn [negb andb].
    rewrite bool_decide_eq_true_2; [|rewrite Hb; change (encode (d :: c)) with (frame d ++ encode c);
      rewrite length_app, length_frame; lia].
    apply elem_of_app. right. unfold flush_call. rewrite Hb. apply list_elem_of_here. }
  exists (evicted ++ [c]), (cs ++ [[]]). split; try done.
  - rewrite Hr'. apply Forall2_app; [done|]. constructor; [|done]. by split_and!.
  - rewrite !concat_app. cbn [concat]. rewrite !app_nil_r, <- app_assoc. done.
  - rewrite Hr', Hl. apply Forall_app. split; [|by repeat constructor].
    eapply Forall_impl; [exact Hfl|]. intros s H E. apply handed_over_app. auto.
  - by rewrite segment_current_rotate.
  - apply Forall_app. split; [|by apply Forall_singleton]. rewrite Hl. eapply Forall_impl; [exact li_evicted0|].
    intros x [->|H]; [by left|right; by apply handed_over_app].
Qed.

Lemma append_inv hist lb evicted chunks now d :
  lb_inv hist lb evicted chunks -> 0 < now -> entry_fits d ->
  exists chunks', lb_inv (hist ++ [d])
    (mkLogBuffer (<[lb_lastSegmentIdx lb := seg_append now (frame d) (segment lb (lb_lastSegmentIdx lb))]> (lb_segments lb))
      (lb_lastSegmentIdx lb) (lb_maxSegmentBytes lb) (lb_flushFn lb) (lb_calls lb)) evicted chunks'.
Proof.
  intros [] Hnow Hd. set (cur := segment lb _) in *. set (s := seg_append now (frame d) cur).
  destruct (ring_current lb s li_ok0) as (pre & Hr & Hr'). fold cur in Hr. rewrite Hr in li_ring0, li_flushed0.
  apply Forall2_app_inv_l in li_ring0 as (cpre & ccur & Hpre & Hcur & ->).
  apply Forall2_cons_inv_l in Hcur as (c & ? & (Hb & Hf & Hs) & ->%Forall2_nil_inv_l & ->).
  apply Forall_app in li_flushed0 as [Hfp _].
  exists (cpre ++ [c ++ [d]]). split; try done.
  - unfold lb_ok, lb_maxSegmentCount. cbn [lb_segments lb_lastSegmentIdx]. by rewrite length_insert.
  - rewrite Hr'. apply Forall2_app; [done|]. constructor; [|done]. unfold seg_holds, s, seg_append.
    cbn [sg_buf sg_stopTsNs]. split_and!; [|by apply Forall_app; split; [|constructor]|done].
    rewrite Hb. unfold encode. rewrite fmap_app, concat_app. cbn. by rewrite app_nil_r.
  - rewrite <- li_hist0, !concat_app. cbn [concat]. by rewrite !app_nil_r, !app_assoc.
  - rewrite Hr'. apply Forall_app. split; [done|]. constructor; [|done]. unfold s, seg_append. cbn [sg_isFlushed].
    by rewrite li_current0.
  - unfold segment at 1. cbn [lb_segments lb_lastSegmentIdx]. rewrite list_lookup_insert_eq by apply li_ok0.
    unfold s, seg_append. cbn [default sg_isFlushed]. done.
Qed.

Lemma segment_flush ok lb i :
  lb_flushFn lb = true ->
  segment (flushOldSegments ok lb) i = if to_flush lb i then set_flushed (ok i) (segment lb i) else segment lb i.
Proof.
  intros Hfn. unfold flushOldSegments. rewrite Hfn. unfold segment at 1. cbn [lb_segments]. rewrite list_lookup_imap.
  destruct (lb_segments lb !! i) as [s|] eqn:E; unfold segment; rewrite E; [done|].
  cbn [default fmap option_fmap option_map]. replace (to_flush lb i) with false; [done|].
  unfold to_flush, segment. rewrite E. cbn [default empty_seg sg_buf].
  by rewrite (bool_decide_eq_false_2 (_ <> [])), andb_false_r by auto.
Qed.

Lemma flush_inv hist lb evicted chunks ok :
  lb_inv hist lb evicted chunks -> lb_inv hist (flushOldSegments ok lb) evicted chunks.
Proof.
  intros []. set (lb' := flushOldSegments ok lb).
  assert (lb_maxSegmentCount lb' = lb_maxSegmentCount lb /\ lb_lastSegmentIdx lb' = lb_lastSegmentIdx lb /\
    lb_flushFn lb' = true) as (Hn & Hk & Hfn).
  { unfold lb', flushOldSegments. rewrite li_fn0. unfold lb_maxSegmentCount. cbn. by rewrite length_imap. }
  assert (forall i, segment lb' i = if to_flush lb i then set_flushed (ok i) (segment lb i) else segment lb i) as Hseg
    by (intros i; by apply segment_flush).
  assert (exists l, lb_calls lb' = lb_calls lb ++ l) as [l Hl]
    by (unfold lb', flushOldSegments; rewrite li_fn0; by eexists).
  assert (forall i, (i < lb_maxSegmentCount lb)%nat -> to_flush lb i = true ->
    handed_over (lb_calls lb') (sg_buf (segment lb i))) as Htaken.
  { intros i Hi Ht. unfold lb', flushOldSegments. rewrite li_fn0. cbn [lb_calls].
    exists (sg_startTsNs (segment lb i)), (sg_stopTsNs (segment lb i)). apply elem_of_app. right.
    apply (list_elem_of_fmap_2 (fun i => flush_call (segment lb i)) _ i). apply list_elem_of_filter.
    split; [done|]. apply elem_of_seq. lia. }
  split; rewrite ?Hk; try done.
  - unfold lb_ok. by rewrite Hn, Hk.
  - unfold ring in *. rewrite Hn, Hk. rewrite Forall2_fmap_l in li_ring0 |- *. eapply Forall2_impl; [exact li_ring0|].
    intros i c (Hb & Hf & Hs). unfold seg_holds. cbn [compose] in *. rewrite Hseg. by case_match.
  - unfold ring in *. rewrite Hn, Hk. rewrite Forall_fmap in li_flushed0 |- *. apply Forall_forall. intros i Hi.
    pose proof (proj1 (Forall_forall _ _) li_flushed0 i Hi) as H. cbn [compose] in *. rewrite Hseg.
    destruct (to_flush lb _) eqn:Et; intros E.
    + cbn [set_flushed sg_buf]. apply Htaken; [|done]. apply Nat.mod_upper_bound. unfold lb_ok in li_ok0. lia.
    + rewrite Hl. apply handed_over_app. auto.
  - rewrite Hseg. replace (to_flush lb (lb_lastSegmentIdx lb)) with false; [done|].
    unfold to_flush. by rewrite bool_decide_eq_false_2 by auto.
  - rewrite Hl. eapply Forall_impl; [exact li_evicted0|]. intros x [->|H]; [by left|right; by apply handed_over_app].
Qed.

Lemma read_holds segs chunks events next :
  Forall2 seg_holds segs chunks -> exists next', read_segments 0 segs events next = Some (events ++ concat chunks, next').
Proof.
  intros H. revert events next. induction H as [|s c segs chunks (Hb & Hf & Hs) H IH]; intros events next; cbn [read_segments concat].
  { exists next. by rewrite app_nil_r. }
  destruct (decide (c = [])) as [->|Hc].
  - rewrite bool_decide_eq_true_2 by done. apply IH.
  - rewrite bool_decide_eq_false_2 by (rewrite Hb; intros E; by apply encode_nil in E).
    rewrite bool_decide_eq_false_2 by (specialize (Hs Hc); lia). cbn [orb].
    rewrite Hb, parse_encode by done. cbn [mbind option_bind].
    destruct (IH (events ++ c) (sg_stopTsNs s + 1)) as [next' ->]. exists next'. by rewrite app_assoc.
Qed.

Lemma exec_inv ops hist lb evicted chunks :
  lb_inv hist lb evicted chunks -> Forall lb_op_ok ops ->
  exists evicted' chunks', lb_inv (hist ++ appended ops) (foldl lb_exec lb ops) evicted' chunks'.
Proof.
  revert hist lb evicted chunks. induction ops as [|op ops IH]; intros hist lb evicted chunks Hi Hok.
  { exists evicted, chunks. cbn. by rewrite app_nil_r. }
  apply Forall_cons in Hok as [Ho Hok]. cbn [foldl]. destruct op as [now d|ok].
  - destruct Ho as [Hnow Hd]. change (appended (LAppend now d :: ops)) with (d :: appended ops).
    rewrite cons_middle, app_assoc. cbn [lb_exec]. unfold AppendEntry. cbv zeta.
    destruct (bool_decide _).
    + destruct (rotate_inv _ _ _ _ Hi) as (ev & ch & Hi').
      destruct (append_inv _ _ _ _ now d Hi' Hnow Hd) as (ch' & Hi''). by eapply IH.
    + destruct (append_inv _ _ _ _ now d Hi Hnow Hd) as (ch' & Hi''). by eapply IH.
  - change (appended (LFlush ok :: ops)) with (appended ops). cbn [lb_exec]. eapply IH; [by apply flush_inv|done].
Qed.

Lemma new_inv count bytes : lb_inv [] (NewLogBuffer count bytes true) [] (replicate (lb_maxSegmentCount (NewLogBuffer count bytes true)) []).
Proof.
  assert (0 < lb_maxSegmentCount (NewLogBuffer count bytes true))%nat as Hn
    by (unfold lb_maxSegmentCount, NewLogBuffer; cbn [lb_segments]; rewrite length_replicate; case_decide; lia).
  assert (forall i, segment (NewLogBuffer count bytes true) i = empty_seg) as Hs.
  { intros i. unfold segment, NewLogBuffer. cbn [lb_segments]. destruct (replicate _ _ !! i) as [s|] eqn:E; [|done].
    by apply lookup_replicate in E as [-> _]. }
  split; try done.
  - apply Forall2_replicate_r; [unfold ring; by rewrite length_fmap, length_seq|].
    unfold ring. apply Forall_fmap, Forall_forall. intros i _. cbn [compose flip]. rewrite Hs. by split_and!.
  - cbn [concat app]. clear. by induction (lb_maxSegmentCount (NewLogBuffer count bytes true)).
  - unfold ring. apply Forall_fmap, Forall_forall. intros i _. cbn [compose]. by rewrite Hs.
  - by rewrite Hs.
Qed.

(** C40: no event of the log buffer is lost between the ring and the flush function. After
    any history of appends and periodic flushes, with any of these failing, a read from
    the beginning returns, in order, the most recent events; the earlier ones were, in
    order, the contents of the segments evicted, each of which was handed to [flushFn]. *)
Theorem LogBuffer_complete count bytes ops :
  Forall lb_op_ok ops ->
  let lb := foldl lb_exec (NewLogBuffer count bytes true) ops in
  exists evicted events next, ReadFromBuffer 0 lb = Some (events, next) /\
    concat evicted ++ events = appended ops /\
    Forall (fun c => c = [] \/ handed_over (lb_calls lb) (encode c)) evicted.
Proof.
  intros Hok lb. destruct (exec_inv ops _ _ _ _ (new_inv count bytes) Hok) as (ev & ch & Hi). fold lb in Hi. destruct Hi.
  destruct (read_holds (ring lb) ch [] 0 li_ring0) as [next Hn]. exists ev, (concat ch), next. done.
Qed.

Lemma LogBuffer_complete_witness :
  let ops := [LAppend 1 [10]; LAppend 2 [20]; LAppend 3 [30]; LFlush (fun _ => false); LAppend 4 [40]] in
  let lb := foldl lb_exec (NewLogBuffer 2 6 true) ops in
  exists evicted, ReadFromBuffer 0 lb = Some ([[30]; [40]], 5) /\ concat evicted ++ [[30]; [40]] = appended ops.
Proof.
  intros ops lb. destruct (LogBuffer_complete 2 6 ops) as (ev & events & next & H1 & H2 & _).
  - repeat constructor; unfold lb_op_ok, entry_fits; cbn [length]; lia.
  - exists ev. assert (ReadFromBuffer 0 lb = Some ([[30]; [40]], 5)) as E by (vm_compute; reflexivity).
    split; [exact E|]. unfold lb in E. rewrite H1 in E. injection E as -> _. exact H2.
Defined.
