(* ===== verification/Lru.v ===== *)
(** * Lru: the cache of blob payloads

    Models [goblob/cache/lru.go].  A list element is identified by its key: [ll] is the
    list of keys from the most to the least recently used, [cache] the values of the
    elements.  The reference is a list of pairs of which the longest prefix that fits is
    kept. *)

From S2P Require Import Prelude.

Record LRUCache := mkLru {
  lru_capacity : Z;
  lru_used : Z;
  lru_ll : list string;
  lru_cache : gmap string bytes;
}.

Definition NewLRUCache (capacity : Z) : LRUCache :=
  mkLru (if decide (capacity < 0) then 0 else capacity) 0 [] ∅.

Definition without (key : string) (l : list string) : list string := filter (fun k => k <> key) l.

Definition removeElement (key : string) (c : LRUCache) : LRUCache :=
  let used := lru_used c - Z.of_nat (length (default [] (lru_cache c !! key))) in
  mkLru (lru_capacity c) (if decide (used < 0) then 0 else used) (without key (lru_ll c)) (delete key (lru_cache c)).

Definition removeOldest (c : LRUCache) : LRUCache :=
  match last (lru_ll c) with None => c | Some key => removeElement key c end.

(** [for c.used > c.capacity]: [None] when [fuel] iterations do not end it. *)
Fixpoint evict (fuel : nat) (c : LRUCache) : option LRUCache :=
  if decide (lru_used c > lru_capacity c)
  then match fuel with O => None | S fuel => evict fuel (removeOldest c) end
  else Some c.

Definition lru_Get (key : string) (c : LRUCache) : option bytes * LRUCache :=
  match lru_cache c !! key with
  | None => (None, c)
  | Some v => (Some v, mkLru (lru_capacity c) (lru_used c) (key :: without key (lru_ll c)) (lru_cache c))
  end.

Definition lru_Put (fuel : nat) (key : string) (v : bytes) (c : LRUCache) : option LRUCache :=
  if decide (lru_capacity c = 0) then Some c else
  if decide (Z.of_nat (length v) > lru_capacity c)
  then Some match lru_cache c !! key with Some _ => removeElement key c | None => c end
  else
    let old := match lru_cache c !! key with Some w => Z.of_nat (length w) | None => 0 end in
    evict fuel (mkLru (lru_capacity c) (lru_used c - old + Z.of_nat (length v)) (key :: without key (lru_ll c))
                  (<[key := v]> (lru_cache c))).

Definition Invalidate (key : string) (c : LRUCache) : LRUCache :=
  match lru_cache c !! key with Some _ => removeElement key c | None => c end.

Definition lru_Size (c : LRUCache) : Z := lru_used c.
Definition lru_Len (c : LRUCache) : Z := Z.of_nat (length (lru_ll c)).

(** ** The reference *)

Abbreviation lru_spec := (list (string * bytes)).

Definition size (p : string * bytes) : Z := Z.of_nat (length (snd p)).
Definition total (l : lru_spec) : Z := foldr (fun p n => size p + n) 0 l.
Definition drop_key (key : string) (l : lru_spec) : lru_spec := filter (fun p => fst p <> key) l.

(** The longest prefix of total size at most [cap]. *)
Fixpoint keep (cap : Z) (l : lru_spec) : lru_spec :=
  match l with
  | [] => []
  | p :: l => if decide (size p <= cap) then p :: keep (cap - size p) l else []
  end.

Definition find (key : string) (l : lru_spec) : option bytes := snd <$> (snd <$> list_find (fun p => fst p = key) l).

Inductive lru_op := LGet (key : string) | LPut (key : string) (v : bytes) | LInvalidate (key : string).

Definition spec_step (cap : Z) (op : lru_op) (l : lru_spec) : option bytes * lru_spec :=
  match op with
  | LGet key => match find key l with Some v => (Some v, (key, v) :: drop_key key l) | None => (None, l) end
  | LPut key v =>
      (None, if decide (Z.of_nat (length v) > cap) then drop_key key l else keep cap ((key, v) :: drop_key key l))
  | LInvalidate key => (None, drop_key key l)
  end.

(** An operation of the cache; a [Put] gets as much fuel as there are elements. *)
Definition lru_step (op : lru_op) (c : LRUCache) : option (option bytes * LRUCache) :=
  match op with
  | LGet key => Some (lru_Get key c)
  | LPut key v => (fun c => (None, c)) <$> lru_Put (S (length (lru_ll c))) key v c
  | LInvalidate key => Some (None, Invalidate key c)
  end.

Fixpoint lru_run (ops : list lru_op) (c : LRUCache) : option (list (option bytes) * LRUCache) :=
  match ops with
  | [] => Some ([], c)
  | op :: ops => '(r, c) ← lru_step op c; '(rs, c) ← lru_run ops c; Some (r :: rs, c)
  end.

Fixpoint spec_run (cap : Z) (ops : list lru_op) (l : lru_spec) : list (option bytes) * lru_spec :=
  match ops with
  | [] => ([], l)
  | op :: ops => let '(r, l) := spec_step cap op l in let '(rs, l) := spec_run cap ops l in (r :: rs, l)
  end.

(** ** The cache represents a list of pairs *)

Definition lru_rep (cap : Z) (l : lru_spec) (c : LRUCache) : Prop :=
  lru_capacity c = cap /\ NoDup (fst <$> l) /\ lru_ll c = fst <$> l /\ lru_cache c = list_to_map l /\
  lru_used c = total l.

Lemma total_cons p l : total (p :: l) = size p + total l.
Proof. done. Qed.

Lemma total_nonneg l : 0 <= total l.
Proof. induction l as [|p l IH]; [done|]. rewrite total_cons. unfold size. lia. Qed.

Lemma total_app l1 l2 : total (l1 ++ l2) = total l1 + total l2.
Proof. induction l1 as [|p l1 IH]; [done|]. cbn [app]. rewrite !total_cons. lia. Qed.

Lemma without_fst key l : without key (fst <$> l) = fst <$> drop_key key l.
Proof.
  unfold without, drop_key. induction l as [|p l IH]; [done|]. cbn [fmap list_fmap].
  destruct (decide (fst p = key)).
  - by rewrite !filter_cons_False by (intros H; by apply H).
  - rewrite !filter_cons_True by done. cbn [fmap list_fmap]. by rewrite IH.
Qed.

Lemma drop_key_notin key l : key ∉ (fst <$> l) -> drop_key key l = l.
Proof.
  intros H. unfold drop_key. induction l as [|p l IH]; [done|]. cbn [fmap list_fmap] in H.
  apply not_elem_of_cons in H as [H1 H2]. rewrite filter_cons_True by congruence. by rewrite IH.
Qed.

Lemma drop_key_spec key l :
  NoDup (fst <$> l) ->
  list_to_map (drop_key key l) =@{gmap string bytes} delete key (list_to_map l) /\
  total (drop_key key l) = total l - Z.of_nat (length (default [] ((list_to_map l : gmap string bytes) !! key))) /\
  NoDup (fst <$> drop_key key l) /\ key ∉ (fst <$> drop_key key l).
Proof.
  induction l as [|[k v] l IH]; intros Hnd.
  { cbn. rewrite delete_empty, lookup_empty. split_and!; [done..| |]; [constructor|apply not_elem_of_nil]. }
  cbn [fmap list_fmap] in Hnd. apply NoDup_cons in Hnd as [Hk Hnd]. destruct (IH Hnd) as (E1 & E2 & E3 & E4).
  unfold drop_key in *. cbn [list_to_map foldr fst snd]. rewrite total_cons. destruct (decide (k = key)) as [->|Hne].
  - rewrite filter_cons_False by (intros H; by apply H).
    change (filter (fun p => fst p <> key) l) with (drop_key key l). rewrite (drop_key_notin key l Hk).
    rewrite lookup_insert_eq, delete_insert_id by (by apply not_elem_of_list_to_map_1). unfold size. cbn [default snd id].
    split_and!; [done|lia|done|done].
  - rewrite filter_cons_True by done. cbn [list_to_map foldr fst snd fmap list_fmap].
    rewrite total_cons, lookup_insert_ne, delete_insert_ne by done. rewrite <- E1. split_and!; [done|lia| |].
    + apply NoDup_cons. split; [|done]. intros Hin. apply Hk. apply list_elem_of_fmap in Hin as (p & -> & Hp).
      apply list_elem_of_filter in Hp as [_ Hp]. cbn [fst]; by apply (list_elem_of_fmap_2 fst).
    + apply not_elem_of_cons. done.
Qed.

(** ** Eviction *)

Lemma keep_all cap l : total l <= cap -> keep cap l = l.
Proof.
  revert cap. induction l as [|p l IH]; intros cap H; [done|]. cbn [keep]. rewrite total_cons in H.
  pose proof (total_nonneg l). rewrite decide_True by lia. by rewrite IH by lia.
Qed.

(** Dropping the last element of a list that does not fit changes nothing. *)
Lemma keep_snoc cap l p : total (l ++ [p]) > cap -> keep cap (l ++ [p]) = keep cap l.
Proof.
  revert cap. induction l as [|q l IH]; intros cap H; cbn [app keep].
  - cbn [app] in H. rewrite total_cons in H. cbn [total foldr] in H. by rewrite decide_False by lia.
  - cbn [app] in H. rewrite total_cons in H. destruct (decide (size q <= cap)); [|done]. by rewrite IH by lia.
Qed.

Lemma keep_sublist cap l : keep cap l `prefix_of` l.
Proof.
  revert cap. induction l as [|p l IH]; intros cap; cbn [keep]; [done|].
  case_decide; [apply prefix_cons, IH|apply prefix_nil].
Qed.

Lemma removeElement_rep cap l key c :
  lru_rep cap l c -> lru_rep cap (drop_key key l) (removeElement key c).
Proof.
  intros (Hc & Hnd & Hll & Hm & Hu). destruct (drop_key_spec key l Hnd) as (E1 & E2 & E3 & _).
  pose proof (total_nonneg (drop_key key l)). unfold lru_rep, removeElement. cbn [lru_capacity lru_used lru_ll lru_cache].
  rewrite Hll, without_fst, Hm, Hu, E1, E2 in *. rewrite decide_False by lia. done.
Qed.

Lemma drop_key_last l p : NoDup (fst <$> (l ++ [p])) -> drop_key (fst p) (l ++ [p]) = l.
Proof.
  intros H. rewrite fmap_app in H. apply NoDup_app in H as (_ & H & _). unfold drop_key. rewrite filter_app.
  rewrite filter_cons_False by (intros E; by apply E). rewrite filter_nil, app_nil_r. apply (drop_key_notin (fst p)).
  intros Hin. apply (H _ Hin). apply list_elem_of_here.
Qed.

(** The loop ends and keeps the longest prefix that fits. *)
Lemma evict_rep cap l c fuel :
  0 <= cap -> lru_rep cap l c -> (length l <= fuel)%nat -> exists c', evict fuel c = Some c' /\ lru_rep cap (keep cap l) c'.
Proof.
  intros Hcap. revert c fuel. induction l as [|p l IH] using rev_ind; intros c fuel Hr Hf.
  - exists c. destruct Hr as (Hc & ? & ? & ? & Hu). destruct fuel; cbn [evict]; rewrite decide_False by (rewrite Hu, Hc; cbn; lia);
      by split.
  - pose proof Hr as (Hc & Hnd & Hll & _ & Hu). destruct (decide (total (l ++ [p]) > cap)) as [Hgt|Hle].
    + rewrite keep_snoc by done. rewrite length_app in Hf. cbn [length] in Hf. destruct fuel as [|fuel]; [lia|].
      cbn [evict]. rewrite decide_True by (rewrite Hu, Hc; lia). apply IH; [|lia].
      unfold removeOldest. rewrite Hll, fmap_app. cbn [fmap list_fmap]. rewrite last_snoc.
      rewrite <- (drop_key_last l p Hnd) at 1. by apply removeElement_rep.
    + rewrite keep_all by lia. exists c. destruct fuel; cbn [evict]; rewrite decide_False by (rewrite Hu, Hc; lia); done.
Qed.

Lemma find_map key l : NoDup (fst <$> l) -> find key l = (list_to_map l : gmap string bytes) !! key.
Proof.
  induction l as [|[k v] l IH]; intros H; [by cbn; rewrite lookup_empty|]. cbn [fmap list_fmap] in H.
  apply NoDup_cons in H as [_ H]. cbn [list_to_map foldr fst snd]. unfold find in *. cbn [list_find].
  destruct (decide (fst (k, v) = key)) as [E|E]; cbn [fst] in E.
  - subst k. by rewrite lookup_insert_eq.
  - rewrite lookup_insert_ne, <- IH by done. by destruct (list_find _ l) as [[]|].
Qed.

Lemma move_to_front cap l key v c :
  lru_rep cap l c ->
  lru_rep cap ((key, v) :: drop_key key l)
    (mkLru (lru_capacity c) (lru_used c - Z.of_nat (length (default [] (lru_cache c !! key))) + Z.of_nat (length v))
       (key :: without key (lru_ll c)) (<[key := v]> (lru_cache c))).
Proof.
  intros (Hc & Hnd & Hll & Hm & Hu). destruct (drop_key_spec key l Hnd) as (E1 & E2 & E3 & E4).
  unfold lru_rep. cbn [lru_capacity lru_used lru_ll lru_cache fmap list_fmap list_to_map foldr fst snd].
  rewrite Hll, without_fst, Hm, Hu, E1, total_cons, E2. unfold size. cbn [snd]. rewrite insert_delete_eq.
  split_and!; [done|by apply NoDup_cons|done..|lia].
Qed.

Lemma drop_key_absent cap l key c : lru_rep cap l c -> lru_cache c !! key = None -> drop_key key l = l.
Proof.
  intros (_ & Hnd & _ & Hm & _) H. rewrite Hm in H. apply drop_key_notin. by apply not_elem_of_list_to_map_2 in H.
Qed.

Lemma lru_step_rep cap op l c :
  0 < cap -> lru_rep cap l c ->
  exists c', lru_step op c = Some (fst (spec_step cap op l), c') /\ lru_rep cap (snd (spec_step cap op l)) c'.
Proof.
  intros Hcap Hr. pose proof Hr as (Hc & Hnd & Hll & Hm & Hu). destruct op as [key|key v|key]; cbn [lru_step spec_step].
  - unfold lru_Get. rewrite find_map, Hm by done. destruct (_ !! key) as [v|] eqn:E; cbn [fst snd]; [|by exists c].
    eexists. split; [reflexivity|]. rewrite <- Hm in E. pose proof (move_to_front cap l key v c Hr) as H.
    rewrite E in H. cbn [default id] in H. rewrite insert_id in H by done.
    rewrite Hm in H. by replace (lru_used c - zlen v + zlen v) with (lru_used c) in H by lia.
  - unfold lru_Put. rewrite Hc. rewrite decide_False by lia. cbn [fst snd]. case_decide.
    + eexists. split; [reflexivity|]. destruct (lru_cache c !! key) as [w|] eqn:E.
      * by apply removeElement_rep.
      * by rewrite (drop_key_absent cap l key c).
    + pose proof (move_to_front cap l key v c Hr) as Hmv. rewrite Hc in Hmv.
      destruct (evict_rep cap _ _ (S (length (lru_ll c))) ltac:(lia) Hmv) as (c' & E & Hr').
      { cbn [length]. rewrite Hll, length_fmap. unfold drop_key. pose proof (length_filter (fun p => fst p <> key) l). lia. }
      exists c'. split; [|done].
      replace (match lru_cache c !! key with Some w => zlen w | None => 0 end)
        with (zlen (default [] (lru_cache c !! key))) by (by destruct (lru_cache c !! key)).
      by rewrite E.
  - eexists. split; [reflexivity|]. cbn [fst snd]. unfold Invalidate. destruct (lru_cache c !! key) as [w|] eqn:E.
    + by apply removeElement_rep.
    + by rewrite (drop_key_absent cap l key c).
Qed.

Lemma keep_total cap l : 0 <= cap -> total (keep cap l) <= cap.
Proof.
  revert cap. induction l as [|p l IH]; intros cap H; [done|]. cbn [keep]. case_decide; [|done].
  rewrite total_cons. specialize (IH (cap - size p) ltac:(lia)). lia.
Qed.

Lemma spec_step_total cap op l :
  0 <= cap -> NoDup (fst <$> l) -> total l <= cap -> total (snd (spec_step cap op l)) <= cap.
Proof.
  intros Hcap Hnd Ht.
  assert (forall key, total (drop_key key l) <= cap) as Hd
    by (intros key; destruct (drop_key_spec key l Hnd) as (_ & -> & _); lia).
  destruct op as [key|key v|key]; cbn [spec_step];
    [|cbn [snd]; case_decide; [apply Hd|by apply keep_total]|apply Hd].
  destruct (find key l) as [v|] eqn:E; cbn [snd]; [|done]. rewrite find_map in E by done.
  destruct (drop_key_spec key l Hnd) as (_ & E2 & _). rewrite E in E2. cbn [default id] in E2.
  rewrite total_cons, E2. unfold size. cbn [snd]. lia.
Qed.

(** C40: the cache is a least-recently-used cache. Over any sequence of operations every
    [Get] answers as the reference, in which a [Put] moves its key to the front and keeps
    the longest prefix that fits the capacity; the eviction loop ends, the size counter is
    the number of bytes held and never exceeds the capacity. *)
Theorem LRU_refines capacity ops :
  0 < capacity ->
  exists c, lru_run ops (NewLRUCache capacity) = Some (fst (spec_run capacity ops []), c) /\
    lru_Size c = total (snd (spec_run capacity ops [])) /\ lru_ll c = fst <$> snd (spec_run capacity ops []) /\
    lru_Size c <= capacity.
Proof.
  intros Hcap. assert (forall ops l c, lru_rep capacity l c -> total l <= capacity ->
    exists c', lru_run ops c = Some (fst (spec_run capacity ops l), c') /\
      lru_rep capacity (snd (spec_run capacity ops l)) c' /\ total (snd (spec_run capacity ops l)) <= capacity) as Hgo.
  { clear ops. induction ops as [|op ops IH]; intros l c Hr Ht; [by exists c|].
    cbn [lru_run spec_run]. destruct (lru_step_rep capacity op l c Hcap Hr) as (c1 & -> & Hr1).
    assert (total (snd (spec_step capacity op l)) <= capacity) as Ht1
      by (apply spec_step_total; [lia|apply Hr|done]).
    destruct (spec_step capacity op l) as [r l1]. cbn [fst snd mbind option_bind] in *.
    destruct (IH l1 c1 Hr1 Ht1) as (c2 & -> & Hr2 & Ht2). destruct (spec_run capacity ops l1) as [rs l2].
    cbn [fst snd mbind option_bind] in *. by exists c2. }
  destruct (Hgo ops [] (NewLRUCache capacity)) as (c & H1 & (_ & _ & Hll & _ & Hu) & H3).
  - unfold lru_rep, NewLRUCache. cbn. rewrite decide_False by lia. split_and!; [done|constructor|done..].
  - cbn. lia.
  - exists c. unfold lru_Size. rewrite Hu. done.
Qed.

Lemma LRU_refines_witness :
  exists c, lru_run [LPut "a" [1; 1]; LPut "b" [2; 2]; LGet "a"; LPut "c" [3; 3]; LGet "b"; LGet "a"] (NewLRUCache 5) =
      Some ([None; None; Some [1; 1]; None; None; Some [1; 1]], c) /\ lru_Size c <= 5.
Proof.
  destruct (LRU_refines 5 [LPut "a" [1; 1]; LPut "b" [2; 2]; LGet "a"; LPut "c" [3; 3]; LGet "b"; LGet "a"])
    as (c & H1 & _ & _ & H2); [reflexivity|].
  exists c. split; [exact H1|exact H2].
Defined.
