(* ===== verification/LockManager.v ===== *)
(** * LockManager: named locks that expire

    Models [goblob/filer/lock_manager.go] over the key-value part of a filer store.  A
    stored value is the entry its JSON decodes to, [None] when it does not decode.  The
    clock, the random token and the failures of the store are arguments. *)

From S2P Require Import Prelude.

Open Scope string_scope.

Record lockEntry := mkLock { lk_Owner : string; lk_ExpireAtNs : Z; lk_RenewToken : string }.

Record LockResult := mkLockResult { lr_Acquired : bool; lr_RenewToken : string; lr_CurrentOwner : string }.

Inductive lock_err := ErrNotLockOwner | ErrLockNotFound | ErrKvGet | ErrKvPut | ErrKvDelete | ErrJson.

Abbreviation kv := (gmap string (option lockEntry)).

Definition lockKey (name : string) : string := "__lock__:" +:+ name.

(** What a call meets: the time, whether reads and writes of the store succeed, and the
    token [generateToken] returns. *)
Record call_env := mkEnv { env_now : Z; env_get : bool; env_put : bool; env_token : string }.

Definition TryLock (env : call_env) (name owner : string) (expireNs : Z) (renewToken : string) (s : kv)
  : outcome lock_err LockResult * kv :=
  let key := lockKey name in
  let now := env_now env in
  let acquire :=
    if env_put env
    then (Ret (mkLockResult true (env_token env) ""),
          <[key := Some (mkLock owner (i64 (now + expireNs)) (env_token env))]> s)
    else (Fail ErrKvPut, s) in
  if negb (env_get env) then (Fail ErrKvGet, s) else
  match s !! key with
  | None => acquire
  | Some None => (Fail ErrJson, s)
  | Some (Some entry) =>
      if decide (lk_ExpireAtNs entry > now) then
        if decide (lk_Owner entry <> owner /\ lk_RenewToken entry <> renewToken)
        then (Ret (mkLockResult false "" (lk_Owner entry)), s)
        else if decide (renewToken <> "" /\ lk_RenewToken entry <> renewToken)
        then (Fail ErrNotLockOwner, s)
        else acquire
      else acquire
  end.

Definition Unlock (env : call_env) (name renewToken : string) (s : kv) : outcome lock_err unit * kv :=
  let key := lockKey name in
  if negb (env_get env) then (Fail ErrKvGet, s) else
  match s !! key with
  | None => (Fail ErrLockNotFound, s)
  | Some None => (Fail ErrJson, s)
  | Some (Some entry) =>
      if decide (lk_RenewToken entry <> renewToken) then (Fail ErrNotLockOwner, s)
      else if env_put env then (Ret tt, delete key s) else (Fail ErrKvDelete, s)
  end.

Definition IsLocked (env : call_env) (name : string) (s : kv) : outcome lock_err (bool * string) :=
  if negb (env_get env) then Fail ErrKvGet else
  match s !! lockKey name with
  | None => Ret (false, "")
  | Some None => Fail ErrJson
  | Some (Some entry) =>
      if decide (lk_ExpireAtNs entry < env_now env) then Ret (false, "") else Ret (true, lk_Owner entry)
  end.

(** ** Clients *)

Inductive lock_op :=
| OpTryLock (env : call_env) (name owner : string) (expireNs : Z) (renewToken : string)
| OpUnlock (env : call_env) (name renewToken : string).

(** Whether the call acquires its lock, and the new store. *)
Definition lock_step (op : lock_op) (s : kv) : bool * kv :=
  match op with
  | OpTryLock env name owner expireNs renewToken =>
      match TryLock env name owner expireNs renewToken s with
      | (Ret r, s) => (lr_Acquired r, s)
      | (_, s) => (false, s)
      end
  | OpUnlock env name renewToken => (false, snd (Unlock env name renewToken s))
  end.

Fixpoint lock_run (ops : list lock_op) (s : kv) : list bool * kv :=
  match ops with
  | [] => ([], s)
  | op :: ops => let '(b, s) := lock_step op s in let '(bs, s) := lock_run ops s in (b :: bs, s)
  end.

Definition op_name (op : lock_op) : string :=
  match op with OpTryLock _ name _ _ _ => name | OpUnlock _ name _ => name end.

(** A call before [expiry] by a client that is not [owner] and does not know [token]. *)
Definition outsider (owner token : string) (expiry : Z) (op : lock_op) : Prop :=
  match op with
  | OpTryLock env _ owner' _ renewToken => env_now env < expiry /\ owner' <> owner /\ renewToken <> token
  | OpUnlock env _ renewToken => env_now env < expiry /\ renewToken <> token
  end.

Lemma lockKey_inj n1 n2 : lockKey n1 = lockKey n2 -> n1 = n2.
Proof. apply (inj (String.append "__lock__:")). Qed.

Lemma TryLock_other env name owner expireNs renewToken s key :
  lockKey name <> key -> snd (TryLock env name owner expireNs renewToken s) !! key = s !! key.
Proof.
  intros Hne. unfold TryLock. destruct (env_get env); cbn [negb]; [|done].
  assert (snd (if env_put env
    then (Ret (mkLockResult true (env_token env) "") : outcome lock_err LockResult,
          <[lockKey name := Some (mkLock owner (i64 (env_now env + expireNs)) (env_token env))]> s)
    else (Fail ErrKvPut, s)) !! key = s !! key) as Ha
    by (destruct (env_put env); cbn [snd]; [by apply lookup_insert_ne|done]).
  destruct (s !! lockKey name) as [[entry|]|]; [|done..]. repeat case_decide; done.
Qed.

Lemma Unlock_other env name renewToken s key :
  lockKey name <> key -> snd (Unlock env name renewToken s) !! key = s !! key.
Proof.
  intros Hne. unfold Unlock. destruct (env_get env); cbn [negb]; [|done].
  destruct (s !! lockKey name) as [[entry|]|]; [|done..]. case_decide; [done|].
  destruct (env_put env); [by apply lookup_delete_ne|done].
Qed.

(** A call of an outsider leaves the lock as it is. *)
Lemma outsider_step name entry op s :
  s !! lockKey name = Some (Some entry) ->
  outsider (lk_Owner entry) (lk_RenewToken entry) (lk_ExpireAtNs entry) op ->
  snd (lock_step op s) !! lockKey name = Some (Some entry) /\ (op_name op = name -> fst (lock_step op s) = false).
Proof.
  intros Hs Ho. destruct op as [env name' owner' expireNs tok|env name' tok]; cbn [lock_step op_name].
  - destruct Ho as (Hnow & Hown & Htok). destruct (decide (name' = name)) as [->|Hne].
    + unfold TryLock. destruct (env_get env); cbn [negb]; [|done]. rewrite Hs.
      rewrite decide_True by lia. rewrite decide_True by (split; congruence). done.
    + pose proof (TryLock_other env name' owner' expireNs tok s (lockKey name)) as H.
      destruct (TryLock env name' owner' expireNs tok s) as [[r| |] s'] eqn:E; cbn [snd fst] in *;
        (split; [rewrite H; [done|intros E'; by apply lockKey_inj in E']|done]).
  - destruct Ho as [Hnow Htok]. split; [|done]. cbn [snd]. destruct (decide (name' = name)) as [->|Hne].
    + unfold Unlock. destruct (env_get env); cbn [negb]; [|done]. rewrite Hs. by rewrite decide_True by congruence.
    + rewrite Unlock_other; [done|]. intros E. by apply lockKey_inj in E.
Qed.

(** Locks exclude. Once [TryLock] has given a client a lock, then until the lock
    expires, whatever other clients call, on this lock or on others and with a store that
    may fail, as long as they do not use the owner's name or its token, none of them
    acquires the lock or removes it, and the owner can renew it with its token. *)
Theorem lock_excludes env name owner expireNs tok s r s' ops :
  TryLock env name owner expireNs tok s = (Ret r, s') -> lr_Acquired r = true ->
  in_u 63 (env_now env + expireNs) ->
  Forall (outsider owner (lr_RenewToken r) (env_now env + expireNs)) ops ->
  let '(acquired, s'') := lock_run ops s' in
  Forall2 (fun op b => op_name op = name -> b = false) ops acquired /\
  s'' !! lockKey name = Some (Some (mkLock owner (env_now env + expireNs) (lr_RenewToken r))) /\
  forall env' e, env_get env' = true -> env_put env' = true ->
    fst (TryLock env' name owner e (lr_RenewToken r) s'') = Ret (mkLockResult true (env_token env') "").
Proof.
  intros Ht Hr Hw Hops.
  assert (s' !! lockKey name = Some (Some (mkLock owner (env_now env + expireNs) (lr_RenewToken r)))) as Hs.
  { assert (i64 (env_now env + expireNs) = env_now env + expireNs) as Ei
      by (unfold i64, in_u in *; rewrite Z.mod_small; lia).
    unfold TryLock in Ht. rewrite Ei in Ht. destruct (env_get env); [|done]. cbn [negb] in Ht.
    destruct (s !! lockKey name) as [[entry|]|]; repeat case_decide; destruct (env_put env); simplify_eq/=;
      apply lookup_insert_eq. }
  clear Ht Hr. set (entry := mkLock owner _ _) in *.
  change (Forall (outsider (lk_Owner entry) (lk_RenewToken entry) (lk_ExpireAtNs entry)) ops) in Hops.
  assert (forall ops s0, s0 !! lockKey name = Some (Some entry) ->
    Forall (outsider (lk_Owner entry) (lk_RenewToken entry) (lk_ExpireAtNs entry)) ops ->
    Forall2 (fun op b => op_name op = name -> b = false) ops (fst (lock_run ops s0)) /\
    snd (lock_run ops s0) !! lockKey name = Some (Some entry)) as Hgo.
  { clear. induction ops as [|op ops IH]; intros s0 Hs Hops; [by repeat constructor|].
    apply Forall_cons in Hops as [Ho Hops]. destruct (outsider_step name entry op s0 Hs Ho) as [H1 H2].
    cbn [lock_run]. destruct (lock_step op s0) as [b s1]. destruct (IH s1 H1 Hops) as [H3 H4].
    destruct (lock_run ops s1) as [bs s2]. cbn [fst snd] in *. by repeat constructor. }
  destruct (Hgo ops s' Hs Hops) as [H1 H2]. destruct (lock_run ops s') as [acquired s'']. cbn [fst snd] in *.
  split_and!; [done..|]. intros env' e Hg Hp. unfold TryLock. rewrite Hg, Hp, H2. cbn [negb].
  case_decide; [|done]. rewrite decide_False by (intros [_ Hx]; by apply Hx).
  by rewrite decide_False by (intros [_ Hx]; by apply Hx).
Qed.

Lemma lock_excludes_witness :
  let env t tok := mkEnv t true true tok in
  let ops := [OpTryLock (env 120 "t2") "job" "bob" 50 ""; OpUnlock (env 121 "t3") "job" "guess";
              OpTryLock (env 122 "t4") "other" "bob" 50 ""] in
  exists s', TryLock (env 100 "t1") "job" "alice" 50 "" ∅ = (Ret (mkLockResult true "t1" ""), s') /\
    fst (lock_run ops s') = [false; false; true] /\
    snd (lock_run ops s') !! lockKey "job" = Some (Some (mkLock "alice" 150 "t1")).
Proof.
  intros env ops. set (s' := <["__lock__:job" := Some (mkLock "alice" 150 "t1")]> (∅ : kv)).
  exists s'. split; [reflexivity|]. split; [vm_compute; reflexivity|].
  pose proof (lock_excludes (env 100 "t1") "job" "alice" 50 "" ∅ (mkLockResult true "t1" "") s' ops
    eq_refl eq_refl ltac:(unfold in_u; cbn; lia)
    ltac:(repeat constructor; cbn; try lia; discriminate)) as H.
  destruct (lock_run ops s') as [bs s'']. apply H.
Defined.
