(* ===== verification/TopoNode.v ===== *)
(** * TopoNode: the nodes of the cluster topology

    [topology/node.go], [data_node.go], [rack.go], [data_center.go]: the tree of data
    centers, racks and data nodes, and what the master knows of a data node: its
    addresses, its disks with their volume counts, its volumes and its reservations.

    Nodes are shared by pointer: a volume layout keeps the data node it learned of when
    that node is no longer in the tree.  A pointer is a number, the memory a finite map. *)

From S2P Require Import Prelude GoStrings Types.

#[local] Open Scope string_scope.

(** ** Messages

    The fields of the protocol buffers of a heartbeat that the topology reads. *)

Record VolumeInfo := mkVolumeInfo {
  vi_Id : Z;
  vi_Collection : string;
  vi_ReplicaPlacement : Z;
  vi_Ttl : string;
  vi_DiskType : string;
  vi_ReadOnly : bool;
}.

Record Heartbeat := mkHeartbeat {
  hb_Ip : string;
  hb_Port : Z;
  hb_PublicUrl : string;
  hb_GrpcPort : Z;
  hb_DataCenter : string;
  hb_Rack : string;
  hb_Volumes : list VolumeInfo;
  hb_DeletedVids : list Z;
  hb_NewVids : list Z;
  hb_MaxVolumeCounts : list (string * Z);
}.

(** [master_pb.VolumeLocation], as the topology fills it. *)
Record PbLocation := mkPbLocation {
  pl_Url : string;
  pl_PublicUrl : string;
  pl_DataCenter : string;
  pl_Rack : string;
}.

Definition DefaultDiskType : string := "".

(** The disk type of a volume or of a maximum, defaulted as at each use of the code. *)
Definition disk_key (s : string) : string := if decide (s = "") then DefaultDiskType else s.

(** ** Disks *)

Record DiskInfo := mkDiskInfo {
  di_diskType : string;
  di_volumeCount : Z;
  di_maxVolumeCount : Z;
}.

Definition NewDiskInfo (diskType : string) : DiskInfo := mkDiskInfo diskType 0 0.
Definition di_SetMaxVolumeCount (max : Z) (di : DiskInfo) : DiskInfo :=
  mkDiskInfo (di_diskType di) (di_volumeCount di) max.
Definition di_AddVolume (di : DiskInfo) : DiskInfo :=
  mkDiskInfo (di_diskType di) (di_volumeCount di + 1) (di_maxVolumeCount di).
Definition di_RemoveVolume (di : DiskInfo) : DiskInfo :=
  if decide (di_volumeCount di > 0)
  then mkDiskInfo (di_diskType di) (di_volumeCount di - 1) (di_maxVolumeCount di) else di.

Definition maxInt : Z := 2 ^ 63 - 1.

Definition di_GetFreeVolumeSlot (di : DiskInfo) : Z :=
  if decide (di_maxVolumeCount di = 0) then maxInt else
  let free := di_maxVolumeCount di - di_volumeCount di in
  if decide (free < 0) then 0 else free.

Definition di_IsFull (di : DiskInfo) : bool :=
  if decide (di_maxVolumeCount di = 0) then false
  else bool_decide (di_volumeCount di >= di_maxVolumeCount di).

(** ** Data nodes *)

Record DataNode := mkDataNode {
  dn_url : string;
  dn_publicUrl : string;
  dn_ip : string;
  dn_port : Z;
  dn_grpcPort : Z;
  dn_disks : gmap string DiskInfo;
  dn_volumes : gmap Z VolumeInfo;
  dn_reservations : gmap string Z;
}.

Definition NewDataNode : DataNode := mkDataNode "" "" "" 0 0 ∅ ∅ ∅.

Definition dn_SetUrl (u : string) (d : DataNode) : DataNode :=
  mkDataNode u (dn_publicUrl d) (dn_ip d) (dn_port d) (dn_grpcPort d) (dn_disks d) (dn_volumes d) (dn_reservations d).
Definition dn_SetPublicUrl (u : string) (d : DataNode) : DataNode :=
  mkDataNode (dn_url d) u (dn_ip d) (dn_port d) (dn_grpcPort d) (dn_disks d) (dn_volumes d) (dn_reservations d).
Definition dn_SetIp (ip : string) (d : DataNode) : DataNode :=
  mkDataNode (dn_url d) (dn_publicUrl d) ip (dn_port d) (dn_grpcPort d) (dn_disks d) (dn_volumes d) (dn_reservations d).
Definition dn_SetPort (port : Z) (d : DataNode) : DataNode :=
  mkDataNode (dn_url d) (dn_publicUrl d) (dn_ip d) port (dn_grpcPort d) (dn_disks d) (dn_volumes d) (dn_reservations d).
Definition dn_SetGrpcPort (port : Z) (d : DataNode) : DataNode :=
  mkDataNode (dn_url d) (dn_publicUrl d) (dn_ip d) (dn_port d) port (dn_disks d) (dn_volumes d) (dn_reservations d).
Definition set_disks (m : gmap string DiskInfo) (d : DataNode) : DataNode :=
  mkDataNode (dn_url d) (dn_publicUrl d) (dn_ip d) (dn_port d) (dn_grpcPort d) m (dn_volumes d) (dn_reservations d).
Definition set_volumes (m : gmap Z VolumeInfo) (d : DataNode) : DataNode :=
  mkDataNode (dn_url d) (dn_publicUrl d) (dn_ip d) (dn_port d) (dn_grpcPort d) (dn_disks d) m (dn_reservations d).
Definition set_reservations (m : gmap string Z) (d : DataNode) : DataNode :=
  mkDataNode (dn_url d) (dn_publicUrl d) (dn_ip d) (dn_port d) (dn_grpcPort d) (dn_disks d) (dn_volumes d) m.

(** [getOrCreateDiskUnsafe] followed by an update of the disk it returns. *)
Definition getOrCreateDiskUnsafe (diskType : string) (d : DataNode) : DiskInfo :=
  default (NewDiskInfo diskType) (dn_disks d !! diskType).
Definition update_disk (diskType : string) (f : DiskInfo -> DiskInfo) (d : DataNode) : DataNode :=
  set_disks (<[diskType := f (getOrCreateDiskUnsafe diskType d)]> (dn_disks d)) d.

Definition UpdateMaxVolumeCounts (maxCounts : list (string * Z)) (d : DataNode) : DataNode :=
  fold_left (fun d mc => update_disk (disk_key (fst mc)) (di_SetMaxVolumeCount (snd mc)) d) maxCounts d.

(** [if disk, ok := dn.disks[diskType]; ok { disk.RemoveVolume(vid) }] *)
Definition disk_remove (diskType : string) (d : DataNode) : DataNode :=
  match dn_disks d !! diskType with
  | Some disk => set_disks (<[diskType := di_RemoveVolume disk]> (dn_disks d)) d
  | None => d
  end.

Definition AddOrUpdateVolume (v : VolumeInfo) (d : DataNode) : DataNode :=
  let newDiskType := disk_key (vi_DiskType v) in
  match dn_volumes d !! vi_Id v with
  | Some old =>
      let oldDiskType := disk_key (vi_DiskType old) in
      let d := if decide (oldDiskType <> newDiskType)
               then update_disk newDiskType di_AddVolume (disk_remove oldDiskType d) else d in
      set_volumes (<[vi_Id v := v]> (dn_volumes d)) d
  | None =>
      let d := update_disk newDiskType di_AddVolume d in
      set_volumes (<[vi_Id v := v]> (dn_volumes d)) d
  end.

Definition DeleteVolume (vid : Z) (d : DataNode) : DataNode :=
  match dn_volumes d !! vid with
  | Some v => disk_remove (disk_key (vi_DiskType v)) (set_volumes (delete vid (dn_volumes d)) d)
  | None => d
  end.

Definition reserved (d : DataNode) (diskType : string) : Z := default 0 (dn_reservations d !! diskType).

(** [disk.GetFreeVolumeSlot() - dn.reservations[diskType]] *)
Definition free_slots (d : DataNode) (diskType : string) (disk : DiskInfo) : Z :=
  di_GetFreeVolumeSlot disk - reserved d diskType.

Definition GetFreeVolumeSlots (d : DataNode) : gmap string Z :=
  map_imap (fun dt disk => let free := free_slots d dt disk in Some (if decide (free < 0) then 0 else free))
    (dn_disks d).

Definition ReserveSlot (diskType : string) (d : DataNode) : bool * DataNode :=
  match dn_disks d !! diskType with
  | None => (false, d)
  | Some disk =>
      if decide (di_maxVolumeCount disk > 0 /\ free_slots d diskType disk <= 0) then (false, d)
      else (true, set_reservations (<[diskType := reserved d diskType + 1]> (dn_reservations d)) d)
  end.

Definition ReleaseSlot (diskType : string) (d : DataNode) : DataNode :=
  if decide (reserved d diskType > 0)
  then set_reservations (<[diskType := reserved d diskType - 1]> (dn_reservations d)) d else d.

(** A disk that takes one more volume. *)
Definition disk_accepts (d : DataNode) (diskType : string) (disk : DiskInfo) : bool :=
  bool_decide (di_maxVolumeCount disk = 0) || bool_decide (free_slots d diskType disk > 0).

Definition HasFreeSlot (diskType : string) (d : DataNode) : bool :=
  if decide (diskType = DefaultDiskType)
  then existsb (fun '(dt, disk) => disk_accepts d dt disk) (map_to_list (dn_disks d))
  else match dn_disks d !! diskType with Some disk => disk_accepts d diskType disk | None => false end.

(** [fmt.Sprintf("http://%s:%d", ip, port)] *)
Definition http_url (ip : string) (port : Z) : string :=
  "http://" +:+ ip +:+ ":" +:+ str (FormatUint port 10).

Definition UpdateFromHeartbeat (hb : Heartbeat) (d : DataNode) : DataNode :=
  let d := dn_SetGrpcPort (hb_GrpcPort hb) (dn_SetPublicUrl (hb_PublicUrl hb)
             (dn_SetPort (hb_Port hb) (dn_SetIp (hb_Ip hb) d))) in
  let d := if decide (dn_url d = "") then dn_SetUrl (http_url (hb_Ip hb) (hb_Port hb)) d else d in
  UpdateMaxVolumeCounts (hb_MaxVolumeCounts hb) d.

(** ** The tree *)

Abbreviation ptr := nat.

Inductive node_kind := KRoot | KDataCenter | KRack | KDataNode (d : DataNode).

Record Node := mkNode {
  n_id : string;
  n_parent : option ptr;
  n_children : gmap string ptr;
  n_lastSeen : Z;
  n_kind : node_kind;
}.

(** Nodes in memory; [h_next] is the next pointer. *)
Record heap := mkHeap { h_nodes : gmap ptr Node; h_next : ptr }.

Definition set_node (p : ptr) (n : Node) (h : heap) : heap := mkHeap (<[p := n]> (h_nodes h)) (h_next h).
Definition with_children (m : gmap string ptr) (n : Node) : Node :=
  mkNode (n_id n) (n_parent n) m (n_lastSeen n) (n_kind n).
Definition with_lastSeen (now : Z) (n : Node) : Node :=
  mkNode (n_id n) (n_parent n) (n_children n) now (n_kind n).
Definition with_data (d : DataNode) (n : Node) : Node :=
  mkNode (n_id n) (n_parent n) (n_children n) (n_lastSeen n) (KDataNode d).

(** [NewNodeImpl], inside the constructor of the kind. *)
Definition NewNodeImpl (id : string) (now : Z) (k : node_kind) : Node := mkNode id None ∅ now k.

Definition GetId (h : heap) (p : ptr) : string := default "" (n_id <$> h_nodes h !! p).
Definition GetParent (h : heap) (p : ptr) : option ptr := h_nodes h !! p ≫= n_parent.
Definition data_of (n : Node) : option DataNode := match n_kind n with KDataNode d => Some d | _ => None end.
Definition ToDataNode (h : heap) (p : ptr) : option DataNode := h_nodes h !! p ≫= data_of.

(** The parent of a data node is a rack, whose parent is a data center. *)
Definition GetRack (h : heap) (p : ptr) : string :=
  match GetParent h p with None => "" | Some r => GetId h r end.
Definition GetDataCenter (h : heap) (p : ptr) : string :=
  match GetParent h p with
  | None => ""
  | Some r => match GetParent h r with None => "" | Some dc => GetId h dc end
  end.

Definition alive (now : Z) (n : Node) : bool := bool_decide (now - n_lastSeen n < 30 * 10 ^ 9).
Definition IsAlive (now : Z) (h : heap) (p : ptr) : bool := default false (alive now <$> h_nodes h !! p).

(** [GetOrCreateChild]: the child under [id], or a new node of the kind. *)
Definition GetOrCreateChild (now : Z) (p : ptr) (id : string) (k : node_kind) (h : heap) : option (ptr * heap) :=
  n ← h_nodes h !! p;
  match n_children n !! id with
  | Some c => Some (c, h)
  | None =>
      let c := h_next h in
      let child := mkNode id (Some p) ∅ now k in
      Some (c, mkHeap (<[c := child]> (<[p := with_children (<[id := c]> (n_children n)) n]> (h_nodes h))) (S c))
  end.

Definition DeleteChild (p : ptr) (id : string) (h : heap) : heap :=
  match h_nodes h !! p with
  | Some n => set_node p (with_children (delete id (n_children n)) n) h
  | None => h
  end.

Definition UpdateLastSeen (now : Z) (p : ptr) (h : heap) : heap :=
  match h_nodes h !! p with Some n => set_node p (with_lastSeen now n) h | None => h end.

(** The type assertions [child.( *DataCenter )], [child.( *Rack )], [child.( *DataNode )]. *)
Definition same_kind (k : node_kind) (n : Node) : bool :=
  match k, n_kind n with
  | KRoot, KRoot | KDataCenter, KDataCenter | KRack, KRack | KDataNode _, KDataNode _ => true
  | _, _ => false
  end.

Definition child_as (now : Z) (p : ptr) (id : string) (k : node_kind) (h : heap) : option (ptr * heap) :=
  '(c, h) ← GetOrCreateChild now p id k h;
  n ← h_nodes h !! c;
  if same_kind k n then Some (c, h) else None.

Definition GetOrCreateDataCenter (now : Z) (p : ptr) (id : string) := child_as now p id KDataCenter.
Definition GetOrCreateRack (now : Z) (p : ptr) (id : string) := child_as now p id KRack.
Definition GetOrCreateDataNode (now : Z) (p : ptr) (id : string) := child_as now p id (KDataNode NewDataNode).

Definition NodeIDFromHeartbeat (hb : Heartbeat) : string :=
  if decide (hb_GrpcPort hb > 0)
  then hb_Ip hb +:+ ":" +:+ str (FormatUint (hb_GrpcPort hb) 10)
  else hb_Ip hb +:+ ":" +:+ str (FormatUint (hb_Port hb) 10).

(** An update of the data of a data node. *)
Definition update_data (p : ptr) (f : DataNode -> DataNode) (h : heap) : heap :=
  match h_nodes h !! p with
  | Some n => match n_kind n with KDataNode d => set_node p (with_data (f d) n) h | _ => h end
  | None => h
  end.

(** ** The accounting of a data node

    The count of each disk is the number of the node's volumes on it. *)

Definition on_disk (dt : string) (v : VolumeInfo) : Z := if decide (disk_key (vi_DiskType v) = dt) then 1 else 0.
Definition disk_count (d : DataNode) (dt : string) : Z := default 0 (di_volumeCount <$> dn_disks d !! dt).

Record data_ok (d : DataNode) : Prop := {
  do_count : forall dt, disk_count d dt = msum (on_disk dt) (dn_volumes d);
  do_ids : forall vid v, dn_volumes d !! vid = Some v -> vi_Id v = vid;
  do_reserved : forall dt, 0 <= reserved d dt;
}.

Lemma NewDataNode_ok : data_ok NewDataNode.
Proof.
  split.
  - intros dt. unfold disk_count. cbn [NewDataNode dn_disks dn_volumes]. by rewrite lookup_empty, msum_empty.
  - intros vid v H. cbn in H. by rewrite lookup_empty in H.
  - intros dt. unfold reserved. cbn. by rewrite lookup_empty.
Qed.

Lemma disk_count_update d dt f dt' :
  disk_count (update_disk dt f d) dt' =
  if decide (dt' = dt) then di_volumeCount (f (getOrCreateDiskUnsafe dt d)) else disk_count d dt'.
Proof.
  unfold disk_count, update_disk. cbn [set_disks dn_disks]. case_decide as Hd.
  - subst. by rewrite lookup_insert_eq.
  - by rewrite lookup_insert_ne by done.
Qed.

Lemma getOrCreate_count d dt : di_volumeCount (getOrCreateDiskUnsafe dt d) = disk_count d dt.
Proof. unfold getOrCreateDiskUnsafe, disk_count. by destruct (dn_disks d !! dt). Qed.

Lemma disk_count_remove d dt dt' :
  disk_count d dt > 0 ->
  disk_count (disk_remove dt d) dt' = disk_count d dt' - if decide (dt' = dt) then 1 else 0.
Proof.
  unfold disk_count, disk_remove. destruct (dn_disks d !! dt) as [di|] eqn:E; cbn [default id fmap option_fmap option_map]; [|lia].
  intros Hc. cbn [set_disks dn_disks]. unfold di_RemoveVolume. destruct (decide (dt' = dt)) as [->|Hd].
  - rewrite lookup_insert_eq, E. cbn. rewrite decide_True by done. cbn. lia.
  - rewrite lookup_insert_ne by done. lia.
Qed.

Lemma disk_remove_volumes d dt :
  dn_volumes (disk_remove dt d) = dn_volumes d /\ dn_reservations (disk_remove dt d) = dn_reservations d.
Proof. unfold disk_remove. by destruct (dn_disks d !! dt). Qed.

Lemma msum_pos (m : gmap Z VolumeInfo) k v dt : m !! k = Some v -> disk_key (vi_DiskType v) = dt -> msum (on_disk dt) m > 0.
Proof.
  intros Hk Hd. assert (forall m' : gmap Z VolumeInfo, 0 <= msum (on_disk dt) m') as Hnn.
  { intros m'. induction m' as [|k' v' m' Hk' IH] using map_ind; [by rewrite msum_empty|].
    rewrite msum_insert_new by done. unfold on_disk at 1. case_decide; lia. }
  pose proof (msum_delete (on_disk dt) m k v Hk) as E. specialize (Hnn (delete k m)).
  unfold on_disk at 3 in E. rewrite decide_True in E by done. lia.
Qed.

Lemma AddOrUpdateVolume_volumes v d : dn_volumes (AddOrUpdateVolume v d) = <[vi_Id v := v]> (dn_volumes d).
Proof.
  unfold AddOrUpdateVolume. destruct (dn_volumes d !! vi_Id v); cbn [set_volumes dn_volumes]; [|done].
  case_decide; cbn [update_disk set_disks dn_volumes]; [|done]. by rewrite (proj1 (disk_remove_volumes _ _)).
Qed.

Lemma DeleteVolume_volumes vid d : dn_volumes (DeleteVolume vid d) = delete vid (dn_volumes d).
Proof.
  unfold DeleteVolume. destruct (dn_volumes d !! vid) eqn:E; [|by rewrite delete_id].
  by rewrite (proj1 (disk_remove_volumes _ _)).
Qed.

Lemma AddOrUpdateVolume_reservations v d : dn_reservations (AddOrUpdateVolume v d) = dn_reservations d.
Proof.
  unfold AddOrUpdateVolume. destruct (dn_volumes d !! vi_Id v); cbn [set_volumes dn_reservations]; [|done].
  case_decide; cbn [update_disk set_disks dn_reservations]; [|done]. apply disk_remove_volumes.
Qed.

Lemma DeleteVolume_reservations vid d : dn_reservations (DeleteVolume vid d) = dn_reservations d.
Proof.
  unfold DeleteVolume. destruct (dn_volumes d !! vid) eqn:E; [|done].
  by rewrite (proj2 (disk_remove_volumes _ _)).
Qed.

Lemma disk_count_set_volumes m d dt : disk_count (set_volumes m d) dt = disk_count d dt.
Proof. done. Qed.

Lemma AddOrUpdateVolume_count v d dt :
  data_ok d ->
  disk_count (AddOrUpdateVolume v d) dt =
  disk_count d dt - default 0 (on_disk dt <$> dn_volumes d !! vi_Id v) + on_disk dt v.
Proof.
  intros [Hc _ _]. unfold AddOrUpdateVolume.
  destruct (dn_volumes d !! vi_Id v) as [old|] eqn:E; rewrite disk_count_set_volumes; cbn [fmap option_fmap option_map default id].
  - unfold on_disk. case_decide as Hd.
    + assert (disk_count d (disk_key (vi_DiskType old)) > 0) as Hpos by (rewrite Hc; by eapply msum_pos).
      rewrite disk_count_update. cbn [di_AddVolume di_volumeCount]. rewrite getOrCreate_count, !disk_count_remove by done.
      repeat case_decide; subst; try done; lia.
    + rewrite Hd. lia.
  - rewrite disk_count_update. cbn [di_AddVolume di_volumeCount]. rewrite getOrCreate_count.
    unfold on_disk. repeat case_decide; subst; try done; lia.
Qed.

Lemma AddOrUpdateVolume_ok v d : data_ok d -> data_ok (AddOrUpdateVolume v d).
Proof.
  intros Hok. pose proof Hok as [Hc Hi Hr]. split.
  - intros dt. rewrite AddOrUpdateVolume_count, AddOrUpdateVolume_volumes, msum_insert, Hc by done. done.
  - intros vid v'. rewrite AddOrUpdateVolume_volumes. intros [[<- <-]|[_ H]]%lookup_insert_Some; [done|by apply Hi].
  - intros dt. unfold reserved. rewrite AddOrUpdateVolume_reservations. apply Hr.
Qed.

Lemma DeleteVolume_ok vid d : data_ok d -> data_ok (DeleteVolume vid d).
Proof.
  intros [Hc Hi Hr]. split.
  - intros dt. rewrite DeleteVolume_volumes. unfold DeleteVolume.
    destruct (dn_volumes d !! vid) as [v|] eqn:E; [|by rewrite delete_id by done].
    rewrite disk_count_remove; rewrite !disk_count_set_volumes, !Hc; [|by eapply msum_pos].
    rewrite (msum_delete _ _ _ _ E). unfold on_disk at 3. repeat case_decide; subst; try done; lia.
  - intros vid' v'. rewrite DeleteVolume_volumes. intros [_ H]%lookup_delete_Some. by apply Hi.
  - intros dt. unfold reserved. rewrite DeleteVolume_reservations. apply Hr.
Qed.

Lemma UpdateMaxVolumeCounts_spec mcs d :
  dn_volumes (UpdateMaxVolumeCounts mcs d) = dn_volumes d /\
  dn_reservations (UpdateMaxVolumeCounts mcs d) = dn_reservations d /\
  forall dt, disk_count (UpdateMaxVolumeCounts mcs d) dt = disk_count d dt.
Proof.
  unfold UpdateMaxVolumeCounts. revert d. induction mcs as [|[s c] mcs IH]; intros d; [done|]. cbn [fold_left fst snd].
  destruct (IH (update_disk (disk_key s) (di_SetMaxVolumeCount c) d)) as (E1 & E2 & E3).
  split_and!; [by rewrite E1|by rewrite E2|]. intros dt. rewrite E3, disk_count_update.
  cbn [di_SetMaxVolumeCount di_volumeCount]. rewrite getOrCreate_count. by case_decide; subst.
Qed.

Lemma UpdateMaxVolumeCounts_ok mcs d : data_ok d -> data_ok (UpdateMaxVolumeCounts mcs d).
Proof.
  intros [Hc Hi Hr]. destruct (UpdateMaxVolumeCounts_spec mcs d) as (E1 & E2 & E3).
  split; [intros dt; by rewrite E3, E1|by rewrite E1|]. intros dt. unfold reserved. rewrite E2. apply Hr.
Qed.

Lemma UpdateFromHeartbeat_volumes hb d : dn_volumes (UpdateFromHeartbeat hb d) = dn_volumes d.
Proof. unfold UpdateFromHeartbeat. rewrite (proj1 (UpdateMaxVolumeCounts_spec _ _)). by case_decide. Qed.

Lemma UpdateFromHeartbeat_ok hb d : data_ok d -> data_ok (UpdateFromHeartbeat hb d).
Proof. intros [Hc Hi Hr]. unfold UpdateFromHeartbeat. apply UpdateMaxVolumeCounts_ok. case_decide; by split. Qed.
