(* ===== verification/VolumeLayout.v ===== *)
(** * VolumeLayout: where the replicas of the volumes are

    [topology/volume_layout.go]: for one combination of collection, replica placement,
    time to live and disk type, the data nodes that hold a replica of each volume, kept
    in three maps for writable, read-only and crowded volumes.  A layout is shown to
    represent a finite map from pairs of a volume and a data node to a status. *)

From S2P Require Import Prelude GoStrings Types TopoNode.

#[local] Open Scope string_scope.

Record VolumeLocation := mkVolumeLocation {
  vl_DataNode : option ptr;
  vl_VolumeId : Z;
  vl_size : Z;
  vl_isReadOnly : bool;
}.

Definition NewVolumeLocation (dataNode : option ptr) (vid : Z) : VolumeLocation :=
  mkVolumeLocation dataNode vid 0 false.

Abbreviation loc_map := (gmap Z (list VolumeLocation)).

Record VolumeLayout := mkVolumeLayout {
  ly_collection : string;
  ly_replication : string;
  ly_ttl : string;
  ly_diskType : string;
  ly_writable : loc_map;
  ly_readonly : loc_map;
  ly_crowded : loc_map;
}.

Definition NewVolumeLayout (collection replication ttl diskType : string) : VolumeLayout :=
  mkVolumeLayout collection replication ttl diskType ∅ ∅ ∅.

Definition set_maps (w r c : loc_map) (vl : VolumeLayout) : VolumeLayout :=
  mkVolumeLayout (ly_collection vl) (ly_replication vl) (ly_ttl vl) (ly_diskType vl) w r c.

(** What a layout reads of the data nodes it points to. *)
Record node_view := mkView {
  nv_id : ptr -> string;
  nv_alive : ptr -> bool;
  nv_dc : ptr -> string;
  nv_rack : ptr -> string;
  nv_slots : ptr -> gmap string Z;
  nv_url : ptr -> string;
  nv_publicUrl : ptr -> string;
}.

Record VolumeGrowOption := mkGrowOption {
  go_Collection : string;
  go_ReplicaPlacement : ReplicaPlacement;
  go_Ttl : string;
  go_DiskType : string;
  go_DataCenter : string;
  go_Rack : string;
}.

Section operations.
Context (nv : node_view).

Definition sameDataNode (loc : VolumeLocation) (nodeID : string) (node : option ptr) : bool :=
  match vl_DataNode loc with
  | Some p => if decide (nodeID <> "") then bool_decide (nv_id nv p = nodeID) else bool_decide (node = Some p)
  | None => false
  end.

Definition node_id (node : option ptr) : string := match node with Some p => nv_id nv p | None => "" end.

(** [m.Set(vid, filtered)], or the deletion of the entry when nothing remains. *)
Definition set_filtered (m : loc_map) (vid : Z) (filtered : list VolumeLocation) : loc_map :=
  match filtered with [] => delete vid m | _ => <[vid := filtered]> m end.

Definition removeLocationFromMap (m : loc_map) (vid : Z) (node : option ptr) : loc_map :=
  match m !! vid with
  | None => m
  | Some locs => set_filtered m vid (List.filter (fun loc => negb (sameDataNode loc (node_id node) node)) locs)
  end.

(** The loop of [upsertLocation]: the first location of the node is replaced. *)
Fixpoint upsert (loc : VolumeLocation) (existing : list VolumeLocation) : list VolumeLocation :=
  match existing with
  | [] => [loc]
  | e :: rest =>
      if sameDataNode e (node_id (vl_DataNode loc)) (vl_DataNode loc) then loc :: rest else e :: upsert loc rest
  end.

Definition upsertLocation (m : loc_map) (vid : Z) (loc : VolumeLocation) : loc_map :=
  <[vid := upsert loc (default [] (m !! vid))]> m.

Definition AddVolumeLayout (loc : VolumeLocation) (vl : VolumeLayout) : VolumeLayout :=
  let vid := vl_VolumeId loc in
  if decide (vid = 0) then vl else
  if vl_isReadOnly loc
  then set_maps (removeLocationFromMap (ly_writable vl) vid (vl_DataNode loc))
                (upsertLocation (ly_readonly vl) vid loc)
                (removeLocationFromMap (ly_crowded vl) vid (vl_DataNode loc)) vl
  else set_maps (upsertLocation (ly_writable vl) vid loc)
                (removeLocationFromMap (ly_readonly vl) vid (vl_DataNode loc))
                (removeLocationFromMap (ly_crowded vl) vid (vl_DataNode loc)) vl.

Definition RemoveVolumeLocation (vid : Z) (vl : VolumeLayout) : VolumeLayout :=
  set_maps (delete vid (ly_writable vl)) (delete vid (ly_readonly vl)) (delete vid (ly_crowded vl)) vl.

(** [loc.DataNode == nil || loc.DataNode.GetId() != dataNodeId] *)
Definition not_on (dataNodeId : string) (loc : VolumeLocation) : bool :=
  match vl_DataNode loc with Some p => negb (bool_decide (nv_id nv p = dataNodeId)) | None => true end.

(** The closure [filterMap] of [RemoveDataNodeLocation]. *)
Definition filterMap (vid : Z) (dataNodeId : string) (m : loc_map) : loc_map :=
  match m !! vid with
  | None => m
  | Some locs => set_filtered m vid (List.filter (not_on dataNodeId) locs)
  end.

Definition RemoveDataNodeLocation (vid : Z) (dataNodeId : string) (vl : VolumeLayout) : VolumeLayout :=
  set_maps (filterMap vid dataNodeId (ly_writable vl)) (filterMap vid dataNodeId (ly_readonly vl))
    (filterMap vid dataNodeId (ly_crowded vl)) vl.

(** The closure [removeFromMap] of [VolumeLayoutCollection.RemoveDataNode]: every entry
    is filtered, and those with nothing left are deleted. *)
Definition removeFromMap (dataNodeId : string) (m : loc_map) : loc_map :=
  omap (fun locs => match List.filter (not_on dataNodeId) locs with [] => None | f => Some f end) m.

Definition layout_RemoveDataNode (dataNodeId : string) (vl : VolumeLayout) : VolumeLayout :=
  set_maps (removeFromMap dataNodeId (ly_writable vl)) (removeFromMap dataNodeId (ly_readonly vl))
    (removeFromMap dataNodeId (ly_crowded vl)) vl.

Definition layout_LookupVolume (vid : Z) (vl : VolumeLayout) : option (list VolumeLocation) :=
  match ly_writable vl !! vid with
  | Some locs => Some locs
  | None => match ly_readonly vl !! vid with
            | Some locs => Some locs
            | None => ly_crowded vl !! vid
            end
  end.

Definition SetVolumeWritable (vid : Z) (vl : VolumeLayout) : VolumeLayout :=
  match ly_readonly vl !! vid with
  | Some locs => set_maps (<[vid := locs]> (ly_writable vl)) (delete vid (ly_readonly vl)) (ly_crowded vl) vl
  | None =>
      match ly_crowded vl !! vid with
      | Some locs => set_maps (<[vid := locs]> (ly_writable vl)) (ly_readonly vl) (delete vid (ly_crowded vl)) vl
      | None => vl
      end
  end.

Definition SetVolumeReadOnly (vid : Z) (vl : VolumeLayout) : VolumeLayout :=
  match ly_writable vl !! vid with
  | Some locs => set_maps (delete vid (ly_writable vl)) (<[vid := locs]> (ly_readonly vl)) (ly_crowded vl) vl
  | None =>
      match ly_crowded vl !! vid with
      | Some locs => set_maps (ly_writable vl) (<[vid := locs]> (ly_readonly vl)) (delete vid (ly_crowded vl)) vl
      | None => vl
      end
  end.

Definition GetWritableVolumeCount (vl : VolumeLayout) : Z := Z.of_nat (size (ly_writable vl)).
Definition GetReadonlyVolumeCount (vl : VolumeLayout) : Z := Z.of_nat (size (ly_readonly vl)).
Definition GetCrowdedVolumeCount (vl : VolumeLayout) : Z := Z.of_nat (size (ly_crowded vl)).
Definition GetTotalVolumeCount (vl : VolumeLayout) : Z :=
  GetWritableVolumeCount vl + GetReadonlyVolumeCount vl + GetCrowdedVolumeCount vl.
Definition HasWritableVolume (vl : VolumeLayout) : bool := bool_decide (GetWritableVolumeCount vl > 0).

(** The data center and rack filter of [PickForWrite] on one location. *)
Definition affine (opt : VolumeGrowOption) (loc : VolumeLocation) : bool :=
  match vl_DataNode loc with
  | None => false
  | Some p => bool_decide (nv_dc nv p = go_DataCenter opt) &&
              (bool_decide (go_Rack opt = "") || bool_decide (nv_rack nv p = go_Rack opt))
  end.

(** The candidates of [PickForWrite]: the callback does not skip them. *)
Definition pickable (opt : option VolumeGrowOption) (ls : list VolumeLocation) : bool :=
  match ls with
  | [] => false
  | l0 :: _ =>
      match vl_DataNode l0 with Some p => nv_alive nv p | None => true end &&
      match opt with
      | Some o => bool_decide (go_DataCenter o = "") || existsb (affine o) ls
      | None => true
      end
  end.

(** [PickForWrite]; [order] is the order in which the map is ranged over. *)
Definition PickForWrite (order : loc_map -> list (Z * list VolumeLocation)) (opt : option VolumeGrowOption)
    (vl : VolumeLayout) : option (Z * list VolumeLocation) :=
  match List.find (fun '(v, ls) => pickable opt ls) (order (ly_writable vl)) with
  | Some (v, ls) => if decide (v = 0) then None else Some (v, ls)
  | None => None
  end.

Definition layout_HasFreeSpace (vl : VolumeLayout) : bool :=
  existsb (fun '(_, locs) => existsb (fun loc =>
    match vl_DataNode loc with
    | Some p => existsb (fun '(_, slots) => bool_decide (slots > 0)) (map_to_list (nv_slots nv p))
    | None => false
    end) locs) (map_to_list (ly_writable vl)).

(** The loop of [FindEmptySlots] over the locations, with the node ids already seen. *)
Definition empty_slot_step (diskType : string) (acc : gset string * list ptr) (loc : VolumeLocation)
  : gset string * list ptr :=
  let '(seen, candidates) := acc in
  match vl_DataNode loc with
  | None => acc
  | Some p =>
      if negb (nv_alive nv p) then acc else
      if decide (nv_id nv p ∈ seen) then acc else
      match nv_slots nv p !! diskType with
      | Some slots => if decide (slots > 0) then ({[nv_id nv p]} ∪ seen, (candidates ++ [p])%list) else acc
      | None => acc
      end
  end.

Definition FindEmptySlots (order : loc_map -> list (Z * list VolumeLocation)) (vl : VolumeLayout) : list ptr :=
  snd (fold_left (fun acc '(_, locs) => fold_left (empty_slot_step (ly_diskType vl)) locs acc)
         (order (ly_writable vl)) (∅, [])).

(** [ToProto] of a location, and of all the locations of a volume. *)
Definition loc_ToProto (loc : VolumeLocation) : option PbLocation :=
  p ← vl_DataNode loc; Some (mkPbLocation (nv_url nv p) (nv_publicUrl nv p) (nv_dc nv p) (nv_rack nv p)).

Definition ToVolumeLocations (vid : Z) (vl : VolumeLayout) : list PbLocation :=
  match layout_LookupVolume vid vl with Some locs => omap loc_ToProto locs | None => [] end.

End operations.

(** ** The abstract layout: the status of a replica *)

Inductive Status := Writable | ReadOnly | Crowded.

#[export] Instance Status_eq_dec : EqDecision Status.
Proof. solve_decision. Defined.

Section refinement.
Context (nv : node_view).

Definition loc_id (loc : VolumeLocation) : string := node_id nv (vl_DataNode loc).

(** The data nodes a map lists for a volume. *)
Definition nodes (m : loc_map) (vid : Z) : list string := loc_id <$> default [] (m !! vid).

(** The locations of an entry, whose volume id is not 0: at least one, each on a named data node, no node twice. *)
Definition entry_ok (vid : Z) (locs : list VolumeLocation) : Prop :=
  vid <> 0 /\ locs <> [] /\ Forall (fun loc => vl_VolumeId loc = vid /\ loc_id loc <> "") locs /\
  NoDup (loc_id <$> locs).

Definition map_ok (m : loc_map) : Prop := map_Forall entry_ok m.

Definition class (st : Status) (vl : VolumeLayout) : loc_map :=
  match st with Writable => ly_writable vl | ReadOnly => ly_readonly vl | Crowded => ly_crowded vl end.

(** A layout represents the map from replicas, pairs of a volume and a data node, to
    their status: each replica is in the map of its status, and in no other. *)
Definition represents (vl : VolumeLayout) (A : gmap (Z * string) Status) : Prop :=
  (forall st, map_ok (class st vl)) /\
  (forall st vid x, A !! (vid, x) = Some st <-> x ∈ nodes (class st vl) vid).

(** *** One map *)

Lemma nodes_empty vid : nodes ∅ vid = [].
Proof. unfold nodes. by rewrite lookup_empty. Qed.

Lemma nodes_delete m vid vid' : nodes (delete vid m) vid' = if decide (vid' = vid) then [] else nodes m vid'.
Proof.
  unfold nodes. destruct (decide (vid' = vid)) as [->|Hne]; [by rewrite lookup_delete_eq|].
  by rewrite lookup_delete_ne.
Qed.

Lemma nodes_insert m vid locs vid' :
  nodes (<[vid := locs]> m) vid' = if decide (vid' = vid) then loc_id <$> locs else nodes m vid'.
Proof.
  unfold nodes. destruct (decide (vid' = vid)) as [->|Hne]; [by rewrite lookup_insert_eq|].
  by rewrite lookup_insert_ne.
Qed.

Lemma nodes_set_filtered m vid locs vid' :
  nodes (set_filtered m vid locs) vid' = if decide (vid' = vid) then loc_id <$> locs else nodes m vid'.
Proof. destruct locs; [apply nodes_delete|apply nodes_insert]. Qed.

Lemma entry_ok_filter vid locs (f : VolumeLocation -> bool) :
  entry_ok vid locs -> List.filter f locs <> [] -> entry_ok vid (List.filter f locs).
Proof.
  intros (Hv & _ & Hf & Hn) Hne. split; [done|]. split; [done|]. clear Hne.
  induction locs as [|l locs IH]; cbn [List.filter]; [by split|].
  apply Forall_cons in Hf as [Hl Hf]. cbn in Hn. apply NoDup_cons in Hn as [Hin Hn].
  destruct (IH Hf Hn) as [H1 H2]. destruct (f l); [|done].
  split; [by constructor|]. cbn. apply NoDup_cons. split; [|done].
  intros (l' & E & Hl')%list_elem_of_fmap. apply Hin. rewrite E. apply (list_elem_of_fmap_2 loc_id).
  apply list_elem_of_In, filter_In in Hl' as [Hl' _]. by apply list_elem_of_In.
Qed.

Lemma map_ok_set_filtered m vid locs (f : VolumeLocation -> bool) :
  map_ok m -> m !! vid = Some locs -> map_ok (set_filtered m vid (List.filter f locs)).
Proof.
  intros Hm Hl. pose proof (entry_ok_filter vid locs f (Hm _ _ Hl)) as He.
  unfold set_filtered. destruct (List.filter f locs); [by apply map_Forall_delete|].
  apply map_Forall_insert_2; [by apply He|done].
Qed.

Lemma elem_nodes_filter x (f : VolumeLocation -> bool) locs nid :
  Forall (fun loc => f loc = negb (bool_decide (loc_id loc = nid))) locs ->
  x ∈ (loc_id <$> List.filter f locs) <-> x ∈ (loc_id <$> locs) /\ x <> nid.
Proof.
  induction locs as [|l locs IH]; cbn [List.filter fmap list_fmap]; intros Hf; [set_solver|].
  apply Forall_cons in Hf as [Hl Hf]. rewrite Hl. specialize (IH Hf).
  case_bool_decide as Hc; cbn [negb fmap list_fmap]; rewrite ?elem_of_cons, IH; intuition congruence.
Qed.

(** The three routines that take a node out of a map agree on well-formed maps. *)
Lemma sameDataNode_id vid locs p :
  nv_id nv p <> "" -> Forall (fun loc => vl_VolumeId loc = vid /\ loc_id loc <> "") locs ->
  Forall (fun loc => sameDataNode nv loc (nv_id nv p) (Some p) = bool_decide (loc_id loc = nv_id nv p)) locs.
Proof.
  intros Hp Hf. eapply Forall_impl; [exact Hf|]. intros loc [_ Hl]. unfold sameDataNode, loc_id, node_id in *.
  destruct (vl_DataNode loc); [|done]. by rewrite decide_True.
Qed.

Lemma not_on_id vid locs nid :
  Forall (fun loc => vl_VolumeId loc = vid /\ loc_id loc <> "") locs ->
  Forall (fun loc => not_on nv nid loc = negb (bool_decide (loc_id loc = nid))) locs.
Proof.
  intros Hf. eapply Forall_impl; [exact Hf|]. intros loc [_ Hl]. unfold not_on, loc_id, node_id in *. by destruct (vl_DataNode loc).
Qed.

Lemma remove_spec m vid p vid' x :
  map_ok m -> nv_id nv p <> "" ->
  x ∈ nodes (removeLocationFromMap nv m vid (Some p)) vid' <->
  x ∈ nodes m vid' /\ ~ (vid = vid' /\ nv_id nv p = x).
Proof.
  intros Hm Hp. unfold removeLocationFromMap. destruct (m !! vid) as [locs|] eqn:E.
  - rewrite nodes_set_filtered. destruct (decide (vid' = vid)) as [->|]; [|naive_solver].
    destruct (Hm _ _ E) as (_ & _ & Hf & _). cbn [node_id]. rewrite (elem_nodes_filter x _ _ (nv_id nv p)).
    + unfold nodes. rewrite E. naive_solver.
    + eapply Forall_impl; [by apply (sameDataNode_id vid)|]. intros loc Hloc. cbn beta in *. by rewrite Hloc.
  - split; [|tauto]. intros H. split; [done|]. intros [-> _]. unfold nodes in H. rewrite E in H. set_solver.
Qed.

Lemma remove_ok m vid node : map_ok m -> map_ok (removeLocationFromMap nv m vid node).
Proof.
  intros Hm. unfold removeLocationFromMap. destruct (m !! vid) eqn:E; [|done]. by apply map_ok_set_filtered.
Qed.

Lemma filterMap_spec m vid nid vid' x :
  map_ok m -> x ∈ nodes (filterMap nv vid nid m) vid' <-> x ∈ nodes m vid' /\ ~ (vid = vid' /\ nid = x).
Proof.
  intros Hm. unfold filterMap. destruct (m !! vid) as [locs|] eqn:E.
  - rewrite nodes_set_filtered. destruct (decide (vid' = vid)) as [->|]; [|naive_solver].
    destruct (Hm _ _ E) as (_ & _ & Hf & _). rewrite (elem_nodes_filter x _ _ nid) by by eapply not_on_id.
    unfold nodes. rewrite E. naive_solver.
  - split; [|tauto]. intros H. split; [done|]. intros [-> _]. unfold nodes in H. rewrite E in H. set_solver.
Qed.

Lemma filterMap_ok m vid nid : map_ok m -> map_ok (filterMap nv vid nid m).
Proof. intros Hm. unfold filterMap. destruct (m !! vid) eqn:E; [|done]. by apply map_ok_set_filtered. Qed.

Lemma removeFromMap_spec m nid vid' x :
  map_ok m -> x ∈ nodes (removeFromMap nv nid m) vid' <-> x ∈ nodes m vid' /\ x <> nid.
Proof.
  intros Hm. unfold removeFromMap, nodes. rewrite lookup_omap. destruct (m !! vid') as [locs|] eqn:E; cbn; [|set_solver].
  destruct (Hm _ _ E) as (_ & _ & Hf & _). rewrite <- (elem_nodes_filter x (not_on nv nid) locs nid) by by eapply not_on_id.
  by destruct (List.filter (not_on nv nid) locs).
Qed.

Lemma removeFromMap_ok m nid : map_ok m -> map_ok (removeFromMap nv nid m).
Proof.
  intros Hm vid locs. unfold removeFromMap. rewrite lookup_omap. destruct (m !! vid) as [l0|] eqn:E; cbn; [|done].
  pose proof (entry_ok_filter vid l0 (not_on nv nid) (Hm _ _ E)) as He.
  destruct (List.filter (not_on nv nid) l0); [done|]. intros [= <-]. by apply He.
Qed.

Lemma upsert_same loc p e :
  vl_DataNode loc = Some p -> nv_id nv p <> "" -> loc_id e <> "" ->
  sameDataNode nv e (node_id nv (vl_DataNode loc)) (vl_DataNode loc) = bool_decide (loc_id e = nv_id nv p).
Proof.
  intros -> Hp He. unfold sameDataNode, loc_id, node_id in *. destruct (vl_DataNode e); [|done]. by rewrite decide_True.
Qed.

Lemma elem_upsert loc p locs x :
  vl_DataNode loc = Some p -> nv_id nv p <> "" ->
  Forall (fun l => loc_id l <> "") locs ->
  x ∈ (loc_id <$> upsert nv loc locs) <-> x ∈ (loc_id <$> locs) \/ x = nv_id nv p.
Proof.
  intros Hl Hp. assert (loc_id loc = nv_id nv p) as Hid by (unfold loc_id; by rewrite Hl).
  induction 1 as [|e rest He Hf IH]; cbn [upsert fmap list_fmap]; rewrite ?elem_of_cons, ?Hid; [tauto|].
  rewrite (upsert_same loc p) by done.
  case_bool_decide as Hc; cbn [fmap list_fmap]; rewrite ?elem_of_cons, ?IH, ?Hid, ?Hc; tauto.
Qed.

Lemma upsert_NoDup loc p locs :
  vl_DataNode loc = Some p -> nv_id nv p <> "" -> Forall (fun l => loc_id l <> "") locs ->
  NoDup (loc_id <$> locs) -> NoDup (loc_id <$> upsert nv loc locs).
Proof.
  intros Hl Hp Hf. assert (loc_id loc = nv_id nv p) as Hid by (unfold loc_id; by rewrite Hl).
  induction Hf as [|e rest He Hf IH]; intros Hn; cbn [upsert]; [apply NoDup_singleton|].
  cbn in Hn. apply NoDup_cons in Hn as [Hin Hn]. rewrite (upsert_same loc p) by done.
  case_bool_decide as Hc; cbn; apply NoDup_cons.
  - by rewrite Hid, <- Hc.
  - split; [|auto]. rewrite (elem_upsert loc p) by done. tauto.
Qed.

Lemma upsert_spec m vid loc p vid' x :
  map_ok m -> vl_DataNode loc = Some p -> nv_id nv p <> "" ->
  x ∈ nodes (upsertLocation nv m vid loc) vid' <-> x ∈ nodes m vid' \/ (vid = vid' /\ nv_id nv p = x).
Proof.
  intros Hm Hl Hp. unfold upsertLocation. rewrite nodes_insert.
  destruct (decide (vid' = vid)) as [->|]; [|intuition congruence].
  rewrite (elem_upsert loc p); [unfold nodes; intuition congruence|done..|].
  destruct (m !! vid) eqn:E; [|apply List.Forall_nil]. destruct (Hm _ _ E) as (_ & _ & Hf & _).
  eapply Forall_impl; [exact Hf|]. by intros ? [].
Qed.

Lemma upsert_ok m loc p :
  map_ok m -> vl_VolumeId loc <> 0 -> vl_DataNode loc = Some p -> nv_id nv p <> "" -> map_ok (upsertLocation nv m (vl_VolumeId loc) loc).
Proof.
  intros Hm Hv Hl Hp. apply map_Forall_insert_2; [|done].
  set (locs := default [] (m !! vl_VolumeId loc)).
  assert (Forall (fun l => vl_VolumeId l = vl_VolumeId loc /\ loc_id l <> "") locs /\ NoDup (loc_id <$> locs)) as [Hf Hn].
  { unfold locs. destruct (m !! vl_VolumeId loc) eqn:E; [by destruct (Hm _ _ E) as (_ & _ & ? & ?)|].
    split; [apply List.Forall_nil|apply NoDup_nil_2]. }
  split_and!; [done|..].
  - destruct locs as [|e rest]; [done|]. cbn [upsert]. by destruct (sameDataNode _ _ _ _).
  - clear Hn. induction Hf as [|e rest He Hf IH]; cbn [upsert].
    + apply Forall_singleton. unfold loc_id. by rewrite Hl.
    + destruct (sameDataNode _ _ _ _); apply Forall_cons; split; try done. unfold loc_id. by rewrite Hl.
  - eapply upsert_NoDup; [done..| |done]. eapply Forall_impl; [exact Hf|]. by intros ? [].
Qed.

(** *** The operations on layouts *)

Lemma NewVolumeLayout_represents c r t d : represents (NewVolumeLayout c r t d) ∅.
Proof.
  split.
  - intros []; apply map_Forall_empty.
  - intros [] vid x; cbn [class NewVolumeLayout ly_writable ly_readonly ly_crowded];
      rewrite nodes_empty, lookup_empty; split; [done|by intros ?%not_elem_of_nil|done|by intros ?%not_elem_of_nil|done|by intros ?%not_elem_of_nil].
Qed.

Lemma AddVolumeLayout_represents loc p vl A :
  represents vl A -> vl_DataNode loc = Some p -> nv_id nv p <> "" -> vl_VolumeId loc <> 0 ->
  represents (AddVolumeLayout nv loc vl)
    (<[(vl_VolumeId loc, nv_id nv p) := if vl_isReadOnly loc then ReadOnly else Writable]> A).
Proof.
  intros [Hm HA] Hl Hp Hv. pose proof (Hm Writable) as Hw. pose proof (Hm ReadOnly) as Hr. pose proof (Hm Crowded) as Hc.
  unfold AddVolumeLayout. rewrite decide_False, Hl by done. cbn [class] in *.
  split.
  - intros st. destruct (vl_isReadOnly loc), st; cbn [class set_maps ly_writable ly_readonly ly_crowded];
      eauto using remove_ok, upsert_ok.
  - intros st vid x. rewrite lookup_insert_Some, HA, pair_eq.
    destruct (decide (vl_VolumeId loc = vid /\ nv_id nv p = x)) as [Hk|Hk];
    destruct (vl_isReadOnly loc), st; cbn [class set_maps ly_writable ly_readonly ly_crowded];
      rewrite ?remove_spec, ?(upsert_spec _ _ _ p) by done; intuition congruence.
Qed.

Lemma RemoveDataNodeLocation_represents vid nid vl A :
  represents vl A -> represents (RemoveDataNodeLocation nv vid nid vl) (delete (vid, nid) A).
Proof.
  intros [Hm HA]. split.
  - intros st. pose proof (Hm st). destruct st; by apply filterMap_ok.
  - intros st vid' x. pose proof (Hm st). rewrite lookup_delete_Some, HA.
    destruct st; cbn [class RemoveDataNodeLocation set_maps ly_writable ly_readonly ly_crowded] in *;
      rewrite filterMap_spec, pair_eq by done; tauto.
Qed.

Lemma layout_RemoveDataNode_represents nid vl A :
  represents vl A -> represents (layout_RemoveDataNode nv nid vl) (filter (fun '((_, x), _) => x <> nid) A).
Proof.
  intros [Hm HA]. split.
  - intros st. pose proof (Hm st). destruct st; by apply removeFromMap_ok.
  - intros st vid' x. pose proof (Hm st). rewrite map_lookup_filter_Some, HA.
    destruct st; cbn [class layout_RemoveDataNode set_maps ly_writable ly_readonly ly_crowded] in *;
      by rewrite removeFromMap_spec by done.
Qed.

Lemma RemoveVolumeLocation_represents vid vl A :
  represents vl A -> represents (RemoveVolumeLocation vid vl) (filter (fun '((v, _), _) => v <> vid) A).
Proof.
  intros [Hm HA]. split.
  - intros st. pose proof (Hm st). destruct st; by apply map_Forall_delete.
  - intros st vid' x. rewrite map_lookup_filter_Some, HA.
    destruct st; cbn [class RemoveVolumeLocation set_maps ly_writable ly_readonly ly_crowded] in *;
      rewrite nodes_delete; case_decide as Hd; set_solver.
Qed.

(** The replicas of status [from] of a volume get status [to]; those that had it go. *)
Definition move (vid : Z) (from to : Status) (A : gmap (Z * string) Status) : gmap (Z * string) Status :=
  map_imap (fun '(v, _) s =>
    if decide (v <> vid) then Some s else
    if decide (s = from) then Some to else if decide (s = to) then None else Some s) A.

Definition has (st : Status) (vid : Z) (A : gmap (Z * string) Status) : bool :=
  existsb (fun '((v, _), s) => bool_decide (v = vid /\ s = st)) (map_to_list A).

Lemma move_lookup vid from to A v x st :
  from <> to ->
  move vid from to A !! (v, x) = Some st <->
  (v <> vid /\ A !! (v, x) = Some st) \/
  (v = vid /\ ((st = to /\ A !! (v, x) = Some from) \/ (st <> from /\ st <> to /\ A !! (v, x) = Some st))).
Proof.
  intros Hft. unfold move. rewrite map_lookup_imap. destruct (A !! (v, x)) as [s|]; cbn; [|intuition congruence].
  repeat case_decide; intuition congruence.
Qed.

Lemma has_class st vid vl A :
  represents vl A -> has st vid A = match class st vl !! vid with Some _ => true | None => false end.
Proof.
  intros [Hm HA]. unfold has. apply eq_true_iff_eq. rewrite existsb_exists. split.
  - intros ([[v x] s] & Hin & Hb). cbn beta iota in Hb. apply bool_decide_eq_true in Hb as [-> ->].
    apply list_elem_of_In, elem_of_map_to_list, HA in Hin.
    unfold nodes in Hin. destruct (class st vl !! vid); [done|]. by apply not_elem_of_nil in Hin.
  - destruct (class st vl !! vid) as [[|l locs]|] eqn:E; [|intros _|done].
    + destruct (Hm _ _ _ E) as (_ & Hne & _). done.
    + exists ((vid, loc_id l), st). split; [|by apply bool_decide_eq_true].
      apply list_elem_of_In, elem_of_map_to_list, HA. unfold nodes. rewrite E. cbn. by left.
Qed.

Lemma move_represents vid from to locs vl vl' A :
  represents vl A -> from <> to -> class from vl !! vid = Some locs ->
  class from vl' = delete vid (class from vl) -> class to vl' = <[vid := locs]> (class to vl) ->
  (forall st, st <> from -> st <> to -> class st vl' = class st vl) ->
  represents vl' (move vid from to A).
Proof.
  intros [Hm HA] Hft Hl Ef Et Eo. split.
  - intros st. destruct (decide (st = from)) as [->|Hf]; [rewrite Ef; apply map_Forall_delete, Hm|].
    destruct (decide (st = to)) as [->|Ht]; [|by rewrite Eo by done].
    rewrite Et. apply map_Forall_insert_2; [exact (Hm from _ _ Hl)|apply Hm].
  - intros st v x. rewrite move_lookup, !HA by done.
    assert (nodes (class from vl) vid = loc_id <$> locs) as Hn by (unfold nodes; by rewrite Hl).
    destruct (decide (st = from)) as [->|Hf].
    { rewrite Ef, nodes_delete. case_decide as Hv; [|tauto]. split; [intuition congruence|by intros ?%not_elem_of_nil]. }
    destruct (decide (st = to)) as [->|Ht].
    + rewrite Et, nodes_insert. case_decide as Hv; [subst v; rewrite Hn|]; tauto.
    + rewrite Eo by done. destruct (decide (v = vid)); tauto.
Qed.

Definition abs_SetVolumeWritable (vid : Z) (A : gmap (Z * string) Status) : gmap (Z * string) Status :=
  if has ReadOnly vid A then move vid ReadOnly Writable A
  else if has Crowded vid A then move vid Crowded Writable A else A.

Definition abs_SetVolumeReadOnly (vid : Z) (A : gmap (Z * string) Status) : gmap (Z * string) Status :=
  if has Writable vid A then move vid Writable ReadOnly A
  else if has Crowded vid A then move vid Crowded ReadOnly A else A.

Lemma SetVolumeWritable_represents vid vl A :
  represents vl A -> represents (SetVolumeWritable vid vl) (abs_SetVolumeWritable vid A).
Proof.
  intros HA. unfold SetVolumeWritable, abs_SetVolumeWritable. rewrite !(has_class _ _ vl) by done. cbn [class].
  destruct (ly_readonly vl !! vid) as [locs|] eqn:Er; [|destruct (ly_crowded vl !! vid) as [locs|] eqn:Ec; [|done]];
    (eapply move_represents; [done|done|done|reflexivity|reflexivity|]); by intros [].
Qed.

Lemma SetVolumeReadOnly_represents vid vl A :
  represents vl A -> represents (SetVolumeReadOnly vid vl) (abs_SetVolumeReadOnly vid A).
Proof.
  intros HA. unfold SetVolumeReadOnly, abs_SetVolumeReadOnly. rewrite !(has_class _ _ vl) by done. cbn [class].
  destruct (ly_writable vl !! vid) as [locs|] eqn:Er; [|destruct (ly_crowded vl !! vid) as [locs|] eqn:Ec; [|done]];
    (eapply move_represents; [done|done|done|reflexivity|reflexivity|]); by intros [].
Qed.

(** *** Histories *)

Inductive layout_op :=
| OAdd (loc : VolumeLocation)
| ORemoveVolume (vid : Z)
| ORemoveLocation (vid : Z) (dataNodeId : string)
| ORemoveDataNode (dataNodeId : string)
| OSetWritable (vid : Z)
| OSetReadOnly (vid : Z).

Definition exec_layout (vl : VolumeLayout) (op : layout_op) : VolumeLayout :=
  match op with
  | OAdd loc => AddVolumeLayout nv loc vl
  | ORemoveVolume vid => RemoveVolumeLocation vid vl
  | ORemoveLocation vid nid => RemoveDataNodeLocation nv vid nid vl
  | ORemoveDataNode nid => layout_RemoveDataNode nv nid vl
  | OSetWritable vid => SetVolumeWritable vid vl
  | OSetReadOnly vid => SetVolumeReadOnly vid vl
  end.

Definition abs_layout (A : gmap (Z * string) Status) (op : layout_op) : gmap (Z * string) Status :=
  match op with
  | OAdd loc =>
      if decide (vl_VolumeId loc = 0) then A
      else <[(vl_VolumeId loc, loc_id loc) := if vl_isReadOnly loc then ReadOnly else Writable]> A
  | ORemoveVolume vid => filter (fun '((v, _), _) => v <> vid) A
  | ORemoveLocation vid nid => delete (vid, nid) A
  | ORemoveDataNode nid => filter (fun '((_, x), _) => x <> nid) A
  | OSetWritable vid => abs_SetVolumeWritable vid A
  | OSetReadOnly vid => abs_SetVolumeReadOnly vid A
  end.

(** Locations name their data node. *)
Definition layout_op_wf (op : layout_op) : Prop :=
  match op with OAdd loc => loc_id loc <> "" | _ => True end.

Lemma exec_layout_represents op vl A :
  represents vl A -> layout_op_wf op -> represents (exec_layout vl op) (abs_layout A op).
Proof.
  intros HA Hwf. destruct op as [loc|vid|vid nid|nid|vid|vid]; cbn [exec_layout abs_layout layout_op_wf] in *;
    auto using RemoveVolumeLocation_represents, RemoveDataNodeLocation_represents,
      layout_RemoveDataNode_represents, SetVolumeWritable_represents, SetVolumeReadOnly_represents.
  case_decide as Hv; [unfold AddVolumeLayout; by rewrite decide_True|].
  unfold loc_id, node_id in *. destruct (vl_DataNode loc) as [p|] eqn:E; [|done].
  by apply AddVolumeLayout_represents.
Qed.

(** The statuses that [LookupVolume] prefers to [st]. *)
Definition before (st : Status) : list Status :=
  match st with Writable => [] | ReadOnly => [Writable] | Crowded => [Writable; ReadOnly] end.

(** What a lookup finds: the replicas of one status, when there is one that has a
    replica, each once. *)
Definition lookup_spec (A : gmap (Z * string) Status) (vid : Z) (r : option (list VolumeLocation)) : Prop :=
  match r with
  | Some locs =>
      locs <> [] /\ NoDup (loc_id <$> locs) /\
      exists st, (forall x, x ∈ (loc_id <$> locs) <-> A !! (vid, x) = Some st) /\
        forall st' x, st' ∈ before st -> A !! (vid, x) <> Some st'
  | None => forall x, A !! (vid, x) = None
  end.

Lemma class_None vl A st vid x : represents vl A -> class st vl !! vid = None -> A !! (vid, x) <> Some st.
Proof. intros [_ HA] E. rewrite HA. unfold nodes. rewrite E. apply not_elem_of_nil. Qed.

Lemma class_Some vl A st vid locs :
  represents vl A -> class st vl !! vid = Some locs ->
  locs <> [] /\ NoDup (loc_id <$> locs) /\ forall x, x ∈ (loc_id <$> locs) <-> A !! (vid, x) = Some st.
Proof.
  intros [Hm HA] E. destruct (Hm _ _ _ E) as (_ & ? & _ & ?). split_and!; [done..|].
  intros x. rewrite HA. unfold nodes. by rewrite E.
Qed.

Lemma LookupVolume_spec vl A vid : represents vl A -> lookup_spec A vid (layout_LookupVolume vid vl).
Proof.
  intros HA. unfold layout_LookupVolume.
  pose proof (class_None vl A Writable vid) as Nw. pose proof (class_None vl A ReadOnly vid) as Nr.
  pose proof (class_None vl A Crowded vid) as Nc. cbn [class] in *.
  destruct (ly_writable vl !! vid) eqn:Ew; [|destruct (ly_readonly vl !! vid) eqn:Er;
    [|destruct (ly_crowded vl !! vid) eqn:Ec]]; cbn [lookup_spec].
  - destruct (class_Some vl A Writable vid _ HA Ew) as (? & ? & ?). split_and!; [done..|].
    exists Writable. split; [done|]. by intros st' x ?%not_elem_of_nil.
  - destruct (class_Some vl A ReadOnly vid _ HA Er) as (? & ? & ?). split_and!; [done..|].
    exists ReadOnly. split; [done|]. intros st' x ->%list_elem_of_singleton. by apply Nw.
  - destruct (class_Some vl A Crowded vid _ HA Ec) as (? & ? & ?). split_and!; [done..|].
    exists Crowded. split; [done|]. intros st' x [->| ->%list_elem_of_singleton]%elem_of_cons; [by apply Nw|by apply Nr].
  - intros x. destruct (A !! (vid, x)) as [[]|] eqn:E; [by destruct (Nw x)|by destruct (Nr x)|by destruct (Nc x)|done].
Qed.

(** C39: a volume layout, with its three maps of slices, behaves as one finite map from
    replicas to their status under any sequence of its operations: a registration sets
    the status of one replica, removals remove, and a volume that is set writable or
    read-only loses the replicas that already had that status. A lookup returns the
    replicas of one status only: the read-only ones when there are no writable ones. *)
Theorem VolumeLayout_refines (collection replication ttl diskType : string) (ops : list layout_op) :
  Forall layout_op_wf ops ->
  let vl := fold_left exec_layout ops (NewVolumeLayout collection replication ttl diskType) in
  let A := fold_left abs_layout ops ∅ in
  represents vl A /\ forall vid, lookup_spec A vid (layout_LookupVolume vid vl).
Proof.
  intros Hwf vl A. assert (represents vl A) as HA; [|split; [done|]; intros vid; by apply LookupVolume_spec].
  unfold vl, A. pose proof (NewVolumeLayout_represents collection replication ttl diskType) as H0. revert H0.
  generalize (NewVolumeLayout collection replication ttl diskType), (∅ : gmap (Z * string) Status).
  clear vl A. induction Hwf as [|op ops Hop _ IH]; intros vl A HA; [done|]. cbn [fold_left].
  apply IH. by apply exec_layout_represents.
Qed.

(** *** The choice of a volume for a write *)

(** [order] lists the entries of a map, each once. *)
Definition ranges (order : loc_map -> list (Z * list VolumeLocation)) : Prop :=
  forall m, Permutation (order m) (map_to_list m).

Lemma PickForWrite_Some order opt vl vid locs :
  ranges order -> PickForWrite nv order opt vl = Some (vid, locs) ->
  ly_writable vl !! vid = Some locs /\ vid <> 0 /\ pickable nv opt locs = true.
Proof.
  intros Ho. unfold PickForWrite. destruct (List.find _ _) as [[v ls]|] eqn:E; [|done].
  apply List.find_some in E as [Hin Hp]. case_decide; [done|]. intros [= <- <-]. split; [|done].
  apply elem_of_map_to_list. rewrite <- (Ho (ly_writable vl)). by apply list_elem_of_In.
Qed.

Lemma PickForWrite_None order opt vl A :
  ranges order -> represents vl A -> PickForWrite nv order opt vl = None ->
  forall vid locs, ly_writable vl !! vid = Some locs -> pickable nv opt locs = false.
Proof.
  intros Ho [Hm _] H vid locs Hl. unfold PickForWrite in H.
  destruct (List.find _ _) as [[v ls]|] eqn:E.
  - apply List.find_some in E as [Hin _]. apply list_elem_of_In in Hin. rewrite (Ho (ly_writable vl)) in Hin.
    apply elem_of_map_to_list in Hin. destruct (Hm Writable _ _ Hin) as (Hv & _). by rewrite decide_False in H.
  - apply (List.find_none _ _ E (vid, locs)). apply list_elem_of_In. rewrite (Ho (ly_writable vl)).
    by apply elem_of_map_to_list.
Qed.
End refinement.

(** ** Changes of the data nodes

    The layout depends on the ids of the nodes it lists only. *)

Lemma nodes_ids nv nv' m vid :
  (forall p, nv_id nv p <> "" -> nv_id nv' p = nv_id nv p) -> map_ok nv m -> nodes nv' m vid = nodes nv m vid.
Proof.
  intros Hid Hm. unfold nodes. destruct (m !! vid) as [locs|] eqn:E; [|done]. destruct (Hm _ _ E) as (_ & _ & Hf & _).
  cbn [default id]. clear E. induction Hf as [|l locs [_ Hl] Hf IH]; [done|]. cbn. f_equal; [|done].
  unfold loc_id, node_id in *. destruct (vl_DataNode l); [auto|done].
Qed.

Lemma map_ok_ids nv nv' m :
  (forall p, nv_id nv p <> "" -> nv_id nv' p = nv_id nv p) -> map_ok nv m -> map_ok nv' m.
Proof.
  intros Hid Hm vid locs E. pose proof (nodes_ids nv nv' m vid Hid Hm) as Hn. destruct (Hm _ _ E) as (Hv & Hne & Hf & Hnd).
  unfold nodes in Hn. rewrite E in Hn. cbn [default id] in Hn. split_and!; [done..| |by rewrite Hn].
  eapply Forall_impl; [exact Hf|]. intros l [Hl1 Hl2]. split; [done|].
  unfold loc_id, node_id in *. destruct (vl_DataNode l); [by rewrite Hid|done].
Qed.

Lemma represents_ids nv nv' vl A :
  (forall p, nv_id nv p <> "" -> nv_id nv' p = nv_id nv p) -> represents nv vl A -> represents nv' vl A.
Proof.
  intros Hid [Hm HA]. split; [intros st; by eapply map_ok_ids|].
  intros st vid x. rewrite (nodes_ids nv nv') by done. apply HA.
Qed.

Definition ex_view : node_view :=
  mkView (fun p => match p with 1%nat => "a:1" | _ => "b:1" end) (fun _ => true) (fun _ => "") (fun _ => "")
    (fun _ => ∅) (fun _ => "") (fun _ => "").

(** A replica that turns read-only is hidden from lookups by a writable one. *)
Lemma VolumeLayout_refines_witness :
  let vl := fold_left (exec_layout ex_view)
              [OAdd (mkVolumeLocation (Some 1%nat) 5 0 false); OAdd (mkVolumeLocation (Some 2%nat) 5 0 false);
               OAdd (mkVolumeLocation (Some 2%nat) 5 0 true)] (NewVolumeLayout "" "001" "" "") in
  (exists A, represents ex_view vl A /\ A !! (5, "b:1") = Some ReadOnly) /\
  option_map (map (loc_id ex_view)) (layout_LookupVolume 5 vl) = Some ["a:1"].
Proof.
  split; [|vm_compute; reflexivity]. eexists. split.
  - apply (VolumeLayout_refines ex_view). repeat (apply List.Forall_cons; [vm_compute; congruence|]). apply List.Forall_nil.
  - vm_compute. reflexivity.
Defined.
