(* ===== verification/Topology.v ===== *)
(** * Topology: what the master knows of the cluster

    [topology/topology.go] and the collection of layouts of [volume_layout.go]: the tree
    of nodes, the volume layouts by key, the next volume id, and the processing of
    heartbeats. *)

From stdpp Require Import sorting.
From S2P Require Import Prelude GoStrings Types TopoNode VolumeLayout.

#[local] Open Scope string_scope.

Record Topology := mkTopology {
  t_heap : heap;
  t_layouts : gmap string VolumeLayout;
  t_nextVolumeId : Z;
}.

(** The pointer of the root. *)
Definition root : ptr := 0%nat.

Definition NewTopology (now : Z) : Topology :=
  mkTopology (mkHeap {[root := NewNodeImpl "root" now KRoot]} 1) ∅ 1.

Definition set_heap (h : heap) (t : Topology) : Topology := mkTopology h (t_layouts t) (t_nextVolumeId t).
Definition set_layouts (m : gmap string VolumeLayout) (t : Topology) : Topology :=
  mkTopology (t_heap t) m (t_nextVolumeId t).
Definition set_nextVolumeId (n : Z) (t : Topology) : Topology := mkTopology (t_heap t) (t_layouts t) n.

(** The id of a data node. *)
Definition dn_GetId (h : heap) (p : ptr) : string := match ToDataNode h p with Some _ => GetId h p | None => "" end.

(** The data nodes as the layouts see them. *)
Definition view (now : Z) (h : heap) : node_view :=
  mkView (dn_GetId h) (IsAlive now h) (GetDataCenter h) (GetRack h)
    (fun p => default ∅ (GetFreeVolumeSlots <$> ToDataNode h p))
    (fun p => default "" (dn_url <$> ToDataNode h p))
    (fun p => default "" (dn_publicUrl <$> ToDataNode h p)).

(** ** The collection of layouts *)

(** [fmt.Sprintf("%s:%s:%s:%s", ...)] *)
Definition makeKey (collection replication ttl diskType : string) : string :=
  collection +:+ ":" +:+ replication +:+ ":" +:+ ttl +:+ ":" +:+ diskType.

(** [GetOrCreate]: the layout under the key, and the collection that has it. *)
Definition GetOrCreate (collection replication ttl diskType : string) (m : gmap string VolumeLayout)
  : string * VolumeLayout * gmap string VolumeLayout :=
  let key := makeKey collection replication ttl diskType in
  match m !! key with
  | Some vl => (key, vl, m)
  | None => let vl := NewVolumeLayout collection replication ttl diskType in (key, vl, <[key := vl]> m)
  end.

Definition RemoveVolumeFromDataNode (nv : node_view) (dataNodeId : string) (vid : Z)
  (m : gmap string VolumeLayout) : gmap string VolumeLayout := RemoveDataNodeLocation nv vid dataNodeId <$> m.

Definition RemoveDataNode (nv : node_view) (dataNodeId : string) (m : gmap string VolumeLayout)
  : gmap string VolumeLayout := layout_RemoveDataNode nv dataNodeId <$> m.

(** [LookupVolume] of the collection; [order] is the order of the range over it. *)
Definition LookupVolume (order : gmap string VolumeLayout -> list (string * VolumeLayout)) (nv : node_view)
    (vid : Z) (m : gmap string VolumeLayout) : list PbLocation :=
  concat ((fun '(_, vl) => ToVolumeLocations nv vid vl) <$> order m).

(** ** Volumes *)

Definition setMaxVolumeIDUnsafe (maxVolumeId : Z) (t : Topology) : Topology :=
  if decide (maxVolumeId >= t_nextVolumeId t) then set_nextVolumeId (u32 (maxVolumeId + 1)) t else t.

Definition processVolume (now : Z) (p : ptr) (v : VolumeInfo) (t : Topology) : Topology :=
  let replication := rp_String (ParseReplicaPlacement (u8 (vi_ReplicaPlacement v))) in
  let '(key, vl, m) := GetOrCreate (vi_Collection v) replication (vi_Ttl v) (disk_key (vi_DiskType v)) (t_layouts t) in
  let vl := AddVolumeLayout (view now (t_heap t)) (mkVolumeLocation (Some p) (vi_Id v) 0 (vi_ReadOnly v)) vl in
  setMaxVolumeIDUnsafe (vi_Id v)
    (mkTopology (update_data p (AddOrUpdateVolume v) (t_heap t)) (<[key := vl]> m) (t_nextVolumeId t)).

Definition removeVolume (now : Z) (p : ptr) (vid : Z) (t : Topology) : Topology :=
  let m := RemoveVolumeFromDataNode (view now (t_heap t)) (dn_GetId (t_heap t) p) vid (t_layouts t) in
  mkTopology (update_data p (DeleteVolume vid) (t_heap t)) m (t_nextVolumeId t).

Definition LookupVolumeLocation (order : gmap string VolumeLayout -> list (string * VolumeLayout)) (now vid : Z)
  (t : Topology) : list PbLocation := LookupVolume order (view now (t_heap t)) vid (t_layouts t).

Definition GetVolumeLayout (collection replication ttl diskType : string) (t : Topology) : option VolumeLayout :=
  t_layouts t !! makeKey collection replication ttl diskType.

Definition GetOrCreateVolumeLayout (collection replication ttl diskType : string) (t : Topology)
  : VolumeLayout * Topology :=
  let '(_, vl, m) := GetOrCreate collection replication ttl diskType (t_layouts t) in (vl, set_layouts m t).

Definition HasFreeSpace (now : Z) (collection replication ttl diskType : string) (t : Topology) : bool :=
  match GetVolumeLayout collection replication ttl diskType t with
  | Some vl => layout_HasFreeSpace (view now (t_heap t)) vl
  | None => false
  end.

(** ** Heartbeats *)

Inductive topo_err := ErrNilHeartbeat.

Definition findOrCreateDataNode (now : Z) (dc rack nodeId : string) (h : heap) : option (ptr * heap) :=
  '(pd, h) ← GetOrCreateDataCenter now root dc h;
  '(pr, h) ← GetOrCreateRack now pd rack h;
  GetOrCreateDataNode now pr nodeId h.

(** The ids of the volumes a data node is known to have. *)
Definition known_volumes (h : heap) (p : ptr) : gset Z :=
  match ToDataNode h p with
  | Some d => list_to_set ((fun '(_, v) => vi_Id v) <$> map_to_list (dn_volumes d))
  | None => ∅
  end.

(** The loops of [ProcessJoinMessage] over the volumes and over the deleted ids: the
    topology and the known volumes that are still to be seen. *)
Definition join_volumes (now : Z) (p : ptr) (vs : list VolumeInfo) (s : Topology * gset Z) : Topology * gset Z :=
  fold_left (fun '(t, known) v => (processVolume now p v t, known ∖ {[vi_Id v]})) vs s.
Definition join_deleted (now : Z) (p : ptr) (vids : list Z) (s : Topology * gset Z) : Topology * gset Z :=
  fold_left (fun '(t, known) vid => (removeVolume now p vid t, known ∖ {[vid]})) vids s.

(** The volumes of a heartbeat: those reported are processed, those reported as deleted
    and the known ones that are not reported are removed. [order] is the order of the
    range over the latter. *)
Definition join_body (order : gset Z -> list Z) (now : Z) (p : ptr) (hb : Heartbeat) (t : Topology) : Topology :=
  let s := join_volumes now p (hb_Volumes hb) (t, known_volumes (t_heap t) p) in
  let '(t, known) := join_deleted now p (hb_DeletedVids hb) s in
  let t := fold_left (fun t vid => removeVolume now p vid t) (order known) t in
  if decide (hb_MaxVolumeCounts hb = []) then t
  else set_heap (update_data p (UpdateMaxVolumeCounts (hb_MaxVolumeCounts hb)) (t_heap t)) t.

Definition ProcessJoinMessage (order : gset Z -> list Z) (now : Z) (ohb : option Heartbeat)
  : GoM Topology topo_err unit := fun t =>
  match ohb with
  | None => (Fail ErrNilHeartbeat, t)
  | Some hb =>
      match findOrCreateDataNode now (hb_DataCenter hb) (hb_Rack hb) (NodeIDFromHeartbeat hb) (t_heap t) with
      | None => (Panic, t)
      | Some (p, h) =>
          let h := UpdateLastSeen now p (update_data p (UpdateFromHeartbeat hb) h) in
          (Ret tt, join_body order now p hb (set_heap h t))
      end
  end.

(** ** Walks over the tree

    [forEachNode] with a callback that always continues, as the callers' do. The tree has
    four levels, which is the fuel of the callers. *)
Definition children_of (order : gmap string ptr -> list (string * ptr)) (h : heap) (p : ptr) : list ptr :=
  match h_nodes h !! p with Some n => snd <$> order (n_children n) | None => [] end.

Fixpoint forEachNode {S} (order : gmap string ptr -> list (string * ptr)) (mem : S -> heap) (fuel : nat) (p : ptr)
    (fn : ptr -> S -> S) (s : S) : S :=
  match fuel with
  | O => s
  | Datatypes.S fuel =>
      let s := fn p s in
      fold_left (fun s c => forEachNode order mem fuel c fn s) (children_of order (mem s) p) s
  end.

Definition tree_depth : nat := 4.

(** [candidates[i].GetId() < candidates[j].GetId()] orders the candidates. *)
Definition id_le (h : heap) (p q : ptr) : Prop := String.leb (GetId h p) (GetId h q) = true.
#[export] Instance id_le_dec h : RelDecision (id_le h).
Proof. intros p q. unfold id_le. apply _. Defined.

Definition candidate (now : Z) (diskType : string) (h : heap) (p : ptr) : bool :=
  match ToDataNode h p with
  | Some d => IsAlive now h p && HasFreeSlot diskType d
  | None => false
  end.

Definition AllocateVolumeCandidates (order : gmap string ptr -> list (string * ptr)) (now : Z) (diskType : string)
    (t : Topology) : list ptr :=
  let h := t_heap t in
  merge_sort (id_le h)
    (forEachNode order (fun _ => h) tree_depth root
       (fun p acc => if candidate now diskType h p then (acc ++ [p])%list else acc) []).

(** The callback of [SyncDeadNodeRemoval] on a node. *)
Definition removeDeadNode (now : Z) (p : ptr) (t : Topology) : Topology :=
  let h := t_heap t in
  if IsAlive now h p || bool_decide (GetId h p = "root") then t else
  let t := match ToDataNode h p with
           | Some _ => set_layouts (RemoveDataNode (view now h) (GetId h p) (t_layouts t)) t
           | None => t
           end in
  match GetParent h p with Some q => set_heap (DeleteChild q (GetId h p) (t_heap t)) t | None => t end.

Definition SyncDeadNodeRemoval (order : gmap string ptr -> list (string * ptr)) (now : Z) (t : Topology) : Topology :=
  forEachNode order t_heap tree_depth root (removeDeadNode now) t.

Definition topo_ToProto (order : gmap string ptr -> list (string * ptr)) (t : Topology) : list PbLocation :=
  let h := t_heap t in
  forEachNode order (fun _ => h) tree_depth root
    (fun p acc =>
       match ToDataNode h p with
       | Some d => (acc ++ replicate (size (dn_volumes d))
                      (mkPbLocation (dn_url d) (dn_publicUrl d) (GetDataCenter h p) (GetRack h p)))%list
       | None => acc
       end) [].

(** ** Volume ids *)

(** [NextVolumeId], also the critical section of [AllocateNextVolumeId]. *)
Definition NextVolumeId (t : Topology) : Z * Topology :=
  let t := if decide (t_nextVolumeId t = 0) then set_nextVolumeId 1 t else t in
  let vid := t_nextVolumeId t in
  (vid, set_nextVolumeId (u32 (vid + 1)) t).

(** [AllocateNextVolumeId]; [persist] replicates the id, or is nil. *)
Definition AllocateNextVolumeId {E} (persist : option (Z -> outcome E unit)) : GoM Topology E Z := fun t =>
  let '(vid, t) := NextVolumeId t in
  match persist with
  | None => (Ret vid, t)
  | Some f => match f vid with Ret _ => (Ret vid, t) | Fail e => (Fail e, t) | Panic => (Panic, t) end
  end.

Definition SetMaxVolumeId (maxVolumeId : Z) (t : Topology) : Topology := setMaxVolumeIDUnsafe maxVolumeId t.

Definition GetMaxVolumeId (t : Topology) : Z :=
  if decide (t_nextVolumeId t = 0) then 0 else u32 (t_nextVolumeId t - 1).
