(* ===== verification/TopologySpec.v ===== *)
(** * TopologySpec: the invariant of the topology

    The tree is well typed, so that the type assertions of the code succeed; the counts
    of the disks are right; the layouts represent maps of replicas on data nodes.  Every
    operation keeps this, and heartbeats register exactly what they report. *)

From S2P Require Import Prelude GoStrings Types TopoNode VolumeLayout Topology.

#[local] Open Scope string_scope.

(** ** The tree *)

Definition child_kind (k k' : node_kind) : Prop :=
  match k, k' with
  | KRoot, KDataCenter => True
  | KDataCenter, KRack => True
  | KRack, KDataNode _ => True
  | _, _ => False
  end.

Record heap_ok (h : heap) : Prop := {
  ho_root : exists n, h_nodes h !! root = Some n /\ n_kind n = KRoot;
  ho_fresh : forall p n, h_nodes h !! p = Some n -> (p < h_next h)%nat;
  ho_child : forall p n id c, h_nodes h !! p = Some n -> n_children n !! id = Some c ->
    exists nc, h_nodes h !! c = Some nc /\ n_id nc = id /\ n_parent nc = Some p /\ child_kind (n_kind n) (n_kind nc);
  ho_data : forall p n d, h_nodes h !! p = Some n -> n_kind n = KDataNode d -> n_id n <> "" /\ data_ok d;
}.

Definition child (h : heap) (p : ptr) (id : string) : option ptr := n ← h_nodes h !! p; n_children n !! id.

(** What a new node of a kind must satisfy. *)
Definition fresh_ok (id : string) (k : node_kind) : Prop :=
  match k with KDataNode d => id <> "" /\ data_ok d | _ => True end.

(** [h'] has the nodes of [h], with the same ids, parents and data, and more children. *)
Record heap_ext (h h' : heap) : Prop := {
  he_child : forall q i c, child h q i = Some c -> child h' q i = Some c;
  he_node : forall q n, h_nodes h !! q = Some n ->
    exists n', h_nodes h' !! q = Some n' /\ n_id n' = n_id n /\ n_parent n' = n_parent n /\ n_kind n' = n_kind n;
}.

#[export] Instance heap_ext_preorder : PreOrder heap_ext.
Proof.
  split.
  - intros h. split; [done|]. intros q n H. eauto.
  - intros h1 h2 h3 [Hc1 Hn1] [Hc2 Hn2]. split; [by auto|].
    intros q n (n2 & H2 & <- & <- & <-)%Hn1. apply (Hn2 q n2 H2).
Qed.

Lemma heap_ext_data h h' q d : heap_ext h h' -> ToDataNode h q = Some d -> ToDataNode h' q = Some d /\ GetId h' q = GetId h q.
Proof.
  intros [_ Hn] H. unfold ToDataNode in *. apply bind_Some in H as (n & E & H).
  destruct (Hn q n E) as (n' & E' & Hi & _ & Hk). unfold GetId. rewrite E', E. cbn. rewrite Hi. split; [|done].
  unfold data_of in *. by rewrite Hk.
Qed.

(** A tree with one more node. *)
Definition grown (now : Z) (p : ptr) (n : Node) (id : string) (k : node_kind) (h : heap) : heap :=
  mkHeap (<[h_next h := mkNode id (Some p) ∅ now k]>
           (<[p := with_children (<[id := h_next h]> (n_children n)) n]> (h_nodes h))) (S (h_next h)).

Lemma grown_lookup now p n id k h q :
  h_nodes (grown now p n id k h) !! q =
  if decide (q = h_next h) then Some (mkNode id (Some p) ∅ now k) else
  if decide (q = p) then Some (with_children (<[id := h_next h]> (n_children n)) n) else h_nodes h !! q.
Proof.
  cbn [grown h_nodes]. repeat case_decide; subst; rewrite ?lookup_insert_eq, ?lookup_insert_ne by done; try done.
  by rewrite lookup_insert_eq.
Qed.

Section grown.
Context (now : Z) (p : ptr) (n : Node) (id : string) (k : node_kind) (h : heap).
Context (Hok : heap_ok h) (Hp : h_nodes h !! p = Some n) (Hc : n_children n !! id = None).
Context (Hk : child_kind (n_kind n) k) (Hf : fresh_ok id k).

Lemma next_fresh q nq : h_nodes h !! q = Some nq -> q <> h_next h.
Proof. intros Hq ->. apply (ho_fresh _ Hok) in Hq. lia. Qed.

Lemma grown_node q nq :
  h_nodes h !! q = Some nq ->
  exists nq', h_nodes (grown now p n id k h) !! q = Some nq' /\
    n_id nq' = n_id nq /\ n_parent nq' = n_parent nq /\ n_kind nq' = n_kind nq.
Proof.
  intros Hq. rewrite grown_lookup, decide_False by by eapply next_fresh.
  case_decide as Hd; [|by eauto]. subst q. rewrite Hp in Hq. injection Hq as <-. by eauto.
Qed.

Lemma grown_new : h_nodes (grown now p n id k h) !! h_next h = Some (mkNode id (Some p) ∅ now k).
Proof. by rewrite grown_lookup, decide_True by done. Qed.

Lemma grown_child : child (grown now p n id k h) p id = Some (h_next h).
Proof.
  unfold child. rewrite grown_lookup, decide_False, decide_True by (done || by eapply next_fresh). cbn.
  apply lookup_insert_eq.
Qed.

Lemma grown_ok : heap_ok (grown now p n id k h).
Proof.
  pose proof Hok as [(nr & Hr & Hkr) Hfresh Hchild Hdata]. split.
  - destruct (grown_node root nr Hr) as (nr' & ? & _ & _ & E). rewrite <- E in Hkr. eauto.
  - intros q nq. rewrite grown_lookup. cbn [grown h_next]. repeat case_decide; intros Hq; subst; [lia|..].
    + apply Hfresh in Hp. lia.
    + apply Hfresh in Hq. lia.
  - intros q nq i c Hq Hi. rewrite grown_lookup in Hq.
    assert (forall nq0, h_nodes h !! q = Some nq0 -> n_children nq0 !! i = Some c -> n_kind nq = n_kind nq0 ->
      exists nc, h_nodes (grown now p n id k h) !! c = Some nc /\ n_id nc = i /\ n_parent nc = Some q /\
        child_kind (n_kind nq) (n_kind nc)) as Hold.
    { intros nq0 Hq0 Hi0 ->. destruct (Hchild q nq0 i c Hq0 Hi0) as (nc & Hnc & <- & <- & Hck).
      destruct (grown_node c nc Hnc) as (nc' & ? & Ei & Ep & Ek). exists nc'. by rewrite Ei, Ep, Ek. }
    repeat case_decide; subst; [injection Hq as <-; cbn in Hi; by rewrite lookup_empty in Hi| |by eauto].
    injection Hq as <-. cbn [n_children with_children] in Hi. apply lookup_insert_Some in Hi as [[<- <-]|[_ Hi]]; [|by eauto].
    rewrite grown_new. eexists. split; [done|]. by cbn.
  - intros q nq d. rewrite grown_lookup. repeat case_decide; subst; intros Hq Hkd; try (injection Hq as <-); cbn in *.
    + by subst k.
    + by apply (Hdata p n).
    + by apply (Hdata q nq).
Qed.

Lemma grown_ext : heap_ext h (grown now p n id k h).
Proof.
  split; [|by apply grown_node]. intros q i c. unfold child. intros (nq & Hq & Hi)%bind_Some.
  rewrite grown_lookup, decide_False by by eapply next_fresh. case_decide as Hd; [|by rewrite Hq].
  subst q. rewrite Hp in Hq. injection Hq as <-. cbn. rewrite lookup_insert_ne; [done|]. congruence.
Qed.

Lemma grown_data q d :
  ToDataNode (grown now p n id k h) q = Some d ->
  ToDataNode h q = Some d \/ (q = h_next h /\ k = KDataNode d /\ ToDataNode h q = None).
Proof.
  unfold ToDataNode. rewrite grown_lookup. repeat case_decide; subst; cbn [mbind option_bind]; [|rewrite Hp|]; auto.
  intros Hd. right. split; [done|]. split; [clear -Hd; unfold data_of in Hd; cbn [n_kind] in Hd; destruct k; congruence|].
  destruct (h_nodes h !! h_next h) eqn:E; [|done]. by destruct (next_fresh _ _ E).
Qed.
End grown.

(** Getting or creating a child: the type assertion succeeds. *)
Lemma child_as_spec now p n id k h :
  heap_ok h -> h_nodes h !! p = Some n -> child_kind (n_kind n) k -> fresh_ok id k ->
  exists c h' nc, child_as now p id k h = Some (c, h') /\ heap_ok h' /\ heap_ext h h' /\
    child h' p id = Some c /\ h_nodes h' !! c = Some nc /\ same_kind k nc = true /\ n_id nc = id /\
    (forall q d, ToDataNode h' q = Some d -> ToDataNode h q = Some d \/ (q = c /\ k = KDataNode d /\ ToDataNode h q = None)).
Proof.
  intros Hok Hp Hk Hf. unfold child_as, GetOrCreateChild. rewrite Hp. cbn [mbind option_bind].
  destruct (n_children n !! id) as [c|] eqn:Hc; cbn [mbind option_bind].
  - destruct (ho_child _ Hok p n id c Hp Hc) as (nc & Hnc & Hid & _ & Hkc). rewrite Hnc. cbn [mbind option_bind].
    assert (same_kind k nc = true) as Hs by (unfold same_kind; destruct (n_kind n), k, (n_kind nc); done).
    rewrite Hs. exists c, h, nc. split_and!; try done; [|by auto]. unfold child. by rewrite Hp.
  - fold (grown now p n id k h). rewrite grown_new. cbn [mbind option_bind].
    assert (same_kind k (mkNode id (Some p) ∅ now k) = true) as Hs by (unfold same_kind; by destruct k). rewrite Hs.
    eexists _, _, _. split; [reflexivity|].
    split_and!; eauto using grown_ok, grown_ext, grown_child, grown_new, grown_data.
Qed.

(** The pointer of a data node by its place in the tree. *)
Definition find_node (h : heap) (dc rack id : string) : option ptr :=
  pd ← child h root dc; pr ← child h pd rack; child h pr id.

Lemma find_node_ext h h' dc rack id p : heap_ext h h' -> find_node h dc rack id = Some p -> find_node h' dc rack id = Some p.
Proof.
  intros [Hc _] (pd & H1 & (pr & H2 & H3)%bind_Some)%bind_Some. unfold find_node.
  rewrite (Hc _ _ _ H1). cbn. rewrite (Hc _ _ _ H2). cbn. auto.
Qed.

Lemma findOrCreateDataNode_spec now dc rack nid h :
  heap_ok h -> nid <> "" ->
  exists p h' d, findOrCreateDataNode now dc rack nid h = Some (p, h') /\ heap_ok h' /\ heap_ext h h' /\
    find_node h' dc rack nid = Some p /\ ToDataNode h' p = Some d /\ GetId h' p = nid /\
    (forall q d, ToDataNode h' q = Some d ->
      ToDataNode h q = Some d \/ (q = p /\ d = NewDataNode /\ ToDataNode h q = None)).
Proof.
  intros Hok Hnid. destruct (ho_root _ Hok) as (nr & Hr & Hkr). unfold findOrCreateDataNode.
  destruct (child_as_spec now root nr dc KDataCenter h) as (pd & h1 & nd & E1 & Hok1 & He1 & Hc1 & Hn1 & Hs1 & _ & Hd1);
    [done|done|by rewrite Hkr|done|].
  unfold GetOrCreateDataCenter. rewrite E1. cbn [mbind option_bind].
  destruct (child_as_spec now pd nd rack KRack h1) as (pr & h2 & nk & E2 & Hok2 & He2 & Hc2 & Hn2 & Hs2 & _ & Hd2);
    [done|done|unfold same_kind in Hs1; by destruct (n_kind nd)|done|].
  unfold GetOrCreateRack. rewrite E2. cbn [mbind option_bind].
  destruct (child_as_spec now pr nk nid (KDataNode NewDataNode) h2) as (p & h3 & n & E3 & Hok3 & He3 & Hc3 & Hn3 & Hs3 & Hi3 & Hd3);
    [done|done|unfold same_kind in Hs2; by destruct (n_kind nk)|split; [done|apply NewDataNode_ok]|].
  assert (exists d, ToDataNode h3 p = Some d) as [d Hd].
  { unfold ToDataNode. rewrite Hn3. cbn. unfold same_kind in Hs3. unfold data_of. destruct (n_kind n); by eauto. }
  exists p, h3, d. split; [done|]. split; [done|]. split; [by do 2 (etrans; [done|])|]. split; [|split; [done|split]].
  - unfold find_node. rewrite (he_child _ _ He3 _ _ _ (he_child _ _ He2 _ _ _ Hc1)). cbn.
    by rewrite (he_child _ _ He3 _ _ _ Hc2).
  - unfold GetId. by rewrite Hn3.
  - intros q d' Hq. apply Hd3 in Hq as [Hq|(-> & [= <-] & Hq)].
    + apply Hd2 in Hq as [Hq|(_ & ? & _)]; [|done]. apply Hd1 in Hq as [Hq|(_ & ? & _)]; [by left|done].
    + right. split_and!; [done..|]. destruct (ToDataNode h p) as [d0|] eqn:E0; [|done].
      apply (heap_ext_data _ h2) in E0 as [E0 _]; [congruence|]. by etrans.
Qed.

(** *** Updates of one node *)

Lemma set_node_ok p n n' h :
  heap_ok h -> h_nodes h !! p = Some n -> n_id n' = n_id n -> n_parent n' = n_parent n ->
  n_children n' ⊆ n_children n -> same_kind (n_kind n) n' = true ->
  (forall d, n_kind n' = KDataNode d -> data_ok d) -> heap_ok (set_node p n' h).
Proof.
  intros [Hr Hf Hc Hd] Hp Hi Hpa Hch Hk Hdat.
  assert (forall q nq, h_nodes h !! q = Some nq -> exists nq', h_nodes (set_node p n' h) !! q = Some nq' /\
    n_id nq' = n_id nq /\ n_parent nq' = n_parent nq /\ same_kind (n_kind nq) nq' = true) as Hnode.
  { intros q nq Hq. cbn [set_node h_nodes]. destruct (decide (q = p)) as [->|Hne].
    - rewrite lookup_insert_eq. rewrite Hp in Hq. injection Hq as <-. eauto.
    - rewrite lookup_insert_ne by done. exists nq. split_and!; try done. unfold same_kind. by destruct (n_kind nq). }
  split.
  - destruct Hr as (nr & Hr & Hkr). destruct (Hnode _ _ Hr) as (nr' & ? & _ & _ & Hs). exists nr'. split; [done|].
    unfold same_kind in Hs. rewrite Hkr in Hs. by destruct (n_kind nr').
  - intros q nq. cbn [set_node h_nodes h_next]. intros [[<- <-]|[_ Hq]]%lookup_insert_Some; eauto.
  - intros q nq i c Hq Hi'.
    assert (exists nq0, h_nodes h !! q = Some nq0 /\ n_children nq0 !! i = Some c /\ same_kind (n_kind nq0) nq = true)
      as (nq0 & Hq0 & Hi0 & Hs0).
    { cbn [set_node h_nodes] in Hq. apply lookup_insert_Some in Hq as [[<- <-]|[_ Hq]].
      - exists n. split_and!; [done| |done]. by eapply lookup_weaken.
      - exists nq. split_and!; try done. unfold same_kind. by destruct (n_kind nq). }
    destruct (Hc q nq0 i c Hq0 Hi0) as (nc & Hnc & <- & <- & Hck).
    destruct (Hnode _ _ Hnc) as (nc' & Hnc' & Ei & Ep & Es). exists nc'. split_and!; try done.
    unfold same_kind in *. by destruct (n_kind nq0), (n_kind nq), (n_kind nc), (n_kind nc').
  - intros q nq d. cbn [set_node h_nodes]. intros [[<- <-]|[_ Hq]]%lookup_insert_Some Hkd; [|by eauto].
    split; [|auto]. rewrite Hi. unfold same_kind in Hk. destruct (n_kind n) as [| | |d0] eqn:En; rewrite Hkd in Hk; try done.
    by eapply Hd.
Qed.

(** What the layouts see of a heap does not change. *)
Definition same_ids (h h' : heap) : Prop := forall p, dn_GetId h p <> "" -> dn_GetId h' p = dn_GetId h p.

#[export] Instance same_ids_preorder : PreOrder same_ids.
Proof.
  split; [by intros h p|]. intros h1 h2 h3 H12 H23 p Hp. rewrite H23; [by apply H12|]. by rewrite H12.
Qed.

Lemma heap_ext_ids h h' : heap_ext h h' -> same_ids h h'.
Proof.
  intros He p. unfold dn_GetId. destruct (ToDataNode h p) as [d|] eqn:E; [|done].
  by destruct (heap_ext_data _ _ _ _ He E) as [-> ->].
Qed.

Lemma update_data_lookup p f h q :
  ToDataNode (update_data p f h) q = (if decide (q = p) then f else id) <$> ToDataNode h q.
Proof.
  unfold update_data, ToDataNode. destruct (h_nodes h !! p) as [n|] eqn:E.
  - destruct (n_kind n) as [| | |d] eqn:Ek; cbn [set_node h_nodes]; case_decide as Hd; subst; rewrite ?E; cbn [mbind option_bind];
      rewrite ?lookup_insert_eq, ?lookup_insert_ne by done; cbn [mbind option_bind];
      unfold data_of; cbn [with_data n_kind]; rewrite ?Ek; try done; by destruct (_ ≫= _).
  - case_decide as Hd; [subst; by rewrite E|]. by destruct (_ ≫= _).
Qed.

Lemma update_data_child p f h q i : child (update_data p f h) q i = child h q i.
Proof.
  unfold update_data, child. destruct (h_nodes h !! p) as [n|] eqn:E; [|done].
  destruct (n_kind n); try done. cbn [set_node h_nodes]. destruct (decide (q = p)) as [->|Hd];
    [by rewrite lookup_insert_eq, E|by rewrite lookup_insert_ne].
Qed.

Lemma update_data_id p f h q : GetId (update_data p f h) q = GetId h q.
Proof.
  unfold update_data, GetId. destruct (h_nodes h !! p) as [n|] eqn:E; [|done].
  destruct (n_kind n); try done. cbn [set_node h_nodes]. destruct (decide (q = p)) as [->|Hd];
    [by rewrite lookup_insert_eq, E|by rewrite lookup_insert_ne].
Qed.

Lemma update_data_ids p f h q : dn_GetId (update_data p f h) q = dn_GetId h q.
Proof. unfold dn_GetId. rewrite update_data_lookup, update_data_id. by destruct (ToDataNode h q). Qed.

Lemma update_data_ok p f h :
  heap_ok h -> (forall d, data_ok d -> data_ok (f d)) -> heap_ok (update_data p f h).
Proof.
  intros Hok Hf. unfold update_data. destruct (h_nodes h !! p) as [n|] eqn:E; [|done].
  destruct (n_kind n) as [| | |d] eqn:Ek; try done. eapply set_node_ok; try done.
  - unfold same_kind. cbn. by rewrite Ek.
  - cbn. intros d' [= <-]. apply Hf. by eapply (ho_data _ Hok).
Qed.

Lemma UpdateLastSeen_spec now p h :
  heap_ok h ->
  heap_ok (UpdateLastSeen now p h) /\ (forall q, ToDataNode (UpdateLastSeen now p h) q = ToDataNode h q) /\
  (forall q, GetId (UpdateLastSeen now p h) q = GetId h q) /\
  (forall q i, child (UpdateLastSeen now p h) q i = child h q i).
Proof.
  intros Hok. unfold UpdateLastSeen, ToDataNode, GetId, child. destruct (h_nodes h !! p) as [n|] eqn:E; [|done].
  split; [eapply set_node_ok; try done|].
  - unfold same_kind. cbn. by destruct (n_kind n).
  - cbn. intros d Hd. by eapply (ho_data _ Hok).
  - cbn [set_node h_nodes].
    split_and!; intros q; destruct (decide (q = p)) as [->|]; rewrite ?lookup_insert_eq, ?lookup_insert_ne, ?E by done; done.
Qed.

(** ** The topology *)

Record topo_ok (t : Topology) : Prop := {
  to_heap : heap_ok (t_heap t);
  to_layouts : forall key vl, t_layouts t !! key = Some vl -> exists A, represents (view 0 (t_heap t)) vl A;
}.

(** A layout lists a replica, in any of its maps. *)
Definition lists (nv : node_view) (vl : VolumeLayout) (vid : Z) (x : string) : Prop :=
  exists st, x ∈ nodes nv (class st vl) vid.

(** Some layout lists a replica of the volume on the data node. *)
Definition registered (t : Topology) (vid : Z) (x : string) : Prop :=
  exists key vl, t_layouts t !! key = Some vl /\ lists (view 0 (t_heap t)) vl vid x.

Lemma lists_spec nv vl A vid x : represents nv vl A -> lists nv vl vid x <-> is_Some (A !! (vid, x)).
Proof.
  intros [_ HA]. split.
  - intros [st Hx]. exists st. by apply HA.
  - intros [st Hx]. exists st. by apply HA.
Qed.

Lemma represents_heap now now' h h' vl A :
  same_ids h h' -> represents (view now h) vl A -> represents (view now' h') vl A.
Proof. intros Hid. apply represents_ids, Hid. Qed.

(** The data nodes change, the layouts do not. *)
Lemma with_heap_ok t h' :
  topo_ok t -> heap_ok h' -> same_ids (t_heap t) h' ->
  topo_ok (set_heap h' t) /\ forall vid x, registered (set_heap h' t) vid x <-> registered t vid x.
Proof.
  intros [Hh Hl] Hh' Hid. split.
  - split; [done|]. intros key vl Hk. destruct (Hl key vl Hk) as [A HA]. exists A. by eapply represents_heap.
  - intros vid x. unfold registered. cbn [set_heap t_layouts t_heap].
    assert (forall key vl, t_layouts t !! key = Some vl -> lists (view 0 h') vl vid x <-> lists (view 0 (t_heap t)) vl vid x) as E.
    { intros key vl Hk. destruct (Hl key vl Hk) as [A HA].
      by rewrite !(lists_spec _ vl A) by (done || by eapply represents_heap). }
    split; intros (key & vl & Hk & Hx); exists key, vl; (split; [done|]); by apply (E key).
Qed.

Lemma GetOrCreate_spec c r tt d m key vl m' :
  GetOrCreate c r tt d m = (key, vl, m') ->
  m' = <[key := vl]> m /\ (m !! key = Some vl \/ (m !! key = None /\ vl = NewVolumeLayout c r tt d)).
Proof.
  unfold GetOrCreate. destruct (m !! makeKey c r tt d) as [vl0|] eqn:E; intros [= <- <- <-]; [|by auto].
  rewrite insert_id by done. auto.
Qed.

Lemma AddVolumeLayout_lists nv loc p vl A :
  represents nv vl A -> vl_DataNode loc = Some p -> nv_id nv p <> "" ->
  exists A', represents nv (AddVolumeLayout nv loc vl) A' /\
    forall vid x, is_Some (A' !! (vid, x)) <->
      is_Some (A !! (vid, x)) \/ (vid = vl_VolumeId loc /\ vid <> 0 /\ x = nv_id nv p).
Proof.
  intros HA Hl Hp. destruct (decide (vl_VolumeId loc = 0)) as [E|Hv].
  - exists A. unfold AddVolumeLayout. rewrite decide_True by done. split; [done|]. intuition congruence.
  - eexists. split; [by eapply AddVolumeLayout_represents|]. intros vid x. rewrite lookup_insert_is_Some, pair_eq.
    destruct (decide (vl_VolumeId loc = vid /\ nv_id nv p = x)) as [Hk|Hk]; intuition congruence.
Qed.

Lemma setMax_ok v t : topo_ok t -> topo_ok (setMaxVolumeIDUnsafe v t).
Proof. intros [Hh Hl]. unfold setMaxVolumeIDUnsafe. case_decide; by split. Qed.

Lemma setMax_registered v t vid x : registered (setMaxVolumeIDUnsafe v t) vid x <-> registered t vid x.
Proof. unfold setMaxVolumeIDUnsafe. by case_decide. Qed.

Lemma setMax_heap v t : t_heap (setMaxVolumeIDUnsafe v t) = t_heap t.
Proof. unfold setMaxVolumeIDUnsafe. by case_decide. Qed.

(** One layout changes. *)
Lemma set_layout_ok t key vl A0 vl' A' :
  topo_ok t -> represents (view 0 (t_heap t)) vl A0 ->
  (t_layouts t !! key = Some vl \/ (t_layouts t !! key = None /\ A0 = ∅)) ->
  represents (view 0 (t_heap t)) vl' A' ->
  topo_ok (set_layouts (<[key := vl']> (t_layouts t)) t) /\
  ((forall vid x, is_Some (A0 !! (vid, x)) -> is_Some (A' !! (vid, x))) ->
   forall vid x, registered (set_layouts (<[key := vl']> (t_layouts t)) t) vid x <->
     registered t vid x \/ is_Some (A' !! (vid, x))).
Proof.
  intros [Hh Hl] H0 Hk H'. split.
  - split; [done|]. intros key' vl0. cbn [set_layouts t_layouts]. intros [[<- <-]|[_ ?]]%lookup_insert_Some; eauto.
  - intros Hsub vid x. unfold registered. cbn [set_layouts t_layouts t_heap].
    rewrite <- (lists_spec _ vl' A') by done. split.
    + intros (key' & vl0 & [[<- <-]|[_ ?]]%lookup_insert_Some & Hx); [by right|by left; eauto].
    + intros [(key' & vl0 & Hk' & Hx)|Hx]; [|exists key, vl'; by rewrite lookup_insert_eq].
      destruct (decide (key' = key)) as [->|Hne]; [|exists key', vl0; by rewrite lookup_insert_ne].
      exists key, vl'. rewrite lookup_insert_eq. split; [done|]. destruct Hk as [Hk|[Hk _]]; [|congruence].
      rewrite Hk in Hk'. injection Hk' as <-. rewrite (lists_spec _ vl A0) in Hx by done.
      rewrite (lists_spec _ vl' A') by done. auto.
Qed.

Lemma dn_GetId_data h p d : heap_ok h -> ToDataNode h p = Some d -> dn_GetId h p = GetId h p /\ GetId h p <> "".
Proof.
  intros Hok Hd. unfold dn_GetId. rewrite Hd. split; [done|]. unfold ToDataNode in Hd.
  apply bind_Some in Hd as (n & Hn & Hk). unfold GetId. rewrite Hn. cbn.
  unfold data_of in Hk. destruct (n_kind n) eqn:E; try done. by eapply (ho_data _ Hok).
Qed.

Lemma processVolume_spec now p v d t :
  topo_ok t -> ToDataNode (t_heap t) p = Some d ->
  let t' := processVolume now p v t in
  topo_ok t' /\ t_heap t' = update_data p (AddOrUpdateVolume v) (t_heap t) /\
  forall vid x, registered t' vid x <->
    registered t vid x \/ (vid = vi_Id v /\ vid <> 0 /\ x = GetId (t_heap t) p).
Proof.
  intros Hok Hd. unfold processVolume.
  destruct (GetOrCreate _ _ _ _ _) as [[key vl] m] eqn:EG. apply GetOrCreate_spec in EG as [-> Hk].
  set (loc := mkVolumeLocation (Some p) (vi_Id v) 0 (vi_ReadOnly v)).
  destruct (dn_GetId_data _ p d (to_heap _ Hok) Hd) as [Hid Hne].
  assert (exists A0, represents (view 0 (t_heap t)) vl A0 /\
    (t_layouts t !! key = Some vl \/ (t_layouts t !! key = None /\ A0 = ∅))) as (A0 & HA0 & Hk0).
  { destruct Hk as [Hk|[Hk ->]]; [destruct (to_layouts _ Hok _ _ Hk); eauto|].
    exists ∅. split; [apply NewVolumeLayout_represents|by right]. }
  destruct (AddVolumeLayout_lists (view 0 (t_heap t)) loc p vl A0 HA0 eq_refl) as (A' & HA' & Hx);
    [cbn; by rewrite Hid|]. cbn [view nv_id loc vl_VolumeId] in Hx. rewrite Hid in Hx.
  destruct (set_layout_ok t key vl A0 _ A' Hok HA0 Hk0 HA') as [Hok1 Hreg1].
  specialize (Hreg1 (fun vid x H => proj2 (Hx vid x) (or_introl H))).
  set (t1 := set_layouts (<[key := AddVolumeLayout (view 0 (t_heap t)) loc vl]> (t_layouts t)) t) in *.
  destruct (with_heap_ok t1 (update_data p (AddOrUpdateVolume v) (t_heap t))) as [Hok2 Hreg2]; [done| |..].
  { apply update_data_ok; [apply Hok|]. intros; by apply AddOrUpdateVolume_ok. }
  { intros q _. apply update_data_ids. }
  rewrite insert_insert_eq. split; [|split].
  - by apply setMax_ok.
  - by rewrite setMax_heap.
  - intros vid x. rewrite setMax_registered. etrans; [exact (Hreg2 vid x)|]. rewrite (Hreg1 vid x), Hx.
    assert (is_Some (A0 !! (vid, x)) -> registered t vid x) as Hin.
    { intros Hs. destruct Hk0 as [Hk0|[_ ->]]; [|rewrite lookup_empty in Hs; by destruct Hs].
      exists key, vl. split; [done|]. by apply (lists_spec _ _ A0). }
    tauto.
Qed.

Lemma removeVolume_spec now p vid d t :
  topo_ok t -> ToDataNode (t_heap t) p = Some d ->
  let t' := removeVolume now p vid t in
  topo_ok t' /\ t_heap t' = update_data p (DeleteVolume vid) (t_heap t) /\
  forall vid' x, registered t' vid' x <-> registered t vid' x /\ ~ (vid' = vid /\ x = GetId (t_heap t) p).
Proof.
  intros Hok Hd. destruct (dn_GetId_data _ p d (to_heap _ Hok) Hd) as [Hid Hne].
  unfold removeVolume. rewrite Hid. set (nid := GetId (t_heap t) p) in *.
  set (t1 := set_layouts (RemoveVolumeFromDataNode (view now (t_heap t)) nid vid (t_layouts t)) t).
  assert (forall key vl, t_layouts t !! key = Some vl -> exists A, represents (view 0 (t_heap t)) vl A /\
    represents (view 0 (t_heap t)) (RemoveDataNodeLocation (view now (t_heap t)) vid nid vl) (delete (vid, nid) A)) as Hrem.
  { intros key vl Hk. destruct (to_layouts _ Hok _ _ Hk) as [A HA]. exists A. split; [done|].
    eapply (represents_heap now); [reflexivity|]. apply RemoveDataNodeLocation_represents.
    by eapply (represents_heap 0); [reflexivity|]. }
  assert (topo_ok t1) as Hok1.
  { split; [apply Hok|]. intros key vl. unfold t1, RemoveVolumeFromDataNode. cbn [set_layouts t_layouts].
    rewrite lookup_fmap. intros (vl0 & Hk & ->)%fmap_Some. destruct (Hrem _ _ Hk) as (A & _ & HA). eauto. }
  destruct (with_heap_ok t1 (update_data p (DeleteVolume vid) (t_heap t))) as [Hok2 Hreg2]; [done| |..].
  { apply update_data_ok; [apply Hok|]. intros; by apply DeleteVolume_ok. }
  { intros q _. apply update_data_ids. }
  split; [exact Hok2|]. split; [done|]. intros vid' x. etrans; [exact (Hreg2 vid' x)|].
  unfold registered, t1, RemoveVolumeFromDataNode. cbn [set_layouts t_layouts t_heap]. split.
  - intros (key & vl & Hk & Hx). rewrite lookup_fmap in Hk. apply fmap_Some in Hk as (vl0 & Hk & ->).
    destruct (Hrem _ _ Hk) as (A & HA & HA'). rewrite (lists_spec _ _ _ _ _ HA'), lookup_delete_is_Some, pair_eq in Hx.
    split; [|intros [-> ->]; tauto]. exists key, vl0. split; [done|]. by apply (lists_spec _ _ A), Hx.
  - intros [(key & vl0 & Hk & Hx) Hn]. exists key, (RemoveDataNodeLocation (view now (t_heap t)) vid nid vl0).
    rewrite lookup_fmap, Hk. split; [done|]. destruct (Hrem _ _ Hk) as (A & HA & HA').
    rewrite (lists_spec _ _ _ _ _ HA'), lookup_delete_is_Some, pair_eq. rewrite (lists_spec _ _ A) in Hx by done.
    split; [|done]. intros [-> ->]. tauto.
Qed.

(** ** Heartbeats *)

(** Only the data of [p] changes. *)
Record frame (p : ptr) (h h' : heap) : Prop := {
  fr_id : forall q, GetId h' q = GetId h q;
  fr_child : forall q i, child h' q i = child h q i;
  fr_other : forall q, q <> p -> ToDataNode h' q = ToDataNode h q;
}.

#[export] Instance frame_preorder p : PreOrder (frame p).
Proof.
  split; [by intros h|]. intros h1 h2 h3 [Hi1 Hc1 Ho1] [Hi2 Hc2 Ho2].
  split; [intros q; by rewrite Hi2|intros q i; by rewrite Hc2|intros q Hq; by rewrite Ho2, Ho1].
Qed.

Lemma update_data_frame p f h : frame p h (update_data p f h).
Proof.
  split; [intros; apply update_data_id|intros; apply update_data_child|].
  intros q Hq. rewrite update_data_lookup, decide_False by done. by destruct (ToDataNode h q).
Qed.

Definition has_volume (h : heap) (p : ptr) (vid : Z) : Prop :=
  exists d v, ToDataNode h p = Some d /\ dn_volumes d !! vid = Some v.

Lemma has_volume_data h p d vid : ToDataNode h p = Some d -> has_volume h p vid <-> is_Some (dn_volumes d !! vid).
Proof. intros Hd. unfold has_volume, is_Some. rewrite Hd. naive_solver. Qed.

(** A step of a heartbeat: the data node stays, volumes are added to it or removed. *)
Record join_step (p : ptr) (t t' : Topology) : Prop := {
  js_ok : topo_ok t';
  js_frame : frame p (t_heap t) (t_heap t');
  js_data : is_Some (ToDataNode (t_heap t') p);
}.

Lemma join_step_trans p t1 t2 t3 : join_step p t1 t2 -> join_step p t2 t3 -> join_step p t1 t3.
Proof. intros [] []. split; [done|by etrans|done]. Qed.

Lemma processVolume_step now p v t :
  topo_ok t -> is_Some (ToDataNode (t_heap t) p) ->
  let t' := processVolume now p v t in
  join_step p t t' /\
  (forall vid, has_volume (t_heap t') p vid <-> has_volume (t_heap t) p vid \/ vid = vi_Id v) /\
  (forall vid x, registered t' vid x <->
    registered t vid x \/ (vid = vi_Id v /\ vid <> 0 /\ x = GetId (t_heap t) p)).
Proof.
  intros Hok [d Hd] t'. destruct (processVolume_spec now p v d t Hok Hd) as (Hok' & Eh & Hreg). fold t' in Hok', Eh, Hreg.
  assert (ToDataNode (t_heap t') p = Some (AddOrUpdateVolume v d)) as Hd'.
  { rewrite Eh, update_data_lookup, decide_True, Hd by done. done. }
  split; [|split; [|done]].
  - split; [done|rewrite Eh; apply update_data_frame|by eauto].
  - intros vid. rewrite (has_volume_data _ _ _ _ Hd), (has_volume_data _ _ _ _ Hd').
    rewrite AddOrUpdateVolume_volumes, lookup_insert_is_Some. destruct (decide (vid = vi_Id v)); naive_solver.
Qed.

Lemma removeVolume_step now p vid t :
  topo_ok t -> is_Some (ToDataNode (t_heap t) p) ->
  let t' := removeVolume now p vid t in
  join_step p t t' /\
  (forall vid', has_volume (t_heap t') p vid' <-> has_volume (t_heap t) p vid' /\ vid' <> vid) /\
  (forall vid' x, registered t' vid' x <-> registered t vid' x /\ ~ (vid' = vid /\ x = GetId (t_heap t) p)).
Proof.
  intros Hok [d Hd] t'. destruct (removeVolume_spec now p vid d t Hok Hd) as (Hok' & Eh & Hreg). fold t' in Hok', Eh, Hreg.
  assert (ToDataNode (t_heap t') p = Some (DeleteVolume vid d)) as Hd'.
  { rewrite Eh, update_data_lookup, decide_True, Hd by done. done. }
  split; [|split; [|done]].
  - split; [done|rewrite Eh; apply update_data_frame|by eauto].
  - intros vid'. rewrite (has_volume_data _ _ _ _ Hd), (has_volume_data _ _ _ _ Hd').
    rewrite DeleteVolume_volumes, lookup_delete_is_Some. naive_solver.
Qed.

Lemma join_volumes_spec now p vs t k :
  topo_ok t -> is_Some (ToDataNode (t_heap t) p) ->
  let '(t', k') := join_volumes now p vs (t, k) in
  join_step p t t' /\
  (forall z, z ∈ k' <-> z ∈ k /\ z ∉ (vi_Id <$> vs)) /\
  (forall vid, has_volume (t_heap t') p vid <-> has_volume (t_heap t) p vid \/ vid ∈ (vi_Id <$> vs)) /\
  (forall vid x, registered t' vid x <->
    registered t vid x \/ (vid ∈ (vi_Id <$> vs) /\ vid <> 0 /\ x = GetId (t_heap t) p)).
Proof.
  unfold join_volumes. revert t k. induction vs as [|v vs IH]; intros t k Hok Hd; cbn [fold_left].
  - split_and!; [by split| |..]; cbn; intros; set_solver.
  - destruct (processVolume_step now p v t Hok Hd) as (Hst & Hv & Hr).
    specialize (IH (processVolume now p v t) (k ∖ {[vi_Id v]}) (js_ok _ _ _ Hst) (js_data _ _ _ Hst)).
    destruct (fold_left _ _ _) as [t' k']. destruct IH as (Hst' & Hk & Hv' & Hr').
    split_and!; [by eapply join_step_trans|..].
    + intros z. rewrite Hk. cbn. set_solver.
    + intros vid. rewrite Hv', Hv. cbn. set_solver.
    + intros vid x. rewrite Hr', Hr, (fr_id _ _ _ (js_frame _ _ _ Hst)). cbn [fmap list_fmap]. rewrite elem_of_cons. tauto.
Qed.

Lemma remove_volumes_spec now p vids t :
  topo_ok t -> is_Some (ToDataNode (t_heap t) p) ->
  let t' := fold_left (fun t vid => removeVolume now p vid t) vids t in
  join_step p t t' /\
  (forall vid, has_volume (t_heap t') p vid <-> has_volume (t_heap t) p vid /\ vid ∉ vids) /\
  (forall vid x, registered t' vid x <-> registered t vid x /\ ~ (vid ∈ vids /\ x = GetId (t_heap t) p)).
Proof.
  revert t. induction vids as [|v vids IH]; intros t Hok Hd; cbn [fold_left].
  - split_and!; [by split|..]; intros; set_solver.
  - destruct (removeVolume_step now p v t Hok Hd) as (Hst & Hv & Hr).
    destruct (IH (removeVolume now p v t) (js_ok _ _ _ Hst) (js_data _ _ _ Hst)) as (Hst' & Hv' & Hr').
    split_and!; [by eapply join_step_trans|..].
    + intros vid. rewrite Hv', Hv. set_solver.
    + intros vid x. rewrite Hr', Hr, (fr_id _ _ _ (js_frame _ _ _ Hst)). rewrite elem_of_cons. tauto.
Qed.

Lemma join_deleted_split now p vids t k :
  join_deleted now p vids (t, k) =
  (fold_left (fun t vid => removeVolume now p vid t) vids t, fold_left (fun k vid => k ∖ {[vid]}) vids k).
Proof. unfold join_deleted. revert t k. induction vids as [|v vids IH]; intros t k; [done|]. cbn. by rewrite IH. Qed.

Lemma fold_difference (vids : list Z) (k : gset Z) z :
  z ∈ fold_left (fun k vid => k ∖ {[vid]}) vids k <-> z ∈ k /\ z ∉ vids.
Proof. revert k. induction vids as [|v vids IH]; intros k; cbn [fold_left]; [|rewrite IH]; set_solver. Qed.

Lemma known_volumes_spec h p z : heap_ok h -> z ∈ known_volumes h p <-> has_volume h p z.
Proof.
  intros Hok. unfold known_volumes, has_volume. destruct (ToDataNode h p) as [d|] eqn:E.
  - assert (data_ok d) as [_ Hi _].
    { unfold ToDataNode in E. apply bind_Some in E as (n & Hn & Hk). unfold data_of in Hk.
      destruct (n_kind n) eqn:Ek; simplify_eq. by eapply (ho_data _ Hok). }
    rewrite elem_of_list_to_set, list_elem_of_fmap. split.
    + intros ([k v] & -> & Hin%elem_of_map_to_list). exists d, v. split; [done|]. by rewrite (Hi _ _ Hin).
    + intros (d' & v & [= <-] & Hv). exists (z, v). split; [by rewrite (Hi _ _ Hv)|]. by apply elem_of_map_to_list.
  - split; [set_solver|naive_solver].
Qed.

(** The volumes that a heartbeat reports, without those it reports as deleted. *)
Definition reports (hb : Heartbeat) (vid : Z) : Prop :=
  vid ∈ (vi_Id <$> hb_Volumes hb) /\ vid <> 0 /\ vid ∉ hb_DeletedVids hb.

(** [order] lists the elements of a set. *)
Definition set_order (order : gset Z -> list Z) : Prop := forall s z, z ∈ order s <-> z ∈ s.

(** The pointer, and what a heartbeat does around it. *)
Record join_effect (hb : Heartbeat) (p : ptr) (t t' : Topology) : Prop := {
  je_find : find_node (t_heap t') (hb_DataCenter hb) (hb_Rack hb) (NodeIDFromHeartbeat hb) = Some p;
  je_id : GetId (t_heap t') p = NodeIDFromHeartbeat hb;
  je_data : is_Some (ToDataNode (t_heap t') p);
  je_mono : forall dc rack id q, find_node (t_heap t) dc rack id = Some q -> find_node (t_heap t') dc rack id = Some q;
  je_ids : forall q, is_Some (ToDataNode (t_heap t) q) -> GetId (t_heap t') q = GetId (t_heap t) q;
  je_other : forall q, q <> p -> ToDataNode (t_heap t') q = ToDataNode (t_heap t) q;
  je_volumes : forall vid, has_volume (t_heap t') p vid <-> vid ∈ (vi_Id <$> hb_Volumes hb) /\ vid ∉ hb_DeletedVids hb;
  je_rest : forall vid x, x <> NodeIDFromHeartbeat hb -> registered t' vid x <-> registered t vid x;
  je_reg : forall vid, registered t' vid (NodeIDFromHeartbeat hb) <->
    reports hb vid \/ (registered t vid (NodeIDFromHeartbeat hb) /\ vid ∉ hb_DeletedVids hb /\
      (vid ∈ (vi_Id <$> hb_Volumes hb) \/ ~ has_volume (t_heap t) p vid));
}.

Lemma NodeID_nonempty hb : NodeIDFromHeartbeat hb <> "".
Proof. unfold NodeIDFromHeartbeat. case_decide; by destruct (hb_Ip hb). Qed.

(** The data node of a heartbeat, before its volumes are processed. *)
Lemma join_node now hb t :
  topo_ok t ->
  exists p h, findOrCreateDataNode now (hb_DataCenter hb) (hb_Rack hb) (NodeIDFromHeartbeat hb) (t_heap t) = Some (p, h) /\
    let h' := UpdateLastSeen now p (update_data p (UpdateFromHeartbeat hb) h) in
    heap_ok h' /\ same_ids (t_heap t) h' /\ find_node h' (hb_DataCenter hb) (hb_Rack hb) (NodeIDFromHeartbeat hb) = Some p /\
    GetId h' p = NodeIDFromHeartbeat hb /\ is_Some (ToDataNode h' p) /\
    (forall dc rack id q, find_node (t_heap t) dc rack id = Some q -> find_node h' dc rack id = Some q) /\
    (forall q, is_Some (ToDataNode (t_heap t) q) -> GetId h' q = GetId (t_heap t) q) /\
    (forall q, q <> p -> ToDataNode h' q = ToDataNode (t_heap t) q) /\
    (forall vid, has_volume h' p vid <-> has_volume (t_heap t) p vid).
Proof.
  intros Hok. destruct (findOrCreateDataNode_spec now (hb_DataCenter hb) (hb_Rack hb) (NodeIDFromHeartbeat hb) (t_heap t))
    as (p & h & d & E & Hh & He & Hf & Hd & Hid & Hnew); [apply Hok|apply NodeID_nonempty|].
  exists p, h. split; [done|]. set (h1 := update_data p (UpdateFromHeartbeat hb) h).
  assert (heap_ok h1) as Hh1 by (apply update_data_ok; [done|intros; by apply UpdateFromHeartbeat_ok]).
  destruct (UpdateLastSeen_spec now p h1 Hh1) as (Hh2 & Hd2 & Hi2 & Hc2). cbv zeta. set (h2 := UpdateLastSeen now p h1) in *.
  assert (forall q i, child h2 q i = child h q i) as Hch by (intros q i; rewrite Hc2; apply update_data_child).
  assert (forall dc rack id, find_node h2 dc rack id = find_node h dc rack id) as Hfind.
  { intros dc rack id. unfold find_node. rewrite Hch. destruct (child h root dc) as [pd|]; [|done].
    cbn. rewrite Hch. destruct (child h pd rack); [|done]. cbn. by rewrite Hch. }
  assert (forall q, ToDataNode h2 q = (if decide (q = p) then UpdateFromHeartbeat hb else id) <$> ToDataNode h q) as Hdat
    by (intros q; rewrite Hd2; apply update_data_lookup).
  assert (forall q, GetId h2 q = GetId h q) as Hids by (intros q; rewrite Hi2; apply update_data_id).
  split_and!; try done.
  - etrans; [by apply heap_ext_ids|]. intros q _. unfold dn_GetId. rewrite Hdat, Hids. by destruct (ToDataNode h q).
  - by rewrite Hfind.
  - by rewrite Hids.
  - rewrite Hdat, Hd. by eauto.
  - intros dc rack i q Hq. rewrite Hfind. by eapply find_node_ext.
  - intros q [d' Hq]. rewrite Hids. by destruct (heap_ext_data _ _ _ _ He Hq).
  - intros q Hq. rewrite Hdat, decide_False by done. destruct (ToDataNode h q) as [d'|] eqn:Eq; cbn.
    + by destruct (Hnew q d' Eq) as [->|(? & _)].
    + destruct (ToDataNode (t_heap t) q) eqn:E0; [|done]. apply (heap_ext_data _ h) in E0 as [E0 _]; congruence.
  - intros vid. rewrite (has_volume_data h2 p (UpdateFromHeartbeat hb d)); [|rewrite Hdat, decide_True, Hd; done].
    rewrite UpdateFromHeartbeat_volumes. destruct (Hnew p d Hd) as [Hold|(_ & -> & Hnone)].
    + by rewrite (has_volume_data _ _ _ _ Hold).
    + cbn. rewrite lookup_empty. split; [by intros []|]. intros (d' & v & ? & _). congruence.
Qed.

Lemma max_counts_step p mcs t :
  topo_ok t -> is_Some (ToDataNode (t_heap t) p) ->
  let t' := if decide (mcs = []) then t else set_heap (update_data p (UpdateMaxVolumeCounts mcs) (t_heap t)) t in
  join_step p t t' /\ (forall vid, has_volume (t_heap t') p vid <-> has_volume (t_heap t) p vid) /\
  (forall vid x, registered t' vid x <-> registered t vid x).
Proof.
  intros Hok [d Hd]. cbv zeta. case_decide; [split_and!; [split; by eauto|done..]|].
  set (h := update_data p (UpdateMaxVolumeCounts mcs) (t_heap t)).
  destruct (with_heap_ok t h Hok) as [Hok' Hr].
  { apply update_data_ok; [apply Hok|]. intros; by apply UpdateMaxVolumeCounts_ok. }
  { intros q _. apply update_data_ids. }
  assert (ToDataNode h p = Some (UpdateMaxVolumeCounts mcs d)) as Hd'
    by (unfold h; rewrite update_data_lookup, decide_True, Hd; done).
  split; [split; [done|apply update_data_frame|by eauto]|]. split; [|done]. intros vid.
  rewrite (has_volume_data _ _ _ _ Hd), (has_volume_data _ _ _ _ Hd').
  by rewrite (proj1 (UpdateMaxVolumeCounts_spec _ _)).
Qed.

(** The loops of a heartbeat together. *)
Lemma join_body_spec order now p hb t :
  topo_ok t -> is_Some (ToDataNode (t_heap t) p) -> set_order order ->
  let t' := join_body order now p hb t in
  join_step p t t' /\
  (forall vid, has_volume (t_heap t') p vid <-> vid ∈ (vi_Id <$> hb_Volumes hb) /\ vid ∉ hb_DeletedVids hb) /\
  (forall vid x, registered t' vid x <->
    (registered t vid x \/ (vid ∈ (vi_Id <$> hb_Volumes hb) /\ vid <> 0 /\ x = GetId (t_heap t) p)) /\
    (x = GetId (t_heap t) p -> vid ∉ hb_DeletedVids hb /\
      (has_volume (t_heap t) p vid -> vid ∈ (vi_Id <$> hb_Volumes hb)))).
Proof.
  intros Hok Hd Hord. unfold join_body.
  pose proof (join_volumes_spec now p (hb_Volumes hb) t (known_volumes (t_heap t) p) Hok Hd) as Hjv.
  destruct (join_volumes _ _ _ _) as [t2 k2]. destruct Hjv as (Hst2 & Hk2 & Hv2 & Hr2).
  rewrite join_deleted_split. set (k3 := fold_left _ (hb_DeletedVids hb) k2).
  destruct (remove_volumes_spec now p (hb_DeletedVids hb) t2 (js_ok _ _ _ Hst2) (js_data _ _ _ Hst2)) as (Hst3 & Hv3 & Hr3).
  set (t3 := fold_left _ (hb_DeletedVids hb) t2) in *.
  destruct (remove_volumes_spec now p (order k3) t3 (js_ok _ _ _ Hst3) (js_data _ _ _ Hst3)) as (Hst4 & Hv4 & Hr4).
  set (t4 := fold_left _ (order k3) t3) in *.
  destruct (max_counts_step p (hb_MaxVolumeCounts hb) t4 (js_ok _ _ _ Hst4) (js_data _ _ _ Hst4)) as (Hst5 & Hv5 & Hr5).
  cbv zeta. set (t5 := if decide (hb_MaxVolumeCounts hb = []) then t4 else _) in *.
  assert (join_step p t t5) as Hst by (do 3 (eapply join_step_trans; [done|]); done).
  assert (forall vid, vid ∈ order k3 <-> has_volume (t_heap t) p vid /\ vid ∉ (vi_Id <$> hb_Volumes hb) /\ vid ∉ hb_DeletedVids hb) as Hk.
  { intros vid. rewrite (Hord k3). unfold k3. rewrite fold_difference, Hk2, known_volumes_spec by apply Hok. tauto. }
  split; [done|]. split.
  - intros vid. rewrite Hv5, Hv4, Hv3, Hv2, Hk. destruct (decide (vid ∈ (vi_Id <$> hb_Volumes hb))); tauto.
  - intros vid x. rewrite Hr5, Hr4, Hr3, Hr2, Hk.
    rewrite (fr_id _ _ _ (js_frame _ _ _ Hst3)), (fr_id _ _ _ (js_frame _ _ _ Hst2)).
    destruct (decide (vid ∈ (vi_Id <$> hb_Volumes hb))), (decide (x = GetId (t_heap t) p)),
      (decide (vid ∈ hb_DeletedVids hb)); tauto.
Qed.

Lemma ProcessJoinMessage_spec order now hb t :
  topo_ok t -> set_order order ->
  exists p t', ProcessJoinMessage order now (Some hb) t = (Ret tt, t') /\ topo_ok t' /\ join_effect hb p t t'.
Proof.
  intros Hok Hord. destruct (join_node now hb t Hok) as (p & h & E & Hh & Hsame & Hf & Hid & Hd & Hmono & Hids & Hother & Hvol).
  unfold ProcessJoinMessage. rewrite E. cbv zeta in *.
  set (h1 := UpdateLastSeen now p (update_data p (UpdateFromHeartbeat hb) h)) in *.
  destruct (with_heap_ok t h1 Hok Hh Hsame) as [Hok1 Hreg1].
  destruct (join_body_spec order now p hb (set_heap h1 t) Hok1 Hd Hord) as (Hst & Hv & Hr).
  set (t' := join_body order now p hb (set_heap h1 t)) in *. destruct Hst as [Hok' [Fi Fc Fo] Hd'].
  cbn [set_heap t_heap] in *. exists p, t'. split; [done|]. split; [done|].
  assert (forall dc rack id, find_node (t_heap t') dc rack id = find_node h1 dc rack id) as Hfind.
  { intros dc rack i. unfold find_node. rewrite Fc. destruct (child h1 root dc) as [pd|]; [|done].
    cbn. rewrite Fc. destruct (child h1 pd rack); [|done]. cbn. by rewrite Fc. }
  split; try done.
  - by rewrite Hfind.
  - by rewrite Fi.
  - intros. rewrite Hfind. auto.
  - intros q Hq. rewrite Fi. auto.
  - intros q Hq. rewrite Fo by done. auto.
  - intros vid x Hx. rewrite Hr, Hreg1, Hid. naive_solver.
  - intros vid. rewrite Hr, Hreg1, Hid, Hvol. unfold reports.
    destruct (decide (vid ∈ (vi_Id <$> hb_Volumes hb))); naive_solver.
Qed.

(** * Sequences of heartbeats and other calls

    After any sequence of heartbeats the layouts list exactly what the last heartbeat of
    each data node reported. *)

(** ** Heartbeats *)

(** The topology after heartbeats that arrive at the given times. *)
Definition join_all (order : gset Z -> list Z) (hs : list (Z * Heartbeat)) (t : Topology) : Topology :=
  fold_left (fun t '(now, hb) => snd (ProcessJoinMessage order now (Some hb) t)) hs t.

Definition last_heartbeat (x : string) (hs : list (Z * Heartbeat)) : option Heartbeat :=
  last (filter (fun hb => NodeIDFromHeartbeat hb = x) hs.*2).

(** The volumes a data node reported in its last heartbeat. *)
Definition last_reported (hs : list (Z * Heartbeat)) (x : string) (vid : Z) : Prop :=
  match last_heartbeat x hs with Some hb => reports hb vid | None => False end.

(** Every data node is where [place] says. *)
Definition placed (place : string -> string * string) (h : heap) : Prop :=
  forall q, is_Some (ToDataNode h q) ->
    find_node h (fst (place (GetId h q))) (snd (place (GetId h q))) (GetId h q) = Some q.

(** What is registered for a node, its data node knows of. *)
Definition synced (t : Topology) : Prop :=
  forall vid x, registered t vid x ->
    exists q, is_Some (ToDataNode (t_heap t) q) /\ GetId (t_heap t) q = x /\ has_volume (t_heap t) q vid.

Lemma NewTopology_ok now : topo_ok (NewTopology now).
Proof.
  split.
  - split; cbn [NewTopology t_heap h_nodes h_next].
    + eexists. rewrite lookup_singleton_eq. by split.
    + intros p n [<- _]%lookup_singleton_Some. unfold root. lia.
    + intros p n id c [_ <-]%lookup_singleton_Some Hc. cbn in Hc. by rewrite lookup_empty in Hc.
    + intros p n d [_ <-]%lookup_singleton_Some Hk. done.
  - intros key vl H. cbn in H. by rewrite lookup_empty in H.
Qed.

Lemma NewTopology_registered now vid x : ~ registered (NewTopology now) vid x.
Proof. intros (key & vl & H & _). cbn in H. by rewrite lookup_empty in H. Qed.

Lemma NewTopology_data now q : ToDataNode (t_heap (NewTopology now)) q = None.
Proof.
  unfold ToDataNode. cbn [NewTopology t_heap h_nodes].
  destruct (decide (q = root)) as [->|]; [by rewrite lookup_singleton_eq|by rewrite lookup_singleton_ne].
Qed.

Lemma registered_nonzero t vid x : topo_ok t -> registered t vid x -> vid <> 0.
Proof.
  intros Hok (key & vl & Hk & st & Hx). destruct (to_layouts _ Hok _ _ Hk) as [A [Hm _]].
  unfold nodes in Hx. destruct (class st vl !! vid) as [locs|] eqn:E; [|by apply not_elem_of_nil in Hx].
  by destruct (Hm st _ _ E) as (Hv & _).
Qed.

Lemma join_synced hb p t t' place :
  topo_ok t -> join_effect hb p t t' -> place (NodeIDFromHeartbeat hb) = (hb_DataCenter hb, hb_Rack hb) ->
  placed place (t_heap t) -> synced t ->
  placed place (t_heap t') /\ synced t' /\
  (forall vid, registered t' vid (NodeIDFromHeartbeat hb) <-> reports hb vid).
Proof.
  intros Hok [Jfind Jid Jdata Jmono Jids Jother Jvol Jrest Jreg] Hpl Hp Hs. set (nid := NodeIDFromHeartbeat hb) in *.
  assert (placed place (t_heap t')) as Hp'.
  { intros q Hq. destruct (decide (q = p)) as [->|Hne]; [by rewrite Jid, Hpl|].
    rewrite Jother in Hq by done. rewrite Jids by done. auto. }
  assert (forall vid, registered t' vid nid <-> reports hb vid) as Hreg.
  { intros vid. rewrite Jreg. split; [|by auto]. intros [Hr|(Hr & Hd & Hin)]; [done|].
    destruct (Hs vid nid Hr) as (q & Hq & Hid & Hv).
    assert (q = p) as ->.
    { specialize (Hp q Hq). rewrite Hid, Hpl in Hp. apply Jmono in Hp. cbn in Hp. congruence. }
    destruct Hin as [Hin|Hn]; [|done]. split_and!; [done| |done].
    by eapply registered_nonzero. }
  split; [done|]. split; [|done].
  intros vid x Hr. destruct (decide (x = nid)) as [->|Hne].
  - exists p. split_and!; [done..|]. apply Hreg in Hr as (? & _ & ?). by apply Jvol.
  - apply Jrest in Hr; [|done]. destruct (Hs vid x Hr) as (q & Hq & Hid & Hv). exists q.
    assert (q <> p) as Hqp.
    { intros ->. rewrite Jids in Jid by done. congruence. }
    rewrite Jother, Jids by done. split_and!; [done..|].
    destruct Hv as (d & v & ? & ?). exists d, v. by rewrite Jother.
Qed.

Lemma last_reported_snoc hs now hb x vid :
  last_reported (hs ++ [(now, hb)]) x vid <->
  if decide (x = NodeIDFromHeartbeat hb) then reports hb vid else last_reported hs x vid.
Proof.
  unfold last_reported, last_heartbeat. rewrite fmap_app, filter_app. cbn [fmap list_fmap snd].
  rewrite filter_cons, filter_nil. case_decide as H1; case_decide as H2; try congruence.
  - by rewrite last_snoc.
  - by rewrite app_nil_r.
Qed.

(** *** What lookups return *)

Lemma loc_ToProto_listed h vl A vid locs st now loc :
  represents (view now h) vl A -> class st vl !! vid = Some locs -> loc ∈ locs ->
  exists p, vl_DataNode loc = Some p /\ is_Some (ToDataNode h p) /\ loc_id (view now h) loc = GetId h p /\
    loc_ToProto (view now h) loc =
      Some (mkPbLocation (nv_url (view now h) p) (nv_publicUrl (view now h) p) (GetDataCenter h p) (GetRack h p)).
Proof.
  intros [Hm _] Hl Hin. destruct (Hm st _ _ Hl) as (_ & _ & Hf & _). rewrite Forall_forall in Hf.
  destruct (Hf loc Hin) as [_ Hne]. unfold loc_id, node_id, loc_ToProto in *. destruct (vl_DataNode loc) as [p|]; [|done].
  exists p. cbn [view nv_id] in *. unfold dn_GetId in *. destruct (ToDataNode h p); [|done]. by eauto.
Qed.

(** The address of a data node that a layout lists. *)
Definition location_of (h : heap) (p : ptr) : PbLocation :=
  mkPbLocation (default "" (dn_url <$> ToDataNode h p)) (default "" (dn_publicUrl <$> ToDataNode h p))
    (GetDataCenter h p) (GetRack h p).

Lemma ToVolumeLocations_listed h vl A vid now l :
  represents (view now h) vl A -> l ∈ ToVolumeLocations (view now h) vid vl ->
  exists p, is_Some (ToDataNode h p) /\ lists (view now h) vl vid (GetId h p) /\ l = location_of h p.
Proof.
  intros HA. unfold ToVolumeLocations. pose proof (LookupVolume_spec _ vl A vid HA) as Hs. unfold layout_LookupVolume in *.
  assert (forall st locs, class st vl !! vid = Some locs -> l ∈ omap (loc_ToProto (view now h)) locs ->
    exists p, is_Some (ToDataNode h p) /\ lists (view now h) vl vid (GetId h p) /\ l = location_of h p) as Hgo.
  { intros st locs Hl (loc & Hin & Hp)%list_elem_of_omap.
    destruct (loc_ToProto_listed _ _ _ _ _ _ _ _ HA Hl Hin) as (p & _ & Hd & Hid & E). rewrite E in Hp. injection Hp as <-.
    exists p. split_and!; [done| |done]. exists st. unfold nodes. rewrite Hl. rewrite <- Hid. by apply (list_elem_of_fmap_2 (loc_id _)). }
  destruct (ly_writable vl !! vid) eqn:Ew; [by apply (Hgo Writable)|].
  destruct (ly_readonly vl !! vid) eqn:Er; [by apply (Hgo ReadOnly)|].
  destruct (ly_crowded vl !! vid) eqn:Ec; [by apply (Hgo Crowded)|]. by intros ?%not_elem_of_nil.
Qed.

Lemma ToVolumeLocations_nonempty h vl A vid now x :
  represents (view now h) vl A -> lists (view now h) vl vid x -> ToVolumeLocations (view now h) vid vl <> [].
Proof.
  intros HA Hx. apply (lists_spec _ _ A) in Hx as [st0 Hx]; [|done].
  pose proof (LookupVolume_spec _ vl A vid HA) as Hs. unfold ToVolumeLocations, layout_LookupVolume in *.
  assert (forall st locs, class st vl !! vid = Some locs -> omap (loc_ToProto (view now h)) locs <> []) as Hgo.
  { intros st [|loc locs] Hl; [by destruct (proj1 HA st _ _ Hl) as (_ & ? & _)|].
    destruct (loc_ToProto_listed _ _ _ _ _ _ _ loc HA Hl) as (p & _ & _ & _ & E); [by left|]. cbn. by rewrite E. }
  destruct (ly_writable vl !! vid) eqn:Ew; [by apply (Hgo Writable)|].
  destruct (ly_readonly vl !! vid) eqn:Er; [by apply (Hgo ReadOnly)|].
  destruct (ly_crowded vl !! vid) eqn:Ec; [by apply (Hgo Crowded)|]. cbn in Hs. by rewrite Hs in Hx.
Qed.

(** [order] lists the layouts, each once. *)
Definition layout_order (order : gmap string VolumeLayout -> list (string * VolumeLayout)) : Prop :=
  forall m, Permutation (order m) (map_to_list m).

(** A lookup answers with locations of data nodes that are registered for the volume,
    and with some when there is one. *)
Definition lookup_right (t : Topology) (vid : Z) (ls : list PbLocation) : Prop :=
  (forall l, l ∈ ls -> exists p, is_Some (ToDataNode (t_heap t) p) /\
     registered t vid (GetId (t_heap t) p) /\ l = location_of (t_heap t) p) /\
  (ls = [] <-> forall x, ~ registered t vid x).

Lemma LookupVolumeLocation_right order now vid t :
  topo_ok t -> layout_order order -> lookup_right t vid (LookupVolumeLocation order now vid t).
Proof.
  intros Hok Ho. unfold LookupVolumeLocation, LookupVolume. set (h := t_heap t).
  assert (forall key vl, (key, vl) ∈ order (t_layouts t) <-> t_layouts t !! key = Some vl) as Hin.
  { intros key vl. by rewrite (Ho (t_layouts t)), elem_of_map_to_list. }
  assert (forall key vl, t_layouts t !! key = Some vl -> exists A, represents (view now h) vl A) as Hrep.
  { intros key vl Hk. destruct (to_layouts _ Hok _ _ Hk) as [A HA]. exists A. by eapply (represents_heap 0); [reflexivity|]. }
  assert (forall l, l ∈ concat ((fun '(_, vl) => ToVolumeLocations (view now h) vid vl) <$> order (t_layouts t)) <->
    exists key vl, t_layouts t !! key = Some vl /\ l ∈ ToVolumeLocations (view now h) vid vl) as Hc.
  { intros l. rewrite list_elem_of_In, in_concat. split.
    - intros (ls & Hls & Hl). apply list_elem_of_In, list_elem_of_fmap in Hls as ([key vl] & -> & Hk%Hin).
      exists key, vl. split; [done|]. by apply list_elem_of_In.
    - intros (key & vl & Hk & Hl). exists (ToVolumeLocations (view now h) vid vl). split; [|by apply list_elem_of_In].
      apply list_elem_of_In, list_elem_of_fmap. exists (key, vl). split; [done|]. by apply Hin. }
  split.
  - intros l (key & vl & Hk & Hl)%Hc. destruct (Hrep _ _ Hk) as [A HA].
    destruct (ToVolumeLocations_listed _ _ _ _ _ _ HA Hl) as (p & Hd & Hx & ->). exists p. split_and!; [done| |done].
    by exists key, vl.
  - split.
    + intros E x (key & vl & Hk & Hx). destruct (Hrep _ _ Hk) as [A HA].
      destruct (ToVolumeLocations (view now h) vid vl) as [|l ls] eqn:El; [by eapply ToVolumeLocations_nonempty|].
      assert (l ∈ []) as H0%not_elem_of_nil; [|done]. rewrite <- E. apply Hc. exists key, vl. rewrite El. split; [done|by left].
    + intros Hn. destruct (concat _) as [|l ls]; [done|]. destruct (proj1 (Hc l)) as (key & vl & Hk & Hl); [by left|].
      destruct (Hrep _ _ Hk) as [A HA]. destruct (ToVolumeLocations_listed _ _ _ _ _ _ HA Hl) as (p & _ & Hx & _).
      destruct (Hn (GetId h p)). by exists key, vl.
Qed.

Lemma join_all_snoc order hs now hb t :
  join_all order (hs ++ [(now, hb)]) t = snd (ProcessJoinMessage order now (Some hb) (join_all order hs t)).
Proof. unfold join_all. by rewrite fold_left_app. Qed.

Lemma join_all_synced place order hs now0 :
  set_order order ->
  Forall (fun '(_, hb) => place (NodeIDFromHeartbeat hb) = (hb_DataCenter hb, hb_Rack hb)) hs ->
  let t := join_all order hs (NewTopology now0) in
  topo_ok t /\ placed place (t_heap t) /\ synced t /\ forall vid x, registered t vid x <-> last_reported hs x vid.
Proof.
  intros Hord. induction hs as [|[now hb] hs IH] using rev_ind; intros Hpl; cbn [join_all fold_left].
  - split_and!.
    + apply NewTopology_ok.
    + intros q [d Hd]. by rewrite NewTopology_data in Hd.
    + intros vid x Hr. by destruct (NewTopology_registered now0 vid x).
    + intros vid x. split; [|done]. intros Hr. by destruct (NewTopology_registered now0 vid x).
  - apply Forall_app in Hpl as [Hpl Hhb]. rewrite Forall_singleton in Hhb. destruct (IH Hpl) as (Hok & Hp & Hs & Hr).
    rewrite join_all_snoc. set (t := join_all order hs (NewTopology now0)) in *.
    destruct (ProcessJoinMessage_spec order now hb t Hok Hord) as (p & t' & E & Hok' & Hj). rewrite E. cbn [snd].
    destruct (join_synced hb p t t' place Hok Hj Hhb Hp Hs) as (Hp' & Hs' & Hreg). split_and!; [done..|].
    intros vid x. rewrite last_reported_snoc. case_decide as Hx; [subst; apply Hreg|]. rewrite (je_rest _ _ _ _ Hj) by done. apply Hr.
Qed.

(** C15: after any sequence of heartbeats of data nodes that do not move between racks, a
    volume is registered for a data node exactly when the last heartbeat of that node
    reported it and did not report it deleted, whatever was reported before; a lookup
    answers with the addresses of such nodes only, and with at least one when there is
    one. *)
Theorem heartbeats_register (place : string -> string * string) (order : gset Z -> list Z)
    (hs : list (Z * Heartbeat)) (now0 : Z) :
  set_order order ->
  Forall (fun '(_, hb) => place (NodeIDFromHeartbeat hb) = (hb_DataCenter hb, hb_Rack hb)) hs ->
  let t := join_all order hs (NewTopology now0) in
  (forall vid x, registered t vid x <-> last_reported hs x vid) /\
  (forall lorder now vid, layout_order lorder -> lookup_right t vid (LookupVolumeLocation lorder now vid t)).
Proof.
  intros Hord Hpl t. destruct (join_all_synced place order hs now0 Hord Hpl) as (Hok & _ & _ & Hr). split; [done|].
  intros lorder now vid Hl. by apply LookupVolumeLocation_right.
Qed.
