(* ===== verification/VolumeGrowth.v ===== *)
(** * VolumeGrowth: creating volumes

    [topology/volume_growth.go]: when too few volumes of a layout are writable, the
    master picks data nodes for the replicas, reserves a slot on each, allocates a volume
    id and asks the nodes to create the volume.  What the nodes answer is an argument.
    The second half is about the choice of the data nodes. *)

From stdpp Require Import sorting.
From S2P Require Import Prelude GoStrings Types TopoNode VolumeLayout Topology.

#[local] Open Scope string_scope.

(** ** When to grow

    The code compares quotients of [float64] numbers. For the counts of a layout, far
    below [2^50], the comparison with 0.9 is that of the integers: if [w / t] is 9/10 both
    are the same number, and otherwise they differ by more than the rounding. *)
Definition shouldGrowVolumes (vl : VolumeLayout) : bool :=
  let writableCount := GetWritableVolumeCount vl in
  let totalCount := GetTotalVolumeCount vl in
  if decide (totalCount = 0) then true else bool_decide (10 * writableCount < 9 * totalCount).

(** [DefaultGrowthStrategy.SelectVolumeCount] *)
Definition SelectVolumeCount (vl : VolumeLayout) : Z :=
  let growthCount := Z.quot (GetTotalVolumeCount vl) 10 in
  if decide (growthCount < 1) then 1 else growthCount.

(** ** Reservations *)

Definition str_le (s t : string) : Prop := String.leb s t = true.
#[export] Instance str_le_dec : RelDecision str_le.
Proof. intros s t. unfold str_le. apply _. Defined.

Definition pickReservationDiskType (d : DataNode) : option string :=
  let freeSlots := GetFreeVolumeSlots d in
  List.find (fun dt => bool_decide (default 0 (freeSlots !! dt) > 0)) (merge_sort str_le (map_to_list freeSlots).*1).

Record CapacityReservation := mkReservation { cr_DataNode : ptr; cr_DiskType : string }.

Definition reserveCapacity (p : ptr) (diskType : string) (h : heap) : option (CapacityReservation * heap) :=
  d ← ToDataNode h p;
  reserved ← (if decide (diskType = DefaultDiskType) then pickReservationDiskType d else Some diskType);
  if fst (ReserveSlot reserved d)
  then Some (mkReservation p reserved, update_data p (fun d => snd (ReserveSlot reserved d)) h)
  else None.

Definition releaseReservation (r : CapacityReservation) (h : heap) : heap :=
  update_data (cr_DataNode r) (ReleaseSlot (cr_DiskType r)) h.

Definition release_all (rs : list CapacityReservation) (h : heap) : heap :=
  fold_left (fun h r => releaseReservation r h) rs h.

(** The loop of [CheckAndGrow] that reserves a slot on each node, and gives the slots
    back when a node has none. *)
Fixpoint reserve_all (nodes : list ptr) (diskType : string) (rs : list CapacityReservation) (h : heap)
  : bool * list CapacityReservation * heap :=
  match nodes with
  | [] => (true, rs, h)
  | p :: nodes =>
      match reserveCapacity p diskType h with
      | None => (false, rs, release_all rs h)
      | Some (r, h) => reserve_all nodes diskType (rs ++ [r])%list h
      end
  end.

(** ** The choice of the data nodes *)

Section select.
Context (id_of dc_of rack_of : ptr -> string).

(** The nodes selected so far and the ids in use. *)
Abbreviation picked := (list ptr * gset string)%type.

Definition pick (p : ptr) (s : picked) : picked := ((fst s ++ [p])%list, {[id_of p]} ∪ snd s).

(** Replicas in other data centers. *)
Fixpoint pick_data_centers (limit : Z) (primaryDC : string) (l : list ptr) (s : picked) : picked :=
  match l with
  | [] => s
  | p :: l =>
      if decide (zlen (fst s) >= limit) then s else
      if decide (id_of p ∈ snd s) then pick_data_centers limit primaryDC l s else
      if decide (dc_of p = primaryDC) then pick_data_centers limit primaryDC l s else
      pick_data_centers limit primaryDC l (pick p s)
  end.

(** Replicas in other racks of the data center, each in a rack of its own. *)
Fixpoint pick_racks (target : Z) (primaryDC : string) (l : list ptr) (racks : gset string) (s : picked) : picked :=
  match l with
  | [] => s
  | p :: l =>
      if decide (target = 0) then s else
      if decide (id_of p ∈ snd s \/ dc_of p <> primaryDC) then pick_racks target primaryDC l racks s else
      if decide (rack_of p ∈ racks) then pick_racks target primaryDC l racks s else
      pick_racks (target - 1) primaryDC l ({[rack_of p]} ∪ racks) (pick p s)
  end.

(** Replicas in the rack. *)
Fixpoint pick_same_rack (target : Z) (primaryDC primaryRack : string) (l : list ptr) (s : picked) : picked :=
  match l with
  | [] => s
  | p :: l =>
      if decide (target = 0) then s else
      if decide (id_of p ∈ snd s) then pick_same_rack target primaryDC primaryRack l s else
      if decide (dc_of p = primaryDC /\ rack_of p = primaryRack)
      then pick_same_rack (target - 1) primaryDC primaryRack l (pick p s)
      else pick_same_rack target primaryDC primaryRack l s
  end.

(** Any candidates for what is left. *)
Fixpoint pick_any (total : Z) (l : list ptr) (s : picked) : picked :=
  match l with
  | [] => s
  | p :: l =>
      if decide (zlen (fst s) >= total) then s else
      if decide (id_of p ∈ snd s) then pick_any total l s else pick_any total l (pick p s)
  end.

Definition selectNodesForReplica (candidates : list ptr) (rp : ReplicaPlacement) : list ptr :=
  let totalCopies := TotalCopies rp in
  if decide (totalCopies <= 0) then [] else
  match candidates with
  | [] => []
  | primary :: rest =>
      let s := ([primary], {[id_of primary]}) in
      let primaryDC := dc_of primary in
      let primaryRack := rack_of primary in
      let s := pick_data_centers (1 + DifferentDataCenterCount rp) primaryDC rest s in
      let racks := list_to_set (primaryRack :: (rack_of <$> filter (fun p => dc_of p = primaryDC) (fst s))) in
      let s := pick_racks (DifferentRackCount rp) primaryDC candidates racks s in
      let s := pick_same_rack (SameRackCount rp) primaryDC primaryRack candidates s in
      let s := pick_any totalCopies candidates s in
      take (Z.to_nat totalCopies) (fst s)
  end.
End select.

(** ** Growing *)

Inductive grow_err := ErrNotEnoughCandidates | ErrNotEnoughNodes | ErrReserve | ErrPersistMaxVid | ErrAllocate.

(** What a data node is told of a new volume. *)
Definition new_volume (vid : Z) (collection : string) (rp : ReplicaPlacement) (diskType : string) : VolumeInfo :=
  mkVolumeInfo vid collection (rp_Byte rp) "" diskType false.

(** The loop that allocates the volume on the nodes; [rpc] is the answer of a node, true
    also for one without an address, which is not called. The nodes that have got the
    volume when one fails give it back. *)
Fixpoint allocate_all (rpc : ptr -> Z -> bool) (vid : Z) (collection : string) (rp : ReplicaPlacement)
    (todo : list CapacityReservation) (done : list ptr) (h : heap) : bool * heap :=
  match todo with
  | [] => (true, h)
  | r :: todo =>
      let p := cr_DataNode r in
      if rpc p vid
      then allocate_all rpc vid collection rp todo (done ++ [p])%list
             (update_data p (AddOrUpdateVolume (new_volume vid collection rp (cr_DiskType r))) h)
      else (false, fold_left (fun h q => update_data q (DeleteVolume vid) h) done h)
  end.

(** One iteration of the loop of [CheckAndGrow]. *)
Definition grow_one (rpc : ptr -> Z -> bool) (persist : Z -> bool) (candidates : list ptr) (collection : string)
    (rp : ReplicaPlacement) (diskType : string) (t : Topology) : option grow_err * Topology :=
  let h := t_heap t in
  let nodes := selectNodesForReplica (GetId h) (GetDataCenter h) (GetRack h) candidates rp in
  if decide (zlen nodes < TotalCopies rp) then (Some ErrNotEnoughNodes, t) else
  let '(ok, rs, h) := reserve_all nodes diskType [] h in
  let t := set_heap h t in
  if negb ok then (Some ErrReserve, t) else
  match AllocateNextVolumeId (Some (fun vid => if persist vid then Ret tt else Fail ErrPersistMaxVid)) t with
  | (Ret vid, t) =>
      let '(ok, h) := allocate_all rpc vid collection rp rs [] (t_heap t) in
      let t := set_heap (release_all rs h) t in
      if ok then (None, t) else (Some ErrAllocate, t)
  | (Fail e, t) => (Some e, set_heap (release_all rs (t_heap t)) t)
  | (Panic, t) => (Some ErrPersistMaxVid, t)
  end.

Fixpoint grow_loop (rpc : ptr -> Z -> bool) (persist : Z -> bool) (candidates : list ptr) (collection : string)
    (rp : ReplicaPlacement) (diskType : string) (count : nat) (created : Z) (t : Topology)
  : Z * option grow_err * Topology :=
  match count with
  | O => (created, None, t)
  | S count =>
      match grow_one rpc persist candidates collection rp diskType t with
      | (None, t) => grow_loop rpc persist candidates collection rp diskType count (created + 1) t
      | (Some e, t) => (created, Some e, t)
      end
  end.

(** [CheckAndGrow]: the volumes created and the error. *)
Definition CheckAndGrow (order : gmap string ptr -> list (string * ptr)) (rpc : ptr -> Z -> bool) (persist : Z -> bool)
    (now : Z) (collection : string) (rp : ReplicaPlacement) (ttl diskType : string) (count : Z) (t : Topology)
  : Z * option grow_err * Topology :=
  if decide (count <= 0) then (0, None, t) else
  let '(vl, t) := GetOrCreateVolumeLayout collection (rp_String rp) ttl diskType t in
  if negb (shouldGrowVolumes vl) then (0, None, t) else
  let candidates := AllocateVolumeCandidates order now diskType t in
  if decide (zlen candidates < TotalCopies rp) then (0, Some ErrNotEnoughCandidates, t) else
  grow_loop rpc persist candidates collection rp diskType (Z.to_nat count) 0 t.

(** * The data nodes chosen for the replicas of a volume

    The four passes of [selectNodesForReplica], and when their result is the replica
    placement that was asked for. *)

#[local] Close Scope string_scope.

Section select.
Context (id_of dc_of rack_of : ptr -> string).

Abbreviation take_node := (pick id_of).
Definition ids (l : list ptr) : gset string := list_to_set (id_of <$> l).

(** A pass that takes the first [n] unused nodes with a property. *)
Fixpoint pick_where (P : ptr -> bool) (n : nat) (l : list ptr) (s : list ptr * gset string) : list ptr * gset string :=
  match l with
  | [] => s
  | p :: l =>
      match n with
      | O => s
      | S n' => if decide (id_of p ∈ snd s) then pick_where P n l s
                else if P p then pick_where P n' l (take_node p s) else pick_where P n l s
      end
  end.

Lemma pick_data_centers_where limit dc l s :
  pick_data_centers id_of dc_of limit dc l s =
  pick_where (fun p => bool_decide (dc_of p <> dc)) (Z.to_nat (limit - zlen (fst s))) l s.
Proof.
  revert s. induction l as [|p l IH]; intros s; [done|]. cbn [pick_data_centers pick_where].
  case_decide as Hl; [by replace (Z.to_nat (limit - zlen (fst s))) with 0%nat by lia|].
  destruct (Z.to_nat (limit - zlen (fst s))) as [|n] eqn:En; [lia|]. rewrite !IH.
  replace (Z.to_nat (limit - zlen (fst (pick id_of p s)))) with n.
  - rewrite En. repeat first [case_decide|case_bool_decide]; done || congruence.
  - cbn [pick fst]. rewrite length_app. cbn [length]. lia.
Qed.

Lemma pick_same_rack_where target dc rack l s :
  0 <= target ->
  pick_same_rack id_of dc_of rack_of target dc rack l s =
  pick_where (fun p => bool_decide (dc_of p = dc /\ rack_of p = rack)) (Z.to_nat target) l s.
Proof.
  revert target s. induction l as [|p l IH]; intros target s Ht; [done|]. cbn [pick_same_rack pick_where].
  case_decide as Hl; [by subst|]. destruct (Z.to_nat target) as [|n] eqn:En; [lia|].
  rewrite (IH target) by lia. rewrite (IH (target - 1)) by lia. rewrite En.
  replace (Z.to_nat (target - 1)) with n by lia. repeat first [case_decide|case_bool_decide]; done || congruence.
Qed.

Lemma pick_any_where total l s :
  pick_any id_of total l s = pick_where (fun _ => true) (Z.to_nat (total - zlen (fst s))) l s.
Proof.
  revert s. induction l as [|p l IH]; intros s; [done|]. cbn [pick_any pick_where].
  case_decide as Hl; [by replace (Z.to_nat (total - zlen (fst s))) with 0%nat by lia|].
  destruct (Z.to_nat (total - zlen (fst s))) as [|n] eqn:En; [lia|]. rewrite !IH.
  replace (Z.to_nat (total - zlen (fst (pick id_of p s)))) with n; [by rewrite En|].
  cbn [pick fst]. rewrite length_app. cbn [length]. lia.
Qed.

Definition unused (used : gset string) (P : ptr -> bool) (p : ptr) : bool := negb (bool_decide (id_of p ∈ used)) && P p.

Lemma pick_where_spec P n l sel used :
  NoDup (id_of <$> l) ->
  pick_where P n l (sel, used) =
  ((sel ++ take n (List.filter (unused used P) l)), ids (take n (List.filter (unused used P) l)) ∪ used).
Proof.
  revert n sel used. induction l as [|p l IH]; intros n sel used Hnd; cbn [pick_where List.filter].
  - rewrite take_nil, app_nil_r. f_equal. unfold ids. set_solver.
  - cbn in Hnd. apply NoDup_cons in Hnd as [Hp Hnd]. destruct n as [|n].
    { rewrite take_0, app_nil_r. f_equal. unfold ids. set_solver. }
    cbn [snd]. destruct (unused used P p) eqn:Eu; unfold unused in Eu; destruct (decide (id_of p ∈ used)) as [Hu|Hu].
    { by rewrite bool_decide_eq_true_2 in Eu. }
    2: by apply IH.
    2: { rewrite bool_decide_eq_false_2 in Eu by done. cbn in Eu. rewrite Eu. by apply IH. }
    rewrite bool_decide_eq_false_2 in Eu by done. cbn in Eu. rewrite Eu.
    unfold pick. cbn [fst snd]. rewrite IH by done. cbn [take].
    assert (List.filter (unused ({[id_of p]} ∪ used) P) l = List.filter (unused used P) l) as ->.
    { apply List.filter_ext_in. intros q Hq%list_elem_of_In. unfold unused. f_equal. f_equal.
      apply bool_decide_ext. assert (id_of q <> id_of p) by (intros E; apply Hp; rewrite <- E; by apply (list_elem_of_fmap_2 id_of)).
      set_solver. }
    rewrite <- app_assoc. f_equal. unfold ids. cbn. set_solver.
Qed.

(** The pass over the racks takes the first node of each rack that is not used yet. *)
Fixpoint first_per_rack (racks : gset string) (l : list ptr) : list ptr :=
  match l with
  | [] => []
  | p :: l => if decide (rack_of p ∈ racks) then first_per_rack racks l
              else p :: first_per_rack ({[rack_of p]} ∪ racks) l
  end.

Lemma pick_racks_spec target dc l racks sel used :
  0 <= target -> NoDup (id_of <$> l) ->
  let E := take (Z.to_nat target) (first_per_rack racks
             (List.filter (unused used (fun p => bool_decide (dc_of p = dc))) l)) in
  pick_racks id_of dc_of rack_of target dc l racks (sel, used) = ((sel ++ E), ids E ∪ used).
Proof.
  revert target racks sel used. induction l as [|p l IH]; intros target racks sel used Ht Hnd; cbn [pick_racks List.filter first_per_rack].
  - cbv zeta. rewrite take_nil, app_nil_r. f_equal. unfold ids. set_solver.
  - cbn in Hnd. apply NoDup_cons in Hnd as [Hp Hnd]. cbv zeta. destruct (decide (target = 0)) as [->|Hz].
    { rewrite take_0, app_nil_r. f_equal. unfold ids. set_solver. }
    cbn [snd]. destruct (unused used _ p) eqn:Eu; unfold unused in Eu; cbn beta in Eu;
      destruct (decide (id_of p ∈ used \/ dc_of p <> dc)) as [Hu|Hu].
    { exfalso. repeat case_bool_decide; done || tauto. }
    2: by apply IH.
    2: { exfalso. repeat case_bool_decide; done || tauto. }
    cbn [first_per_rack].
    destruct (decide (rack_of p ∈ racks)) as [Hr|Hr]; [by apply IH|]. unfold pick. cbn [fst snd]. rewrite IH by (done || lia).
    destruct (Z.to_nat target) as [|n] eqn:En; [lia|]. replace (Z.to_nat (target - 1)) with n by lia. cbn [take].
    assert (List.filter (unused ({[id_of p]} ∪ used) (fun p => bool_decide (dc_of p = dc))) l =
            List.filter (unused used (fun p => bool_decide (dc_of p = dc))) l) as ->.
    { apply List.filter_ext_in. intros q Hq%list_elem_of_In. unfold unused. f_equal. f_equal.
      apply bool_decide_ext. assert (id_of q <> id_of p) by (intros E; apply Hp; rewrite <- E; by apply (list_elem_of_fmap_2 id_of)).
      set_solver. }
    rewrite <- app_assoc. f_equal. unfold ids. cbn. set_solver.
Qed.

Lemma first_per_rack_spec racks l :
  NoDup (rack_of <$> first_per_rack racks l) /\
  (forall r, r ∈ (rack_of <$> first_per_rack racks l) <-> r ∈ (rack_of <$> l) /\ r ∉ racks) /\
  (forall p, p ∈ first_per_rack racks l -> p ∈ l).
Proof.
  revert racks. induction l as [|p l IH]; intros racks; cbn [first_per_rack].
  - split_and!; [constructor|set_solver|done].
  - destruct (decide (rack_of p ∈ racks)) as [Hr|Hr].
    + destruct (IH racks) as (Hn & Hi & Hs). split_and!; [done| |set_solver].
      intros r. rewrite Hi. cbn. rewrite elem_of_cons. split; [tauto|]. intros [[->|H] ?]; tauto.
    + destruct (IH ({[rack_of p]} ∪ racks)) as (Hn & Hi & Hs). cbn. split_and!.
      * apply NoDup_cons. split; [|done]. rewrite Hi. set_solver.
      * intros r. rewrite !elem_of_cons, Hi. destruct (decide (r = rack_of p)) as [->|]; set_solver.
      * intros q [->|Hq]%elem_of_cons; [by left|right; auto].
Qed.

(** The racks of a list of nodes other than [rack]. *)
Definition other_racks (rack : string) (l : list ptr) : gset string := list_to_set (rack_of <$> l) ∖ {[rack]}.

Lemma length_first_per_rack rack l : length (first_per_rack {[rack]} l) = size (other_racks rack l).
Proof.
  destruct (first_per_rack_spec {[rack]} l) as (Hn & Hi & _).
  rewrite <- (length_fmap rack_of), <- (size_list_to_set (C := gset string)) by done. f_equal.
  unfold other_racks. apply set_eq. intros r. rewrite elem_of_list_to_set, Hi, elem_of_difference, elem_of_list_to_set. done.
Qed.

(** *** What every selection satisfies *)

(** The ids in use are those of the selected candidates, and no id is selected twice. *)
Definition picked_ok (candidates : list ptr) (s : list ptr * gset string) : Prop :=
  NoDup (id_of <$> fst s) /\ snd s = ids (fst s) /\ fst s ⊆ candidates.

Lemma pick_ok candidates p s : picked_ok candidates s -> p ∈ candidates -> id_of p ∉ snd s -> picked_ok candidates (take_node p s).
Proof.
  intros (Hn & Hu & Hs) Hp Hid. unfold picked_ok, pick, ids in *. cbn [fst snd]. split_and!.
  - rewrite fmap_app. apply NoDup_app. split_and!; [done| |apply NoDup_singleton]. cbn. rewrite Hu in Hid. set_solver.
  - rewrite Hu, fmap_app, list_to_set_app_L. cbn. set_solver.
  - set_solver.
Qed.

Lemma pick_where_ok candidates P n l s : l ⊆ candidates -> picked_ok candidates s -> picked_ok candidates (pick_where P n l s).
Proof.
  revert n s. induction l as [|p l IH]; intros n s Hl Hs; [done|]. cbn [pick_where].
  destruct n as [|n]; [done|]. destruct (decide (id_of p ∈ snd s)); [apply IH; [set_solver|done]|].
  destruct (P p); apply IH; try set_solver. apply pick_ok; [done|set_solver|done].
Qed.

Lemma pick_racks_ok candidates target dc l racks s :
  l ⊆ candidates -> picked_ok candidates s -> picked_ok candidates (pick_racks id_of dc_of rack_of target dc l racks s).
Proof.
  revert target racks s. induction l as [|p l IH]; intros target racks s Hl Hs; [done|]. cbn [pick_racks].
  repeat (case_decide; [done || (apply IH; [set_solver|done])|]). apply IH; [set_solver|].
  apply pick_ok; [done|set_solver|tauto].
Qed.

(** The primary stays in front: every pass appends. *)
Lemma pick_where_prefix P n l s : fst s `prefix_of` fst (pick_where P n l s).
Proof.
  revert n s. induction l as [|p l IH]; intros n s; [done|]. cbn [pick_where]. destruct n as [|n]; [done|].
  destruct (decide (id_of p ∈ snd s)); [apply IH|]. destruct (P p); [|apply IH].
  etrans; [|apply IH]. by apply prefix_app_r.
Qed.

Lemma pick_racks_prefix target dc l racks s : fst s `prefix_of` fst (pick_racks id_of dc_of rack_of target dc l racks s).
Proof.
  revert target racks s. induction l as [|p l IH]; intros target racks s; [done|]. cbn [pick_racks].
  repeat (case_decide; [done || apply IH|]). etrans; [|apply IH]. by apply prefix_app_r.
Qed.

(** The last pass stops when there are enough nodes or no candidate is left. *)
Lemma pick_where_used P n l s : snd s ⊆ snd (pick_where P n l s).
Proof.
  revert n s. induction l as [|p l IH]; intros n s; [done|]. cbn [pick_where]. destruct n as [|n]; [done|].
  destruct (decide (id_of p ∈ snd s)); [apply IH|]. destruct (P p); [|apply IH].
  etrans; [|apply IH]. cbn. set_solver.
Qed.

Lemma pick_where_all n l s :
  length (fst (pick_where (fun _ => true) n l s)) = (length (fst s) + n)%nat \/
  forall p, p ∈ l -> id_of p ∈ snd (pick_where (fun _ => true) n l s).
Proof.
  revert n s. induction l as [|p l IH]; intros n s; [right; set_solver|]. cbn [pick_where].
  destruct n as [|n]; [left; lia|]. destruct (decide (id_of p ∈ snd s)) as [Hp|Hp].
  - destruct (IH (S n) s) as [->|H]; [by left|]. right. intros q [->|Hq]%elem_of_cons; [by apply pick_where_used|auto].
  - destruct (IH n (take_node p s)) as [->|H].
    + left. cbn [pick fst]. rewrite length_app. cbn [length]. lia.
    + right. intros q [->|Hq]%elem_of_cons; [|auto]. apply pick_where_used. cbn. set_solver.
Qed.

(** *** The placement *)

Lemma elem_of_take_list (n : nat) (l : list ptr) p : p ∈ take n l -> p ∈ l.
Proof. intros H. rewrite <- (take_drop n l). apply elem_of_app. by left. Qed.

Lemma filter_unused used P l :
  (forall p, p ∈ l -> P p = true -> id_of p ∉ used) -> List.filter (unused used P) l = List.filter P l.
Proof.
  intros H. apply List.filter_ext_in. intros p Hp%list_elem_of_In. unfold unused.
  case_bool_decide as Hu; [|done]. destruct (P p) eqn:E; [|done]. by destruct (H p Hp E).
Qed.

Lemma elem_of_filter_list (P : ptr -> bool) l p : p ∈ List.filter P l <-> p ∈ l /\ P p = true.
Proof. by rewrite !list_elem_of_In, filter_In. Qed.

Section placement.
Context (primary : ptr) (rest : list ptr) (rp : ReplicaPlacement).
Context (Hnd : NoDup (id_of <$> primary :: rest)).
Context (Hrp : 0 <= DifferentDataCenterCount rp /\ 0 <= DifferentRackCount rp /\ 0 <= SameRackCount rp).

Definition far : list ptr := List.filter (fun p => bool_decide (dc_of p <> dc_of primary)) rest.
Definition in_dc : list ptr := List.filter (fun p => bool_decide (dc_of p = dc_of primary)) rest.
Definition in_rack : list ptr :=
  List.filter (fun p => bool_decide (dc_of p = dc_of primary /\ rack_of p = rack_of primary)) rest.

Definition far_picks := take (Z.to_nat (DifferentDataCenterCount rp)) far.
Definition rack_picks := take (Z.to_nat (DifferentRackCount rp)) (first_per_rack {[rack_of primary]} in_dc).
Definition same_picks := take (Z.to_nat (SameRackCount rp)) in_rack.
Definition base : list ptr := (primary :: far_picks ++ rack_picks ++ same_picks).

Lemma id_inj p q : p ∈ primary :: rest -> q ∈ primary :: rest -> id_of p = id_of q -> p = q.
Proof.
  intros (i & Hi)%list_elem_of_lookup (j & Hj)%list_elem_of_lookup E.
  assert (i = j) as ->; [|congruence]. eapply (NoDup_lookup _ _ _ (id_of p)); [exact Hnd|..].
  - by rewrite list_lookup_fmap, Hi.
  - by rewrite list_lookup_fmap, Hj, E.
Qed.

Lemma far_picks_spec p : p ∈ far_picks -> p ∈ rest /\ dc_of p <> dc_of primary.
Proof. intros H%elem_of_take_list%elem_of_filter_list. by rewrite bool_decide_eq_true in H. Qed.

Lemma rack_picks_spec p : p ∈ rack_picks -> p ∈ rest /\ dc_of p = dc_of primary /\ rack_of p <> rack_of primary.
Proof.
  intros H%elem_of_take_list. destruct (first_per_rack_spec {[rack_of primary]} in_dc) as (_ & Hr & Hs).
  pose proof (Hs p H) as Hp. apply elem_of_filter_list in Hp as [Hp Hd%bool_decide_eq_true]. split_and!; [done..|].
  assert (rack_of p ∈ (rack_of <$> first_per_rack {[rack_of primary]} in_dc)) as Hx by by apply (list_elem_of_fmap_2 rack_of).
  apply Hr in Hx as [_ Hx]. by apply not_elem_of_singleton in Hx.
Qed.

Lemma same_picks_spec p : p ∈ same_picks -> p ∈ rest /\ dc_of p = dc_of primary /\ rack_of p = rack_of primary.
Proof. intros H%elem_of_take_list%elem_of_filter_list. by rewrite bool_decide_eq_true in H. Qed.

(** A node that is not among the selected ones by its place is not by its id. *)
Lemma fresh_id (l : list ptr) p :
  p ∈ primary :: rest -> (forall q, q ∈ l -> q ∈ primary :: rest) -> p ∉ l -> id_of p ∉ ids l.
Proof.
  intros Hp Hl Hn. unfold ids. rewrite elem_of_list_to_set, list_elem_of_fmap. intros (q & E & Hq).
  apply Hn. by rewrite (id_inj p q Hp (Hl q Hq) E).
Qed.

Lemma primary_rest p : p ∈ rest -> p <> primary.
Proof.
  intros Hp ->. cbn in Hnd. apply NoDup_cons in Hnd as [Hn _]. apply Hn. by apply (list_elem_of_fmap_2 id_of).
Qed.

Lemma filter_after used P :
  id_of primary ∈ used -> (forall p, p ∈ rest -> P p = true -> id_of p ∉ used) ->
  List.filter (unused used P) (primary :: rest) = List.filter P rest.
Proof.
  intros Hp Hr. cbn [List.filter]. unfold unused at 1. rewrite bool_decide_eq_true_2 by done. cbn [negb andb].
  by apply filter_unused.
Qed.

Lemma not_in_ids l p : p ∈ rest -> (forall q, q ∈ l -> q ∈ rest) -> p ∉ l -> id_of p ∉ ids l ∪ {[id_of primary]}.
Proof.
  intros Hp Hl Hn. apply not_elem_of_union. split; [apply fresh_id; [by right| |done]; intros q Hq; right; auto|].
  intros E%elem_of_singleton. apply (primary_rest p Hp). apply id_inj; [by right|by left|done].
Qed.

Lemma in_dc_unused :
  List.filter (unused (ids far_picks ∪ {[id_of primary]}) (fun p => bool_decide (dc_of p = dc_of primary))) (primary :: rest) = in_dc.
Proof.
  apply filter_after; [set_solver|]. intros p Hp Hd%bool_decide_eq_true. apply not_in_ids; [done| |].
  - intros q Hq. by apply far_picks_spec.
  - intros Hq. by apply far_picks_spec in Hq as [_ Hq].
Qed.

Lemma ids_app l1 l2 : ids (l1 ++ l2) = ids l1 ∪ ids l2.
Proof. unfold ids. by rewrite fmap_app, list_to_set_app_L. Qed.

Lemma in_rack_unused :
  List.filter (unused (ids rack_picks ∪ (ids far_picks ∪ {[id_of primary]}))
    (fun p => bool_decide (dc_of p = dc_of primary /\ rack_of p = rack_of primary))) (primary :: rest) = in_rack.
Proof.
  apply filter_after; [set_solver|]. intros p Hp Hd%bool_decide_eq_true.
  rewrite union_assoc_L, <- ids_app. apply not_in_ids; [done|..].
  - intros q [Hq%rack_picks_spec|Hq%far_picks_spec]%elem_of_app; tauto.
  - intros [Hq%rack_picks_spec|Hq%far_picks_spec]%elem_of_app; tauto.
Qed.

Lemma used_racks :
  (list_to_set (rack_of primary :: (rack_of <$> filter (fun p => dc_of p = dc_of primary) (primary :: far_picks)))
   : gset string) = {[rack_of primary]}.
Proof.
  rewrite filter_cons_True by done. replace (filter _ far_picks) with (@nil ptr); [cbn; set_solver|].
  assert (Forall (fun p => dc_of p <> dc_of primary) far_picks) as Hf
    by (apply Forall_forall; intros p Hp; by apply far_picks_spec).
  induction Hf as [|p l Hp Hf IH]; [done|]. by rewrite filter_cons_False.
Qed.

(** The first three passes. *)
Definition three_passes : list ptr * gset string :=
  let s := pick_data_centers id_of dc_of (1 + DifferentDataCenterCount rp) (dc_of primary) rest
             ([primary], {[id_of primary]}) in
  let racks := list_to_set (rack_of primary :: (rack_of <$> filter (fun p => dc_of p = dc_of primary) (fst s))) in
  let s := pick_racks id_of dc_of rack_of (DifferentRackCount rp) (dc_of primary) (primary :: rest) racks s in
  pick_same_rack id_of dc_of rack_of (SameRackCount rp) (dc_of primary) (rack_of primary) (primary :: rest) s.

Lemma three_passes_base : three_passes = (base, ids base).
Proof.
  unfold three_passes. pose proof Hnd as Hnd'. cbn in Hnd'. apply NoDup_cons in Hnd' as [Hpr Hndr].
  rewrite pick_data_centers_where. cbn [fst]. replace (Z.to_nat (1 + DifferentDataCenterCount rp - zlen [primary]))
    with (Z.to_nat (DifferentDataCenterCount rp)) by (cbn [length]; lia).
  rewrite pick_where_spec, filter_unused by (done || (intros p Hp _; intros E%elem_of_singleton; apply Hpr; rewrite <- E;
    by apply (list_elem_of_fmap_2 id_of))).
  fold far far_picks. cbn [fst app]. rewrite used_racks.
  rewrite pick_racks_spec, in_dc_unused by (done || lia). fold rack_picks.
  rewrite pick_same_rack_where, pick_where_spec, in_rack_unused by (done || lia). fold same_picks.
  cbn [app]. rewrite <- app_assoc. fold base. f_equal. unfold base, ids. cbn. rewrite !fmap_app, !list_to_set_app_L. set_solver.
Qed.

Lemma three_passes_ok : picked_ok (primary :: rest) three_passes.
Proof.
  unfold three_passes. rewrite pick_same_rack_where by lia. apply pick_where_ok; [done|].
  apply pick_racks_ok; [done|]. rewrite pick_data_centers_where. apply pick_where_ok; [intros x Hx; by right|].
  split_and!; cbn; [apply NoDup_singleton|unfold ids; cbn; set_solver|]. intros x ->%list_elem_of_singleton. by left.
Qed.

Lemma select_base :
  selectNodesForReplica id_of dc_of rack_of (primary :: rest) rp =
  take (Z.to_nat (TotalCopies rp))
    (fst (pick_where (fun _ => true) (Z.to_nat (TotalCopies rp - zlen base)) (primary :: rest) (base, ids base))).
Proof.
  unfold selectNodesForReplica. rewrite decide_False by (unfold TotalCopies; lia).
  fold three_passes. by rewrite three_passes_base, pick_any_where.
Qed.

(** There are candidates enough around the primary. *)
Definition enough : Prop :=
  DifferentDataCenterCount rp <= zlen far /\
  DifferentRackCount rp <= Z.of_nat (size (other_racks (rack_of primary) in_dc)) /\
  SameRackCount rp <= zlen in_rack.

Lemma enough_lengths : enough ->
  zlen far_picks = DifferentDataCenterCount rp /\ zlen rack_picks = DifferentRackCount rp /\ zlen same_picks = SameRackCount rp.
Proof.
  intros (H1 & H2 & H3). rewrite <- length_first_per_rack in H2. unfold far_picks, rack_picks, same_picks.
  rewrite !length_take. lia.
Qed.

Lemma select_enough : enough -> selectNodesForReplica id_of dc_of rack_of (primary :: rest) rp = base.
Proof.
  intros He. destruct (enough_lengths He) as (E1 & E2 & E3). rewrite select_base.
  assert (zlen base = TotalCopies rp) as El.
  { unfold base, TotalCopies. cbn [length]. rewrite !length_app. lia. }
  rewrite El, Z.sub_diag, Z2Nat.inj_0. cbn [pick_where fst]. rewrite take_ge; [done|lia].
Qed.
End placement.

(** The replicas of [sel] are placed as [rp] asks, as seen from the first one. *)
Definition honours (rp : ReplicaPlacement) (sel : list ptr) : Prop :=
  match sel with
  | [] => False
  | primary :: _ =>
      let other_dc := filter (fun p => dc_of p <> dc_of primary) sel in
      let other_rack := filter (fun p => dc_of p = dc_of primary /\ rack_of p <> rack_of primary) sel in
      let same_rack := filter (fun p => dc_of p = dc_of primary /\ rack_of p = rack_of primary) sel in
      zlen other_dc = DifferentDataCenterCount rp /\
      zlen other_rack = DifferentRackCount rp /\ NoDup (rack_of <$> other_rack) /\
      zlen same_rack = 1 + SameRackCount rp
  end.

Lemma filter_none (P : ptr -> Prop) `{!forall p, Decision (P p)} (l : list ptr) : (forall p, p ∈ l -> ~ P p) -> filter P l = [].
Proof.
  induction l as [|p l IH]; intros Hall; [done|]. rewrite filter_cons_False by (apply Hall; by left). apply IH.
  intros q Hq. apply Hall. by right.
Qed.

Lemma base_honours primary rest rp :
  0 <= DifferentDataCenterCount rp /\ 0 <= DifferentRackCount rp /\ 0 <= SameRackCount rp -> enough primary rest rp -> honours rp (base primary rest rp).
Proof.
  intros Hrp He. destruct (enough_lengths primary rest rp Hrp He) as (E1 & E2 & E3). unfold honours, base.
  pose proof (far_picks_spec primary rest rp) as Hf. pose proof (rack_picks_spec primary rest rp) as Hr.
  pose proof (same_picks_spec primary rest rp) as Hs. rewrite !filter_cons, !filter_app.
  rewrite (decide_False (P := dc_of primary <> dc_of primary)) by tauto.
  rewrite (decide_False (P := dc_of primary = dc_of primary /\ rack_of primary <> rack_of primary)) by tauto.
  rewrite decide_True by done.
  rewrite (filter_all (fun p => dc_of p <> dc_of primary) (far_picks _ _ _)) by (apply Forall_forall; intros p Hp%Hf; cbn beta; tauto).
  rewrite (filter_none (fun p => dc_of p <> dc_of primary) (rack_picks _ _ _)) by (intros p Hp%Hr; cbn beta; tauto).
  rewrite (filter_none (fun p => dc_of p <> dc_of primary) (same_picks _ _ _)) by (intros p Hp%Hs; cbn beta; tauto).
  rewrite (filter_none (fun p => _ /\ rack_of p <> _) (far_picks _ _ _)) by (intros p Hp%Hf; cbn beta; tauto).
  rewrite (filter_all (fun p => _ /\ rack_of p <> _) (rack_picks _ _ _)) by (apply Forall_forall; intros p Hp%Hr; cbn beta; tauto).
  rewrite (filter_none (fun p => _ /\ rack_of p <> _) (same_picks _ _ _)) by (intros p Hp%Hs; cbn beta; tauto).
  rewrite (filter_none (fun p => _ /\ rack_of p = _) (far_picks _ _ _)) by (intros p Hp%Hf; cbn beta; tauto).
  rewrite (filter_none (fun p => _ /\ rack_of p = _) (rack_picks _ _ _)) by (intros p Hp%Hr; cbn beta; tauto).
  rewrite (filter_all (fun p => _ /\ rack_of p = _) (same_picks _ _ _)) by (apply Forall_forall; intros p Hp%Hs; cbn beta; tauto).
  rewrite !app_nil_r. cbn [app length]. split_and!; [done|done| |lia].
  unfold rack_picks. rewrite fmap_take. eapply sublist_NoDup; [apply first_per_rack_spec|apply sublist_take].
Qed.

Lemma pick_where_length P n l s : (length (fst (pick_where P n l s)) <= length (fst s) + n)%nat.
Proof.
  revert n s. induction l as [|p l IH]; intros n s; cbn [pick_where]; [lia|]. destruct n as [|n]; [lia|].
  destruct (decide (id_of p ∈ snd s)); [apply IH|]. destruct (P p); [|apply IH].
  etrans; [apply IH|]. cbn [pick fst]. rewrite length_app. cbn [length]. lia.
Qed.

Lemma length_subset (l k : list ptr) : NoDup (id_of <$> l) -> l ⊆ k -> (length l <= length k)%nat.
Proof. intros Hn Hs. apply submseteq_length, NoDup_submseteq; [by eapply NoDup_fmap_1|]. intros x Hx. by apply Hs. Qed.

Lemma base_length primary rest rp :
  0 <= DifferentDataCenterCount rp /\ 0 <= DifferentRackCount rp /\ 0 <= SameRackCount rp ->
  zlen (base primary rest rp) <= TotalCopies rp.
Proof.
  intros Hrp. unfold base, TotalCopies, far_picks, rack_picks, same_picks. cbn [length]. rewrite !length_app, !length_take. lia.
Qed.

(** The data nodes that [selectNodesForReplica] chooses among candidates with
    distinct ids are distinct candidates with the first candidate in front, as many as
    there are copies or, when there are fewer candidates, all of them. If the other data
    centers, the other racks of the first candidate's data center and its rack have
    candidates enough, the choice has exactly the copies that the replica placement asks
    for in each, with those in other racks in racks of their own. *)
Theorem selectNodes_placement (primary : ptr) (rest : list ptr) (rp : ReplicaPlacement) :
  NoDup (id_of <$> primary :: rest) ->
  0 <= DifferentDataCenterCount rp /\ 0 <= DifferentRackCount rp /\ 0 <= SameRackCount rp ->
  let sel := selectNodesForReplica id_of dc_of rack_of (primary :: rest) rp in
  NoDup (id_of <$> sel) /\ sel ⊆ primary :: rest /\ head sel = Some primary /\
  zlen sel = Z.min (TotalCopies rp) (zlen (primary :: rest)) /\
  (enough primary rest rp -> honours rp sel).
Proof.
  intros Hnd Hrp sel. pose proof (base_length primary rest rp Hrp) as Hb.
  assert (0 < TotalCopies rp) as Ht by (unfold TotalCopies; lia).
  pose proof (three_passes_ok primary rest rp Hnd Hrp) as Hok3. rewrite three_passes_base in Hok3 by done.
  set (n := Z.to_nat (TotalCopies rp - zlen (base primary rest rp))).
  set (s := pick_where (fun _ => true) n (primary :: rest) (base primary rest rp, ids (base primary rest rp))).
  assert (sel = fst s) as E.
  { unfold sel. rewrite select_base by done. fold n s. apply take_ge.
    pose proof (pick_where_length (fun _ => true) n (primary :: rest) (base primary rest rp, ids (base primary rest rp))) as Hl.
    fold s in Hl. cbn [fst] in Hl. lia. }
  destruct (pick_where_ok (primary :: rest) (fun _ => true) n (primary :: rest) _ ltac:(done) Hok3) as (Hn & Hu & Hs).
  fold s in Hn, Hu, Hs. rewrite E. split_and!; [done|done| | |].
  - destruct (pick_where_prefix (fun _ => true) n (primary :: rest) (base primary rest rp, ids (base primary rest rp))) as [k Hk].
    fold s in Hk. rewrite Hk. done.
  - pose proof (length_subset _ _ Hn Hs) as Hle.
    destruct (pick_where_all n (primary :: rest) (base primary rest rp, ids (base primary rest rp))) as [Hl|Hl]; fold s in Hl.
    + cbn [fst] in Hl. lia.
    + assert (primary :: rest ⊆ fst s) as Hsub.
      { intros p Hp. specialize (Hl p Hp). rewrite Hu in Hl. unfold ids in Hl. rewrite elem_of_list_to_set, list_elem_of_fmap in Hl.
        destruct Hl as (q & Eq & Hq). by rewrite (id_inj primary rest Hnd p q Hp (Hs q Hq) Eq). }
      pose proof (length_subset _ _ Hnd Hsub) as Hge.
      pose proof (pick_where_length (fun _ => true) n (primary :: rest) (base primary rest rp, ids (base primary rest rp))) as Hl2.
      fold s in Hl2. cbn [fst] in Hl2. lia.
  - intros He. rewrite <- E. unfold sel. rewrite select_enough by done. by apply base_honours.
Qed.
(** No id is selected twice, even when candidates share one. *)
Lemma select_NoDup candidates rp :
  0 <= SameRackCount rp -> NoDup (id_of <$> selectNodesForReplica id_of dc_of rack_of candidates rp).
Proof.
  intros Hrp. unfold selectNodesForReplica. case_decide; [apply NoDup_nil_2|]. destruct candidates as [|primary rest]; [apply NoDup_nil_2|].
  rewrite fmap_take. eapply sublist_NoDup; [|apply sublist_take]. rewrite pick_any_where.
  match goal with |- NoDup (id_of <$> fst (pick_where _ _ _ ?s)) => assert (picked_ok (primary :: rest) s) as Hs end.
  { rewrite pick_same_rack_where by done. apply pick_where_ok; [done|]. apply pick_racks_ok; [done|].
    rewrite pick_data_centers_where. apply pick_where_ok; [intros x Hx; by right|].
    split_and!; cbn; [apply NoDup_singleton|unfold ids; cbn; set_solver|]. intros x ->%list_elem_of_singleton. by left. }
  by eapply (pick_where_ok (primary :: rest)) in Hs as (Hn & _).
Qed.
End select.

Section examples.
#[local] Open Scope string_scope.

(** Three data nodes: one in data center d1, two in d2 on different racks. *)
Definition ex_id (p : ptr) : string := match p with 0%nat => "a" | 1%nat => "b" | _ => "c" end.
Definition ex_dc (p : ptr) : string := match p with 0%nat => "d1" | _ => "d2" end.
Definition ex_rack (p : ptr) : string := match p with 2%nat => "r2" | _ => "r1" end.

Lemma ex_NoDup : NoDup (ex_id <$> [1%nat; 2%nat; 0%nat]).
Proof. apply (bool_decide_unpack _). by vm_compute. Qed.

Lemma selectNodes_placement_witness :
  honours ex_dc ex_rack (mkReplicaPlacement 1 1 0)
    (selectNodesForReplica ex_id ex_dc ex_rack [1%nat; 2%nat; 0%nat] (mkReplicaPlacement 1 1 0)).
Proof.
  destruct (selectNodes_placement ex_id ex_dc ex_rack 1%nat [2%nat; 0%nat] (mkReplicaPlacement 1 1 0) ex_NoDup)
    as (_ & _ & _ & _ & H); [cbn; lia|].
  apply H. split; [vm_compute; congruence|]. split; vm_compute; congruence.
Defined.

(** With the candidates in the order of their ids the first one has no other rack in its
    data center. The copy that was to be in another rack goes to another data center,
    although the two other nodes would honour the placement. *)
Lemma select_ignores_placement :
  let rp := mkReplicaPlacement 0 1 0 in
  selectNodesForReplica ex_id ex_dc ex_rack [0%nat; 1%nat; 2%nat] rp = [0%nat; 1%nat] /\
  ~ honours ex_dc ex_rack rp [0%nat; 1%nat] /\ honours ex_dc ex_rack rp [1%nat; 2%nat].
Proof.
  split; [by vm_compute|]. split; [by intros (H & _)|]. split_and!; try by vm_compute. apply (bool_decide_unpack _). by vm_compute.
Qed.
End examples.
