(* ===== verification/GrowthSpec.v ===== *)
(** * GrowthSpec: capacity and reservations while volumes are created

    On every path of [CheckAndGrow] the slots it reserves are given back and no disk
    gets more volumes than it may have. *)

From S2P Require Import Prelude GoStrings Types TopoNode VolumeLayout Topology TopologySpec VolumeGrowth.

#[local] Open Scope string_scope.

(** ** One data node *)

Definition max_of (d : DataNode) (dt : string) : Z := default 0 (di_maxVolumeCount <$> dn_disks d !! dt).

(** [d] is a data node after some steps from [d0]: no limit changed, and a disk with a
    limit has at most as many volumes as before or as the limit. *)
Record bounded (d0 d : DataNode) : Prop := {
  bd_ok : data_ok d;
  bd_max : forall dt, max_of d dt = max_of d0 dt;
  bd_count : forall dt, max_of d0 dt > 0 -> disk_count d dt <= Z.max (disk_count d0 dt) (max_of d0 dt);
}.

(** The reservation that is held on a node, before and after its volume is created. *)
Inductive slot := Held (dt : string) | Filled (dt : string).

Definition slot_type (s : slot) : string := match s with Held dt | Filled dt => dt end.

Definition extra (o : option slot) (dt : string) : Z :=
  match o with Some s => if decide (dt = slot_type s) then 1 else 0 | None => 0 end.

Record progress (d0 d : DataNode) (o : option slot) : Prop := {
  pg_bounded : bounded d0 d;
  pg_reserved : forall dt, reserved d dt = reserved d0 dt + extra o dt;
  pg_room : forall dt, o = Some (Held dt) -> max_of d0 dt > 0 -> disk_count d dt < max_of d0 dt;
}.

Lemma progress_refl d : data_ok d -> progress d d None.
Proof. intros H. split; [split; [done|done|lia]|cbn; lia|done]. Qed.

Lemma reserved_set d dt n dt' :
  reserved (set_reservations (<[dt := n]> (dn_reservations d)) d) dt' = if decide (dt' = dt) then n else reserved d dt'.
Proof.
  unfold reserved. cbn [set_reservations dn_reservations].
  destruct (decide (dt' = dt)) as [->|Hd]; [by rewrite lookup_insert_eq|by rewrite lookup_insert_ne].
Qed.

Lemma ReserveSlot_ok dt d : data_ok d -> data_ok (snd (ReserveSlot dt d)).
Proof.
  intros [Hc Hi Hr]. unfold ReserveSlot. destruct (dn_disks d !! dt) as [disk|]; [|by split].
  destruct (decide (di_maxVolumeCount disk > 0 /\ free_slots d dt disk <= 0)); [by split|]. cbn [snd]. split; [done..|].
  intros dt'. rewrite reserved_set. case_decide; [|apply Hr]. specialize (Hr dt). lia.
Qed.

Lemma ReleaseSlot_ok dt d : data_ok d -> data_ok (ReleaseSlot dt d).
Proof.
  intros [Hc Hi Hr]. unfold ReleaseSlot. destruct (decide (reserved d dt > 0)); [|by split]. split; [done..|].
  intros dt'. rewrite reserved_set. case_decide; [lia|apply Hr].
Qed.

Lemma progress_reserve d0 d dt :
  progress d0 d None -> fst (ReserveSlot dt d) = true -> progress d0 (snd (ReserveSlot dt d)) (Some (Held dt)).
Proof.
  intros [[Hok Hmax Hcnt] Hres _]. unfold ReserveSlot. destruct (dn_disks d !! dt) as [disk|] eqn:E; [|done].
  destruct (decide (di_maxVolumeCount disk > 0 /\ free_slots d dt disk <= 0)) as [|Hfree]; [done|]. intros _.
  assert (data_ok (snd (ReserveSlot dt d))) as Hok' by by apply ReserveSlot_ok.
  unfold ReserveSlot in Hok'. rewrite E, decide_False in Hok' by done. cbn [snd] in *. split.
  - by split.
  - intros dt'. rewrite reserved_set. cbn [extra slot_type]. specialize (Hres dt'). cbn in Hres. case_decide; subst; lia.
  - intros dt' [= <-] Hm. rewrite <- Hmax in *. unfold max_of, disk_count, free_slots, di_GetFreeVolumeSlot in *.
    cbn [set_reservations dn_disks]. rewrite E in *. cbn in *. rewrite decide_False in Hfree by lia.
    pose proof (do_reserved _ Hok dt). destruct (decide (di_maxVolumeCount disk - di_volumeCount disk < 0)); lia.
Qed.

Lemma disk_key_id s : disk_key s = s.
Proof. unfold disk_key, DefaultDiskType. by case_decide. Qed.

Lemma max_of_update dt f d dt' :
  (forall di, di_maxVolumeCount (f di) = di_maxVolumeCount di) -> max_of (update_disk dt f d) dt' = max_of d dt'.
Proof.
  intros Hf. unfold max_of, update_disk, getOrCreateDiskUnsafe. cbn [set_disks dn_disks].
  destruct (decide (dt' = dt)) as [->|Hd]; [|by rewrite lookup_insert_ne].
  rewrite lookup_insert_eq. cbn. rewrite Hf. by destruct (dn_disks d !! dt).
Qed.

Lemma max_of_remove dt d dt' : max_of (disk_remove dt d) dt' = max_of d dt'.
Proof.
  unfold max_of, disk_remove. destruct (dn_disks d !! dt) as [di|] eqn:E; [|done]. cbn [set_disks dn_disks].
  destruct (decide (dt' = dt)) as [->|Hd]; [|by rewrite lookup_insert_ne].
  rewrite lookup_insert_eq, E. cbn. unfold di_RemoveVolume. by case_decide.
Qed.

Lemma AddOrUpdateVolume_max v d dt : max_of (AddOrUpdateVolume v d) dt = max_of d dt.
Proof.
  unfold AddOrUpdateVolume. destruct (dn_volumes d !! vi_Id v); change (max_of (set_volumes ?m ?d) dt) with (max_of d dt).
  - case_decide; [|done]. by rewrite max_of_update, max_of_remove.
  - by rewrite max_of_update.
Qed.

Lemma DeleteVolume_max vid d dt : max_of (DeleteVolume vid d) dt = max_of d dt.
Proof. unfold DeleteVolume. destruct (dn_volumes d !! vid); [|done]. by rewrite max_of_remove. Qed.

Lemma on_disk_range dt v : 0 <= on_disk dt v <= 1.
Proof. unfold on_disk. case_decide; lia. Qed.

Lemma DeleteVolume_count vid d dt : data_ok d -> disk_count (DeleteVolume vid d) dt <= disk_count d dt.
Proof.
  intros Hok. pose proof (DeleteVolume_ok vid d Hok) as Hok'. rewrite (do_count _ Hok'), (do_count _ Hok), DeleteVolume_volumes.
  destruct (dn_volumes d !! vid) as [v|] eqn:E; [|by rewrite delete_id].
  rewrite (msum_delete _ _ _ _ E). pose proof (on_disk_range dt v). lia.
Qed.

Lemma progress_fill d0 d dt v :
  progress d0 d (Some (Held dt)) -> vi_DiskType v = dt -> progress d0 (AddOrUpdateVolume v d) (Some (Filled dt)).
Proof.
  intros [[Hok Hmax Hcnt] Hres Hroom] Hv. split; [split|..].
  - by apply AddOrUpdateVolume_ok.
  - intros dt'. by rewrite AddOrUpdateVolume_max.
  - intros dt' Hm. rewrite AddOrUpdateVolume_count by done. specialize (Hcnt dt' Hm).
    assert (0 <= default 0 (on_disk dt' <$> dn_volumes d !! vi_Id v)) as Hold
      by (destruct (dn_volumes d !! vi_Id v); cbn; [apply on_disk_range|lia]).
    unfold on_disk at 2. rewrite disk_key_id, Hv. case_decide as Hd; [|lia]. subst dt'. specialize (Hroom dt eq_refl Hm). lia.
  - intros dt'. unfold reserved. rewrite AddOrUpdateVolume_reservations. apply Hres.
  - done.
Qed.

Lemma progress_drop d0 d dt vid :
  progress d0 d (Some (Filled dt)) -> progress d0 (DeleteVolume vid d) (Some (Filled dt)).
Proof.
  intros [[Hok Hmax Hcnt] Hres Hroom]. split; [split|..].
  - by apply DeleteVolume_ok.
  - intros dt'. by rewrite DeleteVolume_max.
  - intros dt' Hm. etrans; [by apply DeleteVolume_count|auto].
  - intros dt'. unfold reserved. rewrite DeleteVolume_reservations. apply Hres.
  - done.
Qed.

Lemma progress_release d0 d s :
  (forall dt, 0 <= reserved d0 dt) -> progress d0 d (Some s) -> progress d0 (ReleaseSlot (slot_type s) d) None.
Proof.
  intros H0 [[Hok Hmax Hcnt] Hres Hroom].
  assert (data_ok (ReleaseSlot (slot_type s) d)) as Hok' by by apply ReleaseSlot_ok.
  pose proof (Hres (slot_type s)) as Hs. cbn [extra] in Hs. rewrite decide_True in Hs by done. specialize (H0 (slot_type s)).
  unfold ReleaseSlot in *. rewrite decide_True in * by lia. split; [by split| |done].
  intros dt'. rewrite reserved_set. specialize (Hres dt'). cbn [extra] in *. case_decide; subst; lia.
Qed.

(** ** All data nodes *)

(** The nodes of [h] have made progress from those of [h0]; [pend] has their slots. *)
Record grow_inv (h0 h : heap) (pend : ptr -> option slot) : Prop := {
  gi_heap : heap_ok h;
  gi_ids : forall q, GetId h q = GetId h0 q;
  gi_some : forall q d0, ToDataNode h0 q = Some d0 -> exists d, ToDataNode h q = Some d /\ progress d0 d (pend q);
  gi_none : forall q, ToDataNode h0 q = None -> ToDataNode h q = None /\ pend q = None;
}.

Definition with_slot (pend : ptr -> option slot) (p : ptr) (o : option slot) (q : ptr) : option slot :=
  if decide (q = p) then o else pend q.

Lemma data_ok_of h p d : heap_ok h -> ToDataNode h p = Some d -> data_ok d.
Proof.
  intros Hok (n & Hn & Hk)%bind_Some. unfold data_of in Hk. destruct (n_kind n) eqn:E; simplify_eq. by eapply (ho_data _ Hok).
Qed.

Lemma grow_inv_refl h : heap_ok h -> grow_inv h h (fun _ => None).
Proof. intros Hok. split; [done|done| |done]. intros q d Hd. exists d. split; [done|]. by eapply progress_refl, data_ok_of. Qed.

Lemma grow_update h0 h pend p f o d0 :
  grow_inv h0 h pend -> ToDataNode h0 p = Some d0 -> (forall d, data_ok d -> data_ok (f d)) ->
  (forall d, ToDataNode h p = Some d -> progress d0 d (pend p) -> progress d0 (f d) o) ->
  grow_inv h0 (update_data p f h) (with_slot pend p o).
Proof.
  intros [Hh Hi Hs Hn] Hp Hf Hpr. split.
  - by apply update_data_ok.
  - intros q. by rewrite update_data_id.
  - intros q dq Hq. destruct (Hs q dq Hq) as (d & Hd & Hprog). rewrite update_data_lookup, Hd. unfold with_slot. cbn.
    destruct (decide (q = p)) as [->|]; [|by eauto]. eexists. split; [done|]. rewrite Hp in Hq. injection Hq as <-. auto.
  - intros q Hq. destruct (Hn q Hq) as [Hd Hpq]. rewrite update_data_lookup, Hd. unfold with_slot.
    destruct (decide (q = p)) as [->|]; [congruence|done].
Qed.

Lemma grow_inv_ext h0 h pend pend' : (forall q, pend' q = pend q) -> grow_inv h0 h pend -> grow_inv h0 h pend'.
Proof. intros E [Hh Hi Hs Hn]. split; [done|done| |]; intros q; rewrite E; auto. Qed.

Lemma pend_data h0 h pend q s : grow_inv h0 h pend -> pend q = Some s -> exists d0, ToDataNode h0 q = Some d0.
Proof.
  intros Hinv Hq. destruct (ToDataNode h0 q) eqn:E; [by eauto|]. apply (gi_none _ _ _ Hinv) in E as [_ E]. congruence.
Qed.

Definition res_of (rs : list CapacityReservation) (q : ptr) : option CapacityReservation :=
  List.find (fun r => bool_decide (cr_DataNode r = q)) rs.

(** The slots are those of the reservations. *)
Definition covers (rs : list CapacityReservation) (pend : ptr -> option slot) : Prop :=
  forall q, slot_type <$> pend q = cr_DiskType <$> res_of rs q.

Lemma res_of_None rs q : q ∉ (cr_DataNode <$> rs) -> res_of rs q = None.
Proof.
  intros Hq. unfold res_of. destruct (List.find _ rs) as [r|] eqn:E; [|done]. apply List.find_some in E as [Hin Hr].
  apply bool_decide_eq_true in Hr as <-. destruct Hq. apply (list_elem_of_fmap_2 cr_DataNode). by apply list_elem_of_In.
Qed.

Lemma res_of_elem rs r : NoDup (cr_DataNode <$> rs) -> r ∈ rs -> res_of rs (cr_DataNode r) = Some r.
Proof.
  induction rs as [|r' rs IH]; intros Hnd Hr; [by apply not_elem_of_nil in Hr|].
  cbn in Hnd. apply NoDup_cons in Hnd as [Hn Hnd]. unfold res_of. cbn [List.find].
  apply elem_of_cons in Hr as [->|Hr]; [by rewrite bool_decide_eq_true_2|].
  rewrite bool_decide_eq_false_2; [by apply IH|]. intros E. apply Hn. rewrite E. by apply (list_elem_of_fmap_2 cr_DataNode).
Qed.

Lemma res_of_snoc rs r q :
  res_of (rs ++ [r])%list q =
  match res_of rs q with Some x => Some x | None => if bool_decide (cr_DataNode r = q) then Some r else None end.
Proof. unfold res_of. induction rs as [|r' rs IH]; [done|]. cbn [app List.find]. by destruct (bool_decide (cr_DataNode r' = q)). Qed.

Lemma release_all_inv h0 rs h pend :
  heap_ok h0 -> grow_inv h0 h pend -> NoDup (cr_DataNode <$> rs) -> covers rs pend ->
  grow_inv h0 (release_all rs h) (fun _ => None).
Proof.
  intros Hh0. unfold release_all. revert h pend. induction rs as [|r rs IH]; intros h pend Hinv Hnd Hc; cbn [fold_left].
  - eapply grow_inv_ext; [|exact Hinv]. intros q. specialize (Hc q). cbn in Hc. by destruct (pend q).
  - cbn in Hnd. apply NoDup_cons in Hnd as [Hr Hnd].
    pose proof (Hc (cr_DataNode r)) as Hcr. cbn [res_of List.find] in Hcr. rewrite bool_decide_eq_true_2 in Hcr by done. cbn in Hcr.
    destruct (pend (cr_DataNode r)) as [s|] eqn:Es; [|done]. injection Hcr as Ht.
    destruct (pend_data _ _ _ _ _ Hinv Es) as [d0 Hd0]. apply (IH _ (with_slot pend (cr_DataNode r) None)); [|done|].
    + eapply grow_update; [done|done|intros; by apply ReleaseSlot_ok|]. intros d _. rewrite Es, <- Ht.
      apply progress_release. intros dt. by eapply do_reserved, data_ok_of.
    + intros q. unfold with_slot. destruct (decide (q = cr_DataNode r)) as [->|Hne].
      * cbn. by rewrite res_of_None.
      * rewrite (Hc q). cbn [res_of List.find]. by rewrite bool_decide_eq_false_2 by done.
Qed.

Lemma reserve_all_inv h0 nodes dt rs h pend :
  heap_ok h0 -> grow_inv h0 h pend -> NoDup ((cr_DataNode <$> rs) ++ nodes)%list -> covers rs pend ->
  (forall q s, pend q = Some s -> exists dt, s = Held dt) ->
  match reserve_all nodes dt rs h with
  | (true, rs', h') => (cr_DataNode <$> rs') = ((cr_DataNode <$> rs) ++ nodes)%list /\
      exists pend', grow_inv h0 h' pend' /\ covers rs' pend' /\ (forall q s, pend' q = Some s -> exists dt, s = Held dt)
  | (false, _, h') => grow_inv h0 h' (fun _ => None)
  end.
Proof.
  intros Hh0. revert rs h pend. induction nodes as [|p nodes IH]; intros rs h pend Hinv Hnd Hc Hheld; cbn [reserve_all].
  - rewrite app_nil_r. by eauto.
  - destruct (reserveCapacity p dt h) as [[r h']|] eqn:E.
    + unfold reserveCapacity in E. apply bind_Some in E as (d & Hd & (rdt & Hrdt & E)%bind_Some).
      destruct (fst (ReserveSlot rdt d)) eqn:Ef; [|done]. injection E as <- <-.
      assert (p ∉ (cr_DataNode <$> rs)) as Hp.
      { apply NoDup_app in Hnd as (_ & Hdis & _). intros Hp. apply (Hdis p Hp). by left. }
      assert (pend p = None) as Hpp by (specialize (Hc p); rewrite res_of_None in Hc by done; by destruct (pend p)).
      assert (exists d0, ToDataNode h0 p = Some d0) as [d0 Hd0].
      { destruct (ToDataNode h0 p) eqn:E0; [by eauto|]. apply (gi_none _ _ _ Hinv) in E0 as [E0 _]. congruence. }
      specialize (IH (rs ++ [mkReservation p rdt])%list (update_data p (fun d => snd (ReserveSlot rdt d)) h)
        (with_slot pend p (Some (Held rdt)))).
      rewrite fmap_app in IH. cbn [fmap list_fmap cr_DataNode] in IH. rewrite <- app_assoc in IH. cbn [app] in IH. apply IH; [|done|..].
      * eapply grow_update; [done|done|intros; by apply ReserveSlot_ok|]. intros d' Hd'. rewrite Hpp. rewrite Hd in Hd'. injection Hd' as <-.
        intros Hpr. by apply progress_reserve.
      * intros q. unfold with_slot. rewrite res_of_snoc.
        destruct (decide (q = p)) as [->|Hne].
        -- rewrite res_of_None by done. cbn. by rewrite bool_decide_eq_true_2.
        -- rewrite (Hc q). destruct (res_of rs q); [done|]. cbn. by rewrite bool_decide_eq_false_2 by congruence.
      * intros q s. unfold with_slot. destruct (decide (q = p)); [intros Hs; injection Hs as <-; by eauto|apply Hheld].
    + apply NoDup_app in Hnd as (Hnd & _). by eapply release_all_inv.
Qed.

Lemma has_volume_update p f h q vid :
  (forall d, is_Some (dn_volumes d !! vid) -> is_Some (dn_volumes (f d) !! vid)) ->
  has_volume h q vid -> has_volume (update_data p f h) q vid.
Proof.
  intros Hf (d & v & Hd & Hv). unfold has_volume. rewrite update_data_lookup, Hd. cbn.
  case_decide; [|by eauto]. destruct (Hf d) as [v' Hv']; [by eauto|]. by eauto.
Qed.

Lemma rollback_inv h0 vid done h pend :
  grow_inv h0 h pend -> (forall q, q ∈ done -> exists dt, pend q = Some (Filled dt)) ->
  grow_inv h0 (fold_left (fun h q => update_data q (DeleteVolume vid) h) done h) pend.
Proof.
  revert h. induction done as [|q done IH]; intros h Hinv Hdone; cbn [fold_left]; [done|].
  destruct (Hdone q (list_elem_of_here _ _)) as [dt Hq]. destruct (pend_data _ _ _ _ _ Hinv Hq) as [d0 Hd0].
  apply IH; [|intros q' Hq'; apply Hdone; by right].
  eapply grow_inv_ext; [|eapply (grow_update h0 h pend q _ (Some (Filled dt))); [done|done|intros; by apply DeleteVolume_ok|]].
  - intros q'. unfold with_slot. case_decide; by subst.
  - intros d _. rewrite Hq. apply progress_drop.
Qed.

Lemma allocate_all_inv h0 rpc vid c rp todo done h pend :
  grow_inv h0 h pend -> NoDup (cr_DataNode <$> todo) ->
  (forall r, r ∈ todo -> pend (cr_DataNode r) = Some (Held (cr_DiskType r))) ->
  (forall q, q ∈ done -> exists dt, pend q = Some (Filled dt)) ->
  let '(ok, h') := allocate_all rpc vid c rp todo done h in
  (exists pend', grow_inv h0 h' pend' /\ forall q, slot_type <$> pend' q = slot_type <$> pend q) /\
  (ok = true -> forall q, has_volume h q vid \/ q ∈ (cr_DataNode <$> todo) -> has_volume h' q vid).
Proof.
  revert done h pend. induction todo as [|r todo IH]; intros done h pend Hinv Hnd Htodo Hdone; cbn [allocate_all].
  { split; [by eauto|]. intros _ q [Hq|Hq]; [done|]. by apply not_elem_of_nil in Hq. }
  cbn in Hnd. apply NoDup_cons in Hnd as [Hr Hnd]. pose proof (Htodo r (list_elem_of_here _ _)) as Hpr.
  destruct (rpc (cr_DataNode r) vid); cbn [negb].
  - destruct (pend_data _ _ _ _ _ Hinv Hpr) as [d0 Hd0]. set (v := new_volume vid c rp (cr_DiskType r)).
    specialize (IH (done ++ [cr_DataNode r])%list (update_data (cr_DataNode r) (AddOrUpdateVolume v) h)
      (with_slot pend (cr_DataNode r) (Some (Filled (cr_DiskType r))))).
    destruct (allocate_all _ _ _ _ todo _ _) as [ok h']. destruct IH as [(pend' & Hinv' & Hty) Hvol]; [| done|..].
    + eapply grow_update; [done|done|intros; by apply AddOrUpdateVolume_ok|]. intros d _. rewrite Hpr.
      intros Hp. by apply progress_fill.
    + intros r' Hr'. unfold with_slot. rewrite decide_False; [apply Htodo; by right|].
      intros E. apply Hr. rewrite <- E. by apply (list_elem_of_fmap_2 cr_DataNode).
    + intros q Hq. unfold with_slot. case_decide; [by eauto|]. apply elem_of_app in Hq as [Hq|Hq%list_elem_of_singleton]; [auto|done].
    + split.
      * exists pend'. split; [done|]. intros q. rewrite Hty. unfold with_slot. case_decide; [|done]. subst. by rewrite Hpr.
      * intros Hok q Hq. apply Hvol; [done|]. destruct Hq as [Hq|Hq].
        -- left. apply has_volume_update; [|done]. intros d. rewrite AddOrUpdateVolume_volumes, lookup_insert_is_Some.
           destruct (decide (vi_Id v = vid)); auto.
        -- cbn in Hq. apply elem_of_cons in Hq as [->|Hq]; [|by right]. left.
           destruct (gi_some _ _ _ Hinv _ _ Hd0) as (d & Hd & _). exists (AddOrUpdateVolume v d).
           rewrite update_data_lookup, decide_True, Hd, AddOrUpdateVolume_volumes, lookup_insert_eq by done. by eauto.
  - split; [|done]. exists pend. split; [by apply rollback_inv|done].
Qed.

(** ** Growing *)

Lemma progress_trans d0 d1 d2 : progress d0 d1 None -> progress d1 d2 None -> progress d0 d2 None.
Proof.
  intros [[Hok1 Hm1 Hc1] Hr1 _] [[Hok2 Hm2 Hc2] Hr2 _]. split; [split; [done|by intros; rewrite Hm2|]| |done].
  - intros dt Hm. specialize (Hc1 dt Hm). specialize (Hc2 dt). rewrite Hm1 in Hc2. specialize (Hc2 Hm). lia.
  - intros dt. specialize (Hr1 dt). specialize (Hr2 dt). cbn in *. lia.
Qed.

Definition settled (h0 h : heap) : Prop := grow_inv h0 h (fun _ => None).

Lemma settled_trans h0 h1 h2 : settled h0 h1 -> settled h1 h2 -> settled h0 h2.
Proof.
  intros [Hh1 Hi1 Hs1 Hn1] [Hh2 Hi2 Hs2 Hn2]. split; [done|intros q; by rewrite Hi2| |].
  - intros q d0 Hq. destruct (Hs1 q d0 Hq) as (d1 & Hd1 & Hp1). destruct (Hs2 q d1 Hd1) as (d2 & Hd2 & Hp2).
    exists d2. split; [done|]. by eapply progress_trans.
  - intros q Hq. destruct (Hn1 q Hq) as [Hq1 _]. auto.
Qed.

Lemma settled_ids h0 h : settled h0 h -> forall q, dn_GetId h q = dn_GetId h0 q.
Proof.
  intros [_ Hi Hs Hn] q. unfold dn_GetId. destruct (ToDataNode h0 q) as [d0|] eqn:E.
  - destruct (Hs q d0 E) as (d & -> & _). apply Hi.
  - by destruct (Hn q E) as [-> _].
Qed.

(** What growing keeps of the topology. *)
Record grown_from (t t' : Topology) : Prop := {
  gf_settled : settled (t_heap t) (t_heap t');
  gf_layouts : t_layouts t' = t_layouts t;
}.

Lemma grown_from_ok t t' :
  topo_ok t -> grown_from t t' -> topo_ok t' /\ forall vid x, registered t' vid x <-> registered t vid x.
Proof.
  intros Hok [Hs Hl]. destruct (with_heap_ok t (t_heap t')) as [Hok' Hr]; [done|apply Hs| |].
  - intros q _. by apply settled_ids.
  - destruct t' as [h' l' n']. cbn in *. subst l'. split; [split; apply Hok'|exact Hr].
Qed.

(** A volume that the code reports as created. *)
Definition created_on (t t' : Topology) (rp : ReplicaPlacement) (vid : Z) : Prop :=
  exists nodes, NoDup (GetId (t_heap t) <$> nodes) /\ zlen nodes = TotalCopies rp /\
    forall p, p ∈ nodes -> has_volume (t_heap t') p vid.

Lemma release_all_volumes rs h q vid : has_volume h q vid -> has_volume (release_all rs h) q vid.
Proof.
  unfold release_all. revert h. induction rs as [|r rs IH]; intros h Hv; cbn [fold_left]; [done|]. apply IH.
  apply has_volume_update; [|done]. intros d. unfold ReleaseSlot. by case_decide.
Qed.

Lemma NextVolumeId_heap h t : NextVolumeId (set_heap h t) = (fst (NextVolumeId t), set_heap h (snd (NextVolumeId t))).
Proof. unfold NextVolumeId. cbn [set_heap t_nextVolumeId]. by case_decide. Qed.

Lemma NextVolumeId_frame t :
  t_heap (snd (NextVolumeId t)) = t_heap t /\ t_layouts (snd (NextVolumeId t)) = t_layouts t.
Proof. unfold NextVolumeId. by case_decide. Qed.

Lemma select_length id_of dc_of rack_of candidates rp :
  0 <= TotalCopies rp -> zlen (selectNodesForReplica id_of dc_of rack_of candidates rp) <= TotalCopies rp.
Proof.
  intros Ht. unfold selectNodesForReplica. case_decide; [cbn; lia|]. destruct candidates; [cbn; lia|]. rewrite length_take. lia.
Qed.

Lemma grow_one_spec rpc persist candidates c rp dt t :
  topo_ok t -> 0 <= TotalCopies rp -> 0 <= SameRackCount rp ->
  let '(e, t') := grow_one rpc persist candidates c rp dt t in
  grown_from t t' /\ (e = None -> created_on t t' rp (fst (NextVolumeId t))).
Proof.
  intros [Hh _] Htc Hrp. unfold grow_one.
  set (nodes := selectNodesForReplica _ _ _ candidates rp).
  assert (NoDup (GetId (t_heap t) <$> nodes)) as Hnd by by apply select_NoDup.
  pose proof (select_length (GetId (t_heap t)) (GetDataCenter (t_heap t)) (GetRack (t_heap t)) candidates rp Htc) as Hlen. fold nodes in Hlen.
  assert (settled (t_heap t) (t_heap t)) as H0 by by apply grow_inv_refl.
  destruct (decide (zlen nodes < TotalCopies rp)) as [|Hn]; [by split|].
  pose proof (reserve_all_inv (t_heap t) nodes dt [] (t_heap t) _ Hh H0) as Hres.
  destruct (reserve_all nodes dt [] (t_heap t)) as [[[] rs] h1]; cbn [negb]; last first.
  { split; [split; [apply Hres; [by eapply NoDup_fmap_1|done|done]|done]|done]. }
  destruct Hres as (Hns & pend & Hinv & Hcov & Hheld); [by eapply NoDup_fmap_1|done|done|].
  cbn [fmap list_fmap app] in Hns. assert (NoDup (cr_DataNode <$> rs)) as Hndr by (rewrite Hns; by eapply NoDup_fmap_1).
  unfold AllocateNextVolumeId. rewrite NextVolumeId_heap. destruct (NextVolumeId t) as [vid t1] eqn:Ev. cbn [fst snd].
  pose proof (NextVolumeId_frame t) as [Eh El]. rewrite Ev in Eh, El. cbn [snd] in Eh, El.
  destruct (persist vid); cbn [set_heap t_heap].
  - pose proof (allocate_all_inv (t_heap t) rpc vid c rp rs [] h1 pend Hinv Hndr) as Hall.
    destruct (allocate_all rpc vid c rp rs [] h1) as [ok h2]. destruct Hall as [(pend' & Hinv' & Hty) Hvol].
    { intros r Hr. specialize (Hcov (cr_DataNode r)). rewrite res_of_elem in Hcov by done.
      destruct (pend (cr_DataNode r)) as [sl|] eqn:Es; [|done]. destruct (Hheld _ _ Es) as [dt' ->]. cbn in Hcov. congruence. }
    { by intros q ?%not_elem_of_nil. }
    assert (settled (t_heap t) (release_all rs h2)) as Hs2.
    { eapply release_all_inv; [done|done|done|]. intros q. by rewrite Hty. }
    destruct ok; (split; [by split|]); [|done]. intros _. exists nodes. split_and!; [done|lia|].
    intros p Hp. apply release_all_volumes, Hvol; [done|]. right. by rewrite Hns.
  - split; [|done]. split; [|done]. by eapply release_all_inv.
Qed.

Lemma grow_loop_spec rpc persist candidates c rp dt count created t :
  topo_ok t -> 0 <= TotalCopies rp -> 0 <= SameRackCount rp ->
  let '(n, e, t') := grow_loop rpc persist candidates c rp dt count created t in
  grown_from t t' /\ created <= n <= created + Z.of_nat count /\
  (e = None -> n = created + Z.of_nat count) /\
  (n = created + 1 -> count = 1%nat -> created_on t t' rp (fst (NextVolumeId t))).
Proof.
  intros Hok Htc Hrp. revert created t Hok. induction count as [|count IH]; intros created t Hok; cbn [grow_loop].
  { split_and!; [|lia|lia|lia|done]. split; [|done]. apply grow_inv_refl, Hok. }
  pose proof (grow_one_spec rpc persist candidates c rp dt t Hok Htc Hrp) as H1.
  destruct (grow_one rpc persist candidates c rp dt t) as [[e|] t1]; destruct H1 as [Hg Hcr].
  { split_and!; [done|lia|lia|done|lia]. }
  specialize (IH (created + 1) t1 (proj1 (grown_from_ok t t1 Hok Hg))).
  destruct (grow_loop rpc persist candidates c rp dt count (created + 1) t1) as [[n e] t2] eqn:El.
  destruct IH as (Hg2 & Hn & He & _). split_and!; [|lia|lia|intros E; specialize (He E); lia|].
  - destruct Hg, Hg2. split; [by eapply settled_trans|congruence].
  - intros _ Hcount. injection Hcount as ->. cbn in El. injection El as <- <- <-. auto.
Qed.

Lemma GetOrCreateVolumeLayout_ok c r tt d t :
  topo_ok t -> let '(vl, t') := GetOrCreateVolumeLayout c r tt d t in
  topo_ok t' /\ t_heap t' = t_heap t /\ t_nextVolumeId t' = t_nextVolumeId t /\
  forall vid x, registered t' vid x <-> registered t vid x.
Proof.
  intros Hok. unfold GetOrCreateVolumeLayout. destruct (GetOrCreate _ _ _ _ _) as [[key vl] m] eqn:E.
  apply GetOrCreate_spec in E as [-> [Hk|[Hk ->]]].
  - rewrite insert_id by done. by destruct t.
  - pose proof (NewVolumeLayout_represents (view 0 (t_heap t)) c r tt d) as Hnew.
    destruct (set_layout_ok t key _ ∅ _ ∅ Hok Hnew (or_intror (conj Hk eq_refl)) Hnew) as [Hok' Hr].
    split; [done|]. split; [done|]. split; [done|]. intros vid x. rewrite Hr by done. rewrite lookup_empty.
    split; [intros [?|[? ?]]; done|by left].
Qed.

(** The books of the data nodes: reservations as before, no disk beyond its limit. *)
Definition books_kept (t t' : Topology) : Prop :=
  topo_ok t' /\ (forall vid x, registered t' vid x <-> registered t vid x) /\
  forall q d, ToDataNode (t_heap t) q = Some d ->
    exists d', ToDataNode (t_heap t') q = Some d' /\ bounded d d' /\ forall dt, reserved d' dt = reserved d dt.

Lemma grown_books t t1 t' :
  topo_ok t1 -> t_heap t1 = t_heap t -> (forall vid x, registered t1 vid x <-> registered t vid x) ->
  grown_from t1 t' -> books_kept t t'.
Proof.
  intros Hok Eh Hr Hg. destruct (grown_from_ok t1 t' Hok Hg) as [Hok' Hr']. split; [done|]. split.
  - intros vid x. by rewrite Hr', Hr.
  - intros q d Hd. rewrite <- Eh in Hd. destruct (gi_some _ _ _ (gf_settled _ _ Hg) q d Hd) as (d' & Hd' & [Hb Hres _]).
    exists d'. split_and!; [done..|]. intros dt. rewrite Hres. cbn. lia.
Qed.

Lemma grown_check order rpc persist now c rp ttl dt count (t : Topology) :
  topo_ok t -> 0 <= TotalCopies rp -> 0 <= SameRackCount rp ->
  let '(n, e, t') := CheckAndGrow order rpc persist now c rp ttl dt count t in
  books_kept t t' /\ 0 <= n <= Z.max 0 count /\ (e = None -> n = 0 \/ n = count) /\
  (n = 1 -> count = 1 -> created_on t t' rp (fst (NextVolumeId t))).
Proof.
  intros Hok Htc Hrp. unfold CheckAndGrow.
  assert (forall t1, topo_ok t1 -> grown_from t1 t1) as Hrefl by (intros t1 [Hh _]; split; [by apply grow_inv_refl|done]).
  case_decide as Hc; [split_and!; [apply (grown_books t t); by auto|lia|lia|by left|done]|].
  pose proof (GetOrCreateVolumeLayout_ok c (rp_String rp) ttl dt t Hok) as Hl.
  destruct (GetOrCreateVolumeLayout _ _ _ _ t) as [vl t1]. destruct Hl as (Hok1 & Eh & En & Hr1).
  destruct (shouldGrowVolumes vl); cbn [negb]; [|split_and!; [apply (grown_books t t1); by auto|lia|lia|by left|done]].
  case_decide as Hcand; [split_and!; [apply (grown_books t t1); by auto|lia|lia|done|done]|].
  pose proof (grow_loop_spec rpc persist (AllocateVolumeCandidates order now dt t1) c rp dt (Z.to_nat count) 0 t1 Hok1 Htc Hrp) as Hg.
  destruct (grow_loop _ _ _ _ _ _ _ _ _) as [[n e] t']. destruct Hg as (Hg & Hn & He & Hcr).
  split_and!; [by eapply grown_books|lia|lia|intros E; specialize (He E); lia|].
  intros Hn1 Hc1. destruct (Hcr ltac:(lia) ltac:(lia)) as (nodes & H1 & H2 & H3). exists nodes. rewrite <- Eh.
  replace (fst (NextVolumeId t)) with (fst (NextVolumeId t1)); [done|]. unfold NextVolumeId. rewrite En. by case_decide.
Qed.

(** C16: [CheckAndGrow] keeps the books of the data nodes, whatever the nodes and the
    Raft log answer: on every path, failures of a reservation, of the replicated id or of
    an allocation included, all the slots it reserved are given back, no disk with a
    limit ends up with more volumes than it had or than its limit, the counts of the
    disks stay right and no layout changes. It never creates more volumes than asked for,
    and none or exactly as many when it returns no error; a single volume it reports is
    on as many distinct data nodes as there are copies. *)
Theorem CheckAndGrow_accounting order rpc persist now c rp ttl dt count (t : Topology) :
  topo_ok t -> 0 <= TotalCopies rp -> 0 <= SameRackCount rp ->
  let '(n, e, t') := CheckAndGrow order rpc persist now c rp ttl dt count t in
  books_kept t t' /\ 0 <= n <= Z.max 0 count /\ (e = None -> n = 0 \/ n = count) /\
  (n = 1 -> count = 1 -> created_on t t' rp (fst (NextVolumeId t))).
Proof. apply grown_check. Qed.
