(* ===== verification/TopologySafe.v ===== *)
(** * TopologySafe: any sequence of calls

    The invariant of the topology under every operation, the freshness of volume ids,
    and what the removal of dead nodes does to live ones. *)

From S2P Require Import Prelude GoStrings Types TopoNode VolumeLayout Topology TopologySpec.
From S2P Require Import VolumeGrowth GrowthSpec.
From Stdlib Require Import Sorting.Sorted.

#[local] Open Scope string_scope.

(** ** Removal of dead nodes *)

Lemma DeleteChild_spec p id h :
  heap_ok h ->
  heap_ok (DeleteChild p id h) /\ (forall q, ToDataNode (DeleteChild p id h) q = ToDataNode h q) /\
  (forall q, GetId (DeleteChild p id h) q = GetId h q).
Proof.
  intros Hok. unfold DeleteChild, ToDataNode, GetId. destruct (h_nodes h !! p) as [n|] eqn:E; [|done]. split.
  - eapply set_node_ok; try done.
    + cbn. apply delete_subseteq.
    + unfold same_kind. cbn. by destruct (n_kind n).
    + cbn. intros d Hd. by eapply (ho_data _ Hok).
  - cbn [set_node h_nodes].
    split; intros q; destruct (decide (q = p)) as [->|]; rewrite ?lookup_insert_eq, ?lookup_insert_ne, ?E by done; done.
Qed.

Lemma removeDeadNode_ok now p t : topo_ok t -> topo_ok (removeDeadNode now p t).
Proof.
  intros Hok. unfold removeDeadNode. destruct (IsAlive now (t_heap t) p || bool_decide (GetId (t_heap t) p = "root")); [done|].
  set (t1 := match ToDataNode (t_heap t) p with Some _ => _ | None => t end).
  assert (topo_ok t1 /\ t_heap t1 = t_heap t) as [Hok1 Eh].
  { unfold t1. destruct (ToDataNode (t_heap t) p); [|done]. split; [|done]. split; [apply Hok|].
    intros key vl. cbn [set_layouts t_layouts t_heap]. unfold RemoveDataNode. rewrite lookup_fmap.
    intros (vl0 & Hk & ->)%fmap_Some. destruct (to_layouts _ Hok _ _ Hk) as [A HA]. eexists.
    eapply (represents_heap now); [reflexivity|]. apply layout_RemoveDataNode_represents.
    by eapply (represents_heap 0); [reflexivity|]. }
  destruct (GetParent (t_heap t) p) as [q|]; [|done].
  destruct (DeleteChild_spec q (GetId (t_heap t) p) (t_heap t1) (to_heap _ Hok1)) as (Hh & Hd & Hi).
  apply with_heap_ok; [done|done|]. intros x _. unfold dn_GetId. by rewrite Hd, Hi.
Qed.

Lemma forEachNode_inv {S} (I : S -> Prop) order mem fuel p fn s :
  (forall q s, I s -> I (fn q s)) -> I s -> I (forEachNode order mem fuel p fn s).
Proof.
  intros Hfn. revert p s. induction fuel as [|fuel IH]; intros p s Hs; cbn [forEachNode]; [done|].
  generalize (children_of order (mem (fn p s)) p). intros l. specialize (Hfn p s Hs). revert Hfn. generalize (fn p s).
  induction l as [|c l IHl]; intros s' Hs'; cbn [fold_left]; [done|]. apply IHl, IH, Hs'.
Qed.

Lemma SyncDeadNodeRemoval_ok order now t : topo_ok t -> topo_ok (SyncDeadNodeRemoval order now t).
Proof. intros Hok. unfold SyncDeadNodeRemoval. apply (forEachNode_inv topo_ok); [|done]. intros q s. apply removeDeadNode_ok. Qed.

(** The height of the subtree that a node can have, by its kind. *)
Definition height (h : heap) (p : ptr) : nat :=
  match h_nodes h !! p with
  | Some n => match n_kind n with KRoot => 4 | KDataCenter => 3 | KRack => 2 | KDataNode _ => 1 end
  | None => 1
  end.

Lemma height_pos h p : (1 <= height h p)%nat.
Proof. unfold height. destruct (h_nodes h !! p) as [n|]; [destruct (n_kind n)|]; lia. Qed.

Lemma children_height order h p c :
  (forall m i q, (i, q) ∈ order m -> m !! i = Some q) -> heap_ok h -> c ∈ children_of order h p ->
  (height h c < height h p)%nat.
Proof.
  intros Ho Hok. unfold children_of. destruct (h_nodes h !! p) as [n|] eqn:E; [|by intros ?%not_elem_of_nil].
  intros ([i q] & -> & Hi)%list_elem_of_fmap. cbn [snd].
  destruct (ho_child _ Hok _ _ _ _ E (Ho _ _ _ Hi)) as (nc & Ec & _ & _ & Hk).
  unfold height. rewrite E, Ec. destruct (n_kind n), (n_kind nc); cbn in Hk; lia || done.
Qed.

Section walk.
Context {S : Type} (I : S -> Prop) (order : gmap string ptr -> list (string * ptr)) (mem : S -> heap) (fn : ptr -> S -> S).
Context (Horder : forall m i q, (i, q) ∈ order m -> m !! i = Some q) (Hmem : forall s, I s -> heap_ok (mem s)).
Context (Hfn : forall q s, I s -> I (fn q s)) (Hheight : forall q s p, I s -> height (mem (fn q s)) p = height (mem s) p).

Lemma forEachNode_height fuel p s :
  I s -> I (forEachNode order mem fuel p fn s) /\ forall q, height (mem (forEachNode order mem fuel p fn s)) q = height (mem s) q.
Proof.
  intros Hs. apply (forEachNode_inv (fun s' => I s' /\ forall q, height (mem s') q = height (mem s) q)); [|by split].
  intros q s' [Hs' Hh]. split; [auto|]. intros q'. by rewrite Hheight.
Qed.

(** A walk that has the height of its node as fuel does not run out of it. *)
Lemma forEachNode_enough fuel more p s :
  I s -> (height (mem s) p <= fuel)%nat -> forEachNode order mem (fuel + more) p fn s = forEachNode order mem fuel p fn s.
Proof.
  revert p s. induction fuel as [|fuel IH]; intros p s Hs Hp; [pose proof (height_pos (mem s) p); lia|].
  cbn [Nat.add forEachNode]. rewrite <- (Hheight p s p Hs) in Hp. apply (Hfn p) in Hs. revert Hs Hp. generalize (fn p s).
  intros s1 Hs Hp.
  assert (Forall (fun c => (height (mem s1) c <= fuel)%nat) (children_of order (mem s1) p)) as Hc.
  { apply Forall_forall. intros c Hc. pose proof (children_height _ _ _ _ Horder (Hmem _ Hs) Hc). lia. }
  clear Hp. revert Hc. generalize (children_of order (mem s1) p). intros l Hc. revert s1 Hs Hc.
  induction l as [|c l IHl]; intros s1 Hs Hc; cbn [fold_left]; [done|]. apply Forall_cons in Hc as [Hc Hl].
  rewrite IH by done. destruct (forEachNode_height fuel c s1 Hs) as [Hs' Hh]. apply IHl; [done|].
  eapply Forall_impl; [exact Hl|]. intros q. by rewrite Hh.
Qed.
End walk.

Lemma root_height h : heap_ok h -> height h root = tree_depth.
Proof. intros Hok. destruct (ho_root _ Hok) as (n & E & Hk). unfold height. by rewrite E, Hk. Qed.

Lemma removeDeadNode_height now q t p : height (t_heap (removeDeadNode now q t)) p = height (t_heap t) p.
Proof.
  unfold removeDeadNode. destruct (_ || _); [done|]. destruct (GetParent (t_heap t) q) as [r|]; [|by destruct (ToDataNode _ _)].
  assert (forall h, height (DeleteChild r (GetId (t_heap t) q) h) p = height h p) as Hd.
  { intros h. unfold DeleteChild, height. destruct (h_nodes h !! r) as [n|] eqn:E; [|done]. cbn.
    destruct (decide (p = r)) as [->|]; [by rewrite lookup_insert_eq, E|by rewrite lookup_insert_ne by done]. }
  cbn. rewrite Hd. by destruct (ToDataNode _ _).
Qed.

(** The walk of the removal of dead nodes ends with [tree_depth] as fuel, although it
    changes the tree on its way. *)
Lemma SyncDeadNodeRemoval_enough order now t more :
  (forall m i q, (i, q) ∈ order m -> m !! i = Some q) -> topo_ok t ->
  forEachNode order t_heap (tree_depth + more) root (removeDeadNode now) t = SyncDeadNodeRemoval order now t.
Proof.
  intros Ho Hok. apply (forEachNode_enough topo_ok); try done.
  - apply to_heap.
  - intros q s. apply removeDeadNode_ok.
  - intros q s p _. apply removeDeadNode_height.
  - by rewrite root_height by apply Hok.
Qed.

(** So do the walks that only read the tree. *)
Lemma reading_walk_enough {S} order (h : heap) (fn : ptr -> S -> S) s more :
  (forall m i q, (i, q) ∈ order m -> m !! i = Some q) -> heap_ok h ->
  forEachNode order (fun _ => h) (tree_depth + more) root fn s = forEachNode order (fun _ => h) tree_depth root fn s.
Proof.
  intros Ho Hok. apply (forEachNode_enough (fun _ => True)); try done. by rewrite root_height.
Qed.

(** ** All operations *)

Inductive topo_op :=
| THeartbeat (now : Z) (hb : option Heartbeat)
| TLayout (collection replication ttl diskType : string)
| TSetMax (maxVolumeId : Z)
| TAllocate (persisted : bool)
| TGrow (rpc : ptr -> Z -> bool) (persist : Z -> bool) (now : Z) (collection : string) (rp : ReplicaPlacement)
    (ttl diskType : string) (count : Z)
| TSync (now : Z).

Section operations.
Context (sorder : gset Z -> list Z) (corder : gmap string ptr -> list (string * ptr)).
Context (Hs : set_order sorder).

Definition exec_topo (op : topo_op) : GoM Topology topo_err unit := fun t =>
  match op with
  | THeartbeat now hb => ProcessJoinMessage sorder now hb t
  | TLayout c r ttl d => (Ret tt, snd (GetOrCreateVolumeLayout c r ttl d t))
  | TSetMax n => (Ret tt, SetMaxVolumeId n t)
  | TAllocate ok => (Ret tt, snd (AllocateNextVolumeId (Some (fun _ => if ok then Ret tt else Fail tt)) t))
  | TGrow rpc persist now c rp ttl d count => (Ret tt, snd (CheckAndGrow corder rpc persist now c rp ttl d count t))
  | TSync now => (Ret tt, SyncDeadNodeRemoval corder now t)
  end.

(** The counts of a replica placement are unsigned. *)
Definition topo_op_wf (op : topo_op) : Prop :=
  match op with
  | TGrow _ _ _ _ rp _ _ _ => in_u 8 (DifferentDataCenterCount rp) /\ in_u 8 (DifferentRackCount rp) /\ in_u 8 (SameRackCount rp)
  | _ => True
  end.

Fixpoint run_topo (ops : list topo_op) (t : Topology) : list (outcome topo_err unit) * Topology :=
  match ops with
  | [] => ([], t)
  | op :: ops => let '(r, t) := exec_topo op t in let '(rs, t) := run_topo ops t in (r :: rs, t)
  end.

Lemma Allocate_ok {E} (persist : option (Z -> outcome E unit)) t : topo_ok t -> topo_ok (snd (AllocateNextVolumeId persist t)).
Proof.
  intros Hok. unfold AllocateNextVolumeId. pose proof (NextVolumeId_frame t) as [Eh El].
  destruct (NextVolumeId t) as [vid t1]. cbn [snd] in *.
  assert (topo_ok t1) as Hok1 by (destruct t1; cbn in *; subst; destruct Hok; by split).
  destruct persist as [f|]; [|done]. by destruct (f vid).
Qed.

Lemma exec_topo_ok op t :
  topo_ok t -> topo_op_wf op -> topo_ok (snd (exec_topo op t)) /\ fst (exec_topo op t) <> Panic.
Proof.
  intros Hok Hwf. destruct op as [now [hb|]|c r ttl d|n|ok|rpc persist now c rp ttl d count|now]; cbn [exec_topo fst snd].
  - destruct (ProcessJoinMessage_spec sorder now hb t Hok Hs) as (p & t' & E & Hok' & _). by rewrite E.
  - done.
  - pose proof (GetOrCreateVolumeLayout_ok c r ttl d t Hok) as H. destruct (GetOrCreateVolumeLayout c r ttl d t). by split; [apply H|].
  - split; [by apply setMax_ok|done].
  - split; [by apply Allocate_ok|done].
  - split; [|done]. cbn in Hwf.
    pose proof (grown_check corder rpc persist now c rp ttl d count t Hok) as H.
    destruct (CheckAndGrow corder rpc persist now c rp ttl d count t) as [[n e] t']. apply H; unfold TotalCopies; u_lia.
  - split; [by apply SyncDeadNodeRemoval_ok|done].
Qed.

(** No sequence of heartbeats, also empty ones, of layout requests, id allocations,
    volume growth with any answers and removals of dead nodes makes the topology panic:
    the type assertions of the tree's constructors always find the kind of node they
    assert. After it the tree is well typed with every child under its id and its parent,
    the count of each disk is the number of the node's volumes on it, and each layout
    represents a map of replicas on existing data nodes. *)
Theorem topology_type_safe (now0 : Z) (ops : list topo_op) :
  Forall topo_op_wf ops ->
  let '(rs, t) := run_topo ops (NewTopology now0) in Forall (fun r => r <> Panic) rs /\ topo_ok t.
Proof.
  intros Hwf. pose proof (NewTopology_ok now0) as Hok. revert Hok. generalize (NewTopology now0).
  induction Hwf as [|op ops Hop Hops IH]; intros t Hok; cbn [run_topo]; [by split|].
  destruct (exec_topo_ok op t Hok Hop) as [Hok1 Hp]. destruct (exec_topo op t) as [r t1]. cbn [fst snd] in *.
  specialize (IH t1 Hok1). destruct (run_topo ops t1) as [rs t2]. destruct IH as [Hrs Hok2]. split; [by constructor|done].
Qed.
End operations.

(** ** Volume ids *)

Definition bump (n vid : Z) : Z := if decide (vid >= n) then u32 (vid + 1) else n.

Lemma setMax_next vid t : t_nextVolumeId (setMaxVolumeIDUnsafe vid t) = bump (t_nextVolumeId t) vid.
Proof. unfold setMaxVolumeIDUnsafe, bump. by case_decide. Qed.

Lemma processVolume_next now p v t : t_nextVolumeId (processVolume now p v t) = bump (t_nextVolumeId t) (vi_Id v).
Proof.
  unfold processVolume. destruct (GetOrCreate _ _ _ _ _) as [[key vl] m]. by rewrite setMax_next.
Qed.

Lemma join_volumes_next now p vs t k :
  t_nextVolumeId (fst (join_volumes now p vs (t, k))) = fold_left bump (vi_Id <$> vs) (t_nextVolumeId t).
Proof.
  unfold join_volumes. revert t k. induction vs as [|v vs IH]; intros t k; [done|]. cbn [fold_left fmap list_fmap].
  by rewrite IH, processVolume_next.
Qed.

Lemma remove_volumes_next now p vids t :
  t_nextVolumeId (fold_left (fun t vid => removeVolume now p vid t) vids t) = t_nextVolumeId t.
Proof. revert t. induction vids as [|v vids IH]; intros t; [done|]. cbn [fold_left]. by rewrite IH. Qed.

Lemma join_body_next order now p hb t :
  t_nextVolumeId (join_body order now p hb t) = fold_left bump (vi_Id <$> hb_Volumes hb) (t_nextVolumeId t).
Proof.
  unfold join_body. pose proof (join_volumes_next now p (hb_Volumes hb) t (known_volumes (t_heap t) p)) as E.
  destruct (join_volumes _ _ _ _) as [t2 k2]. cbn [fst] in E. rewrite join_deleted_split.
  case_decide; cbn [set_heap t_nextVolumeId]; by rewrite !remove_volumes_next.
Qed.

Lemma fold_bump (vids : list Z) n :
  1 <= n < 2 ^ 32 -> Forall (fun v => 0 <= v < 2 ^ 32 - 1) vids ->
  n <= fold_left bump vids n < 2 ^ 32 /\ forall v, v ∈ vids -> v < fold_left bump vids n.
Proof.
  intros Hn Hv. revert n Hn. induction Hv as [|v vids Hv _ IH]; intros n Hn; cbn [fold_left].
  { split; [lia|]. by intros v ?%not_elem_of_nil. }
  assert (n <= bump n v < 2 ^ 32 /\ v < bump n v) as [Hb Hlt].
  { unfold bump. case_decide; [|lia]. rewrite wrap_small by (unfold in_u; lia). lia. }
  destruct (IH (bump n v)) as [H1 H2]; [lia|]. split; [lia|].
  intros v' [->|Hv']%elem_of_cons; [lia|auto].
Qed.

(** The next id is above every volume that a data node is known to have. *)
Definition ids_below (t : Topology) : Prop :=
  1 <= t_nextVolumeId t < 2 ^ 32 /\ forall q vid, has_volume (t_heap t) q vid -> vid < t_nextVolumeId t.

Inductive id_event := VHeartbeat (now : Z) (hb : Heartbeat) | VAllocate | VSetMax (n : Z).

(** The ids an event mentions. *)
Definition event_wf (ev : id_event) : Prop :=
  match ev with
  | VHeartbeat _ hb => Forall (fun v => 0 <= v < 2 ^ 32 - 1) (vi_Id <$> hb_Volumes hb)
  | VAllocate => True
  | VSetMax n => 0 <= n < 2 ^ 32 - 1
  end.

(** The ids allocated by a sequence of events. *)
Fixpoint run_ids (sorder : gset Z -> list Z) (evs : list id_event) (t : Topology) : list Z * Topology :=
  match evs with
  | [] => ([], t)
  | VHeartbeat now hb :: evs => run_ids sorder evs (snd (ProcessJoinMessage sorder now (Some hb) t))
  | VAllocate :: evs =>
      let '(vid, t) := NextVolumeId t in let '(vids, t) := run_ids sorder evs t in (vid :: vids, t)
  | VSetMax n :: evs => run_ids sorder evs (SetMaxVolumeId n t)
  end.

Lemma heartbeat_ids sorder now hb t :
  topo_ok t -> set_order sorder -> ids_below t -> event_wf (VHeartbeat now hb) ->
  let t' := snd (ProcessJoinMessage sorder now (Some hb) t) in
  topo_ok t' /\ ids_below t' /\ t_nextVolumeId t <= t_nextVolumeId t'.
Proof.
  intros Hok Hs [Hn Hv] Hwf. destruct (ProcessJoinMessage_spec sorder now hb t Hok Hs) as (p & t' & E & Hok' & Hj).
  rewrite E. cbn [snd]. assert (t_nextVolumeId t' = fold_left bump (vi_Id <$> hb_Volumes hb) (t_nextVolumeId t)) as En.
  { unfold ProcessJoinMessage in E. destruct (findOrCreateDataNode _ _ _ _ _) as [[p' h]|]; [|done]. injection E as <-.
    by rewrite join_body_next. }
  destruct (fold_bump (vi_Id <$> hb_Volumes hb) (t_nextVolumeId t) Hn Hwf) as [Hb Hlt]. rewrite <- En in *.
  split; [done|]. split; [|lia]. split; [lia|]. intros q vid Hq. destruct (decide (q = p)) as [->|Hne].
  - apply (je_volumes _ _ _ _ Hj) in Hq as [Hq _]. auto.
  - assert (has_volume (t_heap t) q vid) as Hq0; [|specialize (Hv q vid Hq0); lia].
    destruct Hq as (d & v & Hd & Hvd). exists d, v. by rewrite <- (je_other _ _ _ _ Hj).
Qed.

Lemma NextVolumeId_value t :
  ids_below t -> NextVolumeId t = (t_nextVolumeId t, set_nextVolumeId (u32 (t_nextVolumeId t + 1)) t).
Proof. intros [Hn _]. unfold NextVolumeId. by rewrite decide_False by lia. Qed.

Lemma run_ids_spec sorder evs t :
  set_order sorder -> topo_ok t -> ids_below t -> Forall event_wf evs ->
  let '(vids, t') := run_ids sorder evs t in
  Forall (fun v => v < 2 ^ 32 - 1) vids ->
  StronglySorted Z.lt vids /\ Forall (fun v => t_nextVolumeId t <= v < t_nextVolumeId t') vids /\
  t_nextVolumeId t <= t_nextVolumeId t' /\ ids_below t'.
Proof.
  intros Hs Hok Hb Hwf. revert t Hok Hb. induction Hwf as [|ev evs Hev _ IH]; intros t Hok Hb; cbn [run_ids].
  { intros _. split_and!; [apply SSorted_nil|apply List.Forall_nil|lia|done]. }
  destruct ev as [now hb| |n].
  - destruct (heartbeat_ids sorder now hb t Hok Hs Hb Hev) as (Hok' & Hb' & Hle).
    specialize (IH _ Hok' Hb'). destruct (run_ids sorder evs _) as [vids t']. intros Hlt. destruct (IH Hlt) as (H1 & H2 & H3 & H4).
    split_and!; [done| |lia|done]. eapply Forall_impl; [exact H2|]. cbn beta. lia.
  - rewrite NextVolumeId_value by done. set (t1 := set_nextVolumeId _ t).
    assert (topo_ok t1) as Hok1 by (destruct Hok; by split). specialize (IH t1 Hok1). destruct Hb as [Hn Hv].
    destruct (run_ids sorder evs t1) as [vids t']. intros [Hlt0 Hlt]%Forall_cons.
    assert (t_nextVolumeId t1 = t_nextVolumeId t + 1) as E1 by (cbn; apply wrap_small; unfold in_u; lia).
    destruct IH as (H1 & H2 & H3 & H4); [|done|].
    { split; [lia|]. intros q vid Hq. rewrite E1. specialize (Hv q vid Hq). lia. }
    split_and!; [|apply Forall_cons; split; [lia|]|lia|done].
    + apply SSorted_cons; [done|]. eapply Forall_impl; [exact H2|]. cbn beta. lia.
    + eapply Forall_impl; [exact H2|]. cbn beta. lia.
  - assert (topo_ok (SetMaxVolumeId n t)) as Hok1 by by apply setMax_ok. specialize (IH _ Hok1).
    destruct Hb as [Hn Hv]. cbn in Hev.
    assert (t_nextVolumeId t <= t_nextVolumeId (SetMaxVolumeId n t) < 2 ^ 32) as Hle.
    { unfold SetMaxVolumeId. rewrite setMax_next. unfold bump. case_decide; [|lia]. rewrite wrap_small by (unfold in_u; lia). lia. }
    destruct (run_ids sorder evs _) as [vids t']. intros Hlt. destruct IH as (H1 & H2 & H3 & H4); [|done|].
    { split; [lia|]. intros q vid Hq. unfold SetMaxVolumeId in *. rewrite setMax_heap in Hq. specialize (Hv q vid Hq). lia. }
    split_and!; [done| |lia|done]. eapply Forall_impl; [exact H2|]. cbn beta. lia.
Qed.

Lemma bump_u32 n vid : in_u 32 n -> in_u 32 (bump n vid).
Proof. intros Hn. unfold bump. case_decide; [by apply wrap_range|done]. Qed.

Lemma run_ids_u32 sorder evs t : in_u 32 (t_nextVolumeId t) -> in_u 32 (t_nextVolumeId (snd (run_ids sorder evs t))).
Proof.
  revert t. induction evs as [|[now hb| |n] evs IH]; intros t Ht; cbn [run_ids]; [done|..].
  - apply IH. unfold ProcessJoinMessage. destruct (findOrCreateDataNode _ _ _ _ _) as [[p h]|]; [|done]. cbn [snd].
    rewrite join_body_next. cbn [set_heap t_nextVolumeId]. revert Ht. generalize (t_nextVolumeId t).
    induction (vi_Id <$> hb_Volumes hb) as [|v vs IHv]; intros n Hn; [done|]. cbn [fold_left]. by apply IHv, bump_u32.
  - destruct (NextVolumeId t) as [vid t1] eqn:E. specialize (IH t1). destruct (run_ids sorder evs t1) as [vids t2]. apply IH.
    unfold NextVolumeId in E. injection E as _ <-. cbn. by apply wrap_range.
  - apply IH. unfold SetMaxVolumeId. rewrite setMax_next. by apply bump_u32.
Qed.

(** Volume ids are 32 bits wide. From the start, over any sequence of heartbeats,
    allocations and ids learned from Raft that mention ids below [2^32 - 1], the ids
    allocated increase strictly, and the next one is above all of them and above every
    volume that some data node has, as long as no allocated id reaches [2^32 - 1]. After
    that id has been allocated or seen the allocator starts again at 1. *)
Theorem volume_ids_bounds (sorder : gset Z -> list Z) (now0 : Z) (evs : list id_event) :
  set_order sorder -> Forall event_wf evs ->
  let '(vids, t) := run_ids sorder evs (NewTopology now0) in
  (Forall (fun v => v < 2 ^ 32 - 1) vids ->
   StronglySorted Z.lt vids /\ ids_below t /\ Forall (fun v => 1 <= v < fst (NextVolumeId t)) vids) /\
  (t_nextVolumeId t = 2 ^ 32 - 1 -> fst (NextVolumeId (snd (NextVolumeId t))) = 1) /\
  fst (NextVolumeId (SetMaxVolumeId (2 ^ 32 - 1) t)) = 1.
Proof.
  intros Hs Hwf. assert (ids_below (NewTopology now0)) as Hb.
  { split; [cbn; lia|]. intros q vid (d & v & Hd & _). by rewrite NewTopology_data in Hd. }
  pose proof (run_ids_spec sorder evs _ Hs (NewTopology_ok now0) Hb Hwf) as H.
  pose proof (run_ids_u32 sorder evs (NewTopology now0) ltac:(cbn; unfold in_u; lia)) as Hu.
  destruct (run_ids sorder evs (NewTopology now0)) as [vids t]. split_and!.
  - intros Hlt. destruct (H Hlt) as (H1 & H2 & _ & H4). split_and!; [done..|].
    rewrite NextVolumeId_value by done. exact H2.
  - intros E. unfold NextVolumeId at 2. rewrite decide_False by lia. rewrite E. by vm_compute.
  - cbn [snd] in Hu. assert (bump (t_nextVolumeId t) (2 ^ 32 - 1) = 0) as E.
    { unfold bump. rewrite decide_True by u_lia. by vm_compute. }
    unfold NextVolumeId, SetMaxVolumeId. by rewrite setMax_next, E, decide_True.
Qed.

(** ** Examples *)

Definition ex_volume (vid : Z) : VolumeInfo := mkVolumeInfo vid "" 0 "" "" false.

(** A heartbeat of the data node 10.0.0.[n]:18080 in rack r[n]. *)
Definition ex_heartbeat (n : string) (vids : list Z) : Heartbeat :=
  mkHeartbeat ("10.0.0." +:+ n) 8080 "" 18080 "dc1" ("r" +:+ n) (ex_volume <$> vids) [] [] [("", 10)].

Definition seconds (n : Z) : Z := n * 10 ^ 9.

Lemma elements_order : set_order elements.
Proof. intros s z. apply elem_of_elements. Qed.

Lemma topology_type_safe_witness :
  let ops := [THeartbeat 0 None; THeartbeat 0 (Some (ex_heartbeat "1" [7; 8])); TAllocate false; TSync (seconds 40);
              THeartbeat (seconds 41) (Some (ex_heartbeat "1" [8]))] in
  let '(rs, t) := run_topo elements map_to_list ops (NewTopology 0) in
  Forall (fun r => r <> Panic) rs /\ topo_ok t.
Proof.
  apply (topology_type_safe elements map_to_list elements_order 0). repeat (apply List.Forall_cons; [exact I|]). apply List.Forall_nil.
Defined.

Lemma volume_ids_bounds_witness :
  let '(vids, t) := run_ids elements [VAllocate; VHeartbeat 0 (ex_heartbeat "1" [7]); VAllocate; VSetMax 20; VAllocate]
    (NewTopology 0) in
  vids = [1; 8; 21] /\ StronglySorted Z.lt vids /\ fst (NextVolumeId (SetMaxVolumeId (2 ^ 32 - 1) t)) = 1.
Proof.
  pose proof (volume_ids_bounds elements 0 [VAllocate; VHeartbeat 0 (ex_heartbeat "1" [7]); VAllocate; VSetMax 20; VAllocate]
    elements_order) as H.
  assert (fst (run_ids elements [VAllocate; VHeartbeat 0 (ex_heartbeat "1" [7]); VAllocate; VSetMax 20; VAllocate] (NewTopology 0))
    = [1; 8; 21]) as E by (vm_compute; reflexivity).
  destruct (run_ids _ _ _) as [vids t]. cbn [fst] in E. subst vids.
  destruct H as (H1 & _ & H3); [repeat (apply List.Forall_cons; [cbn; try lia; repeat (apply List.Forall_cons; [lia|]); try apply List.Forall_nil; exact I|]); apply List.Forall_nil|].
  split; [reflexivity|]. split; [|exact H3]. apply H1. repeat (apply List.Forall_cons; [vm_compute; reflexivity|]). apply List.Forall_nil.
Defined.

Lemma heartbeats_register_witness :
  let hs := [(0, ex_heartbeat "1" [7; 8]); (1, ex_heartbeat "2" [8]); (2, ex_heartbeat "1" [8])] in
  let t := join_all elements hs (NewTopology 0) in
  registered t 8 "10.0.0.2:18080" /\ ~ registered t 7 "10.0.0.1:18080".
Proof.
  intros hs t. destruct (heartbeats_register (fun x => ("dc1", if decide (x = "10.0.0.1:18080") then "r1" else "r2")) elements hs 0)
    as [H _]; [apply elements_order|repeat (apply List.Forall_cons; [vm_compute; reflexivity|]); apply List.Forall_nil|].
  fold t in H. split; apply H || (rewrite H; intros Hl).
  - vm_compute. split; [by left|]. split; [congruence|]. by intros ?%elem_of_nil.
  - vm_compute in Hl. destruct Hl as [Hl _]. apply elem_of_cons in Hl as [Hl|Hl]; [congruence|by apply not_elem_of_nil in Hl].
Defined.

Lemma CheckAndGrow_accounting_witness :
  let t := join_all elements [(0, ex_heartbeat "1" []); (0, ex_heartbeat "2" [])] (NewTopology 0) in
  let '(n, _, t') := CheckAndGrow map_to_list (fun _ _ => true) (fun _ => true) 0 "" (mkReplicaPlacement 0 1 0) "" "" 1 t in
  n = 1 /\ created_on t t' (mkReplicaPlacement 0 1 0) 1.
Proof.
  intros t. assert (topo_ok t) as Hok.
  { unfold t. apply (join_all_synced (fun x => ("dc1", if decide (x = "10.0.0.1:18080") then "r1" else "r2")) elements _ 0);
      [apply elements_order|repeat (apply List.Forall_cons; [vm_compute; reflexivity|]); apply List.Forall_nil]. }
  pose proof (CheckAndGrow_accounting map_to_list (fun _ _ => true) (fun _ => true) 0 "" (mkReplicaPlacement 0 1 0) "" "" 1 t Hok) as H.
  assert (fst (fst (CheckAndGrow map_to_list (fun _ _ => true) (fun _ => true) 0 "" (mkReplicaPlacement 0 1 0) "" "" 1 t)) = 1) as E
    by (vm_compute; reflexivity).
  assert (fst (NextVolumeId t) = 1) as E1 by (vm_compute; reflexivity).
  destruct (CheckAndGrow _ _ _ _ _ _ _ _ _ _) as [[n e] t']. cbn [fst] in E. subst n.
  destruct H as (_ & _ & _ & H); [vm_compute; congruence|vm_compute; congruence|]. split; [reflexivity|]. rewrite <- E1. apply H; reflexivity.
Defined.

(** Two heartbeats of one data node, 29 seconds apart. *)
Definition ex_cluster : Topology :=
  join_all elements [(0, ex_heartbeat "1" [7; 8]); (seconds 29, ex_heartbeat "1" [7; 8])] (NewTopology 0).

(** [SyncDeadNodeRemoval] removes the data nodes that are alive: nothing renews the
    last-seen time of data centers and racks, so that 30 seconds after the first
    heartbeat of a data center it is removed with all its nodes, the one that was heard
    of two seconds ago included, and no candidate for a new volume is left. The layouts
    still list the node, which its next heartbeat creates anew without its volumes: a
    volume that this heartbeat no longer reports stays registered. *)
Theorem dead_removal_drops_live_nodes :
  let t := SyncDeadNodeRemoval map_to_list (seconds 31) ex_cluster in
  (exists p, AllocateVolumeCandidates map_to_list (seconds 31) "" ex_cluster = [p] /\ IsAlive (seconds 31) (t_heap t) p = true) /\
  AllocateVolumeCandidates map_to_list (seconds 31) "" t = [] /\
  let t' := join_all elements [(seconds 32, ex_heartbeat "1" [8])] t in
  LookupVolumeLocation map_to_list (seconds 32) 7 t' <> [].
Proof.
  split; [|split].
  - exists 3%nat. split; vm_compute; reflexivity.
  - vm_compute. reflexivity.
  - vm_compute. congruence.
Qed.
