(* ===== verification/GoPath.v ===== *)
(** * GoPath: slash-separated paths and string order

    What the filer uses of [path] and [strings], and [FullPath.DirAndName] of
    [goblob/filer/entry.go].  An absolute path is the text of a list of components. *)

From S2P Require Import Prelude GoStrings.
From stdpp Require Import sorting.
From Stdlib Require Import Sorting.Sorted.

#[local] Open Scope string_scope.

Definition slash : ascii := "/"%char.

(** ** strings *)

Definition dquote : string := String "034"%char "".

Definition HasPrefix (s prefix : string) : bool := String.prefix prefix s.

Definition HasSuffix (s suffix : string) : bool :=
  bool_decide (drop (String.length s - String.length suffix) (chars s) = chars suffix).

(** [strings.Trim] with a cutset of one byte. *)
Fixpoint drop_byte (c : ascii) (l : list ascii) : list ascii :=
  match l with
  | [] => []
  | x :: l' => if decide (x = c) then drop_byte c l' else l
  end.

Definition Trim (c : ascii) (s : string) : string := str (reverse (drop_byte c (reverse (drop_byte c (chars s))))).

Definition Split (c : ascii) (s : string) : list string := str <$> split_byte c (chars s).

Fixpoint Join (sep : string) (l : list string) : string :=
  match l with
  | [] => ""
  | [s] => s
  | s :: l => s +:+ sep +:+ Join sep l
  end.

(** Go compares strings byte by byte, as [String.le] does. *)
Definition str_lt (s t : string) : Prop := ~ String.le t s.

#[export] Instance str_lt_dec : RelDecision str_lt.
Proof. intros s t. unfold str_lt. apply _. Defined.

(** ** path.Clean *)

(** The components kept so far, the last one first. *)
Definition clean_step (rooted : bool) (acc : list string) (c : string) : list string :=
  if decide (c = "" \/ c = ".") then acc else
  if decide (c = "..") then
    match acc with
    | [] => if rooted then [] else [".."]
    | top :: acc' => if decide (top = "..") then ".." :: acc else acc'
    end
  else c :: acc.

Definition Clean (s : string) : string :=
  if decide (s = "") then "." else
  let rooted := HasPrefix s "/" in
  let cs := reverse (fold_left (clean_step rooted) (Split slash s) []) in
  if rooted then "/" +:+ Join "/" cs
  else if decide (cs = []) then "." else Join "/" cs.

(** [path.Join]: the elements that are not empty, cleaned. *)
Definition path_Join (elems : list string) : string :=
  match filter (fun e => e <> "") elems with [] => "" | l => Clean (Join "/" l) end.

(** [path.Split]: after the last slash. *)
Definition path_Split (s : string) : string * string :=
  match last_index_byte slash (chars s) with
  | Some i => (str (take (S i) (chars s)), str (drop (S i) (chars s)))
  | None => ("", s)
  end.

(** [path.Base] *)
Definition path_Base (s : string) : string :=
  if decide (s = "") then "." else
  let base := snd (path_Split (str (reverse (drop_byte slash (reverse (chars s)))))) in
  if decide (base = "") then "/" else base.

Definition TrimPrefix (s prefix : string) : string :=
  if HasPrefix s prefix then str (drop (String.length prefix) (chars s)) else s.

(** ** FullPath *)

Definition DirAndName (fp : string) : string * string :=
  let s := chars fp in
  match last_index_byte slash s with
  | None => ("/", fp)
  | Some O => ("/", str (drop 1 s))
  | Some i => (str (take i s), str (drop (i + 1) s))
  end.

(** ** Absolute paths as lists of components *)

Definition comp_ok (c : string) : Prop := c <> "" /\ slash ∉ chars c.

#[export] Instance comp_ok_dec c : Decision (comp_ok c).
Proof. unfold comp_ok. apply _. Defined.

(** A component that [path.Clean] keeps. *)
Definition clean_comp (c : string) : Prop := comp_ok c /\ c <> "." /\ c <> "..".

Fixpoint segs (cs : list string) : string :=
  match cs with [] => "" | c :: cs => "/" +:+ c +:+ segs cs end.

Definition path_of (cs : list string) : string := match cs with [] => "/" | _ => segs cs end.

Definition abs_path (p : string) : Prop := exists cs, Forall comp_ok cs /\ p = path_of cs.

Definition clean_path (p : string) : Prop := exists cs, Forall clean_comp cs /\ p = path_of cs.

Lemma clean_abs p : clean_path p -> abs_path p.
Proof. intros (cs & H & ->). exists cs. split; [|done]. eapply Forall_impl; [exact H|]. by intros c []. Qed.

(** ** The order of strings *)

Lemma str_lt_irrefl s : ~ str_lt s s.
Proof. intros H. by apply H. Qed.

Lemma str_lt_le s t : str_lt s t -> String.le s t.
Proof. intros H. destruct (total String.le s t); [done|]. by destruct H. Qed.

#[export] Instance str_lt_trans : Transitive str_lt.
Proof. intros s t u Hst Htu Hus. apply Htu. trans s; [done|]. by apply str_lt_le. Qed.

Lemma str_lt_asym s t : str_lt s t -> ~ str_lt t s.
Proof. intros H1 H2. by apply H1, str_lt_le. Qed.

Lemma str_le_lt s t : String.le s t -> s <> t -> str_lt s t.
Proof. intros Hle Hne H. by apply Hne, (anti_symm String.le). Qed.

Lemma append_cons c s t : String c s +:+ t = String c (s +:+ t).
Proof. done. Qed.

Lemma append_nil_l s : "" +:+ s = s.
Proof. done. Qed.

Lemma append_assoc s t u : s +:+ (t +:+ u) = (s +:+ t) +:+ u.
Proof. induction s as [|c s IH]; [done|]. by rewrite !append_cons, IH. Qed.

Lemma append_nil_r s : s +:+ "" = s.
Proof. induction s as [|c s IH]; [done|]. by rewrite append_cons, IH. Qed.

Lemma prefix_append p s : HasPrefix (p +:+ s) p = true.
Proof.
  unfold HasPrefix. induction p as [|c p IH]; [by destruct s|]. rewrite append_cons. cbn.
  destruct (ascii_dec c c); [done|congruence].
Qed.

Lemma prefix_inv p k : HasPrefix k p = true -> exists s, k = p +:+ s.
Proof.
  unfold HasPrefix. revert k. induction p as [|c p IH]; intros k Hk; [by exists k|]. destruct k as [|d k]; [done|].
  cbn in Hk. destruct (ascii_dec c d) as [->|]; [|done]. destruct (IH _ Hk) as [s ->]. by exists s.
Qed.

Lemma TrimPrefix_append p s : TrimPrefix (p +:+ s) p = s.
Proof.
  unfold TrimPrefix. rewrite prefix_append. apply chars_inj. rewrite chars_str, chars_append, <- length_chars.
  by rewrite drop_app_length.
Qed.

Lemma str_lt_append p s t : str_lt (p +:+ s) (p +:+ t) <-> str_lt s t.
Proof.
  unfold str_lt, String.le, String.leb. induction p as [|c p IH]; [done|]. rewrite !append_cons. cbn [String.compare].
  unfold Ascii.compare. by rewrite N.compare_refl.
Qed.

Lemma str_lt_empty s : s <> "" -> str_lt "" s.
Proof. destruct s; [done|]. by intros _ []. Qed.

Lemma not_str_lt_empty s : ~ str_lt s "".
Proof. intros H. apply H. by destruct s. Qed.

(** ** Components and paths *)

Lemma segs_app cs1 cs2 : segs (cs1 ++ cs2)%list = segs cs1 +:+ segs cs2.
Proof. induction cs1 as [|c cs1 IH]; cbn [segs app]; [done|]. by rewrite IH, !append_assoc. Qed.

Lemma chars_segs cs : chars (segs cs) = concat ((fun c => slash :: chars c) <$> cs).
Proof. induction cs as [|c cs IH]; [done|]. cbn [segs fmap list_fmap concat]. by rewrite !chars_append, IH. Qed.

Lemma path_of_nonempty cs : path_of cs <> "".
Proof. by destruct cs. Qed.

Lemma path_of_prefix cs : HasPrefix (path_of cs) "/" = true.
Proof. destruct cs as [|c cs]; [done|]. cbn [path_of segs]. rewrite append_cons, append_nil_l. cbn. by destruct (_ +:+ _). Qed.

Lemma path_of_segs cs : cs <> [] -> path_of cs = segs cs.
Proof. by destruct cs. Qed.

Lemma path_of_snoc cs c : path_of (cs ++ [c])%list = segs cs +:+ "/" +:+ c.
Proof. rewrite path_of_segs by by destruct cs. rewrite segs_app. cbn [segs]. by rewrite append_nil_r. Qed.

Lemma split_segs cs : cs <> [] -> Forall comp_ok cs -> split_byte slash (chars (segs cs)) = [] :: (chars <$> cs).
Proof.
  intros Hne Hok. rewrite chars_segs. destruct cs as [|c cs]; [done|]. clear Hne. cbn [fmap list_fmap concat].
  cbn [app split_byte]. rewrite decide_True by done. f_equal. revert c Hok.
  induction cs as [|d cs IH]; intros c [Hc Hok]%Forall_cons; cbn.
  - rewrite app_nil_r. apply split_byte_nosep, Hc.
  - rewrite split_byte_app by apply Hc. by rewrite IH.
Qed.

Lemma fmap_str_chars (cs : list string) : str <$> (chars <$> cs) = cs.
Proof. rewrite <- list_fmap_compose. rewrite <- (list_fmap_id cs) at 2. apply list_fmap_ext. intros ? c _. apply str_chars. Qed.

Lemma Split_path_of cs :
  cs <> [] -> Forall comp_ok cs -> Split slash (path_of cs) = "" :: cs.
Proof.
  intros Hne Hok. unfold Split. rewrite path_of_segs, split_segs by done. cbn. f_equal. apply fmap_str_chars.
Qed.

Lemma path_of_inj cs1 cs2 : Forall comp_ok cs1 -> Forall comp_ok cs2 -> path_of cs1 = path_of cs2 -> cs1 = cs2.
Proof.
  assert (forall c cs, comp_ok c -> "/" <> segs (c :: cs)) as Hroot.
  { intros c cs [Hc _]. cbn [segs]. rewrite append_cons, append_nil_l. destruct c; [done|]. by rewrite append_cons. }
  intros H1 H2 E. destruct cs1 as [|c1 cs1], cs2 as [|c2 cs2]; [done|..].
  - apply Forall_cons in H2 as [H2 _]. by destruct (Hroot _ _ H2 E).
  - apply Forall_cons in H1 as [H1 _]. by destruct (Hroot _ _ H1 (eq_sym E)).
  - apply (f_equal (Split slash)) in E. rewrite !Split_path_of in E by done. injection E as -> ->. done.
Qed.

Lemma DirAndName_root : DirAndName "/" = ("/", "").
Proof. done. Qed.

Lemma DirAndName_snoc cs c : comp_ok c -> DirAndName (path_of (cs ++ [c])%list) = (path_of cs, c).
Proof.
  intros [_ Hc]. unfold DirAndName. rewrite path_of_snoc, !chars_append. cbn [String.list_ascii_of_string app].
  rewrite (last_index_byte_app slash) by done.
  destruct cs as [|d cs]; [cbn [segs String.list_ascii_of_string app length path_of]; f_equal; apply str_chars|].
  change (path_of (d :: cs)) with (segs (d :: cs)). set (l := chars (segs (d :: cs))).
  assert (exists n, length l = S n) as [n Hn] by by eexists. rewrite Hn. f_equal.
  - rewrite <- Hn, take_app_length. apply str_chars.
  - rewrite <- Hn, drop_app_add'. 2: done. cbn. apply str_chars.
Qed.

(** An absolute path is the root or has a directory and a name. *)
Lemma abs_path_cases p :
  abs_path p -> p = "/" \/ exists cs c, Forall comp_ok cs /\ comp_ok c /\ p = path_of (cs ++ [c])%list.
Proof.
  intros (cs & Hcs & ->). destruct cs as [|c cs] using rev_ind; [by left|]. right.
  apply Forall_app in Hcs as [? [? _]%Forall_cons]. eauto.
Qed.

Lemma abs_path_dir p : abs_path p -> abs_path (fst (DirAndName p)).
Proof.
  intros [->|(cs & c & Hcs & Hc & ->)]%abs_path_cases; [by exists []|]. rewrite DirAndName_snoc by done. by exists cs.
Qed.

Lemma DirAndName_inj p q : abs_path p -> abs_path q -> DirAndName p = DirAndName q -> p = q.
Proof.
  intros [->|(cs & c & Hcs & Hc & ->)]%abs_path_cases [->|(cs' & c' & Hcs' & Hc' & ->)]%abs_path_cases; [done|..];
    rewrite ?DirAndName_root, ?DirAndName_snoc by done; intros [= E1 E2].
  - by destruct Hc'.
  - by destruct Hc.
  - apply path_of_inj in E1 as ->; [|done..]. by subst.
Qed.

Lemma DirAndName_name p : abs_path p -> p <> "/" -> comp_ok (snd (DirAndName p)).
Proof. intros [->|(cs & c & Hcs & Hc & ->)]%abs_path_cases; [done|]. by rewrite DirAndName_snoc. Qed.

(** ** What Clean returns *)

Lemma clean_step_ok c acc :
  slash ∉ chars c -> Forall clean_comp acc -> Forall clean_comp (clean_step true acc c).
Proof.
  intros Hc Hacc. unfold clean_step. destruct (decide (c = "" \/ c = ".")); [done|]. destruct (decide (c = "..")).
  - destruct acc as [|top acc]; [done|]. apply Forall_cons in Hacc as [Htop Hacc].
    rewrite decide_False by apply Htop. done.
  - constructor; [|done]. split_and!; [|tauto..]. split; [tauto|done].
Qed.

Lemma split_byte_nosep_all c l : Forall (fun p => c ∉ p) (split_byte c l).
Proof.
  induction l as [|x l IH]; cbn; [repeat constructor; by apply not_elem_of_nil|].
  destruct (decide (x = c)) as [|Hx]; [constructor; [by apply not_elem_of_nil|done]|].
  destruct (split_byte c l) as [|p ps]; [repeat constructor; by intros ->%list_elem_of_singleton|].
  apply Forall_cons in IH as [Hp Hps]. constructor; [|done]. by intros [->|]%elem_of_cons.
Qed.

Lemma Join_segs cs : cs <> [] -> "/" +:+ Join "/" cs = segs cs.
Proof.
  induction cs as [|c cs IH]; intros Hne; [done|]. destruct cs as [|d cs]; [cbn [Join segs]; by rewrite append_nil_r|].
  cbn [Join]. cbn [segs]. f_equal. f_equal. by apply IH.
Qed.

Lemma Join_path_of cs : "/" +:+ Join "/" cs = path_of cs.
Proof. destruct cs; [done|]. by apply Join_segs. Qed.

(** A rooted path is cleaned to a path of plain components: nothing above the root, no
    empty components and no dots. *)
Lemma Clean_clean s : HasPrefix s "/" = true -> clean_path (Clean s).
Proof.
  intros Hp. unfold Clean. rewrite decide_False by (intros ->; done). rewrite Hp, Join_path_of.
  eexists. split; [|done]. apply Forall_reverse.
  assert (Forall (fun c => slash ∉ chars c) (Split slash s)) as Hs.
  { unfold Split. apply Forall_fmap. eapply Forall_impl; [apply split_byte_nosep_all|]. intros l Hl. cbn. by rewrite chars_str. }
  revert Hs. generalize (Split slash s). intros l Hl. assert (Forall clean_comp []) as Hacc by constructor.
  revert Hacc. generalize (@nil string). induction Hl as [|c l Hc Hl IH]; intros acc Hacc; [done|].
  cbn [fold_left]. by apply IH, clean_step_ok.
Qed.

Lemma clean_steps cs acc : Forall clean_comp cs -> fold_left (clean_step true) cs acc = (reverse cs ++ acc)%list.
Proof.
  intros H. revert acc. induction H as [|c cs [[Hc1 Hc2] [Hc3 Hc4]] H IH]; intros acc; [done|]. cbn [fold_left].
  rewrite IH, reverse_cons, <- app_assoc. cbn [app]. f_equal. unfold clean_step.
  rewrite !decide_False by tauto. done.
Qed.

Lemma Clean_path_of cs : Forall clean_comp cs -> Clean (path_of cs) = path_of cs.
Proof.
  intros Hcs. unfold Clean. rewrite decide_False by apply path_of_nonempty. rewrite path_of_prefix, Join_path_of.
  f_equal. destruct cs as [|c cs]; [done|]. rewrite Split_path_of; [|done|].
  - change (fold_left (clean_step true) ("" :: c :: cs) []) with (fold_left (clean_step true) (c :: cs) []).
    by rewrite clean_steps, app_nil_r, reverse_involutive.
  - eapply Forall_impl; [exact Hcs|]. by intros d [].
Qed.

(** ** Pairs sorted by their first component *)

Definition fst_le {B} (x y : string * B) : Prop := String.le (fst x) (fst y).

Definition fst_lt {B} (x y : string * B) : Prop := str_lt (fst x) (fst y).

#[export] Instance fst_le_dec {B} : RelDecision (@fst_le B).
Proof. intros x y. unfold fst_le. apply _. Defined.
#[export] Instance fst_le_trans {B} : Transitive (@fst_le B).
Proof. intros x y z. unfold fst_le. apply transitivity. Qed.
#[export] Instance fst_le_total {B} : Total (@fst_le B).
Proof. intros x y. apply (total String.le). Qed.

(** A list sorted by first components that are distinct is strictly sorted. *)
Lemma sorted_strict {B} (l : list (string * B)) :
  StronglySorted fst_le l -> NoDup (fst <$> l) -> StronglySorted fst_lt l.
Proof.
  induction 1 as [|x l Hs IH Hx]; intros Hnd; [constructor|]. cbn in Hnd. apply NoDup_cons in Hnd as [Hn Hnd].
  constructor; [by apply IH|]. apply Forall_forall. intros y Hy.
  apply str_le_lt; [by eapply Forall_forall in Hx|]. intros E. apply Hn. rewrite E. by apply list_elem_of_fmap_2.
Qed.

Lemma sorted_filter {A} (R : A -> A -> Prop) (P : A -> Prop) `{forall x, Decision (P x)} l :
  StronglySorted R l -> StronglySorted R (filter P l).
Proof.
  induction 1 as [|x l Hs IH Hx]; [constructor|]. rewrite filter_cons. destruct (decide (P x)); [|done].
  constructor; [done|]. apply Forall_forall. intros y [_ Hy]%list_elem_of_filter. by eapply Forall_forall in Hx.
Qed.

(** Sorting brings a permutation of a strictly sorted list back to it. *)
Lemma merge_sort_strict {A} (R : A -> A -> Prop) `{!RelDecision R} `{!Transitive R} `{!Total R} (l l' : list A) :
  StronglySorted (fun x y => ~ R y x) l -> l' ≡ₚ l -> merge_sort R l' = l.
Proof.
  intros Hs Hp. eapply (StronglySorted_unique_strong R).
  - intros x y Hx Hy Hxy Hyx. rewrite (merge_sort_Permutation R), Hp in Hx. clear Hp. revert Hx Hy.
    induction Hs as [|z l Hs IH Hz]; [by intros ?%not_elem_of_nil|].
    intros [->|Hx]%elem_of_cons [->|Hy]%elem_of_cons; [done|..|by apply IH]; by eapply Forall_forall in Hz.
  - apply (StronglySorted_merge_sort R).
  - clear Hp. induction Hs as [|z l Hs IH Hz]; constructor; [done|]. eapply Forall_impl; [exact Hz|].
    intros y Hy. by destruct (total R z y).
  - by rewrite (merge_sort_Permutation R).
Qed.

#[export] Instance fst_lt_anti {B} : AntiSymm (=) (@fst_lt B).
Proof. intros x y H1 H2. by destruct (str_lt_asym _ _ H1 H2). Qed.

Lemma fst_lt_NoDup {B} (l : list (string * B)) : StronglySorted fst_lt l -> NoDup l.
Proof.
  induction 1 as [|x l Hs IH Hx]; constructor; [|done]. intros Hin. eapply Forall_forall in Hx; [|done].
  by apply str_lt_irrefl in Hx.
Qed.

(** Strictly sorted lists with the same elements are equal. *)
Lemma fst_lt_unique {B} (l1 l2 : list (string * B)) :
  StronglySorted fst_lt l1 -> StronglySorted fst_lt l2 -> (forall x, x ∈ l1 <-> x ∈ l2) -> l1 = l2.
Proof.
  intros H1 H2 Hel. eapply (StronglySorted_unique fst_lt); [done..|].
  apply NoDup_Permutation; [by apply fst_lt_NoDup..|done].
Qed.

(** ** The components of a path, as [MkdirAll] finds them *)

Lemma drop_byte_ne c l : head l <> Some c -> drop_byte c l = l.
Proof. destruct l as [|x l]; [done|]. cbn. intros Hx. by rewrite decide_False by naive_solver. Qed.

Lemma segs_second c cs : comp_ok c -> head (tail (chars (segs (c :: cs)))) <> Some slash.
Proof.
  intros [H1 H2]. cbn [segs]. rewrite !chars_append. cbn [String.list_ascii_of_string app tail].
  destruct c as [|x c]; [done|]. cbn. intros [= ->]. apply H2. cbn. by left.
Qed.

Lemma Trim_segs cs :
  cs <> [] -> Forall comp_ok cs -> chars (Trim slash (segs cs)) = tail (chars (segs cs)).
Proof.
  intros Hne Hok. unfold Trim. rewrite chars_str. destruct cs as [|c cs] using rev_ind; [done|]. clear IHcs Hne.
  assert (chars (segs (cs ++ [c])%list) = slash :: tail (chars (segs (cs ++ [c])%list))) as E by by destruct cs.
  rewrite E at 1. cbn [drop_byte]. rewrite decide_True by done.
  rewrite (drop_byte_ne slash (tail _)); [|intros Hh].
  - rewrite drop_byte_ne; [by rewrite reverse_involutive|]. rewrite segs_app, chars_append.
    apply Forall_app in Hok as [_ [[Hc1 Hc2] _]%Forall_cons]. cbn [segs]. rewrite append_nil_r.
    destruct (chars c) as [|x l] eqn:Ec using rev_ind; [destruct c; done|]. clear IHl. rewrite chars_append, Ec.
    intros Hh. apply Hc2. rewrite elem_of_app, list_elem_of_singleton. right.
    revert Hh. destruct (chars (segs cs)) as [|y l']; cbn [app tail String.list_ascii_of_string].
    + rewrite reverse_snoc. cbn. congruence.
    + rewrite app_comm_cons, app_assoc, reverse_snoc. cbn. congruence.
  - revert Hh. destruct cs as [|d cs]; apply Forall_cons in Hok as [Hd _]; by apply segs_second.
Qed.

Lemma Split_Trim cs : cs <> [] -> Forall comp_ok cs -> Split slash (Trim slash (path_of cs)) = cs.
Proof.
  intros Hne Hok. pose proof (split_segs cs Hne Hok) as Hs. rewrite path_of_segs by done. unfold Split.
  rewrite Trim_segs by done. destruct cs as [|c cs]; [done|].
  assert (chars (segs (c :: cs)) = slash :: tail (chars (segs (c :: cs)))) as E by done.
  rewrite E in Hs. cbn [split_byte] in Hs. rewrite decide_True in Hs by done. apply (f_equal tail) in Hs.
  cbn [tail] in Hs |- *. rewrite Hs. apply fmap_str_chars.
Qed.
