(* ===== verification/FilerStore.v ===== *)
(** * FilerStore: entries and the interface of the filer's stores

    Models [goblob/filer/entry.go] and [goblob/filer/filer_store.go].  The interface is a
    type class of operations; what the filer relies on is a second class, the laws, over a
    relation between the states of a store and a map from paths to entries.  Operations
    can fail at any time; a failed write may or may not have happened. *)

From S2P Require Import Prelude GoStrings GoPath.
From Stdlib Require Import Sorting.Sorted.

#[local] Open Scope string_scope.

(** ** Entries *)

(** [os.FileMode]: the bit of directories. *)
Definition ModeDir : Z := 2 ^ 31.

(** Times are nanoseconds since 1970; [zero_time] is the zero [time.Time], in year 1. *)
Definition zero_time : Z := -62135596800 * 10 ^ 9.

Record Attr := mkAttr {
  at_Mode : Z;
  at_Uid : Z;
  at_Gid : Z;
  at_Mtime : Z;
  at_Crtime : Z;
  at_Mime : string;
  at_Replication : string;
  at_Collection : string;
  at_TtlSec : Z;
  at_DiskType : string;
  at_FileSize : Z;
  at_INode : Z;
  at_SymlinkTarget : string;
}.

Definition zero_attr : Attr := mkAttr 0 0 0 zero_time zero_time "" "" "" 0 "" 0 0 "".

Record FileChunk := mkChunk {
  fc_FileId : string;
  fc_Offset : Z;
  fc_Size : Z;
  fc_ModifiedTsNs : Z;
  fc_ETag : string;
  fc_IsCompressed : bool;
}.

Record RemoteEntry := mkRemote { re_StorageName : string; re_Key : string; re_ETag : string; re_StoredName : string }.

(** Chunks and the remote entry are pointers, [None] when nil. *)
Record Entry := mkEntry {
  e_FullPath : string;
  e_Attr : Attr;
  e_Chunks : list (option FileChunk);
  e_Content : bytes;
  e_Extended : gmap string bytes;
  e_HardLinkId : bytes;
  e_HardLinkCounter : Z;
  e_Remote : option RemoteEntry;
}.

#[export] Instance Attr_dec : EqDecision Attr.
Proof. solve_decision. Defined.
#[export] Instance FileChunk_dec : EqDecision FileChunk.
Proof. solve_decision. Defined.
#[export] Instance RemoteEntry_dec : EqDecision RemoteEntry.
Proof. solve_decision. Defined.
#[export] Instance Entry_dec : EqDecision Entry.
Proof. solve_decision. Defined.

Definition IsDirectory (e : Entry) : bool := negb (bool_decide (Z.land (at_Mode (e_Attr e)) ModeDir = 0)).

(** An entry with a path and attributes only. *)
Definition plain_entry (fp : string) (a : Attr) : Entry := mkEntry fp a [] [] ∅ [] 0 None.

Definition set_FullPath (fp : string) (e : Entry) : Entry :=
  mkEntry fp (e_Attr e) (e_Chunks e) (e_Content e) (e_Extended e) (e_HardLinkId e) (e_HardLinkCounter e) (e_Remote e).

Definition set_Chunks (cs : list (option FileChunk)) (e : Entry) : Entry :=
  mkEntry (e_FullPath e) (e_Attr e) cs (e_Content e) (e_Extended e) (e_HardLinkId e) (e_HardLinkCounter e) (e_Remote e).

(** ** The interface *)

(** [ErrOther] is any error that is not [filer.ErrNotFound], with its text. *)
Inductive store_err :=
| ErrNotFound
| ErrOther (msg : string).

Definition Error (e : store_err) : string :=
  match e with ErrNotFound => "entry not found" | ErrOther msg => msg end.

(** The key-value part. *)
Class KvStore (S : Type) := {
  KvGet : string -> GoM S store_err string;
  KvPut : string -> string -> GoM S store_err unit;
  KvDelete : string -> GoM S store_err unit;
}.

(** The callback of a listing threads a state [T] and tells whether to go on. *)
Class FilerStore (S : Type) := {
  fs_kv :: KvStore S;
  InsertEntry : Entry -> GoM S store_err unit;
  UpdateEntry : Entry -> GoM S store_err unit;
  FindEntry : string -> GoM S store_err Entry;
  DeleteEntry : string -> GoM S store_err unit;
  DeleteFolderChildren : string -> GoM S store_err unit;
  ListDirectoryPrefixedEntries {T : Type} (dirPath startFileName : string) (includeStart : bool) (limit : Z)
    (prefix : string) (fn : Entry -> T -> bool * T) (acc : T) : S -> outcome store_err string * T * S;
}.

Definition ListDirectoryEntries {S} `{FilerStore S} {T : Type} (dirPath startFileName : string) (includeStart : bool)
    (limit : Z) (fn : Entry -> T -> bool * T) (acc : T) (s : S) : outcome store_err string * T * S :=
  ListDirectoryPrefixedEntries dirPath startFileName includeStart limit "" fn acc s.

(** ** The laws *)

(** Whether a listing that starts at [start] comes to [name]. *)
Definition from_start (start : string) (includeStart : bool) (name : string) : Prop :=
  start = "" \/ (if includeStart then ~ str_lt name start else str_lt start name).

#[export] Instance from_start_dec start incl name : Decision (from_start start incl name).
Proof. unfold from_start. destruct incl; apply _. Defined.

(** [l] are the entries of a directory that a listing delivers, in order of their names. *)
Record listed (m : gmap string Entry) (dir start : string) (incl : bool) (prefix : string)
    (l : list (string * Entry)) : Prop := {
  ls_sorted : StronglySorted fst_lt l;
  ls_elem : forall name e, (name, e) ∈ l <->
    exists p, m !! p = Some e /\ DirAndName p = (dir, name) /\ HasPrefix name prefix = true /\ from_start start incl name;
}.

(** The calls of the callback for the first [n] entries of [l]; the result has the name
    of the last entry delivered. *)
Fixpoint deliver {T} (n : nat) (fn : Entry -> T -> bool * T) (l : list (string * Entry)) (acc : T) (last : string)
  : string * T :=
  match n, l with
  | S n, (name, e) :: l => let '(more, acc) := fn e acc in if more then deliver n fn l acc name else (name, acc)
  | _, _ => (last, acc)
  end.

(** What a call that can change one binding leaves: on an error either state. *)
Definition written {S M A} (rep : S -> M -> Prop) (m m' : M) (r : outcome store_err A * S) : Prop :=
  match fst r with
  | Ret _ => rep (snd r) m'
  | Fail _ => rep (snd r) m \/ rep (snd r) m'
  | Panic => False
  end.

Class KvLaws (S : Type) `{KvStore S} (rep : S -> gmap string string -> Prop) : Prop := {
  KvGet_law s m k : rep s m ->
    rep (snd (KvGet k s)) m /\
    match fst (KvGet k s) with
    | Ret v => m !! k = Some v
    | Fail ErrNotFound => m !! k = None
    | Fail (ErrOther _) => True
    | Panic => False
    end;
  KvPut_law s m k v : rep s m -> written rep m (<[k := v]> m) (KvPut k v s);
  KvDelete_law s m k : rep s m -> written rep m (delete k m) (KvDelete k s);
}.

(** The laws of entries hold for the [valid] paths, which are absolute, and the entries that
    satisfy [good]; the operations on keys and values leave the entries alone. *)
Class FilerLaws (S : Type) `{FilerStore S} (valid : string -> Prop) (good : Entry -> Prop)
    (rep : S -> gmap string Entry -> Prop) : Prop := {
  valid_abs p : valid p -> abs_path p;
  valid_dir p : valid p -> valid (fst (DirAndName p));
  rep_keyed s m p e : rep s m -> m !! p = Some e -> e_FullPath e = p /\ valid p /\ good e;
  InsertEntry_law s m e : rep s m -> valid (e_FullPath e) -> good e ->
    written rep m (<[e_FullPath e := e]> m) (InsertEntry e s);
  UpdateEntry_law s m e : rep s m -> valid (e_FullPath e) -> good e ->
    written rep m (<[e_FullPath e := e]> m) (UpdateEntry e s);
  FindEntry_law s m p : rep s m -> valid p ->
    rep (snd (FindEntry p s)) m /\
    match fst (FindEntry p s) with
    | Ret e => m !! p = Some e
    | Fail ErrNotFound => m !! p = None
    | Fail (ErrOther _) => True
    | Panic => False
    end;
  DeleteEntry_law s m p : rep s m -> valid p -> written rep m (delete p m) (DeleteEntry p s);
  DeleteEntry_found s m p : rep s m -> valid p -> fst (DeleteEntry p s) = Fail ErrNotFound -> m !! p = None;
  List_law s m T dir start incl limit (fn : Entry -> T -> bool * T) acc : rep s m -> valid dir -> 0 < limit ->
    let '(r, acc', s') := ListDirectoryPrefixedEntries dir start incl limit "" fn acc s in
    rep s' m /\
    match r with
    | Ret last => exists l, listed m dir start incl "" l /\ deliver (Z.to_nat limit) fn l acc "" = (last, acc')
    | Fail _ => True
    | Panic => False
    end;
  KvGet_frame s m k : rep s m -> rep (snd (KvGet k s)) m;
  KvPut_frame s m k v : rep s m -> rep (snd (KvPut k v s)) m;
  KvDelete_frame s m k : rep s m -> rep (snd (KvDelete k s)) m;
}.

(** Listings with a prefix that satisfies [plain]. *)
Class PrefixLaws (S : Type) `{FilerStore S} (valid plain : string -> Prop) (rep : S -> gmap string Entry -> Prop) : Prop := {
  Prefix_law s m T dir start incl limit prefix (fn : Entry -> T -> bool * T) acc :
    rep s m -> valid dir -> plain prefix -> 0 < limit ->
    let '(r, acc', s') := ListDirectoryPrefixedEntries dir start incl limit prefix fn acc s in
    rep s' m /\
    match r with
    | Ret last => exists l, listed m dir start incl prefix l /\ deliver (Z.to_nat limit) fn l acc "" = (last, acc')
    | Fail _ => True
    | Panic => False
    end;
}.
