(* ===== verification/Http.v ===== *)
(** * Http: what a handler writes, and URLs

    What the handlers of the servers use of [net/http.ResponseWriter]: a reply holds the
    status of the first header, the headers that depend on the answer and the parts of the
    body in order.  The type of the parts is an argument, since each server encodes its own
    answers. *)

From stdpp Require Import sorting.
From S2P Require Import Prelude GoStrings GoPath.

#[local] Open Scope Z_scope.
#[local] Open Scope string_scope.

Section reply.
Context {P : Type}.

Record reply := mkReply {
  rs_status : option Z;
  rs_type : string;
  rs_length : option Z;
  rs_etag : string;
  rs_body : list P;
}.

Definition no_reply : reply := mkReply None "" None "" [].

(** Only the first [WriteHeader] counts; a write without one sends 200. *)
Definition WriteHeader (status : Z) (w : reply) : reply :=
  mkReply (Some (default status (rs_status w))) (rs_type w) (rs_length w) (rs_etag w) (rs_body w).

Definition write_part (p : P) (w : reply) : reply :=
  mkReply (Some (default 200 (rs_status w))) (rs_type w) (rs_length w) (rs_etag w) (rs_body w ++ [p]).

Definition set_type (t : string) (w : reply) : reply :=
  mkReply (rs_status w) t (rs_length w) (rs_etag w) (rs_body w).
Definition set_length (n : Z) (w : reply) : reply :=
  mkReply (rs_status w) (rs_type w) (Some n) (rs_etag w) (rs_body w).
Definition set_etag (t : string) (w : reply) : reply :=
  mkReply (rs_status w) (rs_type w) (rs_length w) t (rs_body w).

(** The status the client sees. *)
Definition status_of (w : reply) : Z := default 200 (rs_status w).

(** [w.WriteHeader(status)] and the part [p]. *)
Definition answer (status : Z) (p : P) : reply := write_part p (WriteHeader status no_reply).
End reply.

Arguments reply P : clear implicits.

(** * Escapes of [net/url] and cuts of [strings]

    [url.QueryEscape], [url.QueryUnescape], [url.PathUnescape], [url.Values.Encode] and
    [strings.Cut], on bytes. *)

(** [strings.Cut] at the first occurrence of a separator, and [strings.SplitN] into two. *)
Fixpoint cut_at (sep l : list ascii) : option (list ascii * list ascii) :=
  if decide (take (length sep) l = sep) then Some ([], drop (length sep) l) else
  match l with
  | [] => None
  | c :: l => '(a, b) ← cut_at sep l; Some (c :: a, b)
  end.

Definition Cut (s sep : string) : option (string * string) :=
  '(a, b) ← cut_at (chars sep) (chars s); Some (str a, str b).

Definition upper_hex (n : Z) : ascii := if decide (n < 10) then char (48 + n) else char (65 + n - 10).

Definition unreserved (c : ascii) : bool :=
  let z := code c in
  bool_decide (48 <= z <= 57 \/ 65 <= z <= 90 \/ 97 <= z <= 122 \/ c ∈ ["-"; "_"; "."; "~"]%char).

Definition percent (c : ascii) : list ascii := ["%"%char; upper_hex (code c / 16); upper_hex (code c mod 16)].

(** [url.QueryEscape] *)
Definition query_escape (c : ascii) : list ascii :=
  if unreserved c then [c] else if decide (c = " "%char) then ["+"%char] else percent c.

Definition QueryEscape (s : string) : string := str (chars s ≫= query_escape).

Definition hex_digit (c : ascii) : option Z := d ← digit_val c; if decide (d < 16) then Some d else None.

(** [url.QueryUnescape] and, without [plus], [url.PathUnescape]. *)
Fixpoint unescape (plus : bool) (l : list ascii) : option (list ascii) :=
  match l with
  | [] => Some []
  | "%"%char :: rest =>
      match rest with
      | h :: k :: rest => a ← hex_digit h; b ← hex_digit k; t ← unescape plus rest; Some (char (16 * a + b) :: t)
      | _ => None
      end
  | c :: l => t ← unescape plus l; Some ((if decide (plus = true /\ c = "+"%char) then " "%char else c) :: t)
  end.

Definition QueryUnescape (s : string) : option string := str <$> unescape true (chars s).
Definition PathUnescape (s : string) : option string := str <$> unescape false (chars s).

(** [url.Values.Encode] of one value per key: the keys are sorted. *)
Definition Values_Encode (q : gmap string string) : string :=
  Join "&" ((fun kv => QueryEscape (fst kv) +:+ "=" +:+ QueryEscape (snd kv)) <$> merge_sort fst_le (map_to_list q)).

Lemma cut_at_byte c l l' : c ∉ l -> cut_at [c] (l ++ c :: l')%list = Some (l, l').
Proof.
  induction l as [|x l IH]; intros Hc; cbn; [by rewrite decide_True|]. apply not_elem_of_cons in Hc as [Hne Hc].
  rewrite decide_False by (intros [= E]; by destruct Hne). cbn in IH. by rewrite IH.
Qed.

Lemma Cut_byte c s t : c ∉ chars s -> Cut (s +:+ String c t) (String c "") = Some (s, t).
Proof.
  intros Hc. unfold Cut. rewrite chars_append. change (chars (String c "")) with [c]. change (chars (String c t)) with (c :: chars t).
  rewrite cut_at_byte by done. cbn. by rewrite !str_chars.
Qed.
