(* ===== verification/GoText.v ===== *)
(** * GoText: spaces, case, substrings and decimal integers

    What the quota and deduplication code uses of [strings] and [strconv], for ASCII text,
    and the key-value store that never fails, which their theorems assume. *)

From S2P Require Import Prelude GoStrings GoPath FilerStore.

#[local] Open Scope Z_scope.
#[local] Open Scope string_scope.

Fixpoint drop_space (l : list ascii) : list ascii :=
  match l with
  | [] => []
  | c :: l' => if Ascii.is_space c then drop_space l' else l
  end.

Definition TrimSpace (s : string) : string := str (reverse (drop_space (reverse (drop_space (chars s))))).

Definition lower (c : ascii) : ascii := if decide (65 <= code c <= 90) then char (code c + 32) else c.

Definition ToLower (s : string) : string := str (lower <$> chars s).

Fixpoint contains (sub l : list ascii) : bool :=
  bool_decide (take (length sub) l = sub) || match l with [] => false | _ :: l => contains sub l end.

Definition Contains (s sub : string) : bool := contains (chars sub) (chars s).

(** [strconv.Itoa] and [strconv.Atoi] on 64-bit integers. *)
Definition Itoa (n : Z) : string :=
  if decide (n < 0) then "-" +:+ str (FormatUint (- n) 10) else str (FormatUint n 10).

Definition Atoi (s : string) : option Z :=
  match s with
  | String "-" s => n ← ParseUint (chars s) 10 64; if decide (n <= 2 ^ 63) then Some (- n) else None
  | String "+" s => n ← ParseUint (chars s) 10 64; if decide (n < 2 ^ 63) then Some n else None
  | s => n ← ParseUint (chars s) 10 64; if decide (n < 2 ^ 63) then Some n else None
  end.

(** ** [net.SplitHostPort] and [net.JoinHostPort] *)

Definition lbracket : ascii := "["%char.
Definition rbracket : ascii := "]"%char.
Definition colon_byte : ascii := ":"%char.

Definition SplitHostPort (s : string) : option (string * string) :=
  let l := chars s in
  match last_index_byte colon_byte l with
  | None => None
  | Some i =>
      let port := drop (S i) l in
      let bracketed := bool_decide (head l = Some lbracket) in
      match (if bracketed then
               match index_byte rbracket l with
               | Some e => if decide (S e = i) then Some (take (e - 1) (drop 1 l), 1%nat, S e) else None
               | None => None
               end
             else let host := take i l in if decide (colon_byte ∈ host) then None else Some (host, 0%nat, 0%nat)) with
      | None => None
      | Some (host, j, k) =>
          if decide (lbracket ∈ drop j l \/ rbracket ∈ drop k l) then None else Some (str host, str port)
      end
  end.

Definition JoinHostPort (host port : string) : string :=
  if decide (colon_byte ∈ chars host) then "[" +:+ host +:+ "]:" +:+ port else host +:+ ":" +:+ port.


(** [isNotFound] of [quota.go] and [dedup.go], which look at the text of an error. *)
Definition isNotFound (e : store_err) : bool := Contains (ToLower (Error e)) "not found".

Lemma isNotFound_missing : isNotFound ErrNotFound = true.
Proof. by vm_compute. Qed.

Lemma Itoa_nonempty n : Itoa n <> "".
Proof.
  unfold Itoa. destruct (decide (n < 0)); [done|]. intros E%(f_equal chars). rewrite chars_str in E.
  by apply FormatUint_nonempty in E.
Qed.

Lemma Atoi_Itoa n : 0 <= n < 2 ^ 63 -> Atoi (Itoa n) = Some n.
Proof.
  intros Hn. unfold Itoa. rewrite decide_False by lia.
  assert (ParseUint (FormatUint n 10) 10 64 = Some n) as Hp by (apply ParseUint_format; lia).
  assert (forall c, c ∈ FormatUint n 10 -> c <> "-"%char /\ c <> "+"%char) as Hc.
  { intros c Hin. split; intros ->; revert Hin; apply FormatUint_no_byte; (lia || (left; vm_compute; reflexivity)). }
  pose proof (FormatUint_nonempty 10 ltac:(lia) n) as Hne. unfold Atoi.
  destruct (FormatUint n 10) as [|c l] eqn:E; [done|]. destruct (Hc c) as [H1 H2]; [by left|].
  cbn [String.string_of_list_ascii].
  assert (chars (String c (str l)) = c :: l) as Hch by (cbn; by rewrite chars_str).
  rewrite <- Hch in Hp. clear Hch E Hne Hc.
  destruct c as [[] [] [] [] [] [] [] []]; try done; rewrite Hp; cbn [mbind option_bind]; by rewrite decide_True by lia.
Qed.

(** ** A store that always answers *)

Class KvReliable (S : Type) `{KvStore S} (rep : S -> gmap string string -> Prop) : Prop := {
  KvGet_ok s m k : rep s m -> exists s', rep s' m /\
    KvGet k s = (match m !! k with Some v => Ret v | None => Fail ErrNotFound end, s');
  KvPut_ok s m k v : rep s m -> exists s', rep s' (<[k := v]> m) /\ KvPut k v s = (Ret tt, s');
  KvDelete_ok s m k : rep s m -> exists s', rep s' (delete k m) /\ KvDelete k s = (Ret tt, s');
}.
