(* ===== verification/StoreView.v ===== *)
(** * StoreView: what the stores have in common

    A store that keeps the JSON text of an entry under its directory and its name: the view
    of such a store as a function from the two to the text, the map of entries that the view
    stands for, and listings as ordered rows of names and texts.  The test that skips the
    names in front of the start of a listing is the same in the stores that sort the names
    themselves ([goblob/filer/memory/memory_store.go], [redis3/redis_store.go],
    [cassandra/cassandra_store.go]). *)

From S2P Require Import Prelude GoStrings Hashes GoPath FilerStore GoText.
From stdpp Require Import sorting.
From Stdlib Require Import Sorting.Sorted.

#[local] Open Scope Z_scope.
#[local] Open Scope string_scope.

(** [startFileName != "" && item.name < startFileName], or [<=] *)
Definition skipped (startFileName : string) (includeStart : bool) (name : string) : bool :=
  bool_decide (startFileName <> "") &&
  (if includeStart then bool_decide (str_lt name startFileName) else bool_decide (String.le name startFileName)).

Lemma skipped_spec start incl name : skipped start incl name = false <-> from_start start incl name.
Proof.
  unfold skipped, from_start. destruct (decide (start = "")) as [->|Hs]; [by cbn; split; auto|].
  rewrite bool_decide_eq_true_2 by done. cbn [andb].
  destruct incl; rewrite bool_decide_eq_false; unfold str_lt; (split; [by right|by intros [|]]).
Qed.

(** Partners of the elements of related lists. *)
Lemma Forall2_elem_of_r {A B} (R : A -> B -> Prop) l k y : Forall2 R l k -> y ∈ k -> exists x, R x y /\ x ∈ l.
Proof.
  intros H [i Hi]%list_elem_of_lookup. destruct (Forall2_lookup_r _ _ _ _ _ H Hi) as (x & Hx & HR).
  exists x. split; [done|]. by eapply list_elem_of_lookup_2.
Qed.

Lemma Forall2_elem_of_l {A B} (R : A -> B -> Prop) l k x : Forall2 R l k -> x ∈ l -> exists y, R x y /\ y ∈ k.
Proof. intros H Hx. apply Forall2_flip in H. by eapply (Forall2_elem_of_r (flip R)). Qed.

Section view.
Context (unmarshalEntry : string -> outcome string Entry) (valid : string -> Prop) (good : Entry -> Prop).
Context (Habs : forall p, valid p -> abs_path p) (Hdir : forall p, valid p -> valid (fst (DirAndName p))).

(** What is kept under a name in a directory. *)
Definition stored (m : gmap string Entry) (dir name : string) (v : option string) : Prop :=
  match v with
  | Some v => exists p e, m !! p = Some e /\ DirAndName p = (dir, name) /\ unmarshalEntry v = Ret e
  | None => forall p e, m !! p = Some e -> DirAndName p <> (dir, name)
  end.

Definition view_holds (view : string -> string -> option string) (m : gmap string Entry) : Prop :=
  map_Forall (fun p e => e_FullPath e = p /\ valid p /\ good e) m /\
  forall dir name, valid dir -> stored m dir name (view dir name).

Lemma view_same view view' m :
  view_holds view m -> (forall dir name, valid dir -> view' dir name = view dir name) -> view_holds view' m.
Proof. intros [Hm Hv] E. split; [done|]. intros dir name Hd. rewrite E by done. by apply Hv. Qed.

Lemma view_put view view' m e data :
  view_holds view m -> valid (e_FullPath e) -> good e -> unmarshalEntry data = Ret e ->
  (forall dir name, valid dir ->
     view' dir name = if decide (DirAndName (e_FullPath e) = (dir, name)) then Some data else view dir name) ->
  view_holds view' (<[e_FullPath e := e]> m).
Proof.
  intros [Hm Hv] Hp Hg Hdata E. split; [by apply map_Forall_insert_2|]. intros dir name Hd. rewrite E by done.
  case_decide as Hdn; cbn.
  - exists (e_FullPath e), e. by rewrite lookup_insert_eq.
  - specialize (Hv dir name Hd). destruct (view dir name) as [v|]; cbn in *.
    + destruct Hv as (p & e' & Hpe & Hdn' & Hv). exists p, e'. rewrite lookup_insert_ne; [done|]. intros <-. congruence.
    + intros p e'. rewrite lookup_insert_Some. intros [[<- <-]|[_ Hpe]]; [done|by eapply Hv].
Qed.

Lemma view_delete view view' m p :
  view_holds view m -> valid p ->
  (forall dir name, valid dir -> view' dir name = if decide (DirAndName p = (dir, name)) then None else view dir name) ->
  view_holds view' (delete p m).
Proof.
  intros [Hm Hv] Hp E. split; [by apply map_Forall_delete|]. intros dir name Hd. rewrite E by done.
  case_decide as Hdn; cbn.
  - intros q e [Hne Hq]%lookup_delete_Some Hdq. apply Hne. apply DirAndName_inj; [by apply Habs| |congruence].
    apply Habs. by apply Hm in Hq as (_ & ? & _).
  - specialize (Hv dir name Hd). destruct (view dir name) as [v|]; cbn in *.
    + destruct Hv as (q & e' & Hpe & Hdn' & Hv). exists q, e'. rewrite lookup_delete_ne; [done|]. intros <-. congruence.
    + intros q e' [_ Hq]%lookup_delete_Some. by eapply Hv.
Qed.

(** Directories that lose all their entries. *)
Lemma view_filter view view' m (P : string -> bool) :
  view_holds view m -> (forall dir name, valid dir -> view' dir name = if P dir then None else view dir name) ->
  view_holds view' (filter (fun kv => P (fst (DirAndName (fst kv))) = false) m).
Proof.
  intros [Hm Hv] E. split; [intros p e [Hp _]%map_lookup_filter_Some; by apply Hm|].
  intros dir name Hd. rewrite E by done. specialize (Hv dir name Hd). destruct (P dir) eqn:EP; cbn.
  - intros p e [Hp Hu]%map_lookup_filter_Some Hdn. cbn in Hu. rewrite Hdn in Hu. cbn in Hu. congruence.
  - destruct (view dir name) as [v|]; cbn in *.
    + destruct Hv as (p & e & Hp & Hdn & Hu). exists p, e. split; [|done]. apply map_lookup_filter_Some. cbn. by rewrite Hdn.
    + intros p e [Hp _]%map_lookup_filter_Some. by eapply Hv.
Qed.

Lemma view_find view m p dir name :
  view_holds view m -> valid p -> DirAndName p = (dir, name) ->
  match view dir name with
  | Some v => exists e, unmarshalEntry v = Ret e /\ m !! p = Some e
  | None => m !! p = None
  end.
Proof.
  intros [Hm Hv] Hp Hdn. pose proof (Hdir p Hp) as Hd. rewrite Hdn in Hd. specialize (Hv dir name Hd).
  destruct (view dir name) as [v|]; cbn in Hv.
  - destruct Hv as (q & e & Hq & Hdq & Hv). exists e. split; [done|].
    enough (q = p) as <- by done. apply DirAndName_inj; [apply Habs; by apply Hm in Hq as (_ & ? & _)|by apply Habs|congruence].
  - destruct (m !! p) as [e|] eqn:E; [|done]. by destruct (Hv p e).
Qed.

(** ** Listings *)

(** [x] is the entry that the row [kv] holds. *)
Definition row_of (kv : string * string) (x : string * Entry) : Prop := fst kv = fst x /\ unmarshalEntry (snd kv) = Ret (snd x).

Lemma rows_sorted l lx : Forall2 row_of l lx -> StronglySorted fst_lt l -> StronglySorted fst_lt lx.
Proof.
  induction 1 as [|kv x l lx [Hk Hv] Hl IH]; intros Hs; [constructor|]. apply StronglySorted_inv in Hs as [Hs Hx].
  constructor; [auto|]. apply Forall_forall. intros y Hy.
  destruct (Forall2_elem_of_r _ _ _ _ Hl Hy) as (kv' & [Hk' _] & Hin). eapply Forall_forall in Hx; [|exact Hin].
  unfold fst_lt in *. by rewrite <- Hk, <- Hk'.
Qed.

(** The rows of a directory that a listing is after, in order, are the entries of the listing. *)
Lemma view_listed view m dir start incl prefix l :
  view_holds view m -> valid dir -> StronglySorted fst_lt l ->
  (forall name v, (name, v) ∈ l <-> view dir name = Some v /\ HasPrefix name prefix = true /\ from_start start incl name) ->
  exists lx, Forall2 row_of l lx /\ listed m dir start incl prefix lx.
Proof.
  intros [Hm Hv] Hd Hs Hel.
  assert (exists lx, Forall2 row_of l lx) as [lx Hlx].
  { assert (forall name v, (name, v) ∈ l -> view dir name = Some v) as Hl by (intros; by eapply proj1, Hel).
    clear Hs Hel. induction l as [|[name v] l IH]; [by exists []|]. destruct IH as [lx Hlx]; [set_solver|].
    pose proof (Hv dir name Hd) as Hst. rewrite (Hl name v) in Hst by left. destruct Hst as (p & e & _ & _ & He).
    exists ((name, e) :: lx). by constructor. }
  exists lx. split; [done|]. split; [by eapply rows_sorted|]. intros name e. pose proof (Hv dir name Hd) as Hst. split.
  - intros Hin. destruct (Forall2_elem_of_r _ _ _ _ Hlx Hin) as ([n v] & [Hk Hu] & Hnv). cbn in *. subst n.
    apply Hel in Hnv as (Hview & Hp & Hf). rewrite Hview in Hst. destruct Hst as (p & e' & Hpe & Hdn & Hu').
    exists p. rewrite Hu in Hu'. by injection Hu' as ->.
  - intros (p & Hpe & Hdn & Hp & Hf). destruct (view dir name) as [v|] eqn:E; [|by destruct (Hst p e)].
    destruct Hst as (q & e' & Hq & Hdq & Hu). assert (q = p) as ->.
    { apply DirAndName_inj; [..|congruence]; apply Habs; [by apply Hm in Hq as (_ & ? & _)|by apply Hm in Hpe as (_ & ? & _)]. }
    assert (e' = e) as -> by congruence.
    assert ((name, v) ∈ l) as Hin by by apply Hel.
    destruct (Forall2_elem_of_l _ _ _ _ Hlx Hin) as ([n x] & [Hk Hu'] & Hx). cbn in *. subst n. congruence.
Qed.
End view.

(** ** Configuration *)

(** The same function in the packages of the remote stores. *)
Definition parseIntOrDefault (value : string) (def : Z) : Z :=
  if decide (TrimSpace value = "") then def else default def (Atoi (TrimSpace value)).

(** A key of a configuration, the empty text when it is missing. *)
Definition config_get (config : gmap string string) (k : string) : string := default "" (config !! k).

(** [strings.TrimSpace] of a key, with a default for the empty text. *)
Definition trimmed_or (def value : string) : string := if decide (TrimSpace value = "") then def else TrimSpace value.

(** The directories at or below [fp]. *)
Definition under (fp dir : string) : bool :=
  let prefix := if HasSuffix fp "/" then fp else fp +:+ "/" in bool_decide (dir = fp) || HasPrefix dir prefix.

(** ** Keys in hexadecimal *)

(** [hex.EncodeToString] *)
Definition hex_key (key : string) : string := hex_bytes (to_bytes key).

Lemma digit_char_inj n m : 0 <= n < 16 -> 0 <= m < 16 -> digit_char n = digit_char m -> n = m.
Proof. intros Hn Hm E. apply (f_equal digit_val) in E. rewrite !digit_char_val in E by done. congruence. Qed.

Lemma hex_key_inj k1 k2 : hex_key k1 = hex_key k2 -> k1 = k2.
Proof.
  unfold hex_key, hex_bytes, to_bytes. intros E. apply (f_equal chars) in E. rewrite !chars_str in E. apply chars_inj. revert E.
  generalize (chars k2). induction (chars k1) as [|c l1 IH]; intros [|d l2] E; cbn in E; try done.
  injection E as E1 E2 E3. f_equal; [|by apply IH]. pose proof (code_range c). pose proof (code_range d).
  apply digit_char_inj in E1, E2; [|zlia..]. rewrite <- (char_code c), <- (char_code d). f_equal. zlia.
Qed.

(** ** A codec for examples *)

Definition ex_entry : Entry := plain_entry "/docs" zero_attr.

(** A codec for one entry. *)
Definition ex_marshal (e : Entry) : outcome string string := if decide (e = ex_entry) then Ret "{docs}" else Fail "unsupported".
Definition ex_unmarshal (d : string) : outcome string Entry := if decide (d = "{docs}") then Ret ex_entry else Fail "invalid".

Lemma ex_no_panic e : ex_marshal e <> Panic.
Proof. unfold ex_marshal. by destruct (decide _). Qed.

Lemma ex_reads_back e d : True -> ex_marshal e = Ret d -> ex_unmarshal d = Ret e.
Proof. intros _. unfold ex_marshal. destruct (decide (e = ex_entry)) as [->|]; [|done]. by intros [= <-]. Qed.
