(* ===== verification/MemoryStore.v ===== *)
(** * MemoryStore: the store in memory

    Models [goblob/filer/memory/memory_store.go].  The order in which the code ranges over
    the map of entries is an argument; the sort of the listing is a merge sort, which is
    one of the sorts [sort.Slice] may perform. *)

From S2P Require Import Prelude GoStrings GoPath FilerStore StoreView.
From stdpp Require Import sorting.
From Stdlib Require Import Sorting.Sorted.

#[local] Open Scope Z_scope.
#[local] Open Scope string_scope.

Record MemStore := mkMemStore { ms_name : string; ms_entries : gmap string Entry; ms_kv : gmap string string }.

(** The spaces of [strings.TrimSpace] below 128. *)
Definition New (name : string) : MemStore :=
  mkMemStore (if decide (Forall (fun c => Ascii.is_space c = true) (chars name)) then "memory" else name) ∅ ∅.

(** ** Copies *)

Definition cloneEntry (e : Entry) : Entry :=
  mkEntry (e_FullPath e) (e_Attr e)
    ((fun oc => match oc with
                | None => None
                | Some c => Some (mkChunk (fc_FileId c) (fc_Offset c) (fc_Size c) (fc_ModifiedTsNs c) (fc_ETag c) (fc_IsCompressed c))
                end) <$> e_Chunks e)
    (e_Content e) ((fun v => v) <$> e_Extended e) (e_HardLinkId e) (e_HardLinkCounter e)
    (match e_Remote e with
     | Some r => Some (mkRemote (re_StorageName r) (re_Key r) (re_ETag r) (re_StoredName r))
     | None => None
     end).

(** ** Entries *)

Definition upsert (e : Entry) : GoM MemStore store_err unit := fun s =>
  (Ret tt, mkMemStore (ms_name s) (<[e_FullPath e := cloneEntry e]> (ms_entries s)) (ms_kv s)).

Definition mem_FindEntry (fp : string) : GoM MemStore store_err Entry := fun s =>
  match ms_entries s !! fp with
  | Some e => (Ret (cloneEntry e), s)
  | None => (Fail ErrNotFound, s)
  end.

Definition mem_DeleteEntry (fp : string) : GoM MemStore store_err unit := fun s =>
  (Ret tt, mkMemStore (ms_name s) (delete fp (ms_entries s)) (ms_kv s)).

Definition mem_DeleteFolderChildren (fp : string) : GoM MemStore store_err unit := fun s =>
  let prefix := if HasSuffix fp "/" then fp else fp +:+ "/" in
  (Ret tt, mkMemStore (ms_name s) (filter (fun kv => HasPrefix (fst kv) prefix = false) (ms_entries s)) (ms_kv s)).

(** ** Listings *)

(** The entries of a directory with a prefix, in any order. *)
Definition in_dir (dirPath prefix : string) (e : Entry) : option (string * Entry) :=
  let '(dir, name) := DirAndName (e_FullPath e) in
  if decide (dir <> dirPath) then None else
  if decide (prefix <> "" /\ HasPrefix name prefix = false) then None else
  Some (name, e).

Fixpoint mem_loop {T} (startFileName : string) (includeStart : bool) (limit : Z) (fn : Entry -> T -> bool * T)
    (arr : list (string * Entry)) (count : Z) (last : string) (acc : T) : string * T :=
  match arr with
  | [] => (last, acc)
  | (name, e) :: arr =>
      if skipped startFileName includeStart name then mem_loop startFileName includeStart limit fn arr count last acc else
      let count := count + 1 in
      let '(more, acc) := fn (cloneEntry e) acc in
      if negb more then (name, acc) else
      if decide (limit > 0 /\ count >= limit) then (name, acc) else
      mem_loop startFileName includeStart limit fn arr count name acc
  end.

Section listing.
Context (order : gmap string Entry -> list (string * Entry)).

Definition mem_listEntries {T} (dirPath startFileName : string) (includeStart : bool) (limit : Z) (prefix : string)
    (fn : Entry -> T -> bool * T) (acc : T) (s : MemStore) : outcome store_err string * T * MemStore :=
  let arr := merge_sort fst_le (omap (fun kv => in_dir dirPath prefix (snd kv)) (order (ms_entries s))) in
  let '(last, acc) := mem_loop startFileName includeStart limit fn arr 0 "" acc in
  (Ret last, acc, s).

(** ** The key-value part *)

Definition mem_KvPut (key value : string) : GoM MemStore store_err unit := fun s =>
  (Ret tt, mkMemStore (ms_name s) (ms_entries s) (<[key := value]> (ms_kv s))).

Definition mem_KvGet (key : string) : GoM MemStore store_err string := fun s =>
  match ms_kv s !! key with Some v => (Ret v, s) | None => (Fail ErrNotFound, s) end.

Definition mem_KvDelete (key : string) : GoM MemStore store_err unit := fun s =>
  (Ret tt, mkMemStore (ms_name s) (ms_entries s) (delete key (ms_kv s))).

#[export] Instance mem_kv : KvStore MemStore := {
  KvGet := mem_KvGet;
  KvPut := mem_KvPut;
  KvDelete := mem_KvDelete;
}.

#[export] Instance mem_store : FilerStore MemStore := {
  fs_kv := mem_kv;
  InsertEntry := upsert;
  UpdateEntry := upsert;
  FindEntry := mem_FindEntry;
  DeleteEntry := mem_DeleteEntry;
  DeleteFolderChildren := mem_DeleteFolderChildren;
  ListDirectoryPrefixedEntries := @mem_listEntries;
}.
End listing.

(** ** The laws *)

Lemma cloneEntry_id e : cloneEntry e = e.
Proof.
  destruct e as [fp a cs ct ext hl hc r]. unfold cloneEntry. cbn. f_equal.
  - rewrite <- (list_fmap_id cs) at 2. apply list_fmap_ext. by intros _ [[]|] _.
  - apply map_fmap_id.
  - by destruct r as [[]|].
Qed.

Definition mem_rep (s : MemStore) (m : gmap string Entry) : Prop :=
  ms_entries s = m /\ map_Forall (fun p e => e_FullPath e = p /\ abs_path p) m.

Lemma mem_loop_deliver {T} start incl limit (fn : Entry -> T -> bool * T) arr count last acc :
  0 < limit -> count < limit ->
  mem_loop start incl limit fn arr count last acc =
  deliver (Z.to_nat (limit - count)) fn (filter (fun x => from_start start incl (fst x)) arr) acc last.
Proof.
  intros Hlim. revert count last acc. induction arr as [|[name e] arr IH]; intros count last acc Hc; cbn [mem_loop].
  { by destruct (Z.to_nat _). }
  rewrite filter_cons. cbn [fst]. destruct (decide (from_start start incl name)) as [Hf|Hf].
  - rewrite (proj2 (skipped_spec start incl name) Hf), cloneEntry_id.
    replace (Z.to_nat (limit - count)) with (S (Z.to_nat (limit - (count + 1)))) by lia. cbn [deliver].
    destruct (fn e acc) as [more acc']. destruct more; cbn [negb]; [|done].
    destruct (decide (limit > 0 /\ count + 1 >= limit)) as [Hl|Hl]; [|apply IH; lia].
    replace (Z.to_nat (limit - (count + 1))) with O by lia. by destruct (filter _ arr) as [|[]].
  - destruct (skipped start incl name) eqn:E; [by apply IH|]. by apply skipped_spec in E.
Qed.

Lemma in_dir_Some dir prefix e x :
  in_dir dir prefix e = Some x <-> DirAndName (e_FullPath e) = (dir, fst x) /\ HasPrefix (fst x) prefix = true /\ snd x = e.
Proof.
  assert (forall name, HasPrefix name "" = true) as Hp by by intros [].
  unfold in_dir. destruct (DirAndName (e_FullPath e)) as [d name], x as [n e']. cbn [fst snd].
  destruct (decide (d <> dir)) as [Hd|Hd%dec_stable]; [split; [done|]; by intros ([= ??] & _)|].
  destruct (decide (prefix <> "" /\ HasPrefix name prefix = false)) as [[H1 H2]|H].
  - split; [done|]. intros ([= <- <-] & H3 & _). congruence.
  - split.
    + intros [= <- <-]. subst d. split_and!; [done| |done]. destruct (decide (prefix = "")) as [->|]; [done|].
      destruct (HasPrefix name prefix) eqn:E; [done|]. by destruct H.
    + by intros ([= <- <-] & _ & ->).
Qed.

Section laws.
Context (order : gmap string Entry -> list (string * Entry)) (Horder : forall m, order m ≡ₚ map_to_list m).

Definition dir_list (dir prefix : string) (m : gmap string Entry) : list (string * Entry) :=
  merge_sort fst_le (omap (fun kv => in_dir dir prefix (snd kv)) (order m)).

Lemma dir_list_elem dir prefix m name e :
  map_Forall (fun p e => e_FullPath e = p /\ abs_path p) m ->
  (name, e) ∈ dir_list dir prefix m <->
  exists p, m !! p = Some e /\ DirAndName p = (dir, name) /\ HasPrefix name prefix = true.
Proof.
  intros Hm. unfold dir_list. rewrite (merge_sort_Permutation fst_le), list_elem_of_omap. split.
  - intros ([p e'] & Hp & (Hd & Hpre & He)%in_dir_Some). cbn in *. subst e'. rewrite Horder in Hp.
    apply elem_of_map_to_list in Hp. exists p. destruct (Hm _ _ Hp) as [<- _]. done.
  - intros (p & Hp & Hd & Hpre). exists (p, e). rewrite Horder, elem_of_map_to_list. split; [done|].
    apply in_dir_Some. cbn. by rewrite (proj1 (Hm _ _ Hp)).
Qed.

Lemma dir_list_NoDup dir prefix m :
  map_Forall (fun p e => e_FullPath e = p /\ abs_path p) m -> NoDup (fst <$> dir_list dir prefix m).
Proof.
  intros Hm. unfold dir_list. rewrite (merge_sort_Permutation fst_le), Horder.
  assert (Forall (fun kv => e_FullPath (snd kv) = fst kv /\ abs_path (fst kv)) (map_to_list m)) as Hf
    by (apply Forall_forall; intros [p e] Hin%elem_of_map_to_list; by apply Hm).
  pose proof (NoDup_fst_map_to_list m) as Hnd. revert Hf Hnd. generalize (map_to_list m). intros l.
  induction l as [|[p e] l IH]; [constructor|]. intros [[Hp1 Hp2] Hl]%Forall_cons Hnd. cbn in Hnd, Hp1, Hp2.
  apply NoDup_cons in Hnd as [Hn Hnd]. cbn [omap list_omap snd]. specialize (IH Hl Hnd).
  destruct (in_dir dir prefix e) as [x|] eqn:E; [|done]. cbn. constructor; [|done].
  intros ([n e'] & Hx & ([p' e''] & Hin & Hd')%list_elem_of_omap)%list_elem_of_fmap. cbn in Hd', Hx.
  apply in_dir_Some in E as (Hd & _ & _), Hd' as (Hd' & _ & _). cbn in Hd'. rewrite <- Hx in Hd'.
  apply Hn, list_elem_of_fmap. exists (p', e''). split; [|done]. cbn.
  eapply Forall_forall in Hl as [Hl1 Hl2]; [|exact Hin]. cbn in Hl1, Hl2. subst p p'.
  apply DirAndName_inj; [done..|]. congruence.
Qed.

Lemma dir_list_listed dir start incl prefix m :
  map_Forall (fun p e => e_FullPath e = p /\ abs_path p) m ->
  listed m dir start incl prefix (filter (fun x => from_start start incl (fst x)) (dir_list dir prefix m)).
Proof.
  intros Hm. split.
  - apply sorted_filter, sorted_strict; [apply (StronglySorted_merge_sort fst_le)|by apply dir_list_NoDup].
  - intros name e. rewrite list_elem_of_filter, dir_list_elem by done. cbn [fst]. naive_solver.
Qed.

Lemma mem_listEntries_law s m T dir start incl limit prefix (fn : Entry -> T -> bool * T) acc :
  mem_rep s m -> abs_path dir -> 0 < limit ->
  let '(r, acc', s') := mem_listEntries order dir start incl limit prefix fn acc s in
  mem_rep s' m /\
  match r with
  | Ret last => exists l, listed m dir start incl prefix l /\ deliver (Z.to_nat limit) fn l acc "" = (last, acc')
  | Fail _ => True
  | Panic => False
  end.
Proof.
  intros [<- Hm] Hd Hl. unfold mem_listEntries.
  rewrite mem_loop_deliver by lia. replace (limit - 0) with limit by lia. destruct (deliver _ _ _ _ _) as [last acc'] eqn:E.
  split; [done|]. eexists. split; [by apply dir_list_listed|done].
Qed.

#[export] Instance mem_prefix_laws : @PrefixLaws MemStore (mem_store order) abs_path (fun _ => True) mem_rep.
Proof. split. intros s m T dir start incl limit prefix fn acc Hr Hd _. by apply mem_listEntries_law. Qed.

#[export] Instance mem_laws : @FilerLaws MemStore (mem_store order) abs_path (fun _ => True) mem_rep.
Proof.
  split; cbn.
  - done.
  - apply abs_path_dir.
  - intros s m p e [_ Hm] Hp. destruct (Hm _ _ Hp). done.
  - intros s m e [<- Hm] Hp _. unfold written. cbn. rewrite cloneEntry_id. split; [done|]. by apply map_Forall_insert_2.
  - intros s m e [<- Hm] Hp _. unfold written. cbn. rewrite cloneEntry_id. split; [done|]. by apply map_Forall_insert_2.
  - intros s m p [<- Hm] Hp. unfold mem_FindEntry. destruct (ms_entries s !! p) eqn:E; cbn; [|done]. by rewrite cloneEntry_id.
  - intros s m p [<- Hm] Hp. unfold written. cbn. split; [done|]. by apply map_Forall_delete.
  - done.
  - intros s m T dir start incl limit fn acc. apply mem_listEntries_law.
  - intros s m k [<- Hm]. unfold mem_KvGet. by destruct (ms_kv s !! k).
  - done.
  - done.
Qed.
End laws.

Definition mem_kv_rep (s : MemStore) (m : gmap string string) : Prop := ms_kv s = m.

#[export] Instance mem_kv_laws : KvLaws MemStore mem_kv_rep.
Proof.
  unfold mem_kv_rep. split.
  - intros s m k <-. cbn. unfold mem_KvGet. by destruct (ms_kv s !! k).
  - intros s m k v <-. done.
  - intros s m k <-. done.
Qed.
