(* ===== verification/LevelDbStore.v ===== *)
(** * LevelDbStore: the store on LevelDB

    Models [goblob/filer/leveldb2/leveldb2_store.go].  LevelDB itself and the JSON text of
    an entry are parameters: a class of operations on an ordered map of byte strings, whose
    laws are those LevelDB documents, and a codec. *)

From S2P Require Import Prelude GoStrings GoPath FilerStore StoreView.
From stdpp Require Import sorting.
From Stdlib Require Import Sorting.Sorted.

#[local] Open Scope Z_scope.
#[local] Open Scope string_scope.

(** ** LevelDB *)

Inductive ldb_err := LdbNotFound | LdbError (msg : string).

(** [db_scan prefix] is what an iterator over [util.BytesPrefix(prefix)] comes to, with the
    error that stopped it. *)
Class Leveldb (DB : Type) := {
  db_Get : string -> GoM DB ldb_err string;
  db_Put : string -> string -> GoM DB string unit;
  db_Delete : string -> GoM DB string unit;
  db_scan : string -> DB -> list (string * string) * option string * DB;
}.

(** The contents after a write: on an error it may or may not have happened. *)
Definition db_written {DB} (contents : DB -> gmap string string) (m m' : gmap string string)
    (r : outcome string unit * DB) : Prop :=
  match fst r with
  | Ret _ => contents (snd r) = m'
  | Fail _ => contents (snd r) = m \/ contents (snd r) = m'
  | Panic => False
  end.

Class LeveldbLaws (DB : Type) `{Leveldb DB} (contents : DB -> gmap string string) : Prop := {
  db_Get_law d k : contents (snd (db_Get k d)) = contents d /\
    match fst (db_Get k d) with
    | Ret v => contents d !! k = Some v
    | Fail LdbNotFound => contents d !! k = None
    | Fail (LdbError _) => True
    | Panic => False
    end;
  db_Put_law d k v : db_written contents (contents d) (<[k := v]> (contents d)) (db_Put k v d);
  db_Delete_law d k : db_written contents (contents d) (delete k (contents d)) (db_Delete k d);
  db_scan_law d prefix : let '(l, e, d') := db_scan prefix d in
    contents d' = contents d /\
    exists rest, StronglySorted fst_lt (l ++ rest)%list /\
      (forall k v, (k, v) ∈ (l ++ rest)%list <-> HasPrefix k prefix = true /\ contents d !! k = Some v) /\
      (e = None -> rest = []);
}.

(** ** The store *)

Definition NUL : string := String "000"%char "".

Definition pathKey (dir name : string) : string := dir +:+ NUL +:+ name.

Definition kvKey (key : string) : string := String "255"%char key.

Record LevelDB2Store (DB : Type) := mkLevelDB2Store { l_dir : string; l_db : DB }.
Arguments mkLevelDB2Store {DB}.
Arguments l_dir {DB}.
Arguments l_db {DB}.

Section store.
Context {DB : Type} `{Leveldb DB}.
Context (marshalEntry : Entry -> outcome string string) (unmarshalEntry : string -> outcome string Entry).

Definition on_db {A B} (d : DB) (s : LevelDB2Store DB) (r : outcome A B) : outcome A B * LevelDB2Store DB :=
  (r, mkLevelDB2Store (l_dir s) d).

(** [db_open] is [leveldb.OpenFile]; [filepath.Join] cleans the joined path. *)
Definition NewLevelDB2Store (db_open : string -> outcome string DB) (dir : string) : outcome string (LevelDB2Store DB) :=
  let dbPath := Clean (if decide (dir = "") then "filer" else dir +:+ "/filer") in
  match db_open dbPath with
  | Ret db => Ret (mkLevelDB2Store dir db)
  | Fail e => Fail ("leveldb2: open " +:+ dbPath +:+ ": " +:+ e)
  | Panic => Panic
  end.

(** The database that was open before is closed, which its state does not show. *)
Definition Initialize (db_open : string -> outcome string DB) (config : gmap string string) (prefix : string)
  : GoM (LevelDB2Store DB) string unit := fun s =>
  match config !! (prefix +:+ "dir") with
  | None | Some "" => (Fail ("leveldb2: config key " +:+ dquote +:+ prefix +:+ dquote +:+ "dir is required"), s)
  | Some dir =>
      match NewLevelDB2Store db_open dir with
      | Ret s' => (Ret tt, s')
      | Fail e => (Fail e, s)
      | Panic => (Panic, s)
      end
  end.

Definition put_entry (e : Entry) : GoM (LevelDB2Store DB) store_err unit := fun s =>
  let '(dir, name) := DirAndName (e_FullPath e) in
  match marshalEntry e with
  | Ret data =>
      match db_Put (pathKey dir name) data (l_db s) with
      | (Ret _, d) => on_db d s (Ret tt)
      | (Fail msg, d) => on_db d s (Fail (ErrOther msg))
      | (Panic, d) => on_db d s Panic
      end
  | Fail msg => (Fail (ErrOther ("leveldb2: marshal entry: " +:+ msg)), s)
  | Panic => (Panic, s)
  end.

Definition ldb_InsertEntry := put_entry.
Definition ldb_UpdateEntry := put_entry.

Definition ldb_FindEntry (fp : string) : GoM (LevelDB2Store DB) store_err Entry := fun s =>
  let '(dir, name) := DirAndName fp in
  match db_Get (pathKey dir name) (l_db s) with
  | (Ret data, d) =>
      on_db d s (match unmarshalEntry data with
                 | Ret e => Ret e
                 | Fail msg => Fail (ErrOther msg)
                 | Panic => Panic
                 end)
  | (Fail LdbNotFound, d) => on_db d s (Fail ErrNotFound)
  | (Fail (LdbError msg), d) => on_db d s (Fail (ErrOther ("leveldb2: get entry: " +:+ msg)))
  | (Panic, d) => on_db d s Panic
  end.

Definition ldb_DeleteEntry (fp : string) : GoM (LevelDB2Store DB) store_err unit := fun s =>
  let '(dir, name) := DirAndName fp in
  match db_Delete (pathKey dir name) (l_db s) with
  | (Ret _, d) => on_db d s (Ret tt)
  | (Fail msg, d) => on_db d s (Fail (ErrOther msg))
  | (Panic, d) => on_db d s Panic
  end.

Fixpoint delete_keys (keys : list string) : GoM DB store_err unit :=
  match keys with
  | [] => mret tt
  | k :: keys => fun d =>
      match db_Delete k d with
      | (Ret _, d) => delete_keys keys d
      | (Fail msg, d) => (Fail (ErrOther ("leveldb2: delete child key: " +:+ msg)), d)
      | (Panic, d) => (Panic, d)
      end
  end.

Definition ldb_DeleteFolderChildren (fp : string) : GoM (LevelDB2Store DB) store_err unit := fun s =>
  let '(l, e, d) := db_scan (fp +:+ NUL) (l_db s) in
  match e with
  | Some msg => on_db d s (Fail (ErrOther ("leveldb2: iterate folder children: " +:+ msg)))
  | None => let '(r, d) := delete_keys (fst <$> l) d in on_db d s r
  end.

(** ** Listings *)

Definition ldb_hasPrefix (s prefix : string) : bool :=
  if decide (String.length s < String.length prefix)%nat then false
  else bool_decide (take (String.length prefix) (chars s) = chars prefix).

(** [iter.Seek] *)
Fixpoint seek (key : string) (l : list (string * string)) : list (string * string) :=
  match l with
  | [] => []
  | (k, v) :: l' => if decide (str_lt k key) then seek key l' else l
  end.

(** Where the iterator stands when the loop starts. *)
Definition after_start (dir start : string) (incl : bool) (l : list (string * string)) : list (string * string) :=
  match seek (if decide (start = "") then dir +:+ NUL else pathKey dir start) l with
  | (k, v) :: l' =>
      if decide (start <> "" /\ incl = false /\ k = pathKey dir start) then l' else (k, v) :: l'
  | [] => []
  end.

(** The loop of a listing over the rest of the iterator. *)
Fixpoint ldb_loop {T} (dirPrefix : string) (limit : Z) (namePrefix : string) (fn : Entry -> T -> bool * T)
    (l : list (string * string)) (e : option string) (count : Z) (last : string) (acc : T) : outcome store_err string * T :=
  match l with
  | [] => (match e with Some msg => Fail (ErrOther ("leveldb2: iterate directory: " +:+ msg)) | None => Ret last end, acc)
  | (key, value) :: l =>
      if decide (~ count < limit) then (Ret last, acc) else
      if negb (HasPrefix key dirPrefix) then (Ret last, acc) else
      let name := str (drop (String.length dirPrefix) (chars key)) in
      if bool_decide (namePrefix <> "") && negb (ldb_hasPrefix name namePrefix)
      then ldb_loop dirPrefix limit namePrefix fn l e count last acc else
      match unmarshalEntry value with
      | Fail msg => (Fail (ErrOther ("leveldb2: unmarshal entry: " +:+ msg)), acc)
      | Panic => (Panic, acc)
      | Ret entry =>
          let '(more, acc) := fn entry acc in
          if more then ldb_loop dirPrefix limit namePrefix fn l e (count + 1) name acc else (Ret name, acc)
      end
  end.

Definition ldb_listEntries {T} (dirPath startFileName : string) (includeStart : bool) (limit : Z) (namePrefix : string)
    (fn : Entry -> T -> bool * T) (acc : T) (s : LevelDB2Store DB) : outcome store_err string * T * LevelDB2Store DB :=
  let dirPrefix := dirPath +:+ NUL in
  let '(l, e, d) := db_scan dirPrefix (l_db s) in
  let l := after_start dirPath startFileName includeStart l in
  let '(r, acc) := ldb_loop dirPrefix limit namePrefix fn l e 0 "" acc in
  (r, acc, mkLevelDB2Store (l_dir s) d).

(** ** The key-value part *)

Definition ldb_KvPut (key value : string) : GoM (LevelDB2Store DB) store_err unit := fun s =>
  match db_Put (kvKey key) value (l_db s) with
  | (Ret _, d) => on_db d s (Ret tt)
  | (Fail msg, d) => on_db d s (Fail (ErrOther msg))
  | (Panic, d) => on_db d s Panic
  end.

Definition ldb_KvGet (key : string) : GoM (LevelDB2Store DB) store_err string := fun s =>
  match db_Get (kvKey key) (l_db s) with
  | (Ret data, d) => on_db d s (Ret data)
  | (Fail LdbNotFound, d) => on_db d s (Fail ErrNotFound)
  | (Fail (LdbError msg), d) => on_db d s (Fail (ErrOther ("leveldb2: kv get: " +:+ msg)))
  | (Panic, d) => on_db d s Panic
  end.

Definition ldb_KvDelete (key : string) : GoM (LevelDB2Store DB) store_err unit := fun s =>
  match db_Delete (kvKey key) (l_db s) with
  | (Ret _, d) => on_db d s (Ret tt)
  | (Fail msg, d) => on_db d s (Fail (ErrOther msg))
  | (Panic, d) => on_db d s Panic
  end.

#[export] Instance ldb_kv : KvStore (LevelDB2Store DB) := {
  KvGet := ldb_KvGet;
  KvPut := ldb_KvPut;
  KvDelete := ldb_KvDelete;
}.

#[export] Instance ldb_store : FilerStore (LevelDB2Store DB) := {
  fs_kv := ldb_kv;
  InsertEntry := ldb_InsertEntry;
  UpdateEntry := ldb_UpdateEntry;
  FindEntry := ldb_FindEntry;
  DeleteEntry := ldb_DeleteEntry;
  DeleteFolderChildren := ldb_DeleteFolderChildren;
  ListDirectoryPrefixedEntries := @ldb_listEntries;
}.
End store.

(** ** Keys *)

Lemma chars_pathKey dir name : chars (pathKey dir name) = (chars dir ++ "000"%char :: chars name)%list.
Proof. unfold pathKey, NUL. by rewrite !chars_append. Qed.

Lemma pathKey_inj d1 n1 d2 n2 :
  "000"%char ∉ chars d1 -> "000"%char ∉ chars d2 -> pathKey d1 n1 = pathKey d2 n2 -> d1 = d2 /\ n1 = n2.
Proof.
  intros H1 H2 E. apply (f_equal chars) in E. rewrite !chars_pathKey in E.
  pose proof (f_equal (index_byte "000"%char) E) as Hi. rewrite !index_byte_app in Hi by done. injection Hi as Hi.
  apply app_inj_1 in E as [Ed [= En]]; [|done]. split; by apply chars_inj.
Qed.

Lemma pathKey_prefix dir k : HasPrefix k (dir +:+ NUL) = true <-> exists name, k = pathKey dir name.
Proof.
  split.
  - intros [s ->]%prefix_inv. exists s. unfold pathKey. by rewrite append_assoc.
  - intros [name ->]. unfold pathKey. rewrite append_assoc. apply prefix_append.
Qed.

Lemma pathKey_lt dir n1 n2 : str_lt (pathKey dir n1) (pathKey dir n2) <-> str_lt n1 n2.
Proof. unfold pathKey. rewrite !append_assoc. apply str_lt_append. Qed.

Lemma pathKey_name dir name : str (drop (String.length (dir +:+ NUL)) (chars (pathKey dir name))) = name.
Proof.
  rewrite chars_pathKey, <- length_chars, chars_append. cbn [NUL String.list_ascii_of_string].
  rewrite length_app. cbn [length]. rewrite drop_app_add'. 2: done. cbn. apply str_chars.
Qed.

Lemma ldb_hasPrefix_spec s p : ldb_hasPrefix s p = HasPrefix s p.
Proof.
  unfold ldb_hasPrefix, HasPrefix. revert s. induction p as [|c p IH]; intros [|d s]; cbn; try done.
  specialize (IH s). destruct (ascii_dec c d) as [->|Hcd].
  - rewrite <- IH. destruct (decide (String.length s < String.length p)%nat).
    + by rewrite decide_True by lia.
    + rewrite decide_False by lia. apply bool_decide_ext. split; [by intros [= ->]|by intros ->].
  - clear IH. destruct (decide _); [done|]. apply bool_decide_eq_false. by intros [= ->].
Qed.

Lemma kvKey_pathKey k dir name : abs_path dir -> kvKey k <> pathKey dir name.
Proof.
  intros (cs & _ & ->). unfold kvKey, pathKey. destruct cs as [|c cs]; [done|]. cbn [path_of segs].
  by rewrite !append_cons.
Qed.

(** ** The laws *)

(** A path that the keys can tell apart. *)
Definition nul_free (p : string) : Prop := abs_path p /\ "000"%char ∉ chars p.

Lemma nul_free_dir p : nul_free p -> nul_free (fst (DirAndName p)).
Proof.
  intros [Hp Hn]. split; [by apply abs_path_dir|]. revert Hn.
  destruct (abs_path_cases p Hp) as [->|(cs & c & Hcs & Hc & ->)]; [done|].
  rewrite DirAndName_snoc, path_of_snoc by done. cbn [fst]. rewrite !chars_append.
  destruct cs as [|d cs]; [set_solver|]. cbn [path_of]. set_solver.
Qed.

Section laws.
Context {DB : Type} `{Leveldb DB} (contents : DB -> gmap string string) (Hdb : LeveldbLaws DB contents).
Context (marshalEntry : Entry -> outcome string string) (unmarshalEntry : string -> outcome string Entry).
Context (good : Entry -> Prop).
Context (Hmarshal : forall e, marshalEntry e <> Panic).
Context (Hjson : forall e d, good e -> marshalEntry e = Ret d -> unmarshalEntry d = Ret e).

Definition db_holds (d : gmap string string) (m : gmap string Entry) : Prop :=
  view_holds unmarshalEntry nul_free good (fun dir name => d !! pathKey dir name) m.

Definition ldb_rep (s : LevelDB2Store DB) (m : gmap string Entry) : Prop := db_holds (contents (l_db s)) m.

Lemma pathKey_same dir name dir' name' :
  nul_free dir -> nul_free dir' -> pathKey dir name = pathKey dir' name' <-> (dir, name) = (dir', name').
Proof. intros [_ H1] [_ H2]. split; [by intros [-> ->]%pathKey_inj|by intros [= -> ->]]. Qed.

Lemma db_holds_put d m e data :
  db_holds d m -> nul_free (e_FullPath e) -> good e -> marshalEntry e = Ret data ->
  let '(dir, name) := DirAndName (e_FullPath e) in db_holds (<[pathKey dir name := data]> d) (<[e_FullPath e := e]> m).
Proof.
  intros Hh Hp Hg Hdata. pose proof (nul_free_dir _ Hp) as Hnd. destruct (DirAndName (e_FullPath e)) as [dir name] eqn:E.
  eapply view_put; [exact Hh|done..|by eapply Hjson|]. intros dir' name' Hd'. rewrite E, lookup_insert.
  by apply decide_ext, pathKey_same.
Qed.

Lemma db_holds_delete d m p :
  db_holds d m -> nul_free p ->
  let '(dir, name) := DirAndName p in db_holds (delete (pathKey dir name) d) (delete p m).
Proof.
  intros Hh Hp. pose proof (nul_free_dir _ Hp) as Hnd. destruct (DirAndName p) as [dir name] eqn:E.
  eapply view_delete; [by intros ? []|exact Hh|done|]. intros dir' name' Hd'. rewrite E, lookup_delete.
  by apply decide_ext, pathKey_same.
Qed.

(** Keys that are no path keys do not matter. *)
Lemma db_holds_other d d' m k :
  db_holds d m -> (forall k', k' <> kvKey k -> d' !! k' = d !! k') -> db_holds d' m.
Proof.
  intros Hh Hk. eapply view_same; [exact Hh|]. intros dir name Hdir. cbv beta. rewrite Hk; [done|].
  intros E. by eapply kvKey_pathKey; [apply Hdir|].
Qed.

(** A write of the database under a key that turns [m] into [m']. *)
Lemma put_written s m m' k v :
  db_holds (contents (l_db s)) m -> db_holds (<[k := v]> (contents (l_db s))) m' ->
  written ldb_rep m m'
    (match db_Put k v (l_db s) with
     | (Ret _, d) => on_db d s (Ret tt)
     | (Fail msg, d) => on_db d s (Fail (ErrOther msg))
     | (Panic, d) => on_db d s Panic
     end).
Proof.
  intros H1 H2. pose proof (db_Put_law (l_db s) k v) as Hl. unfold written, ldb_rep, db_written in *.
  destruct (db_Put k v (l_db s)) as [[u|msg|] d]; cbn in *; [by rewrite Hl| |done].
  destruct Hl as [->| ->]; auto.
Qed.

Lemma delete_written s m m' k :
  db_holds (contents (l_db s)) m -> db_holds (delete k (contents (l_db s))) m' ->
  written ldb_rep m m'
    (match db_Delete k (l_db s) with
     | (Ret _, d) => on_db d s (Ret tt)
     | (Fail msg, d) => on_db d s (Fail (ErrOther msg))
     | (Panic, d) => on_db d s Panic
     end).
Proof.
  intros H1 H2. pose proof (db_Delete_law (l_db s) k) as Hl. unfold written, ldb_rep, db_written in *.
  destruct (db_Delete k (l_db s)) as [[u|msg|] d]; cbn in *; [by rewrite Hl| |done].
  destruct Hl as [->| ->]; auto.
Qed.

Lemma put_entry_written s m e :
  ldb_rep s m -> nul_free (e_FullPath e) -> good e ->
  written ldb_rep m (<[e_FullPath e := e]> m) (put_entry marshalEntry e s).
Proof.
  intros Hr Hp Hg. unfold put_entry. pose proof (fun data => db_holds_put _ _ _ data Hr Hp Hg) as Hput.
  destruct (DirAndName (e_FullPath e)) as [dir name]. destruct (marshalEntry e) as [data|msg|] eqn:E.
  - apply put_written; [done|by apply Hput].
  - by left.
  - by apply Hmarshal in E.
Qed.

(** ** The law of listings *)

(** [x] is the entry that the pair [kv] of the database stores. *)
Definition decodes (dir : string) (kv : string * string) (x : string * Entry) : Prop :=
  fst kv = pathKey dir (fst x) /\ unmarshalEntry (snd kv) = Ret (snd x).

Lemma decode_all d m dir full :
  db_holds d m -> nul_free dir ->
  (forall k v, (k, v) ∈ full -> HasPrefix k (dir +:+ NUL) = true /\ d !! k = Some v) ->
  exists lx, Forall2 (decodes dir) full lx.
Proof.
  intros [_ Hd] Hdir Hf. induction full as [|[k v] full IH]; [by exists []|]. destruct IH as [lx Hlx]; [set_solver|].
  destruct (Hf k v) as [[name ->]%pathKey_prefix Hk]; [set_solver|]. specialize (Hd dir name Hdir). rewrite Hk in Hd.
  destruct Hd as (p & e & _ & _ & Hv). exists ((name, e) :: lx). by constructor.
Qed.

Lemma decodes_sorted dir l lx :
  Forall2 (decodes dir) l lx -> StronglySorted fst_lt l -> StronglySorted fst_lt lx.
Proof.
  induction 1 as [|kv x l lx [Hk Hv] Hl IH]; intros Hs; [constructor|]. apply StronglySorted_inv in Hs as [Hs Hx].
  constructor; [auto|]. apply Forall_forall. intros y Hy.
  destruct (Forall2_elem_of_r _ _ _ _ Hl Hy) as ([k' v'] & [Hk' _] & Hin). eapply Forall_forall in Hx; [|exact Hin].
  cbn in *. subst. unfold fst_lt in *. rewrite Hk in Hx. by apply pathKey_lt in Hx.
Qed.

Lemma decodes_elem d m dir l lx name e :
  db_holds d m -> nul_free dir -> Forall2 (decodes dir) l lx ->
  (forall k v, (k, v) ∈ l <-> HasPrefix k (dir +:+ NUL) = true /\ d !! k = Some v) ->
  (name, e) ∈ lx <-> exists p, m !! p = Some e /\ DirAndName p = (dir, name).
Proof.
  intros [Hm Hd] Hdir Hl Hel. specialize (Hd dir name Hdir). split.
  - intros Hin. destruct (Forall2_elem_of_r _ _ _ _ Hl Hin) as ([k v] & [Hk Hv] & Hkv). cbn in *. subst k.
    apply Hel in Hkv as [_ Hkv]. rewrite Hkv in Hd. destruct Hd as (p & e' & Hp & Hdn & Hv'). exists p.
    rewrite Hv in Hv'. by injection Hv' as ->.
  - intros (p & Hp & Hdn). destruct (d !! pathKey dir name) as [v|] eqn:E; [|by destruct (Hd p e)].
    destruct Hd as (q & e' & Hq & Hdq & Hv).
    assert (q = p) as ->.
    { destruct (Hm _ _ Hp) as (_ & [? _] & _), (Hm _ _ Hq) as (_ & [? _] & _). apply DirAndName_inj; [done..|]. congruence. }
    assert (e' = e) as -> by congruence.
    assert ((pathKey dir name, v) ∈ l) as Hin by (apply Hel; split; [apply pathKey_prefix; by eexists|done]).
    destruct (Forall2_elem_of_l _ _ _ _ Hl Hin) as ([n' x] & [Hk Hv'] & Hx). cbn in *.
    apply pathKey_inj in Hk as [_ <-]; [|apply Hdir..]. congruence.
Qed.

Lemma after_start_filter dir start incl l lx :
  nul_free dir -> Forall2 (decodes dir) l lx -> StronglySorted fst_lt lx ->
  Forall2 (decodes dir) (after_start dir start incl l) (filter (fun x => from_start start incl (fst x)) lx).
Proof.
  intros [_ Hdir] Hl Hs. unfold after_start. destruct (decide (start = "")) as [->|Hst].
  - assert (forall x, from_start "" incl x) as Hf by by left. rewrite filter_all by by apply Forall_true.
    assert (seek (dir +:+ NUL) l = l) as ->.
    { destruct Hl as [|[k v] x l lx [Hk _] _]; [done|]. cbn in *. rewrite decide_False; [done|]. subst k.
      change (dir +:+ NUL) with (pathKey dir ""). rewrite pathKey_lt. apply not_str_lt_empty. }
    destruct l as [|[k v] l]; [done|]. rewrite decide_False by naive_solver. done.
  - induction Hl as [|[k v] [name e] l lx [Hk Hv] Hl IH]; [done|]. cbn in Hk, Hv. subst k.
    apply StronglySorted_inv in Hs as [Hs Hx]. cbn [seek]. rewrite filter_cons. cbn [fst].
    assert (Forall (fun x => str_lt name (fst x)) lx) as Hgt by exact Hx.
    destruct (decide (str_lt (pathKey dir name) (pathKey dir start))) as [Hlt|Hge]; rewrite pathKey_lt in *.
    + rewrite decide_False; [by apply IH|]. intros [|H']; [done|]. destruct incl; [done|].
      by apply (str_lt_asym _ _ H').
    + destruct (decide (name = start)) as [->|Hne].
      * destruct incl; [rewrite decide_False by naive_solver|rewrite decide_True by done].
        -- rewrite decide_True by by right. constructor; [done|]. rewrite filter_all; [done|].
           eapply Forall_impl; [exact Hgt|]. intros x H'. right. by apply str_lt_asym.
        -- rewrite decide_False by (intros [|H']; [done|by apply str_lt_irrefl in H']). rewrite filter_all; [done|].
           eapply Forall_impl; [exact Hgt|]. intros x H'. by right.
      * assert (str_lt start name) as Hsn.
        { apply str_le_lt; [|done]. by apply dec_stable in Hge. }
        rewrite decide_False by (intros (_ & _ & [_ ?]%pathKey_inj); done).
        rewrite decide_True by (right; destruct incl; [|done]; done). constructor; [done|]. rewrite filter_all; [done|].
        eapply Forall_impl; [exact Hgt|]. intros x H'. right. cbn in H'. assert (str_lt start (fst x)) by by etrans.
        destruct incl; [by apply str_lt_asym|done].
Qed.

Lemma ldb_loop_deliver {T} dir limit prefix (fn : Entry -> T -> bool * T) l lx err rest count last acc :
  Forall2 (decodes dir) l lx -> (err = None -> rest = []) ->
  let '(r, acc') := ldb_loop unmarshalEntry (dir +:+ NUL) limit prefix fn l err count last acc in
  match r with
  | Ret last' =>
      deliver (Z.to_nat (limit - count)) fn (filter (fun x => HasPrefix (fst x) prefix = true) (lx ++ rest)%list) acc last
      = (last', acc')
  | Fail _ => True
  | Panic => False
  end.
Proof.
  intros Hl Hrest. revert count last acc. induction Hl as [|[k v] [name e] l lx [Hk Hv] Hl IH]; intros count last acc; cbn [ldb_loop].
  { destruct err; [done|]. rewrite Hrest by done. by destruct (Z.to_nat _). }
  destruct (decide (~ count < limit)) as [Hc|Hc].
  { replace (Z.to_nat (limit - count)) with O by lia. done. }
  cbn in Hk, Hv. subst k. rewrite (proj2 (pathKey_prefix dir _)) by by eexists. cbn [negb].
  rewrite pathKey_name, ldb_hasPrefix_spec, Hv. cbn [app]. rewrite filter_cons. cbn [fst].
  destruct (bool_decide (prefix <> "") && negb (HasPrefix name prefix)) eqn:E.
  - apply andb_true_iff in E as [_ E%negb_true_iff]. rewrite decide_False by congruence. apply IH.
  - assert (HasPrefix name prefix = true) as Hpre.
    { destruct (HasPrefix name prefix) eqn:Hp; [done|]. rewrite andb_true_r in E. apply bool_decide_eq_false, dec_stable in E.
      subst prefix. by destruct name. }
    rewrite decide_True by done. replace (Z.to_nat (limit - count)) with (S (Z.to_nat (limit - (count + 1)))) by lia.
    cbn [deliver]. destruct (fn e acc) as [[] acc1]; [apply IH|done].
Qed.

Lemma ldb_listEntries_law s m T dir start incl limit prefix (fn : Entry -> T -> bool * T) acc :
  ldb_rep s m -> nul_free dir -> 0 < limit ->
  let '(r, acc', s') := ldb_listEntries unmarshalEntry dir start incl limit prefix fn acc s in
  ldb_rep s' m /\
  match r with
  | Ret last => exists l, listed m dir start incl prefix l /\ deliver (Z.to_nat limit) fn l acc "" = (last, acc')
  | Fail _ => True
  | Panic => False
  end.
Proof.
  intros Hr Hdir Hlim. unfold ldb_listEntries. pose proof (db_scan_law (l_db s) (dir +:+ NUL)) as Hscan.
  destruct (db_scan (dir +:+ NUL) (l_db s)) as [[l err] d]. destruct Hscan as (Hd & rest & Hsort & Hel & Hnone).
  destruct (decode_all _ _ _ _ Hr Hdir (fun k v => proj1 (Hel k v))) as [full Hfull].
  pose proof (decodes_sorted _ _ _ Hfull Hsort) as Hsx. pose proof (fun name e => decodes_elem _ _ _ _ _ name e Hr Hdir Hfull Hel) as Hex.
  apply Forall2_app_inv_l in Hfull as (lx & restx & Hlx & Hrestx & ->).
  assert (StronglySorted fst_lt lx) as Hslx by by eapply StronglySorted_app_1_l.
  pose proof (after_start_filter dir start incl l lx Hdir Hlx Hslx) as Hst. set (l' := after_start dir start incl l) in Hst |- *.
  pose proof (ldb_loop_deliver dir limit prefix fn l' _ err (filter (fun x => from_start start incl (fst x)) restx) 0 "" acc Hst) as Hloop.
  destruct (ldb_loop _ _ _ _ _ l' _ _ _ _) as [r acc'].
  split; [unfold ldb_rep; cbn; by rewrite Hd|]. assert (err = None -> filter (fun x => from_start start incl (fst x)) restx = []) as Hn.
  { intros ->%Hnone. by apply Forall2_nil_inv_l in Hrestx as ->. }
  specialize (Hloop Hn). destruct r as [last| |]; [|done..]. rewrite Z.sub_0_r in Hloop. eexists. split; [|exact Hloop]. split.
  - rewrite <- filter_app. by apply sorted_filter, sorted_filter.
  - intros name e. rewrite <- filter_app, !list_elem_of_filter, Hex. cbn [fst]. naive_solver.
Qed.

Lemma ldb_prefix_laws :
  @PrefixLaws (LevelDB2Store DB) (ldb_store marshalEntry unmarshalEntry) nul_free (fun _ => True) ldb_rep.
Proof. split. intros s m T dir start incl limit prefix fn acc Hr Hd _. by apply ldb_listEntries_law. Qed.

Lemma ldb_filer_laws :
  @FilerLaws (LevelDB2Store DB) (ldb_store marshalEntry unmarshalEntry) nul_free good ldb_rep.
Proof.
  split.
  - by intros p [].
  - apply nul_free_dir.
  - intros s m p e [Hm _] Hp. by apply Hm in Hp.
  - intros s m e. apply put_entry_written.
  - intros s m e. apply put_entry_written.
  - intros s m p Hr Hp. cbn. unfold ldb_FindEntry. pose proof (nul_free_dir _ Hp) as Hnd.
    destruct (DirAndName p) as [dir name] eqn:E. cbn in Hnd. pose proof (db_Get_law (l_db s) (pathKey dir name)) as [Hg1 Hg2].
    pose proof (view_find _ _ _ (fun p H => proj1 H) nul_free_dir _ _ _ _ _ Hr Hp E) as Hf. unfold ldb_rep in *. cbn in Hf.
    destruct (db_Get (pathKey dir name) (l_db s)) as [[v|[|msg]|] d]; cbn in *; rewrite Hg1; (split; [done|]); try done;
      rewrite Hg2 in Hf; [|done]. by destruct Hf as (e & -> & ?).
  - intros s m p Hr Hp. cbn. unfold ldb_DeleteEntry. pose proof (db_holds_delete _ _ _ Hr Hp) as Hdel.
    destruct (DirAndName p) as [dir name]. by apply delete_written.
  - intros s m p Hr Hp. cbn. unfold ldb_DeleteEntry. destruct (DirAndName p) as [dir name].
    by destruct (db_Delete (pathKey dir name) (l_db s)) as [[] d].
  - intros s m T dir start incl limit fn acc. apply ldb_listEntries_law.
  - intros s m k Hr. cbn. unfold ldb_KvGet. pose proof (db_Get_law (l_db s) (kvKey k)) as [Hg1 _].
    destruct (db_Get (kvKey k) (l_db s)) as [[v|[|msg]|] d]; unfold ldb_rep in *; cbn in *; by rewrite Hg1.
  - intros s m k v Hr. assert (db_holds (<[kvKey k := v]> (contents (l_db s))) m) as H1.
    { apply (db_holds_other (contents (l_db s)) _ _ k); [done|]. intros k' Hk'. by rewrite lookup_insert_ne. }
    pose proof (put_written s m m (kvKey k) v Hr H1) as Hw. unfold written in Hw. cbn. unfold ldb_KvPut.
    destruct (db_Put (kvKey k) v (l_db s)) as [[u|msg|] d]; cbn in *; naive_solver.
  - intros s m k Hr. assert (db_holds (delete (kvKey k) (contents (l_db s))) m) as H1.
    { apply (db_holds_other (contents (l_db s)) _ _ k); [done|]. intros k' Hk'. by rewrite lookup_delete_ne. }
    pose proof (delete_written s m m (kvKey k) Hr H1) as Hw. unfold written in Hw. cbn. unfold ldb_KvDelete.
    destruct (db_Delete (kvKey k) (l_db s)) as [[u|msg|] d]; cbn in *; naive_solver.
Qed.
End laws.

(** ** The key-value part *)

Section kv_laws.
Context {DB : Type} `{Leveldb DB} (contents : DB -> gmap string string) (Hdb : LeveldbLaws DB contents).

Definition ldb_kv_rep (s : LevelDB2Store DB) (m : gmap string string) : Prop :=
  forall k, contents (l_db s) !! kvKey k = m !! k.

Lemma kvKey_insert (d m : gmap string string) k v :
  (forall k, d !! kvKey k = m !! k) -> forall k', <[kvKey k := v]> d !! kvKey k' = <[k := v]> m !! k'.
Proof.
  intros Hm k'. destruct (decide (k = k')) as [->|Hk]; [by rewrite !lookup_insert_eq|].
  rewrite !lookup_insert_ne by (done || by intros [= ?]). apply Hm.
Qed.

Lemma kvKey_delete (d m : gmap string string) k :
  (forall k, d !! kvKey k = m !! k) -> forall k', delete (kvKey k) d !! kvKey k' = delete k m !! k'.
Proof.
  intros Hm k'. destruct (decide (k = k')) as [->|Hk]; [by rewrite !lookup_delete_eq|].
  rewrite !lookup_delete_ne by (done || by intros [= ?]). apply Hm.
Qed.

Lemma ldb_kv_laws : KvLaws (LevelDB2Store DB) ldb_kv_rep.
Proof.
  unfold ldb_kv_rep. split.
  - intros s m k Hm. cbn. unfold ldb_KvGet. pose proof (db_Get_law (l_db s) (kvKey k)) as [Hg1 Hg2].
    destruct (db_Get (kvKey k) (l_db s)) as [[v|[|msg]|] d]; cbn in *; rewrite Hg1; rewrite <- ?Hm; done.
  - intros s m k v Hm. cbn. unfold ldb_KvPut, written. pose proof (db_Put_law (l_db s) (kvKey k) v) as Hl.
    unfold db_written in Hl. destruct (db_Put (kvKey k) v (l_db s)) as [[u|msg|] d]; cbn in *; [rewrite Hl| |done].
    + by apply kvKey_insert.
    + destruct Hl as [->| ->]; [by left|right; by apply kvKey_insert].
  - intros s m k Hm. cbn. unfold ldb_KvDelete, written. pose proof (db_Delete_law (l_db s) (kvKey k)) as Hl.
    unfold db_written in Hl. destruct (db_Delete (kvKey k) (l_db s)) as [[u|msg|] d]; cbn in *; [rewrite Hl| |done].
    + by apply kvKey_delete.
    + destruct Hl as [->| ->]; [by left|right; by apply kvKey_delete].
Qed.
End kv_laws.

(** ** A database that never fails *)

#[export] Instance map_db : Leveldb (gmap string string) := {
  db_Get k d := (match d !! k with Some v => Ret v | None => Fail LdbNotFound end, d);
  db_Put k v d := (Ret tt, <[k := v]> d);
  db_Delete k d := (Ret tt, delete k d);
  db_scan prefix d := (merge_sort fst_le (map_to_list (filter (fun kv => HasPrefix (fst kv) prefix = true) d)), None, d);
}.

Lemma map_db_laws : LeveldbLaws (gmap string string) id.
Proof.
  split; cbn.
  - intros d k. split; [done|]. by destruct (d !! k).
  - done.
  - done.
  - intros d prefix. split; [done|]. exists []. rewrite app_nil_r. split_and!; [| |done].
    + apply sorted_strict; [apply (StronglySorted_merge_sort fst_le)|].
      rewrite (merge_sort_Permutation fst_le). apply NoDup_fst_map_to_list.
    + intros k v. rewrite (merge_sort_Permutation fst_le), elem_of_map_to_list, map_lookup_filter_Some. cbn. tauto.
Qed.
