(* ===== verification/RedisStore.v ===== *)
(** * RedisStore: the store on Redis

    Models [goblob/filer/redis3/redis_store.go].  Redis and the JSON text of an entry are
    parameters.  A client sends a list of commands in one round trip; the laws say what
    each command does to the value of its key, that any command may answer an error and do
    nothing, and that a broken connection leaves a prefix of the commands done.  The
    commands of a pipeline are not a transaction. *)

From S2P Require Import Prelude GoStrings GoPath FilerStore GoText StoreView.
From stdpp Require Import sorting.
From Stdlib Require Import Sorting.Sorted.

#[local] Open Scope Z_scope.
#[local] Open Scope string_scope.

(** ** Redis *)

Inductive rcmd :=
| HSet (k f v : string)
| HGet (k f : string)
| HDel (k f : string)
| HLen (k : string)
| HGetAll (k : string)
| SAdd (k x : string)
| SRem (k x : string)
| SMembers (k : string)
| Set_ (k v : string)
| Get (k : string)
| Del (k : string).

Inductive rreply :=
| RErr (msg : string)
| RNil
| RInt (n : Z)
| RBulk (s : string)
| RPairs (l : list (string * string))
| RMembers (l : list string).

(** [Fail] is an error of the connection. *)
Class Redis (R : Type) := { redis_do : list rcmd -> GoM R string (list rreply) }.

Inductive rvalue :=
| VHash (h : gmap string string)
| VSet (x : gset string)
| VString (s : string).

Abbreviation rdata := (gmap string rvalue).

(** The value of a key as a hash or a set; [None] when it has another type. *)
Definition hash_at (c : rdata) (k : string) : option (gmap string string) :=
  match c !! k with None => Some ∅ | Some (VHash h) => Some h | Some _ => None end.

Definition set_at (c : rdata) (k : string) : option (gset string) :=
  match c !! k with None => Some ∅ | Some (VSet x) => Some x | Some _ => None end.

(** A key whose hash or set becomes empty is removed. *)
Definition put_hash (k : string) (h : gmap string string) (c : rdata) : rdata :=
  if decide (h = ∅) then delete k c else <[k := VHash h]> c.

Definition put_set (k : string) (x : gset string) (c : rdata) : rdata :=
  if decide (x = ∅) then delete k c else <[k := VSet x]> c.

Inductive redis_step (c : rdata) : rcmd -> rreply -> rdata -> Prop :=
| step_error cmd msg : redis_step c cmd (RErr msg) c
| step_HSet k f v h n : hash_at c k = Some h -> redis_step c (HSet k f v) (RInt n) (put_hash k (<[f := v]> h) c)
| step_HGet k f h : hash_at c k = Some h ->
    redis_step c (HGet k f) (match h !! f with Some v => RBulk v | None => RNil end) c
| step_HDel k f h n : hash_at c k = Some h -> redis_step c (HDel k f) (RInt n) (put_hash k (delete f h) c)
| step_HLen k h : hash_at c k = Some h -> redis_step c (HLen k) (RInt (Z.of_nat (size h))) c
| step_HGetAll k h l : hash_at c k = Some h -> l ≡ₚ map_to_list h -> redis_step c (HGetAll k) (RPairs l) c
| step_SAdd k x y n : set_at c k = Some y -> redis_step c (SAdd k x) (RInt n) (put_set k ({[x]} ∪ y) c)
| step_SRem k x y n : set_at c k = Some y -> redis_step c (SRem k x) (RInt n) (put_set k (y ∖ {[x]}) c)
| step_SMembers k y l : set_at c k = Some y -> l ≡ₚ elements y -> redis_step c (SMembers k) (RMembers l) c
| step_Set k v : redis_step c (Set_ k v) (RBulk "OK") (<[k := VString v]> c)
| step_Get_found k v : c !! k = Some (VString v) -> redis_step c (Get k) (RBulk v) c
| step_Get_missing k : c !! k = None -> redis_step c (Get k) RNil c
| step_Del k n : redis_step c (Del k) (RInt n) (delete k c).

Inductive redis_steps : rdata -> list rcmd -> list rreply -> rdata -> Prop :=
| steps_nil c : redis_steps c [] [] c
| steps_cons c cmd r c1 cmds rs c2 :
    redis_step c cmd r c1 -> redis_steps c1 cmds rs c2 -> redis_steps c (cmd :: cmds) (r :: rs) c2.

Class RedisLaws (R : Type) `{Redis R} (contents : R -> rdata) : Prop := {
  redis_do_law cmds r :
    match redis_do cmds r with
    | (Ret replies, r') => redis_steps (contents r) cmds replies (contents r')
    | (Fail _, r') => exists n replies, redis_steps (contents r) (take n cmds) replies (contents r')
    | (Panic, _) => False
    end;
}.

(** ** The store *)

Record Redis3Store (R : Type) := mkRedis3Store { r_client : option R; r_namespace : string; r_dirsKey : string }.
Arguments mkRedis3Store {R}.
Arguments r_client {R}.
Arguments r_namespace {R}.
Arguments r_dirsKey {R}.

Definition new_redis3 {R} : Redis3Store R := mkRedis3Store None "" "".

Section store.
Context {R : Type} `{Redis R}.
Context (marshalEntry : Entry -> outcome string string) (unmarshalEntry : string -> outcome string Entry).

Abbreviation redisM := (GoM (Redis3Store R) store_err).

(** [redis_open] is [redis.NewClient] with the ping that follows it. *)
Definition redis_Initialize (redis_open : string -> string -> Z -> outcome string R) (config : gmap string string) (prefix : string)
  : GoM (Redis3Store R) string unit := fun s =>
  let addr := trimmed_or "127.0.0.1:6379" (config_get config (prefix +:+ "address")) in
  let password := config_get config (prefix +:+ "password") in
  let db := parseIntOrDefault (config_get config (prefix +:+ "database")) 0 in
  let namespace := trimmed_or "goblob:filer" (config_get config (prefix +:+ "key_prefix")) in
  match redis_open addr password db with
  | Ret client => (Ret tt, mkRedis3Store (Some client) namespace (namespace +:+ ":dirs"))
  | Fail e => (Fail ("redis3: ping: " +:+ e), s)
  | Panic => (Panic, s)
  end.

Definition NewRedis3Store (redis_open : string -> string -> Z -> outcome string R) (config : gmap string string)
  : outcome string unit * Redis3Store R :=
  redis_Initialize redis_open config "redis3." new_redis3.

Definition metaKey (s : Redis3Store R) (dir : string) : string := r_namespace s +:+ ":meta:" +:+ dir.

Definition redis_kvKey (s : Redis3Store R) (key : string) : string := r_namespace s +:+ ":kv:" +:+ hex_key key.

Definition redis_ensureReady : redisM unit := fun s =>
  match r_client s with
  | None => (Fail (ErrOther "redis3: store not initialized"), s)
  | Some _ => (Ret tt, s)
  end.

(** The first error of the replies, which is what [pipe.Exec] returns. *)
Definition first_error (replies : list rreply) : option string :=
  head (omap (fun r => match r with RErr msg => Some msg | _ => None end) replies).

(** A pipeline, with the text in front of its errors. *)
Definition exec (what : string) (cmds : list rcmd) : redisM (list rreply) := fun s =>
  match r_client s with
  | None => (Panic, s)
  | Some c =>
      let '(r, c) := redis_do cmds c in
      (match r with
       | Ret replies => match first_error replies with
                        | Some msg => Fail (ErrOther ("redis3: " +:+ what +:+ ": " +:+ msg))
                        | None => Ret replies
                        end
       | Fail msg => Fail (ErrOther ("redis3: " +:+ what +:+ ": " +:+ msg))
       | Panic => Panic
       end, mkRedis3Store (Some c) (r_namespace s) (r_dirsKey s))
  end.

(** [_, _ = call] *)
Definition ignored {A} (m : redisM A) : redisM unit := fun s =>
  let '(r, s) := m s in (match r with Panic => Panic | _ => Ret tt end, s).

Definition redis_upsert (e : Entry) : redisM unit :=
  redis_ensureReady;;
  let '(dir, name) := DirAndName (e_FullPath e) in
  match marshalEntry e with
  | Fail msg => fail (ErrOther ("redis3: marshal entry: " +:+ msg))
  | Panic => panic
  | Ret data => s ← get; exec "upsert entry" [HSet (metaKey s dir) name data; SAdd (r_dirsKey s) dir];; mret tt
  end.

Definition redis_unmarshal (what data : string) : redisM Entry :=
  match unmarshalEntry data with
  | Ret e => mret e
  | Fail msg => fail (ErrOther ("redis3: " +:+ what +:+ ": " +:+ msg))
  | Panic => panic
  end.

Definition redis_FindEntry (fp : string) : redisM Entry :=
  redis_ensureReady;;
  let '(dir, name) := DirAndName fp in
  s ← get;
  replies ← exec "find entry" [HGet (metaKey s dir) name];
  match replies with
  | [RBulk data] => redis_unmarshal "unmarshal entry" data
  | _ => fail ErrNotFound
  end.

Definition redis_DeleteEntry (fp : string) : redisM unit :=
  redis_ensureReady;;
  let '(dir, name) := DirAndName fp in
  s ← get;
  replies ← exec "delete entry" [HDel (metaKey s dir) name; HLen (metaKey s dir)];
  match replies with
  | [_; RInt 0] => ignored (exec "" [SRem (r_dirsKey s) dir])
  | _ => mret tt
  end.

Definition redis_DeleteFolderChildren (fp : string) : redisM unit :=
  redis_ensureReady;;
  s ← get;
  replies ← exec "list dirs" [SMembers (r_dirsKey s)];
  let dirs := match replies with [RMembers l] => l | _ => [] end in
  exec "delete folder children" (filter (fun d => under fp d = true) dirs ≫= fun d => [Del (metaKey s d); SRem (r_dirsKey s) d]);;
  mret tt.

(** ** Listings *)

Fixpoint redis_loop {T} (startFileName : string) (includeStart : bool) (limit : Z) (fn : Entry -> T -> bool * T)
    (items : gmap string string) (names : list string) (count : Z) (last : string) (acc : T) : outcome store_err string * T :=
  match names with
  | [] => (Ret last, acc)
  | name :: names =>
      if skipped startFileName includeStart name
      then redis_loop startFileName includeStart limit fn items names count last acc else
      match unmarshalEntry (default "" (items !! name)) with
      | Fail msg => (Fail (ErrOther ("redis3: unmarshal list entry: " +:+ msg)), acc)
      | Panic => (Panic, acc)
      | Ret entry =>
          let count := count + 1 in
          let '(more, acc) := fn entry acc in
          if negb more then (Ret name, acc) else
          if decide (limit > 0 /\ count >= limit) then (Ret name, acc) else
          redis_loop startFileName includeStart limit fn items names count name acc
      end
  end.

Definition redis_listEntries {T} (dirPath startFileName : string) (includeStart : bool) (limit : Z) (prefix : string)
    (fn : Entry -> T -> bool * T) (acc : T) (s : Redis3Store R) : outcome store_err string * T * Redis3Store R :=
  match (redis_ensureReady;; exec "list entries" [HGetAll (metaKey s dirPath)]) s with
  | (Ret replies, s) =>
      let items : gmap string string := list_to_map (match replies with [RPairs l] => l | _ => [] end) in
      let names := merge_sort String.le
                     (filter (fun n => ~ (prefix <> "" /\ HasPrefix n prefix = false)) (fst <$> map_to_list items)) in
      let '(r, acc) := redis_loop startFileName includeStart limit fn items names 0 "" acc in (r, acc, s)
  | (Fail e, s) => (Fail e, acc, s)
  | (Panic, s) => (Panic, acc, s)
  end.

(** ** The key-value part *)

Definition redis_KvPut (key value : string) : redisM unit :=
  redis_ensureReady;; s ← get; exec "kv put" [Set_ (redis_kvKey s key) value];; mret tt.

Definition redis_KvGet (key : string) : redisM string :=
  redis_ensureReady;;
  s ← get;
  replies ← exec "kv get" [Get (redis_kvKey s key)];
  match replies with [RBulk v] => mret v | _ => fail ErrNotFound end.

Definition redis_KvDelete (key : string) : redisM unit :=
  redis_ensureReady;; s ← get; exec "kv delete" [Del (redis_kvKey s key)];; mret tt.

#[export] Instance redis_kv : KvStore (Redis3Store R) := {
  KvGet := redis_KvGet;
  KvPut := redis_KvPut;
  KvDelete := redis_KvDelete;
}.

#[export] Instance redis_store : FilerStore (Redis3Store R) := {
  fs_kv := redis_kv;
  InsertEntry := redis_upsert;
  UpdateEntry := redis_upsert;
  FindEntry := redis_FindEntry;
  DeleteEntry := redis_DeleteEntry;
  DeleteFolderChildren := redis_DeleteFolderChildren;
  ListDirectoryPrefixedEntries := @redis_listEntries;
}.
End store.

(** ** Keys and steps *)

Lemma append_inj p s t : p +:+ s = p +:+ t -> s = t.
Proof. intros E. apply (f_equal chars) in E. rewrite !chars_append in E. by apply app_inv_head, chars_inj in E. Qed.

Definition cmd_key (cmd : rcmd) : string :=
  match cmd with
  | HSet k _ _ | HGet k _ | HDel k _ | HLen k | HGetAll k | SAdd k _ | SRem k _ | SMembers k | Set_ k _ | Get k | Del k => k
  end.

(** A command leaves the other keys alone. *)
Lemma step_frame c cmd r c' k : redis_step c cmd r c' -> k <> cmd_key cmd -> c' !! k = c !! k.
Proof.
  intros Hs Hk. destruct Hs; cbn in Hk; unfold put_hash, put_set; repeat case_decide; simplify_map_eq; done.
Qed.

Lemma steps_frame c cmds rs c' k :
  redis_steps c cmds rs c' -> Forall (fun cmd => k <> cmd_key cmd) cmds -> c' !! k = c !! k.
Proof.
  induction 1 as [|c cmd r c1 cmds rs c2 H1 H2 IH]; intros Hk; [done|]. apply Forall_cons in Hk as [Hk Hks].
  rewrite IH by done. by eapply step_frame.
Qed.

Lemma steps_single c cmd rs c' : redis_steps c [cmd] rs c' -> exists r, rs = [r] /\ redis_step c cmd r c'.
Proof. intros Hs. inversion Hs as [|? ? r c1 ? rs' ? H1 H2]; subst. inversion H2; subst. by exists r. Qed.

Lemma steps_prefix c cmd n rs c' :
  redis_steps c (take n [cmd]) rs c' -> c' = c \/ exists r, rs = [r] /\ redis_step c cmd r c'.
Proof.
  intros Hs. destruct n as [|n]; [inversion Hs; by left|]. right. cbn in Hs. rewrite take_nil in Hs. by apply steps_single.
Qed.

Lemma put_hash_at k h c : hash_at (put_hash k h c) k = Some h.
Proof.
  unfold put_hash, hash_at. case_decide as E; [by rewrite lookup_delete_eq, E|by rewrite lookup_insert_eq].
Qed.

(** What the store keeps under a name in a directory. *)
Definition hash_view (ns : string) (c : rdata) (dir name : string) : option string :=
  h ← hash_at c (ns +:+ ":meta:" +:+ dir); h !! name.

Lemma hash_view_frame ns c c' : (forall dir, c' !! (ns +:+ ":meta:" +:+ dir) = c !! (ns +:+ ":meta:" +:+ dir)) ->
  forall dir name, hash_view ns c' dir name = hash_view ns c dir name.
Proof. intros E dir name. unfold hash_view, hash_at. by rewrite E. Qed.

Lemma hash_view_step ns c cmd r c' :
  redis_step c cmd r c' -> (forall dir, ns +:+ ":meta:" +:+ dir <> cmd_key cmd) ->
  forall dir name, hash_view ns c' dir name = hash_view ns c dir name.
Proof. intros Hs Hk. apply hash_view_frame. intros dir. by eapply step_frame. Qed.

(** The key of a directory with a new hash. *)
Lemma hash_view_put ns c dir h0 h dir' name' :
  hash_at c (ns +:+ ":meta:" +:+ dir) = Some h0 ->
  hash_view ns (put_hash (ns +:+ ":meta:" +:+ dir) h c) dir' name' =
    if decide (dir = dir') then h !! name' else hash_view ns c dir' name'.
Proof.
  intros Hh. unfold hash_view. case_decide as E; [subst dir'; by rewrite put_hash_at|].
  assert (ns +:+ ":meta:" +:+ dir <> ns +:+ ":meta:" +:+ dir') as Hne by by intros ?%append_inj%append_inj.
  unfold hash_at, put_hash. case_decide; [by rewrite lookup_delete_ne|by rewrite lookup_insert_ne].
Qed.

Lemma meta_dirs ns dir : ns +:+ ":meta:" +:+ dir <> ns +:+ ":dirs".
Proof. by intros ?%append_inj. Qed.

Lemma meta_kv ns dir k : ns +:+ ":meta:" +:+ dir <> ns +:+ ":kv:" +:+ hex_key k.
Proof. by intros ?%append_inj. Qed.

(** The view after a run of commands, against the one before. *)
Definition same_view (ns : string) (c c' : rdata) : Prop := forall dir name, hash_view ns c' dir name = hash_view ns c dir name.

Definition set_view (ns dir name : string) (v : option string) (c c' : rdata) : Prop :=
  forall d n, hash_view ns c' d n = if decide ((dir, name) = (d, n)) then v else hash_view ns c d n.

Lemma same_set_view ns dir name v c c1 c' : same_view ns c c1 -> set_view ns dir name v c1 c' -> set_view ns dir name v c c'.
Proof. intros H1 H2 d n. rewrite H2, H1. done. Qed.

Lemma set_same_view ns dir name v c c1 c' : set_view ns dir name v c c1 -> same_view ns c1 c' -> set_view ns dir name v c c'.
Proof. intros H1 H2 d n. by rewrite H2, H1. Qed.

Lemma step_HSet_view ns c dir name v r c' :
  redis_step c (HSet (ns +:+ ":meta:" +:+ dir) name v) r c' ->
  (exists msg, r = RErr msg) /\ same_view ns c c' \/ set_view ns dir name (Some v) c c'.
Proof.
  intros Hs. inversion Hs as [|? ? ? h ? Hh| | | | | | | | | | |]; subst; [by left; split; [eexists|]|right].
  intros d n'. rewrite (hash_view_put ns c dir h) by done. destruct (decide (dir = d)) as [<-|Hd].
  - rewrite lookup_insert. unfold hash_view. rewrite Hh. cbn. apply decide_ext. split; [by intros ->|by intros [= ->]].
  - rewrite decide_False by congruence. done.
Qed.

Lemma step_HDel_view ns c dir name r c' :
  redis_step c (HDel (ns +:+ ":meta:" +:+ dir) name) r c' ->
  (exists msg, r = RErr msg) /\ same_view ns c c' \/ set_view ns dir name None c c'.
Proof.
  intros Hs. inversion Hs as [| | |? ? h ? Hh| | | | | | | | |]; subst; [by left; split; [eexists|]|right].
  intros d n'. rewrite (hash_view_put ns c dir h) by done. destruct (decide (dir = d)) as [<-|Hd].
  - rewrite lookup_delete. unfold hash_view. rewrite Hh. cbn. apply decide_ext. split; [by intros ->|by intros [= ->]].
  - rewrite decide_False by congruence. done.
Qed.

Lemma first_error_cons r rs : first_error (r :: rs) = None -> (forall msg, r <> RErr msg) /\ first_error rs = None.
Proof. unfold first_error. destruct r; cbn; [done|by split..]. Qed.

(** A pipeline that begins with one write of the view, followed by commands on other keys. *)
Lemma pipeline_view ns c n w ws rs c' dir name v :
  (forall r c1, redis_step c w r c1 -> (exists msg, r = RErr msg) /\ same_view ns c c1 \/ set_view ns dir name v c c1) ->
  Forall (fun cmd => forall c r c', redis_step c cmd r c' -> same_view ns c c') ws ->
  redis_steps c (take n (w :: ws)) rs c' ->
  (same_view ns c c' \/ set_view ns dir name v c c') /\ ((n <> 0)%nat -> first_error rs = None -> set_view ns dir name v c c').
Proof.
  intros Hw Hws Hs. destruct n as [|n]; [inversion Hs; subst; split; [by left|done]|]. cbn [take] in Hs.
  inversion Hs as [|? ? r c1 ? rs' ? H1 H2]; subst.
  assert (same_view ns c1 c') as Hrest.
  { clear Hs Hw H1. revert ws Hws c1 rs' H2. induction n as [|n IH]; intros [|x ws] Hws c1 rs' H2; inversion H2; subst; try done.
    apply Forall_cons in Hws as [Hx Hws]. intros d m. erewrite IH by done. by eapply Hx. }
  destruct (Hw _ _ H1) as [[[msg ->] Hsame]|Hset].
  - split; [|intros _ [Hn _]%first_error_cons; by destruct (Hn msg)]. left. intros d m. by rewrite Hrest, Hsame.
  - pose proof (set_same_view _ _ _ _ _ _ _ Hset Hrest). split; [by right|done].
Qed.

Section laws.
Context {R : Type} `{Redis R} (contents : R -> rdata) (Hredis : RedisLaws R contents).
Context (marshalEntry : Entry -> outcome string string) (unmarshalEntry : string -> outcome string Entry).
Context (good : Entry -> Prop).
Context (Hmarshal : forall e, marshalEntry e <> Panic).
Context (Hjson : forall e d, good e -> marshalEntry e = Ret d -> unmarshalEntry d = Ret e).

Definition redis_rep (s : Redis3Store R) (m : gmap string Entry) : Prop :=
  r_dirsKey s = r_namespace s +:+ ":dirs" /\
  exists c, r_client s = Some c /\ view_holds unmarshalEntry abs_path good (hash_view (r_namespace s) (contents c)) m.

Lemma exec_law what cmds s c :
  r_client s = Some c ->
  exists r c', exec what cmds s = (r, mkRedis3Store (Some c') (r_namespace s) (r_dirsKey s)) /\
    match r with
    | Ret rs => first_error rs = None /\ redis_steps (contents c) cmds rs (contents c')
    | Fail e => e <> ErrNotFound /\ exists n rs, redis_steps (contents c) (take n cmds) rs (contents c')
    | Panic => False
    end.
Proof.
  intros Hc. unfold exec. rewrite Hc. pose proof (redis_do_law cmds c) as Hl.
  destruct (redis_do cmds c) as [[rs|msg|] c']; [|by eexists _, c'|done].
  eexists _, c'. split; [done|]. destruct (first_error rs) eqn:E; [|done]. split; [done|].
  exists (length cmds), rs. by rewrite take_ge by lia.
Qed.

(** The state of the store after a pipeline. *)
Definition with_client (s : Redis3Store R) (c : R) : Redis3Store R := mkRedis3Store (Some c) (r_namespace s) (r_dirsKey s).

Lemma ready_bind {A} (k : unit -> GoM (Redis3Store R) store_err A) s c :
  r_client s = Some c -> (redis_ensureReady ≫= k) s = k tt s.
Proof. intros Hc. unfold mbind, GoM_bind, redis_ensureReady. by rewrite Hc. Qed.

Lemma rep_same s m c c' :
  r_dirsKey s = r_namespace s +:+ ":dirs" -> view_holds unmarshalEntry abs_path good (hash_view (r_namespace s) (contents c)) m ->
  same_view (r_namespace s) (contents c) (contents c') -> redis_rep (with_client s c') m.
Proof. intros Hd Hv Hs. split; [done|]. exists c'. split; [done|]. eapply view_same; [exact Hv|]. intros. apply Hs. Qed.

Lemma rep_set s m e data c c' dir name :
  r_dirsKey s = r_namespace s +:+ ":dirs" -> view_holds unmarshalEntry abs_path good (hash_view (r_namespace s) (contents c)) m ->
  abs_path (e_FullPath e) -> good e -> unmarshalEntry data = Ret e -> DirAndName (e_FullPath e) = (dir, name) ->
  set_view (r_namespace s) dir name (Some data) (contents c) (contents c') -> redis_rep (with_client s c') (<[e_FullPath e := e]> m).
Proof.
  intros Hd Hv Hp Hg Hu E Hs. split; [done|]. exists c'. split; [done|]. eapply view_put; [exact Hv|done..|].
  intros d n _. cbn. by rewrite Hs, E.
Qed.

Lemma rep_delete s m p c c' dir name :
  r_dirsKey s = r_namespace s +:+ ":dirs" -> view_holds unmarshalEntry abs_path good (hash_view (r_namespace s) (contents c)) m ->
  abs_path p -> DirAndName p = (dir, name) ->
  set_view (r_namespace s) dir name None (contents c) (contents c') -> redis_rep (with_client s c') (delete p m).
Proof.
  intros Hd Hv Hp E Hs. split; [done|]. exists c'. split; [done|]. eapply view_delete; [done|exact Hv|done|].
  intros d n _. cbn. by rewrite Hs, E.
Qed.

Lemma other_key_view ns cmd :
  (forall dir, ns +:+ ":meta:" +:+ dir <> cmd_key cmd) -> forall c r c', redis_step c cmd r c' -> same_view ns c c'.
Proof. intros Hk c r c' Hs dir name. by eapply hash_view_step. Qed.

Lemma upsert_written s m e :
  redis_rep s m -> abs_path (e_FullPath e) -> good e -> written redis_rep m (<[e_FullPath e := e]> m) (redis_upsert marshalEntry e s).
Proof.
  intros (Hd & c & Hc & Hv) Hp Hg. unfold redis_upsert. rewrite (ready_bind _ s c) by done.
  destruct (DirAndName (e_FullPath e)) as [dir name] eqn:E.
  destruct (marshalEntry e) as [data|msg|] eqn:Em; [|by left; split; [|exists c]|by apply Hmarshal in Em].
  rewrite bind_get. set (cmds := [HSet _ _ _; SAdd _ _]).
  destruct (exec_law "upsert entry" cmds s c Hc) as (r & c' & He & Hr). unfold mbind, GoM_bind. rewrite He.
  assert (forall n rs, redis_steps (contents c) (take n cmds) rs (contents c') ->
    (same_view (r_namespace s) (contents c) (contents c') \/ set_view (r_namespace s) dir name (Some data) (contents c) (contents c')) /\
    ((n <> 0)%nat -> first_error rs = None -> set_view (r_namespace s) dir name (Some data) (contents c) (contents c'))) as Hpipe.
  { intros n rs. apply pipeline_view; [intros r1 c1; apply step_HSet_view|]. constructor; [|constructor].
    apply other_key_view. intros d. cbn. rewrite Hd. apply meta_dirs. }
  destruct r as [rs|err|]; [| |done].
  - destruct Hr as [Hf Hs]. unfold written. cbn. eapply rep_set; try done; [by eapply Hjson|].
    eapply (Hpipe 2%nat rs); [done..|]. done.
  - destruct Hr as (_ & n & rs & Hs). unfold written. cbn.
    destruct (proj1 (Hpipe n rs Hs)) as [Hsame|Hset]; [left; by eapply rep_same|right; eapply rep_set; try done; by eapply Hjson].
Qed.

Lemma single_steps ns cmd c n rs c' :
  (forall c r c', redis_step c cmd r c' -> same_view ns c c') -> redis_steps c (take n [cmd]) rs c' -> same_view ns c c'.
Proof. intros Hsame [->|(r & -> & Hs)]%steps_prefix; [done|by eapply Hsame]. Qed.

(** A single read. *)
Lemma read_bind {A} what cmd s c (k : list rreply -> GoM (Redis3Store R) store_err A) (Q : outcome store_err A * Redis3Store R -> Prop) :
  r_client s = Some c ->
  (forall e c', e <> ErrNotFound -> same_view (r_namespace s) (contents c) (contents c') -> Q (Fail e, with_client s c')) ->
  (forall r c', (forall msg, r <> RErr msg) -> redis_step (contents c) cmd r (contents c') -> Q (k [r] (with_client s c'))) ->
  (forall c r c', redis_step c cmd r c' -> same_view (r_namespace s) c c') ->
  Q ((exec what [cmd] ≫= k) s).
Proof.
  intros Hc HF HR Hsame. destruct (exec_law what [cmd] s c Hc) as (r & c' & He & Hr). unfold mbind, GoM_bind. rewrite He.
  destruct r as [rs|e|]; [| |done].
  - destruct Hr as [Hf (r & -> & Hs)%steps_single]. apply first_error_cons in Hf as [Hf _]. by apply HR.
  - destruct Hr as (Hne & n & rs & Hs). apply HF; [done|]. by eapply single_steps.
Qed.

Lemma read_only ns cmd : match cmd with HGet _ _ | HLen _ | HGetAll _ | SMembers _ | Get _ => True | _ => False end ->
  forall c r c', redis_step c cmd r c' -> same_view ns c c'.
Proof. intros Hc c r c' Hs. by destruct Hs. Qed.

Lemma FindEntry_spec s m p :
  redis_rep s m -> abs_path p ->
  redis_rep (snd (redis_FindEntry unmarshalEntry p s)) m /\
  match fst (redis_FindEntry unmarshalEntry p s) with
  | Ret e => m !! p = Some e
  | Fail ErrNotFound => m !! p = None
  | Fail (ErrOther _) => True
  | Panic => False
  end.
Proof.
  intros (Hd & c & Hc & Hv) Hp. unfold redis_FindEntry. rewrite (ready_bind _ s c) by done.
  destruct (DirAndName p) as [dir name] eqn:E. rewrite bind_get.
  pose proof (view_find _ _ _ (fun _ H => H) abs_path_dir _ _ _ _ _ Hv Hp E) as Hf.
  apply (read_bind _ _ s c); [done| | |by apply read_only].
  - intros e c' Hne Hs. split; [by eapply rep_same|]. by destruct e.
  - intros r c' Hne Hs. inversion Hs as [| |? ? h Hh| | | | | | | | | |]; subst; [by edestruct Hne|].
    assert (redis_rep (with_client s c') m) as Hr' by (eapply rep_same; [done..|]; by eapply read_only; [|exact Hs]).
    unfold hash_view in Hf. unfold metaKey in Hh. rewrite Hh in Hf. cbn in Hf. destruct (h !! name) as [v|]; cbn; [|done].
    unfold redis_unmarshal. destruct Hf as (e & -> & Hm). done.
Qed.

(** Taking a directory off the set of directories. *)
Lemma forget_dir s m dir :
  redis_rep s m ->
  redis_rep (snd (ignored (exec "" [SRem (r_dirsKey s) dir]) s)) m /\ fst (ignored (exec "" [SRem (r_dirsKey s) dir]) s) = Ret tt.
Proof.
  intros (Hd & c & Hc & Hv). unfold ignored. destruct (exec_law "" [SRem (r_dirsKey s) dir] s c Hc) as (r & c' & -> & Hr).
  assert (exists n rs, redis_steps (contents c) (take n [SRem (r_dirsKey s) dir]) rs (contents c')) as (n & rs & Hs).
  { destruct r as [rs|e|]; [exists 1%nat, rs; apply Hr|apply Hr|done]. }
  assert (redis_rep (with_client s c') m) as Hr'.
  { eapply rep_same; [done|exact Hv|]. eapply single_steps; [|exact Hs]. apply other_key_view.
    intros d. cbn. rewrite Hd. apply meta_dirs. }
  by destruct r.
Qed.

Lemma DeleteEntry_spec s m p :
  redis_rep s m -> abs_path p ->
  written redis_rep m (delete p m) (redis_DeleteEntry p s) /\ fst (redis_DeleteEntry p s) <> Fail ErrNotFound.
Proof.
  intros (Hd & c & Hc & Hv) Hp. unfold redis_DeleteEntry. rewrite (ready_bind _ s c) by done.
  destruct (DirAndName p) as [dir name] eqn:E. rewrite bind_get. set (cmds := [HDel _ _; HLen _]).
  destruct (exec_law "delete entry" cmds s c Hc) as (r & c' & He & Hr). unfold mbind, GoM_bind. rewrite He.
  assert (forall n rs, redis_steps (contents c) (take n cmds) rs (contents c') ->
    (same_view (r_namespace s) (contents c) (contents c') \/ set_view (r_namespace s) dir name None (contents c) (contents c')) /\
    ((n <> 0)%nat -> first_error rs = None -> set_view (r_namespace s) dir name None (contents c) (contents c'))) as Hpipe.
  { intros n rs. apply pipeline_view; [intros r1 c1; apply step_HDel_view|]. constructor; [by apply read_only|constructor]. }
  destruct r as [rs|err|]; [| |done].
  - destruct Hr as [Hf Hs]. assert (redis_rep (with_client s c') (delete p m)) as Hr'.
    { eapply rep_delete; try done. by apply (Hpipe 2%nat rs). }
    destruct (forget_dir _ _ dir Hr') as [Hrem Hret]. cbn [r_dirsKey with_client] in Hrem, Hret. unfold written.
    destruct rs as [|r1 [|[| |[]| | |] [|]]]; cbn; try done. unfold with_client in *. by rewrite Hret.
  - destruct Hr as (Hne & n & rs & Hs). split; [|intros [= ->]; done]. unfold written. cbn.
    destruct (proj1 (Hpipe n rs Hs)) as [Hsame|Hset]; [left; by eapply rep_same|right; by eapply rep_delete].
Qed.

(** ** The law of listings *)

Definition item_rows (items : gmap string string) (names : list string) : list (string * string) :=
  (fun n => (n, default "" (items !! n))) <$> names.

Lemma item_rows_sorted items names :
  StronglySorted String.le names -> NoDup names -> StronglySorted fst_lt (item_rows items names).
Proof.
  intros Hs Hn. apply sorted_strict.
  - clear Hn. induction Hs as [|n names Hs IH Hall]; cbn; constructor; [done|]. by apply Forall_fmap.
  - unfold item_rows. rewrite <- list_fmap_compose. by rewrite (list_fmap_ext _ id), list_fmap_id by done.
Qed.

Lemma redis_loop_deliver {T} start incl limit (fn : Entry -> T -> bool * T) items names lx count last acc :
  0 < limit -> count < limit ->
  Forall2 (row_of unmarshalEntry) (item_rows items (filter (from_start start incl) names)) lx ->
  redis_loop unmarshalEntry start incl limit fn items names count last acc =
    (let '(last', acc') := deliver (Z.to_nat (limit - count)) fn lx acc last in (Ret last', acc')).
Proof.
  intros Hlim. revert lx count last acc. induction names as [|name names IH]; intros lx count last acc Hc Hl; cbn [redis_loop].
  { inversion Hl; subst. by destruct (Z.to_nat _). }
  rewrite filter_cons in Hl. destruct (decide (from_start start incl name)) as [Hf|Hf].
  - rewrite (proj2 (skipped_spec start incl name) Hf). cbn in Hl. inversion Hl as [|? [n e] ? lx' [Hn Hu] Hl']; subst. cbn in Hn, Hu. subst n.
    rewrite Hu. replace (Z.to_nat (limit - count)) with (S (Z.to_nat (limit - (count + 1)))) by lia. cbn [deliver].
    destruct (fn e acc) as [more acc']. destruct more; cbn [negb]; [|done].
    destruct (decide (limit > 0 /\ count + 1 >= limit)) as [Hge|Hge]; [|apply IH; [lia|done]].
    replace (Z.to_nat (limit - (count + 1))) with O by lia. by destruct lx' as [|[]].
  - destruct (skipped start incl name) eqn:Es; [by apply IH|]. by apply skipped_spec in Es.
Qed.

Lemma prefix_test prefix n : ~ (prefix <> "" /\ HasPrefix n prefix = false) <-> HasPrefix n prefix = true.
Proof.
  split; [|by intros -> []]. intros Hn. destruct (HasPrefix n prefix) eqn:E; [done|]. destruct (decide (prefix = "")) as [->|]; [|by destruct Hn].
  by destruct n.
Qed.

Lemma redis_listEntries_law s m T dir start incl limit prefix (fn : Entry -> T -> bool * T) acc :
  redis_rep s m -> abs_path dir -> 0 < limit ->
  let '(r, acc', s') := redis_listEntries unmarshalEntry dir start incl limit prefix fn acc s in
  redis_rep s' m /\
  match r with
  | Ret last => exists l, listed m dir start incl prefix l /\ deliver (Z.to_nat limit) fn l acc "" = (last, acc')
  | Fail _ => True
  | Panic => False
  end.
Proof.
  intros (Hd & c & Hc & Hv) Hdir Hlim. unfold redis_listEntries. rewrite (ready_bind _ s c) by done.
  destruct (exec_law "list entries" [HGetAll (metaKey s dir)] s c Hc) as (r & c' & -> & Hr).
  destruct r as [rs|e|]; [| |done].
  2: { destruct Hr as (_ & n & rs & Hs). split; [|done]. eapply rep_same; [done|exact Hv|]. intros d0 n0.
       eapply single_steps; [|exact Hs]. by apply read_only. }
  destruct Hr as [Hf (r & -> & H1)%steps_single]. apply first_error_cons in Hf as [Hf _]. inversion H1 as [| | | | |? h l Hh Hl| | | | | | |]; subst; [by edestruct Hf|].
  assert ((list_to_map l : gmap string string) = h) as ->.
  { rewrite <- (list_to_map_to_list h). apply list_to_map_proper; [|done]. rewrite Hl. apply NoDup_fst_map_to_list. }
  set (names := merge_sort String.le _).
  assert (NoDup names /\ forall n, n ∈ names <-> is_Some (h !! n) /\ HasPrefix n prefix = true) as [Hnd Hel].
  { unfold names. split; [rewrite (merge_sort_Permutation String.le); apply NoDup_filter, NoDup_fst_map_to_list|].
    intros n. rewrite (merge_sort_Permutation String.le), list_elem_of_filter, prefix_test, list_elem_of_fmap. split.
    - intros [Hp ([k v] & -> & Hkv%elem_of_map_to_list)]. split; [by eexists|done].
    - intros [[v Hv'] Hp]. split; [done|]. exists (n, v). by rewrite elem_of_map_to_list. }
  assert (StronglySorted String.le names) as Hsort by apply (StronglySorted_merge_sort String.le).
  destruct (view_listed _ _ _ (fun _ H => H) abs_path_dir _ m dir start incl prefix (item_rows h (filter (from_start start incl) names)) Hv Hdir)
    as (lx & Hrows & Hlisted).
  { apply item_rows_sorted; [by apply sorted_filter|by apply NoDup_filter]. }
  { intros n v. unfold item_rows, hash_view. unfold metaKey in Hh. rewrite Hh. cbn. rewrite list_elem_of_fmap. split.
    - intros (n' & [= -> ->] & [Hfs [[v' Hv'] Hp]%Hel]%list_elem_of_filter). by rewrite Hv'.
    - intros (Hn & Hp & Hfs). exists n. rewrite Hn. split; [done|]. apply list_elem_of_filter. split; [done|]. apply Hel. by rewrite Hn. }
  rewrite (redis_loop_deliver start incl limit fn h names lx) by (done || lia). rewrite Z.sub_0_r.
  destruct (deliver _ _ _ _ _) as [last acc'] eqn:E. split; [|by exists lx]. eapply rep_same; [done|exact Hv|]. by eapply read_only; [|exact H1].
Qed.

(** The operations on keys and values leave the entries alone. *)
Lemma kv_frame {A} what cmd k0 s m (k : list rreply -> GoM (Redis3Store R) store_err A) :
  redis_rep s m -> cmd_key cmd = redis_kvKey s k0 -> (forall rs s, snd (k rs s) = s) ->
  redis_rep (snd ((exec what [cmd] ≫= k) s)) m.
Proof.
  intros (Hd & c & Hc & Hv) Hk Hs. assert (forall dir, r_namespace s +:+ ":meta:" +:+ dir <> cmd_key cmd) as Hne.
  { intros dir. rewrite Hk. apply meta_kv. }
  apply (read_bind _ _ s c _ (fun r => redis_rep (snd r) m)); [done|..].
  - intros e c' _ Hsame. by eapply rep_same.
  - intros r c' _ Hstep. rewrite Hs. eapply rep_same; [done|exact Hv|]. by eapply other_key_view.
  - by apply other_key_view.
Qed.

Lemma redis_filer_laws : @FilerLaws (Redis3Store R) (redis_store marshalEntry unmarshalEntry) abs_path good redis_rep.
Proof.
  split; cbn.
  - done.
  - apply abs_path_dir.
  - intros s m p e (_ & c & _ & Hm & _) Hp. by apply Hm in Hp.
  - intros s m e. apply upsert_written.
  - intros s m e. apply upsert_written.
  - intros s m p. apply FindEntry_spec.
  - intros s m p Hr Hp. by apply DeleteEntry_spec.
  - intros s m p Hr Hp Hf. by destruct (proj2 (DeleteEntry_spec s m p Hr Hp)).
  - intros s m T dir start incl limit fn acc. apply redis_listEntries_law.
  - intros s m k Hr. unfold redis_KvGet. destruct Hr as (Hd & c & Hc & Hv). rewrite (ready_bind _ s c), bind_get by done.
    eapply (kv_frame _ _ k); [by split; [|exists c]|done|]. by intros [|[] []].
  - intros s m k v Hr. unfold redis_KvPut. destruct Hr as (Hd & c & Hc & Hv). rewrite (ready_bind _ s c), bind_get by done.
    eapply (kv_frame _ _ k); [by split; [|exists c]|done|]. done.
  - intros s m k Hr. unfold redis_KvDelete. destruct Hr as (Hd & c & Hc & Hv). rewrite (ready_bind _ s c), bind_get by done.
    eapply (kv_frame _ _ k); [by split; [|exists c]|done|]. done.
Qed.

Lemma redis_prefix_laws :
  @PrefixLaws (Redis3Store R) (redis_store marshalEntry unmarshalEntry) abs_path (fun _ => True) redis_rep.
Proof. split. intros s m T dir start incl limit prefix fn acc Hr Hd _. by apply redis_listEntries_law. Qed.

(** ** The key-value part *)

(** The keys with the prefix of values hold strings. *)
Definition kv_holds (ns : string) (c : rdata) (m : gmap string string) : Prop :=
  forall k, c !! (ns +:+ ":kv:" +:+ hex_key k) = VString <$> m !! k.

Definition redis_kv_rep (s : Redis3Store R) (m : gmap string string) : Prop :=
  exists c, r_client s = Some c /\ kv_holds (r_namespace s) (contents c) m.

Lemma kv_key_inj (ns : string) k k' : ns +:+ ":kv:" +:+ hex_key k = ns +:+ ":kv:" +:+ hex_key k' <-> k = k'.
Proof. split; [|by intros ->]. by intros ?%append_inj%append_inj%hex_key_inj. Qed.

Lemma kv_holds_set ns c m k v : kv_holds ns c m -> kv_holds ns (<[ns +:+ ":kv:" +:+ hex_key k := VString v]> c) (<[k := v]> m).
Proof.
  intros Hm k'. rewrite !lookup_insert, Hm. destruct (decide (k = k')) as [->|Hk]; [by rewrite !decide_True|].
  by rewrite !decide_False by (done || by intros ?%kv_key_inj).
Qed.

Lemma kv_holds_del ns c m k : kv_holds ns c m -> kv_holds ns (delete (ns +:+ ":kv:" +:+ hex_key k) c) (delete k m).
Proof.
  intros Hm k'. rewrite !lookup_delete, Hm. destruct (decide (k = k')) as [->|Hk]; [by rewrite !decide_True|].
  by rewrite !decide_False by (done || by intros ?%kv_key_inj).
Qed.

(** A write of one key, by its command. *)
Lemma kv_written what cmd s m m' :
  redis_kv_rep s m ->
  (forall c r c', redis_step c cmd r c' -> kv_holds (r_namespace s) c m ->
     (exists msg, r = RErr msg) /\ c' = c \/ kv_holds (r_namespace s) c' m') ->
  written redis_kv_rep m m' ((exec what [cmd];; mret tt) s).
Proof.
  intros (c & Hc & Hm) Hw. destruct (exec_law what [cmd] s c Hc) as (r & c' & He & Hr). unfold mbind, GoM_bind. rewrite He.
  unfold written. destruct r as [rs|e|]; cbn; [| |done].
  - destruct Hr as [Hf (r & -> & H1)%steps_single].
    apply first_error_cons in Hf as [Hf _]. destruct (Hw _ _ _ H1 Hm) as [[[msg ->] _]|Hm']; [by edestruct Hf|]. by exists c'.
  - destruct Hr as (_ & n & rs & [E|(r & -> & H1)]%steps_prefix); [left; exists c'; by rewrite E|].
    destruct (Hw _ _ _ H1 Hm) as [[_ E]|Hm']; [left|right]; exists c'; split; [done|by rewrite E|done|done].
Qed.

Lemma redis_kv_laws : KvLaws (Redis3Store R) redis_kv_rep.
Proof.
  split; cbn.
  - intros s m k (c & Hc & Hm). unfold redis_KvGet. rewrite (ready_bind _ s c), bind_get by done.
    destruct (exec_law "kv get" [Get (redis_kvKey s k)] s c Hc) as (r & c' & He & Hr). unfold mbind, GoM_bind. rewrite He.
    assert (forall r, redis_step (contents c) (Get (redis_kvKey s k)) r (contents c') -> contents c' = contents c) as Hg
      by (intros r' Hs; by inversion Hs).
    destruct r as [rs|e|]; [| |done].
    + destruct Hr as [Hf (r & -> & H1)%steps_single]. apply first_error_cons in Hf as [Hf _]. pose proof (Hm k) as Hk.
      assert (redis_kv_rep (with_client s c') m) as Hr' by (exists c'; split; [done|]; by rewrite (Hg r)).
      unfold redis_kvKey in H1.
      inversion H1 as [| | | | | | | | | |? v Hv|? Hv|]; subst; [by edestruct Hf|..]; rewrite Hv in Hk; cbn; (split; [done|]);
        by destruct (m !! k); simplify_eq/=.
    + destruct Hr as (Hne & n & rs & Hs). split; [|by destruct e]. exists c'. split; [done|].
      apply steps_prefix in Hs as [->|(r & _ & ->%Hg)]; done.
  - intros s m k v Hr. unfold redis_KvPut. destruct Hr as (c & Hc & Hm). rewrite (ready_bind _ s c), bind_get by done.
    apply kv_written; [by exists c|]. intros c1 r c2 Hs Hm1. inversion Hs; subst; [left; split; [by eexists|done]|right]. by apply kv_holds_set.
  - intros s m k Hr. unfold redis_KvDelete. destruct Hr as (c & Hc & Hm). rewrite (ready_bind _ s c), bind_get by done.
    apply kv_written; [by exists c|]. intros c1 r c2 Hs Hm1. inversion Hs; subst; [left; split; [by eexists|done]|right]. by apply kv_holds_del.
Qed.

(** ** Folders *)

Lemma Del_view ns c dir r c' :
  redis_step c (Del (ns +:+ ":meta:" +:+ dir)) r c' -> (forall msg, r <> RErr msg) ->
  forall d n, hash_view ns c' d n = if decide (d = dir) then None else hash_view ns c d n.
Proof.
  intros Hs Hne d n. inversion Hs; subst; [by edestruct Hne|]. unfold hash_view, hash_at. case_decide as E.
  - subst. rewrite lookup_delete_eq. cbn. done.
  - rewrite lookup_delete_ne; [done|]. by intros ?%append_inj%append_inj.
Qed.

Lemma delete_dirs_view ns dk dirs c rs c' :
  (forall dir, ns +:+ ":meta:" +:+ dir <> dk) ->
  redis_steps c (dirs ≫= fun d => [Del (ns +:+ ":meta:" +:+ d); SRem dk d]) rs c' -> first_error rs = None ->
  forall d n, hash_view ns c' d n = if decide (d ∈ dirs) then None else hash_view ns c d n.
Proof.
  intros Hdk. revert c rs. induction dirs as [|dir dirs IH]; intros c rs Hs Hf d n; cbn in Hs.
  { inversion Hs; subst. rewrite decide_False; [done|]. apply not_elem_of_nil. }
  inversion Hs as [|? ? r1 c1 ? rs1 ? H1 H2]; subst. inversion H2 as [|? ? r2 c2 ? rs2 ? H3 H4]; subst.
  apply first_error_cons in Hf as [Hf1 Hf]. apply first_error_cons in Hf as [_ Hf]. rewrite (IH _ _ H4 Hf).
  rewrite (hash_view_step ns c1 (SRem dk dir) r2 c2 H3) by done. rewrite (Del_view _ _ _ _ _ H1 Hf1).
  destruct (decide (d ∈ dirs)) as [Hd|Hd]; [by rewrite decide_True by by right|].
  apply decide_ext. rewrite elem_of_cons. tauto.
Qed.

(** Every directory with an entry is in the set of directories. *)
Definition indexed (s : Redis3Store R) : Prop :=
  exists c y, r_client s = Some c /\ set_at (contents c) (r_dirsKey s) = Some y /\
    forall dir name v, hash_view (r_namespace s) (contents c) dir name = Some v -> dir ∈ y.

(** A call of [DeleteFolderChildren] that succeeds removes exactly the entries below the
    folder, as long as the set of directories is complete. *)
Lemma redis_DeleteFolderChildren_spec s m fp s' :
  redis_rep s m -> indexed s -> redis_DeleteFolderChildren fp s = (Ret tt, s') ->
  redis_rep s' (filter (fun kv => under fp (fst (DirAndName (fst kv))) = false) m).
Proof.
  intros (Hd & c & Hc & Hv) (c0 & y & Hc0 & Hy & Hix) He. rewrite Hc in Hc0. injection Hc0 as <-.
  unfold redis_DeleteFolderChildren in He. rewrite (ready_bind _ s c), bind_get in He by done.
  destruct (exec_law "list dirs" [SMembers (r_dirsKey s)] s c Hc) as (r & c1 & He1 & Hr). unfold mbind at 1, GoM_bind at 1 in He. rewrite He1 in He.
  destruct r as [rs|e|]; [|done..]. destruct Hr as [Hf (r & -> & H1)%steps_single]. apply first_error_cons in Hf as [Hf _].
  assert (contents c1 = contents c) as Ec by by inversion H1.
  inversion H1 as [| | | | | | | |? y' l Hy' Hl| | | |]; subst; [by edestruct Hf|]. rewrite Hy in Hy'. injection Hy' as <-.
  set (dirs := filter _ l) in He.
  edestruct (exec_law "delete folder children" (dirs ≫= fun d => [Del (metaKey s d); SRem (r_dirsKey s) d]) (with_client s c1) c1 eq_refl) as (r & c2 & He2 & Hr).
  unfold mbind, GoM_bind, with_client in *. rewrite He2 in He.
  destruct r as [rs|e|]; [|done..]. injection He as <-. destruct Hr as [Hfe Hs].
  split; [done|]. exists c2. split; [done|]. cbn.
  pose proof (delete_dirs_view (r_namespace s) (r_dirsKey s) dirs (contents c1) rs (contents c2)) as Hdel.
  assert (forall d n, hash_view (r_namespace s) (contents c2) d n =
    if under fp d then None else hash_view (r_namespace s) (contents c) d n) as Hview.
  { intros d n. rewrite Hdel; [|intros dir; rewrite Hd; apply meta_dirs|done|done]. rewrite Ec.
    unfold dirs. destruct (hash_view (r_namespace s) (contents c) d n) as [v|] eqn:E.
    - assert (d ∈ l) as Hin by (rewrite Hl; apply elem_of_elements; by eapply Hix). destruct (under fp d) eqn:Eu.
      + rewrite decide_True; [done|]. by apply list_elem_of_filter.
      + rewrite decide_False; [done|]. rewrite list_elem_of_filter. intros []. congruence.
    - by destruct (decide _), (under fp d). }
  eapply view_filter; [exact Hv|]. intros d n _. apply Hview.
Qed.
End laws.

(** ** A Redis that never fails *)

Definition run_cmd (cmd : rcmd) (c : rdata) : rreply * rdata :=
  let wrong := (RErr "WRONGTYPE", c) in
  let on_hash k f := match hash_at c k with Some h => f h | None => wrong end in
  let on_set k f := match set_at c k with Some y => f y | None => wrong end in
  match cmd with
  | HSet k f v => on_hash k (fun h => (RInt 1, put_hash k (<[f := v]> h) c))
  | HGet k f => on_hash k (fun h => (match h !! f with Some v => RBulk v | None => RNil end, c))
  | HDel k f => on_hash k (fun h => (RInt 1, put_hash k (delete f h) c))
  | HLen k => on_hash k (fun h => (RInt (Z.of_nat (size h)), c))
  | HGetAll k => on_hash k (fun h => (RPairs (map_to_list h), c))
  | SAdd k x => on_set k (fun y => (RInt 1, put_set k ({[x]} ∪ y) c))
  | SRem k x => on_set k (fun y => (RInt 1, put_set k (y ∖ {[x]}) c))
  | SMembers k => on_set k (fun y => (RMembers (elements y), c))
  | Set_ k v => (RBulk "OK", <[k := VString v]> c)
  | Get k => match c !! k with Some (VString v) => (RBulk v, c) | Some _ => wrong | None => (RNil, c) end
  | Del k => (RInt 1, delete k c)
  end.

Fixpoint run_cmds (cmds : list rcmd) (c : rdata) : list rreply * rdata :=
  match cmds with
  | [] => ([], c)
  | cmd :: cmds => let '(r, c) := run_cmd cmd c in let '(rs, c) := run_cmds cmds c in (r :: rs, c)
  end.

#[export] Instance map_redis : Redis rdata := {
  redis_do cmds c := let '(rs, c) := run_cmds cmds c in (Ret rs, c);
}.

Lemma run_cmd_step cmd c : redis_step c cmd (fst (run_cmd cmd c)) (snd (run_cmd cmd c)).
Proof.
  destruct cmd; cbn;
    lazymatch goal with
    | |- context [hash_at c ?k] => destruct (hash_at c k) eqn:E
    | |- context [set_at c ?k] => destruct (set_at c k) eqn:E
    | |- context [c !! ?k] => destruct (c !! k) as [[]|] eqn:E
    | |- _ => idtac
    end; cbn; econstructor; done.
Qed.

Lemma map_redis_laws : RedisLaws rdata id.
Proof.
  split. intros cmds c. unfold redis_do. cbn. destruct (run_cmds cmds c) as [rs c'] eqn:E. revert c rs c' E.
  induction cmds as [|cmd cmds IH]; intros c rs c' E; cbn in E; [injection E as <- <-; constructor|].
  pose proof (run_cmd_step cmd c) as Hs. destruct (run_cmd cmd c) as [r c1]. destruct (run_cmds cmds c1) as [rs1 c2] eqn:E1.
  injection E as <- <-. econstructor; [exact Hs|by apply IH].
Qed.

(** ** Two clients *)

(** A Redis that runs the next pipeline of another client after each of this one's. *)
#[local] Instance shared_redis : Redis (rdata * list (list rcmd)) := {
  redis_do cmds r :=
    let '(rs, c) := run_cmds cmds (fst r) in
    match snd r with
    | [] => (Ret rs, (c, []))
    | other :: rest => (Ret rs, (snd (run_cmds other c), rest))
    end;
}.

Definition race_start : Redis3Store (rdata * list (list rcmd)) :=
  mkRedis3Store (Some ({[ "ns:meta:/d" := VHash {["docs" := "old"]}; "ns:dirs" := VSet {["/d"]} ]},
                       [[HSet "ns:meta:/d" "new" "{docs}"; SAdd "ns:dirs" "/d"]])) "ns" "ns:dirs".

(** The last entry of a directory is deleted while another client inserts one: the set of
    directories loses the directory although it has an entry, and a later deletion of the
    folder leaves the entry behind. *)
Theorem redis_dirs_race :
  let '(r1, s1) := redis_DeleteEntry "/d/docs" race_start in
  let '(r2, s2) := redis_DeleteFolderChildren "/d" s1 in
  r1 = Ret tt /\ r2 = Ret tt /\ fst (redis_FindEntry ex_unmarshal "/d/new" s2) = Ret ex_entry.
Proof. vm_compute. repeat split. Qed.
