(* ===== verification/SqlStore.v ===== *)
(** * SqlStore: the stores on MySQL and PostgreSQL

    Models [goblob/filer/mysql2/mysql_store.go] and [goblob/filer/postgres2/postgres_store.go],
    which are the same code with the texts of two dialects.  The database and the JSON text
    of an entry are parameters: a class of operations on statements, whose laws say what a
    statement does to the rows of its table.  A statement is a term; the placeholders of its
    text are the positions of its arguments, counted from one.  The collation of a text
    column is a function to sort keys: texts with the same key are equal for the database. *)

From stdpp Require Import sorting.
From Stdlib Require Import Sorting.Sorted.
From S2P Require Import Prelude GoStrings GoPath Http FilerStore GoText StoreView.

#[local] Open Scope Z_scope.
#[local] Open Scope string_scope.

(** ** Statements *)

Inductive sql_val := VInt (z : Z) | VText (s : string) | VBlob (s : string).

Inductive sql_col := c_dir_hash | c_dir | c_name | c_meta | c_k | c_v.

Inductive sql_op := OpEq | OpLike | OpGt | OpGe.

(** [col op ?], with the position of the argument. *)
Record sql_cond := mkCond { cd_col : sql_col; cd_op : sql_op; cd_arg : nat }.

Inductive sql_where := AllOf (l : list sql_cond) | AnyOf (l : list sql_cond).

Inductive sql_table := filer_meta | filer_kv.

(** [Upsert] inserts a row of the columns and replaces the last one when the key is there. *)
Inductive sql_stmt :=
| CreateTable (t : sql_table)
| CreateIndex (t : sql_table) (cols : list sql_col)
| Upsert (t : sql_table) (cols : list sql_col)
| Delete_ (t : sql_table) (w : sql_where)
| Select (t : sql_table) (cols : list sql_col) (w : sql_where) (order : option sql_col) (limit : option nat).

#[export] Instance sql_val_dec : EqDecision sql_val.
Proof. solve_decision. Defined.

Inductive pool_setting := MaxIdleConns (n : Z) | MaxOpenConns (n : Z) | ConnMaxLifetime (seconds : Z).

(** [database/sql]: a call runs in the transaction of its first argument, if any.  A query
    gives the rows it came to and the error that stopped the iteration. *)
Class SqlDb (D : Type) := {
  sql_set : pool_setting -> D -> D;
  sql_ping : GoM D string unit;
  sql_exec : option Z -> sql_stmt -> list sql_val -> GoM D string unit;
  sql_query : option Z -> sql_stmt -> list sql_val -> GoM D string (list (list sql_val) * option string);
  sql_begin : GoM D string Z;
  sql_commit : Z -> GoM D string unit;
  sql_rollback : Z -> GoM D (option string) unit;
}.

(** ** Dialects *)

Record dialect := mkDialect {
  dl_name : string;
  dl_schema : list sql_stmt;
  dl_maxKVKeyHexLen : option Z;
  dl_list_query : Z -> string -> string -> bool -> Z -> string -> sql_stmt * list sql_val;
  dl_dsn : gmap string string -> string -> string;
}.

(** The FNV-1a hash of 64 bits, as a signed integer. *)
Definition dirHash (dir : string) : Z :=
  i64 (fold_left (fun h c => u64 (Z.lxor h (code c) * 1099511628211)) (chars dir) 14695981039346656037).

Definition maxKVKeyHexLen : Z := 1024.

Definition mysql_schema : list sql_stmt := [CreateTable filer_meta; CreateTable filer_kv].

(** The query of a listing; [?] takes the arguments in order. *)
Definition mysql_list_query (hash : Z) (dirPath startFileName : string) (includeStart : bool) (limit : Z) (namePrefix : string)
  : sql_stmt * list sql_val :=
  let conds := [mkCond c_dir_hash OpEq 1; mkCond c_dir OpEq 2] in
  let args := [VInt hash; VText dirPath] in
  let '(conds, args) :=
    if decide (namePrefix <> "")
    then (conds ++ [mkCond c_name OpLike (S (length conds))], args ++ [VText (namePrefix +:+ "%")])%list else (conds, args) in
  let '(conds, args) :=
    if decide (startFileName <> "")
    then (conds ++ [mkCond c_name (if includeStart then OpGe else OpGt) (S (length conds))], args ++ [VText startFileName])%list
    else (conds, args) in
  let '(lim, args) :=
    if decide (limit > 0) then (Some (S (length conds)), (args ++ [VInt limit])%list) else (None, args) in
  (Select filer_meta [c_name; c_meta] (AllOf conds) (Some c_name) lim, args).

(** [buildDSN] *)
Definition mysql_params (extra : string) : gmap string string :=
  let q := <["collation" := "utf8mb4_unicode_ci"]> (<["charset" := "utf8mb4"]> (<["parseTime" := "true"]> ∅)) in
  if decide (extra = "") then q else
  fold_left (fun q pair => match Cut (TrimSpace pair) "=" with
                           | Some (k, v) => <[TrimSpace k := TrimSpace v]> q
                           | None => q
                           end) (Split "&"%char extra) q.

Definition buildDSN (config : gmap string string) (prefix : string) : string :=
  let host := trimmed_or "127.0.0.1" (config_get config (prefix +:+ "hostname")) in
  let port := parseIntOrDefault (config_get config (prefix +:+ "port")) 3306 in
  let database := trimmed_or "goblob" (config_get config (prefix +:+ "database")) in
  let username := trimmed_or "root" (config_get config (prefix +:+ "username")) in
  let password := config_get config (prefix +:+ "password") in
  let q := mysql_params (TrimSpace (config_get config (prefix +:+ "params"))) in
  username +:+ ":" +:+ password +:+ "@tcp(" +:+ host +:+ ":" +:+ Itoa port +:+ ")/" +:+ database +:+ "?" +:+ Values_Encode q.

Definition mysql2 : dialect := mkDialect "mysql2" mysql_schema (Some maxKVKeyHexLen) mysql_list_query buildDSN.

Definition postgres_schema : list sql_stmt :=
  [CreateTable filer_meta; CreateIndex filer_meta [c_dir_hash; c_dir; c_name]; CreateTable filer_kv].

(** The query of a listing; [$n] is numbered with the length of the arguments. *)
Definition postgres_list_query (hash : Z) (dirPath startFileName : string) (includeStart : bool) (limit : Z) (namePrefix : string)
  : sql_stmt * list sql_val :=
  let args := [VInt hash; VText dirPath] in
  let conds := [mkCond c_dir_hash OpEq 1; mkCond c_dir OpEq 2] in
  let '(conds, args) :=
    if decide (namePrefix <> "") then
      let args := (args ++ [VText (namePrefix +:+ "%")])%list in ((conds ++ [mkCond c_name OpLike (length args)])%list, args)
    else (conds, args) in
  let '(conds, args) :=
    if decide (startFileName <> "") then
      let args := (args ++ [VText startFileName])%list in
      ((conds ++ [mkCond c_name (if includeStart then OpGe else OpGt) (length args)])%list, args)
    else (conds, args) in
  let '(lim, args) :=
    if decide (limit > 0) then let args := (args ++ [VInt limit])%list in (Some (length args), args) else (None, args) in
  (Select filer_meta [c_name; c_meta] (AllOf conds) (Some c_name) lim, args).

Definition buildConnString (config : gmap string string) (prefix : string) : string :=
  let host := trimmed_or "127.0.0.1" (config_get config (prefix +:+ "hostname")) in
  let port := parseIntOrDefault (config_get config (prefix +:+ "port")) 5432 in
  let database := trimmed_or "goblob" (config_get config (prefix +:+ "database")) in
  let username := trimmed_or "postgres" (config_get config (prefix +:+ "username")) in
  let password := config_get config (prefix +:+ "password") in
  let sslMode := trimmed_or "disable" (config_get config (prefix +:+ "sslmode")) in
  Join " " ["host=" +:+ host; "port=" +:+ Itoa port; "dbname=" +:+ database; "user=" +:+ username; "password=" +:+ password;
            "sslmode=" +:+ sslMode].

Definition postgres2 : dialect := mkDialect "postgres2" postgres_schema None postgres_list_query buildConnString.

(** ** The store *)

Record SqlStore (D : Type) := mkSqlStore { q_db : option D }.
Arguments mkSqlStore {D}.
Arguments q_db {D}.

Section store.
Context {D : Type} `{SqlDb D} (dl : dialect).
Context (marshalEntry : Entry -> outcome string string) (unmarshalEntry : string -> outcome string Entry).

Abbreviation sqlM := (GoM (SqlStore D) store_err).

Definition sql_error (what msg : string) : store_err := ErrOther (dl_name dl +:+ ": " +:+ what +:+ ": " +:+ msg).

(** A call of the database, with the text in front of its errors. *)
Definition on_sql {A} (what : string) (call : GoM D string A) : sqlM A := fun s =>
  match q_db s with
  | None => (Panic, s)
  | Some d =>
      let '(r, d) := call d in
      (match r with Ret a => Ret a | Fail msg => Fail (sql_error what msg) | Panic => Panic end, mkSqlStore (Some d))
  end.

Fixpoint ensureSchema (stmts : list sql_stmt) : GoM D string unit :=
  match stmts with
  | [] => mret tt
  | st :: stmts => sql_exec None st [];; ensureSchema stmts
  end.

Definition pool_settings (config : gmap string string) (prefix : string) : list pool_setting :=
  let setting k def f := let n := parseIntOrDefault (config_get config (prefix +:+ k)) def in if decide (n > 0) then [f n] else [] in
  (setting "connection_max_idle" 10 MaxIdleConns ++ setting "connection_max_open" 100 MaxOpenConns ++
   setting "connection_max_lifetime_seconds" 300 ConnMaxLifetime)%list.

Definition sql_Initialize (sql_Open : string -> outcome string D) (config : gmap string string) (prefix : string)
  : GoM (SqlStore D) string unit := fun s =>
  match sql_Open (dl_dsn dl config prefix) with
  | Fail e => (Fail (dl_name dl +:+ ": open: " +:+ e), s)
  | Panic => (Panic, s)
  | Ret db =>
      let db := fold_left (fun d st => sql_set st d) (pool_settings config prefix) db in
      match sql_ping db with
      | (Fail e, _) => (Fail (dl_name dl +:+ ": ping: " +:+ e), s)
      | (Panic, _) => (Panic, s)
      | (Ret _, db) =>
          match ensureSchema (dl_schema dl) db with
          | (Fail e, _) => (Fail (dl_name dl +:+ ": ensure schema: " +:+ e), s)
          | (Panic, _) => (Panic, s)
          | (Ret _, db) => (Ret tt, mkSqlStore (Some db))
          end
      end
  end.

Definition sql_ensureReady : sqlM unit := fun s =>
  match q_db s with
  | None => (Fail (ErrOther (dl_name dl +:+ ": store not initialized")), s)
  | Some _ => (Ret tt, s)
  end.

Definition upsertEntry (ctx : option Z) (e : Entry) : sqlM unit :=
  sql_ensureReady;;
  let '(dir, name) := DirAndName (e_FullPath e) in
  match marshalEntry e with
  | Fail msg => fail (sql_error "marshal entry" msg)
  | Panic => panic
  | Ret meta =>
      on_sql "upsert entry" (sql_exec ctx (Upsert filer_meta [c_dir_hash; c_dir; c_name; c_meta])
                               [VInt (dirHash dir); VText dir; VText name; VBlob meta])
  end.

(** [QueryRowContext] with [Scan]: the first row, or [sql.ErrNoRows]. *)
Definition query_row (what : string) (ctx : option Z) (st : sql_stmt) (args : list sql_val) : sqlM string :=
  '(rows, err) ← on_sql what (sql_query ctx st args);
  match rows, err with
  | [VBlob data] :: _, _ => mret data
  | _ :: _, _ => fail (sql_error what "scan")
  | [], Some msg => fail (sql_error what msg)
  | [], None => fail ErrNotFound
  end.

Definition by_name : sql_where := AllOf [mkCond c_dir_hash OpEq 1; mkCond c_dir OpEq 2; mkCond c_name OpEq 3].

Definition sql_FindEntry (ctx : option Z) (fp : string) : sqlM Entry :=
  sql_ensureReady;;
  let '(dir, name) := DirAndName fp in
  data ← query_row "find entry" ctx (Select filer_meta [c_meta] by_name None None) [VInt (dirHash dir); VText dir; VText name];
  match unmarshalEntry data with
  | Ret e => mret e
  | Fail msg => fail (sql_error "unmarshal entry" msg)
  | Panic => panic
  end.

Definition sql_DeleteEntry (ctx : option Z) (fp : string) : sqlM unit :=
  sql_ensureReady;;
  let '(dir, name) := DirAndName fp in
  on_sql "delete entry" (sql_exec ctx (Delete_ filer_meta by_name) [VInt (dirHash dir); VText dir; VText name]).

Definition sql_DeleteFolderChildren (ctx : option Z) (fp : string) : sqlM unit :=
  sql_ensureReady;;
  let prefix := if HasSuffix fp "/" then fp else fp +:+ "/" in
  on_sql "delete folder children"
    (sql_exec ctx (Delete_ filer_meta (AnyOf [mkCond c_dir OpEq 1; mkCond c_dir OpLike 2])) [VText fp; VText (prefix +:+ "%")]).

(** ** Listings *)

Fixpoint rows_loop {T} (fn : Entry -> T -> bool * T) (rows : list (list sql_val)) (err : option string) (last : string) (acc : T)
  : outcome store_err string * T :=
  match rows with
  | [] => (match err with Some msg => Fail (sql_error "iterate list rows" msg) | None => Ret last end, acc)
  | [VText name; VBlob data] :: rows =>
      match unmarshalEntry data with
      | Fail msg => (Fail (sql_error "unmarshal list entry" msg), acc)
      | Panic => (Panic, acc)
      | Ret entry =>
          let '(more, acc) := fn entry acc in
          if more then rows_loop fn rows err name acc else (Ret name, acc)
      end
  | _ :: _ => (Fail (sql_error "scan list row" "types"), acc)
  end.

Definition sql_listEntries {T} (ctx : option Z) (dirPath startFileName : string) (includeStart : bool) (limit : Z) (namePrefix : string)
    (fn : Entry -> T -> bool * T) (acc : T) (s : SqlStore D) : outcome store_err string * T * SqlStore D :=
  let '(query, args) := dl_list_query dl (dirHash dirPath) dirPath startFileName includeStart limit namePrefix in
  match (sql_ensureReady;; on_sql "list entries" (sql_query ctx query args)) s with
  | (Ret (rows, err), s) => let '(r, acc) := rows_loop fn rows err "" acc in (r, acc, s)
  | (Fail e, s) => (Fail e, acc, s)
  | (Panic, s) => (Panic, acc, s)
  end.

(** ** Transactions *)

(** The context of the calls that follow. *)
Definition BeginTransaction : sqlM (option Z) :=
  sql_ensureReady;; tx ← on_sql "begin tx" sql_begin; mret (Some tx).

Definition CommitTransaction (ctx : option Z) : sqlM unit :=
  match ctx with None => mret tt | Some tx => on_sql "commit tx" (sql_commit tx) end.

(** The error of [sql_rollback] is [None] for [sql.ErrTxDone]. *)
Definition RollbackTransaction (ctx : option Z) : sqlM unit := fun s =>
  match ctx, q_db s with
  | None, _ => (Ret tt, s)
  | Some _, None => (Panic, s)
  | Some tx, Some d =>
      let '(r, d) := sql_rollback tx d in
      (match r with Fail (Some msg) => Fail (sql_error "rollback tx" msg) | Panic => Panic | _ => Ret tt end, mkSqlStore (Some d))
  end.

(** ** The key-value part *)

Definition sql_KvPut (ctx : option Z) (key value : string) : sqlM unit :=
  sql_ensureReady;;
  let encoded := hex_key key in
  if match dl_maxKVKeyHexLen dl with Some n => bool_decide (Z.of_nat (String.length encoded) > n) | None => false end
  then fail (ErrOther (dl_name dl +:+ ": kv key too long"))
  else on_sql "kv put" (sql_exec ctx (Upsert filer_kv [c_k; c_v]) [VText encoded; VBlob value]).

Definition by_key : sql_where := AllOf [mkCond c_k OpEq 1].

Definition sql_KvGet (ctx : option Z) (key : string) : sqlM string :=
  sql_ensureReady;; query_row "kv get" ctx (Select filer_kv [c_v] by_key None None) [VText (hex_key key)].

Definition sql_KvDelete (ctx : option Z) (key : string) : sqlM unit :=
  sql_ensureReady;; on_sql "kv delete" (sql_exec ctx (Delete_ filer_kv by_key) [VText (hex_key key)]).

#[export] Instance sql_kv : KvStore (SqlStore D) := {
  KvGet := sql_KvGet None;
  KvPut := sql_KvPut None;
  KvDelete := sql_KvDelete None;
}.

#[export] Instance sql_store : FilerStore (SqlStore D) := {
  fs_kv := sql_kv;
  InsertEntry := upsertEntry None;
  UpdateEntry := upsertEntry None;
  FindEntry := sql_FindEntry None;
  DeleteEntry := sql_DeleteEntry None;
  DeleteFolderChildren := sql_DeleteFolderChildren None;
  ListDirectoryPrefixedEntries T := sql_listEntries (T:=T) None;
}.
End store.

(** The two stores. *)
Definition NewMySQL2Store {D} `{SqlDb D} (sql_Open : string -> outcome string D) (config : gmap string string)
  : outcome string unit * SqlStore D :=
  sql_Initialize mysql2 sql_Open config "mysql2." (mkSqlStore None).

Definition NewPostgres2Store {D} `{SqlDb D} (sql_Open : string -> outcome string D) (config : gmap string string)
  : outcome string unit * SqlStore D :=
  sql_Initialize postgres2 sql_Open config "postgres2." (mkSqlStore None).

(** ** What a database does *)

Record meta_row := mkMeta { mr_hash : Z; mr_dir : string; mr_name : string; mr_meta : string }.
Record kv_row := mkKv { kr_k : string; kr_v : string }.

(** The rows by their primary keys, with the sort keys of the texts. *)
Record sql_tables := mkTables { tb_meta : gmap (Z * string * string) meta_row; tb_kv : gmap string kv_row }.

Definition meta_field (r : meta_row) (c : sql_col) : option sql_val :=
  match c with
  | c_dir_hash => Some (VInt (mr_hash r))
  | c_dir => Some (VText (mr_dir r))
  | c_name => Some (VText (mr_name r))
  | c_meta => Some (VBlob (mr_meta r))
  | _ => None
  end.

Definition kv_field (r : kv_row) (c : sql_col) : option sql_val :=
  match c with c_k => Some (VText (kr_k r)) | c_v => Some (VBlob (kr_v r)) | _ => None end.

Section semantics.
Context (ckey : string -> string) (like : string -> string -> bool).

Definition meta_key (r : meta_row) : Z * string * string := (mr_hash r, ckey (mr_dir r), ckey (mr_name r)).

Definition eval_cond (args : list sql_val) (field : sql_col -> option sql_val) (c : sql_cond) : bool :=
  match field (cd_col c), args !! Nat.pred (cd_arg c) with
  | Some (VInt x), Some (VInt y) => match cd_op c with OpEq => bool_decide (x = y) | _ => false end
  | Some (VText x), Some (VText y) =>
      match cd_op c with
      | OpEq => bool_decide (ckey x = ckey y)
      | OpLike => like y x
      | OpGt => bool_decide (str_lt (ckey y) (ckey x))
      | OpGe => bool_decide (~ str_lt (ckey x) (ckey y))
      end
  | _, _ => false
  end.

Definition eval_where (args : list sql_val) (w : sql_where) (field : sql_col -> option sql_val) : bool :=
  match w with AllOf l => forallb (eval_cond args field) l | AnyOf l => existsb (eval_cond args field) l end.

(** The order of the rows by a column of text. *)
Definition col_le {A} (field : A -> sql_col -> option sql_val) (o : option sql_col) (x y : A) : Prop :=
  match o with
  | None => True
  | Some c => match field x c, field y c with
              | Some (VText s), Some (VText t) => String.le (ckey s) (ckey t)
              | _, _ => True
              end
  end.

Definition limit_rows {A} (args : list sql_val) (limit : option nat) (l : list A) : list A :=
  match limit with
  | None => l
  | Some n => match args !! Nat.pred n with Some (VInt k) => take (Z.to_nat k) l | _ => l end
  end.

(** [l] is an answer to a query over [rows]. *)
Definition selected {A} (field : A -> sql_col -> option sql_val) (rows : list A) (cols : list sql_col) (w : sql_where)
    (order : option sql_col) (limit : option nat) (args : list sql_val) (l : list (list sql_val)) : Prop :=
  exists sel, sel ≡ₚ filter (fun r => eval_where args w (field r) = true) rows /\ StronglySorted (col_le field order) sel /\
    l = (fun r => omap (field r) cols) <$> limit_rows args limit sel.

(** A row that is there keeps the texts of its key and takes the new value. *)
Definition upsert_meta (r : meta_row) (m : gmap (Z * string * string) meta_row) : gmap (Z * string * string) meta_row :=
  <[meta_key r := match m !! meta_key r with
                  | Some old => mkMeta (mr_hash old) (mr_dir old) (mr_name old) (mr_meta r)
                  | None => r
                  end]> m.

Definition upsert_kv (r : kv_row) (m : gmap string kv_row) : gmap string kv_row :=
  <[ckey (kr_k r) := match m !! ckey (kr_k r) with Some old => mkKv (kr_k old) (kr_v r) | None => r end]> m.

(** What a statement that writes makes of the tables; [None] for other shapes. *)
Definition run_stmt (st : sql_stmt) (args : list sql_val) (t : sql_tables) : option sql_tables :=
  match st, args with
  | Upsert filer_meta [c_dir_hash; c_dir; c_name; c_meta], [VInt h; VText d; VText n; VBlob m] =>
      Some (mkTables (upsert_meta (mkMeta h d n m) (tb_meta t)) (tb_kv t))
  | Upsert filer_kv [c_k; c_v], [VText k; VBlob v] => Some (mkTables (tb_meta t) (upsert_kv (mkKv k v) (tb_kv t)))
  | Delete_ filer_meta w, _ =>
      Some (mkTables (filter (fun kr => eval_where args w (meta_field (snd kr)) = false) (tb_meta t)) (tb_kv t))
  | Delete_ filer_kv w, _ =>
      Some (mkTables (tb_meta t) (filter (fun kr => eval_where args w (kv_field (snd kr)) = false) (tb_kv t)))
  | (CreateTable _ | CreateIndex _ _), _ => Some t
  | _, _ => None
  end.

Definition answers (st : sql_stmt) (args : list sql_val) (t : sql_tables) (l : list (list sql_val)) : Prop :=
  match st with
  | Select filer_meta cols w order limit => selected meta_field (map_to_list (tb_meta t)).*2 cols w order limit args l
  | Select filer_kv cols w order limit => selected kv_field (map_to_list (tb_kv t)).*2 cols w order limit args l
  | _ => False
  end.

(** A single statement happens entirely or not at all; a query may break off. *)
Class SqlLaws (D : Type) `{SqlDb D} (contents : D -> sql_tables) : Prop := {
  sql_exec_law st args t d : run_stmt st args (contents d) = Some t ->
    match sql_exec None st args d with
    | (Ret _, d') => contents d' = t
    | (Fail _, d') => contents d' = contents d \/ contents d' = t
    | (Panic, _) => False
    end;
  sql_query_law t cols w order limit args d :
    match sql_query None (Select t cols w order limit) args d with
    | (Ret (l, err), d') => contents d' = contents d /\
        exists rest, answers (Select t cols w order limit) args (contents d) (l ++ rest)%list /\ (err = None -> rest = [])
    | (Fail _, d') => contents d' = contents d
    | (Panic, _) => False
    end;
  sql_ping_law d : contents (snd (sql_ping d)) = contents d;
  sql_set_law st d : contents (sql_set st d) = contents d;
}.
End semantics.

(** ** Listings as queries *)

(** A text without the special characters of [LIKE]. *)
Definition plain_text (p : string) : Prop := Forall (fun c => c ∉ ["%"; "_"; "\"]%char) (chars p).

Lemma same_list_query hash dir start incl limit prefix :
  postgres_list_query hash dir start incl limit prefix = mysql_list_query hash dir start incl limit prefix.
Proof. unfold postgres_list_query, mysql_list_query. repeat case_decide; reflexivity. Qed.

Definition row_val (x : string * string) : list sql_val := [VText (fst x); VBlob (snd x)].
Definition row_pair (r : meta_row) : string * string := (mr_name r, mr_meta r).

Section queries.
Context (like : string -> string -> bool) (Hlike : forall p s, plain_text p -> like (p +:+ "%") s = HasPrefix s p).

Lemma prefix_nil s : HasPrefix s "" = true.
Proof. by destruct s. Qed.

Lemma list_query_spec hash dir start incl limit prefix :
  0 < limit -> plain_text prefix ->
  exists w lim args, mysql_list_query hash dir start incl limit prefix = (Select filer_meta [c_name; c_meta] w (Some c_name) lim, args) /\
    (forall A (l : list A), limit_rows args lim l = take (Z.to_nat limit) l) /\
    forall r, eval_where id like args w (meta_field r) = true <->
      mr_hash r = hash /\ mr_dir r = dir /\ HasPrefix (mr_name r) prefix = true /\ from_start start incl (mr_name r).
Proof.
  intros Hlim Hp. unfold mysql_list_query.
  destruct (decide (prefix <> "")) as [Hpre|Hpre%dec_stable], (decide (start <> "")) as [Hst|Hst%dec_stable]; rewrite decide_True by lia;
    eexists _, _, _; (split; [reflexivity|]); (split; [done|]); intros r; cbn; unfold eval_cond; cbn; subst;
    rewrite ?andb_true_r, ?andb_true_iff, ?bool_decide_eq_true, ?(Hlike prefix), ?prefix_nil by done; unfold from_start, id.
  all: try (destruct incl; rewrite bool_decide_eq_true). all: tauto.
Qed.

(** The rows of a directory have distinct names. *)
Lemma names_NoDup (t : gmap (Z * string * string) meta_row) (P : meta_row -> Prop) `{forall r, Decision (P r)} hash dir :
  map_Forall (fun k r => meta_key id r = k) t -> (forall r, P r -> mr_hash r = hash /\ mr_dir r = dir) ->
  NoDup (mr_name <$> filter P (map_to_list t).*2).
Proof.
  intros Hk HP. assert (NoDup (meta_key id <$> (map_to_list t).*2)) as Hnd.
  { assert (meta_key id <$> (map_to_list t).*2 = (map_to_list t).*1) as ->; [|apply NoDup_fst_map_to_list].
    rewrite <- list_fmap_compose. apply list_fmap_ext. intros i [k r] Hin%list_elem_of_lookup_2%elem_of_map_to_list. by apply Hk in Hin. }
  revert Hnd. generalize (map_to_list t).*2. intros l. induction l as [|r l IH]; [constructor|]. rewrite fmap_cons.
  intros [Hr Hl]%NoDup_cons. rewrite filter_cons. case_decide as Hp; [|by apply IH]. cbn. constructor; [|by apply IH].
  intros (r' & E & [Hp' Hin]%list_elem_of_filter)%list_elem_of_fmap. apply Hr, list_elem_of_fmap. exists r'. split; [|done].
  unfold meta_key. destruct (HP _ Hp) as [-> ->], (HP _ Hp') as [-> ->]. by rewrite E.
Qed.
End queries.

Lemma deliver_take {T} n (fn : Entry -> T -> bool * T) l acc last :
  deliver n fn l acc last = deliver (length (take n l)) fn (take n l) acc last.
Proof.
  revert l acc last. induction n as [|n IH]; intros [|[name e] l] acc last; cbn; try done.
  destruct (fn e acc) as [[] acc']; [apply IH|done].
Qed.

Lemma rows_loop_deliver {T} dl unmarshalEntry (fn : Entry -> T -> bool * T) pl rest lx err last acc :
  Forall2 (row_of unmarshalEntry) (pl ++ rest)%list lx -> (err = None -> rest = []) ->
  let '(r, acc') := rows_loop dl unmarshalEntry fn (row_val <$> pl) err last acc in
  match r with
  | Ret last' => deliver (length lx) fn lx acc last = (last', acc')
  | Fail _ => True
  | Panic => False
  end.
Proof.
  intros Hl Hrest. revert lx last acc Hl. induction pl as [|[n v] pl IH]; intros lx last acc Hl; cbn.
  - destruct err; [done|]. rewrite Hrest in Hl by done. by inversion Hl.
  - inversion Hl as [|? [n' e] ? lx' [Hn Hu] Hl']; subst. cbn in *. subst n'. rewrite Hu.
    destruct (fn e acc) as [[] acc']; [by apply IH|done].
Qed.

(** ** The laws, with a binary collation *)

Section laws.
Context {D : Type} `{SqlDb D} (contents : D -> sql_tables) (like : string -> string -> bool).
Context (Hsql : SqlLaws id like D contents) (Hlike : forall p s, plain_text p -> like (p +:+ "%") s = HasPrefix s p).
Context (dl : dialect) (Hdl : dl = mysql2 \/ dl = postgres2).
Context (marshalEntry : Entry -> outcome string string) (unmarshalEntry : string -> outcome string Entry).
Context (good : Entry -> Prop).
Context (Hmarshal : forall e, marshalEntry e <> Panic).
Context (Hjson : forall e d, good e -> marshalEntry e = Ret d -> unmarshalEntry d = Ret e).

Definition keyed (t : gmap (Z * string * string) meta_row) : Prop := map_Forall (fun k r => meta_key id r = k) t.

Definition meta_view (t : gmap (Z * string * string) meta_row) (dir name : string) : option string :=
  mr_meta <$> t !! (dirHash dir, dir, name).

Definition sql_rep (s : SqlStore D) (m : gmap string Entry) : Prop :=
  exists d, q_db s = Some d /\ keyed (tb_meta (contents d)) /\
    view_holds unmarshalEntry abs_path good (meta_view (tb_meta (contents d))) m.

Lemma sql_ready_bind {A} (k : unit -> GoM (SqlStore D) store_err A) s d :
  q_db s = Some d -> (sql_ensureReady dl ≫= k) s = k tt s.
Proof. intros Hd. unfold mbind, GoM_bind, sql_ensureReady. by rewrite Hd. Qed.

Lemma rep_tables d d' m : tb_meta (contents d') = tb_meta (contents d) ->
  keyed (tb_meta (contents d)) -> view_holds unmarshalEntry abs_path good (meta_view (tb_meta (contents d))) m ->
  sql_rep (mkSqlStore (Some d')) m.
Proof. intros E Hk Hv. exists d'. by rewrite E. Qed.

(** A statement that turns [m] into [m']. *)
Lemma exec_written what st args t s d m m' :
  q_db s = Some d -> run_stmt id like st args (contents d) = Some t -> sql_rep s m ->
  (keyed (tb_meta t) /\ view_holds unmarshalEntry abs_path good (meta_view (tb_meta t)) m') ->
  written sql_rep m m' (on_sql dl what (sql_exec None st args) s) /\
  fst (on_sql dl what (sql_exec None st args) s) <> Fail ErrNotFound.
Proof.
  intros Hd Ht (d0 & Hd0 & Hk & Hv) [Hk' Hv']. rewrite Hd in Hd0. injection Hd0 as <-.
  unfold on_sql. rewrite Hd. pose proof (sql_exec_law id like st args t d Ht) as Hl. unfold written.
  destruct (sql_exec None st args d) as [[u|msg|] d']; cbn; [| |done]; (split; [|done]).
  - exists d'. by rewrite Hl.
  - destruct Hl as [E|E]; [left|right]; exists d'; by rewrite E.
Qed.

Lemma upsert_meta_view (t : gmap (Z * string * string) meta_row) dir name data :
  keyed t ->
  keyed (upsert_meta id (mkMeta (dirHash dir) dir name data) t) /\
  forall d n, meta_view (upsert_meta id (mkMeta (dirHash dir) dir name data) t) d n =
    if decide ((dir, name) = (d, n)) then Some data else meta_view t d n.
Proof.
  intros Hk. unfold upsert_meta. change (meta_key id (mkMeta (dirHash dir) dir name data)) with (dirHash dir, dir, name). cbn [mr_meta]. split.
  - apply map_Forall_insert_2; [|done]. destruct (t !! (dirHash dir, dir, name)) as [old|] eqn:E; [|done].
    apply Hk in E. exact E.
  - intros d n. unfold meta_view. rewrite lookup_insert. destruct (decide ((dir, name) = (d, n))) as [[= <- <-]|Hne].
    + rewrite decide_True by done. by destruct (t !! _).
    + rewrite decide_False; [done|]. congruence.
Qed.

Lemma upsert_entry_written s m e :
  sql_rep s m -> abs_path (e_FullPath e) -> good e -> written sql_rep m (<[e_FullPath e := e]> m) (upsertEntry dl marshalEntry None e s).
Proof.
  intros Hr Hp Hg. pose proof Hr as (d & Hd & Hk & Hv). unfold upsertEntry. rewrite (sql_ready_bind _ s d) by done.
  destruct (DirAndName (e_FullPath e)) as [dir name] eqn:E.
  destruct (marshalEntry e) as [data|msg|] eqn:Em; [|left; exact Hr|by apply Hmarshal in Em].
  destruct (upsert_meta_view (tb_meta (contents d)) dir name data Hk) as [Hk' Hview].
  eapply exec_written; [done|reflexivity|done|]. split; [done|]. cbn. eapply view_put; [exact Hv|done..|by eapply Hjson|].
  intros d' n' _. by rewrite Hview, E.
Qed.

(** The row of a name. *)
Lemma by_name_eval r dir name :
  eval_where id like [VInt (dirHash dir); VText dir; VText name] by_name (meta_field r) = true <->
  meta_key id r = (dirHash dir, dir, name).
Proof.
  cbn. unfold eval_cond. cbn. rewrite andb_true_r, !andb_true_iff, !bool_decide_eq_true. unfold meta_key, id.
  split; [by intros (-> & -> & ->)|by intros [= -> -> ->]].
Qed.

Lemma delete_meta_view (t : gmap (Z * string * string) meta_row) (P : meta_row -> bool) :
  keyed t -> keyed (filter (fun kr => P (snd kr) = false) t).
Proof. intros Hk k r [Hr _]%map_lookup_filter_Some. by apply Hk. Qed.

Lemma DeleteEntry_written s m p :
  sql_rep s m -> abs_path p ->
  written sql_rep m (delete p m) (sql_DeleteEntry dl None p s) /\ fst (sql_DeleteEntry dl None p s) <> Fail ErrNotFound.
Proof.
  intros Hr Hp. pose proof Hr as (d & Hd & Hk & Hv). unfold sql_DeleteEntry. rewrite (sql_ready_bind _ s d) by done.
  destruct (DirAndName p) as [dir name] eqn:E. eapply exec_written; [done|reflexivity|done|].
  split; [by apply (delete_meta_view _ (fun r => eval_where id like _ by_name (meta_field r)))|]. cbn [tb_meta].
  eapply view_delete; [done|exact Hv|done|]. intros d' n' _. rewrite E. unfold meta_view.
  destruct (decide ((dir, name) = (d', n'))) as [[= <- <-]|Hne].
  - rewrite (proj2 (map_lookup_filter_None _ _ _)); [done|]. right. intros r Er. cbn [snd].
    rewrite (proj2 (by_name_eval r dir name)); [done|by apply Hk in Er].
  - f_equal. destruct (tb_meta (contents d) !! _) as [r|] eqn:Er; [|by apply map_lookup_filter_None; left].
    apply map_lookup_filter_Some. split; [done|]. cbn [snd]. apply not_true_is_false. rewrite by_name_eval. apply Hk in Er. rewrite Er. congruence.
Qed.

(** A query that one row can answer. *)
Lemma one_row {A K} `{Countable K} (field : A -> sql_col -> option sql_val) (t : gmap K A) (k : K) cols w args l :
  (forall k' r, t !! k' = Some r -> eval_where id like args w (field r) = true <-> k' = k) ->
  selected id like field (map_to_list t).*2 cols w None None args l ->
  l = match t !! k with Some r => [omap (field r) cols] | None => [] end.
Proof.
  intros Hk (sel & Hsel & _ & ->). cbn [limit_rows].
  assert (forall t' : gmap K A, t' ⊆ t -> t' !! k = None ->
    filter (fun r => eval_where id like args w (field r) = true) (map_to_list t').*2 = []) as Hnone.
  { intros t' Hsub Hn. apply elem_of_nil_inv. intros r [He ([k' r'] & -> & Hin%elem_of_map_to_list)%list_elem_of_fmap]%list_elem_of_filter.
    cbn [snd] in He. rewrite (Hk k' r') in He; [congruence|]. by eapply lookup_weaken. }
  destruct (t !! k) as [r|] eqn:E.
  - enough (sel ≡ₚ [r]) as ->%Permutation_singleton_r by done. rewrite Hsel. rewrite <- (insert_delete_id t k r) by done.
    rewrite map_to_list_insert by apply lookup_delete_eq. cbn [fmap list_fmap snd]. rewrite filter_cons, decide_True by by apply (Hk _ _ E).
    rewrite Hnone; [done|apply delete_subseteq|apply lookup_delete_eq].
  - rewrite Hnone in Hsel by done. by apply Permutation_nil_r in Hsel as ->.
Qed.

Lemma query_row_law what t cols w args s d :
  q_db s = Some d ->
  exists d', contents d' = contents d /\ snd (query_row dl what None (Select t cols w None None) args s) = mkSqlStore (Some d') /\
    match fst (query_row dl what None (Select t cols w None None) args s) with
    | Ret data => exists rest, answers id like (Select t cols w None None) args (contents d) ([VBlob data] :: rest)
    | Fail ErrNotFound => answers id like (Select t cols w None None) args (contents d) []
    | Fail (ErrOther _) => True
    | Panic => False
    end.
Proof.
  intros Hd. unfold query_row, mbind, GoM_bind, on_sql. rewrite Hd.
  pose proof (sql_query_law id like t cols w None None args d) as Hl.
  destruct (sql_query None _ args d) as [[[l err]|msg|] d']; [|by exists d'|done].
  destruct Hl as (Ec & rest & Ha & Hr). exists d'. split; [done|].
  destruct l as [|[|[| |data] []] l]; cbn; try done; [|split; [done|]; by exists (l ++ rest)%list].
  destruct err as [msg|]; cbn; [done|]. by rewrite Hr in Ha.
Qed.

Lemma sql_FindEntry_spec s m p :
  sql_rep s m -> abs_path p ->
  sql_rep (snd (sql_FindEntry dl unmarshalEntry None p s)) m /\
  match fst (sql_FindEntry dl unmarshalEntry None p s) with
  | Ret e => m !! p = Some e
  | Fail ErrNotFound => m !! p = None
  | Fail (ErrOther _) => True
  | Panic => False
  end.
Proof.
  intros (d & Hd & Hk & Hv) Hp. unfold sql_FindEntry. rewrite (sql_ready_bind _ s d) by done.
  destruct (DirAndName p) as [dir name] eqn:E.
  pose proof (view_find _ _ _ (fun _ H => H) abs_path_dir _ _ _ _ _ Hv Hp E) as Hf. unfold meta_view in Hf.
  set (args := [VInt _; VText _; VText _]).
  destruct (query_row_law "find entry" filer_meta [c_meta] by_name args s d Hd) as (d' & Ec & Hs & Hres).
  assert (sql_rep (mkSqlStore (Some d')) m) as Hr' by (eapply rep_tables; [by rewrite Ec|done..]).
  assert (forall l, answers id like (Select filer_meta [c_meta] by_name None None) args (contents d) l ->
    l = match tb_meta (contents d) !! (dirHash dir, dir, name) with Some r => [[VBlob (mr_meta r)]] | None => [] end) as Hone.
  { intros l Ha. apply (one_row meta_field _ (dirHash dir, dir, name)) in Ha; [exact Ha|].
    intros k' r Er. unfold args. rewrite by_name_eval. apply Hk in Er. by rewrite Er. }
  unfold mbind, GoM_bind. destruct (query_row _ _ _ _ _ s) as [[data|[|msg]|] s']; cbn in Hs, Hres; subst s'; [| |done|done].
  - destruct Hres as [rest Ha%Hone]. destruct (tb_meta (contents d) !! _) as [r|]; [|done]. injection Ha as -> ->.
    destruct Hf as (e & -> & Hm). done.
  - apply Hone in Hres. destruct (tb_meta (contents d) !! _) as [r|]; [done|]. done.
Qed.

Lemma sql_listEntries_law s m T dir start incl limit prefix (fn : Entry -> T -> bool * T) acc :
  sql_rep s m -> abs_path dir -> plain_text prefix -> 0 < limit ->
  let '(r, acc', s') := sql_listEntries dl unmarshalEntry None dir start incl limit prefix fn acc s in
  sql_rep s' m /\
  match r with
  | Ret last => exists l, listed m dir start incl prefix l /\ deliver (Z.to_nat limit) fn l acc "" = (last, acc')
  | Fail _ => True
  | Panic => False
  end.
Proof.
  intros (d & Hd & Hk & Hv) Hdir Hp Hlim. unfold sql_listEntries.
  assert (dl_list_query dl (dirHash dir) dir start incl limit prefix = mysql_list_query (dirHash dir) dir start incl limit prefix) as ->.
  { destruct Hdl as [->| ->]; [done|apply same_list_query]. }
  destruct (list_query_spec like Hlike (dirHash dir) dir start incl limit prefix Hlim Hp) as (w & lim & args & -> & Htake & Hw).
  rewrite (sql_ready_bind _ s d) by done. unfold on_sql. rewrite Hd.
  pose proof (sql_query_law id like filer_meta [c_name; c_meta] w (Some c_name) lim args d) as Hl.
  destruct (sql_query None _ args d) as [[[l err]|msg|] d']; [|by split; [eapply rep_tables; [by rewrite Hl|done..]|]|done].
  destruct Hl as (Ec & rest & (sel & Hsel & Hsort & Hrows) & Hrest). rewrite Htake in Hrows.
  assert (sql_rep (mkSqlStore (Some d')) m) as Hr' by (eapply rep_tables; [by rewrite Ec|done..]).
  destruct (view_listed _ _ _ (fun _ H => H) abs_path_dir _ m dir start incl prefix (row_pair <$> sel) Hv Hdir) as (lx & Hlx & Hlisted).
  { apply sorted_strict.
    - clear Hrows Hsel. induction Hsort as [|r sel Hs IH Hall]; cbn; constructor; [done|]. apply Forall_fmap.
      eapply Forall_impl; [exact Hall|]. intros r'. done.
    - rewrite <- list_fmap_compose. change (fst ∘ row_pair) with mr_name. rewrite Hsel. eapply names_NoDup; [exact Hk|].
      intros r [-> [-> _]]%Hw. done. }
  { intros n v. rewrite list_elem_of_fmap. setoid_rewrite Hsel. setoid_rewrite list_elem_of_filter. setoid_rewrite Hw.
    setoid_rewrite list_elem_of_fmap. unfold meta_view. split.
    - intros (r & [= -> ->] & (Hh & Hd' & Hpre & Hfs) & ([k r'] & -> & Hin%elem_of_map_to_list)). cbn in *.
      split_and!; [|done..]. pose proof (Hk _ _ Hin) as Ek. unfold meta_key, id in Ek. rewrite Hh, Hd' in Ek. by rewrite Ek, Hin.
    - intros ((r & Er & ->)%fmap_Some_1 & Hpre & Hfs). pose proof (Hk _ _ Er) as Ek. unfold meta_key, id in Ek. injection Ek as Eh Ed En.
      exists r. unfold row_pair. rewrite En. split; [done|]. split; [done|]. eexists (_, r). split; [done|]. by apply elem_of_map_to_list. }
  assert (l ++ rest = row_val <$> take (Z.to_nat limit) (row_pair <$> sel))%list as Hrows'.
  { rewrite Hrows, <- fmap_take, <- list_fmap_compose. done. }
  symmetry in Hrows'. apply fmap_app_inv in Hrows' as (pl & prest & -> & -> & Htk).
  pose proof (Forall2_take _ _ _ (Z.to_nat limit) Hlx) as Hlt. rewrite Htk in Hlt.
  pose proof (rows_loop_deliver dl unmarshalEntry fn pl prest _ err "" acc Hlt) as Hloop.
  destruct (rows_loop _ _ _ _ _ _ _) as [r acc']. split; [done|]. specialize (Hloop ltac:(intros ->; by eapply fmap_nil_inv, Hrest)).
  destruct r as [last| |]; [|done..]. exists lx. split; [done|]. by rewrite deliver_take.
Qed.

(** The entries below a folder whose name has no special characters. *)
Lemma sql_DeleteFolderChildren_spec s m fp :
  sql_rep s m -> plain_text fp ->
  written sql_rep m (filter (fun kv => under fp (fst (DirAndName (fst kv))) = false) m) (sql_DeleteFolderChildren dl None fp s).
Proof.
  intros Hr Hp. pose proof Hr as (d & Hd & Hk & Hv). unfold sql_DeleteFolderChildren. rewrite (sql_ready_bind _ s d) by done.
  set (w := AnyOf _). set (args := [VText fp; _]).
  assert (forall r, eval_where id like args w (meta_field r) = under fp (mr_dir r)) as Hw.
  { intros r. unfold under. cbn. unfold eval_cond. cbn. rewrite orb_false_r. unfold id. f_equal.
    rewrite Hlike; [done|]. destruct (HasSuffix fp "/"); [done|]. unfold plain_text. rewrite chars_append. apply Forall_app_2; [done|].
    constructor; [|constructor]. set_solver. }
  eapply exec_written; [done|reflexivity|done|]. cbn [tb_meta].
  split; [by apply (delete_meta_view _ (fun r => eval_where id like args w (meta_field r)))|].
  eapply view_filter; [exact Hv|]. intros dir name _. unfold meta_view.
  destruct (tb_meta (contents d) !! (dirHash dir, dir, name)) as [r|] eqn:Er.
  - pose proof (Hk _ _ Er) as Ek. unfold meta_key, id in Ek. injection Ek as _ Ed _. destruct (under fp dir) eqn:Eu.
    + rewrite (proj2 (map_lookup_filter_None _ _ _)); [done|]. right. intros r' Er'. cbn [snd]. rewrite Er in Er'. injection Er' as <-. rewrite Hw. congruence.
    + rewrite (proj2 (map_lookup_filter_Some _ _ _ r)); [done|]. split; [done|]. cbn [snd]. by rewrite Hw, Ed.
  - rewrite (proj2 (map_lookup_filter_None _ _ _)); [by destruct (under fp dir)|by left].
Qed.

(** ** The key-value part *)

Definition sql_kv_rep (s : SqlStore D) (m : gmap string string) : Prop :=
  exists d, q_db s = Some d /\ map_Forall (fun k r => kr_k r = k) (tb_kv (contents d)) /\
    forall k, kr_v <$> tb_kv (contents d) !! hex_key k = m !! k.

Lemma by_key_eval r k : eval_where id like [VText k] by_key (kv_field r) = true <-> kr_k r = k.
Proof. cbn. unfold eval_cond. cbn. rewrite andb_true_r, bool_decide_eq_true. done. Qed.

(** A statement on the keys and values: what it makes of them, and that the entries stay. *)
Lemma kv_exec what st args t s d (m m' : gmap string string) :
  q_db s = Some d -> run_stmt id like st args (contents d) = Some (mkTables (tb_meta (contents d)) t) ->
  (sql_kv_rep s m -> map_Forall (fun k r => kr_k r = k) t /\ forall k, kr_v <$> t !! hex_key k = m' !! k) ->
  (sql_kv_rep s m -> written sql_kv_rep m m' (on_sql dl what (sql_exec None st args) s)) /\
  forall e, sql_rep s e -> sql_rep (snd (on_sql dl what (sql_exec None st args) s)) e.
Proof.
  intros Hd Ht Hm'. unfold on_sql. rewrite Hd. pose proof (sql_exec_law id like st args _ d Ht) as Hl. unfold written.
  split.
  - intros Hr. pose proof (Hm' Hr) as [H1 H2]. destruct Hr as (d0 & Hd0 & Hk & Hm). rewrite Hd in Hd0. injection Hd0 as <-.
    destruct (sql_exec None st args d) as [[u|msg|] d']; cbn; [| |done]; [exists d'; by rewrite Hl|].
    destruct Hl as [E|E]; [left|right]; exists d'; by rewrite E.
  - intros e (d0 & Hd0 & Hk & Hv). rewrite Hd in Hd0. injection Hd0 as <-.
    assert (tb_meta (contents (snd (sql_exec None st args d))) = tb_meta (contents d)) as E.
    { destruct (sql_exec None st args d) as [[u|msg|] d']; cbn in *; [by rewrite Hl|by destruct Hl as [->| ->]|done]. }
    destruct (sql_exec None st args d) as [r d']. by eapply rep_tables.
Qed.

Lemma sql_KvPut_spec k v s d m :
  q_db s = Some d ->
  (sql_kv_rep s m -> written sql_kv_rep m (<[k := v]> m) (sql_KvPut dl None k v s)) /\
  forall e, sql_rep s e -> sql_rep (snd (sql_KvPut dl None k v s)) e.
Proof.
  intros Hd. unfold sql_KvPut. rewrite (sql_ready_bind _ s d) by done.
  destruct (match dl_maxKVKeyHexLen dl with Some _ => _ | None => _ end); [by split; [intros Hr; left|]|].
  eapply kv_exec; [done|reflexivity|]. intros (d0 & Hd0 & Hk & Hm). rewrite Hd in Hd0. injection Hd0 as <-. unfold upsert_kv. cbn. split.
  - apply map_Forall_insert_2; [|done]. unfold id. destruct (tb_kv (contents d) !! hex_key k) as [old|] eqn:E; [|done]. by apply Hk in E.
  - intros k'. unfold id. rewrite !lookup_insert. destruct (decide (k = k')) as [<-|Hne].
    + rewrite !decide_True by done. by destruct (tb_kv (contents d) !! hex_key k).
    + rewrite !decide_False by (done || by intros ?%hex_key_inj). apply Hm.
Qed.

Lemma sql_KvDelete_spec k s d m :
  q_db s = Some d ->
  (sql_kv_rep s m -> written sql_kv_rep m (delete k m) (sql_KvDelete dl None k s)) /\
  forall e, sql_rep s e -> sql_rep (snd (sql_KvDelete dl None k s)) e.
Proof.
  intros Hd. unfold sql_KvDelete. rewrite (sql_ready_bind _ s d) by done.
  eapply kv_exec; [done|reflexivity|]. intros (d0 & Hd0 & Hk & Hm). rewrite Hd in Hd0. injection Hd0 as <-. split.
  - intros k' r [Hr _]%map_lookup_filter_Some. by apply Hk.
  - intros k'. rewrite lookup_delete, <- Hm. destruct (decide (k = k')) as [<-|Hne].
    + rewrite (proj2 (map_lookup_filter_None _ _ _)); [done|]. right. intros r Er. cbn [snd].
      rewrite (proj2 (by_key_eval r _)); [done|by apply Hk in Er].
    + f_equal. destruct (tb_kv (contents d) !! hex_key k') as [r|] eqn:Er; [|by apply map_lookup_filter_None; left].
      apply map_lookup_filter_Some. split; [done|]. cbn [snd]. apply not_true_is_false. rewrite by_key_eval. apply Hk in Er. rewrite Er.
      by intros ?%hex_key_inj.
Qed.

Lemma sql_KvGet_spec k s d :
  q_db s = Some d ->
  exists d', contents d' = contents d /\ snd (sql_KvGet dl None k s) = mkSqlStore (Some d') /\
    forall m, sql_kv_rep s m ->
      match fst (sql_KvGet dl None k s) with
      | Ret v => m !! k = Some v
      | Fail ErrNotFound => m !! k = None
      | Fail (ErrOther _) => True
      | Panic => False
      end.
Proof.
  intros Hd. unfold sql_KvGet. rewrite (sql_ready_bind _ s d) by done.
  destruct (query_row_law "kv get" filer_kv [c_v] by_key [VText (hex_key k)] s d Hd) as (d' & Ec & Hs & Hres).
  exists d'. split; [done|]. split; [done|]. intros m (d0 & Hd0 & Hk & Hm). rewrite Hd in Hd0. injection Hd0 as <-.
  assert (forall l, answers id like (Select filer_kv [c_v] by_key None None) [VText (hex_key k)] (contents d) l ->
    l = match tb_kv (contents d) !! hex_key k with Some r => [[VBlob (kr_v r)]] | None => [] end) as Hone.
  { intros l Ha. apply (one_row kv_field _ (hex_key k)) in Ha; [exact Ha|]. intros k' r Er. rewrite by_key_eval. apply Hk in Er. by rewrite Er. }
  destruct (query_row _ _ _ _ _ s) as [[data|[|msg]|] s']; cbn in *; [..|done|done]; rewrite <- Hm.
  - destruct Hres as [rest Ha%Hone]. destruct (tb_kv (contents d) !! hex_key k) as [r|]; [|done]. by injection Ha as -> ->.
  - apply Hone in Hres. by destruct (tb_kv (contents d) !! hex_key k).
Qed.

Lemma sql_filer_laws : @FilerLaws (SqlStore D) (sql_store dl marshalEntry unmarshalEntry) abs_path good sql_rep.
Proof.
  split; cbn.
  - done.
  - apply abs_path_dir.
  - intros s m p e (d & _ & _ & Hm & _) Hp. by apply Hm in Hp.
  - intros s m e. apply upsert_entry_written.
  - intros s m e. apply upsert_entry_written.
  - intros s m p. apply sql_FindEntry_spec.
  - intros s m p Hr Hp. by apply DeleteEntry_written.
  - intros s m p Hr Hp Hf. by destruct (proj2 (DeleteEntry_written s m p Hr Hp)).
  - intros s m T dir start incl limit fn acc Hr Hd Hl. apply sql_listEntries_law; [done..|constructor|done].
  - intros s m k Hr. destruct Hr as (d & Hd & Hk & Hv). destruct (sql_KvGet_spec k s d Hd) as (d' & Ec & -> & _).
    by eapply rep_tables; [rewrite Ec|..].
  - intros s m k v Hr. pose proof Hr as (d & Hd & _). by eapply (proj2 (sql_KvPut_spec k v s d ∅ Hd)).
  - intros s m k Hr. pose proof Hr as (d & Hd & _). by eapply (proj2 (sql_KvDelete_spec k s d ∅ Hd)).
Qed.

Lemma sql_prefix_laws : @PrefixLaws (SqlStore D) (sql_store dl marshalEntry unmarshalEntry) abs_path plain_text sql_rep.
Proof. split. intros s m T dir start incl limit prefix fn acc. apply sql_listEntries_law. Qed.

Lemma sql_kv_laws : @KvLaws (SqlStore D) (sql_kv dl) sql_kv_rep.
Proof.
  split; cbn.
  - intros s m k Hr. pose proof Hr as (d & Hd & Hk & Hm). destruct (sql_KvGet_spec k s d Hd) as (d' & Ec & -> & Hres).
    split; [exists d'; by rewrite Ec|by apply Hres].
  - intros s m k v Hr. pose proof Hr as (d & Hd & _). by apply (proj1 (sql_KvPut_spec k v s d m Hd)).
  - intros s m k Hr. pose proof Hr as (d & Hd & _). by apply (proj1 (sql_KvDelete_spec k s d m Hd)).
Qed.
End laws.

(** ** A database in memory *)

(** [LIKE] on ASCII text: [%] stands for any text, [_] for one character. *)
Fixpoint like_match (p : list ascii) : list ascii -> bool :=
  match p with
  | [] => fun s => bool_decide (s = [])
  | c :: p =>
      let rest := like_match p in
      if decide (c = "%"%char) then fix any s := rest s || match s with [] => false | _ :: s => any s end
      else if decide (c = "_"%char) then fun s => match s with [] => false | _ :: s => rest s end
      else if decide (c = "\"%char) then
        match p with
        | [] => fun s => bool_decide (s = ["\"%char])
        | d :: p => fun s => match s with [] => false | d' :: s => bool_decide (d = d') && like_match p s end
        end
      else fun s => match s with [] => false | d :: s => bool_decide (c = d) && rest s end
  end.

Definition like_ascii (p s : string) : bool := like_match (chars p) (chars s).

Lemma like_any s : like_match ["%"%char] s = true.
Proof.
  induction s as [|c s IH]; [reflexivity|].
  change (like_match ["%"%char] (c :: s)) with (bool_decide (c :: s = []) || like_match ["%"%char] s). by rewrite IH.
Qed.

Lemma like_ascii_prefix p s : plain_text p -> like_ascii (p +:+ "%") s = HasPrefix s p.
Proof.
  unfold like_ascii, HasPrefix, plain_text. rewrite chars_append. revert s.
  induction p as [|c p IH]; intros s Hp; [rewrite like_any; by destruct s|].
  apply Forall_cons in Hp as [Hc Hp]. cbn. rewrite !decide_False by (intros ->; set_solver).
  destruct s as [|d s]; [done|]. cbn. rewrite IH by done. destruct (ascii_dec c d) as [->|Hne]; [by rewrite bool_decide_true|].
  by rewrite bool_decide_false.
Qed.

#[export] Instance col_le_dec ckey {A} (field : A -> sql_col -> option sql_val) o : RelDecision (col_le ckey field o).
Proof. intros x y. unfold col_le. destruct o; [repeat case_match|]; apply _. Defined.

(** The fields of a column have the same type in every row. *)
Lemma col_le_trans ckey {A} (field : A -> sql_col -> option sql_val) o :
  (forall x y c, match field x c with Some (VText _) => true | _ => false end = match field y c with Some (VText _) => true | _ => false end) ->
  Transitive (col_le ckey field o).
Proof.
  intros Hf x y z. unfold col_le. destruct o as [c|]; [|done]. pose proof (Hf x y c). pose proof (Hf y z c).
  destruct (field x c) as [[]|], (field y c) as [[]|], (field z c) as [[]|]; try done. apply transitivity.
Qed.

Lemma col_le_total ckey {A} (field : A -> sql_col -> option sql_val) o : Total (col_le ckey field o).
Proof.
  intros x y. unfold col_le. destruct o as [c|]; [|by left]. destruct (field x c) as [[]|], (field y c) as [[]|]; try by left. apply (total String.le).
Qed.

Definition select_from ckey like {A} (field : A -> sql_col -> option sql_val) (rows : list A) (cols : list sql_col) (w : sql_where)
    (order : option sql_col) (limit : option nat) (args : list sql_val) : list (list sql_val) :=
  (fun r => omap (field r) cols) <$>
    limit_rows args limit (merge_sort (col_le ckey field order) (filter (fun r => eval_where ckey like args w (field r) = true) rows)).

Definition mem_sql (ckey : string -> string) (like : string -> string -> bool) : SqlDb sql_tables := {|
  sql_set _ t := t;
  sql_ping t := (Ret tt, t);
  sql_exec _ st args t := match run_stmt ckey like st args t with Some t' => (Ret tt, t') | None => (Fail "syntax error", t) end;
  sql_query _ st args t :=
    match st with
    | Select filer_meta cols w order limit => (Ret (select_from ckey like meta_field (map_to_list (tb_meta t)).*2 cols w order limit args, None), t)
    | Select filer_kv cols w order limit => (Ret (select_from ckey like kv_field (map_to_list (tb_kv t)).*2 cols w order limit args, None), t)
    | _ => (Fail "syntax error", t)
    end;
  sql_begin t := (Ret 0, t);
  sql_commit _ t := (Ret tt, t);
  sql_rollback _ t := (Ret tt, t);
|}.

Lemma select_from_selected ckey like {A} (field : A -> sql_col -> option sql_val) rows cols w order limit args :
  (forall x y c, match field x c with Some (VText _) => true | _ => false end = match field y c with Some (VText _) => true | _ => false end) ->
  selected ckey like field rows cols w order limit args (select_from ckey like field rows cols w order limit args).
Proof.
  intros Hf. pose proof (col_le_trans ckey field order Hf). pose proof (col_le_total ckey field order).
  eexists. split; [|split; [|reflexivity]]; [apply (merge_sort_Permutation (col_le ckey field order))|].
  apply (StronglySorted_merge_sort (col_le ckey field order)).
Qed.

Lemma mem_sql_laws ckey like : @SqlLaws ckey like sql_tables (mem_sql ckey like) id.
Proof.
  split; unfold id; cbn.
  - intros st args t d Hrun. by rewrite Hrun.
  - intros [] cols w order limit args d; (split; [done|]); exists []; (split; [|done]); rewrite app_nil_r; apply select_from_selected; by intros ?? [].
  - done.
  - done.
Qed.

(** ** Where the stores differ from a map *)

(** A codec that keeps the path of an entry. *)
Definition path_marshal (e : Entry) : outcome string string := Ret (e_FullPath e).
Definition path_unmarshal (d : string) : outcome string Entry := Ret (plain_entry d zero_attr).

Definition empty_tables : SqlStore sql_tables := mkSqlStore (Some (mkTables ∅ ∅)).

Definition insert_paths (dl : dialect) (ckey : string -> string) (ps : list string) : SqlStore sql_tables :=
  fold_left (fun s p => snd (@upsertEntry _ (mem_sql ckey like_ascii) dl path_marshal None (plain_entry p zero_attr) s)) ps empty_tables.

(** With the collation that the code asks MySQL for, which ignores case, two files whose
    names differ in case are one row: the first name finds the second file. *)
Theorem mysql_names_collide :
  fst (@sql_FindEntry _ (mem_sql ToLower like_ascii) mysql2 path_unmarshal None "/d/README" (insert_paths mysql2 ToLower ["/d/README"; "/d/readme"])) =
    Ret (plain_entry "/d/readme" zero_attr).
Proof. vm_compute. reflexivity. Qed.

(** The name of a folder is a pattern of [LIKE]: deleting the children of [/a_b] deletes
    those below [/axb] too. *)
Theorem folder_name_is_pattern :
  let s := insert_paths postgres2 id ["/a_b/f"; "/axb/sub/g"] in
  let '(r, s') := @sql_DeleteFolderChildren _ (mem_sql id like_ascii) postgres2 None "/a_b" s in
  fst (@sql_FindEntry _ (mem_sql id like_ascii) postgres2 path_unmarshal None "/axb/sub/g" s) = Ret (plain_entry "/axb/sub/g" zero_attr) /\
  r = Ret tt /\ fst (@sql_FindEntry _ (mem_sql id like_ascii) postgres2 path_unmarshal None "/axb/sub/g" s') = Fail ErrNotFound.
Proof. vm_compute. repeat split. Qed.
