(* ===== verification/CassandraStore.v ===== *)
(** * CassandraStore: the store on Cassandra, and the choice of a store

    Models [goblob/filer/cassandra/cassandra_store.go] and
    [goblob/filer/storeloader/store_loader.go].  Cassandra and the JSON text of an entry are
    parameters: the laws say what a statement does to the three tables, for one client
    whose writes take effect in order. *)

From stdpp Require Import sorting.
From Stdlib Require Import Sorting.Sorted.
From S2P Require Import Prelude GoStrings GoPath FilerStore GoText StoreView LevelDbStore RedisStore SqlStore.

#[local] Open Scope Z_scope.
#[local] Open Scope string_scope.

(** ** Cassandra *)

Inductive cql_stmt :=
| CreateKeyspace (name : string)
| CreateMeta
| CreateKv
| CreateDirs
| InsertMeta (dir name meta : string)
| DeleteMeta (dir name : string)
| DeleteMetaDir (dir : string)
| InsertDir (dir : string)
| DeleteDir (dir : string)
| InsertKv (k v : string)
| DeleteKv (k : string).

(** [gocql.ErrNotFound], or another error. *)
Inductive cql_err := CqlNotFound | CqlError (msg : string).

(** An iterator gives the rows it came to and the error of its [Close]. *)
Class Cql (C : Type) := {
  cql_exec : cql_stmt -> GoM C string unit;
  cql_meta : string -> string -> GoM C cql_err string;
  cql_dir : string -> C -> list (string * string) * option string * C;
  cql_dirs : C -> list string * option string * C;
  cql_kv : string -> GoM C cql_err string;
}.

Record cql_tables := mkCqlTables {
  ct_meta : gmap (string * string) string;
  ct_dirs : gset string;
  ct_kv : gmap string string;
}.

Definition run_cql (st : cql_stmt) (t : cql_tables) : cql_tables :=
  match st with
  | CreateKeyspace _ | CreateMeta | CreateKv | CreateDirs => t
  | InsertMeta d n m => mkCqlTables (<[(d, n) := m]> (ct_meta t)) (ct_dirs t) (ct_kv t)
  | DeleteMeta d n => mkCqlTables (delete (d, n) (ct_meta t)) (ct_dirs t) (ct_kv t)
  | DeleteMetaDir d => mkCqlTables (filter (fun kv => fst (fst kv) <> d) (ct_meta t)) (ct_dirs t) (ct_kv t)
  | InsertDir d => mkCqlTables (ct_meta t) ({[d]} ∪ ct_dirs t) (ct_kv t)
  | DeleteDir d => mkCqlTables (ct_meta t) (ct_dirs t ∖ {[d]}) (ct_kv t)
  | InsertKv k v => mkCqlTables (ct_meta t) (ct_dirs t) (<[k := v]> (ct_kv t))
  | DeleteKv k => mkCqlTables (ct_meta t) (ct_dirs t) (delete k (ct_kv t))
  end.

(** The answer of a query for one value. *)
Definition one_value {C} (contents : C -> cql_tables) (c : C) (v : option string) (r : outcome cql_err string * C) : Prop :=
  contents (snd r) = contents c /\
  match fst r with
  | Ret x => v = Some x
  | Fail CqlNotFound => v = None
  | Fail (CqlError _) => True
  | Panic => False
  end.

(** A statement happens entirely or not at all; an iteration may break off. *)
Class CqlLaws (C : Type) `{Cql C} (contents : C -> cql_tables) : Prop := {
  cql_exec_law st c :
    match cql_exec st c with
    | (Ret _, c') => contents c' = run_cql st (contents c)
    | (Fail _, c') => contents c' = contents c \/ contents c' = run_cql st (contents c)
    | (Panic, _) => False
    end;
  cql_meta_law d n c : one_value contents c (ct_meta (contents c) !! (d, n)) (cql_meta d n c);
  cql_dir_law d c : let '(l, e, c') := cql_dir d c in contents c' = contents c /\
    (e = None -> NoDup (fst <$> l) /\ forall n v, (n, v) ∈ l <-> ct_meta (contents c) !! (d, n) = Some v);
  cql_dirs_law c : let '(l, e, c') := cql_dirs c in contents c' = contents c /\
    (e = None -> forall d, d ∈ l <-> d ∈ ct_dirs (contents c));
  cql_kv_law k c : one_value contents c (ct_kv (contents c) !! k) (cql_kv k c);
}.

(** ** The store *)

Record CassandraStore (C : Type) := mkCassandraStore { cs_session : option C; cs_keyspace : string }.
Arguments mkCassandraStore {C}.
Arguments cs_session {C}.
Arguments cs_keyspace {C}.

Definition parseHosts (raw : string) : list string :=
  filter (fun h => h <> "") (TrimSpace <$> Split ","%char raw).

Definition identifier_char (c : ascii) : bool :=
  let z := code c in bool_decide (97 <= z <= 122 \/ 65 <= z <= 90 \/ 48 <= z <= 57 \/ c = "_"%char).

Definition sanitizeIdentifier (name : string) : string :=
  let name := TrimSpace name in
  if decide (name = "") then "goblob" else if forallb identifier_char (chars name) then name else "goblob".

(** The user and the password, when there is a user. *)
Definition applyAuth (config : gmap string string) (prefix : string) : option (string * string) :=
  let username := TrimSpace (config_get config (prefix +:+ "username")) in
  if decide (username = "") then None else Some (username, config_get config (prefix +:+ "password")).

Section store.
Context {C : Type} `{Cql C}.
Context (marshalEntry : Entry -> outcome string string) (unmarshalEntry : string -> outcome string Entry).

Abbreviation cqlM := (GoM (CassandraStore C) store_err).

Fixpoint cql_ensureSchema (stmts : list cql_stmt) : GoM C string unit :=
  match stmts with
  | [] => mret tt
  | st :: stmts => cql_exec st;; cql_ensureSchema stmts
  end.

(** [connect] is [CreateSession] for hosts, a port, the authentication and a keyspace, which
    the first session does not have. *)
Definition cassandra_Initialize (connect : list string -> Z -> option (string * string) -> option string -> outcome string C)
    (config : gmap string string) (prefix : string) : GoM (CassandraStore C) string unit := fun s =>
  let hosts := parseHosts (config_get config (prefix +:+ "hosts")) in
  let hosts := if decide (hosts = []) then ["127.0.0.1"] else hosts in
  let port := parseIntOrDefault (config_get config (prefix +:+ "port")) 9042 in
  let keyspace := trimmed_or "goblob" (config_get config (prefix +:+ "keyspace")) in
  let auth := applyAuth config prefix in
  match connect hosts port auth None with
  | Panic => (Panic, s)
  | Fail e => (Fail ("cassandra: connect bootstrap: " +:+ e), s)
  | Ret bootstrap =>
      match cql_exec (CreateKeyspace (sanitizeIdentifier keyspace)) bootstrap with
      | (Panic, _) => (Panic, s)
      | (Fail e, _) => (Fail ("cassandra: create keyspace: " +:+ e), s)
      | (Ret _, _) =>
          match connect hosts port auth (Some keyspace) with
          | Panic => (Panic, s)
          | Fail e => (Fail ("cassandra: connect keyspace: " +:+ e), s)
          | Ret session =>
              match cql_ensureSchema [CreateMeta; CreateKv; CreateDirs] session with
              | (Panic, _) => (Panic, s)
              | (Fail e, _) => (Fail ("cassandra: ensure schema: " +:+ e), s)
              | (Ret _, session) => (Ret tt, mkCassandraStore (Some session) keyspace)
              end
          end
      end
  end.

Definition cassandra_ensureReady : cqlM unit := fun s =>
  match cs_session s with
  | None => (Fail (ErrOther "cassandra: store not initialized"), s)
  | Some _ => (Ret tt, s)
  end.

(** A call of the session; [None] of the error function is [filer.ErrNotFound]. *)
Definition on_cql {E A} (err : E -> store_err) (call : GoM C E A) : cqlM A := fun s =>
  match cs_session s with
  | None => (Panic, s)
  | Some c =>
      let '(r, c) := call c in
      (match r with Ret a => Ret a | Fail e => Fail (err e) | Panic => Panic end, mkCassandraStore (Some c) (cs_keyspace s))
  end.

Definition cassandra_error (what msg : string) : store_err := ErrOther ("cassandra: " +:+ what +:+ ": " +:+ msg).

Definition value_error (what : string) (e : cql_err) : store_err :=
  match e with CqlNotFound => ErrNotFound | CqlError msg => cassandra_error what msg end.

Definition cassandra_upsert (e : Entry) : cqlM unit :=
  cassandra_ensureReady;;
  let '(dir, name) := DirAndName (e_FullPath e) in
  match marshalEntry e with
  | Fail msg => fail (cassandra_error "marshal entry" msg)
  | Panic => panic
  | Ret meta =>
      on_cql (cassandra_error "upsert entry") (cql_exec (InsertMeta dir name meta));;
      on_cql (cassandra_error "add dir index") (cql_exec (InsertDir dir))
  end.

Definition cassandra_FindEntry (fp : string) : cqlM Entry :=
  cassandra_ensureReady;;
  let '(dir, name) := DirAndName fp in
  data ← on_cql (value_error "find entry") (cql_meta dir name);
  match unmarshalEntry data with
  | Ret e => mret e
  | Fail msg => fail (cassandra_error "unmarshal entry" msg)
  | Panic => panic
  end.

Definition cassandra_DeleteEntry (fp : string) : cqlM unit :=
  cassandra_ensureReady;;
  let '(dir, name) := DirAndName fp in
  on_cql (cassandra_error "delete entry") (cql_exec (DeleteMeta dir name)).

Definition listDirs : cqlM (list string) := fun s =>
  match cs_session s with
  | None => (Panic, s)
  | Some c =>
      let '(l, e, c) := cql_dirs c in
      (match e with Some msg => Fail (cassandra_error "list dirs" msg) | None => Ret l end, mkCassandraStore (Some c) (cs_keyspace s))
  end.

Fixpoint delete_dirs (dirs : list string) : cqlM unit :=
  match dirs with
  | [] => mret tt
  | dir :: dirs =>
      on_cql (cassandra_error "delete folder children") (cql_exec (DeleteMetaDir dir));;
      on_cql (cassandra_error "delete dir index") (cql_exec (DeleteDir dir));;
      delete_dirs dirs
  end.

Definition cassandra_DeleteFolderChildren (fp : string) : cqlM unit :=
  cassandra_ensureReady;;
  dirs ← listDirs;
  delete_dirs (filter (fun d => under fp d = true) dirs).

(** ** Listings *)

Fixpoint cassandra_loop {T} (limit : Z) (fn : Entry -> T -> bool * T) (rows : list (string * string)) (count : Z) (last : string) (acc : T)
  : outcome store_err string * T :=
  match rows with
  | [] => (Ret last, acc)
  | (name, meta) :: rows =>
      match unmarshalEntry meta with
      | Fail msg => (Fail (cassandra_error "unmarshal list entry" msg), acc)
      | Panic => (Panic, acc)
      | Ret entry =>
          let count := count + 1 in
          let '(more, acc) := fn entry acc in
          if negb more then (Ret name, acc) else
          if decide (limit > 0 /\ count >= limit) then (Ret name, acc) else cassandra_loop limit fn rows count name acc
      end
  end.

(** The rows that the scan keeps. *)
Definition kept_row (prefix startFileName : string) (includeStart : bool) (row : string * string) : bool :=
  negb (bool_decide (prefix <> "" /\ HasPrefix (fst row) prefix = false)) && negb (skipped startFileName includeStart (fst row)).

Definition cassandra_listEntries {T} (dirPath startFileName : string) (includeStart : bool) (limit : Z) (prefix : string)
    (fn : Entry -> T -> bool * T) (acc : T) (s : CassandraStore C) : outcome store_err string * T * CassandraStore C :=
  match cs_session s with
  | None => (Fail (ErrOther "cassandra: store not initialized"), acc, s)
  | Some c =>
      let '(l, e, c) := cql_dir dirPath c in
      let s := mkCassandraStore (Some c) (cs_keyspace s) in
      match e with
      | Some msg => (Fail (cassandra_error "list entries" msg), acc, s)
      | None =>
          let entries := merge_sort fst_le (filter (fun row => kept_row prefix startFileName includeStart row = true) l) in
          let '(r, acc) := cassandra_loop limit fn entries 0 "" acc in (r, acc, s)
      end
  end.

(** ** The key-value part *)

Definition cassandra_KvPut (key value : string) : cqlM unit :=
  cassandra_ensureReady;; on_cql (cassandra_error "kv put") (cql_exec (InsertKv (hex_key key) value)).

Definition cassandra_KvGet (key : string) : cqlM string :=
  cassandra_ensureReady;; on_cql (value_error "kv get") (cql_kv (hex_key key)).

Definition cassandra_KvDelete (key : string) : cqlM unit :=
  cassandra_ensureReady;; on_cql (cassandra_error "kv delete") (cql_exec (DeleteKv (hex_key key))).

#[export] Instance cassandra_kv : KvStore (CassandraStore C) := {
  KvGet := cassandra_KvGet;
  KvPut := cassandra_KvPut;
  KvDelete := cassandra_KvDelete;
}.

#[export] Instance cassandra_store : FilerStore (CassandraStore C) := {
  fs_kv := cassandra_kv;
  InsertEntry := cassandra_upsert;
  UpdateEntry := cassandra_upsert;
  FindEntry := cassandra_FindEntry;
  DeleteEntry := cassandra_DeleteEntry;
  DeleteFolderChildren := cassandra_DeleteFolderChildren;
  ListDirectoryPrefixedEntries := @cassandra_listEntries;
}.
End store.

(** ** The choice of a store *)

(** The constructors return the store along with the error of their initialization. *)
Inductive loaded_store (DB R D C : Type) :=
| LoadedLevelDb (r : outcome string (LevelDB2Store DB))
| LoadedRedis (r : outcome string unit) (s : Redis3Store R)
| LoadedPostgres (r : outcome string unit) (s : SqlStore D)
| LoadedMySQL (r : outcome string unit) (s : SqlStore D)
| LoadedCassandra (r : outcome string unit) (s : CassandraStore C).
Arguments LoadedLevelDb {DB R D C}.
Arguments LoadedRedis {DB R D C}.
Arguments LoadedPostgres {DB R D C}.
Arguments LoadedMySQL {DB R D C}.
Arguments LoadedCassandra {DB R D C}.

Definition LoadFilerStoreFromConfig {DB R D C} `{Redis R} `{SqlDb D} `{Cql C}
    (db_open : string -> outcome string DB) (redis_open : string -> string -> Z -> outcome string R)
    (postgres_open mysql_open : string -> outcome string D)
    (connect : list string -> Z -> option (string * string) -> option string -> outcome string C)
    (config : gmap string string) : outcome string (loaded_store DB R D C) :=
  let backend := ToLower (TrimSpace (config_get config "backend")) in
  let backend := if decide (backend = "") then "leveldb2" else backend in
  if decide (backend = "leveldb2") then
    let dir := TrimSpace (config_get config "leveldb2.dir") in
    let dir := if decide (dir = "") then TrimSpace (config_get config "store.dir") else dir in
    let dir := if decide (dir = "") then "./tmp/filer" else dir in
    Ret (LoadedLevelDb (NewLevelDB2Store db_open dir))
  else if decide (backend = "redis3") then let '(r, s) := NewRedis3Store redis_open config in Ret (LoadedRedis r s)
  else if decide (backend = "postgres2") then
    let '(r, s) := NewPostgres2Store postgres_open config in Ret (LoadedPostgres r s)
  else if decide (backend = "mysql2") then
    let '(r, s) := NewMySQL2Store mysql_open config in Ret (LoadedMySQL r s)
  else if decide (backend = "cassandra") then
    let '(r, s) := cassandra_Initialize connect config "cassandra." (mkCassandraStore None "") in Ret (LoadedCassandra r s)
  else Fail ("unsupported filer backend: " +:+ backend).

(** ** The laws *)

Section laws.
Context {C : Type} `{Cql C} (contents : C -> cql_tables) `{!CqlLaws C contents}.
Context (marshalEntry : Entry -> outcome string string) (unmarshalEntry : string -> outcome string Entry) (good : Entry -> Prop).
Context (Hmarshal : forall e, marshalEntry e <> Panic).
Context (Hjson : forall e d, good e -> marshalEntry e = Ret d -> unmarshalEntry d = Ret e).

Definition cql_view (t : cql_tables) (dir name : string) : option string := ct_meta t !! (dir, name).

Definition cassandra_rep (s : CassandraStore C) (m : gmap string Entry) : Prop :=
  exists c, cs_session s = Some c /\ view_holds unmarshalEntry abs_path good (cql_view (contents c)) m.

Definition cassandra_kv_rep (s : CassandraStore C) (m : gmap string string) : Prop :=
  exists c, cs_session s = Some c /\ forall k, ct_kv (contents c) !! hex_key k = m !! k.

Lemma cassandra_ready {A} (k : unit -> GoM (CassandraStore C) store_err A) s c :
  cs_session s = Some c -> (cassandra_ensureReady ≫= k) s = k tt s.
Proof. intros Hc. unfold mbind, GoM_bind, cassandra_ensureReady. by rewrite Hc. Qed.

(** A statement moves a representation along with the tables. *)
Lemma cql_exec_written {M} (R : cql_tables -> M -> Prop) what st s c m m' :
  cs_session s = Some c -> R (contents c) m -> R (run_cql st (contents c)) m' ->
  written (fun s m => exists c, cs_session s = Some c /\ R (contents c) m) m m' (on_cql (cassandra_error what) (cql_exec st) s).
Proof.
  intros Hc Hm Hm'. unfold on_cql, written. rewrite Hc. pose proof (cql_exec_law st c) as Hl.
  destruct (cql_exec st c) as [[u|e|] c']; cbn; [| |done].
  - exists c'. by rewrite Hl.
  - destruct Hl as [E|E]; [left|right]; exists c'; by rewrite E.
Qed.

Lemma cql_upsert_view t dir name meta d n :
  cql_view (run_cql (InsertMeta dir name meta) t) d n = if decide ((dir, name) = (d, n)) then Some meta else cql_view t d n.
Proof. unfold cql_view. cbn. by rewrite lookup_insert. Qed.

Lemma cassandra_upsert_written s m e :
  cassandra_rep s m -> abs_path (e_FullPath e) -> good e ->
  written cassandra_rep m (<[e_FullPath e := e]> m) (cassandra_upsert marshalEntry e s).
Proof.
  intros (c & Hc & Hv) Hp Hg. unfold cassandra_upsert. rewrite (cassandra_ready _ s c) by done.
  destruct (DirAndName (e_FullPath e)) as [dir name] eqn:Hdn. pose proof (Hmarshal e).
  destruct (marshalEntry e) as [meta|msg|] eqn:Em; [| |done]; [|left; by exists c].
  assert (view_holds unmarshalEntry abs_path good (cql_view (run_cql (InsertMeta dir name meta) (contents c))) (<[e_FullPath e := e]> m)) as Hv'.
  { eapply view_put; [exact Hv|done..|by apply Hjson|]. intros d n _. rewrite cql_upsert_view. by rewrite Hdn. }
  pose proof (cql_exec_written (fun t => view_holds unmarshalEntry abs_path good (cql_view t)) "upsert entry" _ s c _ _ Hc Hv Hv') as H1.
  unfold mbind, GoM_bind. destruct (on_cql _ (cql_exec (InsertMeta _ _ _)) s) as [[u|e1|] s1]; cbn in H1; [|done..].
  destruct H1 as (c1 & Hc1 & Hv1).
  pose proof (cql_exec_written (fun t => view_holds unmarshalEntry abs_path good (cql_view t)) "add dir index" (InsertDir dir) s1 c1 _ _ Hc1 Hv1 Hv1) as H2.
  unfold written in *. destruct (on_cql _ _ s1) as [[u2|e2|] s2]; cbn in *; [done| |done]. right. by destruct H2.
Qed.

Lemma cassandra_delete_written s m p :
  cassandra_rep s m -> abs_path p ->
  written cassandra_rep m (delete p m) (cassandra_DeleteEntry p s) /\ fst (cassandra_DeleteEntry p s) <> Fail ErrNotFound.
Proof.
  intros (c & Hc & Hv) Hp. unfold cassandra_DeleteEntry. rewrite (cassandra_ready _ s c) by done.
  destruct (DirAndName p) as [dir name] eqn:Hdn. split.
  - apply (cql_exec_written (fun t => view_holds unmarshalEntry abs_path good (cql_view t)) _ _ s c); [done..|].
    eapply view_delete; [by intros|exact Hv|done|]. intros d n _. unfold cql_view. cbn. by rewrite lookup_delete, Hdn.
  - unfold on_cql. rewrite Hc. by destruct (cql_exec _ c) as [[] c'].
Qed.

Lemma cassandra_FindEntry_spec s m p :
  cassandra_rep s m -> abs_path p ->
  cassandra_rep (snd (cassandra_FindEntry unmarshalEntry p s)) m /\
  match fst (cassandra_FindEntry unmarshalEntry p s) with
  | Ret e => m !! p = Some e
  | Fail ErrNotFound => m !! p = None
  | Fail (ErrOther _) => True
  | Panic => False
  end.
Proof.
  intros (c & Hc & Hv) Hp. unfold cassandra_FindEntry. rewrite (cassandra_ready _ s c) by done.
  destruct (DirAndName p) as [dir name] eqn:Hdn.
  pose proof (view_find _ _ _ (fun _ H => H) abs_path_dir _ _ _ _ _ Hv Hp Hdn) as Hf. unfold cql_view in Hf.
  pose proof (cql_meta_law dir name c) as [Hk Hr]. unfold mbind, GoM_bind, on_cql. rewrite Hc.
  destruct (cql_meta dir name c) as [r c']. cbn in Hk, Hr.
  assert (cassandra_rep (mkCassandraStore (Some c') (cs_keyspace s)) m) as Hrep by (exists c'; by rewrite Hk).
  destruct r as [x|[|msg]|]; cbn; [| |done|done].
  - rewrite Hr in Hf. destruct Hf as (e & -> & Hm). done.
  - by rewrite Hr in Hf.
Qed.

(** ** Listings *)

Lemma cassandra_loop_deliver {T} limit (fn : Entry -> T -> bool * T) rows lx count last acc :
  0 < limit -> count < limit -> Forall2 (row_of unmarshalEntry) rows lx ->
  cassandra_loop unmarshalEntry limit fn rows count last acc =
    (let '(last', acc') := deliver (Z.to_nat (limit - count)) fn lx acc last in (Ret last', acc')).
Proof.
  intros Hlim. revert lx count last acc. induction rows as [|[name meta] rows IH]; intros lx count last acc Hc Hl; cbn [cassandra_loop].
  { inversion Hl; subst. by destruct (Z.to_nat _). }
  inversion Hl as [|? [n e] ? lx' [Hn Hu] Hl']; subst. cbn in Hn, Hu. subst n. rewrite Hu.
  replace (Z.to_nat (limit - count)) with (S (Z.to_nat (limit - (count + 1)))) by lia. cbn [deliver].
  destruct (fn e acc) as [more acc']. destruct more; cbn [negb]; [|done].
  destruct (decide (limit > 0 /\ count + 1 >= limit)) as [Hge|Hge]; [|apply IH; [lia|done]].
  replace (Z.to_nat (limit - (count + 1))) with O by lia. by destruct lx' as [|[]].
Qed.

Lemma kept_row_spec prefix start incl row :
  kept_row prefix start incl row = true <-> HasPrefix (fst row) prefix = true /\ from_start start incl (fst row).
Proof.
  unfold kept_row. rewrite andb_true_iff, !negb_true_iff, bool_decide_eq_false, skipped_spec.
  destruct (decide (prefix = "")) as [->|Hne]; [rewrite prefix_nil; naive_solver|].
  destruct (HasPrefix (fst row) prefix); naive_solver.
Qed.

Lemma cassandra_list_law s m T dir start incl limit prefix (fn : Entry -> T -> bool * T) acc :
  cassandra_rep s m -> abs_path dir -> 0 < limit ->
  let '(r, acc', s') := cassandra_listEntries unmarshalEntry dir start incl limit prefix fn acc s in
  cassandra_rep s' m /\
  match r with
  | Ret last => exists l, listed m dir start incl prefix l /\ deliver (Z.to_nat limit) fn l acc "" = (last, acc')
  | Fail _ => True
  | Panic => False
  end.
Proof.
  intros (c & Hc & Hv) Hdir Hlim. unfold cassandra_listEntries. rewrite Hc. pose proof (cql_dir_law dir c) as Hl.
  destruct (cql_dir dir c) as [[l e] c']. destruct Hl as [Ec Hl].
  assert (cassandra_rep (mkCassandraStore (Some c') (cs_keyspace s)) m) as Hrep by (exists c'; by rewrite Ec).
  destruct e as [msg|]; [done|]. destruct (Hl eq_refl) as [Hnd Hel]. set (rows := merge_sort _ _).
  assert (Hp : rows ≡ₚ filter (fun row => kept_row prefix start incl row = true) l) by apply (merge_sort_Permutation fst_le).
  destruct (view_listed _ _ _ (fun _ H => H) abs_path_dir _ m dir start incl prefix rows Hv Hdir) as (lx & Hlx & Hlisted).
  { apply sorted_strict; [apply (StronglySorted_merge_sort fst_le)|]. rewrite Hp. eapply sublist_NoDup; [exact Hnd|].
    apply fmap_sublist, sublist_filter. }
  { intros n v. rewrite Hp, list_elem_of_filter, kept_row_spec, Hel. unfold cql_view. cbn. tauto. }
  rewrite (cassandra_loop_deliver limit fn rows lx) by (done || lia). rewrite Z.sub_0_r.
  destruct (deliver _ _ _ _ _) as [last acc'] eqn:E. split; [done|by exists lx].
Qed.

(** ** Folders *)

(** The index of directories has every directory with an entry. *)
Definition dirs_indexed (t : cql_tables) : Prop := forall d n v, ct_meta t !! (d, n) = Some v -> d ∈ ct_dirs t.

Lemma delete_dirs_spec dirs s c s' :
  cs_session s = Some c -> delete_dirs dirs s = (Ret tt, s') ->
  exists c', cs_session s' = Some c' /\
    forall d n, cql_view (contents c') d n = if decide (d ∈ dirs) then None else cql_view (contents c) d n.
Proof.
  revert s c. induction dirs as [|dir dirs IH]; intros s c Hc E; cbn [delete_dirs] in E.
  { injection E as <-. exists c. split; [done|]. intros d n. by rewrite decide_False by set_solver. }
  unfold mbind, GoM_bind, on_cql in E. rewrite Hc in E.
  pose proof (cql_exec_law (DeleteMetaDir dir) c) as H1. destruct (cql_exec (DeleteMetaDir dir) c) as [[u|e|] c1]; [|done..].
  cbn in E. pose proof (cql_exec_law (DeleteDir dir) c1) as H2. destruct (cql_exec (DeleteDir dir) c1) as [[u2|e|] c2]; [|done..].
  destruct (IH (mkCassandraStore (Some c2) (cs_keyspace s)) c2 eq_refl E) as (c' & Hc' & Hview). exists c'. split; [done|]. intros d n. rewrite Hview.
  assert (cql_view (contents c2) d n = if decide (d = dir) then None else cql_view (contents c) d n) as ->.
  { unfold cql_view. rewrite H2, H1. cbn. destruct (decide (d = dir)) as [->|Hne].
    - apply map_lookup_filter_None. right. intros x _. cbn. by intros [].
    - destruct (ct_meta (contents c) !! (d, n)) as [x|] eqn:Ex; [by apply map_lookup_filter_Some|by apply map_lookup_filter_None; left]. }
  repeat case_decide; set_solver.
Qed.

Lemma cassandra_DeleteFolderChildren_spec s m c fp s' :
  cassandra_rep s m -> cs_session s = Some c -> dirs_indexed (contents c) ->
  cassandra_DeleteFolderChildren fp s = (Ret tt, s') ->
  cassandra_rep s' (filter (fun kv => under fp (fst (DirAndName (fst kv))) = false) m).
Proof.
  intros (c0 & Hc & Hv) Hc0 Hix. rewrite Hc in Hc0. injection Hc0 as ->. unfold cassandra_DeleteFolderChildren.
  rewrite (cassandra_ready _ s c) by done. unfold mbind at 1, GoM_bind at 1, listDirs. rewrite Hc.
  pose proof (cql_dirs_law c) as Hl. destruct (cql_dirs c) as [[l [e|]] c1]; [done|]. destruct Hl as [Ec Hl]. specialize (Hl eq_refl).
  intros E. destruct (delete_dirs_spec _ (mkCassandraStore (Some c1) (cs_keyspace s)) c1 _ eq_refl E) as (c' & Hc' & Hview). exists c'. split; [done|].
  eapply view_filter; [exact Hv|]. intros d n _. rewrite Hview, Ec. unfold cql_view.
  destruct (ct_meta (contents c) !! (d, n)) as [x|] eqn:Ex; [|by repeat case_match].
  assert (d ∈ l) as Hd by (apply Hl; by eapply Hix). destruct (under fp d) eqn:Eu.
  - rewrite decide_True; [done|]. by apply list_elem_of_filter.
  - rewrite decide_False; [done|]. intros [Hu _]%list_elem_of_filter. congruence.
Qed.

(** A successful write keeps the index. *)
Lemma cassandra_upsert_indexed s c e s' :
  cs_session s = Some c -> dirs_indexed (contents c) -> cassandra_upsert marshalEntry e s = (Ret tt, s') ->
  exists c', cs_session s' = Some c' /\ dirs_indexed (contents c').
Proof.
  intros Hc Hix. unfold cassandra_upsert. rewrite (cassandra_ready _ s c) by done.
  destruct (DirAndName (e_FullPath e)) as [dir name], (marshalEntry e) as [meta|msg|]; [|done..].
  unfold mbind, GoM_bind, on_cql. rewrite Hc.
  pose proof (cql_exec_law (InsertMeta dir name meta) c) as H1. destruct (cql_exec (InsertMeta _ _ _) c) as [[u|e1|] c1]; [|done..].
  cbn. pose proof (cql_exec_law (InsertDir dir) c1) as H2. destruct (cql_exec (InsertDir dir) c1) as [[u2|e2|] c2]; [|done..].
  intros [= _ <-]. exists c2. split; [done|]. rewrite H2, H1. intros d n v. cbn. rewrite lookup_insert. case_decide as Hd; [|intros ?%Hix; set_solver].
  injection Hd as -> ->. set_solver.
Qed.

(** ** The key-value part *)

Lemma cql_kv_written what st s c (m m' : gmap string string) :
  cs_session s = Some c -> ct_meta (run_cql st (contents c)) = ct_meta (contents c) ->
  ((forall k, ct_kv (contents c) !! hex_key k = m !! k) -> forall k, ct_kv (run_cql st (contents c)) !! hex_key k = m' !! k) ->
  (cassandra_kv_rep s m -> written cassandra_kv_rep m m' (on_cql (cassandra_error what) (cql_exec st) s)) /\
  forall e, cassandra_rep s e -> cassandra_rep (snd (on_cql (cassandra_error what) (cql_exec st) s)) e.
Proof.
  intros Hc Hmeta Hkv. split.
  - intros (c0 & Hc0 & Hm). rewrite Hc in Hc0. injection Hc0 as <-.
    apply (cql_exec_written (fun t (m : gmap string string) => forall k, ct_kv t !! hex_key k = m !! k) _ _ s c); [done..|]. by apply Hkv.
  - intros e (c0 & Hc0 & Hv). rewrite Hc in Hc0. injection Hc0 as <-.
    assert (written cassandra_rep e e (on_cql (cassandra_error what) (cql_exec st) s)) as Hw.
    { apply (cql_exec_written (fun t => view_holds unmarshalEntry abs_path good (cql_view t)) _ _ s c); [done..|].
      eapply view_same; [exact Hv|]. intros d n _. unfold cql_view. by rewrite Hmeta. }
    unfold written in Hw. destruct (on_cql _ _ s) as [[]]; cbn in *; [done|by destruct Hw|done].
Qed.

Lemma cassandra_KvPut_spec k v s c m :
  cs_session s = Some c ->
  (cassandra_kv_rep s m -> written cassandra_kv_rep m (<[k := v]> m) (cassandra_KvPut k v s)) /\
  forall e, cassandra_rep s e -> cassandra_rep (snd (cassandra_KvPut k v s)) e.
Proof.
  intros Hc. unfold cassandra_KvPut. rewrite (cassandra_ready _ s c) by done. eapply cql_kv_written; [done..|].
  intros Hm k'. cbn. rewrite !lookup_insert, Hm. repeat case_decide; try congruence. exfalso. by eauto using hex_key_inj.
Qed.

Lemma cassandra_KvDelete_spec k s c m :
  cs_session s = Some c ->
  (cassandra_kv_rep s m -> written cassandra_kv_rep m (delete k m) (cassandra_KvDelete k s)) /\
  forall e, cassandra_rep s e -> cassandra_rep (snd (cassandra_KvDelete k s)) e.
Proof.
  intros Hc. unfold cassandra_KvDelete. rewrite (cassandra_ready _ s c) by done. eapply cql_kv_written; [done..|].
  intros Hm k'. cbn. rewrite !lookup_delete, Hm. repeat case_decide; try congruence. exfalso. by eauto using hex_key_inj.
Qed.

Lemma cassandra_KvGet_spec k s c :
  cs_session s = Some c ->
  exists c', contents c' = contents c /\ snd (cassandra_KvGet k s) = mkCassandraStore (Some c') (cs_keyspace s) /\
    match fst (cassandra_KvGet k s) with
    | Ret v => ct_kv (contents c) !! hex_key k = Some v
    | Fail ErrNotFound => ct_kv (contents c) !! hex_key k = None
    | Fail (ErrOther _) => True
    | Panic => False
    end.
Proof.
  intros Hc. unfold cassandra_KvGet. rewrite (cassandra_ready _ s c) by done. unfold on_cql. rewrite Hc.
  pose proof (cql_kv_law (hex_key k) c) as [Hk Hr]. destruct (cql_kv _ c) as [r c']. exists c'. cbn in *.
  split; [done|]. split; [done|]. by destruct r as [|[]|].
Qed.

Lemma cassandra_filer_laws :
  @FilerLaws (CassandraStore C) (cassandra_store marshalEntry unmarshalEntry) abs_path good cassandra_rep.
Proof.
  split; cbn.
  - done.
  - apply abs_path_dir.
  - intros s m p e (c & _ & Hm & _) Hp. by apply Hm in Hp.
  - intros s m e. apply cassandra_upsert_written.
  - intros s m e. apply cassandra_upsert_written.
  - intros s m p. apply cassandra_FindEntry_spec.
  - intros s m p Hr Hp. by apply cassandra_delete_written.
  - intros s m p Hr Hp Hf. by destruct (proj2 (cassandra_delete_written s m p Hr Hp)).
  - intros s m T dir start incl limit fn acc. apply cassandra_list_law.
  - intros s m k (c & Hc & Hv). destruct (cassandra_KvGet_spec k s c Hc) as (c' & Ec & -> & _). exists c'. by rewrite Ec.
  - intros s m k v Hr. pose proof Hr as (c & Hc & _). by eapply (proj2 (cassandra_KvPut_spec k v s c ∅ Hc)).
  - intros s m k Hr. pose proof Hr as (c & Hc & _). by eapply (proj2 (cassandra_KvDelete_spec k s c ∅ Hc)).
Qed.

Lemma cassandra_prefix_laws :
  @PrefixLaws (CassandraStore C) (cassandra_store marshalEntry unmarshalEntry) abs_path (fun _ => True) cassandra_rep.
Proof. split. intros s m T dir start incl limit prefix fn acc Hr Hd _. by apply cassandra_list_law. Qed.

Lemma cassandra_kv_laws : KvLaws (CassandraStore C) cassandra_kv_rep.
Proof.
  split; cbn.
  - intros s m k (c & Hc & Hm). destruct (cassandra_KvGet_spec k s c Hc) as (c' & Ec & -> & Hres).
    split; [exists c'; by rewrite Ec|]. by rewrite Hm in Hres.
  - intros s m k v Hr. pose proof Hr as (c & Hc & _). by apply (proj1 (cassandra_KvPut_spec k v s c m Hc)).
  - intros s m k Hr. pose proof Hr as (c & Hc & _). by apply (proj1 (cassandra_KvDelete_spec k s c m Hc)).
Qed.
End laws.

(** ** Fresh stores *)

(** What the filer gets: the laws, and a state that stands for the maps [m] and [kv]. *)
Definition contract {S : Type} (store : FilerStore S) (valid plain : string -> Prop) (good : Entry -> Prop)
    (rep : S -> gmap string Entry -> Prop) (kv_rep : S -> gmap string string -> Prop) (s : S)
    (m : gmap string Entry) (kv : gmap string string) : Prop :=
  FilerLaws S valid good rep /\ PrefixLaws S valid plain rep /\ KvLaws S kv_rep /\ rep s m /\ kv_rep s kv.

Lemma view_empty unmarshalEntry valid good view :
  (forall dir name, view dir name = None) -> view_holds unmarshalEntry valid good view ∅.
Proof. intros E. split; [by intros ???|]. intros dir name _. rewrite E. by intros p e. Qed.

Lemma sql_schema_keeps {D} `{SqlDb D} contents like dl d d' r :
  SqlLaws id like D contents -> dl = mysql2 \/ dl = postgres2 ->
  ensureSchema (dl_schema dl) d = (r, d') -> contents d' = contents d.
Proof.
  intros HL Hdl.
  assert (Forall (fun st => forall t, run_stmt id like st [] t = Some t) (dl_schema dl)) as Hst.
  { destruct Hdl as [->| ->]; repeat constructor. }
  revert d. induction Hst as [|st stmts Hst _ IH]; intros d E; cbn in E; [by injection E as _ <-|].
  unfold mbind, GoM_bind in E. pose proof (sql_exec_law id like st [] _ d (Hst _)) as Hl.
  destruct (sql_exec None st [] d) as [[u|e|] d1]; [apply IH in E; congruence| |done]. injection E as _ <-. by destruct Hl.
Qed.

Lemma sql_Initialize_keeps {D} `{SqlDb D} contents like dl sql_Open config prefix s' t :
  SqlLaws id like D contents -> dl = mysql2 \/ dl = postgres2 -> (forall dsn d, sql_Open dsn = Ret d -> contents d = t) ->
  sql_Initialize dl sql_Open config prefix (mkSqlStore None) = (Ret tt, s') -> exists d, q_db s' = Some d /\ contents d = t.
Proof.
  intros HL Hdl Ho. unfold sql_Initialize. destruct (sql_Open _) as [d|e|] eqn:Eo; [|done..]. apply Ho in Eo.
  set (d1 := fold_left _ _ d). assert (contents d1 = t) as E1.
  { unfold d1. clear d1. revert d Eo. induction (pool_settings config prefix) as [|st l IH]; intros d Eo; [done|].
    cbn. apply IH. by rewrite (sql_set_law id like). }
  pose proof (sql_ping_law id like d1) as Hp. destruct (sql_ping d1) as [[u|e|] d2]; [|done..]. cbn [snd] in Hp.
  destruct (ensureSchema _ d2) as [[u'|e|] d3] eqn:Es; [|done..]. intros [= <-]. exists d3. split; [done|].
  apply (sql_schema_keeps contents like) in Es; [congruence|done..].
Qed.

Lemma cql_schema_keeps {C} `{Cql C} contents c r c' :
  CqlLaws C contents -> cql_ensureSchema [CreateMeta; CreateKv; CreateDirs] c = (r, c') -> contents c' = contents c.
Proof.
  intros HL. assert (Forall (fun st => forall t, run_cql st t = t) [CreateMeta; CreateKv; CreateDirs]) as Hst by repeat constructor.
  revert c. induction Hst as [|st stmts Hst _ IH]; intros c E; cbn in E; [by injection E as _ <-|].
  unfold mbind, GoM_bind in E. pose proof (cql_exec_law st c) as Hl. rewrite Hst in Hl.
  destruct (cql_exec st c) as [[u|e|] c1]; [apply IH in E; congruence| |done]. injection E as _ <-. by destruct Hl.
Qed.

(** ** Cassandra in memory *)

Definition mem_value (v : option string) (t : cql_tables) : outcome cql_err string * cql_tables :=
  (match v with Some x => Ret x | None => Fail CqlNotFound end, t).

Definition mem_dir (d : string) (t : cql_tables) : list (string * string) :=
  (fun kv => (snd (fst kv), snd kv)) <$> filter (fun kv => fst (fst kv) = d) (map_to_list (ct_meta t)).

#[export] Instance mem_cql : Cql cql_tables := {
  cql_exec st t := (Ret tt, run_cql st t);
  cql_meta d n t := mem_value (ct_meta t !! (d, n)) t;
  cql_dir d t := (mem_dir d t, None, t);
  cql_dirs t := (elements (ct_dirs t), None, t);
  cql_kv k t := mem_value (ct_kv t !! k) t;
}.

Lemma mem_dir_names d t : NoDup (fst <$> mem_dir d t).
Proof.
  unfold mem_dir. rewrite <- list_fmap_compose. pose proof (NoDup_fst_map_to_list (ct_meta t)) as Hnd. revert Hnd.
  induction (map_to_list (ct_meta t)) as [|[[d' n] v] l IH]; [constructor|]. rewrite fmap_cons, filter_cons.
  intros [Hn Hnd]%NoDup_cons. destruct (decide _) as [Hd|]; [|auto]. cbn in Hd. subst d'. rewrite fmap_cons. constructor; [|auto].
  intros ([[d' n'] v'] & E & [Hd Hin]%list_elem_of_filter)%list_elem_of_fmap. cbn in E, Hd. subst. apply Hn.
  apply list_elem_of_fmap. by exists (d, n', v').
Qed.

#[export] Instance mem_cql_laws : CqlLaws cql_tables id.
Proof.
  split; unfold id; cbn.
  - done.
  - intros d n t. split; [done|]. cbn. by destruct (_ !! _).
  - intros d t. split; [done|]. intros _. split; [apply mem_dir_names|]. intros n v. unfold mem_dir.
    rewrite list_elem_of_fmap. split.
    + intros ([[d' n'] v'] & [= -> ->] & [Hd Hin]%list_elem_of_filter). cbn in Hd. subst. by apply elem_of_map_to_list.
    + intros Hm. exists (d, n, v). split; [done|]. apply list_elem_of_filter. split; [done|]. by apply elem_of_map_to_list.
  - intros t. split; [done|]. intros _ d. apply elem_of_elements.
  - intros k t. split; [done|]. cbn. by destruct (_ !! _).
Qed.

(** ** Any configured store keeps its contract *)

Section loaded.
Context {DB R D C : Type} `{Leveldb DB} `{Redis R} `{SqlDb D} `{Cql C}.
Context (ldb_contents : DB -> gmap string string) (redis_contents : R -> rdata) (sql_contents : D -> sql_tables) (cql_contents : C -> cql_tables).
Context (marshalEntry : Entry -> outcome string string) (unmarshalEntry : string -> outcome string Entry) (good : Entry -> Prop).

(** The store that was configured, when it came up, serves the maps [m] and [kv]. *)
Definition store_serves (ls : loaded_store DB R D C) (m : gmap string Entry) (kv : gmap string string) : Prop :=
  match ls with
  | LoadedLevelDb (Ret s) =>
      contract (ldb_store marshalEntry unmarshalEntry) nul_free (fun _ => True) good
        (ldb_rep ldb_contents unmarshalEntry good) (ldb_kv_rep ldb_contents) s m kv
  | LoadedRedis (Ret _) s =>
      contract (redis_store marshalEntry unmarshalEntry) abs_path (fun _ => True) good
        (redis_rep redis_contents unmarshalEntry good) (redis_kv_rep redis_contents) s m kv
  | LoadedPostgres (Ret _) s =>
      contract (sql_store postgres2 marshalEntry unmarshalEntry) abs_path plain_text good
        (sql_rep sql_contents unmarshalEntry good) (sql_kv_rep sql_contents) s m kv
  | LoadedMySQL (Ret _) s =>
      contract (sql_store mysql2 marshalEntry unmarshalEntry) abs_path plain_text good
        (sql_rep sql_contents unmarshalEntry good) (sql_kv_rep sql_contents) s m kv
  | LoadedCassandra (Ret _) s =>
      contract (cassandra_store marshalEntry unmarshalEntry) abs_path (fun _ => True) good
        (cassandra_rep cql_contents unmarshalEntry good) (cassandra_kv_rep cql_contents) s m kv
  | _ => True
  end.

Context (Hm : forall e, marshalEntry e <> Panic) (Hj : forall e d, good e -> marshalEntry e = Ret d -> unmarshalEntry d = Ret e).

Lemma loaded_leveldb db_open dir :
  LeveldbLaws DB ldb_contents -> (forall p d, db_open p = Ret d -> ldb_contents d = ∅) ->
  store_serves (LoadedLevelDb (NewLevelDB2Store db_open dir)) ∅ ∅.
Proof.
  intros HL Ho. destruct (NewLevelDB2Store db_open dir) as [s|e|] eqn:E; [|done..]. cbn.
  assert (ldb_contents (l_db s) = ∅) as Es.
  { unfold NewLevelDB2Store in E. destruct (db_open _) as [d|e|] eqn:Ed; [|done..]. injection E as <-. by eapply Ho. }
  split_and!; [by apply ldb_filer_laws|by apply ldb_prefix_laws|by apply ldb_kv_laws| |].
  - unfold ldb_rep, db_holds. apply view_empty. intros d n. by rewrite Es.
  - intros k. by rewrite Es.
Qed.

Lemma loaded_redis redis_open config s :
  RedisLaws R redis_contents -> (forall a p n d, redis_open a p n = Ret d -> redis_contents d = ∅) ->
  NewRedis3Store redis_open config = (Ret tt, s) -> store_serves (LoadedRedis (Ret tt) s) ∅ ∅.
Proof.
  intros HL Ho. unfold NewRedis3Store, redis_Initialize. destruct (redis_open _ _ _) as [d|e|] eqn:Ed; [|done..].
  apply Ho in Ed. intros [= <-]. split_and!; [by apply redis_filer_laws|by apply redis_prefix_laws|by apply redis_kv_laws| |].
  - split; [done|]. exists d. split; [done|]. apply view_empty. intros dir name. by rewrite Ed.
  - exists d. split; [done|]. intros k. by rewrite Ed.
Qed.

Lemma loaded_sql like dl sql_Open config prefix s :
  SqlLaws id like D sql_contents -> (forall p s, plain_text p -> like (p +:+ "%") s = HasPrefix s p) ->
  dl = mysql2 \/ dl = postgres2 -> (forall dsn d, sql_Open dsn = Ret d -> sql_contents d = mkTables ∅ ∅) ->
  sql_Initialize dl sql_Open config prefix (mkSqlStore None) = (Ret tt, s) ->
  contract (sql_store dl marshalEntry unmarshalEntry) abs_path plain_text good
    (sql_rep sql_contents unmarshalEntry good) (sql_kv_rep sql_contents) s ∅ ∅.
Proof.
  intros HL Hlike Hdl Ho E. eapply sql_Initialize_keeps in E as (d & Hd & Et); [|done..].
  split_and!; [by eapply sql_filer_laws|by eapply sql_prefix_laws|by eapply sql_kv_laws| |]; exists d; rewrite Et; (split; [done|]); (split; [done|]).
  - by apply view_empty.
  - done.
Qed.

Lemma loaded_cassandra connect config prefix s :
  CqlLaws C cql_contents -> (forall h p a ks d, connect h p a ks = Ret d -> cql_contents d = mkCqlTables ∅ ∅ ∅) ->
  cassandra_Initialize connect config prefix (mkCassandraStore None "") = (Ret tt, s) -> store_serves (LoadedCassandra (Ret tt) s) ∅ ∅.
Proof.
  intros HL Ho. unfold cassandra_Initialize.
  destruct (connect _ _ _ None) as [b|e|]; [|done..]. destruct (cql_exec _ b) as [[] b']; [|done..].
  destruct (connect _ _ _ (Some _)) as [c|e|] eqn:Ec; [|done..]. apply Ho in Ec.
  destruct (cql_ensureSchema _ c) as [[] c'] eqn:Es; [|done..]. apply (cql_schema_keeps cql_contents) in Es; [|done].
  intros [= <-]. split_and!; [by apply cassandra_filer_laws|by apply cassandra_prefix_laws|by apply cassandra_kv_laws| |];
    exists c'; rewrite Es, Ec; (split; [done|]).
  - by apply view_empty.
  - done.
Qed.
End loaded.

(** C23: whichever back end the configuration chooses, a store that comes up on an empty
    database behaves as an empty map from paths to entries and an empty map of keys and
    values, and as such maps from then on, whatever fails: a write happens entirely or not
    at all, a lookup finds what was written, and a listing delivers the entries of a
    directory in order from its start.  A listing with a prefix does so on MySQL and
    PostgreSQL when the prefix has no special characters of [LIKE].  For LevelDB the paths
    have no NUL, for the two SQL stores text is compared by bytes, and the entries written are
    those that the codec of the stores reads back. *)
Theorem LoadFilerStore_lawful {DB R D C : Type} `{Leveldb DB} `{Redis R} `{SqlDb D} `{Cql C}
    (ldb_contents : DB -> gmap string string) (redis_contents : R -> rdata) (sql_contents : D -> sql_tables) (cql_contents : C -> cql_tables)
    (like : string -> string -> bool)
    (marshalEntry : Entry -> outcome string string) (unmarshalEntry : string -> outcome string Entry) (good : Entry -> Prop)
    db_open redis_open postgres_open mysql_open connect config ls :
  LeveldbLaws DB ldb_contents -> RedisLaws R redis_contents -> SqlLaws id like D sql_contents -> CqlLaws C cql_contents ->
  (forall p s, plain_text p -> like (p +:+ "%") s = HasPrefix s p) ->
  (forall e, marshalEntry e <> Panic) ->
  (forall e d, good e -> marshalEntry e = Ret d -> unmarshalEntry d = Ret e) ->
  (forall p d, db_open p = Ret d -> ldb_contents d = ∅) ->
  (forall a p n d, redis_open a p n = Ret d -> redis_contents d = ∅) ->
  (forall dsn d, postgres_open dsn = Ret d \/ mysql_open dsn = Ret d -> sql_contents d = mkTables ∅ ∅) ->
  (forall h p a ks d, connect h p a ks = Ret d -> cql_contents d = mkCqlTables ∅ ∅ ∅) ->
  LoadFilerStoreFromConfig db_open redis_open postgres_open mysql_open connect config = Ret ls ->
  store_serves ldb_contents redis_contents sql_contents cql_contents marshalEntry unmarshalEntry good ls ∅ ∅.
Proof.
  intros HL HR HS HC Hlike Hm Hj Hldb Hred Hsql Hcql. unfold LoadFilerStoreFromConfig.
  set (backend := if decide _ then "leveldb2" else _).
  destruct (decide (backend = "leveldb2")); [|destruct (decide (backend = "redis3")); [|destruct (decide (backend = "postgres2")); [|
    destruct (decide (backend = "mysql2")); [|destruct (decide (backend = "cassandra")); [|done]]]]].
  - intros [= <-]. by apply loaded_leveldb.
  - destruct (NewRedis3Store redis_open config) as [[[]|msg|] s] eqn:E; intros [= <-]; [|done..]. by eapply loaded_redis.
  - destruct (NewPostgres2Store _ _) as [[[]|msg|] s] eqn:E; intros [= <-]; [|done..].
    eapply loaded_sql with (dl := postgres2); [..|exact E]; eauto.
  - destruct (NewMySQL2Store _ _) as [[[]|msg|] s] eqn:E; intros [= <-]; [|done..].
    eapply loaded_sql with (dl := mysql2); [..|exact E]; eauto.
  - destruct (cassandra_Initialize _ _ _ _) as [[[]|msg|] s] eqn:E; intros [= <-]; [|done..]. by eapply loaded_cassandra.
Qed.

Definition ex_config : gmap string string := {[ "backend" := " Cassandra"; "cassandra.hosts" := "db1, db2" ]}.

#[local] Instance ex_sql : SqlDb sql_tables := mem_sql id like_ascii.

Lemma LoadFilerStore_lawful_witness :
  let ls := LoadedCassandra (Ret tt) (mkCassandraStore (Some (mkCqlTables ∅ ∅ ∅)) "goblob") in
  LoadFilerStoreFromConfig (fun _ => Ret (∅ : gmap string string)) (fun _ _ _ => Ret (∅ : rdata))
    (fun _ => Ret (mkTables ∅ ∅)) (fun _ => Ret (mkTables ∅ ∅)) (fun _ _ _ _ => Ret (mkCqlTables ∅ ∅ ∅)) ex_config = Ret ls /\
  store_serves id id id id ex_marshal ex_unmarshal (fun _ => True) ls ∅ ∅.
Proof.
  cbv zeta. split; [vm_compute; reflexivity|].
  apply (LoadFilerStore_lawful id id id id like_ascii ex_marshal ex_unmarshal (fun _ => True) (fun _ => Ret (∅ : gmap string string))
    (fun _ _ _ => Ret (∅ : rdata)) (fun _ => Ret (mkTables ∅ ∅)) (fun _ => Ret (mkTables ∅ ∅)) (fun _ _ _ _ => Ret (mkCqlTables ∅ ∅ ∅))
    ex_config).
  - apply map_db_laws.
  - apply map_redis_laws.
  - apply mem_sql_laws.
  - apply mem_cql_laws.
  - apply like_ascii_prefix.
  - apply ex_no_panic.
  - apply ex_reads_back.
  - by intros p d [= <-].
  - by intros a p n d [= <-].
  - by intros dsn d [[= <-]|[= <-]].
  - by intros h p a ks d [= <-].
  - vm_compute. reflexivity.
Defined.

(** A keyspace whose name has a character that the code does not take is created under the
    default name, and the session asks for the name of the configuration. *)
Theorem keyspace_name_mismatch :
  let config : gmap string string := {[ "cassandra.keyspace" := "my-files" ]} in
  sanitizeIdentifier "my-files" = "goblob" /\
  cassandra_Initialize
    (fun _ _ _ ks => match ks with Some ks => if decide (ks = "goblob") then Ret (mkCqlTables ∅ ∅ ∅) else Fail "keyspace does not exist"
                                | None => Ret (mkCqlTables ∅ ∅ ∅) end) config "cassandra." (mkCassandraStore None "") =
    (Fail "cassandra: connect keyspace: keyspace does not exist", mkCassandraStore None "").
Proof. vm_compute. split; reflexivity. Qed.
