(* ===== verification/Filer.v ===== *)
(** * Filer: the namespace over a store

    Models [goblob/filer/filer.go] and [goblob/filer/filer_conf.go] over any store of
    [FilerStore].  Clocks, the order of map ranges and the call to the master are
    arguments. *)

From S2P Require Import Prelude GoStrings GoPath FilerStore.
From stdpp Require Import sorting.
From Stdlib Require Import Sorting.Sorted.

#[local] Open Scope Z_scope.
#[local] Open Scope string_scope.

(** ** Configuration by path prefix *)

Record FilerConfRule := mkRule {
  rl_PathPrefix : string;
  rl_Collection : string;
  rl_Replication : string;
  rl_Ttl : string;
  rl_DiskType : string;
  rl_MaxMB : Z;
}.

Abbreviation FilerConf := (gmap string FilerConfRule).

Definition NewFilerConf : FilerConf := ∅.

(** [len(matches[i].PathPrefix) > len(matches[j].PathPrefix)] sorts the longest first. *)
Definition longer (x y : FilerConfRule) : Prop := (String.length (rl_PathPrefix y) <= String.length (rl_PathPrefix x))%nat.

#[export] Instance longer_dec : RelDecision longer.
Proof. intros x y. unfold longer. apply _. Defined.

Definition rule_matches (path : string) (r : FilerConfRule) : Prop := HasPrefix path (rl_PathPrefix r) = true.

#[export] Instance rule_matches_dec path r : Decision (rule_matches path r).
Proof. unfold rule_matches. apply _. Defined.

Definition default_rule : FilerConfRule := mkRule "/" "" "000" "" "" 0.

Definition MatchRule (order : FilerConf -> list (string * FilerConfRule)) (fc : FilerConf) (path : string) : FilerConfRule :=
  match merge_sort longer (filter (rule_matches path) (snd <$> order fc)) with
  | r :: _ => r
  | [] => default_rule
  end.

Definition AddRule (rule : FilerConfRule) (fc : FilerConf) : FilerConf := <[rl_PathPrefix rule := rule]> fc.
Definition GetRule (pathPrefix : string) (fc : FilerConf) : option FilerConfRule := fc !! pathPrefix.
Definition RemoveRule (pathPrefix : string) (fc : FilerConf) : FilerConf := delete pathPrefix fc.

(** ** The filer *)

Inductive filer_err :=
| FErrStore (e : store_err)
| ErrStoreNotConfigured
| ErrParentNotFound
| ErrNoMasterConfigured
| FErrAssign.

Record AssignOption := mkAssign {
  as_Collection : string;
  as_Replication : string;
  as_Ttl : string;
  as_Count : Z;
  as_DataCenter : string;
  as_Rack : string;
}.

Section filer.
Context {S : Type} `{FilerStore S}.

Record Filer := mkFiler {
  f_UniqueFilerId : Z;
  f_Store : option S;
  f_MasterAddresses : list string;
  f_DirBucketsPath : string;
  f_FilerConf : FilerConf;
  f_masterIdx : Z;
}.

(** [int32(time.Now().Unix())] *)
Definition generateUniqueFilerId (now : Z) : Z := (now + 2 ^ 31) mod 2 ^ 32 - 2 ^ 31.

Definition NewFiler (now : Z) (store : option S) (masterAddrs : list string) : Filer :=
  mkFiler (generateUniqueFilerId now) store masterAddrs "/buckets" NewFilerConf 0.

Definition SetStore (store : S) (f : Filer) : Filer :=
  mkFiler (f_UniqueFilerId f) (Some store) (f_MasterAddresses f) (f_DirBucketsPath f) (f_FilerConf f) (f_masterIdx f).

(** A method that starts with [if f.Store == nil] and goes on with the store. *)
Definition with_store {A} (m : GoM S filer_err A) : GoM Filer filer_err A := fun f =>
  match f_Store f with
  | None => (Fail ErrStoreNotConfigured, f)
  | Some s => let '(r, s) := m s in (r, SetStore s f)
  end.

(** A call to the store whose error is returned. *)
Definition store_call {A} (m : GoM S store_err A) : GoM S filer_err A := fun s =>
  match m s with
  | (Ret a, s) => (Ret a, s)
  | (Fail e, s) => (Fail (FErrStore e), s)
  | (Panic, s) => (Panic, s)
  end.

(** *** MkdirAll *)

Definition dir_mode : Z := Z.lor ModeDir 493.

Definition dir_entry (now : Z) (fp : string) : Entry :=
  plain_entry fp (mkAttr dir_mode 0 0 now zero_time "" "" "" 0 "" 0 0 "").

Definition join_child (cur part : string) : string :=
  if decide (cur = "/") then "/" +:+ part else cur +:+ "/" +:+ part.

(** [clock child] is the time at which the directory [child] is created. *)
Fixpoint mkdir_loop (clock : string -> Z) (parts : list string) (cur : string) : GoM S store_err unit :=
  match parts with
  | [] => mret tt
  | part :: parts =>
      if decide (part = "") then mkdir_loop clock parts cur else
      let child := join_child cur part in fun s =>
      match FindEntry child s with
      | (Ret _, s) => mkdir_loop clock parts child s
      | (Fail ErrNotFound, s) =>
          match InsertEntry (dir_entry (clock child) child) s with
          | (Ret _, s) => mkdir_loop clock parts child s
          | r => r
          end
      | (Fail e, s) => (Fail e, s)
      | (Panic, s) => (Panic, s)
      end
  end.

Definition MkdirAll (clock : string -> Z) (dirPath : string) : GoM Filer filer_err unit :=
  with_store (store_call
    (if decide (dirPath = "/" \/ dirPath = "") then mret tt
     else mkdir_loop clock (Split slash (Trim slash dirPath)) "/")).

(** *** Entries *)

Definition create_entry (e : Entry) : GoM S filer_err unit := fun s =>
  let '(dir, _) := DirAndName (e_FullPath e) in
  if decide (dir = "/") then store_call (InsertEntry e) s else
  match FindEntry dir s with
  | (Ret _, s) => store_call (InsertEntry e) s
  | (Fail _, s) => (Fail ErrParentNotFound, s)
  | (Panic, s) => (Panic, s)
  end.

Definition f_CreateEntry (e : Entry) : GoM Filer filer_err unit := with_store (create_entry e).
Definition f_UpdateEntry (e : Entry) : GoM Filer filer_err unit := with_store (store_call (UpdateEntry e)).
Definition f_FindEntry (fp : string) : GoM Filer filer_err Entry := with_store (store_call (FindEntry fp)).
Definition f_DeleteEntry (fp : string) : GoM Filer filer_err unit := with_store (store_call (DeleteEntry fp)).

Definition list_page (dirPath startFileName : string) (limit : Z) : GoM S filer_err (list Entry * string) := fun s =>
  let '(r, entries, s) :=
    ListDirectoryEntries dirPath startFileName false limit (fun e es => (true, (es ++ [e])%list)) [] s in
  match r with
  | Ret _ =>
      (Ret (entries, match last entries with Some e => snd (DirAndName (e_FullPath e)) | None => "" end), s)
  | Fail e => (Fail (FErrStore e), s)
  | Panic => (Panic, s)
  end.

Definition f_ListDirectoryEntries (dirPath startFileName : string) (limit : Z)
  : GoM Filer filer_err (list Entry * string) := with_store (list_page dirPath startFileName limit).

(** *** AssignVolume: the masters take turns; [assign] is the call to one *)

Definition AssignVolume {A} (assign : string -> AssignOption -> option A) (collection replication ttl dataCenter rack : string)
  : GoM Filer filer_err A := fun f =>
  if decide (f_MasterAddresses f = []) then (Fail ErrNoMasterConfigured, f) else
  let idx := u64 (f_masterIdx f + 1) in
  let f := mkFiler (f_UniqueFilerId f) (f_Store f) (f_MasterAddresses f) (f_DirBucketsPath f) (f_FilerConf f) idx in
  match f_MasterAddresses f !! Z.to_nat (idx mod zlen (f_MasterAddresses f)) with
  | None => (Panic, f)
  | Some masterAddr =>
      (match assign masterAddr (mkAssign collection replication ttl 1 dataCenter rack) with
       | Some a => Ret a
       | None => Fail FErrAssign
       end, f)
  end.
End filer.
Arguments Filer : clear implicits.
