(* ===== verification/FilerSpec.v ===== *)
(** * FilerSpec: the filer over any lawful store

    Directories created by [MkdirAll], the invariant that every entry has its parent, and
    listings page by page, proved against the laws of [FilerStore]. *)

From S2P Require Import Prelude GoStrings GoPath FilerStore Filer.
From stdpp Require Import sorting.
From Stdlib Require Import Sorting.Sorted.

#[local] Open Scope Z_scope.
#[local] Open Scope string_scope.

(** ** Namespaces *)

(** The parent of an entry is the root or exists. *)
Definition has_parent (m : gmap string Entry) (p : string) : Prop :=
  fst (DirAndName p) = "/" \/ is_Some (m !! fst (DirAndName p)).

Definition closed (m : gmap string Entry) : Prop := map_Forall (fun p _ => has_parent m p) m.

Lemma has_parent_insert m p q e : has_parent m p -> has_parent (<[q := e]> m) p.
Proof.
  intros [H|H]; [by left|right]. destruct (decide (q = fst (DirAndName p))) as [->|Hne].
  - by rewrite lookup_insert_eq.
  - by rewrite lookup_insert_ne.
Qed.

Lemma closed_insert m p e : closed m -> has_parent m p -> closed (<[p := e]> m).
Proof.
  intros Hm Hp. apply map_Forall_insert_2; [by apply has_parent_insert|].
  eapply map_Forall_impl; [exact Hm|]. intros q e0 Hq. by apply has_parent_insert.
Qed.

(** No entry is in the directory [p]. *)
Definition childless (m : gmap string Entry) (p : string) : Prop :=
  map_Forall (fun q _ => q = p \/ fst (DirAndName q) <> p) m.

#[export] Instance childless_dec m p : Decision (childless m p).
Proof. unfold childless. apply _. Defined.

Lemma closed_delete m p : closed m -> p <> "/" -> childless m p -> closed (delete p m).
Proof.
  intros Hm Hp Hc q e [Hne Hq]%lookup_delete_Some. destruct (Hm _ _ Hq) as [H|H]; [by left|right].
  rewrite lookup_delete_ne; [done|]. intros Heq. destruct (Hc _ _ Hq) as [->|H']; [done|]. by apply H'.
Qed.

(** ** MkdirAll *)

(** The paths below [path_of cs1] on the way to [path_of (cs1 ++ cs2)]. *)
Fixpoint paths_from (cs1 cs2 : list string) : list string :=
  match cs2 with
  | [] => []
  | c :: cs2 => path_of (cs1 ++ [c])%list :: paths_from (cs1 ++ [c])%list cs2
  end.

(** Directories for those of the paths that have no entry. *)
Definition mkdirs (clock : string -> Z) (ps : list string) (m : gmap string Entry) : gmap string Entry :=
  fold_left (fun m p => match m !! p with Some _ => m | None => <[p := dir_entry (clock p) p]> m end) ps m.

Lemma mkdirs_old clock ps m p e : m !! p = Some e -> mkdirs clock ps m !! p = Some e.
Proof.
  revert m. induction ps as [|q ps IH]; intros m Hp; [done|]. cbn. apply IH.
  destruct (m !! q) eqn:E; [done|]. rewrite lookup_insert_ne; [done|]. congruence.
Qed.

Lemma mkdirs_present clock ps m p : p ∈ ps -> is_Some (mkdirs clock ps m !! p).
Proof.
  revert m. induction ps as [|q ps IH]; intros m Hp; [by apply not_elem_of_nil in Hp|]. cbn.
  apply elem_of_cons in Hp as [->|Hp]; [|by apply IH]. destruct (m !! q) as [e|] eqn:E.
  - exists e. by apply mkdirs_old.
  - eexists. apply mkdirs_old, lookup_insert_eq.
Qed.

Lemma mkdirs_new clock ps m p e :
  mkdirs clock ps m !! p = Some e -> m !! p = Some e \/ (m !! p = None /\ p ∈ ps /\ e = dir_entry (clock p) p).
Proof.
  revert m. induction ps as [|q ps IH]; intros m Hp; [by left|]. cbn in Hp. apply IH in Hp.
  destruct (m !! q) as [e'|] eqn:E; [rewrite elem_of_cons; tauto|].
  rewrite lookup_insert_Some, lookup_insert_None in Hp. rewrite elem_of_cons. destruct Hp as [[[<- <-]|[? ?]]|(? & ? & ?)]; tauto.
Qed.

Lemma path_of_snoc_parent cs c m : comp_ok c -> cs = [] \/ is_Some (m !! path_of cs) -> has_parent m (path_of (cs ++ [c])%list).
Proof. intros Hc [->|H]; unfold has_parent; rewrite DirAndName_snoc by done; [by left|by right]. Qed.

Lemma mkdirs_closed clock cs1 cs2 n m :
  Forall comp_ok cs2 -> closed m -> cs1 = [] \/ is_Some (m !! path_of cs1) ->
  closed (mkdirs clock (take n (paths_from cs1 cs2)) m).
Proof.
  revert cs1 n m. induction cs2 as [|c cs2 IH]; intros cs1 n m Hok Hm Hp; [cbn; by rewrite take_nil|].
  apply Forall_cons in Hok as [Hc Hok]. destruct n as [|n]; [done|]. cbn. apply IH; [done|..].
  - destruct (m !! path_of (cs1 ++ [c])%list); [done|]. apply closed_insert; [done|]. by apply path_of_snoc_parent.
  - right. destruct (m !! path_of (cs1 ++ [c])%list) eqn:E; [by rewrite E|by rewrite lookup_insert_eq].
Qed.

Lemma paths_from_last cs1 cs2 : cs2 <> [] -> path_of (cs1 ++ cs2)%list ∈ paths_from cs1 cs2.
Proof.
  revert cs1. induction cs2 as [|c cs2 IH]; intros cs1 Hne; [done|]. cbn. destruct cs2 as [|d cs2]; [by left|].
  right. specialize (IH (cs1 ++ [c])%list). rewrite <- app_assoc in IH. by apply IH.
Qed.

Lemma join_child_path cs c : Forall comp_ok cs -> join_child (path_of cs) c = path_of (cs ++ [c])%list.
Proof.
  intros Hcs. rewrite path_of_snoc. unfold join_child. destruct (decide (path_of cs = "/")) as [E|E].
  - by rewrite (path_of_inj cs [] Hcs (Forall_nil_2 _) E).
  - rewrite path_of_segs; [done|]. by intros ->.
Qed.

Section spec.
Context {S : Type} `{FilerStore S} (valid : string -> Prop) (good : Entry -> Prop) (rep : S -> gmap string Entry -> Prop).
Context {Hlaws : FilerLaws S valid good rep}.

Lemma valid_prefix cs1 cs2 : Forall comp_ok cs2 -> valid (path_of (cs1 ++ cs2)%list) -> valid (path_of cs1).
Proof.
  induction cs2 as [|c cs2 IH] using rev_ind; intros Hok Hv; [by rewrite app_nil_r in Hv|].
  apply Forall_app in Hok as [Hok [Hc _]%Forall_cons]. apply IH; [done|]. rewrite app_assoc in Hv.
  apply valid_dir in Hv. by rewrite DirAndName_snoc in Hv.
Qed.

Context (clock : string -> Z) (Hgood : forall p, valid p -> good (dir_entry (clock p) p)).

(** What is created is an initial part of the way, all of it on success. *)
Lemma mkdir_loop_spec cs1 cs2 s m :
  Forall comp_ok cs1 -> Forall comp_ok cs2 -> valid (path_of (cs1 ++ cs2)%list) -> rep s m ->
  let '(r, s') := mkdir_loop clock cs2 (path_of cs1) s in
  exists n, rep s' (mkdirs clock (take n (paths_from cs1 cs2)) m) /\
    match r with Ret _ => n = length cs2 | Fail _ => True | Panic => False end.
Proof.
  revert cs1 s m. induction cs2 as [|c cs2 IH]; intros cs1 s m Hok1 Hok2 Hv Hr; [by exists O|].
  apply Forall_cons in Hok2 as [Hc Hok2]. assert (valid (path_of (cs1 ++ [c])%list)) as Hvc.
  { apply (valid_prefix _ cs2); [done|]. by rewrite <- app_assoc. }
  assert (Forall comp_ok (cs1 ++ [c])%list) as Hok1' by (apply Forall_app; auto).
  assert (valid (path_of ((cs1 ++ [c]) ++ cs2)%list)) as Hv' by by rewrite <- app_assoc.
  cbn [mkdir_loop]. rewrite decide_False by apply Hc. rewrite join_child_path by done.
  set (p := path_of (cs1 ++ [c])%list) in *.
  destruct (FindEntry_law s m p Hr Hvc) as [Hr1 Hf]. destruct (FindEntry p s) as [[e|[|msg]|] s1]; cbn in Hr1, Hf; [| | |done].
  - specialize (IH _ s1 m Hok1' Hok2 Hv' Hr1). fold p in IH. destruct (mkdir_loop clock cs2 p s1) as [r s2]. destruct IH as (n & Hn & Hres).
    exists (Datatypes.S n). cbn. fold p. rewrite Hf. split; [done|]. destruct r; cbn; [by subst|done..].
  - pose proof (InsertEntry_law s1 m (dir_entry (clock p) p) Hr1 Hvc (Hgood p Hvc)) as Hw. cbn in Hw. unfold written in Hw.
    destruct (InsertEntry (dir_entry (clock p) p) s1) as [[u|e|] s2]; cbn in Hw; [| |done].
    + specialize (IH _ s2 _ Hok1' Hok2 Hv' Hw). fold p in IH. destruct (mkdir_loop clock cs2 p s2) as [r s3]. destruct IH as (n & Hn & Hres).
      exists (Datatypes.S n). cbn. fold p. rewrite Hf. split; [done|]. destruct r; cbn; [by subst|done..].
    + destruct Hw as [Hw|Hw]; [by exists O|]. exists 1%nat. cbn. fold p. by rewrite Hf.
  - by exists O.
Qed.

Lemma length_paths_from cs1 cs2 : length (paths_from cs1 cs2) = length cs2.
Proof. revert cs1. induction cs2; intros; cbn; auto. Qed.

Lemma MkdirAll_spec cs f s m :
  Forall comp_ok cs -> valid (path_of cs) -> f_Store f = Some s -> rep s m ->
  let '(r, f') := MkdirAll clock (path_of cs) f in
  exists s' n, f' = SetStore s' f /\ rep s' (mkdirs clock (take n (paths_from [] cs)) m) /\
    match r with Ret _ => n = length cs | Fail _ => True | Panic => False end.
Proof.
  intros Hok Hv Hf Hr. unfold MkdirAll, with_store, store_call. rewrite Hf. destruct cs as [|c cs].
  { cbn. exists s, O. by split_and!. }
  rewrite decide_False; [|intros [E|E]; [by apply (path_of_inj _ []) in E|by apply path_of_nonempty in E]].
  rewrite Split_Trim by done. pose proof (mkdir_loop_spec [] (c :: cs) s m (Forall_nil_2 _) Hok Hv Hr) as Hl.
  change (path_of []) with "/" in Hl. destruct (mkdir_loop clock (c :: cs) "/" s) as [[u|e|] s']; destruct Hl as (n & Hn & Hres);
    by exists s', n.
Qed.

Lemma create_entry_spec e s m :
  valid (e_FullPath e) -> good e -> rep s m ->
  let '(r, s') := create_entry e s in
  match r with
  | Ret _ => has_parent m (e_FullPath e) /\ rep s' (<[e_FullPath e := e]> m)
  | Fail ErrParentNotFound => rep s' m
  | Fail _ => rep s' m \/ (has_parent m (e_FullPath e) /\ rep s' (<[e_FullPath e := e]> m))
  | Panic => False
  end.
Proof.
  intros Hv Hg Hr. unfold create_entry, has_parent. pose proof (valid_dir _ Hv) as Hvd.
  destruct (DirAndName (e_FullPath e)) as [dir name]. cbn [fst] in *.
  assert (forall s, rep s m -> written rep m (<[e_FullPath e := e]> m) (InsertEntry e s)) as Hins
    by by (intros; apply InsertEntry_law).
  unfold written in Hins. unfold store_call. destruct (decide (dir = "/")) as [->|Hd].
  - specialize (Hins s Hr). destruct (InsertEntry e s) as [[u|err|] s']; cbn in Hins; [by split; [left|]| |done].
    destruct Hins; [by left|right]. by split; [left|].
  - destruct (FindEntry_law s m dir Hr Hvd) as [Hr1 Hf]. destruct (FindEntry dir s) as [[e'|[|msg]|] s1]; cbn in Hr1, Hf; try done.
    specialize (Hins s1 Hr1). rewrite Hf. destruct (InsertEntry e s1) as [[u|err|] s']; cbn in Hins; [by split; [right|]| |done].
    destruct Hins; [by left|right]. by split; [right|].
Qed.
End spec.

(** ** Listings page by page *)

Section pages.
Context {S : Type} `{FilerStore S} (valid : string -> Prop) (good : Entry -> Prop) (rep : S -> gmap string Entry -> Prop).
Context {Hlaws : FilerLaws S valid good rep}.

(** A client that follows the cursor until a page is empty; [None] is a client that gives
    up. *)
Fixpoint list_pages (fuel : nat) (dirPath start : string) (limit : Z) (s : S) : option (outcome filer_err (list Entry) * S) :=
  match fuel with
  | O => None
  | Datatypes.S fuel =>
      match list_page dirPath start limit s with
      | (Ret ([], _), s) => Some (Ret [], s)
      | (Ret (es, cursor), s) =>
          match list_pages fuel dirPath cursor limit s with
          | Some (Ret es', s) => Some (Ret (es ++ es')%list, s)
          | r => r
          end
      | (Fail e, s) => Some (Fail e, s)
      | (Panic, s) => Some (Panic, s)
      end
  end.

Definition collect (e : Entry) (es : list Entry) : bool * list Entry := (true, (es ++ [e])%list).

Lemma deliver_collect n l acc last :
  deliver n collect l acc last = (default last (list.last (fst <$> take n l)), (acc ++ (snd <$> take n l))%list).
Proof.
  revert l acc last. induction n as [|n IH]; intros l acc last; [by cbn; rewrite app_nil_r|].
  destruct l as [|[name e] l]; [by cbn; rewrite app_nil_r|]. cbn [deliver collect]. rewrite IH. cbn [take fmap list_fmap fst snd].
  rewrite <- app_assoc, last_cons. by destruct (list.last (fst <$> take n l)).
Qed.

Lemma listed_unique m dir start incl prefix l1 l2 :
  listed m dir start incl prefix l1 -> listed m dir start incl prefix l2 -> l1 = l2.
Proof.
  intros [Hs1 He1] [Hs2 He2]. apply fst_lt_unique; [done..|]. intros [name e]. by rewrite He1, He2.
Qed.

(** What follows the [n]-th entry of a listing is the listing from its name. *)
Lemma listed_drop m dir start l n name e :
  listed m dir start false "" l -> list.last (take n l) = Some (name, e) ->
  name <> "" -> listed m dir name false "" (drop n l).
Proof.
  intros [Hs He] Hlast Hname. rewrite <- (take_drop n l) in Hs. apply StronglySorted_app in Hs as (Hcross & Hs1 & Hs2).
  assert ((name, e) ∈ take n l) as Hin by (apply last_Some in Hlast as [l' ->]; set_solver).
  assert (forall x, x ∈ take n l -> x = (name, e) \/ str_lt (fst x) name) as Hle.
  { apply last_Some in Hlast as [l' E]. rewrite E in Hs1 |- *. apply StronglySorted_app in Hs1 as (Hc & _ & _).
    intros x [Hx|Hx%list_elem_of_singleton]%elem_of_app; [right|by left]. apply (Hc x (name, e)); [done|by left]. }
  assert (from_start start false name) as Hst.
  { destruct (proj1 (He name e)) as (_ & _ & _ & _ & ?); [|done]. rewrite <- (take_drop n l). set_solver. }
  split; [done|]. intros nm e'. specialize (He nm e'). rewrite <- (take_drop n l), elem_of_app in He. split.
  - intros Hx. destruct (proj1 He (or_intror Hx)) as (p & Hp & Hd & Hpre & _). exists p. split_and!; [done..|].
    right. by apply (Hcross (name, e) (nm, e')).
  - intros (p & Hp & Hd & Hpre & [|Hlt]); [done|].
    destruct He as [_ He]. destruct He as [Hx|Hx]; [|apply Hle in Hx as [[= -> ->]|Hx]|done].
    + exists p. split_and!; [done..|]. destruct Hst as [|Hst]; [by left|right]. by etrans.
    + by apply str_lt_irrefl in Hlt.
    + by destruct (str_lt_asym _ _ Hlt Hx).
Qed.

Lemma list_page_spec dir start limit s m :
  rep s m -> valid dir -> 0 < limit ->
  let '(r, s') := list_page dir start limit s in
  rep s' m /\
  match r with
  | Ret (es, cursor) => exists l, listed m dir start false "" l /\
      es = (snd <$> take (Z.to_nat limit) l) /\ cursor = default "" (list.last (fst <$> take (Z.to_nat limit) l))
  | Fail (FErrStore _) => True
  | _ => False
  end.
Proof.
  intros Hr Hd Hlim. unfold list_page, ListDirectoryEntries.
  pose proof (List_law s m (list Entry) dir start false limit collect [] Hr Hd Hlim) as Hl. unfold collect in Hl at 1.
  destruct (ListDirectoryPrefixedEntries dir start false limit "" _ [] s) as [[r es] s']. destruct Hl as [Hr' Hl].
  destruct r as [last| |]; [|done..]. split; [done|]. destruct Hl as (l & Hlisted & Hdel). exists l.
  rewrite deliver_collect in Hdel. injection Hdel as <- <-. split_and!; [done..|]. cbn [app].
  rewrite !fmap_last. destruct (list.last (take (Z.to_nat limit) l)) as [[name e]|] eqn:E; [|done]. cbn.
  assert ((name, e) ∈ l) as Hin.
  { apply last_Some in E as [l' E]. rewrite <- (take_drop (Z.to_nat limit) l), E. set_solver. }
  apply (ls_elem _ _ _ _ _ _ Hlisted) in Hin as (p & Hp & Hdn & _ & _). destruct (rep_keyed s' m p e Hr' Hp) as (-> & _ & _).
  by rewrite Hdn.
Qed.

Lemma list_pages_spec fuel dir start limit s m l :
  rep s m -> valid dir -> 0 < limit -> m !! "/" = None -> listed m dir start false "" l -> (length l < fuel)%nat ->
  exists r s', list_pages fuel dir start limit s = Some (r, s') /\ rep s' m /\
    match r with Ret es => es = (snd <$> l) | Fail (FErrStore _) => True | _ => False end.
Proof.
  intros Hr Hd Hlim Hroot. revert start s l Hr. induction fuel as [|fuel IH]; intros start s l Hr Hl Hfuel; [lia|].
  cbn [list_pages]. pose proof (list_page_spec dir start limit s m Hr Hd Hlim) as Hp.
  destruct (list_page dir start limit s) as [[[es cursor]|e|] s1]; destruct Hp as [Hr1 Hp]; [|by eauto|done].
  destruct Hp as (l' & Hl' & -> & ->). rewrite (listed_unique _ _ _ _ _ _ _ Hl' Hl) in *. clear l' Hl'.
  destruct l as [|[n0 e0] l0]; [rewrite take_nil; by eauto|].
  destruct (Z.to_nat limit) as [|k] eqn:Ek; [lia|]. cbn [take fmap list_fmap snd fst]. rewrite last_cons.
  set (full := (n0, e0) :: l0) in *.
  assert (exists name e, list.last (take (Datatypes.S k) full) = Some (name, e) /\
    match list.last (fst <$> take k l0) with Some y => Some y | None => Some n0 end = Some name) as (name & e & Hlast & ->).
  { cbn [full take]. rewrite last_cons, fmap_last. destruct (list.last (take k l0)) as [[name e]|]; eauto. }
  assert (name <> "") as Hname.
  { assert ((name, e) ∈ full) as Hin.
    { apply last_Some in Hlast as [l' E]. rewrite <- (take_drop (Datatypes.S k) full), E. set_solver. }
    apply (ls_elem _ _ _ _ _ _ Hl) in Hin as (p & Hp & Hdn & _). destruct (rep_keyed s1 m p e Hr1 Hp) as (_ & Hv & _).
    pose proof (DirAndName_name p (valid_abs p Hv)) as Hc. rewrite Hdn in Hc. apply Hc. by intros ->; congruence. }
  assert (listed m dir name false "" (drop k l0)) as Hrest' by by apply (listed_drop m dir start full (Datatypes.S k) name e).
  destruct (IH name s1 _ Hr1 Hrest') as (r & s' & Hrun & Hr' & Hres); [rewrite length_drop; cbn in Hfuel; lia|].
  cbn [default id]. rewrite Hrun. destruct r as [es| |]; [|by eauto..]. eexists _, s'. split_and!; [done..|].
  subst es. cbn. f_equal. by rewrite <- fmap_app, take_drop.
Qed.
End pages.
