(* ===== verification/FilerServer.v ===== *)
(** * FilerServer: the handlers of the filer server

    Models the conversions, the operations on entries and the parsing of events of
    [goblob/server/filer_grpc_server.go] over any store.  The clock and the outcome of
    sending on a stream are arguments. *)

From S2P Require Import Prelude GoStrings GoPath Types LogBuffer Http FilerStore Filer.
From stdpp Require Import sorting.

#[local] Open Scope Z_scope.
#[local] Open Scope string_scope.

(** ** Paths *)

Definition joinDirectoryAndName (directory name : string) : string :=
  let dir := if decide (directory = "") then "/" else directory in
  let dir := if HasPrefix dir "/" then dir else "/" +:+ dir in
  if decide (name = "") then Clean dir else
  if decide (dir = "/") then Clean ("/" +:+ name) else
  Clean (dir +:+ "/" +:+ name).

Definition normalizeAbsolutePath (raw : string) : string :=
  if decide (raw = "") then "/" else Clean ("/" +:+ raw).

(** ** Messages *)

Record PbChunk := mkPbChunk {
  pc_FileId : string;
  pc_Offset : Z;
  pc_Size : Z;
  pc_ModifiedTsNs : Z;
  pc_ETag : string;
  pc_IsCompressed : bool;
  pc_Fid : string;
}.

Record FuseAttributes := mkFuse {
  fa_FileSize : Z;
  fa_Mtime : Z;
  fa_FileMode : Z;
  fa_Uid : Z;
  fa_Gid : Z;
  fa_Crtime : Z;
  fa_Mime : string;
  fa_Replication : string;
  fa_Collection : string;
  fa_TtlSec : Z;
  fa_SymlinkTarget : string;
  fa_DiskType : string;
  fa_Inode : Z;
}.

Record PbRemote := mkPbRemote { pr_StorageName : string; pr_RemotePath : string; pr_RemoteETag : string }.

Record PbEntry := mkPbEntry {
  pe_Name : string;
  pe_IsDirectory : bool;
  pe_Chunks : list (option PbChunk);
  pe_Attributes : option FuseAttributes;
  pe_Extended : gmap string bytes;
  pe_Content : bytes;
  pe_HardLinkId : bytes;
  pe_HardLinkCounter : Z;
  pe_Remote : option PbRemote;
}.

Definition chunkToProto (c : FileChunk) : PbChunk :=
  mkPbChunk (fc_FileId c) (fc_Offset c) (Z.max 0 (fc_Size c)) (fc_ModifiedTsNs c) (fc_ETag c) (fc_IsCompressed c) (fc_FileId c).

Definition protoToChunk (c : PbChunk) : FileChunk :=
  mkChunk (pc_FileId c) (pc_Offset c) (i64 (pc_Size c)) (pc_ModifiedTsNs c) (pc_ETag c) (pc_IsCompressed c).

(** [time.Time.Unix] and [time.Unix] *)
Definition to_unix (ns : Z) : Z := ns / 10 ^ 9.
Definition of_unix (sec : Z) : Z := sec * 10 ^ 9.

Definition entryAttrToProto (a : Attr) : FuseAttributes :=
  mkFuse (at_FileSize a) (to_unix (at_Mtime a)) (at_Mode a) (at_Uid a) (at_Gid a) (to_unix (at_Crtime a)) (at_Mime a)
    (at_Replication a) (at_Collection a) (at_TtlSec a) (at_SymlinkTarget a) (at_DiskType a) (at_INode a).

Definition set_Mode (mode : Z) (a : Attr) : Attr :=
  mkAttr mode (at_Uid a) (at_Gid a) (at_Mtime a) (at_Crtime a) (at_Mime a) (at_Replication a) (at_Collection a)
    (at_TtlSec a) (at_DiskType a) (at_FileSize a) (at_INode a) (at_SymlinkTarget a).

Definition protoAttrToEntry (pb : option FuseAttributes) (isDir : bool) : Attr :=
  let attr := match pb with
    | None => set_Mode 420 zero_attr
    | Some p => mkAttr (fa_FileMode p) (fa_Uid p) (fa_Gid p) (of_unix (fa_Mtime p)) (of_unix (fa_Crtime p)) (fa_Mime p)
                  (fa_Replication p) (fa_Collection p) (fa_TtlSec p) (fa_DiskType p) (fa_FileSize p) (fa_Inode p)
                  (fa_SymlinkTarget p)
    end in
  if isDir then set_Mode (Z.lor (at_Mode attr) ModeDir) attr else attr.

Definition entryToProto (e : Entry) : PbEntry :=
  mkPbEntry (snd (DirAndName (e_FullPath e))) (IsDirectory e)
    (omap (fun oc => Some ∘ chunkToProto <$> oc) (e_Chunks e)) (Some (entryAttrToProto (e_Attr e))) (e_Extended e)
    (e_Content e) (e_HardLinkId e) (e_HardLinkCounter e)
    ((fun r => mkPbRemote (re_StorageName r) (re_Key r) (re_ETag r)) <$> e_Remote e).

Definition protoToEntry (directory : string) (pb : option PbEntry) : option Entry :=
  p ← pb;
  Some (mkEntry (joinDirectoryAndName directory (pe_Name p)) (protoAttrToEntry (pe_Attributes p) (pe_IsDirectory p))
    (omap (fun oc => Some ∘ protoToChunk <$> oc) (pe_Chunks p)) (pe_Content p) (pe_Extended p) (pe_HardLinkId p)
    (pe_HardLinkCounter p)
    ((fun r => mkRemote (pr_StorageName r) (pr_RemotePath r) (pr_RemoteETag r) "") <$> pe_Remote p)).

(** ** The server *)

(** The codes of the errors returned; [SendError] is the error of [stream.Send] itself. *)
Inductive grpc_code := Unavailable | NotFound | Internal | InvalidArgument | SendError.

Section server.
Context {S : Type} `{FilerStore S}.

Record FilerServer := mkServer { srv_filer : option (Filer S); srv_log : LogBuffer }.

(** [SetStore] up to the lock manager, the uploader and the resolver; [now] is the time at
    which a new filer gets its id. *)
Definition srv_SetStore (now : Z) (masters : list string) (store : S) (fs : FilerServer) : FilerServer :=
  mkServer (Some (match srv_filer fs with
                  | None => NewFiler now (Some store) masters
                  | Some f => SetStore store f
                  end)) (srv_log fs).

(** [fs.logBuffer.AppendEntry([]byte(text))] *)
Definition log_event (now : Z) (text : string) (fs : FilerServer) : FilerServer :=
  mkServer (srv_filer fs) (AppendEntry now (code <$> chars text) (srv_log fs)).

(** A handler that starts with [requireFiler] and goes on with the filer. *)
Definition with_filer {E A} (unavailable : E) (m : Filer S -> GoM FilerServer E A) : GoM FilerServer E A := fun fs =>
  match srv_filer fs with
  | Some f => if decide (is_Some (f_Store f)) then m f fs else (Fail unavailable, fs)
  | None => (Fail unavailable, fs)
  end.

(** A call to the filer of the server, with the code for its error. *)
Definition filer_call {E A} (code_of : filer_err -> E) (m : GoM (Filer S) filer_err A) : GoM FilerServer E A := fun fs =>
  match srv_filer fs with
  | None => (Panic, fs)
  | Some f =>
      let '(r, f) := m f in
      (match r with Ret a => Ret a | Fail e => Fail (code_of e) | Panic => Panic end, mkServer (Some f) (srv_log fs))
  end.

(** [err == filer.ErrNotFound] *)
Definition found_code (e : filer_err) : grpc_code := match e with FErrStore ErrNotFound => NotFound | _ => Internal end.
Definition internal (e : filer_err) : grpc_code := Internal.

Definition LookupDirectoryEntry (directory name : string) : GoM FilerServer grpc_code PbEntry :=
  with_filer Unavailable (fun _ =>
  e ← filer_call found_code (f_FindEntry (joinDirectoryAndName directory name));
  mret (entryToProto e)).

Definition g_CreateEntry (now : Z) (directory : string) (pb : option PbEntry) : GoM FilerServer grpc_code unit :=
  with_filer Unavailable (fun _ =>
  match protoToEntry directory pb with
  | None => fail InvalidArgument
  | Some e =>
      filer_call internal (f_CreateEntry e);;
      modify (log_event now ("create:" +:+ e_FullPath e))
  end).

Definition g_UpdateEntry (directory : string) (pb : option PbEntry) : GoM FilerServer grpc_code unit :=
  with_filer Unavailable (fun _ =>
  match protoToEntry directory pb with
  | None => fail InvalidArgument
  | Some e => filer_call internal (f_UpdateEntry e)
  end).

Definition g_DeleteEntry (now : Z) (directory name : string) : GoM FilerServer grpc_code unit :=
  with_filer Unavailable (fun _ =>
  let fullPath := joinDirectoryAndName directory name in
  filer_call found_code (f_DeleteEntry fullPath);;
  modify (log_event now ("delete:" +:+ fullPath))).

Definition AppendToEntry (directory entryName : string) (chunks : list (option PbChunk)) : GoM FilerServer grpc_code unit :=
  with_filer Unavailable (fun _ =>
  e ← filer_call found_code (f_FindEntry (joinDirectoryAndName directory entryName));
  filer_call internal (f_UpdateEntry
    (set_Chunks (e_Chunks e ++ omap (fun oc => Some ∘ protoToChunk <$> oc) chunks)%list e))).

Definition AtomicRenameEntry (now : Z) (oldDirectory oldName newDirectory newName : string) : GoM FilerServer grpc_code unit :=
  with_filer Unavailable (fun _ =>
  let oldPath := joinDirectoryAndName oldDirectory oldName in
  let newPath := joinDirectoryAndName newDirectory newName in
  e ← filer_call found_code (f_FindEntry oldPath);
  filer_call internal (f_UpdateEntry (set_FullPath newPath e));;
  filer_call internal (f_DeleteEntry oldPath);;
  modify (log_event now ("rename:" +:+ oldPath +:+ "->" +:+ newPath))).

(** [ListEntries]: the entries sent, in order; [send_ok k] tells whether the [k]-th message
    can be sent. The callback's state has the messages sent and whether one failed. *)
Definition send_entry (send_ok : nat -> bool) (e : Entry) (acc : list PbEntry * bool) : bool * (list PbEntry * bool) :=
  let '(sent, failed) := acc in
  if failed then (false, acc) else
  if send_ok (length sent) then (true, ((sent ++ [entryToProto e])%list, false)) else (false, (sent, true)).

Definition ListEntries (send_ok : nat -> bool) (directory prefix start : string) (incl : bool) (limit : Z)
  : FilerServer -> outcome grpc_code unit * list PbEntry * FilerServer := fun fs =>
  match srv_filer fs with
  | Some f =>
      match f_Store f with
      | Some s =>
          let limit := if decide (limit <= 0) then 10000 else limit in
          let dir := joinDirectoryAndName directory "" in
          let '(r, (sent, failed), s) :=
            if decide (prefix <> "")
            then ListDirectoryPrefixedEntries dir start incl limit prefix (send_entry send_ok) ([], false) s
            else ListDirectoryEntries dir start incl limit (send_entry send_ok) ([], false) s in
          let res := if failed then Fail SendError
                     else match r with Ret _ => Ret tt | Fail _ => Fail Internal | Panic => Panic end in
          (res, sent, mkServer (Some (SetStore s f)) (srv_log fs))
      | None => (Fail Unavailable, [], fs)
      end
  | None => (Fail Unavailable, [], fs)
  end.

(** ** Key-value requests *)

(** A response with a value and the text of an error. *)
Definition kv_response {A} (zero : A) (m : GoM S store_err A) : GoM FilerServer grpc_code (A * string) :=
  with_filer Unavailable (fun f fs =>
  match f_Store f with
  | None => (Fail Unavailable, fs)
  | Some s =>
      let '(r, s) := m s in
      (match r with Ret a => Ret (a, "") | Fail e => Ret (zero, Error e) | Panic => Panic end,
       mkServer (Some (SetStore s f)) (srv_log fs))
  end).

Definition g_KvGet (key : string) : GoM FilerServer grpc_code (string * string) := kv_response "" (KvGet key).
Definition g_KvPut (key value : string) : GoM FilerServer grpc_code (unit * string) := kv_response tt (KvPut key value).
Definition g_KvDelete (key : string) : GoM FilerServer grpc_code (unit * string) := kv_response tt (KvDelete key).
End server.
Arguments FilerServer : clear implicits.

Definition parseLookupVolumeToken (value : string) : option Z :=
  if decide (value = "") then None else
  match ParseFileId value with
  | Ret fid => Some (fid_VolumeId fid)
  | _ => ParseUint (chars value) 10 32
  end.

(** ** Events *)

(** The time and the names of the old and the new entry of a notification. *)
Record SubscribeResponse := mkNotice {
  nt_Directory : string;
  nt_TsNs : Z;
  nt_OldEntry : option string;
  nt_NewEntry : option string;
  nt_NewParentPath : string;
}.

(** At the time [ts], when the event is sent. *)
Definition eventBytesToSubscribeResponse (ts : Z) (evt : string) : option SubscribeResponse :=
  '(op, target) ← Cut evt ":";
  if decide (target = "") then None else
  let '(dir, name) := DirAndName target in
  if decide (op = "create") then Some (mkNotice dir ts None (Some name) "") else
  if decide (op = "delete") then Some (mkNotice dir ts (Some name) None "") else
  if decide (op = "rename") then
    match Cut target "->" with
    | Some (old, new) =>
        let '(oldDir, oldName) := DirAndName old in
        let '(newDir, newName) := DirAndName new in
        Some (mkNotice oldDir ts (Some oldName) (Some newName) newDir)
    | None => Some (mkNotice dir ts None None "")
    end
  else None.
