(* ===== verification/PathSpec.v ===== *)
(** * PathSpec: clean paths and postconditions of calls

    What [path.Clean], [path.Join], [path.Split] and [joinDirectoryAndName] do to clean
    paths, and the rules for the postcondition of a call. *)

From S2P Require Import Prelude GoStrings GoPath FilerServer.

#[local] Open Scope Z_scope.
#[local] Open Scope string_scope.

(** ** Paths *)

Abbreviation clean cs := (Forall clean_comp cs).

Lemma clean_comps_ok cs : clean cs -> Forall comp_ok cs.
Proof. intros H. eapply Forall_impl; [exact H|]. by intros c []. Qed.

Lemma split_byte_join c l1 l2 : split_byte c (l1 ++ c :: l2)%list = (split_byte c l1 ++ split_byte c l2)%list.
Proof.
  induction l1 as [|x l1 IH]; cbn; [by rewrite decide_True|]. destruct (decide (x = c)); cbn; [by rewrite IH|]. rewrite IH.
  destruct (split_byte c l1) as [|p ps] eqn:E; [|done]. destruct l1; cbn in E; repeat case_match; done.
Qed.

Lemma Split_append s t : Split slash (s +:+ "/" +:+ t) = (Split slash s ++ Split slash t)%list.
Proof.
  unfold Split. rewrite !chars_append. change (chars "/") with [slash]. cbn [app]. by rewrite split_byte_join, fmap_app.
Qed.

Lemma Split_rooted s : Split slash ("/" +:+ s) = "" :: Split slash s.
Proof. by rewrite <- (append_nil_l ("/" +:+ s)), Split_append. Qed.

(** The components that [Clean] keeps of a rooted path. *)
Lemma Clean_comps s : Clean ("/" +:+ s) = path_of (reverse (fold_left (clean_step true) (Split slash s) [])).
Proof.
  unfold Clean. change ("/" +:+ s) with (String slash s). rewrite decide_False by done.
  assert (HasPrefix (String slash s) "/" = true) as -> by (unfold HasPrefix; cbn; by destruct s).
  rewrite Join_path_of. change (String slash s) with ("/" +:+ s). by rewrite Split_rooted.
Qed.

Lemma Split_comp c : comp_ok c -> Split slash c = [c].
Proof. intros [_ Hc]. unfold Split. rewrite split_byte_nosep by done. cbn. by rewrite str_chars. Qed.

Lemma Split_Join cs : cs <> [] -> Forall comp_ok cs -> Split slash (Join "/" cs) = cs.
Proof.
  induction cs as [|c cs IH]; intros Hne Hok; [done|]. apply Forall_cons in Hok as [Hc Hok].
  destruct cs as [|d cs]; [cbn [Join]; by apply Split_comp|]. cbn [Join]. rewrite Split_append, Split_comp by done. cbn [app].
  f_equal. by apply IH.
Qed.

Lemma Clean_Join cs : clean cs -> Clean ("/" +:+ Join "/" cs) = path_of cs.
Proof. intros Hcs. by rewrite Join_path_of, Clean_path_of. Qed.

(** [path.Join] of a path and a text below it. *)
Lemma path_Join_text cs k :
  clean cs -> path_Join [path_of cs; k] = path_of (reverse (fold_left (clean_step true) (Split slash k) (reverse cs))).
Proof.
  intros Hcs. unfold path_Join. rewrite filter_cons_True by apply path_of_nonempty. destruct (decide (k = "")) as [->|Hk].
  - rewrite filter_cons_False by naive_solver. cbn [filter list_filter Join]. rewrite Clean_path_of by done.
    change (Split slash "") with [""]. cbn [fold_left]. unfold clean_step. rewrite decide_True by auto. by rewrite reverse_involutive.
  - rewrite filter_cons_True by done. cbn [filter list_filter Join]. rewrite <- (Join_path_of cs), <- append_assoc, Clean_comps, Split_append.
    rewrite fold_left_app. do 3 f_equal. destruct cs as [|c cs]; [done|].
    rewrite Split_Join by (done || by apply clean_comps_ok). by rewrite clean_steps, app_nil_r.
Qed.

Lemma path_Join_key cs ks : clean cs -> clean ks -> path_Join [path_of cs; Join "/" ks] = path_of (cs ++ ks)%list.
Proof.
  intros Hcs Hks. rewrite path_Join_text by done. destruct ks as [|k ks].
  - cbn [Join]. change (Split slash "") with [""]. cbn [fold_left]. unfold clean_step. rewrite decide_True by auto.
    by rewrite reverse_involutive, app_nil_r.
  - rewrite Split_Join by (done || by apply clean_comps_ok). by rewrite clean_steps, reverse_app, !reverse_involutive by done.
Qed.

Lemma path_Join_comp cs c : clean cs -> clean_comp c -> path_Join [path_of cs; c] = path_of (cs ++ [c])%list.
Proof. intros Hcs Hc. apply (path_Join_key cs [c]); [done|by constructor]. Qed.

(** [path.Join(current, "/", segment)] *)
Lemma path_Join_segment cs c :
  clean cs -> clean_comp c -> path_Join [if decide (cs = []) then "" else path_of cs; "/"; c] = path_of (cs ++ [c])%list.
Proof.
  intros Hcs Hc. assert (c <> "") as Hne by apply Hc. unfold path_Join. destruct (decide (cs = [])) as [->|Hcs'].
  - rewrite filter_cons_False by naive_solver. rewrite !filter_cons_True by done. cbn [filter list_filter Join]. rewrite Clean_comps.
    rewrite Split_rooted, Split_comp by apply Hc.
    change (fold_left (clean_step true) [""; c] []) with (fold_left (clean_step true) [c] []).
    by rewrite (clean_steps [c]) by by constructor.
  - rewrite !filter_cons_True by (done || apply path_of_nonempty). cbn [filter list_filter Join].
    rewrite <- (Join_path_of cs), <- append_assoc, Clean_comps, !Split_append. rewrite Split_Join by (done || by apply clean_comps_ok).
    rewrite (Split_comp c) by apply Hc. change (Split slash "/") with [""; ""]. rewrite !fold_left_app, (clean_steps cs), app_nil_r by done.
    change (fold_left (clean_step true) [""; ""] (reverse cs)) with (reverse cs). rewrite clean_steps by by constructor.
    by rewrite reverse_app, !reverse_involutive.
Qed.

Lemma path_Split_snoc cs c : comp_ok c -> path_Split (path_of (cs ++ [c])%list) = (segs cs +:+ "/", c).
Proof.
  intros [_ Hc]. unfold path_Split. rewrite path_of_snoc, !chars_append. change (chars "/") with [slash]. cbn [app].
  rewrite last_index_byte_app by done. rewrite cons_middle, app_assoc.
  replace (Datatypes.S (length (chars (segs cs)))) with (length (chars (segs cs) ++ [slash])%list) by (rewrite length_app; cbn; lia).
  rewrite take_app_length, drop_app_length, str_chars. f_equal. apply chars_inj. by rewrite chars_str, chars_append.
Qed.

Lemma Clean_dir cs : clean cs -> Clean (segs cs +:+ "/") = path_of cs.
Proof.
  intros Hcs. destruct cs as [|c cs]; [done|]. rewrite <- Join_segs by done. rewrite <- append_assoc.
  change (Join "/" (c :: cs) +:+ "/") with (Join "/" (c :: cs) +:+ "/" +:+ ""). rewrite Clean_comps, Split_append, Split_Join by (done || by apply clean_comps_ok).
  rewrite fold_left_app, (clean_steps (c :: cs)), app_nil_r by done. change (Split slash "") with [""]. cbn [fold_left].
  unfold clean_step. rewrite decide_True by auto. by rewrite reverse_involutive.
Qed.

Lemma Clean_slash cs : clean cs -> Clean ("/" +:+ path_of cs) = path_of cs.
Proof.
  intros Hcs. destruct cs as [|c cs]; [done|]. rewrite <- (Join_path_of (c :: cs)) at 1. rewrite Clean_comps, Split_rooted.
  rewrite Split_Join by (done || by apply clean_comps_ok).
  change (fold_left (clean_step true) ("" :: c :: cs) []) with (fold_left (clean_step true) (c :: cs) []).
  by rewrite clean_steps, app_nil_r, reverse_involutive by done.
Qed.

Lemma path_of_root cs : Forall comp_ok cs -> path_of cs = "/" -> cs = [].
Proof. intros Hcs E. by apply (path_of_inj cs []). Qed.

Lemma joinDirectoryAndName_comp cs c : clean cs -> clean_comp c -> joinDirectoryAndName (path_of cs) c = path_of (cs ++ [c])%list.
Proof.
  intros Hcs Hc. unfold joinDirectoryAndName. rewrite (decide_False (P := path_of cs = "")) by apply path_of_nonempty. rewrite path_of_prefix.
  rewrite decide_False by apply Hc. assert (clean (cs ++ [c])%list) as Hsn by (apply Forall_app_2; [done|by constructor]).
  destruct (decide (path_of cs = "/")) as [E|E].
  - apply path_of_root in E as ->; [|by apply clean_comps_ok]. cbn [app] in *. by apply (Clean_Join [c]).
  - rewrite <- (Join_path_of cs), <- append_assoc, Clean_comps, Split_append.
    rewrite Split_Join, (Split_comp c) by (first [intros ->; by apply E|by apply clean_comps_ok|apply Hc]).
    by rewrite fold_left_app, (clean_steps cs), app_nil_r, (clean_steps [c]), reverse_app, reverse_involutive by (done || by constructor).
Qed.

Lemma joinDirectoryAndName_dir cs : clean cs -> joinDirectoryAndName (path_of cs) "" = path_of cs.
Proof.
  intros Hcs. unfold joinDirectoryAndName. rewrite (decide_False (P := path_of cs = "")) by apply path_of_nonempty. rewrite path_of_prefix.
  by rewrite decide_True, Clean_path_of.
Qed.

Lemma Split_TrimPrefix cs : cs <> [] -> clean cs -> Split slash (TrimPrefix (path_of cs) "/") = cs.
Proof.
  intros Hne Hcs. unfold TrimPrefix. rewrite path_of_prefix, <- Join_path_of, chars_append.
  change (drop (String.length "/") (chars "/" ++ chars (Join "/" cs))%list) with (chars (Join "/" cs)).
  rewrite str_chars. apply Split_Join; [done|by apply clean_comps_ok].
Qed.

(** ** Postconditions of calls *)

Definition runs {St E A} (m : GoM St E A) (s : St) (Q : outcome E A -> St -> Prop) : Prop := let '(r, s') := m s in Q r s'.

Lemma runs_mono {St E A} (m : GoM St E A) s (Q1 Q2 : outcome E A -> St -> Prop) :
  runs m s Q1 -> (forall r s', Q1 r s' -> Q2 r s') -> runs m s Q2.
Proof. unfold runs. destruct (m s). auto. Qed.

Lemma runs_bind {St E A B} (m : GoM St E A) (k : A -> GoM St E B) s (Q : outcome E B -> St -> Prop) :
  runs m s (fun r s' => match r with Ret a => runs (k a) s' Q | Fail e => Q (Fail e) s' | Panic => Q Panic s' end) ->
  runs (m ≫= k) s Q.
Proof. unfold runs, mbind, GoM_bind. destruct (m s) as [[a|e|] s']; auto. Qed.

Lemma runs_ret {St E A} (a : A) s (Q : outcome E A -> St -> Prop) : Q (Ret a) s -> runs (mret a) s Q.
Proof. done. Qed.

Lemma runs_fail {St E A} (e : E) s (Q : outcome E A -> St -> Prop) : Q (Fail e) s -> runs (fail e) s Q.
Proof. done. Qed.
