(* ===== verification/ChunkUpload.v ===== *)
(** * ChunkUpload: the parallel upload of a stream

    Models [ChunkUpload], [UploadWithRetry] and [isRetryable] of
    [goblob/operation/client.go].  The caller, which reads chunks and sends them to the
    workers over a channel, and the workers, which answer over another, interleave in a
    step relation; both channels have room for as many messages as there are workers.  The
    requests to the master and to the volume servers are arguments. *)

From S2P Require Import Prelude GoPath.
From stdpp Require Import sorting.
From Stdlib Require Import Sorting.Sorted.

#[local] Open Scope Z_scope.

(** ** Retries *)

(** Errors of a request: of the network, a status, or another. *)
Inductive request_err := NetError | HTTPStatusError (code : Z) | OtherError.

Definition isRetryable (e : request_err) : bool :=
  match e with
  | NetError => true
  | HTTPStatusError c => bool_decide (c ∈ [429; 500; 502; 503; 504])
  | OtherError => false
  end.

(** [retries] more attempts may follow the one numbered [attempt]; the context is not
    cancelled while the call waits. *)
Fixpoint retry_loop {A} (upload : nat -> request_err + A) (retries attempt : nat) : request_err + A :=
  match upload attempt with
  | inr a => inr a
  | inl e =>
      match retries with
      | O => inl e
      | S retries => if isRetryable e then retry_loop upload retries (S attempt) else inl e
      end
  end.

Definition UploadWithRetry {A} (upload : nat -> request_err + A) (maxRetries : Z) : request_err + A :=
  retry_loop upload (Z.to_nat (Z.max 0 maxRetries)) 0.

(** ** Chunks of the stream *)

Record chunkJob := mkJob { jb_index : nat; jb_offset : Z; jb_data : bytes }.

Record ChunkUploadResult := mkChunkResult {
  cu_FileId : String.string;
  cu_Offset : Z;
  cu_Size : Z;
  cu_ModifiedTsNs : Z;
  cu_ETag : String.string;
}.

Definition defaultChunkSizeBytes : Z := 8 * 1024 * 1024.

(** The rounds of the loop around [io.ReadFull]: each takes a full buffer, the last one
    what is left; the length of the data bounds their number. *)
Fixpoint read_jobs (fuel : nat) (size : Z) (index : nat) (offset : Z) (data : bytes) : list chunkJob :=
  match fuel with
  | O => []
  | S fuel =>
      if decide (data = []) then [] else
      let n := Z.to_nat (Z.min size (zlen data)) in
      mkJob index offset (take n data) :: read_jobs fuel size (S index) (offset + Z.of_nat n) (drop n data)
  end.

Definition chunk_jobs (chunkSizeBytes : Z) (data : bytes) : list chunkJob :=
  read_jobs (length data) (if decide (chunkSizeBytes <= 0) then defaultChunkSizeBytes else chunkSizeBytes) 0 0 data.

(** ** The goroutines *)

Definition defaultChunkWorkers : nat := 3.

(** A result with the index of its job; [None] for an error. *)
Definition chunkResult : Type := nat * option ChunkUploadResult.

Inductive worker := Idle | Busy (j : chunkJob) | Holding (r : chunkResult) | Exited.

Inductive phase :=
| Sending
| Aborting
| Collecting
| Aborted
| Failed
| Returned (out : list ChunkUploadResult).

Record upload_state := mkUpload {
  us_todo : list chunkJob;
  us_jobs : list chunkJob;
  us_workers : list worker;
  us_results : list chunkResult;
  us_collected : list chunkResult;
  us_phase : phase;
}.

Definition upload_start (jobs : list chunkJob) : upload_state :=
  mkUpload jobs [] (replicate defaultChunkWorkers Idle) [] [] Sending.

(** [close(jobs)] has been called. *)
Definition jobs_closed (p : phase) : Prop := p <> Sending.

Definition index_le (x y : chunkResult) : Prop := (fst x <= fst y)%nat.

#[export] Instance index_le_dec : RelDecision index_le.
Proof. intros x y. unfold index_le. apply _. Defined.

#[export] Instance index_le_trans : Transitive index_le.
Proof. intros x y z. unfold index_le. lia. Qed.
#[export] Instance index_le_total : Total index_le.
Proof. intros x y. unfold index_le. lia. Qed.

(** What is returned: the results in the order of their jobs. *)
Definition upload_output (collected : list chunkResult) : list ChunkUploadResult := omap snd (merge_sort index_le collected).

(** The work on one chunk: a file id from the master and the upload to its volume server,
    with the entity tag it answers. *)
Definition upload_chunk (assign : chunkJob -> request_err + String.string)
    (put : chunkJob -> String.string -> nat -> request_err + String.string) (now : chunkJob -> Z) (j : chunkJob)
  : option ChunkUploadResult :=
  match assign j with
  | inl _ => None
  | inr fid =>
      match UploadWithRetry (put j fid) 3 with
      | inl _ => None
      | inr etag => Some (mkChunkResult fid (jb_offset j) (zlen (jb_data j)) (now j) etag)
      end
  end.

(** [cancelled] tells whether reading the stream fails or the context ends. *)
Section steps.
Context (cancelled : bool) (upload : chunkJob -> option ChunkUploadResult).

Inductive upload_step : upload_state -> upload_state -> Prop :=
| step_send j todo jobs ws rs :
    (length jobs < defaultChunkWorkers)%nat ->
    upload_step (mkUpload (j :: todo) jobs ws rs [] Sending) (mkUpload todo (jobs ++ [j]) ws rs [] Sending)
| step_abort todo jobs ws rs :
    cancelled = true ->
    upload_step (mkUpload todo jobs ws rs [] Sending) (mkUpload todo jobs ws rs [] Aborting)
| step_close jobs ws rs :
    upload_step (mkUpload [] jobs ws rs [] Sending) (mkUpload [] jobs ws rs [] Collecting)
| step_take i todo j jobs ws rs cs p :
    ws !! i = Some Idle ->
    upload_step (mkUpload todo (j :: jobs) ws rs cs p) (mkUpload todo jobs (<[i := Busy j]> ws) rs cs p)
| step_work i todo j jobs ws rs cs p :
    ws !! i = Some (Busy j) ->
    upload_step (mkUpload todo jobs ws rs cs p)
      (mkUpload todo jobs (<[i := Holding (jb_index j, upload j)]> ws) rs cs p)
| step_put i todo jobs r ws rs cs p :
    ws !! i = Some (Holding r) -> (length rs < defaultChunkWorkers)%nat ->
    upload_step (mkUpload todo jobs ws rs cs p) (mkUpload todo jobs (<[i := Idle]> ws) (rs ++ [r]) cs p)
| step_exit i todo ws rs cs p :
    ws !! i = Some Idle -> jobs_closed p ->
    upload_step (mkUpload todo [] ws rs cs p) (mkUpload todo [] (<[i := Exited]> ws) rs cs p)
| step_receive todo jobs ws k r rs cs :
    upload_step (mkUpload todo jobs ws ((k, Some r) :: rs) cs Collecting)
      (mkUpload todo jobs ws rs (cs ++ [(k, Some r)]) Collecting)
| step_fail todo jobs ws k rs cs :
    upload_step (mkUpload todo jobs ws ((k, None) :: rs) cs Collecting) (mkUpload todo jobs ws rs cs Failed)
| step_return todo jobs ws cs :
    Forall (eq Exited) ws ->
    upload_step (mkUpload todo jobs ws [] cs Collecting) (mkUpload todo jobs ws [] cs (Returned (upload_output cs)))
| step_aborted todo jobs ws rs cs :
    Forall (eq Exited) ws ->
    upload_step (mkUpload todo jobs ws rs cs Aborting) (mkUpload todo jobs ws rs cs Aborted).
End steps.

(** ** Termination *)

Definition worker_weight (w : worker) : nat :=
  match w with Idle => 1 | Busy _ => 4 | Holding _ => 3 | Exited => 0 end.

Definition phase_weight (p : phase) : nat := match p with Sending => 2 | Aborting | Collecting => 1 | _ => 0 end.

Definition weight (st : upload_state) : nat :=
  5 * length (us_todo st) + 4 * length (us_jobs st) + sum_list_with worker_weight (us_workers st)
  + length (us_results st) + phase_weight (us_phase st).

Lemma sum_list_with_insert {A} (f : A -> nat) l i x y :
  l !! i = Some x -> (sum_list_with f (<[i := y]> l) + f x = sum_list_with f l + f y)%nat.
Proof.
  revert i. induction l as [|z l IH]; intros [|i] Hi; cbn in *; [done..| |].
  - injection Hi as ->. lia.
  - rewrite <- !Nat.add_assoc. f_equal. by apply IH.
Qed.

Section proofs.
Context (cancelled : bool) (upload : chunkJob -> option ChunkUploadResult) (all : list chunkJob).
Local Abbreviation step := (upload_step cancelled upload).

Lemma step_weight st st' : step st st' -> (weight st' < weight st)%nat.
Proof.
  unfold weight.
  destruct 1; cbn [us_todo us_jobs us_workers us_results us_phase phase_weight length];
    repeat match goal with H : ?ws !! ?i = Some ?x |- context [<[?i := ?y]> ?ws] =>
      pose proof (sum_list_with_insert worker_weight ws i x y H); clear H end;
    rewrite ?length_app in *; cbn [length worker_weight] in *; lia.
Qed.

Lemma run_length n st st' : nsteps step n st st' -> (n + weight st' <= weight st)%nat.
Proof. induction 1 as [|n x y z Hxy Hyz IH]; [lia|]. apply step_weight in Hxy. lia. Qed.

(** ** The invariant *)

Definition result_of (j : chunkJob) : chunkResult := (jb_index j, upload j).

Definition held (w : worker) : option chunkResult :=
  match w with Busy j => Some (result_of j) | Holding r => Some r | _ => None end.

(** The results that exist or will. *)
Definition results_of (st : upload_state) : list chunkResult :=
  (result_of <$> us_todo st) ++ (result_of <$> us_jobs st) ++ omap held (us_workers st) ++ us_results st ++ us_collected st.

Record upload_inv (st : upload_state) : Prop := {
  ui_workers : length (us_workers st) = defaultChunkWorkers;
  ui_jobs : (length (us_jobs st) <= defaultChunkWorkers)%nat;
  ui_results : (length (us_results st) <= defaultChunkWorkers)%nat;
  ui_exited : Exited ∈ us_workers st -> us_jobs st = [] /\ us_phase st <> Sending;
  ui_sending : us_phase st = Sending -> us_collected st = [];
  ui_collecting : us_phase st = Collecting -> us_todo st = [];
  ui_ok : Forall (fun r => is_Some (snd r)) (us_collected st);
  ui_all : us_phase st <> Failed -> results_of st ≡ₚ result_of <$> all;
  ui_failed : us_phase st = Failed -> exists j, j ∈ all /\ upload j = None;
  ui_returned : forall out, us_phase st = Returned out ->
    out = upload_output (us_collected st) /\ us_todo st = [] /\ us_jobs st = [] /\ us_results st = [] /\
    Forall (eq Exited) (us_workers st);
}.

Lemma omap_insert {A B} (f : A -> option B) l i x y :
  l !! i = Some x -> option_list (f x) ++ omap f (<[i := y]> l) ≡ₚ option_list (f y) ++ omap f l.
Proof.
  revert i. induction l as [|z l IH]; intros [|i] Hi; cbn in *; [done..| |].
  - injection Hi as ->. destruct (f x), (f y); cbn; done || by rewrite Permutation_swap || done.
  - specialize (IH i Hi). destruct (f z); [|done]. rewrite <- !Permutation_middle. by rewrite IH.
Qed.

Lemma start_inv : upload_inv (upload_start all).
Proof.
  split; cbn; try done; try lia.
  - intros Hx. repeat (apply elem_of_cons in Hx as [Hx|Hx]; [done|]). by apply not_elem_of_nil in Hx.
  - intros _. unfold results_of. cbn. by rewrite app_nil_r.
Qed.

Lemma elem_of_insert {A} (l : list A) i x y : x ∈ <[i := y]> l -> x = y \/ x ∈ l.
Proof.
  intros [k Hk]%list_elem_of_lookup. apply list_lookup_insert_Some in Hk as [(_ & -> & _)|[_ Hk]]; [by left|right].
  by eapply list_elem_of_lookup_2.
Qed.

(** A step keeps the results that exist or will, except that a failure drops one. *)
Lemma step_results st st' : step st st' -> us_phase st' <> Failed -> results_of st' ≡ₚ results_of st.
Proof.
  unfold results_of.
  destruct 1 as [| | |i todo j jobs ws rs cs p Hi|i todo j jobs ws rs cs p Hi|i todo jobs r ws rs cs p Hi|i todo ws rs cs p Hi| | | |];
    intros Hp; cbn [us_todo us_jobs us_workers us_results us_collected us_phase fmap list_fmap app] in *; try done.
  - rewrite fmap_app, <- !app_assoc. cbn. by rewrite <- !Permutation_middle.
  - pose proof (omap_insert held ws i _ (Busy j) Hi) as Ho. cbn in Ho. rewrite Ho. cbn. by rewrite <- !Permutation_middle.
  - pose proof (omap_insert held ws i _ (Holding (jb_index j, upload j)) Hi) as Ho. cbn in Ho.
    apply Permutation_cons_inv in Ho. by rewrite Ho.
  - pose proof (omap_insert held ws i _ Idle Hi) as Ho. cbn in Ho. rewrite <- Ho, <- !app_assoc. cbn.
    by rewrite <- !Permutation_middle.
  - pose proof (omap_insert held ws i _ Exited Hi) as Ho. cbn in Ho. by rewrite Ho.
  - do 3 apply Permutation_app_head. rewrite app_assoc. symmetry. apply Permutation_cons_append.
Qed.

Lemma failed_job st k : upload_inv st -> us_phase st <> Failed -> (k, None) ∈ us_results st -> exists j, j ∈ all /\ upload j = None.
Proof.
  intros Hinv Hp Hin. assert ((k, None) ∈ result_of <$> all) as (j & [= _ Hj] & Hj')%list_elem_of_fmap.
  { rewrite <- (ui_all _ Hinv Hp). unfold results_of. set_solver. }
  by exists j.
Qed.

Lemma step_inv st st' : step st st' -> upload_inv st -> upload_inv st'.
Proof.
  intros Hstep Hinv. pose proof (step_results _ _ Hstep) as Hres. pose proof Hinv as [Hw Hj Hr Hex Hse Hco Hok Hall Hfa Hret].
  assert (us_phase st' <> Failed -> us_phase st <> Failed) as Hpf by (destruct Hstep; cbn; done || congruence).
  assert (us_phase st' <> Failed -> results_of st' ≡ₚ result_of <$> all) as Hall' by (intros Hp; rewrite (Hres Hp); auto).
  destruct Hstep; cbn [us_todo us_jobs us_workers us_results us_collected us_phase] in *;
    (split; cbn [us_todo us_jobs us_workers us_results us_collected us_phase];
     [rewrite ?length_insert; assumption|rewrite ?length_app; cbn [length] in *; lia
     |rewrite ?length_app; cbn [length] in *; lia|..]; try assumption; try (intros; done));
    (* a worker that has exited was there before *)
    try (intros Hx; try (apply elem_of_insert in Hx as [Hx|Hx]; [discriminate|]); destruct (Hex Hx); split; congruence);
    (* a call that has returned has no worker left to move *)
    try (intros out Hp; destruct (Hret out Hp) as (_ & _ & _ & _ & Hf);
         eapply Forall_lookup_1 in Hf; [|eassumption]; discriminate).
  - apply Forall_app. split; [done|]. apply Forall_singleton. by eexists.
  - intros _. by eapply (failed_job _ k Hinv); [|left].
  - intros out [= <-]. pose proof (Hco eq_refl). split_and!; try done. apply Hex. destruct ws as [|w ws]; [done|].
    match goal with H : Forall _ (w :: ws) |- _ => apply Forall_cons in H as [<- _] end. by left.
Qed.

Lemma reachable_upload_inv st : rtc step (upload_start all) st -> upload_inv st.
Proof.
  intros Hst. assert (upload_inv (upload_start all)) as H0 by apply start_inv. revert H0.
  induction Hst as [|x y z Hxy _ IH]; [done|]. intros Hx. by apply IH, (step_inv x).
Qed.

(** *** Progress and results *)

Lemma held_all st : upload_inv st -> us_phase st <> Failed ->
  (length (us_todo st) + length (us_jobs st) + length (omap held (us_workers st)) + length (us_results st)
   + length (us_collected st) = length all)%nat.
Proof.
  intros Hinv Hp. pose proof (Permutation_length (ui_all _ Hinv Hp)) as Hl. unfold results_of in Hl.
  rewrite !length_app, !length_fmap in Hl. lia.
Qed.

Lemma held_workers (ws : list worker) : (length (omap held ws) <= length ws)%nat.
Proof. induction ws as [|w ws IH]; [done|]. cbn. destruct (held w); cbn; lia. Qed.

(** A worker can move on its own, or all wait to send a result or have exited. *)
Lemma worker_moves ws :
  (exists i, ws !! i = Some Idle) \/ (exists i j, ws !! i = Some (Busy j)) \/
  Forall (fun w => w = Exited \/ exists r, w = Holding r) ws.
Proof.
  induction ws as [|w ws IH]; [right; right; constructor|]. destruct w as [|j|r|].
  - left. by exists O.
  - right; left. by exists O, j.
  - destruct IH as [[i Hi]|[(i & j & Hi)|H]]; [left; by exists (S i)|right; left; by exists (S i), j|].
    right; right. constructor; [|done]. right. by exists r.
  - destruct IH as [[i Hi]|[(i & j & Hi)|H]]; [left; by exists (S i)|right; left; by exists (S i), j|].
    right; right. constructor; [|done]. by left.
Qed.

Lemma all_holding ws :
  Forall (fun w => w = Exited \/ exists r, w = Holding r) ws -> Exited ∉ ws -> length (omap held ws) = length ws.
Proof.
  induction 1 as [|w ws [->|[r ->]] Hws IH]; intros Hx; [done|set_solver|]. cbn. f_equal. set_solver.
Qed.

Lemma exited_or_holding ws :
  Forall (fun w => w = Exited \/ exists r, w = Holding r) ws -> Forall (eq Exited) ws \/ exists i r, ws !! i = Some (Holding r).
Proof.
  induction 1 as [|w ws [->|[r ->]] Hws IH]; [by left| |right; by exists O, r].
  destruct IH as [IH|(i & r & Hi)]; [left; by constructor|right; by exists (S i), r].
Qed.

(** Where nobody can move, nine chunks are under way. *)
Lemma stuck_full st :
  upload_inv st -> us_phase st = Sending -> (forall st', ~ step st st') ->
  us_todo st <> [] /\ (3 * defaultChunkWorkers + length (us_todo st) = length all)%nat /\
  Forall (fun w => exists r, w = Holding r) (us_workers st) /\ length (us_results st) = defaultChunkWorkers.
Proof.
  intros Hinv Hp Hstuck. assert (us_phase st <> Failed) as Hnf by by rewrite Hp. pose proof (held_all st Hinv Hnf) as Hl.
  pose proof Hinv as [Hw Hj Hr Hex Hse _ _ _ _ _]. destruct st as [todo jobs ws rs cs p]. cbn in *. subst p. rewrite Hse in * by done.
  destruct todo as [|j todo]; [by destruct (Hstuck _ (step_close _ _ jobs ws rs))|]. split; [done|].
  destruct (decide (length jobs < defaultChunkWorkers)%nat) as [H1|H1]; [by destruct (Hstuck _ (step_send _ _ j todo jobs ws rs H1))|].
  destruct (worker_moves ws) as [[i Hi]|[(i & j' & Hi)|Hws]].
  - destruct jobs as [|j' jobs]; [cbn in H1; unfold defaultChunkWorkers in H1; lia|].
    by destruct (Hstuck _ (step_take _ _ i (j :: todo) j' jobs ws rs [] Sending Hi)).
  - by destruct (Hstuck _ (step_work _ _ i (j :: todo) j' jobs ws rs [] Sending Hi)).
  - rewrite (all_holding ws Hws) in Hl by (intros Hx; by destruct (Hex Hx)).
    destruct (decide (length rs < defaultChunkWorkers)%nat) as [H2|H2].
    2: { split_and!; [unfold defaultChunkWorkers in *; cbn [length] in *; lia| |unfold defaultChunkWorkers in *; lia].
         apply Forall_forall. intros w Hin. pose proof (proj1 (Forall_forall _ _) Hws w Hin) as [->|]; [|done]. by destruct (Hex Hin). }
    destruct (exited_or_holding ws Hws) as [Hx|(i & r & Hi)].
    + destruct ws as [|w ws]; [done|]. apply Forall_cons in Hx as [<- _]. destruct Hex as [_ []]; [by left|done].
    + by destruct (Hstuck _ (step_put _ _ i (j :: todo) jobs r ws rs [] Sending Hi H2)).
Qed.

Lemma collecting_moves st : upload_inv st -> us_phase st = Collecting -> exists st', step st st'.
Proof.
  intros Hinv Hp. pose proof Hinv as [Hw Hj Hr Hex _ _ _ _ _ _]. destruct st as [todo jobs ws rs cs p]. cbn in *. subst p.
  destruct rs as [|[k [r|]] rs]; [|eexists; apply step_receive|eexists; apply step_fail].
  destruct (worker_moves ws) as [[i Hi]|[(i & j' & Hi)|Hws]].
  - destruct jobs as [|j jobs]; eexists; [by apply (step_exit _ _ i)|by apply (step_take _ _ i)].
  - eexists. by eapply step_work.
  - destruct (exited_or_holding ws Hws) as [Hx|(i & r & Hi)]; eexists; [by apply step_return|].
    eapply step_put; [done|]. cbn. unfold defaultChunkWorkers. lia.
Qed.

(** The output of a call whose results all came in. *)
Lemma upload_output_all collected :
  StronglySorted (fun x y => (jb_index x < jb_index y)%nat) all -> Forall (fun r => is_Some (snd r)) collected ->
  collected ≡ₚ result_of <$> all -> mapM upload all = Some (upload_output collected).
Proof.
  intros Hs Hok Hp. assert (merge_sort index_le collected = result_of <$> all) as E.
  { apply (merge_sort_strict index_le); [|exact Hp]. clear Hp Hok. induction Hs as [|z l Hs IH Hz]; [constructor|]. cbn. constructor; [done|].
    apply Forall_forall. intros r (j & -> & Hj)%list_elem_of_fmap. eapply Forall_forall in Hz; [|done]. unfold index_le. cbn. lia. }
  unfold upload_output. rewrite E. clear E Hs. assert (Forall (fun j => is_Some (upload j)) all) as Ha.
  { apply Forall_forall. intros j Hj. eapply (Forall_forall _ collected) in Hok; [|rewrite Hp; by apply list_elem_of_fmap_2]. done. }
  clear Hok Hp. induction Ha as [|j l [r Hr] Ha IH]; [done|]. cbn. rewrite Hr, IH. done.
Qed.

Lemma returned_output st out :
  StronglySorted (fun x y => (jb_index x < jb_index y)%nat) all -> upload_inv st -> us_phase st = Returned out ->
  mapM upload all = Some out.
Proof.
  intros Hs Hinv Hp. destruct (ui_returned _ Hinv _ Hp) as (-> & H1 & H2 & H3 & H4). apply upload_output_all; [done|apply Hinv|].
  assert (us_phase st <> Failed) as Hnf by by rewrite Hp. rewrite <- (ui_all _ Hinv Hnf). unfold results_of.
  rewrite H1, H2, H3. cbn. assert (omap held (us_workers st) = []) as ->; [|done]. by induction H4 as [|w ws <- _ IH].
Qed.
End proofs.

(** ** The chunks of a stream *)

Lemma read_jobs_spec fuel size index offset data :
  0 < size -> (length data <= fuel)%nat ->
  let js := read_jobs fuel size index offset data in
  concat (jb_data <$> js) = data /\
  StronglySorted (fun x y => (jb_index x < jb_index y)%nat) js /\ Forall (fun j => (index <= jb_index j)%nat) js /\
  StronglySorted (fun x y => jb_offset x < jb_offset y) js /\ Forall (fun j => offset <= jb_offset j) js /\
  (forall n : nat, Z.of_nat n * size < zlen data <-> (n < length js)%nat).
Proof.
  intros Hs. revert index offset data. induction fuel as [|fuel IH]; intros index offset data Hf; cbn [read_jobs].
  { destruct data; [|cbn in Hf; lia]. split_and!; [done|constructor..|]. cbn. intros n. split; nia. }
  destruct (decide (data = [])) as [->|Hne].
  { split_and!; [done|constructor..|]. cbn. intros n. split; nia. }
  assert (0 < length data)%nat as Hpos by (destruct data; [done|cbn; lia]).
  set (k := Z.to_nat (Z.min size (zlen data))).
  destruct (IH (S index) (offset + Z.of_nat k) (drop k data)) as (Hc & Hso & Hi & Hoo & Ho & Hn); [rewrite length_drop; lia|]. split_and!.
  - cbn. rewrite Hc. apply take_drop.
  - constructor; [done|]. eapply Forall_impl; [exact Hi|]. cbn. lia.
  - constructor; [cbn; lia|]. eapply Forall_impl; [exact Hi|]. cbn. lia.
  - constructor; [done|]. eapply Forall_impl; [exact Ho|]. cbn. lia.
  - constructor; [cbn; lia|]. eapply Forall_impl; [exact Ho|]. cbn. lia.
  - intros n. cbn [length]. destruct n as [|n]; [split; lia|]. specialize (Hn n). rewrite length_drop in Hn. split; intros Hlt.
    + apply -> Nat.succ_lt_mono. apply Hn. lia.
    + apply Nat.succ_lt_mono in Hlt. apply Hn in Hlt. lia.
Qed.

(** ** The two theorems *)

Definition chunk_size (chunkSizeBytes : Z) : Z :=
  if decide (chunkSizeBytes <= 0) then defaultChunkSizeBytes else chunkSizeBytes.

Lemma chunk_jobs_spec size data :
  let js := chunk_jobs size data in
  concat (jb_data <$> js) = data /\ StronglySorted (fun x y => (jb_index x < jb_index y)%nat) js /\
  StronglySorted (fun x y => jb_offset x < jb_offset y) js /\
  (forall n : nat, Z.of_nat n * chunk_size size < zlen data <-> (n < length js)%nat).
Proof.
  unfold chunk_jobs. fold (chunk_size size). destruct (read_jobs_spec (length data) (chunk_size size) 0 0 data) as (? & ? & _ & ? & _ & ?); [|lia|done].
  unfold chunk_size, defaultChunkSizeBytes. destruct (decide _); lia.
Qed.

Lemma not_aborting upload jobs st :
  rtc (upload_step false upload) (upload_start jobs) st -> us_phase st <> Aborting /\ us_phase st <> Aborted.
Proof.
  intros Hst. assert (us_phase (upload_start jobs) <> Aborting /\ us_phase (upload_start jobs) <> Aborted) as H0 by done.
  revert H0. induction Hst as [|x y z Hxy _ IH]; [done|]. intros Hx. apply IH. clear IH. destruct Hx. destruct Hxy; cbn in *; done || (split; congruence).
Qed.

Lemma steps_weight upload jobs n st :
  nsteps (upload_step false upload) n (upload_start jobs) st -> (n <= 5 * length jobs + 5)%nat.
Proof. intros H%run_length. unfold weight in H. cbn in H. lia. Qed.

(** C29: a stream of at most nine chunks is uploaded: every run of the caller and its three
    workers ends, it ends with an error when an upload fails or with the results of all
    chunks in the order of the stream, and the chunks together are the stream. *)
Theorem ChunkUpload_completes (size : Z) (data : bytes) (upload : chunkJob -> option ChunkUploadResult) :
  zlen data <= 9 * chunk_size size ->
  concat (jb_data <$> chunk_jobs size data) = data /\
  forall n st, nsteps (upload_step false upload) n (upload_start (chunk_jobs size data)) st ->
    (n <= 5 * length (chunk_jobs size data) + 5)%nat /\
    ((forall st', ~ upload_step false upload st st') -> us_phase st = Failed \/ exists out, us_phase st = Returned out) /\
    (us_phase st = Failed -> exists j, j ∈ chunk_jobs size data /\ upload j = None) /\
    (forall out, us_phase st = Returned out -> mapM upload (chunk_jobs size data) = Some out).
Proof.
  intros Hd. destruct (chunk_jobs_spec size data) as (Hc & Hs & _ & Hn). split; [done|]. intros n st Hrun.
  assert (rtc (upload_step false upload) (upload_start (chunk_jobs size data)) st) as Hst by (apply rtc_nsteps; by exists n).
  pose proof (reachable_upload_inv _ _ _ _ Hst) as Hinv. destruct (not_aborting _ _ _ Hst) as [Ha1 Ha2]. split_and!.
  - by eapply steps_weight.
  - intros Hstuck. destruct (us_phase st) as [| | | | |out] eqn:E; [|done| |done|by left|right; by exists out].
    + destruct (stuck_full _ _ _ _ Hinv E Hstuck) as (Hne & Hlen & _). specialize (Hn 9%nat).
      assert (9 < length (chunk_jobs size data))%nat as H9; [|apply Hn in H9; lia].
      destruct (us_todo st); [done|]. cbn in Hlen. lia.
    + destruct (collecting_moves false upload _ _ Hinv E) as [st' Hst']. by destruct (Hstuck st').
  - apply Hinv.
  - intros out Hp. by eapply returned_output.
Qed.

(** Where all workers wait to send and the channel of results is full, an aborted call waits
    for ever. *)
Lemma aborting_stuck upload todo jobs ws rs cs st' :
  ws <> [] -> Forall (fun w => exists r, w = Holding r) ws -> length rs = defaultChunkWorkers ->
  ~ upload_step true upload (mkUpload todo jobs ws rs cs Aborting) st'.
Proof.
  intros Hne Hws Hrs Hstep. inversion Hstep; subst;
    try match goal with H : ws !! _ = Some _ |- _ => destruct (Forall_lookup_1 _ _ _ _ Hws H) as [? [=]] end; subst; try lia.
  destruct ws as [|w ws]; [done|]. apply Forall_cons in Hws as [[r ->] _].
  match goal with H : Forall (eq Exited) _ |- _ => by apply Forall_cons in H as [[=] _] end.
Qed.

(** C30: a stream of more than nine chunks, 72 MiB for the filer, is never uploaded: the
    caller sends all chunks before it receives a result, the two channels and the workers
    hold nine, and every run stops with the caller waiting to send. Ending the context in
    that state does not help: the caller then waits for workers that wait for it. *)
Theorem ChunkUpload_deadlocks (size : Z) (data : bytes) (upload : chunkJob -> option ChunkUploadResult) :
  9 * chunk_size size < zlen data ->
  forall n st, nsteps (upload_step false upload) n (upload_start (chunk_jobs size data)) st ->
    (n <= 5 * length (chunk_jobs size data) + 5)%nat /\ us_phase st = Sending /\ us_todo st <> [] /\
    ((forall st', ~ upload_step false upload st st') ->
     forall st', rtc (upload_step true upload) st st' -> us_phase st' = Sending \/ us_phase st' = Aborting).
Proof.
  intros Hd n st Hrun. destruct (chunk_jobs_spec size data) as (_ & _ & _ & Hn). assert (9 < length (chunk_jobs size data))%nat as H9.
  { apply Hn. lia. }
  assert (forall st, upload_inv upload (chunk_jobs size data) st -> us_phase st = Sending -> us_todo st <> []) as Htodo.
  { intros st1 Hinv Hp Ht. assert (us_phase st1 <> Failed) as Hnf by by rewrite Hp. pose proof (held_all _ _ _ Hinv Hnf) as Hl.
    pose proof (held_workers upload (us_workers st1)) as Hw. destruct Hinv as [Hw' Hj Hr _ Hse _ _ _ _ _].
    rewrite (Hse Hp), Ht in Hl. unfold defaultChunkWorkers in *. cbn in Hl. lia. }
  assert (upload_inv upload (chunk_jobs size data) st /\ us_phase st = Sending) as [Hinv Hp].
  { assert (upload_inv upload (chunk_jobs size data) (upload_start (chunk_jobs size data)) /\
      us_phase (upload_start (chunk_jobs size data)) = Sending) as H0 by (split; [apply start_inv|done]).
    clear Hd. revert H0. generalize (upload_start (chunk_jobs size data)) Hrun. clear Hrun. intros st0 Hrun.
    induction Hrun as [|n x y z Hxy _ IH]; [done|]. intros [Hx Hpx]. apply IH. split; [by eapply step_inv|].
    pose proof (Htodo _ Hx Hpx) as Ht. destruct Hxy; cbn in *; done. }
  split_and!; [by eapply steps_weight|done|by apply Htodo|]. intros Hstuck st' Hst'.
  destruct (stuck_full _ _ _ _ Hinv Hp Hstuck) as (_ & _ & Hws & Hrs). pose proof (ui_workers _ _ _ Hinv) as Hlen.
  destruct st as [todo jobs ws rs cs p]. cbn in *. subst p. inversion Hst' as [|x y z Hxy Hyz]; subst; [by left|].
  assert (y = mkUpload todo jobs ws rs cs Aborting) as ->.
  { inversion Hxy; subst; try done; exfalso; eapply Hstuck; by econstructor. }
  inversion Hyz as [|x y z Hxy' _]; subst; [by right|]. exfalso. eapply aborting_stuck; [|done..|exact Hxy'].
  by intros ->.
Qed.

(** *** Runs *)

(** One step of a run, the [i]-th worker's or the caller's. *)
Ltac send_step := eapply nsteps_l; [apply step_send; cbn; unfold defaultChunkWorkers; lia|cbn].
Ltac take_step i := eapply nsteps_l; [eapply (step_take _ _ i); reflexivity|cbn].
Ltac work_step i := eapply nsteps_l; [eapply (step_work _ _ i); reflexivity|cbn].
Ltac put_step i := eapply nsteps_l; [eapply (step_put _ _ i); [reflexivity|cbn; unfold defaultChunkWorkers; lia]|cbn].
Ltac exit_step i := eapply nsteps_l; [eapply (step_exit _ _ i); [reflexivity|discriminate]|cbn].

Definition ex_result (j : chunkJob) : ChunkUploadResult :=
  mkChunkResult "3,01637037d6" (jb_offset j) (zlen (jb_data j)) 0 "".

Lemma ChunkUpload_completes_witness :
  exists n st, nsteps (upload_step false (Some ∘ ex_result)) n (upload_start (chunk_jobs 2 [7; 8; 9])) st /\
    us_phase st = Returned [ex_result (mkJob 0 0 [7; 8]); ex_result (mkJob 1 2 [9])] /\
    mapM (Some ∘ ex_result) (chunk_jobs 2 [7; 8; 9]) = Some [ex_result (mkJob 0 0 [7; 8]); ex_result (mkJob 1 2 [9])].
Proof.
  assert (exists n st, nsteps (upload_step false (Some ∘ ex_result)) n (upload_start (chunk_jobs 2 [7; 8; 9])) st /\
    us_phase st = Returned [ex_result (mkJob 0 0 [7; 8]); ex_result (mkJob 1 2 [9])]) as (n & st & Hrun & Hp).
  { eexists _, _. split.
    - replace (chunk_jobs 2 [7; 8; 9]) with [mkJob 0 0 [7; 8]; mkJob 1 2 [9]] by (vm_compute; reflexivity).
      unfold upload_start. cbn.
      send_step. send_step. take_step 2%nat. take_step 0%nat. work_step 0%nat. work_step 2%nat. put_step 0%nat. put_step 2%nat.
      eapply nsteps_l; [apply step_close|]. eapply nsteps_l; [apply step_receive|]. eapply nsteps_l; [apply step_receive|].
      exit_step 0%nat. exit_step 1%nat. exit_step 2%nat.
      eapply nsteps_l; [apply step_return; repeat constructor|]. apply nsteps_O.
    - reflexivity. }
  exists n, st. split_and!; [exact Hrun|exact Hp|].
  destruct (ChunkUpload_completes 2 [7; 8; 9] (Some ∘ ex_result)) as [_ H]; [vm_compute; congruence|].
  destruct (H n st Hrun) as (_ & _ & _ & Hout). apply Hout, Hp.
Defined.

Lemma ChunkUpload_deadlocks_witness :
  exists n st, nsteps (upload_step false (Some ∘ ex_result)) n (upload_start (chunk_jobs 1 (replicate 10 7))) st /\
    us_phase st = Sending /\ us_todo st <> [] /\ length (us_jobs st) = 3%nat /\ length (us_results st) = 3%nat.
Proof.
  assert (exists n st, nsteps (upload_step false (Some ∘ ex_result)) n (upload_start (chunk_jobs 1 (replicate 10 7))) st /\
    length (us_jobs st) = 3%nat /\ length (us_results st) = 3%nat) as (n & st & Hrun & H1 & H2).
  { eexists _, _. split.
    - replace (chunk_jobs 1 (replicate 10 7)) with ((fun i => mkJob i (Z.of_nat i) [7]) <$> seq 0 10) by (vm_compute; reflexivity).
      unfold upload_start. cbn.
      send_step. send_step. send_step. take_step 0%nat. take_step 1%nat. take_step 2%nat.
      work_step 0%nat. work_step 1%nat. work_step 2%nat. put_step 0%nat. put_step 1%nat. put_step 2%nat.
      send_step. send_step. send_step. take_step 0%nat. take_step 1%nat. take_step 2%nat.
      work_step 0%nat. work_step 1%nat. work_step 2%nat. send_step. send_step. send_step. apply nsteps_O.
    - split; reflexivity. }
  exists n, st. destruct (ChunkUpload_deadlocks 1 (replicate 10 7) (Some ∘ ex_result)) with (n := n) (st := st) as (_ & Hp & Ht & _);
    [vm_compute; reflexivity|exact Hrun|]. by split_and!.
Defined.
