(* ===== verification/FilerHttp.v ===== *)
(** * FilerHttp: uploads, downloads and deletions over HTTP

    Models the HTTP handlers of [goblob/server/filer_server.go].  A response is
    what the handler writes (see [Http]).  The guard's answer, the clock, the uploader, the
    resolver of volumes and the HTTP client are arguments; metrics and the date of the last
    modification are left out.  [Throttle] has the throttling of uploads. *)

From S2P Require Import Prelude Http GoStrings GoPath LogBuffer FilerStore Filer FilerServer ChunkUpload.
From stdpp Require Import sorting.

#[local] Open Scope Z_scope.
#[local] Open Scope string_scope.

(** ** Responses *)

Inductive body_part :=
| Raw (b : bytes)
| JsonError (msg : string)
| JsonCreated (name : string) (size : Z).

Abbreviation response := (reply body_part).
Abbreviation no_response := (@no_reply body_part).

Definition error_response (status : Z) (msg : string) : response := answer status (JsonError msg).

(** ** Requests *)

(** [rq_body] is the body, or the text of the error that reading it gives. *)
Record request := mkRequest {
  rq_path : string;
  rq_ContentLength : Z;
  rq_ContentType : string;
  rq_body : string + bytes;
}.

Definition inlineLimit : Z := 64 * 1024.

(** The text of an error of the filer. *)
Definition filer_Error (e : filer_err) : string :=
  match e with
  | FErrStore e => Error e
  | ErrStoreNotConfigured => "store not configured"
  | ErrParentNotFound => "parent directory not found"
  | ErrNoMasterConfigured => "no master addresses configured"
  | FErrAssign => "assign failed"
  end.

(** An uploader stores a body in chunks. *)
Definition uploader : Type := string + bytes -> string + list FileChunk.

(** [masterUploader]: [run] is the call of [ChunkUpload] with chunks of 8 MiB. *)
Definition to_FileChunk (cr : ChunkUploadResult) : FileChunk :=
  mkChunk (cu_FileId cr) (cu_Offset cr) (cu_Size cr) (cu_ModifiedTsNs cr) (cu_ETag cr) false.

Definition masterUploader (run : string + bytes -> string + list ChunkUploadResult) : uploader := fun body =>
  match run body with inl msg => inl msg | inr results => inr (to_FileChunk <$> results) end.

(** The entry of an upload with its content or its chunks, or the response of a failure. *)
Definition upload_entry (now : Z) (up : option uploader) (filePath : string) (r : request) : Entry + response :=
  let attr size := mkAttr 420 0 0 now zero_time (rq_ContentType r) "" "" 0 "" size 0 "" in
  if decide (rq_ContentLength r > inlineLimit \/ rq_ContentLength r < 0) then
    match up with
    | None => inr (error_response 500 "no master addresses configured")
    | Some chunkUpload =>
        match chunkUpload (rq_body r) with
        | inr chunks =>
            let totalSize := fold_left (fun n c => i64 (n + fc_Size c)) chunks 0 in
            inl (mkEntry filePath (attr (u64 totalSize)) (Some <$> chunks) [] ∅ [] 0 None)
        | inl msg => inr (error_response 500 msg)
        end
    end
  else
    match rq_body r with
    | inr data => inl (mkEntry filePath (attr (zlen data)) [] data ∅ [] 0 None)
    | inl msg => inr (error_response 500 msg)
    end.

Section handlers.
Context {S : Type} `{FilerStore S}.

(** What a handler needs of its server: a filer with a store. *)
Definition http_filer (fs : FilerServer S) : bool :=
  match srv_filer fs with Some f => bool_decide (is_Some (f_Store f)) | None => false end.

Definition run_filer {A} (m : GoM (Filer S) filer_err A) (fs : FilerServer S) : outcome filer_err A * FilerServer S :=
  filer_call (fun e => e) m fs.

Definition handleFileUpload (allowed : bool) (clock : string -> Z) (now : Z) (up : option uploader) (r : request)
    (fs : FilerServer S) : response * FilerServer S :=
  if negb (http_filer fs) then (error_response 503 "filer store not initialized", fs) else
  if negb allowed then (WriteHeader 401 no_response, fs) else
  let filePath := normalizeAbsolutePath (rq_path r) in
  match upload_entry now up filePath r with
  | inr w => (w, fs)
  | inl e =>
      let '(dir, _) := DirAndName (e_FullPath e) in
      let '(r1, fs) := if decide (dir <> "/") then run_filer (MkdirAll clock dir) fs else (Ret tt, fs) in
      match r1 with
      | Ret _ =>
          let '(r2, fs) := run_filer (f_CreateEntry e) fs in
          match r2 with
          | Ret _ =>
              (write_part (JsonCreated filePath (at_FileSize (e_Attr e))) (WriteHeader 201 no_response),
               log_event now ("create:" +:+ filePath) fs)
          | Fail err => (error_response 500 (filer_Error err), fs)
          | Panic => (no_response, fs)
          end
      | Fail err => (error_response 500 (filer_Error err), fs)
      | Panic => (no_response, fs)
      end
  end.

(** ** Downloads *)

Definition offset_le (x y : FileChunk) : Prop := fc_Offset x <= fc_Offset y.

#[export] Instance offset_le_dec : RelDecision offset_le.
Proof. intros x y. unfold offset_le. apply _. Defined.

#[export] Instance offset_le_trans : Transitive offset_le.
Proof. intros x y z. unfold offset_le. lia. Qed.
#[export] Instance offset_le_total : Total offset_le.
Proof. intros x y. unfold offset_le. lia. Qed.

(** The requests to the volume servers: [resolve] is the resolver, [fetch] the body of the
    answer to a GET, whatever its status. *)
Record volumes := mkVolumes { resolve : Z -> option string; fetch : string -> option bytes }.

(** The URL of a chunk. *)
Definition chunk_url (vs : volumes) (c : FileChunk) : option string :=
  '(vid, _) ← Cut (fc_FileId c) ",";
  vidU ← ParseUint (chars vid) 10 32;
  volURL ← resolve vs vidU;
  Some (volURL +:+ "/" +:+ fc_FileId c).

Fixpoint send_chunks (vs : volumes) (chunks : list FileChunk) (w : response) : response :=
  match chunks with
  | [] => w
  | c :: chunks =>
      match (url ← chunk_url vs c; fetch vs url) with
      | None => WriteHeader 500 w
      | Some b => send_chunks vs chunks (write_part (Raw b) w)
      end
  end.

(** [None] is a panic, on a nil chunk. *)
Definition download (vs : option volumes) (e : Entry) : option response :=
  let w := if decide (at_Mime (e_Attr e) <> "") then set_type (at_Mime (e_Attr e)) no_response else no_response in
  if decide (e_Content e <> []) then Some (write_part (Raw (e_Content e)) (set_length (zlen (e_Content e)) w)) else
  if decide (e_Chunks e <> []) then
    match vs with
    | None => Some (write_part (JsonError "no master addresses configured") (WriteHeader 500 w))
    | Some vs =>
        chunks ← mapM (fun oc => oc) (e_Chunks e);
        Some (send_chunks vs (merge_sort offset_le chunks) (set_length (at_FileSize (e_Attr e)) w))
    end
  else Some (set_length 0 w).

Definition handleFileDownload (allowed : bool) (vs : option volumes) (path : string) (fs : FilerServer S)
  : option response * FilerServer S :=
  if negb (http_filer fs) then (Some (error_response 503 "filer store not initialized"), fs) else
  if negb allowed then (Some (WriteHeader 401 no_response), fs) else
  let '(r, fs) := run_filer (f_FindEntry (normalizeAbsolutePath path)) fs in
  (match r with
   | Ret e => download vs e
   | Fail (FErrStore ErrNotFound) => Some (WriteHeader 404 no_response)
   | Fail _ => Some (WriteHeader 500 no_response)
   | Panic => None
   end, fs).

Definition handleDeleteEntry (allowed : bool) (now : Z) (path : string) (fs : FilerServer S) : response * FilerServer S :=
  if negb (http_filer fs) then (error_response 503 "filer store not initialized", fs) else
  if negb allowed then (WriteHeader 401 no_response, fs) else
  let filePath := normalizeAbsolutePath path in
  let '(r, fs) := run_filer (f_DeleteEntry filePath) fs in
  match r with
  | Ret _ => (WriteHeader 204 no_response, log_event now ("delete:" +:+ filePath) fs)
  | Fail (FErrStore ErrNotFound) => (WriteHeader 404 no_response, fs)
  | Fail _ => (WriteHeader 500 no_response, fs)
  | Panic => (no_response, fs)
  end.
End handlers.
