(* ===== verification/FilerSafe.v ===== *)
(** * FilerSafe: the filer server over any lawful store

    What the handlers do to the namespace, proved against the laws of a store, and for two
    of the stores of the repository, and the postconditions of the calls for its clients. *)

From stdpp Require Import sorting.
From S2P Require Import Prelude GoStrings GoPath LogBuffer FilerStore StoreView MemoryStore LevelDbStore Filer FilerSpec Http FilerServer FilerHttp.
From S2P Require Import ChunkUpload PathSpec.

#[local] Open Scope Z_scope.
#[local] Open Scope string_scope.

(** ** Paths of requests *)

Lemma Clean_rooted s : clean_path (Clean ("/" +:+ s)).
Proof. apply Clean_clean. unfold HasPrefix. rewrite append_cons, append_nil_l. cbn. by destruct s. Qed.

Lemma normalize_clean raw : clean_path (normalizeAbsolutePath raw).
Proof. unfold normalizeAbsolutePath. destruct (decide _); [by exists []|apply Clean_rooted]. Qed.

Lemma rooted_dir d : exists s, (if HasPrefix d "/" then d else "/" +:+ d) = "/" +:+ s.
Proof. destruct (HasPrefix d "/") eqn:E; [by apply prefix_inv in E|by eexists]. Qed.

Lemma join_clean directory name : clean_path (joinDirectoryAndName directory name).
Proof.
  unfold joinDirectoryAndName. destruct (rooted_dir (if decide (directory = "") then "/" else directory)) as [s ->].
  destruct (decide (name = "")); [apply Clean_rooted|]. destruct (decide _); [apply Clean_rooted|].
  rewrite <- append_assoc. apply Clean_rooted.
Qed.

Section server.
Context {S : Type} `{FilerStore S} (valid : string -> Prop) (good : Entry -> Prop) (rep : S -> gmap string Entry -> Prop).
Context {Hlaws : FilerLaws S valid good rep}.

(** The server has a filer whose store represents [m]. *)
Definition serves (fs : FilerServer S) (m : gmap string Entry) : Prop :=
  exists f s, srv_filer fs = Some f /\ f_Store f = Some s /\ rep s m.

Lemma serves_with fs m : serves fs m -> exists f, srv_filer fs = Some f /\ is_Some (f_Store f).
Proof. intros (f & s & Hf & Hs & _). exists f. rewrite Hs. eauto. Qed.

Lemma serves_log fs m now text : serves fs m -> serves (log_event now text fs) m.
Proof. done. Qed.

(** A call of the filer that uses the store. *)
Lemma filer_call_store {E A} (code_of : filer_err -> E) (m : GoM S filer_err A) fs f s :
  srv_filer fs = Some f -> f_Store f = Some s ->
  filer_call code_of (with_store m) fs =
    (match fst (m s) with Ret a => Ret a | Fail e => Fail (code_of e) | Panic => Panic end,
     mkServer (Some (SetStore (snd (m s)) f)) (srv_log fs)).
Proof. intros Hf Hs. unfold filer_call, with_store. rewrite Hf, Hs. by destruct (m s) as [[]]. Qed.

Lemma call_find {E} (code_of : filer_err -> E) p fs m :
  serves fs m -> valid p ->
  exists fs' r, filer_call code_of (f_FindEntry p) fs = (r, fs') /\ serves fs' m /\ srv_log fs' = srv_log fs /\
    match r with
    | Ret e => m !! p = Some e
    | Fail c => exists e, c = code_of (FErrStore e) /\ (e = ErrNotFound -> m !! p = None)
    | Panic => False
    end.
Proof.
  intros (f & s & Hf & Hs & Hr) Hp. unfold f_FindEntry. rewrite (filer_call_store _ _ _ _ _ Hf Hs). unfold store_call.
  destruct (FindEntry_law s m p Hr Hp) as [Hr' Hres]. eexists _, _. split; [done|].
  destruct (FindEntry p s) as [[e|e|] s']; cbn in *; (split; [by exists (SetStore s' f), s'|]); (split; [done|]); try done.
  exists e. split; [done|]. by destruct e.
Qed.

(** A call that writes. *)
Lemma call_write {E} (code_of : filer_err -> E) (w : GoM S store_err unit) fs m m' :
  serves fs m -> (forall s, rep s m -> written rep m m' (w s)) ->
  exists fs' r, filer_call code_of (with_store (store_call w)) fs = (r, fs') /\ srv_log fs' = srv_log fs /\
    match r with
    | Ret _ => serves fs' m'
    | Fail c => (serves fs' m \/ serves fs' m') /\ exists e, c = code_of (FErrStore e)
    | Panic => False
    end.
Proof.
  intros (f & s & Hf & Hs & Hr) Hw. rewrite (filer_call_store _ _ _ _ _ Hf Hs). specialize (Hw s Hr).
  unfold store_call, written in *. eexists _, _. split; [done|].
  destruct (w s) as [[u|e|] s']; cbn in *; [|split; [done|]; split; [|by exists e]|done].
  - split; [done|]. by exists (SetStore s' f), s'.
  - destruct Hw; [left|right]; by exists (SetStore s' f), s'.
Qed.

Lemma call_update {E} (code_of : filer_err -> E) e fs m :
  serves fs m -> valid (e_FullPath e) -> good e ->
  exists fs' r, filer_call code_of (f_UpdateEntry e) fs = (r, fs') /\ srv_log fs' = srv_log fs /\
    match r with
    | Ret _ => serves fs' (<[e_FullPath e := e]> m)
    | Fail c => (serves fs' m \/ serves fs' (<[e_FullPath e := e]> m)) /\ exists e, c = code_of (FErrStore e)
    | Panic => False
    end.
Proof. intros Hs Hv Hg. apply call_write; [done|]. intros s Hr. by apply UpdateEntry_law. Qed.

Lemma call_delete {E} (code_of : filer_err -> E) p fs m :
  serves fs m -> valid p ->
  exists fs' r, filer_call code_of (f_DeleteEntry p) fs = (r, fs') /\ srv_log fs' = srv_log fs /\
    match r with
    | Ret _ => serves fs' (delete p m)
    | Fail c => (serves fs' m \/ serves fs' (delete p m)) /\ exists e, c = code_of (FErrStore e) /\ (e = ErrNotFound -> m !! p = None)
    | Panic => False
    end.
Proof.
  intros (f & s & Hf & Hs & Hr) Hv. unfold f_DeleteEntry. rewrite (filer_call_store _ _ _ _ _ Hf Hs).
  pose proof (DeleteEntry_law s m p Hr Hv) as Hw. pose proof (DeleteEntry_found s m p Hr Hv) as Hn. unfold store_call, written in *.
  eexists _, _. split; [done|]. destruct (DeleteEntry p s) as [[u|e|] s']; cbn in *; [|split; [done|]; split; [|exists e]|done].
  - split; [done|]. by exists (SetStore s' f), s'.
  - destruct Hw; [left|right]; by exists (SetStore s' f), s'.
  - split; [done|]. intros ->. by apply Hn.
Qed.

(** ** Renames *)

Lemma with_filer_serves {E A} (u : E) (k : Filer S -> GoM (FilerServer S) E A) fs m :
  serves fs m -> exists f, with_filer u k fs = k f fs.
Proof.
  intros (f & Hf & Hs)%serves_with. exists f. unfold with_filer. rewrite Hf. by rewrite decide_True.
Qed.

(** What a rename leaves when it stops part way. *)
Definition rename_states (m : gmap string Entry) (old new : string) (e : Entry) : list (gmap string Entry) :=
  let m1 := <[new := set_FullPath new e]> m in [m; m1; delete old m1].

(** C24: a rename of an existing entry that succeeds moves this entry alone, whatever is at
    the new path and below the old one; renaming an entry to its own path removes it. A
    rename that fails leaves the namespace as it was, with the entry at both paths, or
    renamed; of a path without an entry it changes nothing. *)
Theorem AtomicRenameEntry_moves (now : Z) (oldDir oldName newDir newName : string) (fs : FilerServer S) (m : gmap string Entry) :
  let old := joinDirectoryAndName oldDir oldName in
  let new := joinDirectoryAndName newDir newName in
  serves fs m -> valid old -> valid new -> (forall e, m !! old = Some e -> good (set_FullPath new e)) ->
  let '(r, fs') := AtomicRenameEntry now oldDir oldName newDir newName fs in
  match r, m !! old with
  | Ret _, Some e => serves fs' (if decide (old = new) then delete old m else delete old (<[new := set_FullPath new e]> m))
  | Fail Internal, Some e => exists m', m' ∈ rename_states m old new e /\ serves fs' m'
  | Fail _, None => serves fs' m
  | _, _ => False
  end.
Proof.
  intros old new Hs Ho Hn Hg. unfold AtomicRenameEntry. fold old new.
  destruct (with_filer_serves Unavailable (fun _ : Filer S =>
    e ← filer_call found_code (f_FindEntry old);
    filer_call internal (f_UpdateEntry (set_FullPath new e));;
    filer_call internal (f_DeleteEntry old);;
    modify (log_event now ("rename:" +:+ old +:+ "->" +:+ new))) fs m Hs) as [f ->].
  destruct (call_find found_code old fs m Hs Ho) as (fs1 & r1 & E1 & Hs1 & _ & H1).
  destruct r1 as [e|c|]; [rewrite (bind_run _ _ _ _ _ E1)|rewrite (bind_fail _ _ _ _ _ E1)|done].
  2: { destruct H1 as (err & -> & Hnf). destruct (m !! old) as [e|] eqn:E; [|by destruct err].
       destruct err; [by specialize (Hnf eq_refl)|]. exists m. split; [by left|done]. }
  rewrite H1. destruct (call_update internal (set_FullPath new e) fs1 m Hs1 Hn (Hg e H1)) as (fs2 & r2 & E2 & _ & H2).
  cbn [set_FullPath e_FullPath] in H2.
  destruct r2 as [u|c|]; [rewrite (bind_run _ _ _ _ _ E2)|rewrite (bind_fail _ _ _ _ _ E2)|done].
  2: { destruct H2 as [H2 (err & ->)]. cbn. destruct H2 as [H2|H2]; eexists; (split; [|exact H2]); unfold rename_states; set_solver. }
  destruct (call_delete internal old fs2 _ H2 Ho) as (fs3 & r3 & E3 & _ & H3).
  destruct r3 as [u'|c|]; [rewrite (bind_run _ _ _ _ _ E3)|rewrite (bind_fail _ _ _ _ _ E3)|done].
  - cbn. destruct (decide (old = new)) as [->|Hne]; [|done]. by rewrite delete_insert_eq in H3.
  - destruct H3 as [H3 (err & -> & _)]. cbn. destruct H3 as [H3|H3]; eexists; (split; [|exact H3]); unfold rename_states; set_solver.
Qed.

(** ** Uploads *)

(** [m'] has the entries of [m], possibly replaced, and each entry has its parent. *)
Definition tree_grows (m m' : gmap string Entry) : Prop :=
  closed m' /\ forall q, is_Some (m !! q) -> is_Some (m' !! q).

Lemma tree_grows_insert m p e : closed m -> has_parent m p -> tree_grows m (<[p := e]> m).
Proof.
  intros Hc Hp. split; [by apply closed_insert|]. intros q Hq. destruct (decide (p = q)) as [->|]; [by rewrite lookup_insert_eq|].
  by rewrite lookup_insert_ne.
Qed.

Lemma tree_grows_trans m1 m2 m3 : tree_grows m1 m2 -> tree_grows m2 m3 -> tree_grows m1 m3.
Proof. intros [_ H1] [Hc H2]. split; [done|]. auto. Qed.

Lemma call_mkdir {E} (code_of : filer_err -> E) clock p fs m :
  serves fs m -> closed m -> valid p -> (forall q, valid q -> good (dir_entry (clock q) q)) ->
  exists fs' r m', filer_call code_of (MkdirAll clock p) fs = (r, fs') /\ serves fs' m' /\ tree_grows m m' /\
    match r with Ret _ => p = "/" \/ is_Some (m' !! p) | Fail _ => True | Panic => False end.
Proof.
  intros (f & s & Hf & Hs & Hr) Hc Hp Hg. destruct (valid_abs p Hp) as (cs & Hcs & ->).
  pose proof (MkdirAll_spec valid good rep clock Hg cs f s m Hcs Hp Hs Hr) as Hm. unfold filer_call. rewrite Hf.
  destruct (MkdirAll clock (path_of cs) f) as [r f'] eqn:Em. destruct Hm as (s' & n & -> & Hr' & Hres).
  eexists _, _, _. split; [done|]. split; [by exists (SetStore s' f), s'|]. split.
  - split; [apply mkdirs_closed; auto|]. intros q [e Hq]. exists e. by apply mkdirs_old.
  - destruct r; [|done..]. subst n. destruct cs as [|c cs]; [by left|right]. apply mkdirs_present.
    rewrite <- (length_paths_from [] (c :: cs)), firstn_all. by apply (paths_from_last []).
Qed.

Lemma call_create {E} (code_of : filer_err -> E) e fs m :
  serves fs m -> closed m -> valid (e_FullPath e) -> good e ->
  exists fs' r m', filer_call code_of (f_CreateEntry e) fs = (r, fs') /\ serves fs' m' /\ tree_grows m m' /\
    match r with Ret _ => m' !! e_FullPath e = Some e | Fail _ => True | Panic => False end.
Proof.
  intros (f & s & Hf & Hs & Hr) Hc Hv Hg. unfold f_CreateEntry. rewrite (filer_call_store _ _ _ _ _ Hf Hs).
  pose proof (create_entry_spec valid good rep e s m Hv Hg Hr) as Hsp. destruct (create_entry e s) as [r s'].
  assert (tree_grows m m) as Hrefl by (split; [done|auto]).
  assert (forall mm, rep s' mm -> serves (mkServer (Some (SetStore s' f)) (srv_log fs)) mm) as Hserve
    by (intros mm Hmm; by exists (SetStore s' f), s').
  destruct r as [u|e'|]; [| |done].
  - destruct Hsp as [Hpar Hr']. eexists _, _, _. split; [done|]. split; [by apply Hserve|]. split; [by apply tree_grows_insert|].
    apply lookup_insert_eq.
  - assert (exists mm, rep s' mm /\ tree_grows m mm) as (mm & Hmm & Hg').
    { destruct e'; try (by exists m); (destruct Hsp as [Hsp|[Hpar Hsp]]; [by exists m|]); eexists; (split; [exact Hsp|]);
        by apply tree_grows_insert. }
    exists (mkServer (Some (SetStore s' f)) (srv_log fs)), (Fail (code_of e')), mm. split; [done|]. auto.
Qed.

(** Requests that write files: over HTTP, and the creation and extension of entries over
    gRPC. *)
Inductive write_op :=
| WUpload (allowed : bool) (clock : string -> Z) (now : Z) (up : option uploader) (r : request)
| WCreate (now : Z) (directory : string) (pb : option PbEntry)
| WAppend (directory name : string) (chunks : list (option PbChunk)).

(** The path that the request has created. *)
Definition exec_write (op : write_op) (fs : FilerServer S) : option string * FilerServer S :=
  match op with
  | WUpload allowed clock now up r =>
      let '(w, fs) := handleFileUpload allowed clock now up r fs in
      (if decide (status_of w = 201) then Some (normalizeAbsolutePath (rq_path r)) else None, fs)
  | WCreate now directory pb =>
      let '(r, fs) := g_CreateEntry now directory pb fs in
      (match r, protoToEntry directory pb with Ret _, Some e => Some (e_FullPath e) | _, _ => None end, fs)
  | WAppend directory name chunks => let '(_, fs) := AppendToEntry directory name chunks fs in (None, fs)
  end.

Fixpoint run_writes (ops : list write_op) (fs : FilerServer S) : list (option string) * FilerServer S :=
  match ops with
  | [] => ([], fs)
  | op :: ops => let '(p, fs) := exec_write op fs in let '(ps, fs) := run_writes ops fs in (p :: ps, fs)
  end.

(** The paths and entries of a request are ones the laws speak of. *)
Definition write_op_ok (op : write_op) : Prop :=
  match op with
  | WUpload _ clock now up r =>
      valid (normalizeAbsolutePath (rq_path r)) /\ (forall q, valid q -> good (dir_entry (clock q) q)) /\
      (forall e, upload_entry now up (normalizeAbsolutePath (rq_path r)) r = inl e -> good e)
  | WCreate _ directory pb => forall e, protoToEntry directory pb = Some e -> valid (e_FullPath e) /\ good e
  | WAppend directory name chunks =>
      valid (joinDirectoryAndName directory name) /\
      forall e, good e -> good (set_Chunks (e_Chunks e ++ omap (fun oc => Some ∘ protoToChunk <$> oc) chunks)%list e)
  end.

Lemma upload_entry_path now up p r e : upload_entry now up p r = inl e -> e_FullPath e = p.
Proof.
  unfold upload_entry. destruct (decide _); [destruct up as [u|]; [destruct (u _)|]|destruct (rq_body r)]; intros [= <-]; done.
Qed.

Lemma upload_entry_status now up p r w : upload_entry now up p r = inr w -> status_of w = 500.
Proof.
  unfold upload_entry. destruct (decide _); [destruct up as [u|]; [destruct (u _)|]|destruct (rq_body r)]; intros [= <-]; done.
Qed.

Lemma http_serves fs m : serves fs m -> http_filer fs = true.
Proof. intros (f & Hf & Hs)%serves_with. unfold http_filer. rewrite Hf. by apply bool_decide_eq_true_2. Qed.

Lemma upload_grows allowed clock now up r fs m :
  serves fs m -> closed m -> write_op_ok (WUpload allowed clock now up r) ->
  let p := normalizeAbsolutePath (rq_path r) in
  exists m', let '(w, fs') := handleFileUpload allowed clock now up r fs in
    serves fs' m' /\ tree_grows m m' /\
    (status_of w = 201 -> exists e, upload_entry now up p r = inl e /\ m' !! p = Some e).
Proof.
  intros Hs Hc (Hv & Hd & Hg) p. fold p in Hv, Hg. assert (tree_grows m m) as Hrefl by (split; [done|auto]).
  unfold handleFileUpload. rewrite (http_serves fs m Hs). cbn [negb].
  destruct allowed; cbn [negb]; [|exists m; by split_and!]. fold p.
  destruct (upload_entry now up p r) as [e|w] eqn:Eu.
  2: { exists m. split_and!; [done..|]. rewrite (upload_entry_status _ _ _ _ _ Eu). done. }
  pose proof (upload_entry_path _ _ _ _ _ Eu) as Hp. rewrite Hp. destruct (DirAndName p) as [dir name] eqn:Edn.
  assert (valid dir) as Hvd by (apply valid_dir in Hv; by rewrite Edn in Hv).
  assert (exists fs1 r1 m1, (if decide (dir <> "/") then run_filer (MkdirAll clock dir) fs else (Ret tt, fs)) = (r1, fs1) /\
    serves fs1 m1 /\ tree_grows m m1 /\ r1 <> Panic) as (fs1 & r1 & m1 & -> & Hs1 & Hg1 & Hr1).
  { destruct (decide (dir <> "/")); [|by exists fs, (Ret tt), m].
    destruct (call_mkdir (fun e => e) clock dir fs m Hs Hc Hvd Hd) as (fs1 & r1 & m1 & E1 & Hs1 & Hg1 & Hr1).
    exists fs1, r1, m1. split; [exact E1|]. split_and!; [done..|by intros ->]. }
  destruct r1 as [u|err|]; [| |done].
  2: { exists m1. by split_and!. }
  destruct (call_create (fun e => e) e fs1 m1 Hs1) as (fs2 & r2 & m2 & E2 & Hs2 & Hg2 & Hr2);
    [apply Hg1|by rewrite Hp|by apply Hg|].
  unfold run_filer. rewrite E2. exists m2. destruct r2 as [u2|err|]; [| |done].
  - split_and!; [by apply serves_log|by eapply tree_grows_trans|]. intros _. exists e. by rewrite <- Hp.
  - split_and!; [done|by eapply tree_grows_trans|done].
Qed.

Lemma create_grows now directory pb fs m :
  serves fs m -> closed m -> write_op_ok (WCreate now directory pb) ->
  exists m', let '(r, fs') := g_CreateEntry now directory pb fs in
    serves fs' m' /\ tree_grows m m' /\
    match r, protoToEntry directory pb with Ret _, Some e => m' !! e_FullPath e = Some e | _, _ => True end.
Proof.
  intros Hs Hc Hok. assert (tree_grows m m) as Hrefl by (split; [done|auto]). unfold g_CreateEntry.
  destruct (with_filer_serves Unavailable (fun _ : Filer S =>
    match protoToEntry directory pb with
    | None => fail InvalidArgument
    | Some e => filer_call internal (f_CreateEntry e);; modify (log_event now ("create:" +:+ e_FullPath e))
    end) fs m Hs) as [f ->].
  destruct (protoToEntry directory pb) as [e|] eqn:Ep; [|exists m; by split_and!]. destruct (Hok e Ep) as [Hv Hg].
  destruct (call_create internal e fs m Hs Hc Hv Hg) as (fs1 & r1 & m1 & E1 & Hs1 & Hg1 & Hr1). exists m1.
  destruct r1 as [u|c|]; [rewrite (bind_run _ _ _ _ _ E1)|rewrite (bind_fail _ _ _ _ _ E1)|done]; by split_and!.
Qed.

Lemma append_grows directory name chunks fs m :
  serves fs m -> closed m -> write_op_ok (WAppend directory name chunks) ->
  exists m', serves (snd (AppendToEntry directory name chunks fs)) m' /\ tree_grows m m'.
Proof.
  intros Hs Hc [Hv Hg]. assert (tree_grows m m) as Hrefl by (split; [done|auto]). unfold AppendToEntry.
  set (p := joinDirectoryAndName directory name) in *.
  destruct (with_filer_serves Unavailable (fun _ : Filer S =>
    e ← filer_call found_code (f_FindEntry p);
    filer_call internal (f_UpdateEntry
      (set_Chunks (e_Chunks e ++ omap (fun oc => Some ∘ protoToChunk <$> oc) chunks)%list e))) fs m Hs) as [f ->].
  destruct (call_find found_code p fs m Hs Hv) as (fs1 & r1 & E1 & Hs1 & _ & H1).
  destruct r1 as [e|c|]; [rewrite (bind_run _ _ _ _ _ E1)|rewrite (bind_fail _ _ _ _ _ E1); by exists m|done].
  destruct Hs1 as (f1 & s1 & Hf1 & Hst1 & Hr1). destruct (rep_keyed s1 m p e Hr1 H1) as (Hk & _ & Hge).
  assert (has_parent m p) as Hpar by by apply (Hc p e).
  set (e' := set_Chunks _ e). assert (e_FullPath e' = p) as Hp' by done.
  destruct (call_update internal e' fs1 m) as (fs2 & r2 & E2 & _ & H2);
    [by exists f1, s1|by rewrite Hp'|by apply Hg|]. rewrite E2. rewrite Hp' in H2.
  destruct r2 as [u|c|]; [| |done].
  - eexists. split; [exact H2|by apply tree_grows_insert].
  - destruct H2 as [[H2|H2] _]; eexists; (split; [exact H2|]); [done|by apply tree_grows_insert].
Qed.

(** C21: over any sequence of uploads, creations and extensions of files, whatever fails in
    the store on the way, every entry keeps having its parent directory, nothing that was
    in the namespace leaves it, and every path that a request has reported as created is
    there. *)
Theorem uploads_keep_tree (ops : list write_op) (fs : FilerServer S) (m : gmap string Entry) :
  Forall write_op_ok ops -> serves fs m -> closed m ->
  let '(ps, fs') := run_writes ops fs in
  exists m', serves fs' m' /\ closed m' /\ (forall q, is_Some (m !! q) -> is_Some (m' !! q)) /\
    Forall (fun p => is_Some (m' !! p)) (omap id ps).
Proof.
  intros Hops. revert fs m. induction Hops as [|op ops Hop _ IH]; intros fs m Hs Hc; cbn [run_writes].
  { exists m. split_and!; [done..|constructor]. }
  assert (exists p fs1 m1, exec_write op fs = (p, fs1) /\ serves fs1 m1 /\ tree_grows m m1 /\
    match p with Some p => is_Some (m1 !! p) | None => True end) as (p & fs1 & m1 & -> & Hs1 & [Hc1 Hg1] & Hp).
  { destruct op as [allowed clock now up r|now directory pb|directory name chunks]; cbn [exec_write].
    - destruct (upload_grows allowed clock now up r fs m Hs Hc Hop) as [m1 H1].
      destruct (handleFileUpload allowed clock now up r fs) as [w fs1]. destruct H1 as (H1 & H2 & H3).
      eexists _, fs1, m1. split_and!; [done..|]. destruct (decide _) as [E|]; [|done]. destruct (H3 E) as (e & _ & He). eauto.
    - destruct (create_grows now directory pb fs m Hs Hc Hop) as [m1 H1].
      destruct (g_CreateEntry now directory pb fs) as [r fs1]. destruct H1 as (H1 & H2 & H3).
      eexists _, fs1, m1. split_and!; [done..|]. destruct r, (protoToEntry directory pb); eauto.
    - destruct (append_grows directory name chunks fs m Hs Hc Hop) as (m1 & H1 & H2).
      destruct (AppendToEntry directory name chunks fs) as [r fs1]. by exists None, fs1, m1. }
  specialize (IH fs1 m1 Hs1 Hc1). destruct (run_writes ops fs1) as [ps fs2]. destruct IH as (m2 & Hs2 & Hc2 & Hg2 & Hps).
  exists m2. split_and!; [done..|auto|]. destruct p as [p|]; cbn; [|done]. constructor; auto.
Qed.

(** ** An upload and its download *)

Definition raw_bytes (p : body_part) : bytes := match p with Raw b => b | _ => [] end.

(** The bytes of a file that a response carries. *)
Definition body_of (w : response) : bytes := concat (raw_bytes <$> rs_body w).

(** The volume servers answer the requests for the chunks with the bytes uploaded. *)
Definition fetches (vs : volumes) (c : FileChunk) : option bytes := url ← chunk_url vs c; fetch vs url.

(** What the volume servers answer, up to the first chunk that they do not. *)
Fixpoint served (vs : volumes) (chunks : list FileChunk) : list bytes :=
  match chunks with
  | [] => []
  | c :: chunks => match fetches vs c with Some d => d :: served vs chunks | None => [] end
  end.

Lemma send_chunks_served vs chunks w :
  rs_status w = None \/ rs_status w = Some 200 ->
  (status_of (send_chunks vs chunks w) = 200 \/ status_of (send_chunks vs chunks w) = 500) /\
  rs_length (send_chunks vs chunks w) = rs_length w /\
  body_of (send_chunks vs chunks w) = (body_of w ++ concat (served vs chunks))%list.
Proof.
  revert w. induction chunks as [|c chunks IH]; intros w Hw; cbn [send_chunks served].
  { rewrite app_nil_r. split_and!; [|done..]. left. unfold status_of. by destruct Hw as [-> | ->]. }
  fold (fetches vs c). destruct (fetches vs c) as [d|].
  - destruct (IH (write_part (Raw d) w)) as (H1 & H2 & H3). { right. cbn. by destruct Hw as [-> | ->]. }
    rewrite H2, H3. split_and!; [done..|]. unfold body_of. cbn. rewrite fmap_app, concat_app. cbn. by rewrite app_nil_r, <- app_assoc.
  - cbn. rewrite app_nil_r. split_and!; [|done..]. unfold status_of, WriteHeader. by destruct Hw as [-> | ->]; cbn; [right|left].
Qed.

Lemma served_all vs chunks datas : Forall2 (fun c d => fetches vs c = Some d) chunks datas -> served vs chunks = datas.
Proof. induction 1 as [|c d chunks datas Hc Hf IH]; [done|]. cbn. by rewrite Hc, IH. Qed.

(** The size of the filer's chunks. *)
Definition filer_chunk_size : Z := 8 * 1024 * 1024.

(** A run of [ChunkUpload] on the stream [data] has returned [ret]. *)
Definition chunk_upload_returns (cancelled : bool) (upload : chunkJob -> option ChunkUploadResult) (data : bytes)
    (ret : string + list ChunkUploadResult) : Prop :=
  exists st, rtc (upload_step cancelled upload) (upload_start (chunk_jobs filer_chunk_size data)) st /\
    match ret with inr out => us_phase st = Returned out | inl _ => us_phase st = Failed \/ us_phase st = Aborted end.

Section uploaded.
Context (assign : chunkJob -> request_err + string) (put : chunkJob -> string -> nat -> request_err + string) (chunk_now : chunkJob -> Z).

Abbreviation upload := (upload_chunk assign put chunk_now).

(** The volume servers answer for the chunks of [data] what was uploaded. *)
Definition stored_at (vs : volumes) (data : bytes) : Prop :=
  forall j res, j ∈ chunk_jobs filer_chunk_size data -> upload j = Some res -> fetches vs (to_FileChunk res) = Some (jb_data j).

Lemma upload_place j res : upload j = Some res -> cu_Offset res = jb_offset j /\ cu_Size res = zlen (jb_data j).
Proof. unfold upload_chunk. destruct (assign j); [done|]. destruct (UploadWithRetry _ _); [done|]. by intros [= <-]. Qed.

Lemma chunks_sorted data out :
  mapM upload (chunk_jobs filer_chunk_size data) = Some out ->
  merge_sort offset_le (to_FileChunk <$> out) = (to_FileChunk <$> out) /\
  Forall2 (fun j res => upload j = Some res /\ fc_Size (to_FileChunk res) = zlen (jb_data j)) (chunk_jobs filer_chunk_size data) out.
Proof.
  intros Hout. apply mapM_Some in Hout. destruct (chunk_jobs_spec filer_chunk_size data) as (_ & _ & Hs & _).
  revert Hout Hs. generalize (chunk_jobs filer_chunk_size data). intros jobs Hout Hs. split.
  - assert (StronglySorted (fun x y => fc_Offset x < fc_Offset y) (to_FileChunk <$> out)) as Hso.
    { induction Hout as [|j res jobs out Hj Hjo IH]; [constructor|]. cbn. apply StronglySorted_inv in Hs as [Hs Hf].
      constructor; [by apply IH|]. apply Forall_forall. intros c (res' & -> & Hin)%list_elem_of_fmap.
      destruct (Forall2_elem_of_r _ _ _ _ Hjo Hin) as (j' & Hj' & Hin'). eapply Forall_forall in Hf; [|exact Hin'].
      apply upload_place in Hj as [Ho _], Hj' as [Ho' _]. cbn. lia. }
    apply (merge_sort_strict offset_le); [|done]. clear Hout. induction Hso as [|z l Hso IH Hz]; constructor; [done|].
    eapply Forall_impl; [exact Hz|]. intros y. unfold offset_le. lia.
  - eapply Forall2_impl; [exact Hout|]. intros j res Hj. split; [done|]. by apply upload_place in Hj as [_ ?].
Qed.

Lemma total_size jobs out :
  Forall2 (fun j res => upload j = Some res /\ fc_Size (to_FileChunk res) = zlen (jb_data j)) jobs out ->
  forall n, 0 <= n -> n + zlen (concat (jb_data <$> jobs)) < 2 ^ 63 ->
  fold_left (fun n c => i64 (n + fc_Size c)) (to_FileChunk <$> out) n = n + zlen (concat (jb_data <$> jobs)).
Proof.
  induction 1 as [|j res jobs out [_ Hc] Hf IH]; intros n Hn Hb; cbn in *; [lia|].
  rewrite length_app in *. rewrite Hc, i64_small by lia. rewrite IH; lia.
Qed.

Lemma stored_served vs data out :
  stored_at vs data -> mapM upload (chunk_jobs filer_chunk_size data) = Some out -> concat (served vs (to_FileChunk <$> out)) = data.
Proof.
  intros Hst Hout%mapM_Some. destruct (chunk_jobs_spec filer_chunk_size data) as (Hcat & _).
  transitivity (concat (jb_data <$> chunk_jobs filer_chunk_size data)); [f_equal|done].
  apply served_all, Forall2_fmap, Forall2_flip. apply Forall2_same_length_lookup.
  split; [by apply Forall2_length in Hout|]. intros i j res Hj Hr. cbn.
  apply Hst; [by eapply list_elem_of_lookup_2|]. by eapply (Forall2_lookup_lr _ _ _ _ _ _ Hout).
Qed.

(** What a download answers for an upload of [data]: the data that is inline, or what the
    volume servers answer for its chunks. *)
Definition downloads (vs : volumes) (r : request) (data : bytes) (ret : string + list ChunkUploadResult) (w : response) : Prop :=
  status_of w = 200 /\ rs_length w = Some (zlen data) /\
  (0 <= rq_ContentLength r <= inlineLimit -> body_of w = data) /\
  (forall out, ret = inr out -> ~ 0 <= rq_ContentLength r <= inlineLimit -> body_of w = concat (served vs (to_FileChunk <$> out))) /\
  (stored_at vs data -> body_of w = data).

(** What the download of an uploaded entry writes. *)
Lemma download_uploaded vs cancelled ret now p r data e :
  rq_body r = inr data -> zlen data < 2 ^ 63 -> chunk_upload_returns cancelled upload data ret ->
  upload_entry now (Some (masterUploader (fun _ => ret))) p r = inl e ->
  exists w, download (Some vs) e = Some w /\ (status_of w = 500 \/ downloads vs r data ret w).
Proof.
  intros Hb Hlen (st & Hrun & Hret). unfold upload_entry, masterUploader. rewrite Hb.
  destruct (decide _) as [Hbig|Hsmall]; [|intros [= <-]].
  - destruct ret as [msg|out]; [done|]. intros [= <-]. destruct (chunk_jobs_spec filer_chunk_size data) as (Hcat & Hidx & _).
    pose proof (returned_output _ _ _ _ Hidx (reachable_upload_inv _ _ _ _ Hrun) Hret) as Em.
    destruct (chunks_sorted data out Em) as [Hsort Hf]. unfold download. cbn [e_Content e_Chunks e_Attr at_Mime at_FileSize].
    rewrite decide_False by naive_solver. set (w0 := if decide (rq_ContentType r <> "") then _ else no_response).
    assert (rs_status w0 = None /\ body_of w0 = []) as [Hw1 Hw2] by (unfold w0; by destruct (decide _)).
    rewrite (total_size _ _ Hf 0) by (rewrite ?Hcat; lia). rewrite Hcat.
    replace (u64 (0 + zlen data)) with (zlen data) by (symmetry; apply wrap_small; unfold in_u; lia).
    destruct (decide (Some <$> (to_FileChunk <$> out) <> [])) as [Hne|Hne].
    + assert (mapM (fun oc => oc) (Some <$> (to_FileChunk <$> out)) = Some (to_FileChunk <$> out)) as ->
        by by (apply mapM_Some, Forall2_fmap_l, Forall2_same_length_lookup; split; [done|]; intros ???; congruence).
      cbn [mbind option_bind]. rewrite Hsort. eexists. split; [done|].
      destruct (send_chunks_served vs (to_FileChunk <$> out) (set_length (zlen data) w0)) as (H1 & H2 & H3); [by left|].
      assert (body_of (set_length (zlen data) w0) = []) as Hw3 by done. rewrite Hw3 in H3. destruct H1 as [H1|H1]; [right|by left].
      split_and!; [done|done|lia| |]; rewrite H3; [by intros ? [= <-]|]. intros Hst. by apply stored_served.
    + apply dec_stable in Hne. destruct out; [|done]. apply Forall2_nil_inv_r in Hf. rewrite Hf in Hcat. cbn in Hcat. subst data.
      eexists. split; [done|]. right. unfold downloads, status_of, body_of in *. cbn. rewrite Hw1, Hw2. split_and!; try done. by intros ? [= <-].
  - unfold download. cbn [e_Content e_Chunks e_Attr at_Mime]. set (w0 := if decide (rq_ContentType r <> "") then _ else no_response).
    assert (rs_status w0 = None /\ rs_body w0 = []) as [Hw1 Hw2] by (unfold w0; by destruct (decide _)).
    assert (0 <= rq_ContentLength r <= inlineLimit) as Hin by lia. unfold downloads, status_of, body_of. destruct (decide (data <> [])) as [Hne|Hne].
    + eexists. split; [done|]. right. cbn. rewrite Hw1, Hw2. cbn. rewrite app_nil_r. split_and!; done.
    + apply dec_stable in Hne as ->. rewrite decide_False by naive_solver. eexists. split; [done|]. right. cbn. rewrite Hw1, Hw2. split_and!; done.
Qed.

End uploaded.
End server.

(** ** Listings *)

Section listings.
Context {S : Type} `{FilerStore S} (valid : string -> Prop) (good : Entry -> Prop) (rep : S -> gmap string Entry -> Prop).
Context {Hlaws : FilerLaws S valid good rep}.

(** A page of any size, in the order of names. *)
Definition directory_of (m : gmap string Entry) (dir : string) : list (string * Entry) := dir_list map_to_list dir "" m.

(** A client that lists a directory page by page, each page starting after the last
    name of the one before, gets every entry of the directory exactly once and in order
    of names, with any positive page size, and after at most one page per entry and an
    empty one; it gets an error only when the store fails. *)
Theorem pages_list_directory (fuel : nat) (dir : string) (limit : Z) (s : S) (m : gmap string Entry) :
  rep s m -> valid dir -> 0 < limit -> m !! "/" = None -> (length (directory_of m dir) < fuel)%nat ->
  listed m dir "" false "" (directory_of m dir) /\
  exists r s', list_pages fuel dir "" limit s = Some (r, s') /\ rep s' m /\
    match r with Ret es => es = (snd <$> directory_of m dir) | Fail (FErrStore _) => True | _ => False end.
Proof.
  intros Hr Hd Hlim Hroot Hfuel. assert (listed m dir "" false "" (directory_of m dir)) as Hl.
  { assert (map_Forall (fun p e => e_FullPath e = p /\ abs_path p) m) as Hm.
    { intros p e Hp. destruct (rep_keyed s m p e Hr Hp) as (? & ? & _). split; [done|by apply valid_abs]. }
    pose proof (dir_list_listed map_to_list (fun m => Permutation_refl _) dir "" false "" m Hm) as Hl.
    rewrite filter_all in Hl; [done|]. apply Forall_true. intros x. by left. }
  split; [done|]. by apply (list_pages_spec valid good rep).
Qed.
End listings.

(** ** The theorems at work, on the store in memory *)

Definition mem_order : gmap string Entry -> list (string * Entry) := map_to_list.

Lemma mem_order_ok m : mem_order m ≡ₚ map_to_list m.
Proof. done. Qed.

Definition ex_server (m : gmap string Entry) : FilerServer MemStore :=
  mkServer (Some (NewFiler 0 (Some (mkMemStore "memory" m ∅)) [])) (NewLogBuffer 3 0 false).

Definition ex_file (p : string) : Entry := mkEntry p zero_attr [] [104; 105] ∅ [] 0 None.

Lemma abs_path_comp cs : Forall comp_ok cs -> abs_path (path_of cs).
Proof. intros H. by exists cs. Qed.

Lemma ex_serves m : map_Forall (fun p e => e_FullPath e = p /\ abs_path p) m -> serves mem_rep (ex_server m) m.
Proof. intros Hm. eexists _, _. split; [reflexivity|]. split; [reflexivity|]. by split. Qed.

(** Renaming a file to its own path loses it. *)
Lemma AtomicRenameEntry_moves_witness :
  let r := @AtomicRenameEntry MemStore (mem_store mem_order) 1 "/" "a" "/" "a" (ex_server {["/a" := ex_file "/a"]}) in
  fst r = Ret tt /\ serves mem_rep (snd r) ∅.
Proof.
  assert (map_Forall (fun p e => e_FullPath e = p /\ abs_path p) ({["/a" := ex_file "/a"]} : gmap string Entry)) as Hm.
  { apply map_Forall_singleton. split; [reflexivity|]. apply (abs_path_comp ["a"]). by apply Forall_singleton, (bool_decide_unpack _). }
  assert (abs_path "/a") as Ha by apply (Hm "/a" (ex_file "/a") eq_refl).
  pose proof (@AtomicRenameEntry_moves MemStore (mem_store mem_order) abs_path (fun _ => True) mem_rep
    (mem_laws mem_order mem_order_ok) 1 "/" "a" "/" "a" (ex_server {["/a" := ex_file "/a"]}) _ (ex_serves _ Hm) Ha Ha
    (fun _ _ => I)) as H.
  assert (fst (@AtomicRenameEntry MemStore (mem_store mem_order) 1 "/" "a" "/" "a" (ex_server {["/a" := ex_file "/a"]})) = Ret tt) as E
    by (vm_compute; reflexivity).
  destruct (AtomicRenameEntry 1 "/" "a" "/" "a" (ex_server {["/a" := ex_file "/a"]})) as [r fs']. cbn in E. subst r.
  split; [reflexivity|]. exact H.
Defined.

(** An upload below directories that do not exist yet. *)
Lemma uploads_keep_tree_witness :
  let r := run_writes (H := mem_store mem_order)
    [WUpload true (fun _ => 5) 6 None (mkRequest "/docs/2026/a.txt" 2 "text/plain" (inr [104; 105]))] (ex_server ∅) in
  fst r = [Some "/docs/2026/a.txt"] /\
  exists m', serves mem_rep (snd r) m' /\ closed m' /\ is_Some (m' !! "/docs/2026/a.txt").
Proof.
  set (ops := [WUpload true (fun _ => 5) 6 None (mkRequest "/docs/2026/a.txt" 2 "text/plain" (inr [104; 105]))]).
  assert (Forall (write_op_ok abs_path (fun _ => True)) ops) as Hok.
  { apply Forall_singleton. split; [|by split]. apply clean_abs, normalize_clean. }
  pose proof (@uploads_keep_tree MemStore (mem_store mem_order) abs_path (fun _ => True) mem_rep
    (mem_laws mem_order mem_order_ok) ops (ex_server ∅) ∅ Hok (ex_serves ∅ (map_Forall_empty _)) (map_Forall_empty _)) as H.
  assert (fst (run_writes (H := mem_store mem_order) ops (ex_server ∅)) = [Some "/docs/2026/a.txt"]) as E by (vm_compute; reflexivity).
  destruct (run_writes ops (ex_server ∅)) as [ps fs']. cbn in E. subst ps. split; [reflexivity|].
  destruct H as (m' & H1 & H2 & _ & H3). exists m'. split; [exact H1|]. split; [exact H2|]. by apply Forall_cons in H3 as [H3 _].
Defined.

(** A file of three bytes that comes in one chunk. *)
Definition one_chunk : ChunkUploadResult := mkChunkResult "7,0000000000000001000000d6" 0 3 5 "e".

Lemma one_chunk_returned :
  chunk_upload_returns false (upload_chunk (fun _ => inr "7,0000000000000001000000d6") (fun _ _ _ => inr "e") (fun _ => 5)) [1; 2; 3] (inr [one_chunk]).
Proof.
  assert (chunk_jobs filer_chunk_size [1; 2; 3] = [mkJob 0 0 [1; 2; 3]]) as E by (vm_compute; reflexivity).
  unfold chunk_upload_returns. rewrite E. unfold upload_start. cbn [replicate defaultChunkWorkers]. eexists. split.
  - eapply rtc_l; [apply step_send; by repeat constructor|]. cbn [app].
    eapply rtc_l; [apply (step_take _ _ 0); reflexivity|]. eapply rtc_l; [apply (step_work _ _ 0); reflexivity|].
    eapply rtc_l; [eapply (step_put _ _ 0); [reflexivity|by repeat constructor]|]. cbn [app]. eapply rtc_l; [apply step_close|].
    eapply rtc_l; [by apply (step_exit _ _ 0)|]. eapply rtc_l; [by apply (step_exit _ _ 1)|]. eapply rtc_l; [by apply (step_exit _ _ 2)|].
    eapply rtc_l; [apply step_receive|]. eapply rtc_l; [apply step_return; by repeat constructor|]. apply rtc_refl.
  - vm_compute. reflexivity.
Qed.


Definition ex_directory : gmap string Entry :=
  <["/b" := ex_file "/b"]> (<["/a" := ex_file "/a"]> (<["/c" := ex_file "/c"]> ∅)).

(** Three entries in pages of two. *)
Lemma pages_list_directory_witness :
  exists r s', list_pages (H := mem_store mem_order) 4 "/" "" 2 (mkMemStore "memory" ex_directory ∅) = Some (r, s') /\
    match r with Ret es => es = [ex_file "/a"; ex_file "/b"; ex_file "/c"] | Fail (FErrStore _) => True | _ => False end.
Proof.
  assert (forall c, comp_ok c -> abs_path ("/" +:+ c)) as Hp.
  { intros c Hc. exists [c]. split; [by apply Forall_singleton|]. cbn [path_of segs]. by rewrite append_nil_r. }
  assert (mem_rep (mkMemStore "memory" ex_directory ∅) ex_directory) as Hr.
  { split; [reflexivity|]. unfold ex_directory. repeat apply map_Forall_insert_2; [..|apply map_Forall_empty];
      (split; [reflexivity|]); [apply (Hp "b")|apply (Hp "a")|apply (Hp "c")]; by apply (bool_decide_unpack _). }
  destruct (@pages_list_directory MemStore (mem_store mem_order) abs_path (fun _ => True) mem_rep
    (mem_laws mem_order mem_order_ok) 4 "/" 2 (mkMemStore "memory" ex_directory ∅) ex_directory Hr) as (_ & r & s' & E & _ & H).
  - by exists [].
  - reflexivity.
  - vm_compute. reflexivity.
  - vm_compute. lia.
  - exists r, s'. split; [exact E|]. destruct r as [es|e|]; [|exact H..]. rewrite H. vm_compute. reflexivity.
Defined.

(** ** Where the two stores differ

    [DeleteFolderChildren] of the store in memory removes everything below the directory,
    that of LevelDB only its direct entries; a limit of 0 lists everything in memory and
    nothing in LevelDB. *)

Definition deep : string := "/a/b/c".

Definition deep_marshal (e : Entry) : outcome string string := if decide (e = ex_file deep) then Ret "{c}" else Fail "unsupported".
Definition deep_unmarshal (d : string) : outcome string Entry := if decide (d = "{c}") then Ret (ex_file deep) else Fail "invalid".

Lemma DeleteFolderChildren_differ :
  (let s := snd (upsert (ex_file deep) (New "memory")) in
   fst (mem_FindEntry deep (snd (mem_DeleteFolderChildren "/a" s))) = Fail ErrNotFound) /\
  (let s := snd (put_entry deep_marshal (ex_file deep) (mkLevelDB2Store "" (∅ : gmap string string))) in
   fst (ldb_FindEntry deep_unmarshal deep (snd (ldb_DeleteFolderChildren "/a" s))) = Ret (ex_file deep)).
Proof. split; vm_compute; reflexivity. Qed.

Definition count_entries (e : Entry) (n : nat) : bool * nat := (true, S n).

Lemma limit_zero_differs :
  (let s := snd (upsert (ex_file deep) (New "memory")) in
   snd (fst (mem_listEntries mem_order "/a/b" "" false 0 "" count_entries 0%nat s)) = 1%nat) /\
  (let s := snd (put_entry deep_marshal (ex_file deep) (mkLevelDB2Store "" (∅ : gmap string string))) in
   snd (fst (ldb_listEntries deep_unmarshal "/a/b" "" false 0 "" count_entries 0%nat s)) = 0%nat).
Proof. split; vm_compute; reflexivity. Qed.

(** * What the gRPC calls of a filer do to its namespace

    Postconditions of the calls of [FilerServer], for the clients of a filer. *)

(** The log after the event [text]. *)
Definition logged (now : Z) (text : string) (log : LogBuffer) : LogBuffer := AppendEntry now (code <$> chars text) log.

Lemma deliver_send n l acc last :
  deliver n (send_entry (fun _ => true)) l (acc, false) last =
    (default last (list.last (fst <$> take n l)), ((acc ++ ((fun x => entryToProto (snd x)) <$> take n l))%list, false)).
Proof.
  revert l acc last. induction n as [|n IH]; intros l acc last; [by cbn; rewrite app_nil_r|].
  destruct l as [|[name e] l]; [by cbn; rewrite app_nil_r|]. cbn [deliver send_entry]. rewrite IH. cbn [take fmap list_fmap fst snd].
  rewrite <- app_assoc, last_cons. by destruct (list.last (fst <$> take n l)).
Qed.

Section calls.
Context {S : Type} `{FilerStore S} (valid : string -> Prop) (good : Entry -> Prop) (rep : S -> gmap string Entry -> Prop).
Context {Hlaws : FilerLaws S valid good rep}.

Lemma serves_keyed fs m p e : serves rep fs m -> m !! p = Some e -> e_FullPath e = p /\ valid p /\ good e.
Proof. intros (f & s & _ & _ & Hr). by apply rep_keyed with (s := s). Qed.

Lemma runs_filer {A} (k : GoM (FilerServer S) grpc_code A) fs m Q :
  serves rep fs m -> runs k fs Q -> runs (with_filer Unavailable (fun _ => k)) fs Q.
Proof. intros Hs HQ. unfold runs. by destruct (with_filer_serves rep Unavailable (fun _ : Filer S => k) fs m Hs) as [f ->]. Qed.

Lemma lookup_call directory name fs m :
  let p := joinDirectoryAndName directory name in
  serves rep fs m -> valid p ->
  runs (LookupDirectoryEntry directory name) fs (fun r fs' => serves rep fs' m /\ srv_log fs' = srv_log fs /\
    match r with
    | Ret pb => exists e, m !! p = Some e /\ pb = entryToProto e
    | Fail NotFound => m !! p = None
    | Fail Internal => True
    | _ => False
    end).
Proof.
  intros p Hs Hv. apply (runs_filer _ _ _ _ Hs), runs_bind. fold p. unfold runs.
  destruct (call_find valid good rep found_code p fs m Hs Hv) as (fs1 & r1 & -> & Hs1 & Hl & H1).
  destruct r1 as [e|g|]; [cbn; by eauto 6| |done]. split; [done|]. split; [done|].
  destruct H1 as ([] & -> & Hn); [by apply Hn|done].
Qed.

Lemma create_call now directory pb e fs m :
  serves rep fs m -> protoToEntry directory pb = Some e -> valid (e_FullPath e) -> good e ->
  runs (g_CreateEntry now directory pb) fs (fun r fs' =>
    match r with
    | Ret _ => has_parent m (e_FullPath e) /\ serves rep fs' (<[e_FullPath e := e]> m) /\
        srv_log fs' = logged now ("create:" +:+ e_FullPath e) (srv_log fs)
    | Fail g => g = Internal /\ (serves rep fs' m \/ serves rep fs' (<[e_FullPath e := e]> m))
    | Panic => False
    end).
Proof.
  intros Hs Hpb Hv Hg. unfold g_CreateEntry. rewrite Hpb. apply (runs_filer _ _ _ _ Hs), runs_bind. unfold runs.
  pose proof Hs as (f0 & s0 & Hf & Hst & Hr). unfold f_CreateEntry. rewrite (filer_call_store internal (create_entry e) fs f0 s0 Hf Hst).
  pose proof (create_entry_spec valid good rep e s0 m Hv Hg Hr) as Hsp. destruct (create_entry e s0) as [r s1]. cbn [fst snd].
  set (fs1 := mkServer (Some (SetStore s1 f0)) (srv_log fs)).
  assert (forall mm, rep s1 mm -> serves rep fs1 mm) as Hserve by (intros mm Hmm; by exists (SetStore s1 f0), s1).
  destruct r as [u|g|]; [|split; [done|]|done].
  - destruct Hsp as [Hpar Hr1]. split; [done|]. split; [by apply serves_log, Hserve|done].
  - assert (rep s1 m \/ rep s1 (<[e_FullPath e := e]> m)) as [Hr1|Hr1]; [|by auto..].
    destruct g; try (by left); destruct Hsp as [|[_ ?]]; auto.
Qed.

Lemma update_call directory pb e fs m :
  serves rep fs m -> protoToEntry directory pb = Some e -> valid (e_FullPath e) -> good e ->
  runs (g_UpdateEntry directory pb) fs (fun r fs' =>
    match r with
    | Ret _ => serves rep fs' (<[e_FullPath e := e]> m)
    | Fail g => g = Internal /\ (serves rep fs' m \/ serves rep fs' (<[e_FullPath e := e]> m))
    | Panic => False
    end).
Proof.
  intros Hs Hpb Hv Hg. unfold g_UpdateEntry. rewrite Hpb. apply (runs_filer _ _ _ _ Hs). unfold runs.
  destruct (call_update valid good rep internal e fs m Hs Hv Hg) as (fs1 & r1 & -> & _ & H1).
  destruct r1 as [u|g|]; [done| |done]. destruct H1 as [H1 (? & ->)]. by split.
Qed.

Lemma delete_call now directory name fs m :
  let p := joinDirectoryAndName directory name in
  serves rep fs m -> valid p ->
  runs (g_DeleteEntry now directory name) fs (fun r fs' =>
    match r with
    | Ret _ => serves rep fs' (delete p m) /\ srv_log fs' = logged now ("delete:" +:+ p) (srv_log fs)
    | Fail NotFound => serves rep fs' m /\ m !! p = None
    | Fail Internal => serves rep fs' m \/ serves rep fs' (delete p m)
    | _ => False
    end).
Proof.
  intros p Hs Hv. unfold g_DeleteEntry. cbv zeta. fold p. apply (runs_filer _ _ _ _ Hs), runs_bind. unfold runs.
  destruct (call_delete valid good rep found_code p fs m Hs Hv) as (fs1 & r1 & -> & Hl & H1).
  destruct r1 as [u|g|]; [| |done].
  - split; [by apply serves_log|]. cbn. by rewrite Hl.
  - destruct H1 as [H1 (e & -> & Hn)]. destruct e as [|msg]; [|done]. cbn. specialize (Hn eq_refl). split; [|done].
    destruct H1 as [H1|H1]; [done|]. by rewrite delete_id in H1.
Qed.

(** A rename between different paths that succeeds. *)
Lemma rename_call now oldDir oldName newDir newName fs m fs' :
  let old := joinDirectoryAndName oldDir oldName in
  let new := joinDirectoryAndName newDir newName in
  serves rep fs m -> valid old -> valid new -> old <> new -> (forall e, m !! old = Some e -> good (set_FullPath new e)) ->
  AtomicRenameEntry now oldDir oldName newDir newName fs = (Ret tt, fs') ->
  exists e, m !! old = Some e /\ serves rep fs' (delete old (<[new := set_FullPath new e]> m)) /\
    srv_log fs' = logged now ("rename:" +:+ old +:+ "->" +:+ new) (srv_log fs).
Proof.
  intros old new Hs Ho Hn Hne Hg E. revert E. change (AtomicRenameEntry now oldDir oldName newDir newName fs) with
    (with_filer Unavailable (fun _ : Filer S => e ← filer_call found_code (f_FindEntry old);
      filer_call internal (f_UpdateEntry (set_FullPath new e));; filer_call internal (f_DeleteEntry old);;
      modify (log_event now ("rename:" +:+ old +:+ "->" +:+ new))) fs).
  match goal with |- with_filer _ (fun _ => ?k) _ = _ -> _ => destruct (with_filer_serves rep Unavailable (fun _ : Filer S => k) fs m Hs) as [f ->] end.
  destruct (call_find valid good rep found_code old fs m Hs Ho) as (fs1 & r1 & E1 & Hs1 & L1 & H1).
  destruct r1 as [e|c|]; [rewrite (bind_run _ _ _ _ _ E1)|by rewrite (bind_fail _ _ _ _ _ E1)|done].
  destruct (call_update valid good rep internal (set_FullPath new e) fs1 m Hs1 Hn (Hg e H1)) as (fs2 & r2 & E2 & L2 & H2).
  destruct r2 as [u|c|]; [rewrite (bind_run _ _ _ _ _ E2)|by rewrite (bind_fail _ _ _ _ _ E2)|done].
  destruct (call_delete valid good rep internal old fs2 _ H2 Ho) as (fs3 & r3 & E3 & L3 & H3).
  destruct r3 as [u'|c|]; [rewrite (bind_run _ _ _ _ _ E3)|by rewrite (bind_fail _ _ _ _ _ E3)|done].
  intros [= <-]. exists e. split; [done|]. split; [done|]. cbn. by rewrite L3, L2, L1.
Qed.
Lemma list_entries_call directory fs m :
  serves rep fs m -> valid (joinDirectoryAndName directory "") ->
  let '(r, sent, fs') := ListEntries (fun _ => true) directory "" "" false 10000 fs in
  serves rep fs' m /\
  match r with
  | Ret _ => exists ls, listed m (joinDirectoryAndName directory "") "" false "" ls /\
      sent = ((fun x => entryToProto (snd x)) <$> take (Z.to_nat 10000) ls)
  | Fail c => c = Internal \/ c = SendError
  | Panic => False
  end.
Proof.
  intros (f & s & Hf & Hst & Hr) Hv. unfold ListEntries. rewrite Hf, Hst. rewrite (decide_False (P := 10000 <= 0)) by lia.
  rewrite (decide_False (P := "" <> "")) by naive_solver. unfold ListDirectoryEntries.
  pose proof (List_law s m (list PbEntry * bool) _ "" false 10000 (send_entry (fun _ => true)) ([], false) Hr Hv ltac:(lia)) as Hl.
  destruct (ListDirectoryPrefixedEntries _ _ _ _ _ _ _ s) as [[r [sent failed]] s1]. destruct Hl as [Hr1 Hl].
  split; [by exists (SetStore s1 f), s1|]. destruct r as [last|g|]; [|destruct failed; auto|done].
  destruct Hl as (ls & Hls & Hd). rewrite deliver_send in Hd. injection Hd as _ <- <-. by exists ls.
Qed.
End calls.

(** ** Directories on the way *)

(** Of [m'] compared to [m]: nothing is lost, and what is new are directories on the way
    to [path_of cs]. *)
Record dirs_grow (cs : list string) (m m' : gmap string Entry) : Prop := {
  dg_closed : closed m';
  dg_old : forall p e, m !! p = Some e -> m' !! p = Some e;
  dg_new : forall p e, m' !! p = Some e -> m !! p = Some e \/
    (exists pre, pre <> [] /\ pre `prefix_of` cs /\ p = path_of pre) /\ IsDirectory e = true;
}.

Lemma dirs_grow_refl cs m : closed m -> dirs_grow cs m m.
Proof. split; auto. Qed.

Lemma dirs_grow_trans cs m1 m2 m3 : dirs_grow cs m1 m2 -> dirs_grow cs m2 m3 -> dirs_grow cs m1 m3.
Proof. intros [_ H2 H3] [H4 H5 H6]. split; [done|auto|]. intros p e Hp. destruct (H6 _ _ Hp) as [|]; auto. Qed.

Lemma dirs_grow_insert cs1 c cs2 m e :
  closed m -> clean_comp c -> cs1 = [] \/ is_Some (m !! path_of cs1) -> m !! path_of (cs1 ++ [c])%list = None -> IsDirectory e = true ->
  dirs_grow (cs1 ++ c :: cs2)%list m (<[path_of (cs1 ++ [c])%list := e]> m).
Proof.
  intros Hc Hok Hp Hn He. split.
  - apply closed_insert; [done|]. by apply path_of_snoc_parent; [apply Hok|].
  - intros p e' Hp'. rewrite lookup_insert_ne; [done|]. intros <-. by rewrite Hn in Hp'.
  - intros p e' [[<- <-]|[_ Hp']]%lookup_insert_Some; [right|by left]. split; [|done]. exists (cs1 ++ [c])%list.
    split_and!; [by destruct cs1| |done]. exists cs2. by rewrite <- app_assoc.
Qed.
