(* ===== verification/AsyncReplicator.v ===== *)
(** * AsyncReplicator: copying the changes of one filer to another

    Models [goblob/replication/async/replicator.go] between two filer servers over any
    stores, and the sending loop of [SubscribeMetadata] of
    [goblob/server/filer_grpc_server.go].  Looking up and assigning volumes and the HTTP
    requests for chunks are arguments over a state [W]; so are the clocks of the
    filers.  The lag of the status is in nanoseconds, where the code has floating-point
    seconds.  The metrics, the connections and the end of the stream are left out. *)

From S2P Require Import Prelude GoStrings GoPath Types LogBuffer Http GoText FilerStore Filer FilerServer StoreView MemoryStore FilerSpec PathSpec.
From S2P Require Import FilerSafe FilerHttp.

#[local] Open Scope Z_scope.
#[local] Open Scope string_scope.

Record Config := mkConfig {
  rc_SourceCluster : string;
  rc_SourceFiler : string;
  rc_TargetCluster : string;
  rc_TargetFiler : string;
  rc_PathPrefix : string;
}.

Record Status := mkStatus {
  rs_LagNs : Z;
  rs_LastEventTsNs : Z;
  rs_Replicated : Z;
  rs_LastError : string;
  rs_UpdatedAt : Z;
}.

Inductive rep_err := RepRpc (c : grpc_code) | RepErr (msg : string).

Definition rep_isNotFound (e : rep_err) : bool := match e with RepRpc NotFound => true | _ => false end.

(** No call of a filer answers with [codes.AlreadyExists]. *)
Definition isAlreadyExists (e : rep_err) : bool := false.

Definition rep_text (e : rep_err) : string :=
  match e with
  | RepErr msg => msg
  | RepRpc Unavailable => "unavailable"
  | RepRpc NotFound => "not found"
  | RepRpc Internal => "internal"
  | RepRpc InvalidArgument => "invalid argument"
  | RepRpc SendError => "send error"
  end.

Definition cleanDir (dir : string) : string :=
  if decide (dir = "") then "/" else
  let cleaned := Clean ("/" +:+ dir) in if decide (cleaned = ".") then "/" else cleaned.

(** The attributes of a missing record are zero. *)
Definition pb_Mtime (e : PbEntry) : Z := default 0 (fa_Mtime <$> pe_Attributes e).

Definition isTargetNewer (target source : PbEntry) : bool := bool_decide (pb_Mtime target > pb_Mtime source).

Definition NewReplicator (c : Config) : outcome string Config :=
  if decide (rc_TargetCluster c = "") then Fail "target cluster is required" else
  if decide (rc_SourceFiler c = "") then Fail "source filer is required" else
  if decide (rc_TargetFiler c = "") then Fail "target filer is required" else Ret c.

(** ** Chunks *)

(** The locations of a volume, a GET, an assignment (the text of its error, the file id and
    the two addresses) and a PUT. *)
Record chunk_net (W : Type) := mkChunkNet {
  cn_lookup : string -> GoM W string (option (list (string * string)));
  cn_get : string -> GoM W string (Z * bytes);
  cn_assign : string -> string -> string -> GoM W string (string * string * string * string);
  cn_put : string -> bytes -> GoM W string Z;
}.
Arguments cn_lookup {W}.
Arguments cn_get {W}.
Arguments cn_assign {W}.
Arguments cn_put {W}.

Definition set_FileId (fid : string) (c : PbChunk) : PbChunk :=
  mkPbChunk fid (pc_Offset c) (pc_Size c) (pc_ModifiedTsNs c) (pc_ETag c) (pc_IsCompressed c) (pc_Fid c).

Definition set_pb_Chunks (l : list (option PbChunk)) (e : PbEntry) : PbEntry :=
  mkPbEntry (pe_Name e) (pe_IsDirectory e) l (pe_Attributes e) (pe_Extended e) (pe_Content e) (pe_HardLinkId e) (pe_HardLinkCounter e) (pe_Remote e).

Section chunks.
Context {W : Type} (net : chunk_net W).

Definition readChunkFromSource (fid : string) : GoM W string bytes :=
  match ParseFileId fid with
  | Ret parsed =>
      let token := str (FormatUint (fid_VolumeId parsed) 10) in
      locs ← cn_lookup net token;
      match locs with
      | None | Some [] => fail ("no source volume locations for " +:+ token)
      | Some ((url, publicUrl) :: _) =>
          let addr := if decide (url = "") then publicUrl else url in
          if decide (addr = "") then fail ("empty source volume address for " +:+ token) else
          resp ← cn_get net ("http://" +:+ addr +:+ "/" +:+ fid);
          if decide (fst resp <> 200) then fail ("read source chunk " +:+ fid +:+ " status=" +:+ Itoa (fst resp)) else mret (snd resp)
      end
  | Fail e => fail ("parse source fid " +:+ fid)
  | Panic => panic
  end.

Definition writeChunkToTarget (e : PbEntry) (data : bytes) : GoM W string string :=
  let attr f := default "" (f <$> pe_Attributes e) in
  resp ← cn_assign net (attr fa_Collection) (attr fa_Replication) (attr fa_DiskType);
  let '(err, fid, url, publicUrl) := resp in
  if decide (err <> "") then fail ("assign target volume: " +:+ err) else
  if decide (fid = "") then fail "empty assigned target file id" else
  let addr := if decide (url = "") then publicUrl else url in
  if decide (addr = "") then fail "empty assigned target volume address" else
  code ← cn_put net ("http://" +:+ addr +:+ "/" +:+ fid) data;
  if decide (code <> 201 /\ code <> 200) then fail ("write target chunk status=" +:+ Itoa code) else mret fid.

Fixpoint replicate_chunks (e : PbEntry) (chunks : list (option PbChunk)) : GoM W string (list (option PbChunk)) :=
  match chunks with
  | [] => mret []
  | None :: chunks => rest ← replicate_chunks e chunks; mret (None :: rest)
  | Some c :: chunks =>
      if decide (pc_FileId c = "") then rest ← replicate_chunks e chunks; mret (Some c :: rest) else
      payload ← readChunkFromSource (pc_FileId c);
      fid ← writeChunkToTarget e payload;
      rest ← replicate_chunks e chunks;
      mret (Some (set_FileId fid c) :: rest)
  end.

Definition replicateChunks (e : PbEntry) : GoM W string PbEntry :=
  chunks ← replicate_chunks e (pe_Chunks e); mret (set_pb_Chunks chunks e).
End chunks.

(** ** Events *)

Section replicator.
Context {S T W : Type} `{FilerStore S} `{FilerStore T} (net : chunk_net W) (config : Config).

Record rep_state := mkRepState {
  rp_source : FilerServer S;
  rp_target : FilerServer T;
  rp_world : W;
  rp_status : option Status;
}.

Definition on_source {A} (m : GoM (FilerServer S) grpc_code A) : GoM rep_state rep_err A := fun st =>
  let '(r, fs) := m (rp_source st) in
  (match r with Ret a => Ret a | Fail c => Fail (RepRpc c) | Panic => Panic end, mkRepState fs (rp_target st) (rp_world st) (rp_status st)).

Definition on_target {A} (m : GoM (FilerServer T) grpc_code A) : GoM rep_state rep_err A := fun st =>
  let '(r, fs) := m (rp_target st) in
  (match r with Ret a => Ret a | Fail c => Fail (RepRpc c) | Panic => Panic end, mkRepState (rp_source st) fs (rp_world st) (rp_status st)).

Definition on_world {A} (m : GoM W string A) : GoM rep_state rep_err A := fun st =>
  let '(r, w) := m (rp_world st) in
  (match r with Ret a => Ret a | Fail e => Fail (RepErr e) | Panic => Panic end, mkRepState (rp_source st) (rp_target st) w (rp_status st)).

(** [record]: the status after an event with a label, at the time [now]. *)
Definition record (now : Z) (label : string) (eventTsNs : Z) (err : option rep_err) : GoM rep_state rep_err unit :=
  modify (fun st =>
    let replicated := default 0 (rs_Replicated <$> rp_status st) in
    mkRepState (rp_source st) (rp_target st) (rp_world st)
      (Some (mkStatus (if decide (eventTsNs > 0) then Z.max 0 (now - eventTsNs) else 0) eventTsNs
               (if decide (label = "ok") then u64 (replicated + 1) else replicated) (default "" (rep_text <$> err)) now))).

(** The second half of [replicateUpsert], with the entry of the source and what is to be written. *)
Definition write_target (now : Z) (directory name : string) (eventTsNs : Z) (srcEntry entryToWrite : PbEntry) : GoM rep_state rep_err unit := fun st =>
  match on_target (LookupDirectoryEntry (cleanDir directory) name) st with
  | (Ret targetEntry, st) =>
      if isTargetNewer targetEntry srcEntry then record now "skipped_stale" eventTsNs None st
      else on_target (g_UpdateEntry directory (Some entryToWrite)) st
  | (Fail e, st) =>
      if negb (rep_isNotFound e) then (Fail e, st) else
      match on_target (g_CreateEntry now directory (Some entryToWrite)) st with
      | (Fail e, st) => if isAlreadyExists e then on_target (g_UpdateEntry directory (Some entryToWrite)) st else (Fail e, st)
      | rst => rst
      end
  | (Panic, st) => (Panic, st)
  end.

Definition replicateUpsert (now : Z) (directory name : string) (eventTsNs : Z) : GoM rep_state rep_err unit :=
  if decide (name = "") then mret tt else
  srcEntry ← on_source (LookupDirectoryEntry (cleanDir directory) name);
  entryToWrite ← on_world (replicateChunks net srcEntry);
  write_target now directory name eventTsNs srcEntry entryToWrite.

Definition replicateDelete (now : Z) (directory name : string) (eventTsNs : Z) : GoM rep_state rep_err unit := fun st =>
  if decide (name = "") then (Ret tt, st) else
  match on_target (LookupDirectoryEntry (cleanDir directory) name) st with
  | (Ret targetEntry, st) =>
      if decide (i64 (pb_Mtime targetEntry * 10 ^ 9) > eventTsNs) then record now "skipped_stale" eventTsNs None st
      else on_target (g_DeleteEntry now directory name) st
  | (Fail e, st) => if rep_isNotFound e then (Ret tt, st) else (Fail e, st)
  | (Panic, st) => (Panic, st)
  end.

Definition handleEvent (now : Z) (n : SubscribeResponse) : GoM rep_state rep_err unit :=
  let eventTsNs := nt_TsNs n in
  match nt_NewEntry n, nt_OldEntry n with
  | Some new, None => replicateUpsert now (nt_Directory n) new eventTsNs
  | Some new, Some old =>
      replicateUpsert now (nt_NewParentPath n) new eventTsNs;;
      replicateDelete now (nt_Directory n) old eventTsNs
  | None, Some old => replicateDelete now (nt_Directory n) old eventTsNs
  | None, None => mret tt
  end.

(** The loop of [Start] over the events of the stream, each with the clock: an event that
    fails is recorded and passed over. *)
Fixpoint replicate_events (events : list (Z * SubscribeResponse)) : GoM rep_state rep_err unit :=
  match events with
  | [] => mret tt
  | (now, n) :: events => fun st =>
      match handleEvent now n st with
      | (Ret _, st) => (record now "ok" (nt_TsNs n) None;; replicate_events events) st
      | (Fail e, st) => (record now "error" (nt_TsNs n) (Some e);; replicate_events events) st
      | (Panic, st) => (Panic, st)
      end
  end.
End replicator.
Arguments rep_state : clear implicits.

(** The messages that [SubscribeMetadata] sends for the events of the log, each with the
    time of its sending. *)
Definition subscribed (pathPrefix : string) (events : list (Z * string)) : list SubscribeResponse :=
  filter (fun n => pathPrefix = "" \/ HasPrefix (nt_Directory n) pathPrefix = true)
    (omap (fun x => eventBytesToSubscribeResponse (fst x) (snd x)) events).

(** * The target filer follows the source

    Writers change the source filer while the replicator handles the events of these changes
    on the target, one after the other and in any interleaving.  A path that no waiting event
    is about, and whose last event was handled without an error, is the same on both filers,
    or the target has an entry there that is newer than the one of the source. *)

(** ** Replicas of entries *)

(** The time of an entry in seconds, which is what is sent of it. *)
Definition mtime_s (e : Entry) : Z := to_unix (at_Mtime (e_Attr e)).

(** A chunk of the source and the chunk written for it. *)
Definition chunk_copy (c c' : option PbChunk) : Prop :=
  match c, c' with
  | Some c, Some c' => c' = c \/ exists fid, c' = set_FileId fid c
  | None, None => True
  | _, _ => False
  end.

(** [e'] is [e] sent to another filer, with the file ids of its chunks there. *)
Definition copy_of (e e' : Entry) : Prop :=
  exists chunks, Forall2 chunk_copy (pe_Chunks (entryToProto e)) chunks /\
    protoToEntry (fst (DirAndName (e_FullPath e))) (Some (set_pb_Chunks chunks (entryToProto e))) = Some e'.

Definition replica_of (o o' : option Entry) : Prop :=
  match o, o' with
  | Some e, Some e' => copy_of e e'
  | None, None => True
  | _, _ => False
  end.

Lemma copy_mtime e e' : copy_of e e' -> mtime_s e' = mtime_s e.
Proof.
  intros (chunks & _ & [= <-]). unfold mtime_s. cbn [e_Attr]. unfold protoAttrToEntry.
  cbn [pe_Attributes set_pb_Chunks entryToProto]. case_match; cbn; unfold to_unix, of_unix; by rewrite Z.div_mul.
Qed.

(** ** Events *)

Inductive event := EvCreate (p : string) | EvDelete (p : string) | EvRename (old new : string).

Definition text_of (ev : event) : string :=
  match ev with
  | EvCreate p => "create:" +:+ p
  | EvDelete p => "delete:" +:+ p
  | EvRename old new => "rename:" +:+ old +:+ "->" +:+ new
  end.

Definition notice_of (ts : Z) (ev : event) : SubscribeResponse :=
  match ev with
  | EvCreate p => mkNotice (fst (DirAndName p)) ts None (Some (snd (DirAndName p))) ""
  | EvDelete p => mkNotice (fst (DirAndName p)) ts (Some (snd (DirAndName p))) None ""
  | EvRename old new => mkNotice (fst (DirAndName old)) ts (Some (snd (DirAndName old))) (Some (snd (DirAndName new))) (fst (DirAndName new))
  end.

(** The paths of an event, each with whether it has an entry afterwards. *)
Definition sets (ev : event) : list (string * bool) :=
  match ev with
  | EvCreate p => [(p, true)]
  | EvDelete p => [(p, false)]
  | EvRename old new => [(new, true); (old, false)]
  end.

Definition paths_of (ev : event) : gset string := list_to_set (fst <$> sets ev).

Lemma paths_create p q : q ∈ paths_of (EvCreate p) <-> q = p.
Proof. unfold paths_of. cbn. set_solver. Qed.

Lemma paths_delete p q : q ∈ paths_of (EvDelete p) <-> q = p.
Proof. unfold paths_of. cbn. set_solver. Qed.

Lemma paths_rename old new q : q ∈ paths_of (EvRename old new) <-> q = new \/ q = old.
Proof. unfold paths_of. cbn. set_solver. Qed.

(** Whether [p] has an entry after the last of the events that is about it. *)
Definition touches (p : string) (ev : event) : option bool := snd <$> head (filter (fun y => fst y = p) (sets ev)).

Fixpoint latest (p : string) (q : list event) : option bool :=
  match q with
  | [] => None
  | x :: q => match latest p q with Some r => Some r | None => touches p x end
  end.

Lemma latest_snoc p q x : latest p (q ++ [x])%list = match touches p x with Some r => Some r | None => latest p q end.
Proof. induction q as [|y q IH]; cbn; [by destruct (touches p x)|]. rewrite IH. by destruct (touches p x). Qed.

Lemma touches_None p ev : touches p ev = None <-> p ∉ paths_of ev.
Proof.
  unfold touches, paths_of. rewrite fmap_None. induction (sets ev) as [|[q b] l IH]; [set_solver|].
  rewrite filter_cons. case_decide; cbn in *; set_solver.
Qed.

(** The subscriber reads the event back from its text, when the paths of a rename have no
    arrow. *)
Definition readable (ev : event) : Prop :=
  match ev with
  | EvCreate p | EvDelete p => p <> ""
  | EvRename old new => Cut (old +:+ "->" +:+ new) "->" = Some (old, new)
  end.

Abbreviation colon_free op := (":"%char ∉ chars op).

Lemma Cut_colon op target : colon_free op -> Cut (op +:+ ":" +:+ target) ":" = Some (op, target).
Proof. apply (Cut_byte ":"%char op target). Qed.

Lemma text_roundtrip ts ev : readable ev -> eventBytesToSubscribeResponse ts (text_of ev) = Some (notice_of ts ev).
Proof.
  unfold eventBytesToSubscribeResponse. destruct ev as [p|p|old new]; cbn [readable text_of]; intros Hr.
  - change ("create:" +:+ p) with ("create" +:+ ":" +:+ p). rewrite Cut_colon by (apply (bool_decide_unpack _); exact I).
    cbn [mbind option_bind]. rewrite (decide_False (P := p = "")) by done. cbn [notice_of]. by destruct (DirAndName p).
  - change ("delete:" +:+ p) with ("delete" +:+ ":" +:+ p). rewrite Cut_colon by (apply (bool_decide_unpack _); exact I).
    cbn [mbind option_bind]. rewrite (decide_False (P := p = "")) by done. cbn [notice_of]. by destruct (DirAndName p).
  - change ("rename:" +:+ old +:+ "->" +:+ new) with ("rename" +:+ ":" +:+ (old +:+ "->" +:+ new)).
    rewrite Cut_colon by (apply (bool_decide_unpack _); exact I).
    cbn [mbind option_bind]. rewrite (decide_False (P := _ = "")) by (by destruct old). destruct (DirAndName (old +:+ "->" +:+ new)) as [d n].
    rewrite !decide_False by done. rewrite decide_True by done. rewrite Hr. cbn [notice_of].
    by destruct (DirAndName old), (DirAndName new).
Qed.

(** ** Handling one event *)

(** A clean path other than the root is read back from its directory and its name. *)
Lemma clean_split p :
  clean_path p -> p <> "/" ->
  cleanDir (fst (DirAndName p)) = fst (DirAndName p) /\ snd (DirAndName p) <> "" /\
  joinDirectoryAndName (fst (DirAndName p)) (snd (DirAndName p)) = p.
Proof.
  intros (cs & Hcs & ->) Hroot. destruct cs as [|c cs _] using rev_ind; [done|]. apply Forall_app in Hcs as [Hcs [Hc _]%Forall_cons].
  rewrite DirAndName_snoc by apply Hc. cbn [fst snd]. split; [|split; [apply Hc|by apply joinDirectoryAndName_comp]].
  unfold cleanDir. rewrite decide_False by apply path_of_nonempty. rewrite Clean_slash by done. rewrite decide_False; [done|].
  intros E. pose proof (path_of_prefix cs) as Hp. by rewrite E in Hp.
Qed.

Section spec.
Context {S T W : Type} `{FilerStore S} `{FilerStore T} (net : chunk_net W).
Context (valid : string -> Prop) (good : Entry -> Prop) (rep : S -> gmap string Entry -> Prop) {Hlaws : FilerLaws S valid good rep}.
Context (good' : Entry -> Prop) (rep' : T -> gmap string Entry -> Prop) {Hlaws' : FilerLaws T valid good' rep'}.
Context (Hgood : forall e e', good e -> copy_of e e' -> good' e').

Abbreviation state := (rep_state S T W).

Definition both (st : state) (ms mt : gmap string Entry) : Prop := serves rep (rp_source st) ms /\ serves rep' (rp_target st) mt.

Lemma runs_source {A} (m : GoM (FilerServer S) grpc_code A) (st : state) Q :
  runs m (rp_source st) (fun r fs => Q (match r with Ret a => Ret a | Fail c => Fail (RepRpc c) | Panic => Panic end)
    (mkRepState fs (rp_target st) (rp_world st) (rp_status st))) ->
  runs (on_source m) st Q.
Proof. unfold runs, on_source. by destruct (m (rp_source st)). Qed.

Lemma runs_target {A} (m : GoM (FilerServer T) grpc_code A) (st : state) Q :
  runs m (rp_target st) (fun r fs => Q (match r with Ret a => Ret a | Fail c => Fail (RepRpc c) | Panic => Panic end)
    (mkRepState (rp_source st) fs (rp_world st) (rp_status st))) ->
  runs (on_target m) st Q.
Proof. unfold runs, on_target. by destruct (m (rp_target st)). Qed.

(** Copying the chunks of an entry changes their file ids at most. *)
Lemma replicate_chunks_copy e l w :
  runs (replicate_chunks net e l) w (fun r _ => match r with Ret l' => Forall2 chunk_copy l l' | _ => True end).
Proof.
  revert w. induction l as [|[c|] l IH]; intros w; [constructor| |]; cbn [replicate_chunks].
  - case_decide.
    + apply runs_bind. eapply runs_mono; [apply IH|]. intros [l'|e'|] w' Hl; [|done..]. constructor; [by left|done].
    + apply runs_bind. unfold runs at 1. destruct (readChunkFromSource net _ w) as [[data|e'|] w1]; [|done..].
      apply runs_bind. unfold runs at 1. destruct (writeChunkToTarget net e data w1) as [[fid|e'|] w2]; [|done..].
      apply runs_bind. eapply runs_mono; [apply IH|]. intros [l'|e'|] w' Hl; [|done..]. constructor; [right; by exists fid|done].
  - apply runs_bind. eapply runs_mono; [apply IH|]. intros [l'|e'|] w' Hl; [|done..]. by constructor.
Qed.

(** What writing the copy of [e] at [p] leaves on the target. *)
Definition upserted (p : string) (e : Entry) (mt mt' : gmap string Entry) : Prop :=
  exists e', copy_of e e' /\ mt' = <[p := e']> mt.

Lemma write_target_runs now p ts e chunks (st : state) ms mt :
  both st ms mt -> clean_path p -> p <> "/" -> ms !! p = Some e -> Forall2 chunk_copy (pe_Chunks (entryToProto e)) chunks ->
  runs (write_target now (fst (DirAndName p)) (snd (DirAndName p)) ts (entryToProto e) (set_pb_Chunks chunks (entryToProto e))) st
    (fun r st' => exists mt', both st' ms mt' /\
      match r with
      | Ret _ => (mt' = mt /\ exists t, mt !! p = Some t /\ mtime_s e < mtime_s t) \/ upserted p e mt mt'
      | Fail err => err <> RepRpc NotFound /\ (mt' = mt \/ upserted p e mt mt')
      | Panic => False
      end).
Proof.
  intros [Hs Ht] Hc Hroot He Hch. destruct (clean_split p Hc Hroot) as (Hdir & Hname & Hjoin).
  destruct (serves_keyed valid good rep _ _ _ _ Hs He) as (Hp & Hv & Hge).
  assert (exists e', copy_of e e' /\ protoToEntry (fst (DirAndName p)) (Some (set_pb_Chunks chunks (entryToProto e))) = Some e' /\
    e_FullPath e' = p) as (e' & Hcopy & Hpb & Hp').
  { eexists. split; [exists chunks; split; [done|]; by rewrite Hp|]. split; [done|]. cbn. by rewrite Hp. }
  assert (good' e') as Hg' by by apply (Hgood e).
  assert (forall st' : state, both st' ms mt -> runs (on_target (g_UpdateEntry (fst (DirAndName p)) (Some (set_pb_Chunks chunks (entryToProto e))))) st'
    (fun r st' => exists mt', both st' ms mt' /\
      match r with Ret _ => upserted p e mt mt' | Fail err => err <> RepRpc NotFound /\ (mt' = mt \/ upserted p e mt mt') | Panic => False end)) as Hupd.
  { intros st' [Hs' Ht']. apply runs_target. eapply runs_mono; [apply (update_call valid good' rep' _ _ e' _ mt); [done|done|by rewrite Hp'|done]|].
    rewrite Hp'. intros [u|g|] fs1 H1; [|destruct H1 as [-> [H1|H1]]|done]; eexists; (split; [by split|]); [by exists e'|by auto|].
    split; [done|]. right. by exists e'. }
  unfold write_target, runs. rewrite Hdir.
  pose proof (lookup_call valid good' rep' (fst (DirAndName p)) (snd (DirAndName p)) _ _ Ht) as Hl. rewrite Hjoin in Hl. specialize (Hl Hv).
  unfold runs in Hl. unfold on_target at 1. destruct (LookupDirectoryEntry _ _ (rp_target st)) as [[pb|g|] fs1];
    destruct Hl as (Ht1 & _ & Hl); [| |done].
  - destruct Hl as (t & Hmt & ->). unfold isTargetNewer. case_bool_decide as Hnew.
    + exists mt. split; [done|]. left. split; [done|]. exists t. split; [done|]. unfold mtime_s. cbn in Hnew. lia.
    + pose proof (Hupd (mkRepState (rp_source st) fs1 (rp_world st) (rp_status st)) (conj Hs Ht1)) as Hu. unfold runs in Hu.
      destruct (on_target _ _) as [[u|g|] st']; destruct Hu as (mt' & Hb & Hu); exists mt'; auto.
  - destruct g; try done; cbn [rep_isNotFound negb]; [|exists mt; split; [done|]; by auto].
    pose proof (create_call valid good' rep' now (fst (DirAndName p)) _ e' fs1 mt Ht1 Hpb) as Hcr. rewrite Hp' in Hcr.
    specialize (Hcr Hv Hg'). unfold runs in Hcr. unfold on_target. cbn [rp_target rp_source rp_world rp_status].
    destruct (g_CreateEntry now _ _ fs1) as [[u|g|] fs2]; cbn [isAlreadyExists]; [| |done].
    + destruct Hcr as (_ & Hcr & _). eexists. split; [by split|]. right. by exists e'.
    + destruct Hcr as [-> [Hcr|Hcr]]; eexists; (split; [by split|]); (split; [done|]); [by left|right; by exists e'].
Qed.

Lemma rep_upsert_runs now p ts (st : state) ms mt :
  both st ms mt -> clean_path p -> p <> "/" -> valid p ->
  runs (replicateUpsert net now (fst (DirAndName p)) (snd (DirAndName p)) ts) st (fun r st' => exists mt', both st' ms mt' /\
    match r with
    | Ret _ => exists e, ms !! p = Some e /\ ((mt' = mt /\ exists t, mt !! p = Some t /\ mtime_s e < mtime_s t) \/ upserted p e mt mt')
    | Fail err => (err = RepRpc NotFound -> ms !! p = None) /\ (mt' = mt \/ exists e, ms !! p = Some e /\ upserted p e mt mt')
    | Panic => mt' = mt
    end).
Proof.
  intros [Hs Ht] Hc Hroot Hv. destruct (clean_split p Hc Hroot) as (Hdir & Hname & Hjoin).
  unfold replicateUpsert. rewrite decide_False by done. rewrite Hdir. apply runs_bind, runs_source.
  pose proof (lookup_call valid good rep (fst (DirAndName p)) (snd (DirAndName p)) _ _ Hs) as Hl. rewrite Hjoin in Hl.
  eapply runs_mono; [by apply Hl|]. intros [pb|g|] fs1 (Hs1 & _ & H1); [| |done].
  - destruct H1 as (e & He & ->). apply runs_bind. unfold runs at 1. unfold on_world, replicateChunks. cbn [rp_world rp_source rp_target rp_status].
    pose proof (replicate_chunks_copy (entryToProto e) (pe_Chunks (entryToProto e)) (rp_world st)) as Hch. unfold runs in Hch.
    unfold mbind, GoM_bind. destruct (replicate_chunks _ _ _ _) as [[l|err|] w1]; cbn; [|exists mt; split; [done|]; split; [done|by left]|by exists mt].
    eapply runs_mono; [by apply (write_target_runs now p ts e l)|]. intros [u|err|] st' (mt' & Hb & H1); exists mt'; split; try done.
    + by exists e.
    + destruct H1 as [Hne H1]. split; [done|]. destruct H1; [by left|right; by exists e].
  - exists mt. split; [done|]. split; [|by left]. intros [= ->]. done.
Qed.

Lemma rep_delete_runs now p ts (st : state) ms mt :
  both st ms mt -> clean_path p -> p <> "/" -> valid p ->
  runs (replicateDelete now (fst (DirAndName p)) (snd (DirAndName p)) ts) st (fun r st' => exists mt', both st' ms mt' /\
    match r with
    | Ret _ => mt' = delete p mt \/ (mt' = mt /\ exists t, mt !! p = Some t /\ i64 (of_unix (mtime_s t)) > ts)
    | Fail _ => mt' = mt \/ mt' = delete p mt
    | Panic => False
    end).
Proof.
  intros [Hs Ht] Hc Hroot Hv. destruct (clean_split p Hc Hroot) as (Hdir & Hname & Hjoin).
  unfold replicateDelete, runs. rewrite decide_False by done. rewrite Hdir.
  pose proof (lookup_call valid good' rep' (fst (DirAndName p)) (snd (DirAndName p)) _ _ Ht) as Hl. rewrite Hjoin in Hl. specialize (Hl Hv).
  unfold runs in Hl. unfold on_target at 1. destruct (LookupDirectoryEntry _ _ (rp_target st)) as [[pb|g|] fs1];
    destruct Hl as (Ht1 & _ & Hl); [| |done].
  - destruct Hl as (t & Hmt & ->). case_decide as Hnew.
    + exists mt. split; [done|]. right. split; [done|]. by exists t.
    + pose proof (delete_call valid good' rep' now (fst (DirAndName p)) (snd (DirAndName p)) _ _ Ht1) as Hd. rewrite Hjoin in Hd.
      specialize (Hd Hv). unfold runs in Hd. unfold on_target. cbn [rp_target rp_source rp_world rp_status].
      destruct (g_DeleteEntry now _ _ fs1) as [[u|[]|] fs2]; try done.
      * destruct Hd as [Hd _]. eexists. split; [by split|]. by left.
      * destruct Hd as [Hd _]. eexists. split; [by split|]. by left.
      * destruct Hd as [Hd|Hd]; eexists; (split; [by split|]); auto.
  - destruct g; try done; cbn [rep_isNotFound].
    + exists mt. split; [done|]. left. by rewrite delete_id.
    + exists mt. split; [done|]. by left.
Qed.
(** *** Events by what they do to each path *)

Definition event_ok (ev : event) : Prop :=
  readable ev /\ (forall p, p ∈ paths_of ev -> clean_path p /\ p <> "/" /\ valid p) /\
  match ev with EvRename old new => old <> new | _ => True end.

(** The path [p] after an event at [ts] handled without an error: it has the copy of the
    entry of the source, or no entry, unless the target has a newer one. *)
Definition settled (ts : Z) (ms mt' : gmap string Entry) (p : string) (up : bool) : Prop :=
  if up then exists e, ms !! p = Some e /\ ((exists e', copy_of e e' /\ mt' !! p = Some e') \/ (exists t, mt' !! p = Some t /\ mtime_s e < mtime_s t))
  else mt' !! p = None \/ exists t, mt' !! p = Some t /\ i64 (of_unix (mtime_s t)) > ts.

(** A path has what it had, nothing, or a copy of what the source has. *)
Definition moved_on (ms mt mt' : gmap string Entry) (p : string) : Prop :=
  mt' !! p = mt !! p \/ mt' !! p = None \/ exists e e', ms !! p = Some e /\ copy_of e e' /\ mt' !! p = Some e'.

(** The entry of a create event is gone: the event of its removal is still to come. *)
Definition outdated (ev : event) (err : rep_err) : bool :=
  match ev with EvCreate _ => rep_isNotFound err | _ => false end.

Definition handled (ts : Z) (ev : event) (ms mt mt' : gmap string Entry) (r : outcome rep_err unit) : Prop :=
  (forall p, p ∉ paths_of ev -> mt' !! p = mt !! p) /\ (forall p, moved_on ms mt mt' p) /\
  match r with
  | Ret _ => forall p up, (p, up) ∈ sets ev -> settled ts ms mt' p up
  | Fail err => outdated ev err = true -> forall p up, (p, up) ∈ sets ev -> ms !! p = None
  | Panic => True
  end.

Lemma moved_upserted ms mt mt' p q e : ms !! p = Some e -> upserted p e mt mt' -> moved_on ms mt mt' q.
Proof.
  intros He (e' & Hc & ->). destruct (decide (p = q)) as [<-|]; [right; right; exists e, e'; by rewrite lookup_insert_eq|].
  left. by rewrite lookup_insert_ne.
Qed.

Lemma moved_deleted ms mt p q : moved_on ms mt (delete p mt) q.
Proof. destruct (decide (p = q)) as [<-|]; [right; left; by rewrite lookup_delete_eq|left; by rewrite lookup_delete_ne]. Qed.

Lemma upserted_ne p q e mt mt' : upserted p e mt mt' -> q <> p -> mt' !! q = mt !! q.
Proof. intros (e' & _ & ->) Hne. by rewrite lookup_insert_ne. Qed.

Lemma upserted_settled ts p e ms mt mt' :
  ms !! p = Some e -> (mt' = mt /\ exists t, mt !! p = Some t /\ mtime_s e < mtime_s t) \/ upserted p e mt mt' -> settled ts ms mt' p true.
Proof.
  intros He Hcase. exists e. split; [done|]. destruct Hcase as [[-> Ht]|(e' & Hc & ->)]; [by right|left].
  exists e'. by rewrite lookup_insert_eq.
Qed.

Lemma create_handled now p ts (st : state) ms mt :
  both st ms mt -> event_ok (EvCreate p) ->
  runs (handleEvent net now (notice_of ts (EvCreate p))) st (fun r st' => exists mt', both st' ms mt' /\ handled ts (EvCreate p) ms mt mt' r).
Proof.
  intros Hb (_ & Hok & _). destruct (Hok p) as (Hc & Hroot & Hv); [by apply paths_create|]. unfold handleEvent. cbn [notice_of nt_NewEntry nt_OldEntry nt_Directory nt_TsNs].
  eapply runs_mono; [by apply (rep_upsert_runs now p ts st ms mt)|]. intros r st' (mt' & Hb' & Hr). exists mt'. split; [done|].
  unfold handled. cbn [sets outdated]. destruct r as [u|err|].
  - destruct Hr as (e & He & Hcase). split_and!.
    + intros q Hq. rewrite paths_create in Hq. destruct Hcase as [[-> _]|Hu]; [done|]. apply (upserted_ne _ _ _ _ _ Hu). done.
    + intros q. destruct Hcase as [[-> _]|Hu]; [by left|by apply (moved_upserted _ _ _ p q e)].
    + intros q up [= -> ->]%list_elem_of_singleton. by apply (upserted_settled ts p e ms mt).
  - destruct Hr as [Hn Hcase]. split_and!.
    + intros q Hq. rewrite paths_create in Hq. destruct Hcase as [->|(e & _ & Hu)]; [done|]. apply (upserted_ne _ _ _ _ _ Hu). done.
    + intros q. destruct Hcase as [->|(e & He & Hu)]; [by left|by apply (moved_upserted _ _ _ p q e)].
    + intros Ho q up [= -> ->]%list_elem_of_singleton. apply Hn. by destruct err as [[]|].
  - subst mt'. split_and!; [done| |done]. by left.
Qed.

Lemma delete_handled now p ts (st : state) ms mt :
  both st ms mt -> event_ok (EvDelete p) ->
  runs (handleEvent net now (notice_of ts (EvDelete p))) st (fun r st' => exists mt', both st' ms mt' /\ handled ts (EvDelete p) ms mt mt' r).
Proof.
  intros Hb (_ & Hok & _). destruct (Hok p) as (Hc & Hroot & Hv); [by apply paths_delete|]. unfold handleEvent. cbn [notice_of nt_NewEntry nt_OldEntry nt_Directory nt_TsNs].
  eapply runs_mono; [by apply (rep_delete_runs now p ts st ms mt)|]. intros r st' (mt' & Hb' & Hr). exists mt'. split; [done|].
  assert (r <> Panic -> mt' = mt \/ mt' = delete p mt) as Hcase by (destruct r; naive_solver).
  unfold handled. cbn [sets outdated]. split_and!.
  - intros q Hq. rewrite paths_delete in Hq. destruct Hcase as [->| ->]; [by destruct r|done|]. rewrite lookup_delete_ne; [done|congruence].
  - intros q. destruct Hcase as [->| ->]; [by destruct r|by left|apply moved_deleted].
  - destruct r as [u|err|]; [|done..]. intros q up [= -> ->]%list_elem_of_singleton. destruct Hr as [->|[-> Ht]]; [left|by right].
    by rewrite lookup_delete_eq.
Qed.

Lemma rename_handled now old new ts (st : state) ms mt :
  both st ms mt -> event_ok (EvRename old new) ->
  runs (handleEvent net now (notice_of ts (EvRename old new))) st (fun r st' => exists mt', both st' ms mt' /\ handled ts (EvRename old new) ms mt mt' r).
Proof.
  intros Hb (_ & Hok & Hne). destruct (Hok new) as (Hc & Hroot & Hv); [apply paths_rename; by left|]. destruct (Hok old) as (Hc' & Hroot' & Hv'); [apply paths_rename; by right|].
  unfold handleEvent. cbn [notice_of nt_NewEntry nt_OldEntry nt_Directory nt_NewParentPath nt_TsNs]. apply runs_bind.
  eapply runs_mono; [by apply (rep_upsert_runs now new ts st ms mt)|]. intros r st1 (mt1 & Hb1 & Hr1). unfold handled. cbn [sets outdated].
  assert (r = Panic -> mt1 = mt) as Hpan by by intros ->.
  assert (mt1 = mt \/ exists e, ms !! new = Some e /\ upserted new e mt mt1) as Hcase by (destruct r; naive_solver).
  assert (forall q, q ∉ paths_of (EvRename old new) -> mt1 !! q = mt !! q) as Hoff.
  { intros q Hq. destruct Hcase as [->|(e & _ & Hu)]; [done|]. apply (upserted_ne _ _ _ _ _ Hu). rewrite paths_rename in Hq. naive_solver. }
  assert (forall q, moved_on ms mt mt1 q) as Hmv.
  { intros q. destruct Hcase as [->|(e & He & Hu)]; [by left|by apply (moved_upserted _ _ _ new q e)]. }
  destruct r as [u|err|]; [|exists mt1; by split_and!..].
  eapply runs_mono; [by apply (rep_delete_runs now old ts st1 ms mt1)|]. intros r st2 (mt2 & Hb2 & Hr2). exists mt2. split; [done|].
  assert (r <> Panic -> mt2 = mt1 \/ mt2 = delete old mt1) as Hcase2 by (destruct r; naive_solver).
  split_and!.
  - intros q Hq. rewrite <- Hoff by done. destruct Hcase2 as [->| ->]; [by destruct r|done|]. rewrite lookup_delete_ne; [done|]. rewrite paths_rename in Hq. naive_solver.
  - intros q. destruct Hcase2 as [->| ->]; [by destruct r|done|]. destruct (decide (old = q)) as [<-|]; [right; left; by rewrite lookup_delete_eq|].
    unfold moved_on. rewrite lookup_delete_ne by done. apply Hmv.
  - destruct r as [u'|err|]; [|done..]. destruct Hr1 as (e & He & Hset).
    intros q up [[= -> ->]|[= -> ->]%list_elem_of_singleton]%elem_of_cons.
    + pose proof (upserted_settled ts new e ms mt mt1 He Hset) as (e0 & He0 & Hset'). exists e0. split; [done|].
      replace (mt2 !! new) with (mt1 !! new); [done|]. destruct Hcase2 as [->| ->]; [done|done|]. by rewrite lookup_delete_ne.
    + destruct Hr2 as [->|[-> Ht]]; [left; by rewrite lookup_delete_eq|by right].
Qed.

Lemma event_handled now ev ts (st : state) ms mt :
  both st ms mt -> event_ok ev ->
  runs (handleEvent net now (notice_of ts ev)) st (fun r st' => exists mt', both st' ms mt' /\ handled ts ev ms mt mt' r).
Proof. destruct ev; [apply create_handled|apply delete_handled|apply rename_handled]. Qed.
(** ** Two filers and the events between them *)

(** The calls that change the source and leave an event. *)
Inductive source_op :=
| SrcCreate (directory : string) (pb : option PbEntry)
| SrcDelete (directory name : string)
| SrcRename (oldDir oldName newDir newName : string).

Definition exec_source (now : Z) (op : source_op) : GoM (FilerServer S) grpc_code unit :=
  match op with
  | SrcCreate directory pb => g_CreateEntry now directory pb
  | SrcDelete directory name => g_DeleteEntry now directory name
  | SrcRename oldDir oldName newDir newName => AtomicRenameEntry now oldDir oldName newDir newName
  end.

Definition event_of (op : source_op) : option event :=
  match op with
  | SrcCreate directory pb => EvCreate ∘ e_FullPath <$> protoToEntry directory pb
  | SrcDelete directory name => Some (EvDelete (joinDirectoryAndName directory name))
  | SrcRename oldDir oldName newDir newName =>
      Some (EvRename (joinDirectoryAndName oldDir oldName) (joinDirectoryAndName newDir newName))
  end.

(** For a path, the time of the last entry that the source has had there, and the latest time
    of its entries there. *)
Definition cur (h : gmap string (Z * Z)) (p : string) : Z := default 0 (fst <$> h !! p).
Definition upto (h : gmap string (Z * Z)) (p : string) (t : Z) : Prop := exists m, snd <$> h !! p = Some m /\ t <= m.

Definition seen (p : string) (t : Z) (h : gmap string (Z * Z)) : gmap string (Z * Z) :=
  <[p := (t, match h !! p with Some (_, m) => Z.max m t | None => t end)]> h.

Definition times (op : source_op) (h : gmap string (Z * Z)) : gmap string (Z * Z) :=
  match op with
  | SrcCreate directory pb => match protoToEntry directory pb with Some e => seen (e_FullPath e) (mtime_s e) h | None => h end
  | SrcDelete _ _ => h
  | SrcRename oldDir oldName newDir newName =>
      seen (joinDirectoryAndName newDir newName) (cur h (joinDirectoryAndName oldDir oldName)) h
  end.

Record pair := mkPair {
  pr_state : state;
  pr_pending : list event;
  pr_times : gmap string (Z * Z);
  pr_sent : gmap string Z;
  pr_failed : gset string;
}.

(** A change of the source at [now] that succeeds, and the next event, that the source sends
    at [sent] and the replicator handles at [now]. *)
Inductive action := Write (now : Z) (op : source_op) | Replicate (sent now : Z).

(** [pr_sent] has the times at which the last events of the paths were sent, [pr_failed] the
    paths whose last event ended with an error. *)
Definition step (a : action) (s : pair) : option pair :=
  match a with
  | Write now op =>
      match exec_source now op (rp_source (pr_state s)), event_of op with
      | (Ret _, fs), Some ev =>
          Some (mkPair (mkRepState fs (rp_target (pr_state s)) (rp_world (pr_state s)) (rp_status (pr_state s)))
            (pr_pending s ++ [ev])%list (times op (pr_times s)) (pr_sent s) (pr_failed s))
      | _, _ => None
      end
  | Replicate sent now =>
      match pr_pending s with
      | [] => None
      | ev :: q =>
          n ← eventBytesToSubscribeResponse sent (text_of ev);
          let st := snd (replicate_events net [(now, n)] (pr_state s)) in
          let next := mkPair st q (pr_times s) (gset_to_gmap sent (paths_of ev) ∪ pr_sent s) in
          match fst (handleEvent net now n (pr_state s)) with
          | Ret _ => Some (next (pr_failed s ∖ paths_of ev))
          | Fail e => Some (next (if outdated ev e then pr_failed s else pr_failed s ∪ paths_of ev))
          | Panic => None
          end
      end
  end.

Fixpoint run_pair (acts : list action) (s : pair) : option pair :=
  match acts with
  | [] => Some s
  | a :: acts => s' ← step a s; run_pair acts s'
  end.

(** Entries and paths of a change that the laws of the source speak of; the paths of a rename
    are different and readable. *)
Definition action_ok (a : action) : Prop :=
  match a with
  | Write _ op =>
      (forall ev, event_of op = Some ev -> event_ok ev) /\
      match op with
      | SrcCreate directory pb => forall e, protoToEntry directory pb = Some e -> good e
      | SrcRename _ _ newDir newName => forall e, good e -> good (set_FullPath (joinDirectoryAndName newDir newName) e)
      | _ => True
      end
  | Replicate _ _ => True
  end.

(** *** The invariant *)

(** Why a path can differ when its last event was handled: the target has an entry that is
    newer than that of the source, copied from an earlier entry there; or it has one, of an
    entry that was removed, whose time is after the sending of the event. *)
Definition newer_on_target (h : gmap string (Z * Z)) (sent : gmap string Z) (ms mt : gmap string Entry) (p : string) : Prop :=
  (exists e t, ms !! p = Some e /\ mt !! p = Some t /\ mtime_s e < mtime_s t /\ upto h p (mtime_s t)) \/
  (exists t, ms !! p = None /\ mt !! p = Some t /\ exists ts, sent !! p = Some ts /\ i64 (of_unix (mtime_s t)) > ts).

Record synced (ms mt : gmap string Entry) (q : list event) (h : gmap string (Z * Z)) (sent : gmap string Z) (failed : gset string) : Prop := {
  sy_replica p : latest p q = None -> p ∉ failed -> replica_of (ms !! p) (mt !! p) \/ newer_on_target h sent ms mt p;
  sy_source p e : ms !! p = Some e -> mtime_s e = cur h p /\ upto h p (mtime_s e);
  sy_target p t : mt !! p = Some t -> upto h p (mtime_s t);
  sy_last p (up : bool) : latest p q = Some up -> if up then is_Some (ms !! p) else ms !! p = None;
  sy_events : Forall event_ok q;
}.

(** A change of the source, path by path. *)
Record changes (ev : event) (ms ms' : gmap string Entry) (h h' : gmap string (Z * Z)) : Prop := {
  ch_off p : p ∉ paths_of ev -> ms' !! p = ms !! p /\ h' !! p = h !! p;
  ch_on p (up : bool) : (p, up) ∈ sets ev ->
    (forall t, upto h p t -> upto h' p t) /\
    if up then exists e, ms' !! p = Some e /\ mtime_s e = cur h' p /\ upto h' p (mtime_s e) else ms' !! p = None;
}.

Lemma touches_Some p ev up : touches p ev = Some up -> (p, up) ∈ sets ev.
Proof.
  unfold touches. intros ([q b] & Hh & ->)%fmap_Some.
  apply head_Some_elem_of, list_elem_of_filter in Hh as [Hq Hin]. cbn in Hq. by subst q.
Qed.

Lemma paths_sets p ev : p ∈ paths_of ev -> exists up, (p, up) ∈ sets ev.
Proof. unfold paths_of. rewrite elem_of_list_to_set, list_elem_of_fmap. intros ([q up] & -> & Hin). by exists up. Qed.

Lemma times_same h h' p : h' !! p = h !! p -> upto h' p = upto h p /\ cur h' p = cur h p.
Proof. unfold upto, cur. by intros ->. Qed.

Lemma synced_change ev ms ms' mt q h h' sent failed :
  synced ms mt q h sent failed -> event_ok ev -> changes ev ms ms' h h' -> synced ms' mt (q ++ [ev])%list h' sent failed.
Proof.
  intros [H1 H2 H3 H4 H5] Hev [Hoff Hon]. split.
  - intros p Hp Hf. rewrite latest_snoc in Hp. destruct (touches p ev) eqn:E; [done|]. apply touches_None in E.
    destruct (Hoff p E) as [E1 [E2 _]%times_same]. unfold newer_on_target. rewrite E1, E2. by apply H1.
  - intros p e He. destruct (decide (p ∈ paths_of ev)) as [(up & Hin)%paths_sets|Hp].
    + destruct (Hon p up Hin) as (_ & Hup). destruct up; [|congruence]. destruct Hup as (e' & He' & Hm). by simplify_eq.
    + destruct (Hoff p Hp) as [E [-> ->]%times_same]. rewrite E in He. by apply H2.
  - intros p t Ht. specialize (H3 p t Ht). destruct (decide (p ∈ paths_of ev)) as [(up & Hin)%paths_sets|Hp].
    + destruct (Hon p up Hin) as (Hle & _). by apply Hle.
    + by destruct (Hoff p Hp) as [_ [-> _]%times_same].
  - intros p up Hl. rewrite latest_snoc in Hl. destruct (touches p ev) as [up'|] eqn:E.
    + injection Hl as ->. apply touches_Some in E as Hin. destruct (Hon p up Hin) as (_ & Hup).
      destruct up; [|done]. destruct Hup as (e & -> & _). by eexists.
    + apply touches_None in E. destruct (Hoff p E) as [-> _]. by apply H4.
  - apply Forall_app. split; [done|]. by apply Forall_singleton.
Qed.

(** The target of an event that was settled. *)
Lemma settled_follows ts ev ms mt mt' q h sent failed p (up : bool) :
  synced ms mt (ev :: q) h sent failed -> latest p q = None -> touches p ev = Some up ->
  (forall t, mt' !! p = Some t -> upto h p (mtime_s t)) -> settled ts ms mt' p up ->
  replica_of (ms !! p) (mt' !! p) \/ newer_on_target h (gset_to_gmap ts (paths_of ev) ∪ sent) ms mt' p.
Proof.
  intros [_ Hs _ Hl _] Hp Htouch Ht Hset. specialize (Hl p up). cbn [latest] in Hl. rewrite Hp in Hl. specialize (Hl Htouch).
  assert (p ∈ paths_of ev) as Hin by (apply dec_stable; rewrite <- touches_None; congruence). destruct up; cbn in Hset.
  - destruct Hset as (e & He & Hset). rewrite He. destruct Hset as [(e' & Hc & ->)|(t & Hmt & Hlt)]; [by left|right; left].
    exists e, t. split; [done|]. split; [done|]. split; [done|by apply Ht].
  - rewrite Hl. destruct Hset as [->|(t & Hmt & Hlt)]; [by left|right; right]. exists t. split; [done|]. split; [done|]. exists ts. split; [|done].
    apply lookup_union_Some_l. by rewrite lookup_gset_to_gmap, option_guard_True.
Qed.

Definition failed_after (ev : event) (r : outcome rep_err unit) (failed : gset string) : gset string :=
  match r with
  | Ret _ => failed ∖ paths_of ev
  | Fail e => if outdated ev e then failed else failed ∪ paths_of ev
  | Panic => failed
  end.

Lemma synced_event ts ev ms mt mt' q h sent failed r :
  synced ms mt (ev :: q) h sent failed -> r <> Panic -> handled ts ev ms mt mt' r ->
  synced ms mt' q h (gset_to_gmap ts (paths_of ev) ∪ sent) (failed_after ev r failed).
Proof.
  intros Hsy Hr (Hoff & Hmv & Hres). pose proof Hsy as [H1 H2 H3 H4 H5].
  assert (forall p t, mt' !! p = Some t -> upto h p (mtime_s t)) as Htarget.
  { intros p t Ht. destruct (Hmv p) as [E|[E|(e & e' & He & Hc & E)]]; rewrite E in Ht; [by apply H3|done|]. injection Ht as <-.
    rewrite (copy_mtime _ _ Hc). by destruct (H2 p e He). }
  split; [|done|done| |].
  - intros p Hp Hf. destruct (touches p ev) as [up|] eqn:E.
    + pose proof E as Hin%touches_Some. destruct r as [u|e|]; [|clear Hr|done].
      * apply (settled_follows ts ev ms mt mt' q h sent failed p up); [done..|by apply Htarget|by apply Hres].
      * exfalso. cbn in Hf, Hres. destruct (outdated ev e) eqn:Eo.
        -- specialize (Hres eq_refl p up Hin). destruct ev; try done. apply list_elem_of_singleton in Hin as [= -> ->].
           specialize (H4 p0 true). cbn [latest] in H4. rewrite Hp in H4. destruct (H4 E) as [e' He']. congruence.
        -- assert (touches p ev <> None) as Hn by by rewrite E. rewrite touches_None in Hn. set_solver.
    + pose proof E as Hoffp. rewrite touches_None in Hoffp. unfold newer_on_target. rewrite Hoff by done.
      rewrite lookup_union_r by by rewrite lookup_gset_to_gmap, option_guard_False. apply H1; [cbn [latest]; by rewrite Hp|].
      intros Hin. apply Hf. destruct r as [u|e|]; cbn; [|case_match|done]; set_solver.
  - intros p up Hl. apply H4. cbn [latest]. by rewrite Hl.
  - by apply Forall_cons in H5 as [_ H5].
Qed.

(** *** Steps keep the invariant *)

Lemma seen_ne p t h q : q <> p -> seen p t h !! q = h !! q.
Proof. intros Hne. unfold seen. by rewrite lookup_insert_ne. Qed.

Lemma seen_eq p t h : (forall t', upto h p t' -> upto (seen p t h) p t') /\ t = cur (seen p t h) p /\ upto (seen p t h) p t.
Proof.
  unfold seen, upto, cur. rewrite lookup_insert_eq. cbn. split_and!; [|done|].
  - intros t' (m & Hm & Hle). destruct (h !! p) as [[c m']|]; [|done]. injection Hm as ->. eexists. split; [done|lia].
  - eexists. split; [done|]. destruct (h !! p) as [[c m']|]; lia.
Qed.

Lemma create_changes now directory pb fs fs' ms mt q h sent failed ev :
  serves rep fs ms -> synced ms mt q h sent failed -> action_ok (Write now (SrcCreate directory pb)) ->
  g_CreateEntry now directory pb fs = (Ret tt, fs') -> event_of (SrcCreate directory pb) = Some ev ->
  event_ok ev /\ srv_log fs' = logged now (text_of ev) (srv_log fs) /\ exists ms', serves rep fs' ms' /\ changes ev ms ms' h (times (SrcCreate directory pb) h).
Proof.
  intros Hs Hsy [Hok Hg] E Hev. specialize (Hok ev Hev). split; [done|]. unfold event_of in Hev. apply fmap_Some in Hev as (e & Hpb & ->).
  cbn [times]. rewrite Hpb. cbn in Hok |- *.
  assert (valid (e_FullPath e)) as Hv by (destruct Hok as (_ & Hok & _); apply Hok; by apply paths_create).
  pose proof (create_call valid good rep now directory pb e fs ms Hs Hpb Hv (Hg e Hpb)) as H1. unfold runs in H1. rewrite E in H1.
  destruct H1 as (_ & H1 & Hlog). split; [done|]. eexists. split; [done|]. split.
  - intros p Hp. rewrite paths_create in Hp. by rewrite seen_ne, lookup_insert_ne by congruence.
  - intros p up [= -> ->]%list_elem_of_singleton. destruct (seen_eq (e_FullPath e) (mtime_s e) h) as [? ?]. split; [done|].
    exists e. by rewrite lookup_insert_eq.
Qed.

Lemma delete_changes now directory name fs fs' ms mt q h sent failed ev :
  serves rep fs ms -> synced ms mt q h sent failed -> action_ok (Write now (SrcDelete directory name)) ->
  g_DeleteEntry now directory name fs = (Ret tt, fs') -> event_of (SrcDelete directory name) = Some ev ->
  event_ok ev /\ srv_log fs' = logged now (text_of ev) (srv_log fs) /\ exists ms', serves rep fs' ms' /\ changes ev ms ms' h (times (SrcDelete directory name) h).
Proof.
  intros Hs Hsy [Hok _] E Hev. specialize (Hok ev Hev). split; [done|]. injection Hev as <-.
  assert (valid (joinDirectoryAndName directory name)) as Hv by (destruct Hok as (_ & Hok & _); apply Hok; by apply paths_delete).
  pose proof (delete_call valid good rep now directory name fs ms Hs Hv) as H1. unfold runs in H1. rewrite E in H1.
  destruct H1 as [H1 Hlog]. split; [done|]. eexists. split; [done|]. split.
  - intros p Hp. rewrite paths_delete in Hp. by rewrite lookup_delete_ne by congruence.
  - intros p up [= -> ->]%list_elem_of_singleton. split; [done|]. by rewrite lookup_delete_eq.
Qed.

Lemma rename_changes now od on nd nn fs fs' ms mt q h sent failed ev :
  serves rep fs ms -> synced ms mt q h sent failed -> action_ok (Write now (SrcRename od on nd nn)) ->
  AtomicRenameEntry now od on nd nn fs = (Ret tt, fs') -> event_of (SrcRename od on nd nn) = Some ev ->
  event_ok ev /\ srv_log fs' = logged now (text_of ev) (srv_log fs) /\ exists ms', serves rep fs' ms' /\ changes ev ms ms' h (times (SrcRename od on nd nn) h).
Proof.
  intros Hs Hsy [Hok Hg] E Hev. specialize (Hok ev Hev). split; [done|]. injection Hev as <-. cbn [times]. set (old := joinDirectoryAndName od on) in *. set (new := joinDirectoryAndName nd nn) in *.
  pose proof Hok as (_ & Hpaths & Hne). destruct (Hpaths old) as (_ & _ & Hvo); [apply paths_rename; by right|].
  destruct (Hpaths new) as (_ & _ & Hvn); [apply paths_rename; by left|].
  destruct (rename_call valid good rep now od on nd nn fs ms fs' Hs Hvo Hvn Hne) as (e & He & H1 & Hlog); [|done|].
  { intros e He. apply Hg. by destruct (serves_keyed valid good rep _ _ _ _ Hs He) as (_ & _ & ?). }
  destruct (sy_source _ _ _ _ _ _ Hsy old e He) as [Hm _]. fold old new in H1, Hlog. split; [done|]. eexists. split; [done|]. split.
  - intros p Hp. rewrite paths_rename in Hp. by rewrite seen_ne, lookup_delete_ne, lookup_insert_ne by naive_solver.
  - intros p up [[= -> ->]|[= -> ->]%list_elem_of_singleton]%elem_of_cons.
    + destruct (seen_eq new (cur h old) h) as (? & ? & ?). split; [done|]. exists (set_FullPath new e).
      rewrite lookup_delete_ne, lookup_insert_eq by done. split; [done|]. change (mtime_s (set_FullPath new e)) with (mtime_s e). by rewrite Hm.
    + split; [unfold upto; by rewrite seen_ne|]. by rewrite lookup_delete_eq.
Qed.
(** A change that succeeds logs the text of its event. *)
Lemma source_changes now op fs fs' ms mt q h sent failed ev :
  serves rep fs ms -> synced ms mt q h sent failed -> action_ok (Write now op) ->
  exec_source now op fs = (Ret tt, fs') -> event_of op = Some ev ->
  event_ok ev /\ srv_log fs' = logged now (text_of ev) (srv_log fs) /\ exists ms', serves rep fs' ms' /\ changes ev ms ms' h (times op h).
Proof. destruct op; cbn [exec_source]; [apply create_changes|apply delete_changes|apply rename_changes]. Qed.

Definition pair_synced (s : pair) : Prop :=
  exists ms mt, both (pr_state s) ms mt /\ synced ms mt (pr_pending s) (pr_times s) (pr_sent s) (pr_failed s).

Lemma record_both now label ts err (st : state) ms mt : both st ms mt -> both (snd (record now label ts err st)) ms mt.
Proof. done. Qed.

Lemma step_synced a s s' : pair_synced s -> action_ok a -> step a s = Some s' -> pair_synced s'.
Proof.
  intros (ms & mt & [Hs Ht] & Hsy) Ha Hstep. destruct a as [now op|sent now]; cbn [step] in Hstep.
  - destruct (exec_source now op (rp_source (pr_state s))) as [[[]|e|] fs] eqn:E; [|done..].
    destruct (event_of op) as [ev|] eqn:Eev; [|done]. injection Hstep as <-.
    destruct (source_changes _ _ _ _ _ _ _ _ _ _ _ Hs Hsy Ha E Eev) as (Hev & _ & ms' & Hs' & Hch).
    exists ms', mt. split; [done|]. by apply (synced_change ev ms ms' mt _ (pr_times s)).
  - destruct (pr_pending s) as [|ev q] eqn:Eq; [done|]. pose proof (sy_events _ _ _ _ _ _ Hsy) as [Hev _]%Forall_cons.
    rewrite text_roundtrip in Hstep by apply Hev. cbn [mbind option_bind replicate_events] in Hstep.
    pose proof (event_handled now ev sent _ _ _ (conj Hs Ht) Hev) as Hh. unfold runs in Hh.
    destruct (handleEvent net now (notice_of sent ev) (pr_state s)) as [r st']. destruct Hh as (mt' & Hb & Hh). cbn [fst snd] in Hstep.
    assert (r <> Panic) as Hr by by destruct r. pose proof (synced_event sent ev ms mt mt' q _ _ _ r Hsy Hr Hh) as Hsy'.
    destruct r as [u|e|]; [| |done]; injection Hstep as <-; exists ms, mt'; (split; [|exact Hsy']); done.
Qed.

Lemma run_synced acts s s' : pair_synced s -> Forall action_ok acts -> run_pair acts s = Some s' -> pair_synced s'.
Proof.
  revert s. induction acts as [|a acts IH]; intros s Hs Hok Hr; cbn in Hr; [by injection Hr as <-|].
  apply Forall_cons in Hok as [Ha Hok]. destruct (step a s) as [s1|] eqn:E; [|done]. cbn in Hr.
  apply (IH s1); [by apply (step_synced a s)|done|done].
Qed.

(** Two filers that agree, with the times of the entries. *)
Definition agree (s : pair) : Prop :=
  exists ms mt, both (pr_state s) ms mt /\ pr_pending s = [] /\ (forall p, replica_of (ms !! p) (mt !! p)) /\
    (forall p, pr_times s !! p = (fun e => (mtime_s e, mtime_s e)) <$> ms !! p).

Lemma agree_synced s : agree s -> pair_synced s.
Proof.
  intros (ms & mt & Hb & Hq & Hr & Ht). exists ms, mt. split; [done|]. rewrite Hq.
  assert (forall p e, ms !! p = Some e -> mtime_s e = cur (pr_times s) p /\ upto (pr_times s) p (mtime_s e)) as Hs.
  { intros p e He. unfold cur, upto. rewrite Ht, He. split; [done|]. by eexists. }
  split; [by left|done| |done|done].
  intros p t Hmt. specialize (Hr p). rewrite Hmt in Hr. destruct (ms !! p) as [e|] eqn:E; [|done]. cbn in Hr.
  rewrite (copy_mtime _ _ Hr). by apply Hs.
Qed.

End spec.

(** ** Examples over stores in memory *)

(** Each source volume answers with two bytes; the target gives one file id. *)
Definition ex_net : chunk_net unit := {|
  cn_lookup := fun _ => mret (Some [("v1:8080", "")]);
  cn_get := fun _ => mret (200, [104; 105]);
  cn_assign := fun _ _ _ => mret ("", "9,0a1b2c3d4e", "w1:8080", "");
  cn_put := fun _ _ => mret 201;
|}.

Definition ex_pb (name : string) (mtime : Z) : PbEntry :=
  mkPbEntry name false [Some (mkPbChunk "3,01637037d6" 0 2 0 "" false "")] (Some (mkFuse 2 mtime 420 0 0 mtime "text/plain" "" "" 0 "" "" 0)) ∅ [] [] 0 None.

Definition ex_pair : pair (S := MemStore) (T := MemStore) (W := unit) :=
  mkPair (mkRepState (ex_server ∅) (ex_server ∅) tt None) [] ∅ ∅ ∅.

Definition sec : Z := 10 ^ 9.

(** A file is renamed before its creation is replicated, and another one is removed. *)
Definition ex_acts : list action :=
  [Write (10 * sec) (SrcCreate "/" (Some (ex_pb "a" 5))); Write (11 * sec) (SrcCreate "/" (Some (ex_pb "b" 6)));
   Write (12 * sec) (SrcRename "/" "a" "/" "c"); Replicate (13 * sec) (13 * sec); Replicate (14 * sec) (14 * sec); Replicate (15 * sec) (15 * sec);
   Write (16 * sec) (SrcDelete "/" "b"); Replicate (17 * sec) (17 * sec)].

Abbreviation mem_ok := (event_ok abs_path).

Lemma ex_path c : clean_comp c -> clean_path ("/" +:+ c) /\ "/" +:+ c <> "/" /\ abs_path ("/" +:+ c).
Proof.
  intros Hc. assert (clean_path ("/" +:+ c)) as Hp.
  { exists [c]. split; [by apply Forall_singleton|]. cbn [path_of segs]. by rewrite append_nil_r. }
  split; [done|]. split; [|by apply clean_abs]. destruct Hc as [[Hne _] _]. by destruct c.
Qed.

Lemma ex_create c : clean_comp c -> mem_ok (EvCreate ("/" +:+ c)).
Proof. intros Hc. split; [done|]. split; [|done]. intros p ->%paths_create. by apply ex_path. Qed.

Lemma ex_delete c : clean_comp c -> mem_ok (EvDelete ("/" +:+ c)).
Proof. intros Hc. split; [done|]. split; [|done]. intros p ->%paths_delete. by apply ex_path. Qed.

Lemma ex_rename : mem_ok (EvRename "/a" "/c").
Proof.
  split; [vm_compute; reflexivity|]. split; [|done].
  intros p [->| ->]%paths_rename; [apply (ex_path "c")|apply (ex_path "a")]; by apply (bool_decide_unpack _).
Qed.

Lemma ex_acts_ok : Forall (action_ok abs_path (fun _ => True)) ex_acts.
Proof.
  repeat (apply Forall_cons; split); [..|by apply Forall_nil]; cbn [action_ok]; try done; (split; [|done]); intros ev [= <-];
    first [apply ex_rename|apply (ex_create "a")|apply (ex_create "b")|apply (ex_delete "b")]; by apply (bool_decide_unpack _).
Qed.

Lemma ex_agree : agree mem_rep mem_rep ex_pair.
Proof.
  exists ∅, ∅. split; [split; apply ex_serves, map_Forall_empty|]. split; [reflexivity|].
  split; intros p; by rewrite !lookup_empty.
Qed.


(** ** Changes that do not reach the target *)

Definition names (fs : FilerServer MemStore) : list string :=
  match srv_filer fs ≫= f_Store with Some st => fst <$> map_to_list (ms_entries st) | None => [] end.

(** A renamed file is removed before its rename is replicated: the upsert fails, the old path
    is never removed from the target, and no event is left. *)
Theorem rename_keeps_old :
  (fun s => (pr_pending s, names (rp_source (pr_state s)), names (rp_target (pr_state s)))) <$>
    run_pair (H := mem_store mem_order) (H0 := mem_store mem_order) ex_net
      [Write (10 * sec) (SrcCreate "/" (Some (ex_pb "a" 5))); Replicate (11 * sec) (11 * sec); Write (12 * sec) (SrcRename "/" "a" "/" "c");
       Write (13 * sec) (SrcDelete "/" "c"); Replicate (14 * sec) (14 * sec); Replicate (15 * sec) (15 * sec)] ex_pair =
  Some ([], [], ["/a"]).
Proof. vm_compute. reflexivity. Qed.

(** An older file is renamed over a newer one: the replicator takes the target for newer and
    keeps the replaced file there, with no error and no event left. *)
Definition mtimes (fs : FilerServer MemStore) : list (string * Z) :=
  match srv_filer fs ≫= f_Store with Some st => prod_map (fun x => x) mtime_s <$> map_to_list (ms_entries st) | None => [] end.

Theorem rename_over_newer :
  (fun s => (pr_pending s, pr_failed s, mtimes (rp_source (pr_state s)), mtimes (rp_target (pr_state s)))) <$>
    run_pair (H := mem_store mem_order) (H0 := mem_store mem_order) ex_net
      [Write (10 * sec) (SrcCreate "/" (Some (ex_pb "a" 5))); Write (11 * sec) (SrcCreate "/" (Some (ex_pb "c" 9)));
       Replicate (12 * sec) (12 * sec); Replicate (13 * sec) (13 * sec);
       Write (14 * sec) (SrcRename "/" "a" "/" "c"); Replicate (15 * sec) (15 * sec)] ex_pair =
  Some ([], ∅, [("/c", 5)], [("/c", 9)]).
Proof. vm_compute. reflexivity. Qed.

(** An upload makes the directories of its path without events, and so the file cannot be
    created on the target. *)
Theorem upload_not_replicated :
  let '(w, src) := handleFileUpload (H := mem_store mem_order) true (fun _ => 5) 6 None
    (mkRequest "/docs/a.txt" 2 "text/plain" (inr [104; 105])) (ex_server ∅) in
  status_of w = 201 /\ names src = ["/docs/a.txt"; "/docs"] /\
  let '(r, st) := handleEvent (H := mem_store mem_order) (H0 := mem_store mem_order) ex_net 7 (notice_of 6 (EvCreate "/docs/a.txt"))
    (mkRepState src (ex_server ∅) tt None) in
  r = Fail (RepRpc Internal) /\ names (rp_target st) = [].
Proof. vm_compute. repeat split. Qed.
