(* ===== verification/WebDav.v ===== *)
(** * WebDav: the file system that the WebDAV server has on a filer

    Models the file system over a filer and the open files of [goblob/webdav/filesystem.go],
    and the password check of [goblob/webdav/webdav_server.go].  [clock p] is the time of a
    call about the path [p].  The file system over a local directory, which is that of the
    library, and the protocol, which the library implements over the file system, are left
    out. *)

From stdpp Require Import sorting.
From S2P Require Import Prelude GoStrings GoPath GoText LogBuffer FilerStore Filer FilerServer StoreView MemoryStore FilerSpec PathSpec FilerSafe.

#[local] Open Scope Z_scope.
#[local] Open Scope string_scope.

Inductive dav_err :=
| DavRpc (c : grpc_code)
| ErrNotExist
| ErrInvalid
| ErrPermission
| DavEOF
| ErrRenameRoot.

Definition dav_isNotFound (e : dav_err) : bool := match e with DavRpc NotFound => true | _ => false end.

(** No call of the filer has the status AlreadyExists. *)
Definition dav_isAlreadyExists (e : dav_err) : bool := false.

(** ** Paths *)

Definition normalizeRoot (root : string) : string :=
  let cleaned := Clean ("/" +:+ TrimSpace root) in if decide (cleaned = "/") then "/webdav" else cleaned.

Definition splitDirName (full : string) : string * string :=
  let cleaned := Clean ("/" +:+ full) in
  if decide (cleaned = "/") then ("/", "") else
  let '(dir, base) := path_Split cleaned in
  let dir := Clean dir in
  (if decide (dir = ".") then "/" else dir, base).

Definition toFilerPath (root name : string) : string :=
  let cleaned := Clean ("/" +:+ TrimSpace name) in
  if decide (cleaned = "/") then root else path_Join [root; TrimPrefix cleaned "/"].

(** ** Information on entries *)

Record entryInfo := mkInfo {
  ei_name : string;
  ei_size : Z;
  ei_mode : Z;
  ei_modTime : Z;
  ei_isDir : bool;
}.

Definition entryInfoFrom (full : string) (entry : PbEntry) : entryInfo :=
  let attr (f : FuseAttributes -> Z) := default 0 (f <$> pe_Attributes entry) in
  let mode := attr fa_FileMode in
  let size := i64 (attr fa_FileSize) in
  mkInfo (path_Base full)
    (if decide (size = 0 /\ (0 < length (pe_Content entry))%nat) then zlen (pe_Content entry) else size)
    (if pe_IsDirectory entry then Z.lor mode ModeDir else mode) (of_unix (attr fa_Mtime)) (pe_IsDirectory entry).

(** ** Open files *)

Definition O_WRONLY : Z := 1.
Definition O_RDWR : Z := 2.
Definition O_CREATE : Z := 64.
Definition O_TRUNC : Z := 512.
Definition O_APPEND : Z := 1024.

Definition has_flag (flags f : Z) : bool := negb (bool_decide (Z.land flags f = 0)).

Record filerFile := mkFile {
  ff_fullPath : string;
  ff_isDir : bool;
  ff_mode : Z;
  ff_data : bytes;
  ff_offset : Z;
  ff_flags : Z;
  ff_dirty : bool;
  ff_closed : bool;
  ff_created : bool;
  ff_dirEntries : option (list entryInfo);
  ff_dirPos : nat;
}.

Definition set_offset (o : Z) (f : filerFile) : filerFile :=
  mkFile (ff_fullPath f) (ff_isDir f) (ff_mode f) (ff_data f) o (ff_flags f) (ff_dirty f) (ff_closed f) (ff_created f)
    (ff_dirEntries f) (ff_dirPos f).
Definition set_data (d : bytes) (dirty : bool) (f : filerFile) : filerFile :=
  mkFile (ff_fullPath f) (ff_isDir f) (ff_mode f) d (ff_offset f) (ff_flags f) dirty (ff_closed f) (ff_created f)
    (ff_dirEntries f) (ff_dirPos f).
Definition set_closed (f : filerFile) : filerFile :=
  mkFile (ff_fullPath f) (ff_isDir f) (ff_mode f) (ff_data f) (ff_offset f) (ff_flags f) (ff_dirty f) true (ff_created f)
    (ff_dirEntries f) (ff_dirPos f).
Definition set_dir (entries : list entryInfo) (pos : nat) (f : filerFile) : filerFile :=
  mkFile (ff_fullPath f) (ff_isDir f) (ff_mode f) (ff_data f) (ff_offset f) (ff_flags f) (ff_dirty f) (ff_closed f) (ff_created f)
    (Some entries) pos.

(** The bytes that a read into a buffer of [n] bytes copies. *)
Definition ff_Read (n : Z) : GoM filerFile dav_err bytes := fun f =>
  if ff_isDir f then (Fail DavEOF, f) else
  if decide (ff_offset f >= zlen (ff_data f)) then (Fail DavEOF, f) else
  let copied := take (Z.to_nat n) (drop (Z.to_nat (ff_offset f)) (ff_data f)) in
  (Ret copied, set_offset (i64 (ff_offset f + zlen copied)) f).

Definition SeekStart : Z := 0.
Definition SeekCurrent : Z := 1.
Definition SeekEnd : Z := 2.

Definition ff_Seek (offset whence : Z) : GoM filerFile dav_err Z := fun f =>
  let next := if decide (whence = SeekStart) then Some offset else
              if decide (whence = SeekCurrent) then Some (i64 (ff_offset f + offset)) else
              if decide (whence = SeekEnd) then Some (i64 (zlen (ff_data f) + offset)) else None in
  match next with
  | None => (Fail ErrInvalid, f)
  | Some next => if decide (next < 0) then (Fail ErrInvalid, f) else (Ret next, set_offset next f)
  end.

(** [make([]byte, n)] panics above the size of the address space. *)
Definition maxAlloc : Z := 2 ^ 48.

(** [copy(data[off:], p)] *)
Definition copy_at (off : nat) (p data : bytes) : bytes :=
  let room := drop off data in
  let copied := take (length room) p in
  (take off data ++ copied ++ drop (length copied) room)%list.

Definition ff_Write (p : bytes) : GoM filerFile dav_err Z := fun f =>
  if ff_isDir f then (Fail ErrPermission, f) else
  if negb (has_flag (ff_flags f) O_WRONLY) && negb (has_flag (ff_flags f) O_RDWR) && negb (has_flag (ff_flags f) O_APPEND)
  then (Fail ErrPermission, f) else
  let end_ := i64 (ff_offset f + zlen p) in
  let n := zlen (ff_data f) in
  if decide (end_ > n /\ end_ > maxAlloc) then (Panic, f) else
  let data := if decide (end_ > n) then (ff_data f ++ replicate (Z.to_nat (end_ - n)) 0)%list else ff_data f in
  if decide (ff_offset f > zlen data) then (Panic, set_data data (ff_dirty f) f) else
  (Ret (zlen p), set_offset (i64 (ff_offset f + zlen p)) (set_data (copy_at (Z.to_nat (ff_offset f)) p data) true f)).

Definition ff_Stat (now : Z) (f : filerFile) : entryInfo :=
  if ff_isDir f then mkInfo (path_Base (ff_fullPath f)) 0 (Z.lor ModeDir 493) now true
  else mkInfo (path_Base (ff_fullPath f)) (zlen (ff_data f)) (ff_mode f) now false.

(** ** The file system *)

Section filesystem.
Context {S : Type} `{FilerStore S} (clock : string -> Z) (root : string).

Abbreviation M := (GoM (FilerServer S) dav_err).

Definition dav_rpc {A} (m : GoM (FilerServer S) grpc_code A) : M A := fun fs =>
  let '(r, fs) := m fs in (match r with Ret a => Ret a | Fail c => Fail (DavRpc c) | Panic => Panic end, fs).

(** A call whose error the caller looks at. *)
Definition dav_attempt {A} (m : M A) : M (dav_err + A) := fun fs =>
  let '(r, fs) := m fs in (match r with Ret a => Ret (inr a) | Fail e => Ret (inl e) | Panic => Panic end, fs).

Definition dav_lookup (full : string) : M PbEntry :=
  let '(dir, base) := splitDirName full in dav_rpc (LookupDirectoryEntry dir base).

Definition dav_dir (name : string) (perm now : Z) : PbEntry :=
  mkPbEntry name true [] (Some (mkFuse 0 now (Z.lor perm ModeDir) 0 0 now "" "" "" 0 "" "" 0)) ∅ [] [] 0 None.

Definition dav_file (name : string) (content : bytes) (mode now : Z) : PbEntry :=
  mkPbEntry name false [] (Some (mkFuse (zlen content) now mode 0 0 now "" "" "" 0 "" "" 0)) ∅ content [] 0 None.

Definition createDir (full : string) (perm : Z) : M unit :=
  let '(dir, base) := splitDirName full in
  r ← dav_attempt (dav_rpc (g_CreateEntry (clock full) dir (Some (dav_dir base perm (to_unix (clock full))))));
  match r with
  | inl e => if dav_isAlreadyExists e then mret tt else fail e
  | inr _ => mret tt
  end.

(** The loop of [ensureParents]. *)
Fixpoint ensure_parts (parts : list string) (current : string) : M unit :=
  match parts with
  | [] => mret tt
  | part :: parts =>
      if decide (part = "") then ensure_parts parts current else
      let current := path_Join [current; part] in
      if decide (current = "/") then ensure_parts parts current else
      r ← dav_attempt (dav_lookup current);
      match r with
      | inr _ => ensure_parts parts current
      | inl e =>
          if negb (dav_isNotFound e) then fail e else
          r ← dav_attempt (createDir current 493);
          match r with
          | inl e => if dav_isAlreadyExists e then ensure_parts parts current else fail e
          | inr _ => ensure_parts parts current
          end
      end
  end.

Definition ensureParents (full : string) : M unit :=
  let '(dir, _) := splitDirName full in
  if decide (dir = "/") then mret tt else ensure_parts (Split slash (TrimPrefix dir "/")) "/".

Definition ensureRoot : M unit := ensureParents root;; createDir root 493.

Definition Mkdir (name : string) (perm : Z) : M unit :=
  let full := toFilerPath root name in
  if decide (full = root) then mret tt else ensureParents full;; createDir full perm.

(** The file opened on an entry. *)
Definition open_entry (full : string) (flag : Z) (created : bool) (entry : PbEntry) : filerFile :=
  if pe_IsDirectory entry then mkFile full true 0 [] 0 0 false false false None 0 else
  let data := if has_flag flag O_TRUNC then [] else pe_Content entry in
  mkFile full false (default 0 (fa_FileMode <$> pe_Attributes entry)) data (if has_flag flag O_APPEND then zlen data else 0) flag
    (has_flag flag O_TRUNC) false created None 0.

Definition OpenFile (name : string) (flag perm : Z) : M filerFile :=
  let full := toFilerPath root name in
  r ← dav_attempt (dav_lookup full);
  match r with
  | inr entry => mret (open_entry full flag false entry)
  | inl e =>
      if negb (dav_isNotFound e) then fail e else
      if negb (has_flag flag O_CREATE) then fail ErrNotExist else
      ensureParents full;;
      let '(dir, base) := splitDirName full in
      let entry := dav_file base [] perm (to_unix (clock full)) in
      dav_rpc (g_CreateEntry (clock full) dir (Some entry));;
      mret (open_entry full flag true entry)
  end.

Definition listDirectory (full : string) : M (list entryInfo) := fun fs =>
  let '(r, sent, fs) := ListEntries (fun _ => true) full "" "" false 10000 fs in
  (match r with
   | Ret _ => Ret ((fun entry => entryInfoFrom (path_Join [full; pe_Name entry]) entry) <$> sent)
   | Fail c => Fail (DavRpc c)
   | Panic => Panic
   end, fs).

(** The loops over the children of a directory; [rec] is the recursive call. *)
Fixpoint remove_children (rec : string -> M unit) (full : string) (children : list entryInfo) : M unit :=
  match children with
  | [] => mret tt
  | child :: children => rec (path_Join [full; ei_name child]);; remove_children rec full children
  end.

(** [removeAllPath], with the depth of the tree as fuel. *)
Fixpoint removeAllPath (fuel : nat) (full : string) : M unit :=
  match fuel with
  | O => panic
  | Datatypes.S fuel =>
      r ← dav_attempt (dav_lookup full);
      match r with
      | inl e => if dav_isNotFound e then mret tt else fail e
      | inr entry =>
          (if pe_IsDirectory entry then children ← listDirectory full; remove_children (removeAllPath fuel) full children
           else mret tt);;
          let '(dir, base) := splitDirName full in
          r ← dav_attempt (dav_rpc (g_DeleteEntry (clock full) dir base));
          match r with
          | inl e => if dav_isNotFound e then mret tt else fail e
          | inr _ => mret tt
          end
      end
  end.

Definition RemoveAll (fuel : nat) (name : string) : M unit :=
  let full := toFilerPath root name in
  if decide (full = root) then
    r ← dav_attempt (listDirectory full);
    match r with
    | inl e => if dav_isNotFound e then mret tt else fail e
    | inr children => remove_children (removeAllPath fuel) full children
    end
  else removeAllPath fuel full.

Definition Rename (oldName newName : string) : M unit :=
  let oldPath := toFilerPath root oldName in
  let newPath := toFilerPath root newName in
  if decide (oldPath = root \/ newPath = root) then fail ErrRenameRoot else
  ensureParents newPath;;
  let '(oldDir, oldBase) := splitDirName oldPath in
  let '(newDir, newBase) := splitDirName newPath in
  dav_rpc (AtomicRenameEntry (clock oldPath) oldDir oldBase newDir newBase).

Definition dav_Stat (name : string) : M entryInfo :=
  let full := toFilerPath root name in
  r ← dav_attempt (dav_lookup full);
  match r with
  | inr entry => mret (entryInfoFrom full entry)
  | inl e => if dav_isNotFound e then fail ErrNotExist else fail e
  end.

(** *** Methods of open files that call the filer *)

Definition ff_Close (f : filerFile) : FilerServer S -> outcome dav_err unit * filerFile * FilerServer S := fun fs =>
  if ff_closed f then (Ret tt, f, fs) else
  let f := set_closed f in
  if ff_isDir f || negb (ff_dirty f) then (Ret tt, f, fs) else
  let '(dir, base) := splitDirName (ff_fullPath f) in
  let now := clock (ff_fullPath f) in
  let entry := dav_file base (ff_data f) (ff_mode f) (to_unix now) in
  let update := dav_rpc (g_UpdateEntry dir (Some entry)) in
  let '(r, fs) :=
    if ff_created f then
      match dav_rpc (g_CreateEntry now dir (Some entry)) fs with
      | (Fail e, fs) => if dav_isAlreadyExists e then update fs else (Fail e, fs)
      | rfs => rfs
      end
    else update fs in
  (r, f, fs).

Definition ff_Readdir (count : Z) (f : filerFile) : FilerServer S -> outcome dav_err (list entryInfo) * filerFile * FilerServer S := fun fs =>
  if negb (ff_isDir f) then (Fail ErrInvalid, f, fs) else
  let '(listing, fs) := match ff_dirEntries f with
    | Some entries => (Ret entries, fs)
    | None => listDirectory (ff_fullPath f) fs
    end in
  match listing with
  | Fail e => (Fail e, f, fs)
  | Panic => (Panic, f, fs)
  | Ret entries =>
      let pos := ff_dirPos f in
      let f := set_dir entries pos f in
      if decide (length entries <= pos)%nat then (Fail DavEOF, f, fs) else
      let count := if decide (count <= 0) then zlen entries - Z.of_nat pos else count in
      let end_ := i64 (Z.of_nat pos + count) in
      let end_ := if decide (end_ > zlen entries) then zlen entries else end_ in
      if decide (end_ < Z.of_nat pos) then (Panic, f, fs) else
      (Ret (take (Z.to_nat end_ - pos) (drop pos entries)), set_dir entries (Z.to_nat end_) f, fs)
  end.
End filesystem.

(** [wrapAuth]: whether a request with this basic authentication is served. *)
Definition wrapAuth (username password : string) (auth : option (string * string)) : bool :=
  let username := TrimSpace username in
  if decide (username = "") then true else
  match auth with
  | None => false
  | Some (user, pass) => bool_decide (user = username /\ pass = password)
  end.

Definition dav_Address (host : string) (port : Z) : string :=
  if decide (TrimSpace host = "" \/ host = "0.0.0.0") then ":" +:+ Itoa port else host +:+ ":" +:+ Itoa port.

(** * The WebDAV file system over a filer

    An open file is a flat array of bytes with a position, what is written to it is there
    after it is closed, and removing a directory removes the tree below it, over one filer
    with any lawful store. *)

(** ** Flat files *)

Record flat := mkFlat { fl_content : bytes; fl_pos : Z; fl_dirty : bool }.

Inductive file_op := FRead (n : Z) | FSeek (offset whence : Z) | FWrite (p : bytes).

Inductive file_res := RBytes (b : bytes) | RNum (n : Z) | RErr (e : dav_err).

(** The content after writing [p] at [pos]: byte by byte, with zeros in a gap. *)
Definition splice (pos : nat) (p c : bytes) : bytes :=
  (fun i => if decide (pos <= i < pos + length p)%nat then default 0 (p !! (i - pos)%nat) else default 0 (c !! i))
    <$> seq 0 (Nat.max (length c) (pos + length p)).

Definition writable (flags : Z) : bool := has_flag flags O_WRONLY || has_flag flags O_RDWR || has_flag flags O_APPEND.

Definition flat_seek (offset whence : Z) (f : flat) : option Z :=
  if decide (whence = SeekStart) then Some offset else
  if decide (whence = SeekCurrent) then Some (fl_pos f + offset) else
  if decide (whence = SeekEnd) then Some (zlen (fl_content f) + offset) else None.

Definition flat_op (flags : Z) (op : file_op) (f : flat) : file_res * flat :=
  match op with
  | FRead n =>
      if decide (zlen (fl_content f) <= fl_pos f) then (RErr DavEOF, f) else
      let b := take (Z.to_nat n) (drop (Z.to_nat (fl_pos f)) (fl_content f)) in
      (RBytes b, mkFlat (fl_content f) (fl_pos f + zlen b) (fl_dirty f))
  | FSeek offset whence =>
      match flat_seek offset whence f with
      | Some pos => if decide (0 <= pos) then (RNum pos, mkFlat (fl_content f) pos (fl_dirty f)) else (RErr ErrInvalid, f)
      | None => (RErr ErrInvalid, f)
      end
  | FWrite p =>
      if writable flags then (RNum (zlen p), mkFlat (splice (Z.to_nat (fl_pos f)) p (fl_content f)) (fl_pos f + zlen p) true)
      else (RErr ErrPermission, f)
  end.

Fixpoint flat_ops (flags : Z) (ops : list file_op) (f : flat) : list file_res * flat :=
  match ops with
  | [] => ([], f)
  | op :: ops => let '(r, f) := flat_op flags op f in let '(rs, f) := flat_ops flags ops f in (r :: rs, f)
  end.

(** The positions stay in the address space. *)
Fixpoint fits (flags : Z) (ops : list file_op) (f : flat) : Prop :=
  match ops with
  | [] => True
  | op :: ops =>
      match op with FSeek offset _ => - 2 ^ 62 <= offset <= 2 ^ 62 | _ => True end /\
      fl_pos (snd (flat_op flags op f)) <= maxAlloc /\ fits flags ops (snd (flat_op flags op f))
  end.

(** The same operations on an open file. *)
Definition to_res {A} (res : A -> file_res) (x : outcome dav_err A * filerFile) : option (file_res * filerFile) :=
  match x with
  | (Ret a, f) => Some (res a, f)
  | (Fail e, f) => Some (RErr e, f)
  | (Panic, _) => None
  end.

Definition exec_file (op : file_op) (f : filerFile) : option (file_res * filerFile) :=
  match op with
  | FRead n => to_res RBytes (ff_Read n f)
  | FSeek offset whence => to_res RNum (ff_Seek offset whence f)
  | FWrite p => to_res RNum (ff_Write p f)
  end.

Fixpoint run_file (ops : list file_op) (f : filerFile) : option (list file_res * filerFile) :=
  match ops with
  | [] => Some ([], f)
  | op :: ops => '(r, f) ← exec_file op f; '(rs, f) ← run_file ops f; Some (r :: rs, f)
  end.

(** The file in an open file. *)
Definition flat_of (f : filerFile) : flat := mkFlat (ff_data f) (ff_offset f) (ff_dirty f).

Definition with_flat (x : flat) (f : filerFile) : filerFile := set_offset (fl_pos x) (set_data (fl_content x) (fl_dirty x) f).

Lemma splice_lookup pos p c i :
  splice pos p c !! i =
    if decide (i < Nat.max (length c) (pos + length p))%nat
    then Some (if decide (pos <= i < pos + length p)%nat then default 0 (p !! (i - pos)%nat) else default 0 (c !! i)) else None.
Proof.
  unfold splice. rewrite list_lookup_fmap. case_decide as Hi; [by rewrite lookup_seq_lt|]. by rewrite lookup_seq_ge by lia.
Qed.

(** The buffer grown by the code and copied into is the array written byte by byte. *)
Lemma copy_at_splice pos p c :
  copy_at pos p (if decide (length c < pos + length p)%nat then (c ++ replicate (pos + length p - length c) 0)%list else c) = splice pos p c.
Proof.
  set (d := if decide _ then _ else _). assert (length d = Nat.max (length c) (pos + length p)) as Hd.
  { unfold d. case_decide; [rewrite length_app, length_replicate|]; lia. }
  assert (forall i, (i < length d)%nat -> d !! i = Some (default 0 (c !! i))) as Hl.
  { intros i Hi. destruct (lookup_lt_is_Some_2 d i Hi) as [x Hx]. rewrite Hx. f_equal. unfold d in Hx. case_decide; [|by rewrite Hx].
    apply lookup_app_Some in Hx as [->|[Hge Hx]]; [done|]. rewrite lookup_ge_None_2 by lia. apply lookup_replicate in Hx as [-> _]. done. }
  apply list_eq. intros i. rewrite splice_lookup. unfold copy_at. rewrite length_drop.
  assert (length (take (length d - pos) p) = length p) as Hp by (rewrite length_take; lia).
  rewrite Hp. assert (take (length d - pos) p = p) as -> by (apply take_ge; lia). rewrite drop_drop.
  destruct (decide (i < pos)%nat) as [Hlt|Hge].
  - rewrite lookup_app_l by (rewrite length_take; lia). rewrite lookup_take_lt by done. rewrite Hl by lia.
    rewrite decide_True by lia. by rewrite decide_False by lia.
  - rewrite lookup_app_r by (rewrite length_take; lia). rewrite length_take. replace (i - pos `min` length d)%nat with (i - pos)%nat by lia.
    destruct (decide (i < pos + length p)%nat) as [Hin|Hout].
    + rewrite lookup_app_l by lia. rewrite decide_True by lia. rewrite decide_True by lia.
      destruct (lookup_lt_is_Some_2 p (i - pos)) as [x ->]; [lia|done].
    + rewrite lookup_app_r by lia. rewrite lookup_drop. replace (pos + length p + (i - pos - length p))%nat with i by lia.
      case_decide; [by rewrite Hl, decide_False by lia|]. by apply lookup_ge_None_2; lia.
Qed.

Lemma exec_file_flat op f :
  ff_isDir f = false -> 0 <= ff_offset f <= maxAlloc -> zlen (ff_data f) <= maxAlloc -> fits (ff_flags f) [op] (flat_of f) ->
  exec_file op f = Some (fst (flat_op (ff_flags f) op (flat_of f)), with_flat (snd (flat_op (ff_flags f) op (flat_of f))) f) /\
  0 <= fl_pos (snd (flat_op (ff_flags f) op (flat_of f))) <= maxAlloc /\ zlen (fl_content (snd (flat_op (ff_flags f) op (flat_of f)))) <= maxAlloc.
Proof.
  intros Hd Hoff Hlen (Hs & Hpos & _). unfold maxAlloc in *.
  destruct op as [n|offset whence|p]; cbn [exec_file flat_op flat_of fl_content fl_pos fl_dirty] in *.
  - unfold ff_Read. rewrite Hd. destruct (decide (zlen (ff_data f) <= ff_offset f)).
    + rewrite decide_True by lia. cbn. split; [by destruct f|]. done.
    + rewrite decide_False by lia. cbn [to_res fst snd fl_pos fl_content] in *. rewrite length_take, length_drop in *. split; [|lia].
      rewrite i64_small by lia. by destruct f.
  - unfold ff_Seek, flat_seek, flat_of in *. cbn [fl_pos fl_content] in *. rewrite !i64_small by lia.
    repeat case_decide; cbn [to_res fst snd] in *; try lia; (split; [by destruct f|]); cbn in *; lia.
  - unfold ff_Write, maxAlloc. rewrite Hd. assert (negb (has_flag (ff_flags f) O_WRONLY) && negb (has_flag (ff_flags f) O_RDWR) &&
      negb (has_flag (ff_flags f) O_APPEND) = negb (writable (ff_flags f))) as -> by (unfold writable; by rewrite !negb_orb).
    destruct (writable (ff_flags f)); cbn [negb fst snd fl_pos fl_content] in *; [|split; [by destruct f|]; cbn; lia].
    rewrite i64_small by lia. rewrite (decide_False (P := _ /\ _)) by lia.
    assert (length (splice (Z.to_nat (ff_offset f)) p (ff_data f)) = Nat.max (length (ff_data f)) (Z.to_nat (ff_offset f) + length p))
      as Hsp by (unfold splice; by rewrite length_fmap, length_seq).
    split; [|lia]. rewrite decide_False by (case_decide; rewrite ?length_app, ?length_replicate; lia).
    cbn [to_res]. unfold with_flat. cbn [fl_pos fl_content fl_dirty]. do 3 f_equal. rewrite <- copy_at_splice. do 2 f_equal.
    destruct (decide (_ > _)), (decide (_ < _)%nat); try lia; [|done]. do 2 f_equal. lia.
Qed.

Lemma flat_of_with x f : flat_of (with_flat x f) = x.
Proof. by destruct x. Qed.

(** Operations on an open file are those on the flat file. *)
Lemma run_file_flat ops f :
  ff_isDir f = false -> 0 <= ff_offset f <= maxAlloc -> zlen (ff_data f) <= maxAlloc -> fits (ff_flags f) ops (flat_of f) ->
  run_file ops f = Some (fst (flat_ops (ff_flags f) ops (flat_of f)), with_flat (snd (flat_ops (ff_flags f) ops (flat_of f))) f).
Proof.
  revert f. induction ops as [|op ops IH]; intros f Hd Hoff Hlen Hfit; [by destruct f|]. destruct Hfit as (Hs & Hp & Hfit).
  destruct (exec_file_flat op f Hd Hoff Hlen) as (E & Hoff' & Hlen'); [done|]. cbn [run_file flat_ops]. rewrite E. cbn [mbind option_bind].
  destruct (flat_op (ff_flags f) op (flat_of f)) as [r x] eqn:Ex. cbn [fst snd] in *.
  rewrite (IH (with_flat x f)); [|done..|by rewrite flat_of_with]. rewrite flat_of_with. cbn [mbind option_bind].
  change (ff_flags (with_flat x f)) with (ff_flags f). by destruct (flat_ops (ff_flags f) ops x).
Qed.

(** ** Paths *)

Lemma normalizeRoot_clean root : clean_path (normalizeRoot root) /\ normalizeRoot root <> "/".
Proof.
  unfold normalizeRoot. case_decide; [|split; [apply Clean_rooted|done]]. split; [|done]. exists ["webdav"].
  split; [|done]. apply Forall_singleton. by apply (bool_decide_unpack _).
Qed.

Lemma splitDirName_snoc cs c : clean cs -> clean_comp c -> splitDirName (path_of (cs ++ [c])%list) = (path_of cs, c).
Proof.
  intros Hcs Hc. unfold splitDirName. assert (clean (cs ++ [c])%list) as Hsn by (apply Forall_app_2; [done|by constructor]).
  rewrite Clean_slash by done. rewrite decide_False.
  2:{ intros E%path_of_root; [by destruct cs|]. by apply clean_comps_ok. }
  rewrite path_Split_snoc by apply Hc. rewrite Clean_dir by done. rewrite decide_False; [done|].
  intros E. pose proof (path_of_prefix cs) as Hp. by rewrite E in Hp.
Qed.

(** Every name is a path below the root, or the root. *)
Lemma toFilerPath_below rs name : clean rs -> exists ns, clean ns /\ toFilerPath (path_of rs) name = path_of (rs ++ ns)%list.
Proof.
  intros Hrs. unfold toFilerPath. destruct (Clean_rooted (TrimSpace name)) as (ns & Hns & ->). exists ns. split; [done|].
  case_decide as E.
  - apply path_of_root in E as ->; [by rewrite app_nil_r|by apply clean_comps_ok].
  - assert (TrimPrefix (path_of ns) "/" = Join "/" ns) as ->; [|by apply path_Join_key].
    unfold TrimPrefix. rewrite path_of_prefix, <- Join_path_of, chars_append.
    change (drop (String.length "/") (chars "/" ++ chars (Join "/" ns))%list) with (chars (Join "/" ns)). apply str_chars.
Qed.

Lemma toFilerPath_snoc root name :
  clean_path root -> root <> "/" -> exists cs c, clean cs /\ clean_comp c /\ toFilerPath root name = path_of (cs ++ [c])%list.
Proof.
  intros (rs & Hrs & ->) Hne. destruct (toFilerPath_below rs name Hrs) as (ns & Hns & ->).
  destruct (exists_last (l := (rs ++ ns)%list)) as (cs & c & E); [by destruct rs|]. rewrite E.
  assert (clean (cs ++ [c])%list) as [Hcs [Hc _]%Forall_cons]%Forall_app by (rewrite <- E; by apply Forall_app_2).
  by exists cs, c.
Qed.

(** ** Calls *)

Section spec.
Context {S : Type} `{FilerStore S} (valid : string -> Prop) (good : Entry -> Prop) (rep : S -> gmap string Entry -> Prop).
Context {Hlaws : FilerLaws S valid good rep} (Hgood : forall e, good e).
Context (clock : string -> Z) (root : string) (Hroot : clean_path root) (Hslash : root <> "/").

Lemma runs_dav_rpc {A} (c : GoM (FilerServer S) grpc_code A) fs Q :
  runs c fs (fun r fs' => Q (match r with Ret a => Ret a | Fail e => Fail (DavRpc e) | Panic => Panic end) fs') -> runs (dav_rpc c) fs Q.
Proof. unfold runs, dav_rpc. by destruct (c fs). Qed.

Lemma runs_dav_attempt {A} (c : GoM (FilerServer S) dav_err A) fs Q :
  runs c fs (fun r fs' => Q (match r with Ret a => Ret (inr a) | Fail e => Ret (inl e) | Panic => Panic end) fs') -> runs (dav_attempt c) fs Q.
Proof. unfold runs, dav_attempt. by destruct (c fs). Qed.

Lemma dav_lookup_runs cs c fs m :
  clean cs -> clean_comp c -> valid (path_of (cs ++ [c])%list) -> serves rep fs m ->
  runs (dav_lookup (path_of (cs ++ [c])%list)) fs (fun r fs' => serves rep fs' m /\
    match r with
    | Ret pb => exists e, m !! path_of (cs ++ [c])%list = Some e /\ pb = entryToProto e
    | Fail (DavRpc NotFound) => m !! path_of (cs ++ [c])%list = None
    | Fail (DavRpc Internal) => True
    | _ => False
    end).
Proof.
  intros Hcs Hc Hv Hs. unfold dav_lookup. rewrite splitDirName_snoc by done. apply runs_dav_rpc.
  rewrite <- (joinDirectoryAndName_comp cs c) in * by done. eapply runs_mono; [by apply (lookup_call valid good rep)|].
  by intros [pb|[]|] fs' (Hs' & _ & H1).
Qed.

(** The entries that the file system writes. *)
Definition dav_entry (full : string) (content : bytes) (mode now : Z) : Entry :=
  mkEntry full (mkAttr mode 0 0 (of_unix now) (of_unix now) "" "" "" 0 "" (zlen content) 0 "") [] content ∅ [] 0 None.

Definition dav_dir_entry (full : string) (perm now : Z) : Entry :=
  mkEntry full (mkAttr (Z.lor (Z.lor perm ModeDir) ModeDir) 0 0 (of_unix now) (of_unix now) "" "" "" 0 "" 0 0 "") [] [] ∅ [] 0 None.

Lemma dav_file_entry cs c content mode now :
  clean cs -> clean_comp c ->
  protoToEntry (path_of cs) (Some (dav_file c content mode now)) = Some (dav_entry (path_of (cs ++ [c])%list) content mode now).
Proof. intros Hcs Hc. cbn. by rewrite joinDirectoryAndName_comp. Qed.

Lemma dav_dir_proto cs c perm now :
  clean cs -> clean_comp c ->
  protoToEntry (path_of cs) (Some (dav_dir c perm now)) = Some (dav_dir_entry (path_of (cs ++ [c])%list) perm now).
Proof. intros Hcs Hc. cbn. by rewrite joinDirectoryAndName_comp. Qed.

Lemma dav_dir_entry_dir full perm now : IsDirectory (dav_dir_entry full perm now) = true.
Proof.
  unfold IsDirectory. cbn. apply negb_true_iff, bool_decide_eq_false. intros E.
  apply (f_equal (fun x => Z.testbit x 31)) in E. rewrite Z.land_spec, !Z.lor_spec, Z.bits_0 in E.
  change (Z.testbit ModeDir 31) with true in E. rewrite !orb_true_r in E. done.
Qed.

(** A write of the entry [e] through a call. *)
Definition dav_wrote (m : gmap string Entry) (e : Entry) (r : outcome dav_err unit) (fs' : FilerServer S) : Prop :=
  match r with
  | Ret _ => serves rep fs' (<[e_FullPath e := e]> m)
  | Fail (DavRpc Internal) => serves rep fs' m \/ serves rep fs' (<[e_FullPath e := e]> m)
  | _ => False
  end.

Lemma dav_create_runs now cs c pb e fs m :
  clean cs -> clean_comp c -> valid (path_of (cs ++ [c])%list) -> protoToEntry (path_of cs) (Some pb) = Some e ->
  e_FullPath e = path_of (cs ++ [c])%list -> serves rep fs m ->
  runs (dav_rpc (g_CreateEntry now (path_of cs) (Some pb))) fs (fun r fs' =>
    dav_wrote m e r fs' /\ match r with Ret _ => has_parent m (e_FullPath e) | _ => True end).
Proof.
  intros Hcs Hc Hv Hpb Hp Hs. apply runs_dav_rpc. eapply runs_mono; [apply (create_call valid good rep _ _ _ e); [done|done|by rewrite Hp|done]|].
  intros [u|g|] fs' H1; [|destruct H1 as [-> H1]|done]; [|done]. by destruct H1 as (? & ? & _).
Qed.

Lemma dav_update_runs cs c pb e fs m :
  clean cs -> clean_comp c -> valid (path_of (cs ++ [c])%list) -> protoToEntry (path_of cs) (Some pb) = Some e ->
  e_FullPath e = path_of (cs ++ [c])%list -> serves rep fs m ->
  runs (dav_rpc (g_UpdateEntry (path_of cs) (Some pb))) fs (dav_wrote m e).
Proof.
  intros Hcs Hc Hv Hpb Hp Hs. apply runs_dav_rpc. eapply runs_mono; [apply (update_call valid good rep _ _ e); [done|done|by rewrite Hp|done]|].
  by intros [u|g|] fs' H1; [|destruct H1 as [-> H1]|].
Qed.

Lemma createDir_runs cs c perm fs m :
  clean cs -> clean_comp c -> valid (path_of (cs ++ [c])%list) -> serves rep fs m ->
  let full := path_of (cs ++ [c])%list in
  let e := dav_dir_entry full perm (to_unix (clock full)) in
  runs (createDir clock full perm) fs (fun r fs' =>
    dav_wrote m e r fs' /\ match r with Ret _ => has_parent m full | _ => True end).
Proof.
  intros Hcs Hc Hv Hs full e. unfold createDir, full. rewrite splitDirName_snoc by done. apply runs_bind, runs_dav_attempt.
  eapply runs_mono; [apply (dav_create_runs _ cs c _ e); [done|done|done|by apply dav_dir_proto|done|done]|].
  intros [u|g|] fs' [H1 H2]; [by split| |done]. cbn [dav_isAlreadyExists]. by apply runs_fail.
Qed.
Lemma ensure_parts_runs cs1 cs2 fs m :
  clean cs1 -> clean cs2 -> valid (path_of (cs1 ++ cs2)%list) -> serves rep fs m -> closed m -> cs1 = [] \/ is_Some (m !! path_of cs1) ->
  runs (ensure_parts clock cs2 (path_of cs1)) fs (fun r fs' => exists m', serves rep fs' m' /\ dirs_grow (cs1 ++ cs2)%list m m' /\
    match r with
    | Ret _ => (cs1 ++ cs2)%list = [] \/ is_Some (m' !! path_of (cs1 ++ cs2)%list)
    | Fail (DavRpc Internal) => True
    | _ => False
    end).
Proof.
  revert cs1 fs m. induction cs2 as [|c cs2 IH]; intros cs1 fs m Hcs1 Hcs2 Hv Hs Hcl Hp.
  { apply runs_ret. exists m. rewrite app_nil_r. split_and!; [done|by apply dirs_grow_refl|done]. }
  apply Forall_cons in Hcs2 as [Hc Hcs2]. cbn [ensure_parts]. rewrite decide_False by apply Hc.
  rewrite path_Join_comp by done. set (p := path_of (cs1 ++ [c])%list).
  assert (clean (cs1 ++ [c])%list) as Hcs1' by (apply Forall_app_2; [done|by constructor]).
  assert ((cs1 ++ c :: cs2)%list = ((cs1 ++ [c]) ++ cs2)%list) as Hsn by by rewrite <- app_assoc.
  assert (valid p) as Hvp by (apply (valid_prefix valid good rep _ cs2); [by apply clean_comps_ok|by rewrite <- Hsn]).
  rewrite (decide_False (P := p = "/")); [|intros E%path_of_root; [by destruct cs1|by apply clean_comps_ok]].
  (* the way goes on from a namespace that has the directory *)
  assert (forall fs' m', serves rep fs' m' -> dirs_grow (cs1 ++ c :: cs2)%list m m' -> is_Some (m' !! p) ->
    runs (ensure_parts clock cs2 p) fs' (fun r fs' => exists m', serves rep fs' m' /\ dirs_grow (cs1 ++ c :: cs2)%list m m' /\
    match r with
    | Ret _ => (cs1 ++ c :: cs2)%list = [] \/ is_Some (m' !! path_of (cs1 ++ c :: cs2)%list)
    | Fail (DavRpc Internal) => True
    | _ => False
    end)) as Hgo.
  { intros fs' m' Hs' Hg Hp'. rewrite Hsn in *.
    eapply runs_mono; [by apply (IH (cs1 ++ [c])%list fs' m' Hcs1' Hcs2 Hv Hs' (dg_closed _ _ _ Hg) (or_intror Hp'))|].
    intros r fs2 (m2 & Hs2 & Hg2 & Hr). exists m2. split_and!; [done|by eapply dirs_grow_trans|done]. }
  apply runs_bind, runs_dav_attempt. eapply runs_mono; [by apply dav_lookup_runs|]. fold p. intros r fs' [Hs' Hr].
  destruct r as [pb|[[]| | | | |]|]; try done; cbn [dav_isNotFound negb].
  - destruct Hr as (e & He & _). apply (Hgo fs' m); [done|by apply dirs_grow_refl|by eexists].
  - apply runs_bind, runs_dav_attempt. eapply runs_mono; [by apply (createDir_runs cs1 c)|]. fold p. intros r fs2 [Hw _].
    assert (dirs_grow (cs1 ++ c :: cs2)%list m (<[p := dav_dir_entry p 493 (to_unix (clock p))]> m)) as Hg
      by (apply dirs_grow_insert; [done..|apply dav_dir_entry_dir]).
    destruct r as [u|[[]| | | | |]|]; try done; cbn in Hw; cbn [dav_isAlreadyExists].
    + apply (Hgo fs2 _ Hw Hg). by rewrite lookup_insert_eq.
    + apply runs_fail. destruct Hw as [Hw|Hw]; eexists; (split_and!; [done| |done]); [by apply dirs_grow_refl|done].
  - apply runs_fail. exists m. split_and!; [done|by apply dirs_grow_refl|done].
Qed.

Lemma ensureParents_runs cs c fs m :
  clean cs -> clean_comp c -> valid (path_of (cs ++ [c])%list) -> serves rep fs m -> closed m ->
  runs (ensureParents clock (path_of (cs ++ [c])%list)) fs (fun r fs' => exists m', serves rep fs' m' /\ dirs_grow cs m m' /\
    match r with
    | Ret _ => cs = [] \/ is_Some (m' !! path_of cs)
    | Fail (DavRpc Internal) => True
    | _ => False
    end).
Proof.
  intros Hcs Hc Hv Hs Hcl. unfold ensureParents. rewrite splitDirName_snoc by done. case_decide as E.
  - apply path_of_root in E as ->; [|by apply clean_comps_ok]. apply runs_ret. exists m. split_and!; [done|by apply dirs_grow_refl|by left].
  - assert (cs <> []) as Hne by by intros ->. rewrite Split_TrimPrefix by done.
    apply (ensure_parts_runs [] cs fs m); [constructor|done| |done|done|by left].
    apply (valid_prefix valid good rep _ [c]); [apply Forall_singleton, Hc|done].
Qed.

(** ** A session: a file is opened, used and closed *)

Definition finish (ops : list file_op) (f : filerFile) : GoM (FilerServer S) dav_err (list file_res) := fun fs =>
  match run_file ops f with
  | Some (rs, f) =>
      let '(r, _, fs) := ff_Close clock f fs in (match r with Ret _ => Ret rs | Fail e => Fail e | Panic => Panic end, fs)
  | None => (Panic, fs)
  end.

Definition session (name : string) (flag perm : Z) (ops : list file_op) : GoM (FilerServer S) dav_err (list file_res) :=
  f ← OpenFile clock root name flag perm; finish ops f.

(** The flat file of a file that is opened on this content. *)
Definition opened (flag : Z) (content : bytes) : flat :=
  let content := if has_flag flag O_TRUNC then [] else content in
  mkFlat content (if has_flag flag O_APPEND then zlen content else 0) (has_flag flag O_TRUNC).

Lemma open_entry_flat full flag created entry :
  pe_IsDirectory entry = false ->
  let f := open_entry full flag created entry in
  ff_isDir f = false /\ flat_of f = opened flag (pe_Content entry) /\ ff_flags f = flag /\ ff_closed f = false /\
  ff_created f = created /\ ff_fullPath f = full /\ ff_mode f = default 0 (fa_FileMode <$> pe_Attributes entry).
Proof. intros Hd. unfold open_entry. by rewrite Hd. Qed.
(** The content stays as it is unless something is written. *)
Lemma flat_ops_clean flags ops x :
  fl_dirty (snd (flat_ops flags ops x)) = false -> fl_content (snd (flat_ops flags ops x)) = fl_content x /\ fl_dirty x = false.
Proof.
  revert x. induction ops as [|op ops IH]; intros x Hx; [done|]. cbn [flat_ops] in *.
  destruct (flat_op flags op x) as [r y] eqn:E. specialize (IH y). destruct (flat_ops flags ops y) as [rs z]. cbn [fst snd] in *.
  destruct (IH Hx) as [-> Hy]. destruct op; cbn in E; repeat case_match; simplify_eq; done.
Qed.

Lemma run_file_dir ops f : ff_isDir f = true -> exists rs f', run_file ops f = Some (rs, f') /\ ff_isDir f' = true.
Proof.
  revert f. induction ops as [|op ops IH]; intros f Hf; [by exists [], f|]. cbn [run_file].
  assert (exists r f', exec_file op f = Some (r, f') /\ ff_isDir f' = true) as (r & f' & -> & Hf').
  { destruct op; cbn; [unfold ff_Read|unfold ff_Seek|unfold ff_Write]; rewrite ?Hf; repeat case_match; simplify_eq; cbn; eauto. }
  destruct (IH f' Hf') as (rs & f'' & E & Hf''). exists (r :: rs), f''. cbn [mbind option_bind]. by rewrite E.
Qed.

Lemma close_runs cs c f fs m :
  clean cs -> clean_comp c -> valid (path_of (cs ++ [c])%list) -> serves rep fs m -> ff_isDir f = false -> ff_closed f = false ->
  ff_fullPath f = path_of (cs ++ [c])%list ->
  let '(r, _, fs') := ff_Close clock f fs in
  if ff_dirty f then dav_wrote m (dav_entry (ff_fullPath f) (ff_data f) (ff_mode f) (to_unix (clock (ff_fullPath f)))) r fs'
  else r = Ret tt /\ serves rep fs' m.
Proof.
  intros Hcs Hc Hv Hs Hd Hcl Hp. unfold ff_Close. rewrite Hcl. cbn [ff_isDir set_closed ff_dirty ff_fullPath ff_data ff_mode ff_created].
  rewrite Hd. cbn [orb]. destruct (ff_dirty f); cbn [negb]; [|done]. rewrite Hp, splitDirName_snoc by done.
  set (full := path_of (cs ++ [c])%list) in *. set (e := dav_entry full (ff_data f) (ff_mode f) (to_unix (clock full))).
  pose proof (dav_file_entry cs c (ff_data f) (ff_mode f) (to_unix (clock full)) Hcs Hc) as Hpb.
  pose proof (dav_update_runs cs c _ e fs m Hcs Hc Hv Hpb eq_refl Hs) as Hu.
  pose proof (dav_create_runs (clock full) cs c _ e fs m Hcs Hc Hv Hpb eq_refl Hs) as Hcr. unfold runs in Hu, Hcr.
  destruct (ff_created f); [|by destruct (dav_rpc _ fs)]. by destruct (dav_rpc (g_CreateEntry _ _ _) fs) as [[]]; destruct Hcr as [Hcr _].
Qed.

(** The rest of a session after the file is opened on a content. *)
Lemma use_runs cs c f flag content ops fs m :
  clean cs -> clean_comp c -> valid (path_of (cs ++ [c])%list) -> serves rep fs m -> ff_isDir f = false -> ff_closed f = false ->
  ff_fullPath f = path_of (cs ++ [c])%list -> flat_of f = opened flag content -> ff_flags f = flag ->
  zlen content <= maxAlloc -> fits flag ops (opened flag content) ->
  let x := snd (flat_ops flag ops (opened flag content)) in
  exists rs f', run_file ops f = Some (rs, f') /\ rs = fst (flat_ops flag ops (opened flag content)) /\
    let '(r, _, fs') := ff_Close clock f' fs in
    if fl_dirty x then dav_wrote m (dav_entry (ff_fullPath f) (fl_content x) (ff_mode f) (to_unix (clock (ff_fullPath f)))) r fs'
    else r = Ret tt /\ serves rep fs' m.
Proof.
  intros Hcs Hc Hv Hs Hd Hcl Hp Hfl Hflag Hlen Hfit x.
  assert (ff_data f = fl_content (opened flag content)) as Hdata by by rewrite <- Hfl.
  assert (ff_offset f = fl_pos (opened flag content)) as Hoff by by rewrite <- Hfl.
  assert (zlen (ff_data f) <= maxAlloc /\ 0 <= ff_offset f <= maxAlloc) as [Hl Ho].
  { rewrite Hdata, Hoff. unfold opened, maxAlloc in *. cbn. destruct (has_flag flag O_TRUNC), (has_flag flag O_APPEND); cbn; lia. }
  eexists _, _. split; [apply run_file_flat; [done|done|done|by rewrite Hfl, Hflag]|]. rewrite Hfl, Hflag. split; [done|]. fold x.
  by apply (close_runs cs c (with_flat x f) fs m).
Qed.
Definition fits_file (flag : Z) (ops : list file_op) (content : bytes) : Prop :=
  zlen content <= maxAlloc /\ fits flag ops (opened flag content).

(** [md] is [m] with directories on the way to [full]. *)
Definition dirs_above (full : string) (m md : gmap string Entry) : Prop :=
  exists cs c, clean cs /\ clean_comp c /\ full = path_of (cs ++ [c])%list /\ dirs_grow cs m md.

Abbreviation file full content mode := (dav_entry full content mode (to_unix (clock full))).

(** A session on the file [e] that exists. *)
Definition session_on (full : string) (flag : Z) (ops : list file_op) (e : Entry) (m : gmap string Entry)
    (r : outcome dav_err (list file_res)) (fs' : FilerServer S) : Prop :=
  let '(rs, x) := flat_ops flag ops (opened flag (e_Content e)) in
  let m' := <[full := file full (fl_content x) (at_Mode (e_Attr e))]> m in
  match r with
  | Ret rs' => rs' = rs /\ serves rep fs' (if fl_dirty x then m' else m)
  | Fail (DavRpc Internal) => serves rep fs' m \/ serves rep fs' m'
  | _ => False
  end.

(** A session that creates its file. *)
Definition session_new (full : string) (flag perm : Z) (ops : list file_op) (m : gmap string Entry)
    (r : outcome dav_err (list file_res)) (fs' : FilerServer S) : Prop :=
  let '(rs, x) := flat_ops flag ops (opened flag []) in
  exists md, dirs_above full m md /\
  match r with
  | Ret rs' => rs' = rs /\ serves rep fs' (<[full := file full (fl_content x) perm]> md)
  | Fail (DavRpc Internal) =>
      serves rep fs' md \/ exists content, content ∈ [[]; fl_content x] /\ serves rep fs' (<[full := file full content perm]> md)
  | _ => False
  end.

Lemma session_on_runs cs c flag ops e fs m :
  clean cs -> clean_comp c -> valid (path_of (cs ++ [c])%list) -> serves rep fs m ->
  m !! path_of (cs ++ [c])%list = Some e -> IsDirectory e = false -> fits_file flag ops (e_Content e) ->
  let full := path_of (cs ++ [c])%list in
  runs (finish ops (open_entry full flag false (entryToProto e))) fs (session_on full flag ops e m).
Proof.
  intros Hcs Hc Hv Hs He Hd [Hlen Hfit] full.
  destruct (open_entry_flat full flag false (entryToProto e) Hd) as (H1 & H2 & H3 & H4 & _ & H5 & H6).
  destruct (use_runs cs c _ flag (e_Content e) ops fs m Hcs Hc Hv Hs H1 H4 H5 H2 H3 Hlen Hfit) as (rs & f' & E & Hrs & Hcl).
  unfold runs, finish. rewrite E. unfold session_on. rewrite H5, H6 in Hcl. cbn in Hcl. fold full in Hcl.
  destruct (flat_ops flag ops (opened flag (e_Content e))) as [rs0 x]. cbn [fst snd] in *. subst rs0.
  destruct (ff_Close clock f' fs) as [[r f''] fs']. destruct (fl_dirty x); [|destruct Hcl as [-> Hcl]; done].
  by destruct r as [u|[[]| | | | |]|].
Qed.

Lemma session_new_runs cs c flag perm ops fs m md :
  clean cs -> clean_comp c -> valid (path_of (cs ++ [c])%list) -> dirs_grow cs m md -> fits_file flag ops [] ->
  let full := path_of (cs ++ [c])%list in
  serves rep fs (<[full := file full [] perm]> md) ->
  runs (finish ops (open_entry full flag true (dav_file c [] perm (to_unix (clock full))))) fs (session_new full flag perm ops m).
Proof.
  intros Hcs Hc Hv Hg [Hlen Hfit] full Hs.
  destruct (open_entry_flat full flag true (dav_file c [] perm (to_unix (clock full))) eq_refl) as (H1 & H2 & H3 & H4 & _ & H5 & H6).
  destruct (use_runs cs c _ flag [] ops fs _ Hcs Hc Hv Hs H1 H4 H5 H2 H3 Hlen Hfit) as (rs & f' & E & Hrs & Hcl).
  unfold runs, finish. rewrite E. unfold session_new. rewrite H5, H6 in Hcl. cbn in Hcl. fold full in Hcl.
  pose proof (flat_ops_clean flag ops (opened flag [])) as Hclean.
  destruct (flat_ops flag ops (opened flag [])) as [rs0 x]. cbn [fst snd] in *. subst rs0.
  destruct (ff_Close clock f' fs) as [[r f''] fs']. exists md. split; [by exists cs, c|]. destruct (fl_dirty x).
  - destruct r as [u|[[]| | | | |]|]; try done; cbn in Hcl; rewrite insert_insert_eq in Hcl; [done|]. right.
    destruct Hcl as [Hcl|Hcl]; eexists; (split; [|exact Hcl]); set_solver.
  - destruct Hcl as [-> Hcl]. split; [done|]. destruct Hclean as [-> _]; [done|]. unfold opened. cbn. by destruct (has_flag flag O_TRUNC).
Qed.

Lemma session_dir_runs full flag ops e fs m :
  serves rep fs m -> IsDirectory e = true ->
  runs (finish ops (open_entry full flag false (entryToProto e))) fs (fun r fs' => (exists rs, r = Ret rs) /\ serves rep fs' m).
Proof.
  intros Hs Hd. unfold open_entry. cbn [entryToProto pe_IsDirectory]. rewrite Hd. unfold runs, finish.
  destruct (run_file_dir ops (mkFile full true 0 [] 0 0 false false false None 0) eq_refl) as (rs & f' & -> & Hd').
  unfold ff_Close. cbn. rewrite Hd'. cbn. destruct (ff_closed f'); (split; [by exists rs|done]).
Qed.

Lemma session_create_runs cs c flag perm ops fs m :
  clean cs -> clean_comp c -> valid (path_of (cs ++ [c])%list) -> serves rep fs m -> closed m -> fits_file flag ops [] ->
  let full := path_of (cs ++ [c])%list in
  runs (ensureParents clock full;;
        let '(dir, base) := splitDirName full in
        let entry := dav_file base [] perm (to_unix (clock full)) in
        dav_rpc (g_CreateEntry (clock full) dir (Some entry));;
        mret (open_entry full flag true entry)) fs (fun r fs' =>
    match r with
    | Ret f => runs (finish ops f) fs' (session_new full flag perm ops m)
    | Fail e => session_new full flag perm ops m (Fail e) fs'
    | Panic => False
    end).
Proof.
  intros Hcs Hc Hv Hs Hcl Hfit full. apply runs_bind. eapply runs_mono; [by apply (ensureParents_runs cs c fs m)|]. fold full.
  intros r fs2 (md & Hs2 & Hg & Hp). assert (dirs_above full m md) as Hab by by exists cs, c.
  destruct r as [u|[[]| | | | |]|]; try done; [|unfold session_new; destruct (flat_ops _ _ _); exists md; by auto].
  unfold full at 1. rewrite splitDirName_snoc by done. fold full. apply runs_bind.
  eapply runs_mono; [apply (dav_create_runs (clock full) cs c _ (file full [] perm) fs2 md); [done|done|done|by apply dav_file_entry|done|done]|].
  intros r fs3 [Hcr _]. destruct r as [u'|[[]| | | | |]|]; try done; [by apply (session_new_runs cs c _ _ _ _ _ md)|].
  unfold session_new. destruct (flat_ops _ _ _) as [rs x]. exists md. split; [done|].
  destruct Hcr as [Hcr|Hcr]; [by left|right]. exists []. split; [set_solver|done].
Qed.

(** C26: a session with a file over WebDAV.  A file that exists is opened on its content, or on
    nothing when it is truncated; reads, seeks and writes answer as those of a flat array of
    bytes; and after the close, the file has the bytes of the array if it was truncated or
    written, and nothing else is changed.  A file that does not exist is created with the
    directories on its way when the flags ask for it, and is not found otherwise.  On an error
    of the filer, the file has its old or its new content.  A session on a directory changes
    nothing.  The content is the one in the entry itself; what is in chunks is not read.  Each
    entry has its parent at the start, and the bytes of the file fit the memory. *)
Theorem session_refines (name : string) (flag perm : Z) (ops : list file_op) (fs : FilerServer S) (m : gmap string Entry) :
  let full := toFilerPath root name in
  serves rep fs m -> closed m -> valid full -> fits_file flag ops (default [] (e_Content <$> m !! full)) ->
  let '(r, fs') := session name flag perm ops fs in
  match m !! full with
  | Some e => (r = Fail (DavRpc Internal) /\ serves rep fs' m) \/
      if IsDirectory e then (exists rs, r = Ret rs) /\ serves rep fs' m else session_on full flag ops e m r fs'
  | None =>
      if has_flag flag O_CREATE then session_new full flag perm ops m r fs'
      else (r = Fail ErrNotExist \/ r = Fail (DavRpc Internal)) /\ serves rep fs' m
  end.
Proof.
  intros full Hs Hcl Hv Hfit. match goal with |- let '(r, fs') := ?x in @?Q r fs' => change (runs (session name flag perm ops) fs Q) end.
  destruct (toFilerPath_snoc root name Hroot Hslash) as (cs & c & Hcs & Hc & E).
  fold full in E. unfold session, OpenFile. fold full. rewrite E in *. clear full E. set (full := path_of (cs ++ [c])%list) in *.
  assert (dirs_above full m m) as Hrefl by (exists cs, c; split_and!; [done..|by apply dirs_grow_refl]).
  do 2 apply runs_bind. apply runs_dav_attempt. eapply runs_mono; [by apply (dav_lookup_runs cs c fs m)|]. fold full.
  intros r fs1 [Hs1 Hl]. destruct r as [pb|[[]| | | | |]|]; try done; cbn [dav_isNotFound negb].
  - destruct Hl as (e & He & ->). rewrite He in *. apply runs_ret. destruct (IsDirectory e) eqn:Ed.
    + eapply runs_mono; [by apply (session_dir_runs full flag ops e fs1 m)|]. intros r fs' Hr. by right.
    + eapply runs_mono; [by apply (session_on_runs cs c flag ops e fs1 m)|]. intros r fs' Hr. by right.
  - rewrite Hl in *. destruct (has_flag flag O_CREATE); cbn [negb]; [|split; [by left|done]].
    eapply runs_mono; [by apply (session_create_runs cs c flag perm ops fs1 m)|]. by intros [f|e|] fs' Hr.
  - apply runs_fail. destruct (m !! full) as [e|]; [by left|]. destruct (has_flag flag O_CREATE); [|by split; [right|]].
    unfold session_new. destruct (flat_ops _ _ _). exists m. by auto.
Qed.
End spec.

(** ** A session on the store in memory *)

Definition ex_flag : Z := Z.lor O_RDWR (Z.lor O_CREATE O_TRUNC).
Definition ex_ops : list file_op := [FWrite [104; 105]; FSeek 4 SeekStart; FWrite [33]; FSeek 0 SeekStart; FRead 10].

(** A new file is written with a gap and read back. *)
Lemma session_refines_witness :
  let '(r, fs') := session (H := mem_store mem_order) (fun _ => 5) "/webdav" "docs/a.txt" ex_flag 420 ex_ops (ex_server ∅) in
  r = Ret [RNum 2; RNum 4; RNum 1; RNum 0; RBytes [104; 105; 0; 0; 33]] /\
  session_new mem_rep (fun _ => 5) "/webdav/docs/a.txt" ex_flag 420 ex_ops ∅ r fs'.
Proof.
  assert (clean_path "/webdav" /\ "/webdav" <> "/") as [Hroot Hslash] by apply (normalizeRoot_clean "").
  assert (toFilerPath "/webdav" "docs/a.txt" = "/webdav/docs/a.txt") as Hfull by reflexivity.
  pose proof (@session_refines MemStore (mem_store mem_order) abs_path (fun _ => True) mem_rep (mem_laws mem_order mem_order_ok) (fun _ => I)
    (fun _ => 5) "/webdav" Hroot Hslash "docs/a.txt" ex_flag 420 ex_ops (ex_server ∅) ∅ (ex_serves ∅ (map_Forall_empty _)) (map_Forall_empty _)) as H.
  rewrite Hfull in H.
  assert (abs_path "/webdav/docs/a.txt") as Hv.
  { apply (abs_path_comp ["webdav"; "docs"; "a.txt"]). by apply (bool_decide_unpack _). }
  assert (fits_file ex_flag ex_ops []) as Hfit by (vm_compute; repeat split; discriminate).
  specialize (H Hv Hfit).
  assert (fst (session (H := mem_store mem_order) (fun _ => 5) "/webdav" "docs/a.txt" ex_flag 420 ex_ops (ex_server ∅)) =
    Ret [RNum 2; RNum 4; RNum 1; RNum 0; RBytes [104; 105; 0; 0; 33]]) as E by (vm_compute; reflexivity).
  destruct (session (fun _ => 5) "/webdav" "docs/a.txt" ex_flag 420 ex_ops (ex_server ∅)) as [r fs']. cbn [fst] in E.
  split; [exact E|exact H].
Defined.
