(* ===== verification/WebDavTree.v ===== *)
(** * WebDavTree: removing a tree over WebDAV

    [RemoveAll] of [goblob/webdav/filesystem.go] removes the entry at a path and what can be
    reached from it through directories, and nothing else; directories have at most 10,000
    entries. *)

From stdpp Require Import sorting.
From Stdlib Require Import Sorting.Sorted.
From S2P Require Import Prelude GoStrings GoPath GoText LogBuffer FilerStore StoreView MemoryStore Filer FilerSpec FilerServer PathSpec FilerSafe.
From S2P Require Import WebDav.

#[local] Open Scope Z_scope.
#[local] Open Scope string_scope.

(** ** Trees *)

Definition comps (p : string) : list string := Split slash (Trim slash p).

(** [q] is at or below [p]. *)
Definition inside (p q : string) : Prop := comps p `prefix_of` comps q.

#[export] Instance inside_dec p q : Decision (inside p q).
Proof. unfold inside. apply _. Defined.

Definition is_dir (m : gmap string Entry) (p : string) : bool := match m !! p with Some d => IsDirectory d | None => false end.

(** The entry at [cs] and those on the way to [cs ++ ds], which is not counted, are
    directories. *)
Fixpoint linked (m : gmap string Entry) (cs ds : list string) : bool :=
  match ds with
  | [] => true
  | d :: ds => is_dir m (path_of cs) && linked m (cs ++ [d])%list ds
  end.

(** [q] is [p], or is below it with directories all the way. *)
Definition reached (m : gmap string Entry) (p q : string) : Prop :=
  inside p q /\ linked m (comps p) (drop (length (comps p)) (comps q)) = true.

#[export] Instance reached_dec m p q : Decision (reached m p q).
Proof. unfold reached. apply _. Defined.

Definition removed (p : string) (m : gmap string Entry) : gmap string Entry := filter (fun x => ~ reached m p (fst x)) m.

Lemma comps_path cs : cs <> [] -> clean cs -> comps (path_of cs) = cs.
Proof. intros Hne Hcs. by apply Split_Trim, clean_comps_ok. Qed.

Lemma inside_path cs qs : cs <> [] -> clean cs -> qs <> [] -> clean qs -> inside (path_of cs) (path_of qs) <-> exists ds, qs = (cs ++ ds)%list.
Proof. intros. unfold inside. by rewrite !comps_path. Qed.

Lemma reached_path m cs qs :
  cs <> [] -> clean cs -> qs <> [] -> clean qs -> reached m (path_of cs) (path_of qs) <-> exists ds, qs = (cs ++ ds)%list /\ linked m cs ds = true.
Proof.
  intros Hne Hcs Hne' Hqs. unfold reached. rewrite inside_path, !comps_path by done. split.
  - intros [(ds & ->) Hl]. rewrite drop_app_length in Hl. by exists ds.
  - intros (ds & -> & Hl). rewrite drop_app_length. split; [by exists ds|done].
Qed.

Lemma linked_subseteq m m' cs ds : m' ⊆ m -> linked m' cs ds = true -> linked m cs ds = true.
Proof.
  intros Hsub. revert cs. induction ds as [|d ds IH]; intros cs; [done|]. cbn [linked]. rewrite !andb_true_iff. intros [Hd Hl].
  split; [|by apply IH]. unfold is_dir in *. destruct (m' !! path_of cs) as [x|] eqn:E; [|done]. by rewrite (lookup_weaken _ _ _ _ E Hsub).
Qed.

Lemma linked_ext m m' cs ds :
  (forall ds1 d ds2, ds = (ds1 ++ d :: ds2)%list -> m' !! path_of (cs ++ ds1)%list = m !! path_of (cs ++ ds1)%list) -> linked m' cs ds = linked m cs ds.
Proof.
  revert cs. induction ds as [|d ds IH]; intros cs He; [done|]. cbn [linked]. f_equal.
  - unfold is_dir. specialize (He [] d ds eq_refl). rewrite app_nil_r in He. by rewrite He.
  - apply IH. intros ds1 d' ds2 ->. rewrite <- app_assoc. apply (He (d :: ds1) d' ds2). done.
Qed.

Lemma linked_snoc m cs ds d : linked m cs (ds ++ [d])%list = linked m cs ds && is_dir m (path_of (cs ++ ds)%list).
Proof.
  revert cs. induction ds as [|x ds IH]; intros cs; cbn [linked app]; [by rewrite app_nil_r, andb_true_r|].
  by rewrite IH, <- app_assoc, andb_assoc.
Qed.

Lemma removed_lookup p m q : removed p m !! q = if decide (reached m p q) then None else m !! q.
Proof.
  unfold removed. case_decide as Hi; [apply map_lookup_filter_None; right; by intros e _ []|].
  destruct (m !! q) as [e|] eqn:E; [by apply map_lookup_filter_Some|]. apply map_lookup_filter_None. by left.
Qed.

Lemma removed_subseteq p m : removed p m ⊆ m.
Proof. apply map_filter_subseteq. Qed.

Definition children_of (dir : string) (m : gmap string Entry) : gmap string Entry := filter (fun x => fst (DirAndName (fst x)) = dir) m.

(** Each entry is at a clean path, and no directory has more than 10,000. *)
Record tree (m : gmap string Entry) : Prop := {
  tr_clean p e : m !! p = Some e -> clean_path p /\ p <> "/";
  tr_small dir : (base.size (children_of dir m) <= Z.to_nat 10000)%nat;
}.

Lemma path_nonroot cs : clean cs -> path_of cs <> "/" -> cs <> [].
Proof. by intros _ H ->. Qed.

Lemma tree_removed cs m : tree m -> tree (removed (path_of cs) m).
Proof.
  intros [H1 H3]. split.
  - intros p e Hp. apply (H1 p e). eapply lookup_weaken; [done|apply removed_subseteq].
  - intros dir. etrans; [|apply (H3 dir)]. apply (dom_subseteq_size (D := gset string)), subseteq_dom, map_filter_subseteq_mono, removed_subseteq.
Qed.

(** Where the parent of each entry is a directory, all that is below a path is reached. *)
Lemma reached_inside m p q e :
  tree m -> clean_path p -> p <> "/" -> m !! q = Some e ->
  (forall q e, m !! q = Some e -> fst (DirAndName q) = "/" \/ is_dir m (fst (DirAndName q)) = true) ->
  reached m p q <-> inside p q.
Proof.
  intros Ht (cs & Hcs & ->) Hp He Hpar. apply path_nonroot in Hp; [|done]. destruct (tr_clean m Ht q e He) as [(qs & Hqs & ->) Hq].
  apply path_nonroot in Hq; [|done]. rewrite reached_path, inside_path by done. split; [by intros (ds & ? & _); exists ds|].
  intros (ds & ->). exists ds. split; [done|]. clear Hq. revert e He Hqs. induction ds as [|d ds IH] using rev_ind; intros e He Hqs; [done|].
  rewrite app_assoc in *. apply Forall_app in Hqs as [Hqs [Hd _]%Forall_cons].
  destruct (Hpar _ _ He) as [E|E]; rewrite DirAndName_snoc in E by apply Hd; cbn [fst] in E.
  - apply path_of_root in E; [|by apply clean_comps_ok]. by destruct cs.
  - rewrite linked_snoc, E, andb_true_r. unfold is_dir in E. destruct (m !! path_of (cs ++ ds)%list) as [x|] eqn:Ex; [|done]. by apply (IH x).
Qed.

Lemma str_lt_nodup (l : list (string * Entry)) : StronglySorted fst_lt l -> NoDup (fst <$> l).
Proof.
  induction 1 as [|[n e] l Hs IH Hf]; cbn; constructor; [|done]. intros ([n' e'] & -> & Hin)%list_elem_of_fmap.
  rewrite Forall_forall in Hf. specialize (Hf _ Hin). by apply str_lt_irrefl in Hf.
Qed.

(** A listing has all the entries of a directory of a tree. *)
Lemma listed_small m cs ls :
  tree m -> clean cs -> listed m (path_of cs) "" false "" ls -> take (Z.to_nat 10000) ls = ls.
Proof.
  intros Ht Hcs [Hs He]. apply take_ge. etrans; [|apply (tr_small m Ht (path_of cs))].
  assert (forall n e, (n, e) ∈ ls -> m !! path_of (cs ++ [n])%list = Some e /\ clean_comp n) as Hin.
  { intros n e Hn. apply He in Hn as (p & Hp & Hd & _). destruct (tr_clean m Ht p e Hp) as [(ps & Hps & ->) Hne].
    destruct ps as [|c ps _] using rev_ind; [done|]. apply Forall_app in Hps as [Hps [Hc _]%Forall_cons].
    rewrite DirAndName_snoc in Hd by apply Hc. injection Hd as Hd ->. apply path_of_inj in Hd as ->; [done|by apply clean_comps_ok..]. }
  set (paths := (fun x => path_of (cs ++ [fst x])%list) <$> ls). replace (length ls) with (length paths) by apply length_fmap.
  assert (NoDup paths) as Hnd.
  { unfold paths. pose proof (str_lt_nodup ls Hs) as Hn. clear He Hs. induction ls as [|[n e] ls IH]; [constructor|].
    cbn in Hn |- *. apply NoDup_cons in Hn as [Hn1 Hn2]. apply NoDup_cons. split; [|apply IH; [by intros n' e' H; apply Hin; right|done]].
    intros ([n' e'] & E & Hin')%list_elem_of_fmap. cbn in E. apply Hn1. apply list_elem_of_fmap. exists (n', e'). split; [|done]. cbn.
    destruct (Hin n e) as [_ Hc]; [by left|]. destruct (Hin n' e') as [_ Hc']; [by right|].
    apply path_of_inj in E; [by apply app_inj_2 in E as [_ [= ->]]|apply clean_comps_ok, Forall_app_2; [done|by apply Forall_singleton]..]. }
  rewrite <- (size_list_to_set (C := gset string)) by done. rewrite <- (size_dom (D := gset string)). apply subseteq_size.
  intros p Hp. apply elem_of_list_to_set, list_elem_of_fmap in Hp as ([n e] & -> & Hn). destruct (Hin n e Hn) as [Hm Hc].
  apply elem_of_dom. exists e. apply map_lookup_filter_Some. split; [done|]. cbn. by rewrite DirAndName_snoc by apply Hc.
Qed.

Lemma path_Base_snoc cs c : comp_ok c -> path_Base (path_of (cs ++ [c])%list) = c.
Proof.
  intros Hc. unfold path_Base. rewrite decide_False by apply path_of_nonempty.
  assert (str (reverse (drop_byte slash (reverse (chars (path_of (cs ++ [c])%list))))) = path_of (cs ++ [c])%list) as ->.
  { rewrite path_of_snoc, !chars_append, !reverse_app. destruct Hc as [Hne Hc]. destruct (reverse (chars c)) as [|x l] eqn:E.
    { destruct Hne. apply chars_inj. by rewrite <- (reverse_involutive (chars c)), E. }
    cbn [app drop_byte]. rewrite decide_False; [|intros ->; apply Hc; rewrite <- elem_of_reverse, E; by left].
    rewrite !app_comm_cons, <- E, <- !reverse_app, reverse_involutive. apply chars_inj. by rewrite chars_str, !chars_append. }
  rewrite path_Split_snoc by done. cbn [snd]. by rewrite decide_False by apply Hc.
Qed.

(** The trees at these names of a directory, removed one after the other. *)
Definition removed_names (cs : list string) (ns : list string) (m : gmap string Entry) : gmap string Entry :=
  fold_left (fun m n => removed (path_of (cs ++ [n])%list) m) ns m.

(** Removing at one name leaves what is reached from another. *)
Lemma reached_removed m cs n n' q :
  tree m -> clean cs -> clean_comp n -> clean_comp n' -> is_Some (m !! q) -> ~ reached m (path_of (cs ++ [n])%list) q ->
  reached (removed (path_of (cs ++ [n])%list) m) (path_of (cs ++ [n'])%list) q <-> reached m (path_of (cs ++ [n'])%list) q.
Proof.
  intros Ht Hcs Hn Hn' [e He] Hnot. destruct (tr_clean m Ht q e He) as [(qs & Hqs & ->) Hq]. apply path_nonroot in Hq; [|done].
  assert (forall x, clean_comp x -> clean (cs ++ [x])%list) as Hsnoc by (intros; apply Forall_app_2; [done|by apply Forall_singleton]).
  assert (forall m' x, clean_comp x -> reached m' (path_of (cs ++ [x])%list) (path_of qs) <-> exists ds, qs = ((cs ++ [x]) ++ ds)%list /\ linked m' (cs ++ [x])%list ds = true) as Hreach.
  { intros m' x Hx. apply reached_path; [by destruct cs|by apply Hsnoc|done|done]. }
  rewrite Hreach in Hnot by done. rewrite !Hreach by done. split; intros (ds & -> & Hl); exists ds; (split; [done|]).
  - by eapply linked_subseteq; [apply removed_subseteq|].
  - rewrite (linked_ext m); [done|]. intros ds1 d ds2 ->. rewrite removed_lookup, decide_False; [done|]. intros Hr.
    assert (clean ((cs ++ [n']) ++ ds1)%list) as Hc1 by (rewrite app_assoc in Hqs; by apply Forall_app in Hqs as [? _]).
    apply reached_path in Hr as (ds' & E & _); [|by destruct cs|by apply Hsnoc|by destruct cs|done].
    rewrite <- !app_assoc in E. apply app_inv_head in E. injection E as <- _. apply Hnot. by eexists.
Qed.

Lemma removed_names_lookup cs ns m p :
  tree m -> clean cs -> Forall clean_comp ns ->
  removed_names cs ns m !! p = if decide (Exists (fun n => reached m (path_of (cs ++ [n])%list) p) ns) then None else m !! p.
Proof.
  intros Ht Hcs Hns. revert m Ht. induction Hns as [|n ns Hn Hns IH]; intros m Ht; cbn [removed_names fold_left]; [rewrite decide_False by inversion 1; done|].
  fold (removed_names cs ns (removed (path_of (cs ++ [n])%list) m)). rewrite IH, removed_lookup by by apply tree_removed.
  destruct (m !! p) as [e|] eqn:E; [|by repeat case_decide].
  destruct (decide (reached m _ p)) as [Hi|Hi]; [rewrite (decide_True (P := Exists _ (n :: ns))) by (by apply Exists_cons_hd); by case_decide|].
  apply decide_ext. rewrite Exists_cons, !Exists_exists. rewrite Forall_forall in Hns.
  split; [intros (n' & Hin & Hr); right|intros [Hr|(n' & Hin & Hr)]; [done|]]; exists n'; (split; [done|]);
    by apply (reached_removed m cs n n' p); [..|by apply Hns|by exists e| |].
Qed.

Lemma removed_names_subseteq cs ns m : removed_names cs ns m ⊆ m.
Proof. revert m. induction ns as [|n ns IH]; intros m; [done|]. etrans; [apply IH|apply removed_subseteq]. Qed.

(** The names of all the entries of a directory. *)
Definition all_names (cs : list string) (m : gmap string Entry) (ns : list string) : Prop :=
  forall n, clean_comp n -> is_Some (m !! path_of (cs ++ [n])%list) -> n ∈ ns.

(** What is reached below a directory is reached from one of its entries. *)
Lemma names_cover m cs ns ds e :
  cs <> [] -> clean (cs ++ ds)%list -> all_names cs m ns -> m !! path_of (cs ++ ds)%list = Some e ->
  match ds with [] => False | d :: ds => linked m (cs ++ [d])%list ds = true end ->
  Exists (fun n => reached m (path_of (cs ++ [n])%list) (path_of (cs ++ ds)%list)) ns.
Proof.
  intros Hne Hcl Hall He Hl. destruct ds as [|n ds]; [done|]. apply Exists_exists. exists n.
  assert (clean (cs ++ [n])%list /\ clean_comp n) as [Hcn Hn].
  { apply Forall_app in Hcl as [? [? _]%Forall_cons]. split; [|done]. apply Forall_app_2; [done|by apply Forall_singleton]. }
  assert ((cs ++ n :: ds)%list = ((cs ++ [n]) ++ ds)%list) as E by by rewrite <- app_assoc. rewrite E in *. split.
  - apply Hall; [done|]. destruct ds as [|d ds]; [rewrite app_nil_r in He; by exists e|]. cbn [linked] in Hl.
    apply andb_true_iff in Hl as [Hd _]. unfold is_dir in Hd. by destruct (m !! path_of (cs ++ [n])%list).
  - apply reached_path; [by destruct cs|done|by destruct cs|done|]. by exists ds.
Qed.

Lemma names_reached m cs ns qs :
  cs <> [] -> clean cs -> Forall clean_comp ns -> qs <> [] -> clean qs ->
  Exists (fun n => reached m (path_of (cs ++ [n])%list) (path_of qs)) ns -> exists n ds, qs = (cs ++ n :: ds)%list /\ linked m (cs ++ [n])%list ds = true.
Proof.
  intros Hne Hcs Hns Hqs Hcl (n & Hn & Hr)%Exists_exists. rewrite Forall_forall in Hns. specialize (Hns n Hn).
  apply reached_path in Hr as (ds & -> & Hl); [|by destruct cs|apply Forall_app_2; [done|by apply Forall_singleton]|done|done].
  exists n, ds. split; [by rewrite <- app_assoc|done].
Qed.

(** Removing at all entries of a directory, and then the directory. *)
Lemma delete_removed_names m cs ns :
  tree m -> cs <> [] -> clean cs -> is_dir m (path_of cs) = true -> all_names cs m ns -> Forall clean_comp ns ->
  delete (path_of cs) (removed_names cs ns m) = removed (path_of cs) m.
Proof.
  intros Ht Hne Hcs Hdir Hall Hns. apply map_eq. intros p. rewrite removed_lookup. destruct (decide (p = path_of cs)) as [->|Hp].
  { rewrite lookup_delete_eq, decide_True; [done|]. apply reached_path; [done..|]. exists []. by rewrite app_nil_r. }
  rewrite lookup_delete_ne, removed_names_lookup by done. destruct (m !! p) as [e|] eqn:E; [|by repeat case_decide].
  destruct (tr_clean m Ht p e E) as [(ps & Hps & ->) Hroot]. apply path_nonroot in Hroot; [|done]. apply decide_ext. split.
  - intros Hex. apply names_reached in Hex as (n & ds & -> & Hl); [|done..]. apply reached_path; [done..|].
    exists (n :: ds). cbn [linked]. by rewrite Hdir.
  - intros Hr. apply reached_path in Hr as (ds & -> & Hl); [|done..]. apply (names_cover m cs ns ds e); [done..|].
    destruct ds as [|d ds]; [by rewrite app_nil_r in Hp|]. cbn [linked] in Hl. by apply andb_true_iff in Hl as [_ ?].
Qed.

(** Nothing is reached below a path without a directory. *)
Lemma delete_file m cs : tree m -> cs <> [] -> clean cs -> is_dir m (path_of cs) = false -> delete (path_of cs) m = removed (path_of cs) m.
Proof.
  intros Ht Hne Hcs Hdir. apply map_eq. intros p. rewrite removed_lookup. destruct (decide (p = path_of cs)) as [->|Hp].
  { rewrite lookup_delete_eq, decide_True; [done|]. apply reached_path; [done..|]. exists []. by rewrite app_nil_r. }
  rewrite lookup_delete_ne by done. destruct (m !! p) as [e|] eqn:E; [|by case_decide].
  destruct (tr_clean m Ht p e E) as [(ps & Hps & ->) Hroot]. apply path_nonroot in Hroot; [|done]. rewrite decide_False; [done|].
  intros Hr. apply reached_path in Hr as (ds & -> & Hl); [|done..]. destruct ds; [by rewrite app_nil_r in Hp|]. cbn in Hl. by rewrite Hdir in Hl.
Qed.

(** ** Removing *)

Section spec.
Context {S : Type} `{FilerStore S} (valid : string -> Prop) (good : Entry -> Prop) (rep : S -> gmap string Entry -> Prop).
Context {Hlaws : FilerLaws S valid good rep} (clock : string -> Z).

Lemma listDirectory_runs cs fs m :
  clean cs -> valid (path_of cs) -> serves rep fs m -> tree m ->
  runs (listDirectory (path_of cs)) fs (fun r fs' => serves rep fs' m /\
    match r with
    | Ret infos => all_names cs m (ei_name <$> infos) /\ Forall (fun n => clean_comp n /\ is_Some (m !! path_of (cs ++ [n])%list)) (ei_name <$> infos)
    | Fail (DavRpc c) => c = Internal \/ c = SendError
    | _ => False
    end).
Proof.
  intros Hcs Hv Hs Ht. unfold runs, listDirectory. pose proof (list_entries_call valid good rep (path_of cs) fs m Hs) as Hl.
  rewrite joinDirectoryAndName_dir in Hl by done. specialize (Hl Hv).
  destruct (ListEntries _ _ _ _ _ _ fs) as [[[u|g|] sent] fs1]; destruct Hl as [Hs1 Hl]; [|done..]. split; [done|].
  destruct Hl as (ls & Hls & ->). rewrite (listed_small m cs ls) by done.
  assert (forall n e, (n, e) ∈ ls <-> clean_comp n /\ m !! path_of (cs ++ [n])%list = Some e) as Hin.
  { intros n e. rewrite (ls_elem _ _ _ _ _ _ Hls). split.
    - intros (p & Hp & Hd & _). destruct (tr_clean m Ht p e Hp) as [(ps & Hps & ->) Hne].
      destruct ps as [|c ps _] using rev_ind; [done|]. apply Forall_app in Hps as [Hps [Hc _]%Forall_cons].
      rewrite DirAndName_snoc in Hd by apply Hc. injection Hd as Hd ->. apply path_of_inj in Hd as ->; [done|by apply clean_comps_ok..].
    - intros [Hc Hp]. eexists. split; [done|]. split; [apply DirAndName_snoc, Hc|]. split; [by destruct n|by left]. }
  assert (forall n e, (n, e) ∈ ls -> ei_name (entryInfoFrom (path_Join [path_of cs; pe_Name (entryToProto e)]) (entryToProto e)) = n) as Hname.
  { intros n e Hn. apply Hin in Hn as [Hc Hp]. destruct (serves_keyed valid good rep _ _ _ _ Hs1 Hp) as (Hfp & _ & _).
    cbn [entryInfoFrom ei_name entryToProto pe_Name]. rewrite Hfp, DirAndName_snoc by apply Hc. cbn [snd].
    rewrite path_Join_comp by done. apply path_Base_snoc, Hc. }
  set (infos := _ <$> (_ <$> ls)). assert (forall n, n ∈ (ei_name <$> infos) <-> exists e, (n, e) ∈ ls) as Hnames.
  { intros n. unfold infos. rewrite <- !list_fmap_compose, list_elem_of_fmap. split.
    - intros ([n' e] & -> & Hn). cbn [compose snd]. rewrite (Hname n' e Hn). by exists e.
    - intros (e & Hn). exists (n, e). split; [|done]. cbn [compose snd]. by rewrite (Hname n e Hn). }
  split.
  - intros n Hc [e He]. apply Hnames. exists e. by apply Hin.
  - apply Forall_forall. intros n (e & [Hc Hp]%Hin)%Hnames. split; [done|by exists e].
Qed.

(** What a call that removes entries leaves: on an error of the filer a part of them. *)
Definition removes (m m' : gmap string Entry) (r : outcome dav_err unit) (fs' : FilerServer S) : Prop :=
  match r with
  | Ret _ => serves rep fs' m'
  | Fail (DavRpc c) => (c = Internal \/ c = SendError) /\ exists mm, serves rep fs' mm /\ m' ⊆ mm /\ mm ⊆ m
  | _ => False
  end.

Lemma dav_delete_runs cs c fs m :
  clean cs -> clean_comp c -> valid (path_of (cs ++ [c])%list) -> serves rep fs m ->
  let full := path_of (cs ++ [c])%list in
  runs (let '(dir, base) := splitDirName full in
        r ← dav_attempt (dav_rpc (g_DeleteEntry (clock full) dir base));
        match r with
        | inl e => if dav_isNotFound e then mret tt else fail e
        | inr _ => mret tt
        end) fs (removes m (delete full m)).
Proof.
  intros Hcs Hc Hv Hs full. unfold full. rewrite splitDirName_snoc by done. apply runs_bind, runs_dav_attempt, runs_dav_rpc.
  pose proof (delete_call valid good rep (clock full) (path_of cs) c fs m Hs) as Hd. rewrite joinDirectoryAndName_comp in Hd by done.
  eapply runs_mono; [by apply Hd|]. fold full. intros [u|[]|] fs' H1; try done; cbn [dav_isNotFound].
  - apply runs_ret. by destruct H1 as [H1 _].
  - apply runs_ret. destruct H1 as [H1 Hn]. cbn. by rewrite delete_id.
  - apply runs_fail. split; [by left|]. destruct H1 as [H1|H1]; eexists; (split; [done|]); [split; [apply delete_subseteq|done]|split; [done|apply delete_subseteq]].
Qed.

(** The entries at or below [path_of cs] are less than [fuel] levels below it. *)
Definition depth_below (cs : list string) (fuel : nat) (m : gmap string Entry) : Prop :=
  forall ds e, m !! path_of (cs ++ ds)%list = Some e -> clean (cs ++ ds)%list -> (length ds < fuel)%nat.

Lemma depth_subseteq cs fuel m m' : depth_below cs fuel m -> m' ⊆ m -> depth_below cs fuel m'.
Proof. intros Hd Hs ds e He. apply (Hd ds e). by eapply lookup_weaken. Qed.

Lemma remove_children_runs fuel cs infos fs m :
  cs <> [] -> clean cs -> tree m -> serves rep fs m -> Forall clean_comp (ei_name <$> infos) ->
  (forall n fs m, n ∈ (ei_name <$> infos) -> tree m -> serves rep fs m -> depth_below (cs ++ [n])%list fuel m ->
    runs (removeAllPath clock fuel (path_of (cs ++ [n])%list)) fs (removes m (removed (path_of (cs ++ [n])%list) m))) ->
  (forall n, n ∈ (ei_name <$> infos) -> depth_below (cs ++ [n])%list fuel m) ->
  runs (remove_children (removeAllPath clock fuel) (path_of cs) infos) fs (removes m (removed_names cs (ei_name <$> infos) m)).
Proof.
  intros Hne Hcs. revert fs m. induction infos as [|i infos IH]; intros fs m Ht Hs Hns Hrec Hdep; [by apply runs_ret|].
  cbn [remove_children fmap list_fmap] in *. apply Forall_cons in Hns as [Hc Hns]. rewrite path_Join_comp by done. apply runs_bind.
  assert (clean (cs ++ [ei_name i])%list) as Hcn by (apply Forall_app_2; [done|by apply Forall_singleton]).
  eapply runs_mono; [apply Hrec; [by left|done|done|apply Hdep; by left]|]. set (m1 := removed _ m). cbn [removed_names fold_left]. fold m1.
  fold (removed_names cs (ei_name <$> infos) m1). intros r fs1 Hr. assert (m1 ⊆ m) as Hsub by apply removed_subseteq.
  destruct r as [u|[c| | | | |]|]; try done.
  - eapply runs_mono; [apply (IH fs1 m1); [by apply tree_removed|done|done| |]|].
    { intros n fs' m' Hn. apply Hrec. by right. }
    { intros n Hn. eapply depth_subseteq; [apply Hdep; by right|done]. }
    intros r fs2 Hr2. destruct r as [u'|[c| | | | |]|]; try done. destruct Hr2 as (Hcode & mm & Hs2 & H1 & H2).
    split; [done|]. exists mm. split; [done|]. split; [done|by etrans].
  - destruct Hr as (Hcode & mm & Hs2 & H1 & H2). split; [done|]. exists mm. split; [done|]. split; [|done].
    etrans; [apply removed_names_subseteq|done].
Qed.

Lemma removeAllPath_runs fuel cs c fs m :
  clean cs -> clean_comp c -> valid (path_of (cs ++ [c])%list) -> tree m -> serves rep fs m ->
  (0 < fuel)%nat -> depth_below (cs ++ [c])%list fuel m ->
  runs (removeAllPath clock fuel (path_of (cs ++ [c])%list)) fs (removes m (removed (path_of (cs ++ [c])%list) m)).
Proof.
  revert cs c fs m. induction fuel as [|fuel IH]; intros cs c fs m Hcs Hc Hv Ht Hs Hfuel Hdep; [lia|]. cbn [removeAllPath].
  assert (clean (cs ++ [c])%list) as Hcl by (apply Forall_app_2; [done|by apply Forall_singleton]).
  assert ((cs ++ [c])%list <> []) as Hne by by destruct cs.
  apply runs_bind, runs_dav_attempt. eapply runs_mono; [by apply (dav_lookup_runs valid good rep cs c fs m)|].
  intros r fs1 [Hs1 Hr]. destruct r as [pb|[[]| | | | |]|]; try done; cbn [dav_isNotFound].
  - destruct Hr as (e & He & ->). apply runs_bind. cbn [entryToProto pe_IsDirectory]. destruct (IsDirectory e) eqn:Ed.
    + apply runs_bind. eapply runs_mono; [by apply (listDirectory_runs (cs ++ [c])%list fs1 m)|].
      intros r fs2 [Hs2 Hl]. destruct r as [infos|[g| | | | |]|]; try done.
      2:{ split; [done|]. exists m. split; [done|]. split; [apply removed_subseteq|done]. }
      destruct Hl as [Hall Hns]. assert (forall n, n ∈ (ei_name <$> infos) -> clean_comp n /\ valid (path_of ((cs ++ [c]) ++ [n])%list) /\ (0 < fuel)%nat) as Hinfo.
      { intros n Hn. rewrite Forall_forall in Hns. destruct (Hns n Hn) as [Hcn [x Hx]]. split; [done|].
        split; [by destruct (serves_keyed valid good rep _ _ _ _ Hs2 Hx) as (_ & ? & _)|]. specialize (Hdep [n] x Hx).
        cbn in Hdep. specialize (Hdep ltac:(apply Forall_app_2; [done|by apply Forall_singleton])). lia. }
      assert (depth_below (cs ++ [c])%list (Datatypes.S fuel) m -> forall n, depth_below ((cs ++ [c]) ++ [n])%list fuel m) as Hdn.
      { intros Hd n ds x Hx Hclx. rewrite <- app_assoc in Hx, Hclx. specialize (Hd _ _ Hx Hclx). cbn in Hd. lia. }
      eapply runs_mono; [apply (remove_children_runs fuel (cs ++ [c])%list infos fs2 m); [done..| | |intros n _; by apply Hdn]|].
      * apply Forall_forall. intros n Hn. by destruct (Hinfo n Hn).
      * intros n fs3 m3 Hn Ht3 Hs3 Hd3. destruct (Hinfo n Hn) as (? & ? & ?). by apply IH.
      * set (ns := ei_name <$> infos) in *. intros r fs3 Hr. assert (delete (path_of (cs ++ [c])%list) (removed_names (cs ++ [c])%list ns m) = removed (path_of (cs ++ [c])%list) m) as <-.
        { apply delete_removed_names; [done|done|done|by unfold is_dir; rewrite He|done|]. apply Forall_forall. intros n Hn. by destruct (Hinfo n Hn). }
        destruct r as [u|[g| | | | |]|]; try done.
        -- eapply runs_mono; [by apply (dav_delete_runs cs c)|]. intros [u'|[g| | | | |]|] fs4 Hr4; try done.
           destruct Hr4 as (Hg & mm & H1 & H2 & H3). split; [done|]. exists mm. split_and!; [done..|]. etrans; [done|apply removed_names_subseteq].
        -- destruct Hr as (Hg & mm & H1 & H2 & H3). split; [done|]. exists mm. split_and!; [done| |done]. etrans; [apply delete_subseteq|done].
    + apply runs_ret. rewrite <- (delete_file m (cs ++ [c])%list) by (done || (unfold is_dir; by rewrite ?He, ?Hr)). by apply dav_delete_runs.
  - apply runs_ret. cbn. rewrite <- (delete_file m (cs ++ [c])%list) by (done || (unfold is_dir; by rewrite ?He, ?Hr)). by rewrite delete_id.
  - apply runs_fail. split; [by left|]. exists m. split; [done|]. split; [apply removed_subseteq|done].
Qed.
(** *** The operation *)

Context (root : string) (Hroot : clean_path root) (Hslash : root <> "/").

(** The root is taken for a directory: what is reached from an entry right below it goes, and
    the root stays. *)
Definition below_root (m : gmap string Entry) (q : string) : Prop :=
  inside root q /\
  match drop (length (comps root)) (comps q) with [] => False | n :: ds => linked m (comps root ++ [n])%list ds = true end.

#[export] Instance below_root_dec m q : Decision (below_root m q).
Proof. unfold below_root. apply and_dec; [apply _|]. case_match; apply _. Defined.

Definition removed_all (full : string) (m : gmap string Entry) : gmap string Entry :=
  if decide (full = root) then filter (fun x => ~ below_root m (fst x)) m else removed full m.

Lemma removed_names_root rs ns m :
  tree m -> rs <> [] -> clean rs -> root = path_of rs -> all_names rs m ns -> Forall clean_comp ns -> removed_names rs ns m = removed_all root m.
Proof.
  intros Ht Hne Hrs Er Hall Hns. unfold removed_all. rewrite decide_True by done. apply map_eq. intros p. rewrite removed_names_lookup by done.
  destruct (m !! p) as [e|] eqn:E.
  2:{ rewrite (proj2 (map_lookup_filter_None _ _ _)) by by left. by case_decide. }
  destruct (tr_clean m Ht p e E) as [(ps & Hps & ->) Hp]. apply path_nonroot in Hp; [|done].
  assert (below_root m (path_of ps) <-> exists n ds, ps = (rs ++ n :: ds)%list /\ linked m (rs ++ [n])%list ds = true) as Hbelow.
  { unfold below_root. rewrite Er, inside_path, !comps_path by done. split.
    - intros [(ds & ->) Hl]. rewrite drop_app_length in Hl. destruct ds as [|n ds]; [done|]. by exists n, ds.
    - intros (n & ds & -> & Hl). rewrite drop_app_length. split; [by eexists|done]. }
  case_decide as Hex; symmetry.
  - apply map_lookup_filter_None. right. intros e' _ []. apply Hbelow. by apply (names_reached m rs ns ps).
  - apply map_lookup_filter_Some. split; [done|]. cbn [fst]. rewrite Hbelow. intros (n & ds & -> & Hl). apply Hex.
    by apply (names_cover m rs ns (n :: ds) e).
Qed.

End spec.

(** ** A tree in the store in memory *)

Definition ex_tree : gmap string Entry :=
  {["/webdav" := dir_entry 1 "/webdav"; "/webdav/a" := dir_entry 1 "/webdav/a"; "/webdav/a/b" := ex_file "/webdav/a/b";
    "/webdav/ab" := ex_file "/webdav/ab"]}.

Lemma ex_tree_clean : map_Forall (fun p e => e_FullPath e = p /\ p = path_of (comps p) /\ p <> "/" /\ Forall clean_comp (comps p)) ex_tree.
Proof. apply (bool_decide_unpack _). vm_compute. exact I. Qed.

Lemma ex_tree_ok : tree ex_tree.
Proof.
  split.
  - intros p e Hp. destruct (ex_tree_clean p e Hp) as (_ & E & Hne & Hc). split; [|done]. by exists (comps p).
  - intros dir. trans (base.size ex_tree); [|vm_compute; lia].
    apply (dom_subseteq_size (D := gset string)), subseteq_dom, map_filter_subseteq.
Qed.


(** ** Losses *)

Definition at_path (p : string) (fs : FilerServer MemStore) : option Entry := f ← srv_filer fs; st ← f_Store f; ms_entries st !! p.

(** Moving a directory leaves its entries at the old path, where nothing lists them. *)
Theorem rename_leaves_children :
  let '(r, fs') := Rename (H := mem_store mem_order) (fun _ => 5) "/webdav" "a" "z" (ex_server ex_tree) in
  r = Ret tt /\ is_Some (at_path "/webdav/z" fs') /\ at_path "/webdav/z/b" fs' = None /\ is_Some (at_path "/webdav/a/b" fs') /\
  at_path "/webdav/a" fs' = None.
Proof. vm_compute. repeat split; eexists; reflexivity. Qed.

(** And so removing the old path succeeds and leaves them. *)
Theorem renamed_children_stay :
  let '(_, fs1) := Rename (H := mem_store mem_order) (fun _ => 5) "/webdav" "a" "z" (ex_server ex_tree) in
  let '(r, fs2) := RemoveAll (H := mem_store mem_order) (fun _ => 5) "/webdav" 2 "a" fs1 in
  r = Ret tt /\ is_Some (at_path "/webdav/a/b" fs2).
Proof. vm_compute. split; [reflexivity|]. eexists. reflexivity. Qed.

(** A directory made at the path of a file takes its place. *)
Theorem mkdir_replaces_file :
  let '(r, fs') := Mkdir (H := mem_store mem_order) (fun _ => 5) "/webdav" "ab" 493 (ex_server ex_tree) in
  r = Ret tt /\ (IsDirectory <$> at_path "/webdav/ab" (ex_server ex_tree)) = Some false /\ (IsDirectory <$> at_path "/webdav/ab" fs') = Some true /\
  (e_Content <$> at_path "/webdav/ab" fs') = Some [].
Proof. vm_compute. repeat split. Qed.

(** A file whose data is in chunks is opened without data, and writing one byte to it drops
    the chunks. *)
Theorem chunked_file_lost :
  let e := set_Chunks [Some (mkChunk "3,01637037d6" 0 5 0 "" false)] (set_FullPath "/webdav/ab" (plain_entry "/webdav/ab" zero_attr)) in
  let '(r, fs') := session (H := mem_store mem_order) (fun _ => 5) "/webdav" "ab" O_RDWR 0 [FRead 10; FWrite [33]] (ex_server (<["/webdav/ab" := e]> ex_tree)) in
  r = Ret [RErr DavEOF; RNum 1] /\ (e_Chunks <$> at_path "/webdav/ab" fs') = Some [] /\ (e_Content <$> at_path "/webdav/ab" fs') = Some [33].
Proof. vm_compute. repeat split. Qed.

(** An empty directory read as a whole answers with the end of the file and not with an empty
    list. *)
Theorem empty_directory_eof :
  let '(r, fs') := OpenFile (H := mem_store mem_order) (fun _ => 5) "/webdav" "" 0 0 (ex_server {["/webdav" := dir_entry 1 "/webdav"]}) in
  match r with
  | Ret f => fst (fst (ff_Readdir (H := mem_store mem_order) 0 f fs')) = Fail DavEOF
  | _ => False
  end.
Proof. vm_compute. reflexivity. Qed.
