(* ===== verification/Quota.v ===== *)
(** * Quota: limits on the bytes of users and buckets

    Models [goblob/quota/quota.go] over the key-value part of a store, and its use by
    [handlePutObject] and [handleDeleteObject] of [goblob/s3api/object_handlers.go].  The
    JSON text of a quota is a parameter. *)

From S2P Require Import Prelude GoStrings GoPath FilerStore MemoryStore GoText.

#[local] Open Scope Z_scope.
#[local] Open Scope string_scope.

Record Quota := mkQuota { q_MaxBytes : Z; q_UsedBytes : Z }.

#[export] Instance Quota_dec : EqDecision Quota.
Proof. solve_decision. Defined.

Definition no_quota : Quota := mkQuota 0 0.

Inductive quota_err :=
| ErrQuotaExceeded (scope identifier : string) (maxBytes usedBytes required : Z)
| ErrQuotaStore (e : store_err)
| ErrQuotaJson (msg : string)
| ErrQuotaNotConfigured.

Definition userKey (userID : string) : string := "quota:user:" +:+ TrimSpace userID.
Definition bucketKey (bucket : string) : string := "quota:bucket:" +:+ TrimSpace bucket.

(** [if q.UsedBytes < 0 { q.UsedBytes = 0 }] *)
Definition clamp (q : Quota) : Quota :=
  if decide (q_UsedBytes q < 0) then mkQuota (q_MaxBytes q) 0 else q.

Section manager.
Context {S : Type} `{KvStore S} (marshal : Quota -> string + string) (unmarshal : string -> string + Quota).

(** A manager without a store is [None]. *)
Definition getQuota (key : string) : GoM (option S) quota_err Quota := fun o =>
  match o with
  | None => (Fail ErrQuotaNotConfigured, None)
  | Some s =>
      match KvGet key s with
      | (Ret raw, s) =>
          (if decide (raw = "") then Ret no_quota else
           match unmarshal raw with
           | inl msg => Fail (ErrQuotaJson msg)
           | inr q => Ret (clamp q)
           end, Some s)
      | (Fail e, s) => (if isNotFound e then Ret no_quota else Fail (ErrQuotaStore e), Some s)
      | (Panic, s) => (Panic, Some s)
      end
  end.

(** [q] is [None] for a nil pointer. *)
Definition setQuota (key : string) (q : option Quota) : GoM (option S) quota_err unit := fun o =>
  match o with
  | None => (Fail ErrQuotaNotConfigured, None)
  | Some s =>
      match marshal (clamp (default no_quota q)) with
      | inl msg => (Fail (ErrQuotaJson msg), o)
      | inr payload =>
          match KvPut key payload s with
          | (Ret _, s) => (Ret tt, Some s)
          | (Fail e, s) => (Fail (ErrQuotaStore e), Some s)
          | (Panic, s) => (Panic, Some s)
          end
      end
  end.

Definition GetUserQuota (userID : string) := getQuota (userKey userID).
Definition SetUserQuota (userID : string) (q : option Quota) := setQuota (userKey userID) q.
Definition GetBucketQuota (bucket : string) := getQuota (bucketKey bucket).
Definition SetBucketQuota (bucket : string) (q : option Quota) := setQuota (bucketKey bucket) q.

(** [q.MaxBytes > 0 && q.UsedBytes+requiredBytes > q.MaxBytes], in 64 bits. *)
Definition exceeds (q : Quota) (requiredBytes : Z) : bool :=
  bool_decide (q_MaxBytes q > 0) && bool_decide (i64 (q_UsedBytes q + requiredBytes) > q_MaxBytes q).

(** The two checks differ in their key and scope; a quota that cannot be loaded allows. *)
Definition check_quota (scope identifier key : string) (requiredBytes : Z) : GoM (option S) quota_err unit := fun o =>
  if decide (TrimSpace identifier = "" \/ requiredBytes <= 0) then (Ret tt, o) else
  match getQuota key o with
  | (Ret q, o) =>
      (if exceeds q requiredBytes
       then Fail (ErrQuotaExceeded scope identifier (q_MaxBytes q) (q_UsedBytes q) requiredBytes)
       else Ret tt, o)
  | (Fail _, o) => (Ret tt, o)
  | (Panic, o) => (Panic, o)
  end.

Definition CheckUserQuota (userID : string) := check_quota "user" userID (userKey userID).
Definition CheckBucketQuota (bucket : string) := check_quota "bucket" bucket (bucketKey bucket).

Definition add_usage (identifier key : string) (bytes : Z) : GoM (option S) quota_err unit := fun o =>
  if decide (TrimSpace identifier = "" \/ bytes = 0) then (Ret tt, o) else
  match getQuota key o with
  | (Ret q, o) => setQuota key (Some (clamp (mkQuota (q_MaxBytes q) (i64 (q_UsedBytes q + bytes))))) o
  | (Fail e, o) => (Fail e, o)
  | (Panic, o) => (Panic, o)
  end.

Definition AddUserUsage (userID : string) := add_usage userID (userKey userID).
Definition AddBucketUsage (bucket : string) := add_usage bucket (bucketKey bucket).
Definition SubtractUserUsage (userID : string) (bytes : Z) := AddUserUsage userID (i64 (- bytes)).
Definition SubtractBucketUsage (bucket : string) (bytes : Z) := AddBucketUsage bucket (i64 (- bytes)).

(** ** The object handlers *)

Inductive put_result := Rejected | StoreFailed | Stored | Crashed.

(** The checks of [handlePutObject], which only an exceeded quota fails. *)
Definition put_checks (userID bucket : string) (size : Z) : GoM (option S) put_result unit := fun o =>
  match CheckUserQuota userID size o with
  | (Fail (ErrQuotaExceeded _ _ _ _ _), o) => (Fail Rejected, o)
  | (Panic, o) => (Panic, o)
  | (_, o) =>
      match CheckBucketQuota bucket size o with
      | (Fail (ErrQuotaExceeded _ _ _ _ _), o) => (Fail Rejected, o)
      | (Panic, o) => (Panic, o)
      | (_, o) => (Ret tt, o)
      end
  end.

(** The accounting of [handlePutObject], whose errors are logged. *)
Definition put_usage (userID bucket : string) (size : Z) : GoM (option S) put_result unit := fun o =>
  match AddBucketUsage bucket size o with
  | (Panic, o) => (Panic, o)
  | (_, o) =>
      if decide (userID <> "") then
        match AddUserUsage userID size o with
        | (Panic, o) => (Panic, o)
        | (_, o) => (Ret tt, o)
        end
      else (Ret tt, o)
  end.

(** What [handlePutObject] does with the quotas of a body that it has read: [ok] is the
    outcome of storing the object. *)
Definition put_object (ok : bool) (userID bucket : string) (size : Z) : option S -> put_result * option S := fun o =>
  match put_checks userID bucket size o with
  | (Fail r, o) => (r, o)
  | (Panic, o) => (Crashed, o)
  | (Ret _, o) =>
      if negb ok then (StoreFailed, o) else
      match put_usage userID bucket size o with
      | (Panic, o) => (Crashed, o)
      | (_, o) => (Stored, o)
      end
  end.

(** What [handleDeleteObject] does with the quotas after it has removed an object with a size
    and an owner. *)
Definition delete_object (owner requester bucket : string) (size : Z) (o : option S) : option S :=
  match SubtractBucketUsage bucket size o with
  | (Panic, o) => o
  | (_, o) =>
      let owner := if decide (owner = "") then requester else owner in
      if decide (owner <> "") then snd (SubtractUserUsage owner size o) else o
  end.
End manager.

(** ** Quotas as a map *)

Definition quota_key (key : string) : Prop := exists id, key = userKey id \/ key = bucketKey id.

Lemma userKey_bucketKey u b : userKey u <> bucketKey b.
Proof. unfold userKey, bucketKey. rewrite !append_cons. by intros [=]. Qed.

Definition int64 (x : Z) : Prop := - 2 ^ 63 <= x < 2 ^ 63.

(** The quota of a key, none when the map has none. *)
Definition quota_at (A : gmap string Quota) (key : string) : Quota := default no_quota (A !! key).

Section spec.
Context {S : Type} `{KvStore S} (rep : S -> gmap string string -> Prop) `{!KvReliable S rep}.
Context (marshal : Quota -> string + string) (unmarshal : string -> string + Quota).

(** The codec reads back the quotas it writes, and writes no empty text. *)
Definition codec_ok : Prop :=
  forall q, int64 (q_MaxBytes q) -> int64 (q_UsedBytes q) -> exists raw, marshal q = inr raw /\ raw <> "" /\ unmarshal raw = inr q.

(** The store has the quotas of [A]. *)
Definition holds (o : option S) (A : gmap string Quota) : Prop :=
  exists s m, o = Some s /\ rep s m /\
  forall key, quota_key key ->
    int64 (q_MaxBytes (quota_at A key)) /\ 0 <= q_UsedBytes (quota_at A key) < 2 ^ 63 /\
    match m !! key with
    | None => quota_at A key = no_quota
    | Some raw => if decide (raw = "") then quota_at A key = no_quota else unmarshal raw = inr (quota_at A key)
    end.

Lemma clamp_id q : 0 <= q_UsedBytes q -> clamp q = q.
Proof. intros Hq. unfold clamp. by rewrite decide_False by lia. Qed.

Lemma getQuota_spec key o A :
  holds o A -> quota_key key -> exists o', getQuota unmarshal key o = (Ret (quota_at A key), o') /\ holds o' A.
Proof.
  intros (s & m & -> & Hr & HA) Hk. destruct (KvGet_ok s m key Hr) as (s' & Hr' & E). exists (Some s'). split; [|by exists s', m].
  unfold getQuota. rewrite E. destruct (HA key Hk) as (_ & Hu & Hv). destruct (m !! key) as [raw|].
  - destruct (decide (raw = "")); [by rewrite Hv|]. rewrite Hv. by rewrite clamp_id by lia.
  - by rewrite isNotFound_missing, Hv.
Qed.

Context (Hcodec : codec_ok).

Lemma setQuota_spec key q o A :
  holds o A -> quota_key key -> int64 (q_MaxBytes q) -> 0 <= q_UsedBytes q < 2 ^ 63 ->
  exists o', setQuota marshal key (Some q) o = (Ret tt, o') /\ holds o' (<[key := q]> A).
Proof.
  intros (s & m & -> & Hr & HA) Hk H1 H2. destruct (Hcodec q H1) as (raw & Em & Hne & Eu); [unfold int64; lia|].
  destruct (KvPut_ok s m key raw Hr) as (s' & Hr' & E). exists (Some s'). split.
  - unfold setQuota. cbn [default id]. rewrite clamp_id by lia. by rewrite Em, E.
  - exists s', (<[key := raw]> m). split_and!; [done..|]. intros key' Hk'. unfold quota_at.
    destruct (decide (key = key')) as [<-|Hkk].
    + rewrite !lookup_insert_eq. cbn. rewrite decide_False by done. done.
    + rewrite !lookup_insert_ne by done. by apply HA.
Qed.

(** ** The operations on the map *)

Definition used_after (q : Quota) (bytes : Z) : Quota := clamp (mkQuota (q_MaxBytes q) (i64 (q_UsedBytes q + bytes))).

Lemma i64_range x : int64 (i64 x).
Proof. unfold int64, i64. pose proof (Z.mod_pos_bound (x + 2 ^ 63) (2 ^ 64)). lia. Qed.

Lemma used_after_range q bytes : 0 <= q_UsedBytes (used_after q bytes) < 2 ^ 63 /\ q_MaxBytes (used_after q bytes) = q_MaxBytes q.
Proof.
  unfold used_after, clamp. cbn. pose proof (i64_range (q_UsedBytes q + bytes)) as Hr. unfold int64 in Hr.
  destruct (decide _); cbn; lia.
Qed.

Definition abs_add (identifier key : string) (bytes : Z) (A : gmap string Quota) : gmap string Quota :=
  if decide (TrimSpace identifier = "" \/ bytes = 0) then A else <[key := used_after (quota_at A key) bytes]> A.

Definition abs_exceeds (identifier key : string) (required : Z) (A : gmap string Quota) : bool :=
  if decide (TrimSpace identifier = "" \/ required <= 0) then false else exceeds (quota_at A key) required.

Lemma check_quota_spec scope identifier key required o A :
  holds o A -> quota_key key ->
  exists r o', check_quota unmarshal scope identifier key required o = (r, o') /\ holds o' A /\
    if abs_exceeds identifier key required A
    then r = Fail (ErrQuotaExceeded scope identifier (q_MaxBytes (quota_at A key)) (q_UsedBytes (quota_at A key)) required)
    else r = Ret tt.
Proof.
  intros Ho Hk. unfold check_quota, abs_exceeds. destruct (decide _); [by eexists _, o|].
  destruct (getQuota_spec key o A Ho Hk) as (o' & -> & Ho'). eexists _, o'. split; [done|]. split; [done|]. by destruct (exceeds _ _).
Qed.

Lemma add_usage_spec identifier key bytes o A :
  holds o A -> quota_key key ->
  exists o', add_usage marshal unmarshal identifier key bytes o = (Ret tt, o') /\ holds o' (abs_add identifier key bytes A).
Proof.
  intros Ho Hk. unfold add_usage, abs_add. destruct (decide _); [by eexists|].
  destruct (getQuota_spec key o A Ho Hk) as (o' & -> & Ho').
  destruct (used_after_range (quota_at A key) bytes) as [Hu Hm].
  destruct (setQuota_spec key (used_after (quota_at A key) bytes) o' A Ho' Hk) as (o'' & E & Ho''); [|done|by exists o''].
  rewrite Hm. destruct Ho as (s & m & _ & _ & HA). by apply HA.
Qed.

Definition abs_put (ok : bool) (userID bucket : string) (size : Z) (A : gmap string Quota) : put_result * gmap string Quota :=
  if abs_exceeds userID (userKey userID) size A || abs_exceeds bucket (bucketKey bucket) size A then (Rejected, A) else
  if negb ok then (StoreFailed, A) else
  (Stored, abs_add userID (userKey userID) size (abs_add bucket (bucketKey bucket) size A)).

Lemma abs_add_blank key bytes A : abs_add "" key bytes A = A.
Proof. unfold abs_add. by rewrite decide_True by by left. Qed.

Lemma user_quota_key u : quota_key (userKey u).
Proof. exists u. by left. Qed.

Lemma bucket_quota_key b : quota_key (bucketKey b).
Proof. exists b. by right. Qed.

Lemma put_object_spec ok userID bucket size o A :
  holds o A ->
  exists o', put_object marshal unmarshal ok userID bucket size o = (fst (abs_put ok userID bucket size A), o') /\
    holds o' (snd (abs_put ok userID bucket size A)).
Proof.
  intros Ho. unfold put_object, put_checks, put_usage, abs_put, CheckUserQuota, CheckBucketQuota.
  destruct (check_quota_spec "user" userID (userKey userID) size o A Ho (user_quota_key _)) as (r1 & o1 & -> & Ho1 & H1).
  destruct (abs_exceeds userID (userKey userID) size A); subst r1; cbn [orb]; [by exists o1|].
  destruct (check_quota_spec "bucket" bucket (bucketKey bucket) size o1 A Ho1 (bucket_quota_key _)) as (r2 & o2 & -> & Ho2 & H2).
  destruct (abs_exceeds bucket (bucketKey bucket) size A); subst r2; [by exists o2|]. destruct ok; cbn [negb]; [|by exists o2].
  destruct (add_usage_spec bucket (bucketKey bucket) size o2 A Ho2 (bucket_quota_key _)) as (o3 & E3 & Ho3).
  unfold AddBucketUsage, AddUserUsage. rewrite E3. destruct (decide (userID <> "")) as [Hu|Hu].
  - destruct (add_usage_spec userID (userKey userID) size o3 _ Ho3 (user_quota_key _)) as (o4 & -> & Ho4). by exists o4.
  - apply dec_stable in Hu as ->. exists o3. cbn [fst snd]. by rewrite abs_add_blank.
Qed.

Definition abs_delete (owner requester bucket : string) (size : Z) (A : gmap string Quota) : gmap string Quota :=
  let user := if decide (owner = "") then requester else owner in
  abs_add user (userKey user) (i64 (- size)) (abs_add bucket (bucketKey bucket) (i64 (- size)) A).

Lemma delete_object_spec owner requester bucket size o A :
  holds o A -> holds (delete_object marshal unmarshal owner requester bucket size o) (abs_delete owner requester bucket size A).
Proof.
  intros Ho. unfold delete_object, abs_delete, SubtractBucketUsage, SubtractUserUsage, AddBucketUsage, AddUserUsage.
  destruct (add_usage_spec bucket (bucketKey bucket) (i64 (- size)) o A Ho (bucket_quota_key _)) as (o3 & -> & Ho3).
  set (user := if decide (owner = "") then requester else owner). destruct (decide (user <> "")) as [Hu|Hu].
  - destruct (add_usage_spec user (userKey user) (i64 (- size)) o3 _ Ho3 (user_quota_key _)) as (o4 & -> & Ho4). done.
  - apply dec_stable in Hu as ->. by rewrite abs_add_blank.
Qed.
End spec.

(** ** Histories of requests *)

Inductive quota_op :=
| QPut (ok : bool) (userID bucket : string) (size : Z)
| QDelete (owner requester bucket : string) (size : Z).

(** Objects are smaller than [2^62] bytes. *)
Definition quota_op_wf (op : quota_op) : Prop :=
  match op with QPut _ _ _ size | QDelete _ _ _ size => 0 <= size < 2 ^ 62 end.

(** No quota with a limit is used beyond it; limits are at most [2^62]. *)
Definition within (A : gmap string Quota) : Prop :=
  forall key, quota_key key -> 0 <= q_UsedBytes (quota_at A key) /\ q_MaxBytes (quota_at A key) <= 2 ^ 62 /\
    (0 < q_MaxBytes (quota_at A key) -> q_UsedBytes (quota_at A key) <= q_MaxBytes (quota_at A key)).

Lemma quota_at_add_ne identifier key bytes A key' :
  key <> key' -> quota_at (abs_add identifier key bytes A) key' = quota_at A key'.
Proof. intros Hne. unfold abs_add, quota_at. destruct (decide _); [done|]. by rewrite lookup_insert_ne. Qed.

Lemma quota_at_add identifier key bytes A :
  quota_at (abs_add identifier key bytes A) key =
  if decide (TrimSpace identifier = "" \/ bytes = 0) then quota_at A key else used_after (quota_at A key) bytes.
Proof. unfold abs_add. destruct (decide _); [done|]. unfold quota_at at 1. by rewrite lookup_insert_eq. Qed.

Lemma add_within identifier key size A :
  quota_key key -> within A -> 0 <= size < 2 ^ 62 -> abs_exceeds identifier key size A = false ->
  within (abs_add identifier key size A).
Proof.
  intros Hk HA Hs Hex key' Hk'. destruct (decide (key = key')) as [<-|Hne]; [|rewrite quota_at_add_ne by done; by apply HA].
  rewrite quota_at_add. unfold abs_exceeds in Hex. destruct (HA key Hk) as (H0 & H1 & H2).
  destruct (decide (TrimSpace identifier = "" \/ size = 0)) as [|Hn]; [done|]. rewrite decide_False in Hex by (intros [|]; [tauto|lia]).
  destruct (used_after_range (quota_at A key) size) as [Hu Hm]. rewrite Hm. split_and!; [lia|done|]. intros Hpos.
  specialize (H2 Hpos). unfold exceeds in Hex. rewrite bool_decide_eq_true_2 in Hex by lia. cbn [andb] in Hex.
  apply bool_decide_eq_false in Hex. unfold used_after, clamp. cbn. destruct (decide _); cbn; lia.
Qed.

Lemma subtract_within identifier key size A :
  quota_key key -> (forall key, quota_key key -> q_UsedBytes (quota_at A key) < 2 ^ 63) -> within A -> 0 <= size < 2 ^ 62 ->
  within (abs_add identifier key (i64 (- size)) A).
Proof.
  intros Hk HU HA Hs key' Hk'. destruct (decide (key = key')) as [<-|Hne]; [|rewrite quota_at_add_ne by done; by apply HA].
  rewrite quota_at_add. destruct (HA key Hk) as (H0 & H1 & H2). specialize (HU key Hk). destruct (decide _); [done|].
  destruct (used_after_range (quota_at A key) (i64 (- size))) as [Hu Hm]. rewrite Hm. split_and!; [lia|done|]. intros Hpos.
  specialize (H2 Hpos). unfold used_after, clamp. cbn. rewrite !i64_small by (rewrite ?i64_small; lia).
  destruct (decide _); cbn; lia.
Qed.

Section histories.
Context {S : Type} `{KvStore S} (rep : S -> gmap string string -> Prop) `{!KvReliable S rep}.
Context (marshal : Quota -> string + string) (unmarshal : string -> string + Quota).

Definition exec_quota (op : quota_op) (o : option S) : option put_result * option S :=
  match op with
  | QPut ok userID bucket size => let '(r, o) := put_object marshal unmarshal ok userID bucket size o in (Some r, o)
  | QDelete owner requester bucket size => (None, delete_object marshal unmarshal owner requester bucket size o)
  end.

Definition abs_quota (op : quota_op) (A : gmap string Quota) : option put_result * gmap string Quota :=
  match op with
  | QPut ok userID bucket size => let '(r, A) := abs_put ok userID bucket size A in (Some r, A)
  | QDelete owner requester bucket size => (None, abs_delete owner requester bucket size A)
  end.

Fixpoint run_quota (ops : list quota_op) (o : option S) : list (option put_result) * option S :=
  match ops with
  | [] => ([], o)
  | op :: ops => let '(r, o) := exec_quota op o in let '(rs, o) := run_quota ops o in (r :: rs, o)
  end.

Fixpoint run_abs (ops : list quota_op) (A : gmap string Quota) : list (option put_result) * gmap string Quota :=
  match ops with
  | [] => ([], A)
  | op :: ops => let '(r, A) := abs_quota op A in let '(rs, A) := run_abs ops A in (r :: rs, A)
  end.

Lemma exec_quota_spec op o A :
  codec_ok marshal unmarshal -> holds rep unmarshal o A -> quota_op_wf op -> within A ->
  exists o', exec_quota op o = (fst (abs_quota op A), o') /\ holds rep unmarshal o' (snd (abs_quota op A)) /\
    within (snd (abs_quota op A)).
Proof.
  intros Hc Ho Hwf HA. destruct op as [ok u b size|owner requester b size]; cbn [exec_quota abs_quota quota_op_wf] in *.
  - destruct (put_object_spec rep marshal unmarshal Hc ok u b size o A Ho) as (o' & -> & Ho'). exists o'.
    destruct (abs_put ok u b size A) as [r A'] eqn:E. cbn in *. split_and!; [done..|].
    unfold abs_put in E. destruct (abs_exceeds u (userKey u) size A) eqn:Eu; [by injection E as <- <-|].
    destruct (abs_exceeds b (bucketKey b) size A) eqn:Eb; [by injection E as <- <-|].
    destruct ok; [|by injection E as <- <-]. injection E as <- <-.
    apply add_within; [apply user_quota_key|by apply add_within; [apply bucket_quota_key|..]|done|].
    revert Eu. unfold abs_exceeds. rewrite quota_at_add_ne; [done|]. intros E. by destruct (userKey_bucketKey u b).
  - eexists. split; [done|]. pose proof (delete_object_spec rep marshal unmarshal Hc owner requester b size o A Ho) as Ho'.
    split; [done|]. assert (forall key, quota_key key -> q_UsedBytes (quota_at A key) < 2 ^ 63) as HU.
    { destruct Ho as (s & m & _ & _ & H'). intros key Hk. by apply H'. }
    unfold abs_delete. cbn. apply subtract_within; [apply user_quota_key| |by apply subtract_within; [apply bucket_quota_key|..]|done].
    intros key Hk. destruct (decide (bucketKey b = key)) as [<-|Hne]; [|rewrite quota_at_add_ne by done; by apply HU].
    rewrite quota_at_add. destruct (decide _); [by apply HU|]. apply used_after_range.
Qed.

(** C32: over any history of uploads and deletions of objects, one at a time and with a
    store that answers, no user and no bucket with a limit is charged with more bytes
    than the limit, and the requests are answered as quotas kept in a map would have them
    answered: an upload is rejected exactly when it would pass the limit of its user or
    of its bucket. *)
Theorem quota_respected (ops : list quota_op) (o : option S) (A : gmap string Quota) :
  codec_ok marshal unmarshal -> holds rep unmarshal o A -> Forall quota_op_wf ops -> within A ->
  exists o', run_quota ops o = (fst (run_abs ops A), o') /\
    holds rep unmarshal o' (snd (run_abs ops A)) /\ within (snd (run_abs ops A)).
Proof.
  intros Hc Ho Hops. revert o A Ho. induction Hops as [|op ops Hop _ IH]; intros o A Ho HA; [by exists o|].
  cbn [run_quota run_abs]. destruct (exec_quota_spec op o A Hc Ho Hop HA) as (o1 & -> & Ho1 & HA1).
  destruct (abs_quota op A) as [r A1]. cbn in Ho1, HA1. destruct (IH o1 A1 Ho1 HA1) as (o2 & -> & Ho2 & HA2).
  destruct (run_abs ops A1) as [rs A2]. by exists o2.
Qed.
End histories.

#[export] Instance mem_kv_reliable : KvReliable MemStore mem_kv_rep.
Proof.
  unfold mem_kv_rep. split.
  - intros s m k <-. exists s. split; [done|]. cbn. unfold mem_KvGet. by destruct (ms_kv s !! k).
  - intros s m k v <-. eexists (mkMemStore _ _ _). split; reflexivity.
  - intros s m k <-. eexists (mkMemStore _ _ _). split; reflexivity.
Qed.

(** *** A codec

    The numbers with a comma between them. *)

Definition comma_marshal (q : Quota) : string + string := inr (Itoa (q_MaxBytes q) +:+ "," +:+ Itoa (q_UsedBytes q)).

Definition comma_unmarshal (raw : string) : string + Quota :=
  match split_byte ","%char (chars raw) with
  | [a; b] =>
      match Atoi (str a), Atoi (str b) with
      | Some x, Some y => inr (mkQuota x y)
      | _, _ => inl "invalid number"
      end
  | _ => inl "invalid quota"
  end.

Lemma Itoa_no_comma n : ","%char ∉ chars (Itoa n).
Proof.
  unfold Itoa. destruct (decide (n < 0)); rewrite ?chars_append, chars_str; [intros [Hin|Hin]%elem_of_app|intros Hin].
  - by apply list_elem_of_singleton in Hin.
  - revert Hin. apply FormatUint_no_byte; (lia || (left; vm_compute; reflexivity)).
  - revert Hin. apply FormatUint_no_byte; (lia || (left; vm_compute; reflexivity)).
Qed.

Lemma Atoi_Itoa_int64 n : int64 n -> Atoi (Itoa n) = Some n.
Proof.
  intros Hn. unfold int64 in Hn. destruct (decide (n < 0)) as [Hneg|]; [|apply Atoi_Itoa; lia].
  unfold Itoa. rewrite decide_True by done. rewrite append_cons, append_nil_l. cbn [Atoi]. rewrite chars_str.
  rewrite ParseUint_format by lia. cbn. rewrite decide_True by lia. f_equal. lia.
Qed.

Lemma comma_codec : codec_ok comma_marshal comma_unmarshal.
Proof.
  intros [x y] Hx Hy. cbn in *. eexists. split; [done|]. cbn. split.
  - intros E%(f_equal chars). rewrite !chars_append in E. by destruct (chars (Itoa x)).
  - unfold comma_unmarshal. rewrite !chars_append. cbn [String.list_ascii_of_string app].
    rewrite split_byte_app by apply Itoa_no_comma. rewrite split_byte_nosep by apply Itoa_no_comma.
    rewrite !str_chars, !Atoi_Itoa_int64 by done. done.
Qed.

Definition ex_quotas : gmap string Quota := {[userKey "u" := mkQuota 100 40]}.

Definition ex_quota_store : option MemStore := Some (mkMemStore "memory" ∅ {[userKey "u" := "100,40"]}).

(** The second upload is rejected, also after a deletion made room for less. *)
Lemma quota_respected_witness :
  let ops := [QPut true "u" "b" 60; QPut true "u" "b" 1; QDelete "u" "" "b" 60; QPut true "u" "b" 61] in
  fst (run_quota comma_marshal comma_unmarshal ops ex_quota_store) = [Some Stored; Some Rejected; None; Some Rejected] /\
  within (snd (run_abs ops ex_quotas)).
Proof.
  intros ops. assert (forall key, quota_at ex_quotas key = if decide (userKey "u" = key) then mkQuota 100 40 else no_quota) as Hq.
  { intros key. unfold quota_at, ex_quotas. destruct (decide _) as [<-|]; [by rewrite lookup_singleton_eq|by rewrite lookup_singleton_ne]. }
  destruct (quota_respected mem_kv_rep comma_marshal comma_unmarshal ops ex_quota_store ex_quotas) as (o' & -> & _ & Hw).
  - exact comma_codec.
  - eexists _, _. split; [reflexivity|]. split; [reflexivity|]. intros key _. rewrite Hq. cbn [ms_kv].
    destruct (decide (userKey "u" = key)) as [<-|Hne].
    + rewrite lookup_singleton_eq. split; [unfold int64; cbn; lia|]. split; [cbn; lia|]. vm_compute. reflexivity.
    + rewrite lookup_singleton_ne by exact Hne. split; [unfold int64; cbn; lia|]. split; [cbn; lia|reflexivity].
  - repeat (apply List.Forall_cons; [vm_compute; split; congruence|]). apply List.Forall_nil.
  - intros key _. rewrite Hq. destruct (decide _); cbn; lia.
  - split; [vm_compute; reflexivity|exact Hw].
Defined.

(** ** Where limits are lost *)

(** Two uploads that check their quota before either is charged pass the limit together. *)
Lemma concurrent_puts_exceed :
  let o := ex_quota_store in
  let '(r1, o) := CheckUserQuota comma_unmarshal "u" 60 o in
  let '(r2, o) := CheckUserQuota comma_unmarshal "u" 60 o in
  let '(_, o) := AddUserUsage comma_marshal comma_unmarshal "u" 60 o in
  let '(_, o) := AddUserUsage comma_marshal comma_unmarshal "u" 60 o in
  r1 = Ret tt /\ r2 = Ret tt /\ fst (GetUserQuota comma_unmarshal "u" o) = Ret (mkQuota 100 160).
Proof. vm_compute. auto. Qed.

(** An object that is written twice is charged twice and released once. *)
Lemma overwrite_leaks_usage :
  let o := ex_quota_store in
  let '(_, o) := put_object comma_marshal comma_unmarshal true "u" "b" 20 o in
  let '(_, o) := put_object comma_marshal comma_unmarshal true "u" "b" 20 o in
  fst (GetUserQuota comma_unmarshal "u" (delete_object comma_marshal comma_unmarshal "u" "" "b" 20 o)) = Ret (mkQuota 100 60).
Proof. vm_compute. auto. Qed.

(** A store in memory whose next reads fail with the given errors. *)
Record Flaky := mkFlaky { fl_map : gmap string string; fl_errors : list (option string) }.

#[export] Instance flaky_kv : KvStore Flaky := {
  KvGet k s :=
    match fl_errors s with
    | Some msg :: errs => (Fail (ErrOther msg), mkFlaky (fl_map s) errs)
    | _ => (match fl_map s !! k with Some v => Ret v | None => Fail ErrNotFound end, mkFlaky (fl_map s) (tail (fl_errors s)))
    end;
  KvPut k v s := (Ret tt, mkFlaky (<[k := v]> (fl_map s)) (fl_errors s));
  KvDelete k s := (Ret tt, mkFlaky (delete k (fl_map s)) (fl_errors s));
}.

(** An error of the store whose text happens to contain the words not found, such as
    one of name resolution, is taken for a missing quota: charging a user then overwrites
    the quota with one that has no limit, while any other error leaves it alone. *)
Theorem quota_limit_erased :
  let store errs := Some (mkFlaky {[userKey "u" := "100,40"]} errs) in
  let charge errs := AddUserUsage comma_marshal comma_unmarshal "u" 10 (store errs) in
  let quota r := fst (GetUserQuota comma_unmarshal "u" (snd r)) in
  quota (charge []) = Ret (mkQuota 100 50) /\
  fst (charge [Some "connection refused"]) = Fail (ErrQuotaStore (ErrOther "connection refused")) /\
  quota (charge [Some "connection refused"]) = Ret (mkQuota 100 40) /\
  fst (charge [Some "dial tcp: Host Not Found"]) = Ret tt /\
  quota (charge [Some "dial tcp: Host Not Found"]) = Ret (mkQuota 0 10).
Proof. vm_compute. auto. Qed.
