(* ===== verification/Dedup.v ===== *)
(** * Dedup: reference counts of blobs with the same content

    Models [goblob/storage/dedup/dedup.go] over the key-value part of a store.  The hash is
    a parameter. *)

From S2P Require Import Prelude GoStrings GoPath FilerStore MemoryStore GoText Quota.

#[local] Open Scope Z_scope.
#[local] Open Scope string_scope.

Definition hashKey (hash : string) : string := "dedup:" +:+ hash.
Definition refKey (fid : string) : string := "dedup_ref:" +:+ fid.
Definition reverseKey (fid : string) : string := "dedup_rev:" +:+ fid.

Inductive dedup_err :=
| ErrDedupNotConfigured
| ErrFidRequired
| ErrDedupStore (e : store_err).

(** The error of [strconv.Atoi], with its text: it quotes the value, which is all that
    [isNotFound] could find in it.  A number out of range has another ending. *)
Definition atoi_error (raw : string) : store_err :=
  ErrOther ("strconv.Atoi: parsing " +:+ dquote +:+ raw +:+ dquote +:+ ": invalid syntax").

Section dedup.
Context {S : Type} `{KvStore S} (ComputeHash : bytes -> string).

Definition currentRefCountLocked (fid : string) : GoM S store_err Z := fun s =>
  match KvGet (refKey fid) s with
  | (Ret raw, s) =>
      (if decide (raw = "") then Ret 0 else
       match Atoi raw with
       | None => Fail (atoi_error raw)
       | Some count => Ret (if decide (count < 0) then 0 else count)
       end, s)
  | (Fail e, s) => (Fail e, s)
  | (Panic, s) => (Panic, s)
  end.

Definition incrementRefCountLocked (fid : string) : GoM S store_err unit := fun s =>
  match currentRefCountLocked fid s with
  | (Ret ref, s) => KvPut (refKey fid) (Itoa (i64 (ref + 1))) s
  | (Fail e, s) => if isNotFound e then KvPut (refKey fid) (Itoa 1) s else (Fail e, s)
  | (Panic, s) => (Panic, s)
  end.

(** The file id and whether it was there. *)
Definition lookup_or_create (data : bytes) : GoM S store_err (string * bool) := fun s =>
  match KvGet (hashKey (ComputeHash data)) s with
  | (Ret fid, s) =>
      if decide (fid = "") then (Ret ("", false), s) else
      match incrementRefCountLocked fid s with
      | (Ret _, s) => (Ret (fid, true), s)
      | (Fail e, s) => (Fail e, s)
      | (Panic, s) => (Panic, s)
      end
  | (Fail e, s) => (if isNotFound e then Ret ("", false) else Fail e, s)
  | (Panic, s) => (Panic, s)
  end.

Definition record_stored (fid : string) (data : bytes) : GoM S store_err unit :=
  let hash := ComputeHash data in
  KvPut (hashKey hash) fid;;
  KvPut (refKey fid) "1";;
  KvPut (reverseKey fid) hash.

(** Errors of the two deletions at the end are dropped. *)
Definition decrement_ref_count (fid : string) : GoM S store_err Z := fun s =>
  match currentRefCountLocked fid s with
  | (Fail e, s) => (if isNotFound e then Ret 0 else Fail e, s)
  | (Panic, s) => (Panic, s)
  | (Ret count, s) =>
      if decide (count <= 1) then
        match KvDelete (refKey fid) s with
        | (Panic, s) => (Panic, s)
        | (r, s) =>
            if (match r with Fail e => negb (isNotFound e) | _ => false end)
            then (match r with Fail e => Fail e | _ => Ret 0 end, s)
            else
            match KvGet (reverseKey fid) s with
            | (Ret hash, s) =>
                match KvDelete (hashKey hash) s with
                | (Panic, s) => (Panic, s)
                | (_, s) =>
                    match KvDelete (reverseKey fid) s with
                    | (Panic, s) => (Panic, s)
                    | (_, s) => (Ret 0, s)
                    end
                end
            | (Fail _, s) => (Ret 0, s)
            | (Panic, s) => (Panic, s)
            end
        end
      else
        match KvPut (refKey fid) (Itoa (count - 1)) s with
        | (Ret _, s) => (Ret (count - 1), s)
        | (Fail e, s) => (Fail e, s)
        | (Panic, s) => (Panic, s)
        end
  end.

Definition get_ref_count (fid : string) : GoM S store_err Z := fun s =>
  match currentRefCountLocked fid s with
  | (Fail e, s) => (if isNotFound e then Ret 0 else Fail e, s)
  | r => r
  end.

(** A deduplicator without a store is [None]. *)
Definition with_kv {A} (m : GoM S store_err A) : GoM (option S) dedup_err A := fun o =>
  match o with
  | None => (Fail ErrDedupNotConfigured, None)
  | Some s =>
      let '(r, s) := m s in
      (match r with Ret a => Ret a | Fail e => Fail (ErrDedupStore e) | Panic => Panic end, Some s)
  end.

Definition LookupOrCreate (data : bytes) : GoM (option S) dedup_err (string * bool) :=
  with_kv (lookup_or_create data).

Definition RecordStored (fid : string) (data : bytes) : GoM (option S) dedup_err unit := fun o =>
  match o with
  | None => (Fail ErrDedupNotConfigured, None)
  | Some _ => if decide (TrimSpace fid = "") then (Fail ErrFidRequired, o) else with_kv (record_stored fid data) o
  end.

Definition GetRefCount (fid : string) : GoM (option S) dedup_err Z := with_kv (get_ref_count fid).

Definition DecrementRefCount (fid : string) : GoM (option S) dedup_err Z :=
  with_kv (decrement_ref_count fid).

(** The protocol the comments of [LookupOrCreate] and [RecordStored] describe for a client
    that stores a blob: after a miss it writes the data under a new file id and records it.
    Nothing in the repository calls the package, so this is not a translation of code. *)
Definition store_blob (newFid : string) (data : bytes) : GoM (option S) dedup_err (string * bool) := fun o =>
  match LookupOrCreate data o with
  | (Ret (_, false), o) =>
      match RecordStored newFid data o with
      | (Ret _, o) => (Ret (newFid, false), o)
      | (Fail e, o) => (Fail e, o)
      | (Panic, o) => (Panic, o)
      end
  | r => r
  end.
End dedup.

(** ** Live blobs *)

(** The live file ids with the hash of their content and the number of references. *)
Abbreviation live := (gmap string (string * Z)).

Lemma hash_ref h f : hashKey h <> refKey f.
Proof. unfold hashKey, refKey. by rewrite !append_cons. Qed.
Lemma hash_rev h f : hashKey h <> reverseKey f.
Proof. unfold hashKey, reverseKey. by rewrite !append_cons. Qed.
Lemma ref_rev f g : refKey f <> reverseKey g.
Proof. unfold refKey, reverseKey. rewrite !append_cons. by intros [=]. Qed.
Lemma hashKey_inj h h' : hashKey h = hashKey h' -> h = h'.
Proof. apply (inj (String.append "dedup:")). Qed.
Lemma refKey_inj h h' : refKey h = refKey h' -> h = h'.
Proof. apply (inj (String.append "dedup_ref:")). Qed.
Lemma reverseKey_inj h h' : reverseKey h = reverseKey h' -> h = h'.
Proof. apply (inj (String.append "dedup_rev:")). Qed.

(** The store has exactly the metadata of the live blobs. *)
Record dedup_inv (m : gmap string string) (L : live) : Prop := {
  di_live : forall fid h n, L !! fid = Some (h, n) ->
    fid <> "" /\ 1 <= n < 2 ^ 62 /\ m !! refKey fid = Some (Itoa n) /\ m !! reverseKey fid = Some h /\ m !! hashKey h = Some fid;
  di_hash : forall h, (forall fid n, L !! fid <> Some (h, n)) -> m !! hashKey h = None;
  di_dead : forall fid, L !! fid = None -> m !! refKey fid = None /\ m !! reverseKey fid = None;
}.

(** Two live blobs have different hashes. *)
Lemma live_unique m L f f' h n n' : dedup_inv m L -> L !! f = Some (h, n) -> L !! f' = Some (h, n') -> f = f'.
Proof.
  intros Hinv Hf Hf'. destruct (di_live _ _ Hinv _ _ _ Hf) as (_ & _ & _ & _ & Hk), (di_live _ _ Hinv _ _ _ Hf') as (_ & _ & _ & _ & Hk').
  congruence.
Qed.

Ltac key_neq :=
  match goal with
  | |- hashKey _ <> refKey _ => apply hash_ref
  | |- refKey _ <> hashKey _ => apply not_eq_sym, hash_ref
  | |- hashKey _ <> reverseKey _ => apply hash_rev
  | |- reverseKey _ <> hashKey _ => apply not_eq_sym, hash_rev
  | |- refKey _ <> reverseKey _ => apply ref_rev
  | |- reverseKey _ <> refKey _ => apply not_eq_sym, ref_rev
  | |- refKey _ <> refKey _ => let E := fresh in intros E%refKey_inj; congruence
  | |- reverseKey _ <> reverseKey _ => let E := fresh in intros E%reverseKey_inj; congruence
  | |- hashKey _ <> hashKey _ => let E := fresh in intros E%hashKey_inj; congruence
  end.

Lemma inv_set_count m L fid h n n' :
  dedup_inv m L -> L !! fid = Some (h, n) -> 1 <= n' < 2 ^ 62 ->
  dedup_inv (<[refKey fid := Itoa n']> m) (<[fid := (h, n')]> L).
Proof.
  intros Hinv Hf Hn. split.
  - intros f h' n'' [[<- [= <- <-]]|[Hne Hf']]%lookup_insert_Some.
    + destruct (di_live _ _ Hinv _ _ _ Hf) as (? & _ & _ & Hr & Hh). rewrite lookup_insert_eq, !lookup_insert_ne by key_neq. done.
    + destruct (di_live _ _ Hinv _ _ _ Hf') as (? & ? & ? & ? & ?). rewrite !lookup_insert_ne by key_neq. done.
  - intros h' Hh'. rewrite lookup_insert_ne by key_neq. apply (di_hash _ _ Hinv). intros f n'' Hf'.
    destruct (decide (f = fid)) as [->|Hne].
    + apply (Hh' fid n'). rewrite lookup_insert_eq. congruence.
    + apply (Hh' f n''). by rewrite lookup_insert_ne.
  - intros f [Hf' Hne]%lookup_insert_None. rewrite !lookup_insert_ne by key_neq. by apply (di_dead _ _ Hinv).
Qed.

Lemma inv_add m L fid h :
  dedup_inv m L -> L !! fid = None -> fid <> "" -> (forall f n, L !! f <> Some (h, n)) ->
  dedup_inv (<[reverseKey fid := h]> (<[refKey fid := "1"]> (<[hashKey h := fid]> m))) (<[fid := (h, 1)]> L).
Proof.
  intros Hinv Hf Hne Hh. split.
  - intros f h' n [[<- [= <- <-]]|[Hff Hf']]%lookup_insert_Some.
    + rewrite lookup_insert_eq. rewrite (lookup_insert_ne _ (reverseKey fid) (refKey fid)) by key_neq. rewrite lookup_insert_eq.
      rewrite !(lookup_insert_ne _ _ (hashKey h)) by key_neq. rewrite lookup_insert_eq. split_and!; done || lia.
    + assert (h' <> h) by (intros ->; by apply (Hh f n)). destruct (di_live _ _ Hinv _ _ _ Hf') as (? & ? & ? & ? & ?).
      rewrite !lookup_insert_ne by key_neq. done.
  - intros h' Hh'. assert (h' <> h) by (intros ->; apply (Hh' fid 1); by rewrite lookup_insert_eq).
    rewrite !lookup_insert_ne by key_neq. apply (di_hash _ _ Hinv). intros f n Hf'.
    apply (Hh' f n). rewrite lookup_insert_ne; [done|]. congruence.
  - intros f [Hf' Hff]%lookup_insert_None. rewrite !lookup_insert_ne by key_neq. by apply (di_dead _ _ Hinv).
Qed.

Lemma inv_remove m L fid h n :
  dedup_inv m L -> L !! fid = Some (h, n) ->
  dedup_inv (delete (reverseKey fid) (delete (hashKey h) (delete (refKey fid) m))) (delete fid L).
Proof.
  intros Hinv Hf. split.
  - intros f h' n' [Hff Hf']%lookup_delete_Some. assert (h' <> h) by (intros ->; by apply Hff, (live_unique m L _ _ h n n')).
    destruct (di_live _ _ Hinv _ _ _ Hf') as (? & ? & ? & ? & ?). rewrite !lookup_delete_ne by key_neq. done.
  - intros h' Hh'. rewrite lookup_delete_ne by key_neq. destruct (decide (h = h')) as [<-|Hne]; [by rewrite lookup_delete_eq|].
    rewrite !lookup_delete_ne by key_neq. apply (di_hash _ _ Hinv). intros f n' Hf'. apply (Hh' f n').
    rewrite lookup_delete_ne; [done|]. congruence.
  - intros f Hf'. destruct (decide (fid = f)) as [<-|Hne].
    + rewrite lookup_delete_eq, !(lookup_delete_ne _ _ (refKey fid)) by key_neq. by rewrite lookup_delete_eq.
    + rewrite lookup_delete_ne in Hf' by done. rewrite !lookup_delete_ne by key_neq. by apply (di_dead _ _ Hinv).
Qed.

(** ** The specification *)

Inductive dedup_op :=
| OpStore (newFid : string) (data : bytes)
| OpDrop (fid : string).

Inductive dedup_result :=
| Stored (fid : string) (hit : bool)
| Dropped (left : Z).

Definition find_hash (L : live) (h : string) : option (string * Z) :=
  (fun x => (fst x, snd (snd x))) <$> head (filter (fun x => fst (snd x) = h) (map_to_list L)).

Lemma find_hash_spec L h :
  match find_hash L h with
  | Some (fid, n) => L !! fid = Some (h, n)
  | None => forall fid n, L !! fid <> Some (h, n)
  end.
Proof.
  unfold find_hash. destruct (filter _ _) as [|[fid [h' n]] l] eqn:E; cbn.
  - intros fid n Hf. assert ((fid, (h, n)) ∈ filter (fun x : string * (string * Z) => fst (snd x) = h) (map_to_list L)) as Hin.
    { apply list_elem_of_filter. split; [done|]. by apply elem_of_map_to_list. }
    rewrite E in Hin. by apply not_elem_of_nil in Hin.
  - assert ((fid, (h', n)) ∈ filter (fun x : string * (string * Z) => fst (snd x) = h) (map_to_list L)) as Hin by (rewrite E; left).
    apply list_elem_of_filter in Hin as [Hh Hin]. cbn in Hh. subst h'. by apply elem_of_map_to_list.
Qed.

(** The hash key of the store finds the blob the specification finds. *)
Lemma hash_lookup m L h : dedup_inv m L -> m !! hashKey h = fst <$> find_hash L h.
Proof.
  intros Hinv. pose proof (find_hash_spec L h) as Hs. destruct (find_hash L h) as [[fid n]|]; cbn.
  - by apply (di_live _ _ Hinv) in Hs as (_ & _ & _ & _ & ?).
  - by apply (di_hash _ _ Hinv).
Qed.

(** A blob whose content is live gets one more reference, and the new file id is not used;
    the last reference removes the blob. *)
Definition spec_step (hash : bytes -> string) (op : dedup_op) (L : live) : dedup_result * live :=
  match op with
  | OpStore newFid data =>
      match find_hash L (hash data) with
      | Some (fid, n) => (Stored fid true, <[fid := (hash data, n + 1)]> L)
      | None => (Stored newFid false, <[newFid := (hash data, 1)]> L)
      end
  | OpDrop fid =>
      match L !! fid with
      | Some (h, n) => if decide (n <= 1) then (Dropped 0, delete fid L) else (Dropped (n - 1), <[fid := (h, n - 1)]> L)
      | None => (Dropped 0, L)
      end
  end.

(** New file ids are new and not blank, and counts stay in range. *)
Definition op_ok (hash : bytes -> string) (op : dedup_op) (L : live) : Prop :=
  match op with
  | OpStore newFid data =>
      match find_hash L (hash data) with
      | Some (_, n) => n + 1 < 2 ^ 62
      | None => L !! newFid = None /\ TrimSpace newFid <> ""
      end
  | OpDrop _ => True
  end.

Fixpoint spec_run (hash : bytes -> string) (ops : list dedup_op) (L : live) : list dedup_result * live :=
  match ops with
  | [] => ([], L)
  | op :: ops =>
      let '(r, L) := spec_step hash op L in
      let '(rs, L) := spec_run hash ops L in (r :: rs, L)
  end.

Fixpoint ops_ok (hash : bytes -> string) (ops : list dedup_op) (L : live) : Prop :=
  match ops with
  | [] => True
  | op :: ops => op_ok hash op L /\ ops_ok hash ops (snd (spec_step hash op L))
  end.

Section refinement.
Context {S : Type} `{KvReliable S rep} (hash : bytes -> string).

Definition dedup_step (op : dedup_op) : GoM (option S) dedup_err dedup_result :=
  match op with
  | OpStore newFid data => x ← store_blob hash newFid data; mret (Stored (fst x) (snd x))
  | OpDrop fid => n ← DecrementRefCount fid; mret (Dropped n)
  end.

Fixpoint dedup_run (ops : list dedup_op) : GoM (option S) dedup_err (list dedup_result) :=
  match ops with
  | [] => mret []
  | op :: ops => r ← dedup_step op; rs ← dedup_run ops; mret (r :: rs)
  end.

(** One call of a store that always answers. *)
Ltac kv_step Hr :=
  match type of Hr with
  | rep ?s ?m =>
      match goal with
      | |- context [KvGet ?k s] => let E := fresh "E" in destruct (KvGet_ok s m k Hr) as (? & Hr' & E); rewrite E; clear E
      | |- context [KvPut ?k ?v s] => let E := fresh "E" in destruct (KvPut_ok s m k v Hr) as (? & Hr' & E); rewrite E; clear E
      | |- context [KvDelete ?k s] => let E := fresh "E" in destruct (KvDelete_ok s m k Hr) as (? & Hr' & E); rewrite E; clear E
      end; clear Hr; rename Hr' into Hr
  end.

Lemma currentRefCount_live s m L fid h n :
  rep s m -> dedup_inv m L -> L !! fid = Some (h, n) ->
  exists s', rep s' m /\ currentRefCountLocked fid s = (Ret n, s').
Proof.
  intros Hr Hinv Hf. destruct (di_live _ _ Hinv _ _ _ Hf) as (_ & Hn & Hk & _).
  unfold currentRefCountLocked. kv_step Hr. rewrite Hk. eexists. split; [exact Hr|].
  rewrite decide_False by apply Itoa_nonempty. rewrite Atoi_Itoa by lia. by rewrite decide_False by lia.
Qed.

Lemma currentRefCount_dead s m L fid :
  rep s m -> dedup_inv m L -> L !! fid = None ->
  exists s', rep s' m /\ currentRefCountLocked fid s = (Fail ErrNotFound, s').
Proof.
  intros Hr Hinv Hf. destruct (di_dead _ _ Hinv _ Hf) as [Hk _].
  unfold currentRefCountLocked. kv_step Hr. rewrite Hk. eauto.
Qed.

(** The counts [GetRefCount] reports are the references of the live blobs. *)
Lemma GetRefCount_spec s m L fid :
  rep s m -> dedup_inv m L ->
  exists s', rep s' m /\
    GetRefCount fid (Some s) = (Ret (default 0 (snd <$> L !! fid)), Some s').
Proof.
  intros Hr Hinv. unfold GetRefCount, with_kv, get_ref_count. destruct (L !! fid) as [[h n]|] eqn:E.
  - destruct (currentRefCount_live _ _ _ _ _ _ Hr Hinv E) as (s' & Hr' & ->). eauto.
  - destruct (currentRefCount_dead _ _ _ _ Hr Hinv E) as (s' & Hr' & ->). rewrite isNotFound_missing. eauto.
Qed.

Lemma store_blob_spec s m L newFid data :
  rep s m -> dedup_inv m L -> op_ok hash (OpStore newFid data) L ->
  exists s' m', rep s' m' /\ dedup_inv m' (snd (spec_step hash (OpStore newFid data) L)) /\
    dedup_step (OpStore newFid data) (Some s) = (Ret (fst (spec_step hash (OpStore newFid data) L)), Some s').
Proof.
  intros Hr Hinv Hok. cbn in Hok |- *. unfold mbind, GoM_bind, store_blob, LookupOrCreate, with_kv, lookup_or_create.
  kv_step Hr. rewrite (hash_lookup _ _ _ Hinv). pose proof (find_hash_spec L (hash data)) as Hs.
  destruct (find_hash L (hash data)) as [[fid n]|]; cbn [fmap option_fmap option_map fst snd].
  - destruct (di_live _ _ Hinv _ _ _ Hs) as (Hne & Hn & _). rewrite decide_False by done.
    unfold incrementRefCountLocked. destruct (currentRefCount_live _ _ _ _ _ _ Hr Hinv Hs) as (s1 & Hr1 & ->).
    rewrite i64_small by lia. kv_step Hr1. eexists _, _. split_and!; [exact Hr1| |done].
    apply (inv_set_count _ _ _ _ n); [done..|lia].
  - destruct Hok as [Hnew Hblank]. rewrite isNotFound_missing. unfold RecordStored. rewrite decide_False by done.
    unfold with_kv, record_stored, mbind, GoM_bind. do 3 kv_step Hr. eexists _, _. split_and!; [exact Hr| |done].
    apply inv_add; [done..| |done]. intros ->. by apply Hblank.
Qed.

Lemma drop_spec s m L fid :
  rep s m -> dedup_inv m L ->
  exists s' m', rep s' m' /\ dedup_inv m' (snd (spec_step hash (OpDrop fid) L)) /\
    dedup_step (OpDrop fid) (Some s) = (Ret (fst (spec_step hash (OpDrop fid) L)), Some s').
Proof.
  intros Hr Hinv. cbn. unfold mbind, GoM_bind, DecrementRefCount, with_kv, decrement_ref_count.
  destruct (L !! fid) as [[h n]|] eqn:E.
  - destruct (di_live _ _ Hinv _ _ _ E) as (_ & Hn & _ & Hrev & _).
    destruct (currentRefCount_live _ _ _ _ _ _ Hr Hinv E) as (s1 & Hr1 & ->). destruct (decide (n <= 1)).
    + do 2 kv_step Hr1. rewrite lookup_delete_ne, Hrev by key_neq. do 2 kv_step Hr1.
      eexists _, _. split_and!; [exact Hr1| |done]. by apply (inv_remove _ _ _ _ n).
    + kv_step Hr1. eexists _, _. split_and!; [exact Hr1| |done]. apply (inv_set_count _ _ _ _ n); [done..|lia].
  - destruct (currentRefCount_dead _ _ _ _ Hr Hinv E) as (s1 & Hr1 & ->). rewrite isNotFound_missing. eauto 6.
Qed.
End refinement.

(** C33: with a store that always answers, any sequence of stores and drops behaves as the
    map from live file ids to a hash and a count: a blob whose content is live gets the file
    id it has and one more reference, any other content gets its new file id, and a drop
    reports the references that are left, so that it reports 0 exactly when the last one is
    gone.  Afterwards the metadata in the store is that of the live blobs. *)
Theorem dedup_refines {S : Type} `{KvReliable S rep} (hash : bytes -> string) ops s m L :
  rep s m -> dedup_inv m L -> ops_ok hash ops L ->
  exists s' m', rep s' m' /\ dedup_inv m' (snd (spec_run hash ops L)) /\
    dedup_run hash ops (Some s) = (Ret (fst (spec_run hash ops L)), Some s').
Proof.
  revert s m L. induction ops as [|op ops IH]; intros s m L Hr Hinv Hok; [by exists s, m|].
  destruct Hok as [Hop Hops].
  assert (exists s' m', rep s' m' /\ dedup_inv m' (snd (spec_step hash op L)) /\
    dedup_step hash op (Some s) = (Ret (fst (spec_step hash op L)), Some s')) as (s1 & m1 & Hr1 & Hinv1 & E1).
  { destruct op; [by eapply store_blob_spec|by eapply drop_spec]. }
  destruct (IH s1 m1 _ Hr1 Hinv1 Hops) as (s2 & m2 & Hr2 & Hinv2 & E2).
  exists s2, m2. cbn. destruct (spec_step hash op L) as [r L1], (spec_run hash ops L1) as [rs L2] eqn:E; cbn in *.
  rewrite E in *. split_and!; [done..|]. rewrite (bind_run _ _ _ _ _ E1). by rewrite (bind_run _ _ _ _ _ E2).
Qed.

Lemma dedup_inv_empty : dedup_inv ∅ ∅.
Proof. split; intros *; rewrite ?lookup_empty; done. Qed.

(** Two stores of one content and one of another, and both references of the first dropped. *)
Definition ex_hash (data : bytes) : string := Itoa (zlen data).
Definition ex_ops : list dedup_op :=
  [OpStore "1,a" [7]; OpStore "1,b" [9]; OpStore "1,c" [7; 7]; OpDrop "1,a"; OpDrop "1,a"].

Lemma dedup_refines_witness :
  fst (spec_run ex_hash ex_ops ∅) = [Stored "1,a" false; Stored "1,a" true; Stored "1,c" false; Dropped 1; Dropped 0] /\
  exists s' m', mem_kv_rep s' m' /\ dedup_inv m' (snd (spec_run ex_hash ex_ops ∅)) /\
    dedup_run ex_hash ex_ops (Some (New "")) = (Ret (fst (spec_run ex_hash ex_ops ∅)), Some s').
Proof.
  split; [by vm_compute|]. apply (dedup_refines (S := MemStore) (rep := mem_kv_rep) ex_hash ex_ops (New "") ∅ ∅).
  - reflexivity.
  - exact dedup_inv_empty.
  - vm_compute. split_and!; done.
Defined.

(** ** Deletions that fail *)

(** A map whose deletions can fail; the list says which of the next ones do. *)
Record FlakyDelete := mkFlakyDelete { fd_map : gmap string string; fd_fails : list bool }.

#[export] Instance flaky_delete_kv : KvStore FlakyDelete := {
  KvGet k s := (match fd_map s !! k with Some v => Ret v | None => Fail ErrNotFound end, s);
  KvPut k v s := (Ret tt, mkFlakyDelete (<[k := v]> (fd_map s)) (fd_fails s));
  KvDelete k s :=
    match fd_fails s with
    | true :: fs => (Fail (ErrOther "i/o timeout"), mkFlakyDelete (fd_map s) fs)
    | _ => (Ret tt, mkFlakyDelete (delete k (fd_map s)) (tail (fd_fails s)))
    end;
}.

(** [DecrementRefCount] drops the error of deleting the hash key: with one deletion that
    fails, a blob is stored, its last reference is dropped with the answer 0, which tells the
    caller to delete the blob, and the next [LookupOrCreate] of the same content answers with
    the file id of that blob as a hit, with one reference to it. *)
Theorem dedup_dead_fid :
  let fails := [false; true; false] in
  let s0 := Some (mkFlakyDelete ∅ fails) in
  let '(r1, s1) := store_blob ex_hash "1,a" [7] s0 in
  let '(r2, s2) := DecrementRefCount "1,a" s1 in
  let '(r3, s3) := LookupOrCreate ex_hash [7] s2 in
  let '(r4, _) := GetRefCount "1,a" s3 in
  r1 = Ret ("1,a", false) /\ r2 = Ret 0 /\ r3 = Ret ("1,a", true) /\ r4 = Ret 1.
Proof. by vm_compute. Qed.
