(* ===== verification/Registry.v ===== *)
(** * Registry: the filers and gateways a master knows

    Models [goblob/cluster/registry.go].  A node is a pointer held by the map of the
    registry alone: callers read it through the registry, so it is the value under its key.
    Times are nanoseconds and [now] is the clock. *)

From S2P Require Import Prelude.

#[local] Open Scope Z_scope.
#[local] Open Scope string_scope.

Record KeepConnectedRequest := mkKeepConnected {
  kc_ClientType : string;
  kc_ClientAddress : string;
  kc_Version : string;
  kc_FilerGroup : string;
  kc_DataCenter : string;
  kc_Rack : string;
  kc_GrpcPort : string;
}.

Record ClusterNode := mkClusterNode {
  cn_id : string;
  cn_clientType : string;
  cn_clientAddress : string;
  cn_version : string;
  cn_filerGroup : string;
  cn_dataCenter : string;
  cn_rack : string;
  cn_grpcPort : string;
  cn_lastSeen : Z;
}.

Abbreviation registry := (gmap string ClusterNode).

Definition second : Z := 10 ^ 9.
Definition expireSeconds : Z := 30.

Inductive registry_err := ErrNilRequest.

Definition Register (now : Z) (oreq : option KeepConnectedRequest) : GoM registry registry_err ClusterNode := fun cr =>
  match oreq with
  | None => (Fail ErrNilRequest, cr)
  | Some req =>
      let nodeId := kc_ClientAddress req in
      let node :=
        match cr !! nodeId with
        | Some existing =>
            mkClusterNode (cn_id existing) (kc_ClientType req) (cn_clientAddress existing) (kc_Version req)
              (kc_FilerGroup req) (kc_DataCenter req) (kc_Rack req) (kc_GrpcPort req) now
        | None =>
            mkClusterNode nodeId (kc_ClientType req) (kc_ClientAddress req) (kc_Version req) (kc_FilerGroup req)
              (kc_DataCenter req) (kc_Rack req) (kc_GrpcPort req) now
        end in
      (Ret node, <[nodeId := node]> cr)
  end.

Definition Unregister (nodeId : string) (cr : registry) : registry := delete nodeId cr.

Definition seen (now : Z) (n : ClusterNode) : ClusterNode :=
  mkClusterNode (cn_id n) (cn_clientType n) (cn_clientAddress n) (cn_version n) (cn_filerGroup n) (cn_dataCenter n)
    (cn_rack n) (cn_grpcPort n) now.

Definition cr_UpdateLastSeen (now : Z) (nodeId : string) (cr : registry) : registry := alter (seen now) nodeId cr.

Definition GetNode (nodeId : string) (cr : registry) : option ClusterNode := cr !! nodeId.

(** [order] is the order in which the map is ranged over. *)
Definition ListNodes (order : registry -> list (string * ClusterNode)) (clientType : string) (cr : registry) : list ClusterNode :=
  filter (fun n => clientType = "" \/ cn_clientType n = clientType) (snd <$> order cr).

(** [ForEachNode] until the callback asks to stop. *)
Fixpoint for_each {S} (fn : ClusterNode -> S -> bool * S) (nodes : list ClusterNode) (s : S) : S :=
  match nodes with
  | [] => s
  | n :: nodes => let '(go, s) := fn n s in if go : bool then for_each fn nodes s else s
  end.

Definition ForEachNode {S} (order : registry -> list (string * ClusterNode)) (fn : ClusterNode -> S -> bool * S)
  (cr : registry) (s : S) : S := for_each fn (snd <$> order cr) s.

Definition GetNodeCount (cr : registry) : Z := Z.of_nat (size cr).

Definition ExpireDeadNodes (now : Z) (cr : registry) : registry :=
  filter (fun kn => ~ cn_lastSeen (snd kn) < now - expireSeconds * second) cr.

Definition cn_IsAlive (now : Z) (n : ClusterNode) : bool := bool_decide (now - cn_lastSeen n < 30 * second).

(** ** Registrations *)

(** The id and the address of a node are its key. *)
Definition registry_ok (cr : registry) : Prop :=
  map_Forall (fun k n => cn_id n = k /\ cn_clientAddress n = k) cr.

Lemma Register_ok now req cr : registry_ok cr -> registry_ok (snd (Register now req cr)).
Proof.
  intros Hok. destruct req as [req|]; [|done]. cbn [Register snd]. apply map_Forall_insert_2; [|done].
  destruct (cr !! kc_ClientAddress req) as [n|] eqn:E; [|done]. exact (Hok _ _ E).
Qed.

(** A registration is there until its node has not been seen for 30 seconds, whatever
    other nodes do. *)
Lemma ExpireDeadNodes_lookup now k cr :
  ExpireDeadNodes now cr !! k =
    n ← cr !! k; if decide (now - cn_lastSeen n > expireSeconds * second) then None else Some n.
Proof.
  unfold ExpireDeadNodes. rewrite map_lookup_filter. destruct (cr !! k) as [n|]; cbn; [|done].
  case_decide; [by rewrite option_guard_False by lia|by rewrite option_guard_True by lia].
Qed.
