(* ===== verification/Throttle.v ===== *)
(** * Throttle: the limits on concurrent transfers

    The handlers of [goblob/server/volume_server.go] and [filer_server.go] keep a transfer
    waiting on a [sync.Cond] while too much data is in flight.  A transfer goes through the
    program points below; the counter is atomic, the condition is tested under the mutex.
    The three uses differ in two ways: whether the test counts the transfer itself, and
    whether the end of a transfer signals under the mutex. *)

From S2P Require Import Prelude.

Inductive pc :=
| PStart   (* before [L.Lock()] *)
| PCheck   (* holds the mutex, before the test of the loop *)
| PWait    (* holds the mutex, the test said to wait, before [Wait] *)
| PParked  (* in [Wait], on the notification list, the mutex released *)
| PWoken   (* taken off the list, before [Wait] locks the mutex again *)
| PAdd     (* holds the mutex, the loop is over *)
| PUnlock  (* holds the mutex, the counter is raised *)
| PRun     (* the transfer *)
| PSignal  (* the deferred function has lowered the counter, before the signal *)
| PDone.

#[export] Instance pc_eq_dec : EqDecision pc.
Proof. solve_decision. Defined.

(** [d_own]: the test counts the transfer itself; [d_locked]: the signal is sent under the
    mutex. *)
Record discipline := mkDiscipline { d_own : bool; d_locked : bool }.

Definition volume_upload : discipline := mkDiscipline true false.
Definition volume_download : discipline := mkDiscipline false false.
Definition filer_upload : discipline := mkDiscipline false true.

(** What a transfer adds to the counter: the announced length of an upload, an unknown
    length counting as nothing, and one for a download. *)
Definition upload_size (contentLength : Z) : Z := if decide (contentLength < 0) then 0 else contentLength.
Definition download_size : Z := 1.

(** The limit in bytes of an option in megabytes. *)
Definition limit_of (mb : Z) : Z := i64 (mb * 1024 * 1024).

Record throttle := mkThrottle {
  t_inFlight : Z;
  t_lock : option nat;
  t_waiters : list nat;
  t_procs : list (Z * pc);
}.

Section steps.
Context (d : discipline) (limit : Z).

Definition must_wait (inFlight size : Z) : bool :=
  bool_decide (i64 (inFlight + if d_own d then size else 0) > limit).

Definition at_pc (i : nat) (size : Z) (p : pc) (procs : list (Z * pc)) : list (Z * pc) := <[i := (size, p)]> procs.

(** [Signal] takes the first transfer off the notification list. *)
Definition signal (waiters : list nat) (procs : list (Z * pc)) : list nat * list (Z * pc) :=
  match waiters with
  | [] => ([], procs)
  | j :: rest => (rest, match procs !! j with Some (size, _) => at_pc j size PWoken procs | None => procs end)
  end.

(** The next step of transfer [i], if it can make one. *)
Definition tstep (i : nat) (t : throttle) : option throttle :=
  let 'mkThrottle inFlight lock waiters procs := t in
  match procs !! i with
  | None => None
  | Some (size, p) =>
      let free := bool_decide (lock = None) in
      match p with
      | PStart | PWoken =>
          if free then Some (mkThrottle inFlight (Some i) waiters (at_pc i size PCheck procs)) else None
      | PCheck => Some (mkThrottle inFlight lock waiters (at_pc i size (if must_wait inFlight size then PWait else PAdd) procs))
      | PWait => Some (mkThrottle inFlight None (waiters ++ [i]) (at_pc i size PParked procs))
      | PAdd => Some (mkThrottle (i64 (inFlight + size)) lock waiters (at_pc i size PUnlock procs))
      | PUnlock => Some (mkThrottle inFlight None waiters (at_pc i size PRun procs))
      | PRun => Some (mkThrottle (i64 (inFlight - size)) lock waiters (at_pc i size PSignal procs))
      | PSignal =>
          if d_locked d && negb free then None else
          let '(waiters, procs) := signal waiters procs in
          Some (mkThrottle inFlight lock waiters (at_pc i size PDone procs))
      | PParked | PDone => None
      end
  end.

Definition t_start (sizes : list Z) : throttle := mkThrottle 0 None [] ((fun s => (s, PStart)) <$> sizes).

(** The states transfers of the given sizes can reach, in any interleaving. *)
Inductive treachable (sizes : list Z) : throttle -> Prop :=
| treach_start : treachable sizes (t_start sizes)
| treach_step t i t' : treachable sizes t -> tstep i t = Some t' -> treachable sizes t'.

(** No transfer can go on. *)
Definition stuck (t : throttle) : Prop := forall i, tstep i t = None.

(** Runs the given steps. *)
Fixpoint trun (sched : list nat) (t : throttle) : option throttle :=
  match sched with
  | [] => Some t
  | i :: sched => tstep i t ≫= trun sched
  end.

Lemma trun_reachable sizes sched t t' : treachable sizes t -> trun sched t = Some t' -> treachable sizes t'.
Proof.
  revert t. induction sched as [|i sched IH]; intros t Ht; cbn [trun]; [by intros [= <-]|].
  intros (t1 & H1 & H2)%bind_Some. eapply IH; [|exact H2]. by eapply treach_step.
Qed.
End steps.

(** ** The invariant *)

Definition holds_mutex (p : pc) : bool :=
  match p with PCheck | PWait | PAdd | PUnlock => true | _ => false end.

Definition counted (sp : Z * pc) : Z := match snd sp with PUnlock | PRun => fst sp | _ => 0 end.
Definition flying (procs : list (Z * pc)) : Z := foldr (fun sp n => counted sp + n) 0 procs.
Definition volume_of (procs : list (Z * pc)) : Z := foldr (fun sp n => fst sp + n) 0 procs.

Lemma flying_insert procs i sp sp' :
  procs !! i = Some sp -> flying (<[i := sp']> procs) = flying procs - counted sp + counted sp'.
Proof.
  revert i. induction procs as [|x procs IH]; intros [|i]; [done..| |].
  - intros [= ->]. change (counted sp' + flying procs = counted sp + flying procs - counted sp + counted sp'). lia.
  - intros H. specialize (IH i H).
    change (counted x + flying (<[i := sp']> procs) = counted x + flying procs - counted sp + counted sp'). lia.
Qed.

Lemma volume_insert procs i size p p' :
  procs !! i = Some (size, p) -> volume_of (<[i := (size, p')]> procs) = volume_of procs.
Proof.
  revert i. induction procs as [|x procs IH]; intros [|i]; [done..| |].
  - by intros [= ->].
  - intros H. specialize (IH i H).
    change (fst x + volume_of (<[i := (size, p')]> procs) = fst x + volume_of procs). lia.
Qed.

Lemma flying_bounds procs :
  Forall (fun sp => 0 <= fst sp) procs -> 0 <= flying procs <= volume_of procs.
Proof.
  induction 1 as [|[s p] procs Hs _ IH]; cbn; [done|]. unfold flying, volume_of, counted in *. simpl in *.
  destruct p; lia.
Qed.

(** Something is in flight when the counter is positive. *)
Lemma flying_pos procs : 0 < flying procs -> exists j s p, procs !! j = Some (s, p) /\ (p = PUnlock \/ p = PRun).
Proof.
  induction procs as [|[s p] procs IH]; [by cbn|]. intros H.
  destruct (decide (p = PUnlock \/ p = PRun)) as [Hp|Hp]; [by exists O, s, p|].
  destruct IH as (j & s' & p' & Hj & Hp').
  - unfold flying in *. simpl in H. unfold counted in H at 1. destruct p; simpl in *; tauto || lia.
  - by exists (S j), s', p'.
Qed.

Lemma volume_start sizes : volume_of ((fun s => (s, PStart)) <$> sizes) = foldr Z.add 0 sizes.
Proof. induction sizes as [|s l IH]; [done|]. cbn. unfold volume_of in IH. by rewrite IH. Qed.

Lemma flying_start sizes : flying ((fun s => (s, PStart)) <$> sizes) = 0.
Proof. induction sizes as [|s l IH]; [done|]. exact IH. Qed.

Record tinv (t : throttle) : Prop := {
  ti_lock : forall i s p, t_procs t !! i = Some (s, p) -> (holds_mutex p = true <-> t_lock t = Some i);
  ti_holder : forall i, t_lock t = Some i -> is_Some (t_procs t !! i);
  ti_waiters : forall i, i ∈ t_waiters t -> exists s, t_procs t !! i = Some (s, PParked);
  ti_parked : forall i s, t_procs t !! i = Some (s, PParked) -> i ∈ t_waiters t;
  ti_nodup : NoDup (t_waiters t);
  ti_sizes : Forall (fun sp => 0 <= fst sp) (t_procs t);
  ti_volume : volume_of (t_procs t) < 2 ^ 63;
  ti_inFlight : t_inFlight t = flying (t_procs t);
}.

Lemma lookup_at_pc i s p procs j :
  is_Some (procs !! i) -> at_pc i s p procs !! j = if decide (j = i) then Some (s, p) else procs !! j.
Proof.
  intros Hi%lookup_lt_is_Some. unfold at_pc. case_decide; [subst; by apply list_lookup_insert_eq|].
  by apply list_lookup_insert_ne.
Qed.

(** One transfer moves from [p] to [p']. *)
Lemma tinv_update t i s p p' lock waiters inFlight :
  tinv t -> t_procs t !! i = Some (s, p) ->
  (forall j, j <> i -> lock = Some j <-> t_lock t = Some j) -> (holds_mutex p' = true <-> lock = Some i) ->
  (forall j, j <> i -> j ∈ waiters <-> j ∈ t_waiters t) -> (i ∈ waiters <-> p' = PParked) -> NoDup waiters ->
  inFlight = t_inFlight t - counted (s, p) + counted (s, p') ->
  tinv (mkThrottle inFlight lock waiters (at_pc i s p' (t_procs t))).
Proof.
  intros [H1 H0 H2 H3 H4 H5 H6 H7] Hi Hl Hli Hw Hwi Hnd ->.
  assert (is_Some (t_procs t !! i)) as Hsome by by rewrite Hi. split; cbn [t_inFlight t_lock t_waiters t_procs].
  - intros j s' q. rewrite lookup_at_pc by done. case_decide as Hj; [by intros [= <- <-]; subst|].
    intros Hq. rewrite (Hl j Hj). by eapply H1.
  - intros j Hj. rewrite lookup_at_pc by done. case_decide; [done|]. apply H0. by apply Hl.
  - intros j Hj. rewrite lookup_at_pc by done. case_decide as He; [subst; apply Hwi in Hj as ->; by eauto|].
    apply H2. by apply Hw.
  - intros j s'. rewrite lookup_at_pc by done. case_decide as He; [intros [= _ ->]; subst; by apply Hwi|].
    intros Hq. apply Hw; [done|]. by eapply H3.
  - done.
  - unfold at_pc. apply Forall_insert; [done|]. cbn [fst].
    exact (Forall_lookup_1 (fun sp => 0 <= fst sp) _ _ _ H5 Hi).
  - unfold at_pc. by rewrite (volume_insert _ _ _ _ _ Hi).
  - unfold at_pc. rewrite (flying_insert _ _ _ _ Hi). lia.
Qed.

(** The side conditions of [tinv_update]. *)
Ltac tmove := try done; cbn; try lia; try (naive_solver congruence).

Section preservation.
Context (d : discipline) (limit : Z).

(** Taking the first transfer off the list keeps the invariant. *)
Lemma signal_inv t waiters procs :
  tinv t -> signal (t_waiters t) (t_procs t) = (waiters, procs) ->
  tinv (mkThrottle (t_inFlight t) (t_lock t) waiters procs).
Proof.
  intros Hinv. unfold signal. destruct t as [f l [|j rest] procs0]; cbn [t_waiters t_procs] in *; [by intros [= <- <-]|].
  destruct (ti_waiters _ Hinv j) as (s & Hj); [by left|]. cbn [t_procs] in Hj. rewrite Hj. intros [= <- <-].
  pose proof (ti_nodup _ Hinv) as Hnd. cbn [t_waiters] in Hnd. apply NoDup_cons in Hnd as [Hni Hnd].
  apply (tinv_update (mkThrottle f l (j :: rest) procs0) j s PParked PWoken); try done; cbn [t_waiters t_lock t_inFlight].
  - pose proof (ti_lock _ Hinv j s PParked Hj) as Hl. cbn [t_lock] in *. exact Hl.
  - intros k Hk. split; [by right|]. intros [->|Hin]%elem_of_cons; done.
  - cbn. lia.
Qed.

Lemma counted_range t i s p : tinv t -> t_procs t !! i = Some (s, p) ->
  0 <= s /\ 0 <= flying (t_procs t) - counted (s, p) /\ flying (t_procs t) - counted (s, p) + s < 2 ^ 63.
Proof.
  intros Hinv Hi. pose proof (Forall_lookup_1 (fun sp => 0 <= fst sp) _ _ _ (ti_sizes _ Hinv) Hi) as Hs. cbn in Hs.
  pose proof (ti_volume _ Hinv) as Hv.
  assert (forall p', Forall (fun sp : Z * pc => 0 <= fst sp) (at_pc i s p' (t_procs t))) as Hf
    by (intros p'; apply Forall_insert; [apply Hinv|done]).
  pose proof (flying_bounds _ (Hf PDone)) as B1. pose proof (flying_bounds _ (Hf PRun)) as B2. unfold at_pc in *.
  rewrite (flying_insert _ _ _ _ Hi), (volume_insert _ _ _ _ _ Hi) in B1.
  rewrite (flying_insert _ _ _ _ Hi), (volume_insert _ _ _ _ _ Hi) in B2. cbn [counted fst snd] in *. lia.
Qed.

Lemma tstep_inv i t t' : tinv t -> tstep d limit i t = Some t' -> tinv t'.
Proof.
  intros Hinv. destruct t as [f l w procs] eqn:Et. cbn [tstep]. rewrite <- Et in Hinv.
  destruct (procs !! i) as [[s p]|] eqn:Hi; [|done].
  assert (t_procs t !! i = Some (s, p)) as Hi' by by subst.
  pose proof (ti_lock _ Hinv i s p Hi') as Hl. destruct (counted_range t i s p Hinv Hi') as (Hs & Hf0 & Hf1).
  rewrite <- (ti_inFlight _ Hinv) in Hf0, Hf1.
  assert (i ∈ t_waiters t <-> p = PParked) as Hw.
  { split; [|intros ->; by eapply ti_parked]. intros Hin. destruct (ti_waiters _ Hinv i Hin) as (s' & E). rewrite E in Hi'. by simplify_eq. }
  pose proof (ti_nodup _ Hinv) as Hnd. subst t. cbn [t_inFlight t_lock t_waiters t_procs] in *.
  destruct p; cbn [holds_mutex counted fst snd] in *.
  - case_bool_decide as Hfree; [|done]. intros [= <-]. apply (tinv_update (mkThrottle f l w procs) i s PStart); subst l; tmove.
  - intros [= <-]. apply (tinv_update (mkThrottle f l w procs) i s PCheck); destruct (must_wait d limit f s); tmove.
  - intros [= <-]. assert (l = Some i) as -> by tauto. apply (tinv_update (mkThrottle f (Some i) w procs) i s PWait);
      try (intros j Hj); rewrite ?elem_of_app, ?list_elem_of_singleton; tmove.
    apply NoDup_app. split_and!; [done| |apply NoDup_singleton]. intros x Hx ->%list_elem_of_singleton. apply Hw in Hx. done.
  - done.
  - case_bool_decide as Hfree; [|done]. intros [= <-]. apply (tinv_update (mkThrottle f l w procs) i s PWoken); subst l; tmove.
  - intros [= <-]. apply (tinv_update (mkThrottle f l w procs) i s PAdd); rewrite ?i64_small by lia; tmove.
  - intros [= <-]. assert (l = Some i) as -> by tauto. apply (tinv_update (mkThrottle f (Some i) w procs) i s PUnlock); tmove.
  - intros [= <-]. apply (tinv_update (mkThrottle f l w procs) i s PRun); rewrite ?i64_small by lia; tmove.
  - destruct (d_locked d && _); [done|]. destruct (signal w procs) as [w' procs'] eqn:Es. intros [= <-].
    pose proof (signal_inv (mkThrottle f l w procs) w' procs' Hinv Es) as Hinv'. cbn [t_inFlight t_lock] in Hinv'.
    assert (procs' !! i = Some (s, PSignal)) as Hi2.
    { unfold signal in Es. destruct w as [|j rest]; [by injection Es as <- <-|].
      destruct (ti_waiters _ Hinv j) as (s' & Hj); [by left|]. cbn [t_procs] in Hj. rewrite Hj in Es. injection Es as <- <-.
      rewrite lookup_at_pc by by rewrite Hj. case_decide; [subst; congruence|done]. }
    assert (i ∉ w') as Hiw.
    { intros Hin. destruct (ti_waiters _ Hinv' i Hin) as (s' & E). cbn in E. congruence. }
    apply (tinv_update (mkThrottle f l w' procs') i s PSignal); tmove. apply Hinv'.
  - done.
Qed.

Lemma treachable_inv sizes t :
  Forall (fun s => 0 <= s) sizes -> foldr Z.add 0 sizes < 2 ^ 63 -> treachable d limit sizes t -> tinv t.
Proof.
  intros Hs Hv. induction 1 as [|t i t' _ IH Hst]; [|by eapply tstep_inv]. unfold t_start.
  assert (forall i s p, (fun s => (s, PStart)) <$> sizes !! i = Some (s, p) -> p = PStart) as Hp.
  { intros i s p. destruct (sizes !! i); cbn; [|done]. by intros [= _ <-]. }
  split; cbn [t_inFlight t_lock t_waiters t_procs].
  - intros i s p. rewrite list_lookup_fmap. intros H. by rewrite (Hp i s p H).
  - done.
  - intros i Hi. by apply elem_of_nil in Hi.
  - intros i s. rewrite list_lookup_fmap. intros H. by apply Hp in H.
  - constructor.
  - by apply Forall_fmap.
  - by rewrite volume_start.
  - by rewrite flying_start.
Qed.

(** ** The end of a transfer wakes the next *)

Definition active (p : pc) : Prop := p <> PParked /\ p <> PDone.

(** A transfer about to wait leaves another that will signal, and one on the list leaves
    another that is not. *)
Definition tlive (t : throttle) : Prop :=
  (forall i s, t_procs t !! i = Some (s, PWait) ->
     exists j s' p, t_procs t !! j = Some (s', p) /\ (p = PRun \/ p = PSignal)) /\
  (t_waiters t <> [] -> exists j s p, t_procs t !! j = Some (s, p) /\ active p).

(** A step of one transfer that does not signal. *)
Lemma tlive_update t i s p p' lock waiters inFlight :
  tlive t -> t_procs t !! i = Some (s, p) ->
  (p' = PWait -> exists j s' q, j <> i /\ t_procs t !! j = Some (s', q) /\ (q = PRun \/ q = PSignal)) ->
  (p = PRun -> p' = PSignal) -> p <> PSignal -> (p' = PParked -> p = PWait) -> p' <> PDone ->
  tlive (mkThrottle inFlight lock waiters (at_pc i s p' (t_procs t))).
Proof.
  intros [HW HA] Hi Hwait Hrun Hsig Hpark Hdone. assert (is_Some (t_procs t !! i)) as Hsome by by rewrite Hi.
  assert (forall j s' q, j <> i -> t_procs t !! j = Some (s', q) -> at_pc i s p' (t_procs t) !! j = Some (s', q)) as Hkeep.
  { intros j s' q Hj Hq. rewrite lookup_at_pc by done. by rewrite decide_False. }
  split; cbn [t_procs t_waiters].
  - intros k s'. rewrite lookup_at_pc by done. case_decide as Hk.
    + intros [= _ ->]. destruct (Hwait eq_refl) as (j & s2 & q & Hj & Hq & Hp). exists j, s2, q. eauto.
    + intros Hk'. destruct (HW k s' Hk') as (j & s2 & q & Hq & Hp). destruct (decide (j = i)) as [->|Hj]; [|eauto 6].
      rewrite Hi in Hq. injection Hq as <- <-. exists i, s, p'. rewrite lookup_at_pc, decide_True by done. split; [done|].
      destruct Hp as [->| ->]; [right; auto|done].
  - intros _. destruct (decide (p' = PParked)) as [->|Hp'].
    + rewrite (Hpark eq_refl) in *. destruct (HW i s Hi) as (j & s2 & q & Hq & Hp).
      destruct (decide (j = i)) as [->|Hj]; [rewrite Hi in Hq; naive_solver|].
      exists j, s2, q. split; [eauto|]. split; naive_solver.
    + exists i, s, p'. rewrite lookup_at_pc, decide_True by done. by split.
Qed.

Hypothesis Hlocked : d_locked d = true.
Hypothesis Hown : d_own d = false.
Hypothesis Hlimit : 0 <= limit.

Lemma tstep_live i t t' : tinv t -> tlive t -> tstep d limit i t = Some t' -> tlive t'.
Proof using Hlocked Hown Hlimit.
  intros Hinv Hlive. destruct t as [f l w procs] eqn:Et. cbn [tstep]. rewrite <- Et in Hinv, Hlive.
  destruct (procs !! i) as [[s p]|] eqn:Hi; [|done]. assert (t_procs t !! i = Some (s, p)) as Hi' by by subst.
  destruct p; try done.
  - case_bool_decide; [|done]. intros [= <-]. subst t. by apply (tlive_update (mkThrottle f l w procs) i s PStart).
  - intros [= <-].
    apply (tlive_update (mkThrottle f l w procs) i s PCheck); try done; try (subst t; done); try (by destruct (must_wait d limit f s)).
    intros Hw. assert (must_wait d limit f s = true) as Hm by (by destruct (must_wait d limit f s)).
    unfold must_wait in Hm. rewrite Hown, Z.add_0_r in Hm. apply bool_decide_eq_true_1 in Hm.
    destruct (counted_range t i s PCheck Hinv Hi') as (Hs & H0 & H1). pose proof (ti_inFlight _ Hinv) as Hf.
    subst t. cbn [t_inFlight t_procs counted snd] in *. rewrite i64_small in Hm by lia.
    destruct (flying_pos procs) as (j & s' & q & Hj & Hq); [lia|].
    assert (l = Some i) as -> by (by apply (ti_lock _ Hinv i s PCheck Hi')).
    pose proof (ti_lock _ Hinv j s' q Hj) as Hl. cbn [t_lock] in Hl.
    assert (j <> i) by (intros ->; rewrite Hi in Hj; naive_solver).
    exists j, s', q. split_and!; [done..|]. destruct Hq as [->|Hq]; [|by left].
    destruct Hl as [Hl _]. specialize (Hl eq_refl). congruence.
  - intros [= <-]. subst t. by apply (tlive_update (mkThrottle f l w procs) i s PWait).
  - case_bool_decide; [|done]. intros [= <-]. subst t. by apply (tlive_update (mkThrottle f l w procs) i s PWoken).
  - intros [= <-]. subst t. by apply (tlive_update (mkThrottle f l w procs) i s PAdd).
  - intros [= <-]. subst t. by apply (tlive_update (mkThrottle f l w procs) i s PUnlock).
  - intros [= <-]. subst t. by apply (tlive_update (mkThrottle f l w procs) i s PRun).
  - rewrite Hlocked. cbn [andb]. case_bool_decide as Hfree; cbn [negb]; [|done].
    assert (forall j s', procs !! j <> Some (s', PWait)) as Hnw.
    { intros j s' Hj. assert (t_procs t !! j = Some (s', PWait)) as Hj' by by subst t.
      pose proof (ti_lock _ Hinv j s' PWait Hj') as [Hl _]. subst t l. by specialize (Hl eq_refl). }
    destruct w as [|j rest]; cbn [signal].
    + intros [= <-]. split; [|done]. cbn. intros k s'. rewrite lookup_at_pc by by rewrite Hi. case_decide; [done|].
      intros Hk. by apply Hnw in Hk.
    + destruct (ti_waiters _ Hinv j) as (sj & Hj); [subst t; by left|].
      assert (procs !! j = Some (sj, PParked)) as Hj' by by subst t. rewrite Hj'. intros [= <-].
      assert (is_Some (at_pc j sj PWoken procs !! i)) as Hs1
        by (rewrite lookup_at_pc by (by rewrite Hj'); case_decide; [done|by rewrite Hi]).
      assert (j <> i) as Hji by congruence. split; cbn [t_procs t_waiters].
      * intros k s'. rewrite lookup_at_pc by done. case_decide; [done|]. rewrite lookup_at_pc by by rewrite Hj'.
        case_decide; [done|]. intros Hk. by apply Hnw in Hk.
      * intros _. exists j, sj, PWoken. rewrite lookup_at_pc, decide_False by done.
        rewrite lookup_at_pc, decide_True by (done || by rewrite Hj'). by split.
Qed.
End preservation.

Lemma treachable_live d limit sizes t :
  d_locked d = true -> d_own d = false -> 0 <= limit ->
  Forall (fun s => 0 <= s) sizes -> foldr Z.add 0 sizes < 2 ^ 63 -> treachable d limit sizes t -> tlive t.
Proof.
  intros Hd Ho Hl Hs Hv. induction 1 as [|t i t' Ht IH Hst].
  - split; cbn; [|done]. intros i s. rewrite list_lookup_fmap. by destruct (sizes !! i).
  - eapply tstep_live; [done..| |exact IH|exact Hst]. by eapply treachable_inv.
Qed.

(** A state with an active transfer is not stuck. *)
Lemma active_not_stuck d limit t j s p :
  tinv t -> t_procs t !! j = Some (s, p) -> active p -> ~ stuck d limit t.
Proof.
  intros Hinv Hj [Hp1 Hp2] Hst. destruct t as [f l w procs]. destruct l as [i|].
  - destruct (ti_holder _ Hinv i eq_refl) as [[s' q] Hi]. pose proof (ti_lock _ Hinv i s' q Hi) as [_ Hq].
    specialize (Hq eq_refl). specialize (Hst i). cbn [tstep t_procs] in *. rewrite Hi in Hst. by destruct q.
  - specialize (Hst j). cbn [tstep t_procs] in *. rewrite Hj in Hst. destruct p; try done.
    rewrite andb_false_r in Hst. by destruct (signal w procs).
Qed.

(** C31: the limit on uploads of the filer never strands one.  In any interleaving of any
    number of uploads, a state in which none can take a step is one in which all have ended: as
    the end of an upload signals under the mutex, an upload that has decided to wait is on
    the list before the last one in flight signals. *)
Theorem filer_uploads_end (limit : Z) (sizes : list Z) (t : throttle) :
  0 <= limit -> Forall (fun s => 0 <= s) sizes -> foldr Z.add 0 sizes < 2 ^ 63 ->
  treachable filer_upload limit sizes t -> stuck filer_upload limit t ->
  Forall (fun sp => snd sp = PDone) (t_procs t).
Proof.
  intros Hl Hs Hv Ht Hst. assert (tinv t) as Hinv by by eapply treachable_inv.
  destruct (treachable_live filer_upload limit sizes t eq_refl eq_refl Hl Hs Hv Ht) as [_ HA].
  apply Forall_lookup_2. intros i [s p] Hi. cbn [snd].
  destruct (decide (p = PDone)) as [|Hd]; [done|exfalso].
  destruct (decide (p = PParked)) as [->|Hp].
  - destruct HA as (j & s' & q & Hj & Hq).
    + pose proof (ti_parked _ Hinv i s Hi) as Hin. intros E. rewrite E in Hin. by apply elem_of_nil in Hin.
    + exact (active_not_stuck _ _ t j s' q Hinv Hj Hq Hst).
  - exact (active_not_stuck _ _ t i s p Hinv Hi (conj Hp Hd) Hst).
Qed.

(** Two uploads, one after the other. *)
Lemma filer_uploads_end_witness :
  exists t, trun filer_upload 100 [0; 0; 0; 0; 1; 1; 0; 1; 0; 1; 1; 1; 1; 1; 1]%nat (t_start [150; 70]) = Some t /\
    Forall (fun sp => snd sp = PDone) (t_procs t).
Proof.
  destruct (trun filer_upload 100 [0; 0; 0; 0; 1; 1; 0; 1; 0; 1; 1; 1; 1; 1; 1]%nat (t_start [150; 70])) as [t|] eqn:E;
    [|exfalso; vm_compute in E; discriminate].
  exists t. split; [reflexivity|]. apply (filer_uploads_end 100 [150; 70]).
  - lia.
  - repeat constructor; lia.
  - vm_compute. reflexivity.
  - eapply trun_reachable; [apply treach_start|exact E].
  - vm_compute in E. injection E as <-. intros [|[|i]]; reflexivity.
Defined.

(** ** A lost wake-up *)

(** The limit on uploads of a volume server can strand an upload for ever.  For any two
    uploads that each fit the limit but not together, there is an interleaving after which
    the first has ended, nothing is in flight, and the second waits on the list with no
    step left to take: the first ended, and signalled without the mutex, between the test of
    the second and its [Wait]. *)
Theorem volume_upload_stranded (limit a b : Z) :
  0 <= a <= limit -> 0 <= b <= limit -> limit < a + b < 2 ^ 63 ->
  exists t, treachable volume_upload limit [a; b] t /\ stuck volume_upload limit t /\
    t_inFlight t = 0 /\ t_procs t = [(a, PDone); (b, PParked)].
Proof.
  intros Ha Hb Hab. set (t := mkThrottle 0 None [1%nat] [(a, PDone); (b, PParked)]).
  exists t. split_and!; [|intros [|[|i]]; reflexivity|done..].
  apply (trun_reachable volume_upload limit [a; b] [0; 0; 0; 0; 1; 1; 0; 0; 1]%nat (t_start [a; b])); [apply treach_start|].
  assert (must_wait volume_upload limit 0 a = false) as H0
    by (apply bool_decide_eq_false_2; cbn; rewrite i64_small; lia).
  assert (must_wait volume_upload limit a b = true) as H1
    by (apply bool_decide_eq_true_2; cbn; rewrite i64_small; lia).
  unfold t_start. cbn [trun tstep fmap list_fmap lookup list_lookup mbind option_bind at_pc insert list_insert].
  rewrite !bool_decide_eq_true_2 by done. cbn. rewrite H0. cbn. rewrite Z.add_0_l, (i64_small a) by lia. rewrite H1. cbn.
  rewrite Z.sub_diag. reflexivity.
Qed.

Lemma volume_upload_stranded_witness :
  exists t, treachable volume_upload 100 [60; 60] t /\ stuck volume_upload 100 t /\
    t_inFlight t = 0 /\ t_procs t = [(60, PDone); (60, PParked)].
Proof. apply (volume_upload_stranded 100 60 60); lia. Defined.
