(* ===== verification/VolumeServer.v ===== *)
(** * VolumeServer: blobs over HTTP, replication and heartbeats

    Models [goblob/server/volume_server.go] with [goblob/replication].  A handler takes the
    request and returns the reply with the state it leaves.  The answer of the guard, the
    clock, the parts of a multipart body as the standard library delivers them and the HTTP
    client of the replicator are arguments; metrics and logs are left out, and the limits on
    concurrent transfers are in [Throttle]. *)

From S2P Require Import Prelude Bytes GoStrings Hashes Types OsFile Needle Fs Volume DiskStore Lru TopoNode GoPath Http.
From S2P Require Import GoText.

#[local] Open Scope Z_scope.
#[local] Open Scope string_scope.

(** A [bytes.Buffer] takes every write. *)
#[export] Instance buffer_Writer : Writer bytes := fun b w => (Ret tt, w ++ b)%list.

(** ** Configuration and state *)

Record DirectoryConfig := mkDirectoryConfig {
  dd_Path : string;
  dd_MaxVolumeCount : Z;
  dd_DiskType : string;
}.

Record VolumeServerOption := mkVolumeServerOption {
  vo_Host : string;
  vo_Port : Z;
  vo_GRPCPort : Z;
  vo_PublicUrl : string;
  vo_Masters : list string;
  vo_DataCenter : string;
  vo_Rack : string;
  vo_Directories : list DirectoryConfig;
  vo_FileSizeLimitMB : Z;
  vo_CacheMaxEntries : Z;
}.

(** [vs_replicator] says whether there is a replicator; [vs_replicaLocations] are the
    addresses it sends the writes of a volume to. *)
Record VolumeServer := mkVolumeServer {
  vs_option : VolumeServerOption;
  vs_store : option Store;
  vs_replicator : bool;
  vs_replicaLocations : gmap Z (list string);
  vs_currentMaster : string;
  vs_blobCache : option LRUCache;
}.

Definition set_store (s : Store) (vs : VolumeServer) : VolumeServer :=
  mkVolumeServer (vs_option vs) (Some s) (vs_replicator vs) (vs_replicaLocations vs) (vs_currentMaster vs) (vs_blobCache vs).
Definition set_cache (c : LRUCache) (vs : VolumeServer) : VolumeServer :=
  mkVolumeServer (vs_option vs) (vs_store vs) (vs_replicator vs) (vs_replicaLocations vs) (vs_currentMaster vs) (Some c).
Definition set_master (m : string) (vs : VolumeServer) : VolumeServer :=
  mkVolumeServer (vs_option vs) (vs_store vs) (vs_replicator vs) (vs_replicaLocations vs) m (vs_blobCache vs).
Definition set_replicas (m : gmap Z (list string)) (vs : VolumeServer) : VolumeServer :=
  mkVolumeServer (vs_option vs) (vs_store vs) (vs_replicator vs) m (vs_currentMaster vs) (vs_blobCache vs).

(** [NewVolumeServer]: the store is loaded from the directories; [disk d] is the size of a
    disk and [listing d] the names in the directory [d]. *)
Definition store_dirs (disk : string -> Z) (listing : string -> list (string * bool)) (opt : VolumeServerOption)
  : list dir_config :=
  (fun d => mkDirConfig (dd_Path d) (dd_MaxVolumeCount d) (disk (dd_Path d)) (listing (dd_Path d))) <$> vo_Directories opt.

Definition NewVolumeServer (disk : string -> Z) (listing : string -> list (string * bool)) (opt : VolumeServerOption)
    (fs : fsys) : outcome loc_err VolumeServer * fsys :=
  match NewStore (store_dirs disk listing opt) (mkStore [] fs) with
  | (Ret _, store) =>
      (Ret (mkVolumeServer opt (Some store) true ∅ ""
              (if decide (vo_CacheMaxEntries opt > 0) then Some (NewLRUCache (i64 (vo_CacheMaxEntries opt))) else None)),
       s_fs store)
  | (Fail e, store) => (Fail e, s_fs store)
  | (Panic, store) => (Panic, s_fs store)
  end.

(** ** [ReplicaLocations] *)

Definition rl_Update (vid : Z) (addrs : list string) (m : gmap Z (list string)) : gmap Z (list string) :=
  <[vid := addrs]> m.

Definition rl_Get (vid : Z) (m : gmap Z (list string)) : list string := default [] (m !! vid).

(** ** Requests and replies *)

(** What reading a stream delivers: its bytes, then its end or an error. *)
Record stream := mkStream { st_bytes : bytes; st_error : option string }.

(** A part of a multipart body; [mp_FileName] and [mp_FormName] are empty when the part
    has none. *)
Record mime_part := mkMimePart {
  mp_FileName : string;
  mp_FormName : string;
  mp_ContentType : string;
  mp_data : stream;
}.

(** [vr_fid] is the path below the root, the segment the routes match.  [vr_parts] is
    present when the content type is [multipart/form-data]: the parts that [NextPart]
    returns, and the error it ends with if it is not [io.EOF]; [vr_body] is what the body
    delivers when the code reads it itself. *)
Record vs_request := mkVsRequest {
  vr_fid : string;
  vr_allowed : bool;
  vr_XReplication : string;
  vr_Authorization : string;
  vr_ContentType : string;
  vr_parts : option (list mime_part * option string);
  vr_body : stream;
}.

Inductive payload_err := ErrPayloadTooLarge | ErrReadPayload (msg : string).

Inductive replica_err :=
| ErrReplicaSend (msg : string)
| ErrReplicaStatus (addr : string) (status : Z).

Inductive vs_msg :=
| MsgInvalidFileId
| MsgStoreNotInitialized
| MsgPayload (e : payload_err)
| MsgStore (e : loc_err)
| MsgReplication (errs : list replica_err).

Inductive vs_part :=
| Blob (b : bytes)
| Text (s : string)
| JsonMsg (m : vs_msg)
| JsonStored (size : Z) (eTag : string)
| JsonDeleted
| JsonStatus (volumes limit : Z).

Abbreviation vs_reply := (reply vs_part).

(** ** Reading an upload *)

(** [io.ReadAll(io.LimitReader(s, limit+1))] with the check of the length. *)
Definition read_limited (limit : Z) (s : stream) : payload_err + bytes :=
  let data := take (Z.to_nat (limit + 1)) (st_bytes s) in
  match st_error s with
  | Some msg => if decide (zlen (st_bytes s) > limit) then inl ErrPayloadTooLarge else inl (ErrReadPayload msg)
  | None => if decide (zlen data > limit) then inl ErrPayloadTooLarge else inr data
  end.

Definition octet_stream : string := "application/octet-stream".
Definition or_octet_stream (t : string) : string := if decide (t = "") then octet_stream else t.

(** The loop over the parts: [None] when no part holds a file. *)
Fixpoint read_parts (limit : Z) (parts : list mime_part) (ending : option string)
  : option (payload_err + (bytes * string * string)) :=
  match parts with
  | [] => (fun msg => inl (ErrReadPayload msg)) <$> ending
  | p :: rest =>
      if decide (mp_FileName p = "" /\ mp_FormName p <> "file") then read_parts limit rest ending else
      Some match read_limited limit (mp_data p) with
           | inl e => inl e
           | inr data => inr (data, mp_FileName p, or_octet_stream (mp_ContentType p))
           end
  end.

Definition readUploadPayload (r : vs_request) (limit : Z) : payload_err + (bytes * string * string) :=
  match vr_parts r ≫= (fun '(parts, ending) => read_parts limit parts ending) with
  | Some answer => answer
  | None =>
      match read_limited limit (vr_body r) with
      | inl e => inl e
      | inr data => inr (data, "", or_octet_stream (vr_ContentType r))
      end
  end.

(** [now] is the clock in nanoseconds. *)
Definition buildNeedleFromRequest (now : Z) (r : vs_request) (fid : FileId) (maxFileSizeMB : Z)
  : payload_err + (Needle * string) :=
  let limit := i64 (maxFileSizeMB * 1024 * 1024) in
  let limit := if decide (limit <= 0) then 4 * 1024 * 1024 else limit in
  match readUploadPayload r limit with
  | inl e => inl e
  | inr (data, filename, mimeType) =>
      let n := mkNeedle (fid_Cookie fid) (fid_NeedleId fid) 0 (u32 (zlen data)) data 0 [] [] [] 0 TTL_zero 0 0 in
      let n := if decide (filename <> "") then SetName (to_bytes filename) n else n in
      let n := if decide (mimeType <> "") then SetMime (to_bytes mimeType) n else n in
      let n := SetLastModified (u64 (now / 10 ^ 9)) n in
      inr (set_AppendAtNs (u64 now) n, md5_hex data)
  end.

Definition parseBearerToken (header : string) : string :=
  if bool_decide (7 < String.length header)%nat && HasPrefix header "Bearer " then str (drop 7 (chars header)) else "".

(** The local half of [handleWrite]: the upload goes to its volume, or the handler answers
    early. *)
Definition store_upload (now : Z) (r : vs_request) : GoM VolumeServer vs_reply (FileId * Needle * string) := fun vs =>
  if negb (vr_allowed r) then (Fail (WriteHeader 401 no_reply), vs) else
  match ParseFileId (vr_fid r) with
  | Ret fid =>
      match vs_store vs with
      | None => (Fail (answer 500 (JsonMsg MsgStoreNotInitialized)), vs)
      | Some store =>
          match buildNeedleFromRequest now r fid (vo_FileSizeLimitMB (vs_option vs)) with
          | inl ErrPayloadTooLarge => (Fail (answer 413 (JsonMsg (MsgPayload ErrPayloadTooLarge))), vs)
          | inl e => (Fail (answer 400 (JsonMsg (MsgPayload e))), vs)
          | inr (n, contentMD5) =>
              let '(res, store) := WriteVolumeNeedle (fid_VolumeId fid) n store in
              (match res with
               | Ret (_, _, n) => Ret (fid, n, contentMD5)
               | Fail e => Fail (answer 500 (JsonMsg (MsgStore e)))
               | Panic => Panic
               end, set_store store vs)
          end
      end
  | _ => (Fail (answer 400 (JsonMsg MsgInvalidFileId)), vs)
  end.

(** The reply to an upload that is stored. *)
Definition stored_reply (size : Z) (contentMD5 : string) : vs_reply :=
  write_part (JsonStored size contentMD5)
    (WriteHeader 201 (set_type "application/json" (set_etag contentMD5 no_reply))).

(** ** The replicator *)

Record ReplicateRequest := mkReplicateRequest {
  rr_VolumeId : Z;
  rr_NeedleId : Z;
  rr_NeedleBytes : bytes;
  rr_JWTToken : string;
}.

(** The request of [writeToReplica]; whether the replica's guard lets it in is up to the
    client that delivers it. *)
Definition replica_request (req : ReplicateRequest) : vs_request :=
  mkVsRequest (str (FormatUint (rr_VolumeId req) 10 ++ comma :: zero_pad 16 (FormatUint (rr_NeedleId req) 16))%list)
    true "true" (if decide (rr_JWTToken req <> "") then "Bearer " +:+ rr_JWTToken req else "") ""
    None (mkStream (rr_NeedleBytes req) None).

Section replicator.
Context {W : Type}.

(** [client.Do]: a request sent to an address gives an error or the status of the reply,
    and the state of the other servers after it. *)
Context (send : string -> vs_request -> W -> (string + Z) * W).

Definition writeToReplica (addr : string) (req : ReplicateRequest) (w : W) : option replica_err * W :=
  match send addr (replica_request req) w with
  | (inl msg, w) => (Some (ErrReplicaSend msg), w)
  | (inr status, w) => (if decide (status <> 201) then Some (ErrReplicaStatus addr status) else None, w)
  end.

Fixpoint write_replicas (addrs : list string) (req : ReplicateRequest) (w : W) : list replica_err * W :=
  match addrs with
  | [] => ([], w)
  | addr :: addrs =>
      let '(r, w) := writeToReplica addr req w in
      let '(errs, w) := write_replicas addrs req w in
      (match r with Some e => e :: errs | None => errs end, w)
  end.

(** The goroutines run in the order [order replicaAddrs]. *)
Definition ReplicatedWrite (order : list string -> list string) (req : ReplicateRequest) (replicaAddrs : list string)
    (w : W) : option (list replica_err) * W :=
  match replicaAddrs with
  | [] => (None, w)
  | _ =>
      let '(errs, w) := write_replicas (order replicaAddrs) req w in
      (match errs with [] => None | _ => Some errs end, w)
  end.

(** ** Writes *)

(** [n.WriteTo(needleBuf, CurrentNeedleVersion)]: the bytes of the record. *)
Definition serialise (n : Needle) : outcome needle_err bytes :=
  match WriteTo CurrentNeedleVersion (n, [] : bytes) with
  | (Ret _, (_, buf)) => Ret buf
  | (Fail e, _) => Fail e
  | (Panic, _) => Panic
  end.

Definition selfAddr (vs : VolumeServer) : string := vo_Host (vs_option vs) +:+ ":" +:+ Itoa (vo_Port (vs_option vs)).

Definition filtered (vid : Z) (vs : VolumeServer) : list string :=
  filter (fun addr => ~ (addr = selfAddr vs \/ addr = vo_PublicUrl (vs_option vs))) (rl_Get vid (vs_replicaLocations vs)).

(** The replication step of [handleWrite]: [Some] error list when a replica fails, and
    nothing is sent when the needle cannot be serialised. *)
Definition replicate_step (order : list string -> list string) (r : vs_request) (fid : FileId) (n : Needle)
    (vs : VolumeServer) (w : W) : outcome needle_err (option (list replica_err)) * W :=
  if decide (vr_XReplication r <> "true" /\ vs_replicator vs) then
    match serialise n with
    | Ret buf =>
        let '(e, w) := ReplicatedWrite order
          (mkReplicateRequest (fid_VolumeId fid) (fid_NeedleId fid) buf (parseBearerToken (vr_Authorization r)))
          (filtered (fid_VolumeId fid) vs) w in
        (Ret e, w)
    | Fail _ => (Ret None, w)
    | Panic => (Panic, w)
    end
  else (Ret None, w).

(** A handler that panics sends nothing: [None]. *)
Definition handleWrite (order : list string -> list string) (now : Z) (r : vs_request) (vs : VolumeServer) (w : W)
  : option vs_reply * (VolumeServer * W) :=
  match store_upload now r vs with
  | (Fail rep, vs) => (Some rep, (vs, w))
  | (Panic, vs) => (None, (vs, w))
  | (Ret (fid, n, contentMD5), vs) =>
      let '(rep, w) := replicate_step order r fid n vs w in
      match rep with
      | Ret (Some errs) => (Some (answer 500 (JsonMsg (MsgReplication errs))), (vs, w))
      | Ret None => (Some (stored_reply (zlen (n_Data n)) contentMD5), (vs, w))
      | _ => (None, (vs, w))
      end
  end.
End replicator.

(** ** Reads *)

(** The headers and the body of a blob. *)
Definition blob_reply (mimeType : string) (data : bytes) : vs_reply :=
  write_part (Blob data) (WriteHeader 200 (set_etag (md5_hex data) (set_length (zlen data) (set_type mimeType no_reply)))).

(** [Put], with as much fuel as there are elements to evict. *)
Definition cache_Put (key : string) (v : bytes) (c : LRUCache) : option LRUCache :=
  lru_Put (S (length (lru_ll c))) key v c.

Definition handleRead (r : vs_request) (vs : VolumeServer) : option vs_reply * VolumeServer :=
  if negb (vr_allowed r) then (Some (WriteHeader 401 no_reply), vs) else
  match ParseFileId (vr_fid r) with
  | Ret fid =>
      match vs_store vs with
      | None => (Some (WriteHeader 500 no_reply), vs)
      | Some store =>
          match lru_Get (vr_fid r) <$> vs_blobCache vs with
          | Some (Some cached, c) => (Some (blob_reply octet_stream cached), set_cache c vs)
          | _ =>
              match ReadVolumeNeedle (fid_VolumeId fid) fid store with
              | Fail _ => (Some (WriteHeader 404 no_reply), vs)
              | Panic => (None, vs)
              | Ret n =>
                  let vs := match vs_blobCache vs with
                    | Some c => match cache_Put (vr_fid r) (n_Data n) c with Some c => set_cache c vs | None => vs end
                    | None => vs
                    end in
                  (Some (blob_reply (or_octet_stream (of_bytes (GetMime n))) (n_Data n)), vs)
              end
          end
      end
  | _ => (Some (answer 400 (JsonMsg MsgInvalidFileId)), vs)
  end.

(** ** Deletes *)

Definition handleDelete (r : vs_request) (vs : VolumeServer) : option vs_reply * VolumeServer :=
  if negb (vr_allowed r) then (Some (WriteHeader 401 no_reply), vs) else
  match ParseFileId (vr_fid r) with
  | Ret fid =>
      match vs_store vs with
      | None => (Some (answer 500 (JsonMsg MsgStoreNotInitialized)), vs)
      | Some store =>
          let '(res, store) := DeleteVolumeNeedle (fid_VolumeId fid) (fid_NeedleId fid) store in
          let vs := set_store store vs in
          match res with
          | Fail e => (Some (answer 404 (JsonMsg (MsgStore e))), vs)
          | Panic => (None, vs)
          | Ret _ =>
              (Some (answer 202 JsonDeleted),
               match vs_blobCache vs with Some c => set_cache (Invalidate (vr_fid r) c) vs | None => vs end)
          end
      end
  | _ => (Some (answer 400 (JsonMsg MsgInvalidFileId)), vs)
  end.

(** ** Status *)

Definition volume_count (vs : VolumeServer) : Z :=
  match vs_store vs with
  | None => 0
  | Some s => fold_left (fun n dl => n + VolumeCount dl) (s_Locations s) 0
  end.

Definition handleStatus (vs : VolumeServer) : vs_reply :=
  write_part (JsonStatus (volume_count vs) (vo_FileSizeLimitMB (vs_option vs))) (set_type "application/json" no_reply).

Definition handleHealth : vs_reply := answer 200 (Text "OK").

Definition handleReady (vs : option VolumeServer) : vs_reply :=
  match vs ≫= vs_store with
  | None => answer 503 (Text "NOT READY")
  | Some _ => answer 200 (Text "READY")
  end.

Inductive load_err := ErrLoadNoStore | ErrLoad (e : loc_err).

(** [listings] are the names in the directories of the locations, in order. *)
Definition LoadNewVolumes (listings : list (list (string * bool))) (vs : VolumeServer)
  : outcome load_err unit * VolumeServer :=
  match vs_store vs with
  | None => (Fail ErrLoadNoStore, vs)
  | Some s =>
      let '(r, (locs, fs)) := ReloadExistingVolumes "" CurrentNeedleVersion listings (s_Locations s) (s_fs s) in
      (map_err ErrLoad r, set_store (mkStore locs fs) vs)
  end.

(** ** Heartbeats *)

(** The message of a volume, of which the topology reads the id, the collection, the
    placement, the time to live, the type of the disk and the read-only flag; the code
    sets neither the placement nor the time to live. *)
Definition volume_message (vid : Z) (v : Volume) : VolumeInfo :=
  mkVolumeInfo vid (v_collection v) 0 "" DefaultDiskType (v_ReadOnly v).

Definition BuildHeartbeat (order : gmap Z Volume -> list (Z * Volume)) (vs : VolumeServer) : Heartbeat :=
  let opt := vs_option vs in
  let maxCounts := (fun d => (dd_DiskType d, u32 (dd_MaxVolumeCount d))) <$> vo_Directories opt in
  let volumes :=
    match vs_store vs with
    | None => []
    | Some s =>
        dl ← s_Locations s; vid ← GetVolumes order dl;
        match s_GetVolume vid s with Some v => [volume_message vid v] | None => [] end
    end in
  mkHeartbeat (vo_Host opt) (u32 (vo_Port opt)) (vo_PublicUrl opt) (u32 (vo_GRPCPort opt)) (vo_DataCenter opt)
    (vo_Rack opt) volumes [] [] maxCounts.

(** [call] is the exchange with a master: the leader it names, or nothing when a step of
    the call fails. *)
Definition sendHeartbeat (order : gmap Z Volume -> list (Z * Volume)) (call : string -> Heartbeat -> option string)
    (vs : VolumeServer) : VolumeServer :=
  match vo_Masters (vs_option vs) with
  | [] => vs
  | first :: _ =>
      let masterAddr := if decide (vs_currentMaster vs = "") then ToGrpcAddress first else vs_currentMaster vs in
      match call masterAddr (BuildHeartbeat order vs) with
      | Some leader => if decide (leader <> "") then set_master (ToGrpcAddress leader) vs else vs
      | None => vs
      end
  end.
