(* ===== verification/VolumeServerSpec.v ===== *)
(** * VolumeServerSpec: what a volume server promises over HTTP

    A volume server without a cache is a map of blobs: over any history of uploads and
    deletions a download answers the last upload that took effect.  With the cache a download
    can answer an older blob, and a replica stores a blob under another id. *)

From S2P Require Import Prelude Bytes GoStrings Hashes Types OsFile Needle NeedleCodec Fs Volume VolumeSpec DiskStore.
From S2P Require Import StoreSpec Lru GoPath Http VolumeServer.

#[local] Open Scope Z_scope.
#[local] Open Scope string_scope.

(** ** The needle of an upload *)

Definition stream_wf (s : stream) : Prop := Forall is_byte (st_bytes s).

(** The bodies of a request are bytes. *)
Definition vs_request_wf (r : vs_request) : Prop :=
  stream_wf (vr_body r) /\ (forall parts e, vr_parts r = Some (parts, e) -> Forall (fun p => stream_wf (mp_data p)) parts).

(** The clock, an [int64] of nanoseconds after 1970. *)
Definition clock_ok (now : Z) : Prop := 0 <= now < 2 ^ 63.

Definition upload_limit (maxFileSizeMB : Z) : Z :=
  let limit := i64 (maxFileSizeMB * 1024 * 1024) in if decide (limit <= 0) then 4 * 1024 * 1024 else limit.

Lemma to_bytes_range s : Forall is_byte (to_bytes s).
Proof.
  unfold to_bytes. apply Forall_fmap, list.Forall_forall. intros c _. unfold compose, in_u. pose proof (code_range c). lia.
Qed.

Lemma of_to_bytes (l : list ascii) : char <$> (code <$> l) = l.
Proof. induction l as [|c l IH]; [done|]. by rewrite !fmap_cons, char_code, IH. Qed.

Lemma read_limited_ok limit s data :
  0 <= limit -> stream_wf s -> read_limited limit s = inr data ->
  data = st_bytes s /\ zlen data <= limit /\ Forall is_byte data.
Proof.
  intros Hl Hs. unfold read_limited. destruct (st_error s); [by case_decide|].
  case_decide as Hd; [done|]. intros [= <-]. rewrite length_take in *.
  rewrite take_ge by lia. split_and!; [done|lia|done].
Qed.

Lemma or_octet_stream_nonempty t : or_octet_stream t <> "".
Proof. unfold or_octet_stream. by case_decide. Qed.

Lemma read_parts_ok limit parts e data name mime :
  0 <= limit -> Forall (fun p => stream_wf (mp_data p)) parts -> read_parts limit parts e = Some (inr (data, name, mime)) ->
  zlen data <= limit /\ Forall is_byte data /\ mime <> "".
Proof.
  intros Hl. induction 1 as [|p parts Hp Hps IH]; simpl; [by destruct e|].
  case_decide; [done|]. destruct (read_limited limit (mp_data p)) as [e0|d] eqn:E; [done|].
  intros [= -> _ <-]. apply read_limited_ok in E as (_ & ? & ?); [|done..].
  split_and!; [done..|apply or_octet_stream_nonempty].
Qed.

Lemma readUploadPayload_ok limit r data name mime :
  0 <= limit -> vs_request_wf r -> readUploadPayload r limit = inr (data, name, mime) ->
  zlen data <= limit /\ Forall is_byte data /\ mime <> "".
Proof.
  intros Hl [Hb Hp]. unfold readUploadPayload.
  destruct (vr_parts r) as [[parts e]|] eqn:E; simpl.
  - destruct (read_parts limit parts e) as [x|] eqn:Er.
    + intros ->. exact (read_parts_ok limit parts e data name mime Hl (Hp _ _ eq_refl) Er).
    + destruct (read_limited limit (vr_body r)) as [e0|d] eqn:Ed; [done|].
      intros [= -> _ <-]. apply read_limited_ok in Ed as (_ & ? & ?); [|done..].
      split_and!; [done..|apply or_octet_stream_nonempty].
  - destruct (read_limited limit (vr_body r)) as [e0|d] eqn:Ed; [done|].
    intros [= -> _ <-]. apply read_limited_ok in Ed as (_ & ? & ?); [|done..].
    split_and!; [done..|apply or_octet_stream_nonempty].
Qed.

(** The content type under which a blob is served: names longer than the field are cut. *)
Definition served_type (mime : string) : string :=
  or_octet_stream (str (take (Z.to_nat MaxNeedleMimeSize) (chars mime))).

Definition needle_type (n : Needle) : string := or_octet_stream (of_bytes (GetMime n)).

Lemma upload_limit_range mb : 0 <= mb <= 4095 -> 0 < upload_limit mb <= 4095 * 2 ^ 20.
Proof. intros H. unfold upload_limit. rewrite i64_small by lia. case_decide; lia. Qed.

Lemma take_to_bytes k s : take k (to_bytes s) = code <$> take k (chars s).
Proof. unfold to_bytes. by rewrite fmap_take. Qed.

(** The needle [buildNeedleFromRequest] makes of a payload. *)
Definition upload_needle (now : Z) (fid : FileId) (data : bytes) (filename mimeType : string) : Needle :=
  let n := mkNeedle (fid_Cookie fid) (fid_NeedleId fid) 0 (u32 (zlen data)) data 0 [] [] [] 0 TTL_zero 0 0 in
  let n := if decide (filename <> "") then SetName (to_bytes filename) n else n in
  let n := if decide (mimeType <> "") then SetMime (to_bytes mimeType) n else n in
  set_AppendAtNs (u64 now) (SetLastModified (u64 (now / 10 ^ 9)) n).

Lemma buildNeedle_eq now r fid mb :
  buildNeedleFromRequest now r fid mb =
    match readUploadPayload r (upload_limit mb) with
    | inl e => inl e
    | inr (data, filename, mimeType) => inr (upload_needle now fid data filename mimeType, md5_hex data)
    end.
Proof. reflexivity. Qed.

Lemma upload_needle_fields now fid data name mime :
  let n := upload_needle now fid data name mime in
  n_Id n = fid_NeedleId fid /\ n_Cookie n = fid_Cookie fid /\ n_Data n = data /\ n_DataSize n = u32 (zlen data) /\
  n_AppendAtNs n = u64 now /\ n_LastModified n = u64 (now / 10 ^ 9) /\ n_Ttl n = TTL_zero /\ n_Pairs n = [] /\
  n_Name n = take (Z.to_nat MaxNeedleNameSize) (to_bytes name) /\
  n_Mime n = take (Z.to_nat MaxNeedleMimeSize) (to_bytes mime) /\
  n_Flags n = (if decide (name <> "") then 1 else 0) + (if decide (mime <> "") then 2 else 0) + 4.
Proof.
  unfold upload_needle. destruct (decide (name <> "")) as [|Hn]; destruct (decide (mime <> "")) as [|Hm];
    split_and!; try done; try (assert (name = "") as -> by (destruct (decide (name = "")); tauto); done);
    assert (mime = "") as -> by (destruct (decide (mime = "")); tauto); done.
Qed.

Lemma zlen_take_le {A} k (l : list A) : zlen (take (Z.to_nat k) l) <= Z.max 0 k.
Proof. rewrite length_take. lia. Qed.

Lemma upload_needle_ok now fid data name mime :
  clock_ok now -> FileId_wf fid -> Forall is_byte data -> zlen data <= 4095 * 2 ^ 20 -> mime <> "" ->
  let n := upload_needle now fid data name mime in
  needle_wf n /\ needle_canonical n CurrentNeedleVersion /\ needle_type n = served_type mime.
Proof.
  intros Hnow (Hv & Hi & Hc) Hb Hl Hm n.
  destruct (upload_needle_fields now fid data name mime) as (E1 & E2 & E3 & E4 & E5 & E6 & E7 & E8 & E9 & E10 & E11).
  fold n in E1, E2, E3, E4, E5, E6, E7, E8, E9, E10, E11. rewrite (decide_True _ _ Hm) in E11.
  assert (HasMime n = true /\ HasPairs n = false /\ HasTtl n = false /\ HasLastModified n = true) as (F1 & F2 & F3 & F4)
    by (unfold HasMime, HasPairs, HasTtl, HasLastModified, has_flag; rewrite E11; by destruct (decide (name <> ""))).
  assert (HasName n = false -> n_Name n = []) as F5.
  { unfold HasName, has_flag. rewrite E11, E9. destruct (decide (name <> "")) as [|Hn]; [done|].
    assert (name = "") as -> by (destruct (decide (name = "")); tauto). done. }
  assert (zlen (n_Name n) <= 255 /\ zlen (n_Mime n) <= 255) as [L1 L2].
  { rewrite E9, E10. pose proof (zlen_take_le MaxNeedleNameSize (to_bytes name)).
    pose proof (zlen_take_le MaxNeedleMimeSize (to_bytes mime)). unfold MaxNeedleNameSize, MaxNeedleMimeSize in *. lia. }
  unfold clock_ok in Hnow.
  assert (0 <= now / 10 ^ 9 < 2 ^ 40) as Hsec by (split; [apply Z.div_pos; lia|apply Z.div_lt_upper_bound; lia]).
  assert (zlen (enc_name n) <= 256 /\ zlen (enc_mime n) <= 256 /\ zlen (enc_pairs n) = 0 /\ zlen (enc_lastmod n) = 5 /\
    zlen (enc_ttl n) = 0) as (S1 & S2 & S3 & S4 & S5).
  { unfold enc_name, enc_mime, enc_pairs, enc_lastmod, enc_ttl. rewrite F1, F2, F3, F4.
    destruct (HasName n); cbn [length]; rewrite ?length_app; cbn [length]; split_and!; try done; try lia. }
  split; [|split].
  - split.
    + by rewrite E2.
    + by rewrite E1.
    + rewrite E4, E3. apply wrap_small. unfold in_u. lia.
    + by rewrite E3.
    + rewrite E11. by destruct (decide (name <> "")).
    + intros _. split; [done|]. rewrite E9. apply Forall_take, to_bytes_range.
    + intros _. split; [done|]. rewrite E10. apply Forall_take, to_bytes_range.
    + by rewrite F2.
    + intros _. rewrite E6, wrap_small by u_lia. done.
    + by rewrite F3.
    + rewrite E5. by apply wrap_range.
    + rewrite length_bodyBytes, E3. lia.
  - split_and!; [done|by rewrite F1|done|by rewrite F4|done|]. intros Hx. exfalso. by apply Hx.
  - unfold needle_type, served_type, GetMime, of_bytes. by rewrite F1, E10, take_to_bytes, of_to_bytes.
Qed.

(** ** The replication step *)

Lemma needle_wf_written n v : needle_wf n -> needle_wf (needle_written n v).
Proof. intros H. split; apply H. Qed.

Lemma serialise_run n : needle_wf n -> serialise n = Ret (needle_image n CurrentNeedleVersion).
Proof.
  intros Hwf. unfold serialise, WriteTo. erewrite bind_run by reflexivity. cbn [fst].
  erewrite bind_run by (rewrite buildBodyBytes_run by done; reflexivity).
  pose proof (bodysize_bounds n CurrentNeedleVersion Hwf) as Hbs.
  fold (needle_crc n). fold (needle_footer n CurrentNeedleVersion). fold (needle_bodysize n CurrentNeedleVersion).
  rewrite (u32_small (needle_bodysize n CurrentNeedleVersion)) by lia. fold (needle_header n CurrentNeedleVersion).
  unfold on_needle. rewrite bind_modify.
  do 3 (erewrite bind_run by (unfold Needle.write_part, io_Write, buffer_Writer; reflexivity)).
  pose proof (length_header n CurrentNeedleVersion) as Hh. rewrite Hh.
  replace (16 + zlen (bodyBytes n) + zlen (needle_footer n CurrentNeedleVersion)) with (16 + needle_bodysize n CurrentNeedleVersion)
    by (unfold needle_bodysize; lia).
  unfold needle_image. fold (needle_padding n CurrentNeedleVersion).
  pose proof (NeedleAlignPadding_bound (16 + needle_bodysize n CurrentNeedleVersion) ltac:(lia)).
  unfold when. case_bool_decide as Hp.
  - erewrite bind_run by (unfold Needle.write_part, io_Write, buffer_Writer; reflexivity). cbn. unfold needle_padding. by rewrite <- !app_assoc.
  - erewrite bind_run by reflexivity. cbn. unfold needle_padding.
    replace (NeedleAlignPadding (16 + needle_bodysize n CurrentNeedleVersion)) with 0 by lia. cbn [Z.to_nat replicate].
    by rewrite app_nil_r, <- app_assoc.
Qed.

(** ** The blobs of a server *)

(** A blob is its cookie, its data and its content type; it is stored under the id of a
    volume and the id of a needle. *)
Abbreviation blob := (Z * bytes * string)%type.
Abbreviation blobs := (gmap (Z * Z) blob).

Definition blob_of (n : Needle) : blob := (n_Cookie n, n_Data n, needle_type n).

Definition blobs_rep (b : blobs) (spec : needle_maps) : Prop :=
  forall vid nid, b !! (vid, nid) = blob_of <$> (spec !! vid ≫= (fun m => m !! nid)).

Definition fid_key (fid : FileId) : Z * Z := (fid_VolumeId fid, fid_NeedleId fid).

Lemma blobs_rep_write b spec fid n :
  blobs_rep b spec -> is_Some (spec !! fid_VolumeId fid) -> n_Id n = fid_NeedleId fid ->
  blobs_rep (<[fid_key fid := blob_of (needle_written n CurrentNeedleVersion)]> b)
    (alter (write_spec n) (fid_VolumeId fid) spec).
Proof.
  intros Hb [m0 Hm] Hn vid nid. unfold fid_key. destruct (decide (vid = fid_VolumeId fid)) as [->|Hv].
  - rewrite lookup_alter_eq, Hm. unfold write_spec. simpl. rewrite Hn. destruct (decide (nid = fid_NeedleId fid)) as [->|Hi].
    + by rewrite !lookup_insert_eq.
    + rewrite !lookup_insert_ne by congruence. rewrite Hb, Hm. done.
  - rewrite lookup_alter_ne, lookup_insert_ne by congruence. apply Hb.
Qed.

Lemma blobs_rep_delete b spec fid m :
  blobs_rep b spec -> spec !! fid_VolumeId fid = Some m ->
  blobs_rep (delete (fid_key fid) b) (alter (delete (fid_NeedleId fid)) (fid_VolumeId fid) spec).
Proof.
  intros Hb Hm vid nid. unfold fid_key. destruct (decide (vid = fid_VolumeId fid)) as [->|Hv].
  - rewrite lookup_alter_eq, Hm. simpl. destruct (decide (nid = fid_NeedleId fid)) as [->|Hi].
    + by rewrite !lookup_delete_eq.
    + rewrite !lookup_delete_ne by congruence. by rewrite Hb, Hm.
  - rewrite lookup_alter_ne, lookup_delete_ne by congruence. apply Hb.
Qed.

(** A server whose volumes hold the blobs [b]; no file grows beyond the reach of an offset. *)
Definition serves (b : blobs) (vs : VolumeServer) : Prop :=
  0 <= vo_FileSizeLimitMB (vs_option vs) <= 4095 /\
  exists s spec, vs_store vs = Some s /\ store_rep spec s /\ blobs_rep b spec.

(** A reply that says that only the append to the index file failed. *)
Definition index_refused (rep : vs_reply) : bool :=
  match rs_body rep with [JsonMsg (MsgStore e)] => stored (Fail e : outcome loc_err unit) | _ => false end.

(** What an upload stores: its blob under its key. *)
Definition upload_blob (r : vs_request) (maxFileSizeMB : Z) : option ((Z * Z) * blob) :=
  match ParseFileId (vr_fid r), readUploadPayload r (upload_limit maxFileSizeMB) with
  | Ret fid, inr (data, _, mime) => Some (fid_key fid, (fid_Cookie fid, data, served_type mime))
  | _, _ => None
  end.

(** The blobs after an upload that took effect. *)
Definition uploaded (r : vs_request) (maxFileSizeMB : Z) (b : blobs) : blobs :=
  match upload_blob r maxFileSizeMB with Some (key, v) => <[key := v]> b | None => b end.

Lemma store_upload_serves now r b vs :
  serves b vs -> clock_ok now -> vs_request_wf r ->
  let '(res, vs') := store_upload now r vs in
  (exists s, vs' = set_store s vs) /\
  match res with
  | Ret (fid, n, tag) =>
      exists key v, ParseFileId (vr_fid r) = Ret fid /\ upload_blob r (vo_FileSizeLimitMB (vs_option vs)) = Some (key, v) /\
        needle_wf n /\ n_Id n = fid_NeedleId fid /\ n_Data n = snd (fst v) /\ serves (<[key := v]> b) vs'
  | Fail rep =>
      status_of rep <> 201 /\
      serves (if index_refused rep then uploaded r (vo_FileSizeLimitMB (vs_option vs)) b else b) vs'
  | Panic => False
  end.
Proof.
  intros Hserves Hclk Hr. pose proof Hserves as (Hmb & s & spec & Hs & Hrep & Hb).
  assert (vs = set_store s vs) as Hvs by (destruct vs; simpl in *; by subst).
  unfold store_upload. destruct (vr_allowed r); cbn [negb]; [|by split; [exists s|split]].
  destruct (ParseFileId (vr_fid r)) as [fid|e|] eqn:Ef; [|by split; [exists s|split]..].
  rewrite Hs, buildNeedle_eq. unfold uploaded, upload_blob. rewrite Ef.
  destruct (readUploadPayload r _) as [e|[[data name] mime]] eqn:Ep.
  { destruct e; split; try (by exists s); by split. }
  destruct (upload_limit_range _ Hmb) as [Hl1 Hl2].
  destruct (readUploadPayload_ok _ r data name mime (Z.lt_le_incl _ _ Hl1) Hr Ep) as (Hlen & Hby & Hmime).
  destruct (upload_needle_ok now fid data name mime Hclk (ParseFileId_wf _ _ Ef) Hby ltac:(lia) Hmime) as (Hwf & Hcan & Hty).
  destruct (upload_needle_fields now fid data name mime) as (E1 & E2 & E3 & _).
  set (n := upload_needle now fid data name mime) in *. cbn [snd fst].
  pose proof (WriteVolumeNeedle_rep (fid_VolumeId fid) n spec s Hwf Hcan Hrep) as Hw.
  destruct (WriteVolumeNeedle (fid_VolumeId fid) n s) as [res s'].
  destruct Hw as (Hrep' & _ & Hnp & Hsome & Hn'). split; [by exists s'|].
  assert ((fid_Cookie fid, data, served_type mime) = blob_of (needle_written n CurrentNeedleVersion)) as Eb
    by (unfold blob_of; by rewrite <- Hty, <- E2, <- E3).
  assert (stored res = true -> serves (<[fid_key fid := (fid_Cookie fid, data, served_type mime)]> b) (set_store s' vs)) as Hok.
  { intros E. rewrite E in Hrep'. split; [done|]. exists s', (alter (write_spec n) (fid_VolumeId fid) spec).
    split; [done|]. split; [done|]. rewrite Eb. by apply blobs_rep_write; [|apply Hsome|]. }
  destruct res as [[[o sz] n']|e|]; [|split; [done|]|done].
  - rewrite (Hn' o sz n' eq_refl). exists (fid_key fid), (fid_Cookie fid, data, served_type mime).
    split_and!; [done..|by apply needle_wf_written|done|done|by apply Hok].
  - change (index_refused (answer 500 (JsonMsg (MsgStore e)))) with (stored (Fail e : outcome loc_err unit)).
    change (stored (Fail e)) with (stored (Fail e : outcome loc_err (Z * Z * Needle))).
    destruct (stored _) eqn:E; [by apply Hok|]. split; [done|]. by exists s', spec.
Qed.

(** ** Downloads and deletions *)

(** What a map of blobs answers to a download: the blob under the key, if the cookie is its
    own. *)
Definition expected_read (r : vs_request) (b : blobs) : vs_reply :=
  if negb (vr_allowed r) then WriteHeader 401 no_reply else
  match ParseFileId (vr_fid r) with
  | Ret fid =>
      match b !! fid_key fid with
      | Some (cookie, data, mime) =>
          if decide (cookie <> fid_Cookie fid) then WriteHeader 404 no_reply else blob_reply mime data
      | None => WriteHeader 404 no_reply
      end
  | _ => answer 400 (JsonMsg MsgInvalidFileId)
  end.

Lemma handleRead_serves r b vs :
  serves b vs -> vs_blobCache vs = None -> handleRead r vs = (Some (expected_read r b), vs).
Proof.
  intros (_ & s & spec & Hs & Hrep & Hb) Hc. unfold handleRead, expected_read.
  destruct (vr_allowed r); cbn [negb]; [|done]. destruct (ParseFileId (vr_fid r)) as [fid|e|]; [|done..].
  rewrite Hs, Hc. cbn [fmap option_fmap option_map].
  destruct (ReadVolumeNeedle_rep (fid_VolumeId fid) fid spec s Hrep) as [Hnp Hok].
  unfold fid_key. rewrite Hb. unfold spec_read in Hok.
  destruct (spec !! fid_VolumeId fid) as [m|]; cbn [mbind option_bind] in *;
    [|by destruct (ReadVolumeNeedle _ fid s); cbn in *; simplify_eq].
  destruct (m !! fid_NeedleId fid) as [n|]; cbn [mbind option_bind fmap option_fmap option_map] in *;
    [|by destruct (ReadVolumeNeedle _ fid s); cbn in *; simplify_eq].
  unfold blob_of. case_decide; destruct (ReadVolumeNeedle _ fid s); cbn in *; by simplify_eq.
Qed.

(** A request takes effect when it is acknowledged with [status], and also when only the
    append to the index file failed. *)
Definition effective (status : Z) (rep : vs_reply) : bool :=
  bool_decide (status_of rep = status) || index_refused rep.

Lemma handleDelete_serves r b vs :
  serves b vs -> vs_blobCache vs = None ->
  exists rep s', handleDelete r vs = (Some rep, set_store s' vs) /\
    serves (match ParseFileId (vr_fid r) with
      | Ret fid => if effective 202 rep then delete (fid_key fid) b else b | _ => b end) (set_store s' vs).
Proof.
  intros Hserves Hc. pose proof Hserves as (Hmb & s & spec & Hs & Hrep & Hb).
  assert (set_store s vs = vs) as Hvs by (destruct vs; simpl in *; by subst).
  unfold handleDelete. destruct (vr_allowed r); cbn [negb].
  2: { exists (WriteHeader 401 no_reply), s. rewrite Hvs. split; [done|]. by destruct (ParseFileId _). }
  destruct (ParseFileId (vr_fid r)) as [fid|e|] eqn:Ef; [|by eexists _, s; rewrite Hvs..]. rewrite Hs.
  destruct (ParseFileId_wf _ _ Ef) as (_ & Hid & _).
  pose proof (DeleteVolumeNeedle_rep (fid_VolumeId fid) (fid_NeedleId fid) spec s Hid Hrep) as Hd.
  destruct (DeleteVolumeNeedle (fid_VolumeId fid) (fid_NeedleId fid) s) as [res s'].
  destruct Hd as (Hrep' & _ & Hnp & Hsome).
  assert (serves (if stored res then delete (fid_key fid) b else b) (set_store s' vs)) as Hok.
  { split; [done|]. destruct (stored res); [|by exists s', spec]. destruct (Hsome eq_refl) as (m & Hm & _).
    eexists s', _. split; [done|]. split; [exact Hrep'|]. by eapply blobs_rep_delete. }
  destruct res as [[]|e|]; [| |done]; eexists _, s'; [|by split].
  cbn [vs_blobCache set_store]. by rewrite Hc.
Qed.

(** ** Histories of requests *)

Inductive http_op := HPut (now : Z) (r : vs_request) | HGet (r : vs_request) | HDelete (r : vs_request).

Definition http_op_wf (op : http_op) : Prop :=
  match op with HPut now r => clock_ok now /\ vs_request_wf r | _ => True end.

Section history.
Context {W : Type} (send : string -> vs_request -> W -> (string + Z) * W) (order : list string -> list string).

Definition exec_http (op : http_op) (vs : VolumeServer) (w : W) : option vs_reply * (VolumeServer * W) :=
  match op with
  | HPut now r => handleWrite send order now r vs w
  | HGet r => let '(rep, vs) := handleRead r vs in (rep, (vs, w))
  | HDelete r => let '(rep, vs) := handleDelete r vs in (rep, (vs, w))
  end.

(** The blobs change with the uploads and deletions that take effect and with nothing
    else. *)
Definition spec_http (maxFileSizeMB : Z) (op : http_op) (rep : vs_reply) (b : blobs) : blobs :=
  match op with
  | HPut _ r => if effective 201 rep then uploaded r maxFileSizeMB b else b
  | HGet _ => b
  | HDelete r => match ParseFileId (vr_fid r) with
                 | Ret fid => if effective 202 rep then delete (fid_key fid) b else b
                 | _ => b
                 end
  end.

Fixpoint exec_https (ops : list http_op) (b : blobs) (vs : VolumeServer) (w : W)
  : list (option vs_reply) * blobs * (VolumeServer * W) :=
  match ops with
  | [] => ([], b, (vs, w))
  | op :: ops =>
      let '(rep, (vs', w')) := exec_http op vs w in
      let '(reps, b', st) := exec_https ops
        (match rep with Some rep => spec_http (vo_FileSizeLimitMB (vs_option vs)) op rep b | None => b end) vs' w' in
      (rep :: reps, b', st)
  end.

(** The server of the history: no cache, and no replica known for any volume. *)
Definition plain (vs : VolumeServer) : Prop := vs_blobCache vs = None /\ vs_replicaLocations vs = ∅.

Lemma replicate_none r fid n vs w :
  vs_replicaLocations vs = ∅ -> needle_wf n -> replicate_step send order r fid n vs w = (Ret None, w).
Proof.
  intros Hr Hwf. unfold replicate_step. case_decide; [|done]. rewrite serialise_run by done.
  unfold filtered, rl_Get. by rewrite Hr.
Qed.

Lemma exec_http_serves op b vs w :
  serves b vs -> plain vs -> http_op_wf op ->
  exists rep vs', exec_http op vs w = (Some rep, (vs', w)) /\ plain vs' /\ vs_option vs' = vs_option vs /\
    serves (spec_http (vo_FileSizeLimitMB (vs_option vs)) op rep b) vs'.
Proof.
  intros Hs [Hc Hl] Hwf. destruct op as [now r|r|r]; cbn [exec_http http_op_wf] in *.
  - destruct Hwf as [Hclk Hr]. pose proof (store_upload_serves now r b vs Hs Hclk Hr) as H.
    unfold handleWrite. destruct (store_upload now r vs) as [res vs']. destruct H as ((s & ->) & H).
    destruct res as [[[fid n] tag]|rep|]; [| |done].
    + destruct H as (key & v & _ & Hu & Hwf & _ & _ & Hs'). rewrite replicate_none by done.
      eexists _, _. split; [done|]. split; [done|]. split; [done|]. cbn [spec_http]. unfold uploaded. by rewrite Hu.
    + destruct H as [Hne Hs']. exists rep, (set_store s vs). split; [done|]. split; [done|]. split; [done|]. cbn [spec_http].
      unfold effective. by rewrite bool_decide_eq_false_2 by done.
  - rewrite (handleRead_serves r b vs Hs Hc). by eexists _, vs.
  - destruct (handleDelete_serves r b vs Hs Hc) as (rep & s' & -> & Hs'). by eexists rep, _.
Qed.

Lemma exec_https_serves ops : forall b vs w,
  serves b vs -> plain vs -> Forall http_op_wf ops ->
  let '(reps, b', (vs', w')) := exec_https ops b vs w in
  Forall is_Some reps /\ w' = w /\ plain vs' /\ serves b' vs'.
Proof.
  induction ops as [|op ops IH]; intros b vs w Hs Hp Hwf; cbn [exec_https]; [done|].
  apply Forall_cons in Hwf as [Hop Hops].
  destruct (exec_http_serves op b vs w Hs Hp Hop) as (rep & vs' & -> & Hp' & Ho & Hs').
  specialize (IH _ vs' w Hs' Hp' Hops).
  destruct (exec_https ops _ vs' w) as [[reps b'] [vs2 w2]]. destruct IH as (H1 & H2 & H3 & H4).
  split_and!; [by constructor|done..].
Qed.
End history.


(** *** A sample server *)

Definition sample_option : VolumeServerOption := mkVolumeServerOption "h" 8080 18080 "h:8080" ["m:9333"] "dc" "r" [] 4 0.

(** A server with the new volume 7 in a directory of its own. *)
Definition sample_vs (dir : string) (replicas : gmap Z (list string)) (cache : option LRUCache) : VolumeServer :=
  match NewVolume dir "" 7 CurrentNeedleVersion (mkFs ∅ 4096 4096) with
  | (Ret v, fs) =>
      mkVolumeServer sample_option (Some (mkStore [mkDiskLocation dir 8 {[ 7 := v ]} 0 0 false] fs)) true replicas "" cache
  | _ => mkVolumeServer sample_option None true replicas "" cache
  end.

Lemma sample_vs_serves dir replicas cache : serves ∅ (sample_vs dir replicas cache).
Proof.
  destruct (store_rep_fresh dir "" 7 4096 4096 ltac:(lia) ltac:(lia)) as (v & fs & Hn & Hr). unfold sample_vs. rewrite Hn.
  split; [cbn; lia|]. eexists _, {[ 7 := ∅ ]}. split; [done|]. split; [done|]. intros vid nid.
  rewrite lookup_empty. destruct (decide (vid = 7)) as [->|].
  - by rewrite lookup_singleton_eq.
  - by rewrite lookup_singleton_ne.
Qed.

Definition sample_put (fid : string) (data : bytes) : vs_request :=
  mkVsRequest fid true "" "" "text/plain" None (mkStream data None).
Definition sample_get (fid : string) : vs_request := mkVsRequest fid true "" "" "" None (mkStream [] None).

Lemma sample_put_wf fid data : Forall is_byte data -> vs_request_wf (sample_put fid data).
Proof. by intros H. Qed.

Definition no_network (addr : string) (r : vs_request) (w : unit) : (string + Z) * unit := (inl "no route to host", w).

Definition fid_a : string := "7,000000000000002adeadbeef".
Definition fid_b : string := "7,2bdeadbeef".

Definition sample_https : list http_op :=
  [HPut 1000 (sample_put fid_a [1; 2]); HPut 2000 (sample_put fid_b [3]); HGet (sample_get fid_b);
   HPut 3000 (sample_put fid_a [4; 5; 6]); HDelete (sample_get fid_b); HDelete (sample_get fid_b)].


(** ** The cache *)

Lemma handleWrite_keeps_cache {W} (send : string -> vs_request -> W -> (string + Z) * W) order now r vs w :
  let '(_, (vs', _)) := handleWrite send order now r vs w in
  vs_blobCache vs' = vs_blobCache vs /\ (is_Some (vs_store vs) -> is_Some (vs_store vs')).
Proof.
  unfold handleWrite, store_upload. repeat (case_match; simplify_eq; try done); eauto.
Qed.

Lemma Invalidate_other key key' c : key <> key' -> lru_cache (Invalidate key' c) !! key = lru_cache c !! key.
Proof.
  intros Hne. unfold Invalidate. destruct (lru_cache c !! key'); [|done]. cbn. by rewrite lookup_delete_ne.
Qed.

(** The blob [old] is cached under the path [fid]. *)
Definition caches (fid : string) (old : bytes) (vs : VolumeServer) : Prop :=
  is_Some (vs_store vs) /\ exists c, vs_blobCache vs = Some c /\ lru_cache c !! fid = Some old.

(** An upload, or a deletion that spells its file id differently from [fid]. *)
Definition leaves_cached (fid : string) (op : http_op) : Prop :=
  match op with HPut _ _ => True | HGet _ => False | HDelete r => vr_fid r <> fid end.

Lemma exec_http_caches {W} (send : string -> vs_request -> W -> (string + Z) * W) order fid old op vs w :
  caches fid old vs -> leaves_cached fid op -> caches fid old (fst (snd (exec_http send order op vs w))).
Proof.
  intros ([s Hs] & c & Hc & Hold) Hop. destruct op as [now r|r|r]; [|done|]; cbn [exec_http].
  - pose proof (handleWrite_keeps_cache send order now r vs w) as H.
    destruct (handleWrite send order now r vs w) as [rep [vs' w']]. destruct H as [H1 H2]. split; [by apply H2|].
    exists c. cbn [fst snd]. by rewrite H1.
  - unfold handleDelete. rewrite Hs. unfold caches.
    repeat (case_match; simplify_eq; cbn [fst snd vs_store vs_blobCache set_cache set_store] in *); try (by eauto).
    split; [done|]. eexists. split; [done|]. by rewrite Invalidate_other.
Qed.

(** With the cache, a download can answer a blob that has been overwritten or deleted.
    Once a blob is cached under a path, a download of that path answers the cached bytes,
    with the generic content type, after any number of acknowledged uploads of other data to
    the same file id and after deletions of it under another spelling: uploads never
    invalidate the cache. *)
Theorem cached_reads_stale {W : Type} (send : string -> vs_request -> W -> (string + Z) * W) (order : list string -> list string)
    (ops : list http_op) (fid : string) (old : bytes) (b : blobs) (vs : VolumeServer) (w : W) (r : vs_request) (f : FileId) :
  caches fid old vs -> Forall (leaves_cached fid) ops -> vr_allowed r = true -> vr_fid r = fid -> ParseFileId fid = Ret f ->
  let '(_, _, (vs', _)) := exec_https send order ops b vs w in
  fst (handleRead r vs') = Some (blob_reply octet_stream old).
Proof.
  intros Hc Hops Hal Hr Hf. revert b vs w Hc. induction Hops as [|op ops Hop Hops IH]; intros b vs w Hc; cbn [exec_https].
  - destruct Hc as ([s Hs] & c & Hc & Hold). unfold handleRead. rewrite Hal, Hr, Hf, Hs, Hc. cbn.
    unfold lru_Get. by rewrite Hold.
  - pose proof (exec_http_caches send order fid old op vs w Hc Hop) as Hc'.
    destruct (exec_http send order op vs w) as [rep [vs' w']]. cbn [fst snd] in Hc'.
    specialize (IH (match rep with Some rep => spec_http (vo_FileSizeLimitMB (vs_option vs)) op rep b | None => b end) vs' w' Hc').
    by destruct (exec_https send order ops _ vs' w') as [[reps b'] [vs2 w2]].
Qed.

Definition statuses (reps : list (option vs_reply)) : list (option Z) := map (fun rep => option_map status_of rep) reps.

(** The cache of a server that has answered the first download of the blob. *)
Definition sample_cached : VolumeServer :=
  let vs := sample_vs "d" ∅ (Some (NewLRUCache 100)) in
  let '(_, (vs, _)) := handleWrite no_network (fun l => l) 1000 (sample_put fid_a [1; 2]) vs tt in
  snd (handleRead (sample_get fid_a) vs).

Lemma cached_reads_stale_witness :
  let '(reps, b', (vs', _)) :=
    exec_https no_network (fun l => l) [HPut 2000 (sample_put fid_a [4; 5; 6])] ∅ sample_cached tt in
  statuses reps = [Some 201] /\
  fst (handleRead (sample_get fid_a) vs') = Some (blob_reply octet_stream [1; 2]).
Proof.
  assert (caches fid_a [1; 2] sample_cached) as Hc.
  { split; [vm_compute; eexists; reflexivity|]. eexists. split; vm_compute; reflexivity. }
  assert (Forall (leaves_cached fid_a) [HPut 2000 (sample_put fid_a [4; 5; 6])]) as Hl by by repeat constructor.
  assert (let '(reps, _, _) := exec_https no_network (fun l => l) [HPut 2000 (sample_put fid_a [4; 5; 6])] ∅ sample_cached tt in
    statuses reps = [Some 201]) as Hs by (vm_compute; reflexivity).
  pose proof (cached_reads_stale no_network (fun l => l) [HPut 2000 (sample_put fid_a [4; 5; 6])] fid_a [1; 2] ∅ sample_cached tt
    (sample_get fid_a) (mkFileId 7 42 0xdeadbeef) Hc Hl eq_refl eq_refl ltac:(vm_compute; reflexivity)) as H.
  destruct (exec_https _ _ _ _ _ _) as [[reps b'] [vs' w']]. exact (conj Hs H).
Defined.
