(* ===== verification/Replication.v ===== *)
(** * Replication: what a replica stores

    A cluster of volume servers in which the replicator of one delivers its requests to the
    handlers of the others ([goblob/replication] and [goblob/server/volume_server.go]).  A
    replica receives the serialised record of a needle as the body of an ordinary upload,
    under a file id without the cookie; the theorem says where it puts it. *)

From S2P Require Import Prelude Bytes GoStrings Hashes Types OsFile Needle NeedleCodec Fs Volume VolumeSpec DiskStore.
From S2P Require Import StoreSpec Lru GoPath GoText Http VolumeServer VolumeServerSpec.

#[local] Open Scope Z_scope.

(** ** The path of a replica *)

Lemma digit_val_nonneg c d : digit_val c = Some d -> 0 <= d.
Proof. unfold digit_val. intros H. repeat case_decide; simplify_eq; lia. Qed.

(** The value of a numeral after a prefix of value [acc]. *)
Lemma parse_digits_acc base l acc :
  parse_digits base l acc = (fun b => acc * base ^ zlen l + b) <$> parse_digits base l 0.
Proof.
  revert acc. induction l as [|c l IH]; intros acc; cbn [parse_digits].
  { cbn. f_equal. lia. }
  destruct (digit_val c) as [d|]; cbn [mbind option_bind]; [|done]. case_decide; [|done].
  rewrite (IH (acc * base + d)), (IH (0 * base + d)). destruct (parse_digits base l 0); cbn [fmap option_fmap option_map]; [|done].
  f_equal. cbn [length]. rewrite Nat2Z.inj_succ, Z.pow_succ_r by lia. lia.
Qed.

Lemma parse_digits_bound base l n : 2 <= base -> parse_digits base l 0 = Some n -> 0 <= n < base ^ zlen l.
Proof.
  intros Hb. revert n. induction l as [|c l IH]; intros n; cbn [parse_digits].
  { intros [= <-]. cbn. lia. }
  destruct (digit_val c) as [d|] eqn:Ed; cbn [mbind option_bind]; [|done]. case_decide as Hd; [|done].
  rewrite parse_digits_acc. destruct (parse_digits base l 0) as [b|]; cbn [fmap option_fmap option_map]; [|done].
  intros [= <-]. specialize (IH b eq_refl). pose proof (digit_val_nonneg _ _ Ed).
  cbn [length]. rewrite Nat2Z.inj_succ, Z.pow_succ_r by lia. nia.
Qed.

(** The 16 hexadecimal digits of a needle id are read as 8 digits of a needle id and 8 of a
    cookie. *)
Lemma hex16_halves nid :
  in_u 64 nid ->
  let d := zero_pad 16 (FormatUint nid 16) in
  ParseUint (drop 8 d) 16 32 = Some (nid mod 2 ^ 32) /\ ParseUint (take 8 d) 16 64 = Some (nid / 2 ^ 32).
Proof.
  intros Hn d. pose proof (length_hex16 nid Hn) as Hl. fold d in Hl.
  assert (parse_digits 16 d 0 = Some nid) as Hp.
  { unfold d, zero_pad. rewrite (parse_zeros 16) by lia. apply format_parse; u_lia. }
  rewrite <- (take_drop 8 d), parse_digits_app in Hp.
  destruct (parse_digits 16 (take 8 d) 0) as [a|] eqn:Ea; cbn [mbind option_bind] in Hp; [|done].
  rewrite parse_digits_acc in Hp. destruct (parse_digits 16 (drop 8 d) 0) as [c|] eqn:Ec; cbn [fmap option_fmap option_map] in Hp; [|done].
  injection Hp as Hp. pose proof (parse_digits_bound 16 _ _ ltac:(lia) Ea) as Ba.
  pose proof (parse_digits_bound 16 _ _ ltac:(lia) Ec) as Bc.
  assert (length (take 8 d) = 8%nat /\ length (drop 8 d) = 8%nat) as [L1 L2] by (rewrite length_take, length_drop, Hl; done).
  rewrite L1 in Ba. rewrite L2 in Bc, Hp. change (16 ^ Z.of_nat 8) with (2 ^ 32) in *.
  assert (nid mod 2 ^ 32 = c /\ nid / 2 ^ 32 = a) as [-> ->] by (split; zlia).
  unfold ParseUint. destruct (drop 8 d) as [|? ?] eqn:E1; [done|]. destruct (take 8 d) as [|? ?] eqn:E2; [done|].
  rewrite Ec, Ea. cbn [mbind option_bind]. by rewrite !decide_True by lia.
Qed.

Lemma ParseFileId_replica req :
  in_u 32 (rr_VolumeId req) -> in_u 64 (rr_NeedleId req) ->
  ParseFileId (vr_fid (replica_request req)) =
    Ret (mkFileId (rr_VolumeId req) (rr_NeedleId req / 2 ^ 32) (rr_NeedleId req mod 2 ^ 32)).
Proof.
  intros Hv Hn. destruct (hex16_halves _ Hn) as [H1 H2]. unfold ParseFileId, replica_request. cbn [vr_fid].
  rewrite chars_str, index_byte_app by (apply FormatUint_no_byte; [lia|u_lia|left; by vm_compute]).
  rewrite take_app_length, drop_app_ge by lia.
  replace (S (length _) - length _)%nat with 1%nat by lia. simpl (drop 1 _). rewrite drop_0.
  rewrite length_hex16 by done. rewrite decide_False by lia.
  rewrite ParseUint_format by u_lia. change (16 - 8)%nat with 8%nat. by rewrite H1, H2.
Qed.

(** ** A cluster *)

Abbreviation cluster := (gmap string VolumeServer).

(** A request of the replicator, handled by the server at its address; [now] is that
    server's clock.  A replica never sends the write on. *)
Definition deliver (now : Z) (addr : string) (r : vs_request) (w : cluster) : (string + Z) * cluster :=
  match w !! addr with
  | None => (inl "connection refused"%string, w)
  | Some vs =>
      match handleWrite no_network (fun l => l) now r vs tt with
      | (Some rep, (vs, _)) => (inr (status_of rep), <[addr := vs]> w)
      | (None, (vs, _)) => (inl "EOF"%string, <[addr := vs]> w)
      end
  end.

Lemma image_bytes n v : needle_wf n -> Forall is_byte (needle_image n v).
Proof.
  intros Hwf. unfold needle_image, needle_header, needle_footer, needle_padding, buildFooterBytes.
  rewrite !Forall_app. split_and!; try apply be_put_bytes; [by apply bodyBytes_bytes| |].
  - case_decide; [apply be_put_bytes|constructor].
  - apply Forall_replicate. by vm_compute.
Qed.

(** Without replication, a write leaves the rest of the world alone. *)
Lemma handleWrite_replica now r vs w :
  vr_XReplication r = "true"%string ->
  handleWrite (W := unit) no_network (fun l => l) now r vs w =
    match store_upload now r vs with
    | (Fail rep, vs) => (Some rep, (vs, w))
    | (Panic, vs) => (None, (vs, w))
    | (Ret (fid, n, tag), vs) => (Some (stored_reply (zlen (n_Data n)) tag), (vs, w))
    end.
Proof.
  intros Hr. unfold handleWrite. destruct (store_upload now r vs) as [[[[fid n] tag]|rep|] vs']; [|done..].
  unfold replicate_step. rewrite decide_False by naive_solver. done.
Qed.

(** What the replica has after it accepts a request of the replicator. *)
Lemma replica_stores now req b vs :
  serves b vs -> clock_ok now -> Forall is_byte (rr_NeedleBytes req) ->
  in_u 32 (rr_VolumeId req) -> in_u 64 (rr_NeedleId req) ->
  let '(rep, (vs', _)) := handleWrite no_network (fun l => l) now (replica_request req) vs tt in
  vs_blobCache vs' = vs_blobCache vs /\
  ((status_of <$> rep) = Some 201 ->
   serves (<[(rr_VolumeId req, rr_NeedleId req / 2 ^ 32) :=
     (rr_NeedleId req mod 2 ^ 32, rr_NeedleBytes req, octet_stream)]> b) vs').
Proof.
  intros Hs Hclk Hb Hv Hn. rewrite handleWrite_replica by done.
  assert (vs_request_wf (replica_request req)) as Hwf by done.
  pose proof (store_upload_serves now _ b vs Hs Hclk Hwf) as H.
  destruct (store_upload now (replica_request req) vs) as [[[[fid n] tag]|rep|] vs']; destruct H as ((s & ->) & H); [| |done].
  - split; [done|]. intros _. destruct H as (key & v & _ & Hu & _ & _ & _ & Hs').
    unfold upload_blob in Hu. rewrite ParseFileId_replica in Hu by done. unfold readUploadPayload in Hu.
    cbn [vr_parts replica_request mbind option_bind vr_body] in Hu.
    destruct (read_limited _ _) as [|data] eqn:Er; [done|]. cbn [vr_ContentType replica_request] in Hu.
    destruct (upload_limit_range (vo_FileSizeLimitMB (vs_option vs)) (proj1 Hs)) as [Hl _].
    apply read_limited_ok in Er as (-> & _ & _); [|lia|done]. cbn [st_bytes] in Hu.
    injection Hu as <- <-. exact Hs'.
  - split; [done|]. intros Hst. destruct H as [Hne _]. simpl in Hst. congruence.
Qed.

Section replicated.
Context (order : list string -> list string) (now now' : Z) (r : vs_request) (fid : FileId) (addr : string).
Context (b b' : blobs) (primary replica : VolumeServer).

Hypothesis Horder : forall l, order l ≡ₚ l.
Hypothesis Hclk : clock_ok now.
Hypothesis Hclk' : clock_ok now'.
Hypothesis Hr : vs_request_wf r.
Hypothesis Hfid : ParseFileId (vr_fid r) = Ret fid.
Hypothesis Hrep : vr_XReplication r <> "true"%string.
Hypothesis Hprimary : serves b primary.
Hypothesis Hreplica : serves b' replica.
Hypothesis Hcaches : vs_blobCache primary = None /\ vs_blobCache replica = None.
Hypothesis Hreplicator : vs_replicator primary = true.
Hypothesis Hlocations : filtered (fid_VolumeId fid) primary = [addr].

Lemma replicated_write :
  let '(rep, (primary', w)) := handleWrite (deliver now') order now r primary {[ addr := replica ]} in
  (status_of <$> rep) = Some 201 ->
  exists key v n replica', upload_blob r (vo_FileSizeLimitMB (vs_option primary)) = Some (key, v) /\
    n_Data n = snd (fst v) /\
    serves (<[key := v]> b) primary' /\ vs_blobCache primary' = None /\
    w = {[ addr := replica' ]} /\ vs_blobCache replica' = None /\
    serves (<[(fid_VolumeId fid, fid_NeedleId fid / 2 ^ 32) :=
      (fid_NeedleId fid mod 2 ^ 32, needle_image n CurrentNeedleVersion, octet_stream)]> b') replica'.
Proof using All.
  pose proof (store_upload_serves now r b primary Hprimary Hclk Hr) as H. unfold handleWrite.
  destruct (store_upload now r primary) as [[[[fid0 n] tag]|rep|] p']; destruct H as ((s & ->) & H); [| |done].
  2: { intros Hst. destruct H as [Hne _]. simpl in Hst. congruence. }
  destruct H as (key & v & Hf & Hu & Hwf & _ & Hd & Hs). rewrite Hfid in Hf. injection Hf as <-.
  unfold replicate_step. rewrite decide_True by (split; [done|cbn [vs_replicator set_store]; by rewrite Hreplicator]).
  rewrite serialise_run by done. set (req := mkReplicateRequest _ _ _ _).
  replace (filtered (fid_VolumeId fid) (set_store s primary)) with [addr] by (rewrite <- Hlocations; reflexivity).
  unfold ReplicatedWrite. assert (order [addr] = [addr]) as -> by (apply Permutation_singleton_r, Horder).
  cbn [write_replicas]. unfold writeToReplica, deliver at 1. rewrite lookup_singleton_eq.
  destruct (ParseFileId_wf _ _ Hfid) as (Hv & Hi & _).
  pose proof (replica_stores now' req b' replica Hreplica Hclk' (image_bytes _ _ Hwf) Hv Hi) as H.
  destruct (handleWrite no_network (fun l => l) now' (replica_request req) replica tt) as [rep' [replica' u]].
  destruct H as [Hc' H]. destruct rep' as [rep'|].
  2: { cbn [fst snd]. by intros. }
  case_decide as Hst; [by intros|]. intros _.
  exists key, v, n, replica'. rewrite insert_singleton_eq. split_and!; try done; try apply Hcaches.
  - rewrite Hc'. apply Hcaches.
  - apply H. simpl. destruct (decide (status_of rep' = 201)) as [->|]; tauto.
Qed.
(** An acknowledged replicated write leaves nothing readable on the replica.  When the
    upload of a file id is answered with 201 by a server with one replica, the server serves
    the blob, but the replica answers 404 for the same file id: it has taken the first half of the
    needle id for the needle id and the second half for the cookie, and serves the whole serialised
    record, header and checksum included, as a blob under that other id. *)
Theorem replica_misplaces_blob (g g' : vs_request) :
  vr_fid g = vr_fid r -> vr_allowed g = true -> vr_allowed g' = true ->
  ParseFileId (vr_fid g') = Ret (mkFileId (fid_VolumeId fid) (fid_NeedleId fid / 2 ^ 32) (fid_NeedleId fid mod 2 ^ 32)) ->
  0 < fid_NeedleId fid -> b' !! fid_key fid = None ->
  let '(rep, (primary', w)) := handleWrite (deliver now') order now r primary {[ addr := replica ]} in
  (status_of <$> rep) = Some 201 ->
  exists replica' n mime, w = {[ addr := replica' ]} /\
    fst (handleRead g primary') = Some (blob_reply mime (n_Data n)) /\
    fst (handleRead g replica') = Some (WriteHeader 404 no_reply) /\
    fst (handleRead g' replica') = Some (blob_reply octet_stream (needle_image n CurrentNeedleVersion)).
Proof using All.
  intros Hg Hal Hal' Hf' Hpos Hnew. pose proof replicated_write as H.
  destruct (handleWrite (deliver now') order now r primary {[ addr := replica ]}) as [rep [primary' w]].
  intros Hst. destruct (H Hst) as (key & v & n & replica' & Hu & Hd & Hs & Hc & Hw & Hc' & Hs').
  unfold upload_blob in Hu. rewrite Hfid in Hu.
  destruct (readUploadPayload _ _) as [|[[data name] mime]]; [done|]. injection Hu as <- <-. cbn [fst snd] in Hd.
  destruct (ParseFileId_wf _ _ Hfid) as (_ & Hi & _). unfold in_u in Hi.
  exists replica', n, (served_type mime). split; [done|].
  rewrite (handleRead_serves g _ _ Hs Hc), (handleRead_serves g _ _ Hs' Hc'), (handleRead_serves g' _ _ Hs' Hc').
  cbn [fst]. unfold expected_read. rewrite Hal, Hal', Hf', Hg, Hfid. cbn [negb].
  unfold fid_key in *. cbn [fid_VolumeId fid_NeedleId fid_Cookie].
  rewrite lookup_insert_eq, lookup_insert_eq, lookup_insert_ne, Hnew by (intros [= E]; zlia). rewrite Hd.
  split_and!; [|done|]; by rewrite decide_False by tauto.
Qed.
End replicated.

Definition sample_record : vs_request := sample_get "7,000000000000002a"%string.

Lemma replica_misplaces_blob_witness :
  let '(rep, (primary', w)) := handleWrite (deliver 2000) (fun l => l) 1000 (sample_put fid_a [1; 2])
    (sample_vs "d"%string {[ 7 := ["h:8080"; "peer:8080"]%string ]} None) {[ "peer:8080"%string := sample_vs "e"%string ∅ None ]} in
  (status_of <$> rep) = Some 201 /\
  exists replica' n mime, w = {[ "peer:8080"%string := replica' ]} /\
    fst (handleRead (sample_get fid_a) primary') = Some (blob_reply mime (n_Data n)) /\
    fst (handleRead (sample_get fid_a) replica') = Some (WriteHeader 404 no_reply) /\
    fst (handleRead sample_record replica') = Some (blob_reply octet_stream (needle_image n CurrentNeedleVersion)).
Proof.
  set (p := sample_vs "d"%string {[ 7 := ["h:8080"; "peer:8080"]%string ]} None). set (q := sample_vs "e"%string ∅ None).
  set (f := mkFileId 7 42 0xdeadbeef).
  assert (clock_ok 1000 /\ clock_ok 2000) as [Hk1 Hk2] by (split; vm_compute; split; congruence).
  assert (vs_request_wf (sample_put fid_a [1; 2])) as Hwf by (apply sample_put_wf; repeat constructor; vm_compute; congruence).
  assert (ParseFileId (vr_fid (sample_put fid_a [1; 2])) = Ret f) as Hf by (vm_compute; reflexivity).
  assert (ParseFileId (vr_fid sample_record) = Ret (mkFileId 7 (42 / 2 ^ 32) (42 mod 2 ^ 32))) as Hf' by (vm_compute; reflexivity).
  assert (vs_blobCache p = None /\ vs_blobCache q = None) as Hc by (split; vm_compute; reflexivity).
  assert (vs_replicator p = true) as Hrp by (vm_compute; reflexivity).
  assert (filtered 7 p = ["peer:8080"%string]) as Hl by (vm_compute; reflexivity).
  assert (let '(rep, _) := handleWrite (deliver 2000) (fun l => l) 1000 (sample_put fid_a [1; 2]) p
    {[ "peer:8080"%string := q ]} in (status_of <$> rep) = Some 201) as Hst by (vm_compute; reflexivity).
  pose proof (replica_misplaces_blob (fun l => l) 1000 2000 (sample_put fid_a [1; 2]) f "peer:8080"%string ∅ ∅ p q
    (fun l => Permutation_refl l) Hk1 Hk2 Hwf Hf ltac:(done) (sample_vs_serves _ _ _) (sample_vs_serves _ _ _) Hc Hrp Hl
    (sample_get fid_a) sample_record eq_refl eq_refl eq_refl Hf' eq_refl eq_refl) as H.
  destruct (handleWrite _ _ _ _ _ _) as [rep [primary' w]]. split; [exact Hst|exact (H Hst)].
Defined.
