(* ===== verification/VolumeGrpc.v ===== *)
(** * VolumeGrpc: the administration of volumes

    Models [goblob/server/volume_grpc_server.go].  A call returns its response or its status
    with the state of the server after it.  For the server streams the messages sent are
    returned; whether the [k]-th [Send] succeeds and what another server answers are
    arguments.  The progress of a copy is taken in the rationals, where the code rounds it to
    a [float32]. *)

From Stdlib Require Import QArith.QArith_base.
From S2P Require Import Prelude Bytes GoStrings Types OsFile Needle NeedleCodec Fs NeedleMap Volume DiskStore Lru.
From S2P Require Import Http VolumeServer.

#[local] Open Scope Z_scope.

Inductive grpc_err :=
| Unavailable
| InvalidArgument
| AlreadyExists (vid : Z)
| NotFound (vid : Z)
| ResourceExhausted (e : loc_err)
| Internal (e : copy_err)
| SendFailed
with copy_err :=
| ErrCopyRead (nid : Z) (e : vol_err)
| ErrCopyStream
| ErrCopyWrite (e : loc_err)
| ErrCopySend.

(** The [Error] field of a response; none when it is empty. *)
Inductive resp_err :=
| InvalidVolumeId
| VolumeNotFound (vid : Z)
| RespStore (e : loc_err).

(** A call on the store, which must be there. *)
Definition with_store {A} (m : Store -> outcome grpc_err A * Store) : GoM VolumeServer grpc_err A := fun vs =>
  match vs_store vs with
  | None => (Fail Unavailable, vs)
  | Some s => let '(r, s) := m s in (r, set_store s vs)
  end.

(** The outcome of a store call as the [Error] field of a response. *)
Definition respond {A} (r : outcome loc_err A) : outcome grpc_err (option resp_err) :=
  match r with Ret _ => Ret None | Fail e => Ret (Some (RespStore e)) | Panic => Panic end.

(** ** Allocation and deletion *)

Definition g_AllocateVolume (vid : Z) (collection : string) : GoM VolumeServer grpc_err (option resp_err) :=
  with_store (fun s =>
    if decide (vid = 0) then (Ret (Some InvalidVolumeId), s) else
    let '(r, s) := AllocateVolume vid collection CurrentNeedleVersion s in (respond r, s)).

(** The first location that has the volume deletes it. *)
Fixpoint deleteVolume_in (vid : Z) (locs : list DiskLocation) (fs : fsys) : outcome loc_err unit * (list DiskLocation * fsys) :=
  match locs with
  | [] => (Fail ErrVolumeNotFound, ([], fs))
  | dl :: rest =>
      match dl_GetVolume vid dl with
      | Some _ => let '(r, (dl, fs)) := DeleteVolume vid (dl, fs) in (r, (dl :: rest, fs))
      | None => let '(r, (rest, fs)) := deleteVolume_in vid rest fs in (r, (dl :: rest, fs))
      end
  end.

Definition deleteVolume (vid : Z) : GoM Store loc_err unit := fun s =>
  let '(r, (locs, fs)) := deleteVolume_in vid (s_Locations s) (s_fs s) in (r, mkStore locs fs).

Definition VolumeDelete (vid : Z) : GoM VolumeServer grpc_err (option resp_err) :=
  with_store (fun s => let '(r, s) := deleteVolume vid s in (respond r, s)).

(** ** Compaction and flags *)

(** A method of the volume [vid]; a missing volume is an error of the response. *)
Definition on_found {A} (vid : Z) (m : GoM (Volume * fsys) vol_err A) (k : A -> option resp_err)
  : GoM VolumeServer grpc_err (option resp_err) :=
  with_store (fun s =>
    match s_GetVolume vid s with
    | None => (Ret (Some (VolumeNotFound vid)), s)
    | Some _ =>
        let '(r, s) := on_volume vid m s in
        (match r with Ret a => Ret (k a) | Fail e => Ret (Some (RespStore e)) | Panic => Panic end, s)
    end).

(** [v.Compact(threshold)] and [v.CommitCompact(result)]; [now] is the clock and [order] the
    iteration order of the index. *)
Definition VolumeCompact (order : gmap Z needleValue -> list (Z * needleValue)) (now vid : Z) (garbageThreshold : Q)
  : GoM VolumeServer grpc_err (option resp_err) :=
  on_found vid (CompactVolume order now garbageThreshold) (fun _ => None).

Definition set_ReadOnly (b : bool) (v : Volume) : Volume :=
  mkVolume (v_id v) (v_dir v) (v_collection v) (v_dataFile v) (v_nm v) (v_SuperBlock v) b (v_noWriteOrDelete v).

Definition VolumeMarkReadonly (vid : Z) (isReadonly : bool) : GoM VolumeServer grpc_err (option resp_err) :=
  on_found vid (modify (fun '(v, fs) => (set_ReadOnly isReadonly v, fs))) (fun _ => None).

Definition VolumeCommitCompact (vid : Z) : GoM VolumeServer grpc_err (option resp_err) :=
  with_store (fun s =>
    (match s_GetVolume vid s with None => Ret (Some (VolumeNotFound vid)) | Some _ => Ret None end, s)).

(** The read-only flag and the size of the volume. *)
Definition VolumeStatus (vid : Z) (vs : VolumeServer) : outcome grpc_err (resp_err + bool * Z) :=
  match vs_store vs with
  | None => Fail Unavailable
  | Some s =>
      match s_GetVolume vid s with
      | None => Ret (inl (VolumeNotFound vid))
      | Some v => Ret (inr (v_ReadOnly v, u64 (UsedSize (v, s_fs s))))
      end
  end.

(** ** Reading all needles *)

Record needle_item := mkNeedleItem {
  ni_NeedleId : Z;
  ni_Cookie : Z;
  ni_Offset : Z;
  ni_Size : Z;
  ni_Data : bytes;
  ni_Mime : bytes;
  ni_FileName : bytes;
  ni_IsDeleted : bool;
}.

Definition item_of (e : Z * needleValue) (n : Needle) : needle_item :=
  mkNeedleItem (fst e) (n_Cookie n) (nv_offset (snd e)) (nv_size (snd e)) (n_Data n) (GetMime n) (GetName n) (IsDeleted n).

(** The loop over the live entries; the result is the items sent and the error that ends
    the stream. *)
Fixpoint send_needles (send : nat -> bool) (k : nat) (v : Volume) (fs : fsys) (entries : list (Z * needleValue))
  : list needle_item * outcome grpc_err unit :=
  match entries with
  | [] => ([], Ret tt)
  | e :: entries =>
      match GetNeedle (fst e) (v, fs) with
      | Fail err => ([], Fail (Internal (ErrCopyRead (fst e) err)))
      | Panic => ([], Panic)
      | Ret n =>
          if negb (send k) then ([], Fail SendFailed) else
          let '(items, r) := send_needles send (S k) v fs entries in (item_of e n :: items, r)
      end
  end.

Definition ReadAllNeedles (send : nat -> bool) (order : gmap Z needleValue -> list (Z * needleValue)) (vid : Z) (vs : VolumeServer)
  : list needle_item * outcome grpc_err unit :=
  match vs_store vs with
  | None => ([], Fail Unavailable)
  | Some s =>
      match s_GetVolume vid s with
      | None => ([], Fail (NotFound vid))
      | Some v => send_needles send 0 v (s_fs s) (SnapshotLiveNeedleEntries order v)
      end
  end.

(** ** Copying a volume *)

Definition copyProgressPercent (processed total : Z) : Q :=
  if decide (total = 0) then 0%Q else
  let pct := ((processed * 100) # Z.to_pos total)%Q in
  if Qle_bool 100 pct then 100%Q else pct.

(** The needle made of an item. *)
Definition copied_needle (i : needle_item) : Needle :=
  let n := mkNeedle (ni_Cookie i) (ni_NeedleId i) 0 (u32 (zlen (ni_Data i))) (ni_Data i) 0 [] [] [] 0 TTL_zero 0 0 in
  let n := if decide (ni_FileName i <> []) then SetName (ni_FileName i) n else n in
  if decide (ni_Mime i <> []) then SetMime (ni_Mime i) n else n.

(** A message of the copy: the bytes processed and the percentage. *)
Record copy_msg := mkCopyMsg { cm_ProcessedBytes : Z; cm_ProcessPercent : Q }.

Record copy_state := mkCopyState {
  cs_store : Store;
  cs_processed : Z;
  cs_lastProgress : Q;
  cs_sent : list copy_msg;
}.

(** One item of the source's stream.  [send k] tells whether the message after [k] others
    goes out. *)
Definition copy_item (send : nat -> bool) (vid total : Z) (i : needle_item) (c : copy_state) : outcome copy_err unit * copy_state :=
  if ni_IsDeleted i then
    let '(r, s) := DeleteVolumeNeedle vid (ni_NeedleId i) (cs_store c) in
    (match r with Panic => Panic | _ => Ret tt end, mkCopyState s (cs_processed c) (cs_lastProgress c) (cs_sent c))
  else
    match WriteVolumeNeedle vid (copied_needle i) (cs_store c) with
    | (Fail e, s) => (Fail (ErrCopyWrite e), mkCopyState s (cs_processed c) (cs_lastProgress c) (cs_sent c))
    | (Panic, s) => (Panic, mkCopyState s (cs_processed c) (cs_lastProgress c) (cs_sent c))
    | (Ret _, s) =>
        let processed := u64 (cs_processed c + ni_Size i) in
        let progress := copyProgressPercent processed total in
        if Qle_bool (cs_lastProgress c + 5) progress || Qeq_bool progress 100 then
          if send (length (cs_sent c))
          then (Ret tt, mkCopyState s processed progress (cs_sent c ++ [mkCopyMsg processed progress]))
          else (Fail ErrCopySend, mkCopyState s processed progress (cs_sent c))
        else (Ret tt, mkCopyState s processed (cs_lastProgress c) (cs_sent c))
    end.

(** [stream] is what the source sends, and whether the stream ends in an error. *)
Fixpoint copy_items (send : nat -> bool) (vid total : Z) (items : list needle_item) (broken : bool) (c : copy_state)
  : outcome copy_err unit * copy_state :=
  match items with
  | [] => (if broken then Fail ErrCopyStream else Ret tt, c)
  | i :: items =>
      match copy_item send vid total i c with
      | (Ret _, c) => copy_items send vid total items broken c
      | rc => rc
      end
  end.

(** The cleanup of a copy that does not complete. *)
Definition cleanup {A} (vid : Z) (r : A) (c : copy_state) : A * Store * list copy_msg :=
  (r, snd (deleteVolume vid (cs_store c)), cs_sent c).

(** [status] is the size the source reports, if it answers; [items] and [broken] are its
    stream. *)
Definition copy_from (send : nat -> bool) (status : option Z) (items : list needle_item) (broken : bool) (vid : Z) (s : Store)
  : outcome grpc_err unit * Store * list copy_msg :=
  let c := mkCopyState s 0 0%Q [] in
  if negb (send 0%nat) then cleanup vid (Fail SendFailed) c else
  let c := mkCopyState s 0 0%Q [mkCopyMsg 0 0%Q] in
  match copy_items send vid (default 0 status) items broken c with
  | (Fail e, c) => cleanup vid (Fail (Internal e)) c
  | (Panic, c) => cleanup vid Panic c
  | (Ret _, c) =>
      if send (length (cs_sent c))
      then (Ret tt, cs_store c, cs_sent c ++ [mkCopyMsg (cs_processed c) 100%Q])
      else (Fail SendFailed, cs_store c, cs_sent c)
  end.

Definition VolumeCopy (send : nat -> bool) (status : option Z) (items : list needle_item) (broken : bool)
    (vid : Z) (collection source : string) (vs : VolumeServer) : outcome grpc_err unit * VolumeServer * list copy_msg :=
  match vs_store vs with
  | None => (Fail Unavailable, vs, [])
  | Some s =>
      if decide (vid = 0 \/ source = ""%string) then (Fail InvalidArgument, vs, []) else
      match s_GetVolume vid s with
      | Some _ => (Fail (AlreadyExists vid), vs, [])
      | None =>
          match AllocateVolume vid collection CurrentNeedleVersion s with
          | (Fail e, s) => (Fail (ResourceExhausted e), set_store s vs, [])
          | (Panic, s) => (Panic, set_store s vs, [])
          | (Ret _, s) =>
              let '(r, s, msgs) := copy_from send status items broken vid s in (r, set_store s vs, msgs)
          end
      end
  end.
