(* ===== verification/VolumeCopySpec.v ===== *)
(** * VolumeCopySpec: what a copy of a volume holds

    The stream of needles one volume server sends and the copy another makes of it
    ([ReadAllNeedles] and [VolumeCopy] of [goblob/server/volume_grpc_server.go]), seen as maps
    of blobs. *)

From Stdlib Require Import QArith.QArith_base.
From stdpp Require Import sorting.
From S2P Require Import Prelude Bytes GoStrings Types OsFile Needle NeedleCodec SuperBlock Fs NeedleMap Volume VolumeSpec.
From S2P Require Import VolumeCompact DiskStore StoreSpec Lru Http VolumeServer VolumeServerSpec VolumeGrpc.

#[local] Open Scope Z_scope.

(** ** The needles of a volume *)

Lemma has_flag_read flag n v : has_flag flag (needle_read n v) = has_flag flag n.
Proof. reflexivity. Qed.

Lemma needle_wf_read n v : needle_wf n -> needle_wf (needle_read n v).
Proof.
  intros H. pose proof H as [H1 H2 H3 H4 H5 H6 H7 H8 H9 H10 H11 H12].
  unfold HasName, HasMime, HasPairs, HasLastModified, HasTtl in *.
  split; unfold HasName, HasMime, HasPairs, HasLastModified, HasTtl; try done;
    try (intros Hf; rewrite has_flag_read in Hf; cbn; unfold HasName, HasMime, HasPairs, HasLastModified, HasTtl; rewrite Hf; by auto).
  - cbn. case_decide; [done|]. by vm_compute.
  - by rewrite bodyBytes_read.
Qed.

Lemma vol_live_wf m v fs id n : vol_live m v fs -> m !! id = Some n -> needle_wf n /\ n_Id n = id.
Proof.
  intros (h & body & db & _ & _ & _ & _ & _ & _ & _ & Hag) Hn. specialize (Hag id).
  destruct (db_m db !! id) as [nv|]; [|congruence]. destruct (isDeleted nv); [congruence|].
  destruct Hag as (n0 & Hn0 & Hwf & Hid & _). rewrite Hn in Hn0. injection Hn0 as ->.
  split; [by apply needle_wf_read|done].
Qed.

(** The snapshot of the index lists the live needles, each once. *)
Lemma snapshot_spec m v fs order :
  vol_live m v fs -> map_order order ->
  NoDup (SnapshotLiveNeedleEntries order v).*1 /\
  forall id, id ∈ (SnapshotLiveNeedleEntries order v).*1 <-> is_Some (m !! id).
Proof.
  intros (h & body & db & _ & _ & _ & _ & _ & Hnm & _ & Hag) Ho. unfold SnapshotLiveNeedleEntries. rewrite Hnm.
  pose proof (merge_sort_Permutation entry_le (filter (fun e => isDeleted e.2 = false) (order (db_m db)))) as Hp.
  split.
  - rewrite Hp. assert (NoDup (order (db_m db)).*1) as Hnd by (rewrite (Ho (db_m db)); apply NoDup_fst_map_to_list).
    clear -Hnd. induction (order (db_m db)) as [|e l IH]; [constructor|]. cbn in Hnd. apply NoDup_cons in Hnd as [Hni Hnd].
    rewrite filter_cons. case_decide; [|by apply IH]. cbn. apply NoDup_cons. split; [|by apply IH].
    intros (x & Hx & Hin)%list_elem_of_fmap. apply list_elem_of_filter in Hin as [_ Hin]. apply Hni.
    rewrite Hx. by apply list_elem_of_fmap_2.
  - intros id. rewrite Hp. specialize (Hag id). rewrite list_elem_of_fmap. split.
    + intros ([id' nv] & -> & [Hd Hin]%list_elem_of_filter). cbn in *. rewrite (Ho (db_m db)) in Hin.
      apply elem_of_map_to_list in Hin. rewrite Hin, Hd in Hag. destruct Hag as (n & -> & _). eauto.
    + intros [n Hn]. destruct (db_m db !! id) as [nv|] eqn:E; [|congruence].
      destruct (isDeleted nv) eqn:Ed; [congruence|]. exists (id, nv). split; [done|].
      apply list_elem_of_filter. split; [done|]. rewrite (Ho (db_m db)). by apply elem_of_map_to_list.
Qed.

(** ** The stream *)

Definition item_ok (m : gmap Z Needle) (i : needle_item) : Prop :=
  exists e n, m !! fst e = Some n /\ i = item_of e n.

Lemma send_needles_all m v fs l k :
  vol_live m v fs -> Forall (fun e => is_Some (m !! fst e)) l ->
  exists items, send_needles (fun _ => true) k v fs l = (items, Ret tt) /\
    Forall (item_ok m) items /\ (ni_NeedleId <$> items) = l.*1.
Proof.
  intros Hv Hl. revert k. induction Hl as [|e l [n Hn] Hl IH]; intros k; cbn [send_needles].
  { exists []. split; [done|]. by split. }
  pose proof (GetNeedle_rep _ _ _ (fst e) Hv) as Hg. rewrite Hn in Hg. rewrite Hg. cbn [negb].
  destruct (IH (S k)) as (items & -> & Hok & Hids). exists (item_of e n :: items). split; [done|]. split.
  - constructor; [by exists e, n|done].
  - cbn. by rewrite Hids.
Qed.

(** ** The needle of an item *)

Lemma GetMime_wf n : needle_wf n -> zlen (GetMime n) <= MaxNeedleMimeSize /\ Forall is_byte (GetMime n).
Proof. intros H. pose proof (wf_mime _ H) as Hm. unfold GetMime. destruct (HasMime n); [by auto|by split]. Qed.

Lemma GetName_wf n : needle_wf n -> zlen (GetName n) <= MaxNeedleNameSize /\ Forall is_byte (GetName n).
Proof. intros H. pose proof (wf_name _ H) as Hm. unfold GetName. destruct (HasName n); [by auto|by split]. Qed.

Lemma not_cons_nil (l : bytes) : ~ l <> [] -> l = [].
Proof. destruct l; [done|]. intros H. exfalso. by apply H. Qed.

Lemma copied_fields i :
  zlen (ni_FileName i) <= MaxNeedleNameSize -> zlen (ni_Mime i) <= MaxNeedleMimeSize ->
  copied_needle i = mkNeedle (ni_Cookie i) (ni_NeedleId i) 0 (u32 (zlen (ni_Data i))) (ni_Data i)
    ((if decide (ni_FileName i <> []) then 1 else 0) + (if decide (ni_Mime i <> []) then 2 else 0))
    (ni_FileName i) (ni_Mime i) [] 0 TTL_zero 0 0.
Proof.
  intros Hn Hm. unfold MaxNeedleNameSize, MaxNeedleMimeSize in *.
  assert (take (Z.to_nat 255) (ni_FileName i) = ni_FileName i) as T1 by (apply take_ge; lia).
  assert (take (Z.to_nat 255) (ni_Mime i) = ni_Mime i) as T2 by (apply take_ge; lia).
  unfold copied_needle. destruct (decide (ni_FileName i <> [])) as [E1|E1]; destruct (decide (ni_Mime i <> [])) as [E2|E2];
    unfold SetName, SetMime, add_flag, set_Flags, set_Name, set_Mime, MaxNeedleNameSize, MaxNeedleMimeSize;
    cbn [n_Cookie n_Id n_Size n_DataSize n_Data n_Flags n_Name n_Mime n_Pairs n_LastModified n_Ttl n_Checksum n_AppendAtNs];
    rewrite ?T1, ?T2; try (apply not_cons_nil in E1; rewrite E1); try (apply not_cons_nil in E2; rewrite E2); reflexivity.
Qed.

Lemma length_body_le n :
  needle_wf n -> zlen (n_Data n) + 5 + zlen (GetName n) + zlen (GetMime n) + (if decide (GetName n = []) then 0 else 1) +
    (if decide (GetMime n = []) then 0 else 1) <= zlen (bodyBytes n).
Proof.
  intros _. rewrite length_bodyBytes. unfold enc_name, enc_mime, GetName, GetMime.
  destruct (HasName n), (HasMime n); cbn [length]; rewrite ?length_app; cbn [length]; repeat case_decide; done || lia.
Qed.

Lemma copied_ok e n :
  needle_wf n -> n_Id n = fst e ->
  let c := copied_needle (item_of e n) in
  needle_wf c /\ needle_canonical c CurrentNeedleVersion /\ n_Id c = fst e /\
  blob_of (needle_written c CurrentNeedleVersion) = blob_of n.
Proof.
  intros Hwf Hid c. destruct (GetMime_wf n Hwf) as [Hm1 Hm2]. destruct (GetName_wf n Hwf) as [Hn1 Hn2].
  pose proof (length_body_le n Hwf) as Hlen. pose proof (wf_total _ Hwf) as Htot.
  assert (zlen (n_Data n) <= zlen (bodyBytes n)) as Hdata by (rewrite length_bodyBytes; lia).
  unfold c. rewrite copied_fields by done. cbn [item_of ni_Cookie ni_NeedleId ni_Data ni_FileName ni_Mime].
  set (fl := (if decide (GetName n <> []) then 1 else 0) + _).
  set (x := mkNeedle _ _ _ _ _ _ _ _ _ _ _ _ _).
  assert (HasName x = bool_decide (GetName n <> []) /\ HasMime x = bool_decide (GetMime n <> []) /\ HasPairs x = false /\
    HasLastModified x = false /\ HasTtl x = false) as (F1 & F2 & F3 & F4 & F5).
  { unfold HasName, HasMime, HasPairs, HasLastModified, HasTtl, has_flag. cbn [x n_Flags]. unfold fl.
    destruct (decide (GetName n <> [])) as [E1|E1];
      [rewrite (bool_decide_eq_true_2 (GetName n <> [])) by done|rewrite (bool_decide_eq_false_2 (GetName n <> [])) by done];
      (destruct (decide (GetMime n <> [])) as [E2|E2];
       [rewrite (bool_decide_eq_true_2 (GetMime n <> [])) by done|rewrite (bool_decide_eq_false_2 (GetMime n <> [])) by done]); done. }
  split_and!.
  - split; cbn [x n_Cookie n_Id n_Size n_DataSize n_Data n_Flags n_Name n_Mime n_Pairs n_LastModified n_Ttl n_Checksum n_AppendAtNs].
    + apply Hwf.
    + rewrite <- Hid. apply Hwf.
    + rewrite wrap_small; [done|]. unfold in_u. lia.
    + apply Hwf.
    + unfold fl. repeat case_decide; by vm_compute.
    + by intros _.
    + by intros _.
    + by rewrite F3.
    + by rewrite F4.
    + by rewrite F5.
    + by vm_compute.
    + rewrite length_bodyBytes. unfold enc_name, enc_mime, enc_pairs, enc_lastmod, enc_ttl. rewrite F1, F2, F3, F4, F5.
      cbn [x n_Data n_Name n_Mime]. repeat case_bool_decide; repeat case_decide; cbn [length]; rewrite ?length_app; cbn [length]; lia || tauto.
  - split_and!; try done; cbn [x n_Name n_Mime]; [rewrite F1|rewrite F2];
      intros Hb%bool_decide_eq_false_1; by apply not_cons_nil.
  - done.
  - unfold blob_of. f_equal. unfold needle_type. f_equal. f_equal.
    change (GetMime (needle_written x CurrentNeedleVersion)) with (GetMime x). unfold GetMime at 1. rewrite F2. cbn [x n_Mime].
    by case_bool_decide as Hb; [|rewrite Hb].
Qed.

(** ** The loop of the copy *)

(** What a copy keeps of a blob: all of it, unless it is empty. *)
Definition kept_blob (b : blob) : option blob := if decide (snd (fst b) = []) then None else Some b.

Lemma IsDeleted_empty n : needle_wf n -> IsDeleted n = bool_decide (n_Data n = []).
Proof.
  intros Hwf. unfold IsDeleted. rewrite (wf_datasize _ Hwf). apply bool_decide_ext.
  destruct (n_Data n); cbn; split; try done; lia.
Qed.

Lemma alter_insert (f : gmap Z Needle -> gmap Z Needle) vid (spec : needle_maps) m :
  spec !! vid = Some m -> alter f vid spec = <[vid := f m]> spec.
Proof.
  intros Hm. apply map_eq. intros i. destruct (decide (i = vid)) as [->|Hi].
  - by rewrite lookup_alter_eq, Hm, lookup_insert_eq.
  - by rewrite lookup_alter_ne, lookup_insert_ne by congruence.
Qed.

Section copy.
Context (send : nat -> bool) (vid total : Z) (src : gmap Z Needle).

(** The source's needles, as a volume holds them. *)
Hypothesis Hsrc : forall id n, src !! id = Some n -> needle_wf n /\ n_Id n = id.

Lemma copy_item_rep i c spec m :
  store_rep spec (cs_store c) -> spec !! vid = Some m -> item_ok src i -> m !! ni_NeedleId i = None ->
  let '(r, c') := copy_item send vid total i c in
  fs_limit (s_fs (cs_store c')) = fs_limit (s_fs (cs_store c)) /\ r <> Panic /\
  (r = Ret tt -> exists m', store_rep (<[vid := m']> spec) (cs_store c') /\
     forall id, blob_of <$> m' !! id =
       if decide (id = ni_NeedleId i) then (blob_of <$> src !! id) ≫= kept_blob else blob_of <$> m !! id).
Proof using Hsrc.
  intros Hrep Hm (e & n & Hn & ->) Hnew. destruct (Hsrc _ _ Hn) as [Hwf Hid].
  unfold copy_item. cbn [item_of ni_IsDeleted ni_NeedleId ni_Size] in *. rewrite (IsDeleted_empty n Hwf).
  assert (in_u 64 (fst e)) as Hu by (rewrite <- Hid; apply Hwf). case_bool_decide as Hempty.
  - pose proof (DeleteVolumeNeedle_rep vid (fst e) spec (cs_store c) Hu Hrep) as Hd.
    destruct (DeleteVolumeNeedle vid (fst e) (cs_store c)) as [r s']. destruct Hd as (Hrep' & Hl & Hnp & Hret).
    cbn [cs_store]. split; [done|]. split; [by destruct r|]. intros _. exists m.
    assert (stored r = false) as Hok.
    { destruct (stored r); [|done]. destruct (Hret eq_refl) as (m0 & Hm0 & [n0 Hn0]). congruence. }
    rewrite Hok in Hrep'. rewrite insert_id by done. split; [exact Hrep'|]. intros id. case_decide; [|done]. subst id.
    rewrite Hnew, Hn. cbn. unfold kept_blob. cbn. by rewrite decide_True.
  - destruct (copied_ok e n Hwf Hid) as (Hwf' & Hcan & Hcid & Hblob). set (c0 := copied_needle (item_of e n)) in *.
    pose proof (WriteVolumeNeedle_rep vid c0 spec (cs_store c) Hwf' Hcan Hrep) as Hw.
    destruct (WriteVolumeNeedle vid c0 (cs_store c)) as [[[[o sz] n']|err|] s']; destruct Hw as (Hrep' & Hl & Hnp & _ & Hret);
      [|by split|done].
    cbn [stored] in Hrep'. rewrite (alter_insert _ _ _ m Hm) in Hrep'. unfold write_spec in Hrep'. rewrite Hcid in Hrep'.
    assert (forall id, blob_of <$> <[fst e := needle_written c0 CurrentNeedleVersion]> m !! id =
      if decide (id = fst e) then (blob_of <$> src !! id) ≫= kept_blob else blob_of <$> m !! id) as Hb.
    { intros id. case_decide as Hi.
      - subst id. rewrite lookup_insert_eq, Hn. cbn [fmap option_fmap option_map mbind option_bind]. rewrite Hblob.
        unfold kept_blob. cbn [blob_of fst snd]. by rewrite decide_False.
      - by rewrite lookup_insert_ne. }
    destruct (Qle_bool _ _ || _); [destruct (send _)|]; (split; [exact Hl|]); (split; [done|]); [|done|]; intros _; by eexists.
Qed.

Lemma copy_items_rep items : forall c spec m,
  store_rep spec (cs_store c) -> spec !! vid = Some m -> Forall (item_ok src) items ->
  NoDup (ni_NeedleId <$> items) -> Forall (fun i => m !! ni_NeedleId i = None) items ->
  let '(r, c') := copy_items send vid total items false c in
  fs_limit (s_fs (cs_store c')) = fs_limit (s_fs (cs_store c)) /\ r <> Panic /\
  (r = Ret tt -> exists m', store_rep (<[vid := m']> spec) (cs_store c') /\
     forall id, blob_of <$> m' !! id =
       if decide (id ∈ ni_NeedleId <$> items) then (blob_of <$> src !! id) ≫= kept_blob else blob_of <$> m !! id).
Proof using Hsrc.
  induction items as [|i items IH]; intros c spec m Hrep Hm Hok Hnd Hnew; cbn [copy_items].
  { split; [done|]. split; [done|]. intros _. exists m. rewrite insert_id by done. split; [done|].
    intros id. by rewrite decide_False by apply not_elem_of_nil. }
  apply Forall_cons in Hok as [Hi Hok]. apply Forall_cons in Hnew as [Hn Hnew]. rewrite fmap_cons in Hnd.
  apply NoDup_cons in Hnd as [Hni Hnd].
  pose proof (copy_item_rep i c spec m Hrep Hm Hi Hn) as H.
  destruct (copy_item send vid total i c) as [[[]|err|] c']; destruct H as (Hl & Hp & H); [|by split|done].
  destruct (H eq_refl) as (m' & Hrep' & Hb).
  specialize (IH c' (<[vid := m']> spec) m' Hrep' (lookup_insert_eq _ _ _) Hok Hnd).
  assert (Forall (fun i => m' !! ni_NeedleId i = None) items) as Hnew'.
  { rewrite list.Forall_forall in *. intros j Hj. specialize (Hb (ni_NeedleId j)). rewrite (Hnew j Hj) in Hb.
    rewrite decide_False in Hb by (intros E; apply Hni; rewrite <- E; by apply list_elem_of_fmap_2).
    by destruct (m' !! ni_NeedleId j). }
  specialize (IH Hnew').
  destruct (copy_items send vid total items false c') as [r c'']. destruct IH as (Hl' & Hp' & IH).
  split; [by rewrite Hl'|]. split; [done|]. intros Hr. destruct (IH Hr) as (m2 & Hrep2 & Hb2). exists m2.
  rewrite insert_insert_eq in Hrep2.
  split; [done|]. intros id. rewrite Hb2, Hb, fmap_cons. repeat case_decide; try done; set_solver.
Qed.
End copy.

(** ** The copy *)

(** The blobs of a server that has copied the volume [vid] of a server with the blobs
    [b] to its own [b']. *)
Definition copy_blobs (vid : Z) (b b' : blobs) : blobs :=
  filter (fun kv => fst (fst kv) = vid) (omap kept_blob b) ∪ filter (fun kv => fst (fst kv) <> vid) b'.

Lemma lookup_copy_blobs vid b b' v i :
  copy_blobs vid b b' !! (v, i) = if decide (v = vid) then b !! (v, i) ≫= kept_blob else b' !! (v, i).
Proof.
  unfold copy_blobs. rewrite lookup_union, !map_lookup_filter, lookup_omap. case_decide as E; cbn.
  - subst v. destruct (b !! (vid, i) ≫= kept_blob) as [x|]; cbn; [rewrite option_guard_True by done; cbn|].
    + by destruct (b' !! (vid, i)); cbn; rewrite ?option_guard_False by tauto.
    + by destruct (b' !! (vid, i)); cbn; rewrite ?option_guard_False by tauto.
  - destruct (b !! (v, i) ≫= kept_blob) as [x|]; cbn; [rewrite option_guard_False by done|];
      destruct (b' !! (v, i)); cbn; by rewrite ?option_guard_True by done.
Qed.

Lemma blobs_rep_copy vid b b' spec spec' src m' :
  blobs_rep b spec -> spec !! vid = Some src -> blobs_rep b' spec' ->
  (forall id, blob_of <$> m' !! id = (blob_of <$> src !! id) ≫= kept_blob) ->
  blobs_rep (copy_blobs vid b b') (<[vid := m']> spec').
Proof.
  intros Hb Hs Hb' Hm v i. rewrite lookup_copy_blobs. case_decide as E.
  - subst v. rewrite lookup_insert_eq, Hb, Hs. cbn [mbind option_bind]. by rewrite Hm.
  - rewrite lookup_insert_ne by congruence. apply Hb'.
Qed.

Lemma copy_from_rep send status items vid s spec src :
  (forall id n, src !! id = Some n -> needle_wf n /\ n_Id n = id) ->
  store_rep spec s -> spec !! vid = Some ∅ -> Forall (item_ok src) items -> NoDup (ni_NeedleId <$> items) ->
  (forall id, id ∈ ni_NeedleId <$> items <-> is_Some (src !! id)) ->
  let '(r, s', _) := copy_from send status items false vid s in
  r = Ret tt -> fs_limit (s_fs s') = fs_limit (s_fs s) /\
    exists m', store_rep (<[vid := m']> spec) s' /\
      forall id, blob_of <$> m' !! id = (blob_of <$> src !! id) ≫= kept_blob.
Proof.
  intros Hsrc Hrep Hm Hok Hnd Hids. unfold copy_from. destruct (send 0%nat); cbn [negb]; [|done].
  set (c := mkCopyState s 0 0%Q [mkCopyMsg 0 0%Q]).
  pose proof (copy_items_rep send vid (default 0 status) src Hsrc items c spec ∅ Hrep Hm Hok Hnd) as H.
  destruct (copy_items send vid (default 0 status) items false c) as [[[]|e|] c'];
    destruct H as (Hl & _ & H); [by apply list.Forall_forall; intros; apply lookup_empty| |
      by apply list.Forall_forall; intros; apply lookup_empty|done|by apply list.Forall_forall; intros; apply lookup_empty|done].
  destruct (H eq_refl) as (m' & Hrep' & Hb).
  destruct (send (length (cs_sent c'))); [|done]. intros _. split; [exact Hl|]. exists m'. split; [done|]. intros id.
  rewrite Hb. case_decide as E; [done|]. rewrite lookup_empty. destruct (src !! id) eqn:Es; [|done].
  exfalso. apply E. apply Hids. by rewrite Es.
Qed.

(** The stream of a volume, and a copy made of it. *)
Lemma volume_copied order send status vid collection source b b' spec m v fs tgt s' :
  map_order order -> blobs_rep b spec -> spec !! vid = Some m -> vol_live m v fs ->
  serves b' tgt -> vs_store tgt = Some s' -> s_GetVolume vid s' = None -> no_files vid s' ->
  vid <> 0 -> source <> ""%string ->
  exists items, send_needles (fun _ => true) 0 v fs (SnapshotLiveNeedleEntries order v) = (items, Ret tt) /\
    NoDup (ni_NeedleId <$> items) /\ (forall id, id ∈ ni_NeedleId <$> items <-> is_Some (m !! id)) /\
    let '(r, tgt', _) := VolumeCopy send status items false vid collection source tgt in
    r = Ret tt -> serves (copy_blobs vid b b') tgt'.
Proof.
  intros Ho Hb Hm Hvr (Hmb & t0 & spec' & Ht0 & Hrep' & Hb') Ht Hnone Hnf Hvid Hsrc0.
  rewrite Ht in Ht0. injection Ht0 as <-.
  destruct (snapshot_spec m v fs order Hvr Ho) as [Hnd Hids].
  destruct (send_needles_all m v fs (SnapshotLiveNeedleEntries order v) 0 Hvr) as (items & -> & Hok & Hi).
  { apply list.Forall_forall. intros e He. apply Hids. by apply list_elem_of_fmap_2. }
  exists items. rewrite Hi. split_and!; [done..|]. unfold VolumeCopy. rewrite Ht, decide_False by tauto. rewrite Hnone.
  pose proof (AllocateVolume_rep vid collection spec' s' Hrep' Hnone Hnf) as Ha.
  destruct (AllocateVolume vid collection CurrentNeedleVersion s') as [[[]|e|] s1]; destruct Ha as (Hl1 & _ & Ha); [|done..].
  pose proof (copy_from_rep send status items vid s1 (<[vid := ∅]> spec') m) as H.
  destruct (copy_from send status items false vid s1) as [[r s2] msgs]. intros ->.
  destruct H as (Hl2 & m' & Hrep2 & Hb2); try done.
  - intros id n. by apply vol_live_wf with (v := v) (fs := fs).
  - apply lookup_insert_eq.
  - by rewrite Hi.
  - intros id. rewrite Hi. apply Hids.
  - split; [done|]. rewrite insert_insert_eq in Hrep2. eexists s2, _. split; [done|]. split; [exact Hrep2|].
    by eapply blobs_rep_copy.
Qed.

(** C7: copying a volume to another server copies its blobs.  The source streams every
    live needle of the volume; and when a server that does not have the volume completes the
    copy, it serves its own blobs as before and, for the copied volume, exactly the source's
    blobs, with their cookies, data and content types, except the empty ones, which are
    taken for deleted and left out. *)
Theorem VolumeCopy_copies (order : gmap Z needleValue -> list (Z * needleValue)) (send : nat -> bool) (status : option Z)
    (vid : Z) (collection source : string) (b b' : blobs) (src tgt : VolumeServer) (s s' : Store) :
  map_order order -> serves b src -> vs_store src = Some s -> is_Some (s_GetVolume vid s) ->
  serves b' tgt -> vs_store tgt = Some s' -> s_GetVolume vid s' = None -> no_files vid s' ->
  vid <> 0 -> source <> ""%string ->
  let '(items, sent) := ReadAllNeedles (fun _ => true) order vid src in
  sent = Ret tt /\
  let '(r, tgt', _) := VolumeCopy send status items false vid collection source tgt in
  r = Ret tt -> serves (copy_blobs vid b b') tgt'.
Proof.
  intros Ho (_ & s0 & spec & Hs0 & Hrep & Hb) Hs [v Hv] Htgt Ht Hnone Hnf Hvid Hsrc0.
  rewrite Hs in Hs0. injection Hs0 as <-. pose proof Hrep as [_ Hrv]. specialize (Hrv vid). rewrite Hv in Hrv.
  destruct Hrv as (m & Hm & _ & _ & _ & _ & Hvr). unfold ReadAllNeedles. rewrite Hs, Hv.
  destruct (volume_copied order send status vid collection source b b' spec m v (s_fs s) tgt s')
    as (items & -> & _ & _ & Hcopy); [done..|]. by split.
Qed.

(** *** A sample copy *)

Definition sample_uploads : list http_op :=
  [HPut 1000 (sample_put fid_a [1; 2]); HPut 2000 (sample_put fid_b [])].

Definition sample_source : VolumeServer * blobs :=
  let '(_, b, (vs, _)) := exec_https no_network (fun l => l) sample_uploads ∅ (sample_vs "d"%string ∅ None) tt in (vs, b).

Definition sample_target : VolumeServer :=
  mkVolumeServer sample_option (Some (mkStore [mkDiskLocation "e"%string 8 ∅ 0 0 false] (mkFs ∅ 4096 4096))) true ∅ ""%string None.

Lemma sample_source_serves : serves (snd sample_source) (fst sample_source).
Proof.
  unfold sample_source.
  pose proof (exec_https_serves no_network (fun l => l) sample_uploads ∅ (sample_vs "d"%string ∅ None) tt
    (sample_vs_serves _ _ _)) as H.
  destruct (exec_https no_network (fun l => l) sample_uploads ∅ (sample_vs "d"%string ∅ None) tt) as [[reps b] [vs w]].
  destruct H as (_ & _ & _ & H); [by vm_compute| |exact H].
  repeat apply Forall_cons_2; try apply Forall_nil_2; (split; [by vm_compute|]); (split; [|done]); repeat constructor; by vm_compute.
Qed.

Lemma sample_target_serves : serves ∅ sample_target.
Proof.
  split; [cbn; lia|]. eexists _, ∅. split; [done|]. split; [split; [cbn; lia|done]|].
  intros vid nid. by rewrite !lookup_empty.
Qed.

Lemma VolumeCopy_copies_witness :
  let '(items, _) := ReadAllNeedles (fun _ => true) map_to_list 7 (fst sample_source) in
  let '(r, tgt', _) := VolumeCopy (fun _ => true) None items false 7 ""%string "src:18080"%string sample_target in
  r = Ret tt /\ serves (copy_blobs 7 (snd sample_source) ∅) tgt' /\
  copy_blobs 7 (snd sample_source) ∅ !! (7, 42) = Some (0xdeadbeef, [1; 2], "text/plain"%string) /\
  snd sample_source !! (7, 43) = Some (0xdeadbeef, [], "text/plain"%string) /\
  copy_blobs 7 (snd sample_source) ∅ !! (7, 43) = None.
Proof.
  assert (let '(items, _) := ReadAllNeedles (fun _ => true) map_to_list 7 (fst sample_source) in
    let '(r, _, _) := VolumeCopy (fun _ => true) None items false 7 ""%string "src:18080"%string sample_target in
    r = Ret tt) as Hr by (vm_compute; reflexivity).
  assert (copy_blobs 7 (snd sample_source) ∅ !! (7, 42) = Some (0xdeadbeef, [1; 2], "text/plain"%string) /\
    snd sample_source !! (7, 43) = Some (0xdeadbeef, [], "text/plain"%string) /\
    copy_blobs 7 (snd sample_source) ∅ !! (7, 43) = None) as Hb by (vm_compute; split; [|split]; reflexivity).
  destruct (vs_store (fst sample_source)) as [s|] eqn:Es; [|exfalso; vm_compute in Es; discriminate].
  assert (is_Some (s_GetVolume 7 s)) as Hv by (vm_compute in Es; injection Es as <-; vm_compute; eexists; reflexivity).
  assert (no_files 7 (mkStore [mkDiskLocation "e"%string 8 ∅ 0 0 false] (mkFs ∅ 4096 4096))) as Hn by (intros dl _; split; apply lookup_empty).
  assert (map_order map_to_list) as Ho by (intros m; reflexivity).
  pose proof (VolumeCopy_copies map_to_list (fun _ => true) None 7 ""%string "src:18080"%string (snd sample_source) ∅
    (fst sample_source) sample_target s (mkStore [mkDiskLocation "e"%string 8 ∅ 0 0 false] (mkFs ∅ 4096 4096)) Ho sample_source_serves Es Hv
    sample_target_serves eq_refl eq_refl Hn ltac:(discriminate) ltac:(discriminate)) as H.
  destruct (ReadAllNeedles _ _ _ _) as [items sent]. destruct H as [_ H].
  destruct (VolumeCopy _ _ _ _ _ _ _ _) as [[r tgt'] msgs]. split; [exact Hr|]. split; [|exact Hb].
  apply H. exact Hr.
Defined.
