(* ===== verification/ErasureCoding.v ===== *)
(** * ErasureCoding: Reed-Solomon shards of a volume

    Models [goblob/storage/erasure_coding] and the command of
    [goblob/command/volume_ec_encode.go] with its helper [splitCSV].  The Reed-Solomon code is
    a parameter: its laws say that encoding fills in the parity shards, that enough shards
    determine the rest and that a codeword verifies, for up to 256 shards (with more the
    library uses another code, which asks for shards of a multiple of 64 bytes).  A missing shard, [nil] in the code, is
    [None].  The shard files are lists of records; the failures of the file system and of the
    connection are arguments, and the JSON text of a record is left out. *)

From S2P Require Import Prelude Bytes GoStrings Types OsFile Needle NeedleCodec Fs NeedleMap Volume VolumeSpec DiskStore StoreSpec GoPath GoText.
From S2P Require Import VolumeCompact Lru Http VolumeServer VolumeServerSpec VolumeGrpc VolumeCopySpec.

#[local] Open Scope Z_scope.

(** ** The code *)

Class ReedSolomon (RS : Type) := {
  rs_New : Z -> Z -> outcome string RS;
  rs_Encode : RS -> list bytes -> outcome string (list bytes);
  rs_Reconstruct : RS -> list (option bytes) -> outcome string (list (option bytes));
  rs_Verify : RS -> list (option bytes) -> outcome string bool;
}.

Definition sized (n : nat) (shards : list bytes) : Prop := Forall (fun s => length s = n) shards.

(** [known] has what is left of [code]. *)
Definition part_of {A} (known : list (option A)) (code : list A) : Prop :=
  Forall2 (fun s c => s = None \/ s = Some c) known code.

Definition present {A} (shards : list (option A)) : list (option A) := filter is_Some shards.

Class ReedSolomonLaws (RS : Type) `{ReedSolomon RS} (parity : RS -> list bytes -> list bytes) : Prop := {
  rs_New_law d p : 0 < d -> 0 <= p -> rs_New d p <> Panic;
  rs_Encode_law d p rs n data pad :
    rs_New d p = Ret rs -> d + p <= 256 -> (0 < n)%nat -> zlen data = d -> zlen pad = p -> sized n data -> sized n pad ->
    rs_Encode rs (data ++ pad) = Ret (data ++ parity rs data) /\ zlen (parity rs data) = p /\ sized n (parity rs data);
  rs_Reconstruct_law d p rs n data known :
    rs_New d p = Ret rs -> d + p <= 256 -> (0 < n)%nat -> zlen data = d -> sized n data ->
    part_of known (data ++ parity rs data) -> d <= zlen (present known) ->
    rs_Reconstruct rs known = Ret (Some <$> data ++ parity rs data);
  rs_Verify_law d p rs n data :
    rs_New d p = Ret rs -> d + p <= 256 -> (0 < n)%nat -> zlen data = d -> sized n data ->
    rs_Verify rs (Some <$> data ++ parity rs data) = Ret true;
  rs_bytes_law rs data : Forall (Forall is_byte) data -> Forall (Forall is_byte) (parity rs data);
}.

(** ** The encoder *)

Record Encoder (RS : Type) := mkEncoder { e_dataShards : Z; e_parityShards : Z; e_enc : RS }.
Arguments mkEncoder {RS}.
Arguments e_dataShards {RS}.
Arguments e_parityShards {RS}.
Arguments e_enc {RS}.

Section encoder.
Context {RS : Type} `{ReedSolomon RS}.

Definition NewEncoder (dataShards parityShards : Z) : outcome string (Encoder RS) :=
  if decide (dataShards <= 0) then Fail "dataShards must be > 0"%string else
  if decide (parityShards < 0) then Fail "parityShards must be >= 0"%string else
  match rs_New dataShards parityShards with
  | Ret enc => Ret (mkEncoder dataShards parityShards enc)
  | Fail e => Fail e
  | Panic => Panic
  end.

Definition TotalShards (e : Encoder RS) : Z := e_dataShards e + e_parityShards e.

Definition shard_size (e : Encoder RS) (data : bytes) : Z :=
  let shardSize := if decide (zlen data > 0) then (zlen data + e_dataShards e - 1) `quot` e_dataShards e else 0 in
  if decide (shardSize = 0) then 1 else shardSize.

(** [copy] into a fresh slice: what is not written stays zero. *)
Definition copied (n : Z) (src : bytes) : bytes :=
  let src := take (Z.to_nat n) src in src ++ replicate (Z.to_nat n - length src) 0.

Definition data_shard (data : bytes) (shardSize : Z) (i : nat) : bytes :=
  let start := Z.of_nat i * shardSize in
  if decide (start >= zlen data) then copied shardSize [] else
  let end_ := if decide (start + shardSize > zlen data) then zlen data else start + shardSize in
  copied shardSize (take (Z.to_nat (end_ - start)) (drop (Z.to_nat start) data)).

Definition data_shards (e : Encoder RS) (data : bytes) : list bytes :=
  data_shard data (shard_size e data) <$> seq 0 (Z.to_nat (e_dataShards e)).

Definition Encode (e : Encoder RS) (data : bytes) : outcome string (list bytes) :=
  rs_Encode (e_enc e) (data_shards e data ++ replicate (Z.to_nat (e_parityShards e)) (copied (shard_size e data) [])).

(** The size of the shards that are there; the first of no size does not count. *)
Fixpoint check_sizes (shards : list (option bytes)) (shardSize : Z) : outcome string Z :=
  match shards with
  | [] => Ret shardSize
  | None :: shards => check_sizes shards shardSize
  | Some s :: shards =>
      if decide (shardSize = 0) then check_sizes shards (zlen s) else
      if decide (zlen s <> shardSize)
      then Fail ("shard size mismatch: got " +:+ Itoa (zlen s) +:+ ", want " +:+ Itoa shardSize)%string
      else check_sizes shards shardSize
  end.

(** The shards are the caller's slice, in which the missing ones are filled in. *)
Definition DecodeWithLength (e : Encoder RS) (originalSize : Z) : GoM (list (option bytes)) string bytes := fun shards =>
  if decide (zlen shards <> TotalShards e)
  then (Fail ("invalid shard count: got " +:+ Itoa (zlen shards) +:+ ", want " +:+ Itoa (TotalShards e))%string, shards) else
  match check_sizes shards 0 with
  | Fail err => (Fail err, shards)
  | Panic => (Panic, shards)
  | Ret shardSize =>
      if decide (shardSize = 0) then (Fail "no available shards"%string, shards) else
      match rs_Reconstruct (e_enc e) shards with
      | Fail err => (Fail err, shards)
      | Panic => (Panic, shards)
      | Ret shards =>
          match rs_Verify (e_enc e) shards with
          | Fail err => (Fail err, shards)
          | Panic => (Panic, shards)
          | Ret ok =>
              if negb ok then (Fail "shard verification failed"%string, shards) else
              let data := concat (default [] <$> take (Z.to_nat (e_dataShards e)) shards) in
              if decide (originalSize >= 0) then
                if decide (originalSize > zlen data)
                then (Fail ("originalSize " +:+ Itoa originalSize +:+ " exceeds decoded size " +:+ Itoa (zlen data))%string, shards)
                else (Ret (take (Z.to_nat originalSize) data), shards)
              else (Ret data, shards)
          end
      end
  end.

Definition Decode (e : Encoder RS) : GoM (list (option bytes)) string bytes := DecodeWithLength e (-1).
End encoder.

(** ** Base64 *)

Definition b64_char (n : Z) : ascii :=
  if decide (n < 26) then char (65 + n) else if decide (n < 52) then char (71 + n) else
  if decide (n < 62) then char (n - 4) else if decide (n = 62) then "+"%char else "/"%char.

(** [base64.StdEncoding.EncodeToString] *)
Fixpoint b64_chars (l : bytes) : list ascii :=
  match l with
  | [] => []
  | [a] => [b64_char (a / 4); b64_char (a mod 4 * 16); "="%char; "="%char]
  | [a; b] => [b64_char (a / 4); b64_char (a mod 4 * 16 + b / 16); b64_char (b mod 16 * 4); "="%char]
  | a :: b :: c :: l => b64_char (a / 4) :: b64_char (a mod 4 * 16 + b / 16) :: b64_char (b mod 16 * 4 + c / 64) :: b64_char (c mod 64) :: b64_chars l
  end.

Definition EncodeToString (l : bytes) : string := str (b64_chars l).

(** ** The command *)

Definition splitCSV (s : string) : list string :=
  if decide (TrimSpace s = ""%string) then [] else filter (fun x => x <> ""%string) (TrimSpace <$> Split ","%char s).

Record ECShard := mkECShard { sh_VolumeId : Z; sh_ShardIndex : Z; sh_DataNode : string }.

Record ecShardRecord := mkShardRecord {
  sr_NeedleID : Z;
  sr_Cookie : Z;
  sr_Offset : Z;
  sr_Size : Z;
  sr_ShardData : string;
}.

Record ecManifest := mkManifest {
  mf_VolumeID : Z;
  mf_DataShards : Z;
  mf_ParityShards : Z;
  mf_TotalShards : Z;
  mf_SourceAddress : string;
  mf_NeedleCount : Z;
}.

Record VolumeECEncodeCommand := mkECEncode {
  ec_volumeID : Z;
  ec_dataShards : Z;
  ec_parityShards : Z;
  ec_nodesCSV : string;
  ec_apply : bool;
  ec_sourceGRPC : string;
  ec_outputDir : string;
}.

(** What fails: the directory, the connection with the call of [ReadAllNeedles], the [i]-th
    file, the record of the [k]-th needle in the [i]-th file, and the manifest. *)
Record ec_errors := mkEcErrors {
  io_mkdir : option string;
  io_source : option string;
  io_create : nat -> option string;
  io_write : nat -> nat -> option string;
  io_manifest : option string;
}.

Section command.
Context {RS : Type} `{ReedSolomon RS}.

Definition shard_path (c : VolumeECEncodeCommand) (i : nat) : string :=
  let name := (Itoa (ec_volumeID c) +:+ ".shard." +:+ Itoa (Z.of_nat i) +:+ ".jsonl")%string in
  Clean (if decide (ec_outputDir c = ""%string) then name else ec_outputDir c +:+ "/" +:+ name)%string.

Fixpoint create_files (c : VolumeECEncodeCommand) (create : nat -> option string) (i n : nat) : outcome string (list (list ecShardRecord)) :=
  match n with
  | O => Ret []
  | S n =>
      match create i with
      | Some e => Fail ("create shard file " +:+ shard_path c i +:+ ": " +:+ e)%string
      | None => match create_files c create (S i) n with Ret l => Ret ([] :: l) | r => r end
      end
  end.

Definition shard_record (item : needle_item) (shard : bytes) : ecShardRecord :=
  mkShardRecord (ni_NeedleId item) (ni_Cookie item) (ni_Offset item) (ni_Size item) (EncodeToString shard).

Fixpoint write_shards (write : nat -> option string) (i : nat) (item : needle_item) (shards : list bytes) (files : list (list ecShardRecord))
  : outcome string unit * list (list ecShardRecord) :=
  match shards, files with
  | [], _ => (Ret tt, files)
  | _ :: _, [] => (Panic, files)
  | shard :: shards, f :: files =>
      match write i with
      | Some e => (Fail ("write shard record " +:+ Itoa (Z.of_nat i) +:+ ": " +:+ e)%string, f :: files)
      | None => let '(r, files) := write_shards write (S i) item shards files in (r, (f ++ [shard_record item shard]) :: files)
      end
  end.

(** The stream: its items and the error that ends it; [k] is the number of needles so far. *)
Fixpoint encode_items (e : Encoder RS) (write : nat -> nat -> option string) (items : list needle_item) (recv_err : option string)
    (k : nat) (files : list (list ecShardRecord)) : outcome string nat * list (list ecShardRecord) :=
  match items with
  | [] => (match recv_err with Some err => Fail ("stream recv: " +:+ err)%string | None => Ret k end, files)
  | item :: items =>
      if ni_IsDeleted item then encode_items e write items recv_err k files else
      match Encode e (ni_Data item) with
      | Fail err => (Fail ("encode needle " +:+ Itoa (ni_NeedleId item) +:+ ": " +:+ err)%string, files)
      | Panic => (Panic, files)
      | Ret shards =>
          match write_shards (write k) 0 item shards files with
          | (Ret _, files) => encode_items e write items recv_err (S k) files
          | (Fail err, files) => (Fail err, files)
          | (Panic, files) => (Panic, files)
          end
      end
  end.

Definition ec_execute (c : VolumeECEncodeCommand) (e : Encoder RS) (io : ec_errors) (items : list needle_item) (recv_err : option string)
  : outcome string ecManifest * list (list ecShardRecord) :=
  match io_mkdir io, io_source io with
  | Some err, _ => (Fail ("create output dir: " +:+ err)%string, [])
  | None, Some err => (Fail ("read all needles: " +:+ err)%string, [])
  | None, None =>
      match create_files c (io_create io) 0 (Z.to_nat (TotalShards e)) with
      | Fail err => (Fail err, [])
      | Panic => (Panic, [])
      | Ret files =>
          match encode_items e (io_write io) items recv_err 0 files with
          | (Fail err, files) => (Fail err, files)
          | (Panic, files) => (Panic, files)
          | (Ret needleCount, files) =>
              match io_manifest io with
              | Some err => (Fail ("write manifest: " +:+ err)%string, files)
              | None =>
                  (Ret (mkManifest (ec_volumeID c) (e_dataShards e) (e_parityShards e) (TotalShards e) (ec_sourceGRPC c)
                          (Z.of_nat needleCount)), files)
              end
          end
      end
  end.

Definition ec_plan (c : VolumeECEncodeCommand) (e : Encoder RS) (nodes : list string) : list ECShard :=
  (fun i => mkECShard (u32 (ec_volumeID c)) (Z.of_nat i)
              (match nodes with [] => ""%string | _ => TrimSpace (default ""%string (nodes !! (i mod length nodes)%nat)) end))
    <$> seq 0 (Z.to_nat (TotalShards e)).

(** [None] of the manifest when only the plan is asked for. *)
Definition ec_Run (c : VolumeECEncodeCommand) (io : ec_errors) (items : list needle_item) (recv_err : option string)
  : outcome string (list ECShard * option ecManifest) * list (list ecShardRecord) :=
  if decide (ec_volumeID c = 0) then (Fail "-vid is required"%string, []) else
  match NewEncoder (ec_dataShards c) (ec_parityShards c) with
  | Fail err => (Fail ("invalid erasure coding config: " +:+ err)%string, [])
  | Panic => (Panic, [])
  | Ret enc =>
      let nodes := splitCSV (ec_nodesCSV c) in
      if decide (zlen nodes > 0 /\ zlen nodes < TotalShards enc) then 
        (Fail ("insufficient nodes: got " +:+ Itoa (zlen nodes) +:+ " need at least " +:+ Itoa (TotalShards enc))%string, []) else
      let plan := ec_plan c enc nodes in
      if negb (ec_apply c) then (Ret (plan, None), []) else
      if decide (TrimSpace (ec_sourceGRPC c) = ""%string) then (Fail "-source.grpc is required when -apply is set"%string, []) else
      if decide (TrimSpace (ec_outputDir c) = ""%string) then (Fail "-output.dir is required when -apply is set"%string, []) else
      match ec_execute c enc io items recv_err with
      | (Ret mf, files) => (Ret (plan, Some mf), files)
      | (Fail err, files) => (Fail err, files)
      | (Panic, files) => (Panic, files)
      end
  end.
End command.

(** ** Base64 reads back *)

Definition b64_val (c : ascii) : Z :=
  let z := code c in
  if decide (65 <= z <= 90) then z - 65 else if decide (97 <= z <= 122) then z - 71 else
  if decide (48 <= z <= 57) then z + 4 else if decide (z = 43) then 62 else 63.

Lemma b64_char_val n : 0 <= n < 64 -> b64_val (b64_char n) = n /\ b64_char n <> "="%char.
Proof.
  intros Hn. assert (Forall (fun n => b64_val (b64_char n) = n /\ b64_char n <> "="%char) (seqZ 0 64)) as H.
  { apply Forall_forall. intros x Hx. assert (x ∈ seqZ 0 64) as Hx' by exact Hx. vm_compute in Hx'.
    repeat (apply elem_of_cons in Hx' as [->|Hx']; [by vm_compute|]). set_solver. }
  rewrite Forall_forall in H. apply H. apply elem_of_seqZ. lia.
Qed.

(** The bytes of a text in base64. *)
Fixpoint b64_bytes (l : list ascii) : bytes :=
  match l with
  | w :: x :: y :: z :: l =>
      let a := b64_val w * 4 + b64_val x / 16 in
      let b := b64_val x mod 16 * 16 + b64_val y / 4 in
      let c := b64_val y mod 4 * 64 + b64_val z in
      if decide (y = "="%char) then [a] else if decide (z = "="%char) then [a; b] else a :: b :: c :: b64_bytes l
  | _ => []
  end.

Definition DecodeString (s : string) : bytes := b64_bytes (chars s).

Lemma b64_roundtrip l : Forall is_byte l -> DecodeString (EncodeToString l) = l.
Proof.
  unfold DecodeString, EncodeToString. rewrite chars_str. 
  induction l as [l IH] using (induction_ltof1 _ (@length Z)). unfold ltof in IH.
  destruct l as [|a [|b [|c l]]]; intros Hl; [done|..]; repeat (apply Forall_cons in Hl as [? Hl]); unfold in_u in *; cbn [b64_chars b64_bytes].
  - rewrite decide_True by done. rewrite !(fun n H => proj1 (b64_char_val n H)) by zlia. f_equal. zlia.
  - rewrite decide_False by (apply b64_char_val; zlia). rewrite decide_True by done.
    rewrite !(fun n H => proj1 (b64_char_val n H)) by zlia. f_equal; [zlia|]. f_equal. zlia.
  - rewrite !decide_False by (apply b64_char_val; zlia). rewrite !(fun n H => proj1 (b64_char_val n H)) by zlia.
    rewrite IH by (done || cbn; lia). f_equal; [zlia|]. f_equal; [zlia|]. f_equal. zlia.
Qed.

(** ** Shards *)

Section shards.
Context {RS : Type} `{ReedSolomon RS} (parity : RS -> list bytes -> list bytes) `{!ReedSolomonLaws RS parity}.

Lemma shard_size_bounds (e : Encoder RS) data :
  0 < e_dataShards e ->
  0 < shard_size e data /\ zlen data <= e_dataShards e * shard_size e data /\
  (data <> [] -> e_dataShards e * shard_size e data < zlen data + e_dataShards e).
Proof.
  intros Hd. unfold shard_size. destruct (decide (zlen data > 0)) as [Hl|Hl].
  - rewrite Z.quot_div_nonneg by lia. set (q := _ / _).
    assert (zlen data <= e_dataShards e * q < zlen data + e_dataShards e) by (unfold q; zlia).
    rewrite decide_False by nia. split_and!; [nia|lia|lia].
  - rewrite decide_True by done. split_and!; [lia|lia|]. by destruct data.
Qed.

Lemma copied_resize n src : copied n src = resize (Z.to_nat n) 0 src.
Proof.
  unfold copied. rewrite resize_spec. f_equal. destruct (decide (Z.to_nat n <= length src)%nat).
  - rewrite length_take_le by done. f_equal. lia.
  - by rewrite take_ge by lia.
Qed.

Lemma data_shard_resize data ss i :
  0 < ss -> data_shard data ss i = resize (Z.to_nat ss) 0 (drop (i * Z.to_nat ss) data).
Proof.
  intros Hs. unfold data_shard. replace (Z.to_nat (Z.of_nat i * ss)) with (i * Z.to_nat ss)%nat by nia.
  destruct (decide (Z.of_nat i * ss >= zlen data)) as [Hge|Hlt]; rewrite copied_resize.
  - by rewrite drop_ge by nia.
  - case_decide.
    + by rewrite take_ge by (rewrite length_drop; nia).
    + replace (Z.of_nat i * ss + ss - Z.of_nat i * ss) with ss by lia. by rewrite resize_take_eq.
Qed.

Lemma concat_shards data ss i n :
  0 < ss -> concat (data_shard data ss <$> seq i n) = resize (n * Z.to_nat ss) 0 (drop (i * Z.to_nat ss) data).
Proof.
  intros Hs. revert i. induction n as [|n IH]; intros i; [by rewrite resize_0|]. cbn [seq]. rewrite fmap_cons. cbn [concat].
  rewrite IH, data_shard_resize by done. replace (S n * Z.to_nat ss)%nat with (Z.to_nat ss + n * Z.to_nat ss)%nat by lia.
  rewrite resize_add, drop_drop. do 3 f_equal. lia.
Qed.

(** The data shards are the data, with zeros up to their common size. *)
Lemma shards_join (e : Encoder RS) data :
  0 < e_dataShards e ->
  concat (data_shards e data) = data ++ replicate (Z.to_nat (e_dataShards e * shard_size e data) - length data) 0.
Proof.
  intros Hd. destruct (shard_size_bounds e data Hd) as (Hs & Hl & _). unfold data_shards. rewrite concat_shards by done.
  rewrite drop_0, resize_ge by nia. do 2 f_equal. nia.
Qed.

Lemma data_shards_sized (e : Encoder RS) data :
  0 < e_dataShards e -> sized (Z.to_nat (shard_size e data)) (data_shards e data) /\ zlen (data_shards e data) = e_dataShards e.
Proof.
  intros Hd. destruct (shard_size_bounds e data Hd) as [Hs _]. unfold data_shards. split.
  - apply Forall_fmap, Forall_true. intros i. cbn. rewrite data_shard_resize by done. apply length_resize.
  - rewrite length_fmap, length_seq. lia.
Qed.

(** All shards of some data. *)
Definition codeword (e : Encoder RS) (data : bytes) : list bytes := data_shards e data ++ parity (e_enc e) (data_shards e data).

(** An encoder with at most 256 shards. *)
Definition is_encoder (d p : Z) (e : Encoder RS) : Prop := NewEncoder d p = Ret e /\ d + p <= 256.

Lemma NewEncoder_inv d p e :
  is_encoder d p e ->
  0 < d /\ 0 <= p /\ rs_New d p = Ret (e_enc e) /\ e_dataShards e = d /\ e_parityShards e = p /\ d + p <= 256.
Proof.
  intros [H1 H2]. revert H1. unfold NewEncoder. do 2 (case_decide; [done|]). destruct (rs_New d p) as [rs| |] eqn:E; [|done..]. intros [= <-]. cbn. split_and!; try done; lia.
Qed.

Lemma Encode_codeword d p e data :
  is_encoder d p e ->
  Encode e data = Ret (codeword e data) /\ zlen (codeword e data) = d + p /\ sized (Z.to_nat (shard_size e data)) (codeword e data).
Proof.
  intros (Hd & Hp & Hn & Ed & Ep & H256)%NewEncoder_inv. destruct (data_shards_sized e data) as [Hs Hl]; [lia|].
  destruct (shard_size_bounds e data) as [Hss _]; [lia|]. unfold Encode, codeword.
  destruct (rs_Encode_law d p (e_enc e) (Z.to_nat (shard_size e data)) (data_shards e data)
    (replicate (Z.to_nat (e_parityShards e)) (copied (shard_size e data) []))) as (-> & Hpl & Hps); try done; try lia.
  - rewrite length_replicate. lia.
  - apply Forall_replicate. by rewrite copied_resize, length_resize.
  - split; [done|]. split; [rewrite length_app; lia|]. by apply Forall_app.
Qed.

Lemma check_sizes_part n known code size :
  part_of known code -> sized n code -> (0 < n)%nat -> size = 0 \/ size = Z.of_nat n ->
  check_sizes known size = Ret (match present known with [] => size | _ => Z.of_nat n end).
Proof.
  intros Hp. revert size. induction Hp as [|s c known code Hs Hp IH]; intros size Hsz Hn Hsize; [done|].
  apply Forall_cons in Hsz as [Hc Hsz]. destruct Hs as [->| ->]; cbn [check_sizes present].
  - unfold present in *. rewrite filter_cons_False by apply is_Some_None. by apply IH.
  - unfold present. rewrite filter_cons_True by eauto. rewrite Hc. destruct Hsize as [->| ->].
    + rewrite decide_True by done. rewrite IH by auto. by destruct (present known).
    + rewrite decide_False by lia. rewrite decide_False by tauto. rewrite IH by auto. by destruct (present known).
Qed.

(** What is left of a codeword, as long as enough shards are there, decodes to the data
    and its padding, and to the data when its length is given. *)
Lemma DecodeWithLength_part d p e data known size :
  is_encoder d p e -> part_of known (codeword e data) -> d <= zlen (present known) -> size < 0 \/ size = zlen data ->
  let pad := replicate (Z.to_nat (e_dataShards e * shard_size e data) - length data) 0 in
  fst (DecodeWithLength e size known) = Ret (if decide (size < 0) then data ++ pad else data).
Proof.
  intros He Hk Hpres Hsize. destruct (Encode_codeword d p e data He) as (_ & Hcl & Hcs).
  apply NewEncoder_inv in He as (Hd & Hp & Hn & Ed & Ep & H256). destruct (data_shards_sized e data) as [Hs Hl]; [lia|].
  destruct (shard_size_bounds e data) as (Hss & Hsd & _); [lia|]. unfold DecodeWithLength, TotalShards.
  rewrite decide_False by (rewrite (Forall2_length _ _ _ Hk); lia).
  rewrite (check_sizes_part (Z.to_nat (shard_size e data)) _ _ 0 Hk Hcs) by (lia || auto).
  destruct (present known) as [|x pr] eqn:Epr; [cbn in Hpres; lia|]. rewrite decide_False by lia. rewrite <- Epr in Hpres.
  rewrite (rs_Reconstruct_law d p (e_enc e) (Z.to_nat (shard_size e data)) (data_shards e data)) by (done || lia).
  rewrite (rs_Verify_law d p (e_enc e) (Z.to_nat (shard_size e data))) by (done || lia). cbn [negb].
  fold (codeword e data).
  assert (default [] <$> take (Z.to_nat (e_dataShards e)) (Some <$> codeword e data) = data_shards e data) as ->.
  { rewrite <- fmap_take, <- list_fmap_compose. rewrite (list_fmap_ext _ id) by done. rewrite list_fmap_id. apply take_app_length'. lia. }
  rewrite shards_join by lia. destruct Hsize as [Hneg| ->].
  - rewrite decide_False by lia. by rewrite decide_True by lia.
  - rewrite decide_True, decide_False by (rewrite ?length_app; lia). rewrite decide_False by lia. cbn [fst].
    by rewrite Nat2Z.id, take_app_length.
Qed.

Lemma codeword_bytes e data : 0 < e_dataShards e -> Forall is_byte data -> Forall (Forall is_byte) (codeword e data).
Proof.
  intros Hd Hb. destruct (shard_size_bounds e data Hd) as [Hs _].
  assert (Forall (Forall is_byte) (data_shards e data)) as Hds.
  { apply Forall_fmap, Forall_true. intros i. cbn. rewrite data_shard_resize, resize_spec by done. apply Forall_app_2.
    - by apply Forall_take, Forall_drop.
    - apply Forall_replicate. by vm_compute. }
  apply Forall_app_2; [done|]. by apply rs_bytes_law.
Qed.

(** ** The shard files *)

Definition live_items (items : list needle_item) : list needle_item := filter (fun i => ni_IsDeleted i = false) items.

(** The [i]-th file after the needles of [items]. *)
Definition shard_file (e : Encoder RS) (items : list needle_item) (i : nat) : list ecShardRecord :=
  (fun item => shard_record item (codeword e (ni_Data item) !!! i)) <$> items.

Lemma write_shards_spec write i item shards files :
  length shards = length files ->
  let '(r, files') := write_shards write i item shards files in
  r <> Panic /\ ((forall j, write j = None) -> r = Ret tt) /\
  (r = Ret tt -> files' = zip_with (fun f s => f ++ [shard_record item s]) files shards).
Proof.
  revert i files. induction shards as [|s shards IH]; intros i [|f files] Hl; try done. cbn [write_shards]. injection Hl as Hl.
  destruct (write i) as [err|] eqn:Ew; [by split_and!; [|intros Hn; rewrite Hn in Ew|]|].
  specialize (IH (S i) files Hl). destruct (write_shards write (S i) item shards files) as [r files']. destruct IH as (Hp & Hn & Hr).
  split_and!; [done|done|]. intros E. cbn. by rewrite Hr.
Qed.

Lemma shard_file_snoc e items item n :
  length (codeword e (ni_Data item)) = n ->
  zip_with (fun f s => f ++ [shard_record item s]) (shard_file e items <$> seq 0 n) (codeword e (ni_Data item)) =
    shard_file e (items ++ [item]) <$> seq 0 n.
Proof.
  intros Hn. apply list_eq. intros i. rewrite lookup_zip_with, !list_lookup_fmap. destruct (decide (i < n)%nat) as [Hi|Hi].
  - rewrite lookup_seq_lt by done. cbn. destruct (lookup_lt_is_Some_2 (codeword e (ni_Data item)) i) as [s Hs]; [lia|].
    rewrite Hs. cbn. unfold shard_file. rewrite fmap_app. cbn. by rewrite (list_lookup_total_correct _ _ _ Hs).
  - by rewrite lookup_seq_ge by lia.
Qed.

Lemma encode_items_spec d p e write items recv_err k before :
  is_encoder d p e ->
  let '(r, files) := encode_items e write items recv_err k (shard_file e before <$> seq 0 (Z.to_nat (d + p))) in
  r <> Panic /\ ((forall i j, write i j = None) -> recv_err = None -> exists n, r = Ret n) /\
  forall n, r = Ret n -> files = shard_file e (before ++ live_items items) <$> seq 0 (Z.to_nat (d + p)) /\ n = (k + length (live_items items))%nat.
Proof.
  intros He. revert k before. induction items as [|item items IH]; intros k before; cbn [encode_items].
  { split_and!; [by destruct recv_err|intros _ ->; by exists k|]. destruct recv_err; [done|]. intros n [= <-]. rewrite app_nil_r. cbn. by rewrite Nat.add_0_r. }
  unfold live_items. rewrite filter_cons. destruct (ni_IsDeleted item) eqn:Ed; [rewrite decide_False by done; apply IH|]. rewrite decide_True by done.
  destruct (Encode_codeword d p e (ni_Data item) He) as (-> & Hl & _).
  pose proof (write_shards_spec (write k) 0 item (codeword e (ni_Data item)) (shard_file e before <$> seq 0 (Z.to_nat (d + p)))) as Hw.
  destruct (write_shards _ _ _ _ _) as [[[]|err|] files]; destruct Hw as (Hp & Hn & Hr);
    try (rewrite length_fmap, length_seq; lia); [|by split_and!; [|intros Hno; by specialize (Hn (Hno k))|]|done].
  rewrite (Hr eq_refl), shard_file_snoc by lia. specialize (IH (S k) (before ++ [item])).
  destruct (encode_items _ _ _ _ _ _) as [r files']. destruct IH as (Hp' & Hn' & Hr'). split_and!; [done|done|].
  intros n E. destruct (Hr' n E) as [-> ->]. rewrite <- app_assoc. split; [done|]. cbn [length]. unfold live_items. lia.
Qed.

Lemma create_files_spec c create i n :
  create_files c create i n <> Panic /\ ((forall j, create j = None) -> exists l, create_files c create i n = Ret l) /\
  forall l, create_files c create i n = Ret l -> l = replicate n [].
Proof.
  revert i. induction n as [|n IH]; intros i; cbn [create_files]; [by split_and!; [|eauto|intros l [= <-]]|].
  destruct (create i) as [err|] eqn:Ec; [by split_and!; [|intros Hn; rewrite Hn in Ec|]|].
  destruct (IH (S i)) as (Hp & Hn & Hr). destruct (create_files c create (S i) n) as [l|err|] eqn:E; [|by split_and!; [|intros Hno; destruct (Hn Hno)|]|done].
  split_and!; [done|eauto|]. intros l' [= <-]. cbn. f_equal. by apply Hr.
Qed.

Lemma ec_execute_spec d p c e io items recv_err :
  is_encoder d p e ->
  let '(r, files) := ec_execute c e io items recv_err in
  r <> Panic /\ (io = mkEcErrors None None (fun _ => None) (fun _ _ => None) None -> recv_err = None -> exists mf, r = Ret mf) /\
  forall mf, r = Ret mf -> files = shard_file e (live_items items) <$> seq 0 (Z.to_nat (d + p)) /\
    mf = mkManifest (ec_volumeID c) d p (d + p) (ec_sourceGRPC c) (zlen (live_items items)).
Proof.
  intros He. unfold ec_execute. destruct (io_mkdir io) eqn:E1; [by split_and!; [|intros ->|]|].
  destruct (io_source io) eqn:E2; [by split_and!; [|intros ->|]|].
  pose proof (NewEncoder_inv d p e He) as (Hd & Hp & _ & Ed & Ep & _). unfold TotalShards. rewrite Ed, Ep.
  destruct (create_files_spec c (io_create io) 0 (Z.to_nat (d + p))) as (Hcp & Hcn & Hcr).
  destruct (create_files _ _ _ _) as [files|err|]; [|by split_and!; [|intros ->; destruct (Hcn (fun _ => eq_refl))|]|done].
  rewrite (Hcr files eq_refl). assert (replicate (Z.to_nat (d + p)) [] = shard_file e [] <$> seq 0 (Z.to_nat (d + p))) as ->.
  { apply list_eq. intros i. rewrite list_lookup_fmap. destruct (decide (i < Z.to_nat (d + p))%nat).
    - by rewrite lookup_seq_lt, lookup_replicate_2 by done.
    - rewrite lookup_seq_ge by lia. apply lookup_replicate_None. lia. }
  pose proof (encode_items_spec d p e (io_write io) items recv_err 0 [] He) as H0.
  destruct (encode_items _ _ _ _ _ _) as [[n|err|] files']; destruct H0 as (Hep & Hen & Her);
    [|by split_and!; [|intros -> ->; destruct (Hen (fun _ _ => eq_refl) eq_refl)|]|done].
  destruct (Her n eq_refl) as [-> ->]. destruct (io_manifest io) eqn:E3; [by split_and!; [|intros ->|]|].
  split_and!; [done|eauto|]. intros mf [= <-]. done.
Qed.
End shards.

(** ** The records of a needle *)

Lemma find_record {RS} `{ReedSolomon RS} (parity : RS -> list bytes -> list bytes) e items item i :
  NoDup (ni_NeedleId <$> items) -> item ∈ items ->
  filter (fun r => sr_NeedleID r = ni_NeedleId item) (shard_file parity e items i) =
    [shard_record item (codeword parity e (ni_Data item) !!! i)].
Proof.
  intros Hnd Hin. assert (forall items, ni_NeedleId item ∉ (ni_NeedleId <$> items) ->
    filter (fun r => sr_NeedleID r = ni_NeedleId item) (shard_file parity e items i) = []) as Hnone.
  { intros l. induction l as [|x l IH]; [done|]. rewrite fmap_cons. intros Hx. unfold shard_file. rewrite fmap_cons, filter_cons_False.
    - apply IH. set_solver.
    - cbn. set_solver. }
  revert Hnd Hin. induction items as [|x items IH]; [set_solver|]. rewrite fmap_cons. intros [Hx Hnd]%NoDup_cons Hin.
  unfold shard_file. rewrite fmap_cons. apply elem_of_cons in Hin as [->|Hin].
  - rewrite filter_cons_True by done. f_equal. by apply Hnone.
  - rewrite filter_cons_False; [by apply IH|]. cbn. intros E. apply Hx. rewrite E. by apply list_elem_of_fmap_2.
Qed.

(** A needle that is not empty is an item of the stream that the command keeps. *)
Lemma live_item (m : gmap Z Needle) items nid n :
  nid ∈ ni_NeedleId <$> items -> Forall (item_ok m) items -> m !! nid = Some n -> needle_wf n /\ n_Id n = nid -> n_Data n <> [] ->
  exists item, item ∈ live_items items /\ ni_NeedleId item = nid /\ ni_Cookie item = n_Cookie n /\ ni_Data item = n_Data n /\ Forall is_byte (n_Data n).
Proof.
  intros (item & -> & Hin)%list_elem_of_fmap Hok Hn [Hwf _] Hne. exists item.
  rewrite list.Forall_forall in Hok. destruct (Hok item Hin) as (x & n' & Hn' & ->). cbn in *. rewrite Hn in Hn'. injection Hn' as <-.
  split; [|by split_and!; [..|apply Hwf]]. apply list_elem_of_filter. split; [|done]. cbn. rewrite IsDeleted_empty by done. by apply bool_decide_eq_false.
Qed.


(** *** A code with one parity shard *)

Definition xor (a b : bytes) : bytes := zip_with Z.lxor a b.

#[export] Instance xor_code : ReedSolomon unit := {
  rs_New d p := if decide (d = 2 /\ p = 1) then Ret tt else Fail "unsupported"%string;
  rs_Encode _ shards := match shards with [a; b; _] => Ret [a; b; xor a b] | _ => Fail "too few shards"%string end;
  rs_Reconstruct _ shards :=
    match shards with
    | [Some a; Some b; None] => Ret [Some a; Some b; Some (xor a b)]
    | [Some a; None; Some c] => Ret [Some a; Some (xor a c); Some c]
    | [None; Some b; Some c] => Ret [Some (xor b c); Some b; Some c]
    | [Some _; Some _; Some _] => Ret shards
    | _ => Fail "too few shards"%string
    end;
  rs_Verify _ shards := match shards with [Some a; Some b; Some c] => Ret (bool_decide (c = xor a b)) | _ => Ret false end;
}.

Lemma xor_twice a b : length a = length b -> xor a (xor a b) = b /\ xor b (xor a b) = a.
Proof.
  revert b. induction a as [|x a IH]; intros [|y b] Hl; try done. injection Hl as Hl. destruct (IH b Hl) as [IH1 IH2].
  unfold xor in *. cbn. rewrite IH1, IH2. split; f_equal; [by rewrite <- Z.lxor_assoc, Z.lxor_nilpotent|].
  by rewrite Z.lxor_comm, Z.lxor_assoc, Z.lxor_nilpotent, Z.lxor_0_r.
Qed.

Definition xor_parity (_ : unit) (data : list bytes) : list bytes := match data with [a; b] => [xor a b] | _ => [] end.

Lemma two_shards (data : list bytes) n : zlen data = 2 -> sized n data -> exists a b, data = [a; b] /\ length a = n /\ length b = n.
Proof.
  intros Hl Hs. destruct data as [|a [|b [|]]]; cbn in Hl; try lia. exists a, b. by apply Forall_cons in Hs as [? [? _]%Forall_cons].
Qed.

Lemma lxor_byte x y : is_byte x -> is_byte y -> is_byte (Z.lxor x y).
Proof.
  unfold in_u. intros Hx Hy. split; [apply Z.lxor_nonneg; lia|]. destruct (decide (Z.lxor x y = 0)) as [->|Hne]; [lia|].
  assert (0 <= Z.lxor x y) by (apply Z.lxor_nonneg; lia). apply Z.log2_lt_pow2; [lia|]. eapply Z.le_lt_trans; [apply Z.log2_lxor; lia|].
  apply Z.max_lub_lt; (destruct (decide (x = 0)), (decide (y = 0)); subst; try (cbn; lia); apply Z.log2_lt_pow2; lia).
Qed.

#[export] Instance xor_laws : ReedSolomonLaws unit xor_parity.
Proof.
  split; cbn.
  - intros d p _ _. by case_decide.
  - intros d p rs n data pad Hn _ Hpos Hd Hp Hs Hsp. destruct (decide (d = 2 /\ p = 1)) as [[-> ->]|]; [|done].
    destruct (two_shards data n Hd Hs) as (a & b & -> & Ha & Hb). destruct pad as [|c [|]]; cbn in Hp; try lia. split; [done|]. split; [done|].
    constructor; [|constructor]. unfold xor. rewrite length_zip_with. lia.
  - intros d p rs n data known Hn _ Hpos Hd Hs Hk Hpres. destruct (decide (d = 2 /\ p = 1)) as [[-> ->]|]; [|done].
    destruct (two_shards data n Hd Hs) as (a & b & -> & Ha & Hb). destruct (xor_twice a b) as [X1 X2]; [lia|]. cbn in Hk.
    inversion Hk as [|x1 ? k1 ? H1 Hk1]; subst. inversion Hk1 as [|x2 ? k2 ? H2 Hk2]; subst. inversion Hk2 as [|x3 ? k3 ? H3 Hk3]; subst. inversion Hk3; subst.
    destruct H1 as [->| ->], H2 as [->| ->], H3 as [->| ->]; cbn in *; rewrite ?X1, ?X2; done || lia.
  - intros d p rs n data Hn _ _ Hd Hs. destruct (decide (d = 2 /\ p = 1)) as [[-> ->]|]; [|done].
    destruct (two_shards data n Hd Hs) as (a & b & -> & _). cbn. by rewrite bool_decide_true.
  - intros rs data Hd. unfold xor_parity. destruct data as [|a [|b [|]]]; try constructor; [|constructor].
    apply Forall_cons in Hd as [Ha [Hb _]%Forall_cons]. unfold xor. revert b Hb. induction Ha as [|x a Hx Ha IH]; intros [|y b] Hb; try constructor.
    + apply Forall_cons in Hb as [Hy _]. by apply lxor_byte.
    + apply Forall_cons in Hb as [_ Hb]. by apply IH.
Qed.

Definition sample_command : VolumeECEncodeCommand := mkECEncode 7 2 1 ""%string true "src:18080"%string "out"%string.
Definition sample_encoder : Encoder unit := mkEncoder 2 1 tt.
Definition no_errors : ec_errors := mkEcErrors None None (fun _ => None) (fun _ _ => None) None.

