(* ===== verification/MasterServer.v ===== *)
(** * MasterServer: file ids, lookups and growth

    Models [goblob/server/master_server.go], [master_server_handlers.go] and
    [master_grpc_server.go] over the topology, a sequencer behind its interface and the
    registry of clients.  What the consensus engine answers, the orders of map ranges, the
    clock, the random cookie and the signed token are arguments. *)

From stdpp Require Import sorting.
From S2P Require Import Prelude GoStrings Types TopoNode VolumeLayout Topology VolumeGrowth Sequence MasterSeq GoPath GoText Http.
From S2P Require Import Registry.

#[local] Open Scope Z_scope.
#[local] Open Scope string_scope.

Record MasterOption := mkMasterOption {
  mo_Host : string;
  mo_Port : Z;
  mo_VolumeSizeLimitMB : Z;
  mo_DefaultReplication : string;
}.

(** [consensus.Engine] as a handler meets it: whether it leads, and the leader it knows. *)
Record engine := mkEngine { en_IsLeader : bool; en_LeaderAddress : string }.

Inductive m_part :=
| JsonAssign (fid url publicUrl : string) (count : Z) (auth : string)
| JsonLookup (volumeId : string) (locations : list (string * string))
| JsonError (msg : string)
| JsonOk
| JsonPeer (addr : string)
| JsonTopology (isLeader : bool) (locations : list PbLocation) (dataCenterCount : Z)
| MText (s : string).

Abbreviation m_reply := (reply m_part).

(** A handler answers, hands the request to the leader's address, or panics. *)
Inductive m_answer :=
| Answered (r : m_reply)
| ProxiedTo (addr : string)
| Panicked.

Definition json (r : m_reply) : m_reply := set_type "application/json" r.

(** [w.Header().Set("Content-Type", "application/json")], the status, and the body. *)
Definition json_answer (status : Z) (p : m_part) : m_answer :=
  Answered (write_part p (WriteHeader status (json no_reply))).

(** ** The leader *)

Definition leaderToHTTPAddress (addr : string) : string :=
  match SplitHostPort addr with
  | None => addr
  | Some (host, portStr) =>
      match Atoi portStr with
      | None => addr
      | Some port =>
          if decide (port >= 10000) then JoinHostPort host (Itoa (port - 10000))
          else if Contains addr "." then ToHttpAddress addr else addr
      end
  end.

(** [proxyToLeader]; [url_ok] tells whether the URL of a host parses. *)
Definition proxyToLeader (url_ok : string -> bool) (raft : option engine) : m_answer :=
  match raft with
  | None => Panicked
  | Some e =>
      if decide (en_LeaderAddress e = "") then Answered (answer 503 (JsonError "no leader available")) else
      let addr := leaderToHTTPAddress (en_LeaderAddress e) in
      if url_ok addr then ProxiedTo addr else Answered (answer 503 (JsonError "invalid leader address"))
  end.

Definition leads (raft : option engine) : bool := match raft with Some e => en_IsLeader e | None => false end.

(** [ms.Raft != nil && !ms.Raft.IsLeader()] *)
Definition follows (raft : option engine) : bool := match raft with Some e => negb (en_IsLeader e) | None => false end.

(** ** The server *)

Section master.
Context {Q Env : Type} `{Sequencer Q Env}.

Record MasterServer := mkMaster {
  ms_Topo : Topology;
  ms_Sequencer : Q;
  ms_Cluster : registry;
  ms_option : MasterOption;
  ms_growth : list VolumeGrowOption;
  ms_topologyId : string;
  ms_isLeader : bool;
}.

Definition set_Topo (t : Topology) (ms : MasterServer) : MasterServer :=
  mkMaster t (ms_Sequencer ms) (ms_Cluster ms) (ms_option ms) (ms_growth ms) (ms_topologyId ms) (ms_isLeader ms).
Definition set_Sequencer (q : Q) (ms : MasterServer) : MasterServer :=
  mkMaster (ms_Topo ms) q (ms_Cluster ms) (ms_option ms) (ms_growth ms) (ms_topologyId ms) (ms_isLeader ms).
Definition set_Cluster (c : registry) (ms : MasterServer) : MasterServer :=
  mkMaster (ms_Topo ms) (ms_Sequencer ms) c (ms_option ms) (ms_growth ms) (ms_topologyId ms) (ms_isLeader ms).
Definition set_growth (l : list VolumeGrowOption) (ms : MasterServer) : MasterServer :=
  mkMaster (ms_Topo ms) (ms_Sequencer ms) (ms_Cluster ms) (ms_option ms) l (ms_topologyId ms) (ms_isLeader ms).
Definition set_topologyId (id : string) (ms : MasterServer) : MasterServer :=
  mkMaster (ms_Topo ms) (ms_Sequencer ms) (ms_Cluster ms) (ms_option ms) (ms_growth ms) id (ms_isLeader ms).
Definition set_isLeader (b : bool) (ms : MasterServer) : MasterServer :=
  mkMaster (ms_Topo ms) (ms_Sequencer ms) (ms_Cluster ms) (ms_option ms) (ms_growth ms) (ms_topologyId ms) b.

(** The capacity of [volumeGrowthRequestChan]. *)
Definition growth_capacity : Z := 100.

(** A send on the channel in a [select] with a default: it fails when the channel is full. *)
Definition request_growth (o : VolumeGrowOption) (ms : MasterServer) : bool * MasterServer :=
  if decide (zlen (ms_growth ms) < growth_capacity) then (true, set_growth (ms_growth ms ++ [o])%list ms) else (false, ms).

(** ** [handleAssign] *)

(** The parameters of a query, empty when absent. *)
Record assign_query := mkAssignQuery {
  aq_count : string;
  aq_collection : string;
  aq_replication : string;
  aq_ttl : string;
  aq_dataCenter : string;
  aq_rack : string;
  aq_diskType : string;
}.

(** What an assignment meets: the order of the range over the writable volumes, the clock,
    the environment of the sequencer, the random cookie and the token ([""] without a
    signing key). *)
Record assign_env := mkAssignEnv {
  ae_order : loc_map -> list (Z * list VolumeLocation);
  ae_now : Z;
  ae_seq : Env;
  ae_cookie : Z;
  ae_token : string;
}.

Definition parse_count (s : string) : Z := default 1 (ParseUint (chars s) 10 64).

(** The address of the first location. *)
Definition first_url (nv : node_view) (locations : list VolumeLocation) : string * string :=
  match locations with
  | l :: _ =>
      match vl_DataNode l with
      | Some p =>
          let url := nv_url nv p in
          let publicUrl := nv_publicUrl nv p in
          (url, if decide (publicUrl = "") then url else publicUrl)
      | None => ("", "")
      end
  | [] => ("", "")
  end.

Definition no_placement : ReplicaPlacement := mkReplicaPlacement 0 0 0.

Definition handleAssign (url_ok : string -> bool) (raft : option engine) (env : assign_env) (q : assign_query) (ms : MasterServer)
  : m_answer * MasterServer :=
  if negb (leads raft) then (proxyToLeader url_ok raft, ms) else
  let count := parse_count (aq_count q) in
  let replication := if decide (aq_replication q = "") then mo_DefaultReplication (ms_option ms) else aq_replication q in
  let '(vl, topo) := GetOrCreateVolumeLayout (aq_collection q) replication (aq_ttl q) (aq_diskType q) (ms_Topo ms) in
  let ms := set_Topo topo ms in
  let nv := view (ae_now env) (t_heap topo) in
  let option := mkGrowOption (aq_collection q) (ParseReplicaPlacementString replication) (aq_ttl q) (aq_diskType q)
                  (aq_dataCenter q) (aq_rack q) in
  match PickForWrite nv (ae_order env) (Some option) vl with
  | Some (vid, (_ :: _) as locations) =>
      let '(needleId, seq) := NextFileId (ae_seq env) count (ms_Sequencer ms) in
      let fid := mkFileId vid needleId (ae_cookie env) in
      let '(url, publicUrl) := first_url nv locations in
      (json_answer 200 (JsonAssign (FileId_String fid) url publicUrl count (ae_token env)), set_Sequencer seq ms)
  | _ =>
      let '(_, ms) := request_growth (mkGrowOption (aq_collection q) no_placement (aq_ttl q) (aq_diskType q) "" "") ms in
      (json_answer 503 (JsonError "no writable volumes available"), ms)
  end.

(** ** [handleLookup] and the other handlers *)

Definition handleLookup (url_ok : string -> bool) (order : gmap string VolumeLayout -> list (string * VolumeLayout)) (now : Z)
    (raft : option engine) (vidStr : string) (ms : MasterServer) : m_answer :=
  if follows raft then proxyToLeader url_ok raft else
  if decide (vidStr = "") then json_answer 400 (JsonError "missing volumeId parameter") else
  match ParseUint (chars vidStr) 10 32 with
  | None => json_answer 400 (JsonError "invalid volumeId")
  | Some vid =>
      let locations := LookupVolumeLocation order now vid (ms_Topo ms) in
      Answered (write_part (JsonLookup vidStr ((fun l => (pl_Url l, pl_PublicUrl l)) <$> locations)) (json no_reply))
  end.

Definition handleVolGrow (url_ok : string -> bool) (raft : option engine) (collection replication ttl countStr : string)
    (ms : MasterServer) : m_answer * MasterServer :=
  if negb (leads raft) then (proxyToLeader url_ok raft, ms) else
  let replication := if decide (replication = "") then mo_DefaultReplication (ms_option ms) else replication in
  let count := match ParseUint (chars countStr) 10 64 with Some c => if decide (c > 0) then c else 1 | None => 1 end in
  let option := mkGrowOption collection (ParseReplicaPlacementString replication) ttl DefaultDiskType "" "" in
  (* the channel takes what it has room for *)
  let room := growth_capacity - zlen (ms_growth ms) in
  if decide (count <= room)
  then (Answered (answer 200 JsonOk), set_growth (ms_growth ms ++ replicate (Z.to_nat count) option)%list ms)
  else (Answered (answer 503 (JsonError "volume growth channel full")),
        set_growth (ms_growth ms ++ replicate (Z.to_nat room) option)%list ms).

Definition handleVacuum (url_ok : string -> bool) (raft : option engine) : m_answer :=
  if negb (leads raft) then proxyToLeader url_ok raft else Answered (answer 200 JsonOk).

Definition handleHealthz : m_answer := Answered (answer 200 (MText "OK")).

Definition handleReady (raft : option engine) : m_answer :=
  match raft with None => Answered (answer 503 (MText "NOT READY")) | Some _ => Answered (answer 200 (MText "READY")) end.

Definition handleStatus (order : gmap string ptr -> list (string * ptr)) (raft : option engine) (ms : MasterServer) : m_answer :=
  let children := match h_nodes (t_heap (ms_Topo ms)) !! root with Some n => Z.of_nat (size (n_children n)) | None => 0 end in
  Answered (write_part (JsonTopology (leads raft) (topo_ToProto order (ms_Topo ms)) children) (json no_reply)).

(** [handleAddPeer] and [handleRemovePeer]: [addr] is the decoded body, [change] the
    answer of the engine. *)
Definition handlePeer (url_ok : string -> bool) (raft : option engine) (change : string -> option string) (addr : option string)
  : m_answer :=
  if negb (leads raft) then proxyToLeader url_ok raft else
  match addr with
  | None => json_answer 400 (JsonError "addr required")
  | Some addr =>
      if decide (addr = "") then json_answer 400 (JsonError "addr required") else
      match change addr with
      | Some msg => json_answer 500 (JsonError msg)
      | None => Answered (write_part (JsonPeer addr) (json no_reply))
      end
  end.

(** ** Background work *)

(** One turn of [processVolumeGrowRequests]: the first request of the channel. *)
Definition processVolumeGrowRequest (order : gmap string ptr -> list (string * ptr)) (rpc : ptr -> Z -> bool) (persist : Z -> bool)
    (now : Z) (raft : option engine) (ms : MasterServer) : MasterServer :=
  match ms_growth ms with
  | [] => ms
  | req :: rest =>
      let ms := set_growth rest ms in
      if follows raft then ms else
      let '(_, _, t) := CheckAndGrow order rpc persist now (go_Collection req) (go_ReplicaPlacement req) (go_Ttl req)
                          (go_DiskType req) 1 (ms_Topo ms) in
      set_Topo t ms
  end.

(** One event of the state machine. *)
Definition handleFSMEvent (env : Env) (evt : StateEvent) (ms : MasterServer) : MasterServer :=
  let file m ms := set_Sequencer (SetMax env m (ms_Sequencer ms)) ms in
  let volume m ms := set_Topo (SetMaxVolumeId m (ms_Topo ms)) ms in
  let topology id ms := if decide (id <> "") then set_topologyId id ms else ms in
  match evt with
  | EventMaxFileId m => file m ms
  | EventMaxVolumeId m => volume m ms
  | EventTopologyId id => topology id ms
  | EventRestored f v id =>
      let ms := if decide (f > 0) then file f ms else ms in
      let ms := if decide (v > 0) then volume v ms else ms in
      topology id ms
  end.

(** A change of leadership; the command the new leader submits, if any. *)
Definition handleLeaderEvent (newId : string) (isLeader : bool) (ms : MasterServer) : option Command * MasterServer :=
  let ms := set_isLeader isLeader ms in
  (if isLeader && bool_decide (ms_topologyId ms = "") then Some (TopologyIdCommand newId) else None, ms).

(** ** Streams *)

(** One heartbeat of [SendHeartbeat]: the limit and the leader of the response. *)
Definition SendHeartbeat (order : gset Z -> list Z) (now : Z) (leader : string) (hb : option Heartbeat) (ms : MasterServer)
  : outcome topo_err (Z * string) * MasterServer :=
  let resp := (u64 (u64 (mo_VolumeSizeLimitMB (ms_option ms)) * 1024 * 1024), leader) in
  match ProcessJoinMessage order now hb (ms_Topo ms) with
  | (Panic, t) => (Panic, set_Topo t ms)
  | (_, t) => (Ret resp, set_Topo t ms)
  end.

(** One request of [KeepConnected]; the address to unregister when the stream ends. *)
Definition KeepConnected (now : Z) (req : KeepConnectedRequest) (clientAddr : string) (ms : MasterServer) : string * MasterServer :=
  if decide (kc_ClientType req <> "" /\ kc_ClientAddress req <> "")
  then (kc_ClientAddress req, set_Cluster (snd (Register now (Some req) (ms_Cluster ms))) ms)
  else (clientAddr, ms).

Definition KeepConnected_end (clientAddr : string) (ms : MasterServer) : MasterServer :=
  if decide (clientAddr <> "") then set_Cluster (Unregister clientAddr (ms_Cluster ms)) ms else ms.

(** ** The gRPC calls *)

Inductive m_grpc_err := NotLeader.

(** The response of [Assign]: an error message, or the fields. *)
Definition g_Assign (raft : option engine) (env : assign_env) (collection replication ttl diskType : string) (count : Z)
    (ms : MasterServer) : outcome m_grpc_err m_part * MasterServer :=
  if negb (leads raft) then (Fail NotLeader, ms) else
  let replication := if decide (replication = "") then mo_DefaultReplication (ms_option ms) else replication in
  let '(vl, topo) := GetOrCreateVolumeLayout collection replication ttl diskType (ms_Topo ms) in
  let ms := set_Topo topo ms in
  let nv := view (ae_now env) (t_heap topo) in
  let option := mkGrowOption collection (ParseReplicaPlacementString replication) ttl diskType "" "" in
  match PickForWrite nv (ae_order env) (Some option) vl with
  | Some (vid, (_ :: _) as locations) =>
      let '(needleId, seq) := NextFileId (ae_seq env) count (ms_Sequencer ms) in
      let '(url, publicUrl) := first_url nv locations in
      (Ret (JsonAssign (FileId_String (mkFileId vid needleId (ae_cookie env))) url publicUrl count (ae_token env)),
       set_Sequencer seq ms)
  | _ => (Ret (JsonError "no writable volumes available"), ms)
  end.

Inductive vid_err := ErrEmptyVolumeOrFileId | ErrInvalidVolumeId (value : string).

Definition parseVolumeOrFileID (value : string) : vid_err + Z :=
  if decide (value = "") then inl ErrEmptyVolumeOrFileId else
  match ParseFileId value with
  | Ret fid => inr (fid_VolumeId fid)
  | _ => match ParseUint (chars value) 10 32 with Some vid => inr vid | None => inl (ErrInvalidVolumeId value) end
  end.

Inductive vid_locations :=
| VidError (e : vid_err)
| VidNotFound
| VidLocations (l : list PbLocation).

Definition lookup_one (order : gmap string VolumeLayout -> list (string * VolumeLayout)) (now : Z) (ms : MasterServer) (item : string)
  : vid_locations :=
  match parseVolumeOrFileID item with
  | inl e => VidError e
  | inr vid => match LookupVolumeLocation order now vid (ms_Topo ms) with [] => VidNotFound | locs => VidLocations locs end
  end.

Definition g_LookupVolume (order : gmap string VolumeLayout -> list (string * VolumeLayout)) (now : Z) (items : list string)
    (ms : MasterServer) : gmap string vid_locations :=
  fold_left (fun m item => <[item := lookup_one order now ms item]> m) items ∅.

(** The metrics address, the size limit, the default replication and the leader. *)
Definition GetMasterConfiguration (leader : string) (ms : MasterServer) : string * Z * string * string :=
  (mo_Host (ms_option ms) +:+ ":" +:+ Itoa (mo_Port (ms_option ms)),
   u64 (u64 (mo_VolumeSizeLimitMB (ms_option ms)) * 1024 * 1024), mo_DefaultReplication (ms_option ms), leader).
End master.

Arguments MasterServer Q : clear implicits.
Arguments assign_env Env : clear implicits.

(** ** The list of all volumes *)

Record pb_disk := mkPbDisk {
  pd_VolumeInfos : list VolumeInfo;
  pd_MaxVolumeCount : Z;
  pd_FreeVolumeCount : Z;
}.

Record pb_node := mkPbNode {
  pn_PublicUrl : string;
  pn_FreeVolumeCount : Z;
  pn_ActiveVolumeCount : Z;
  pn_DiskInfos : list (string * pb_disk);
}.

Abbreviation pb_rack := (list (string * pb_node)).
Abbreviation pb_data_center := (list (string * pb_rack)).

Section volume_list.
Context (vorder : gmap Z VolumeInfo -> list (Z * VolumeInfo)) (corder : gmap string ptr -> list (string * ptr)).

Definition disk_info (d : DataNode) (volumes : list VolumeInfo) (dt : string) : string * pb_disk :=
  let slots := default 0 (GetFreeVolumeSlots d !! dt) in
  (dt, mkPbDisk (filter (fun v => disk_key (vi_DiskType v) = dt) volumes)
         (u64 (default 0 (di_maxVolumeCount <$> dn_disks d !! dt))) (if decide (slots > 0) then slots else 0)).

Definition node_info (d : DataNode) : pb_node :=
  let volumes := snd <$> vorder (dn_volumes d) in
  let diskTypes := list_to_set ((fun v => disk_key (vi_DiskType v)) <$> volumes) ∪ dom (GetFreeVolumeSlots d) : gset string in
  let totalFree := u64 (msum (fun slots => if decide (slots > 0) then slots else 0) (GetFreeVolumeSlots d)) in
  mkPbNode (dn_publicUrl d) totalFree (zlen volumes) (disk_info d volumes <$> merge_sort String.le (elements diskTypes)).

(** The children of a node that [f] keeps, with their ids, sorted by them. *)
Definition sorted_children {A} (h : heap) (p : ptr) (f : ptr -> Node -> option A) : list (string * A) :=
  merge_sort fst_le (omap (fun c => n ← h_nodes h !! c; (fun a => (n_id n, a)) <$> f c n) (children_of corder h p)).

Definition rack_info (h : heap) (p : ptr) : pb_rack := sorted_children h p (fun _ n => node_info <$> data_of n).

Definition data_center_info (h : heap) (p : ptr) : pb_data_center :=
  sorted_children h p (fun c n => if same_kind KRack n then Some (rack_info h c) else None).

(** The id of the root, the data centers and the size limit. *)
Definition VolumeList {Q} (ms : MasterServer Q) : string * list (string * pb_data_center) * Z :=
  let h := t_heap (ms_Topo ms) in
  (GetId h root, sorted_children h root (fun c n => if same_kind KDataCenter n then Some (data_center_info h c) else None),
   u64 (u64 (mo_VolumeSizeLimitMB (ms_option ms)) * 1024 * 1024)).
End volume_list.

(** ** The choice of the engine *)

Inductive engine_choice := HashicorpEngine (nodeId bindAddr : string) (singleMode : bool) | NativeEngine (nodeId : string).
Inductive engine_err := ErrNativeSingleOnly | ErrUnsupportedEngine (name : string).

Definition host_port (host : string) (port : Z) : string := host +:+ ":" +:+ Itoa port.

Definition newMasterConsensusEngine (raftEngine host : string) (port raftPort : Z) (peers : list string)
  : outcome engine_err engine_choice :=
  let name := ToLower (GoText.TrimSpace raftEngine) in
  let name := if decide (name = "") then "hashicorp" else name in
  if decide (name = "hashicorp") then
    let raftPort := if decide (raftPort = 0) then port + 1 else raftPort in
    Ret (HashicorpEngine (host_port host port) (host_port host raftPort) (bool_decide (peers = [])))
  else if decide (name = "native") then
    if decide (peers <> []) then Fail ErrNativeSingleOnly else Ret (NativeEngine (host_port host port))
  else Fail (ErrUnsupportedEngine raftEngine).

(** The commands of the log of the native engine; the payload decodes to a number or a
    name, or not at all. *)
Definition decodeNativeMasterCommand (commandType : string) (number : option Z) (name : option string) : option Command :=
  if decide (commandType = "max_file_id") then MaxFileIdCommand <$> number
  else if decide (commandType = "max_volume_id") then MaxVolumeIdCommand <$> number
  else if decide (commandType = "topology_id") then TopologyIdCommand <$> name
  else None.
