(* ===== verification/MasterSpec.v ===== *)
(** * MasterSpec: what the master server hands out

    Over any history of requests, events and heartbeats the file ids that assignments hand
    out never overlap, and each names a writable volume with the address of a data node
    that has it and is alive.  Volume servers report their volumes without placement and
    time to live, so that no request for a replicated or an expiring volume is served. *)

From stdpp Require Import sorting.
From S2P Require Import Prelude GoStrings Types TopoNode VolumeLayout Topology TopologySpec VolumeGrowth GrowthSpec.
From S2P Require Import Sequence MasterSeq Http GoText Registry TopologySafe VolumeServer VolumeServerSpec MasterServer.

#[local] Open Scope Z_scope.
#[local] Open Scope string_scope.

(** ** Histories *)

Section history.
Context {Q Env : Type} `{SequencerLaws Q Env}.
Context (url_ok : string -> bool) (sorder : gset Z -> list Z) (corder : gmap string ptr -> list (string * ptr)).

Inductive m_event :=
| MAssign (raft : option engine) (env : assign_env Env) (q : assign_query)
| MRpcAssign (raft : option engine) (env : assign_env Env) (collection replication ttl diskType : string) (count : Z)
| MGrow (raft : option engine) (collection replication ttl countStr : string)
| MProcess (rpc : ptr -> Z -> bool) (persist : Z -> bool) (now : Z) (raft : option engine)
| MFsm (env : Env) (evt : StateEvent)
| MLeader (newId : string) (isLeader : bool)
| MHeartbeat (now : Z) (leader : string) (hb : option Heartbeat)
| MConnect (now : Z) (req : KeepConnectedRequest) (clientAddr : string)
| MDisconnect (clientAddr : string)
| MSync (now : Z).

(** What a successful assignment answers. *)
Definition granted (a : m_answer) : option m_part :=
  match a with
  | Answered r => match rs_body r with [JsonAssign f u p n t] => Some (JsonAssign f u p n t) | _ => None end
  | _ => None
  end.

Definition granted_rpc (a : outcome m_grpc_err m_part) : option m_part :=
  match a with Ret (JsonAssign f u p n t) => Some (JsonAssign f u p n t) | _ => None end.

(** A grant: the time, and the answer. *)
Definition exec_m (ev : m_event) (ms : MasterServer Q) : option (Z * m_part) * MasterServer Q :=
  match ev with
  | MAssign raft env q => let '(a, ms) := handleAssign url_ok raft env q ms in (pair (ae_now env) <$> granted a, ms)
  | MRpcAssign raft env c r ttl d count =>
      let '(a, ms) := g_Assign raft env c r ttl d count ms in (pair (ae_now env) <$> granted_rpc a, ms)
  | MGrow raft c r ttl n => (None, snd (handleVolGrow url_ok raft c r ttl n ms))
  | MProcess rpc persist now raft => (None, processVolumeGrowRequest corder rpc persist now raft ms)
  | MFsm env evt => (None, handleFSMEvent env evt ms)
  | MLeader newId isLeader => (None, snd (handleLeaderEvent newId isLeader ms))
  | MHeartbeat now leader hb => (None, snd (SendHeartbeat sorder now leader hb ms))
  | MConnect now req addr => (None, snd (KeepConnected now req addr ms))
  | MDisconnect addr => (None, KeepConnected_end addr ms)
  | MSync now => (None, set_Topo (SyncDeadNodeRemoval corder now (ms_Topo ms)) ms)
  end.

(** The grants of a history, each with the topology it was made in. *)
Fixpoint grants (evs : list m_event) (ms : MasterServer Q) : list (Topology * Z * m_part) :=
  match evs with
  | [] => []
  | ev :: evs =>
      let '(g, ms) := exec_m ev ms in
      match g with Some (now, part) => (ms_Topo ms, now, part) :: grants evs ms | None => grants evs ms end
  end.

(** The mark of file ids that an event sets. *)
Definition file_mark (ev : m_event) : Z :=
  match ev with MFsm _ (EventMaxFileId m) => m | MFsm _ (EventRestored m _ _) => m | _ => 0 end.

(** For each grant of a history, the highest mark set before it, from [m] on. *)
Fixpoint grant_marks (m : Z) (evs : list m_event) (ms : MasterServer Q) : list Z :=
  match evs with
  | [] => []
  | ev :: evs =>
      let m := Z.max m (file_mark ev) in
      let '(g, ms) := exec_m ev ms in
      match g with Some _ => m :: grant_marks m evs ms | None => grant_marks m evs ms end
  end.

(** The ids and the counts of the calls have the width of their types. *)
Definition event_ok (ev : m_event) : Prop :=
  match ev with
  | MAssign _ env _ => ranges (ae_order env) /\ in_u 32 (ae_cookie env)
  | MRpcAssign _ env _ _ _ _ count => ranges (ae_order env) /\ in_u 32 (ae_cookie env) /\ in_u 64 count
  | _ => True
  end.

(** The highest id a history can reach. *)
Definition m_reach (max : Z) (evs : list m_event) : Z :=
  fold_left (fun b ev =>
    match ev with
    | MAssign _ _ q => b + batch (parse_count (aq_count q))
    | MRpcAssign _ _ _ _ _ _ count => b + batch count
    | MFsm _ (EventMaxFileId m) => Z.max b m
    | MFsm _ (EventRestored m _ _) => Z.max b m
    | _ => b
    end) evs max.

(** The growth requests that wait have counts of their type. *)
Definition growth_wf (o : VolumeGrowOption) : Prop :=
  0 <= DifferentDataCenterCount (go_ReplicaPlacement o) /\ 0 <= DifferentRackCount (go_ReplicaPlacement o) /\
  0 <= SameRackCount (go_ReplicaPlacement o).

Record m_ok (ms : MasterServer Q) : Prop := {
  mk_topo : topo_ok (ms_Topo ms);
  mk_growth : Forall growth_wf (ms_growth ms);
  mk_max : 0 <= GetMax (ms_Sequencer ms);
}.

Definition public_url (d : DataNode) : string := if decide (dn_publicUrl d = "") then dn_url d else dn_publicUrl d.

(** The assignment [part], made at [now] in the topology [t], gives away [count] ids from
    [f] on: the file id reads back, the volume is writable on a data node that is alive,
    and the urls are those of the node. *)
Definition grant_right (g : Topology * Z * m_part) (f : FileId) (count : Z) : Prop :=
  let '(t, now, part) := g in
  exists p d key vl locs token,
    part = (JsonAssign (FileId_String f) (dn_url d) (public_url d) count token) /\
    in_u 32 (fid_Cookie f) /\ (in_u 32 (fid_VolumeId f) -> ParseFileId (FileId_String f) = Ret f) /\
    t_layouts t !! key = Some vl /\ ly_writable vl !! fid_VolumeId f = Some locs /\
    head (omap vl_DataNode locs) = Some p /\ ToDataNode (t_heap t) p = Some d /\ IsAlive now (t_heap t) p = true /\
    registered t (fid_VolumeId f) (GetId (t_heap t) p).

(** ** The choice of a volume *)

Lemma GetOrCreateVolumeLayout_key c r ttl d t vl t' :
  GetOrCreateVolumeLayout c r ttl d t = (vl, t') -> t_layouts t' !! makeKey c r ttl d = Some vl.
Proof.
  unfold GetOrCreateVolumeLayout, GetOrCreate.
  destruct (t_layouts t !! makeKey c r ttl d) eqn:E; intros [= <- <-]; cbn; [done|]. by rewrite lookup_insert_eq.
Qed.

Lemma pick_right order now opt c r ttl d t vl t' vid l ls :
  topo_ok t -> ranges order -> GetOrCreateVolumeLayout c r ttl d t = (vl, t') ->
  PickForWrite (view now (t_heap t')) order opt vl = Some (vid, l :: ls) ->
  exists p dn, t_layouts t' !! makeKey c r ttl d = Some vl /\ ly_writable vl !! vid = Some (l :: ls) /\
    vl_DataNode l = Some p /\ ToDataNode (t_heap t') p = Some dn /\ IsAlive now (t_heap t') p = true /\
    registered t' vid (GetId (t_heap t') p).
Proof.
  intros Hok Ho E Hp. pose proof (GetOrCreateVolumeLayout_ok c r ttl d t Hok) as Hl. rewrite E in Hl.
  destruct Hl as ([Hh Hlay] & _). pose proof (GetOrCreateVolumeLayout_key _ _ _ _ _ _ _ E) as Hk.
  destruct (Hlay _ _ Hk) as [A HA]. apply PickForWrite_Some in Hp as (Hw & _ & Hp); [|done].
  destruct (loc_ToProto_listed _ _ _ _ _ Writable _ l HA Hw) as (p & El & [dn Hd] & Hid & _); [by left|].
  exists p, dn. split_and!; try done.
  - cbn [pickable] in Hp. rewrite El in Hp. by apply andb_true_iff in Hp as [Ha _].
  - exists (makeKey c r ttl d), vl. split; [done|]. exists Writable. cbn [class]. unfold nodes. rewrite Hw. cbn [default fmap list_fmap].
    rewrite <- Hid. by left.
Qed.

Lemma first_url_node now h l ls p d :
  vl_DataNode l = Some p -> ToDataNode h p = Some d ->
  first_url (view now h) (l :: ls) = (dn_url d, public_url d).
Proof. intros El Hd. unfold first_url. rewrite El. cbn. by rewrite Hd. Qed.

(** One assignment: refused, it leaves the ids alone; granted, it takes a batch from the
    sequencer. *)
Definition assign_effect (ms ms' : MasterServer Q) (now count : Z) (g : option m_part) : Prop :=
  m_ok ms' /\
  match g with
  | None => GetMax (ms_Sequencer ms') = GetMax (ms_Sequencer ms)
  | Some part => GetMax (ms_Sequencer ms') = GetMax (ms_Sequencer ms) + batch count /\
      exists f, grant_right (ms_Topo ms', now, part) f count /\ fid_NeedleId f = GetMax (ms_Sequencer ms) + 1
  end.

(** The common end of both calls. *)
Lemma grant_spec env c r ttl d opt count (ms : MasterServer Q) vl t' vid l ls ms1 :
  m_ok ms -> ranges (ae_order env) -> in_u 32 (ae_cookie env) -> in_u 64 count ->
  GetMax (ms_Sequencer ms) + batch count < 2 ^ 64 ->
  GetOrCreateVolumeLayout c r ttl d (ms_Topo ms) = (vl, t') ->
  PickForWrite (view (ae_now env) (t_heap t')) (ae_order env) opt vl = Some (vid, l :: ls) ->
  ms1 = set_Topo t' ms ->
  let '(needleId, seq) := NextFileId (ae_seq env) count (ms_Sequencer ms1) in
  let '(url, publicUrl) := first_url (view (ae_now env) (t_heap t')) (l :: ls) in
  assign_effect ms (set_Sequencer seq ms1) (ae_now env) count
    (Some (JsonAssign (FileId_String (mkFileId vid needleId (ae_cookie env))) url publicUrl count (ae_token env))).
Proof.
  intros [Hok Hg Hm] Ho Hck Hcn Hb E Hp ->. cbn [set_Topo ms_Sequencer].
  pose proof (next_start (ae_seq env) count _ Hcn Hm Hb) as Hs. pose proof (next_max (ae_seq env) count _ Hcn Hm Hb) as Hx.
  destruct (NextFileId _ count (ms_Sequencer ms)) as [needleId seq]. cbn [fst snd] in Hs, Hx.
  destruct (pick_right _ _ _ _ _ _ _ _ _ _ _ _ _ Hok Ho E Hp) as (p & dn & Hk & Hw & El & Hd & Ha & Hr).
  rewrite (first_url_node _ _ _ _ _ _ El Hd).
  pose proof (GetOrCreateVolumeLayout_ok c r ttl d _ Hok) as Hl. rewrite E in Hl. destruct Hl as (Hok' & _).
  pose proof (batch_pos count Hcn). split; [split; cbn; [done|done|lia]|]. cbn [set_Sequencer ms_Sequencer ms_Topo]. split; [lia|].
  exists (mkFileId vid needleId (ae_cookie env)). split; [|cbn; lia].
  exists p, dn, (makeKey c r ttl d), vl, (l :: ls), (ae_token env). split_and!; try done.
  - intros Hv. apply FileId_roundtrip. split_and!; [done| |done]. cbn. unfold in_u. lia.
  - cbn [omap list_omap]. by rewrite El.
Qed.

Lemma parse_count_u64 s : in_u 64 (parse_count s).
Proof.
  unfold parse_count. destruct (ParseUint (chars s) 10 64) as [c|] eqn:E; [|cbn; unfold in_u; lia].
  cbn. eapply ParseUint_range; [|exact E]; lia.
Qed.

Lemma set_Topo_ok t (ms : MasterServer Q) : m_ok ms -> topo_ok t -> m_ok (set_Topo t ms).
Proof. by intros [? ? ?] ?. Qed.

Lemma request_growth_ok o (ms : MasterServer Q) :
  m_ok ms -> growth_wf o ->
  m_ok (snd (request_growth o ms)) /\ ms_Sequencer (snd (request_growth o ms)) = ms_Sequencer ms.
Proof.
  intros [Ht Hg Hm] Ho. unfold request_growth. case_decide; cbn [snd]; [|by split]. split; [|done].
  split; [done| |done]. cbn. by apply Forall_app_2; [|apply Forall_singleton].
Qed.

Lemma rp_digit_pos c : 0 <= rp_digit c.
Proof. unfold rp_digit. case_decide; [|lia]. by apply (wrap_range 8). Qed.

Lemma parsed_placement_wf c r ttl d dc rack : growth_wf (mkGrowOption c (ParseReplicaPlacementString r) ttl d dc rack).
Proof. unfold growth_wf, ParseReplicaPlacementString. cbn. repeat case_match; cbn; split_and!; try lia; apply rp_digit_pos. Qed.

Lemma handleAssign_spec raft env q (ms : MasterServer Q) :
  m_ok ms -> event_ok (MAssign raft env q) ->
  let count := parse_count (aq_count q) in
  GetMax (ms_Sequencer ms) + batch count < 2 ^ 64 ->
  let '(a, ms') := handleAssign url_ok raft env q ms in assign_effect ms ms' (ae_now env) count (granted a).
Proof.
  intros Hms [Ho Hck] count Hb. unfold handleAssign. destruct (leads raft) eqn:El; cbn [negb].
  2:{ split; [done|]. unfold proxyToLeader. repeat case_match; done. }
  fold count. set (r := if decide _ then _ else _). pose proof (GetOrCreateVolumeLayout_ok (aq_collection q) r (aq_ttl q) (aq_diskType q) _ (mk_topo _ Hms)) as Hl.
  destruct (GetOrCreateVolumeLayout _ _ _ _ _) as [vl t'] eqn:E. destruct Hl as (Hok' & _). cbv zeta.
  destruct (PickForWrite _ _ _ vl) as [[vid [|l ls]]|] eqn:Ep.
  1,3: destruct (request_growth_ok (mkGrowOption (aq_collection q) no_placement (aq_ttl q) (aq_diskType q) "" "") (set_Topo t' ms)) as [H1 H2];
    [by apply set_Topo_ok|done|]; destruct (request_growth _ _) as [b ms1]; cbn [snd] in *; split; [done|]; cbn [granted json_answer rs_body write_part];
    cbn; by rewrite H2.
  pose proof (grant_spec env _ _ _ _ _ count ms vl t' vid l ls _ Hms Ho Hck (parse_count_u64 _) Hb E Ep eq_refl) as Hgr.
  destruct (NextFileId _ _ _) as [needleId seq]. destruct (first_url _ _) as [url publicUrl]. exact Hgr.
Qed.

Lemma g_Assign_spec raft env c r ttl d count (ms : MasterServer Q) :
  m_ok ms -> event_ok (MRpcAssign raft env c r ttl d count) -> GetMax (ms_Sequencer ms) + batch count < 2 ^ 64 ->
  let '(a, ms') := g_Assign raft env c r ttl d count ms in assign_effect ms ms' (ae_now env) count (granted_rpc a).
Proof.
  intros Hms (Ho & Hck & Hcn) Hb. unfold g_Assign. destruct (leads raft); cbn [negb]; [|by split].
  set (r' := if decide _ then _ else _). pose proof (GetOrCreateVolumeLayout_ok c r' ttl d _ (mk_topo _ Hms)) as Hl.
  destruct (GetOrCreateVolumeLayout _ _ _ _ _) as [vl t'] eqn:E. destruct Hl as (Hok' & _). cbv zeta.
  destruct (PickForWrite _ _ _ vl) as [[vid [|l ls]]|] eqn:Ep; [split; [by apply set_Topo_ok|done]| |split; [by apply set_Topo_ok|done]].
  pose proof (grant_spec env _ _ _ _ _ count ms vl t' vid l ls _ Hms Ho Hck Hcn Hb E Ep eq_refl) as Hgr.
  destruct (NextFileId _ _ _) as [needleId seq]. destruct (first_url _ _) as [url publicUrl]. exact Hgr.
Qed.

Context (Hset : set_order sorder).

Lemma handleFSMEvent_spec env evt (ms : MasterServer Q) :
  m_ok ms ->
  m_ok (handleFSMEvent env evt ms) /\
  Z.max (GetMax (ms_Sequencer ms)) (file_mark (MFsm env evt)) <= GetMax (ms_Sequencer (handleFSMEvent env evt ms))
    <= m_reach (GetMax (ms_Sequencer ms)) [MFsm env evt].
Proof.
  intros [Ht Hg Hm]. pose proof (fun m q => set_max env m q) as Hs.
  assert (forall v, topo_ok (SetMaxVolumeId v (ms_Topo ms))) as Hv by (intros v; by apply setMax_ok).
  destruct evt as [m|m|id|f v id]; cbn [handleFSMEvent m_reach fold_left file_mark].
  - split; [split|]; cbn; rewrite ?Hs; try done; lia.
  - split; [split|]; cbn; try done; lia.
  - case_decide; (split; [split|]; cbn; try done; lia).
  - repeat case_decide; (split; [split|]); cbn; rewrite ?Hs; try done; lia.
Qed.

Lemma handleVolGrow_ok raft c r ttl n (ms : MasterServer Q) :
  m_ok ms -> m_ok (snd (handleVolGrow url_ok raft c r ttl n ms)) /\
  ms_Sequencer (snd (handleVolGrow url_ok raft c r ttl n ms)) = ms_Sequencer ms.
Proof.
  intros [Ht Hg Hm]. unfold handleVolGrow. destruct (leads raft); cbn [negb]; [|by split].
  set (r' := if decide (r = "") then _ else r). set (o := mkGrowOption _ _ _ _ _ _).
  assert (forall k, Forall growth_wf (ms_growth ms ++ replicate k o)%list) as Ho.
  { intros k. apply Forall_app_2; [done|]. apply Forall_replicate. apply parsed_placement_wf. }
  cbv zeta. case_decide; cbn [snd]; (split; [split; cbn; [done|apply Ho|done]|done]).
Qed.

Lemma processVolumeGrowRequest_ok rpc persist now raft (ms : MasterServer Q) :
  m_ok ms -> m_ok (processVolumeGrowRequest corder rpc persist now raft ms) /\
  ms_Sequencer (processVolumeGrowRequest corder rpc persist now raft ms) = ms_Sequencer ms.
Proof.
  intros Hms. pose proof Hms as [Ht Hg Hm]. unfold processVolumeGrowRequest. destruct (ms_growth ms) as [|req rest]; [by split|].
  assert (m_ok (set_growth rest ms)) as Hms' by (inversion Hg; by split).
  inversion Hg as [|? ? (H1 & H2 & H3) Hg']; subst. destruct (follows raft); [by split|].
  pose proof (grown_check corder rpc persist now (go_Collection req) (go_ReplicaPlacement req) (go_Ttl req) (go_DiskType req) 1
    (ms_Topo ms) Ht) as Hc. cbn [set_growth ms_Topo].
  destruct (CheckAndGrow _ _ _ _ _ _ _ _ _ _) as [[n e] t']. destruct Hc as ((Ht' & _) & _); [unfold TotalCopies; lia|done|].
  split; [by apply set_Topo_ok|done].
Qed.

Lemma SendHeartbeat_ok now leader hb (ms : MasterServer Q) :
  m_ok ms -> m_ok (snd (SendHeartbeat sorder now leader hb ms)) /\
  ms_Sequencer (snd (SendHeartbeat sorder now leader hb ms)) = ms_Sequencer ms.
Proof.
  intros [Ht Hg Hm]. unfold SendHeartbeat. destruct hb as [hb|]; [|by split].
  destruct (ProcessJoinMessage_spec sorder now hb _ Ht Hset) as (p & t' & E & Ht' & _). rewrite E. by split.
Qed.

(** What one event does to the ids. *)
Definition event_effect (ev : m_event) (g : option (Z * m_part)) (ms ms' : MasterServer Q) : Prop :=
  m_ok ms' /\ GetMax (ms_Sequencer ms) <= GetMax (ms_Sequencer ms') <= m_reach (GetMax (ms_Sequencer ms)) [ev] /\
  file_mark ev <= GetMax (ms_Sequencer ms') /\
  match g with
  | None => True
  | Some (now, part) => exists f count, grant_right (ms_Topo ms', now, part) f count /\
      fid_NeedleId f = GetMax (ms_Sequencer ms) + 1 /\ 0 < batch count /\
      GetMax (ms_Sequencer ms') = GetMax (ms_Sequencer ms) + batch count /\ file_mark ev = 0
  end.

Lemma assign_event ev now count g ms ms' :
  in_u 64 count -> file_mark ev = 0 -> m_reach (GetMax (ms_Sequencer ms)) [ev] = GetMax (ms_Sequencer ms) + batch count ->
  assign_effect ms ms' now count g -> event_effect ev (pair now <$> g) ms ms'.
Proof.
  intros Hc Hz Hr [Hok Hg]. pose proof (batch_pos count Hc). pose proof (mk_max _ Hok). unfold event_effect. rewrite Hr, Hz.
  destruct g as [part|]; cbn [fmap option_fmap option_map].
  - destruct Hg as [Hx (f & Hf & Hn)]. split_and!; [done|lia|lia|lia|]. exists f, count. split_and!; (done || lia).
  - split_and!; (done || lia).
Qed.

Lemma exec_m_spec ev (ms : MasterServer Q) :
  m_ok ms -> event_ok ev -> m_reach (GetMax (ms_Sequencer ms)) [ev] < 2 ^ 64 ->
  let '(g, ms') := exec_m ev ms in event_effect ev g ms ms'.
Proof.
  intros Hms Hev Hb.
  assert (forall ms', m_ok ms' /\ ms_Sequencer ms' = ms_Sequencer ms -> m_reach (GetMax (ms_Sequencer ms)) [ev] = GetMax (ms_Sequencer ms) ->
    file_mark ev = 0 -> event_effect ev None ms ms') as Hsame.
  { intros ms' [H1 H2] H3 H4. pose proof (mk_max _ Hms). split; [done|]. rewrite H2, H3, H4. by split; [lia|]. }
  destruct ev; cbn [exec_m].
  - pose proof (handleAssign_spec raft env q ms Hms Hev Hb) as Ha. destruct (handleAssign _ _ _ _ _) as [a ms'].
    by eapply (assign_event _ _ (parse_count (aq_count q))); [apply parse_count_u64|done| |].
  - pose proof (g_Assign_spec _ _ _ _ _ _ _ ms Hms Hev Hb) as Ha. destruct (g_Assign _ _ _ _ _ _ _ _) as [a ms'].
    by eapply (assign_event _ _ count); [apply Hev|done| |].
  - apply Hsame; [|done|done]. by apply handleVolGrow_ok.
  - apply Hsame; [|done|done]. by apply processVolumeGrowRequest_ok.
  - destruct (handleFSMEvent_spec env evt ms Hms) as [H1 H2]. split; [done|]. split; [lia|]. split; [lia|done].
  - by apply Hsame; [destruct Hms| |].
  - apply Hsame; [|done|done]. by apply SendHeartbeat_ok.
  - apply Hsame; [|done|done]. unfold KeepConnected. case_decide; by destruct Hms.
  - apply Hsame; [|done|done]. unfold KeepConnected_end. case_decide; by destruct Hms.
  - apply Hsame; [|done|done]. split; [|done]. apply set_Topo_ok; [done|]. apply SyncDeadNodeRemoval_ok, Hms.
Qed.

Lemma m_reach_le a b evs : a <= b -> m_reach a evs <= m_reach b evs.
Proof.
  revert a b. induction evs as [|ev evs IH]; intros a b Hab; [done|]. cbn [m_reach fold_left]. apply IH.
  destruct ev; try lia. destruct evt; lia.
Qed.

Lemma m_reach_grows a evs : Forall event_ok evs -> a <= m_reach a evs.
Proof.
  revert a. induction evs as [|ev evs IH]; intros a Hok; [done|]. inversion Hok as [|? ? Hev Hok']; subst.
  etrans; [|apply (IH _ Hok')]. destruct ev; try lia.
  - pose proof (batch_pos _ (parse_count_u64 (aq_count q))). lia.
  - destruct Hev as (_ & _ & Hc). pose proof (batch_pos _ Hc). lia.
  - destruct evt; lia.
Qed.

Definition id_batch (fn : FileId * Z) : Z * Z := (fid_NeedleId (fst fn), batch (snd fn)).

Lemma grants_spec evs m (ms : MasterServer Q) :
  m <= GetMax (ms_Sequencer ms) -> m_ok ms -> Forall event_ok evs -> m_reach (GetMax (ms_Sequencer ms)) evs < 2 ^ 64 ->
  exists fs, Forall2 (fun g fn => grant_right g (fst fn) (snd fn)) (grants evs ms) fs /\
    Forall2 (fun m b => m < fst b) (grant_marks m evs ms) (id_batch <$> fs) /\
    Forall (fun b => GetMax (ms_Sequencer ms) < fst b) (id_batch <$> fs) /\ StronglySorted before (id_batch <$> fs).
Proof.
  revert m ms. induction evs as [|ev evs IH]; intros m ms Hlow Hms Hok Hb; [exists []; by repeat constructor|].
  inversion Hok as [|? ? Hev Hok']; subst. cbn [grants grant_marks].
  assert (m_reach (GetMax (ms_Sequencer ms)) [ev] < 2 ^ 64) as Hb1.
  { eapply Z.le_lt_trans; [|exact Hb]. by apply (m_reach_grows _ evs). }
  pose proof (exec_m_spec ev ms Hms Hev Hb1) as He. destruct (exec_m ev ms) as [g ms']. destruct He as (Hms' & [Hlo Hhi] & Hmk & Hg).
  assert (m_reach (GetMax (ms_Sequencer ms')) evs < 2 ^ 64) as Hb2.
  { eapply Z.le_lt_trans; [|exact Hb]. by apply (m_reach_le _ _ evs). }
  destruct (IH (Z.max m (file_mark ev)) ms' ltac:(lia) Hms' Hok' Hb2) as (fs & Hfs & Hmarks & Hlt & Hsort).
  assert (Forall (fun b => GetMax (ms_Sequencer ms) < fst b) (id_batch <$> fs)) as Hlt'.
  { eapply Forall_impl; [exact Hlt|]. cbn. lia. }
  destruct g as [[now part]|]; [|by exists fs]. destruct Hg as (f & count & Hr & Hn & Hpos & Hm & Hz).
  exists ((f, count) :: fs). split; [by constructor|]. split; [constructor; [cbn; pose proof (mk_max _ Hms); lia|done]|]. split.
  - constructor; [cbn; lia|done].
  - constructor; [done|]. eapply Forall_impl; [exact Hlt|]. unfold before. cbn. lia.
Qed.
End history.

(** C14: over any history of assignments by HTTP and by RPC, growth requests and their
    execution, replicated events, changes of leadership, heartbeats of volume servers,
    connections of clients and removals of dead nodes, with any sequencer that keeps its
    interface, each answer to an assignment gives a range of needle ids that begins after
    all the ranges given before it, after the ids the sequencer had given before the
    history and after every mark of file ids that a replicated event has set before; its file id reads
    back as the volume, the first id and the cookie; the volume is writable in a layout
    of the topology, and the addresses are those of the first data node that has it,
    which is alive.  The history must not use up the 64-bit ids. *)
Theorem master_grants {Q Env : Type} `{SequencerLaws Q Env} (url_ok : string -> bool) (sorder : gset Z -> list Z)
    (corder : gmap string ptr -> list (string * ptr)) (evs : list m_event) (ms : MasterServer Q) :
  set_order sorder -> m_ok ms -> Forall event_ok evs -> m_reach (GetMax (ms_Sequencer ms)) evs < 2 ^ 64 ->
  exists fs : list (FileId * Z),
    Forall2 (fun g fn => grant_right g (fst fn) (snd fn)) (grants url_ok sorder corder evs ms) fs /\
    Forall2 (fun m b => m < fst b) (grant_marks url_ok sorder corder (GetMax (ms_Sequencer ms)) evs ms) (id_batch <$> fs) /\
    Forall (fun b => GetMax (ms_Sequencer ms) < fst b) (id_batch <$> fs) /\ StronglySorted before (id_batch <$> fs).
Proof. intros Hs. by apply grants_spec. Qed.

(** ** Replicated and expiring volumes *)

(** Only layouts without replication and time to live have writable volumes. *)
Definition only_plain (t : Topology) : Prop :=
  forall key vl, t_layouts t !! key = Some vl -> ly_writable vl <> ∅ -> exists c, key = makeKey c "000" "" "".

Definition plain_heartbeat (hb : Heartbeat) : Prop :=
  Forall (fun v => vi_ReplicaPlacement v = 0 /\ vi_Ttl v = "" /\ vi_DiskType v = "") (hb_Volumes hb).

Lemma BuildHeartbeat_plain order vs : plain_heartbeat (BuildHeartbeat order vs).
Proof.
  unfold plain_heartbeat, BuildHeartbeat. cbn [hb_Volumes]. destruct (vs_store vs) as [s|]; [|constructor].
  apply Forall_forall. intros v (dl & (vid & Hv & _)%list_elem_of_bind & _)%list_elem_of_bind.
  by destruct (DiskStore.s_GetVolume vid s); [apply list_elem_of_singleton in Hv as ->|apply not_elem_of_nil in Hv].
Qed.

Lemma only_plain_layouts t t' : t_layouts t' = t_layouts t -> only_plain t -> only_plain t'.
Proof. intros E Ht key vl. rewrite E. apply Ht. Qed.

Lemma only_plain_fmap (f : VolumeLayout -> VolumeLayout) t t' :
  (forall vl, ly_writable vl = ∅ -> ly_writable (f vl) = ∅) -> t_layouts t' = f <$> t_layouts t -> only_plain t -> only_plain t'.
Proof.
  intros Hf E Ht key vl. rewrite E, lookup_fmap_Some. intros (vl0 & <- & Hk) Hw. apply (Ht key vl0 Hk). intros E0. by apply Hw, Hf.
Qed.

Lemma removeVolume_plain now p vid t : only_plain t -> only_plain (removeVolume now p vid t).
Proof.
  apply (only_plain_fmap (RemoveDataNodeLocation (view now (t_heap t)) vid (dn_GetId (t_heap t) p))); [|done].
  intros vl E. cbn. rewrite E. unfold filterMap. by rewrite lookup_empty.
Qed.

Lemma GetOrCreate_plain c r ttl d t key vl m :
  GetOrCreate c r ttl d (t_layouts t) = (key, vl, m) -> only_plain t -> only_plain (set_layouts m t).
Proof.
  intros (-> & [E|[E ->]])%GetOrCreate_spec Ht key' vl'; cbn [set_layouts t_layouts].
  - rewrite insert_id by done. apply Ht.
  - intros [[<- <-]|[_ Hk]]%lookup_insert_Some; [by intros []|by apply Ht].
Qed.

Lemma GetOrCreateVolumeLayout_plain c r ttl d t : only_plain t -> only_plain (snd (GetOrCreateVolumeLayout c r ttl d t)).
Proof.
  unfold GetOrCreateVolumeLayout. destruct (GetOrCreate _ _ _ _ _) as [[key vl] m] eqn:E. by apply (GetOrCreate_plain _ _ _ _ _ _ _ _ E).
Qed.

Lemma processVolume_plain now p v t :
  vi_ReplicaPlacement v = 0 /\ vi_Ttl v = "" /\ vi_DiskType v = "" -> only_plain t -> only_plain (processVolume now p v t).
Proof.
  intros (Hr & Htl & Hd) Ht. unfold processVolume. rewrite Hr, Htl, Hd. cbv zeta.
  destruct (GetOrCreate _ _ _ _ (t_layouts t)) as [[key vl] m] eqn:E.
  pose proof (GetOrCreate_plain _ _ _ _ _ _ _ _ E Ht) as Hm.
  assert (key = makeKey (vi_Collection v) "000" "" "") as ->.
  { unfold GetOrCreate in E. by destruct (t_layouts t !! _); injection E as <- _ _. }
  eapply only_plain_layouts.
  { unfold setMaxVolumeIDUnsafe. instantiate (1 := mkTopology _ _ _). by case_decide. }
  intros key vl'. cbn [t_layouts]. intros [[<- _]|[_ Hk]]%lookup_insert_Some; [by eauto|by apply Hm].
Qed.

Lemma join_volumes_plain now p vs t k :
  Forall (fun v => vi_ReplicaPlacement v = 0 /\ vi_Ttl v = "" /\ vi_DiskType v = "") vs -> only_plain t ->
  only_plain (fst (join_volumes now p vs (t, k))).
Proof.
  intros Hv. revert t k. induction Hv as [|v vs Hv _ IH]; intros t k Ht; [done|]. by apply IH, processVolume_plain.
Qed.

Lemma remove_volumes_plain now p vids t : only_plain t -> only_plain (fold_left (fun t vid => removeVolume now p vid t) vids t).
Proof. revert t. induction vids as [|vid vids IH]; intros t Ht; [done|]. by apply IH, removeVolume_plain. Qed.

Lemma ProcessJoinMessage_plain order now hb t :
  plain_heartbeat hb -> only_plain t -> only_plain (snd (ProcessJoinMessage order now (Some hb) t)).
Proof.
  intros Hv Ht. unfold ProcessJoinMessage. destruct (findOrCreateDataNode _ _ _ _ _) as [[p h]|]; [|done]. cbn [snd].
  set (t1 := set_heap _ t). assert (only_plain t1) as H1 by done. clearbody t1. unfold join_body.
  pose proof (join_volumes_plain now p (hb_Volumes hb) t1 (known_volumes (t_heap t1) p) Hv H1) as H2.
  destruct (join_volumes _ _ _ _) as [t2 k2]. cbn [fst] in H2. rewrite join_deleted_split.
  case_decide; [by apply remove_volumes_plain, remove_volumes_plain|].
  eapply only_plain_layouts; [reflexivity|]. by apply remove_volumes_plain, remove_volumes_plain.
Qed.

Lemma SyncDeadNodeRemoval_plain order now t : only_plain t -> only_plain (SyncDeadNodeRemoval order now t).
Proof.
  intros Ht. apply (forEachNode_inv only_plain); [|done]. clear t Ht. intros p t Ht. unfold removeDeadNode. cbv zeta.
  destruct (IsAlive _ _ _ || _); [done|].
  assert (only_plain (match ToDataNode (t_heap t) p with
    | Some _ => set_layouts (RemoveDataNode (view now (t_heap t)) (GetId (t_heap t) p) (t_layouts t)) t | None => t end)) as H1.
  { destruct (ToDataNode (t_heap t) p); [|done].
    eapply (only_plain_fmap (layout_RemoveDataNode (view now (t_heap t)) (GetId (t_heap t) p))); [|reflexivity|done].
    intros vl E. cbn. rewrite E. unfold removeFromMap. apply omap_empty. }
  by destruct (GetParent _ _).
Qed.

Lemma grow_one_layouts rpc persist candidates c rp d t : t_layouts (snd (grow_one rpc persist candidates c rp d t)) = t_layouts t.
Proof.
  unfold grow_one. cbv zeta. case_decide; [done|]. destruct (reserve_all _ _ _ _) as [[ok rs] h]. destruct ok; cbn [negb]; [|done].
  unfold AllocateNextVolumeId. pose proof (NextVolumeId_frame (set_heap h t)) as [_ E]. destruct (NextVolumeId _) as [vid t1].
  cbn [snd] in E. destruct (persist vid); [|done]. by destruct (allocate_all _ _ _ _ _ _ _) as [[] h'].
Qed.

Lemma CheckAndGrow_plain order rpc persist now c rp ttl d count t :
  only_plain t -> only_plain (snd (CheckAndGrow order rpc persist now c rp ttl d count t)).
Proof.
  intros Ht. unfold CheckAndGrow. case_decide; [done|].
  pose proof (GetOrCreateVolumeLayout_plain c (rp_String rp) ttl d t Ht) as H1.
  destruct (GetOrCreateVolumeLayout _ _ _ _ _) as [vl t1]. cbn [snd] in H1.
  destruct (shouldGrowVolumes vl); cbn [negb]; [|done]. case_decide as Hc; [done|]. clear Hc.
  generalize (AllocateVolumeCandidates order now d t1), 0. generalize (Z.to_nat count). intros n cand k. revert k t1 H1.
  induction n as [|n IH]; intros k t1 H1; [done|]. cbn [grow_loop].
  pose proof (grow_one_layouts rpc persist cand c rp d t1) as E. destruct (grow_one _ _ _ _ _ _ t1) as [[e|] t2]; cbn [snd] in *.
  - by eapply only_plain_layouts.
  - apply IH. by eapply only_plain_layouts.
Qed.

Lemma split_last {A} (c : A) l1 l2 x y : (l1 ++ c :: x = l2 ++ c :: y)%list -> c ∉ x -> c ∉ y -> l1 = l2 /\ x = y.
Proof.
  revert l2. induction l1 as [|a l1 IH]; intros [|b l2] E Hx Hy; cbn in E.
  - by injection E.
  - injection E as -> ->. destruct Hx. apply elem_of_app. right. by left.
  - injection E as -> <-. destruct Hy. apply elem_of_app. right. by left.
  - injection E as -> E. by destruct (IH l2 E Hx Hy) as [-> ->].
Qed.

Definition no_colon (s : string) : Prop := colon_byte ∉ chars s.

Lemma makeKey_plain c c' r ttl d :
  makeKey c r ttl d = makeKey c' "000" "" "" -> no_colon r -> no_colon ttl -> no_colon d -> r = "000" /\ ttl = "" /\ d = "".
Proof.
  intros E%(f_equal chars) Hr Ht Hd. unfold makeKey in E. rewrite !chars_append in E.
  set (k := colon_byte) in *.
  assert ((((chars c ++ k :: chars r) ++ k :: chars ttl) ++ k :: chars d) = (((chars c' ++ k :: chars "000") ++ k :: []) ++ k :: []))%list as E'.
  { rewrite <- !app_assoc. exact E. }
  apply split_last in E' as [E1 Ed]; [|done|apply not_elem_of_nil].
  apply split_last in E1 as [E2 Et]; [|done|apply not_elem_of_nil].
  apply split_last in E2 as [_ Er]; [|done|by vm_compute; set_solver].
  split_and!; apply chars_inj; done.
Qed.

(** A request for the plain layout of a collection. *)
Definition plain_request (replication ttl diskType : string) : Prop := replication = "000" /\ ttl = "" /\ diskType = "".

Lemma pick_only_plain nv order opt c r ttl d t :
  ranges order -> only_plain t -> no_colon r -> no_colon ttl -> no_colon d -> ~ plain_request r ttl d ->
  PickForWrite nv order opt (fst (GetOrCreateVolumeLayout c r ttl d t)) = None.
Proof.
  intros Ho Ht Hr Htt Hd Hn. pose proof (GetOrCreateVolumeLayout_plain c r ttl d t Ht) as Hp.
  destruct (GetOrCreateVolumeLayout c r ttl d t) as [vl t'] eqn:E. cbn [fst snd] in *.
  apply GetOrCreateVolumeLayout_key in E. destruct (decide (ly_writable vl = ∅)) as [Ew|Ew].
  - unfold PickForWrite. rewrite Ew. pose proof (Ho ∅) as Hperm. rewrite map_to_list_empty in Hperm.
    apply Permutation_nil_r in Hperm. by rewrite Hperm.
  - destruct (Hp _ _ E Ew) as [c' Hk]. by apply makeKey_plain in Hk.
Qed.

Section unserved.
Context {Q Env : Type} `{Sequencer Q Env}.
Context (url_ok : string -> bool) (sorder : gset Z -> list Z) (corder : gmap string ptr -> list (string * ptr)).

(** The heartbeats of a history are those that volume servers build. *)
Definition by_volume_servers (ev : m_event (Env := Env)) : Prop :=
  match ev with MHeartbeat _ _ (Some hb) => exists order vs, hb = BuildHeartbeat order vs | _ => True end.

Definition run_m (evs : list m_event) (ms : MasterServer Q) : MasterServer Q :=
  fold_left (fun ms ev => snd (exec_m url_ok sorder corder ev ms)) evs ms.

Lemma exec_m_plain ev ms :
  by_volume_servers ev -> only_plain (ms_Topo ms) -> only_plain (ms_Topo (snd (exec_m url_ok sorder corder ev ms))).
Proof.
  intros Hev Ht. destruct ev; cbn [exec_m].
  - unfold handleAssign. destruct (leads raft); cbn [negb]; [|done]. set (r := if decide _ then _ else _).
    pose proof (GetOrCreateVolumeLayout_plain (aq_collection q) r (aq_ttl q) (aq_diskType q) _ Ht) as Hp.
    destruct (GetOrCreateVolumeLayout _ _ _ _ _) as [vl t']. cbn [snd] in Hp. cbv zeta.
    destruct (PickForWrite _ _ _ _) as [[vid [|l ls]]|].
    1,3: unfold request_growth; case_decide; exact Hp.
    destruct (NextFileId _ _ _) as [needleId seq]. destruct (first_url _ _). exact Hp.
  - unfold g_Assign. destruct (leads raft); cbn [negb]; [|done]. set (r := if decide _ then _ else _).
    pose proof (GetOrCreateVolumeLayout_plain collection r ttl diskType _ Ht) as Hp.
    destruct (GetOrCreateVolumeLayout _ _ _ _ _) as [vl t']. cbn [snd] in Hp. cbv zeta.
    destruct (PickForWrite _ _ _ _) as [[vid [|l ls]]|]; [exact Hp| |exact Hp].
    destruct (NextFileId _ _ _) as [needleId seq]. destruct (first_url _ _). exact Hp.
  - unfold handleVolGrow. destruct (leads raft); cbn [negb]; [|done]. cbv zeta. by case_decide.
  - unfold processVolumeGrowRequest. destruct (ms_growth ms) as [|req rest]; [done|]. destruct (follows raft); [done|].
    pose proof (CheckAndGrow_plain corder rpc persist now (go_Collection req) (go_ReplicaPlacement req) (go_Ttl req) (go_DiskType req) 1 _ Ht) as Hp.
    cbn [snd set_growth ms_Topo]. by destruct (CheckAndGrow _ _ _ _ _ _ _ _ _ _) as [[n e] t'].
  - assert (forall v, only_plain (SetMaxVolumeId v (ms_Topo ms))) as Hv.
    { intros v. unfold SetMaxVolumeId, setMaxVolumeIDUnsafe. by case_decide. }
    destruct evt; cbn [snd handleFSMEvent]; repeat case_decide; first [exact Ht|apply Hv].
  - done.
  - unfold SendHeartbeat. destruct hb as [hb|]; [|done]. destruct Hev as (order & vs & ->).
    pose proof (ProcessJoinMessage_plain sorder now _ _ (BuildHeartbeat_plain order vs) Ht) as Hp.
    by destruct (ProcessJoinMessage _ _ _ _) as [[] t'].
  - unfold KeepConnected. by case_decide.
  - unfold KeepConnected_end. by case_decide.
  - by apply SyncDeadNodeRemoval_plain.
Qed.

Lemma run_m_plain evs ms :
  Forall by_volume_servers evs -> only_plain (ms_Topo ms) -> only_plain (ms_Topo (run_m evs ms)).
Proof. intros Hev. revert ms. induction Hev as [|ev evs Hev _ IH]; intros ms Ht; [done|]. by apply IH, exec_m_plain. Qed.
End unserved.

(** C37: a master whose topology comes from the heartbeats that volume servers build never
    grants a file id for a replicated or an expiring volume, or for a disk type: the
    heartbeats report neither the placement nor the time to live nor the disk type of a
    volume, so that the volumes that exist are all registered in the layouts of the
    placement 000 without a time to live.  This holds whatever was assigned, grown and
    reported before, also when the volumes were grown with the requested placement; it
    is also what a master answers whose default replication is not 000. *)
Theorem replicated_assign_refused {Q Env : Type} `{Sequencer Q Env} (url_ok : string -> bool) (sorder : gset Z -> list Z)
    (corder : gmap string ptr -> list (string * ptr)) (evs : list m_event) (ms : MasterServer Q) (now0 : Z)
    (raft : option engine) (env : assign_env Env) (q : assign_query) :
  ms_Topo ms = NewTopology now0 -> Forall by_volume_servers evs -> ranges (ae_order env) ->
  let ms' := run_m url_ok sorder corder evs ms in
  let r := if decide (aq_replication q = "") then mo_DefaultReplication (ms_option ms') else aq_replication q in
  no_colon r -> no_colon (aq_ttl q) -> no_colon (aq_diskType q) -> ~ plain_request r (aq_ttl q) (aq_diskType q) ->
  granted (fst (handleAssign url_ok raft env q ms')) = None /\
  forall count, granted_rpc (fst (g_Assign raft env (aq_collection q) (aq_replication q) (aq_ttl q) (aq_diskType q) count ms')) = None.
Proof.
  intros E0 Hev Ho ms' r Hr Ht Hd Hn.
  assert (only_plain (ms_Topo ms')) as Hp.
  { apply run_m_plain; [done|]. rewrite E0. intros key vl Hk. cbn in Hk. by rewrite lookup_empty in Hk. }
  unfold handleAssign, g_Assign. fold r. destruct (leads raft); cbn [negb].
  2:{ split; [|done]. unfold proxyToLeader. repeat case_match; done. }
  pose proof (fun nv opt => pick_only_plain nv (ae_order env) opt (aq_collection q) r (aq_ttl q) (aq_diskType q) _ Ho Hp Hr Ht Hd Hn) as Hpick.
  destruct (GetOrCreateVolumeLayout _ _ _ _ _) as [vl t']. cbn [fst] in Hpick. cbv zeta. rewrite !Hpick. split.
  - by destruct (request_growth _ _).
  - done.
Qed.

(** ** Examples *)

Definition sample_ms : MasterServer (FileSequencer * seq_disk) :=
  mkMaster (NewTopology 0) (mkFileSeq 100 0 100, mkSeqDisk None None) ∅ (mkMasterOption "m" 9333 1024 "000") [] "" true.

Definition leading : option engine := Some (mkEngine true "m:9333").

Definition sample_assign_env : assign_env (option save_fault) := mkAssignEnv map_to_list 5 None 0xd6 "".

Definition sample_query (count replication : string) : assign_query := mkAssignQuery count "" replication "" "" "" "".

(** A volume server joins, two assignments follow, one of them for three ids. *)
Definition sample_events : list (m_event (Env := option save_fault)) :=
  [MHeartbeat 0 "m:9333" (Some (ex_heartbeat "1" [7])); MAssign leading sample_assign_env (sample_query "3" "");
   MFsm None (EventMaxFileId 41); MAssign leading sample_assign_env (sample_query "" "000")].

Lemma sample_ms_ok : m_ok sample_ms.
Proof. split; [apply NewTopology_ok|constructor|cbn; lia]. Qed.

Lemma sample_assign_ok q : event_ok (MAssign leading sample_assign_env q).
Proof. split; [intros m; reflexivity|]. by vm_compute. Qed.

Lemma master_grants_witness :
  (snd <$> grants (fun _ => true) elements map_to_list sample_events sample_ms) =
    [JsonAssign "7,0000000000000001000000d6" "http://10.0.0.1:8080" "http://10.0.0.1:8080" 3 "";
     JsonAssign "7,000000000000002a000000d6" "http://10.0.0.1:8080" "http://10.0.0.1:8080" 1 ""] /\
  grant_marks (fun _ => true) elements map_to_list 0 sample_events sample_ms = [0; 41] /\
  exists fs, Forall2 (fun g fn => grant_right g (fst fn) (snd fn)) (grants (fun _ => true) elements map_to_list sample_events sample_ms) fs /\
    StronglySorted before (id_batch <$> fs).
Proof.
  split; [vm_compute; reflexivity|]. split; [vm_compute; reflexivity|].
  destruct (master_grants (fun _ => true) elements map_to_list sample_events sample_ms elements_order sample_ms_ok) as (fs & H1 & _ & _ & H2).
  - repeat (apply List.Forall_cons; [first [exact I|apply sample_assign_ok]|]). apply List.Forall_nil.
  - vm_compute. reflexivity.
  - exists fs. split; assumption.
Defined.

(** A server with a volume joins; a replicated file id is refused, a plain one granted. *)
Definition sample_join : list (m_event (Env := option save_fault)) :=
  [MHeartbeat 0 "m:9333" (Some (BuildHeartbeat map_to_list (sample_vs "d" ∅ None)))].

Lemma replicated_assign_refused_witness :
  let ms := run_m (fun _ => true) elements map_to_list sample_join sample_ms in
  is_Some (granted (fst (handleAssign (fun _ => true) leading sample_assign_env (sample_query "" "") ms))) /\
  granted (fst (handleAssign (fun _ => true) leading sample_assign_env (sample_query "" "001") ms)) = None.
Proof.
  split; [vm_compute; eexists; reflexivity|].
  apply (replicated_assign_refused (fun _ => true) elements map_to_list sample_join sample_ms 0 leading sample_assign_env
    (sample_query "" "001") eq_refl).
  - apply List.Forall_cons; [|apply List.Forall_nil]. exists map_to_list, (sample_vs "d" ∅ None). reflexivity.
  - intros m. reflexivity.
  - by vm_compute; set_solver.
  - by vm_compute; set_solver.
  - by vm_compute; set_solver.
  - intros [H _]. vm_compute in H. congruence.
Defined.
