(* ===== verification/Cluster.v ===== *)
(** * Cluster: the client library, and clients, a master and volume servers together

    Models the calls of [goblob/operation] on the handlers of [MasterServer] and
    [VolumeServer]: options, [Assign], [Upload], [Delete], [LookupVolumeId] and the cache of
    locations; and the cache, the lookup and the leader of [goblob/wdclient].  An answer of a
    server reaches the client with its status and its body, or not at all.  Times are
    nanoseconds and [now] is the clock.  The text of a file id in a reply of an upload, which
    no volume server sends, is left out. *)

From stdpp Require Import sorting.
From S2P Require Import Prelude GoStrings GoPath GoText Types Http Topology VolumeServer MasterServer ChunkUpload TopoNode VolumeLayout TopologySpec.
From S2P Require Import VolumeGrowth TopologySafe Sequence MasterSeq Fs Volume DiskStore StoreSpec VolumeServerSpec MasterSpec.

#[local] Open Scope Z_scope.
#[local] Open Scope string_scope.

(** ** Options *)

Record UploadOption := mkUploadOption {
  uo_Master : string;
  uo_Collection : string;
  uo_Replication : string;
  uo_Ttl : string;
  uo_DataCenter : string;
  uo_Rack : string;
  uo_DiskType : string;
  uo_Count : Z;
  uo_Preallocate : Z;
}.

Definition empty_option : UploadOption := mkUploadOption "" "" "" "" "" "" "" 0 0.

Definition set_Count (n : Z) (o : UploadOption) : UploadOption :=
  mkUploadOption (uo_Master o) (uo_Collection o) (uo_Replication o) (uo_Ttl o) (uo_DataCenter o) (uo_Rack o) (uo_DiskType o) n (uo_Preallocate o).

Definition NewUploadOption (master : string) (fns : list (UploadOption -> UploadOption)) : UploadOption :=
  fold_left (fun o fn => fn o) fns (mkUploadOption master "" "" "" "" "" "" 1 0).

Definition WithCollection (c : string) (o : UploadOption) : UploadOption :=
  mkUploadOption (uo_Master o) c (uo_Replication o) (uo_Ttl o) (uo_DataCenter o) (uo_Rack o) (uo_DiskType o) (uo_Count o) (uo_Preallocate o).
Definition WithReplication (r : string) (o : UploadOption) : UploadOption :=
  mkUploadOption (uo_Master o) (uo_Collection o) r (uo_Ttl o) (uo_DataCenter o) (uo_Rack o) (uo_DiskType o) (uo_Count o) (uo_Preallocate o).
Definition WithTTL (t : string) (o : UploadOption) : UploadOption :=
  mkUploadOption (uo_Master o) (uo_Collection o) (uo_Replication o) t (uo_DataCenter o) (uo_Rack o) (uo_DiskType o) (uo_Count o) (uo_Preallocate o).
Definition WithDataCenter (dc : string) (o : UploadOption) : UploadOption :=
  mkUploadOption (uo_Master o) (uo_Collection o) (uo_Replication o) (uo_Ttl o) dc (uo_Rack o) (uo_DiskType o) (uo_Count o) (uo_Preallocate o).
Definition WithRack (rack : string) (o : UploadOption) : UploadOption :=
  mkUploadOption (uo_Master o) (uo_Collection o) (uo_Replication o) (uo_Ttl o) (uo_DataCenter o) rack (uo_DiskType o) (uo_Count o) (uo_Preallocate o).
Definition WithDiskType (d : string) (o : UploadOption) : UploadOption :=
  mkUploadOption (uo_Master o) (uo_Collection o) (uo_Replication o) (uo_Ttl o) (uo_DataCenter o) (uo_Rack o) d (uo_Count o) (uo_Preallocate o).
Definition WithPreallocate (n : Z) (o : UploadOption) : UploadOption :=
  mkUploadOption (uo_Master o) (uo_Collection o) (uo_Replication o) (uo_Ttl o) (uo_DataCenter o) (uo_Rack o) (uo_DiskType o) (uo_Count o) n.
Definition WithCount (n : Z) (o : UploadOption) : UploadOption := if decide (n > 0) then set_Count n o else o.

Definition normalizeUploadOption (opt : option UploadOption) : UploadOption :=
  match opt with
  | None => set_Count 1 empty_option
  | Some o => if decide (uo_Count o = 0) then set_Count 1 o else o
  end.

(** ** Answers *)

Definition ensureHTTPPrefix (addr : string) : string :=
  if HasPrefix addr "http://" || HasPrefix addr "https://" then addr else "http://" +:+ addr.

Inductive client_err :=
| ErrMasterRequired
| ErrRequest
| ErrStatus (op : string) (status : Z)
| ErrNoWritableVolumes
| ErrVolumeNotFound
| ErrDecode
| ErrAnswer (msg : string).

(** As [isRetryable] sees them. *)
Definition request_err_of (e : client_err) : request_err :=
  match e with
  | ErrRequest => NetError
  | ErrStatus _ c => HTTPStatusError c
  | _ => OtherError
  end.

Definition ok_status (s : Z) : bool := bool_decide (200 <= s < 300).

(** ** [Assign] *)

Record AssignedFileId := mkAssigned {
  af_Fid : string;
  af_Url : string;
  af_PublicUrl : string;
  af_Count : Z;
  af_Auth : string;
}.

Definition assign_query_of (o : UploadOption) : assign_query :=
  mkAssignQuery (if decide (uo_Count o > 0) then str (FormatUint (uo_Count o) 10) else "") (uo_Collection o) (uo_Replication o) (uo_Ttl o)
    (uo_DataCenter o) (uo_Rack o) (uo_DiskType o).

(** The master that a call is sent to. *)
Definition assign_master (masterAddr : string) (opt : option UploadOption) : option string :=
  let addr := if decide (masterAddr = "") then uo_Master (normalizeUploadOption opt) else masterAddr in
  if decide (addr = "") then None else Some addr.

(** What the client makes of the answer, [None] when there is none. *)
Definition read_assign (answer : option m_reply) : client_err + AssignedFileId :=
  match answer with
  | None => inl ErrRequest
  | Some r =>
      if decide (status_of r = 503) then inl ErrNoWritableVolumes else
      if negb (ok_status (status_of r)) then inl (ErrStatus "assign" (status_of r)) else
      match rs_body r with
      | [JsonAssign fid url publicUrl count auth] => inr (mkAssigned fid url publicUrl count auth)
      | [JsonError msg] => if decide (msg = "") then inr (mkAssigned "" "" "" 0 "") else inl (ErrAnswer msg)
      | _ => inl ErrDecode
      end
  end.

(** ** [Upload] and [Delete] *)

Record UploadResult := mkUploadResult { ur_Size : Z; ur_ETag : string }.

(** The request that [Upload] builds: the file, then the pairs in the order of the range. *)
Definition upload_request (fid filename : string) (data : bytes) (pairs : list (string * string)) (jwt : string) (allowed : bool) : vs_request :=
  let filename := if decide (filename = "") then "blob.bin" else filename in
  mkVsRequest fid allowed "" (if decide (jwt = "") then "" else "Bearer " +:+ jwt) "multipart/form-data"
    (Some (mkMimePart filename "file" "application/octet-stream" (mkStream data None) ::
           ((fun kv => mkMimePart "" (fst kv) "" (mkStream (to_bytes (snd kv)) None)) <$> pairs), None))
    (mkStream [] None).

Definition read_upload (answer : option vs_reply) : client_err + UploadResult :=
  match answer with
  | None => inl ErrRequest
  | Some r =>
      if negb (ok_status (status_of r)) then inl (ErrStatus "upload" (status_of r)) else
      match rs_body r with
      | [JsonStored size eTag] => inr (mkUploadResult (u32 size) eTag)
      | _ => inl ErrDecode
      end
  end.

Definition read_delete (answer : option vs_reply) : client_err + unit :=
  match answer with
  | None => inl ErrRequest
  | Some r => if negb (ok_status (status_of r)) then inl (ErrStatus "delete" (status_of r)) else inr tt
  end.

(** ** Lookups *)

Record VLocation := mkVLocation { lc_Url : string; lc_PublicUrl : string }.

(** A cache of locations: those of a volume and the time at which they expire. *)
Record VolumeLocationCache := mkLocationCache {
  lc_locations : gmap Z (list VLocation * Z);
  lc_ttl : Z;
}.

Definition minute : Z := 60 * 10 ^ 9.

Definition NewVolumeLocationCache (ttl : Z) : VolumeLocationCache :=
  mkLocationCache ∅ (if decide (ttl <= 0) then 10 * minute else ttl).

Definition lc_Invalidate (vid : Z) (c : VolumeLocationCache) : VolumeLocationCache := mkLocationCache (delete vid (lc_locations c)) (lc_ttl c).

Definition lc_Get (now vid : Z) (c : VolumeLocationCache) : option (list VLocation) * VolumeLocationCache :=
  match lc_locations c !! vid with
  | None => (None, c)
  | Some (servers, expiresAt) => if decide (now > expiresAt) then (None, lc_Invalidate vid c) else (Some servers, c)
  end.

Definition lc_Set (now vid : Z) (locs : list VLocation) (c : VolumeLocationCache) : VolumeLocationCache :=
  mkLocationCache (<[vid := (locs, now + lc_ttl c)]> (lc_locations c)) (lc_ttl c).

(** What the client makes of the answer to a lookup. *)
Definition read_lookup (answer : option m_reply) : client_err + list VLocation :=
  match answer with
  | None => inl ErrRequest
  | Some r =>
      if negb (ok_status (status_of r)) then inl (ErrStatus "lookup" (status_of r)) else
      match rs_body r with
      | [JsonLookup _ locations] =>
          if decide (locations = []) then inl ErrVolumeNotFound else inr ((fun l => mkVLocation (fst l) (snd l)) <$> locations)
      | [JsonError msg] =>
          if decide (msg = "") then inl ErrVolumeNotFound else
          if Contains (ToLower msg) "not found" then inl ErrVolumeNotFound else inl (ErrAnswer msg)
      | _ => inl ErrDecode
      end
  end.

(** [LookupVolumeId]: [ask] is the request to the master, at the times [now] before and
    [later] after it. *)
Definition LookupVolumeId {M} (ask : M -> option m_reply * M) (now later vid : Z) (cache : option VolumeLocationCache) (m : M)
  : (client_err + list VLocation) * option VolumeLocationCache * M :=
  let '(hit, cache) := match cache with
    | Some c => let '(hit, c) := lc_Get now vid c in (hit, Some c)
    | None => (None, None)
    end in
  match hit with
  | Some locs => (inr locs, cache, m)
  | None =>
      let '(answer, m) := ask m in
      match read_lookup answer with
      | inr locs => (inr locs, lc_Set later vid locs <$> cache, m)
      | inl ErrVolumeNotFound => (inl ErrVolumeNotFound, lc_Invalidate vid <$> cache, m)
      | inl e => (inl e, cache, m)
      end
  end.

(** ** The client of the filers and gateways *)

Record VidCache := mkVidCache { vc_cache : gmap Z (list VLocation * Z); vc_ttl : Z }.

Definition vc_Get (now vid : Z) (c : VidCache) : option (list VLocation) :=
  match vc_cache c !! vid with
  | Some (locations, expiresAt) => if decide (now > expiresAt) then None else Some locations
  | None => None
  end.

Definition vc_Set (now vid : Z) (locs : list VLocation) (c : VidCache) : VidCache := mkVidCache (<[vid := (locs, now + vc_ttl c)]> (vc_cache c)) (vc_ttl c).
Definition vc_Invalidate (vid : Z) (c : VidCache) : VidCache := mkVidCache (delete vid (vc_cache c)) (vc_ttl c).

Record MasterClient := mkMasterClient {
  mc_masterAddresses : list string;
  mc_currentMaster : string;
  mc_vidCache : VidCache;
}.

Definition NewMasterClient (masterAddresses : list string) : MasterClient :=
  let normalized := ToGrpcAddress <$> masterAddresses in
  mkMasterClient normalized (default "" (head normalized)) (mkVidCache ∅ (10 * minute)).

Definition SetCurrentMaster (addr : string) (mc : MasterClient) : MasterClient :=
  mkMasterClient (mc_masterAddresses mc) (ToGrpcAddress addr) (mc_vidCache mc).

(** The leaders in the answers of [KeepConnected], one after the other. *)
Definition follow_leaders (leaders : list string) (mc : MasterClient) : MasterClient :=
  fold_left (fun mc l => if decide (l = "") then mc else SetCurrentMaster l mc) leaders mc.

(** The master to connect to. *)
Definition next_master (mc : MasterClient) : string :=
  let master := if decide (mc_currentMaster mc = "") then default "" (head (mc_masterAddresses mc)) else mc_currentMaster mc in
  if decide (master = "") then "" else ToGrpcAddress master.

(** [LookupVolumeId] of the client; [ask addr] is the call to a master: its error, or the
    entry of the volume in the answer, with the text of an error or the locations. *)
Definition mc_LookupVolumeId {M} (ask : string -> M -> option (option (string * list VLocation)) * M) (now later vid : Z) (mc : MasterClient) (m : M)
  : option (list VLocation) * MasterClient * M :=
  match vc_Get now vid (mc_vidCache mc) with
  | Some locs => (Some locs, mc, m)
  | None =>
      if decide (mc_currentMaster mc = "") then (None, mc, m) else
      let '(answer, m) := ask (ToGrpcAddress (mc_currentMaster mc)) m in
      match answer with
      | Some (Some (err, locations)) =>
          if decide (err = "")
          then (Some locations, mkMasterClient (mc_masterAddresses mc) (mc_currentMaster mc) (vc_Set later vid locations (mc_vidCache mc)), m)
          else (None, mc, m)
      | _ => (None, mc, m)
      end
  end.

(** * Clients, a master and volume servers together

    The calls of the client library on a master and a set of volume servers.  What a client
    has stored it gets back, whatever other clients store, read and delete and whatever
    reaches the master in between. *)

(** The server and the path of a URL without encryption. *)
Definition route (url : string) : option (string * string) :=
  if HasPrefix url "http://" then Cut (TrimPrefix url "http://") "/" else None.

(** ** File ids in URLs *)

Lemma last_sep {A} (c : A) (l1 r1 l2 r2 : list A) : (l1 ++ c :: r1)%list = (l2 ++ c :: r2)%list -> c ∉ r1 -> exists l, r2 = (l ++ r1)%list.
Proof.
  revert l2. induction l1 as [|x l1 IH]; intros [|y l2] E Hr; cbn in E.
  - injection E as ->. by exists [].
  - injection E as -> ->. destruct Hr. set_solver.
  - injection E as -> <-. exists (l1 ++ [c])%list. by rewrite <- app_assoc.
  - injection E as _ E. by apply (IH l2).
Qed.

Lemma parse_digits_no c base l acc n : digit_val c = None -> parse_digits base l acc = Some n -> c ∉ l.
Proof.
  intros Hc. revert acc. induction l as [|x l IH]; intros acc Hp; [apply not_elem_of_nil|]. cbn in Hp.
  destruct (digit_val x) as [d|] eqn:E; [|done]. cbn in Hp. case_decide; [|done].
  apply not_elem_of_cons. split; [congruence|by eapply IH].
Qed.

Lemma ParseUint_no c base bits l n : digit_val c = None -> ParseUint l base bits = Some n -> c ∉ l /\ l <> [].
Proof.
  intros Hc. destruct l as [|x l]; [done|]. unfold ParseUint. destruct (parse_digits base (x :: l) 0) as [m|] eqn:E; [|done].
  intros _. split; [by eapply parse_digits_no|done].
Qed.

Lemma index_byte_split c l i : index_byte c l = Some i -> l = (take i l ++ c :: drop (S i) l)%list /\ c ∉ take i l.
Proof.
  revert i. induction l as [|x l IH]; intros i Hi; [done|]. cbn in Hi. case_decide as E.
  - injection Hi as <-. subst x. cbn. by rewrite drop_0; split; [|apply not_elem_of_nil].
  - apply fmap_Some in Hi as (j & Hj & ->). destruct (IH j Hj) as [E1 E2]. cbn. split; [by f_equal|]. apply not_elem_of_cons. by split.
Qed.

(** A text that is read as a file id: a number, a comma and digits. *)
Lemma ParseFileId_inv s f :
  ParseFileId s = Ret f ->
  exists v r, chars s = (v ++ comma :: r)%list /\ v <> [] /\ slash ∉ v /\ slash ∉ r /\ comma ∉ r /\
    (9 <= length r)%nat /\ ParseUint (take (length r - 8) r) 16 64 = Some (fid_NeedleId f) /\ ParseUint (drop (length r - 8) r) 16 32 = Some (fid_Cookie f).
Proof.
  unfold ParseFileId. destruct (index_byte comma (chars s)) as [i|] eqn:Ei; [|done]. apply index_byte_split in Ei as [E _].
  set (v := take i (chars s)) in *. set (r := drop (S i) (chars s)) in *. case_decide; [done|].
  destruct (ParseUint v 10 32) as [vid|] eqn:E1; [|done]. destruct (ParseUint (drop (length r - 8) r) 16 32) as [ck|] eqn:E2; [|done].
  destruct (ParseUint (take (length r - 8) r) 16 64) as [id|] eqn:E3; [|done]. intros [= <-]. exists v, r.
  assert (forall c, digit_val c = None -> c ∉ r) as Hr.
  { intros c Hc. rewrite <- (take_drop (length r - 8) r). apply not_elem_of_app.
    split; [by destruct (ParseUint_no c _ _ _ _ Hc E3)|by destruct (ParseUint_no c _ _ _ _ Hc E2)]. }
  destruct (ParseUint_no slash _ _ _ _ eq_refl E1) as [Hv Hne]. split_and!; try done; [by apply Hr|by apply Hr|lia].
Qed.

(** The needle id of a text that ends the text of a file id. *)
Lemma ParseFileId_suffix f s l f' :
  in_u 64 (fid_NeedleId f) -> in_u 32 (fid_Cookie f) -> FileId_chars f = (l ++ chars s)%list -> ParseFileId s = Ret f' ->
  fid_NeedleId f' = fid_NeedleId f.
Proof.
  intros Hn Hc E (v & r & Es & Hv & _ & _ & Hr & Hlen & Hid & _)%ParseFileId_inv. rewrite Es in E. unfold FileId_chars in E.
  set (h := (zero_pad 16 _ ++ zero_pad 8 _)%list) in E. rewrite app_assoc in E. symmetry in E.
  pose proof (last_sep comma _ _ _ _ E Hr) as [l' Eh]. assert (length h = 24%nat) as Hh.
  { unfold h. by rewrite length_app, length_hex16, length_hex8. }
  assert (comma ∉ h) as Hch.
  { assert (ParseUint (zero_pad 16 (FormatUint (fid_NeedleId f) 16)) 16 64 = Some (fid_NeedleId f)) as P1 by (apply ParseUint_padded; unfold in_u in *; lia).
    assert (ParseUint (zero_pad 8 (FormatUint (fid_Cookie f) 16)) 16 32 = Some (fid_Cookie f)) as P2 by (apply ParseUint_padded; unfold in_u in *; lia).
    apply not_elem_of_app. split; [by destruct (ParseUint_no comma _ _ _ _ eq_refl P1)|by destruct (ParseUint_no comma _ _ _ _ eq_refl P2)]. }
  symmetry in E. destruct (last_sep comma _ _ _ _ E Hch) as [l'' Er]. assert (r = h) as ->.
  { rewrite Er in Eh. apply (f_equal length) in Eh. rewrite !length_app in Eh. destruct l'' as [|]; [done|]. cbn in Eh. lia. }
  rewrite Hh in Hid. unfold h in Hid. rewrite take_app_length' in Hid by by rewrite length_hex16.
  rewrite ParseUint_padded in Hid by (unfold in_u in *; lia). by injection Hid.
Qed.

Lemma cut_at_sound sep l a b : cut_at sep l = Some (a, b) -> l = (a ++ sep ++ b)%list.
Proof.
  revert a. induction l as [|x l IH]; intros a Hc; cbn in Hc; case_decide as E.
  - injection Hc as <- <-. rewrite drop_nil. rewrite take_nil in E. by subst sep.
  - done.
  - injection Hc as <- <-. cbn [app]. rewrite <- E at 1. by rewrite take_drop.
  - destruct (cut_at sep l) as [[a' b']|]; [|done]. injection Hc as <- <-. cbn. f_equal. by apply IH.
Qed.

Lemma route_chars url addr path :
  route url = Some (addr, path) -> exists l, chars url = (l ++ slash :: chars path)%list.
Proof.
  unfold route. destruct (HasPrefix url "http://") eqn:Hp; [|done]. pose proof Hp as (x & ->)%prefix_inv.
  unfold TrimPrefix. rewrite Hp, chars_append. change (String.length "http://") with (length (chars "http://")).
  rewrite drop_app_length, str_chars. unfold Cut. destruct (cut_at (chars "/") (chars x)) as [[a b]|] eqn:E; [|done].
  intros [= <- <-]. apply cut_at_sound in E. exists (chars "http://" ++ a)%list. by rewrite E, chars_str, <- app_assoc.
Qed.

(** The URL of a blob: the server parses no more than the file id. *)
Lemma blob_path u fid addr path :
  let url := (if HasSuffix u "/" then u else u +:+ "/") +:+ fid in
  route url = Some (addr, path) -> slash ∉ chars path -> exists l, chars fid = (l ++ chars path)%list.
Proof.
  intros url (l & E)%route_chars Hs. assert (exists w, chars url = (w ++ slash :: chars fid)%list) as [w Ew].
  { unfold url. rewrite chars_append. destruct (HasSuffix u "/") eqn:Hsuf.
    - apply bool_decide_eq_true in Hsuf. eexists. rewrite <- (take_drop (String.length u - String.length "/") (chars u)), Hsuf, <- app_assoc. done.
    - rewrite chars_append, <- app_assoc. by eexists. }
  rewrite E in Ew. by apply (last_sep slash l _ w _).
Qed.

Section cluster.
Context {Q Env : Type} `{SequencerLaws Q Env}.
Context (url_ok : string -> bool) (sorder : gset Z -> list Z) (corder : gmap string ptr -> list (string * ptr)).

Record cluster := mkCluster {
  cl_master : MasterServer Q;
  cl_volumes : gmap string VolumeServer;
}.

(** ** Calls *)

(** The answer of the master, when it gives one itself. *)
Definition m_reply_of (a : m_answer) : option m_reply := match a with Answered r => Some r | _ => None end.

Definition Assign (raft : option engine) (env : assign_env Env) (masterAddr : string) (opt : option UploadOption) (cl : cluster)
  : (client_err + AssignedFileId) * cluster :=
  match assign_master masterAddr opt with
  | None => (inl ErrMasterRequired, cl)
  | Some _ =>
      let '(a, ms) := handleAssign url_ok raft env (assign_query_of (normalizeUploadOption opt)) (cl_master cl) in
      (read_assign (m_reply_of a), mkCluster ms (cl_volumes cl))
  end.

(** A request to a volume server: one without replicas sends nothing to others. *)
Definition at_server (url : string) (op : string -> http_op) (cl : cluster) : option vs_reply * cluster :=
  match route url with
  | None => (None, cl)
  | Some (addr, path) =>
      match cl_volumes cl !! addr with
      | None => (None, cl)
      | Some vs =>
          let '(rep, (vs, _)) := exec_http (fun _ _ w => (inl "", w)) id (op path) vs tt in
          (rep, mkCluster (cl_master cl) (<[addr := vs]> (cl_volumes cl)))
      end
  end.

Definition Upload (now : Z) (uploadURL filename : string) (data : bytes) (pairs : list (string * string)) (jwt : string) (allowed : bool)
    (cl : cluster) : (client_err + UploadResult) * cluster :=
  let '(rep, cl) := at_server (ensureHTTPPrefix uploadURL) (fun fid => HPut now (upload_request fid filename data pairs jwt allowed)) cl in
  (read_upload rep, cl).

(** [UploadWithRetry]: an attempt for each time, the first at [now]. *)
Fixpoint upload_attempts (now : Z) (retries : list Z) (uploadURL : string) (data : bytes) (jwt : string) (allowed : bool) (cl : cluster)
  : (client_err + UploadResult) * cluster :=
  match Upload now uploadURL "" data [] jwt allowed cl with
  | (inr res, cl) => (inr res, cl)
  | (inl e, cl) =>
      match retries with
      | now :: retries => if isRetryable (request_err_of e) then upload_attempts now retries uploadURL data jwt allowed cl else (inl e, cl)
      | [] => (inl e, cl)
      end
  end.

(** A worker of [ChunkUpload]: an assignment and the upload of one chunk. *)
Definition put (raft : option engine) (env : assign_env Env) (now : Z) (retries : list Z) (masterAddr : string) (opt : option UploadOption)
    (data : bytes) (allowed : bool) (cl : cluster) : (client_err + (string * UploadResult)) * cluster :=
  match Assign raft env masterAddr opt cl with
  | (inl e, cl) => (inl e, cl)
  | (inr a, cl) =>
      let url := ensureHTTPPrefix (af_Url a) in
      let url := (if HasSuffix url "/" then url else url +:+ "/") +:+ af_Fid a in
      let '(res, cl) := upload_attempts now retries url data (af_Auth a) allowed cl in
      (match res with inr r => inr (url, r) | inl e => inl e end, cl)
  end.

Definition a_request (fid jwt : string) (allowed : bool) : vs_request :=
  mkVsRequest fid allowed "" (if decide (jwt = "") then "" else "Bearer " +:+ jwt) "" None (mkStream [] None).

Definition get (url jwt : string) (allowed : bool) (cl : cluster) : option vs_reply * cluster :=
  at_server url (fun fid => HGet (a_request fid jwt allowed)) cl.

Definition Delete (url jwt : string) (allowed : bool) (cl : cluster) : (client_err + unit) * cluster :=
  let '(rep, cl) := at_server (ensureHTTPPrefix url) (fun fid => HDelete (a_request fid jwt allowed)) cl in (read_delete rep, cl).

(** ** Histories *)

Inductive c_event :=
| CPut (raft : option engine) (env : assign_env Env) (now : Z) (retries : list Z) (masterAddr : string) (opt : option UploadOption)
    (data : bytes) (allowed : bool)
| CGet (url jwt : string) (allowed : bool)
| CDelete (url jwt : string) (allowed : bool)
| CMaster (ev : m_event (Env := Env)).

Definition exec_c (ev : c_event) (cl : cluster) : cluster :=
  match ev with
  | CPut raft env now retries master opt data allowed => snd (put raft env now retries master opt data allowed cl)
  | CGet url jwt allowed => snd (get url jwt allowed cl)
  | CDelete url jwt allowed => snd (Delete url jwt allowed cl)
  | CMaster ev => mkCluster (snd (exec_m url_ok sorder corder ev (cl_master cl))) (cl_volumes cl)
  end.

Definition exec_cs (evs : list c_event) (cl : cluster) : cluster := fold_left (fun cl ev => exec_c ev cl) evs cl.
(** ** What the servers hold *)

(** The server at [addr] holds the blobs [B addr]. *)
Definition holding (B : string -> blobs) (cl : cluster) : Prop :=
  forall addr vs, cl_volumes cl !! addr = Some vs -> plain vs /\ serves (B addr) vs.

Definition at_addr (addr : string) (b : blobs) (B : string -> blobs) : string -> blobs := fun a => if decide (a = addr) then b else B a.

Lemma at_server_spec url op cl B :
  holding B cl -> (forall path, http_op_wf (op path))  ->
  let '(rep, cl') := at_server url op cl in
  cl_master cl' = cl_master cl /\ (forall a, is_Some (cl_volumes cl !! a) -> is_Some (cl_volumes cl' !! a)) /\
  match rep with
  | None => holding B cl'
  | Some r => exists addr path vs, route url = Some (addr, path) /\ is_Some (cl_volumes cl' !! addr) /\
      Some r = fst (exec_http (fun _ _ w => (inl "", w)) id (op path) vs tt) /\
      holding (at_addr addr (spec_http (vo_FileSizeLimitMB (vs_option vs)) (op path) r (B addr)) B) cl'
  end.
Proof.
  intros Hh Hwf. unfold at_server.
  destruct (route url) as [[addr path]|] eqn:Er; [|by auto]. destruct (cl_volumes cl !! addr) as [vs|] eqn:Ev; [|by auto].
  destruct (Hh addr vs Ev) as [Hp Hs].
  destruct (exec_http_serves (fun _ _ w => (inl "", w)) id (op path) (B addr) vs tt Hs Hp (Hwf path)) as (r & vs' & E & Hp' & Ho & Hs').
  rewrite E. cbn [cl_master cl_volumes]. split; [done|]. split.
  { intros a Ha. destruct (decide (a = addr)) as [->|]; [by rewrite lookup_insert_eq|by rewrite lookup_insert_ne]. }
  exists addr, path, vs. split; [done|]. split; [by rewrite lookup_insert_eq|]. split; [by rewrite E|].
  intros a vs0 Hv. cbn [cl_volumes] in Hv. unfold at_addr. destruct (decide (a = addr)) as [->|Hne].
  - rewrite lookup_insert_eq in Hv. injection Hv as <-. by split.
  - rewrite lookup_insert_ne in Hv by done. by apply Hh.
Qed.

(** The reply to an upload that is stored has the status 201, and the request a blob. *)
Lemma stored_201 now r vs rep res :
  Some rep = fst (exec_http (fun _ _ w => (inl "", w)) id (HPut now r) vs tt) -> read_upload (Some rep) = inr res ->
  status_of rep = 201 /\ is_Some (upload_blob r (vo_FileSizeLimitMB (vs_option vs))).
Proof.
  cbn [exec_http]. unfold handleWrite. destruct (store_upload now r vs) as [[[[fid nd] tag]|rep0|] vs'] eqn:E.
  - destruct (replicate_step _ _ _ _ _ _ _) as [[[errs|]|e|] w]; intros [= ->]; [done|]. intros _. split; [done|].
    unfold store_upload in E. unfold upload_blob. destruct (vr_allowed r); [|done]. destruct (ParseFileId (vr_fid r)) as [f|e|]; [|done..].
    cbn [negb] in E. destruct (vs_store vs); [|done]. rewrite buildNeedle_eq in E.
    destruct (readUploadPayload r _) as [[]|[[data name] mime]]; [done..|by eexists].
  - intros [= ->]. cbn [read_upload]. unfold store_upload in E. repeat case_match; simplify_eq; done.
  - done.
Qed.

Lemma upload_request_blob fid filename data pairs jwt allowed mb key v f :
  ParseFileId fid = Ret f -> upload_blob (upload_request fid filename data pairs jwt allowed) mb = Some (key, v) ->
  key = fid_key f /\ v = (fid_Cookie f, data, "application/octet-stream").
Proof.
  intros Hf. unfold upload_blob. cbn [upload_request vr_fid]. rewrite Hf. unfold readUploadPayload.
  cbn [upload_request vr_parts mbind option_bind read_parts mp_FileName mp_FormName].
  rewrite decide_False by (intros [_ []]; done). cbn [mp_data mp_ContentType]. unfold read_limited. cbn [st_error st_bytes].
  case_decide as Hl; [done|]. rewrite take_ge by (rewrite length_take in Hl; lia). intros [= <- <-]. done.
Qed.
(** *** Uploads *)

(** The blobs change under the file id of the URL at most. *)
Definition only_at (url : string) (B B' : string -> blobs) : Prop :=
  forall addr key, B' addr !! key = B addr !! key \/
    exists path f, route url = Some (addr, path) /\ ParseFileId path = Ret f /\ key = fid_key f.

Lemma only_at_trans url B1 B2 B3 : only_at url B1 B2 -> only_at url B2 B3 -> only_at url B1 B3.
Proof. intros H1 H2 a k. destruct (H2 a k) as [->|?]; [apply H1|by right]. Qed.

(** The blob at a URL. *)
Definition blob_at (url : string) (data : bytes) (id : Z) (B : string -> blobs) (cl : cluster) : Prop :=
  exists addr path f, route url = Some (addr, path) /\ ParseFileId path = Ret f /\ fid_NeedleId f = id /\ is_Some (cl_volumes cl !! addr) /\
    B addr !! fid_key f = Some (fid_Cookie f, data, "application/octet-stream").

(** What a call leaves that uploads to the URL. *)
Definition uploads (url : string) (data : bytes) (B : string -> blobs) (cl cl' : cluster) (res : client_err + UploadResult) : Prop :=
  cl_master cl' = cl_master cl /\ (forall a, is_Some (cl_volumes cl !! a) -> is_Some (cl_volumes cl' !! a)) /\
  exists B', holding B' cl' /\ only_at url B B' /\ forall r, res = inr r -> exists id, blob_at url data id B' cl'.

Lemma Upload_spec now url filename data pairs jwt allowed cl B :
  holding B cl -> clock_ok now -> Forall is_byte data  -> ensureHTTPPrefix url = url ->
  let '(res, cl') := Upload now url filename data pairs jwt allowed cl in uploads url data B cl cl' res.
Proof.
  intros Hh Hck Hb Hurl. unfold Upload. rewrite Hurl. set (op := fun fid => HPut now _).
  assert (forall path, http_op_wf (op path)) as Hwf.
  { intros path. split; [done|]. split; [constructor|]. intros parts e [= <- <-]. constructor; [done|].
    apply Forall_fmap, Forall_forall. intros kv _. apply to_bytes_range. }
  pose proof (at_server_spec url op cl B Hh Hwf) as Hs. destruct (at_server url op cl) as [[rep|] cl'].
  2:{ destruct Hs as (H1 & H2 & H3). split; [done|]. split; [done|]. exists B. split; [done|]. split; [by left|done]. }
  destruct Hs as (H1 & H2 & addr & path & vs & Hr & Ha & Hrep & Hh'). split; [done|]. split; [done|]. eexists. split; [exact Hh'|].
  unfold op, spec_http, at_addr. unfold op in Hrep. set (req := upload_request _ _ _ _ _ _) in *. set (mb := vo_FileSizeLimitMB _) in *.
  assert (forall k v, upload_blob req mb = Some (k, v) -> exists f, ParseFileId path = Ret f /\ k = fid_key f /\
    v = (fid_Cookie f, data, "application/octet-stream")) as Hblob.
  { intros k v Eu. destruct (ParseFileId path) as [f|e|] eqn:Ef; [|unfold upload_blob in Eu; cbn [req upload_request vr_fid] in Eu; by rewrite Ef in Eu..].
    exists f. split; [done|]. by apply (upload_request_blob _ _ _ _ _ _ _ _ _ _ Ef Eu). }
  split.
  - intros a key. case_decide as Ea; [|by left]. subst a. destruct (effective 201 rep); [|by left]. unfold uploaded.
    destruct (upload_blob req mb) as [[k v]|]; [|by left]. destruct (decide (k = key)) as [->|]; [|left; by rewrite lookup_insert_ne].
    right. destruct (Hblob key v eq_refl) as (f & Ef & -> & _). by exists path, f.
  - intros res Hres. destruct (stored_201 _ _ _ _ _ Hrep Hres) as [H201 [[k v] Eu]]. destruct (Hblob k v Eu) as (f & Ef & -> & ->).
    exists (fid_NeedleId f), addr, path, f. split_and!; [done..|]. rewrite decide_True by done.
    unfold effective, uploaded. rewrite bool_decide_eq_true_2 by done. cbn [orb]. fold req mb in Eu. rewrite Eu. by rewrite lookup_insert_eq.
Qed.

Lemma attempts_spec now retries url data jwt allowed cl B :
  holding B cl -> Forall clock_ok (now :: retries) -> Forall is_byte data  ->
  ensureHTTPPrefix url = url ->
  let '(res, cl') := upload_attempts now retries url data jwt allowed cl in uploads url data B cl cl' res.
Proof.
  revert now cl B. induction retries as [|now' retries IH]; intros now cl B Hh Hck Hb Hurl; cbn [upload_attempts].
  all: apply Forall_cons in Hck as [Hnow Hck].
  all: pose proof (Upload_spec now url "" data [] jwt allowed cl B Hh Hnow Hb Hurl) as Hu.
  all: destruct (Upload now url "" data [] jwt allowed cl) as [[e|res] cl1]; destruct Hu as (H1 & H2 & B1 & Hh1 & Ho1 & Hr1).
  all: assert (forall res', (forall r, res' = inr r -> exists id, blob_at url data id B1 cl1) -> uploads url data B cl cl1 res') as Hdone
    by (intros res' Hres; split; [done|]; split; [done|]; by exists B1).
  1,2,4: by apply Hdone.
  destruct (isRetryable _); [|by apply Hdone].
  specialize (IH now' cl1 B1 Hh1 Hck Hb Hurl). destruct (upload_attempts now' retries url data jwt allowed cl1) as [res cl2].
  destruct IH as (I1 & I2 & B2 & I3 & I4 & I5). split; [by rewrite I1|]. split; [by auto|]. exists B2.
  split; [done|]. split; [by eapply only_at_trans|done].
Qed.

Lemma ensure_prefix u s : ensureHTTPPrefix (ensureHTTPPrefix u +:+ s) = ensureHTTPPrefix u +:+ s.
Proof.
  assert (forall p t, HasPrefix t p = true -> HasPrefix (t +:+ s) p = true) as Happ.
  { intros p t (x & ->)%prefix_inv. rewrite <- append_assoc. apply prefix_append. }
  unfold ensureHTTPPrefix at 2 3. destruct (HasPrefix u "http://") eqn:E1; cbn [orb].
  - unfold ensureHTTPPrefix. by rewrite (Happ _ _ E1).
  - destruct (HasPrefix u "https://") eqn:E2.
    + unfold ensureHTTPPrefix. by rewrite (Happ _ _ E2), orb_true_r.
    + unfold ensureHTTPPrefix. rewrite <- append_assoc, prefix_append. done.
Qed.

Lemma read_assign_granted raft env q ms r :
  let a := fst (handleAssign url_ok raft env q ms) in
  read_assign (m_reply_of a) = inr r ->
  exists t, granted a = Some (JsonAssign (af_Fid r) (af_Url r) (af_PublicUrl r) (af_Count r) t) /\ t = af_Auth r.
Proof.
  unfold handleAssign. destruct (leads raft); cbn [negb].
  - destruct (GetOrCreateVolumeLayout _ _ _ _ _) as [vl topo]. destruct (PickForWrite _ _ _ _) as [[vid [|l locs]]|].
    1,3: by destruct (request_growth _ _).
    destruct (NextFileId _ _ _) as [needleId seq]. destruct (first_url _ _) as [url publicUrl]. cbn. intros [= <-]. by eexists.
  - unfold proxyToLeader. by repeat case_match.
Qed.

Abbreviation max_id cl := (GetMax (ms_Sequencer (cl_master cl))).

(** What a put leaves: the needle ids that it writes are new ones. *)
Definition fresh_only (cl cl' : cluster) (top : Z) (B B' : string -> blobs) : Prop :=
  m_ok (cl_master cl') /\ max_id cl <= max_id cl' <= top /\ (forall a, is_Some (cl_volumes cl !! a) -> is_Some (cl_volumes cl' !! a)) /\
  holding B' cl' /\ forall addr key, B' addr !! key = B addr !! key \/ max_id cl < snd key.

Lemma put_spec raft env now retries master opt data allowed cl B :
  m_ok (cl_master cl) -> holding B cl -> Forall clock_ok (now :: retries) -> Forall is_byte data  ->
  event_ok (MAssign raft env (assign_query_of (normalizeUploadOption opt))) ->
  let top := max_id cl + batch (parse_count (aq_count (assign_query_of (normalizeUploadOption opt)))) in
  top < 2 ^ 64 ->
  let '(res, cl') := put raft env now retries master opt data allowed cl in
  exists B', fresh_only cl cl' top B B' /\
    forall url r, res = inr (url, r) -> exists id, blob_at url data id B' cl' /\ id <= max_id cl'.
Proof.
  intros Hm Hh Hck Hb Hev top Hmax. unfold put, Assign.
  pose proof (batch_pos _ (parse_count_u64 (aq_count (assign_query_of (normalizeUploadOption opt))))) as Hbp.
  assert (forall cl' res, cl_volumes cl' = cl_volumes cl -> m_ok (cl_master cl') -> max_id cl <= max_id cl' <= top -> (forall x, res <> inr x) ->
    exists B', fresh_only cl cl' top B B' /\ forall url (r : UploadResult), res = @inr client_err _ (url, r) -> exists id, blob_at url data id B' cl' /\ id <= max_id cl') as Hsame.
  { intros cl' res Hv Hm' Hle Hres. exists B. split; [|intros url r Hr; by destruct (Hres _ Hr)]. split_and!; [done|lia|lia|by rewrite Hv| |by left].
    intros a vs. rewrite Hv. apply Hh. }
  destruct (assign_master master opt); [|by apply Hsame; [done|done|lia|done]]. set (q := assign_query_of _) in *.
  pose proof (handleAssign_spec url_ok raft env q (cl_master cl) Hm Hev Hmax) as Ha.
  pose proof (read_assign_granted raft env q (cl_master cl)) as Hgr. cbv zeta in Hgr.
  destruct (handleAssign url_ok raft env q (cl_master cl)) as [a ms']. destruct Ha as [Hm' Hg]. cbn [fst] in Hgr.
  destruct (read_assign (m_reply_of a)) as [e|af] eqn:Er.
  { apply Hsame; [done|done| |done]. cbn. destruct (granted a); [destruct Hg as [-> _]|rewrite Hg]; lia. }
  destruct (Hgr _ eq_refl) as (t & Eg & _). rewrite Eg in Hg.
  destruct Hg as (Hnext & f & (p & d & key & vl & locs & token & [= Efid _ _ _ _] & Hcookie & _) & Hid).
  set (url := _ +:+ af_Fid af). set (cl1 := mkCluster ms' (cl_volumes cl)). assert (ensureHTTPPrefix url = url) as Hurl.
  { unfold url. destruct (HasSuffix _ "/"); [|rewrite <- append_assoc]; apply ensure_prefix. }
  pose proof (attempts_spec now retries url data (af_Auth af) allowed cl1 B Hh Hck Hb Hurl) as Hu.
  destruct (upload_attempts now retries url data (af_Auth af) allowed cl1) as [res cl2]. destruct Hu as (Hms & Hdom & B' & Hh' & Ho & Hr).
  assert (forall addr path f', route url = Some (addr, path) -> ParseFileId path = Ret f' -> fid_NeedleId f' = max_id cl + 1) as Hnew.
  { intros addr path f' Hroute Hp. rewrite <- Hid. pose proof (ParseFileId_inv _ _ Hp) as (v & r & Es & _ & Hv & Hrs & _).
    destruct (blob_path _ _ _ _ Hroute) as (l & El); [rewrite Es; set_solver|]. rewrite Efid in El. unfold FileId_String in El. rewrite chars_str in El.
    apply (ParseFileId_suffix f path l f'); [|done..]. unfold in_u. pose proof (mk_max _ Hm). lia. }
  exists B'. split.
  - split_and!; [by rewrite Hms|rewrite Hms; cbn; lia..|done|done|]. intros addr k. destruct (Ho addr k) as [->|(path & f' & Hroute & Hp & ->)]; [by left|right].
    cbn. rewrite (Hnew addr path f') by done. lia.
  - intros url' r. destruct res as [e|res]; [done|]. intros [= <- <-]. destruct (Hr res eq_refl) as (id & Hblob). exists id. split; [done|].
    destruct Hblob as (addr & path & f' & Hroute & Hp & <- & _). rewrite (Hnew addr path f') by done. rewrite Hms. cbn. lia.
Qed.

(** *** Any event *)

(** The server and the blob that a URL names. *)
Definition target (url : string) : option (string * (Z * Z)) :=
  '(addr, path) ← route url; match ParseFileId path with Ret f => Some (addr, fid_key f) | _ => None end.

(** The events of the master in an event. *)
Definition m_events_of (ev : c_event) : list (m_event (Env := Env)) :=
  match ev with
  | CPut raft env _ _ _ opt _ _ => [MAssign raft env (assign_query_of (normalizeUploadOption opt))]
  | CMaster ev => [ev]
  | _ => []
  end.

Definition c_event_ok (ev : c_event) : Prop :=
  Forall event_ok (m_events_of ev) /\
  match ev with CPut _ _ now retries _ _ data _ => Forall clock_ok (now :: retries) /\ Forall is_byte data | _ => True end.

Definition deletes (ev : c_event) : option (string * (Z * Z)) :=
  match ev with CDelete url _ _ => target (ensureHTTPPrefix url) | _ => None end.

Lemma target_route url addr key : target url = Some (addr, key) <-> exists path f, route url = Some (addr, path) /\ ParseFileId path = Ret f /\ key = fid_key f.
Proof.
  unfold target. destruct (route url) as [[a path]|]; cbn [mbind option_bind]; [|by split; [|intros (? & ? & ? & _)]].
  destruct (ParseFileId path) as [f|e|] eqn:E; split; try done; [intros [= <- <-]; by exists path, f|intros (p & f' & [= <- <-] & E' & ->)..].
  all: rewrite E in E'; by simplify_eq.
Qed.

Lemma Delete_spec url jwt allowed cl B :
  holding B cl  ->
  let '(res, cl') := Delete url jwt allowed cl in
  cl_master cl' = cl_master cl /\ (forall a, is_Some (cl_volumes cl !! a) -> is_Some (cl_volumes cl' !! a)) /\
  exists B', holding B' cl' /\
    (forall addr key, B' addr !! key = B addr !! key \/ target (ensureHTTPPrefix url) = Some (addr, key) /\ B' addr !! key = None) /\
    (res = inr tt -> forall addr key, target (ensureHTTPPrefix url) = Some (addr, key) -> B' addr !! key = None).
Proof.
  intros Hh. unfold Delete. set (op := fun fid => HDelete _).
  pose proof (at_server_spec (ensureHTTPPrefix url) op cl B Hh (fun _ => I)) as Hs. destruct (at_server _ op cl) as [[rep|] cl'].
  2:{ destruct Hs as (H1 & H2 & H3). split; [done|]. split; [done|]. exists B. split; [done|]. split; [by left|done]. }
  destruct Hs as (H1 & H2 & addr & path & vs & Hr & Ha & Hrep & Hh'). split; [done|]. split; [done|]. eexists. split; [exact Hh'|].
  unfold op, at_addr. cbn [spec_http a_request vr_fid fmap option_fmap option_map]. split.
  - intros a key. case_decide as Ea; [|by left]. subst a. destruct (ParseFileId path) as [f|e|] eqn:Ef; [|by left..].
    destruct (effective 202 rep); [|by left]. destruct (decide (fid_key f = key)) as [<-|]; [|left; by rewrite lookup_delete_ne].
    right. split; [|by rewrite lookup_delete_eq]. apply target_route. by exists path, f.
  - unfold read_delete. destruct (ok_status (status_of rep)) eqn:Eok; [|done]. intros _ a key (path' & f & Hr' & Ef & ->)%target_route.
    rewrite Hr in Hr'. injection Hr' as <- <-. rewrite decide_True, Ef by done.
    unfold effective. rewrite bool_decide_eq_true_2; [cbn [orb]; by rewrite lookup_delete_eq|]. unfold op in Hrep. cbn [exec_http] in Hrep. unfold handleDelete in Hrep. repeat case_match; simplify_eq; cbn in *; simplify_eq; done.
Qed.

(** What an event leaves: it writes new needle ids, and removes what it names. *)
Definition effect (ev : c_event) (cl cl' : cluster) (B B' : string -> blobs) : Prop :=
  m_ok (cl_master cl') /\ max_id cl <= max_id cl' <= m_reach (max_id cl) (m_events_of ev) /\
  (forall a, is_Some (cl_volumes cl !! a) -> is_Some (cl_volumes cl' !! a)) /\ holding B' cl' /\
  forall addr key, B' addr !! key = B addr !! key \/ max_id cl < snd key \/ deletes ev = Some (addr, key) /\ B' addr !! key = None.

Lemma exec_c_spec ev cl B :
  set_order sorder -> m_ok (cl_master cl) -> holding B cl -> c_event_ok ev  ->
  m_reach (max_id cl) (m_events_of ev) < 2 ^ 64 -> exists B', effect ev cl (exec_c ev cl) B B'.
Proof.
  intros Hset Hm Hh [Hev Hok] Hmax. destruct ev as [raft env now retries master opt data allowed|url jwt allowed|url jwt allowed|ev]; cbn [exec_c] in *.
  - destruct Hok as [Hck Hb]. apply List.Forall_inv in Hev.
    pose proof (put_spec raft env now retries master opt data allowed cl B Hm Hh Hck Hb Hev Hmax) as Hp.
    destruct (put raft env now retries master opt data allowed cl) as [res cl']. destruct Hp as (B' & (H1 & H2 & H3 & H4 & H5) & _).
    exists B'. unfold effect. cbn [snd m_events_of m_reach fold_left].
    split_and!; [done|lia|lia|done|done|]. intros addr key. destruct (H5 addr key); by auto.
  - unfold get. pose proof (at_server_spec url (fun fid => HGet (a_request fid jwt allowed)) cl B Hh (fun _ => I)) as Hs.
    destruct (at_server _ _ cl) as [rep cl']. cbn [snd]. destruct Hs as (H1 & H2 & H3). exists B. unfold effect. rewrite H1.
    split_and!; [done|lia|cbn; lia|done| |by left]. destruct rep as [rep|]; [|done].
    destruct H3 as (addr & path & vs & _ & _ & _ & H4). intros a vs' Hv. specialize (H4 a vs' Hv). unfold at_addr in H4. cbn [spec_http] in H4.
    by case_decide; subst.
  - pose proof (Delete_spec url jwt allowed cl B Hh) as Hd. destruct (Delete url jwt allowed cl) as [res cl'].
    destruct Hd as (H1 & H2 & B' & H3 & H4 & _). exists B'. unfold effect. cbn [snd]. rewrite H1.
    split_and!; [done|lia|cbn; lia|done|done|]. intros addr key. destruct (H4 addr key); by auto.
  - apply List.Forall_inv in Hev. pose proof (exec_m_spec url_ok sorder corder Hset ev (cl_master cl) Hm Hev Hmax) as He.
    destruct (exec_m url_ok sorder corder ev (cl_master cl)) as [g ms']. destruct He as (H1 & H2 & _). exists B. unfold effect. cbn [snd cl_master cl_volumes m_events_of].
    split_and!; [done|lia|lia|done|done|by left].
Qed.

Lemma reach_app a (evs evs' : list (m_event (Env := Env))) : m_reach a (evs ++ evs') = m_reach (m_reach a evs) evs'.
Proof. apply fold_left_app. Qed.

Lemma events_ok evs : Forall c_event_ok evs -> Forall event_ok (evs ≫= m_events_of).
Proof. intros Hok. apply Forall_bind. by eapply Forall_impl; [exact Hok|intros e []]. Qed.

(** What is under an old needle id stays, unless it is deleted; what is gone stays gone. *)
Lemma exec_cs_spec evs cl B addr key :
  set_order sorder -> m_ok (cl_master cl) -> holding B cl -> Forall c_event_ok evs ->
  m_reach (max_id cl) (evs ≫= m_events_of) < 2 ^ 64 -> snd key <= max_id cl ->
  exists B', m_ok (cl_master (exec_cs evs cl)) /\ holding B' (exec_cs evs cl) /\
    max_id cl <= max_id (exec_cs evs cl) <= m_reach (max_id cl) (evs ≫= m_events_of) /\
    (forall a, is_Some (cl_volumes cl !! a) -> is_Some (cl_volumes (exec_cs evs cl) !! a)) /\
    (B' addr !! key = B addr !! key \/ B' addr !! key = None /\ Exists (fun ev => deletes ev = Some (addr, key)) evs).
Proof.
  intros Hset. revert cl B. induction evs as [|ev evs IH]; intros cl B Hm Hh Hok Hmax Hkey.
  { exists B. cbn. split_and!; (done || lia || by left). }
  apply Forall_cons in Hok as [Hev Hok]. rewrite bind_cons in *.
  rewrite reach_app in *. pose proof (events_ok _ Hok) as Hevs.
  destruct (exec_c_spec ev cl B Hset Hm Hh Hev) as (B1 & H1 & H2 & H3 & H4 & H5).
  { eapply Z.le_lt_trans; [|exact Hmax]. by apply m_reach_grows. }
  pose proof (m_reach_le _ _ (evs ≫= m_events_of) (proj2 H2)) as Hle.
  destruct (IH (exec_c ev cl) B1 H1 H4 Hok ltac:(lia) ltac:(lia)) as (B2 & I1 & I2 & I3 & I4 & I5).
  exists B2. change (exec_cs (ev :: evs) cl) with (exec_cs evs (exec_c ev cl)). split_and!; [done|done|lia|lia|by auto|].
  destruct I5 as [->|[I5 I6]]; [|right; split; [done|by right]].
  destruct (H5 addr key) as [->|[?|[Hd ->]]]; [by left|lia|right; split; [done|by left]].
Qed.

Lemma get_spec url jwt cl B addr path f :
  holding B cl -> route url = Some (addr, path) -> ParseFileId path = Ret f -> is_Some (cl_volumes cl !! addr) ->
  fst (get url jwt true cl) = Some (expected_read (a_request path jwt true) (B addr)).
Proof.
  intros Hh Hr Hf [vs Hvs]. unfold get, at_server. rewrite Hr, Hvs. destruct (Hh addr vs Hvs) as [[Hc _] Hs].
  cbn [exec_http]. by rewrite (handleRead_serves _ _ _ Hs Hc).
Qed.

Lemma blob_get url data id jwt cl B : holding B cl -> blob_at url data id B cl ->
  fst (get url jwt true cl) = Some (blob_reply "application/octet-stream" data).
Proof.
  intros Hh (addr & path & f & Hr & Hf & _ & Hv & Hb). rewrite (get_spec _ _ _ _ _ _ _ Hh Hr Hf Hv).
  unfold expected_read. cbn [a_request vr_allowed vr_fid negb]. rewrite Hf, Hb. by rewrite decide_False by (intros Hn; by apply Hn).
Qed.

(** After the upload. *)
Lemma stored_keeps evs evs' url data id jwt cl B :
  set_order sorder -> m_ok (cl_master cl) -> holding B cl -> Forall c_event_ok evs -> Forall c_event_ok evs' ->
  m_reach (m_reach (max_id cl) (evs ≫= m_events_of)) (evs' ≫= m_events_of) < 2 ^ 64 ->
  blob_at url data id B cl -> id <= max_id cl -> Forall (fun ev => deletes ev <> target url) evs ->
  fst (get url jwt true (exec_cs evs cl)) = Some (blob_reply "application/octet-stream" data) /\
  (fst (Delete url jwt true (exec_cs evs cl)) = inr tt ->
   fst (get url jwt true (exec_cs evs' (snd (Delete url jwt true (exec_cs evs cl))))) = Some (WriteHeader 404 no_reply)).
Proof.
  intros Hset Hm Hh Hok Hok' Hmax (addr & path & f & Hr & Hf & <- & Hv & Hb) Hid Hspare.
  pose proof (m_reach_grows (m_reach (max_id cl) (evs ≫= m_events_of)) _ (events_ok _ Hok')) as Hgrow.
  assert (target url = Some (addr, fid_key f)) as Ht by (apply target_route; by exists path, f).
  assert (ensureHTTPPrefix url = url) as Hurl.
  { unfold route in Hr. unfold ensureHTTPPrefix. by destruct (HasPrefix url "http://"). }
  destruct (exec_cs_spec evs cl B addr (fid_key f) Hset Hm Hh Hok ltac:(lia) Hid) as (B2 & Hm2 & Hh2 & Hmax2 & Hdom2 & [Hb2|[_ Hd]]).
  2:{ apply Exists_exists in Hd as (ev & Hin & Hd). rewrite Forall_forall in Hspare. by destruct (Hspare ev Hin); rewrite Ht. }
  rewrite Hb in Hb2. split; [eapply (blob_get _ _ (fid_NeedleId f)); [exact Hh2|]; exists addr, path, f; split_and!; [done|done|done|by apply Hdom2|done]|].
  pose proof (Delete_spec url jwt true _ B2 Hh2) as Hdel. destruct (Delete url jwt true (exec_cs evs cl)) as [res cl3].
  destruct Hdel as (Hms & Hdom3 & B3 & Hh3 & _ & Hgone). cbn [fst snd]. intros ->. rewrite Hurl in Hgone.
  specialize (Hgone eq_refl addr _ Ht). rewrite <- Hms in Hm2, Hmax2.
  pose proof (m_reach_le _ _ (evs' ≫= m_events_of) (proj2 Hmax2)) as Hle.
  destruct (exec_cs_spec evs' cl3 B3 addr (fid_key f) Hset Hm2 Hh3 Hok' ltac:(lia) ltac:(cbn; lia)) as (B4 & _ & Hh4 & _ & Hdom4 & Hb4).
  rewrite (get_spec _ _ _ _ _ _ _ Hh4 Hr Hf) by auto. unfold expected_read. cbn [a_request vr_allowed vr_fid negb]. rewrite Hf.
  by destruct Hb4 as [->|[-> _]]; [rewrite Hgone|].
Qed.
End cluster.

(** C3: the cluster keeps what a client stores, until it is deleted.  A client has a file id
    assigned by the master and uploads the data to the volume server it is sent to, with
    retries, as the chunks of a file are uploaded.  When this succeeds, then after any
    sequence of such uploads of other clients, downloads, deletions of other blobs and
    events of the master (assignments, heartbeats, growth, changes of leadership, replicated
    events), some of them failing, a download of the URL answers exactly the data; and once
    a deletion of the URL is acknowledged, every later download answers 404, for no later
    upload gets the file id again.  The volume servers have no cache and no replicas, and the
    history does not use up the 64-bit needle ids. *)
Theorem cluster_keeps {Q Env : Type} `{SequencerLaws Q Env} (url_ok : string -> bool) (sorder : gset Z -> list Z)
    (corder : gmap string ptr -> list (string * ptr)) (B : string -> blobs) (cl cl1 : cluster)
    (raft : option engine) (env : assign_env Env) (now : Z) (retries : list Z) (master : string) (opt : option UploadOption)
    (data : bytes) (allowed : bool) (url : string) (res : UploadResult) (evs evs' : list c_event) (jwt : string) :
  let first := CPut raft env now retries master opt data allowed in
  let all := first :: (evs ++ CDelete url jwt true :: evs')%list in
  set_order sorder -> m_ok (cl_master cl) -> holding B cl -> Forall c_event_ok all ->
  m_reach (GetMax (ms_Sequencer (cl_master cl))) (all ≫= m_events_of) < 2 ^ 64 ->
  put url_ok raft env now retries master opt data allowed cl = (inr (url, res), cl1) ->
  Forall (fun ev => deletes ev <> target url) evs ->
  let cl2 := exec_cs url_ok sorder corder evs cl1 in
  fst (get url jwt true cl2) = Some (blob_reply "application/octet-stream" data) /\
  (fst (Delete url jwt true cl2) = inr tt ->
   fst (get url jwt true (exec_cs url_ok sorder corder evs' (snd (Delete url jwt true cl2)))) = Some (WriteHeader 404 no_reply)).
Proof.
  intros first all Hset Hm Hh [[Hev [Hck Hb]] [Hok [_ Hok']%Forall_cons]%Forall_app]%Forall_cons Hmax Hput Hspare cl2.
  unfold all in Hmax.
  rewrite bind_cons, bind_app, bind_cons, !reach_app in Hmax. cbn [first m_events_of m_reach fold_left] in Hmax. apply List.Forall_inv in Hev.
  set (top := GetMax _ + batch _) in Hmax.
  pose proof (m_reach_grows top _ (events_ok _ Hok)) as Hg1. pose proof (m_reach_grows (m_reach top (evs ≫= m_events_of)) _ (events_ok _ Hok')) as Hg2.
  pose proof (put_spec url_ok raft env now retries master opt data allowed cl B Hm Hh Hck Hb Hev ltac:(unfold m_reach in *; lia)) as Hp.
  rewrite Hput in Hp. destruct Hp as (B1 & (Hm1 & [_ Hmax1] & _ & Hh1 & _) & Hres). destruct (Hres url res eq_refl) as (id & Hblob & Hid).
  eapply stored_keeps; [done|exact Hm1|exact Hh1|done|done| |exact Hblob|done|done].
  eapply Z.le_lt_trans; [|exact Hmax]. by apply m_reach_le, m_reach_le.
Qed.

(** *** An example *)

Definition sample_cluster : cluster :=
  mkCluster (run_m (fun _ => true) elements map_to_list [MHeartbeat 0 "m:9333" (Some (ex_heartbeat "1" [7]))] sample_ms)
    {[ "10.0.0.1:8080" := sample_vs "d" ∅ None ]}.

Definition sample_cput (now : Z) (data : bytes) : c_event := CPut leading sample_assign_env now [] "m:9333" None data true.

Definition sample_url (id : string) : string := "http://10.0.0.1:8080/7,000000000000000" +:+ id +:+ "000000d6".

Definition sample_later : list c_event :=
  [sample_cput 2000 [4]; CGet (sample_url "1") "" true; CMaster (MFsm None (EventMaxFileId 41)); CDelete (sample_url "2") "" true; sample_cput 3000 [5; 6]].

Abbreviation run_sample evs cl := (exec_cs (fun _ => true) elements map_to_list evs cl).

Definition sample_cl1 : cluster := run_sample [sample_cput 1000 [1; 2; 3]] sample_cluster.
Abbreviation sample_cl2 := (run_sample sample_later sample_cl1).

Lemma sample_holding : holding (fun _ => ∅) sample_cluster.
Proof.
  intros a vs Hv. cbn [sample_cluster cl_volumes] in Hv. apply lookup_singleton_Some in Hv as [<- <-].
  split; [by vm_compute|apply sample_vs_serves].
Qed.

Lemma sample_cluster_ok : m_ok (cl_master sample_cluster).
Proof. exact (proj1 (SendHeartbeat_ok elements elements_order 0 "m:9333" _ _ sample_ms_ok)). Qed.

Lemma sample_cput_ok now data : Forall is_byte data -> clock_ok now -> c_event_ok (sample_cput now data).
Proof. intros Hb Hck. split; [apply List.Forall_cons; [apply sample_assign_ok|constructor]|]. split; [|done]. by apply Forall_singleton. Qed.

Lemma sample_events_ok : Forall c_event_ok (sample_cput 1000 [1; 2; 3] :: (sample_later ++ CDelete (sample_url "1") "" true :: [sample_cput 4000 [7]])%list).
Proof.
  assert (forall now d, Forall is_byte d -> 0 <= now < 2 ^ 63 -> c_event_ok (sample_cput now d)) as Hput by exact sample_cput_ok.
  assert (forall ev : c_event (Env := option save_fault), m_events_of ev = [] -> c_event_ok ev) as Hplain.
  { intros ev E. split; [rewrite E; apply List.Forall_nil|by destruct ev]. }
  assert (c_event_ok (Env := option save_fault) (CMaster (MFsm None (EventMaxFileId 41)))) as Hfsm
    by (split; [apply List.Forall_cons; [exact I|apply List.Forall_nil]|exact I]).
  unfold sample_later. cbn [app].
  apply List.Forall_cons; [apply Hput; [|lia]|]. { repeat constructor; by vm_compute. }
  apply List.Forall_cons; [apply Hput; [|lia]|]. { repeat constructor; by vm_compute. }
  apply List.Forall_cons; [by apply Hplain|]. apply List.Forall_cons; [exact Hfsm|]. apply List.Forall_cons; [by apply Hplain|].
  apply List.Forall_cons; [apply Hput; [|lia]|]. { repeat constructor; by vm_compute. }
  apply List.Forall_cons; [by apply Hplain|].
  apply List.Forall_cons; [apply Hput; [|lia]|apply List.Forall_nil]. repeat constructor; by vm_compute.
Qed.

Lemma cluster_keeps_witness :
  fst (get (sample_url "1") "" true sample_cl2) = Some (blob_reply "application/octet-stream" [1; 2; 3]) /\
  fst (Delete (sample_url "1") "" true sample_cl2) = inr tt /\
  fst (get (sample_url "1") "" true (run_sample [sample_cput 4000 [7]] (snd (Delete (sample_url "1") "" true sample_cl2)))) = Some (WriteHeader 404 no_reply).
Proof.
  assert (exists res, fst (put (fun _ => true) leading sample_assign_env 1000 [] "m:9333" None [1; 2; 3] true sample_cluster) = inr (sample_url "1", res))
    as [res Eres] by (vm_compute; eexists; reflexivity).
  assert (fst (Delete (sample_url "1") "" true sample_cl2) = inr tt) as Hd by (vm_compute; reflexivity).
  destruct (cluster_keeps (fun _ => true) elements map_to_list (fun _ => ∅) sample_cluster sample_cl1 leading sample_assign_env 1000 [] "m:9333" None
    [1; 2; 3] true (sample_url "1") res sample_later [sample_cput 4000 [7]] "" elements_order sample_cluster_ok sample_holding) as [H1 H2].
  - exact sample_events_ok.
  - vm_compute. reflexivity.
  - unfold sample_cl1, exec_cs. cbn [fold_left exec_c sample_cput]. rewrite <- Eres. apply surjective_pairing.
  - repeat (apply List.Forall_cons; [vm_compute; discriminate|]). apply List.Forall_nil.
  - split; [exact H1|]. split; [exact Hd|]. apply H2. exact Hd.
Defined.
