(* ===== verification/NetIp.v ===== *)
(** * NetIp: IP addresses and networks

    What the guard uses of the package [net]: [ParseIP], [ParseCIDR] and [IPNet.Contains],
    with the reading of IPv4 and IPv6 text of [net/netip], and what they mean in bits: a
    network holds the addresses that begin with its bits. *)

From S2P Require Import Prelude GoStrings GoPath Http.

#[local] Open Scope Z_scope.
#[local] Open Scope string_scope.

Definition dot : ascii := "."%char.
Definition colon : ascii := ":"%char.
Definition zone_mark : ascii := "%"%char.

(** ** Addresses *)

(** [netip.Addr]: an IPv4 address, or one of 16 bytes with its zone. *)
Inductive Addr := Addr4 (b : bytes) | Addr6 (b : bytes) (zone : string).

Definition BitLen (a : Addr) : Z := match a with Addr4 _ => 32 | Addr6 _ _ => 128 end.
Definition Zone (a : Addr) : string := match a with Addr4 _ => "" | Addr6 _ z => z end.

Definition v4InV6Prefix : bytes := (replicate 10 0 ++ [255; 255])%list.

Definition As16 (a : Addr) : bytes := match a with Addr4 b => (v4InV6Prefix ++ b)%list | Addr6 b _ => b end.


(** A field of an IPv4 address: digits without a leading zero, at most 255. *)
Definition v4_field (l : list ascii) : option Z :=
  if bool_decide (1 < length l)%nat && bool_decide (head l = Some "0"%char) then None else
  n ← ParseUint l 10 64; if decide (n <= 255) then Some n else None.

(** [parseIPv4Fields] *)
Definition parseIPv4Fields (l : list ascii) : option bytes :=
  match split_byte dot l with
  | [a; b; c; d] => a ← v4_field a; b ← v4_field b; c ← v4_field c; d ← v4_field d; Some [a; b; c; d]
  | _ => None
  end.

(** The hex_digit digits in front: their value, and what follows them; [None] for more
    than four. *)
Fixpoint hex_group (off : nat) (acc : Z) (l : list ascii) : option (nat * Z * list ascii) :=
  match l with
  | [] => Some (off, acc, [])
  | c :: l' =>
      match hex_digit c with
      | Some d => if decide (3 < off)%nat then None else hex_group (S off) (acc * 16 + d) l'
      | None => Some (off, acc, l)
      end
  end.

(** The loop of [parseIPv6] over the groups: the bytes read so far, and where the ellipsis is. *)
Fixpoint v6_groups (fuel : nat) (ip : bytes) (ellipsis : option nat) (s : list ascii) : option (bytes * option nat) :=
  match fuel with
  | O => if decide (s = []) then Some (ip, ellipsis) else None
  | S fuel =>
      '(off, acc, rest) ← hex_group 0 0 s;
      if decide (off = O) then None else
      if decide (head rest = Some dot) then
        if decide (ellipsis = None /\ length ip <> 12%nat) then None else
        if decide (16 < length ip + 4)%nat then None else
        v4 ← parseIPv4Fields s; Some ((ip ++ v4)%list, ellipsis)
      else
        let ip := (ip ++ [acc / 256; acc mod 256])%list in
        match rest with
        | [] => Some (ip, ellipsis)
        | c :: rest =>
            if decide (c <> colon) then None else
            match rest with
            | [] => None
            | c' :: rest' =>
                if decide (c' = colon) then
                  match ellipsis with
                  | Some _ => None
                  | None => if decide (rest' = []) then Some (ip, Some (length ip)) else v6_groups fuel ip (Some (length ip)) rest'
                  end
                else v6_groups fuel ip ellipsis rest
            end
        end
  end.

(** The ellipsis stands for zeros. *)
Definition expand (ip : bytes) (ellipsis : option nat) : option bytes :=
  if decide (length ip < 16)%nat then
    e ← ellipsis; Some (take e ip ++ replicate (16 - length ip) 0 ++ drop e ip)%list
  else match ellipsis with Some _ => None | None => Some ip end.

Definition parseIPv6 (l : list ascii) : option Addr :=
  '(s, zone) ← match index_byte zone_mark l with
               | Some i => if decide (drop (S i) l = []) then None else Some (take i l, drop (S i) l)
               | None => Some (l, [])
               end;
  match s with
  | c :: c' :: s' =>
      if decide (c = colon /\ c' = colon) then
        if decide (s' = []) then Some (Addr6 (replicate 16 0) (str zone)) else
        '(ip, e) ← v6_groups 8 [] (Some O) s'; b ← expand ip e; Some (Addr6 b (str zone))
      else '(ip, e) ← v6_groups 8 [] None s; b ← expand ip e; Some (Addr6 b (str zone))
  | _ => '(ip, e) ← v6_groups 8 [] None s; b ← expand ip e; Some (Addr6 b (str zone))
  end.

(** [netip.ParseAddr]: the first of the three marks decides. *)
Fixpoint ParseAddr_from (rest l : list ascii) : option Addr :=
  match rest with
  | [] => None
  | c :: rest =>
      if decide (c = dot) then Addr4 <$> parseIPv4Fields l else
      if decide (c = colon) then parseIPv6 l else
      if decide (c = zone_mark) then None else ParseAddr_from rest l
  end.

Definition ParseAddr (s : string) : option Addr := ParseAddr_from (chars s) (chars s).

(** [net.ParseIP]: 16 bytes. *)
Definition ParseIP (s : string) : option bytes :=
  a ← ParseAddr s; if decide (Zone a <> "") then None else Some (As16 a).

Definition To4 (ip : bytes) : option bytes :=
  if decide (length ip = 4%nat) then Some ip else
  if decide (length ip = 16%nat /\ take 12 ip = v4InV6Prefix) then Some (drop 12 ip) else None.

(** ** Networks *)

Record IPNet := mkIPNet { net_IP : bytes; net_Mask : bytes }.

(** A byte with [n] leading ones. *)
Definition mask_byte (n : Z) : Z := 255 - Z.shiftr 255 n.

Fixpoint CIDRMask (ones : Z) (size : nat) : bytes :=
  match size with
  | O => []
  | S size => if decide (8 <= ones) then 255 :: CIDRMask (ones - 8) size else mask_byte ones :: CIDRMask 0 size
  end.

Definition masked (ip mask : bytes) : bytes := zip_with Z.land ip mask.

(** [IP.Mask] for the masks of [ParseCIDR]. *)
Definition Mask (ip mask : bytes) : option bytes :=
  let ip := if decide (length mask = 4%nat /\ length ip = 16%nat /\ take 12 ip = v4InV6Prefix) then drop 12 ip else ip in
  if decide (length ip <> length mask) then None else Some (masked ip mask).

(** The network that [net.ParseCIDR] returns; [None] is an error. *)
Definition ParseCIDR (s : string) : option IPNet :=
  '(addr, mask) ← Cut s "/";
  a ← ParseAddr addr;
  if decide (Zone a <> "") then None else
  n ← ParseUint (chars mask) 10 64;
  if decide (BitLen a < n) then None else
  let m := CIDRMask n (Z.to_nat (BitLen a / 8)) in
  ip ← Mask (As16 a) m; Some (mkIPNet ip m).

Definition networkNumberAndMask (n : IPNet) : option (bytes * bytes) :=
  ip ← match To4 (net_IP n) with
       | Some ip => Some ip
       | None => if decide (length (net_IP n) = 16%nat) then Some (net_IP n) else None
       end;
  if decide (length (net_Mask n) = 4%nat) then if decide (length ip = 4%nat) then Some (ip, net_Mask n) else None else
  if decide (length (net_Mask n) = 16%nat) then
    Some (ip, if decide (length ip = 4%nat) then drop 12 (net_Mask n) else net_Mask n)
  else None.

Definition net_Contains (n : IPNet) (ip : bytes) : bool :=
  let ip := default ip (To4 ip) in
  match networkNumberAndMask n with
  | Some (nn, m) => bool_decide (length ip = length nn) && bool_decide (masked nn m = masked ip m)
  | None => bool_decide (ip = [])
  end.

(** ** What they mean *)

Definition bits8 (b : Z) : list bool := Z.testbit b <$> [7; 6; 5; 4; 3; 2; 1; 0].
Definition bits (b : bytes) : list bool := b ≫= bits8.

(** The bits of an address: 32 for one of IPv4, mapped ones included. *)
Definition ip_bits (ip : bytes) : list bool := bits (default ip (To4 ip)).

(** The network of the addresses of [width] bits that begin with [prefix]. *)
Definition in_net (width : nat) (prefix : list bool) (ip : bytes) : Prop :=
  length (ip_bits ip) = width /\ take (length prefix) (ip_bits ip) = prefix.

(** *** Masks *)

Lemma byte_cases (P : Z -> bool) : forallb P (Z.of_nat <$> seq 0 256) = true -> forall a, is_byte a -> P a = true.
Proof.
  intros HP a Ha. rewrite forallb_forall in HP. apply HP. apply list_elem_of_In, list_elem_of_fmap. exists (Z.to_nat a).
  unfold in_u in Ha. split; [lia|]. apply elem_of_seq. lia.
Qed.

(** The masked byte, from its leading bits and back. *)
Definition of_bits (l : list bool) : Z := fold_left (fun n (b : bool) => 2 * n + Z.b2z b) (l ++ replicate (8 - length l) false)%list 0.

Definition mask_fits (a : Z) : bool :=
  forallb (fun k => bool_decide (Z.land a (mask_byte (Z.of_nat k)) = of_bits (take k (bits8 a))) &&
    bool_decide (take k (bits8 (Z.land a (mask_byte (Z.of_nat k)))) = take k (bits8 a))) (seq 0 9).

Lemma byte_masked a b k : is_byte a -> is_byte b -> 0 <= k <= 8 ->
  Z.land a (mask_byte k) = Z.land b (mask_byte k) <-> take (Z.to_nat k) (bits8 a) = take (Z.to_nat k) (bits8 b).
Proof.
  intros Ha Hb Hk. assert (forall x, is_byte x -> Z.land x (mask_byte k) = of_bits (take (Z.to_nat k) (bits8 x)) /\
    take (Z.to_nat k) (bits8 (Z.land x (mask_byte k))) = take (Z.to_nat k) (bits8 x)) as Hx.
  { intros x Hx. pose proof (byte_cases mask_fits ltac:(by vm_compute) x Hx) as Hf. unfold mask_fits in Hf. rewrite forallb_forall in Hf.
    specialize (Hf (Z.to_nat k)). rewrite Z2Nat.id in Hf by lia. apply andb_true_iff in Hf as [H1 H2]; [by rewrite bool_decide_eq_true in H1, H2|].
    apply list_elem_of_In, elem_of_seq. lia. }
  destruct (Hx a Ha) as [A1 A2], (Hx b Hb) as [B1 B2]. split; intros E; [by rewrite <- A2, <- B2, E|by rewrite A1, B1, E].
Qed.

Lemma length_bits8 b : length (bits8 b) = 8%nat.
Proof. done. Qed.

Lemma length_bits b : length (bits b) = (8 * length b)%nat.
Proof. induction b as [|x b IH]; [done|]. unfold bits in *. rewrite bind_cons, length_app, length_bits8, IH. cbn. lia. Qed.

Lemma length_CIDRMask n k : length (CIDRMask n k) = k.
Proof. revert n. induction k as [|k IH]; intros n; [done|]. cbn. case_decide; cbn; by rewrite IH. Qed.

Lemma take_byte x n (l : list bool) : take (Z.to_nat n) (bits8 x ++ l) = (take (Z.to_nat (n `min` 8)) (bits8 x) ++ take (Z.to_nat (n - 8)) l)%list.
Proof.
  rewrite take_app, length_bits8. f_equal; [|f_equal; lia]. destruct (decide (n <= 8)); [by rewrite Z.min_l|].
  rewrite Z.min_r by lia. rewrite !take_ge; [done|rewrite length_bits8; lia..].
Qed.

(** Masks of the same prefix agree when the bits of the prefix do. *)
Lemma masked_bits n (a b : bytes) : 0 <= n -> length a = length b -> Forall is_byte a -> Forall is_byte b ->
  masked a (CIDRMask n (length a)) = masked b (CIDRMask n (length a)) <-> take (Z.to_nat n) (bits a) = take (Z.to_nat n) (bits b).
Proof.
  intros Hn Hl Ha. revert n b Hn Hl. induction Ha as [|x a Hx Ha IH]; intros n [|y b] Hn Hl Hb; try done.
  apply Forall_cons in Hb as [Hy Hb]. injection Hl as Hl. unfold bits. rewrite !bind_cons. fold (bits a) (bits b).
  assert (forall m ms, masked (x :: a) (m :: ms) = masked (y :: b) (m :: ms) <-> Z.land x m = Z.land y m /\ masked a ms = masked b ms) as Hcons.
  { intros m ms. unfold masked. cbn [zip_with]. split; [by intros [= -> ->]|by intros [-> ->]]. }
  rewrite !take_byte. cbn [length CIDRMask].
  assert (forall l l' : list bool, take (Z.to_nat (n `min` 8)) (bits8 x) ++ l = take (Z.to_nat (n `min` 8)) (bits8 y) ++ l' <->
    take (Z.to_nat (n `min` 8)) (bits8 x) = take (Z.to_nat (n `min` 8)) (bits8 y) /\ l = l')%list as Happ.
  { intros l l'. split; [|by intros [-> ->]]. apply app_inj_1. by rewrite !length_take, !length_bits8. }
  rewrite Happ, <- byte_masked by (done || lia). clear Happ. case_decide.
  - rewrite Hcons, Z.min_r, IH by (done || lia). done.
  - rewrite Hcons, Z.min_l, IH by (done || lia). replace (Z.to_nat (n - 8)) with 0%nat by lia. done.
Qed.

Lemma masked_idem ip m : masked (masked ip m) m = masked ip m.
Proof.
  unfold masked. revert m. induction ip as [|x ip IH]; intros [|y m]; cbn; try done. by rewrite IH, <- Z.land_assoc, Z.land_diag.
Qed.

Lemma length_masked ip m : length ip = length m -> length (masked ip m) = length ip.
Proof. intros E. unfold masked. rewrite length_zip_with. lia. Qed.

(** *** What is read *)

Definition addr_wf (a : Addr) : Prop :=
  match a with Addr4 b => length b = 4%nat /\ Forall is_byte b | Addr6 b _ => length b = 16%nat /\ Forall is_byte b end.

Lemma v4_field_byte l n : v4_field l = Some n -> is_byte n.
Proof.
  unfold v4_field. destruct (_ && _); [done|]. destruct (ParseUint l 10 64) as [m|] eqn:E; [|done]. cbn. case_decide; [|done].
  intros [= <-]. apply ParseUint_range in E; [|lia]. unfold in_u in *. lia.
Qed.

Lemma parseIPv4Fields_wf l b : parseIPv4Fields l = Some b -> length b = 4%nat /\ Forall is_byte b.
Proof.
  unfold parseIPv4Fields. destruct (split_byte dot l) as [|w [|x [|y [|z []]]]]; try done.
  destruct (v4_field w) eqn:E1, (v4_field x) eqn:E2, (v4_field y) eqn:E3, (v4_field z) eqn:E4; try done. cbn. intros [= <-].
  split; [done|]. repeat constructor; by eapply v4_field_byte.
Qed.

Lemma hex_group_range off acc l off' acc' rest :
  hex_group off acc l = Some (off', acc', rest) -> (off <= 4)%nat -> 0 <= acc < 16 ^ Z.of_nat off -> (off' <= 4)%nat /\ 0 <= acc' < 16 ^ Z.of_nat off'.
Proof.
  revert off acc. induction l as [|c l IH]; intros off acc E Ho Ha; cbn in E; [by simplify_eq|].
  destruct (hex_digit c) as [d|] eqn:Ed; [|by simplify_eq]. case_decide; [done|]. apply IH in E; [done|lia|].
  assert (0 <= d < 16) as Hd.
  { unfold hex_digit, digit_val in Ed. repeat (case_decide; cbn in Ed; simplify_eq); lia. }
  rewrite Nat2Z.inj_succ, Z.pow_succ_r by lia. lia.
Qed.

Lemma v6_groups_wf fuel ip e s ip' e' :
  v6_groups fuel ip e s = Some (ip', e') -> Forall is_byte ip -> (length ip + 2 * fuel <= 16)%nat -> Forall is_byte ip' /\ (length ip' <= 16)%nat.
Proof.
  revert ip e s. induction fuel as [|fuel IH]; intros ip e s E Hb Hl; cbn [v6_groups] in E; [case_decide; simplify_eq; split; [done|lia]|].
  destruct (hex_group 0 0 s) as [[[off acc] rest]|] eqn:Eg; [|done]. cbn [mbind option_bind] in E. case_decide as Hoff; [done|].
  apply hex_group_range in Eg as [Ho Ha]; [|lia|cbn; lia].
  case_decide as Hdot.
  { case_decide; [done|]. case_decide; [done|]. destruct (parseIPv4Fields s) as [v4|] eqn:E4; [|done]. cbn in E. simplify_eq.
    destruct (parseIPv4Fields_wf _ _ E4) as [L4 B4]. rewrite length_app, Forall_app. split; [done|lia]. }
  set (ip1 := (ip ++ [acc / 256; acc mod 256])%list) in *.
  assert (Forall is_byte ip1 /\ length ip1 = (length ip + 2)%nat) as [Hb1 Hl1].
  { unfold ip1. rewrite Forall_app, length_app. split; [|done]. split; [done|].
    assert (acc < 65536) by (eapply Z.lt_le_trans; [apply Ha|]; change 65536 with (16 ^ 4); apply Z.pow_le_mono_r; lia).
    repeat constructor; unfold in_u; [apply Z.div_pos; lia|apply Z.div_lt_upper_bound; lia|apply Z.mod_pos_bound; lia..]. }
  clearbody ip1. assert (length ip1 + 2 * fuel <= 16)%nat by lia.
  destruct rest as [|c rest]; [simplify_eq; split; [done|lia]|]. case_decide; [done|]. destruct rest as [|c' rest]; [done|].
  case_decide; [|by eapply IH]. destruct e; [done|]. case_decide; [simplify_eq; split; [done|lia]|by eapply IH].
Qed.

Lemma expand_wf ip e b : expand ip e = Some b -> Forall is_byte ip -> (length ip <= 16)%nat -> length b = 16%nat /\ Forall is_byte b.
Proof.
  unfold expand. intros E Hb Hl. case_decide.
  - destruct e as [e|]; [|done]. cbn in E. injection E as <-. rewrite !length_app, length_replicate, length_take, length_drop.
    split; [lia|]. apply Forall_app_2; [by apply Forall_take|]. apply Forall_app_2; [by apply Forall_replicate|by apply Forall_drop].
  - destruct e; [done|]. injection E as <-. split; [lia|done].
Qed.

Lemma parseIPv6_wf l a : parseIPv6 l = Some a -> addr_wf a.
Proof.
  unfold parseIPv6. match goal with |- mbind _ ?x = _ -> _ => destruct x as [[s zone]|]; [|done] end. cbn [mbind option_bind].
  assert (forall e s, ('(ip, e) ← v6_groups 8 [] e s; b ← expand ip e; Some (Addr6 b (str zone))) = Some a -> addr_wf a) as Hg.
  { intros e s' E. destruct (v6_groups 8 [] e s') as [[ip e']|] eqn:Eg; [|done]. cbn in E. destruct (expand ip e') as [b|] eqn:Ee; [|done].
    cbn in E. injection E as <-. apply v6_groups_wf in Eg as [Hb Hl]; [|done|cbn; lia]. by apply (expand_wf ip e'). }
  destruct s as [|c [|c' s]]; try apply Hg. case_decide; [|apply Hg]. case_decide; [|apply Hg]. intros [= <-]. split; [done|by repeat constructor].
Qed.

Lemma ParseAddr_wf s a : ParseAddr s = Some a -> addr_wf a.
Proof.
  unfold ParseAddr. generalize (chars s) at 1. intros rest. induction rest as [|c rest IH]; cbn; [done|].
  case_decide; [|case_decide; [apply parseIPv6_wf|by case_decide]].
  destruct (parseIPv4Fields (chars s)) as [b|] eqn:E; [|done]. cbn. intros [= <-]. by apply parseIPv4Fields_wf in E.
Qed.

(** *** Networks as prefixes *)

Lemma CIDRMask_split j k n : 8 * Z.of_nat j <= n -> CIDRMask n (j + k) = (replicate j 255 ++ CIDRMask (n - 8 * Z.of_nat j) k)%list.
Proof.
  revert n. induction j as [|j IH]; intros n Hn; [by rewrite Z.sub_0_r|]. cbn [Nat.add CIDRMask replicate app].
  rewrite decide_True by lia. rewrite IH by lia. do 2 f_equal. f_equal. lia.
Qed.

Lemma masked_ones b : Forall is_byte b -> masked b (replicate (length b) 255) = b.
Proof.
  induction 1 as [|x b Hx _ IH]; [done|]. cbn. f_equal; [|exact IH].
  change 255 with (Z.ones 8). rewrite Z.land_ones by lia. apply Z.mod_small. exact Hx.
Qed.

(** A masked byte is full only under a full byte of the mask. *)
Lemma masked_full n k ip i : 0 <= n -> masked ip (CIDRMask n k) !! i = Some 255 -> 8 * Z.of_nat (S i) <= n.
Proof.
  revert n ip i. induction k as [|k IH]; intros n ip i Hn E; [by destruct ip|]. destruct ip as [|x ip]; [done|]. cbn [CIDRMask] in E.
  case_decide as H8.
  - destruct i as [|i]; [lia|]. cbn in E. apply IH in E; lia.
  - destruct i as [|i]; cbn in E.
    + injection E as E. apply (f_equal (fun z => Z.testbit z 0)) in E. rewrite Z.land_spec in E.
      assert (Z.testbit (mask_byte n) 0 = false) as Hm; [|rewrite Hm, andb_false_r in E; done].
      assert (n = 0 \/ n = 1 \/ n = 2 \/ n = 3 \/ n = 4 \/ n = 5 \/ n = 6 \/ n = 7) as Hn7 by lia.
      by repeat (destruct Hn7 as [->|Hn7]; [done|]); subst.
    + apply IH in E; lia.
Qed.

(** The width and the bits of the network of an address and the length of its prefix: an
    IPv4 network, possibly written as a mapped one, or one of IPv6. *)
Definition cidr_net (a : Addr) (n : Z) : nat * list bool :=
  match a with
  | Addr4 b => (32%nat, take (Z.to_nat n) (bits b))
  | Addr6 b _ =>
      match To4 b with
      | Some b4 => if decide (96 <= n) then (32%nat, take (Z.to_nat (n - 96)) (bits b4)) else (128%nat, take (Z.to_nat n) (bits b))
      | None => (128%nat, take (Z.to_nat n) (bits b))
      end
  end.

Definition ip_wf (ip : bytes) : Prop := length ip = 16%nat /\ Forall is_byte ip.

Lemma To4_wf ip b : To4 ip = Some b -> Forall is_byte ip -> length b = 4%nat /\ Forall is_byte b.
Proof.
  unfold To4. case_decide; [by intros [= <-]|]. case_decide as E; [|done]. intros [= <-] Hb. destruct E as [El _].
  rewrite length_drop. split; [lia|by apply Forall_drop].
Qed.

Lemma ip_bits_length ip : ip_wf ip -> length (ip_bits ip) = match To4 ip with Some _ => 32%nat | None => 128%nat end.
Proof.
  intros [Hl Hb]. unfold ip_bits. rewrite length_bits. destruct (To4 ip) as [b|] eqn:E; cbn [default from_option id]; [|lia].
  destruct (To4_wf _ _ E Hb). lia.
Qed.

Lemma prefix_length n (l : list bool) m : take n l = take n m -> length l = length m -> take (length (take n l)) m = take n l.
Proof.
  intros E Hl. rewrite length_take. destruct (decide (n <= length l)%nat).
  - by rewrite Nat.min_l.
  - rewrite Nat.min_r by lia. rewrite (take_ge l) in * by lia. rewrite (take_ge m) in E by lia. subst. by rewrite take_ge.
Qed.

(** A network of plain bytes under its own mask holds the addresses with its prefix. *)
Lemma contains_prefix b n ip : 0 <= n -> Forall is_byte b -> Forall is_byte ip -> length ip = length b ->
  masked (masked b (CIDRMask n (length b))) (CIDRMask n (length b)) = masked ip (CIDRMask n (length b)) <->
  take (length (take (Z.to_nat n) (bits b))) (bits ip) = take (Z.to_nat n) (bits b).
Proof.
  intros Hn Hb Hi Hl. rewrite masked_idem, masked_bits by done. assert (length (bits b) = length (bits ip)) as Hbl by (rewrite !length_bits; lia).
  split; intros E; [by apply prefix_length|]. rewrite <- E. rewrite length_take. destruct (decide (Z.to_nat n <= length (bits b))%nat).
  - by rewrite Nat.min_l.
  - rewrite Nat.min_r by lia. rewrite !take_ge by lia. done.
Qed.

(** The address and the length in the text of a network. *)
Definition cidr_of (s : string) : option (Addr * Z) :=
  '(addr, mask) ← Cut s "/"; a ← ParseAddr addr; n ← ParseUint (chars mask) 10 64;
  if decide (Zone a = "" /\ n <= BitLen a) then Some (a, n) else None.

Definition cidr_mask (a : Addr) (n : Z) : bytes := CIDRMask n (Z.to_nat (BitLen a / 8)).

Lemma Mask_cidr a n : addr_wf a -> Mask (As16 a) (cidr_mask a n) = Some (masked (match a with Addr4 b | Addr6 b _ => b end) (cidr_mask a n)).
Proof.
  unfold Mask, cidr_mask. rewrite length_CIDRMask. destruct a as [b|b z]; intros [Hl Hb].
  - change (Z.to_nat (BitLen (Addr4 b) / 8)) with 4%nat. cbn [As16]. cbv zeta.
    rewrite (decide_True (P := _ /\ _)) by (split_and!; [done|by rewrite length_app, Hl|done]).
    change (drop 12 (v4InV6Prefix ++ b)) with b. by rewrite decide_False by lia.
  - change (Z.to_nat (BitLen (Addr6 b z) / 8)) with 16%nat. cbv zeta. cbn [As16].
    rewrite (decide_False (P := _ /\ _)) by (by intros []). by rewrite decide_False by lia.
Qed.

Lemma ParseCIDR_read s : ParseCIDR s =
  '(a, n) ← cidr_of s; Some (mkIPNet (masked (match a with Addr4 b | Addr6 b _ => b end) (cidr_mask a n)) (cidr_mask a n)).
Proof.
  unfold ParseCIDR, cidr_of. destruct (Cut s "/") as [[addr mask]|]; [|done]. cbn [mbind option_bind].
  destruct (ParseAddr addr) as [a|] eqn:Ea; [|done]. cbn [mbind option_bind]. destruct (ParseUint (chars mask) 10 64) as [n|]; cbn [mbind option_bind]; [|by case_decide].
  case_decide as Hz; [by rewrite decide_False by (by intros [? _])|]. case_decide as Hn; [by rewrite decide_False by lia|].
  rewrite decide_True by (split; [done|lia]). cbn [mbind option_bind]. fold (cidr_mask a n). rewrite (Mask_cidr a n (ParseAddr_wf _ _ Ea)). done.
Qed.

Lemma cidr_of_wf s a n : cidr_of s = Some (a, n) -> addr_wf a /\ 0 <= n <= BitLen a.
Proof.
  unfold cidr_of. destruct (Cut s "/") as [[addr mask]|]; [|done]. cbn [mbind option_bind].
  destruct (ParseAddr addr) as [a'|] eqn:Ea; [|done]. cbn [mbind option_bind]. destruct (ParseUint (chars mask) 10 64) as [n'|] eqn:En; [|done]. cbn [mbind option_bind].
  case_decide as Hd; [|done]. intros [= <- <-]. split; [by eapply ParseAddr_wf|]. apply ParseUint_range in En; [|lia]. destruct Hd. unfold in_u in En. lia.
Qed.

(** A masked address is a mapped one when the address is, and the mask keeps that. *)
Lemma To4_masked b n : length b = 16%nat -> Forall is_byte b -> 0 <= n ->
  To4 (masked b (CIDRMask n 16)) = if decide (96 <= n) then (fun b4 => masked b4 (CIDRMask (n - 96) 4)) <$> To4 b else None.
Proof.
  intros Hl Hb Hn. assert (length (masked b (CIDRMask n 16)) = 16%nat) as Hlm by (by rewrite length_masked by (by rewrite length_CIDRMask)).
  unfold To4. rewrite Hlm, Hl. rewrite !(decide_False (P := 16%nat = 4%nat)) by done. destruct (decide (96 <= n)) as [H96|H96].
  - assert (masked b (CIDRMask n 16) = take 12 b ++ masked (drop 12 b) (CIDRMask (n - 96) 4))%list as ->.
    { change 16%nat with (12 + 4)%nat. rewrite CIDRMask_split by lia. rewrite <- (take_drop 12 b) at 1. unfold masked.
      rewrite zip_with_app by (rewrite length_take, length_replicate; lia). f_equal.
      replace 12%nat with (length (take 12 b)) at 2 by (rewrite length_take; lia). apply masked_ones. by apply Forall_take. }
    rewrite take_app_length', drop_app_length' by (rewrite length_take; lia). by case_decide.
  - rewrite decide_False; [done|]. intros [_ Et]. assert (masked b (CIDRMask n 16) !! 11%nat = Some 255) as E255.
    { rewrite <- (take_drop 12 (masked b (CIDRMask n 16))), Et. done. }
    apply masked_full in E255; lia.
Qed.

(** The numbers that are compared: those of an IPv4 network, or of one of IPv6. *)
Lemma network_number a n : addr_wf a -> 0 <= n <= BitLen a ->
  let b := match a with Addr4 b | Addr6 b _ => b end in
  exists b' n', networkNumberAndMask (mkIPNet (masked b (cidr_mask a n)) (cidr_mask a n)) =
    Some (masked b' (CIDRMask n' (length b')), CIDRMask n' (length b')) /\
    0 <= n' /\ Forall is_byte b' /\ cidr_net a n = ((8 * length b')%nat, take (Z.to_nat n') (bits b')).
Proof.
  intros Hwf Hn b. unfold networkNumberAndMask, cidr_mask. cbn [net_IP net_Mask].
  assert (forall b' k, length b' = k -> length (masked b' (CIDRMask n k)) = k) as Hlm by (intros b' k <-; by rewrite length_masked by (by rewrite length_CIDRMask)).
  rewrite length_CIDRMask. destruct a as [b4|b6 z]; cbn [BitLen] in *; destruct Hwf as [Hl Hb]; unfold b.
  - change (Z.to_nat (32 / 8)) with 4%nat. exists b4, n. rewrite Hl. unfold To4. rewrite (Hlm b4 4%nat Hl), !decide_True by done. cbn [mbind option_bind].
    rewrite (Hlm b4 4%nat Hl), !decide_True by done. split_and!; (done || lia).
  - change (Z.to_nat (128 / 8)) with 16%nat. rewrite To4_masked by (done || lia). unfold cidr_net.
    rewrite (Hlm b6 16%nat Hl), (decide_True (P := 16%nat = 16%nat)) by done.
    assert (exists b' n', Some (masked b6 (CIDRMask n 16), CIDRMask n 16) = Some (masked b' (CIDRMask n' (length b')), CIDRMask n' (length b')) /\
      0 <= n' /\ Forall is_byte b' /\ (128%nat, take (Z.to_nat n) (bits b6)) = ((8 * length b')%nat, take (Z.to_nat n') (bits b'))) as Hsix.
    { exists b6, n. rewrite Hl. split_and!; (done || lia). }
    destruct (decide (96 <= n)) as [H96|H96]; destruct (To4 b6) as [b4|] eqn:E4; cbn [fmap option_fmap option_map mbind option_bind].
    all: rewrite (decide_False (P := 16%nat = 4%nat)), (decide_True (P := 16%nat = 16%nat)) by done.
    2-4: by rewrite (Hlm b6 16%nat Hl), decide_False by done.
    destruct (To4_wf _ _ E4 Hb) as [Hl4 Hb4]. exists b4, (n - 96). rewrite length_masked by (by rewrite length_CIDRMask). rewrite Hl4, decide_True by done.
    split_and!; [|lia|done|done]. do 2 f_equal. change 16%nat with (12 + 4)%nat. rewrite CIDRMask_split by lia. by rewrite drop_app_length' by (by rewrite length_replicate).
Qed.

(** A network holds the addresses that begin with its prefix. *)
Lemma ParseCIDR_contains s net ip : ParseCIDR s = Some net -> ip_wf ip ->
  exists a n, cidr_of s = Some (a, n) /\ (net_Contains net ip = true <-> in_net (fst (cidr_net a n)) (snd (cidr_net a n)) ip).
Proof.
  rewrite ParseCIDR_read. destruct (cidr_of s) as [[a n]|] eqn:Ec; [|done]. cbn [mbind option_bind]. intros [= <-] [Hl Hb].
  destruct (cidr_of_wf _ _ _ Ec) as [Hwf Hn]. exists a, n. split; [done|].
  destruct (network_number a n Hwf Hn) as (b' & n' & Enn & Hn' & Hb' & Ecn). unfold net_Contains. rewrite Enn, Ecn. cbn [fst snd]. unfold in_net, ip_bits.
  assert (Forall is_byte (default ip (To4 ip))) as Hd.
  { destruct (To4 ip) as [b4|] eqn:E4; [|done]. cbn. by apply (To4_wf ip). }
  set (i := default ip (To4 ip)) in *. rewrite andb_true_iff, !bool_decide_eq_true, length_bits.
  rewrite length_masked by (by rewrite length_CIDRMask). split.
  - intros [Hlen E]. split; [lia|]. by apply contains_prefix.
  - intros [Hlen E]. assert (length i = length b') by lia. split; [done|]. by apply contains_prefix.
Qed.

(** *** Dotted addresses *)

Definition dec (n : Z) : list ascii := FormatUint n 10.

(** The text of an IPv4 address. *)
Definition dotted (a b c d : Z) : string := str (dec a ++ dot :: dec b ++ dot :: dec c ++ dot :: dec d)%list.

Lemma dec_no c n : 0 <= n -> code c < 48 \/ 57 < code c < 97 -> c ∉ dec n.
Proof. intros Hn Hc. apply (FormatUint_no_byte 10 ltac:(lia) c n Hn Hc). Qed.

Lemma v4_field_dec n : is_byte n -> v4_field (dec n) = Some n.
Proof.
  intros Hn. apply (bool_decide_eq_true (v4_field (dec n) = Some n)).
  exact (byte_cases (fun n => bool_decide (v4_field (dec n) = Some n)) ltac:(by vm_compute) n Hn).
Qed.

Lemma ParseAddr_from_dot l1 l2 l : dot ∉ l1 -> colon ∉ l1 -> zone_mark ∉ l1 -> ParseAddr_from (l1 ++ dot :: l2)%list l = Addr4 <$> parseIPv4Fields l.
Proof.
  intros H1 H2 H3. induction l1 as [|x l1 IH]; cbn; [done|]. apply not_elem_of_cons in H1 as [? ?], H2 as [? ?], H3 as [? ?].
  rewrite !decide_False by congruence. by apply IH.
Qed.

Lemma ParseAddr_dotted a b c d : is_byte a -> is_byte b -> is_byte c -> is_byte d -> ParseAddr (dotted a b c d) = Some (Addr4 [a; b; c; d]).
Proof.
  intros Ha Hb Hc Hd. unfold ParseAddr, dotted. rewrite chars_str.
  rewrite ParseAddr_from_dot by (apply dec_no; [apply Ha|by vm_compute; auto]). unfold parseIPv4Fields.
  rewrite !split_byte_app by (apply dec_no; [(apply Ha || apply Hb || apply Hc)|by vm_compute; auto]).
  rewrite split_byte_nosep by (apply dec_no; [apply Hd|by vm_compute; auto]). by rewrite !v4_field_dec by done.
Qed.
