(* ===== verification/Security.v ===== *)
(** * Security: guards, tokens and limits

    The guards of [security/guard.go] over the networks of [NetIp], the middlewares and the
    gRPC interceptors that ask them, the configuration the servers load into them, and the
    rate limiter and the checks of [security].  Tokens come from a library: [Jwt] is what
    is used of it.  A volume server with a guard stores and deletes only what the guard
    lets in. *)

From Stdlib Require Import SpecFloat.
From S2P Require Import Prelude GoStrings GoPath GoText Http Types NetIp VolumeServer VolumeServerSpec.

#[local] Open Scope Z_scope.
#[local] Open Scope string_scope.

(** ** Requests *)

Record request := mkRequest {
  rq_RemoteAddr : string;
  rq_Method : string;
  rq_Authorization : string;
  rq_XForwardedFor : string;
  rq_XRealIp : string;
}.

(** ** Tokens *)

(** [golang-jwt] with HS256: a token with an expiry in seconds, and whether a token is
    valid under a key at a time in nanoseconds.  It takes an expiry of 0 for none and reads
    it as a float, so that its laws are about the others up to [2 ^ 53]. *)
Class Jwt := {
  jwt_SignedString : string -> Z -> string;
  jwt_Parse : string -> string -> Z -> bool;
}.

Class JwtLaws `{Jwt} : Prop := {
  jwt_accepts key exp now : 0 < exp < 2 ^ 53 -> now < exp * 10 ^ 9 -> jwt_Parse (jwt_SignedString key exp) key now = true;
  jwt_expires key exp now : 0 < exp < 2 ^ 53 -> exp * 10 ^ 9 <= now -> jwt_Parse (jwt_SignedString key exp) key now = false;
}.

Section guard.
Context `{Jwt}.

Definition SignJWT (now : Z) (key : string) (expiresAfterSec : Z) : option string :=
  if decide (key = "") then None else Some (jwt_SignedString key ((now + i64 (expiresAfterSec * 10 ^ 9)) / 10 ^ 9)).

Definition VerifyJWT (now : Z) (token key : string) : bool := if decide (key = "") then false else jwt_Parse token key now.

(** ** Guards *)

Record Guard := mkGuard {
  g_whiteList : list string;
  g_whiteNets : list IPNet;
  g_signingKey : string;
  g_filerKey : string;
}.

Definition ParseWhiteList (s : string) : list string :=
  if decide (s = "") then [] else
  filter (fun part => part <> "") ((fun part => TrimSpace (str part)) <$> split_byte "," (chars s)).

(** The network of an entry. *)
Definition compile_entry (entry : string) : option IPNet :=
  if Contains entry "/" then ParseCIDR entry else
  ip ← ParseIP entry;
  match To4 ip with
  | Some _ => ParseCIDR (entry +:+ "/32")
  | None => ParseCIDR (entry +:+ "/128")
  end.

Definition compileWhiteList (g : Guard) : Guard :=
  mkGuard (g_whiteList g) (omap compile_entry (g_whiteList g)) (g_signingKey g) (g_filerKey g).

Definition NewGuard (whiteList signingKey filerKey : string) : Guard :=
  compileWhiteList (mkGuard (ParseWhiteList whiteList) [] signingKey filerKey).

Definition SetWhiteList (whiteList : string) (g : Guard) : Guard :=
  compileWhiteList (mkGuard (ParseWhiteList whiteList) (g_whiteNets g) (g_signingKey g) (g_filerKey g)).
Definition SetSigningKey (key : string) (g : Guard) : Guard := mkGuard (g_whiteList g) (g_whiteNets g) key (g_filerKey g).
Definition SetFilerKey (key : string) (g : Guard) : Guard := mkGuard (g_whiteList g) (g_whiteNets g) (g_signingKey g) key.

Definition HasJWTSigningKey (g : Guard) : bool := bool_decide (g_signingKey g <> "").
Definition IsWhiteListEmpty (g : Guard) : bool := bool_decide (g_whiteNets g = []).

Definition WhiteListContains (ipStr : string) (g : Guard) : bool :=
  match ParseIP ipStr with
  | Some ip => existsb (fun net => net_Contains net ip) (g_whiteNets g)
  | None => false
  end.

Definition remote_host (remoteAddr : string) : string :=
  match SplitHostPort remoteAddr with Some (host, _) => host | None => remoteAddr end.

Definition isIPAllowed (remoteAddr : string) (g : Guard) : bool :=
  match ParseIP (remote_host remoteAddr) with
  | None => false
  | Some ip => if decide (g_whiteNets g = []) then true else existsb (fun net => net_Contains net ip) (g_whiteNets g)
  end.

(** The token of a request under a key. *)
Definition token_valid (now : Z) (r : request) (key : string) : bool :=
  if decide (rq_Authorization r = "") then false else VerifyJWT now (TrimPrefix (rq_Authorization r) "Bearer ") key.

Definition Allowed (now : Z) (r : request) (requiresJWT : bool) (g : Guard) : bool :=
  if negb (isIPAllowed (rq_RemoteAddr r) g) then false else
  if requiresJWT && bool_decide (g_signingKey g <> "") then token_valid now r (g_signingKey g) else true.

Definition FilerAllowed (now : Z) (r : request) (g : Guard) : bool :=
  if negb (isIPAllowed (rq_RemoteAddr r) g) then false else
  if decide (g_filerKey g <> "") then token_valid now r (g_filerKey g) else true.

(** ** Middlewares *)

(** A handler answers a request at a time; the middlewares answer [http.Error] with a status. *)
Section middleware.
Context {A : Type}.

Definition handler : Type := Z -> request -> Z + A.

Inductive MiddlewareType := MiddlewareDefault | MiddlewareJWT | MiddlewareWhitelist | MiddlewareFiler | MiddlewareAdmin.

Definition HTTPMiddleware (g : Guard) (next : handler) : handler := fun now r =>
  if negb (Allowed now r (HasJWTSigningKey g) g) then inl 403 else next now r.
Definition HTTPMiddlewareWithJWT (g : Guard) (next : handler) : handler := fun now r =>
  if negb (Allowed now r true g) then inl 401 else next now r.
Definition HTTPMiddlewareWithWhiteList (g : Guard) (next : handler) : handler := fun now r =>
  if negb (Allowed now r false g) then inl 403 else next now r.
Definition FilerHTTPMiddleware (g : Guard) (next : handler) : handler := fun now r =>
  if negb (FilerAllowed now r g) then inl 401 else next now r.
Definition AdminHTTPMiddleware (g : Guard) (next : handler) : handler := fun now r =>
  if negb (Allowed now r (HasJWTSigningKey g) g) then inl 401 else next now r.

(** The first middleware is the outermost. *)
Definition ChainHTTPMiddleware (g : Guard) (next : handler) (middlewares : list MiddlewareType) : handler :=
  fold_right (fun m h =>
    match m with
    | MiddlewareJWT => HTTPMiddlewareWithJWT g h
    | MiddlewareWhitelist => HTTPMiddlewareWithWhiteList g h
    | MiddlewareFiler => FilerHTTPMiddleware g h
    | MiddlewareAdmin => AdminHTTPMiddleware g h
    | MiddlewareDefault => HTTPMiddleware g h
    end) next middlewares.

(** Both interceptors: the address of the peer, if the context has one. *)
Definition GRPCInterceptor (g : Guard) (peer : option string) (call : A) : option A :=
  let clientIP := default "" peer in
  if bool_decide (clientIP <> "") && negb (isIPAllowed clientIP g) then None else Some call.
End middleware.

(** ** Configuration *)

Record SecurityConfig := mkSecurityConfig {
  sc_WhiteList : string;
  sc_SigningKey : string;
  sc_FilerSigningKey : string;
}.

(** [ReloadSecurityConfig] of the master and of the volume server. *)
Definition ReloadSecurityConfig (cfg : SecurityConfig) (g : Guard) : Guard :=
  SetSigningKey (sc_SigningKey cfg) (SetWhiteList (sc_WhiteList cfg) g).

(** [ReloadConfig] of the filer, on each of its guards. *)
Definition ReloadConfig (cfg : SecurityConfig) (g : Guard) : Guard :=
  SetFilerKey (sc_FilerSigningKey cfg) (SetSigningKey (sc_SigningKey cfg) (SetWhiteList (sc_WhiteList cfg) g)).

(** ** The guard of a volume server *)

(** The handlers ask the guard first: uploads and deletions need a token, downloads do not. *)
Definition guarded (g : Guard) (now : Z) (remote : string) (op : http_op) : http_op :=
  let ask requiresJWT r :=
    mkVsRequest (vr_fid r) (Allowed now (mkRequest remote "" (vr_Authorization r) "" "") requiresJWT g) (vr_XReplication r)
      (vr_Authorization r) (vr_ContentType r) (vr_parts r) (vr_body r) in
  match op with
  | HPut t r => HPut t (ask true r)
  | HGet r => HGet (ask false r)
  | HDelete r => HDelete (ask true r)
  end.
End guard.

(** ** Rate limits *)

(** [float64] *)
Definition prec := 53.
Definition emax := 1024.
Definition float := spec_float.
Definition f_of_Z (n : Z) : float := binary_normalize prec emax n 0 false.
Definition f_add : float -> float -> float := SFadd prec emax.
Definition f_sub : float -> float -> float := SFsub prec emax.
Definition f_mul : float -> float -> float := SFmul prec emax.
Definition f_div : float -> float -> float := SFdiv prec emax.
Definition f_lt : float -> float -> bool := SFltb.
Definition f_le : float -> float -> bool := SFleb.

(** [Duration.Seconds] *)
Definition Seconds (d : Z) : float := f_add (f_of_Z (Z.quot d (10 ^ 9))) (f_div (f_of_Z (Z.rem d (10 ^ 9))) (f_of_Z (10 ^ 9))).

Record limiterEntry := mkLimiterEntry { le_tokens : float; le_last : Z; le_lastSeen : Z }.

Record RateLimiter := mkRateLimiter {
  rl_limiters : gmap string limiterEntry;
  rl_rps : float;
  rl_burst : float;
  rl_ttl : Z;
}.

Definition NewRateLimiter (rps : float) (burst : Z) : RateLimiter :=
  mkRateLimiter ∅ (if f_le rps (f_of_Z 0) then f_of_Z 100 else rps) (f_of_Z (if decide (burst <= 0) then 50 else burst)) (600 * 10 ^ 9).

Definition set_limiters (m : gmap string limiterEntry) (rl : RateLimiter) : RateLimiter := mkRateLimiter m (rl_rps rl) (rl_burst rl) (rl_ttl rl).

Definition cleanupLocked (now : Z) (rl : RateLimiter) : RateLimiter :=
  set_limiters (filter (fun kv => ~ rl_ttl rl < now - le_lastSeen (snd kv)) (rl_limiters rl)) rl.

Definition allow (now : Z) (ip : string) (rl : RateLimiter) : bool * RateLimiter :=
  match rl_limiters rl !! ip with
  | None =>
      let rl := set_limiters (<[ip := mkLimiterEntry (f_sub (rl_burst rl) (f_of_Z 1)) now now]> (rl_limiters rl)) rl in
      (true, if decide (Z.of_nat (base.size (rl_limiters rl)) mod 128 = 0) then cleanupLocked now rl else rl)
  | Some entry =>
      let elapsed := Seconds (now - le_last entry) in
      let tokens := le_tokens entry in
      let tokens := if f_lt (f_of_Z 0) elapsed then
                      let tokens := f_add tokens (f_mul elapsed (rl_rps rl)) in
                      if f_lt (rl_burst rl) tokens then rl_burst rl else tokens
                    else tokens in
      if f_lt tokens (f_of_Z 1) then (false, set_limiters (<[ip := mkLimiterEntry tokens now now]> (rl_limiters rl)) rl)
      else (true, set_limiters (<[ip := mkLimiterEntry (f_sub tokens (f_of_Z 1)) now now]> (rl_limiters rl)) rl)
  end.

Definition GetActualRemoteHost (r : request) : string :=
  let xff := TrimSpace (rq_XForwardedFor r) in
  if decide (xff <> "") then match split_byte "," (chars xff) with part :: _ => TrimSpace (str part) | [] => "" end else
  let xrip := TrimSpace (rq_XRealIp r) in
  if decide (xrip <> "") then xrip else
  match SplitHostPort (TrimSpace (rq_RemoteAddr r)) with Some (host, _) => host | None => TrimSpace (rq_RemoteAddr r) end.

(** The requests that reach the handler behind [Middleware]; the others are answered 429. *)
Definition limited (now : Z) (r : request) (rl : RateLimiter) : bool * RateLimiter := allow now (GetActualRemoteHost r) rl.

Fixpoint limited_all (rs : list (Z * request)) (rl : RateLimiter) : list bool :=
  match rs with
  | [] => []
  | (now, r) :: rs => let '(ok, rl) := limited now r rl in ok :: limited_all rs rl
  end.

(** ** Checks of names *)

Inductive validation_err := ErrInvalidVolumeId | ErrVolumeIdOutOfRange | ErrPathTraversalDetected | ErrFilenameTooLong | ErrInvalidFilename.

Definition ValidateVolumeId (vid : string) : option validation_err :=
  match ParseUint (chars (TrimSpace vid)) 10 32 with
  | None => Some ErrInvalidVolumeId
  | Some u => if decide (2 ^ 32 - 1 < u) then Some ErrVolumeIdOutOfRange else None
  end.

(** The error of [PathUnescape] is dropped; its text is then empty. *)
Definition ValidatePath (p : string) : option validation_err :=
  if Contains (default "" (PathUnescape (TrimSpace p))) ".." then Some ErrPathTraversalDetected else None.

Definition ValidateFilename (name : string) : option validation_err :=
  let n := TrimSpace name in
  if decide (n = "" \/ n = "." \/ n = "..") then Some ErrInvalidFilename else
  if decide (255 < String.length n)%nat then Some ErrFilenameTooLong else None.

(** ** What a guard lets in *)

(** The network that an entry of a white list stands for. *)
Definition entry_net (entry : string) : option (Addr * Z) :=
  if Contains entry "/" then cidr_of entry else
  a ← ParseAddr entry;
  if decide (Zone a = "") then Some (a, match To4 (As16 a) with Some _ => 32 | None => 128 end) else None.

Definition in_cidr (a : Addr) (n : Z) (ip : bytes) : Prop := in_net (fst (cidr_net a n)) (snd (cidr_net a n)) ip.

(** The peer has an address, and some network of the list has it, if there are any. *)
Definition admitted (whiteList remote : string) : Prop :=
  exists ip, ParseIP (remote_host remote) = Some ip /\
    let nets := omap entry_net (ParseWhiteList whiteList) in nets = [] \/ exists a n, (a, n) ∈ nets /\ in_cidr a n ip.

Lemma ParseIP_wf s ip : ParseIP s = Some ip -> ip_wf ip.
Proof.
  unfold ParseIP. destruct (ParseAddr s) as [a|] eqn:E; [|done]. cbn. case_decide; [done|]. intros [= <-].
  apply ParseAddr_wf in E. unfold ip_wf. destruct a as [b|b z]; destruct E as [Hl Hb]; cbn; [|done].
  split; [by rewrite Hl|]. repeat (apply Forall_cons; split; [by vm_compute|]). done.
Qed.

Lemma Contains_no c s : Contains s (String c "") = false -> c ∉ chars s.
Proof.
  unfold Contains. intros Hc Hin. change (chars (String c "")) with [c] in Hc. induction (chars s) as [|x l IH]; [by apply not_elem_of_nil in Hin|].
  cbn in Hc. apply orb_false_iff in Hc as [H1 H2]. apply elem_of_cons in Hin as [->|Hin]; [|by apply IH].
  by rewrite bool_decide_eq_true_2 in H1.
Qed.

Lemma exact_entry e a : Contains e "/" = false -> ParseAddr e = Some a -> Zone a = "" ->
  cidr_of (e +:+ match To4 (As16 a) with Some _ => "/32" | None => "/128" end) = entry_net e.
Proof.
  intros Hs Ha Hz. unfold entry_net, cidr_of. rewrite Hs, Ha. cbn [mbind option_bind]. rewrite decide_True by done.
  assert (forall t, Cut (e +:+ String "/" t) "/" = Some (e, t)) as Hcut by (intros t; apply Cut_byte; by apply Contains_no).
  destruct (To4 (As16 a)) eqn:E4; rewrite Hcut; cbn [mbind option_bind]; rewrite Ha; cbn [mbind option_bind].
  - change (ParseUint (chars "32") 10 64) with (Some 32). cbn [mbind option_bind]. by rewrite decide_True by (split; [done|destruct a; cbn; lia]).
  - change (ParseUint (chars "128") 10 64) with (Some 128). cbn [mbind option_bind]. rewrite decide_True; [done|]. split; [done|]. destruct a as [b|b z]; [|cbn; lia]. exfalso. apply ParseAddr_wf in Ha as [Hl _].
    cbn in E4. unfold To4 in E4. rewrite decide_False, decide_True in E4; [done|cbn; by rewrite Hl|cbn; by rewrite Hl].
Qed.

Lemma compile_entry_spec e : match compile_entry e with
  | Some net => exists a n, entry_net e = Some (a, n) /\ forall ip, ip_wf ip -> net_Contains net ip = true <-> in_cidr a n ip
  | None => entry_net e = None
  end.
Proof.
  assert (forall s, match ParseCIDR s with
    | Some net => exists a n, cidr_of s = Some (a, n) /\ forall ip, ip_wf ip -> net_Contains net ip = true <-> in_cidr a n ip
    | None => cidr_of s = None end) as Hc.
  { intros s. destruct (ParseCIDR s) as [net|] eqn:E.
    - pose proof (fun ip => ParseCIDR_contains s net ip E) as Hn. rewrite ParseCIDR_read in E. destruct (cidr_of s) as [[a n]|]; [|done].
      exists a, n. split; [done|]. intros ip Hip. destruct (Hn ip Hip) as (a' & n' & [= <- <-] & Hiff). exact Hiff.
    - rewrite ParseCIDR_read in E. by destruct (cidr_of s) as [[]|]. }
  unfold compile_entry. destruct (Contains e "/") eqn:Es; [unfold entry_net; rewrite Es; apply Hc|].
  unfold ParseIP. destruct (ParseAddr e) as [a|] eqn:Ea; [|unfold entry_net; by rewrite Es, Ea]. cbn [mbind option_bind].
  destruct (decide (Zone a <> "")) as [Hz|Hz]; [unfold entry_net; rewrite Es, Ea; cbn; by rewrite decide_False|].
  cbn [mbind option_bind]. rewrite <- (exact_entry e a Es Ea) by (by apply dec_stable). destruct (To4 (As16 a)); apply Hc.
Qed.

Lemma compiled_nets entries ip : ip_wf ip ->
  (omap compile_entry entries = [] <-> omap entry_net entries = []) /\
  (existsb (fun net => net_Contains net ip) (omap compile_entry entries) = true <-> exists a n, (a, n) ∈ omap entry_net entries /\ in_cidr a n ip).
Proof.
  intros Hip. induction entries as [|e entries [IH1 IH2]]; cbn [omap list_omap].
  { split; [done|]. split; [done|]. by intros (a & n & Hin%not_elem_of_nil & _). }
  pose proof (compile_entry_spec e) as He. destruct (compile_entry e) as [net|]; [destruct He as (a & n & -> & Hn)|by rewrite He].
  split; [done|]. cbn [existsb]. rewrite orb_true_iff, IH2, (Hn ip Hip). split.
  - intros [Hin|(a' & n' & Hin & Ha)]; [exists a, n|exists a', n']; (split; [|done]); [by left|by right].
  - intros (a' & n' & Hin%elem_of_cons & Ha). destruct Hin as [[= -> ->]|Hin]; [by left|right; by exists a', n'].
Qed.

Section decisions.
Context `{Jwt}.

(** The guard has the nets of its list. *)
Definition compiled (g : Guard) : Prop := g_whiteNets g = omap compile_entry (g_whiteList g).

Lemma Reload_compiled cfg g : compiled (ReloadSecurityConfig cfg g) /\ compiled (ReloadConfig cfg g).
Proof. done. Qed.

Lemma isIPAllowed_spec whiteList remote g : g_whiteList g = ParseWhiteList whiteList -> compiled g ->
  isIPAllowed remote g = true <-> admitted whiteList remote.
Proof.
  intros Hl Hc. unfold isIPAllowed, admitted. destruct (ParseIP (remote_host remote)) as [ip|] eqn:Ei; [|by split; [|intros (? & ? & _)]].
  destruct (compiled_nets (g_whiteList g) ip (ParseIP_wf _ _ Ei)) as [H1 H2]. rewrite Hc, <- Hl. case_decide as En.
  - split; [|done]. intros _. exists ip. split; [done|]. left. by apply H1.
  - rewrite H2. split.
    + intros Hx. exists ip. by split; [|right].
    + intros (ip' & [= <-] & [E|Hx]); [by rewrite <- H1 in E|done].
Qed.

(** The request shows a token that the key validates. *)
Definition has_token (now : Z) (authorization key : string) : Prop :=
  authorization <> "" /\ jwt_Parse (TrimPrefix authorization "Bearer ") key now = true.

Lemma token_valid_spec now r key : key <> "" -> token_valid now r key = true <-> has_token now (rq_Authorization r) key.
Proof.
  intros Hk. unfold token_valid, VerifyJWT, has_token. destruct (decide (rq_Authorization r = "")) as [->|Ha]; [by split; [|intros []]|].
  rewrite decide_False by done. split; [done|by intros []].
Qed.

Lemma Allowed_spec now r requiresJWT cfg g :
  Allowed now r requiresJWT (ReloadSecurityConfig cfg g) = true <->
  admitted (sc_WhiteList cfg) (rq_RemoteAddr r) /\
  (requiresJWT = true -> sc_SigningKey cfg <> "" -> has_token now (rq_Authorization r) (sc_SigningKey cfg)).
Proof.
  unfold Allowed. rewrite <- (isIPAllowed_spec (sc_WhiteList cfg) _ (ReloadSecurityConfig cfg g)) by done.
  change (g_signingKey (ReloadSecurityConfig cfg g)) with (sc_SigningKey cfg).
  destruct (isIPAllowed (rq_RemoteAddr r) _); cbn [negb]; [|by split; [|intros []]].
  destruct requiresJWT; cbn [andb]; [|by split]. case_bool_decide as Hk.
  - rewrite token_valid_spec by done. split; [by intros|]. intros [_ Ht]. by apply Ht.
  - by split.
Qed.

Lemma FilerAllowed_spec now r cfg g :
  FilerAllowed now r (ReloadConfig cfg g) = true <->
  admitted (sc_WhiteList cfg) (rq_RemoteAddr r) /\
  (sc_FilerSigningKey cfg <> "" -> has_token now (rq_Authorization r) (sc_FilerSigningKey cfg)).
Proof.
  unfold FilerAllowed. rewrite <- (isIPAllowed_spec (sc_WhiteList cfg) _ (ReloadConfig cfg g)) by done.
  change (g_filerKey (ReloadConfig cfg g)) with (sc_FilerSigningKey cfg).
  destruct (isIPAllowed (rq_RemoteAddr r) _); cbn [negb]; [|by split; [|intros []]]. case_decide as Hk.
  - rewrite token_valid_spec by done. split; [by intros|]. intros [_ Ht]. by apply Ht.
  - by split.
Qed.

Lemma denied_op {W} (send : string -> vs_request -> W -> (string + Z) * W) order op vs w :
  (match op with HPut _ r | HGet r | HDelete r => vr_allowed r end) = false ->
  exec_http send order op vs w = (Some (WriteHeader 401 no_reply), (vs, w)).
Proof. destruct op as [now r|r|r]; intros E; cbn; unfold handleWrite, store_upload, handleRead, handleDelete; by rewrite E. Qed.
End decisions.

(** *** Requests to a volume server *)

Definition op_request (op : http_op) : vs_request := match op with HPut _ r | HGet r | HDelete r => r end.
Definition needs_token (op : http_op) : bool := match op with HGet _ => false | _ => true end.

(** The request that the guard has let in. *)
Definition let_in (op : http_op) : http_op :=
  let ok r := mkVsRequest (vr_fid r) true (vr_XReplication r) (vr_Authorization r) (vr_ContentType r) (vr_parts r) (vr_body r) in
  match op with HPut t r => HPut t (ok r) | HGet r => HGet (ok r) | HDelete r => HDelete (ok r) end.

(** C20: a volume server serves whom its configuration names.  With any white list and
    signing key loaded, an upload, download or deletion is executed exactly when the peer
    has an address, some network of the white list has its first bits (or no entry of the
    list can be read), and, for an upload or a deletion under a key, the request shows a
    valid token; it is answered 401 and changes nothing otherwise.  The token that the
    master signs with the same key, for a number of seconds that is a duration of Go, is
    such a token up to the second it expires in, and not after. *)
Theorem volume_guarded `{JwtLaws} {W : Type} (send : string -> vs_request -> W -> (string + Z) * W) (order : list string -> list string)
    (cfg : SecurityConfig) (g : Guard) (now : Z) (remote : string) (op : http_op) (vs : VolumeServer) (w : W) :
  let lets := admitted (sc_WhiteList cfg) remote /\
    (needs_token op = true -> sc_SigningKey cfg <> "" -> has_token now (vr_Authorization (op_request op)) (sc_SigningKey cfg)) in
  let run := exec_http send order (guarded (ReloadSecurityConfig cfg g) now remote op) vs w in
  (lets -> run = exec_http send order (let_in op) vs w) /\
  (~ lets -> run = (Some (WriteHeader 401 no_reply), (vs, w))) /\
  forall then_ secs token, 10 ^ 9 <= then_ < 2 ^ 63 -> 0 <= secs * 10 ^ 9 < 2 ^ 63 ->
    SignJWT then_ (sc_SigningKey cfg) secs = Some token -> vr_Authorization (op_request op) = "Bearer " +:+ token ->
    has_token now (vr_Authorization (op_request op)) (sc_SigningKey cfg) <-> now < (then_ + secs * 10 ^ 9) / 10 ^ 9 * 10 ^ 9.
Proof.
  intros lets run. set (r := mkRequest remote "" (vr_Authorization (op_request op)) "" "").
  pose proof (Allowed_spec now r (needs_token op) cfg g) as Ha. cbn [r rq_RemoteAddr rq_Authorization] in Ha. fold lets r in Ha. split_and!.
  - intros Hl%Ha. unfold run. f_equal. unfold guarded, let_in. destruct op; cbn [needs_token op_request r] in *; unfold r in Hl; by rewrite Hl.
  - intros Hn. unfold run. apply denied_op. rewrite <- Ha in Hn. apply not_true_is_false in Hn. by destruct op.
  - intros t secs token Ht Hsecs Hs ->. unfold SignJWT in Hs. rewrite i64_small in Hs by lia. case_decide as Hk; [done|]. injection Hs as <-. unfold has_token.
    rewrite TrimPrefix_append. set (exp := (t + secs * 10 ^ 9) / 10 ^ 9).
    assert (0 < exp < 2 ^ 53) as He by (unfold exp; split; [apply Z.div_str_pos|apply Z.div_lt_upper_bound]; lia). split.
    + intros [_ Hp]. destruct (decide (now < exp * 10 ^ 9)); [done|]. by rewrite jwt_expires in Hp by (done || lia).
    + intros Hlt. split; [done|by apply jwt_accepts].
Qed.

(** *** An example *)

(** A token that says its key and its expiry. *)
Definition plain_text_exp (exp : Z) : string := str ((if decide (exp < 0) then "-"%char else "+"%char) :: FormatUint (Z.abs exp) 10).

Definition read_exp (s : string) : option Z :=
  match chars s with
  | c :: l => n ← parse_digits 10 l 0; Some (if decide (c = "-"%char) then - n else n)
  | [] => None
  end.

#[local] Instance plain_jwt : Jwt := {
  jwt_SignedString key exp := key +:+ plain_text_exp exp;
  jwt_Parse token key now :=
    HasPrefix token key && match read_exp (TrimPrefix token key) with Some exp => bool_decide (now < exp * 10 ^ 9) | None => false end;
}.

Lemma read_plain_exp exp : read_exp (plain_text_exp exp) = Some exp.
Proof.
  unfold read_exp, plain_text_exp. rewrite chars_str. rewrite format_parse by lia. cbn [mbind option_bind].
  destruct (decide (exp < 0)); [rewrite decide_True by done|rewrite decide_False by done]; f_equal; lia.
Qed.

#[local] Instance plain_jwt_laws : JwtLaws.
Proof.
  split; intros key exp now _ Hlt; cbn [jwt_Parse jwt_SignedString plain_jwt]; rewrite prefix_append, TrimPrefix_append, read_plain_exp; cbn [andb].
  - by apply bool_decide_eq_true.
  - apply bool_decide_eq_false. lia.
Qed.

Definition sample_cfg : SecurityConfig := mkSecurityConfig "192.168.0.0/24, 10.1.2.3" "k" "".

Definition sample_upload (auth : string) : http_op := HPut 1000 (mkVsRequest fid_a true "" auth "text/plain" None (mkStream [1; 2] None)).

Lemma volume_guarded_witness :
  let run remote auth := exec_http no_network (fun l => l) (guarded (ReloadSecurityConfig sample_cfg (NewGuard "" "" "")) (5 * 10 ^ 9) remote (sample_upload auth))
    (sample_vs "d" ∅ None) tt in
  (status_of <$> fst (run "192.168.0.77:4242" "Bearer k+10")) = Some 201 /\
  run "192.168.0.77:4242" "Bearer k+5" = (Some (WriteHeader 401 no_reply), (sample_vs "d" ∅ None, tt)) /\
  run "192.168.1.77:4242" "Bearer k+10" = (Some (WriteHeader 401 no_reply), (sample_vs "d" ∅ None, tt)).
Proof.
  intros run. split; [vm_compute; reflexivity|].
  split.
  - apply (volume_guarded no_network (fun l => l) sample_cfg (NewGuard "" "" "") (5 * 10 ^ 9) "192.168.0.77:4242" (sample_upload "Bearer k+5")).
    intros [_ Ht]. destruct (Ht eq_refl) as [_ Hv]; [discriminate|]. vm_compute in Hv. discriminate.
  - apply (volume_guarded no_network (fun l => l) sample_cfg (NewGuard "" "" "") (5 * 10 ^ 9) "192.168.1.77:4242" (sample_upload "Bearer k+10")).
    intros [Ha _]. apply (isIPAllowed_spec (sc_WhiteList sample_cfg) "192.168.1.77:4242" (ReloadSecurityConfig sample_cfg (NewGuard "" "" "")) eq_refl eq_refl) in Ha.
    vm_compute in Ha. discriminate.
Defined.

(** ** What the guards do not do *)

(** A white list none of whose entries can be read lets everyone in. *)
Theorem unreadable_list_admits cfg g now r :
  omap entry_net (ParseWhiteList (sc_WhiteList cfg)) = [] -> is_Some (ParseIP (remote_host (rq_RemoteAddr r))) ->
  Allowed now r false (ReloadSecurityConfig cfg g) = true.
Proof. intros Hn [ip Hip]. apply Allowed_spec. split; [|done]. exists ip. split; [done|by left]. Qed.

Example mistyped_list_admits : isIPAllowed "8.8.8.8:53" (NewGuard "10.0.0.0/33" "" "") = true.
Proof. vm_compute. reflexivity. Qed.

(** An IPv4 address written as a mapped one stands for all the addresses ::/32, and not for
    itself. *)
Example mapped_entry_admits :
  isIPAllowed "10.0.0.1:80" (NewGuard "::ffff:10.0.0.1" "" "") = false /\ isIPAllowed "[::1]:80" (NewGuard "::ffff:10.0.0.1" "" "") = true.
Proof. vm_compute. split; reflexivity. Qed.

(** The error of the decoding hides the path. *)
Example bad_escape_passes : ValidatePath "/../x" = Some ErrPathTraversalDetected /\ ValidatePath "/../x%zz" = None.
Proof. vm_compute. split; reflexivity. Qed.

(** A number that does not fit is not one. *)
Lemma volume_id_never_out_of_range vid : ValidateVolumeId vid <> Some ErrVolumeIdOutOfRange.
Proof.
  unfold ValidateVolumeId. destruct (ParseUint (chars (TrimSpace vid)) 10 32) as [u|] eqn:E; [|done].
  apply ParseUint_range in E; [|lia]. unfold in_u in E. rewrite decide_False by lia. done.
Qed.

(** Requests that name a new host each in their X-Forwarded-For header are never limited. *)
Theorem forwarded_never_limited (rs : list (Z * request)) (rl : RateLimiter) :
  NoDup (GetActualRemoteHost <$> (snd <$> rs)) -> (forall r, r ∈ snd <$> rs -> rl_limiters rl !! GetActualRemoteHost r = None) ->
  Forall (fun ok => ok = true) (limited_all rs rl).
Proof.
  revert rl. induction rs as [|[now r] rs IH]; intros rl Hnd Hnew; cbn [limited_all]; [constructor|]. cbn [fmap list_fmap] in *.
  apply NoDup_cons in Hnd as [Hr Hnd]. unfold limited, allow. rewrite (Hnew r) by (by left). constructor; [done|].
  apply IH; [done|]. intros r' Hin. assert (GetActualRemoteHost r <> GetActualRemoteHost r') as Hne.
  { intros E. apply Hr, list_elem_of_fmap. by exists r'. }
  assert (rl_limiters rl !! GetActualRemoteHost r' = None) as Hn by (apply Hnew; by right).
  case_decide; cbn [cleanupLocked set_limiters rl_limiters]; [|by rewrite lookup_insert_ne].
  apply map_lookup_filter_None. left. by rewrite lookup_insert_ne.
Qed.
