(* ===== verification/Shell.v ===== *)
(** * Shell: the volume commands of the administration shell

    Models [goblob/shell/topology_helpers.go], the addresses and paths of
    [goblob/shell/env.go], the splitting of command lines of [goblob/shell/shell.go] and the
    commands on volumes of [goblob/shell/command_maintenance.go] over a cluster of volume
    servers under their gRPC addresses.  [fate] tells what becomes of each call and [streams]
    what becomes of the stream of each copy; the answer of the master, the order in which a
    map is iterated and the reading and printing of floating-point numbers are arguments.
    The load limits of a rebalancing are computed in the rationals. *)

From Stdlib Require Import QArith.QArith_base QArith.Qround.
From stdpp Require Import sorting.
From S2P Require Import Prelude Bytes GoStrings Types OsFile Needle NeedleCodec Fs NeedleMap Volume DiskStore Lru Http VolumeServer VolumeGrpc.
From S2P Require Import GoPath GoText FilerStore TopoNode MasterServer.

#[local] Open Scope Z_scope.
#[local] Open Scope string_scope.

(** ** Command lines *)

Definition quote_char (c : ascii) : bool := bool_decide (code c = 34 \/ code c = 39).
Definition blank_char (c : ascii) : bool := bool_decide (code c = 32 \/ code c = 9 \/ code c = 10 \/ code c = 13).

Definition flush (out : list string) (current : list ascii) : list string :=
  if decide (current = []) then out else (out ++ [str current])%list.

Fixpoint split_loop (line : list ascii) (out : list string) (current : list ascii) (quote : option ascii) (escape : bool) : list string :=
  match line with
  | [] => flush out (if escape then current ++ ["\"%char] else current)%list
  | r :: line =>
      if escape then split_loop line out (current ++ [r])%list quote false else
      if decide (r = "\"%char) then split_loop line out current quote true else
      match quote with
      | Some q => if decide (r = q) then split_loop line out current None false else split_loop line out (current ++ [r])%list quote false
      | None =>
          if quote_char r then split_loop line out current (Some r) false else
          if blank_char r then split_loop line (flush out current) [] None false else
          split_loop line out (current ++ [r])%list None false
      end
  end.

Definition shellSplit (line : string) : list string := split_loop (chars line) [] [] None false.

(** ** Addresses and paths *)

Record ShellOption := mkShellOption { so_Masters : list string; so_FilerAddress : string; so_Directory : string }.

Definition normalizePath (p : string) : string :=
  if decide (TrimSpace p = "") then "/" else
  let cleaned := Clean ("/" +:+ p) in if decide (cleaned = ".") then "/" else cleaned.

Definition resolvePath (cwd input : string) : string :=
  let i := TrimSpace input in
  if decide (i = "") then normalizePath cwd else
  if HasPrefix i "/" then normalizePath i else normalizePath (Clean (normalizePath cwd +:+ "/" +:+ i)).

Definition address_of (to : string -> string) (addr : string) : string :=
  let addr := TrimSpace addr in if decide (addr = "") then "" else to addr.

Definition masterGRPCAddress (o : ShellOption) : string := match so_Masters o with [] => "" | m :: _ => address_of ToGrpcAddress m end.
Definition masterHTTPAddress (o : ShellOption) : string := match so_Masters o with [] => "" | m :: _ => address_of ToHttpAddress m end.
Definition filerGRPCAddress (o : ShellOption) : string := address_of ToGrpcAddress (so_FilerAddress o).

Definition inferHTTPAddress (addr : string) : string :=
  match SplitHostPort (TrimSpace addr) with
  | None => TrimSpace addr
  | Some (host, portStr) =>
      match Atoi portStr with
      | None => TrimSpace addr
      | Some port =>
          if decide (port <= 0) then TrimSpace addr else
          if decide (port > GRPCPortOffset) then JoinHostPort host (Itoa (port - GRPCPortOffset)) else JoinHostPort host portStr
      end
  end.

(** ** Snapshots of the topology *)

Record nodeSnapshot := mkNodeSnapshot {
  ns_grpcAddress : string;
  ns_publicURL : string;
  ns_volumes : gset Z;
  ns_free : Z;
}.

Record volumeSnapshot := mkVolumeSnapshot {
  vs_collection : string;
  vs_replication : string;
  vs_ttl : string;
  vs_diskType : string;
  vs_nodes : gset string;
}.

Record clusterSnapshot := mkSnapshot { sn_nodes : gmap string nodeSnapshot; sn_volumes : gmap Z volumeSnapshot }.

Definition add_volume (nodeID diskType : string) (snap : clusterSnapshot) (vol : VolumeInfo) : clusterSnapshot :=
  let vid := vi_Id vol in
  let nodes := alter (fun n => mkNodeSnapshot (ns_grpcAddress n) (ns_publicURL n) ({[vid]} ∪ ns_volumes n) (ns_free n)) nodeID (sn_nodes snap) in
  let v := match sn_volumes snap !! vid with
    | None => mkVolumeSnapshot (vi_Collection vol) (rp_String (ParseReplicaPlacement (u8 (vi_ReplicaPlacement vol)))) (vi_Ttl vol) diskType ∅
    | Some v => if decide (vs_diskType v = "") then mkVolumeSnapshot (vs_collection v) (vs_replication v) (vs_ttl v) diskType (vs_nodes v) else v
    end in
  mkSnapshot nodes (<[vid := mkVolumeSnapshot (vs_collection v) (vs_replication v) (vs_ttl v) (vs_diskType v) ({[nodeID]} ∪ vs_nodes v)]> (sn_volumes snap)).

Definition add_disk (nodeID : string) (snap : clusterSnapshot) (disk : string * pb_disk) : clusterSnapshot :=
  let nodes := alter (fun n => mkNodeSnapshot (ns_grpcAddress n) (ns_publicURL n) (ns_volumes n) (u64 (ns_free n + pd_FreeVolumeCount (snd disk))))
                 nodeID (sn_nodes snap) in
  fold_left (add_volume nodeID (fst disk)) (pd_VolumeInfos (snd disk)) (mkSnapshot nodes (sn_volumes snap)).

Definition add_node (snap : clusterSnapshot) (dn : string * pb_node) : clusterSnapshot :=
  let nodeID := if decide (fst dn = "") then pn_PublicUrl (snd dn) else fst dn in
  if decide (nodeID = "") then snap else
  let grpcAddr := TrimSpace (fst dn) in
  let grpcAddr := if decide (grpcAddr = "") then ToGrpcAddress (TrimSpace (pn_PublicUrl (snd dn))) else grpcAddr in
  let publicURL := TrimSpace (pn_PublicUrl (snd dn)) in
  let publicURL := if decide (publicURL = "") then inferHTTPAddress grpcAddr else publicURL in
  let node := match sn_nodes snap !! nodeID with
    | None => mkNodeSnapshot grpcAddr publicURL ∅ 0
    | Some n => mkNodeSnapshot (if decide (ns_grpcAddress n = "") then grpcAddr else ns_grpcAddress n)
                  (if decide (ns_publicURL n = "") then publicURL else ns_publicURL n) (ns_volumes n) (ns_free n)
    end in
  fold_left (add_disk nodeID) (pn_DiskInfos (snd dn)) (mkSnapshot (<[nodeID := node]> (sn_nodes snap)) (sn_volumes snap)).

(** The snapshot of what [VolumeList] of the master answers. *)
Definition snapshot_of (dcs : list (string * pb_data_center)) : clusterSnapshot :=
  fold_left add_node (concat (snd <$> concat (snd <$> dcs))) (mkSnapshot ∅ ∅).

Definition sortedVolumeIDs (vols : gset Z) : list Z := merge_sort Z.le (elements vols).

Definition nodeGRPCAddress (nodeID : string) (node : nodeSnapshot) : string :=
  if decide (ns_grpcAddress node <> "") then ns_grpcAddress node else
  if decide (ns_publicURL node <> "") then ToGrpcAddress (ns_publicURL node) else ToGrpcAddress nodeID.

(** The key, or else the first address in the order of the map that matches. *)
Definition find_node (order : gmap string nodeSnapshot -> list (string * nodeSnapshot)) (nodes : gmap string nodeSnapshot) (v : string)
  : option (string * nodeSnapshot) :=
  match nodes !! v with
  | Some node => Some (v, node)
  | None => snd <$> list_find (fun kn => v = ns_grpcAddress (snd kn) \/ v = ns_publicURL (snd kn)) (order nodes)
  end.

Fixpoint find_any (order : gmap string nodeSnapshot -> list (string * nodeSnapshot)) (nodes : gmap string nodeSnapshot) (candidates : list string)
  : option (string * nodeSnapshot) :=
  match candidates with
  | [] => None
  | c :: candidates =>
      if decide (c = "") then find_any order nodes candidates else
      match find_node order nodes c with Some kn => Some kn | None => find_any order nodes candidates end
  end.

Inductive shell_err :=
| ErrText (msg : string)
| ErrIn (what : string) (e : shell_err)
| ErrTransport
| ErrStatus (e : grpc_err)
| ErrResponse (e : resp_err).

Definition resolveNodeSnapshot (order : gmap string nodeSnapshot -> list (string * nodeSnapshot)) (snap : clusterSnapshot) (input : string)
  : outcome shell_err (string * nodeSnapshot) :=
  let v := TrimSpace input in
  if decide (v = "") then Fail (ErrText "empty node id") else
  match find_node order (sn_nodes snap) v with
  | Some kn => Ret kn
  | None =>
      match find_any order (sn_nodes snap) [ToGrpcAddress v; ToHttpAddress v; inferHTTPAddress v] with
      | Some kn => Ret kn
      | None => Fail (ErrText ("node " +:+ input +:+ " not found in topology"))
      end
  end.

(** ** Calls to volume servers *)

(** Volume servers under their addresses, and the number of calls made so far. *)
Record cluster := mkCluster { cl_servers : gmap string VolumeServer; cl_calls : nat }.

Inductive rpc_fate := Delivered | RequestLost | ReplyLost.

(** The stream of a copy: which messages of the target go out, whether the source tells the
    size of the volume, and after how many needles the stream of the source breaks off. *)
Record stream_fate := mkStreamFate { sf_send : nat -> bool; sf_status : bool; sf_items : option nat }.

Record plannedVolumeMove := mkMove {
  mv_vid : Z;
  mv_sourceID : string;
  mv_sourceGRPC : string;
  mv_targetID : string;
  mv_targetGRPC : string;
  mv_collection : string;
  mv_replication : string;
  mv_ttl : string;
  mv_diskType : string;
}.

Section calls.
Context (fate : nat -> rpc_fate) (streams : nat -> stream_fate) (order : gmap Z needleValue -> list (Z * needleValue)).

(** A server that panics is gone. *)
Definition rpc {A} (addr : string) (m : GoM VolumeServer grpc_err A) : GoM cluster shell_err A := fun c =>
  let n := cl_calls c in
  match cl_servers c !! addr, fate n with
  | None, _ | _, RequestLost => (Fail ErrTransport, mkCluster (cl_servers c) (S n))
  | Some vs, f =>
      let '(r, vs) := m vs in
      match r with
      | Panic => (Fail ErrTransport, mkCluster (delete addr (cl_servers c)) (S n))
      | Fail e => (Fail (match f with ReplyLost => ErrTransport | _ => ErrStatus e end), mkCluster (<[addr := vs]> (cl_servers c)) (S n))
      | Ret a => (match f with ReplyLost => Fail ErrTransport | _ => Ret a end, mkCluster (<[addr := vs]> (cl_servers c)) (S n))
      end
  end.

Definition response (m : GoM cluster shell_err (option resp_err)) : GoM cluster shell_err unit :=
  r ← m; match r with Some e => fail (ErrResponse e) | None => mret tt end.

Definition setVolumeReadonly (addr : string) (vid : Z) (readonly : bool) : GoM cluster shell_err unit :=
  response (rpc addr (VolumeMarkReadonly vid readonly)).

Definition deleteVolumeFromNode (addr : string) (vid : Z) : GoM cluster shell_err unit := response (rpc addr (VolumeDelete vid)).

(** What the source streams to the target: the items, and whether the stream breaks off. *)
Definition source_stream (f : stream_fate) (vid : Z) (source : option VolumeServer) : list needle_item * bool :=
  match source with
  | None => ([], true)
  | Some vs =>
      let '(items, r) := ReadAllNeedles (fun _ => true) order vid vs in
      let broken := match r with Ret _ => false | _ => true end in
      match sf_items f with Some k => (take k items, true) | None => (items, broken) end
  end.

Definition source_status (f : stream_fate) (vid : Z) (source : option VolumeServer) : option Z :=
  match source with
  | Some vs => if sf_status f then match VolumeStatus vid vs with Ret (inr (_, size)) => Some size | _ => None end else None
  | None => None
  end.

Definition copyVolumeReplica (move : plannedVolumeMove) : GoM cluster shell_err unit := fun c =>
  let f := streams (cl_calls c) in
  let source := cl_servers c !! mv_sourceGRPC move in
  let '(items, broken) := source_stream f (mv_vid move) source in
  let status := source_status f (mv_vid move) source in
  let '(r, c) := rpc (mv_targetGRPC move) (fun vs =>
    let '(r, vs, _) := VolumeCopy (sf_send f) status items broken (mv_vid move) (mv_collection move) (mv_sourceGRPC move) vs in (r, vs)) c in
  (match r with Fail (ErrStatus (AlreadyExists _)) => Ret tt | _ => r end, c).

(** An error is passed on with what was being done. *)
Definition context {S A} (what : string) (m : GoM S shell_err A) : GoM S shell_err A := fun s =>
  let '(r, s) := m s in (match r with Fail e => Fail (ErrIn what e) | _ => r end, s).

(** A deferred call that makes the source writable again unless it was deleted. *)
Definition restoring (move : plannedVolumeMove) (m : GoM cluster shell_err unit) : GoM cluster shell_err unit := fun c =>
  match m c with
  | (Ret _, c) => (Ret tt, c)
  | (r, c) => (r, snd (setVolumeReadonly (mv_sourceGRPC move) (mv_vid move) false c))
  end.

Definition executeVolumeMove (move : plannedVolumeMove) : GoM cluster shell_err unit :=
  if decide (mv_vid move = 0) then fail (ErrText "invalid volume id") else
  if decide (mv_sourceGRPC move = "" \/ mv_targetGRPC move = "") then fail (ErrText "source/target grpc address is required") else
  if decide (mv_sourceGRPC move = mv_targetGRPC move) then fail (ErrText "source and target are the same node") else
  context "mark source readonly" (setVolumeReadonly (mv_sourceGRPC move) (mv_vid move) true);;
  restoring move
    (context "copy to target failed" (copyVolumeReplica move);;
     context "delete source volume failed" (deleteVolumeFromNode (mv_sourceGRPC move) (mv_vid move))).

(** ** Commands *)

(** A value or an error. *)
Definition lift {S A} (r : outcome shell_err A) : GoM S shell_err A := fun s => (r, s).

(** The cluster and the lines written so far. *)
Abbreviation shellM := (GoM (cluster * list string) shell_err).

Definition on_cluster {A} (m : GoM cluster shell_err A) : shellM A := fun '(c, out) => let '(r, c) := m c in (r, (c, out)).
Definition println (line : string) : shellM unit := modify (fun '(c, out) => (c, (out ++ [line])%list)).

(** [strconv.ParseBool] *)
Definition ParseBool (s : string) : option bool :=
  if decide (s ∈ ["1"; "t"; "T"; "true"; "TRUE"; "True"]) then Some true else
  if decide (s ∈ ["0"; "f"; "F"; "false"; "FALSE"; "False"]) then Some false else None.

(** The value of a flag that is given as an argument. *)
Definition flag_value (name arg : string) : option string :=
  if HasPrefix arg (name +:+ "=") then Some (TrimPrefix arg (name +:+ "=")) else None.

Definition moved_line (verb : string) (m : plannedVolumeMove) : string :=
  verb +:+ " volume " +:+ Itoa (mv_vid m) +:+ " from " +:+ mv_sourceID m +:+ " to " +:+ mv_targetID m.

Definition planned (vid : Z) (vol : volumeSnapshot) (sourceID : string) (source : nodeSnapshot) (targetID : string) (target : nodeSnapshot)
  : plannedVolumeMove :=
  mkMove vid sourceID (nodeGRPCAddress sourceID source) targetID (nodeGRPCAddress targetID target)
    (vs_collection vol) (vs_replication vol) (vs_ttl vol) (vs_diskType vol).

(** *** volume.move *)

Record move_args := mkMoveArgs { ma_vid : Z; ma_from : string; ma_to : string; ma_dryRun : bool }.

Fixpoint parse_move (args : list string) (a : move_args) : outcome shell_err move_args :=
  match args with
  | [] => Ret a
  | arg :: args =>
      match flag_value "-vid" arg, flag_value "-from" arg, flag_value "-to" arg, flag_value "-dryRun" arg with
      | Some v, _, _, _ =>
          match ParseUint (chars v) 10 32 with
          | Some vid => parse_move args (mkMoveArgs vid (ma_from a) (ma_to a) (ma_dryRun a))
          | None => Fail (ErrText "invalid -vid")
          end
      | _, Some v, _, _ => parse_move args (mkMoveArgs (ma_vid a) (TrimSpace v) (ma_to a) (ma_dryRun a))
      | _, _, Some v, _ => parse_move args (mkMoveArgs (ma_vid a) (ma_from a) (TrimSpace v) (ma_dryRun a))
      | _, _, _, Some v =>
          match ParseBool v with
          | Some b => parse_move args (mkMoveArgs (ma_vid a) (ma_from a) (ma_to a) b)
          | None => Fail (ErrText "invalid -dryRun")
          end
      | _, _, _, _ => parse_move args a
      end
  end.

(** [snap] is the answer of the master, or the error of asking it; [args] has the command
    name in front. *)
Definition volumeMove_Do (norder : gmap string nodeSnapshot -> list (string * nodeSnapshot)) (snap : outcome shell_err clusterSnapshot)
    (args : list string) : shellM unit :=
  a ← lift (parse_move (drop 1 args) (mkMoveArgs 0 "" "" true));
  if decide (ma_vid a = 0 \/ ma_from a = "" \/ ma_to a = "")
  then fail (ErrText "usage: volume.move -vid=<id> -from=<node> -to=<node> [-dryRun=true]") else
  snap ← context "fetch topology" (lift snap);
  source ← lift (resolveNodeSnapshot norder snap (ma_from a));
  target ← lift (resolveNodeSnapshot norder snap (ma_to a));
  match sn_volumes snap !! ma_vid a with
  | None => fail (ErrText ("volume " +:+ Itoa (ma_vid a) +:+ " not found in topology"))
  | Some vol =>
      if decide (ma_vid a ∉ ns_volumes (snd source))
      then fail (ErrText ("volume " +:+ Itoa (ma_vid a) +:+ " is not hosted on source node " +:+ fst source)) else
      if decide (ma_vid a ∈ ns_volumes (snd target))
      then fail (ErrText ("volume " +:+ Itoa (ma_vid a) +:+ " already exists on target node " +:+ fst target)) else
      let move := planned (ma_vid a) vol (fst source) (snd source) (fst target) (snd target) in
      if ma_dryRun a then println (moved_line "would move" move) else
      on_cluster (executeVolumeMove move);;
      println (moved_line "moved" move)
  end.

(** *** volume.balance *)

Record balance_args := mkBalanceArgs { ba_dryRun : bool; ba_threshold : Q; ba_maxMoves : Z }.

Fixpoint parse_balance (parseFloat : string -> option Q) (args : list string) (a : balance_args) : outcome shell_err balance_args :=
  match args with
  | [] => Ret a
  | arg :: args =>
      match flag_value "-dryRun" arg, flag_value "-threshold" arg, flag_value "-maxMoves" arg with
      | Some v, _, _ =>
          match ParseBool v with
          | Some b => parse_balance parseFloat args (mkBalanceArgs b (ba_threshold a) (ba_maxMoves a))
          | None => Fail (ErrText "invalid -dryRun")
          end
      | _, Some v, _ =>
          match parseFloat v with
          | Some q => parse_balance parseFloat args (mkBalanceArgs (ba_dryRun a) q (ba_maxMoves a))
          | None => Fail (ErrText "invalid -threshold")
          end
      | _, _, Some v =>
          match Atoi v with
          | Some n => parse_balance parseFloat args (mkBalanceArgs (ba_dryRun a) (ba_threshold a) n)
          | None => Fail (ErrText "invalid -maxMoves")
          end
      | _, _, _ => parse_balance parseFloat args a
      end
  end.

(** The nodes with more volumes come first. *)
Definition load_le (x y : string * Z) : Prop := snd y <= snd x.

#[export] Instance load_le_dec : RelDecision load_le.
Proof. intros x y. unfold load_le. apply _. Defined.

(** The first volume of the source that the target does not have. *)
Definition movable (snap : clusterSnapshot) (dst : nodeSnapshot) (vids : list Z) : option (Z * volumeSnapshot) :=
  head (omap (fun vid => if decide (vid ∈ ns_volumes dst) then None else (fun vol => (vid, vol)) <$> sn_volumes snap !! vid) vids).

(** The inner loop, over the targets; the counts of the loads are copies, which the loop
    changes without effect on later iterations. *)
Fixpoint plan_source (snap : clusterSnapshot) (maxMoves low : Z) (srcID : string) (src : nodeSnapshot) (loads : list (string * Z))
    (moves : list plannedVolumeMove) : list plannedVolumeMove :=
  match loads with
  | [] => moves
  | (dstID, count) :: loads =>
      if decide (zlen moves >= maxMoves) then moves else
      if decide (dstID = srcID \/ count >= low) then plan_source snap maxMoves low srcID src loads moves else
      match sn_nodes snap !! dstID with
      | None => plan_source snap maxMoves low srcID src loads moves
      | Some dst =>
          let moves := match movable snap dst (sortedVolumeIDs (ns_volumes src)) with
            | Some (vid, vol) => (moves ++ [planned vid vol srcID src dstID dst])%list
            | None => moves
            end in
          plan_source snap maxMoves low srcID src loads moves
      end
  end.

Fixpoint plan_moves (snap : clusterSnapshot) (maxMoves high low : Z) (all loads : list (string * Z)) (moves : list plannedVolumeMove)
  : list plannedVolumeMove :=
  match loads with
  | [] => moves
  | (srcID, count) :: loads =>
      if decide (count <= high) then plan_moves snap maxMoves high low all loads moves else
      let moves := match sn_nodes snap !! srcID with
        | Some src => plan_source snap maxMoves low srcID src all moves
        | None => moves
        end in
      if decide (zlen moves >= maxMoves) then moves else plan_moves snap maxMoves high low all loads moves
  end.

Definition balance_plan (norder : gmap string nodeSnapshot -> list (string * nodeSnapshot)) (snap : clusterSnapshot) (threshold : Q) (maxMoves : Z)
  : list plannedVolumeMove :=
  let counts := (fun kn => (fst kn, Z.of_nat (base.size (ns_volumes (snd kn))))) <$> norder (sn_nodes snap) in
  let loads := merge_sort load_le counts in
  let total := foldr Z.add 0 (snd <$> loads) in
  let avg := (total # Z.to_pos (zlen loads))%Q in
  plan_moves snap maxMoves (Qceiling (avg * (1 + threshold))) (Qfloor (avg * (1 - threshold))) loads loads [].

Fixpoint run_moves (dryRun : bool) (moves : list plannedVolumeMove) : shellM unit :=
  match moves with
  | [] => mret tt
  | m :: moves =>
      (if dryRun then println (moved_line "would move" m)
       else on_cluster (executeVolumeMove m);; println (moved_line "moved" m));;
      run_moves dryRun moves
  end.

Definition volumeBalance_Do (norder : gmap string nodeSnapshot -> list (string * nodeSnapshot)) (parseFloat : string -> option Q)
    (snap : outcome shell_err clusterSnapshot) (args : list string) : shellM unit :=
  a ← lift (parse_balance parseFloat (drop 1 args) (mkBalanceArgs true (1 # 5) 5));
  let maxMoves := if decide (ba_maxMoves a <= 0) then 1 else ba_maxMoves a in
  snap ← context "fetch topology" (lift snap);
  if decide (Z.of_nat (base.size (sn_nodes snap)) <= 1) then println "volume.balance: not enough nodes to balance" else
  match balance_plan norder snap (ba_threshold a) maxMoves with
  | [] => println "volume.balance: cluster already balanced"
  | moves => run_moves (ba_dryRun a) moves
  end.

(** *** volume.fix.replication *)

(** More free slots first, then the id. *)
Definition target_le (nodes : gmap string nodeSnapshot) (x y : string) : Prop :=
  let fx := default 0 (ns_free <$> nodes !! x) in
  let fy := default 0 (ns_free <$> nodes !! y) in
  fy < fx \/ (fx = fy /\ String.le x y).

#[export] Instance target_le_dec nodes : RelDecision (target_le nodes).
Proof. intros x y. unfold target_le. apply _. Defined.

Definition pickSourceNodeID (vol : volumeSnapshot) (snap : clusterSnapshot) : string :=
  default "" (head (merge_sort (target_le (sn_nodes snap)) (elements (filter (fun id => is_Some (sn_nodes snap !! id)) (vs_nodes vol))))).

Definition candidateTargetNodeIDs (snap : clusterSnapshot) (vol : volumeSnapshot) : list string :=
  merge_sort (target_le (sn_nodes snap))
    (fst <$> map_to_list (filter (fun kn => ns_free (snd kn) <> 0 /\ fst kn ∉ vs_nodes vol) (sn_nodes snap))).

(** The snapshot after a replica was made. *)
Definition add_replica (vid : Z) (targetID : string) (snap : clusterSnapshot) : clusterSnapshot :=
  mkSnapshot
    (alter (fun n => if decide (ns_free n > 0) then mkNodeSnapshot (ns_grpcAddress n) (ns_publicURL n) (ns_volumes n) (ns_free n - 1) else n)
       targetID (sn_nodes snap))
    (alter (fun v => mkVolumeSnapshot (vs_collection v) (vs_replication v) (vs_ttl v) (vs_diskType v) ({[targetID]} ∪ vs_nodes v)) vid (sn_volumes snap)).

Fixpoint replicate_to (moves : list plannedVolumeMove) (snap : clusterSnapshot) (repairs : Z) : shellM (clusterSnapshot * Z) :=
  match moves with
  | [] => mret (snap, repairs)
  | m :: moves => fun '(c, out) =>
      match copyVolumeReplica m c with
      | (Ret _, c) =>
          replicate_to moves (add_replica (mv_vid m) (mv_targetID m) snap) (repairs + 1) (c, (out ++ [moved_line "replicated" m])%list)
      | (Fail e, c) =>
          (Fail (ErrIn ("replicate volume " +:+ Itoa (mv_vid m) +:+ " to " +:+ mv_targetID m +:+ " failed") e),
           (snd (setVolumeReadonly (mv_sourceGRPC m) (mv_vid m) false c), out))
      | (Panic, c) => (Panic, (c, out))
      end
  end.

Definition repair_moves (snap : clusterSnapshot) (vid : Z) (vol : volumeSnapshot) (sourceID : string) (source : nodeSnapshot)
    (targets : list string) : list plannedVolumeMove :=
  omap (fun targetID => (fun target => planned vid vol sourceID source targetID target) <$> sn_nodes snap !! targetID) targets.

(** The loop over the volumes, with the numbers of issues and repairs. *)
Fixpoint repair_volumes (dryRun : bool) (vids : list Z) (snap : clusterSnapshot) (issues repairs : Z) : shellM (Z * Z) :=
  match vids with
  | [] => mret (issues, repairs)
  | vid :: vids =>
      match sn_volumes snap !! vid with
      | None => repair_volumes dryRun vids snap issues repairs
      | Some vol =>
          let replication := if decide (vs_replication vol = "") then "000" else vs_replication vol in
          let expected := TotalCopies (ParseReplicaPlacementString replication) in
          let actual := Z.of_nat (base.size (vs_nodes vol)) in
          if decide (actual >= expected) then repair_volumes dryRun vids snap issues repairs else
          println ("under-replicated volume " +:+ Itoa vid +:+ ": have=" +:+ Itoa actual +:+ " expected=" +:+ Itoa expected +:+ " replication=" +:+ replication);;
          let sourceID := pickSourceNodeID vol snap in
          match sn_nodes snap !! sourceID with
          | None => fail (ErrText ("volume " +:+ Itoa vid +:+ " has no valid source replica"))
          | Some source =>
              let sourceGRPC := nodeGRPCAddress sourceID source in
              let candidates := candidateTargetNodeIDs snap vol in
              let missing := expected - actual in
              when (bool_decide (zlen candidates < missing))
                (println ("volume " +:+ Itoa vid +:+ ": only " +:+ Itoa (zlen candidates) +:+ " candidate targets for " +:+ Itoa missing +:+ " missing replicas"));;
              let missing := Z.min missing (zlen candidates) in
              if decide (missing <= 0) then repair_volumes dryRun vids snap (issues + 1) repairs else
              let moves := repair_moves snap vid vol sourceID source (take (Z.to_nat missing) candidates) in
              if dryRun then
                modify (fun '(c, out) => (c, (out ++ (moved_line "would replicate" <$> moves))%list));;
                repair_volumes dryRun vids snap (issues + 1) repairs
              else
                on_cluster (context ("mark source readonly for volume " +:+ Itoa vid) (setVolumeReadonly sourceGRPC vid true));;
                sr ← replicate_to moves snap repairs;
                on_cluster (context ("restore writable on source for volume " +:+ Itoa vid) (setVolumeReadonly sourceGRPC vid false));;
                repair_volumes dryRun vids (fst sr) (issues + 1) (snd sr)
          end
      end
  end.

Fixpoint parse_dryRun (args : list string) (dryRun : bool) : outcome shell_err bool :=
  match args with
  | [] => Ret dryRun
  | arg :: args =>
      match flag_value "-dryRun" arg with
      | None => parse_dryRun args dryRun
      | Some v => match ParseBool v with Some b => parse_dryRun args b | None => Fail (ErrText "invalid -dryRun") end
      end
  end.

Definition volumeFixReplication_Do (snap : outcome shell_err clusterSnapshot) (args : list string) : shellM unit :=
  dryRun ← lift (parse_dryRun (drop 1 args) true);
  snap ← context "fetch topology" (lift snap);
  n ← repair_volumes dryRun (sortedVolumeIDs (dom (sn_volumes snap))) snap 0 0;
  if decide (fst n = 0) then println "volume.fix.replication: no issues found" else
  when (negb dryRun) (println ("volume.fix.replication repaired=" +:+ Itoa (snd n))).
End calls.
