(* ===== verification/ShellSpec.v ===== *)
(** * ShellSpec: a volume is moved without loss

    What the moves of [Shell] do to the blobs of a cluster, over any loss of calls and of
    streams. *)

From stdpp Require Import sorting.
From S2P Require Import Prelude Bytes GoStrings Types OsFile Needle NeedleCodec SuperBlock Fs NeedleMap Volume VolumeSpec.
From S2P Require Import VolumeCompact DiskStore StoreSpec Lru Http VolumeServer VolumeServerSpec VolumeGrpc VolumeCopySpec.
From S2P Require Import GoPath Shell.

#[local] Open Scope Z_scope.

(** ** Stores with a frozen volume *)

(** The volume [vid] may be read-only; all others accept writes. *)
Definition store_held (vid : Z) (spec : needle_maps) (s : Store) : Prop :=
  fs_limit (s_fs s) <= 8 * 2 ^ 32 /\
  forall id, match s_GetVolume id s with
             | None => spec !! id = None
             | Some v => exists m, spec !! id = Some m /\ v_id v = id /\ (id <> vid -> v_ReadOnly v = false) /\
                 v_noWriteOrDelete v = false /\ v_version v = CurrentNeedleVersion /\ vol_live m v (s_fs s)
             end.

Lemma rep_held vid spec s : store_rep spec s -> store_held vid spec s.
Proof.
  intros [Hl Hr]. split; [done|]. intros id. specialize (Hr id). destruct (s_GetVolume id s) as [v|]; [|done].
  destruct Hr as (m & Hm & Hid & Hro & Hnw & Hver & Hes). exists m. by split_and!.
Qed.

Lemma held_rep vid spec s :
  store_held vid spec s -> (forall v, s_GetVolume vid s = Some v -> v_ReadOnly v = false) -> store_rep spec s.
Proof.
  intros [Hl Hr] Hv. split; [done|]. intros id. specialize (Hr id). destruct (s_GetVolume id s) as [v|] eqn:E; [|done].
  destruct Hr as (m & Hm & Hid & Hro & Hnw & Hver & Hes). exists m. split; [done|]. split_and!; [done| |done..].
  destruct (decide (id = vid)) as [->|Hne]; [by apply Hv|by apply Hro].
Qed.

(** The volume is in one location. *)
Definition once (vid : Z) (locs : list DiskLocation) : Prop :=
  forall i v j dl, locate vid locs = Some (i, v) -> j <> i -> locs !! j = Some dl -> dl_volumes dl !! vid = None.

(** A server that shows the blobs [b]: those of [vid] may be frozen. *)
Definition shows (vid : Z) (b : blobs) (vs : VolumeServer) : Prop :=
  0 <= vo_FileSizeLimitMB (vs_option vs) <= 4095 /\
  exists s spec, vs_store vs = Some s /\ store_held vid spec s /\ blobs_rep b spec /\ once vid (s_Locations s).

(** ** Freezing *)

Lemma on_volume_readonly vid ro s :
  on_volume vid (modify (fun '(v, fs) => (set_ReadOnly ro v, fs))) s =
  match locate vid (s_Locations s) with
  | None => (Fail ErrVolumeNotFound, s)
  | Some (i, v) => (Ret tt, mkStore (alter (fun dl => set_volumes (<[vid := set_ReadOnly ro v]> (dl_volumes dl)) dl) i (s_Locations s)) (s_fs s))
  end.
Proof. unfold on_volume. by destruct (locate vid (s_Locations s)) as [[i v]|]. Qed.

(** A call that marks the volume keeps what the server shows; when it makes the volume
    writable, the server serves again. *)
Lemma mark_shows vid ro b vs :
  shows vid b vs ->
  let '(r, vs') := VolumeMarkReadonly vid ro vs in
  shows vid b vs' /\ r <> Panic /\ (r = Ret None -> ro = false -> serves b vs') /\
  forall s, vs_store vs = Some s -> is_Some (s_GetVolume vid s) ->
    r = Ret None /\ exists s', vs_store vs' = Some s' /\ is_Some (s_GetVolume vid s').
Proof.
  intros (Hmb & s & spec & Hs & Hh & Hb & Ho). unfold VolumeMarkReadonly, on_found, with_store. rewrite Hs.
  destruct (s_GetVolume vid s) as [v|] eqn:Ev.
  2: { cbn. split_and!; [|done|done|intros s0 [= <-]; rewrite Ev; by intros []]. split; [done|]. by exists s, spec. }
  unfold s_GetVolume in Ev. destruct (locate vid (s_Locations s)) as [[i v']|] eqn:El; [|done]. injection Ev as ->.
  rewrite on_volume_readonly, El. cbn [set_store]. set (locs := alter _ _ _).
  assert (forall id, locate id locs = if decide (id = vid) then Some (i, set_ReadOnly ro v) else locate id (s_Locations s)) as Hloc
    by (intros id; by eapply locate_alter).
  assert (store_held vid spec (mkStore locs (s_fs s))) as Hh'.
  { destruct Hh as [Hlim Hh]. split; [done|]. intros id. specialize (Hh id). unfold s_GetVolume in *. cbn [s_Locations s_fs]. rewrite Hloc.
    destruct (decide (id = vid)) as [->|Hne]; [|exact Hh]. rewrite El in Hh. cbn in *.
    destruct Hh as (m & Hm & Hid & Hro & Hnw & Hver & Hes). exists m. split_and!; done. }
  assert (once vid locs) as Ho'.
  { intros i' w j dl. rewrite Hloc, decide_True by done. intros [= <- <-] Hj. unfold locs. rewrite list_lookup_alter_ne by done.
    by apply (Ho i v). }
  split_and!.
  - split; [done|]. by exists (mkStore locs (s_fs s)), spec.
  - done.
  - intros _ ->. split; [done|]. exists (mkStore locs (s_fs s)), spec. split_and!; try done. apply (held_rep vid); [done|].
    intros w. unfold s_GetVolume. cbn [s_Locations]. rewrite Hloc, decide_True by done. by intros [= <-].
  - intros s0 _ _. split; [done|]. eexists. split; [done|]. unfold s_GetVolume. cbn [s_Locations]. rewrite Hloc, decide_True by done. by eexists.
Qed.

(** ** Deleting *)

Lemma locate_none_all vid locs : locate vid locs = None <-> Forall (fun dl => dl_volumes dl !! vid = None) locs.
Proof.
  induction locs as [|dl locs IH]; [by split|]. cbn [locate]. unfold dl_GetVolume. rewrite Forall_cons, <- IH.
  destruct (dl_volumes dl !! vid), (locate vid locs) as [[]|]; cbn; naive_solver.
Qed.

Lemma DeleteVolume_run vid dl fs :
  exists dl' fs', (DeleteVolume vid (dl, fs) = (Fail ErrLocReadOnly, (dl, fs))) \/
    (DeleteVolume vid (dl, fs) = (Ret tt, (dl', fs')) /\ dl_volumes dl' = delete vid (dl_volumes dl) /\ fs_limit fs' = fs_limit fs /\
     forall p, p.1.2 <> vid -> fs_files fs' !! p = fs_files fs !! p).
Proof.
  unfold DeleteVolume. rewrite bind_get. cbn [fst]. destruct (dl_isReadOnly dl) eqn:Ero.
  { exists dl, fs. left. done. }
  assert (forall p dl fs, p.1.2 = vid -> exists fs', loc_remove p (dl, fs) = (Ret tt, (dl, fs')) /\ fs_limit fs' = fs_limit fs /\
    forall q : path, q.1.2 <> vid -> fs_files fs' !! q = fs_files fs !! q) as Hrm.
  { intros p dl0 fs0 Hp. unfold loc_remove, fs_Remove. destruct (fs_files fs0 !! p) eqn:E; [|by exists fs0].
    eexists. split; [done|]. split; [done|]. intros q Hq. cbn. rewrite lookup_delete_ne; [done|]. congruence. }
  destruct (Hrm (GetVolumePath vid dl) (set_volumes (delete vid (dl_volumes dl)) dl) fs eq_refl) as (fs1 & E1 & L1 & F1).
  destruct (Hrm (GetIndexPath vid dl) (set_volumes (delete vid (dl_volumes dl)) dl) fs1 eq_refl) as (fs2 & E2 & L2 & F2).
  eexists (calculateUsedSize fs2 (set_volumes (delete vid (dl_volumes dl)) dl)), fs2. right. unfold fail_if. cbn [bool_decide].
  split; [|split_and!; [done|congruence|intros p Hp; by rewrite F2, F1]].
  rewrite bind_ret, bind_modify. erewrite bind_run by exact E1. erewrite bind_run by exact E2. done.
Qed.

Lemma deleteVolume_spec vid locs fs i v :
  locate vid locs = Some (i, v) -> once vid locs ->
  let '(r, (locs', fs')) := deleteVolume_in vid locs fs in
  (r = Fail ErrLocReadOnly /\ locs' = locs /\ fs' = fs) \/
  (r = Ret tt /\ fs_limit fs' = fs_limit fs /\ (forall p, p.1.2 <> vid -> fs_files fs' !! p = fs_files fs !! p) /\
   forall id, snd <$> locate id locs' = if decide (id = vid) then None else snd <$> locate id locs).
Proof.
  revert i. induction locs as [|dl locs IH]; intros i El Ho; [done|]. cbn [deleteVolume_in locate] in *. unfold dl_GetVolume in *.
  destruct (dl_volumes dl !! vid) as [w|] eqn:Ev.
  - injection El as <- <-. destruct (DeleteVolume_run vid dl fs) as (dl' & fs' & [E|(E & Hv & Hl & Hf)]); rewrite E; [by left|]. right.
    split_and!; [done..|]. intros id. cbn [locate]. unfold dl_GetVolume. rewrite Hv, lookup_delete. case_decide as Hid.
    + subst. rewrite decide_True by done. assert (locate id locs = None) as ->; [|done]. apply locate_none_all. apply list.Forall_forall.
      intros x [j Hj]%list_elem_of_lookup. apply (Ho 0%nat w (S j) x); [|done|done]. cbn. unfold dl_GetVolume. by rewrite Ev.
    + by rewrite decide_False.
  - destruct (locate vid locs) as [[j w]|] eqn:Ej; [|done]. injection El as <- <-. specialize (IH j eq_refl).
    destruct (deleteVolume_in vid locs fs) as [r [locs' fs']].
    destruct IH as [(-> & -> & ->)|(-> & Hl & Hf & Hloc)].
    { intros i' w' j' dl' E Hne Hj'. rewrite Ej in E; injection E as <- <-. apply (Ho (S j) w (S j')); [|congruence|done]. cbn. unfold dl_GetVolume. by rewrite Ev, Ej. }
    { by left. }
    right. split_and!; [done..|]. intros id. specialize (Hloc id). cbn [locate]. unfold dl_GetVolume. destruct (dl_volumes dl !! id) eqn:Ed.
    + by rewrite decide_False by congruence.
    + revert Hloc. case_decide; destruct (locate id locs') as [[]|], (locate id locs) as [[]|]; cbn; done || congruence.
Qed.

(** The blobs of a server without those of one volume. *)
Definition drop_volume (vid : Z) (b : blobs) : blobs := filter (fun kv => fst (fst kv) <> vid) b.

Lemma blobs_rep_drop vid b spec : blobs_rep b spec -> blobs_rep (drop_volume vid b) (delete vid spec).
Proof.
  intros Hb v i. unfold drop_volume. rewrite lookup_delete. case_decide as E.
  - subst. apply map_lookup_filter_None. right. intros x _. cbn. tauto.
  - rewrite <- Hb. destruct (b !! (v, i)) eqn:Eb; [apply map_lookup_filter_Some; by split; [|cbn; congruence]|apply map_lookup_filter_None; by left].
Qed.

Lemma delete_shows vid b vs s :
  shows vid b vs -> vs_store vs = Some s -> is_Some (s_GetVolume vid s) ->
  let '(r, vs') := VolumeDelete vid vs in
  (r = Ret None /\ serves (drop_volume vid b) vs') \/ ((exists e, r = Ret (Some e)) /\ shows vid b vs').
Proof.
  intros (Hmb & s0 & spec & Hs & [Hlim Hh] & Hb & Ho) Hs0 [v Hv]. rewrite Hs in Hs0. injection Hs0 as ->.
  unfold VolumeDelete, with_store. rewrite Hs. unfold deleteVolume.
  unfold s_GetVolume in Hv. destruct (locate vid (s_Locations s)) as [[i w]|] eqn:El; [|done].
  pose proof (deleteVolume_spec vid (s_Locations s) (s_fs s) i w El Ho) as H.
  destruct (deleteVolume_in vid (s_Locations s) (s_fs s)) as [r [locs fs]].
  destruct H as [(-> & -> & ->)|(-> & Hlf & Hf & Hloc)]; cbn [respond].
  - right. split; [by eexists|]. split; [done|]. exists (mkStore (s_Locations s) (s_fs s)), spec. by split_and!.
  - left. split; [done|]. split; [done|]. exists (mkStore locs fs), (delete vid spec). split; [done|]. split; [|by apply blobs_rep_drop].
    split; [cbn; lia|]. intros id. unfold s_GetVolume. cbn [s_Locations s_fs]. rewrite Hloc, lookup_delete. specialize (Hh id). unfold s_GetVolume in Hh.
    destruct (decide (id = vid)) as [->|Hne]; [by rewrite decide_True|]. rewrite decide_False by done.
    destruct (locate id (s_Locations s)) as [[j x]|]; [|done]. cbn in *. destruct Hh as (m & Hm & Hid & Hro & Hnw & Hver & Hes).
    exists m. split; [done|]. split_and!; try done; [by apply Hro|].
    eapply vol_live_frame; [exact Hes|done|apply Hf]; cbn; congruence.
Qed.

(** ** Calls *)

Lemma rpc_spec {A} fate addr (m : GoM VolumeServer grpc_err A) c vs :
  cl_servers c !! addr = Some vs ->
  let '(r, c') := rpc fate addr m c in
  r <> Panic /\ (forall a, a <> addr -> cl_servers c' !! a = cl_servers c !! a) /\
  (forall x, r = Ret x -> m vs = (Ret x, snd (m vs)) /\ cl_servers c' !! addr = Some (snd (m vs))) /\
  (forall e, r = Fail (ErrStatus e) -> fst (m vs) = Fail e) /\
  (fst (m vs) <> Panic -> cl_servers c' !! addr = Some vs \/ cl_servers c' !! addr = Some (snd (m vs))).
Proof.
  intros Hvs. unfold rpc. rewrite Hvs. destruct (m vs) as [r vs'] eqn:Em. cbn [fst snd].
  destruct (fate (cl_calls c)); [destruct r as [x|e|]|by split_and!; [..|left]|destruct r as [x|e|]]; cbn [cl_servers];
    split_and!; try done; try (intros a Ha; by rewrite ?lookup_insert_ne, ?lookup_delete_ne by done);
    try (by rewrite lookup_insert_eq; auto); try (intros ? [= <-]; by rewrite ?lookup_insert_eq).
Qed.

Definition has_volume (vid : Z) (vs : VolumeServer) : Prop := exists s, vs_store vs = Some s /\ is_Some (s_GetVolume vid s).

(** A server that shows its blobs and has the volume. *)
Definition holds (vid : Z) (b : blobs) (vs : VolumeServer) : Prop := shows vid b vs /\ has_volume vid vs.

Lemma readonly_holds fate addr vid ro b c vs :
  cl_servers c !! addr = Some vs -> holds vid b vs ->
  let '(r, c') := setVolumeReadonly fate addr vid ro c in
  r <> Panic /\ (forall a, a <> addr -> cl_servers c' !! a = cl_servers c !! a) /\
  exists vs', cl_servers c' !! addr = Some vs' /\ holds vid b vs'.
Proof.
  intros Hvs [Hsh (s & Hs & Hv)]. unfold setVolumeReadonly, response.
  pose proof (rpc_spec fate addr (VolumeMarkReadonly vid ro) c vs Hvs) as H. pose proof (mark_shows vid ro b vs Hsh) as Hm.
  destruct (VolumeMarkReadonly vid ro vs) as [r vs'] eqn:Em. destruct Hm as (Hsh' & Hp & _ & Hst). destruct (Hst s Hs Hv) as [-> Hv'].
  unfold mbind, GoM_bind. destruct (rpc fate addr _ c) as [r' c']. destruct H as (Hp' & Ha & _ & _ & Hor). cbn in Hor.
  assert (exists vs', cl_servers c' !! addr = Some vs' /\ holds vid b vs') as Hex.
  { destruct (Hor ltac:(done)) as [E|E]; rewrite E; eexists; (split; [done|]); (split; [done|]); [by exists s|done]. }
  by destruct r' as [[e|]|e|].
Qed.

(** ** Copies *)

Lemma copy_items_broken send vid total items c : fst (copy_items send vid total items true c) <> Ret tt.
Proof. revert c. induction items as [|i items IH]; intros c; [done|]. cbn [copy_items]. destruct (copy_item _ _ _ _ _) as [[[]|e|] c']; [apply IH|done..]. Qed.

Lemma VolumeCopy_broken send status items vid collection source vs :
  fst (fst (VolumeCopy send status items true vid collection source vs)) <> Ret tt.
Proof.
  unfold VolumeCopy. destruct (vs_store vs) as [s|]; [|done]. case_decide; [done|]. destruct (s_GetVolume vid s); [done|].
  destruct (AllocateVolume _ _ _ s) as [[] s1]; [|done..]. unfold copy_from. destruct (negb (send 0%nat)); [done|].
  match goal with |- context [copy_items ?a ?b ?c ?d true ?e] => pose proof (copy_items_broken a b c d e) as Hbr; destruct (copy_items a b c d true e) as [r c'] end.
  cbn in Hbr. by destruct r as [[]|e|].
Qed.

Lemma VolumeCopy_exists send status items broken vid vid' collection source vs s :
  vs_store vs = Some s -> fst (fst (VolumeCopy send status items broken vid collection source vs)) = Fail (AlreadyExists vid') ->
  is_Some (s_GetVolume vid s).
Proof.
  intros Hs. unfold VolumeCopy. rewrite Hs. case_decide; [done|]. destruct (s_GetVolume vid s); [by eexists|].
  destruct (AllocateVolume _ _ _ s) as [[] s1]; [|done..]. unfold copy_from. destruct (negb (send 0%nat)); [done|].
  destruct (copy_items _ _ _ _ _ _) as [[[]|e|] c']; [destruct (send _)|..]; done.
Qed.

Lemma copy_serves fate streams order move c b b' src tgt s' :
  map_order order -> mv_vid move <> 0 -> mv_sourceGRPC move <> ""%string ->
  cl_servers c !! mv_sourceGRPC move = Some src -> holds (mv_vid move) b src ->
  cl_servers c !! mv_targetGRPC move = Some tgt -> serves b' tgt ->
  vs_store tgt = Some s' -> s_GetVolume (mv_vid move) s' = None -> no_files (mv_vid move) s' ->
  let '(r, c') := copyVolumeReplica fate streams order move c in
  r <> Panic /\ (forall a, a <> mv_targetGRPC move -> cl_servers c' !! a = cl_servers c !! a) /\
  (r = Ret tt -> exists tgt', cl_servers c' !! mv_targetGRPC move = Some tgt' /\ serves (copy_blobs (mv_vid move) b b') tgt').
Proof.
  intros Ho Hvid Hne Hsrc [(_ & s & spec & Hs & [_ Hh] & Hb & _) (s0 & Hs0 & [v Hv])] Htgt Hst Hs' Hnone Hnf.
  rewrite Hs in Hs0. injection Hs0 as <-. specialize (Hh (mv_vid move)). rewrite Hv in Hh. destruct Hh as (m & Hm & _ & _ & _ & _ & Hvr).
  unfold copyVolumeReplica. set (f := streams (cl_calls c)). set (status := source_status _ _ _).
  destruct (volume_copied order (sf_send f) status (mv_vid move) (mv_collection move) (mv_sourceGRPC move) b b' spec m v (s_fs s) tgt s')
    as (items & Hit & Hnd & Hids & Hcopy); [done..|].
  assert (source_stream order f (mv_vid move) (cl_servers c !! mv_sourceGRPC move) = (items, false) \/
          exists l, source_stream order f (mv_vid move) (cl_servers c !! mv_sourceGRPC move) = (l, true)) as Hss.
  { rewrite Hsrc. unfold source_stream, ReadAllNeedles. rewrite Hs, Hv, Hit. destruct (sf_items f); [right; by eexists|by left]. }
  destruct (source_stream _ _ _ _) as [l broken]. set (call := fun vs : VolumeServer => _).
  pose proof (rpc_spec fate (mv_targetGRPC move) call c tgt Htgt) as H.
  destruct (rpc fate (mv_targetGRPC move) call c) as [r c']. destruct H as (Hp & Ha & Hret & Hst' & _).
  assert (r = Ret tt -> exists tgt', cl_servers c' !! mv_targetGRPC move = Some tgt' /\ serves (copy_blobs (mv_vid move) b b') tgt') as Hok.
  { intros ->. destruct (Hret tt eq_refl) as [Ec Et]. rewrite Et. unfold call in *. destruct Hss as [[= -> ->]|[l' [= -> ->]]].
    - destruct (VolumeCopy _ _ items false _ _ _ tgt) as [[r vs'] msgs]. injection Ec as ->. cbn. eexists. split; [done|]. by apply Hcopy.
    - exfalso. eapply (VolumeCopy_broken (sf_send f) status l' (mv_vid move) (mv_collection move) (mv_sourceGRPC move) tgt).
      destruct (VolumeCopy _ _ l' true _ _ _ tgt) as [[r vs'] msgs]. by injection Ec as ->. }
  destruct r as [[]|e|]; [by split_and!| |done]. destruct e as [msg|w e| |e|e]; try by split_and!. destruct e; try by split_and!.
  exfalso. specialize (Hst' _ eq_refl). unfold call in Hst'.
  destruct (VolumeCopy_exists (sf_send f) status l broken (mv_vid move) vid (mv_collection move) (mv_sourceGRPC move) tgt s' Hs') as [x Hx]; [|congruence].
  by destruct (VolumeCopy _ _ l broken _ _ _ tgt) as [[r vs'] msgs].
Qed.

(** ** Moves *)

Lemma delete_volume_call fate addr vid b c vs :
  cl_servers c !! addr = Some vs -> holds vid b vs ->
  let '(r, c') := deleteVolumeFromNode fate addr vid c in
  r <> Panic /\ (forall a, a <> addr -> cl_servers c' !! a = cl_servers c !! a) /\
  (r = Ret tt -> exists vs', cl_servers c' !! addr = Some vs' /\ serves (drop_volume vid b) vs').
Proof.
  intros Hvs [Hsh (s & Hs & Hv)]. unfold deleteVolumeFromNode, response.
  pose proof (rpc_spec fate addr (VolumeDelete vid) c vs Hvs) as H. pose proof (delete_shows vid b vs s Hsh Hs Hv) as Hd.
  destruct (VolumeDelete vid vs) as [r vs'] eqn:Em. unfold mbind, GoM_bind. destruct (rpc fate addr _ c) as [r' c']. destruct H as (Hp & Ha & Hret & _).
  destruct r' as [[e|]|e|]; [by split_and!| |by split_and!|done]. split_and!; [done..|]. intros _. destruct (Hret None eq_refl) as [[= ->] Ec]. exists vs'.
  split; [done|]. by destruct Hd as [[_ Hd]|[[e He] _]].
Qed.

Lemma serves_shows vid b vs s :
  serves b vs -> vs_store vs = Some s -> once vid (s_Locations s) -> shows vid b vs.
Proof.
  intros (Hmb & s0 & spec & Hs & Hrep & Hb) Hs0 Ho. rewrite Hs in Hs0. injection Hs0 as ->. split; [done|]. exists s, spec.
  split_and!; try done. by apply rep_held.
Qed.

Lemma setVolumeReadonly_others fate addr vid ro c :
  forall a, a <> addr -> cl_servers (snd (setVolumeReadonly fate addr vid ro c)) !! a = cl_servers c !! a.
Proof.
  intros a Ha. unfold setVolumeReadonly, response, mbind, GoM_bind, rpc. destruct (cl_servers c !! addr) as [vs|] eqn:E; [|done].
  destruct (VolumeMarkReadonly vid ro vs) as [[[e|]|e|] vs'], (fate (cl_calls c)); cbn; by rewrite ?lookup_insert_ne, ?lookup_delete_ne by done.
Qed.

(** C8: moving a volume to a server that does not have it never loses a blob, whatever calls
    and replies are lost and wherever the stream of the copy breaks off.  After a move that
    reports success the target serves the blobs of the volume next to its own, and the source
    serves what is left.  After any other end the source still shows all its blobs, or the
    target serves the volume.  No other server is touched.  Empty blobs are not copied. *)
Theorem volume_move_keeps (fate : nat -> rpc_fate) (streams : nat -> stream_fate) (order : gmap Z needleValue -> list (Z * needleValue))
    (move : plannedVolumeMove) (c : cluster) (b b' : blobs) (src tgt : VolumeServer) (s s' : Store) :
  let vid := mv_vid move in
  map_order order ->
  cl_servers c !! mv_sourceGRPC move = Some src -> serves b src ->
  vs_store src = Some s -> is_Some (s_GetVolume vid s) -> once vid (s_Locations s) ->
  cl_servers c !! mv_targetGRPC move = Some tgt -> serves b' tgt ->
  vs_store tgt = Some s' -> s_GetVolume vid s' = None -> no_files vid s' ->
  let '(r, c') := executeVolumeMove fate streams order move c in
  r <> Panic /\
  (forall a, a <> mv_sourceGRPC move -> a <> mv_targetGRPC move -> cl_servers c' !! a = cl_servers c !! a) /\
  let target_serves := exists tgt', cl_servers c' !! mv_targetGRPC move = Some tgt' /\ serves (copy_blobs vid b b') tgt' in
  (r = Ret tt -> target_serves /\ exists src', cl_servers c' !! mv_sourceGRPC move = Some src' /\ serves (drop_volume vid b) src') /\
  (r <> Ret tt -> target_serves \/ exists src', cl_servers c' !! mv_sourceGRPC move = Some src' /\ shows vid b src').
Proof.
  intros vid; subst vid; intros Ho Hsrc Hserve Hs Hv Honce Htgt Hst Hs' Hnone Hnf.
  assert (holds (mv_vid move) b src) as Hh by (split; [by eapply serves_shows|by exists s]).
  assert (exists src', cl_servers c !! mv_sourceGRPC move = Some src' /\ shows (mv_vid move) b src') as Hex by (exists src; by destruct Hh).
  unfold executeVolumeMove. cbv zeta. destruct (decide (mv_vid move = 0)) as [|Hvid]; [by split_and!; auto|].
  destruct (decide (mv_sourceGRPC move = _ \/ _)) as [|Hne]; [by split_and!; auto|].
  destruct (decide (mv_sourceGRPC move = mv_targetGRPC move)) as [|Hdiff]; [by split_and!; auto|].
  pose proof (readonly_holds fate (mv_sourceGRPC move) (mv_vid move) true b c src Hsrc Hh) as H1.
  unfold mbind at 1, GoM_bind at 1, context at 1. destruct (setVolumeReadonly fate (mv_sourceGRPC move) (mv_vid move) true c) as [r1 c1].
  destruct H1 as (Hp1 & Ha1 & src1 & Hsrc1 & Hh1).
  destruct r1 as [[]|e1|]; [|cbv beta iota zeta; split_and!; [done|intros a Ha _; by apply Ha1|done|intros _; right; exists src1; by destruct Hh1]|done].
  pose proof (copy_serves fate streams order move c1 b b' src1 tgt s' Ho Hvid ltac:(tauto) Hsrc1 Hh1) as H2.
  rewrite Ha1 in H2 by done. specialize (H2 Htgt Hst Hs' Hnone Hnf).
  unfold restoring, mbind, GoM_bind, context. destruct (copyVolumeReplica fate streams order move c1) as [r2 c2].
  destruct H2 as (Hp2 & Ha2 & Hok2). assert (cl_servers c2 !! mv_sourceGRPC move = Some src1) as Hsrc2 by by rewrite Ha2.
  assert (forall a, a <> mv_sourceGRPC move -> a <> mv_targetGRPC move -> cl_servers c2 !! a = cl_servers c !! a) as Ha12
    by (intros a Hs1 Ht1; by rewrite Ha2, Ha1).
  pose proof (readonly_holds fate (mv_sourceGRPC move) (mv_vid move) false b c2 src1 Hsrc2 Hh1) as H3.
  destruct r2 as [[]|e2|]; [|destruct (setVolumeReadonly fate (mv_sourceGRPC move) (mv_vid move) false c2) as [r3 c3]|done].
  2: { cbv beta iota zeta. destruct H3 as (_ & Ha3 & src3 & Hsrc3 & Hh3). split_and!; [done|intros a Hs1 Ht1; rewrite Ha3; auto|done|].
       intros _. right. exists src3. by destruct Hh3. }
  destruct (Hok2 eq_refl) as (tgt2 & Htgt2 & Hserve2).
  pose proof (delete_volume_call fate (mv_sourceGRPC move) (mv_vid move) b c2 src1 Hsrc2 Hh1) as H4.
  destruct (deleteVolumeFromNode fate (mv_sourceGRPC move) (mv_vid move) c2) as [r4 c4]. destruct H4 as (Hp4 & Ha4 & Hok4).
  assert (cl_servers c4 !! mv_targetGRPC move = Some tgt2) as Htgt4 by (rewrite Ha4; by auto).
  destruct r4 as [[]|e4|]; [| |done].
  - cbv beta iota zeta. split_and!; [done|intros a Hs1 Ht1; rewrite Ha4; auto| |done]. intros _. split; [by exists tgt2|by apply Hok4].
  - pose proof (setVolumeReadonly_others fate (mv_sourceGRPC move) (mv_vid move) false c4) as H5.
    destruct (setVolumeReadonly fate (mv_sourceGRPC move) (mv_vid move) false c4) as [r5 c5]. cbn [snd] in *.
    cbv beta iota zeta. split_and!; [done|intros a Hs1 Ht1; rewrite H5, Ha4; auto|done|]. intros _. left. exists tgt2. rewrite H5 by auto. by split.
Qed.

(** *** A sample move *)

Definition sample_move : plannedVolumeMove := mkMove 7 "src"%string "src:18080"%string "tgt"%string "tgt:18080"%string ""%string "000"%string ""%string ""%string.

Definition sample_cluster (tgt : VolumeServer) : cluster :=
  mkCluster {[ "src:18080"%string := fst sample_source; "tgt:18080"%string := tgt ]} 0.

Definition no_loss : nat -> rpc_fate := fun _ => Delivered.
Definition whole_streams : nat -> stream_fate := fun _ => mkStreamFate (fun _ => true) true None.

Lemma once_single vid dl : once vid [dl].
Proof. intros i v [|j] dl' El Hj Hdl; [|done]. cbn [locate] in El. destruct (dl_GetVolume vid dl); [|done]. by injection El as <- _. Qed.

Lemma volume_move_keeps_witness :
  let '(r, c') := executeVolumeMove no_loss whole_streams map_to_list sample_move (sample_cluster sample_target) in
  r = Ret tt /\ snd sample_source !! (7, 42) = Some (0xdeadbeef, [1; 2], "text/plain"%string) /\
  exists tgt', cl_servers c' !! "tgt:18080"%string = Some tgt' /\ serves (copy_blobs 7 (snd sample_source) ∅) tgt'.
Proof.
  destruct (vs_store (fst sample_source)) as [s|] eqn:Es; [|exfalso; vm_compute in Es; discriminate].
  assert (is_Some (s_GetVolume 7 s)) as Hv by (vm_compute in Es; injection Es as <-; vm_compute; eexists; reflexivity).
  assert (exists dl, s_Locations s = [dl]) as [dl Edl] by (vm_compute in Es; injection Es as <-; eexists; reflexivity).
  assert (once 7 (s_Locations s)) as Honce by (rewrite Edl; apply once_single).
  assert (no_files 7 (mkStore [mkDiskLocation "e"%string 8 ∅ 0 0 false] (mkFs ∅ 4096 4096))) as Hn by (intros x _; split; apply lookup_empty).
  assert (map_order map_to_list) as Ho by (intros m; reflexivity).
  assert (fst (executeVolumeMove no_loss whole_streams map_to_list sample_move (sample_cluster sample_target)) = Ret tt) as Hr by (vm_compute; reflexivity).
  assert (snd sample_source !! (7, 42) = Some (0xdeadbeef, [1; 2], "text/plain"%string)) as Hb by (vm_compute; reflexivity).
  assert (cl_servers (sample_cluster sample_target) !! mv_sourceGRPC sample_move = Some (fst sample_source)) as Hsrc by apply lookup_insert_eq.
  assert (cl_servers (sample_cluster sample_target) !! mv_targetGRPC sample_move = Some sample_target) as Htgt
    by (unfold sample_cluster; cbn [cl_servers]; rewrite lookup_insert_ne by done; apply lookup_singleton_eq).
  pose proof (volume_move_keeps no_loss whole_streams map_to_list sample_move (sample_cluster sample_target) (snd sample_source) ∅
    (fst sample_source) sample_target s (mkStore [mkDiskLocation "e"%string 8 ∅ 0 0 false] (mkFs ∅ 4096 4096)) Ho Hsrc sample_source_serves Es Hv Honce
    Htgt sample_target_serves eq_refl eq_refl Hn) as H.
  destruct (executeVolumeMove _ _ _ _ _) as [r c']. cbn [fst] in Hr. subst r. destruct H as (_ & _ & H & _).
  split; [reflexivity|]. split; [exact Hb|]. destruct (H eq_refl) as [(tgt' & H1 & H2) _]. exists tgt'. split; [exact H1|exact H2].
Defined.

(** A target that already has the volume, even an empty one, counts as a finished copy: the
    move reports success and deletes the only copy of the blobs. *)
Theorem existing_target_loses :
  let tgt := snd (g_AllocateVolume 7 ""%string sample_target) in
  let '(r, c') := executeVolumeMove no_loss whole_streams map_to_list sample_move (sample_cluster tgt) in
  r = Ret tt /\
  (ReadAllNeedles (fun _ => true) map_to_list 7 <$> cl_servers c' !! "src:18080"%string) = Some ([], Fail (NotFound 7)) /\
  (ReadAllNeedles (fun _ => true) map_to_list 7 <$> cl_servers c' !! "tgt:18080"%string) = Some ([], Ret tt).
Proof. vm_compute. repeat split. Qed.

(** The counts that a rebalancing changes are copies, and a volume that is to be moved stays
    in the list of its node: two empty nodes are sent the same volume. *)
Theorem balance_moves_twice :
  let node addr vols := mkNodeSnapshot addr addr vols 8 in
  let vol := mkVolumeSnapshot ""%string "000"%string ""%string ""%string {["a:18080"%string]} in
  let snap := mkSnapshot {[ "a:18080"%string := node "a:18080"%string {[1; 2; 3; 4; 5; 6]}; "b:18080"%string := node "b:18080"%string ∅; "c:18080"%string := node "c:18080"%string ∅ ]}
                {[ 1 := vol; 2 := vol; 3 := vol; 4 := vol; 5 := vol; 6 := vol ]} in
  (fun m => (mv_vid m, mv_targetID m)) <$> balance_plan map_to_list snap (QArith_base.Qmake 1 5) 5 = [(1, "b:18080"%string); (1, "c:18080"%string)].
Proof. vm_compute. reflexivity. Qed.
