(* ===== verification/S3Store.v ===== *)
(** * S3Store: buckets and objects in the namespace of the filer

    Models [goblob/s3api/filer_client.go], the store of the S3 gateway: objects are entries
    with inline content under a directory per bucket, reached through the calls of filer
    servers.  The client tries its filers in turn.  The clock and the encoding of the
    records of multipart uploads are arguments. *)

From stdpp Require Import sorting.
From S2P Require Import Prelude GoStrings Types GoPath Hashes FilerStore Filer FilerServer GoText.

#[local] Open Scope Z_scope.
#[local] Open Scope string_scope.

(** ** Paths *)

Definition splitPath (fullPath : string) : string * string :=
  let cleaned := Clean ("/" +:+ fullPath) in
  if decide (cleaned = "/") then ("/", "") else
  let '(dir, name) := path_Split cleaned in
  let dir := Clean dir in
  (if decide (dir = ".") then "/" else dir, name).

(** ** The client *)

Inductive s3_err :=
| S3NoFiler
| S3NotFound
| S3BucketNotFound
| S3BucketExists
| S3BucketNotEmpty
| S3ObjectNotFound
| S3NotDirectory (path : string)
| S3Grpc (c : grpc_code)
| S3Text (msg : string)
| S3BadMeta.

Record ObjectData := mkObjectData {
  od_Content : bytes;
  od_ContentType : string;
  od_Extended : gmap string bytes;
  od_Mtime : Z;
  od_Size : Z;
}.

Record ObjectInfo := mkObjectInfo { oi_Key : string; oi_Size : Z; oi_LastModified : Z; oi_ETag : string }.

Record MultipartMeta := mkMultipartMeta {
  mm_UploadID : string;
  mm_Bucket : string;
  mm_Key : string;
  mm_CreatedAtUnix : Z;
}.

Definition normalizeFilerGRPCAddress (addr : string) : string :=
  if decide (addr = "") then "" else
  let dotted :=
    lastDot ← last_index_byte "."%char (chars addr);
    if decide (0 < lastDot < length (chars addr) - 1)%nat then
      let suffix := str (drop (S lastDot) (chars addr)) in
      _ ← Atoi suffix;
      '(host, _) ← SplitHostPort (str (take lastDot (chars addr)));
      Some (JoinHostPort host suffix)
    else None in
  default (ToGrpcAddress addr) dotted.

(** The addresses and the path of the buckets of a new client. *)
Definition NewFilerClient (filers : list string) (bucketsPath : string) : list string * string :=
  let add addrs addr :=
    let a := normalizeFilerGRPCAddress addr in
    if decide (a = "" \/ a ∈ addrs) then addrs else (addrs ++ [a])%list in
  (fold_left add filers [], Clean ("/" +:+ (if decide (bucketsPath = "") then "/buckets" else bucketsPath))).

Definition isNotFoundErr (e : s3_err) : bool :=
  match e with S3NotFound | S3Grpc NotFound => true | _ => false end.

(** No call of the filer has the status AlreadyExists. *)
Definition isAlreadyExists (e : s3_err) : bool := false.

Section client.
Context {S : Type} `{FilerStore S}.
Context (bucketsPath : string) (clock : string -> Z).

(** The filers of the addresses, in order. *)
Abbreviation filers := (list (FilerServer S)).

(** The loop of [withClient] over the addresses; [t] are the variables that the closure
    captures, which keep what failed attempts have written to them. *)
Fixpoint try_filers {T A} (fn : T -> FilerServer S -> outcome s3_err A * T * FilerServer S) (lastErr : s3_err) (t : T) (l : filers)
  : outcome s3_err A * T * filers :=
  match l with
  | [] => (Fail lastErr, t, [])
  | fs :: l =>
      match fn t fs with
      | (Ret a, t, fs) => (Ret a, t, fs :: l)
      | (Fail e, t, fs) => let '(r, t, l) := try_filers fn e t l in (r, t, fs :: l)
      | (Panic, t, fs) => (Panic, t, fs :: l)
      end
  end.

(** A closure that captures nothing it writes to before it succeeds. *)
Definition withClient {A} (m : GoM (FilerServer S) s3_err A) : GoM filers s3_err A := fun l =>
  let '(r, _, l) := try_filers (fun u fs => let '(r, fs) := m fs in (r, u, fs)) S3NoFiler tt l in (r, l).

(** A call with the status of its error. *)
Definition rpc {A} (m : GoM (FilerServer S) grpc_code A) : GoM (FilerServer S) s3_err A := fun fs =>
  let '(r, fs) := m fs in (match r with Ret a => Ret a | Fail c => Fail (S3Grpc c) | Panic => Panic end, fs).

(** The error of a call, mapped. *)
Definition on_error {A} (f : s3_err -> s3_err) (m : GoM filers s3_err A) : GoM filers s3_err A := fun l =>
  let '(r, l) := m l in (match r with Fail e => Fail (f e) | r => r end, l).

Definition not_found (e : s3_err) : s3_err := if isNotFoundErr e then S3NotFound else e.

(** A call whose error the caller looks at. *)
Definition attempt {A} (m : GoM filers s3_err A) : GoM filers s3_err (s3_err + A) := fun l =>
  let '(r, l) := m l in (match r with Ret a => Ret (inr a) | Fail e => Ret (inl e) | Panic => Panic end, l).

Definition lookupEntry (fullPath : string) : GoM filers s3_err PbEntry :=
  let '(directory, name) := splitPath fullPath in
  on_error not_found (withClient (rpc (LookupDirectoryEntry directory name))).

(** The entry of a new directory. *)
Definition new_directory (name : string) (now : Z) : PbEntry :=
  mkPbEntry name true [] (Some (mkFuse 0 now dir_mode 0 0 now "" "" "" 0 "" "" 0)) ∅ [] [] 0 None.

Fixpoint ensure_segments (segments : list string) (current : string) : GoM filers s3_err unit :=
  match segments with
  | [] => mret tt
  | segment :: segments =>
      if decide (segment = "") then ensure_segments segments current else
      let current := path_Join [current; "/"; segment] in
      r ← attempt (lookupEntry current);
      match r with
      | inr entry => if pe_IsDirectory entry then ensure_segments segments current else fail (S3NotDirectory current)
      | inl S3NotFound =>
          let '(dir, name) := splitPath current in
          r ← attempt (withClient (rpc (g_CreateEntry (clock current) dir (Some (new_directory name (to_unix (clock current)))))));
          match r with
          | inl e => if isAlreadyExists e then ensure_segments segments current else fail e
          | inr _ => ensure_segments segments current
          end
      | inl e => fail e
      end
  end.

Definition EnsureDirectory (fullPath : string) : GoM filers s3_err unit :=
  let cleaned := Clean ("/" +:+ fullPath) in
  if decide (cleaned = "/") then mret tt else
  ensure_segments (Split slash (TrimPrefix cleaned "/")) "".

Definition EnsureBucketsRoot : GoM filers s3_err unit := EnsureDirectory bucketsPath.

(** The answers of the stream are appended to the captured slice. *)
Definition list_call (directory prefix : string) (entries : list PbEntry) (fs : FilerServer S)
  : outcome s3_err unit * list PbEntry * FilerServer S :=
  let '(r, sent, fs) := ListEntries (fun _ => true) directory prefix "" false 10000 fs in
  (match r with Ret u => Ret u | Fail c => Fail (S3Grpc c) | Panic => Panic end, (entries ++ sent)%list, fs).

Definition listEntries (directory prefix : string) : GoM filers s3_err (list PbEntry) := fun l =>
  match try_filers (list_call directory prefix) S3NoFiler [] l with
  | (Ret _, entries, l) => (Ret entries, l)
  | (Fail e, _, l) => (Fail e, l)
  | (Panic, _, l) => (Panic, l)
  end.

Definition bucketPath (bucket : string) : string := path_Join [bucketsPath; bucket].

Definition ListBuckets : GoM filers s3_err (list string) :=
  EnsureBucketsRoot;;
  entries ← listEntries bucketsPath "";
  mret (merge_sort String.le
    (pe_Name <$> filter (fun e => pe_IsDirectory e = true /\ pe_Name e <> "" /\ HasPrefix (pe_Name e) "." = false) entries)).

Definition BucketExists (bucket : string) : GoM filers s3_err bool :=
  if decide (bucket = "") then fail S3BucketNotFound else
  r ← attempt (lookupEntry (bucketPath bucket));
  match r with
  | inr entry => mret (pe_IsDirectory entry)
  | inl S3NotFound => mret false
  | inl e => fail e
  end.

Definition CreateBucket (bucket : string) : GoM filers s3_err unit :=
  EnsureBucketsRoot;;
  b ← BucketExists bucket;
  if (b : bool) then fail S3BucketExists else EnsureDirectory (bucketPath bucket).

Definition deleteEntry (fullPath : string) : GoM filers s3_err unit :=
  let '(dir, name) := splitPath fullPath in
  on_error not_found (withClient (rpc (g_DeleteEntry (clock fullPath) dir name))).

(** The loop of [deleteTree] over the children of a directory; [rec] is the recursive call. *)
Fixpoint delete_children (rec : string -> GoM filers s3_err unit) (root : string) (children : list PbEntry) : GoM filers s3_err unit :=
  match children with
  | [] => mret tt
  | child :: children => rec (path_Join [root; pe_Name child]);; delete_children rec root children
  end.

(** [deleteTree], with the depth of the tree as fuel. *)
Fixpoint deleteTree (fuel : nat) (root : string) : GoM filers s3_err unit :=
  match fuel with
  | O => mret tt
  | Datatypes.S fuel =>
      r ← attempt (lookupEntry root);
      match r with
      | inl S3NotFound => mret tt
      | inl e => fail e
      | inr entry =>
          (if pe_IsDirectory entry then children ← listEntries root ""; delete_children (deleteTree fuel) root children
           else mret tt);;
          deleteEntry root
      end
  end.

(** ** Listing *)

Definition object_info (key : string) (entry : PbEntry) : ObjectInfo :=
  let attr := pe_Attributes entry in
  mkObjectInfo key (i64 (default 0 (fa_FileSize <$> attr))) (default 0 (fa_Mtime <$> attr))
    (of_bytes (default [] (pe_Extended entry !! "s3:etag"))).

(** The loop of [walkObjects] over the entries of a directory; [rec] is the recursive call. *)
Fixpoint walk_entries (rec : string -> string -> GoM filers s3_err (list ObjectInfo)) (dirPath keyPrefix filterPrefix : string)
    (entries : list PbEntry) : GoM filers s3_err (list ObjectInfo) :=
  match entries with
  | [] => mret []
  | entry :: entries =>
      let name := pe_Name entry in
      if decide (name = "" \/ HasPrefix name "." = true) then walk_entries rec dirPath keyPrefix filterPrefix entries else
      if pe_IsDirectory entry then
        below ← rec (path_Join [dirPath; name]) (keyPrefix +:+ name +:+ "/");
        rest ← walk_entries rec dirPath keyPrefix filterPrefix entries;
        mret (below ++ rest)%list
      else
        let key := keyPrefix +:+ name in
        rest ← walk_entries rec dirPath keyPrefix filterPrefix entries;
        mret (if decide (filterPrefix <> "" /\ HasPrefix key filterPrefix = false) then rest
              else object_info key entry :: rest)
  end.

(** [walkObjects]: the objects found; the fuel bounds the depth. *)
Fixpoint walkObjects (fuel : nat) (dirPath keyPrefix filterPrefix : string) : GoM filers s3_err (list ObjectInfo) :=
  match fuel with
  | O => mret []
  | Datatypes.S fuel =>
      r ← attempt (listEntries dirPath "");
      match r with
      | inl S3NotFound => mret []
      | inl e => fail e
      | inr entries => walk_entries (fun d k => walkObjects fuel d k filterPrefix) dirPath keyPrefix filterPrefix entries
      end
  end.

Definition key_le (a b : ObjectInfo) : Prop := String.le (oi_Key a) (oi_Key b).
#[global] Instance key_le_dec : RelDecision key_le.
Proof. intros a b. unfold key_le. apply _. Defined.

Definition require_bucket (bucket : string) : GoM filers s3_err unit :=
  b ← BucketExists bucket;
  if (b : bool) then mret tt else fail S3BucketNotFound.

Definition ListObjects (fuel : nat) (bucket prefix : string) : GoM filers s3_err (list ObjectInfo) :=
  require_bucket bucket;;
  objects ← walkObjects fuel (bucketPath bucket) "" prefix;
  mret (merge_sort key_le objects).

Definition DeleteBucket (fuel : nat) (bucket : string) : GoM filers s3_err unit :=
  require_bucket bucket;;
  objects ← ListObjects fuel bucket "";
  if decide (objects <> []) then fail S3BucketNotEmpty else
  attempt (deleteTree fuel (path_Join [bucketPath bucket; ".sys"]));;
  attempt (deleteTree fuel (path_Join [bucketPath bucket; ".uploads"]));;
  attempt (deleteTree fuel (path_Join [bucketPath bucket; ".tags"]));;
  deleteEntry (bucketPath bucket).

(** ** Objects *)

Definition upsertEntry (directory : string) (entry : PbEntry) : GoM filers s3_err unit :=
  let full := path_Join [directory; pe_Name entry] in
  r ← attempt (lookupEntry full);
  match r with
  | inl S3NotFound => withClient (rpc (g_CreateEntry (clock full) directory (Some entry)))
  | inl e => fail e
  | inr _ => withClient (rpc (g_UpdateEntry directory (Some entry)))
  end.

(** The entry of an object or of a record of the gateway. *)
Definition file_entry (name : string) (data : bytes) (extended : gmap string bytes) (mime : string) (now : Z) : PbEntry :=
  mkPbEntry name false [] (Some (mkFuse (zlen data) now 420 0 0 now mime "" "" 0 "" "" 0)) extended data [] 0 None.

Definition object_path (bucket key : string) : string := path_Join [bucketPath bucket; key].

Definition PutObject (bucket key : string) (data : bytes) (mimeType : string) (extended : gmap string bytes)
  : GoM filers s3_err string :=
  require_bucket bucket;;
  let fullPath := object_path bucket key in
  let '(directory, name) := splitPath fullPath in
  EnsureDirectory directory;;
  let mimeType := if decide (mimeType = "") then "application/octet-stream" else mimeType in
  on_error (fun e => match e with S3NotFound => S3BucketNotFound | e => e end)
    (upsertEntry directory (file_entry name data extended mimeType (to_unix (clock fullPath))));;
  mret (md5_hex data).

Definition object_data (entry : PbEntry) : ObjectData :=
  let attr := pe_Attributes entry in
  mkObjectData (pe_Content entry) (default "" (fa_Mime <$> attr)) (pe_Extended entry) (default 0 (fa_Mtime <$> attr))
    (i64 (default 0 (fa_FileSize <$> attr))).

Definition GetObject (bucket key : string) : GoM filers s3_err ObjectData :=
  entry ← on_error (fun e => match e with S3NotFound => S3ObjectNotFound | e => e end) (lookupEntry (object_path bucket key));
  if pe_IsDirectory entry then fail S3ObjectNotFound else mret (object_data entry).

Definition set_Extended (ext : gmap string bytes) (e : PbEntry) : PbEntry :=
  mkPbEntry (pe_Name e) (pe_IsDirectory e) (pe_Chunks e) (pe_Attributes e) ext (pe_Content e) (pe_HardLinkId e)
    (pe_HardLinkCounter e) (pe_Remote e).

(** The function that updates the attributes never fails in the program. *)
Definition UpdateObjectExtended (bucket key : string) (updateFn : gmap string bytes -> gmap string bytes) : GoM filers s3_err unit :=
  let fullPath := object_path bucket key in
  entry ← on_error (fun e => match e with S3NotFound => S3ObjectNotFound | e => e end) (lookupEntry fullPath);
  let '(dir, _) := splitPath fullPath in
  withClient (rpc (g_UpdateEntry dir (Some (set_Extended (updateFn (pe_Extended entry)) entry)))).

(** An error that is not [ErrNotFound] is returned. *)
Definition ignore_not_found (m : GoM filers s3_err unit) : GoM filers s3_err unit :=
  r ← attempt m;
  match r with inl S3NotFound | inr _ => mret tt | inl e => fail e end.

Definition DeleteObject (bucket key : string) : GoM filers s3_err unit := ignore_not_found (deleteEntry (object_path bucket key)).

(** ** Metadata of buckets *)

Definition bucketMetaPath (bucket key : string) : string := path_Join [bucketPath bucket; ".sys"; key].

Definition SetBucketMeta (bucket key : string) (value : bytes) : GoM filers s3_err unit :=
  require_bucket bucket;;
  let metaPath := bucketMetaPath bucket key in
  let '(dir, name) := splitPath metaPath in
  EnsureDirectory dir;;
  upsertEntry dir (file_entry name value ∅ "application/octet-stream" (to_unix (clock metaPath))).

Definition GetBucketMeta (bucket key : string) : GoM filers s3_err bytes :=
  entry ← lookupEntry (bucketMetaPath bucket key); mret (pe_Content entry).

Definition DeleteBucketMeta (bucket key : string) : GoM filers s3_err unit :=
  ignore_not_found (deleteEntry (bucketMetaPath bucket key)).

(** ** Multipart uploads *)

Context (marshal : MultipartMeta -> bytes) (unmarshal : bytes -> option MultipartMeta).

Definition multipartRootPath (bucket : string) : string := path_Join [bucketPath bucket; ".uploads"].
Definition multipartUploadPath (bucket uploadID : string) : string := path_Join [multipartRootPath bucket; uploadID].
Definition multipartMetaPath (bucket uploadID : string) : string := path_Join [multipartUploadPath bucket uploadID; ".meta"].
Definition multipartPartKey (uploadID : string) (partNumber : Z) : string := path_Join [".uploads"; uploadID; Itoa partNumber].

Definition CreateMultipartUpload (bucket key uploadID : string) (createdAt : Z) : GoM filers s3_err unit :=
  require_bucket bucket;;
  EnsureDirectory (multipartUploadPath bucket uploadID);;
  let metaBytes := marshal (mkMultipartMeta uploadID bucket key (to_unix createdAt)) in
  let metaPath := multipartMetaPath bucket uploadID in
  let '(dir, name) := splitPath metaPath in
  upsertEntry dir (file_entry name metaBytes ∅ "application/json" (to_unix (clock metaPath))).

Definition LoadMultipartUpload (bucket key uploadID : string) : GoM filers s3_err MultipartMeta :=
  entry ← lookupEntry (multipartMetaPath bucket uploadID);
  match unmarshal (pe_Content entry) with
  | None => fail S3BadMeta
  | Some meta =>
      let id := if decide (mm_UploadID meta = "") then uploadID else mm_UploadID meta in
      let b := if decide (mm_Bucket meta = "") then bucket else mm_Bucket meta in
      if decide (b <> bucket) then fail S3NotFound else
      if decide (key <> "" /\ mm_Key meta <> key) then fail S3NotFound else
      mret (mkMultipartMeta id b (mm_Key meta) (mm_CreatedAtUnix meta))
  end.

Definition PutMultipartPart (bucket uploadID : string) (partNumber : Z) (data : bytes) : GoM filers s3_err string :=
  PutObject bucket (multipartPartKey uploadID partNumber) data "application/octet-stream" ∅.

Definition GetMultipartPart (bucket uploadID : string) (partNumber : Z) : GoM filers s3_err (ObjectData * string) :=
  obj ← on_error (fun e => match e with S3ObjectNotFound => S3NotFound | e => e end)
    (GetObject bucket (multipartPartKey uploadID partNumber));
  mret (obj, md5_hex (od_Content obj)).

Definition DeleteMultipartUpload (fuel : nat) (bucket uploadID : string) : GoM filers s3_err unit :=
  deleteTree fuel (multipartUploadPath bucket uploadID).

(** ** Keys and values *)

Definition s3_KvGet (key : string) : GoM filers s3_err string :=
  withClient (fun fs =>
    match rpc (g_KvGet key) fs with
    | (Ret (value, msg), fs) =>
        if decide (msg = "") then (Ret value, fs)
        else (Fail (if Contains (ToLower msg) "not found" then S3NotFound else S3Text msg), fs)
    | (Fail e, fs) => (Fail e, fs)
    | (Panic, fs) => (Panic, fs)
    end).

(** A call whose response has only the text of an error. *)
Definition text_error (m : GoM (FilerServer S) grpc_code (unit * string)) : GoM filers s3_err unit :=
  withClient (fun fs =>
    match rpc m fs with
    | (Ret (_, msg), fs) => (if decide (msg = "") then Ret tt else Fail (S3Text msg), fs)
    | (Fail e, fs) => (Fail e, fs)
    | (Panic, fs) => (Panic, fs)
    end).

Definition s3_KvPut (key value : string) : GoM filers s3_err unit := text_error (g_KvPut key value).
Definition s3_KvDelete (key : string) : GoM filers s3_err unit := text_error (g_KvDelete key).
End client.
