(* ===== verification/S3Refine.v ===== *)
(** * S3Refine: the store of the gateway is a map of objects

    Over one filer with any lawful store, and for keys of which none is a directory of
    another, the calls of [S3Store] behave as operations on a set of buckets and a map
    from keys to objects. *)

From stdpp Require Import sorting.
From Stdlib Require Import Sorting.Sorted.
From S2P Require Import Prelude GoStrings Types GoPath Hashes LogBuffer FilerStore Filer FilerSpec FilerServer PathSpec FilerSafe GoText S3Store.
From S2P Require Import MemoryStore.

#[local] Open Scope Z_scope.
#[local] Open Scope string_scope.

(** ** Paths *)

Lemma splitPath_snoc cs c : clean cs -> clean_comp c -> splitPath (path_of (cs ++ [c])%list) = (path_of cs, c).
Proof.
  intros Hcs Hc. unfold splitPath. assert (clean (cs ++ [c])%list) as Hsn by (apply Forall_app_2; [done|by constructor]).
  rewrite Clean_slash by done. rewrite decide_False.
  2:{ intros E%path_of_root; [by destruct cs|]. by apply clean_comps_ok. }
  rewrite path_Split_snoc by apply Hc. rewrite Clean_dir by done. rewrite decide_False; [done|].
  intros E. pose proof (path_of_prefix cs) as Hp. by rewrite E in Hp.
Qed.

Section client_spec.
Context {S : Type} `{FilerStore S} (valid : string -> Prop) (good : Entry -> Prop) (rep : S -> gmap string Entry -> Prop).
Context {Hlaws : FilerLaws S valid good rep} (Hgood : forall e, good e).
Context (clock : string -> Z).

Abbreviation filers := (list (FilerServer S)).

(** One filer, whose namespace is [m]. *)
Definition at_filer (l : filers) (m : gmap string Entry) : Prop := exists fs, l = [fs] /\ serves rep fs m.

Lemma runs_attempt {A} (c : GoM filers s3_err A) l (Q : outcome s3_err (s3_err + A) -> filers -> Prop) :
  runs c l (fun r l' => match r with Ret a => Q (Ret (inr a)) l' | Fail e => Q (Ret (inl e)) l' | Panic => Q Panic l' end) ->
  runs (attempt c) l Q.
Proof. unfold runs, attempt. destruct (c l) as [[a|e|] l']; auto. Qed.

Lemma runs_on_error {A} f (c : GoM filers s3_err A) l (Q : outcome s3_err A -> filers -> Prop) :
  runs c l (fun r l' => match r with Fail e => Q (Fail (f e)) l' | r => Q r l' end) -> runs (on_error f c) l Q.
Proof. unfold runs, on_error. destruct (c l) as [[a|e|] l']; auto. Qed.

(** A call through the client reaches the one filer. *)
Lemma runs_rpc {A} (c : GoM (FilerServer S) grpc_code A) fs (Q : outcome s3_err A -> filers -> Prop) :
  runs c fs (fun r fs' => match r with Ret a => Q (Ret a) [fs'] | Fail e => Q (Fail (S3Grpc e)) [fs'] | Panic => Q Panic [fs'] end) ->
  runs (withClient (rpc c)) [fs] Q.
Proof. unfold runs, withClient, rpc. cbn [try_filers]. destruct (c fs) as [[a|e|] fs']; auto. Qed.

Definition snoc_clean (cs : list string) (c : string) : Prop := clean cs /\ clean_comp c.

Lemma lookup_runs cs c l m :
  clean cs -> clean_comp c -> valid (path_of (cs ++ [c])%list) -> at_filer l m ->
  runs (lookupEntry (path_of (cs ++ [c])%list)) l (fun r l' => at_filer l' m /\
    match r with
    | Ret pb => exists e, m !! path_of (cs ++ [c])%list = Some e /\ pb = entryToProto e
    | Fail S3NotFound => m !! path_of (cs ++ [c])%list = None
    | Fail (S3Grpc _) => True
    | _ => False
    end).
Proof.
  intros Hcs Hc Hv (fs & -> & Hs). unfold lookupEntry. rewrite splitPath_snoc by done. apply runs_on_error, runs_rpc.
  rewrite <- (joinDirectoryAndName_comp cs c) in * by done. eapply runs_mono; [by apply (lookup_call valid good rep)|].
  intros [pb|[]|] fs' (Hs' & _ & H1); try done; (split; [by exists fs'|done]).
Qed.

(** What a write leaves: the new namespace, or after an error the old or the new one. *)
Definition wrote {A} (m m' : gmap string Entry) (r : outcome s3_err A) (l' : filers) : Prop :=
  match r with
  | Ret _ => at_filer l' m'
  | Fail (S3Grpc _) => at_filer l' m \/ at_filer l' m'
  | _ => False
  end.

Lemma create_runs cs c now pb e l m :
  clean cs -> clean_comp c -> valid (path_of (cs ++ [c])%list) -> at_filer l m -> has_parent m (path_of (cs ++ [c])%list) ->
  protoToEntry (path_of cs) (Some pb) = Some e -> e_FullPath e = path_of (cs ++ [c])%list ->
  runs (withClient (rpc (g_CreateEntry now (path_of cs) (Some pb)))) l (wrote m (<[path_of (cs ++ [c])%list := e]> m)).
Proof.
  intros Hcs Hc Hv (fs & -> & Hs) Hpar Hpb Hp. apply runs_rpc. rewrite <- Hp in *.
  eapply runs_mono; [by apply (create_call valid good rep _ _ _ e)|].
  intros [u|g|] fs' H1; cbn; [destruct H1 as (_ & H1 & _); by exists fs'| |done].
  destruct H1 as [_ [H1|H1]]; [left|right]; by exists fs'.
Qed.

Lemma update_runs cs pb e l m :
  valid (e_FullPath e) -> at_filer l m -> protoToEntry (path_of cs) (Some pb) = Some e ->
  runs (withClient (rpc (g_UpdateEntry (path_of cs) (Some pb)))) l (wrote m (<[e_FullPath e := e]> m)).
Proof.
  intros Hv (fs & -> & Hs) Hpb. apply runs_rpc. eapply runs_mono; [by apply (update_call valid good rep _ _ e)|].
  intros [u|g|] fs' H1; cbn; [by exists fs'| |done]. destruct H1 as [_ [H1|H1]]; [left|right]; by exists fs'.
Qed.

Lemma delete_runs cs c l m :
  clean cs -> clean_comp c -> valid (path_of (cs ++ [c])%list) -> at_filer l m ->
  runs (deleteEntry clock (path_of (cs ++ [c])%list)) l (fun r l' =>
    match r with
    | Ret _ => at_filer l' (delete (path_of (cs ++ [c])%list) m)
    | Fail S3NotFound => at_filer l' (delete (path_of (cs ++ [c])%list) m)
    | Fail (S3Grpc _) => at_filer l' m \/ at_filer l' (delete (path_of (cs ++ [c])%list) m)
    | _ => False
    end).
Proof.
  intros Hcs Hc Hv (fs & -> & Hs). unfold deleteEntry. rewrite splitPath_snoc by done. apply runs_on_error, runs_rpc.
  rewrite <- (joinDirectoryAndName_comp cs c) in * by done. eapply runs_mono; [by apply (delete_call valid good rep)|].
  intros [u|[]|] fs' H1; try done; cbn; [destruct H1 as [H1 _]; by exists fs'|destruct H1 as [H1 Hn]; rewrite delete_id by done; by exists fs'|].
  destruct H1 as [H1|H1]; [left|right]; by exists fs'.
Qed.

Lemma list_runs cs l m :
  clean cs -> valid (path_of cs) -> at_filer l m ->
  runs (listEntries (path_of cs) "") l (fun r l' => at_filer l' m /\
    match r with
    | Ret es => exists ls, listed m (path_of cs) "" false "" ls /\ es = ((fun x => entryToProto (snd x)) <$> take (Z.to_nat 10000) ls)
    | Fail (S3Grpc _) => True
    | _ => False
    end).
Proof.
  intros Hcs Hv (fs & -> & Hs). unfold runs, listEntries. cbn [try_filers]. unfold list_call.
  pose proof (list_entries_call valid good rep (path_of cs) fs m Hs) as Hl. rewrite joinDirectoryAndName_dir in Hl by done. specialize (Hl Hv).
  destruct (ListEntries _ _ _ _ _ _ fs) as [[[u|g|] sent] fs1]; destruct Hl as [Hs1 Hl]; [|split; [by exists fs1|done]|done].
  split; [by exists fs1|]. destruct Hl as (ls & Hls & ->). by exists ls.
Qed.

(** ** Directories on the way *)

Lemma new_directory_entry cs c now :
  clean cs -> clean_comp c ->
  exists e, protoToEntry (path_of cs) (Some (new_directory c now)) = Some e /\ e_FullPath e = path_of (cs ++ [c])%list /\ IsDirectory e = true.
Proof.
  intros Hcs Hc. eexists. split; [done|]. cbn [e_FullPath pe_Name new_directory]. split; [by apply joinDirectoryAndName_comp|]. reflexivity.
Qed.

Lemma ensure_segments_runs cs1 cs2 l m :
  clean cs1 -> clean cs2 -> valid (path_of (cs1 ++ cs2)%list) -> at_filer l m -> closed m ->
  cs1 = [] \/ is_Some (m !! path_of cs1) ->
  (forall pre e, pre `prefix_of` (cs1 ++ cs2)%list -> m !! path_of pre = Some e -> pre <> [] -> IsDirectory e = true) ->
  runs (ensure_segments clock cs2 (if decide (cs1 = []) then "" else path_of cs1)) l (fun r l' =>
    exists m', at_filer l' m' /\ dirs_grow (cs1 ++ cs2)%list m m' /\
    match r with
    | Ret _ => (cs1 ++ cs2)%list = [] \/ is_Some (m' !! path_of (cs1 ++ cs2)%list)
    | Fail (S3Grpc _) => True
    | _ => False
    end).
Proof.
  revert cs1 l m. induction cs2 as [|c cs2 IH]; intros cs1 l m Hcs1 Hcs2 Hv Hl Hcl Hp Hdir.
  { cbn [ensure_segments]. apply runs_ret. exists m. rewrite app_nil_r. split_and!; [done|by apply dirs_grow_refl|done]. }
  apply Forall_cons in Hcs2 as [Hc Hcs2]. cbn [ensure_segments]. rewrite decide_False by apply Hc.
  rewrite path_Join_segment by done. set (p := path_of (cs1 ++ [c])%list).
  assert (clean (cs1 ++ [c])%list) as Hcs1' by (apply Forall_app_2; [done|by constructor]).
  assert (valid (path_of ((cs1 ++ [c]) ++ cs2)%list)) as Hv' by by rewrite <- app_assoc.
  assert (valid p) as Hvp by (apply (valid_prefix valid good rep _ cs2); [by apply clean_comps_ok|done]).
  assert ((cs1 ++ [c])%list `prefix_of` (cs1 ++ c :: cs2)%list) as Hpre by (exists cs2; by rewrite <- app_assoc).
  assert ((cs1 ++ [c])%list <> []) as Hne by by destruct cs1.
  (* the way goes on from a namespace that has the directory *)
  assert (forall l' m', at_filer l' m' -> dirs_grow (cs1 ++ c :: cs2)%list m m' -> is_Some (m' !! p) ->
    runs (ensure_segments clock cs2 p) l' (fun r l' =>
    exists m', at_filer l' m' /\ dirs_grow (cs1 ++ c :: cs2)%list m m' /\
    match r with
    | Ret _ => (cs1 ++ c :: cs2)%list = [] \/ is_Some (m' !! path_of (cs1 ++ c :: cs2)%list)
    | Fail (S3Grpc _) => True
    | _ => False
    end)) as Hgo.
  { intros l' m' Hl' Hg Hp'. assert (Hsn : (cs1 ++ c :: cs2)%list = ((cs1 ++ [c]) ++ cs2)%list) by by rewrite <- app_assoc.
    rewrite Hsn in *. specialize (IH (cs1 ++ [c])%list l' m' Hcs1' Hcs2 Hv' Hl' (dg_closed _ _ _ Hg) (or_intror Hp')).
    rewrite decide_False in IH by done. eapply runs_mono; [apply IH|].
    - intros pre e Hpr He Hn. destruct (dg_new _ _ _ Hg _ _ He) as [He'|[_ ?]]; [by eapply Hdir|done].
    - intros r l2 (m2 & Hl2 & Hg2 & Hr). exists m2. split_and!; [done|by eapply dirs_grow_trans|done]. }
  apply runs_bind, runs_attempt. eapply runs_mono; [by apply lookup_runs|]. cbn beta. fold p. intros r l' [Hl' Hr].
  destruct r as [pb|[]|]; try done.
  - destruct Hr as (e & He & ->). cbn [entryToProto pe_IsDirectory]. rewrite (Hdir _ e Hpre He Hne).
    apply (Hgo _ m); [done|by apply dirs_grow_refl|by eexists].
  - unfold p at 1. rewrite splitPath_snoc by done.
    destruct (new_directory_entry cs1 c (to_unix (clock p)) Hcs1 Hc) as (e & Hpb & He & Hd).
    apply runs_bind, runs_attempt. eapply runs_mono.
    { apply (create_runs cs1 c); [done|done|done|done| |exact Hpb|done]. by apply path_of_snoc_parent; [apply Hc|]. }
    fold p. pose proof (dirs_grow_insert cs1 c cs2 m e Hcl Hc Hp Hr Hd) as Hg. fold p in Hg.
    intros r l2 Hw. destruct r as [u|[]|]; try done.
    + apply (Hgo _ (<[p := e]> m)); [done|done|]. by rewrite lookup_insert_eq.
    + cbn [isAlreadyExists]. apply runs_fail. destruct Hw as [Hw|Hw]; [exists m|exists (<[p := e]> m)]; split_and!; try done.
      by apply dirs_grow_refl.
  - apply runs_fail. exists m. split_and!; [done|by apply dirs_grow_refl|done].
Qed.

Lemma EnsureDirectory_runs cs l m :
  clean cs -> valid (path_of cs) -> at_filer l m -> closed m ->
  (forall pre e, pre `prefix_of` cs -> m !! path_of pre = Some e -> pre <> [] -> IsDirectory e = true) ->
  runs (EnsureDirectory clock (path_of cs)) l (fun r l' =>
    exists m', at_filer l' m' /\ dirs_grow cs m m' /\
    match r with Ret _ => cs = [] \/ is_Some (m' !! path_of cs) | Fail (S3Grpc _) => True | _ => False end).
Proof.
  intros Hcs Hv Hl Hc Hdir. unfold EnsureDirectory. rewrite Clean_slash by done. case_decide as E.
  - apply path_of_root in E as ->; [|by apply clean_comps_ok]. apply runs_ret. exists m. split_and!; [done|by apply dirs_grow_refl|by left].
  - assert (cs <> []) as Hne by by intros ->. rewrite Split_TrimPrefix by done.
    pose proof (ensure_segments_runs [] cs l m (Forall_nil_2 _) Hcs Hv Hl Hc (or_introl eq_refl) Hdir) as He.
    rewrite decide_True in He by done. exact He.
Qed.
End client_spec.

(** * Buckets and objects as a set and a map

    The abstract state of the store of the gateway, the invariant that relates it to the
    namespace of the filer, and the refinement for any sequence of calls. *)

Section refine.
Context {S : Type} `{FilerStore S} (valid : string -> Prop) (good : Entry -> Prop) (rep : S -> gmap string Entry -> Prop).
Context {Hlaws : FilerLaws S valid good rep} (Hgood : forall e, good e).
Context (clock : string -> Z).

(** The directory of the buckets, and the keys in use: lists of a bucket and the
    components of a key. *)
Context (root : list string) (K : list (list string)).

Definition P (cs : list string) : string := path_of (root ++ cs)%list.

(** No key is a directory of another; a directory has at most as many entries as a listing
    returns. *)
Record keys_ok : Prop := {
  ko_root : clean root;
  ko_key : forall k, k ∈ K -> clean k /\ (2 <= length k)%nat /\ valid (P k);
  ko_free : forall k1 k2, k1 ∈ K -> k2 ∈ K -> k1 `prefix_of` k2 -> k1 = k2;
}.

Context (HK : keys_ok).

Definition object_of (e : Entry) : ObjectData := object_data (entryToProto e).

(** The namespace [m] holds the buckets [B] and the objects [M]: below the buckets there are
    the objects and the directories on the way to keys. *)
Record s3_rep (m : gmap string Entry) (B : gset string) (M : gmap (list string) ObjectData) : Prop := {
  sr_closed : closed m;
  sr_root : forall pre e, pre `prefix_of` root -> pre <> [] -> m !! path_of pre = Some e -> IsDirectory e = true;
  sr_shape : forall cs e, cs <> [] -> Forall comp_ok cs -> m !! P cs = Some e ->
    (cs ∈ K /\ IsDirectory e = false) \/
    (IsDirectory e = true /\ (length cs = 1%nat \/ exists k, k ∈ K /\ cs `prefix_of` k /\ cs <> k));
  sr_buckets : forall b, clean_comp b -> b ∈ B <-> is_Some (m !! P [b]);
  sr_objects : forall k, k ∈ K -> M !! k = object_of <$> m !! P k;
  sr_dom : forall k, is_Some (M !! k) -> k ∈ K;
}.

(** ** The invariant *)

Lemma prefix_app_inv_cases {A} (pre l1 l2 : list A) :
  pre `prefix_of` (l1 ++ l2)%list -> pre `prefix_of` l1 \/ exists l, pre = (l1 ++ l)%list /\ l `prefix_of` l2.
Proof.
  intros [s E]. symmetry in E. apply app_eq_inv in E as [(k & -> & ->)|(k & -> & ->)]; [|left; by exists k].
  right. exists k. split; [done|]. by exists s.
Qed.

Lemma P_app cs1 cs2 : P (cs1 ++ cs2)%list = path_of ((root ++ cs1) ++ cs2)%list.
Proof. unfold P. by rewrite app_assoc. Qed.

Lemma P_ok cs : Forall comp_ok cs -> Forall comp_ok (root ++ cs)%list.
Proof. intros Hcs. apply Forall_app_2; [apply clean_comps_ok, HK|done]. Qed.

Lemma P_inj cs1 cs2 : Forall comp_ok cs1 -> Forall comp_ok cs2 -> P cs1 = P cs2 -> cs1 = cs2.
Proof. intros H1 H2 E. apply path_of_inj in E; [|by apply P_ok..]. by apply app_inv_head in E. Qed.

Lemma key_clean k : k ∈ K -> clean k.
Proof. intros Hk. by apply (ko_key HK) in Hk as (? & _). Qed.

Lemma prefix_clean k cs : clean k -> cs `prefix_of` k -> clean cs.
Proof. intros Hk [s ->]. by apply Forall_app in Hk as [? _]. Qed.

(** A path on the way into a directory below the root of the buckets. *)
Lemma grown_path cs pre cs' :
  clean cs -> Forall comp_ok cs' -> pre `prefix_of` (root ++ cs)%list -> P cs' = path_of pre -> cs' `prefix_of` cs.
Proof.
  intros Hcs Hcs' Hpre E. assert (clean (root ++ cs)%list) as Hall by (apply Forall_app_2; [apply HK|done]).
  apply path_of_inj in E as <-; [|by apply P_ok|by apply clean_comps_ok; eapply prefix_clean].
  destruct Hpre as [s Hs]. exists s. rewrite <- app_assoc in Hs. by apply app_inv_head in Hs.
Qed.

(** Directories appear on the way to a key, or to a bucket. *)
Lemma grow_rep cs m m' B B' M :
  s3_rep m B M -> dirs_grow (root ++ cs)%list m m' -> clean cs ->
  (length cs <= 1)%nat \/ (exists k, k ∈ K /\ cs `prefix_of` k /\ cs <> k) ->
  (forall b, clean_comp b -> b ∈ B' <-> is_Some (m' !! P [b])) ->
  s3_rep m' B' M.
Proof.
  intros [R1 R2 R3 R4 R5 R6] [G1 G2 G3] Hcs Hway HB. split; try done.
  - intros pre e Hpre Hne He. destruct (G3 _ _ He) as [He'|[_ ?]]; [by eapply R2|done].
  - intros cs' e Hne Hok He. destruct (G3 _ _ He) as [He'|[(pre & _ & Hpre & E) Hd]]; [by apply R3|]. right. split; [done|].
    pose proof (grown_path cs pre cs' Hcs Hok Hpre E) as Hp. destruct Hway as [Hl|(k & Hk & Hpk & Hnk)].
    + left. pose proof (prefix_length _ _ Hp). destruct cs' as [|? [|? ?]]; [done|done|cbn in *; lia].
    + right. exists k. split_and!; [done|by etrans|]. intros ->. destruct Hnk. by apply (anti_symm prefix).
  - intros k Hk. rewrite R5 by done. destruct (m !! P k) as [e|] eqn:E; [by rewrite (G2 _ _ E)|].
    destruct (m' !! P k) as [e|] eqn:E'; [|done]. exfalso. destruct (G3 _ _ E') as [He|[(pre & _ & Hpre & Ep) Hd]]; [congruence|].
    pose proof (grown_path cs pre k Hcs (clean_comps_ok _ (key_clean k Hk)) Hpre Ep) as Hp.
    destruct (ko_key HK k Hk) as (_ & Hl & _). destruct Hway as [Hl'|(k' & Hk' & Hpk & Hnk)].
    + pose proof (prefix_length _ _ Hp). lia.
    + assert (k = k') as -> by (apply (ko_free HK); [done|done|by etrans]). destruct Hnk. by apply (anti_symm prefix).
Qed.

Lemma not_bucket b k : k ∈ K -> [b] <> k.
Proof. intros Hk <-. destruct (ko_key HK _ Hk) as (_ & Hl & _). cbn in Hl. lia. Qed.

(** The path of a key is no prefix of the root, no bucket and no other key. *)
Lemma P_key_ne k cs : k ∈ K -> Forall comp_ok cs -> cs <> k -> P k <> P cs.
Proof. intros Hk Hcs Hne E. apply P_inj in E; [by subst|by apply clean_comps_ok, key_clean|done]. Qed.

Lemma P_key_root k pre : k ∈ K -> pre `prefix_of` root -> P k <> path_of pre.
Proof.
  intros Hk Hpre E. destruct (ko_key HK k Hk) as (Hc & Hl & _).
  apply path_of_inj in E; [|apply P_ok, clean_comps_ok, Hc|eapply clean_comps_ok, prefix_clean; [apply (ko_root HK)|done]].
  pose proof (prefix_length _ _ Hpre) as Hlen. rewrite <- E, length_app in Hlen. lia.
Qed.

(** An object is written. *)
Lemma insert_rep k e m B M :
  s3_rep m B M -> k ∈ K -> has_parent m (P k) -> IsDirectory e = false ->
  s3_rep (<[P k := e]> m) B (<[k := object_of e]> M).
Proof.
  intros [R1 R2 R3 R4 R5 R6] Hk Hpar Hd. split.
  - by apply closed_insert.
  - intros pre e' Hpre Hne. rewrite lookup_insert_ne by (by apply P_key_root). by apply R2.
  - intros cs e' Hne Hok. destruct (decide (cs = k)) as [->|Hck].
    + rewrite lookup_insert_eq. intros [= <-]. by left.
    + rewrite lookup_insert_ne by by apply P_key_ne. by apply R3.
  - intros b Hb. rewrite lookup_insert_ne; [by apply R4|]. apply P_key_ne; [done| |by apply not_bucket]. constructor; [apply Hb|done].
  - intros k' Hk'. destruct (decide (k' = k)) as [->|Hne]; [by rewrite !lookup_insert_eq|].
    assert (P k <> P k') by by apply P_key_ne; [|apply clean_comps_ok, key_clean|].
    rewrite !lookup_insert_ne by done. by apply R5.
  - intros k' [o Ho]. apply lookup_insert_Some in Ho as [[<- _]|[_ Ho]]; [done|]. apply R6. by eexists.
Qed.

Lemma key_snoc k : k ∈ K -> exists b cs c, k = (b :: cs ++ [c])%list /\ clean (b :: cs) /\ clean_comp c.
Proof.
  intros Hk. destruct (ko_key HK k Hk) as (Hc & Hl & _). destruct k as [|b k]; [cbn in Hl; lia|].
  destruct k as [|c cs _] using rev_ind; [cbn in Hl; lia|]. exists b, cs, c.
  apply Forall_cons in Hc as [Hb Hc]. apply Forall_app in Hc as [Hcs Hc]. apply Forall_cons in Hc as [Hc _].
  split; [done|]. split; [by constructor|done].
Qed.

(** Nothing is below the path of a key. *)
Lemma key_childless k m B M :
  (forall p e, m !! p = Some e -> abs_path p) -> s3_rep m B M -> k ∈ K -> childless m (P k).
Proof.
  intros Habs Hr Hk q e Hq. destruct (Habs q e Hq) as (qs & Hqs & ->). right. intros E.
  destruct qs as [|c qs _] using rev_ind.
  { change (path_of []) with "/" in E. rewrite DirAndName_root in E. cbn in E. by apply (P_key_root k [] Hk (prefix_nil _)). }
  apply Forall_app in Hqs as [Hqs Hc]. apply Forall_cons in Hc as [Hc _]. rewrite DirAndName_snoc in E by done. cbn in E.
  assert (Forall comp_ok k) as Hkok by by apply clean_comps_ok, key_clean.
  apply path_of_inj in E; [|done|by apply P_ok]. subst qs. rewrite <- app_assoc in Hq.
  assert (Forall comp_ok (k ++ [c])%list) as Hkc by (apply Forall_app_2; [done|by constructor]).
  destruct (sr_shape _ _ _ Hr (k ++ [c])%list e) as [[Hin _]|[_ [Hl|(k' & Hk' & Hp & Hne)]]]; [by destruct k|done|done|..].
  - assert (k = k ++ [c])%list as E; [|by apply (f_equal length) in E; rewrite length_app in E; cbn in E; lia].
    apply (ko_free HK); [done|done|]. by eexists.
  - destruct (ko_key HK k Hk) as (_ & Hl' & _). rewrite length_app in Hl. cbn in Hl. lia.
  - assert (k = k') as -> by (apply (ko_free HK); [done|done|]; etrans; [by exists [c]|done]).
    pose proof (prefix_length _ _ Hp) as Hl. rewrite length_app in Hl. cbn in Hl. lia.
Qed.

(** An object is deleted. *)
Lemma delete_rep k m B M :
  (forall p e, m !! p = Some e -> abs_path p) -> s3_rep m B M -> k ∈ K -> s3_rep (delete (P k) m) B (delete k M).
Proof.
  intros Habs Hr Hk. pose proof (key_childless k m B M Habs Hr Hk) as Hch. destruct Hr as [R1 R2 R3 R4 R5 R6]. split.
  - apply closed_delete; [done| |done]. by apply (P_key_root k [] Hk (prefix_nil _)).
  - intros pre e Hpre Hne [_ He]%lookup_delete_Some. by eapply R2.
  - intros cs e Hne Hok [_ He]%lookup_delete_Some. by apply R3.
  - intros b Hb. rewrite lookup_delete_ne; [by apply R4|]. apply P_key_ne; [done| |by apply not_bucket]. constructor; [apply Hb|done].
  - intros k' Hk'. destruct (decide (k' = k)) as [->|Hne]; [by rewrite !lookup_delete_eq|].
    assert (P k <> P k') by by apply P_key_ne; [|apply clean_comps_ok, key_clean|].
    rewrite !lookup_delete_ne by done. by apply R5.
  - intros k' [o [_ Ho]%lookup_delete_Some]. apply R6. by eexists.
Qed.

(** ** The calls *)

Abbreviation filers := (list (FilerServer S)).
Abbreviation bucketsPath := (path_of root).

Definition rep_at (l : filers) (B : gset string) (M : gmap (list string) ObjectData) : Prop :=
  exists m, at_filer rep l m /\ s3_rep m B M.

Lemma at_valid l m p e : at_filer rep l m -> m !! p = Some e -> valid p.
Proof. intros (fs & _ & f & s & _ & _ & Hr) Hp. by destruct (rep_keyed s m p e Hr Hp) as (_ & ? & _). Qed.

Lemma at_abs l m p e : at_filer rep l m -> m !! p = Some e -> abs_path p.
Proof. intros Hl Hp. eapply valid_abs. by eapply at_valid. Qed.

Lemma valid_way k cs : k ∈ K -> cs `prefix_of` k -> valid (P cs).
Proof.
  intros Hk [s ->]. destruct (ko_key HK _ Hk) as (Hc & _ & Hv). rewrite P_app in Hv. apply Forall_app in Hc as [_ Hs].
  by apply (valid_prefix valid good rep (root ++ cs)%list s); [apply clean_comps_ok|].
Qed.

Lemma bucketPath_P b : clean_comp b -> bucketPath bucketsPath b = P [b].
Proof. intros Hb. apply path_Join_comp; [apply HK|done]. Qed.

Lemma object_path_P b k : clean_comp b -> clean k -> object_path bucketsPath b (Join "/" k) = P (b :: k).
Proof.
  intros Hb Hk. unfold object_path. rewrite bucketPath_P by done. unfold P. rewrite path_Join_key.
  - by rewrite <- app_assoc.
  - apply Forall_app_2; [apply HK|by constructor].
  - done.
Qed.

(** The state after a call that does not write. *)
Definition unchanged {A} (m : gmap string Entry) (Q : outcome s3_err A -> Prop) (r : outcome s3_err A) (l' : filers) : Prop :=
  at_filer rep l' m /\ match r with Fail (S3Grpc _) => True | r => Q r end.

Lemma BucketExists_runs b l m B M :
  clean_comp b -> valid (P [b]) -> at_filer rep l m -> s3_rep m B M ->
  runs (BucketExists bucketsPath b) l (unchanged m (fun r => match r with Ret true => b ∈ B | Ret false => b ∉ B | _ => False end)).
Proof.
  intros Hb Hv Hl Hr. unfold BucketExists. rewrite decide_False by apply Hb. rewrite bucketPath_P by done.
  apply runs_bind, runs_attempt. eapply runs_mono; [apply (lookup_runs valid good rep root b); (done || apply HK)|].
  fold (P [b]). intros r l' [Hl' Hres]. destruct r as [pb|[]|]; try done; try (by apply runs_fail).
  - destruct Hres as (e & He & ->). apply runs_ret. split; [done|]. cbn [entryToProto pe_IsDirectory].
    destruct (sr_shape _ _ _ Hr [b] e) as [[Hk _]|[-> _]]; [done|constructor; [apply Hb|done]|done|..].
    + by destruct (not_bucket b [b] Hk).
    + apply (sr_buckets _ _ _ Hr); [done|by eexists].
  - apply runs_ret. split; [done|]. rewrite (sr_buckets _ _ _ Hr) by done. rewrite Hres. by intros [].
Qed.

Lemma require_runs b l m B M :
  clean_comp b -> valid (P [b]) -> at_filer rep l m -> s3_rep m B M ->
  runs (require_bucket bucketsPath b) l
    (unchanged m (fun r => match r with Ret _ => b ∈ B | Fail S3BucketNotFound => b ∉ B | _ => False end)).
Proof.
  intros Hb Hv Hl Hr. unfold require_bucket. apply runs_bind. eapply runs_mono; [by eapply BucketExists_runs|].
  intros r l' [Hl' Hres]. destruct r as [[]|[]|]; done.
Qed.

(** The directory of a key in an existing bucket. *)
Lemma ensure_key_runs b cs c l m B M :
  (b :: cs ++ [c])%list ∈ K -> b ∈ B -> at_filer rep l m -> s3_rep m B M ->
  runs (EnsureDirectory clock (P (b :: cs))) l (fun r l' => exists m', at_filer rep l' m' /\ s3_rep m' B M /\
    match r with Ret _ => has_parent m' (P (b :: cs ++ [c])%list) | Fail (S3Grpc _) => True | _ => False end).
Proof.
  intros Hk HbB Hl Hr. pose proof (key_clean _ Hk) as Hcl. apply Forall_cons in Hcl as [Hb Hcl]. apply Forall_app in Hcl as [Hcs Hc].
  apply Forall_cons in Hc as [Hc _]. assert (clean (b :: cs)) as Hbcs by by constructor.
  assert ((b :: cs) `prefix_of` (b :: cs ++ [c])%list) as Hpre by (by exists [c]).
  assert ((b :: cs) <> (b :: cs ++ [c])%list) as Hne by (intros E; apply (f_equal length) in E; cbn in E; rewrite length_app in E; cbn in E; lia).
  eapply runs_mono; [apply (EnsureDirectory_runs valid good rep Hgood clock (root ++ b :: cs)%list l m)|].
  - apply Forall_app_2; [apply HK|done].
  - by apply (valid_way _ _ Hk).
  - done.
  - apply Hr.
  - intros pre e Hpr He Hn. destruct (prefix_app_inv_cases pre root (b :: cs) Hpr) as [Hpr'|(cs' & -> & Hpr')].
    + by apply (sr_root _ _ _ Hr pre).
    + destruct (decide (cs' = [])) as [->|Hcs']; [rewrite app_nil_r in *; by apply (sr_root _ _ _ Hr root)|].
      destruct (sr_shape _ _ _ Hr cs' e) as [[Hk' _]|[? _]]; [done|by eapply clean_comps_ok, prefix_clean|done| |done].
      destruct Hne. assert (cs' = (b :: cs ++ [c])%list) as -> by (apply (ko_free HK); [done|done|by etrans]). by apply (anti_symm prefix).
  - intros r l' (m' & Hl' & Hg & Hres). exists m'. split; [done|]. split.
    + eapply (grow_rep (b :: cs)); [done|done|done|right; by exists (b :: cs ++ [c])%list|].
      intros b' Hb'. rewrite (sr_buckets _ _ _ Hr) by done. split; [intros [e He]; exists e; by apply (dg_old _ _ _ Hg)|].
      intros [e He]. destruct (dg_new _ _ _ Hg _ _ He) as [He'|[(pre & _ & Hpr & E) _]]; [by exists e|].
      apply (grown_path (b :: cs)) in E; [|done|by constructor; [apply Hb'|]|done].
      destruct E as [s [= <- _]]. by apply (sr_buckets _ _ _ Hr).
    + destruct r as [u|[]|]; try done. right. rewrite app_comm_cons, P_app, DirAndName_snoc by apply Hc. cbn [fst].
      destruct Hres as [E|Hres]; [by destruct root|done].
Qed.

(** The object of a new file entry. *)
Definition new_object (data : bytes) (mime : string) (ext : gmap string bytes) (now : Z) : ObjectData :=
  mkObjectData data mime ext now (i64 (zlen data)).

Lemma of_to_unix x : to_unix (of_unix x) = x.
Proof. unfold to_unix, of_unix. apply Z.div_mul. lia. Qed.

Lemma file_entry_object cs c data ext mime now :
  clean cs -> clean_comp c ->
  exists e, protoToEntry (path_of cs) (Some (file_entry c data ext mime now)) = Some e /\ e_FullPath e = path_of (cs ++ [c])%list /\
    IsDirectory e = false /\ object_of e = new_object data mime ext now.
Proof.
  intros Hcs Hc. eexists. split; [done|]. cbn [e_FullPath pe_Name file_entry]. split; [by apply joinDirectoryAndName_comp|].
  split; [done|]. unfold object_of, object_data, new_object. cbn. by rewrite of_to_unix.
Qed.

(** What a write of an object leaves. *)
Definition put_result {A : Type} (B : gset string) (M M' : gmap (list string) ObjectData) (r : outcome s3_err A) (l' : filers) : Prop :=
  match r with
  | Ret _ => rep_at l' B M'
  | Fail (S3Grpc _) => rep_at l' B M \/ rep_at l' B M'
  | _ => False
  end.

Lemma wrote_put {A : Type} k e (m : gmap string Entry) B M (r : outcome s3_err A) l' :
  s3_rep m B M -> k ∈ K -> has_parent m (P k) -> IsDirectory e = false -> wrote rep m (<[P k := e]> m) r l' ->
  put_result B M (<[k := object_of e]> M) r l'.
Proof.
  intros Hr Hk Hpar Hd Hw. assert (s3_rep (<[P k := e]> m) B (<[k := object_of e]> M)) as Hr' by by apply insert_rep.
  destruct r as [u|[]|]; try done; [by eexists|]. destruct Hw; [left|right]; by eexists.
Qed.

Lemma upsert_runs b cs c data ext mime now l m B M :
  (b :: cs ++ [c])%list ∈ K -> at_filer rep l m -> s3_rep m B M -> has_parent m (P (b :: cs ++ [c])%list) ->
  runs (upsertEntry clock (P (b :: cs)) (file_entry c data ext mime now)) l
    (put_result B M (<[(b :: cs ++ [c])%list := new_object data mime ext now]> M)).
Proof.
  intros Hk Hl Hr Hpar. pose proof (key_clean _ Hk) as Hcl. rewrite app_comm_cons in Hcl. apply Forall_app in Hcl as [Hbcs Hc].
  apply Forall_cons in Hc as [Hc _]. assert (clean (root ++ b :: cs)%list) as Hall by (apply Forall_app_2; [apply HK|done]).
  assert (P (b :: cs ++ [c])%list = path_of ((root ++ b :: cs) ++ [c])%list) as EP by (unfold P; by rewrite <- app_assoc).
  destruct (ko_key HK _ Hk) as (_ & _ & Hv). rewrite EP in Hv.
  destruct (file_entry_object (root ++ b :: cs)%list c data ext mime now Hall Hc) as (e & Hpb & Hp & Hd & Ho). rewrite <- Ho.
  unfold upsertEntry. cbn [pe_Name file_entry]. cbv zeta.
  assert (path_Join [P (b :: cs); c] = path_of ((root ++ b :: cs) ++ [c])%list) as -> by by apply path_Join_comp.
  apply runs_bind, runs_attempt. eapply runs_mono; [by apply (lookup_runs valid good rep (root ++ b :: cs)%list c)|].
  intros r l' [Hl' Hres]. destruct r as [pb|[]|]; try done.
  - eapply runs_mono; [apply (update_runs valid good rep Hgood (root ++ b :: cs)%list _ e _ m); [by rewrite Hp|done|done]|].
    rewrite Hp, <- EP. intros r l2. by apply wrote_put.
  - eapply runs_mono; [apply (create_runs valid good rep Hgood (root ++ b :: cs)%list c _ _ e _ m); try done; by rewrite <- EP|].
    rewrite <- EP. intros r l2. by apply wrote_put.
  - apply runs_fail. left. by exists m.
Qed.

Lemma splitPath_key b cs c : (b :: cs ++ [c])%list ∈ K -> splitPath (P (b :: cs ++ [c])%list) = (P (b :: cs), c).
Proof.
  intros Hk. pose proof (key_clean _ Hk) as Hcl. rewrite app_comm_cons in Hcl. apply Forall_app in Hcl as [Hbcs Hc].
  apply Forall_cons in Hc as [Hc _]. unfold P. rewrite app_comm_cons, app_assoc. apply splitPath_snoc; [|done].
  apply Forall_app_2; [apply HK|done].
Qed.

(** The write of a file of the gateway below a bucket, after the bucket was found. *)
Lemma put_file_runs b cs c data ext mime now l m B M :
  (b :: cs ++ [c])%list ∈ K -> b ∈ B -> at_filer rep l m -> s3_rep m B M ->
  runs (EnsureDirectory clock (P (b :: cs));; upsertEntry clock (P (b :: cs)) (file_entry c data ext mime now)) l
    (put_result B M (<[(b :: cs ++ [c])%list := new_object data mime ext now]> M)).
Proof.
  intros Hk HbB Hl Hr. apply runs_bind. eapply runs_mono; [by eapply ensure_key_runs|].
  intros r l' (m' & Hl' & Hr' & Hres). destruct r as [u|[]|]; try done; [by eapply upsert_runs|]. left. by exists m'.
Qed.

Definition octet (mime : string) : string := if decide (mime = "") then "application/octet-stream" else mime.

(** The results of a write that needs a bucket. *)
Definition stored {A : Type} (b : string) (B : gset string) (M M' : gmap (list string) ObjectData) (a : A) (r : outcome s3_err A) (l' : filers) : Prop :=
  match r with
  | Ret x => b ∈ B /\ x = a /\ rep_at l' B M'
  | Fail S3BucketNotFound => b ∉ B /\ rep_at l' B M
  | Fail (S3Grpc _) => rep_at l' B M \/ (b ∈ B /\ rep_at l' B M')
  | _ => False
  end.

Lemma PutObject_runs b k data mime ext l B M :
  (b :: k) ∈ K -> rep_at l B M ->
  runs (PutObject bucketsPath clock b (Join "/" k) data mime ext) l
    (stored b B M (<[b :: k := new_object data (octet mime) ext (to_unix (clock (P (b :: k))))]> M) (md5_hex data)).
Proof.
  intros Hk (m & Hl & Hr). destruct (key_snoc _ Hk) as (b0 & cs & c & E & Hbcs & Hc). injection E as <- ->.
  apply Forall_cons in Hbcs as [Hb Hcs]. unfold PutObject. apply runs_bind.
  eapply runs_mono; [eapply require_runs; [done| |done|done]; apply (valid_way _ _ Hk); by exists (cs ++ [c])%list|].
  intros r l1 [Hl1 Hres]. destruct r as [u|[]|]; try done; [|by split; [|exists m]|by left; exists m].
  cbv zeta. rewrite object_path_P by (done || by apply Forall_app_2; [|by constructor]). rewrite splitPath_key by done.
  set (now := to_unix (clock _)). apply runs_bind. eapply runs_mono; [by eapply ensure_key_runs|].
  intros r l2 (m2 & Hl2 & Hr2 & Hres2). destruct r as [u2|[]|]; try done; [|by left; exists m2].
  apply runs_bind, runs_on_error. eapply runs_mono; [by eapply upsert_runs|]. intros r l3 Hput. unfold octet.
  destruct r as [u3|[]|]; try done. destruct Hput; [by left|by right].
Qed.

Lemma GetObject_runs b k l B M :
  (b :: k) ∈ K -> rep_at l B M ->
  runs (GetObject bucketsPath b (Join "/" k)) l (fun r l' => rep_at l' B M /\
    match r with
    | Ret o => M !! (b :: k) = Some o
    | Fail S3ObjectNotFound => M !! (b :: k) = None
    | Fail (S3Grpc _) => True
    | _ => False
    end).
Proof.
  intros Hk (m & Hl & Hr). destruct (key_snoc _ Hk) as (b0 & cs & c & E & Hbcs & Hc). injection E as <- ->.
  pose proof Hbcs as [Hb Hcs]%Forall_cons. unfold GetObject.
  rewrite object_path_P by (done || by apply Forall_app_2; [|by constructor]).
  pose proof (sr_objects _ _ _ Hr _ Hk) as HM. destruct (ko_key HK _ Hk) as (_ & _ & Hv).
  assert (P (b :: cs ++ [c])%list = path_of ((root ++ b :: cs) ++ [c])%list) as EP by (unfold P; by rewrite <- app_assoc).
  rewrite EP in *. apply runs_bind, runs_on_error.
  eapply runs_mono; [apply (lookup_runs valid good rep (root ++ b :: cs)%list c); first [done|apply Forall_app_2; [apply HK|done]]|].
  intros r l' [Hl' Hres]. assert (rep_at l' B M) as Hrep by by exists m. destruct r as [pb|[]|]; try done.
  - destruct Hres as (e & He & ->). cbn [entryToProto pe_IsDirectory]. rewrite He in HM.
    destruct (sr_shape _ _ _ Hr (b :: cs ++ [c])%list e) as [[_ ->]|[_ Hx]]; [done|by apply clean_comps_ok, key_clean|by rewrite EP| |].
    + by apply runs_ret.
    + exfalso. destruct (ko_key HK _ Hk) as (_ & Hlen & _). destruct Hx as [Hx|(k' & Hk' & Hp & Hne)]; [lia|].
      by destruct Hne; apply (ko_free HK).
  - split; [done|]. by rewrite HM, Hres.
Qed.

Lemma DeleteObject_runs b k l B M :
  (b :: k) ∈ K -> rep_at l B M ->
  runs (DeleteObject bucketsPath clock b (Join "/" k)) l (put_result B M (delete (b :: k) M)).
Proof.
  intros Hk (m & Hl & Hr). destruct (key_snoc _ Hk) as (b0 & cs & c & E & Hbcs & Hc). injection E as <- ->.
  pose proof Hbcs as [Hb Hcs]%Forall_cons. unfold DeleteObject.
  rewrite object_path_P by (done || by apply Forall_app_2; [|by constructor]). destruct (ko_key HK _ Hk) as (_ & _ & Hv).
  assert (s3_rep (delete (P (b :: cs ++ [c])%list) m) B (delete (b :: cs ++ [c])%list M)) as Hr'.
  { apply delete_rep; [|done|done]. intros p e. by apply at_abs with l. }
  assert (P (b :: cs ++ [c])%list = path_of ((root ++ b :: cs) ++ [c])%list) as EP by (unfold P; by rewrite <- app_assoc).
  rewrite EP in *. unfold ignore_not_found. apply runs_bind, runs_attempt.
  eapply runs_mono; [apply (delete_runs valid good rep clock (root ++ b :: cs)%list c); first [exact Hl|done|apply Forall_app_2; [apply HK|done]]|].
  intros r l' Hres. destruct r as [u|[]|]; try done.
  - apply runs_ret. by eexists.
  - apply runs_ret. by eexists.
  - apply runs_fail. destruct Hres; [left|right]; by eexists.
Qed.

Definition with_Extended (ext : gmap string bytes) (o : ObjectData) : ObjectData :=
  mkObjectData (od_Content o) (od_ContentType o) ext (od_Mtime o) (od_Size o).

Lemma set_Extended_entry cs c e ext :
  clean cs -> clean_comp c -> e_FullPath e = path_of (cs ++ [c])%list -> IsDirectory e = false ->
  exists e', protoToEntry (path_of cs) (Some (set_Extended ext (entryToProto e))) = Some e' /\ e_FullPath e' = path_of (cs ++ [c])%list /\
    IsDirectory e' = false /\ object_of e' = with_Extended ext (object_of e).
Proof.
  intros Hcs Hc Hp Hd. eexists. split; [done|]. cbn [e_FullPath pe_Name set_Extended entryToProto]. rewrite Hp, DirAndName_snoc by apply Hc.
  cbn [snd]. split; [by apply joinDirectoryAndName_comp|]. cbn [pe_IsDirectory set_Extended entryToProto]. rewrite Hd. split; [done|].
  unfold object_of, object_data, with_Extended. cbn. by rewrite of_to_unix.
Qed.

Lemma UpdateObjectExtended_runs b k f l B M :
  (b :: k) ∈ K -> rep_at l B M ->
  runs (UpdateObjectExtended bucketsPath b (Join "/" k) f) l (fun r l' =>
    match r, M !! (b :: k) with
    | Ret _, Some o => rep_at l' B (<[b :: k := with_Extended (f (od_Extended o)) o]> M)
    | Fail S3ObjectNotFound, None => rep_at l' B M
    | Fail (S3Grpc _), Some o => rep_at l' B M \/ rep_at l' B (<[b :: k := with_Extended (f (od_Extended o)) o]> M)
    | Fail (S3Grpc _), None => rep_at l' B M
    | _, _ => False
    end).
Proof.
  intros Hk (m & Hl & Hr). destruct (key_snoc _ Hk) as (b0 & cs & c & E & Hbcs & Hc). injection E as <- ->.
  pose proof Hbcs as [Hb Hcs]%Forall_cons. unfold UpdateObjectExtended.
  rewrite object_path_P by (done || by apply Forall_app_2; [|by constructor]). cbv zeta. rewrite splitPath_key by done.
  pose proof (sr_objects _ _ _ Hr _ Hk) as HM. destruct (ko_key HK _ Hk) as (_ & Hlen & Hv).
  assert (P (b :: cs ++ [c])%list = path_of ((root ++ b :: cs) ++ [c])%list) as EP by (unfold P; by rewrite <- app_assoc).
  assert (clean (root ++ b :: cs)%list) as Hall by (apply Forall_app_2; [apply HK|done]).
  apply runs_bind, runs_on_error. rewrite EP in Hv. rewrite EP at 1.
  eapply runs_mono; [apply (lookup_runs valid good rep (root ++ b :: cs)%list c _ m); done|].
  intros r l' [Hl' Hres]. rewrite HM. destruct r as [pb|[]|]; try done.
  - destruct Hres as (e & He & ->). pose proof He as He'. rewrite <- EP in He'. rewrite He'. cbn [fmap option_fmap option_map].
    assert (IsDirectory e = false) as Hd.
    { destruct (sr_shape _ _ _ Hr (b :: cs ++ [c])%list e) as [[_ ?]|[_ Hx]]; [done|by apply clean_comps_ok, key_clean|done|done|].
      exfalso. destruct Hx as [Hx|(k' & Hk' & Hp & Hne)]; [lia|]. by destruct Hne; apply (ko_free HK). }
    assert (e_FullPath e = path_of ((root ++ b :: cs) ++ [c])%list) as Hfp.
    { destruct Hl as (fs & _ & f0 & s0 & _ & _ & Hs0). by destruct (rep_keyed s0 m _ e Hs0 He). }
    destruct (set_Extended_entry (root ++ b :: cs)%list c e (f (pe_Extended (entryToProto e))) Hall Hc Hfp Hd) as (e' & Hpb & Hp' & Hd' & Ho').
    eapply runs_mono; [apply (update_runs valid good rep Hgood (root ++ b :: cs)%list _ e' _ m); [by rewrite Hp'|done|done]|].
    rewrite Hp', <- EP. intros r l2 Hw. apply (wrote_put _ e' m B M) in Hw; [|done|done|by apply (sr_closed _ _ _ Hr) in He'|done].
    rewrite Ho' in Hw. destruct r as [u|[]|]; done.
  - rewrite EP, Hres. by exists m.
  - destruct (m !! P _); cbn; [left|]; by exists m.
Qed.

Lemma EnsureBucketsRoot_runs l m B M :
  valid (path_of root) -> at_filer rep l m -> s3_rep m B M ->
  runs (EnsureBucketsRoot bucketsPath clock) l (fun r l' => exists m', at_filer rep l' m' /\ s3_rep m' B M /\
    match r with Ret _ => root = [] \/ is_Some (m' !! path_of root) | Fail (S3Grpc _) => True | _ => False end).
Proof.
  intros Hv Hl Hr. unfold EnsureBucketsRoot.
  eapply runs_mono; [apply (EnsureDirectory_runs valid good rep Hgood clock root l m); [apply HK|done|done|apply Hr|]|].
  - intros pre e Hpre He Hne. by apply (sr_root _ _ _ Hr pre).
  - intros r l' (m' & Hl' & Hg & Hres). exists m'. split; [done|]. split; [|done].
    eapply (grow_rep []); [done|by rewrite app_nil_r|constructor|cbn; left; lia|].
    intros b Hb. rewrite (sr_buckets _ _ _ Hr) by done. split; [intros [e He]; exists e; by apply (dg_old _ _ _ Hg)|].
    intros [e He]. destruct (dg_new _ _ _ Hg _ _ He) as [He'|[(pre & _ & Hpr & E) _]]; [by exists e|].
    apply (grown_path []) in E; [|done|by constructor; [apply Hb|]|by rewrite app_nil_r]. destruct E as [s E]. done.
Qed.

Lemma CreateBucket_runs b l B M :
  clean_comp b -> valid (P [b]) -> rep_at l B M ->
  runs (CreateBucket bucketsPath clock b) l (fun r l' =>
    match r with
    | Ret _ => b ∉ B /\ rep_at l' ({[b]} ∪ B) M
    | Fail S3BucketExists => b ∈ B /\ rep_at l' B M
    | Fail (S3Grpc _) => rep_at l' B M \/ rep_at l' ({[b]} ∪ B) M
    | _ => False
    end).
Proof.
  intros Hb Hv (m & Hl & Hr). assert (valid (path_of root)) as Hvr.
  { apply (valid_prefix valid good rep root [b]); [constructor; [apply Hb|done]|done]. }
  unfold CreateBucket. apply runs_bind. eapply runs_mono; [by eapply EnsureBucketsRoot_runs|].
  intros r l1 (m1 & Hl1 & Hr1 & Hx). destruct r as [u|[]|]; try done; [|by left; exists m1].
  apply runs_bind. eapply runs_mono; [by eapply BucketExists_runs|]. intros r l2 [Hl2 Hres].
  destruct r as [[]|[]|]; try done; [by apply runs_fail; split; [|exists m1]| |by left; exists m1].
  rewrite bucketPath_P by done.
  eapply runs_mono; [apply (EnsureDirectory_runs valid good rep Hgood clock (root ++ [b])%list l2 m1)|].
  - apply Forall_app_2; [apply HK|by constructor].
  - done.
  - done.
  - apply Hr1.
  - intros pre e Hpr He Hn. destruct (prefix_app_inv_cases pre root [b] Hpr) as [Hpr'|(cs' & -> & Hpr')].
    + by apply (sr_root _ _ _ Hr1 pre).
    + destruct (decide (cs' = [])) as [->|Hcs']; [rewrite app_nil_r in *; by apply (sr_root _ _ _ Hr1 root)|].
      destruct (sr_shape _ _ _ Hr1 cs' e) as [[Hk' _]|[? _]]; [done| |done| |done].
      * eapply clean_comps_ok, prefix_clean; [|done]. by constructor.
      * apply prefix_length in Hpr'. destruct (ko_key HK _ Hk') as (_ & Hlen & _). cbn in Hpr'. lia.
  - intros r l3 (m3 & Hl3 & Hg & Hfin).
    assert (forall b', clean_comp b' -> b' <> b -> b' ∈ B <-> is_Some (m3 !! P [b'])) as Hother.
    { intros b' Hb' Hne. rewrite (sr_buckets _ _ _ Hr1) by done. split; [intros [e He]; exists e; by apply (dg_old _ _ _ Hg)|].
      intros [e He]. destruct (dg_new _ _ _ Hg _ _ He) as [He'|[(pre & _ & Hpr & E) _]]; [by exists e|].
      apply (grown_path [b]) in E; [|by constructor|by constructor; [apply Hb'|]|done]. by destruct E as [s [= -> _]]. }
    assert (forall B', (b ∈ B' <-> is_Some (m3 !! P [b])) -> (forall b', b' <> b -> b' ∈ B' <-> b' ∈ B) -> rep_at l3 B' M) as Hfinal.
    { intros B' H1 H2. exists m3. split; [done|]. eapply (grow_rep [b]); [done|done|by constructor|cbn; left; lia|].
      intros b' Hb'. destruct (decide (b' = b)) as [->|Hne]; [done|]. rewrite H2 by done. by apply Hother. }
    destruct (m3 !! P [b]) as [e|] eqn:E3.
    + assert (rep_at l3 ({[b]} ∪ B) M) as HB by (apply Hfinal; [split; [by eexists|set_solver]|set_solver]).
      destruct r as [u3|[]|]; try done. by right.
    + destruct r as [u3|[]|]; try done; [destruct Hfin as [Hf|Hf]; [by destruct root|fold (P [b]) in Hf; rewrite E3 in Hf; by destruct Hf]|].
      left. apply Hfinal; [split; [done|by intros []]|done].
Qed.

(** ** Listings *)

(** A component that listings show. *)
Definition visible (c : string) : Prop := HasPrefix c "." = false.

Definition info_of (key : string) (o : ObjectData) : ObjectInfo :=
  mkObjectInfo key (od_Size o) (od_Mtime o) (of_bytes (default [] (od_Extended o !! "s3:etag"))).

(** The prefix of the keys below a directory. *)
Definition key_prefix (pre : list string) : string := match pre with [] => "" | _ => Join "/" pre +:+ "/" end.

Lemma Join_snoc pre c : Join "/" (pre ++ [c])%list = key_prefix pre +:+ c.
Proof.
  induction pre as [|d pre IH]; [done|]. destruct pre as [|d' pre]; [cbn; by rewrite <- append_assoc|].
  cbn [app Join key_prefix] in *. rewrite IH. by rewrite !append_assoc.
Qed.

Lemma key_prefix_snoc pre c : key_prefix (pre ++ [c])%list = key_prefix pre +:+ c +:+ "/".
Proof.
  rewrite append_assoc, <- Join_snoc. unfold key_prefix at 1. by destruct pre.
Qed.

Lemma Join_inj cs1 cs2 : Forall comp_ok cs1 -> Forall comp_ok cs2 -> Join "/" cs1 = Join "/" cs2 -> cs1 = cs2.
Proof. intros H1 H2 E. apply path_of_inj; [done|done|]. by rewrite <- !Join_path_of, E. Qed.

(** The objects below the directory [pre] of a bucket that a listing shows, through the
    children with the given names. *)
Definition shows (M : gmap (list string) ObjectData) (b flt : string) (pre : list string) (names : list string) (oi : ObjectInfo) : Prop :=
  exists name s o, name ∈ names /\ M !! (b :: pre ++ name :: s)%list = Some o /\ visible name /\ Forall visible s /\
    HasPrefix (Join "/" (pre ++ name :: s)%list) flt = true /\ oi = info_of (Join "/" (pre ++ name :: s)%list) o.

(** The result of a walk. *)
Definition walked (m : gmap string Entry) (Q : ObjectInfo -> Prop) (r : outcome s3_err (list ObjectInfo)) (l' : filers) : Prop :=
  at_filer rep l' m /\
  match r with
  | Ret objs => NoDup (oi_Key <$> objs) /\ forall oi, oi ∈ objs <-> Q oi
  | Fail (S3Grpc _) => True
  | _ => False
  end.

Lemma HasPrefix_empty s : HasPrefix s "" = true.
Proof. by destruct s. Qed.

(** A child of a directory in a bucket. *)
Lemma child_cases m B M b pre name e :
  s3_rep m B M -> clean (b :: pre) -> comp_ok name -> m !! P (b :: pre ++ [name])%list = Some e ->
  ((b :: pre ++ [name])%list ∈ K /\ IsDirectory e = false /\ M !! (b :: pre ++ [name])%list = Some (object_of e)) \/
  (IsDirectory e = true /\ exists k, k ∈ K /\ (b :: pre ++ [name])%list `prefix_of` k /\ (b :: pre ++ [name])%list <> k).
Proof.
  intros Hr Hc Hn He. assert (Forall comp_ok (b :: pre ++ [name])%list) as Hok.
  { rewrite app_comm_cons. apply Forall_app_2; [by apply clean_comps_ok|by constructor]. }
  destruct (sr_shape _ _ _ Hr (b :: pre ++ [name])%list e ltac:(done) Hok He) as [[Hk Hd]|[Hd [Hl|Hx]]].
  - left. split; [done|]. split; [done|]. by rewrite (sr_objects _ _ _ Hr), He.
  - cbn in Hl. rewrite length_app in Hl. cbn in Hl. lia.
  - by right.
Qed.

(** The objects of a directory that are reached through a file, and through a directory. *)
Lemma shows_file m B M b pre flt name e oi :
  s3_rep m B M -> (b :: pre ++ [name])%list ∈ K -> M !! (b :: pre ++ [name])%list = Some (object_of e) ->
  shows M b flt pre [name] oi <-> visible name /\ HasPrefix (key_prefix pre +:+ name) flt = true /\
    oi = info_of (key_prefix pre +:+ name) (object_of e).
Proof.
  intros Hr Hk HM. rewrite <- Join_snoc. split.
  - intros (n & s & o & ->%list_elem_of_singleton & Ho & Hv & Hs & Hp & ->).
    assert ((b :: pre ++ name :: s)%list ∈ K) as Hk' by (apply (sr_dom _ _ _ Hr); by eexists).
    assert ((b :: pre ++ [name])%list = (b :: pre ++ name :: s)%list) as E.
    { apply (ko_free HK); [done|done|]. exists s. cbn. by rewrite <- app_assoc. }
    injection E as E%app_inv_head. injection E as <-. rewrite HM in Ho. by injection Ho as <-.
  - intros (Hv & Hp & ->). exists name, [], (object_of e). split_and!; [by left|done|done|done|done|done].
Qed.

Lemma shows_dir M b pre flt name (m : gmap string Entry) B k oi :
  s3_rep m B M -> k ∈ K -> (b :: pre ++ [name])%list `prefix_of` k -> (b :: pre ++ [name])%list <> k -> visible name ->
  shows M b flt pre [name] oi <-> exists names, shows M b flt (pre ++ [name])%list names oi.
Proof.
  intros Hr Hk Hpre Hne Hv. split.
  - intros (n & s & o & ->%list_elem_of_singleton & Ho & _ & Hs & Hp & ->). destruct s as [|c s].
    { assert ((b :: pre ++ [name])%list ∈ K) as Hk' by (apply (sr_dom _ _ _ Hr); by eexists). by destruct Hne; apply (ko_free HK). }
    apply Forall_cons in Hs as [Hc Hs]. exists [c], c, s, o. rewrite <- app_assoc. split_and!; [by left|done..].
  - intros (names & c & s & o & _ & Ho & Hc & Hs & Hp & ->). rewrite <- app_assoc in *. exists name, (c :: s), o.
    split_and!; [by left|done|done|by constructor|done|done].
Qed.

Lemma shows_cons M b flt pre name names oi :
  shows M b flt pre (name :: names) oi <-> shows M b flt pre [name] oi \/ shows M b flt pre names oi.
Proof.
  split.
  - intros (n & s & o & [->|Hn]%elem_of_cons & H1); [left|right]; eexists _, s, o; (split; [|exact H1]); [by left|done].
  - intros [(n & s & o & ->%list_elem_of_singleton & H1)|(n & s & o & Hn & H1)]; eexists _, s, o; (split; [|exact H1]); [by left|by right].
Qed.

Lemma shows_hidden M b flt pre name oi : ~ visible name -> ~ shows M b flt pre [name] oi.
Proof. intros Hv (n & s & o & ->%list_elem_of_singleton & _ & Hv' & _). done. Qed.

(** The key of an object that a listing shows has the name of the child in it. *)
Lemma shows_name m B M b flt pre name names oi1 oi2 :
  s3_rep m B M -> shows M b flt pre [name] oi1 -> shows M b flt pre names oi2 -> oi_Key oi1 = oi_Key oi2 -> name ∈ names.
Proof.
  intros Hr (n1 & s1 & o1 & ->%list_elem_of_singleton & Ho1 & _ & _ & _ & ->) (n2 & s2 & o2 & Hn2 & Ho2 & _ & _ & _ & ->) E. cbn in E.
  assert (forall s o, M !! (b :: s) = Some o -> Forall comp_ok s) as Hok.
  { intros s o Ho. assert (b :: s ∈ K) as Hk by (apply (sr_dom _ _ _ Hr); by eexists).
    apply key_clean, clean_comps_ok in Hk. by apply Forall_cons in Hk as [_ ?]. }
  apply Join_inj in E; [|by eapply Hok..]. apply app_inv_head in E. by injection E as -> _.
Qed.

Lemma walked_app m B M b flt pre name names below rest :
  s3_rep m B M -> name ∉ names ->
  NoDup (oi_Key <$> below) -> (forall oi, oi ∈ below <-> shows M b flt pre [name] oi) ->
  NoDup (oi_Key <$> rest) -> (forall oi, oi ∈ rest <-> shows M b flt pre names oi) ->
  NoDup (oi_Key <$> (below ++ rest)%list) /\ forall oi, oi ∈ (below ++ rest)%list <-> shows M b flt pre (name :: names) oi.
Proof.
  intros Hr Hn N1 H1 N2 H2. split.
  - rewrite fmap_app. apply NoDup_app. split_and!; [done| |done].
    intros key (oi1 & -> & Hoi1%H1)%list_elem_of_fmap (oi2 & E & Hoi2%H2)%list_elem_of_fmap. destruct Hn. by eapply shows_name.
  - intros oi. rewrite elem_of_app, shows_cons, H1, H2. done.
Qed.

Lemma walk_entries_runs rec b pre flt ls l m B M :
  s3_rep m B M -> clean (b :: pre) -> at_filer rep l m ->
  (forall name e, (name, e) ∈ ls -> comp_ok name /\ m !! P (b :: pre ++ [name])%list = Some e /\ e_FullPath e = P (b :: pre ++ [name])%list) ->
  NoDup ls.*1 ->
  (forall name l, at_filer rep l m -> clean (b :: pre ++ [name])%list -> is_Some (m !! P (b :: pre ++ [name])%list) ->
    runs (rec (P (b :: pre ++ [name])%list) (key_prefix (pre ++ [name])%list)) l
      (walked m (fun oi => exists names, shows M b flt (pre ++ [name])%list names oi))) ->
  runs (walk_entries rec (P (b :: pre)) (key_prefix pre) flt ((fun x => entryToProto (snd x)) <$> ls)) l
    (walked m (shows M b flt pre ls.*1)).
Proof.
  intros Hr Hc Hl Hls Hnd Hrec. revert l Hl. induction ls as [|[name e] ls IH]; intros l Hl.
  { apply runs_ret. split; [done|]. split; [constructor|]. intros oi. split; [by intros ?%not_elem_of_nil|]. by intros (n & s & o & ?%not_elem_of_nil & _). }
  cbn [fmap list_fmap fst] in Hnd. apply NoDup_cons in Hnd as [Hn Hnd].
  destruct (Hls name e) as (Hok & He & Hfp); [by left|]. specialize (IH ltac:(intros; apply Hls; by right) Hnd).
  cbn [fmap list_fmap walk_entries snd fst]. assert (pe_Name (entryToProto e) = name) as ->.
  { cbn [entryToProto pe_Name]. rewrite Hfp, app_comm_cons, P_app, DirAndName_snoc by done. done. }
  cbv zeta. case_decide as Hhid.
  { assert (~ visible name) as Hv by (unfold visible; destruct Hhid as [->|Hh]; [by destruct Hok|congruence]).
    eapply runs_mono; [by apply IH|]. intros r l' [Hl' Hres]. split; [done|]. destruct r; [|done..]. destruct Hres as [N Hres]. split; [done|].
    intros oi. rewrite Hres, shows_cons. pose proof (shows_hidden M b flt pre name oi Hv). tauto. }
  assert (visible name) as Hv by (unfold visible; by apply not_true_is_false; intros ?; apply Hhid; right).
  cbn [entryToProto pe_IsDirectory]. destruct (child_cases m B M b pre name e Hr Hc Hok He) as [(Hk & -> & HM)|(-> & k & Hk & Hpre & Hne)].
  - apply runs_bind. eapply runs_mono; [by apply IH|]. intros r l' [Hl' Hres]. destruct r as [rest|[]|]; try done. destruct Hres as [N Hres].
    pose proof (fun oi => shows_file m B M b pre flt name e oi Hr Hk HM) as Hf. apply runs_ret. split; [done|]. case_decide as Hflt.
    + split; [done|]. intros oi. rewrite Hres, shows_cons, Hf. destruct Hflt as [_ ->]. naive_solver.
    + apply (walked_app m B M b flt pre name ls.*1 [object_info _ _] rest Hr Hn); [apply NoDup_singleton| |done|done].
      intros oi. rewrite list_elem_of_singleton, Hf. change (object_info (key_prefix pre +:+ name) (entryToProto e)) with (info_of (key_prefix pre +:+ name) (object_of e)).
      split; [|naive_solver]. intros ->. split_and!; [done| |done]. destruct (decide (flt = "")) as [->|]; [apply HasPrefix_empty|].
      apply not_false_iff_true. intros ?. by apply Hflt.
  - assert (clean (b :: pre ++ [name])%list) as Hc' by (eapply prefix_clean; [by apply key_clean|done]).
    assert (path_Join [P (b :: pre); name] = P (b :: pre ++ [name])%list) as ->.
    { rewrite app_comm_cons, P_app. apply path_Join_comp; [apply Forall_app_2; [apply HK|done]|].
      rewrite app_comm_cons in Hc'. apply Forall_app in Hc' as [_ Hc']. by apply Forall_cons in Hc' as [? _]. }
    rewrite <- key_prefix_snoc. apply runs_bind. eapply runs_mono; [apply Hrec; [done|done|by eexists]|].
    intros r l1 [Hl1 Hbelow]. destruct r as [below|[]|]; try done. destruct Hbelow as [N1 H1].
    apply runs_bind. eapply runs_mono; [by apply IH|]. intros r l2 [Hl2 Hres]. destruct r as [rest|[]|]; try done. destruct Hres as [N2 H2].
    apply runs_ret. split; [done|]. eapply walked_app; [done|done|done| |done|done].
    intros oi. rewrite H1. symmetry. by eapply shows_dir.
Qed.

(** The directories on the way to an entry below a bucket. *)
Lemma closed_way m B M cs s :
  s3_rep m B M -> cs <> [] -> Forall comp_ok (cs ++ s)%list -> is_Some (m !! P (cs ++ s)%list) -> is_Some (m !! P cs).
Proof.
  intros Hr Hne. induction s as [|c s IH] using rev_ind; intros Hok Hm; [by rewrite app_nil_r in Hm|].
  rewrite app_assoc in Hok, Hm. apply Forall_app in Hok as [Hok Hc]. apply Forall_cons in Hc as [Hc _]. apply IH; [done|].
  destruct Hm as [e He]. destruct (sr_closed _ _ _ Hr _ _ He) as [Hp|Hp]; rewrite P_app, DirAndName_snoc in Hp by done; cbn in Hp.
  - apply path_of_root in Hp; [|by apply P_ok]. destruct cs; [done|]. by destruct root.
  - done.
Qed.

(** The entries of a directory in a bucket. *)
Lemma listed_children l m B M b pre ls :
  at_filer rep l m -> s3_rep m B M -> clean (b :: pre) -> listed m (P (b :: pre)) "" false "" ls ->
  forall name e, (name, e) ∈ ls <-> comp_ok name /\ m !! P (b :: pre ++ [name])%list = Some e /\ e_FullPath e = P (b :: pre ++ [name])%list.
Proof.
  intros Hl Hr Hc Hls name e. rewrite (ls_elem _ _ _ _ _ _ Hls).
  assert (Forall comp_ok (root ++ b :: pre)%list) as Hok by by apply P_ok, clean_comps_ok. split.
  - intros (p & Hp & Hd & _ & _). destruct (at_abs l m p e Hl Hp) as (qs & Hqs & ->).
    assert (e_FullPath e = path_of qs) as Hfp.
    { destruct Hl as (fs & _ & f & s0 & _ & _ & Hs0). by destruct (rep_keyed s0 m _ e Hs0 Hp). }
    destruct qs as [|c qs _] using rev_ind.
    { change (path_of []) with "/" in Hd. rewrite DirAndName_root in Hd. injection Hd as E _. symmetry in E.
      apply path_of_root in E; [by destruct root|done]. }
    apply Forall_app in Hqs as [Hqs Hc']. apply Forall_cons in Hc' as [Hc' _]. rewrite DirAndName_snoc in Hd by done. injection Hd as E ->.
    apply path_of_inj in E as ->; [|done|done]. rewrite app_comm_cons, P_app. by split.
  - intros (Hn & He & Hfp). exists (P (b :: pre ++ [name])%list). split; [done|]. rewrite app_comm_cons, P_app, DirAndName_snoc by done.
    split_and!; [done|apply HasPrefix_empty|by left].
Qed.

Lemma length_omap_le {A B} (f : A -> option B) l : (length (omap f l) <= length l)%nat.
Proof. induction l as [|x l IH]; [done|]. cbn. destruct (f x); cbn; lia. Qed.

(** A directory in a bucket has at most as many entries as there are keys. *)
Lemma listed_length l m B M b pre ls :
  Z.of_nat (length K) <= 10000 -> at_filer rep l m -> s3_rep m B M -> clean (b :: pre) -> listed m (P (b :: pre)) "" false "" ls ->
  NoDup ls.*1 /\ take (Z.to_nat 10000) ls = ls.
Proof.
  intros Hsize Hl Hr Hc Hls. pose proof (listed_children l m B M b pre ls Hl Hr Hc Hls) as Hel.
  assert (NoDup ls.*1) as Hnd.
  { pose proof (ls_sorted _ _ _ _ _ _ Hls) as Hs. clear -Hs. induction Hs as [|[n e] ls Hs IH Hf]; cbn; constructor; [|done].
    intros ([n' e'] & -> & Hin)%list_elem_of_fmap. rewrite Forall_forall in Hf. specialize (Hf _ Hin). by apply str_lt_irrefl in Hf. }
  split; [done|]. apply take_ge.
  assert (ls.*1 ⊆+ omap (fun k => k !! Datatypes.S (length pre)) K) as Hsub.
  { apply NoDup_submseteq; [done|]. intros name ([n e] & -> & Hin)%list_elem_of_fmap. apply Hel in Hin as (Hok & He & _). cbn [fst].
    apply list_elem_of_omap.
    assert (exists k, k ∈ K /\ (b :: pre ++ [n])%list `prefix_of` k) as (k & Hk & s & ->).
    { destruct (child_cases m B M b pre n e Hr Hc Hok He) as [(Hk & _)|(_ & k & Hk & Hp & _)]; eauto. }
    eexists. split; [done|]. cbn. rewrite <- app_assoc. by apply list_lookup_middle. }
  apply submseteq_length in Hsub. rewrite length_fmap in Hsub. pose proof (length_omap_le (fun k : list string => k !! Datatypes.S (length pre)) K).
  lia.
Qed.

Lemma walkObjects_runs fuel b pre flt l m B M :
  Z.of_nat (length K) <= 10000 -> s3_rep m B M -> clean (b :: pre) -> at_filer rep l m -> is_Some (m !! P (b :: pre)) ->
  (forall k, k ∈ K -> (length k <= length (b :: pre) + fuel)%nat) ->
  runs (walkObjects fuel (P (b :: pre)) (key_prefix pre) flt) l (walked m (fun oi => exists names, shows M b flt pre names oi)).
Proof.
  intros Hsize Hr. revert pre l. induction fuel as [|fuel IH]; intros pre l Hc Hl [e0 He0] Hfuel.
  { apply runs_ret. split; [done|]. split; [constructor|]. intros oi. split; [by intros ?%not_elem_of_nil|].
    intros (names & n & s & o & _ & Ho & _). assert ((b :: pre ++ n :: s)%list ∈ K) as Hk by (apply (sr_dom _ _ _ Hr); by eexists).
    apply Hfuel in Hk. cbn in Hk. rewrite length_app in Hk. cbn in Hk. lia. }
  cbn [walkObjects]. apply runs_bind, runs_attempt.
  eapply runs_mono; [apply (list_runs valid good rep (root ++ b :: pre)%list l m); [apply Forall_app_2; [apply HK|done]|by eapply at_valid|done]|].
  fold (P (b :: pre)). intros r l' [Hl' Hres]. destruct r as [es|[]|]; try done. destruct Hres as (ls & Hls & ->).
  destruct (listed_length l' m B M b pre ls Hsize Hl' Hr Hc Hls) as [Hnd ->].
  pose proof (listed_children l' m B M b pre ls Hl' Hr Hc Hls) as Hel.
  eapply runs_mono; [apply (walk_entries_runs _ b pre flt ls l' m B M Hr Hc Hl'); [by intros ? ? ?%Hel|done|]|].
  - intros name l2 Hl2 Hc2 Hsome. apply IH; [done|done|done|]. intros k Hk. specialize (Hfuel k Hk). cbn in *. rewrite length_app. cbn. lia.
  - intros r l2 [Hl2 Hres2]. split; [done|]. destruct r as [objs|[]|]; try done. destruct Hres2 as [N Hobj]. split; [done|].
    intros oi. rewrite Hobj. split; [by eauto|]. intros (names & n & s & o & _ & Ho & Hrest). exists n, s, o. split; [|done].
    assert ((b :: pre ++ n :: s)%list ∈ K) as Hk by (apply (sr_dom _ _ _ Hr); by eexists).
    assert (is_Some (m !! P ((b :: pre ++ [n]) ++ s)%list)) as Hm.
    { pose proof (sr_objects _ _ _ Hr _ Hk) as HM. rewrite Ho in HM. cbn [app]. rewrite <- app_assoc. cbn [app].
      destruct (m !! P (b :: pre ++ n :: s)%list); [by eexists|done]. }
    assert (Forall comp_ok ((b :: pre ++ [n]) ++ s)%list) as Hok.
    { cbn [app]. rewrite <- app_assoc. by apply clean_comps_ok, key_clean. }
    destruct (closed_way m B M (b :: pre ++ [n])%list s Hr ltac:(done) Hok Hm) as [e He].
    apply list_elem_of_fmap. exists (n, e). split; [done|]. apply Hel. apply Forall_app in Hok as [Hok _]. rewrite app_comm_cons in Hok.
    apply Forall_app in Hok as [_ Hn]. apply Forall_cons in Hn as [Hn _]. split; [done|]. split; [done|].
    destruct Hl as (fs & _ & f & s0 & _ & _ & Hs0). by destruct (rep_keyed s0 m _ e Hs0 He).
Qed.

#[local] Instance key_le_trans : Transitive key_le.
Proof. intros x y z. unfold key_le. apply transitivity. Qed.
#[local] Instance key_le_total : Total key_le.
Proof. intros x y. unfold key_le. apply total. apply _. Qed.

Definition key_lt (x y : ObjectInfo) : Prop := str_lt (oi_Key x) (oi_Key y).

Lemma sorted_keys l : StronglySorted key_le l -> NoDup (oi_Key <$> l) -> StronglySorted key_lt l.
Proof.
  induction 1 as [|x l Hs IH Hf]; intros Hnd; constructor.
  - apply IH. cbn in Hnd. by apply NoDup_cons in Hnd as [_ ?].
  - cbn in Hnd. apply NoDup_cons in Hnd as [Hn _]. rewrite Forall_forall in Hf |- *. intros y Hy.
    apply str_le_lt; [by apply Hf|]. intros E. apply Hn. rewrite E. by apply (list_elem_of_fmap_2 oi_Key).
Qed.

(** What a listing of a bucket returns: the objects without hidden components in their keys,
    under a prefix, in the order of their keys. *)
Definition listing (M : gmap (list string) ObjectData) (b flt : string) (objs : list ObjectInfo) : Prop :=
  StronglySorted key_lt objs /\
  forall oi, oi ∈ objs <-> exists k o, M !! (b :: k) = Some o /\ Forall visible k /\ HasPrefix (Join "/" k) flt = true /\
    oi = info_of (Join "/" k) o.

Lemma ListObjects_runs fuel b flt l B M :
  clean_comp b -> valid (P [b]) -> (forall k, k ∈ K -> (length k <= 1 + fuel)%nat) -> Z.of_nat (length K) <= 10000 -> rep_at l B M ->
  runs (ListObjects bucketsPath fuel b flt) l (fun r l' => rep_at l' B M /\
    match r with
    | Ret objs => b ∈ B /\ listing M b flt objs
    | Fail S3BucketNotFound => b ∉ B
    | Fail (S3Grpc _) => True
    | _ => False
    end).
Proof.
  intros Hb Hv Hfuel Hsize (m & Hl & Hr). unfold ListObjects. apply runs_bind. eapply runs_mono; [by eapply require_runs|].
  intros r l1 [Hl1 Hres]. assert (forall l, at_filer rep l m -> rep_at l B M) as Hrep by (intros l0 ?; by exists m).
  destruct r as [u|[]|]; try (by split; [apply Hrep|]). rewrite bucketPath_P by done. apply runs_bind.
  eapply runs_mono; [apply (walkObjects_runs fuel b [] flt l1 m B M Hsize Hr); [by constructor|done| |done]|].
  { by apply (sr_buckets _ _ _ Hr). }
  intros r l2 [Hl2 Hobj]. destruct r as [objs|[]|]; try (by split; [apply Hrep|]). destruct Hobj as [N Hobj]. apply runs_ret.
  split; [by apply Hrep|]. split; [done|]. pose proof (merge_sort_Permutation key_le objs) as Hperm. split.
  - apply sorted_keys; [by apply StronglySorted_merge_sort; apply _|]. by rewrite Hperm.
  - intros oi. rewrite Hperm, Hobj. split.
    + intros (names & n & s & o & _ & Ho & Hn & Hs & Hp & ->). exists (n :: s), o. split_and!; [done|by constructor|done|done].
    + intros (k & o & Ho & Hk & Hp & ->). destruct k as [|n s].
      { assert ([b] ∈ K) as Hkb by (apply (sr_dom _ _ _ Hr); by eexists). by destruct (not_bucket b [b] Hkb). }
      apply Forall_cons in Hk as [Hn Hs]. exists [n], n, s, o. split_and!; [by left|done..].
Qed.

(** ** Metadata of buckets and parts of uploads *)

Lemma path_Join_two cs c1 c2 : clean cs -> clean_comp c1 -> clean_comp c2 -> path_Join [path_of cs; c1; c2] = path_of (cs ++ [c1; c2])%list.
Proof.
  intros Hcs H1 H2. assert (clean [c1; c2]) as H12 by by apply Forall_cons_2; [|apply Forall_cons_2].
  rewrite <- (path_Join_key cs [c1; c2]) by done.
  unfold path_Join. pose proof (path_of_nonempty cs). assert (c1 <> "") by apply H1. assert (c2 <> "") by apply H2.
  rewrite !filter_cons_True; try done. cbn. by destruct c1.
Qed.

Lemma meta_path_P b key : clean_comp b -> clean_comp key -> bucketMetaPath bucketsPath b key = P [b; ".sys"; key].
Proof.
  intros Hb Hk. unfold bucketMetaPath. rewrite bucketPath_P by done. unfold P. rewrite path_Join_two; [by rewrite <- app_assoc| | |done].
  - apply Forall_app_2; [apply HK|by constructor].
  - repeat split; try done. by vm_compute; set_solver.
Qed.

Lemma SetBucketMeta_runs b key value l B M :
  [b; ".sys"; key] ∈ K -> rep_at l B M ->
  runs (SetBucketMeta bucketsPath clock b key value) l
    (stored b B M (<[[b; ".sys"; key] := new_object value "application/octet-stream" ∅ (to_unix (clock (P [b; ".sys"; key])))]> M) tt).
Proof.
  intros Hk (m & Hl & Hr). pose proof (key_clean _ Hk) as Hcl. apply Forall_cons in Hcl as [Hb Hcl]. apply Forall_cons in Hcl as [_ Hcl].
  apply Forall_cons in Hcl as [Hkey _]. unfold SetBucketMeta. apply runs_bind.
  eapply runs_mono; [eapply require_runs; [done| |done|done]; apply (valid_way _ _ Hk); by exists [".sys"; key]|].
  intros r l1 [Hl1 Hres]. destruct r as [u|[]|]; try done; [|by split; [|exists m]|by left; exists m].
  cbv zeta. rewrite meta_path_P by done. pose proof (splitPath_key b [".sys"] key Hk) as Hsp. cbn [app] in Hsp. rewrite Hsp.
  eapply runs_mono; [exact (put_file_runs b [".sys"] key value ∅ "application/octet-stream" _ l1 m B M Hk Hres Hl1 Hr)|].
  intros r l2 Hput. destruct r as [[]|[]|]; try done. destruct Hput; [by left|by right].
Qed.

Lemma GetBucketMeta_runs b key l B M :
  [b; ".sys"; key] ∈ K -> rep_at l B M ->
  runs (GetBucketMeta bucketsPath b key) l (fun r l' => rep_at l' B M /\
    match r with
    | Ret v => od_Content <$> M !! [b; ".sys"; key] = Some v
    | Fail S3NotFound => M !! [b; ".sys"; key] = None
    | Fail (S3Grpc _) => True
    | _ => False
    end).
Proof.
  intros Hk (m & Hl & Hr). pose proof (key_clean _ Hk) as Hcl. apply Forall_cons in Hcl as [Hb Hcl]. apply Forall_cons in Hcl as [Hsys Hcl].
  apply Forall_cons in Hcl as [Hkey _]. unfold GetBucketMeta. rewrite meta_path_P by done.
  pose proof (sr_objects _ _ _ Hr _ Hk) as HM. destruct (ko_key HK _ Hk) as (_ & _ & Hv).
  assert (P [b; ".sys"; key] = path_of ((root ++ [b; ".sys"]) ++ [key])%list) as EP by (unfold P; by rewrite <- app_assoc).
  rewrite EP in *. apply runs_bind.
  eapply runs_mono; [apply (lookup_runs valid good rep (root ++ [b; ".sys"])%list key _ m); first [done|apply Forall_app_2; [apply HK|by apply Forall_cons_2; [|apply Forall_cons_2]]]|].
  intros r l' [Hl' Hres]. assert (rep_at l' B M) as Hrep by by exists m. destruct r as [pb|[]|]; try done.
  - destruct Hres as (e & He & ->). apply runs_ret. split; [done|]. by rewrite HM, He.
  - split; [done|]. by rewrite HM, Hres.
Qed.

Lemma clean_steps_rel cs acc : clean cs -> fold_left (clean_step false) cs acc = (reverse cs ++ acc)%list.
Proof.
  intros Hcs. revert acc. induction Hcs as [|c cs [[Hc1 Hc2] [Hc3 Hc4]] _ IH]; intros acc; [done|]. cbn [fold_left].
  rewrite IH, reverse_cons, <- app_assoc. cbn [app]. f_equal. unfold clean_step. rewrite !decide_False by tauto. done.
Qed.

Lemma Clean_relative cs : cs <> [] -> clean cs -> Clean (Join "/" cs) = Join "/" cs.
Proof.
  intros Hne Hcs. unfold Clean. destruct cs as [|c cs]; [done|]. pose proof Hcs as [Hc _]%Forall_cons. rewrite decide_False.
  2:{ intros E. apply (f_equal chars) in E. destruct Hc as [[Hc _] _]. destruct c; [done|]. destruct cs; done. }
  assert (HasPrefix (Join "/" (c :: cs)) "/" = false) as ->.
  { destruct Hc as [[Hc Hs] _]. destruct c as [|x c]; [done|].
    assert (x <> slash) as Hx by (intros ->; apply Hs; by left). unfold HasPrefix.
    destruct cs; cbn [Join]; rewrite ?append_cons; cbn [String.prefix]; by destruct (ascii_dec _ _). }
  rewrite Split_Join by (done || by apply clean_comps_ok). rewrite clean_steps_rel, app_nil_r, reverse_involutive by done.
  by rewrite decide_False.
Qed.

Lemma part_key_Join id n : clean [".uploads"; id; Itoa n] -> multipartPartKey id n = Join "/" [".uploads"; id; Itoa n].
Proof.
  intros Hc. unfold multipartPartKey, path_Join. pose proof Hc as Hc0. apply Forall_cons in Hc0 as [H1 Hc0]. apply Forall_cons in Hc0 as [H2 Hc0].
  apply Forall_cons in Hc0 as [H3 _]. rewrite !filter_cons_True by first [apply H1|apply H2|apply H3]. cbn [filter list_filter].
  by apply (Clean_relative [".uploads"; id; Itoa n]).
Qed.

(** ** Sequences of calls *)

(** A key is the list of its components. *)
Inductive s3_op :=
| OCreateBucket (b : string)
| OPut (b : string) (k : list string) (data : bytes) (mime : string) (ext : gmap string bytes)
| OGet (b : string) (k : list string)
| ODelete (b : string) (k : list string)
| OUpdate (b : string) (k : list string) (f : gmap string bytes -> gmap string bytes)
| OList (fuel : nat) (b prefix : string)
| OPutPart (b id : string) (n : Z) (data : bytes)
| OGetPart (b id : string) (n : Z)
| OSetMeta (b key : string) (value : bytes)
| OGetMeta (b key : string).

Inductive s3_out :=
| OutUnit
| OutETag (t : string)
| OutObject (o : ObjectData)
| OutPart (o : ObjectData) (t : string)
| OutMeta (v : bytes)
| OutList (l : list ObjectInfo).

Definition exec_s3 (op : s3_op) : GoM filers s3_err s3_out :=
  match op with
  | OCreateBucket b => CreateBucket bucketsPath clock b;; mret OutUnit
  | OPut b k data mime ext => t ← PutObject bucketsPath clock b (Join "/" k) data mime ext; mret (OutETag t)
  | OGet b k => o ← GetObject bucketsPath b (Join "/" k); mret (OutObject o)
  | ODelete b k => DeleteObject bucketsPath clock b (Join "/" k);; mret OutUnit
  | OUpdate b k f => UpdateObjectExtended bucketsPath b (Join "/" k) f;; mret OutUnit
  | OList fuel b prefix => l ← ListObjects bucketsPath fuel b prefix; mret (OutList l)
  | OPutPart b id n data => t ← PutMultipartPart bucketsPath clock b id n data; mret (OutETag t)
  | OGetPart b id n => '(o, t) ← GetMultipartPart bucketsPath b id n; mret (OutPart o t)
  | OSetMeta b key v => SetBucketMeta bucketsPath clock b key v;; mret OutUnit
  | OGetMeta b key => v ← GetBucketMeta bucketsPath b key; mret (OutMeta v)
  end.

(** The keys are those in use; the fuel of a listing exceeds their depth. *)
Definition s3_op_ok (op : s3_op) : Prop :=
  match op with
  | OCreateBucket b => clean_comp b /\ valid (P [b])
  | OPut b k _ _ _ | OGet b k | ODelete b k | OUpdate b k _ => b :: k ∈ K
  | OList fuel b _ => clean_comp b /\ valid (P [b]) /\ (forall k, k ∈ K -> (length k <= 1 + fuel)%nat) /\
      Z.of_nat (length K) <= 10000
  | OPutPart b id n _ | OGetPart b id n => [b; ".uploads"; id; Itoa n] ∈ K
  | OSetMeta b key _ | OGetMeta b key => [b; ".sys"; key] ∈ K
  end.

(** The abstract store: a set of buckets and a map of objects. *)
Abbreviation store := (gset string * gmap (list string) ObjectData)%type.

Definition now_at (k : list string) : Z := to_unix (clock (P k)).

(** Writing [o] at [k], when the bucket exists; an error of the filer leaves either state. *)
Definition put_spec (b : string) (k : list string) (o : ObjectData) (out : s3_out) (st : store) (r : outcome s3_err s3_out) (st' : store) : Prop :=
  match r with
  | Ret x => x = out /\ b ∈ fst st /\ st' = (fst st, <[k := o]> (snd st))
  | Fail S3BucketNotFound => b ∉ fst st /\ st' = st
  | Fail (S3Grpc _) => st' = st \/ (b ∈ fst st /\ st' = (fst st, <[k := o]> (snd st)))
  | _ => False
  end.

(** Reading: the abstract store stays, and an answer other than an error of the filer tells
    what is there. *)
Definition read_spec (Q : outcome s3_err s3_out -> Prop) (st : store) (r : outcome s3_err s3_out) (st' : store) : Prop :=
  st' = st /\ match r with Fail (S3Grpc _) => True | r => Q r end.

Definition s3_spec (op : s3_op) (st : store) (r : outcome s3_err s3_out) (st' : store) : Prop :=
  let '(B, M) := st in
  match op with
  | OCreateBucket b =>
      match r with
      | Ret x => x = OutUnit /\ b ∉ B /\ st' = ({[b]} ∪ B, M)
      | Fail S3BucketExists => b ∈ B /\ st' = st
      | Fail (S3Grpc _) => st' = st \/ st' = ({[b]} ∪ B, M)
      | _ => False
      end
  | OPut b k data mime ext =>
      put_spec b (b :: k) (new_object data (octet mime) ext (now_at (b :: k))) (OutETag (md5_hex data)) st r st'
  | OGet b k => read_spec (fun r => match r with Ret x => exists o, M !! (b :: k) = Some o /\ x = OutObject o | Fail S3ObjectNotFound => M !! (b :: k) = None | _ => False end) st r st'
  | ODelete b k =>
      match r with
      | Ret x => x = OutUnit /\ st' = (B, delete (b :: k) M)
      | Fail (S3Grpc _) => st' = st \/ st' = (B, delete (b :: k) M)
      | _ => False
      end
  | OUpdate b k f =>
      match r, M !! (b :: k) with
      | Ret x, Some o => x = OutUnit /\ st' = (B, <[b :: k := with_Extended (f (od_Extended o)) o]> M)
      | Fail S3ObjectNotFound, None => st' = st
      | Fail (S3Grpc _), Some o => st' = st \/ st' = (B, <[b :: k := with_Extended (f (od_Extended o)) o]> M)
      | Fail (S3Grpc _), None => st' = st
      | _, _ => False
      end
  | OList _ b prefix =>
      read_spec (fun r => match r with Ret x => b ∈ B /\ exists l, listing M b prefix l /\ x = OutList l | Fail S3BucketNotFound => b ∉ B | _ => False end) st r st'
  | OPutPart b id n data =>
      let k := [b; ".uploads"; id; Itoa n] in
      put_spec b k (new_object data "application/octet-stream" ∅ (now_at k)) (OutETag (md5_hex data)) st r st'
  | OGetPart b id n =>
      let k := [b; ".uploads"; id; Itoa n] in
      read_spec (fun r => match r with Ret x => exists o, M !! k = Some o /\ x = OutPart o (md5_hex (od_Content o)) | Fail S3NotFound => M !! k = None | _ => False end) st r st'
  | OSetMeta b key v =>
      put_spec b [b; ".sys"; key] (new_object v "application/octet-stream" ∅ (now_at [b; ".sys"; key])) OutUnit st r st'
  | OGetMeta b key =>
      read_spec (fun r => match r with Ret x => exists o, M !! [b; ".sys"; key] = Some o /\ x = OutMeta (od_Content o) | Fail S3NotFound => M !! [b; ".sys"; key] = None | _ => False end) st r st'
  end.

(** The end of a call that stores, with its answer made an output. *)
Lemma stored_spec {A : Type} b k o (a : A) out (f : A -> s3_out) B M r l' :
  f a = out -> stored b B M (<[k := o]> M) a r l' ->
  let Q := fun r l' => exists st', put_spec b k o out (B, M) r st' /\ rep_at l' (fst st') (snd st') in
  match r with Ret x => runs (mret (f x)) l' Q | Fail e => Q (Fail e) l' | Panic => Q Panic l' end.
Proof.
  intros Hf Hst. destruct r as [x|[]|]; try done; unfold runs; cbn.
  - destruct Hst as (Hb & -> & Hrep). by exists (B, <[k := o]> M).
  - destruct Hst as (Hb & Hrep). by exists (B, M).
  - destruct Hst as [Hrep|[Hb Hrep]]; [exists (B, M)|exists (B, <[k := o]> M)]; (split; [|done]); [by left|by right].
Qed.

Lemma exec_s3_runs op l B M :
  s3_op_ok op -> rep_at l B M ->
  runs (exec_s3 op) l (fun r l' => exists st', s3_spec op (B, M) r st' /\ rep_at l' (fst st') (snd st')).
Proof.
  intros Hok Hrep. destruct op as [b|b k data mime ext|b k|b k|b k f|fuel b prefix|b id n data|b id n|b key v|b key];
    cbn [exec_s3 s3_spec s3_op_ok] in *; apply runs_bind.
  - destruct Hok as [Hb Hv]. eapply runs_mono; [by apply (CreateBucket_runs b l B M)|]. intros r l' Hres.
    destruct r as [[]|[]|]; try done; unfold runs; cbn.
    + exists ({[b]} ∪ B, M). by destruct Hres.
    + exists (B, M). by destruct Hres.
    + destruct Hres; [exists (B, M)|exists ({[b]} ∪ B, M)]; auto.
  - eapply runs_mono; [by apply PutObject_runs|]. intros r l'. by apply stored_spec.
  - eapply runs_mono; [by apply GetObject_runs|]. intros r l' [Hr' Hres]. destruct r as [o|[]|]; try done; unfold runs; cbn; exists (B, M); (split; [|done]); (split; [done|]); eauto.
  - eapply runs_mono; [by apply DeleteObject_runs|]. intros r l' Hres. destruct r as [[]|[]|]; try done; unfold runs; cbn.
    + by exists (B, delete (b :: k) M).
    + destruct Hres; [exists (B, M)|exists (B, delete (b :: k) M)]; auto.
  - eapply runs_mono; [by apply UpdateObjectExtended_runs|]. intros r l' Hres. destruct (M !! (b :: k)) as [o|].
    + destruct r as [[]|[]|]; try done; unfold runs; cbn; [by eexists (B, _)|]. destruct Hres; [exists (B, M)|eexists (B, _)]; eauto.
    + destruct r as [[]|[]|]; try done; unfold runs; cbn; by exists (B, M).
  - destruct Hok as (Hb & Hv & Hf & Hsize). eapply runs_mono; [by apply (ListObjects_runs fuel b prefix l B M)|]. intros r l' [Hr' Hres].
    destruct r as [o|[]|]; try done; unfold runs; cbn; exists (B, M); (split; [|done]); (split; [done|]); try done. destruct Hres; eauto.
  - unfold PutMultipartPart. rewrite part_key_Join by by apply (Forall_cons_1 _ b), key_clean.
    eapply runs_mono; [by apply (PutObject_runs b [".uploads"; id; Itoa n])|]. intros r l'. by apply stored_spec.
  - unfold GetMultipartPart. rewrite part_key_Join by by apply (Forall_cons_1 _ b), key_clean. apply runs_bind, runs_on_error.
    eapply runs_mono; [by apply (GetObject_runs b [".uploads"; id; Itoa n])|]. intros r l' [Hr' Hres].
    destruct r as [o|[]|]; try done; unfold runs; cbn; exists (B, M); (split; [|done]); (split; [done|]); eauto.
  - eapply runs_mono; [by apply SetBucketMeta_runs|]. intros r l'. by apply (stored_spec b _ _ tt OutUnit (fun _ => OutUnit)).
  - eapply runs_mono; [by apply GetBucketMeta_runs|]. intros r l' [Hr' Hres].
    destruct r as [v|[]|]; try done; unfold runs; cbn; exists (B, M); (split; [|done]); (split; [done|]); try done.
    destruct (M !! [b; ".sys"; key]) as [o|]; [|done]. injection Hres as <-. eauto.
Qed.

(** A run of the abstract store with the given answers. *)
Inductive s3_runs : list s3_op -> store -> list (outcome s3_err s3_out) -> store -> Prop :=
| s3_runs_nil st : s3_runs [] st [] st
| s3_runs_cons op ops st r st1 rs st2 : s3_spec op st r st1 -> s3_runs ops st1 rs st2 -> s3_runs (op :: ops) st (r :: rs) st2.

Fixpoint exec_s3s (ops : list s3_op) (l : filers) : list (outcome s3_err s3_out) * filers :=
  match ops with
  | [] => ([], l)
  | op :: ops => let '(r, l) := exec_s3 op l in let '(rs, l) := exec_s3s ops l in (r :: rs, l)
  end.

Lemma exec_s3s_runs ops l B M :
  Forall s3_op_ok ops -> rep_at l B M ->
  let '(rs, l') := exec_s3s ops l in exists st', s3_runs ops (B, M) rs st' /\ rep_at l' (fst st') (snd st').
Proof.
  intros Hops. revert l B M. induction Hops as [|op ops Hop _ IH]; intros l B M Hrep; cbn [exec_s3s].
  { exists (B, M). split; [constructor|done]. }
  pose proof (exec_s3_runs op l B M Hop Hrep) as Hop'. unfold runs in Hop'. destruct (exec_s3 op l) as [r l1].
  destruct Hop' as ([B1 M1] & Hspec & Hrep1). specialize (IH l1 B1 M1 Hrep1). destruct (exec_s3s ops l1) as [rs l2].
  destruct IH as (st' & Hruns & Hrep2). exists st'. split; [by econstructor|done].
Qed.

Lemma rep_at_empty l : at_filer rep l ∅ -> rep_at l ∅ ∅.
Proof.
  intros Hl. exists ∅. split; [done|]. split.
  - by apply map_Forall_empty.
  - intros pre e _ _ He. by rewrite lookup_empty in He.
  - intros cs e _ _ He. by rewrite lookup_empty in He.
  - intros b _. rewrite lookup_empty. split; [set_solver|by intros []].
  - intros k _. by rewrite !lookup_empty.
  - intros k. rewrite lookup_empty. by intros [].
Qed.
End refine.


(** ** Examples *)

Definition sample_root : list string := ["buckets"].
Definition sample_keys : list (list string) := [["b"; "a"; "x"]; ["b"; "a"; "y"]; ["b"; ".sys"; "policy"]].
Definition sample_clock (p : string) : Z := 7 * 10 ^ 9.

Definition sample_s3_ops : list s3_op :=
  [OCreateBucket "b"; OPut "b" ["a"; "y"] [104; 105] "" ∅; OPut "b" ["a"; "x"] [120] "text/plain" ∅; OSetMeta "b" "policy" [123; 125];
   OGet "b" ["a"; "x"]; ODelete "b" ["a"; "x"]; OGet "b" ["a"; "x"]; OList 5 "b" ""].

Lemma sample_keys_ok : keys_ok abs_path sample_root sample_keys.
Proof.
  split.
  - by apply (bool_decide_unpack _); vm_compute.
  - intros k Hk. repeat (apply elem_of_cons in Hk as [->|Hk]; [split; [by apply (bool_decide_unpack _); vm_compute|]; split; [cbn; lia|]; eexists; split; [|done]; by apply (bool_decide_unpack _); vm_compute|]).
    by apply not_elem_of_nil in Hk.
  - assert (Forall (fun k1 => Forall (fun k2 => k1 `prefix_of` k2 -> k1 = k2) sample_keys) sample_keys) as Hf
      by (apply (bool_decide_unpack _); by vm_compute).
    intros k1 k2 H1 H2. rewrite Forall_forall in Hf. specialize (Hf k1 H1). rewrite Forall_forall in Hf. by apply Hf.
Qed.

Lemma sample_s3_ops_ok : Forall (s3_op_ok abs_path sample_root sample_keys) sample_s3_ops.
Proof.
  assert (clean_comp "b") as Hb by (apply (bool_decide_unpack _); by vm_compute).
  assert (abs_path (P sample_root ["b"])) as Hv by (eexists; split; [|done]; by apply (bool_decide_unpack _); vm_compute).
  repeat apply Forall_cons_2; try apply Forall_nil_2; cbn [s3_op_ok]; try (by apply (bool_decide_unpack _); vm_compute); try done.
  split; [done|]. split; [done|]. split; [|cbn; lia]. intros k Hk. repeat (apply elem_of_cons in Hk as [->|Hk]; [cbn; lia|]). by apply not_elem_of_nil in Hk.
Qed.

