(* ===== verification/Iam.v ===== *)
(** * Iam: the identities of the S3 gateway and their service

    Models [goblob/s3api/iam]: the configuration of identities, its validation and its
    persistence in the key-value store of the filer, and the grants of an identity.
    [path.Match] of the standard library is defined for ASCII text.  The two decodings of a
    stored configuration are arguments. *)

From S2P Require Import Prelude GoStrings GoPath FilerStore MemoryStore GoText Quota S3Store FilerServer.

#[local] Open Scope Z_scope.
#[local] Open Scope string_scope.

(** ** [path.Match] *)

(** One end of a range of a character class. *)
Definition getEsc (chunk : list ascii) : option (ascii * list ascii) :=
  chunk ← match chunk with
          | [] | "-"%char :: _ | "]"%char :: _ => None
          | "\"%char :: [] => None
          | "\"%char :: chunk => Some chunk
          | chunk => Some chunk
          end;
  match chunk with
  | c :: ((_ :: _) as rest) => Some (c, rest)
  | _ => None
  end.

(** The ranges of a class up to its end, and whether [r] is in one of them. *)
Fixpoint class_ranges (fuel : nat) (r : option ascii) (chunk : list ascii) (first matched : bool) : option (bool * list ascii) :=
  match fuel with
  | O => None
  | S fuel =>
      match chunk, first with
      | "]"%char :: chunk, false => Some (matched, chunk)
      | _, _ =>
          '(lo, chunk) ← getEsc chunk;
          '(hi, chunk) ← match chunk with "-"%char :: chunk => getEsc chunk | _ => Some (lo, chunk) end;
          class_ranges fuel r chunk false (matched || bool_decide (code lo <= default 0 (code <$> r) <= code hi))
      end
  end.

(** [None] is a malformed pattern, [Some None] a failed match. *)
Fixpoint matchChunk (fuel : nat) (chunk s : list ascii) (failed : bool) : option (option (list ascii)) :=
  match fuel with
  | O => None
  | S fuel =>
      let failed := failed || bool_decide (s = [] /\ chunk <> []) in
      let literal c chunk := matchChunk fuel chunk (if failed then s else tail s) (failed || bool_decide (head s <> Some c)) in
      match chunk with
      | [] => Some (if failed then None else Some s)
      | "["%char :: chunk =>
          let r := if failed then None else head s in
          let s := if failed then s else tail s in
          let '(negated, chunk) := match chunk with "^"%char :: chunk => (true, chunk) | _ => (false, chunk) end in
          '(matched, chunk) ← class_ranges (S (length chunk)) r chunk true false;
          matchChunk fuel chunk s (failed || bool_decide (matched = negated))
      | "?"%char :: chunk =>
          matchChunk fuel chunk (if failed then s else tail s) (failed || bool_decide (head s = Some slash))
      | "\"%char :: [] => None
      | "\"%char :: c :: chunk => literal c chunk
      | c :: chunk => literal c chunk
      end
  end.

Definition match_chunk (chunk s : list ascii) : option (option (list ascii)) := matchChunk (S (length chunk)) chunk s false.

Fixpoint drop_stars (pattern : list ascii) : bool * list ascii :=
  match pattern with
  | "*"%char :: pattern => (true, snd (drop_stars pattern))
  | _ => (false, pattern)
  end.

(** The pattern up to the next star that is not in a class. *)
Fixpoint scan (inrange : bool) (pattern : list ascii) : list ascii * list ascii :=
  match pattern with
  | [] => ([], [])
  | c :: pattern' =>
      if decide (c = "*"%char /\ inrange = false) then ([], pattern) else
      match c, pattern' with
      | "\"%char, d :: pattern'' => let '(a, b) := scan inrange pattern'' in (c :: d :: a, b)
      | _, _ =>
          let inrange := if decide (c = "["%char) then true else if decide (c = "]"%char) then false else inrange in
          let '(a, b) := scan inrange pattern' in (c :: a, b)
      end
  end.

Definition scanChunk (pattern : list ascii) : bool * list ascii * list ascii :=
  let '(star, pattern) := drop_stars pattern in
  let '(chunk, rest) := scan false pattern in (star, chunk, rest).

(** The rest of a pattern is checked although the match has failed. *)
Fixpoint check_rest (fuel : nat) (pattern : list ascii) : option bool :=
  match fuel, pattern with
  | S fuel, _ :: _ =>
      let '(_, chunk, pattern) := scanChunk pattern in
      match_chunk chunk [];; check_rest fuel pattern
  | _, _ => Some false
  end.

(** The chunk after a star, at the places of [name] before the next slash. *)
Fixpoint skip_match (chunk : list ascii) (last : bool) (name : list ascii) : option (option (list ascii)) :=
  match name with
  | [] => Some None
  | c :: name =>
      if decide (c = slash) then Some None else
      r ← match_chunk chunk name;
      match r with
      | Some t => if decide (last = true /\ t <> []) then skip_match chunk last name else Some (Some t)
      | None => skip_match chunk last name
      end
  end.

Fixpoint match_from (fuel : nat) (pattern name : list ascii) : option bool :=
  match fuel, pattern with
  | S fuel, _ :: _ =>
      let '(star, chunk, pattern) := scanChunk pattern in
      if decide (star = true /\ chunk = []) then Some (bool_decide (slash ∉ name)) else
      let last := bool_decide (pattern = []) in
      match match_chunk chunk name with
      | None => None
      | Some r =>
          match (t ← r; if decide (t = [] \/ pattern <> []) then Some t else None) with
          | Some t => match_from fuel pattern t
          | None =>
              r ← if (star : bool) then skip_match chunk last name else Some None;
              match r with Some t => match_from fuel pattern t | None => check_rest fuel pattern end
          end
      end
  | _, _ => Some (bool_decide (name = []))
  end.

(** [path.Match]; [None] is [ErrBadPattern].  Every chunk has a character, or is the last. *)
Definition path_Match (pattern name : string) : option bool :=
  match_from (S (String.length pattern)) (chars pattern) (chars name).

Example path_Match_examples :
  path_Match "b/*" "b/x" = Some true /\ path_Match "b/*" "b/x/y" = Some false /\ path_Match "a*b?c*x" "abxbbxdbxebxczzx" = Some true /\
  path_Match "a[^a-d\]]*" "ae/" = Some false /\ path_Match "a[" "a" = None /\ path_Match "*x" "xxx" = Some true /\
  path_Match "[]a]" "]" = None /\ path_Match "[x-]" "x" = None /\ path_Match "a[" "ab" = None /\ path_Match "a*[" "b" = None.
Proof. split_and!; vm_compute; reflexivity. Qed.

(** ** Identities *)

Record Credential := mkCredential { cr_AccessKey : string; cr_SecretKey : string }.
Record Identity := mkIdentity { id_Name : string; id_Credentials : list Credential; id_Actions : list string }.

#[export] Instance Credential_eq_dec : EqDecision Credential.
Proof. solve_decision. Defined.
#[export] Instance Identity_eq_dec : EqDecision Identity.
Proof. solve_decision. Defined.

(** The messages of a configuration, which may hold nil pointers. *)
Record PbIdentity := mkPbIdentity { pi_Name : string; pi_Credentials : list (option Credential); pi_Actions : list string }.

Abbreviation S3ApiConfiguration := (list (option PbIdentity)).

Inductive iam_err :=
| IamNoName
| IamEmptyKey (identity : string)
| IamDuplicate (accessKey owner identity : string)
| IamKvGet (e : store_err)
| IamKvPut (e : store_err)
| IamDecode
| IamEncode.

(** The credentials of one identity, after the keys in [seen]. *)
Fixpoint validate_credentials (name : string) (creds : list (option Credential)) (seen : gmap string string) : iam_err + gmap string string :=
  match creds with
  | [] => inr seen
  | None :: creds => validate_credentials name creds seen
  | Some cred :: creds =>
      let ak := TrimSpace (cr_AccessKey cred) in
      let sk := TrimSpace (cr_SecretKey cred) in
      if decide (ak = "" \/ sk = "") then inl (IamEmptyKey name) else
      match seen !! ak with
      | Some owner => inl (IamDuplicate ak owner name)
      | None => validate_credentials name creds (<[ak := name]> seen)
      end
  end.

Fixpoint validate_identities (ids : S3ApiConfiguration) (seen : gmap string string) : option iam_err :=
  match ids with
  | [] => None
  | None :: ids => validate_identities ids seen
  | Some i :: ids =>
      if decide (TrimSpace (pi_Name i) = "") then Some IamNoName else
      match validate_credentials (pi_Name i) (pi_Credentials i) seen with
      | inl e => Some e
      | inr seen => validate_identities ids seen
      end
  end.

(** A nil configuration is valid. *)
Definition iam_ValidateConfiguration (cfg : option S3ApiConfiguration) : option iam_err := cfg ≫= fun ids => validate_identities ids ∅.

(** [iam_hashes] has the key of the pool of an access key, its secret. *)
Record IdentityAccessManagement := mkIam { iam_identities : list Identity; iam_hashes : gmap string string }.

Definition new_iam : IdentityAccessManagement := mkIam [] ∅.

Fixpoint find_credential (accessKey : string) (creds : list Credential) : option string :=
  match creds with
  | [] => None
  | c :: creds => if decide (cr_AccessKey c = accessKey) then Some (cr_SecretKey c) else find_credential accessKey creds
  end.

Fixpoint lookup_key (accessKey : string) (ids : list Identity) : option (Identity * string) :=
  match ids with
  | [] => None
  | i :: ids => match find_credential accessKey (id_Credentials i) with Some sk => Some (i, sk) | None => lookup_key accessKey ids end
  end.

Definition LookupByAccessKey (iam : IdentityAccessManagement) (accessKey : string) : option (Identity * string) :=
  lookup_key accessKey (iam_identities iam).

Record AuthResult := mkAuthResult { ar_Identity : option Identity; ar_SecretKey : string; ar_IsAnon : bool; ar_ErrorCode : string }.

Definition Authenticate (iam : IdentityAccessManagement) (accessKey : string) : AuthResult :=
  if decide (accessKey = "") then mkAuthResult None "" true "" else
  match LookupByAccessKey iam accessKey with
  | None => mkAuthResult None "" false "InvalidAccessKeyId"
  | Some (identity, secret) => mkAuthResult (Some identity) secret false ""
  end.

(** ** Grants *)

Definition readActions : list string :=
  ["s3:GetObject"; "s3:HeadObject"; "s3:ListBucket"; "s3:ListAllMyBuckets"; "s3:GetBucketVersioning"; "s3:GetBucketPolicy";
   "s3:GetBucketCors"; "s3:GetBucketLifecycleConfiguration"; "s3:GetObjectTagging"].

Definition writeActions : list string :=
  ["s3:PutObject"; "s3:DeleteObject"; "s3:CreateBucket"; "s3:DeleteBucket"; "s3:CreateMultipartUpload"; "s3:UploadPart";
   "s3:CompleteMultipartUpload"; "s3:AbortMultipartUpload"; "s3:PutBucketVersioning"; "s3:PutBucketPolicy";
   "s3:DeleteBucketPolicy"; "s3:PutBucketCors"; "s3:PutBucketLifecycleConfiguration";
   "s3:DeleteBucketLifecycleConfiguration"; "s3:PutObjectTagging"; "s3:DeleteObjectTagging"].

Definition TrimSuffix (s suffix : string) : string :=
  if HasSuffix s suffix then str (take (String.length s - String.length suffix) (chars s)) else s.

Definition matchBucketObjectPattern (pattern bucket object : string) : bool :=
  let pattern := TrimSpace pattern in
  if decide (pattern = "") then false else
  if decide (pattern = "*") then true else
  let target := if decide (object <> "") then bucket +:+ "/" +:+ object else bucket in
  if decide (path_Match pattern target = Some true) then true else
  if HasSuffix pattern "/*" then
    let prefix := TrimSuffix pattern "/*" in bool_decide (bucket = prefix) || HasPrefix target (prefix +:+ "/")
  else false.

(** Whether one grant covers the action. *)
Definition grants_action (grant action bucket object : string) : bool :=
  let a := TrimSpace action in
  let g := TrimSpace grant in
  if decide (g = "") then false else
  bool_decide (g = "*" \/ g = "Admin") || bool_decide (g = a) ||
  bool_decide (g = "Read" /\ action ∈ readActions) || bool_decide (g = "Write" /\ action ∈ writeActions) ||
  HasPrefix g (a +:+ ":") && matchBucketObjectPattern (TrimSpace (TrimPrefix g (a +:+ ":"))) bucket object.

Definition IsAuthorized (identity : option Identity) (action bucket object : string) : bool :=
  match identity with
  | None => false
  | Some i =>
      if decide (TrimSpace action = "") then false
      else existsb (fun grant => grants_action grant action bucket object) (id_Actions i)
  end.

(** ** Configurations *)

Definition load_identity (i : PbIdentity) : Identity := mkIdentity (pi_Name i) (omap id (pi_Credentials i)) (pi_Actions i).

Definition set_pool (hashes : gmap string string) (c : Credential) : gmap string string := <[cr_AccessKey c := cr_SecretKey c]> hashes.

Definition Reload (cfg : option S3ApiConfiguration) (iam : IdentityAccessManagement) : option iam_err * IdentityAccessManagement :=
  match iam_ValidateConfiguration cfg with
  | Some e => (Some e, iam)
  | None =>
      let identities := load_identity <$> omap id (default [] cfg) in
      let hashes := fold_left (fun h i => fold_left set_pool (id_Credentials i) h) identities ∅ in
      (None, mkIam identities hashes)
  end.

Definition GetConfiguration (iam : IdentityAccessManagement) : S3ApiConfiguration :=
  (fun i => Some (mkPbIdentity (id_Name i) (Some <$> id_Credentials i) (id_Actions i))) <$> iam_identities iam.

Definition GetHmacPool (iam : IdentityAccessManagement) (accessKey : string) : option string := iam_hashes iam !! accessKey.

Definition IAMConfigKey : string := "__iam_config__".

Section persistence.
Context {S : Type} `{KvStore S}.
Context (marshal : S3ApiConfiguration -> option string) (json_unmarshal proto_unmarshal : string -> option S3ApiConfiguration).

(** Without a client nothing is loaded or saved. *)
Definition LoadFromFiler (iam : IdentityAccessManagement) (o : option S) : outcome iam_err IdentityAccessManagement * option S :=
  let reload cfg o := let '(e, iam) := Reload (Some cfg) iam in (match e with Some e => Fail e | None => Ret iam end, o) in
  match o with
  | None => (Ret iam, None)
  | Some s =>
      match KvGet IAMConfigKey s with
      | (Panic, s) => (Panic, Some s)
      | (Fail e, s) => if isNotFound e then reload [] (Some s) else (Fail (IamKvGet e), Some s)
      | (Ret data, s) =>
          if decide (data = "") then reload [] (Some s) else
          match json_unmarshal data with
          | Some cfg => reload cfg (Some s)
          | None => match proto_unmarshal data with Some cfg => reload cfg (Some s) | None => (Fail IamDecode, Some s) end
          end
      end
  end.

Definition SaveToFiler (iam : IdentityAccessManagement) (o : option S) : outcome iam_err unit * option S :=
  match o with
  | None => (Ret tt, None)
  | Some s =>
      match marshal (GetConfiguration iam) with
      | None => (Fail IamEncode, Some s)
      | Some data =>
          match KvPut IAMConfigKey data s with
          | (Ret _, s) => (Ret tt, Some s)
          | (Fail e, s) => (Fail (IamKvPut e), Some s)
          | (Panic, s) => (Panic, Some s)
          end
      end
  end.

Definition NewIdentityAccessManagement (o : option S) : outcome iam_err IdentityAccessManagement * option S := LoadFromFiler new_iam o.
End persistence.

(** ** Accepted configurations *)

Definition config_identities (cfg : S3ApiConfiguration) : list Identity := load_identity <$> omap id cfg.
Definition all_credentials (ids : list Identity) : list Credential := ids ≫= id_Credentials.
Definition trimmed_key (c : Credential) : string := TrimSpace (cr_AccessKey c).

(** The two keys of a credential are not blank, and no two credentials have one access key. *)
Definition credentials_ok (seen : gmap string string) (l : list Credential) : Prop :=
  Forall (fun c => trimmed_key c <> "" /\ TrimSpace (cr_SecretKey c) <> "" /\ seen !! trimmed_key c = None) l /\
  NoDup (trimmed_key <$> l).

Lemma credentials_ok_cons seen name c l :
  trimmed_key c <> "" -> TrimSpace (cr_SecretKey c) <> "" -> seen !! trimmed_key c = None ->
  credentials_ok (<[trimmed_key c := name]> seen) l <-> credentials_ok seen (c :: l).
Proof.
  intros H1 H2 H3. unfold credentials_ok. rewrite fmap_cons, NoDup_cons, Forall_cons, !Forall_forall. split.
  - intros [Hl Hnd]. split_and!; try done.
    + intros x Hx. destruct (Hl x Hx) as (?&?&[? ?]%lookup_insert_None). done.
    + intros (x&E&Hx)%list_elem_of_fmap. destruct (Hl x Hx) as (_&_&[_ Hne]%lookup_insert_None). done.
  - intros [[_ Hl] [Hni Hnd]]. split; [|done]. intros x Hx. destruct (Hl x Hx) as (?&?&?). split_and!; try done.
    apply lookup_insert_None. split; [done|]. intros E. apply Hni, list_elem_of_fmap. by exists x.
Qed.

(** The names recorded with the keys do not matter. *)
Lemma credentials_ok_dom seen seen' l : dom seen = dom seen' -> credentials_ok seen l -> credentials_ok seen' l.
Proof.
  intros Hd [Hl Hnd]. split; [|done]. eapply Forall_impl; [exact Hl|]. intros c (?&?&?%not_elem_of_dom). split_and!; try done.
  apply not_elem_of_dom. by rewrite <- Hd.
Qed.

Lemma validate_credentials_spec name creds : forall seen l,
  (exists seen', validate_credentials name creds seen = inr seen' /\ credentials_ok seen' l) <->
  credentials_ok seen (omap id creds ++ l)%list.
Proof.
  induction creds as [|[c|] creds IH]; intros seen l; cbn [validate_credentials]; [| |apply IH].
  - split; [intros (s&[= <-]&H); exact H|]. intros H. by exists seen.
  - change (omap id (Some c :: creds)) with (c :: omap id creds). fold (trimmed_key c).
    destruct (decide (trimmed_key c = "" \/ TrimSpace (cr_SecretKey c) = "")) as [Hb|[Hb1 Hb2]%Decidable.not_or].
    { split; [by intros (?&?&?)|]. intros [H _]. apply Forall_cons in H as [(?&?&_) _]. tauto. }
    destruct (seen !! trimmed_key c) as [owner|] eqn:E.
    { split; [by intros (?&?&?)|]. intros [H _]. apply Forall_cons in H as [(_&_&H) _]. congruence. }
    rewrite IH. by apply credentials_ok_cons.
Qed.

(** A configuration is accepted when its names and keys are not blank and its access keys
    are all different. *)
Definition config_ok (seen : gmap string string) (ids : list Identity) : Prop :=
  Forall (fun i => TrimSpace (id_Name i) <> "") ids /\ credentials_ok seen (all_credentials ids).

Lemma validate_identities_spec cfg : forall seen, validate_identities cfg seen = None <-> config_ok seen (config_identities cfg).
Proof.
  induction cfg as [|[i|] cfg IH]; intros seen; cbn [validate_identities]; [| |apply IH].
  - split; [|done]. intros _. by repeat constructor.
  - change (config_identities (Some i :: cfg)) with (load_identity i :: config_identities cfg).
    unfold config_ok, all_credentials. rewrite Forall_cons. cbn [mbind list_bind load_identity id_Name id_Credentials].
    destruct (decide (TrimSpace (pi_Name i) = "")) as [Hn|Hn]; [split; [done|]; tauto|].
    pose proof (validate_credentials_spec (pi_Name i) (pi_Credentials i) seen (all_credentials (config_identities cfg))) as Hc.
    unfold all_credentials in Hc.
    destruct (validate_credentials _ _ _) as [e|seen'].
    { split; [done|]. intros [_ H]. apply Hc in H as (?&?&_). done. }
    rewrite IH. unfold config_ok, all_credentials. split.
    + intros [? ?]. split; [done|]. apply Hc. by exists seen'.
    + intros [[_ Ha] H]. split; [done|]. apply Hc in H as (s&[= <-]&H'). done.
Qed.

Lemma find_credential_spec creds c :
  c ∈ creds -> NoDup (cr_AccessKey <$> creds) -> find_credential (cr_AccessKey c) creds = Some (cr_SecretKey c).
Proof.
  induction creds as [|d creds IH]; [by intros ?%elem_of_nil|]. rewrite fmap_cons, NoDup_cons. cbn.
  intros [->|Hin]%elem_of_cons [Hni Hnd]; [by rewrite decide_True|].
  rewrite decide_False; [by apply IH|]. intros E. apply Hni. rewrite E. apply list_elem_of_fmap. by exists c.
Qed.

Lemma find_credential_None ak creds : find_credential ak creds = None <-> ak ∉ cr_AccessKey <$> creds.
Proof.
  induction creds as [|d creds IH]; [split; [intros _; apply not_elem_of_nil|done]|].
  rewrite fmap_cons, not_elem_of_cons, <- IH. cbn. destruct (decide (cr_AccessKey d = ak)); [|naive_solver]. split; [done|]. naive_solver.
Qed.

Lemma access_keys_NoDup seen l : credentials_ok seen l -> NoDup (cr_AccessKey <$> l).
Proof.
  intros [_ H]. apply (NoDup_fmap_1 TrimSpace). by rewrite <- list_fmap_compose.
Qed.

Lemma lookup_key_spec ids i c :
  i ∈ ids -> c ∈ id_Credentials i -> NoDup (cr_AccessKey <$> all_credentials ids) ->
  lookup_key (cr_AccessKey c) ids = Some (i, cr_SecretKey c).
Proof.
  induction ids as [|j ids IH]; [by intros ?%elem_of_nil|]. unfold all_credentials. cbn [mbind list_bind].
  rewrite fmap_app, NoDup_app. intros Hi Hc (Hj&Hd&Hr). apply elem_of_cons in Hi as [->|Hi]; cbn [lookup_key].
  { by rewrite find_credential_spec. }
  assert (find_credential (cr_AccessKey c) (id_Credentials j) = None) as ->; [|by apply IH].
  apply find_credential_None. intros Hin. apply (Hd _ Hin), list_elem_of_fmap. exists c. split; [done|].
  apply list_elem_of_bind. by exists i.
Qed.

Lemma lookup_key_in ak ids i sk :
  lookup_key ak ids = Some (i, sk) -> i ∈ ids /\ mkCredential ak sk ∈ id_Credentials i.
Proof.
  induction ids as [|j ids IH]; [done|]. cbn [lookup_key]. destruct (find_credential ak (id_Credentials j)) as [sk'|] eqn:E.
  - intros [= <- <-]. split; [by left|]. clear IH. induction (id_Credentials j) as [|c l IHl]; [done|]. cbn in E.
    destruct (decide (cr_AccessKey c = ak)) as [<-|]; [injection E as <-; destruct c; by left|right; auto].
  - intros H. destruct (IH H). split; [by right|done].
Qed.

(** The pools that [Reload] builds, over the credentials in order. *)
Lemma pools_fold ids : forall h : gmap string string,
  fold_left (fun h i => fold_left set_pool (id_Credentials i) h) ids h = fold_left set_pool (all_credentials ids) h.
Proof.
  induction ids as [|i ids IH]; intros h; [done|]. cbn [fold_left]. rewrite IH. unfold all_credentials. cbn [mbind list_bind].
  by rewrite fold_left_app.
Qed.

Lemma pools_lookup l c : forall h : gmap string string,
  NoDup (cr_AccessKey <$> l) -> c ∈ l -> fold_left set_pool l h !! cr_AccessKey c = Some (cr_SecretKey c).
Proof.
  induction l as [|d l IH]; intros h; [by intros _ ?%elem_of_nil|]. rewrite fmap_cons, NoDup_cons. cbn [fold_left].
  intros [Hni Hnd] [<-|Hc]%elem_of_cons; [|by apply IH].
  assert (forall l' (h' : gmap string string), cr_AccessKey c ∉ cr_AccessKey <$> l' -> h' !! cr_AccessKey c = Some (cr_SecretKey c) ->
    fold_left set_pool l' h' !! cr_AccessKey c = Some (cr_SecretKey c)) as Hk.
  { clear. induction l' as [|d l' IH]; intros h'; [done|]. rewrite fmap_cons, not_elem_of_cons. cbn [fold_left].
    intros [Hne Hni] Hh. apply IH; [done|]. unfold set_pool. by rewrite lookup_insert_ne by done. }
  apply Hk; [done|]. unfold set_pool. by rewrite lookup_insert_eq.
Qed.

Lemma Reload_inv cfg iam iam' :
  Reload cfg iam = (None, iam') ->
  iam_identities iam' = config_identities (default [] cfg) /\ config_ok ∅ (iam_identities iam') /\
  iam_hashes iam' = fold_left set_pool (all_credentials (iam_identities iam')) ∅.
Proof.
  unfold Reload. destruct (iam_ValidateConfiguration cfg) eqn:E; [done|]. intros [= <-]. cbn.
  rewrite pools_fold. split_and!; try done. destruct cfg as [cfg|]; cbn.
  - by apply validate_identities_spec.
  - by repeat constructor.
Qed.

(** A configuration read back from its own copy. *)
Lemma config_copy iam : config_identities (GetConfiguration iam) = iam_identities iam.
Proof.
  unfold config_identities, GetConfiguration. induction (iam_identities iam) as [|[n cs acts] ids IH]; [done|].
  rewrite fmap_cons. cbn. f_equal; [|exact IH]. unfold load_identity; cbn. f_equal.
  clear. induction cs; cbn; congruence.
Qed.

Lemma Reload_copy cfg iam iam' other : Reload cfg iam = (None, iam') -> Reload (Some (GetConfiguration iam')) other = (None, iam').
Proof.
  intros (Hi&Hok&Hh)%Reload_inv. rewrite <- (config_copy iam') in Hok. unfold Reload. cbn.
  rewrite (proj2 (validate_identities_spec _ ∅) Hok).
  fold (config_identities (GetConfiguration iam')). rewrite config_copy, pools_fold, <- Hh. by destruct iam'.
Qed.

(** ** Grants for one bucket *)

(** A name without spaces, slashes and the special characters of patterns. *)
Definition plain_char (c : ascii) : Prop :=
  Ascii.is_space c = false /\ c ∉ ["/"; "*"; "?"; "["; "]"; "\"]%char.
Definition plain_name (b : string) : Prop := b <> "" /\ Forall plain_char (chars b).

#[export] Instance plain_char_dec c : Decision (plain_char c).
Proof. unfold plain_char. apply _. Defined.
#[export] Instance plain_name_dec b : Decision (plain_name b).
Proof. unfold plain_name. apply _. Defined.

Definition solid (s : string) : Prop := Forall (fun c => Ascii.is_space c = false) (chars s).

Lemma drop_space_solid l : Forall (fun c => Ascii.is_space c = false) l -> drop_space l = l.
Proof. destruct l as [|c l]; [done|]. rewrite Forall_cons. cbn. by intros [-> _]. Qed.

Lemma TrimSpace_solid s : solid s -> TrimSpace s = s.
Proof.
  intros H. unfold TrimSpace. rewrite (drop_space_solid (chars s)) by done.
  rewrite drop_space_solid by (by apply Forall_reverse). by rewrite reverse_involutive, str_chars.
Qed.

Lemma solid_append s t : solid (s +:+ t) <-> solid s /\ solid t.
Proof. unfold solid. by rewrite chars_append, Forall_app. Qed.

Lemma plain_solid b : plain_name b -> solid b.
Proof. intros [_ H]. eapply Forall_impl; [exact H|]. by intros c []. Qed.

Lemma plain_no_slash b : plain_name b -> slash ∉ chars b.
Proof. intros [_ H] Hs. rewrite Forall_forall in H. destruct (H _ Hs) as [_ Hn]. apply Hn. by left. Qed.

(** What follows a literal chunk. *)
Fixpoint strip (chunk s : list ascii) : option (list ascii) :=
  match chunk, s with
  | [], s => Some s
  | c :: chunk, d :: s => if decide (c = d) then strip chunk s else None
  | _ :: _, [] => None
  end.

Definition literal_char (c : ascii) : Prop := c ∉ ["*"; "?"; "["; "]"; "\"]%char.

Lemma plain_literal c : plain_char c -> literal_char c.
Proof. intros [_ H] Hin. apply H. by right. Qed.

Lemma matchChunk_literal fuel chunk : forall s failed,
  Forall literal_char chunk -> (length chunk < fuel)%nat ->
  matchChunk fuel chunk s failed = Some (if failed then None else strip chunk s).
Proof.
  revert fuel. induction chunk as [|c chunk IH]; intros [|fuel] s failed Hl Hf; cbn in Hf; try lia.
  { cbn. rewrite bool_decide_false by tauto. rewrite orb_false_r. done. }
  apply Forall_cons in Hl as [Hc Hl].
  assert (matchChunk (S fuel) (c :: chunk) s failed =
    let failed := failed || bool_decide (s = [] /\ c :: chunk <> []) in
    matchChunk fuel chunk (if failed then s else tail s) (failed || bool_decide (head s <> Some c))) as ->.
  { unfold literal_char in Hc. destruct c as [[] [] [] [] [] [] [] []]; try done; exfalso; apply Hc; set_solver. }
  cbv zeta. rewrite IH by (done || lia). f_equal. destruct failed; [done|]. cbn [orb].
  destruct s as [|d s]; [done|]. rewrite bool_decide_false by (by intros []). cbn [orb head tail strip].
  destruct (decide (c = d)) as [->|Hne].
  - by rewrite bool_decide_false by tauto.
  - by rewrite bool_decide_true by congruence.
Qed.

Lemma scan_literal chunk rest : Forall literal_char chunk -> scan false (chunk ++ "*"%char :: rest)%list = (chunk, "*"%char :: rest).
Proof.
  induction chunk as [|c chunk IH]; intros Hl; [done|]. apply Forall_cons in Hl as [Hc Hl]. cbn [app].
  assert (scan false (c :: (chunk ++ "*"%char :: rest))%list = let '(a, b) := scan false (chunk ++ "*"%char :: rest)%list in (c :: a, b)) as ->.
  { unfold literal_char in Hc. destruct c as [[] [] [] [] [] [] [] []]; try done; exfalso; apply Hc; set_solver. }
  by rewrite IH.
Qed.

Lemma strip_Some chunk s t : strip chunk s = Some t -> s = (chunk ++ t)%list.
Proof.
  revert s. induction chunk as [|c chunk IH]; intros s; cbn; [by intros [= ->]|]. destruct s as [|d s]; [done|].
  destruct (decide (c = d)) as [->|]; [|done]. intros H. by rewrite (IH _ H).
Qed.

(** The pattern of everything in a bucket matches only what begins with the bucket and a slash. *)
Lemma path_Match_bucket b target :
  plain_name b -> path_Match (b +:+ "/*") target = Some true -> exists t, chars target = (chars b ++ slash :: t)%list.
Proof.
  intros [Hne Hb]. unfold path_Match. rewrite chars_append. change (chars "/*") with [slash; "*"%char].
  assert (Forall literal_char (chars b ++ [slash])%list) as Hl.
  { apply Forall_app. split; [eapply Forall_impl; [exact Hb|exact plain_literal]|]. constructor; [|done].
    unfold literal_char. vm_compute. set_solver. }
  assert (scanChunk (chars b ++ [slash; "*"%char])%list = (false, (chars b ++ [slash])%list, ["*"%char])) as Hs.
  { unfold scanChunk. pose proof (scan_literal (chars b ++ [slash])%list [] Hl) as Hsc. rewrite <- app_assoc in Hsc. cbn [app] in Hsc.
    destruct b as [|c b]; [done|]. cbn in Hb. apply Forall_cons in Hb as [Hc _].
    assert (drop_stars (chars (String c b) ++ [slash; "*"%char])%list = (false, (chars (String c b) ++ [slash; "*"%char])%list)) as ->.
    { cbn. destruct Hc as [_ Hc]. destruct c as [[] [] [] [] [] [] [] []]; done. }
    by rewrite Hsc. }
  destruct (chars b ++ [slash; "*"%char])%list as [|c l] eqn:E; [by destruct (chars b)|].
  cbn [match_from]. rewrite Hs, decide_False by (by intros []).
  unfold match_chunk. rewrite matchChunk_literal by (done || lia). cbn [mbind option_bind].
  destruct (strip (chars b ++ [slash])%list (chars target)) as [t|] eqn:Et.
  - intros _. apply strip_Some in Et. exists t. by rewrite Et, <- app_assoc.
  - destruct (String.length (b +:+ "/*")) as [|[|n]]; by vm_compute.
Qed.

(** A target begins with the bucket it is made of. *)
Lemma target_bucket b bucket object t :
  slash ∉ chars b -> slash ∉ chars bucket ->
  chars (if decide (object <> "") then bucket +:+ "/" +:+ object else bucket) = (chars b ++ slash :: t)%list -> bucket = b.
Proof.
  intros Hb Hk. destruct (decide (object <> "")) as [Ho|Ho].
  - rewrite !chars_append. change (chars "/") with [slash]. cbn [app]. intros E.
    pose proof (f_equal (index_byte slash) E) as Hi. rewrite !index_byte_app in Hi by done. injection Hi as Hi.
    apply app_inj_1 in E as [E _]; [by apply chars_inj|done].
  - intros E. exfalso. apply Hk. rewrite E. set_solver.
Qed.

Lemma matchBucket_spec b bucket object :
  plain_name b -> slash ∉ chars bucket -> matchBucketObjectPattern (b +:+ "/*") bucket object = bool_decide (bucket = b).
Proof.
  intros Hp Hk. pose proof (plain_no_slash b Hp) as Hs. unfold matchBucketObjectPattern.
  assert (solid (b +:+ "/*")) as Hsol by (apply solid_append; split; [by apply plain_solid|repeat constructor]).
  rewrite (TrimSpace_solid _ Hsol). rewrite decide_False, decide_False by (destruct b as [|? []]; done).
  set (target := if decide (object <> "") then _ else _).
  assert (forall t, chars target = (chars b ++ slash :: t)%list -> bucket = b) as Ht by (intros t; by apply target_bucket).
  assert (HasSuffix (b +:+ "/*") "/*" = true) as Hsuf.
  { unfold HasSuffix. apply bool_decide_eq_true_2. rewrite chars_append, drop_app_length'; [done|].
    rewrite <- !length_chars, chars_append, length_app. cbn. lia. }
  assert (TrimSuffix (b +:+ "/*") "/*" = b) as Htr.
  { unfold TrimSuffix. rewrite Hsuf, chars_append, take_app_length'; [apply str_chars|].
    rewrite <- !length_chars, chars_append, length_app. cbn. lia. }
  rewrite Hsuf, Htr. destruct (decide (path_Match _ _ = Some true)) as [(t&E)%path_Match_bucket|_]; [|done|].
  { by rewrite bool_decide_true by eauto. }
  destruct (bool_decide (bucket = b)) eqn:Eb; [done|]. cbn. destruct (HasPrefix _ _) eqn:Ep; [|done].
  apply prefix_inv in Ep as [s E]. apply bool_decide_eq_false in Eb. exfalso. apply Eb, (Ht (chars s)). rewrite E, !chars_append.
  by rewrite <- app_assoc.
Qed.

(** A grant of one action on everything in one bucket. *)
Definition scoped_grant (scope : string * string) : string := "s3:" +:+ fst scope +:+ ":" +:+ snd scope +:+ "/*".

Definition action_name (n : string) : Prop := n <> "" /\ solid n /\ colon_byte ∉ chars n.

#[export] Instance action_name_dec n : Decision (action_name n).
Proof. unfold action_name, solid. apply _. Defined.

Lemma action_prefix n n' s : action_name n -> action_name n' -> HasPrefix ("s3:" +:+ n +:+ ":" +:+ s) (("s3:" +:+ n') +:+ ":") = true -> n = n'.
Proof.
  intros (_&_&H) (_&_&H') (t&E)%prefix_inv. apply (f_equal chars) in E. rewrite !chars_append in E.
  change (chars "s3:") with ["s"; "3"; ":"]%char in E. change (chars ":") with [colon_byte] in E. cbn in E. injection E as E.
  rewrite <- app_assoc in E. cbn in E. pose proof (f_equal (index_byte colon_byte) E) as Hi. rewrite !index_byte_app in Hi by done.
  injection Hi as Hi. apply app_inj_1 in E as [E _]; [by apply chars_inj|done].
Qed.

Lemma grants_scoped n b n' bucket object :
  action_name n -> plain_name b -> action_name n' -> slash ∉ chars bucket ->
  grants_action (scoped_grant (n, b)) ("s3:" +:+ n') bucket object = bool_decide (n' = n /\ bucket = b).
Proof.
  intros Hn Hb Hn' Hk. unfold grants_action, scoped_grant. cbn [fst snd].
  assert (solid (b +:+ "/*")) as Hsb by (apply solid_append; split; [by apply plain_solid|repeat constructor]).
  assert (solid ("s3:" +:+ n')) as Ha by (apply solid_append; split; [repeat constructor|apply Hn']).
  assert (solid ("s3:" +:+ n +:+ ":" +:+ b +:+ "/*")) as Hg.
  { apply solid_append; split; [repeat constructor|]. apply solid_append; split; [apply Hn|].
    apply solid_append; split; [repeat constructor|done]. }
  rewrite (TrimSpace_solid _ Ha), (TrimSpace_solid _ Hg). rewrite decide_False by done.
  rewrite (bool_decide_false (_ = "*" \/ _)) by (by intros []).
  rewrite (bool_decide_false (_ = "Read" /\ _)), (bool_decide_false (_ = "Write" /\ _)) by (by intros []).
  rewrite bool_decide_false; cbn [orb].
  - destruct (HasPrefix _ _) eqn:Ep; cbn [andb].
    + apply action_prefix in Ep as <-; [|done..].
      replace ("s3:" +:+ n +:+ ":" +:+ b +:+ "/*") with ((("s3:" +:+ n) +:+ ":") +:+ b +:+ "/*") by by rewrite !append_assoc.
      rewrite TrimPrefix_append, (TrimSpace_solid _ Hsb), matchBucket_spec by done.
      apply bool_decide_ext. tauto.
    + rewrite bool_decide_false; [done|]. intros [-> _].
      replace ("s3:" +:+ n +:+ ":" +:+ b +:+ "/*") with ((("s3:" +:+ n) +:+ ":") +:+ b +:+ "/*") in Ep by by rewrite !append_assoc.
      by rewrite prefix_append in Ep.
  - intros E%(f_equal chars). rewrite !chars_append in E. change (chars ":") with [colon_byte] in E. apply app_inv_head in E.
    destruct Hn' as (_&_&Hc). apply Hc. rewrite <- E. set_solver.
Qed.

(** ** The claims *)

(** Grants of the form [s3:Action:bucket/*] mean what they say.  An identity whose
    grants are the pairs of actions and buckets in [scopes] is authorized for exactly those
    actions in those buckets, for the bucket itself and for every object in it, whatever the
    names of other buckets have in common with it. *)
Theorem scoped_grants name creds scopes n bucket object :
  Forall (fun s => action_name (fst s) /\ plain_name (snd s)) scopes -> action_name n -> slash ∉ chars bucket ->
  IsAuthorized (Some (mkIdentity name creds (scoped_grant <$> scopes))) ("s3:" +:+ n) bucket object =
    bool_decide ((n, bucket) ∈ scopes).
Proof.
  intros Hs Hn Hk. unfold IsAuthorized. cbn [id_Actions].
  assert (solid ("s3:" +:+ n)) as Ha by (apply solid_append; split; [repeat constructor|apply Hn]).
  rewrite (TrimSpace_solid _ Ha), decide_False by done.
  induction Hs as [|[a b] scopes [H1 H2] Hs IH]; [done|].
  rewrite fmap_cons. cbn [existsb]. rewrite IH, grants_scoped by done. rewrite <- bool_decide_or. apply bool_decide_ext.
  rewrite elem_of_cons. split; intros [H|H]; try tauto; left; [by destruct H as [-> ->]|by injection H as -> ->].
Qed.

Lemma scoped_grants_witness :
  IsAuthorized (Some (mkIdentity "u" [] (scoped_grant <$> [("GetObject", "logs"); ("PutObject", "logs2")]))) ("s3:" +:+ "GetObject") "logs2" "x" =
    bool_decide (("GetObject", "logs2") ∈ [("GetObject", "logs"); ("PutObject", "logs2")]).
Proof.
  apply scoped_grants; [apply (bool_decide_unpack _); vm_compute; exact I|apply (bool_decide_unpack _); vm_compute; exact I|].
  apply (bool_decide_unpack _). vm_compute. exact I.
Defined.

(** C34: identities survive in the filer.  A configuration that [Reload] accepts is stored by
    [SaveToFiler], and a gateway that starts from that store has the same identities: every
    access key authenticates as the one identity that holds it, with its secret and the pool
    of that secret, and any other key is refused. *)
Theorem iam_persists {S : Type} `{KvReliable S rep} marshal json_unmarshal proto_unmarshal cfg iam0 iam s m data :
  rep s m -> Reload cfg iam0 = (None, iam) ->
  marshal (GetConfiguration iam) = Some data -> json_unmarshal data = Some (GetConfiguration iam) -> data <> "" ->
  exists s1 s2, SaveToFiler marshal iam (Some s) = (Ret tt, Some s1) /\
    NewIdentityAccessManagement json_unmarshal proto_unmarshal (Some s1) = (Ret iam, Some s2) /\ rep s2 (<[IAMConfigKey := data]> m) /\
    (forall i c, i ∈ iam_identities iam -> c ∈ id_Credentials i ->
      Authenticate iam (cr_AccessKey c) = mkAuthResult (Some i) (cr_SecretKey c) false "" /\
      GetHmacPool iam (cr_AccessKey c) = Some (cr_SecretKey c)) /\
    (forall ak, ak <> "" -> ak ∉ cr_AccessKey <$> all_credentials (iam_identities iam) ->
      ar_ErrorCode (Authenticate iam ak) = "InvalidAccessKeyId").
Proof.
  intros Hrep HR Hm Hj Hd. pose proof (Reload_copy _ _ _ new_iam HR) as Hcopy. apply Reload_inv in HR as (_&Hok&Hh).
  destruct (KvPut_ok s m IAMConfigKey data Hrep) as (s1&Hr1&Ep).
  destruct (KvGet_ok s1 _ IAMConfigKey Hr1) as (s2&Hr2&Eg). rewrite lookup_insert_eq in Eg.
  exists s1, s2. unfold SaveToFiler. rewrite Hm, Ep. split; [done|]. split.
  { unfold NewIdentityAccessManagement, LoadFromFiler. by rewrite Eg, decide_False, Hj, Hcopy by done. }
  split; [done|]. destruct Hok as [_ Hcr]. pose proof (access_keys_NoDup _ _ Hcr) as Hnd. split.
  - intros i c Hi Hc. assert (c ∈ all_credentials (iam_identities iam)) as Hin by (apply list_elem_of_bind; by exists i).
    unfold Authenticate, LookupByAccessKey, GetHmacPool. rewrite (lookup_key_spec _ i c) by done.
    rewrite decide_False, Hh, pools_lookup by (done || (intros E; destruct Hcr as [Hf _]; rewrite Forall_forall in Hf;
      destruct (Hf c Hin) as [Hne _]; apply Hne; unfold trimmed_key; by rewrite E)). done.
  - intros ak Hne Hni. unfold Authenticate, LookupByAccessKey. rewrite decide_False by done.
    destruct (lookup_key ak _) as [[i sk]|] eqn:E; [|done]. apply lookup_key_in in E as [Hi Hc]. exfalso. apply Hni.
    apply list_elem_of_fmap. exists (mkCredential ak sk). split; [done|]. apply list_elem_of_bind. by exists i.
Qed.

Definition sample_config : S3ApiConfiguration :=
  [Some (mkPbIdentity "alice" [Some (mkCredential "AK1" "SK1"); None] ["Read"]); None;
   Some (mkPbIdentity "bob" [Some (mkCredential "AK2" "SK2")] ["s3:PutObject:b/*"])].

Lemma iam_persists_witness :
  let iam := snd (Reload (Some sample_config) new_iam) in
  exists s1 s2 : MemStore,
    SaveToFiler (fun _ => Some "config") iam (Some (mkMemStore "memory" ∅ ∅)) = (Ret tt, Some s1) /\
    NewIdentityAccessManagement (fun _ => Some (GetConfiguration iam)) (fun _ => None) (Some s1) = (Ret iam, Some s2).
Proof.
  intros iam.
  destruct (iam_persists (rep := mem_kv_rep) (fun _ => Some "config") (fun _ => Some (GetConfiguration iam)) (fun _ => None) (Some sample_config) new_iam iam
    (mkMemStore "memory" ∅ ∅) ∅ "config") as (s1&s2&E1&E2&_); [done|vm_compute; reflexivity|done|done|done|]. by exists s1, s2.
Defined.

(** * The IAM service of the filer

    The gRPC service of [server/iam_grpc_server.go] over the identities of [Iam]: every call
    makes a manager from what the store has. *)

Section service.
Context {S : Type} `{KvStore S}.
Context (marshal : S3ApiConfiguration -> option string) (json_unmarshal proto_unmarshal : string -> option S3ApiConfiguration).

(** [None] is a filer that is not initialised. *)
Definition newIAMManager (o : option S) : outcome grpc_code IdentityAccessManagement * option S :=
  match o with
  | None => (Fail Unavailable, None)
  | Some s =>
      let '(r, o) := NewIdentityAccessManagement json_unmarshal proto_unmarshal (Some s) in
      (match r with Ret iam => Ret iam | Fail _ => Fail Internal | Panic => Panic end, o)
  end.

(** Also what [GetS3ApiConfigurations] sends, once. *)
Definition GetS3ApiConfiguration (o : option S) : outcome grpc_code S3ApiConfiguration * option S :=
  let '(r, o) := newIAMManager o in
  (match r with Ret iam => Ret (GetConfiguration iam) | Fail e => Fail e | Panic => Panic end, o).

(** [None] is a missing request; its configuration can be missing too. *)
Definition PutS3ApiConfiguration (req : option (option S3ApiConfiguration)) (o : option S) : outcome grpc_code unit * option S :=
  match req with
  | None => (Fail InvalidArgument, o)
  | Some cfg =>
      match iam_ValidateConfiguration cfg with
      | Some _ => (Fail InvalidArgument, o)
      | None =>
          match newIAMManager o with
          | (Ret iam, o) =>
              match Reload cfg iam with
              | (Some _, _) => (Fail InvalidArgument, o)
              | (None, iam) =>
                  match SaveToFiler marshal iam o with
                  | (Ret _, o) => (Ret tt, o)
                  | (Fail _, o) => (Fail Internal, o)
                  | (Panic, o) => (Panic, o)
                  end
              end
          | (Fail e, o) => (Fail e, o)
          | (Panic, o) => (Panic, o)
          end
      end
  end.
End service.

(** ** Properties *)

(** The texts of the configurations read back. *)
Definition codec_ok (marshal : S3ApiConfiguration -> option string) (json_unmarshal : string -> option S3ApiConfiguration) : Prop :=
  forall cfg, exists data, marshal cfg = Some data /\ data <> "" /\ json_unmarshal data = Some cfg.

Section laws.
Context {S : Type} `{KvReliable S rep}.
Context (marshal : S3ApiConfiguration -> option string) (json_unmarshal proto_unmarshal : string -> option S3ApiConfiguration).
Hypothesis codec : codec_ok marshal json_unmarshal.

(** The store holds the configuration of a manager. *)
Definition holds_config (iam : IdentityAccessManagement) (s : S) : Prop :=
  exists m data, rep s m /\ m !! IAMConfigKey = Some data /\ data <> "" /\ json_unmarshal data = Some (GetConfiguration iam) /\
    Reload (Some (GetConfiguration iam)) new_iam = (None, iam).

Lemma newIAMManager_holds iam s : holds_config iam s ->
  exists s', newIAMManager json_unmarshal proto_unmarshal (Some s) = (Ret iam, Some s') /\ holds_config iam s'.
Proof.
  intros (m & data & Hr & Hm & Hne & Hj & Hre). destruct (KvGet_ok s m IAMConfigKey Hr) as (s' & Hr' & E). rewrite Hm in E.
  exists s'. unfold newIAMManager, NewIdentityAccessManagement, LoadFromFiler. rewrite E, decide_False, Hj, Hre by done.
  split; [done|]. by exists m, data.
Qed.

(** What is put is what is got: after a call that is acknowledged, every call answers a
    configuration with its identities, until the next. *)
Theorem put_get_config cfg (s : S) m o' :
  rep s m -> PutS3ApiConfiguration marshal json_unmarshal proto_unmarshal (Some (Some cfg)) (Some s) = (Ret tt, o') ->
  exists s1 iam s2, o' = Some s1 /\ holds_config iam s1 /\ iam_identities iam = config_identities cfg /\
    GetS3ApiConfiguration json_unmarshal proto_unmarshal o' = (Ret (GetConfiguration iam), Some s2) /\ holds_config iam s2.
Proof using codec H0.
  intros Hr. unfold PutS3ApiConfiguration. destruct (iam_ValidateConfiguration (Some cfg)) eqn:Ev; [done|].
  destruct (KvGet_ok s m IAMConfigKey Hr) as (s0 & Hr0 & Eg).
  assert (exists r, newIAMManager json_unmarshal proto_unmarshal (Some s) = (r, Some s0)) as [r Em].
  { unfold newIAMManager, NewIdentityAccessManagement, LoadFromFiler. rewrite Eg. repeat case_match; simplify_eq; eauto. }
  rewrite Em. destruct r as [iam0|e|]; [|done..]. destruct (Reload (Some cfg) iam0) as [[e|] iam] eqn:Ere; [done|].
  unfold SaveToFiler. destruct (codec (GetConfiguration iam)) as (data & Ed & Hne & Ej). rewrite Ed.
  destruct (KvPut_ok s0 m IAMConfigKey data Hr0) as (s1 & Hr1 & ->). intros [= <-].
  assert (holds_config iam s1) as Hh.
  { exists (<[IAMConfigKey := data]> m), data. rewrite lookup_insert_eq. split_and!; [done..|]. by apply (Reload_copy (Some cfg) iam0). }
  destruct (newIAMManager_holds iam s1 Hh) as (s2 & E2 & Hh2). exists s1, iam, s2. split_and!; [done|done| |unfold GetS3ApiConfiguration; by rewrite E2|done].
  unfold Reload in Ere. rewrite Ev in Ere. by injection Ere as <-.
Qed.

(** A configuration in the store that cannot be read is there to stay: the service makes a
    manager from it before it writes another. *)
Theorem unreadable_config_stays req (s : S) m data :
  rep s m -> m !! IAMConfigKey = Some data -> data <> "" -> json_unmarshal data = None -> proto_unmarshal data = None ->
  let '(r, o) := PutS3ApiConfiguration marshal json_unmarshal proto_unmarshal req (Some s) in r <> Ret tt /\ exists s', o = Some s' /\ rep s' m.
Proof using H0.
  intros Hr Hm Hne Hj Hp. unfold PutS3ApiConfiguration. destruct req as [cfg|]; [|by split; [|eauto]].
  destruct (iam_ValidateConfiguration cfg); [by split; [|eauto]|]. destruct (KvGet_ok s m IAMConfigKey Hr) as (s' & Hr' & E). rewrite Hm in E.
  unfold newIAMManager, NewIdentityAccessManagement, LoadFromFiler. rewrite E, decide_False, Hj, Hp by done. split; [done|eauto].
Qed.
End laws.
