(* ===== verification/S3Auth.v ===== *)
(** * S3Auth: signed requests

    Models [goblob/s3api/auth/auth.go]: the signature of a request, in its header or in its
    query, is recomputed from the canonical form of the request and the secret of the access
    key.  The reading of the date of a presigned request is an argument. *)

From stdpp Require Import sorting.
From S2P Require Import Prelude Bytes GoStrings GoPath Hashes FilerStore FilerServer GoText Http S3Store Iam.

#[local] Open Scope Z_scope.
#[local] Open Scope string_scope.

(** ** Requests *)

(** [sq_header] has the values of a header by its name in lower case; [sq_body] is the whole
    body, [None] when reading it fails. *)
Record s3_request := mkS3Request {
  sq_method : string;
  sq_host : string;
  sq_path : string;
  sq_query : gmap string (list string);
  sq_header : string -> list string;
  sq_body : option bytes;
}.

Definition query_get (r : s3_request) (k : string) : string := default "" (head (default [] (sq_query r !! k))).
Definition header_get (r : s3_request) (k : string) : string := default "" (head (sq_header r (ToLower k))).

(** ** [strings] *)

(** [strings.EqualFold] on ASCII text. *)
Definition EqualFold (s t : string) : bool := bool_decide (ToLower s = ToLower t).

(** [strings.SplitN(s, "=", 2)] with two parts. *)
Definition split_attr (s : string) : option (string * string) := Cut s "=".

(** [strings.Fields]: the words between spaces; [word] is the word so far, reversed. *)
Fixpoint fields_from (word : list ascii) (l : list ascii) : list (list ascii) :=
  let close rest := match word with [] => rest | _ => reverse word :: rest end in
  match l with
  | [] => close []
  | c :: l => if Ascii.is_space c then close (fields_from [] l) else fields_from (c :: word) l
  end.

Definition Fields (s : string) : list string := str <$> fields_from [] (chars s).

(** [strings.ReplaceAll] of a pattern that is not empty; the fuel is the length. *)
Fixpoint replace_from (fuel : nat) (old new l : list ascii) : list ascii :=
  match fuel, l with
  | S fuel, c :: l' =>
      if decide (take (length old) l = old) then (new ++ replace_from fuel old new (drop (length old) l))%list
      else c :: replace_from fuel old new l'
  | _, _ => l
  end.

Definition ReplaceAll (s old new : string) : string := str (replace_from (String.length s) (chars old) (chars new) (chars s)).

(** ** The parts of a signature *)

Inductive AuthType := AuthTypeAnonymous | AuthTypeSigV4 | AuthTypePresigned.

Record parsedSignature := mkParsed {
  ps_AccessKey : string;
  ps_Date : string;
  ps_Region : string;
  ps_Service : string;
  ps_SignedHeaders : list string;
  ps_Signature : string;
  ps_AmzDate : string;
  ps_Scope : string;
  ps_Expires : Z;
  ps_Presigned : bool;
}.

Definition algorithm : string := "AWS4-HMAC-SHA256".

Definition detectAuthType (r : s3_request) : AuthType :=
  if HasPrefix (TrimSpace (header_get r "Authorization")) (algorithm +:+ " ") then AuthTypeSigV4
  else if EqualFold (query_get r "X-Amz-Algorithm") algorithm then AuthTypePresigned
  else AuthTypeAnonymous.

Definition parseCredentialScope (credential : string) : option (string * string * string * string * string) :=
  match Split slash credential with
  | [accessKey; date; region; service; last] =>
      if decide (last <> "aws4_request") then None
      else Some (accessKey, date, region, service, Join "/" [date; region; service; last])
  | _ => None
  end.

Definition splitAndNormalizeHeaderList (signedHeaders : string) : list string :=
  merge_sort String.le (filter (fun i => i <> "") ((fun i => ToLower (TrimSpace i)) <$> Split ";"%char signedHeaders)).

(** The attributes of the header; a later one replaces an earlier one of its name. *)
Definition header_attrs (kvRaw : string) : gmap string string :=
  fold_left (fun m part => match split_attr (TrimSpace part) with Some (k, v) => <[k := v]> m | None => m end) (Split ","%char kvRaw) ∅.

Definition parseAuthorizationHeader (r : s3_request) : option parsedSignature :=
  let authz := TrimSpace (header_get r "Authorization") in
  if HasPrefix authz (algorithm +:+ " ") then
    let attrs := header_attrs (TrimPrefix authz (algorithm +:+ " ")) in
    let get k := default "" (attrs !! k) in
    if decide (get "Credential" = "" \/ get "SignedHeaders" = "" \/ get "Signature" = "") then None else
    '(accessKey, date, region, service, scope) ← parseCredentialScope (get "Credential");
    let amzDate := header_get r "X-Amz-Date" in
    let amzDate := if decide (amzDate = "") then header_get r "Date" else amzDate in
    if decide (amzDate = "") then None else
    Some (mkParsed accessKey date region service (splitAndNormalizeHeaderList (get "SignedHeaders")) (get "Signature") amzDate scope 0 false)
  else None.

Definition parsePresigned (r : s3_request) : option parsedSignature :=
  credential ← QueryUnescape (query_get r "X-Amz-Credential");
  '(accessKey, date, region, service, scope) ← parseCredentialScope credential;
  let signedHeaders := splitAndNormalizeHeaderList (query_get r "X-Amz-SignedHeaders") in
  let sig := query_get r "X-Amz-Signature" in
  if decide (signedHeaders = [] \/ sig = "") then None else
  expires ← Atoi (query_get r "X-Amz-Expires");
  Some (mkParsed accessKey date region service signedHeaders sig (query_get r "X-Amz-Date") scope expires true).

Definition parseSigV4 (r : s3_request) (authType : AuthType) : option parsedSignature :=
  match authType with AuthTypePresigned => parsePresigned r | _ => parseAuthorizationHeader r end.

(** ** The canonical request *)

Definition awsEncode (s : string) (encodeSlash : bool) : string :=
  let escaped := ReplaceAll (ReplaceAll (ReplaceAll (QueryEscape s) "+" "%20") "*" "%2A") "%7E" "~" in
  if encodeSlash then escaped else ReplaceAll escaped "%2F" "/".

Definition canonicalURI (rawPath : string) : string :=
  let p := if decide (rawPath = "") then "/" else rawPath in
  let p := if HasPrefix p "/" then p else "/" +:+ p in
  let result := Join "/" ((fun seg => awsEncode (default seg (PathUnescape seg)) true) <$> Split slash p) in
  if decide (result = "") then "/" else
  if HasPrefix result "/" then result else "/" +:+ result.

Definition pair_le (a b : string * string) : Prop := fst a = fst b /\ String.le (snd a) (snd b) \/ fst a <> fst b /\ String.le (fst a) (fst b).
#[global] Instance pair_le_dec : RelDecision pair_le.
Proof. intros a b. unfold pair_le. apply _. Defined.

(** A parameter without values counts as one with the empty value. *)
Definition query_pairs (presigned : bool) (kv : string * list string) : list (string * string) :=
  let '(k, values) := kv in
  if decide (presigned = true /\ EqualFold k "X-Amz-Signature" = true) then [] else
  match values with [] => [(k, "")] | _ => (fun v => (k, v)) <$> merge_sort String.le values end.

Definition canonicalQueryString (q : gmap string (list string)) (presigned : bool) : string :=
  let pairs := merge_sort pair_le (map_to_list q ≫= query_pairs presigned) in
  Join "&" ((fun p => awsEncode (fst p) true +:+ "=" +:+ awsEncode (snd p) true) <$> pairs).

Definition compressSpaces (s : string) : string := Join " " (Fields s).

Definition newline_str : string := String "010"%char "".

Definition canonicalHeadersString (r : s3_request) (signedHeaders : list string) : string * string :=
  let headers := merge_sort String.le signedHeaders in
  let line h :=
    let value := if decide (h = "host") then sq_host r else Join "," (sq_header r h) in
    h +:+ ":" +:+ compressSpaces (TrimSpace value) in
  (Join newline_str (line <$> headers) +:+ newline_str, Join ";" headers).

Definition emptyPayloadSHA256 : string := "e3b0c44298fc1c149afbf4c8996fb92427ae41e4649b934ca495991b7852b855".

Definition requestPayloadHash (r : s3_request) (presigned : bool) : string :=
  let v := if presigned then query_get r "X-Amz-Content-Sha256" else header_get r "X-Amz-Content-Sha256" in
  if decide (v <> "") then v else if presigned then "UNSIGNED-PAYLOAD" else emptyPayloadSHA256.

Definition buildCanonicalRequest (r : s3_request) (sig : parsedSignature) : string :=
  let '(canonicalHeaders, signedHeaders) := canonicalHeadersString r (ps_SignedHeaders sig) in
  Join newline_str [sq_method r; canonicalURI (sq_path r); canonicalQueryString (sq_query r) (ps_Presigned sig);
                    canonicalHeaders; signedHeaders; requestPayloadHash r (ps_Presigned sig)].

Definition buildStringToSign (sig : parsedSignature) (canonicalRequest : string) : string :=
  Join newline_str [algorithm; ps_AmzDate sig; ps_Scope sig; hex_bytes (sha256 (to_bytes canonicalRequest))].

Definition DeriveSigningKey (secretKey date region service : string) : bytes :=
  let kDate := hmac_sha256 (to_bytes ("AWS4" +:+ secretKey)) (to_bytes date) in
  let kRegion := hmac_sha256 kDate (to_bytes region) in
  let kService := hmac_sha256 kRegion (to_bytes service) in
  hmac_sha256 kService (to_bytes "aws4_request").

Definition hmacHex (key : bytes) (payload : string) : string := hex_bytes (hmac_sha256 key (to_bytes payload)).

Definition signature (r : s3_request) (sig : parsedSignature) (secret : string) : string :=
  hmacHex (DeriveSigningKey secret (ps_Date sig) (ps_Region sig) (ps_Service sig)) (buildStringToSign sig (buildCanonicalRequest r sig)).

(** ** Verification *)

Record VerifyResult := mkVerify { vr_Identity : option Identity; vr_ErrorCode : string }.

(** Whether a presigned request is refused; [parse_date] gives nanoseconds. *)
Definition check_expiry (parse_date : string -> option Z) (now : Z) (parsed : parsedSignature) : option string :=
  if ps_Presigned parsed then
    if decide (ps_Expires parsed < 0) then Some "AuthorizationQueryParametersError" else
    match parse_date (ps_AmzDate parsed) with
    | None => Some "AuthorizationQueryParametersError"
    | Some t => if decide (now > t + i64 (ps_Expires parsed * 1000000000)) then Some "RequestExpired" else None
    end
  else None.

(** [iam] is nil without a manager. *)
Definition VerifyRequest (parse_date : string -> option Z) (r : s3_request) (iam : option IdentityAccessManagement)
    (action bucket object : string) (now : Z) : VerifyResult :=
  match iam with
  | None => mkVerify None ""
  | Some iam =>
      if decide (GetConfiguration iam = []) then mkVerify None "" else
      match detectAuthType r with
      | AuthTypeAnonymous => mkVerify None "AccessDenied"
      | authType =>
          match parseSigV4 r authType with
          | None => mkVerify None "AuthorizationHeaderMalformed"
          | Some parsed =>
              let authRes := Authenticate iam (ps_AccessKey parsed) in
              if decide (ar_ErrorCode authRes <> "") then mkVerify None (ar_ErrorCode authRes) else
              match check_expiry parse_date now parsed with
              | Some e => mkVerify None e
              | None =>
                  if decide (signature r parsed (ar_SecretKey authRes) <> ps_Signature parsed) then mkVerify None "SignatureDoesNotMatch" else
                  if IsAuthorized (ar_Identity authRes) action bucket object then mkVerify (ar_Identity authRes) ""
                  else mkVerify None "AccessDenied"
              end
          end
      end
  end.

(** ** The encoding of names and values *)

Lemma replace_char fuel c new l :
  (length l <= fuel)%nat -> replace_from fuel [c] new l = l ≫= (fun x => if decide (x = c) then new else [x]).
Proof.
  revert fuel. induction l as [|x l IH]; intros [|fuel] Hf; cbn in Hf |- *; try done; try lia.
  destruct (decide (x = c)) as [->|Hne].
  - rewrite decide_True by done. rewrite drop_0, IH by lia. done.
  - rewrite decide_False by congruence. by rewrite IH by lia.
Qed.

Lemma ReplaceAll_char s c new :
  chars (ReplaceAll s (String c "") new) = chars s ≫= (fun x => if decide (x = c) then chars new else [x]).
Proof. unfold ReplaceAll. rewrite chars_str. cbn [String.list_ascii_of_string]. apply replace_char. by rewrite length_chars. Qed.

(** The encoding of one character: percent-encoded unless it is unreserved. *)
Definition uri_encode (c : ascii) : list ascii := if unreserved c then [c] else percent c.

Lemma query_escape_plus c : query_escape c ≫= (fun x => if decide (x = "+"%char) then chars "%20" else [x]) = uri_encode c.
Proof. destruct c as [[] [] [] [] [] [] [] []]; vm_compute; reflexivity. Qed.

Lemma uri_encode_star c : uri_encode c ≫= (fun x => if decide (x = "*"%char) then chars "%2A" else [x]) = uri_encode c.
Proof. destruct c as [[] [] [] [] [] [] [] []]; vm_compute; reflexivity. Qed.

(** A tilde is never encoded. *)
Lemma uri_encode_cases c :
  (exists x, uri_encode c = [x] /\ x <> "%"%char) \/
  (exists x y, uri_encode c = ["%"%char; x; y] /\ x <> "%"%char /\ y <> "%"%char /\ [x; y] <> ["7"%char; "E"%char]).
Proof.
  destruct c as [[] [] [] [] [] [] [] []];
    first [left; eexists; split; [vm_compute; reflexivity|done]|right; do 2 eexists; split; [vm_compute; reflexivity|done]].
Qed.

Lemma replace_no_percent fuel old new c l : c <> "%"%char -> replace_from (S fuel) ("%"%char :: old) new (c :: l) = c :: replace_from fuel ("%"%char :: old) new l.
Proof. intros Hc. cbn [replace_from]. rewrite decide_False; [done|]. cbn. congruence. Qed.

Lemma replace_other_escape fuel new x y l :
  [x; y] <> ["7"; "E"]%char ->
  replace_from (S fuel) ["%"; "7"; "E"]%char new ("%"%char :: x :: y :: l) = "%"%char :: replace_from fuel ["%"; "7"; "E"]%char new (x :: y :: l).
Proof. intros H. cbn [replace_from length take]. rewrite decide_False; [done|]. rewrite take_0. congruence. Qed.

Lemma replace_tilde fuel l :
  (length (l ≫= uri_encode) <= fuel)%nat -> replace_from fuel ["%"; "7"; "E"]%char ["~"%char] (l ≫= uri_encode) = l ≫= uri_encode.
Proof.
  revert fuel. induction l as [|c l IH]; intros fuel Hf; [by destruct fuel|]. cbn [mbind list_bind] in *.
  destruct (uri_encode_cases c) as [(x&E&Hx)|(x&y&E&Hx&Hy&Hxy)]; rewrite E in *; cbn [app length] in *.
  - destruct fuel as [|fuel]; [lia|]. rewrite replace_no_percent by done. rewrite IH by lia. done.
  - destruct fuel as [|[|[|fuel]]]; try lia. rewrite replace_other_escape by done. rewrite !replace_no_percent by done. rewrite IH by lia. done.
Qed.

Lemma bind_bind {A B C} (f : A -> list B) (g : B -> list C) l : (l ≫= f) ≫= g = l ≫= (fun x => f x ≫= g).
Proof. induction l as [|x l IH]; [done|]. cbn [mbind list_bind]. by rewrite bind_app, IH. Qed.

Lemma bind_ext {A B} (f g : A -> list B) l : (forall x, f x = g x) -> l ≫= f = l ≫= g.
Proof. intros H. induction l as [|x l IH]; [done|]. cbn. by rewrite H, IH. Qed.

(** The three replacements turn the query encoding of Go into the encoding that signers use. *)
Lemma awsEncode_spec s : awsEncode s true = str (chars s ≫= uri_encode).
Proof.
  unfold awsEncode. apply chars_inj. rewrite chars_str.
  set (t := ReplaceAll (ReplaceAll _ "+" _) _ _).
  assert (chars t = chars s ≫= uri_encode) as Ht.
  { unfold t. rewrite !ReplaceAll_char. unfold QueryEscape. rewrite chars_str.
    rewrite (bind_bind query_escape), (bind_ext _ uri_encode (chars s)) by apply query_escape_plus.
    rewrite bind_bind. by apply bind_ext, uri_encode_star. }
  unfold ReplaceAll. rewrite chars_str, Ht. apply replace_tilde. by rewrite <- Ht, length_chars.
Qed.

(** ** What a verified request proves *)

(** The request carries the signature of a credential of the identity. *)
Definition signed_by (r : s3_request) (iam : IdentityAccessManagement) (i : Identity) : Prop :=
  exists parsed c, parseSigV4 r (detectAuthType r) = Some parsed /\ i ∈ iam_identities iam /\ c ∈ id_Credentials i /\
    ps_AccessKey parsed = cr_AccessKey c /\ ps_Signature parsed = signature r parsed (cr_SecretKey c).

Lemma VerifyRequest_sound parse_date r iam action bucket object now :
  iam_identities iam <> [] -> vr_ErrorCode (VerifyRequest parse_date r (Some iam) action bucket object now) = "" ->
  exists i, signed_by r iam i /\ IsAuthorized (Some i) action bucket object = true.
Proof.
  intros Hne. unfold VerifyRequest. rewrite decide_False.
  2: { unfold GetConfiguration. by destruct (iam_identities iam). }
  destruct (detectAuthType r) eqn:Et; [done|..].
  all: destruct (parseSigV4 r _) as [parsed|] eqn:Ep; [|done]; cbv zeta.
  all: destruct (decide (ar_ErrorCode _ <> "")) as [|Hno]; [done|].
  all: destruct (check_expiry _ _ _) as [e|] eqn:Ee.
  1, 3: intros E; exfalso; unfold check_expiry in Ee; cbn in E; subst e; by repeat case_match.
  all: destruct (decide (signature _ _ _ <> _)) as [|Hsig]; [done|].
  all: destruct (IsAuthorized _ _ _ _) eqn:Ea; [|done]; intros _.
  all: unfold Authenticate in *; destruct (decide (ps_AccessKey parsed = "")) as [|Hk]; [done|].
  all: unfold LookupByAccessKey in *; destruct (lookup_key _ _) as [[i sk]|] eqn:El; [|by destruct Hno].
  all: apply lookup_key_in in El as [Hi Hc]; exists i; split; [|done].
  all: exists parsed, (mkCredential (ps_AccessKey parsed) sk); rewrite Et, Ep; split_and!; try done.
  all: destruct (decide (signature r parsed sk = ps_Signature parsed)); [done|]; by destruct Hsig.
Qed.
