(* ===== verification/Lifecycle.v ===== *)
(** * Lifecycle: expiration and transition of objects

    Models [goblob/s3api/lifecycle] and the adapter of [goblob/command/lifecycle_process.go],
    which runs the rules over the objects of the gateway.  The clock, in nanoseconds and in
    UTC, the reading of RFC 3339 dates and the decoding of stored configurations are
    arguments. *)

From Stdlib Require Import Sorting.Sorted.
From S2P Require Import Prelude GoStrings GoPath FilerStore Filer FilerServer GoText S3Store Hashes Types MemoryStore FilerSpec FilerSafe PathSpec S3Refine.

#[local] Open Scope Z_scope.
#[local] Open Scope string_scope.

(** ** Rules *)

Record Tag := mkTag { tag_Key : string; tag_Value : string }.
Record Filter := mkFilter { lf_Prefix : string; lf_Tag : Tag }.
Record Expiration := mkExpiration { ex_Days : Z; ex_Date : string }.
Record Transition := mkTransition { tr_Days : Z; tr_StorageClass : string }.

Record Rule := mkRule {
  ru_ID : string;
  ru_Filter : Filter;
  ru_Expiration : option Expiration;
  ru_Transition : option Transition;
  ru_Status : string;
}.

Abbreviation LifecycleConfiguration := (list Rule).

(** [om_LastModified] is in seconds; [om_Tags] is nil without tags. *)
Record ObjectMeta := mkObjectMeta { om_Key : string; om_LastModified : Z; om_Tags : option (gmap string string) }.

Inductive lc_err :=
| LcRequired
| LcNoStatus (i : nat)
| LcNoAction (i : nat)
| LcDecode
| LcStore (e : s3_err).

Fixpoint validate_rules (i : nat) (rules : list Rule) : option lc_err :=
  match rules with
  | [] => None
  | rule :: rules =>
      if decide (TrimSpace (ru_Status rule) = "") then Some (LcNoStatus i) else
      match ru_Expiration rule, ru_Transition rule with
      | None, None => Some (LcNoAction i)
      | _, _ => validate_rules (S i) rules
      end
  end.

Definition ValidateConfiguration (cfg : option LifecycleConfiguration) : option lc_err :=
  match cfg with None => Some LcRequired | Some rules => validate_rules 0 rules end.

Definition matchesFilter (obj : ObjectMeta) (filter : Filter) : bool :=
  if decide (lf_Prefix filter <> "" /\ HasPrefix (om_Key obj) (lf_Prefix filter) = false) then false else
  if decide (tag_Key (lf_Tag filter) <> "") then
    match om_Tags obj with
    | None => false
    | Some tags => bool_decide (default "" (tags !! tag_Key (lf_Tag filter)) = tag_Value (lf_Tag filter))
    end
  else true.

Definition second : Z := 1000000000.

(** A [time.Time]: nanoseconds since the epoch, and the offset of its location from UTC at
    each of them. *)
Record gotime := mkTime { tm_ns : Z; tm_zone : Z -> Z }.

(** [AddDate(0, 0, days)]: the same time of day in the location, with the offset that
    [time.Date] finds there. *)
Definition AddDays (t : gotime) (days : Z) : Z :=
  let local := tm_ns t + tm_zone t (tm_ns t) + days * (24 * 60 * 60 * second) in
  local - tm_zone t (local - tm_zone t local).

(** [parse_date] gives nanoseconds. *)
Definition shouldExpire (parse_date : string -> option Z) (now : gotime) (obj : ObjectMeta) (expiration : option Expiration) : bool :=
  match expiration with
  | None => false
  | Some x =>
      let objTime := om_LastModified obj * second in
      if decide (ex_Days x > 0) then bool_decide (objTime < AddDays now (- ex_Days x)) else
      if decide (ex_Date x <> "") then
        match parse_date (ex_Date x) with None => false | Some cutoff => bool_decide (objTime < cutoff) end
      else false
  end.

Definition shouldTransition (now : gotime) (obj : ObjectMeta) (transition : option Transition) : bool :=
  match transition with
  | None => false
  | Some t => if decide (tr_Days t <= 0) then false else bool_decide (om_LastModified obj * second < AddDays now (- tr_Days t))
  end.

(** ** The processor *)

(** The interface [Store]. *)
Class LifecycleStore (S E : Type) := {
  lc_ListBuckets : GoM S E (list string);
  lc_LoadLifecycleConfig : string -> GoM S E (option LifecycleConfiguration);
  lc_ListObjects : string -> GoM S E (list ObjectMeta);
  lc_DeleteObject : string -> string -> GoM S E unit;
  lc_TransitionObject : string -> string -> string -> GoM S E unit;
}.

Section processor.
Context {S E : Type} `{LifecycleStore S E} (parse_date : string -> option Z).

(** The clock while the object of a key is looked at. *)
Context (nowFn : string -> gotime).

Definition rule_applies (obj : ObjectMeta) (rule : Rule) : bool :=
  bool_decide (TrimSpace (ru_Status rule) = "Enabled") && matchesFilter obj (ru_Filter rule).

(** The rules for one object; expiration ends the loop. *)
Fixpoint process_object (bucket : string) (obj : ObjectMeta) (rules : list Rule) : GoM S E unit :=
  match rules with
  | [] => mret tt
  | rule :: rules =>
      if rule_applies obj rule then
        if shouldExpire parse_date (nowFn (om_Key obj)) obj (ru_Expiration rule) then lc_DeleteObject bucket (om_Key obj) else
        (if shouldTransition (nowFn (om_Key obj)) obj (ru_Transition rule)
         then lc_TransitionObject bucket (om_Key obj) (default "" (tr_StorageClass <$> ru_Transition rule)) else mret tt);;
        process_object bucket obj rules
      else process_object bucket obj rules
  end.

Fixpoint process_objects (bucket : string) (rules : list Rule) (objects : list ObjectMeta) : GoM S E unit :=
  match objects with
  | [] => mret tt
  | obj :: objects => process_object bucket obj rules;; process_objects bucket rules objects
  end.

Definition ProcessBucket (bucket : string) : GoM S E unit :=
  cfg ← lc_LoadLifecycleConfig bucket;
  match cfg with
  | None => mret tt
  | Some rules => objects ← lc_ListObjects bucket; process_objects bucket rules objects
  end.

(** The other buckets are processed after an error. *)
Fixpoint process_buckets (buckets : list string) : GoM S E unit := fun s =>
  match buckets with
  | [] => (Ret tt, s)
  | bucket :: buckets =>
      match ProcessBucket bucket s with
      | (Panic, s) => (Panic, s)
      | (_, s) => process_buckets buckets s
      end
  end.

Definition ProcessAllBuckets : GoM S E unit := buckets ← lc_ListBuckets; process_buckets buckets.
End processor.

(** ** The adapter *)

Record lifecycleStoreAdapter (S : Type) := mkAdapter { la_filer : list (FilerServer S); la_expired : Z; la_transitioned : Z }.
Arguments mkAdapter {_} _ _ _.
Arguments la_filer {_} _.
Arguments la_expired {_} _.
Arguments la_transitioned {_} _.

Section adapter.
Context {S : Type} `{FilerStore S} (bucketsPath : string) (clock : string -> Z) (fuel : nat).
Context (j_unmarshal : bytes -> option LifecycleConfiguration).

(** A call of the client of the filer. *)
Definition of_filer {A} (m : GoM (list (FilerServer S)) s3_err A) : GoM (lifecycleStoreAdapter S) lc_err A := fun a =>
  let '(r, l) := m (la_filer a) in
  (match r with Ret x => Ret x | Fail e => Fail (LcStore e) | Panic => Panic end, mkAdapter l (la_expired a) (la_transitioned a)).

Definition count_expired : GoM (lifecycleStoreAdapter S) lc_err unit := fun a =>
  (Ret tt, mkAdapter (la_filer a) (i64 (la_expired a + 1)) (la_transitioned a)).
Definition count_transitioned : GoM (lifecycleStoreAdapter S) lc_err unit := fun a =>
  (Ret tt, mkAdapter (la_filer a) (la_expired a) (i64 (la_transitioned a + 1))).

Definition la_LoadLifecycleConfig (bucket : string) : GoM (lifecycleStoreAdapter S) lc_err (option LifecycleConfiguration) := fun a =>
  match of_filer (GetBucketMeta bucketsPath bucket "lifecycle.json") a with
  | (Ret raw, a) =>
      match j_unmarshal raw with
      | None => (Fail LcDecode, a)
      | Some cfg => (match ValidateConfiguration (Some cfg) with Some e => Fail e | None => Ret (Some cfg) end, a)
      end
  | (Fail (LcStore S3NotFound), a) => (Ret None, a)
  | (Fail e, a) => (Fail e, a)
  | (Panic, a) => (Panic, a)
  end.

Definition la_ListObjects (bucket : string) : GoM (lifecycleStoreAdapter S) lc_err (list ObjectMeta) :=
  objects ← of_filer (ListObjects bucketsPath fuel bucket "");
  mret ((fun o => mkObjectMeta (oi_Key o) (oi_LastModified o) None) <$> objects).

Definition la_DeleteObject (bucket key : string) : GoM (lifecycleStoreAdapter S) lc_err unit :=
  of_filer (DeleteObject bucketsPath clock bucket key);; count_expired.

Definition set_storage_class (storageClass : string) (ext : gmap string bytes) : gmap string bytes := <["s3:storage_class" := to_bytes storageClass]> ext.

Definition la_TransitionObject (bucket key storageClass : string) : GoM (lifecycleStoreAdapter S) lc_err unit :=
  of_filer (UpdateObjectExtended bucketsPath bucket key (set_storage_class storageClass));; count_transitioned.

#[export] Instance adapter_store : LifecycleStore (lifecycleStoreAdapter S) lc_err := {
  lc_ListBuckets := of_filer (ListBuckets bucketsPath clock);
  lc_LoadLifecycleConfig := la_LoadLifecycleConfig;
  lc_ListObjects := la_ListObjects;
  lc_DeleteObject := la_DeleteObject;
  lc_TransitionObject := la_TransitionObject;
}.

Definition counters : GoM (lifecycleStoreAdapter S) lc_err (Z * Z) := fun a => (Ret (la_expired a, la_transitioned a), a).

(** [LifecycleProcessCommand.Run]: one bucket if it is named, else all; the counters are
    printed. *)
Definition lifecycle_Run (parse_date : string -> option Z) (nowFn : string -> gotime) (bucketArg : string) : GoM (lifecycleStoreAdapter S) lc_err (Z * Z) :=
  let bucket := TrimSpace bucketArg in
  (if decide (bucket <> "") then ProcessBucket parse_date nowFn bucket else ProcessAllBuckets parse_date nowFn);;
  counters.
End adapter.

(** * What a run of the lifecycle rules does to the objects

    The processor of [Lifecycle], through its adapter and the client of [S3Store], computes
    on the map of objects that [S3Refine] relates to the filer.  Expiration by date does not
    wait for the date. *)

Abbreviation objects := (gmap (list string) ObjectData).

Section abstract.
Context (parse_date : string -> option Z) (nowFn : string -> gotime).

Definition meta_of (k : list string) (o : ObjectData) : ObjectMeta := mkObjectMeta (Join "/" k) (od_Mtime o) None.

(** What the rules make of one object; [None] when it expires. *)
Fixpoint outcome_of (obj : ObjectMeta) (rules : list Rule) (o : ObjectData) : option ObjectData :=
  match rules with
  | [] => Some o
  | rule :: rules =>
      if rule_applies obj rule then
        if shouldExpire parse_date (nowFn (om_Key obj)) obj (ru_Expiration rule) then None else
        outcome_of obj rules (if shouldTransition (nowFn (om_Key obj)) obj (ru_Transition rule)
          then with_Extended (set_storage_class (default "" (tr_StorageClass <$> ru_Transition rule)) (od_Extended o)) o else o)
      else outcome_of obj rules o
  end.

(** The rules on the objects of one bucket that listings show. *)
Definition process_entry (rules : list Rule) (b : string) (key : list string) (o : ObjectData) : option ObjectData :=
  match key with
  | b' :: k => if decide (b' = b /\ Forall visible k) then outcome_of (meta_of k o) rules o else Some o
  | [] => Some o
  end.

Definition processed (rules : list Rule) (b : string) (M : objects) : objects := map_imap (process_entry rules b) M.

(** An interrupted run has applied to every object the first rules, if any. *)
Definition interrupted (rules : list Rule) (b : string) (M M' : objects) : Prop :=
  forall key, exists rules', rules' `prefix_of` rules /\ M' !! key = o ← M !! key; process_entry rules' b key o.

Lemma process_entry_nil b key o : process_entry [] b key o = Some o.
Proof. destruct key as [|b' k]; [done|]. cbn. by case_decide. Qed.

Lemma processed_lookup rules b M key : processed rules b M !! key = o ← M !! key; process_entry rules b key o.
Proof. apply map_lookup_imap. Qed.
End abstract.

#[local] Instance ObjectInfo_eq_dec : EqDecision ObjectInfo.
Proof. solve_decision. Defined.

Section lifecycle_spec.
Context {S : Type} `{FilerStore S} (valid : string -> Prop) (good : Entry -> Prop) (rep : S -> gmap string Entry -> Prop).
Context {Hlaws : FilerLaws S valid good rep} (Hgood : forall e, good e).
Context (clock : string -> Z) (root : list string) (K : list (list string)) (HK : keys_ok valid root K).
Context (fuel : nat) (j_unmarshal : bytes -> option LifecycleConfiguration) (parse_date : string -> option Z) (nowFn : string -> gotime).

Abbreviation adapter := (lifecycleStoreAdapter S).
Abbreviation bucketsPath := (path_of root).
Abbreviation at_map := (rep_at rep root K).
#[local] Instance the_store : LifecycleStore adapter lc_err := adapter_store bucketsPath clock fuel j_unmarshal.

Lemma runs_of_filer {A} (m : GoM (list (FilerServer S)) s3_err A) (a : adapter) (Q : outcome lc_err A -> adapter -> Prop) :
  runs m (la_filer a) (fun r l => forall e t, Q (match r with Ret x => Ret x | Fail e => Fail (LcStore e) | Panic => Panic end) (mkAdapter l e t)) ->
  runs (of_filer m) a Q.
Proof. unfold runs, of_filer. destruct (m (la_filer a)) as [r l]. auto. Qed.

(** The map after an operation on one object. *)
Definition becomes (M : objects) (key : list string) (v : option ObjectData) (l : list (FilerServer S)) (B : gset string) : Prop :=
  at_map l B (partial_alter (fun _ => v) key M).

Lemma becomes_same M key o l B : M !! key = Some o -> at_map l B M -> becomes M key (Some o) l B.
Proof. intros Ho Hat. change (at_map l B (<[key := o]> M)). by rewrite insert_id. Qed.

Lemma delete_becomes b k M B (a : adapter) o :
  (b :: k) ∈ K -> M !! (b :: k) = Some o -> at_map (la_filer a) B M ->
  runs (lc_DeleteObject b (Join "/" k)) a (fun r a' =>
    match r with
    | Ret _ => becomes M (b :: k) None (la_filer a') B
    | Fail _ => becomes M (b :: k) (Some o) (la_filer a') B \/ becomes M (b :: k) None (la_filer a') B
    | Panic => False
    end).
Proof.
  intros Hk Ho Hat. cbn [lc_DeleteObject the_store adapter_store]. unfold la_DeleteObject. apply runs_bind, runs_of_filer.
  eapply runs_mono; [by apply (DeleteObject_runs valid good rep clock root K HK b k _ B M)|].
  intros r l Hres e t. destruct r as [[]|[]|]; try done; cbn.
  destruct Hres as [Hres|Hres]; [left; by apply becomes_same|by right].
Qed.

Lemma transition_becomes b k sc M B (a : adapter) o :
  (b :: k) ∈ K -> M !! (b :: k) = Some o -> at_map (la_filer a) B M ->
  let o' := with_Extended (set_storage_class sc (od_Extended o)) o in
  runs (lc_TransitionObject b (Join "/" k) sc) a (fun r a' =>
    match r with
    | Ret _ => becomes M (b :: k) (Some o') (la_filer a') B
    | Fail _ => becomes M (b :: k) (Some o) (la_filer a') B \/ becomes M (b :: k) (Some o') (la_filer a') B
    | Panic => False
    end).
Proof.
  intros Hk Ho Hat o'. cbn [lc_TransitionObject the_store adapter_store]. unfold la_TransitionObject. apply runs_bind, runs_of_filer.
  eapply runs_mono; [by apply (UpdateObjectExtended_runs valid good rep Hgood root K HK b k _ _ B M)|].
  rewrite Ho. intros r l Hres e t. destruct r as [u|[]|]; try done; cbn.
  destruct Hres as [Hres|Hres]; [left; by apply becomes_same|by right].
Qed.

Lemma becomes_becomes M key v w l B : becomes (partial_alter (fun _ => v) key M) key w l B <-> becomes M key w l B.
Proof.
  unfold becomes. assert (partial_alter (fun _ => w) key (partial_alter (fun _ => v) key M) = partial_alter (fun _ => w) key M) as ->; [|done].
  apply map_eq. intros i. destruct (decide (i = key)) as [->|]; [by rewrite !lookup_partial_alter_eq|by rewrite !lookup_partial_alter_ne].
Qed.

Lemma becomes_at M key v l B : becomes M key v l B -> at_map l B (partial_alter (fun _ => v) key M).
Proof. done. Qed.

(** The object of a key after some rules, all of them unless a call has failed. *)
Definition ruled (obj : ObjectMeta) (key : list string) (rules : list Rule) (o : ObjectData) (M : objects) (B : gset string)
    (r : outcome lc_err unit) (a' : adapter) : Prop :=
  match r with
  | Ret _ => becomes M key (outcome_of parse_date nowFn obj rules o) (la_filer a') B
  | Fail _ => exists rules', rules' `prefix_of` rules /\ becomes M key (outcome_of parse_date nowFn obj rules' o) (la_filer a') B
  | Panic => False
  end.

Lemma ruled_cons obj key rule rules o o' M B r a' :
  (forall rules', outcome_of parse_date nowFn obj (rule :: rules') o = outcome_of parse_date nowFn obj rules' o') ->
  ruled obj key rules o' M B r a' -> ruled obj key (rule :: rules) o M B r a'.
Proof.
  intros E. destruct r as [u|e|]; [|..|done]; unfold ruled; [by rewrite E|]. intros (rules' & Hp & Hb).
  exists (rule :: rules'). split; [by apply prefix_cons|]. by rewrite E.
Qed.

(** A failed call has been done or not. *)
Lemma ruled_fail obj key rule rules o v M B e a' :
  outcome_of parse_date nowFn obj [rule] o = v -> becomes M key (Some o) (la_filer a') B \/ becomes M key v (la_filer a') B ->
  ruled obj key (rule :: rules) o M B (Fail e) a'.
Proof. intros <- [Hb|Hb]; [exists []; split; [apply prefix_nil|done]|]. exists [rule]. split; [by exists rules|done]. Qed.

Lemma ruled_alter obj key rules o v M B r a' : ruled obj key rules o (partial_alter (fun _ => v) key M) B r a' -> ruled obj key rules o M B r a'.
Proof. destruct r; unfold ruled; [by rewrite becomes_becomes| |done]. intros (rules' & Hp & Hb). rewrite becomes_becomes in Hb. by exists rules'. Qed.

Lemma process_object_runs b k obj rules : forall M B (a : adapter) o,
  om_Key obj = Join "/" k -> (b :: k) ∈ K -> M !! (b :: k) = Some o -> at_map (la_filer a) B M ->
  runs (process_object parse_date nowFn b obj rules) a (ruled obj (b :: k) rules o M B).
Proof.
  induction rules as [|rule rules IH]; intros M B a o Hkey Hk Ho Hat; cbn [process_object].
  { apply runs_ret. by apply becomes_same. }
  destruct (rule_applies obj rule) eqn:Ea.
  2: { eapply runs_mono; [by apply IH|]. intros r a'. apply ruled_cons. intros rules'. cbn. by rewrite Ea. }
  destruct (shouldExpire _ _ _ _) eqn:Ee.
  { rewrite Hkey. eapply runs_mono; [by apply (delete_becomes b k M B a o)|]. intros [u|e|] a'; [|..|done].
    - unfold ruled. cbn. by rewrite Ea, Ee.
    - apply ruled_fail. cbn. by rewrite Ea, Ee. }
  destruct (shouldTransition _ _ _) eqn:Et.
  2: { apply runs_bind, runs_ret. eapply runs_mono; [by apply IH|]. intros r a'. apply ruled_cons. intros rules'. cbn. by rewrite Ea, Ee, Et. }
  apply runs_bind. rewrite Hkey. eapply runs_mono; [by apply (transition_becomes b k _ M B a o)|].
  cbv zeta. intros [u|e|] a' Hres; [|..|done].
  - apply becomes_at in Hres. eapply runs_mono; [eapply IH; [done|done| |exact Hres]; by rewrite lookup_partial_alter_eq|].
    intros r a2 Hr%ruled_alter. eapply ruled_cons; [|exact Hr]. intros rules'. cbn. by rewrite Ea, Ee, Et.
  - eapply ruled_fail; [|exact Hres]. cbn. by rewrite Ea, Ee, Et.
Qed.

(** What a processed listing has made of the map: the listed objects have been through some
    rules, the others are as they were. *)
Definition swept (b : string) (which : list Rule -> Prop) (objs : list ObjectInfo) (M M' : objects) : Prop :=
  forall key, (exists k o rules', key = b :: k /\ M !! key = Some o /\ info_of (Join "/" k) o ∈ objs /\ which rules' /\
                 M' !! key = outcome_of parse_date nowFn (meta_of k o) rules' o) \/
              ((forall k o, key = b :: k -> M !! key = Some o -> info_of (Join "/" k) o ∉ objs) /\ M' !! key = M !! key).

Definition to_meta (oi : ObjectInfo) : ObjectMeta := mkObjectMeta (oi_Key oi) (oi_LastModified oi) None.

Definition of_bucket (b : string) (M : objects) (oi : ObjectInfo) : Prop := exists k o, M !! (b :: k) = Some o /\ oi = info_of (Join "/" k) o.

Lemma swept_nil b which M : swept b which [] M M.
Proof. intros key. right. split; [|done]. intros k o _ _. apply not_elem_of_nil. Qed.

Lemma Join_key b k1 k2 : (b :: k1) ∈ K -> (b :: k2) ∈ K -> Join "/" k1 = Join "/" k2 -> k1 = k2.
Proof.
  intros H1%(key_clean valid root K HK)%clean_comps_ok H2%(key_clean valid root K HK)%clean_comps_ok.
  apply Forall_cons in H1 as [_ H1]. apply Forall_cons in H2 as [_ H2]. by apply Join_inj.
Qed.

(** The objects of a listing that is not yet processed do not notice a change of another. *)
Lemma of_bucket_other b k o v M oi :
  (forall key, is_Some (M !! key) -> key ∈ K) -> M !! (b :: k) = Some o -> of_bucket b M oi -> oi_Key oi <> Join "/" k ->
  of_bucket b (partial_alter (fun _ => v) (b :: k) M) oi.
Proof.
  intros HM Ho (k' & o' & Ho' & ->) Hne. exists k', o'. split; [|done]. rewrite lookup_partial_alter_ne; [done|].
  intros E. injection E as ->. done.
Qed.

Lemma swept_cons b which k o v objs M M' rules' :
  (forall key, is_Some (M !! key) -> key ∈ K) -> M !! (b :: k) = Some o -> which rules' ->
  v = outcome_of parse_date nowFn (meta_of k o) rules' o -> Forall (fun oi => oi_Key oi <> Join "/" k) objs ->
  swept b which objs (partial_alter (fun _ => v) (b :: k) M) M' -> swept b which (info_of (Join "/" k) o :: objs) M M'.
Proof.
  intros HM Ho Hw -> Hd Hs key. destruct (decide (key = b :: k)) as [->|Hne].
  - left. exists k, o, rules'. split_and!; [done|done|by left|done|]. destruct (Hs (b :: k)) as [(k' & o' & _ & [= <-] & _ & Hin & _)|[_ E]].
    + rewrite Forall_forall in Hd. by destruct (Hd _ Hin).
    + by rewrite lookup_partial_alter_eq in E.
  - destruct (Hs key) as [(k' & o' & rules1 & -> & E1 & Hin & Hw1 & E2)|[Hn E]].
    + left. exists k', o', rules1. rewrite lookup_partial_alter_ne in E1 by done. split_and!; [done|done|by right|done|done].
    + right. rewrite lookup_partial_alter_ne in E by done. split; [|done]. intros k' o' -> Ho' [Hin|Hin]%elem_of_cons.
      * injection Hin as Hj _ _. assert (k' = k) as -> by (eapply Join_key; [apply HM; by eexists|apply HM; by eexists|done]). done.
      * apply (Hn k' o'); [done| |done]. by rewrite lookup_partial_alter_ne.
Qed.

Lemma swept_none b which objs M : which [] -> swept b which objs M M.
Proof.
  intros Hw key. destruct key as [|b' k]; [right; by split|]. destruct (M !! (b' :: k)) as [o|] eqn:Ho; [|right; split; [by intros|done]].
  destruct (decide (b' = b /\ info_of (Join "/" k) o ∈ objs)) as [[-> Hin]|Hn].
  - left. exists k, o, []. by split_and!.
  - right. split; [|done]. intros k' o' [= -> ->] [= ->] Hin. by apply Hn.
Qed.

Lemma swept_mono b (w1 w2 : list Rule -> Prop) objs M M' : (forall r, w1 r -> w2 r) -> swept b w1 objs M M' -> swept b w2 objs M M'.
Proof. intros Hw Hs key. destruct (Hs key) as [(k & o & r & ? & ? & ? & ? & ?)|?]; [left; exists k, o, r; by auto 10|by right]. Qed.

Lemma at_dom l B M key : at_map l B M -> is_Some (M !! key) -> key ∈ K.
Proof. intros (m & _ & Hr). by apply (sr_dom _ _ _ _ _ Hr). Qed.

Definition all_swept (b : string) (rules : list Rule) (objs : list ObjectInfo) (M : objects) (B : gset string) (r : outcome lc_err unit) (a' : adapter) : Prop :=
  exists M', at_map (la_filer a') B M' /\
    match r with
    | Ret _ => swept b (eq rules) objs M M'
    | Fail _ => swept b (fun rules' => rules' `prefix_of` rules) objs M M'
    | Panic => False
    end.

Lemma process_objects_runs b rules objs : forall M B (a : adapter),
  Forall (of_bucket b M) objs -> NoDup (oi_Key <$> objs) -> at_map (la_filer a) B M ->
  runs (process_objects parse_date nowFn b rules (to_meta <$> objs)) a (all_swept b rules objs M B).
Proof.
  induction objs as [|oi objs IH]; intros M B a Hof Hnd Hat.
  { apply runs_ret. exists M. split; [done|apply swept_nil]. }
  apply Forall_cons in Hof as [(k & o & Ho & ->) Hof]. rewrite fmap_cons, NoDup_cons in Hnd. destruct Hnd as [Hni Hnd].
  assert (forall key, is_Some (M !! key) -> key ∈ K) as HM by (intros key; by apply (at_dom (la_filer a) B)).
  assert (Forall (fun oi => oi_Key oi <> Join "/" k) objs) as Hd.
  { apply Forall_forall. intros oi Hin E. apply Hni. rewrite list_elem_of_fmap. by exists oi. }
  rewrite fmap_cons. cbn [process_objects]. apply runs_bind. change (to_meta (info_of (Join "/" k) o)) with (meta_of k o).
  eapply runs_mono; [apply (process_object_runs b k (meta_of k o) rules M B a o); [done|apply HM; by eexists|done|done]|].
  intros [u|e|] a1 Hr; [|..|done].
  - eapply runs_mono; [apply IH; [|exact Hnd|exact Hr]|].
    + rewrite Forall_forall in *. intros oi Hin. apply of_bucket_other with o; [done|done|by apply Hof|by apply Hd].
    + intros r a2 (M' & Hat' & Hs). exists M'. split; [done|].
      destruct r as [u2|e|]; [..|done]; (eapply swept_cons; [exact HM|exact Ho| |done|exact Hd|exact Hs]); done.
  - destruct Hr as (rules' & Hp & Hr). eexists. split; [exact Hr|].
    eapply swept_cons; [exact HM|exact Ho|exact Hp|done|exact Hd|]. apply swept_none, prefix_nil.
Qed.

(** The objects of a complete listing, once swept. *)
Lemma swept_listing b (which : list Rule -> Prop) objs M M' :
  (forall key, is_Some (M !! key) -> key ∈ K) -> which [] \/ (exists rules, which = eq rules) -> listing M b "" objs -> swept b which objs M M' ->
  forall key, exists rules', which rules' /\ M' !! key = o ← M !! key; process_entry parse_date nowFn rules' b key o.
Proof.
  intros HM Hex [_ Hl] Hs key. destruct (Hs key) as [(k & o & rules' & -> & Ho & Hin & Hw & E)|[Hn E]].
  - exists rules'. split; [done|]. rewrite Ho, E. cbn. apply Hl in Hin as (k2 & o2 & Ho2 & Hv & _ & Ei). injection Ei as Ej _ _ _.
    assert (k = k2) as <- by (eapply Join_key; [apply HM; by eexists|apply HM; by eexists|done]). by rewrite decide_True.
  - assert (exists rules', which rules') as [rules' Hw] by (destruct Hex as [?|[rules ->]]; eauto). exists rules'. split; [done|].
    rewrite E. destruct (M !! key) as [o|] eqn:Ho; [|done]. cbn. destruct key as [|b' k]; [done|]. cbn. rewrite decide_False; [done|].
    intros [-> Hv]. apply (Hn k o); [done|done|]. apply Hl. exists k, o. split_and!; [done|done|by apply HasPrefix_empty|done].
Qed.

Lemma ProcessBucket_runs b rules M B (a : adapter) cfg :
  clean_comp b -> valid (path_of (root ++ [b])%list) -> (forall k, k ∈ K -> (length k <= 1 + fuel)%nat) -> Z.of_nat (length K) <= 10000 ->
  [b; ".sys"; "lifecycle.json"] ∈ K -> at_map (la_filer a) B M ->
  M !! [b; ".sys"; "lifecycle.json"] = Some cfg -> j_unmarshal (od_Content cfg) = Some rules -> validate_rules 0 rules = None ->
  runs (ProcessBucket parse_date nowFn b) a (fun r a' => exists M', at_map (la_filer a') B M' /\
    match r with
    | Ret _ => M' = processed parse_date nowFn rules b M
    | Fail _ => interrupted parse_date nowFn rules b M M'
    | Panic => False
    end).
Proof.
  intros Hb Hv Hfuel Hsize Hk Hat Hcfg Hj Hval. assert (interrupted parse_date nowFn rules b M M) as Hno.
  { intros key. exists []. split; [apply prefix_nil|]. destruct (M !! key); [|done]. cbn. by rewrite process_entry_nil. }
  unfold ProcessBucket. apply runs_bind. cbn [lc_LoadLifecycleConfig the_store adapter_store].
  pose proof (GetBucketMeta_runs valid good rep Hgood clock root K HK b "lifecycle.json" (la_filer a) B M Hk Hat) as Hget.
  unfold runs, la_LoadLifecycleConfig, of_filer in *. destruct (GetBucketMeta _ _ _ _) as [rm lm]. destruct Hget as [Hlm Hget].
  destruct rm as [raw|[]|]; try done; [|congruence|by exists M].
  rewrite Hcfg in Hget. injection Hget as <-. rewrite Hj. cbn [ValidateConfiguration]. rewrite Hval.
  fold (runs (objects ← lc_ListObjects b; process_objects parse_date nowFn b rules objects) (mkAdapter lm (la_expired a) (la_transitioned a))
    (fun r a' => exists M', at_map (la_filer a') B M' /\ match r with Ret _ => M' = processed parse_date nowFn rules b M
       | Fail _ => interrupted parse_date nowFn rules b M M' | Panic => False end)).
  apply runs_bind. cbn [lc_ListObjects the_store adapter_store]. unfold la_ListObjects. apply runs_bind, runs_of_filer. cbn [la_filer].
  eapply runs_mono; [by apply (ListObjects_runs valid good rep clock root K HK fuel b "" lm B M)|].
  intros r l2 [Hl2 Hres] e t. destruct r as [objs|[]|]; try done; [|by exists M..]. destruct Hres as [_ Hl]. apply runs_ret.
  change ((fun o : ObjectInfo => mkObjectMeta (oi_Key o) (oi_LastModified o) None) <$> objs) with (to_meta <$> objs).
  assert (forall key, is_Some (M !! key) -> key ∈ K) as HM by (intros key; by apply (at_dom l2 B)).
  eapply runs_mono; [apply (process_objects_runs b rules objs M B); [| |done]|].
  - apply Forall_forall. intros oi (k & o & Ho & _ & _ & ->)%Hl. by exists k, o.
  - destruct Hl as [Hs _]. clear -Hs. induction Hs as [|x l Hs IH Hf]; cbn; constructor; [|done].
    intros (y & E & Hin)%list_elem_of_fmap. rewrite Forall_forall in Hf. specialize (Hf _ Hin). unfold key_lt in Hf. rewrite <- E in Hf. by apply str_lt_irrefl in Hf.
  - intros r a' (M' & Hat' & Hs). exists M'. split; [done|]. destruct r as [u|err|]; [| |done].
    + apply map_eq. intros key. rewrite processed_lookup.
      destruct (swept_listing b (eq rules) objs M M' HM ltac:(right; by eexists) Hl Hs key) as (rules' & <- & E). done.
    + intros key. apply (swept_listing b _ objs M M' HM); [left; apply prefix_nil|done|done].
Qed.
End lifecycle_spec.


(** An expiration date is not waited for.  The first enabled rule with a date that
    matches an object deletes it, in any store, if it was written before the date, although
    the date is still to come. *)
Theorem expiration_date_not_awaited {S E : Type} `{LifecycleStore S E} parse_date nowFn b obj rule rules date cutoff :
  TrimSpace (ru_Status rule) = "Enabled" -> matchesFilter obj (ru_Filter rule) = true ->
  ru_Expiration rule = Some (mkExpiration 0 date) -> parse_date date = Some cutoff -> date <> "" ->
  om_LastModified obj * second <= tm_ns (nowFn (om_Key obj)) < cutoff ->
  process_object parse_date nowFn b obj (rule :: rules) = lc_DeleteObject b (om_Key obj).
Proof.
  intros Hs Hf He Hd Hne Ht. cbn [process_object]. unfold rule_applies. rewrite Hs, Hf, He. cbn -[second].
  rewrite (decide_True (P := date <> "")) by done. rewrite Hd, (bool_decide_true (_ < cutoff)) by lia. done.
Qed.

Definition dated_rule : Rule := mkRule "" (mkFilter "" (mkTag "" "")) (Some (mkExpiration 0 "2030-01-01T00:00:00Z")) None "Enabled".

Lemma expiration_date_not_awaited_witness :
  @process_object _ _ (@adapter_store MemStore (mem_store mem_order) "/buckets" sample_clock 3 (fun _ => None)) (fun _ => Some (21915 * (24 * 60 * 60 * second))) (fun _ => mkTime (20000 * (24 * 60 * 60 * second)) (fun _ => 0))
    "b" (mkObjectMeta "new" 1700000000 None) [dated_rule] =
  @lc_DeleteObject _ _ (@adapter_store MemStore (mem_store mem_order) "/buckets" sample_clock 3 (fun _ => None)) "b" "new".
Proof.
  apply (@expiration_date_not_awaited _ _ _ _ _ "b" (mkObjectMeta "new" 1700000000 None) dated_rule [] "2030-01-01T00:00:00Z" (21915 * (24 * 60 * 60 * second)));
    first [vm_compute; reflexivity|done|vm_compute; split; done].
Defined.

(** ** Examples *)

Definition lc_keys : list (list string) := [["b"; "logs"; "old"]; ["b"; "data"; "x"]; ["b"; ".sys"; "lifecycle.json"]].

Definition lc_ops : list s3_op :=
  [OCreateBucket "b"; OPut "b" ["logs"; "old"] [104; 105] "" ∅; OPut "b" ["data"; "x"] [120] "" ∅; OSetMeta "b" "lifecycle.json" [1]].

Definition lc_rules : list Rule :=
  [mkRule "expire-logs" (mkFilter "logs/" (mkTag "" "")) (Some (mkExpiration 30 "")) None "Enabled";
   mkRule "tier-data" (mkFilter "data/" (mkTag "" "")) None (Some (mkTransition 90 "STANDARD_IA")) "Enabled"].

Definition lc_now (key : string) : gotime := mkTime (100 * (24 * 60 * 60 * second)) (fun _ => 0).
Definition lc_decode (b : bytes) : option LifecycleConfiguration := Some lc_rules.

Lemma lc_keys_ok : keys_ok abs_path sample_root lc_keys.
Proof.
  split.
  - by apply (bool_decide_unpack _); vm_compute.
  - intros k Hk. repeat (apply elem_of_cons in Hk as [->|Hk]; [split; [by apply (bool_decide_unpack _); vm_compute|]; split; [cbn; lia|]; eexists; split; [|done]; by apply (bool_decide_unpack _); vm_compute|]).
    by apply not_elem_of_nil in Hk.
  - assert (Forall (fun k1 => Forall (fun k2 => k1 `prefix_of` k2 -> k1 = k2) lc_keys) lc_keys) as Hf
      by (apply (bool_decide_unpack _); by vm_compute).
    intros k1 k2 H1 H2. rewrite Forall_forall in Hf. specialize (Hf k1 H1). rewrite Forall_forall in Hf. by apply Hf.
Qed.

Lemma lc_ops_ok : Forall (s3_op_ok abs_path sample_root lc_keys) lc_ops.
Proof.
  assert (clean_comp "b") as Hb by (apply (bool_decide_unpack _); by vm_compute).
  assert (abs_path (P sample_root ["b"])) as Hv by (eexists; split; [|done]; by apply (bool_decide_unpack _); vm_compute).
  repeat apply Forall_cons_2; try apply Forall_nil_2; cbn [s3_op_ok]; try (by apply (bool_decide_unpack _); vm_compute); done.
Qed.

Definition lc_filers : list (FilerServer MemStore) := snd (@exec_s3s MemStore (mem_store mem_order) sample_clock sample_root lc_ops [ex_server ∅]).

Definition lc_object (data : bytes) : ObjectData := new_object data "application/octet-stream" ∅ 7.

Definition lc_map : objects :=
  <[["b"; ".sys"; "lifecycle.json"] := lc_object [1]]> (<[["b"; "data"; "x"] := lc_object [120]]> (<[["b"; "logs"; "old"] := lc_object [104; 105]]> ∅)).

Lemma s3_runs_inv clock root op ops st r rs st2 :
  s3_runs clock root (op :: ops) st (r :: rs) st2 -> exists st1, s3_spec clock root op st r st1 /\ s3_runs clock root ops st1 rs st2.
Proof. intros H. inversion H; subst. eauto. Qed.

Lemma s3_runs_nil_inv clock root st rs st2 : s3_runs clock root [] st rs st2 -> st2 = st.
Proof. intros H. by inversion H. Qed.

Lemma lc_rep : rep_at mem_rep sample_root lc_keys lc_filers {["b"]} lc_map.
Proof.
  assert (serves mem_rep (ex_server ∅) ∅) as Hs by (apply ex_serves, map_Forall_empty).
  assert (rep_at mem_rep sample_root lc_keys [ex_server ∅] ∅ ∅) as H0.
  { apply (@rep_at_empty MemStore (mem_store mem_order) abs_path (fun _ => True) mem_rep (mem_laws mem_order mem_order_ok) (fun _ => I) sample_root lc_keys lc_keys_ok). by exists (ex_server ∅). }
  pose proof (@exec_s3s_runs MemStore (mem_store mem_order) abs_path (fun _ => True) mem_rep (mem_laws mem_order mem_order_ok) (fun _ => I)
    sample_clock sample_root lc_keys lc_keys_ok lc_ops [ex_server ∅] ∅ ∅ lc_ops_ok H0) as H.
  assert (fst (@exec_s3s MemStore (mem_store mem_order) sample_clock sample_root lc_ops [ex_server ∅]) =
    [Ret OutUnit; Ret (OutETag (md5_hex [104; 105])); Ret (OutETag (md5_hex [120])); Ret OutUnit]) as Hrs by (vm_compute; reflexivity).
  unfold lc_filers. destruct (exec_s3s _ _ _ _) as [rs l]. cbn [fst snd] in *. subst rs. destruct H as (st & Hruns & Hrep).
  apply s3_runs_inv in Hruns as (st1 & (_ & _ & ->) & Hruns). apply s3_runs_inv in Hruns as (st2 & (_ & _ & ->) & Hruns).
  apply s3_runs_inv in Hruns as (st3 & (_ & _ & ->) & Hruns). apply s3_runs_inv in Hruns as (st4 & (_ & _ & ->) & Hruns).
  assert (forall k, now_at sample_clock sample_root k = 7) as Hnow by (intros k; vm_compute; reflexivity).
  apply s3_runs_nil_inv in Hruns as ->. cbn [fst snd] in Hrep. rewrite !Hnow, union_empty_r_L in Hrep.
  change (octet "") with "application/octet-stream" in Hrep. unfold lc_map, lc_object. exact Hrep.
Qed.

