(* ===== verification/S3Server.v ===== *)
(** * S3Server: the handlers of the S3 gateway

    Models the routing and the handlers of [goblob/s3api] ([server.go], [bucket_handlers.go],
    [object_handlers.go], [multipart_handlers.go], [advanced_handlers.go],
    [lifecycle_handlers.go], [quota_identity.go]) over the client of [S3Store], the quotas of
    [Quota] and the signatures of [S3Auth].  The clock, random ids and the XML and JSON
    codecs are arguments. *)

From stdpp Require Import sorting.
From S2P Require Import Prelude GoStrings Types GoPath Http Hashes FilerStore Filer FilerServer GoText Quota S3Store Iam S3Auth Lifecycle MemoryStore.
From S2P Require Import FilerSpec FilerSafe PathSpec S3Refine.

#[local] Open Scope Z_scope.
#[local] Open Scope string_scope.

(** ** Responses *)

Definition hasQueryKey (r : s3_request) (k : string) : bool := bool_decide (is_Some (sq_query r !! k)).

Record cors_rule := mkCorsRule {
  cr_AllowedOrigins : list string;
  cr_AllowedMethods : list string;
  cr_AllowedHeaders : list string;
  cr_ExposeHeaders : list string;
}.

(** The documents that the handlers encode. *)
Inductive s3_doc :=
| XError (code message : string)
| XBuckets (names : list string) (created : Z)
| XCreateBucket (location : string)
| XObjects (name prefix : string) (contents : list ObjectInfo)
| XDeleted (keys : list string)
| XInitiate (bucket key uploadID : string)
| XComplete (location bucket key etag : string)
| XVersioning (status : string)
| XLifecycle (rules : LifecycleConfiguration)
| XTagging (tags : list (string * string))
| XRaw (b : bytes)
| XText (s : string).

Record s3_reply := mkS3Reply {
  sp_status : option Z;
  sp_headers : gmap string string;
  sp_body : list s3_doc;
}.

Definition new_reply : s3_reply := mkS3Reply None ∅ [].

(** Headers that are set after the status has been written are not sent. *)
Definition set_header (k v : string) (w : s3_reply) : s3_reply :=
  match sp_status w with None => mkS3Reply None (<[k := v]> (sp_headers w)) (sp_body w) | Some _ => w end.
Definition write_status (status : Z) (w : s3_reply) : s3_reply :=
  match sp_status w with None => mkS3Reply (Some status) (sp_headers w) (sp_body w) | Some _ => w end.
Definition write_doc (d : s3_doc) (w : s3_reply) : s3_reply :=
  let w := write_status 200 w in mkS3Reply (sp_status w) (sp_headers w) (sp_body w ++ [d])%list.

Definition writeXML (status : Z) (d : s3_doc) (w : s3_reply) : s3_reply :=
  write_doc d (write_status status (set_header "Content-Type" "application/xml" w)).

Definition writeS3Error (status : Z) (code message : string) (w : s3_reply) : s3_reply := writeXML status (XError code message) w.

(** ** Identities of requests *)

(** What precedes the first occurrence of a separator, if there is one. *)
Definition cut_before (sep s : string) : string := match Cut s sep with Some (a, _) => a | None => s end.

Definition quoted (s : string) : string := dquote +:+ s +:+ dquote.

Definition requestQuotaUserID (r : s3_request) : string :=
  let key := TrimSpace (header_get r "X-Access-Key") in
  if decide (key <> "") then key else
  let authz := TrimSpace (header_get r "Authorization") in
  let from_header :=
    '(_, rest) ← Cut authz "Credential=";
    let rest := cut_before "/" (cut_before "," rest) in
    if decide (rest <> "") then Some (TrimSpace rest) else None in
  match from_header with
  | Some id => id
  | None =>
      let credential := query_get r "X-Amz-Credential" in
      if decide (credential = "") then "" else
      TrimSpace (cut_before "/" (default credential (QueryUnescape credential)))
  end.

Definition splitBucketAndKey (rawPath : string) : string * string :=
  let cleaned := Clean ("/" +:+ rawPath) in
  if decide (cleaned = "/") then ("", "") else
  match Split slash (TrimPrefix cleaned "/") with
  | [] => ("", "")
  | bucket :: rest => (bucket, Join "/" rest)
  end.

(** ** The gateway *)

Definition maxSinglePutObjectSize : Z := 256 * 1024 * 1024.
Definition minMultipartPartSize : Z := 5 * 1024 * 1024.

(** What the gateway is given: the texts of errors, the directory of the buckets, the clock by
    path, the depth of trees, and the codecs of JSON, XML and dates. *)
Record s3_env := mkS3Env {
  se_err_text : s3_err -> string;
  se_quota_text : quota_err -> string;
  se_lc_text : lc_err -> string;
  se_bucketsPath : string;
  se_clock : string -> Z;
  se_fuel : nat;
  se_q_marshal : Quota -> string + string;
  se_q_unmarshal : string -> string + Quota;
  se_m_marshal : MultipartMeta -> bytes;
  se_m_unmarshal : bytes -> option MultipartMeta;
  se_x_delete : bytes -> option (list string);
  se_x_complete : bytes -> option (list (Z * string));
  se_x_tagging : bytes -> option (list (string * string));
  se_j_tags : list (string * string) -> bytes;
  se_j_untags : bytes -> list (string * string);
  se_x_versioning : bytes -> option string;
  se_x_cors : bytes -> option (list cors_rule);
  se_x_encode_cors : list cors_rule -> bytes;
  se_x_lifecycle : bytes -> option LifecycleConfiguration;
  se_j_marshal : LifecycleConfiguration -> bytes;
  se_j_unmarshal : bytes -> option LifecycleConfiguration;
  se_parse_date : string -> option Z;
  se_http_time : Z -> string;
}.

Section gateway.
Context {S : Type} `{FilerStore S}.

Abbreviation filers := (list (FilerServer S)).

Context (E : s3_env).

Abbreviation err_text := (se_err_text E).
Abbreviation quota_text := (se_quota_text E).
Abbreviation lc_text := (se_lc_text E).
Abbreviation bucketsPath := (se_bucketsPath E).
Abbreviation clock := (se_clock E).
Abbreviation fuel := (se_fuel E).
Abbreviation q_marshal := (se_q_marshal E).
Abbreviation q_unmarshal := (se_q_unmarshal E).
Abbreviation m_marshal := (se_m_marshal E).
Abbreviation m_unmarshal := (se_m_unmarshal E).
Abbreviation x_delete := (se_x_delete E).
Abbreviation x_complete := (se_x_complete E).
Abbreviation x_tagging := (se_x_tagging E).
Abbreviation j_tags := (se_j_tags E).
Abbreviation j_untags := (se_j_untags E).
Abbreviation x_versioning := (se_x_versioning E).
Abbreviation x_cors := (se_x_cors E).
Abbreviation x_encode_cors := (se_x_encode_cors E).
Abbreviation x_lifecycle := (se_x_lifecycle E).
Abbreviation j_marshal := (se_j_marshal E).
Abbreviation j_unmarshal := (se_j_unmarshal E).
Abbreviation parse_date := (se_parse_date E).
Abbreviation http_time := (se_http_time E).

(** The keys and values of the gateway, as the manager of quotas sees them. *)
#[export] Instance gateway_kv : KvStore filers := {
  KvGet key := fun l => let '(r, l) := s3_KvGet key l in (match r with Ret v => Ret v | Fail e => Fail (ErrOther (err_text e)) | Panic => Panic end, l);
  KvPut key value := fun l => let '(r, l) := s3_KvPut key value l in (match r with Ret v => Ret v | Fail e => Fail (ErrOther (err_text e)) | Panic => Panic end, l);
  KvDelete key := fun l => let '(r, l) := s3_KvDelete key l in (match r with Ret v => Ret v | Fail e => Fail (ErrOther (err_text e)) | Panic => Panic end, l);
}.

(** [s.store] is nil without filers.  A handler that returns early does so with the
    response. *)
Abbreviation handler := (GoM (option filers) s3_reply).

(** A call of the store, whose error the handler looks at. *)
Definition call {A} (m : GoM filers s3_err A) : handler (s3_err + A) := fun g =>
  match g with
  | None => (Panic, None)
  | Some l => let '(r, l) := m l in (match r with Ret a => Ret (inr a) | Fail e => Ret (inl e) | Panic => Panic end, Some l)
  end.

Definition reply_with {A} (w : s3_reply) : handler A := fail w.

(** A call whose error ends the handler with a response. *)
Definition call_or {A} (on_err : s3_err -> s3_reply) (m : GoM filers s3_err A) : handler A :=
  r ← call m; match r with inl e => reply_with (on_err e) | inr a => mret a end.

Definition internal_error (w : s3_reply) (e : s3_err) : s3_reply := writeS3Error 500 "InternalError" (err_text e) w.

(** The response for an error of which some kinds have a status of their own. *)
Definition no_bucket (w : s3_reply) (e : s3_err) : s3_reply :=
  match e with S3BucketNotFound => writeS3Error 404 "NoSuchBucket" "bucket not found" w | e => internal_error w e end.
Definition no_object (w : s3_reply) (e : s3_err) : s3_reply :=
  match e with S3ObjectNotFound => writeS3Error 404 "NoSuchKey" "object not found" w | e => internal_error w e end.
Definition no_upload (w : s3_reply) (e : s3_err) : s3_reply :=
  match e with S3NotFound => writeS3Error 404 "NoSuchUpload" "multipart upload not found" w | e => internal_error w e end.

(** [io.ReadAll(io.LimitReader(r.Body, limit))] *)
Definition limited (limit : Z) (b : bytes) : bytes := if decide (zlen b <= limit) then b else take (Z.to_nat limit) b.

Definition read_body (limit : Z) (r : s3_request) (on_err : s3_reply) : handler bytes :=
  match sq_body r with None => reply_with on_err | Some b => mret (limited limit b) end.

Definition not_allowed (w : s3_reply) : s3_reply := writeS3Error 405 "MethodNotAllowed" "method not allowed" w.

(** *** Buckets *)

Definition handleListBuckets (now : Z) : handler s3_reply :=
  names ← call_or (internal_error new_reply) (ListBuckets bucketsPath clock);
  mret (writeXML 200 (XBuckets names now) new_reply).

Definition handleCreateBucket (bucket : string) : handler s3_reply :=
  call_or (fun e => match e with S3BucketExists => writeS3Error 409 "BucketAlreadyOwnedByYou" (err_text e) new_reply
                               | e => internal_error new_reply e end) (CreateBucket bucketsPath clock bucket);;
  mret (writeXML 200 (XCreateBucket ("/" +:+ bucket)) new_reply).

Definition handleDeleteBucket (bucket : string) : handler s3_reply :=
  call_or (fun e => match e with
    | S3BucketNotFound => writeS3Error 404 "NoSuchBucket" (err_text e) new_reply
    | S3BucketNotEmpty => writeS3Error 409 "BucketNotEmpty" (err_text e) new_reply
    | e => internal_error new_reply e
    end) (DeleteBucket bucketsPath clock fuel bucket);;
  mret (write_status 204 new_reply).

Definition found_bucket (bucket : string) : handler unit :=
  b ← call_or (internal_error new_reply) (BucketExists bucketsPath bucket);
  if (b : bool) then mret tt else reply_with (writeS3Error 404 "NoSuchBucket" "bucket not found" new_reply).

Definition handleHeadBucket (bucket : string) : handler s3_reply :=
  found_bucket bucket;; mret (write_status 200 new_reply).

(** The entity tag of an item in quotes. *)
Definition quote_etag (o : ObjectInfo) : ObjectInfo :=
  let eTag := TrimSpace (oi_ETag o) in
  let eTag := if decide (eTag <> "" /\ HasPrefix eTag dquote = false) then quoted eTag else eTag in
  mkObjectInfo (oi_Key o) (oi_Size o) (oi_LastModified o) eTag.

Definition handleListObjects (r : s3_request) (bucket : string) : handler s3_reply :=
  let prefix := query_get r "prefix" in
  objects ← call_or (no_bucket new_reply) (ListObjects bucketsPath fuel bucket prefix);
  mret (writeXML 200 (XObjects bucket prefix (quote_etag <$> objects)) new_reply).

(** The errors of the deletions are dropped. *)
Fixpoint delete_objects (bucket : string) (keys : list string) : handler (list string) :=
  match keys with
  | [] => mret []
  | key :: keys =>
      if decide (TrimSpace key = "") then delete_objects bucket keys else
      call (DeleteObject bucketsPath clock bucket key);;
      rest ← delete_objects bucket keys;
      mret (key :: rest)
  end.

Definition handleDeleteObjects (r : s3_request) (bucket : string) : handler s3_reply :=
  body ← read_body (2 * 1024 * 1024) r (writeS3Error 400 "MalformedXML" "failed to read request body" new_reply);
  match x_delete body with
  | None => mret (writeS3Error 400 "MalformedXML" "invalid delete request xml" new_reply)
  | Some keys =>
      if decide (zlen keys > 1000) then mret (writeS3Error 400 "MalformedXML" "too many objects in delete request" new_reply) else
      deleted ← delete_objects bucket keys;
      mret (writeXML 200 (XDeleted deleted) new_reply)
  end.

(** *** Objects *)

Definition getBucketVersioningState (bucket : string) : handler (s3_err + string) :=
  r ← call (GetBucketMeta bucketsPath bucket "versioning");
  mret (match r with inl S3NotFound => inr "" | inl e => inl e | inr data => inr (TrimSpace (of_bytes data)) end).

(** One check of a quota: exceeding it ends the handler, other errors are logged. *)
Definition quota_check (m : GoM (option filers) quota_err unit) : handler unit := fun g =>
  match g with
  | None => (Ret tt, g)
  | Some _ =>
      match m g with
      | (Fail (ErrQuotaExceeded s i mx u q), g) =>
          (Fail (writeS3Error 507 "InsufficientStorage" (quota_text (ErrQuotaExceeded s i mx u q)) new_reply), g)
      | (Panic, g) => (Panic, g)
      | (_, g) => (Ret tt, g)
      end
  end.

(** One accounting, whose errors are logged. *)
Definition quota_count (m : GoM (option filers) quota_err unit) : handler unit := fun g =>
  match g with
  | None => (Ret tt, g)
  | Some _ => match m g with (Panic, g) => (Panic, g) | (_, g) => (Ret tt, g) end
  end.

Definition set_etag_attr (eTag : string) (ext : gmap string bytes) : gmap string bytes := <["s3:etag" := to_bytes eTag]> ext.

Definition opt_attr (cond : bool) (k v : string) (ext : gmap string bytes) : gmap string bytes :=
  if cond then <[k := to_bytes v]> ext else ext.

Definition handlePutObject (versionID : string) (r : s3_request) (bucket key : string) : handler s3_reply :=
  data ← read_body (maxSinglePutObjectSize + 1) r (writeS3Error 400 "MalformedXML" "failed to read object body" new_reply);
  if decide (zlen data > maxSinglePutObjectSize) then mret (writeS3Error 413 "EntityTooLarge" "object is too large" new_reply) else
  let userID := requestQuotaUserID r in
  quota_check (CheckUserQuota q_unmarshal userID (zlen data));;
  quota_check (CheckBucketQuota q_unmarshal bucket (zlen data));;
  versioning ← getBucketVersioningState bucket;
  let versioned := EqualFold (match versioning with inr v => v | inl _ => "" end) "Enabled" in
  let encrypted := EqualFold (TrimSpace (header_get r "x-amz-server-side-encryption")) "AES256" in
  let extended := opt_attr encrypted "s3:sse" "AES256" (opt_attr versioned "s3:version_id" versionID
                    (opt_attr (bool_decide (userID <> "")) "s3:owner" userID ∅)) in
  let w := if versioned then set_header "x-amz-version-id" versionID new_reply else new_reply in
  let w := if encrypted then set_header "x-amz-server-side-encryption" "AES256" w else w in
  eTag ← call_or (no_bucket w) (PutObject bucketsPath clock bucket key data (header_get r "Content-Type") extended);
  call (UpdateObjectExtended bucketsPath bucket key (set_etag_attr eTag));;
  quota_count (AddBucketUsage q_marshal q_unmarshal bucket (zlen data));;
  (if decide (userID <> "") then quota_count (AddUserUsage q_marshal q_unmarshal userID (zlen data)) else mret tt);;
  mret (write_status 200 (set_header "ETag" (quoted eTag) w)).

Definition set_some (k : string) (v : string) (w : s3_reply) : s3_reply := if decide (v <> "") then set_header k v w else w.

Definition attr (ext : gmap string bytes) (k : string) : string := of_bytes (default [] (ext !! k)).

Definition handleGetObject (bucket key : string) (withBody : bool) : handler s3_reply :=
  obj ← call_or (no_object new_reply) (GetObject bucketsPath bucket key);
  let ct := if decide (od_ContentType obj = "") then "application/octet-stream" else od_ContentType obj in
  let w := set_header "Last-Modified" (http_time (od_Mtime obj))
             (set_header "Content-Length" (Itoa (zlen (od_Content obj))) (set_header "Content-Type" ct new_reply)) in
  let eTag := attr (od_Extended obj) "s3:etag" in
  let w := if decide (eTag <> "") then set_header "ETag" (quoted eTag) w else w in
  let w := set_some "x-amz-server-side-encryption" (attr (od_Extended obj) "s3:sse") w in
  let w := set_some "x-amz-version-id" (attr (od_Extended obj) "s3:version_id") w in
  mret (if withBody then write_doc (XRaw (od_Content obj)) (write_status 200 w) else write_status 200 w).

Definition handleDeleteObject (r : s3_request) (bucket key : string) : handler s3_reply :=
  found_bucket bucket;;
  obj ← call (GetObject bucketsPath bucket key);
  call_or (internal_error new_reply) (DeleteObject bucketsPath clock bucket key);;
  match obj with
  | inl _ => mret (write_status 204 new_reply)
  | inr o =>
      quota_count (SubtractBucketUsage q_marshal q_unmarshal bucket (od_Size o));;
      let owner := attr (od_Extended o) "s3:owner" in
      let owner := if decide (owner = "") then requestQuotaUserID r else owner in
      (if decide (owner <> "") then quota_count (SubtractUserUsage q_marshal q_unmarshal owner (od_Size o)) else mret tt);;
      mret (write_status 204 new_reply)
  end.

Definition handleObjectTagging (r : s3_request) (bucket key : string) : handler s3_reply :=
  if decide (sq_method r = "PUT") then
    body ← read_body (256 * 1024) r (writeS3Error 400 "MalformedXML" "failed to read tagging body" new_reply);
    match x_tagging body with
    | None => mret (writeS3Error 400 "MalformedXML" "invalid tagging xml" new_reply)
    | Some tags =>
        if decide (zlen tags > 10) then mret (writeS3Error 400 "InvalidTag" "too many tags" new_reply) else
        call_or (no_object new_reply) (UpdateObjectExtended bucketsPath bucket key (fun ext => <["s3:tags" := j_tags tags]> ext));;
        mret (write_status 200 new_reply)
    end
  else if decide (sq_method r = "GET") then
    obj ← call_or (no_object new_reply) (GetObject bucketsPath bucket key);
    let raw := default [] (od_Extended obj !! "s3:tags") in
    let tags := if decide (raw <> []) then j_untags raw else [] in
    mret (writeXML 200 (XTagging tags) new_reply)
  else if decide (sq_method r = "DELETE") then
    call_or (no_object new_reply) (UpdateObjectExtended bucketsPath bucket key (delete "s3:tags"));;
    mret (write_status 204 new_reply)
  else mret (not_allowed new_reply).

(** *** Multipart uploads *)

Definition handleInitiateMultipart (uploadID : string) (now : Z) (r : s3_request) (bucket key : string) : handler s3_reply :=
  if decide (sq_method r <> "POST") then mret (not_allowed new_reply) else
  found_bucket bucket;;
  call_or (no_bucket new_reply) (CreateMultipartUpload bucketsPath clock m_marshal bucket key uploadID now);;
  mret (writeXML 200 (XInitiate bucket key uploadID) new_reply).

Definition handleUploadPart (r : s3_request) (bucket key : string) : handler s3_reply :=
  if decide (sq_method r <> "PUT") then mret (not_allowed new_reply) else
  let uploadID := query_get r "uploadId" in
  match Atoi (query_get r "partNumber") with
  | None => mret (writeS3Error 400 "InvalidArgument" "invalid part number" new_reply)
  | Some partNumber =>
      if decide (partNumber < 1 \/ partNumber > 10000) then mret (writeS3Error 400 "InvalidArgument" "invalid part number" new_reply) else
      call_or (no_upload new_reply) (LoadMultipartUpload bucketsPath m_unmarshal bucket key uploadID);;
      data ← read_body (maxSinglePutObjectSize + 1) r (writeS3Error 400 "InvalidRequest" "failed to read part body" new_reply);
      if decide (zlen data > maxSinglePutObjectSize) then mret (writeS3Error 413 "EntityTooLarge" "part is too large" new_reply) else
      eTag ← call_or (no_bucket new_reply) (PutMultipartPart bucketsPath clock bucket uploadID partNumber data);
      mret (write_status 200 (set_header "ETag" (quoted eTag) new_reply))
  end.

Definition part_le (a b : Z * string) : Prop := fst a <= fst b.
#[global] Instance part_le_dec : RelDecision part_le.
Proof. intros a b. unfold part_le. apply _. Defined.

(** Two parts that follow each other have one number. *)
Fixpoint duplicate_part (parts : list (Z * string)) : bool :=
  match parts with
  | a :: ((b :: _) as rest) => bool_decide (fst a = fst b) || duplicate_part rest
  | _ => false
  end.

(** The content of the parts, checked one by one; all but the last need a minimal size. *)
Fixpoint combine_parts (bucket uploadID : string) (parts : list (Z * string)) (combined : bytes) : handler bytes :=
  match parts with
  | [] => mret combined
  | (n, eTag) :: parts =>
      '(obj, computedETag) ← call_or (fun e => match e with S3NotFound => writeS3Error 400 "InvalidPart" "missing part" new_reply
                                                          | e => internal_error new_reply e end)
                               (GetMultipartPart bucketsPath bucket uploadID n);
      if decide (Trim "034"%char eTag <> computedETag) then reply_with (writeS3Error 400 "InvalidPart" "etag mismatch" new_reply) else
      if decide (parts <> [] /\ zlen (od_Content obj) < minMultipartPartSize)
      then reply_with (writeS3Error 400 "EntityTooSmall" "part size below minimum" new_reply)
      else combine_parts bucket uploadID parts (combined ++ od_Content obj)%list
  end.

Definition handleCompleteMultipart (r : s3_request) (bucket key : string) : handler s3_reply :=
  if decide (sq_method r <> "POST") then mret (not_allowed new_reply) else
  let uploadID := query_get r "uploadId" in
  call_or (no_upload new_reply) (LoadMultipartUpload bucketsPath m_unmarshal bucket key uploadID);;
  body ← read_body (2 * 1024 * 1024) r (writeS3Error 400 "MalformedXML" "failed to read completion body" new_reply);
  match x_complete body with
  | None => mret (writeS3Error 400 "MalformedXML" "invalid completion xml" new_reply)
  | Some [] => mret (writeS3Error 400 "InvalidPart" "no parts provided" new_reply)
  | Some parts =>
      let parts := merge_sort part_le parts in
      if duplicate_part parts then mret (writeS3Error 400 "InvalidPart" "duplicate part number" new_reply) else
      combined ← combine_parts bucket uploadID parts [];
      eTag ← call_or (no_bucket new_reply) (PutObject bucketsPath clock bucket key combined "application/octet-stream" ∅);
      call (UpdateObjectExtended bucketsPath bucket key (set_etag_attr eTag));;
      call (DeleteMultipartUpload bucketsPath clock fuel bucket uploadID);;
      mret (writeXML 200 (XComplete ("/" +:+ bucket +:+ "/" +:+ key) bucket key (quoted eTag)) new_reply)
  end.

Definition handleAbortMultipart (r : s3_request) (bucket key : string) : handler s3_reply :=
  if decide (sq_method r <> "DELETE") then mret (not_allowed new_reply) else
  let uploadID := query_get r "uploadId" in
  call_or (no_upload new_reply) (LoadMultipartUpload bucketsPath m_unmarshal bucket key uploadID);;
  call_or (internal_error new_reply) (DeleteMultipartUpload bucketsPath clock fuel bucket uploadID);;
  mret (write_status 204 new_reply).

(** *** Metadata of buckets *)

(** The metadata of a bucket, or a response that names what is missing. *)
Definition get_meta (bucket key code message : string) : handler bytes :=
  call_or (fun e => match e with S3NotFound => writeS3Error 404 code message new_reply | e => no_bucket new_reply e end) (GetBucketMeta bucketsPath bucket key).

Definition set_meta (bucket key : string) (value : bytes) : handler unit := call_or (no_bucket new_reply) (SetBucketMeta bucketsPath clock bucket key value).

Definition delete_meta (bucket key : string) : handler s3_reply :=
  call_or (internal_error new_reply) (DeleteBucketMeta bucketsPath clock bucket key);; mret (write_status 204 new_reply).

Definition malformed (message : string) : s3_reply := writeS3Error 400 "MalformedXML" message new_reply.

Definition handleBucketVersioning (r : s3_request) (bucket : string) : handler s3_reply :=
  if decide (sq_method r = "GET") then
    state ← getBucketVersioningState bucket;
    match state with
    | inl e => mret (no_bucket new_reply e)
    | inr state => mret (writeXML 200 (XVersioning state) new_reply)
    end
  else if decide (sq_method r = "PUT") then
    body ← read_body (256 * 1024) r (malformed "failed to read versioning body");
    match x_versioning body with
    | None => mret (malformed "invalid versioning xml")
    | Some status =>
        let status := TrimSpace status in
        if decide (status <> "" /\ status <> "Enabled" /\ status <> "Suspended") then mret (malformed "invalid versioning status") else
        (if decide (status = "") then call (DeleteBucketMeta bucketsPath clock bucket "versioning");; mret tt
         else set_meta bucket "versioning" (to_bytes status));;
        mret (write_status 200 new_reply)
    end
  else mret (not_allowed new_reply).

Definition handleBucketPolicy (r : s3_request) (bucket : string) : handler s3_reply :=
  if decide (sq_method r = "GET") then
    data ← get_meta bucket "policy" "NoSuchBucketPolicy" "bucket policy not found";
    mret (write_doc (XRaw data) (write_status 200 (set_header "Content-Type" "application/json" new_reply)))
  else if decide (sq_method r = "PUT") then
    body ← read_body (2 * 1024 * 1024) r (writeS3Error 400 "MalformedPolicy" "failed to read policy" new_reply);
    set_meta bucket "policy" body;; mret (write_status 204 new_reply)
  else if decide (sq_method r = "DELETE") then delete_meta bucket "policy"
  else mret (not_allowed new_reply).

Definition handleBucketCORS (r : s3_request) (bucket : string) : handler s3_reply :=
  if decide (sq_method r = "GET") then
    data ← get_meta bucket "cors" "NoSuchCORSConfiguration" "cors config not found";
    mret (write_doc (XRaw data) (write_status 200 (set_header "Content-Type" "application/xml" new_reply)))
  else if decide (sq_method r = "PUT") then
    body ← read_body (512 * 1024) r (malformed "failed to read cors body");
    match x_cors body with
    | None => mret (malformed "invalid cors xml")
    | Some cfg => set_meta bucket "cors" (x_encode_cors cfg);; mret (write_status 200 new_reply)
    end
  else mret (not_allowed new_reply).

Definition corsOriginAllowed (allowed : list string) (origin : string) : bool :=
  existsb (fun c => let c := TrimSpace c in bool_decide (c = "*") || EqualFold c origin) allowed.

Definition corsMethodAllowed (allowed : list string) (method : string) : bool :=
  existsb (fun c => EqualFold (TrimSpace c) method) allowed.

Definition set_list (k : string) (l : list string) (w : s3_reply) : s3_reply :=
  match l with [] => w | _ => set_header k (Join ", " l) w end.

(** The first rule that allows the request answers it. *)
Fixpoint preflight (origin method : string) (rules : list cors_rule) : option s3_reply :=
  match rules with
  | [] => None
  | rule :: rules =>
      if corsOriginAllowed (cr_AllowedOrigins rule) origin && corsMethodAllowed (cr_AllowedMethods rule) method then
        let w := set_header "Access-Control-Allow-Methods" (Join ", " (cr_AllowedMethods rule))
                   (set_header "Access-Control-Allow-Origin" origin new_reply) in
        Some (write_status 200 (set_list "Access-Control-Expose-Headers" (cr_ExposeHeaders rule)
                                  (set_list "Access-Control-Allow-Headers" (cr_AllowedHeaders rule) w)))
      else preflight origin method rules
  end.

Definition preflight_denied : s3_reply := writeS3Error 403 "AccessDenied" "cors preflight denied" new_reply.

Definition handleCORSPreflight (r : s3_request) (bucket : string) : handler s3_reply :=
  let origin := header_get r "Origin" in
  let method := header_get r "Access-Control-Request-Method" in
  if decide (origin = "" \/ method = "") then mret preflight_denied else
  data ← call_or (fun _ => preflight_denied) (GetBucketMeta bucketsPath bucket "cors");
  mret (default preflight_denied (rules ← x_cors data; preflight origin method rules)).

Definition handleBucketLifecycle (r : s3_request) (bucket : string) : handler s3_reply :=
  if decide (sq_method r = "PUT") then
    body ← read_body (512 * 1024) r (malformed "failed to read lifecycle body");
    match x_lifecycle body with
    | None => mret (malformed "invalid lifecycle xml")
    | Some cfg =>
        match ValidateConfiguration (Some cfg) with
        | Some e => mret (malformed (lc_text e))
        | None => set_meta bucket "lifecycle.json" (j_marshal cfg);; mret (write_status 200 new_reply)
        end
    end
  else if decide (sq_method r = "GET") then
    raw ← get_meta bucket "lifecycle.json" "NoSuchLifecycleConfiguration" "lifecycle config not found";
    match j_unmarshal raw with
    | None => mret (writeS3Error 500 "InternalError" "invalid stored lifecycle configuration" new_reply)
    | Some cfg => mret (writeXML 200 (XLifecycle cfg) new_reply)
    end
  else if decide (sq_method r = "DELETE") then delete_meta bucket "lifecycle.json"
  else mret (not_allowed new_reply).

(** ** Routing *)

Context (iam : option IdentityAccessManagement) (now : Z) (uploadID versionID : string).

Definition auth_status (code : string) : Z :=
  if decide (code = "AuthorizationHeaderMalformed" \/ code = "AuthorizationQueryParametersError") then 400 else 403.

(** A request that is not authorized is answered without its handler. *)
Definition authorize (r : s3_request) (action bucket key : string) (next : handler s3_reply) : handler s3_reply :=
  let res := VerifyRequest parse_date r iam action bucket key now in
  if decide (vr_ErrorCode res = "") then next
  else mret (writeS3Error (auth_status (vr_ErrorCode res)) (vr_ErrorCode res) "request authentication failed" new_reply).

Definition Method_not_allowed : s3_reply := writeS3Error 405 "MethodNotAllowed" "Method not allowed" new_reply.

(** The action of a request on metadata: one for each method that has its own. *)
Definition meta_action (r : s3_request) (get put : string) (delete : option string) : string :=
  if decide (sq_method r = "PUT") then put else
  match delete with Some d => if decide (sq_method r = "DELETE") then d else get | None => get end.

Definition handleBucketLevel (r : s3_request) (bucket : string) : handler s3_reply :=
  if hasQueryKey r "versioning" then
    authorize r (meta_action r "s3:GetBucketVersioning" "s3:PutBucketVersioning" None) bucket "" (handleBucketVersioning r bucket)
  else if hasQueryKey r "policy" then
    authorize r (meta_action r "s3:GetBucketPolicy" "s3:PutBucketPolicy" (Some "s3:DeleteBucketPolicy")) bucket "" (handleBucketPolicy r bucket)
  else if hasQueryKey r "cors" then
    authorize r (meta_action r "s3:GetBucketCors" "s3:PutBucketCors" None) bucket "" (handleBucketCORS r bucket)
  else if hasQueryKey r "lifecycle" then
    authorize r (meta_action r "s3:GetBucketLifecycleConfiguration" "s3:PutBucketLifecycleConfiguration" (Some "s3:DeleteBucketLifecycleConfiguration"))
      bucket "" (handleBucketLifecycle r bucket)
  else if hasQueryKey r "delete" then authorize r "s3:DeleteObject" bucket "" (handleDeleteObjects r bucket)
  else if decide (sq_method r = "PUT") then authorize r "s3:CreateBucket" bucket "" (handleCreateBucket bucket)
  else if decide (sq_method r = "DELETE") then authorize r "s3:DeleteBucket" bucket "" (handleDeleteBucket bucket)
  else if decide (sq_method r = "GET") then authorize r "s3:ListBucket" bucket "" (handleListObjects r bucket)
  else if decide (sq_method r = "HEAD") then authorize r "s3:ListBucket" bucket "" (handleHeadBucket bucket)
  else mret Method_not_allowed.

Definition handleObjectLevel (r : s3_request) (bucket key : string) : handler s3_reply :=
  if hasQueryKey r "uploads" then authorize r "s3:CreateMultipartUpload" bucket key (handleInitiateMultipart uploadID now r bucket key)
  else if hasQueryKey r "uploadId" && hasQueryKey r "partNumber" then authorize r "s3:UploadPart" bucket key (handleUploadPart r bucket key)
  else if hasQueryKey r "uploadId" && bool_decide (sq_method r = "POST") then
    authorize r "s3:CompleteMultipartUpload" bucket key (handleCompleteMultipart r bucket key)
  else if hasQueryKey r "uploadId" && bool_decide (sq_method r = "DELETE") then
    authorize r "s3:AbortMultipartUpload" bucket key (handleAbortMultipart r bucket key)
  else if hasQueryKey r "tagging" then
    authorize r (meta_action r "s3:GetObjectTagging" "s3:PutObjectTagging" (Some "s3:DeleteObjectTagging")) bucket key (handleObjectTagging r bucket key)
  else if decide (sq_method r = "PUT") then authorize r "s3:PutObject" bucket key (handlePutObject versionID r bucket key)
  else if decide (sq_method r = "GET") then authorize r "s3:GetObject" bucket key (handleGetObject bucket key true)
  else if decide (sq_method r = "HEAD") then authorize r "s3:HeadObject" bucket key (handleGetObject bucket key false)
  else if decide (sq_method r = "DELETE") then authorize r "s3:DeleteObject" bucket key (handleDeleteObject r bucket key)
  else mret Method_not_allowed.

Definition handle (r : s3_request) : handler s3_reply :=
  let '(bucket, key) := splitBucketAndKey (sq_path r) in
  if decide (bucket = "") then
    if decide (sq_method r <> "GET") then mret Method_not_allowed
    else authorize r "s3:ListAllMyBuckets" "" "" (handleListBuckets now)
  else if decide (sq_method r = "OPTIONS") then handleCORSPreflight r bucket
  else if decide (key = "") then handleBucketLevel r bucket
  else handleObjectLevel r bucket key.

(** The response of a request, early or not; [None] when the handler panics. *)
Definition serve (r : s3_request) (g : option filers) : option s3_reply * option filers :=
  let '(res, g) := handle r g in
  (match res with Ret w | Fail w => Some w | Panic => None end, g).

(** ** The server *)

Definition s3_handleHealth : s3_reply := write_doc (XText "OK") (write_status 200 new_reply).

Definition s3_handleReady (g : option filers) : s3_reply :=
  match g with
  | None => write_doc (XText "NOT READY") (write_status 503 new_reply)
  | Some _ => write_doc (XText "READY") (write_status 200 new_reply)
  end.
End gateway.

Section start.
Context {S : Type} `{FilerStore S} (E : s3_env).
Context (json_unmarshal proto_unmarshal : string -> option S3ApiConfiguration).

Inductive start_err := StartIam (e : iam_err) | StartRoot (e : s3_err).

(** [newS3ApiServerWithStore]: the identities are loaded and the directory of the buckets is
    made. *)
Definition newS3ApiServerWithStore (g : option (list (FilerServer S))) : outcome start_err IdentityAccessManagement * option (list (FilerServer S)) :=
  match @NewIdentityAccessManagement _ (gateway_kv E) json_unmarshal proto_unmarshal g with
  | (Panic, g) => (Panic, g)
  | (Fail e, g) => (Fail (StartIam e), g)
  | (Ret iam, None) => (Ret iam, None)
  | (Ret iam, Some l) =>
      match EnsureBucketsRoot (se_bucketsPath E) (se_clock E) l with
      | (Ret _, l) | (Fail S3NoFiler, l) => (Ret iam, Some l)
      | (Fail e, l) => (Fail (StartRoot e), Some l)
      | (Panic, l) => (Panic, Some l)
      end
  end.
End start.

(** * What the handlers of the S3 gateway do

    Requests reach the store of the gateway only with a signature; puts, gets and deletes of
    objects are operations on the map of objects of [S3Refine]; and the keys of a
    multi-object delete are not confined to the bucket that was authorized. *)

(** ** Authorization *)

Section authorization.
Context {S : Type} `{FilerStore S} (E : s3_env) (iam : option IdentityAccessManagement) (now : Z) (uploadID versionID : string).

Abbreviation handler := (GoM (option (list (FilerServer S))) s3_reply s3_reply).

(** The handler runs behind the authorization of an action on the bucket or the object. *)
Definition guarded (r : s3_request) (bucket key : string) (h : handler) : Prop :=
  h = mret Method_not_allowed \/
  exists action k next, h = authorize E iam now r action bucket k next /\ action ∈ (readActions ++ writeActions)%list /\ (k = key \/ k = "").

Lemma guarded_mna r bucket key : guarded r bucket key (mret Method_not_allowed).
Proof. by left. Qed.

Lemma guarded_authorize r bucket key action k next :
  bool_decide (action ∈ (readActions ++ writeActions)%list) = true -> k = key \/ k = "" -> guarded r bucket key (authorize E iam now r action bucket k next).
Proof. intros Ha%bool_decide_eq_true Hk. right. by exists action, k, next. Qed.

Lemma meta_action_cases r get put delete :
  meta_action r get put delete = get \/ meta_action r get put delete = put \/ delete = Some (meta_action r get put delete).
Proof. unfold meta_action. destruct delete; repeat case_decide; auto. Qed.

Lemma guarded_meta r bucket key k next get put delete :
  bool_decide (Forall (fun a => a ∈ (readActions ++ writeActions)%list) (get :: put :: option_list delete)) = true ->
  k = key \/ k = "" -> guarded r bucket key (authorize E iam now r (meta_action r get put delete) bucket k next).
Proof.
  intros Ha%bool_decide_eq_true Hk. apply guarded_authorize; [|done]. apply bool_decide_eq_true.
  apply Forall_cons in Ha as [H1 Ha]. apply Forall_cons in Ha as [H2 H3].
  destruct (meta_action_cases r get put delete) as [->|[->|Hd]]; [done|done|]. rewrite Hd in H3. by apply Forall_cons in H3 as [? _].
Qed.

Ltac solve_guarded :=
  lazymatch goal with
  | |- guarded _ _ _ (authorize _ _ _ _ (meta_action _ _ _ _) _ _ _) => simple apply guarded_meta; [vm_compute; reflexivity|by auto]
  | |- guarded _ _ _ (authorize _ _ _ _ _ _ _ _) => simple apply guarded_authorize; [vm_compute; reflexivity|by auto]
  | |- _ => simple apply guarded_mna
  end.

Lemma bucket_level_guarded r bucket : guarded r bucket "" (handleBucketLevel E iam now r bucket).
Proof. unfold handleBucketLevel. repeat (case_match; [solve_guarded|]). solve_guarded. Qed.

Lemma object_level_guarded r bucket key : guarded r bucket key (handleObjectLevel E iam now uploadID versionID r bucket key).
Proof. unfold handleObjectLevel. repeat (case_match; [solve_guarded|]). solve_guarded. Qed.

Lemma handle_guarded r : sq_method r <> "OPTIONS" ->
  guarded r (fst (splitBucketAndKey (sq_path r))) (snd (splitBucketAndKey (sq_path r))) (handle E iam now uploadID versionID r).
Proof.
  intros Hm. unfold handle. destruct (splitBucketAndKey (sq_path r)) as [bucket key]. cbn [fst snd].
  destruct (decide (bucket = "")) as [->|_]; [case_decide; solve_guarded|]. rewrite decide_False by done.
  destruct (decide (key = "")) as [->|]; [apply bucket_level_guarded|apply object_level_guarded].
Qed.
End authorization.

(** C19: with identities configured the store of the gateway is reached only by signed
    requests.  For every request that is not a preflight, either the request carries the
    signature of a configured identity that is authorized for an action on its bucket and
    object, or the request is refused, with the status 400, 403 or 405, and no call of the
    store is made.  Which of the actions it is for the method of the request is not stated. *)
Theorem requests_need_signature {S : Type} `{FilerStore S} (E : s3_env) (iam : IdentityAccessManagement) (now : Z) (uploadID versionID : string)
    (r : s3_request) (g : option (list (FilerServer S))) :
  iam_identities iam <> [] -> sq_method r <> "OPTIONS" ->
  let '(bucket, key) := splitBucketAndKey (sq_path r) in
  (exists i action k, signed_by r iam i /\ IsAuthorized (Some i) action bucket k = true /\
     action ∈ (readActions ++ writeActions)%list /\ (k = key \/ k = "")) \/
  (exists w status, serve E (Some iam) now uploadID versionID r g = (Some w, g) /\ sp_status w = Some status /\ status ∈ [400; 403; 405]).
Proof.
  intros Hne Hm. pose proof (handle_guarded E (Some iam) now uploadID versionID r Hm) as Hg.
  destruct (splitBucketAndKey (sq_path r)) as [bucket key]. cbn [fst snd] in Hg. unfold serve.
  destruct Hg as [->|(action & k & next & -> & Ha & Hk)].
  { right. eexists _, 405. split; [done|]. split; [done|]. by do 2 right; left. }
  unfold authorize. cbv zeta. case_decide as Hv.
  - left. apply VerifyRequest_sound in Hv as (i & Hs & Hau); [|done]. by exists i, action, k.
  - right. eexists _, _. split; [done|]. split; [done|]. unfold auth_status. case_decide; [by left|by right; left].
Qed.

(** ** Multi-object deletes *)

Lemma splitBucketAndKey_spec b k : clean (b :: k) -> splitBucketAndKey (path_of (b :: k)) = (b, Join "/" k).
Proof.
  intros Hc. unfold splitBucketAndKey. rewrite Clean_slash by done. rewrite decide_False.
  2: { intros E%path_of_root; [done|by apply clean_comps_ok]. }
  by rewrite Split_TrimPrefix.
Qed.

(** The path of a key that leaves its bucket. *)
Lemma object_path_escape root a b k :
  clean root -> clean_comp a -> clean (b :: k) ->
  object_path (path_of root) a ("../" +:+ Join "/" (b :: k)) = object_path (path_of root) b (Join "/" k).
Proof.
  intros Hr Ha Hbk. pose proof Hbk as [Hb Hk]%Forall_cons. unfold object_path, bucketPath. rewrite (path_Join_comp root a), (path_Join_comp root b) by done.
  rewrite (path_Join_key (root ++ [b])%list k), path_Join_text by (done || by apply Forall_app_2; [|by constructor]).
  change ("../" +:+ Join "/" (b :: k)) with (".." +:+ "/" +:+ Join "/" (b :: k)). rewrite Split_append, Split_Join by (done || by apply clean_comps_ok).
  change (Split slash "..") with [".."]. cbn [app]. cbn [fold_left]. rewrite reverse_snoc.
  assert (clean_step true (a :: reverse root) ".." = reverse root) as Hstep.
  { unfold clean_step. rewrite decide_False by (by intros []). rewrite decide_True by done. by rewrite decide_False by apply Ha. }
  rewrite Hstep. change (fold_left (clean_step true) k (clean_step true (reverse root) b)) with (fold_left (clean_step true) (b :: k) (reverse root)).
  rewrite (clean_steps (b :: k)), reverse_app, !reverse_involutive by done. by rewrite <- app_assoc.
Qed.

Lemma drop_space_keeps c l : Ascii.is_space c = false -> c ∈ l -> c ∈ drop_space l.
Proof.
  intros Hc. induction l as [|d l IH]; [done|]. cbn. destruct (Ascii.is_space d) eqn:E; [|done].
  intros [->|Hin]%elem_of_cons; [congruence|auto].
Qed.

(** A text with something but spaces is not blank. *)
Lemma TrimSpace_not_blank c s : Ascii.is_space c = false -> c ∈ chars s -> TrimSpace s <> "".
Proof.
  intros Hc Hin E. unfold TrimSpace in E. apply (f_equal chars) in E. rewrite chars_str in E.
  assert (c ∈ reverse (drop_space (reverse (drop_space (chars s))))) as Hk.
  { apply elem_of_reverse, drop_space_keeps; [done|]. by apply elem_of_reverse, drop_space_keeps. }
  rewrite E in Hk. by apply not_elem_of_nil in Hk.
Qed.

(** C36: the keys of a multi-object delete are not confined to the bucket that was
    authorized.  An identity that may delete in bucket [a] only, and is refused for an
    object of bucket [b], removes that object with a signed request on [a] that names the
    key [../b/...]: the request deletes just that object of [b] and answers 200. *)
Theorem multi_delete_escapes {S : Type} `{FilerStore S} (E : s3_env) (iam : IdentityAccessManagement) (now : Z) (uploadID versionID name : string)
    (creds : list Credential) (r : s3_request) (l : list (FilerServer S)) (root : list string) (a b : string) (k : list string) (body : bytes) :
  se_bucketsPath E = path_of root -> clean root -> clean (a :: b :: k) -> plain_name a -> a <> b ->
  sq_method r <> "OPTIONS" -> sq_path r = path_of [a] -> dom (sq_query r) = {["delete"]} -> sq_body r = Some body ->
  se_x_delete E (limited (2 * 1024 * 1024) body) = Some ["../" +:+ Join "/" (b :: k)] ->
  vr_ErrorCode (VerifyRequest (se_parse_date E) r (Some iam) "s3:DeleteObject" a "" now) = "" ->
  IsAuthorized (Some (mkIdentity name creds [scoped_grant ("DeleteObject", a)])) "s3:DeleteObject" a "" = true /\
  IsAuthorized (Some (mkIdentity name creds [scoped_grant ("DeleteObject", a)])) "s3:DeleteObject" b (Join "/" k) = false /\
  serve E (Some iam) now uploadID versionID r (Some l) =
    let '(res, l') := DeleteObject (path_of root) (se_clock E) b (Join "/" k) l in
    (match res with Panic => None | _ => Some (writeXML 200 (XDeleted ["../" +:+ Join "/" (b :: k)]) new_reply) end, Some l').
Proof.
  intros Hroot Hcr [Ha Hbk]%Forall_cons Hpl Hab Hm Hp Hq Hbody Hx Hv. pose proof Hbk as [Hb Hk]%Forall_cons.
  assert (action_name "DeleteObject") as Hact by (apply (bool_decide_unpack _); vm_compute; exact I).
  assert (forall o, IsAuthorized (Some (mkIdentity name creds [scoped_grant ("DeleteObject", a)])) "s3:DeleteObject" b o = false /\
                    IsAuthorized (Some (mkIdentity name creds [scoped_grant ("DeleteObject", a)])) "s3:DeleteObject" a o = true) as Hau.
  { intros o. unfold IsAuthorized. cbn [id_Actions existsb]. rewrite decide_False by done. change "s3:DeleteObject" with ("s3:" +:+ "DeleteObject").
    rewrite !grants_scoped by (done || apply Hb || apply Ha). rewrite bool_decide_false by (by intros [_ ->]). by rewrite bool_decide_true. }
  split; [apply Hau|]. split; [apply Hau|].
  assert (forall q, q <> "delete" -> hasQueryKey r q = false) as Hno.
  { intros q Hne. unfold hasQueryKey. apply bool_decide_eq_false. intros Hs%elem_of_dom. rewrite Hq in Hs. by apply elem_of_singleton in Hs. }
  assert (hasQueryKey r "delete" = true) as Hyes by (unfold hasQueryKey; apply bool_decide_eq_true, elem_of_dom; rewrite Hq; set_solver).
  unfold serve, handle. rewrite Hp, (splitBucketAndKey_spec a []) by by constructor. rewrite decide_False by apply Ha. rewrite decide_False by done.
  cbn [Join]. rewrite decide_True by done. unfold handleBucketLevel. rewrite !Hno, Hyes by done. unfold authorize. cbv zeta. rewrite Hv, decide_True by done.
  unfold handleDeleteObjects, read_body. rewrite Hbody. unfold mbind at 1, GoM_bind at 1. cbn [mret GoM_ret]. rewrite Hx.
  rewrite decide_False by (cbn; lia). cbn [delete_objects]. rewrite decide_False.
  2: { apply (TrimSpace_not_blank "."%char); [done|]. by left. }
  unfold DeleteObject. rewrite Hroot, object_path_escape by done.
  unfold call, mbind, GoM_bind. destruct (ignore_not_found _ l) as [[u|e|] l']; done.
Qed.

(** ** A signed request *)

Definition sample_env : s3_env := {|
  se_err_text _ := "error"; se_quota_text _ := "quota"; se_lc_text _ := "lifecycle"; se_bucketsPath := "/buckets";
  se_clock := sample_clock; se_fuel := 5; se_q_marshal := comma_marshal; se_q_unmarshal := comma_unmarshal; se_m_marshal _ := []; se_m_unmarshal _ := None;
  se_x_delete _ := Some ["../b/x"]; se_x_complete _ := None; se_x_tagging _ := None; se_j_tags _ := []; se_j_untags _ := [];
  se_x_versioning _ := None; se_x_cors _ := None; se_x_encode_cors _ := []; se_x_lifecycle _ := None; se_j_marshal _ := [];
  se_j_unmarshal _ := None; se_parse_date _ := None; se_http_time _ := "";
|}.

Definition sample_iam : IdentityAccessManagement :=
  snd (Reload (Some [Some (mkPbIdentity "u" [Some (mkCredential "AK" "SK")] [scoped_grant ("DeleteObject", "a")])]) new_iam).

(** A request of access key [AK] with the given signature. *)
Definition signed_request (method path : string) (query : gmap string (list string)) (body : bytes) (sig : string) : s3_request :=
  mkS3Request method "s3.local" path query (fun h =>
    if decide (h = "authorization") then ["AWS4-HMAC-SHA256 Credential=AK/20260101/us/s3/aws4_request, SignedHeaders=host;x-amz-date, Signature=" +:+ sig]
    else if decide (h = "x-amz-date") then ["20260101T000000Z"] else []) (Some body).

Definition sample_parsed (sig : string) : parsedSignature :=
  mkParsed "AK" "20260101" "us" "s3" ["host"; "x-amz-date"] sig "20260101T000000Z" "20260101/us/s3/aws4_request" 0 false.

Definition sample_delete_sig : string :=
  Eval vm_compute in signature (signed_request "POST" "/a" {["delete" := [""]]} [] "") (sample_parsed "") "SK".

Definition sample_delete : s3_request := signed_request "POST" "/a" {["delete" := [""]]} [] sample_delete_sig.

(** A request with a signature that is not of its path is refused. *)
Lemma requests_need_signature_witness :
  let r := signed_request "POST" "/other" {["delete" := [""]]} [] sample_delete_sig in
  let res := @serve MemStore (mem_store mem_order) sample_env (Some sample_iam) 0 "" "" r (Some [ex_server ∅]) in
  res = (Some (writeS3Error 403 "SignatureDoesNotMatch" "request authentication failed" new_reply), Some [ex_server ∅]) /\
  ((exists i action k, signed_by r sample_iam i /\ IsAuthorized (Some i) action "other" k = true /\
      action ∈ (readActions ++ writeActions)%list /\ (k = "" \/ k = "")) \/
   (exists w status, res = (Some w, Some [ex_server ∅]) /\ sp_status w = Some status /\ status ∈ [400; 403; 405])).
Proof.
  intros r res.
  assert (splitBucketAndKey (sq_path r) = ("other", "")) as Hsp by (vm_compute; reflexivity).
  assert (iam_identities sample_iam <> []) as Hne by (vm_compute; discriminate).
  assert (sq_method r <> "OPTIONS") as Hm by (vm_compute; discriminate).
  split; [vm_compute; reflexivity|].
  pose proof (@requests_need_signature MemStore (mem_store mem_order) sample_env sample_iam 0 "" "" r (Some [ex_server ∅]) Hne Hm) as Hr.
  rewrite Hsp in Hr. exact Hr.
Defined.

(** The signed request for bucket [a] that names the key [../b/x]. *)
Lemma multi_delete_escapes_witness :
  IsAuthorized (head (iam_identities sample_iam)) "s3:DeleteObject" "b" "x" = false /\
  fst (@serve MemStore (mem_store mem_order) sample_env (Some sample_iam) 0 "" "" sample_delete (Some [ex_server ∅])) =
    Some (writeXML 200 (XDeleted ["../b/x"]) new_reply) /\
  @serve MemStore (mem_store mem_order) sample_env (Some sample_iam) 0 "" "" sample_delete (Some [ex_server ∅]) =
    let '(res, l') := @DeleteObject MemStore (mem_store mem_order) (path_of ["buckets"]) sample_clock "b" "x" [ex_server ∅] in
    (match res with Panic => None | _ => Some (writeXML 200 (XDeleted ["../b/x"]) new_reply) end, Some l').
Proof.
  assert (clean ["buckets"]) as Hc by (apply (bool_decide_unpack _); vm_compute; exact I).
  assert (clean ["a"; "b"; "x"]) as Hk by (apply (bool_decide_unpack _); vm_compute; exact I).
  assert (plain_name "a") as Hp by (apply (bool_decide_unpack _); vm_compute; exact I).
  assert (dom (sq_query sample_delete) = {["delete"]}) as Hd by (vm_compute; reflexivity).
  assert (vr_ErrorCode (VerifyRequest (fun _ => None) sample_delete (Some sample_iam) "s3:DeleteObject" "a" "" 0) = "") as Hv by (vm_compute; reflexivity).
  split; [vm_compute; reflexivity|]. split; [vm_compute; reflexivity|].
  destruct (@multi_delete_escapes MemStore (mem_store mem_order) sample_env sample_iam 0 "" "" "u" [mkCredential "AK" "SK"] sample_delete [ex_server ∅]
    ["buckets"] "a" "b" ["x"] [] eq_refl Hc Hk Hp ltac:(discriminate) ltac:(discriminate) eq_refl Hd eq_refl eq_refl Hv) as (_ & _ & Hs).
  exact Hs.
Defined.
