(* ===== verification/S3Objects.v ===== *)
(** * S3Objects: requests for buckets and objects as operations on a map

    Sequences of signed or unsigned PUT, GET, HEAD and DELETE requests, through the routing,
    the authorization and the quotas of [S3Server], answer as operations on the buckets and
    the objects that [S3Refine] relates to the filer. *)

From S2P Require Import Prelude GoStrings Types GoPath Http Hashes FilerStore MemoryStore Filer FilerSpec FilerServer FilerSafe GoText Quota S3Store PathSpec S3Refine Iam S3Auth S3Server.

#[local] Open Scope Z_scope.
#[local] Open Scope string_scope.

Section objects.
Context {S : Type} `{FilerStore S} (valid : string -> Prop) (good : Entry -> Prop) (rep : S -> gmap string Entry -> Prop).
Context {Hlaws : FilerLaws S valid good rep} (Hgood : forall e, good e).
Context (root : list string) (K : list (list string)) (HK : keys_ok valid root K).
Context (E : s3_env) (HE : se_bucketsPath E = path_of root).

(** The key-value calls of the store do not panic. *)
Context (Hget : forall k (s : S), fst (KvGet k s) <> Panic) (Hput : forall k v (s : S), fst (KvPut k v s) <> Panic).

Abbreviation filers := (list (FilerServer S)).
Abbreviation handler := (GoM (option filers) s3_reply).
Abbreviation objects := (gmap (list string) ObjectData).
Abbreviation store := (gset string * gmap (list string) ObjectData)%type.

Definition g_rep (g : option filers) (st : store) : Prop := exists l, g = Some l /\ rep_at rep root K l (fst st) (snd st).

(** ** The calls of a handler *)

Lemma runs_call {A} (c : GoM filers s3_err A) l (Q : outcome s3_reply (s3_err + A) -> option filers -> Prop) :
  runs c l (fun r l' => match r with Ret a => Q (Ret (inr a)) (Some l') | Fail e => Q (Ret (inl e)) (Some l') | Panic => Q Panic (Some l') end) ->
  runs (call c) (Some l) Q.
Proof. unfold runs, call. destruct (c l) as [[a|e|] l']; auto. Qed.

Lemma runs_call_or {A} on_err (c : GoM filers s3_err A) l (Q : outcome s3_reply A -> option filers -> Prop) :
  runs c l (fun r l' => match r with Ret a => Q (Ret a) (Some l') | Fail e => Q (Fail (on_err e)) (Some l') | Panic => Q Panic (Some l') end) ->
  runs (call_or on_err c) (Some l) Q.
Proof.
  intros Hr. unfold call_or. apply runs_bind, runs_call. eapply runs_mono; [exact Hr|]. intros [a|e|] l'; auto.
Qed.

(** Key-value calls leave the objects alone. *)
Lemma kv_response_runs {A} (zero : A) (m : GoM S store_err A) fs m0 :
  (forall s, rep s m0 -> rep (snd (m s)) m0 /\ fst (m s) <> Panic) -> serves rep fs m0 ->
  runs (kv_response zero m) fs (fun r fs' => serves rep fs' m0 /\ r <> Panic).
Proof.
  intros Hm (f & s & Hf & Hs & Hr). unfold runs, kv_response, with_filer. rewrite Hf, Hs. destruct (Hm s Hr) as [Hr' Hp].
  destruct (m s) as [r s']. cbn in *. split; [|by destruct r]. exists (SetStore s' f), s'. by destruct f.
Qed.

Definition framed {A} (m0 : gmap string Entry) (r : outcome s3_err A) (l' : filers) : Prop := at_filer rep l' m0 /\ r <> Panic.

Lemma s3_KvGet_runs k l m0 : at_filer rep l m0 -> runs (s3_KvGet k) l (framed m0).
Proof.
  intros (fs & -> & Hs). assert (runs (g_KvGet k) fs (fun r fs' => serves rep fs' m0 /\ r <> Panic)) as Hkv.
  { apply kv_response_runs; [|done]. intros s Hr. split; [by apply (KvGet_frame (valid := valid) (good := good))|apply Hget]. }
  unfold runs, s3_KvGet, withClient, rpc in *. cbn [try_filers]. destruct (g_KvGet k fs) as [[[v msg]|c|] fs']; destruct Hkv as [Hs' Hp]; cbn; [..|done].
  - case_decide; (split; [by exists fs'|done]).
  - split; [by exists fs'|done].
Qed.

Lemma s3_KvPut_runs k v l m0 : at_filer rep l m0 -> runs (s3_KvPut k v) l (framed m0).
Proof.
  intros (fs & -> & Hs). assert (runs (g_KvPut k v) fs (fun r fs' => serves rep fs' m0 /\ r <> Panic)) as Hkv.
  { apply kv_response_runs; [|done]. intros s Hr. split; [by apply (KvPut_frame (valid := valid) (good := good))|apply Hput]. }
  unfold runs, s3_KvPut, text_error, withClient, rpc in *. cbn [try_filers]. destruct (g_KvPut k v fs) as [[[u msg]|c|] fs']; destruct Hkv as [Hs' Hp]; cbn; [..|done].
  - case_decide; (split; [by exists fs'|done]).
  - split; [by exists fs'|done].
Qed.

(** ** Quotas *)

Abbreviation kv := (gateway_kv E).

Definition kept (m0 : gmap string Entry) (g : option filers) : Prop := exists l, g = Some l /\ at_filer rep l m0.

Lemma getQuota_runs key l m0 :
  at_filer rep l m0 -> runs (@getQuota filers kv (se_q_unmarshal E) key) (Some l) (fun r g => kept m0 g /\ r <> Panic).
Proof.
  intros Hl. pose proof (s3_KvGet_runs key l m0 Hl) as Hg. unfold runs, getQuota in *. cbn [KvGet gateway_kv].
  destruct (s3_KvGet key l) as [[v|e|] l']; destruct Hg as [Hl' Hp]; [..|done].
  - split; [by exists l'|]. case_decide; [done|]. by destruct (se_q_unmarshal E v).
  - split; [by exists l'|]. by destruct (isNotFound _).
Qed.

Lemma setQuota_runs key q l m0 :
  at_filer rep l m0 -> runs (@setQuota filers kv (se_q_marshal E) key q) (Some l) (fun r g => kept m0 g /\ r <> Panic).
Proof.
  intros Hl. unfold runs, setQuota. destruct (se_q_marshal E _) as [msg|v]; [split; [by exists l|done]|].
  pose proof (s3_KvPut_runs key v l m0 Hl) as Hp. unfold runs in Hp. cbn [KvPut gateway_kv].
  destruct (s3_KvPut key v l) as [[u|e|] l']; destruct Hp as [Hl' Hp]; [..|done]; (split; [by exists l'|done]).
Qed.

Lemma check_quota_runs scope id key n l m0 :
  at_filer rep l m0 -> runs (@check_quota filers kv (se_q_unmarshal E) scope id key n) (Some l) (fun r g => kept m0 g /\ r <> Panic).
Proof.
  intros Hl. pose proof (getQuota_runs key l m0 Hl) as Hg. unfold runs, check_quota in *. case_decide; [split; [by exists l|done]|].
  destruct (getQuota _ _ _) as [[q|e|] g]; destruct Hg as [Hk Hp]; [..|done]; (split; [done|]); [|done]. by destruct (exceeds _ _).
Qed.

Lemma add_usage_runs id key n l m0 :
  at_filer rep l m0 -> runs (@add_usage filers kv (se_q_marshal E) (se_q_unmarshal E) id key n) (Some l) (fun r g => kept m0 g /\ r <> Panic).
Proof.
  intros Hl. pose proof (getQuota_runs key l m0 Hl) as Hg. unfold runs, add_usage in *. case_decide; [split; [by exists l|done]|].
  destruct (getQuota _ _ _) as [[q|e|] g]; destruct Hg as [(l' & -> & Hl') Hp]; [..|done]; [|split; [by exists l'|done]].
  exact (setQuota_runs key _ l' m0 Hl').
Qed.

Lemma quota_check_runs m l st :
  (forall l m0, at_filer rep l m0 -> runs m (Some l) (fun r g => kept m0 g /\ r <> Panic)) -> rep_at rep root K l (fst st) (snd st) ->
  runs (quota_check E m) (Some l) (fun r g => g_rep g st /\ match r with Ret _ => True | Fail w => sp_status w = Some 507 | Panic => False end).
Proof.
  intros Hm (m0 & Hl & Hr). specialize (Hm l m0 Hl). unfold runs, quota_check in *.
  destruct (m (Some l)) as [[u|e|] g]; destruct Hm as [(l' & -> & Hl') Hp]; [..|done].
  - split; [|done]. exists l'. split; [done|]. by exists m0.
  - destruct e; (split; [|done]); exists l'; (split; [done|]); by exists m0.
Qed.

Lemma quota_count_runs m l st :
  (forall l m0, at_filer rep l m0 -> runs m (Some l) (fun r g => kept m0 g /\ r <> Panic)) -> rep_at rep root K l (fst st) (snd st) ->
  runs (quota_count m) (Some l) (fun r g => g_rep g st /\ match r with Ret _ => True | _ => False end).
Proof.
  intros Hm (m0 & Hl & Hr). specialize (Hm l m0 Hl). unfold runs, quota_count in *.
  destruct (m (Some l)) as [[u|e|] g]; destruct Hm as [(l' & -> & Hl') Hp]; [..|done]; (split; [|done]); exists l'; (split; [done|]); by exists m0.
Qed.

(** ** The handlers *)

(** The handler answers, and the store is as [P] says. *)
Definition replied (P : s3_reply -> store -> Prop) (r : outcome s3_reply s3_reply) (g : option filers) : Prop :=
  match r with
  | Ret w | Fail w => exists st', P w st' /\ g_rep g st'
  | Panic => False
  end.

Lemma writeS3Error_status status code message w : sp_status w = None -> sp_status (writeS3Error status code message w) = Some status.
Proof. intros Hw. destruct w as [s hs bd]. cbn in Hw. by subst s. Qed.

Lemma set_header_status k v w : sp_status (set_header k v w) = sp_status w.
Proof. unfold set_header. destruct (sp_status w) eqn:Ew; [by rewrite Ew|done]. Qed.

Lemma set_header_lookup k v w : sp_status w = None -> sp_headers (set_header k v w) !! k = Some v.
Proof. intros Hw. unfold set_header. rewrite Hw. apply lookup_insert_eq. Qed.

Lemma set_header_other k k' v w : k' <> k -> sp_headers (set_header k v w) !! k' = sp_headers w !! k'.
Proof. intros Hk. unfold set_header. destruct (sp_status w); [done|]. by apply lookup_insert_ne. Qed.

Lemma write_status_set status w : sp_status w = None -> sp_status (write_status status w) = Some status /\ sp_headers (write_status status w) = sp_headers w.
Proof. intros Hw. unfold write_status. by rewrite Hw. Qed.

Lemma write_doc_eq status d w : sp_status w = Some status -> write_doc d w = mkS3Reply (Some status) (sp_headers w) (sp_body w ++ [d])%list.
Proof. intros Hw. unfold write_doc, write_status. rewrite Hw. cbv zeta. by rewrite Hw. Qed.

(** *** PUT *)

Definition etag_ok (data : bytes) (ext : gmap string bytes) : Prop := attr ext "s3:etag" = md5_hex data \/ ext !! "s3:etag" = None.

(** The object that a PUT request stores. *)
Definition put_object_ok (data : bytes) (ctype : string) (o : ObjectData) : Prop :=
  od_Content o = data /\ od_ContentType o = octet ctype /\ od_Size o = i64 (zlen data) /\ etag_ok data (od_Extended o).

Definition put_reply (b : string) (k : list string) (r : s3_request) (st : store) (w : s3_reply) (st' : store) : Prop :=
  let written := b ∈ fst st /\ exists data o, sq_body r = Some data /\ put_object_ok data (header_get r "Content-Type") o /\
                   st' = (fst st, <[b :: k := o]> (snd st)) in
  exists status, sp_status w = Some status /\
    ((status = 200 /\ written /\ exists data, sq_body r = Some data /\ sp_headers w !! "ETag" = Some (quoted (md5_hex data))) \/
     (status = 404 /\ b ∉ fst st /\ st' = st) \/
     (status = 500 /\ (st' = st \/ written)) \/
     (status ∈ [400; 403; 413; 507] /\ st' = st)).

Lemma body_whole (body : bytes) : zlen (limited (maxSinglePutObjectSize + 1) body) <= maxSinglePutObjectSize -> limited (maxSinglePutObjectSize + 1) body = body.
Proof.
  unfold limited. case_decide as Hd; [done|]. rewrite length_take. unfold maxSinglePutObjectSize in *. lia.
Qed.

Lemma of_bytes_to_bytes s : of_bytes (to_bytes s) = s.
Proof.
  unfold of_bytes, to_bytes. apply chars_inj. rewrite chars_str, <- list_fmap_compose. induction (chars s) as [|c l IH]; [done|].
  cbn. by rewrite char_code, IH.
Qed.

Lemma etag_set data ext : etag_ok data (set_etag_attr (md5_hex data) ext).
Proof. left. unfold attr, set_etag_attr. rewrite lookup_insert_eq. apply of_bytes_to_bytes. Qed.

Lemma opt_attr_other c k v k' ext : k <> k' -> opt_attr c k v ext !! k' = ext !! k'.
Proof. intros Hk. unfold opt_attr. destruct c; [by apply lookup_insert_ne|done]. Qed.

(** The response and the store after the object is stored. *)
Definition put_done (b : string) (k : list string) (data : bytes) (ctype : string) (st : store) (g : option filers) : Prop :=
  exists o, put_object_ok data ctype o /\ g_rep g (fst st, <[b :: k := o]> (snd st)).

Lemma versioning_runs b l st :
  [b; ".sys"; "versioning"] ∈ K -> rep_at rep root K l (fst st) (snd st) ->
  runs (getBucketVersioningState E b) (Some l) (fun r g => g_rep g st /\ match r with Ret _ => True | _ => False end).
Proof.
  intros Hk Hl. unfold getBucketVersioningState. apply runs_bind, runs_call. rewrite HE.
  eapply runs_mono; [by apply (GetBucketMeta_runs valid good rep Hgood (se_clock E) root K HK)|].
  intros r l' [Hl' Hres]. destruct r as [v|e|]; [..|done]; apply runs_ret; (split; [by exists l'|done]).
Qed.

Lemma replied_error (P : s3_reply -> store -> Prop) w g st : P w st -> g_rep g st -> replied P (Fail w) g.
Proof. intros HP Hg. by exists st. Qed.

Lemma put_refused b k r st w status : sp_status w = Some status -> status ∈ [400; 403; 413; 507] -> put_reply b k r st w st.
Proof. intros Hw Hs. exists status. split; [done|]. by do 3 right. Qed.

(** From the call that stores the object to the response. *)
Lemma put_store_runs b k r data ext w l st :
  (b :: k) ∈ K -> sq_body r = Some data -> ext !! "s3:etag" = None -> sp_status w = None -> rep_at rep root K l (fst st) (snd st) ->
  let userID := requestQuotaUserID r in
  runs (eTag ← call_or (no_bucket E w) (PutObject (se_bucketsPath E) (se_clock E) b (Join "/" k) data (header_get r "Content-Type") ext);
        call (UpdateObjectExtended (se_bucketsPath E) b (Join "/" k) (set_etag_attr eTag));;
        quota_count (@AddBucketUsage filers kv (se_q_marshal E) (se_q_unmarshal E) b (zlen data));;
        (if decide (userID <> "") then quota_count (@AddUserUsage filers kv (se_q_marshal E) (se_q_unmarshal E) userID (zlen data)) else mret tt);;
        mret (write_status 200 (set_header "ETag" (quoted eTag) w))) (Some l) (replied (put_reply b k r st)).
Proof.
  intros Hk Hbody Hext Hw Hl userID. destruct st as [B M]. cbn [fst snd] in *. apply runs_bind, runs_call_or. rewrite HE.
  eapply runs_mono; [by apply (PutObject_runs valid good rep Hgood (se_clock E) root K HK b k data _ ext l B M)|].
  set (o := new_object _ _ _ _). assert (put_object_ok data (header_get r "Content-Type") o) as Ho by (split_and!; [done|done|done|by right]).
  intros res l1 Hst. destruct res as [eTag|[]|]; try done.
  2: { destruct Hst as [Hb Hl1]. exists (B, M). split; [|by exists l1]. exists 404. split; [by apply writeS3Error_status|]. by right; left. }
  2: { destruct Hst as [Hl1|[Hb Hl1]]; [exists (B, M)|exists (B, <[b :: k := o]> M)]; (split; [|by exists l1]); exists 500;
         (split; [by apply writeS3Error_status|]); right; right; left; (split; [done|]); [by left|right]. split; [done|]. by exists data, o. }
  destruct Hst as (Hb & -> & Hl1). apply runs_bind, runs_call.
  eapply runs_mono; [by apply (UpdateObjectExtended_runs valid good rep Hgood root K HK b k _ l1 B)|]. rewrite lookup_insert_eq, !insert_insert_eq.
  set (o' := with_Extended _ o). assert (put_object_ok data (header_get r "Content-Type") o') as Ho' by (split_and!; [done|done|done|apply etag_set]).
  intros res l2 Hup.
  assert (exists o2, put_object_ok data (header_get r "Content-Type") o2 /\ rep_at rep root K l2 B (<[b :: k := o2]> M) /\ res <> Panic) as (o2 & Ho2 & Hl2 & Hnp).
  { destruct res as [u|[]|]; try done; [by exists o'|]. destruct Hup; [by exists o|by exists o']. }
  assert (forall g, g_rep g (B, <[b :: k := o2]> M) ->
    replied (put_reply b k r (B, M)) (Ret (write_status 200 (set_header "ETag" (quoted (md5_hex data)) w))) g) as Hfin.
  { intros g Hg. exists (B, <[b :: k := o2]> M). split; [|done]. exists 200. destruct (write_status_set 200 (set_header "ETag" (quoted (md5_hex data)) w)) as [-> Hh].
    { by rewrite set_header_status. } split; [done|]. left. split; [done|]. split; [split; [done|]; by exists data, o2|].
    exists data. split; [done|]. rewrite Hh. by apply set_header_lookup. }
  assert (runs (quota_count (@AddBucketUsage filers kv (se_q_marshal E) (se_q_unmarshal E) b (zlen data));;
    (if decide (userID <> "") then quota_count (@AddUserUsage filers kv (se_q_marshal E) (se_q_unmarshal E) userID (zlen data)) else mret tt);;
    mret (write_status 200 (set_header "ETag" (quoted (md5_hex data)) w))) (Some l2) (replied (put_reply b k r (B, M)))) as Hrest.
  { apply runs_bind. eapply runs_mono; [apply (quota_count_runs _ l2 (B, <[b :: k := o2]> M)); [intros; by apply add_usage_runs|done]|].
    intros [u|e|] g [(l3 & -> & Hl3) Hr]; try done. apply runs_bind. case_decide.
    - eapply runs_mono; [apply (quota_count_runs _ l3 (B, <[b :: k := o2]> M)); [intros; by apply add_usage_runs|done]|].
      intros [u2|e|] g [Hg Hr2]; try done. apply runs_ret. by apply Hfin.
    - apply runs_ret, runs_ret, Hfin. by exists l3. }
  destruct res as [u|e|]; [exact Hrest|exact Hrest|done].
Qed.

Lemma handlePutObject_runs vid b k r l st :
  (b :: k) ∈ K -> [b; ".sys"; "versioning"] ∈ K -> rep_at rep root K l (fst st) (snd st) ->
  runs (handlePutObject E vid r b (Join "/" k)) (Some l) (replied (put_reply b k r st)).
Proof.
  intros Hk Hver Hl. unfold handlePutObject, read_body. destruct (sq_body r) as [body|] eqn:Hbody.
  2: { exists st. split; [|by exists l]. eapply put_refused; [done|]. by left. }
  unfold mbind at 1, GoM_bind at 1. unfold runs at 1. cbn [mret GoM_ret].
  case_decide as Hlen. { exists st. split; [|by exists l]. eapply put_refused; [done|]. by do 2 right; left. }
  rewrite body_whole by lia. set (userID := requestQuotaUserID r). cbv zeta.
  match goal with |- let '(_, _) := ?m ?s in _ => change (runs m s (replied (put_reply b k r st))) end.
  apply runs_bind. eapply runs_mono; [apply (quota_check_runs _ l st); [intros; by apply check_quota_runs|done]|].
  intros [u|w|] g [(l1 & -> & Hl1) Hr]; [| |done].
  2: { exists st. split; [|by exists l1]. eapply put_refused; [done|]. by do 3 right; left. }
  apply runs_bind. eapply runs_mono; [apply (quota_check_runs _ l1 st); [intros; by apply check_quota_runs|done]|].
  intros [u2|w|] g [(l2 & -> & Hl2) Hr2]; [| |done].
  2: { exists st. split; [|by exists l2]. eapply put_refused; [done|]. by do 3 right; left. }
  apply runs_bind. eapply runs_mono; [by apply (versioning_runs b l2 st)|]. intros [v|w|] g [(l3 & -> & Hl3) Hr3]; try done.
  apply put_store_runs; [done|done| | |done].
  - by rewrite !opt_attr_other by done.
  - repeat case_match; by rewrite ?set_header_status.
Qed.

(** *** GET and HEAD *)

Definition get_reply (withBody : bool) (b : string) (k : list string) (st : store) (w : s3_reply) (st' : store) : Prop :=
  st' = st /\ exists status, sp_status w = Some status /\
    ((status = 200 /\ exists o, snd st !! (b :: k) = Some o /\ sp_body w = (if withBody then [XRaw (od_Content o)] else []) /\
        sp_headers w !! "Content-Type" = Some (octet (od_ContentType o)) /\ sp_headers w !! "Content-Length" = Some (Itoa (zlen (od_Content o))) /\
        (attr (od_Extended o) "s3:etag" <> "" -> sp_headers w !! "ETag" = Some (quoted (attr (od_Extended o) "s3:etag")))) \/
     (status = 404 /\ snd st !! (b :: k) = None) \/
     status ∈ [400; 403; 500]).

(** A response under way: no status and no body yet. *)
Definition open_reply (w : s3_reply) : Prop := sp_status w = None /\ sp_body w = [].

Lemma open_set k v w : open_reply w -> open_reply (set_header k v w).
Proof. intros [Hs Hb]. unfold set_header, open_reply. by rewrite Hs. Qed.

Lemma set_some_other k v k' w : k' <> k -> sp_headers (set_some k v w) !! k' = sp_headers w !! k'.
Proof. intros Hk. unfold set_some. case_decide; [by apply set_header_other|done]. Qed.

Lemma open_set_some k v w : open_reply w -> open_reply (set_some k v w).
Proof. unfold set_some. case_decide; [apply open_set|done]. Qed.

Lemma handleGetObject_runs withBody b k l st :
  (b :: k) ∈ K -> rep_at rep root K l (fst st) (snd st) ->
  runs (handleGetObject E b (Join "/" k) withBody) (Some l) (replied (get_reply withBody b k st)).
Proof.
  intros Hk Hl. unfold handleGetObject. apply runs_bind, runs_call_or. rewrite HE.
  eapply runs_mono; [by apply (GetObject_runs valid good rep root K HK b k l)|].
  intros res l' [Hl' Hres]. assert (g_rep (Some l') st) as Hg by by exists l'.
  destruct res as [o|[]|]; try done.
  2: { exists st. split; [|done]. split; [done|]. exists 404. split; [done|]. by right; left. }
  2: { exists st. split; [|done]. split; [done|]. exists 500. split; [done|]. by do 2 right; do 2 right; left. }
  apply runs_ret. exists st. split; [|done]. split; [done|]. cbv zeta. fold (octet (od_ContentType o)).
  set (w1 := set_header "Last-Modified" _ _). assert (open_reply w1) as H1 by by apply open_set, open_set, open_set.
  assert (sp_headers w1 !! "Content-Type" = Some (octet (od_ContentType o)) /\ sp_headers w1 !! "Content-Length" = Some (Itoa (zlen (od_Content o)))) as [Hct Hcl].
  { unfold w1. rewrite !(set_header_other "Last-Modified") by done. split; [|apply set_header_lookup; by apply (open_set _ _ new_reply)].
    rewrite set_header_other by done. by apply set_header_lookup. }
  set (w2 := if decide _ then set_header "ETag" _ w1 else w1).
  assert (open_reply w2) as H2 by (unfold w2; case_decide; [by apply open_set|done]).
  assert (sp_headers w2 !! "Content-Type" = Some (octet (od_ContentType o)) /\ sp_headers w2 !! "Content-Length" = Some (Itoa (zlen (od_Content o))) /\
    (attr (od_Extended o) "s3:etag" <> "" -> sp_headers w2 !! "ETag" = Some (quoted (attr (od_Extended o) "s3:etag")))) as Hh2.
  { unfold w2. case_decide as He; [|done]. rewrite !(set_header_other "ETag") by done. split_and!; [done|done|]. intros _. by apply set_header_lookup, H1. }
  set (w3 := set_some _ _ (set_some _ _ w2)). assert (open_reply w3) as [Hs3 Hb3] by by apply open_set_some, open_set_some.
  assert (forall h, h <> "x-amz-version-id" -> h <> "x-amz-server-side-encryption" -> sp_headers w3 !! h = sp_headers w2 !! h) as Hh3.
  { intros h ? ?. unfold w3. by rewrite !set_some_other. }
  destruct (write_status_set 200 w3 Hs3) as [Hs4 Hh4].
  assert (sp_body (write_status 200 w3) = []) as Hb4 by (unfold write_status; by rewrite Hs3).
  exists 200. rewrite (write_doc_eq 200) by done. split; [by destruct withBody|]. left. split; [done|]. exists o.
  rewrite <- !Hh3 in Hh2 by done. destruct Hh2 as (Hct2 & Hcl2 & He2). split; [done|].
  destruct withBody; cbn [sp_body sp_headers]; rewrite Hb4, Hh4; by split_and!.
Qed.

(** *** DELETE *)

Definition delete_reply (b : string) (k : list string) (st : store) (w : s3_reply) (st' : store) : Prop :=
  let deleted := st' = (fst st, delete (b :: k) (snd st)) in
  exists status, sp_status w = Some status /\
    ((status = 204 /\ b ∈ fst st /\ deleted) \/ (status = 404 /\ b ∉ fst st /\ st' = st) \/
     (status = 500 /\ (st' = st \/ deleted)) \/ (status ∈ [400; 403] /\ st' = st)).

Lemma found_bucket_runs b l st :
  clean_comp b -> valid (path_of (root ++ [b])%list) -> rep_at rep root K l (fst st) (snd st) ->
  runs (found_bucket E b) (Some l) (fun r g => g_rep g st /\
    match r with Ret _ => b ∈ fst st | Fail w => sp_status w = Some 404 /\ b ∉ fst st \/ sp_status w = Some 500 | Panic => False end).
Proof.
  intros Hb Hv (m & Hl & Hr). unfold found_bucket. apply runs_bind, runs_call_or. rewrite HE.
  eapply runs_mono; [by apply (BucketExists_runs valid good rep root K HK b l m (fst st) (snd st))|].
  intros res l' [Hl' Hres]. assert (g_rep (Some l') st) as Hg by (exists l'; split; [done|]; by exists m).
  destruct res as [[]|[]|]; try done.
  - split; [done|]. by left.
  - split; [done|]. by right.
Qed.

Lemma handleDeleteObject_runs b k r l st :
  (b :: k) ∈ K -> rep_at rep root K l (fst st) (snd st) ->
  runs (handleDeleteObject E r b (Join "/" k)) (Some l) (replied (delete_reply b k st)).
Proof.
  intros Hk Hl. assert (clean_comp b) as Hb by (pose proof (key_clean valid root K HK _ Hk) as Hc; by apply Forall_cons in Hc as [? _]).
  assert (valid (path_of (root ++ [b])%list)) as Hv by (apply (valid_way valid good rep root K HK (b :: k) [b]); [done|by exists k]).
  unfold handleDeleteObject. apply runs_bind. eapply runs_mono; [by apply (found_bucket_runs b l st)|].
  intros [u|w|] g [(l1 & -> & Hl1) Hr]; [| |done].
  2: { exists st. split; [|by exists l1]. destruct Hr as [[Hw Hni]|Hw]; eexists; (split; [exact Hw|]); [right; left|right; right; left]; auto. }
  apply runs_bind, runs_call. rewrite HE. eapply runs_mono; [by apply (GetObject_runs valid good rep root K HK b k l1)|].
  intros ob l2 [Hl2 Hob].
  set (st' := (fst st, delete (b :: k) (snd st))).
  assert (forall g, g_rep g st' -> replied (delete_reply b k st) (Ret (write_status 204 new_reply)) g) as Hfin.
  { intros g Hg. exists st'. split; [|done]. exists 204. split; [done|]. by left. }
  assert (forall x : s3_err + ObjectData, runs (call_or (internal_error E new_reply) (DeleteObject (path_of root) (se_clock E) b (Join "/" k));;
      match x with
      | inl _ => mret (write_status 204 new_reply)
      | inr o =>
          quota_count (@SubtractBucketUsage filers kv (se_q_marshal E) (se_q_unmarshal E) b (od_Size o));;
          (let owner := attr (od_Extended o) "s3:owner" in
           let owner0 := if decide (owner = "") then requestQuotaUserID r else owner in
           (if decide (owner0 <> "") then quota_count (@SubtractUserUsage filers kv (se_q_marshal E) (se_q_unmarshal E) owner0 (od_Size o)) else mret tt);;
           mret (write_status 204 new_reply))
      end) (Some l2) (replied (delete_reply b k st))) as Hrest.
  { intros x. apply runs_bind, runs_call_or.
    eapply runs_mono; [by apply (DeleteObject_runs valid good rep (se_clock E) root K HK b k l2 (fst st) (snd st))|].
    intros res l3 Hd. destruct res as [u3|[]|]; try done.
    2: { destruct Hd as [Hd|Hd]; [exists st|exists st']; (split; [|by exists l3]); exists 500; (split; [done|]); right; right; left; auto. }
    destruct x as [e|o]; [apply runs_ret, Hfin; by exists l3|]. apply runs_bind.
    eapply runs_mono; [apply (quota_count_runs _ l3 st'); [intros; by apply add_usage_runs|exact Hd]|].
    intros [u4|w|] g [(l4 & -> & Hl4) Hr4]; try done. cbv zeta. apply runs_bind. case_decide as Hne.
    - eapply runs_mono; [apply (quota_count_runs _ l4 st'); [intros; by apply add_usage_runs|done]|].
      intros [u5|w|] g [Hg Hr5]; try done. apply runs_ret. by apply Hfin.
    - apply runs_ret, runs_ret, Hfin. by exists l4. }
  destruct ob as [o|e|]; [exact (Hrest (inr o))|exact (Hrest (inl e))|done].
Qed.

(** *** PUT of a bucket *)

Definition create_reply (b : string) (st : store) (w : s3_reply) (st' : store) : Prop :=
  let created := st' = ({[b]} ∪ fst st, snd st) in
  exists status, sp_status w = Some status /\
    ((status = 200 /\ b ∉ fst st /\ created) \/ (status = 409 /\ b ∈ fst st /\ st' = st) \/
     (status = 500 /\ (st' = st \/ created)) \/ (status ∈ [400; 403] /\ st' = st)).

Lemma handleCreateBucket_runs b l st :
  clean_comp b -> valid (path_of (root ++ [b])%list) -> rep_at rep root K l (fst st) (snd st) ->
  runs (handleCreateBucket E b) (Some l) (replied (create_reply b st)).
Proof.
  intros Hb Hv Hl. unfold handleCreateBucket. apply runs_bind, runs_call_or. rewrite HE.
  eapply runs_mono; [by apply (CreateBucket_runs valid good rep Hgood (se_clock E) root K HK b l (fst st) (snd st))|].
  intros res l' Hres. destruct res as [u|[]|]; try done.
  - apply runs_ret. destruct Hres as [Hni Hl']. exists ({[b]} ∪ fst st, snd st). split; [|by exists l']. exists 200. split; [done|]. by left.
  - destruct Hres as [Hin Hl']. exists st. split; [|by exists l']. exists 409. split; [done|]. by right; left.
  - destruct Hres as [Hl'|Hl']; [exists st|exists ({[b]} ∪ fst st, snd st)]; (split; [|by exists l']); exists 500; (split; [done|]); right; right; left; auto.
Qed.

(** ** Requests *)

Context (iam : option IdentityAccessManagement).

(** A request for a bucket, when [sc_key] is empty, or for an object. *)
Record s3_call := mkCall { sc_bucket : string; sc_key : list string; sc_request : s3_request; sc_now : Z; sc_version : string }.

Definition special_queries : list string := ["versioning"; "policy"; "cors"; "lifecycle"; "delete"; "uploads"; "uploadId"; "tagging"].

(** The creation of a bucket, or a request for an object whose key is in use. *)
Definition call_ok (c : s3_call) : Prop :=
  let '(mkCall b k r _ _) := c in
  sq_path r = path_of (b :: k) /\ Forall (fun q => sq_query r !! q = None) special_queries /\
  ((k = [] /\ sq_method r = "PUT" /\ clean_comp b /\ valid (path_of (root ++ [b])%list)) \/
   ((b :: k) ∈ K /\ [b; ".sys"; "versioning"] ∈ K /\ sq_method r ∈ ["PUT"; "GET"; "HEAD"; "DELETE"])).

Definition call_spec (c : s3_call) (st : store) (w : s3_reply) (st' : store) : Prop :=
  let '(mkCall b k r _ _) := c in
  if decide (k = []) then create_reply b st w st'
  else if decide (sq_method r = "PUT") then put_reply b k r st w st'
  else if decide (sq_method r = "GET") then get_reply true b k st w st'
  else if decide (sq_method r = "HEAD") then get_reply false b k st w st'
  else delete_reply b k st w st'.

Lemma authorize_runs (P : s3_reply -> store -> Prop) now r action b key next l st :
  (forall w status, sp_status w = Some status -> status ∈ [400; 403] -> P w st) -> rep_at rep root K l (fst st) (snd st) ->
  runs next (Some l) (replied P) -> runs (authorize E iam now r action b key next) (Some l) (replied P).
Proof.
  intros HP Hl Hn. unfold authorize. cbv zeta. case_decide; [done|]. exists st. split; [|by exists l].
  eapply HP; [done|]. unfold auth_status. case_decide; [by left|by right; left].
Qed.

Lemma refused_replies b k r st w status :
  sp_status w = Some status -> status ∈ [400; 403] ->
  put_reply b k r st w st /\ (forall wb, get_reply wb b k st w st) /\ delete_reply b k st w st /\ create_reply b st w st.
Proof.
  intros Hw Hs. assert (status = 400 \/ status = 403) as Hc.
  { apply elem_of_cons in Hs as [->|Hs]; [by left|]. apply elem_of_cons in Hs as [->|Hs]; [by right|by apply not_elem_of_nil in Hs]. }
  split_and!.
  - eapply put_refused; [done|]. destruct Hc as [->| ->]; [by left|by right; left].
  - intros wb. split; [done|]. exists status. split; [done|]. right; right. destruct Hc as [->| ->]; [by left|by right; left].
  - exists status. split; [done|]. by do 3 right.
  - exists status. split; [done|]. by do 3 right.
Qed.

Lemma replied_mono (P Q : s3_reply -> store -> Prop) r g : (forall w st', P w st' -> Q w st') -> replied P r g -> replied Q r g.
Proof. intros HPQ. destruct r as [w|w|]; [..|done]; intros (st' & Hw & Hg); exists st'; auto. Qed.

(** The specification of each method of a request for an object. *)
Lemma call_spec_method b k r now vid st w st' :
  k <> [] ->
  (sq_method r = "PUT" /\ put_reply b k r st w st') \/ (sq_method r = "GET" /\ get_reply true b k st w st') \/
  (sq_method r = "HEAD" /\ get_reply false b k st w st') \/ (sq_method r = "DELETE" /\ delete_reply b k st w st') ->
  call_spec (mkCall b k r now vid) st w st'.
Proof. intros Hk Hc. cbn [call_spec]. rewrite decide_False by done. by destruct Hc as [[-> ?]|[[-> ?]|[[-> ?]|[-> ?]]]]. Qed.

Ltac solve_method :=
  first [left; split; [reflexivity|by auto]|right; left; split; [reflexivity|by auto]|
         right; right; left; split; [reflexivity|by auto]|right; right; right; split; [reflexivity|by auto]].

Lemma serve_call uid c l st :
  call_ok c -> rep_at rep root K l (fst st) (snd st) ->
  exists w g st', serve E iam (sc_now c) uid (sc_version c) (sc_request c) (Some l) = (Some w, g) /\ call_spec c st w st' /\ g_rep g st'.
Proof.
  destruct c as [b k r now vid]. cbn [sc_now sc_version sc_request call_ok call_spec]. intros (Hp & Hq & Hok) Hl.
  assert (Forall (fun q => hasQueryKey r q = false) special_queries) as Hno.
  { eapply Forall_impl; [exact Hq|]. intros q Hn. cbn in Hn. unfold hasQueryKey. rewrite Hn. by apply bool_decide_eq_false; intros []. }
  enough (runs (handle E iam now uid vid r) (Some l) (replied (call_spec (mkCall b k r now vid) st))) as Hrun.
  { unfold runs, serve in *. destruct (handle _ _ _ _ _ _ _) as [[w|w|] g]; [..|done]; destruct Hrun as (st' & Hw & Hg); by exists w, g, st'. }
  assert (clean (b :: k)) as Hcl.
  { destruct Hok as [(-> & _ & Hb & _)|(Hk & _)]; [by constructor|by apply (key_clean valid root K HK)]. }
  unfold handle. rewrite Hp, splitBucketAndKey_spec by done. pose proof Hcl as [Hb Hk']%Forall_cons. rewrite decide_False by apply Hb.
  assert (forall w status, sp_status w = Some status -> status ∈ [400; 403] -> call_spec (mkCall b k r now vid) st w st) as Href.
  { intros w status Hw Hs. destruct (refused_replies b k r st w status Hw Hs) as (? & ? & ? & ?). cbn [call_spec]. repeat case_decide; auto. }
  unfold special_queries in Hno. rewrite !Forall_cons in Hno. destruct Hno as (Q1 & Q2 & Q3 & Q4 & Q5 & Q6 & Q7 & Q8 & _).
  destruct Hok as [(-> & Hm & _ & Hv)|(Hk & Hver & Hm)].
  - rewrite Hm. rewrite decide_False, decide_True by done. unfold handleBucketLevel. rewrite Q1, Q2, Q3, Q4, Q5, Hm, decide_True by done. apply authorize_runs with st; [done|done|]. by apply handleCreateBucket_runs.
  - assert (k <> []) as Hne by (intros ->; destruct (ko_key _ _ _ HK _ Hk) as (_ & Hlen & _); cbn in Hlen; lia).
    assert (Join "/" k <> "") as HJ.
    { intros EJ. apply Hne. apply Join_inj; [by apply clean_comps_ok|constructor|done]. }
    assert (sq_method r = "PUT" \/ sq_method r = "GET" \/ sq_method r = "HEAD" \/ sq_method r = "DELETE") as Hm' by (by rewrite !elem_of_cons, elem_of_nil in Hm; tauto).
    rewrite decide_False by (intros EO; rewrite EO in Hm'; naive_solver). rewrite decide_False by done.
    unfold handleObjectLevel. rewrite Q6, Q7, Q8. cbn [andb].
    eapply runs_mono; [|intros res g; apply replied_mono; intros w st'; by apply call_spec_method].
    destruct Hm' as [Em|[Em|[Em|Em]]]; rewrite Em; cbn; (apply authorize_runs with st; [intros w status Hw Hs; destruct (refused_replies b k r st w status Hw Hs) as (? & ? & ? & ?); solve_method|done|]);
      (eapply runs_mono; [|intros res g; apply replied_mono; intros w st' Hr']; [by first [apply handlePutObject_runs|apply handleGetObject_runs|apply handleDeleteObject_runs]|solve_method]).
Qed.

Fixpoint serve_calls (uid : string) (cs : list s3_call) (g : option filers) : list (option s3_reply) * option filers :=
  match cs with
  | [] => ([], g)
  | c :: cs =>
      let '(w, g) := serve E iam (sc_now c) uid (sc_version c) (sc_request c) g in
      let '(ws, g) := serve_calls uid cs g in (w :: ws, g)
  end.

(** A run of the abstract store with the given responses. *)
Inductive call_runs : list s3_call -> store -> list (option s3_reply) -> store -> Prop :=
| call_runs_nil st : call_runs [] st [] st
| call_runs_cons c cs st w st1 ws st2 : call_spec c st w st1 -> call_runs cs st1 ws st2 -> call_runs (c :: cs) st (Some w :: ws) st2.

Lemma serve_calls_runs uid cs : forall l st,
  Forall call_ok cs -> rep_at rep root K l (fst st) (snd st) ->
  let '(ws, g) := serve_calls uid cs (Some l) in exists st', call_runs cs st ws st' /\ g_rep g st'.
Proof.
  induction cs as [|c cs IH]; intros l st Hok Hl; cbn [serve_calls].
  { exists st. split; [constructor|by exists l]. }
  apply Forall_cons in Hok as [Hc Hok]. destruct (serve_call uid c l st Hc Hl) as (w & g & st1 & -> & Hw & (l1 & -> & Hl1)).
  specialize (IH l1 st1 Hok Hl1). destruct (serve_calls uid cs (Some l1)) as [ws g2]. destruct IH as (st' & Hr & Hg). exists st'.
  split; [by econstructor|done].
Qed.
End objects.


(** ** Examples *)

Definition req_keys : list (list string) := [["b"; "a"; "x"]; ["b"; ".sys"; "versioning"]].

Definition plain_request (method path : string) (body : bytes) : s3_request :=
  mkS3Request method "s3.local" path ∅ (fun h => if decide (h = "content-type") then ["text/plain"] else []) (Some body).

Definition req_calls : list s3_call :=
  [mkCall "b" [] (plain_request "PUT" "/b" []) 0 ""; mkCall "b" ["a"; "x"] (plain_request "PUT" "/b/a/x" [104; 105]) 0 "";
   mkCall "b" ["a"; "x"] (plain_request "GET" "/b/a/x" []) 0 ""; mkCall "b" ["a"; "x"] (plain_request "DELETE" "/b/a/x" []) 0 "";
   mkCall "b" ["a"; "x"] (plain_request "HEAD" "/b/a/x" []) 0 ""].

Lemma req_keys_ok : keys_ok abs_path sample_root req_keys.
Proof.
  split.
  - by apply (bool_decide_unpack _); vm_compute.
  - intros k Hk. repeat (apply elem_of_cons in Hk as [->|Hk]; [split; [by apply (bool_decide_unpack _); vm_compute|]; split; [cbn; lia|]; eexists; split; [|done]; by apply (bool_decide_unpack _); vm_compute|]).
    by apply not_elem_of_nil in Hk.
  - assert (Forall (fun k1 => Forall (fun k2 => k1 `prefix_of` k2 -> k1 = k2) req_keys) req_keys) as Hf
      by (apply (bool_decide_unpack _); by vm_compute).
    intros k1 k2 H1 H2. rewrite Forall_forall in Hf. specialize (Hf k1 H1). rewrite Forall_forall in Hf. by apply Hf.
Qed.

Lemma req_calls_ok : Forall (call_ok abs_path sample_root req_keys) req_calls.
Proof.
  assert (clean_comp "b") as Hb by (apply (bool_decide_unpack _); by vm_compute).
  assert (abs_path (path_of (sample_root ++ ["b"])%list)) as Hv by (eexists; split; [|done]; by apply (bool_decide_unpack _); vm_compute).
  assert (["b"; "a"; "x"] ∈ req_keys) as Hk1 by by left. assert (["b"; ".sys"; "versioning"] ∈ req_keys) as Hk2 by by right; left.
  assert (forall m p d, Forall (fun q => sq_query (plain_request m p d) !! q = None) special_queries) as Hq by (intros; repeat constructor).
  unfold req_calls. repeat apply Forall_cons_2; [..|apply Forall_nil_2]; (split; [vm_compute; reflexivity|]); (split; [apply Hq|]);
    first [left; by split_and!|right; split; [done|]; split; [done|]; apply (bool_decide_unpack _); vm_compute; exact I].
Qed.

